(* ===== verification/_CoqProject ===== *)
-Q . S2P
Prelude.v
Problem.v
Digest.v
Json.v
Model.v
Routing.v
Catalog.v
ValidatorProtocol.v
Release.v
RouteStore.v
ServingAuth.v
Scheduler.v
WorkerRegistry.v
Net.v
Discovery.v
GatewayRoute.v
GatewayDiscovery.v
Abi.v
GatewayInvoke.v
AssignmentStore.v
Ledger.v
ControlPlane.v
LocalController.v
LocalOperations.v
LocalHistory.v
LocalSources.v
WorkerAgent.v
WorkerServing.v
WorkerEffects.v
WorkerSafety.v
WorkerSteps.v
WorkerGuarantees.v
WorkerCache.v
WorkerCacheSafety.v
WorkerCacheSteps.v
WorkerCacheGuarantees.v
Rpc.v
LocalWorker.v
LocalServing.v
LocalCore.v
Http.v
GatewayHTTP.v
JsonDecode.v
StrictJson.v
AbiDecode.v
JsonRoundtrip.v
AbiRoundtrip.v
WasmProfile.v
WasmExec.v
WasmRuntime.v
ManagementTypes.v
ManagementHTTP.v
