(* ===== verification/Prelude.v ===== *)
(** * MiniCloud: a verification development

    MiniCloud runs WebAssembly functions.  A control plane keeps Functions,
    their Versions, Routes and Assignments; a scheduler places Assignments on
    Workers; Workers serve invocations only under authorizations that the
    control plane installs.  The control plane publishes per-Function serving
    snapshots at numbered positions; Gateways follow that stream, pick a Route
    target by hashing an affinity key, take one of its Endpoints and call the
    Worker there with the exact fence.  This library models the Go packages
    that carry that logic, under [src/internal] and [src/sdk/go], and proves
    what makes them correct.

    ** How Go is modelled

    - A pure function is a Rocq function.  A function that returns an error is
      in [result]; its chain of early returns is written in source order.  A
      method with a pointer receiver is in the state monad [M]: it maps the
      receiver's state to its new state and its value or error, so that what
      a failing call has already written is visible.  Every such method reads
      and writes the receiver under one hold of its mutex, so one call is one
      step; the one method that does not, [ReleaseStore.CreateVersion], is split in two
      ([CreateVersion_check], [CreateVersion_commit]).
    - Integers are [Z]; arithmetic at a width goes through [u64], [u32] or
      [i64].  Strings and byte slices are [string], compared bytewise.  Named
      string types keep being strings, because values outside the enumeration
      are representable and the validators refuse them.
    - Maps are [gmap].  Where Go iterates over a map, the loop takes the
      iteration order as an argument ([..._in], [gc_records],
      [evaluate_records]) and the result is shown not to depend on it.
    - [time.Time] has a wall reading, a zone offset and an optional monotonic
      reading; monotonic clocks injected into a package are arguments of the
      operations that read them.
    - [slices.SortFunc] is the stable insertion sort; where the comparator
      leaves no ties, [SortFunc_unique] shows that any sort gives that result.
    - Copying a value to hand it out ([slices.Clone], [clone...]) is the
      identity, values being immutable here ([cloneOutcome], which also sorts,
      is modelled); guards against nil receivers and
      nil dependencies, which the constructors exclude, are left out.

    ** Files

    - [Prelude]: Go values, the two monads, time, UTF-8 and patterns, sorting,
      tactics ([go_cases], [ok_inv], [run_inv]), atomic methods by instance
      search ([ReadOnly], [Atomic]), total orders, counting over maps.
    - [Problem] (internal/problem): the stable error codes.
    - [Digest] (internal/digest): executable SHA-256, digest syntax and
      domain-separated digests, over the interface [JCS] of RFC 8785
      canonicalization, a third-party module.
    - [Json]: the part of [json.Marshal] that digests rely on.
    - [Model] (internal/model, internal/wasmprofile): resources and validators.
    - [Routing] (internal/routing): bucket hashing and target selection.
    - [Catalog], [Release], [RouteStore], [AssignmentStore], [Ledger]
      (internal/controlplane: catalog.go, release.go, route.go, assignment.go,
      operation.go): the five control-plane stores.
    - [ValidatorProtocol] (internal/validator/protocol): requests and reports.
    - [ServingAuth] (internal/servingauth): the Worker's serving gate.
    - [Scheduler] (internal/scheduler, internal/workercache/key.go): placement.
    - [WorkerRegistry] (internal/workerregistry): sessions and liveness.
    - [Net]: the parts of [net], [net/netip], [encoding/base64] and [time] that
      addresses and snapshots use.
    - [Discovery] (internal/discovery): the serving snapshot builder, its
      checksum and the Publisher that numbers snapshots.
    - [GatewayRoute] (internal/gatewayroute): the Endpoint balancer and leases.
    - [GatewayDiscovery] (internal/gatewaydiscovery): the Gateway's store of
      serving snapshots.
    - [Abi] (sdk/go/minicloudabi): the invocation envelopes, their limits,
      validation and encoding.
    - [GatewayInvoke] (internal/gatewayinvoke): one invocation end to end.
    - [ControlPlane]: the stores composed, as a transition system.
    - [LocalController], [LocalOperations], [LocalSources]
      (internal/localcontroller): the controller that owns the stores, the
      idempotent operations over the ledger, and the default command, identifier,
      salt and token sources.  The other dependencies are the interface
      [Sources].  Methods that release the lock take what other callers do
      meanwhile as an argument.
    - [LocalHistory]: histories of calls to the controller.
    - [WorkerAgent] (internal/workeragent): the regions that run under the mutex of
      the Worker agent, which prepares Replicas, admits invocations to them and
      releases their compiled modules, and its limiter; [WorkerServing]: the
      goroutines that run these regions, in any interleaving;
      [WorkerEffects], [WorkerSafety], [WorkerSteps]: effects, invariant and its
      preservation; [WorkerGuarantees]: what follows.
    - [WorkerCache] (internal/workercache): the compiled-module cache, its load
      gate and its loader, as regions under the mutex and the goroutines that
      run them; [WorkerCacheSafety], [WorkerCacheSteps]: the invariant and its
      preservation; [WorkerCacheGuarantees]: what follows.
    - [Rpc] (internal/rpc): limits, versions, bounded messages, deadline budgets
      and the peer limiter.
    - [LocalWorker] (internal/localworker): the reconciler that drives an agent,
      the interface [AgentOps], towards the committed Assignments, and the
      resolver.
    - [LocalServing] (internal/localserving): the Full Sync from the aggregate
      read to the Gateway's store, over the interface [CandidateSource] with the
      laws [CandidateLaws], which the reconciler satisfies.
    - [LocalCore] (internal/localcore): placement, the convergence pass over all
      components of the process, its construction, configuration and lifetime.
    - [Http]: the parts of [net/http], [net/url] and [strings] behind the HTTP
      boundaries; [GatewayHTTP] (internal/gatewayhttp): the public boundary, its
      slots and its server.
    - [JsonDecode]: the token stream of [encoding/json] and storing values;
      [StrictJson] (internal/strictjson): bounded, unambiguous JSON, with a
      grammar to compare it with.
    - [AbiDecode], [JsonRoundtrip], [AbiRoundtrip] (sdk/go/minicloudabi):
      decoding of the envelopes, what printed JSON reads back as, the round trip.
    - [WasmProfile] (internal/wasmprofile, internal/validator/engine): which
      modules are admitted; [WasmExec], [WasmRuntime] (internal/wasmexec): limits,
      bounded streams, lifecycles, and the Engine and its Programs run by
      concurrent goroutines.  The wazero runtime is a parameter.
    - [ManagementTypes], [ManagementHTTP] (internal/managementhttp): the bodies
      and views of the management API, and its handler on the local controller.

    ** What is proved

    - End to end: whatever happens in the process, the Gateway returns only
      Endpoints whose Assignment the control plane committed for the Function,
      under a Ready Version and its effective policy
      ([traffic_reaches_admitted_versions]); placement leaks no planner decision,
      a pass that returns nil settles every servable Function or withdraws its
      superseded placement, and whole further passes keep what is settled
      ([placement_settles]); the runtime releases its resources in order
      ([lifetime_order]).

    - Control plane: with CreateVersion's check and commit interleaved with any
      other calls the system refines the atomic one
      ([concurrent_refines_atomic]); in every reachable state the stores agree
      and the aggregate serving read succeeds ([control_plane_consistent],
      [ServingStates_total]).
    - Releases follow the Version state machine ([version_lifecycle_refinement])
      and validator reports are fenced ([validation_fencing]).  Routes are
      published by compare-and-swap ([Publish_CAS]); Functions and tokens change
      by revision ([lifecycle_single_winner], [CreateFunction_roundtrip],
      [rotation_replaces_verifier]); a refused command changes nothing.
    - Assignments: only what the admitted policy allows is installed, at most
      one placement of a target is live, identities are never reused.
    - Ledger: a completed operation takes effect once and is replayed
      ([completion_replay], [complete_atomic]); collection is exact and
      independent of iteration order; a path has one canonical spelling.
    - Local controller: an operation takes effect once, whatever the other
      callers do ([operation_exactly_once]), and all or nothing: its record
      matches the stores, and a terminal refusal by the stores is recorded
      ([operation_all_or_nothing]); after any history the listings succeed, and
      Functions, Routes, Versions, Deployments, Assignments and outcomes can
      still be read ([controller_history]); the default sources never fail
      ([default_sources_total]).
    - Serving gate: authorizations are sound, stale fences are refused for ever
      and time-limited ones expire exactly ([AuthorizeSync_sound],
      [stale_fence_refused_forever], [ttl_exact_expiry]).
    - Scheduler: the best placeable Worker is chosen, independent of input
      order, if and only if there is one; decisions are retained until
      acknowledged; only a current Leader barrier allows new ones.
    - Worker registry: Ready Workers are registered under their highest session
      with the inventory it reported, old sessions and removed identities are
      fenced for ever, liveness follows the heartbeat exactly, removal rests on
      a drain proof.
    - Routing: selection is total, weights are exact over the 10000 buckets, the
      hash preimage is injective, target order is irrelevant.
    - Serving snapshots: exactly the candidates that satisfy every condition are
      published ([Build_publishes_exactly]), well-formed inputs always build
      ([Build_total]), positions are never reused ([publisher_sequence]).
    - Gateway store: whatever the delivery order, a synchronized store holds the
      view that was published at its position ([watch_consistency]); each event
      is accepted or refused exactly ([Apply_outcome]); views are fresh and
      valid ([Lookup_sound]); local suppressions last ([suppression_sticky]).
    - Gateway calls: the least loaded Endpoint is taken and counts are exact
      ([Acquire_least_loaded], [inflight_accounting]); an invocation reaches
      only a Worker that the control plane published for the selected target,
      with its fence ([Invoke_fenced], over the store, the balancer, the router
      and the builder together).
    - Worker agent, under every schedule of its goroutines: it does not panic,
      each lease of a compiled module is released once and only when unused
      ([lease_discipline]); a guest starts only under a current authorization of
      its fence ([acceptance_sound]); concurrency, queues and Replicas are bounded
      ([agent_bounds]); shutdown terminates ([close_terminates]).
    - Module cache, under every schedule: it does not panic, a program in use is
      never closed and none is closed twice ([program_lifetime]); programs were
      compiled from the bytes that the requested key names ([cache_integrity]);
      entries, weight and loads are bounded ([cache_bounds]); eviction is least
      recently used and minimal ([victims_least_recent]); a successful [Close]
      has closed every program ([close_complete]).
    - Local Worker: what is offered is committed, authorized and Ready
      ([candidates_sound]), exactly so after a Reconcile without an error
      ([reconcile_converges]); the agent prepares a committed placement unless
      one of six stated reasons holds ([committed_assignment_prepares], over the
      stores and the agent's [Prepare]).
    - Full Sync: all or nothing, one snapshot per Function with exactly the
      publishable candidates among the source's answer for it
      ([full_sync_outcome], [served_endpoints_committed]).
    - RPC: budgets shrink along every chain of hops ([budget_only_shrinks]),
      permits are exact under every schedule ([peer_limiter_sound]), messages
      round-trip within the limit ([message_roundtrip]).
    - Envelopes: requests normalize to a fixed point within the limits
      ([normalizeRequest_canonical]), limits only narrow ([Tighten_narrows]), and
      what one end encodes the other decodes ([envelope_roundtrip]).
    - Strict JSON: accepted are exactly the documents of the grammar within the
      depth and without repeated keys ([Validate_equivalence]).
    - Public HTTP: a guest is invoked only for an authorized request, within the
      slots and with confined headers ([ServeHTTP_authorized]); every request is
      answered once and returns its slot ([ServeHTTP_answers], [slots_bounded]).
    - Wasm: validator and Worker admit the same modules
      ([validator_and_worker_agree]); a guest's output and log stay bounded and its
      end is classified ([instance_contained]); engine and programs are closed
      only when unused, under every schedule ([execution_safe]).
    - Management HTTP: a write needs the token and its preconditions and leaves a
      record ([management_writes_recorded]); a repeated request is answered from
      it ([management_retry]); reads show no secret ([reads_confidential]).

    Invariants are stated per component ([catalog_inv], [release_inv],
    [stores_inv], [assignment_inv], [ledger_inv], [gate_inv], [planner_inv],
    [registry_inv], [accounted], [consistent], [cp_inv], [ctl_inv], [winv],
    [rinv], [sys_inv], [rt_inv]), hold initially, and are preserved by every
    operation; histories are arbitrary lists of calls, whatever they return.

    ** Recursion and bounds

    All recursion is structural.  Where the code loops over input, the model
    takes fuel that the input bounds: [absorb] in SHA-256 has the number of
    message words, of which each round takes sixteen; [ipv6_groups] in [Net] and
    [ipv6_bytes] in [Http] have the number of groups an address has; the readers
    of [JsonDecode], [StrictJson], [AbiDecode], [Http] and [WasmProfile] have the
    length of the input, or a little over twice that for the token walk, and each
    step takes at least one byte or token.  [Validate_equivalence] and
    [envelope_roundtrip] are about whole documents, so that they would fail with
    too little fuel; the test vectors of FIPS 180-4 and the published routing
    vector are checked by evaluation.

    ** Not modelled

    RPC transports, listeners, tickers, process control, the artifact files, the
    validator's stream framing and operating-system limits are input and output;
    the wazero runtime, RFC 8785 canonicalization, the token bucket and the
    redirects of the standard mux are third-party or library code and parameters.
    The ledger and the controller are stated against the interface [StrictJSON],
    of which [StrictJson] is the instance that the management API uses.
    StateDigest of the catalog, the coverage tool and the commands are left
    out. *)
From stdpp Require Import base gmap strings list sorting.
From Stdlib Require Import ZArith Lia.

#[export] Set Default Goal Selector "!".

Declare Scope go_scope.
Delimit Scope go_scope with go.
Open Scope Z_scope.
Open Scope go_scope.

(** ** Go values *)

(** Go's [==] and [!=] on comparable types (strings, integers, structs,
    pointers compared by the value they are compared for). *)
Notation "x == y" := (bool_decide (x = y)) (at level 70, no associativity) : go_scope.
Notation "x != y" := (negb (bool_decide (x = y))) (at level 70, no associativity) : go_scope.

(** Machine integers are [Z]; every arithmetic operation that the code
    performs at a width goes through one of these. *)
Definition u64 (x : Z) : Z := x mod 2 ^ 64.
Definition u32 (x : Z) : Z := x mod 2 ^ 32.
Definition i64 (x : Z) : Z := (x + 2 ^ 63) mod 2 ^ 64 - 2 ^ 63.

Definition maxUint64 : Z := 2 ^ 64 - 1.
Definition maxUint32 : Z := 2 ^ 32 - 1.

Definition is_u64 (x : Z) : Prop := 0 <= x < 2 ^ 64.
Definition is_u32 (x : Z) : Prop := 0 <= x < 2 ^ 32.

Definition len {A} (l : list A) : Z := Z.of_nat (length l).
Definition strlen (s : string) : Z := Z.of_nat (String.length s).

(** The bytes of a Go string. *)
Definition codes (s : string) : list Z :=
  map (fun c => Z.of_N (Ascii.N_of_ascii c)) (String.list_ascii_of_string s).

(** [a < b] on Go strings: bytewise lexicographic. *)
Definition str_lt (a b : string) : bool :=
  match String.compare a b with Lt => true | _ => false end.

(** [strings.Compare]. *)
Definition to_int (c : comparison) : Z :=
  match c with Lt => -1 | Eq => 0 | Gt => 1 end.
Definition strings_Compare (a b : string) : Z := to_int (String.compare a b).

(** ** Errors

    The shapes of error value the modelled packages build: [*problem.Error],
    [errors.New], [fmt.Errorf("...: %w", err)], the control plane's
    [*RevisionConflict], an error variable of a package that [errors.Is] looks
    for, and [errors.Join] (of more than two, nested to the right). *)
Inductive error :=
| ProblemError (code message field : string)
| PlainError (message : string)
| WrapError (context : string) (inner : error)
| RevisionConflictError (kind : string) (expected actual : Z)
| SentinelError (message : string)
| JoinError (first second : error).

#[global] Instance error_eq_dec : EqDecision error.
Proof. solve_decision. Defined.

Inductive result (A : Type) :=
| Ok (a : A)
| Err (e : error).
Arguments Ok {A} a.
Arguments Err {A} e.

Definition is_ok {A} (r : result A) : bool :=
  match r with Ok _ => true | Err _ => false end.

Definition rbind {A B} (r : result A) (k : A -> result B) : result B :=
  match r with Ok a => k a | Err e => Err e end.

(** [if cond { return err }]. *)
Definition fail_if (cond : bool) (e : error) : result unit :=
  if cond then Err e else Ok tt.

(** [if err != nil { return fmt.Errorf(context + ": %w", err) }]. *)
Definition wrap_err {A} (context : string) (r : result A) : result A :=
  match r with Ok a => Ok a | Err e => Err (WrapError context e) end.

(** [errors.Is(err, target)] for an error variable. *)
Fixpoint errors_Is (message : string) (e : error) : bool :=
  match e with
  | SentinelError m => m == message
  | WrapError _ inner => errors_Is message inner
  | JoinError first second => errors_Is message first || errors_Is message second
  | _ => false
  end.

(** [if err != nil { return e }]. *)
Definition replace_err {A} (e : error) (r : result A) : result A :=
  match r with Ok a => Ok a | Err _ => Err e end.

Notation "x <- r ;; k" := (rbind r (fun x => k))
  (at level 100, r at next level, right associativity) : go_scope.
Notation "r ;;; k" := (rbind r (fun _ => k))
  (at level 100, right associativity) : go_scope.

(** A [range] loop that returns on the first error. *)
Fixpoint for_each {A} (f : A -> result unit) (l : list A) : result unit :=
  match l with
  | [] => Ok tt
  | x :: l' => f x ;;; for_each f l'
  end.

(** A loop that appends one result per element, or returns the first error. *)
Fixpoint map_result {A B} (f : A -> result B) (l : list A) : result (list B) :=
  match l with
  | [] => Ok []
  | x :: l' => y <- f x ;; ys <- map_result f l' ;; Ok (y :: ys)
  end.

(** The same loop with a [seen] set that rejects a repeated key. *)
Fixpoint for_each_unique {A K} `{Countable K} (check : A -> result unit) (key : A -> K)
    (duplicate : error) (seen : gset K) (l : list A) : result unit :=
  match l with
  | [] => Ok tt
  | x :: l' =>
    check x ;;;
    fail_if (bool_decide (key x ∈ seen)) duplicate ;;;
    for_each_unique check key duplicate ({[ key x ]} ∪ seen) l'
  end.

(** ** Methods that mutate their receiver

    A method with a pointer receiver maps the receiver's state to its new
    state and the returned value or error.  Every such method of the
    modelled packages runs under the receiver's mutex, so one call is one
    atomic step. *)
Definition M (S A : Type) : Type := S -> S * result A.

Definition sret {S A} (a : A) : M S A := fun s => (s, Ok a).
Definition sthrow {S A} (e : error) : M S A := fun s => (s, Err e).
Definition slift {S A} (r : result A) : M S A := fun s => (s, r).
Definition sget {S} : M S S := fun s => (s, Ok s).
Definition sput {S} (s' : S) : M S unit := fun _ => (s', Ok tt).
Definition sbind {S A B} (m : M S A) (k : A -> M S B) : M S B :=
  fun s => match m s with
           | (s', Ok a) => k a s'
           | (s', Err e) => (s', Err e)
           end.

Notation "'let!' x := m 'in' k" := (sbind m (fun x => k))
  (at level 10, x name, m at level 100, k at level 200) : go_scope.
Notation "'do!' m 'in' k" := (sbind m (fun _ => k))
  (at level 10, m at level 100, k at level 200) : go_scope.

(** ** [time.Time]

    The wall clock is nanoseconds since January 1, year 1 UTC (so that the
    zero [Time] is 0), with the zone offset in seconds and the optional
    monotonic reading that [time.Now] attaches. *)
Record Time := {
  t_wall : Z;
  t_offset : Z;
  t_mono : option Z;
}.

#[global] Instance Time_eq_dec : EqDecision Time.
Proof. solve_decision. Defined.

Definition time_IsZero (t : Time) : bool := t_wall t =? 0.
Definition time_IsUTC (t : Time) : bool := t_offset t =? 0.

(** Comparisons use the monotonic readings only when both values have one. *)
Definition time_compare (t u : Time) : comparison :=
  match t_mono t, t_mono u with
  | Some a, Some b => Z.compare a b
  | _, _ => Z.compare (t_wall t) (t_wall u)
  end.
Definition time_Before (t u : Time) : bool :=
  match time_compare t u with Lt => true | _ => false end.
Definition time_After (t u : Time) : bool :=
  match time_compare t u with Gt => true | _ => false end.
Definition time_Equal (t u : Time) : bool :=
  match time_compare t u with Eq => true | _ => false end.

(** [t.Round(0)] strips the monotonic reading. *)
Definition time_Round0 (t : Time) : Time :=
  {| t_wall := t_wall t; t_offset := t_offset t; t_mono := None |}.

(** [t.UnixMilli()]: milliseconds since 1970, rounded down. *)
Definition time_UnixMilli (t : Time) : Z := (t_wall t - 719162 * 86400 * 1000000000) / 1000000.

(** [t.Add(d)]: the monotonic reading is dropped when it would overflow. *)
Definition time_Add (t : Time) (d : Z) : Time :=
  {| t_wall := t_wall t + d; t_offset := t_offset t;
     t_mono := match t_mono t with
               | Some m => if (m + d) == i64 (m + d) then Some (m + d) else None
               | None => None
               end |}.

(** [time.Duration] units, in nanoseconds. *)
Definition millisecond : Z := 1000000.
Definition second : Z := 1000 * millisecond.
Definition minute : Z := 60 * second.
Definition hour : Z := 60 * minute.

(** ** Byte patterns: UTF-8 validity and the anchored regular expressions *)

Definition in_range (lo hi b : Z) : bool := (lo <=? b) && (b <=? hi).

(** [utf8.ValidString] on the bytes of the string. *)
Fixpoint utf8_valid (l : list Z) : bool :=
  match l with
  | [] => true
  | b0 :: l0 =>
    if in_range 0 0x7F b0 then utf8_valid l0
    else match l0 with
    | [] => false
    | b1 :: l1 =>
      if in_range 0xC2 0xDF b0 then in_range 0x80 0xBF b1 && utf8_valid l1
      else match l1 with
      | [] => false
      | b2 :: l2 =>
        if in_range 0xE0 0xEF b0 then
          in_range (if b0 =? 0xE0 then 0xA0 else 0x80)
                   (if b0 =? 0xED then 0x9F else 0xBF) b1
          && in_range 0x80 0xBF b2 && utf8_valid l2
        else match l2 with
        | [] => false
        | b3 :: l3 =>
          in_range 0xF0 0xF4 b0
          && in_range (if b0 =? 0xF0 then 0x90 else 0x80)
                      (if b0 =? 0xF4 then 0x8F else 0xBF) b1
          && in_range 0x80 0xBF b2 && in_range 0x80 0xBF b3 && utf8_valid l3
        end
      end
    end
  end.

Definition utf8_ValidString (s : string) : bool := utf8_valid (codes s).

Definition is_lower (b : Z) : bool := in_range 97 122 b.
Definition is_upper (b : Z) : bool := in_range 65 90 b.
Definition is_digit (b : Z) : bool := in_range 48 57 b.
Definition is_alnum (b : Z) : bool := is_upper b || is_lower b || is_digit b.
Definition one_of (s : string) (b : Z) : bool := existsb (Z.eqb b) (codes s).

(** [^[class]{lo,hi}$] *)
Definition match_class (class : Z -> bool) (lo hi : Z) (s : string) : bool :=
  (lo <=? strlen s) && (strlen s <=? hi) && forallb class (codes s).

(** [^[first][rest]{0,more}$] *)
Definition match_first (first rest : Z -> bool) (more : Z) (s : string) : bool :=
  match codes s with
  | [] => false
  | b :: l => first b && forallb rest l && (len l <=? more)
  end.

(** ** Sorting

    [slices.SortFunc] with the stable insertion sort that Go's pattern
    defeating quicksort runs on short slices.  Where the comparator leaves no
    ties the result does not depend on this choice, see
    [SortFunc_unique] below. *)
Fixpoint insert_cmp {A} (cmp : A -> A -> Z) (x : A) (l : list A) : list A :=
  match l with
  | [] => [x]
  | y :: l' => if cmp x y <? 0 then x :: y :: l' else y :: insert_cmp cmp x l'
  end.

Definition SortFunc {A} (cmp : A -> A -> Z) (l : list A) : list A :=
  foldl (fun acc x => insert_cmp cmp x acc) [] l.

(** ** Automation

    [go_cases] turns the boolean tests of the code in the context into the
    propositions they decide; [ok_inv] takes apart the success of a chain of
    early returns. *)
Create HintDb go.

Lemma rbind_Ok {A B} (r : result A) (k : A -> result B) b :
  rbind r k = Ok b <-> exists a, r = Ok a /\ k a = Ok b.
Proof. destruct r; simpl; naive_solver. Qed.

Lemma rbind_is_ok {A} (r : result unit) (k : result A) :
  is_ok (r ;;; k) = is_ok r && is_ok k.
Proof. by destruct r. Qed.

Lemma Ok_inj {A} (a b : A) : Ok a = Ok b -> a = b.
Proof. congruence. Qed.

Lemma fail_if_Ok c e u : fail_if c e = Ok u <-> c = false.
Proof. destruct c, u; simpl; naive_solver. Qed.

Lemma wrap_err_Ok {A} ctx (r : result A) a : wrap_err ctx r = Ok a <-> r = Ok a.
Proof. destruct r; simpl; naive_solver. Qed.

Lemma replace_err_Ok {A} e (r : result A) a : replace_err e r = Ok a <-> r = Ok a.
Proof. destruct r; simpl; naive_solver. Qed.

Lemma is_ok_true {A} (r : result A) : is_ok r = true <-> exists a, r = Ok a.
Proof. destruct r; simpl; naive_solver. Qed.

Lemma is_ok_unit (r : result unit) : is_ok r = true <-> r = Ok tt.
Proof. destruct r as [[]|]; simpl; naive_solver. Qed.

Lemma for_each_Ok {A} (f : A -> result unit) l u :
  for_each f l = Ok u <-> Forall (fun x => f x = Ok tt) l.
Proof.
  destruct u. induction l as [|x l IH]; simpl; [by split|].
  rewrite rbind_Ok, Forall_cons, <-IH.
  split; [intros ([] & ? & ?)|intros []]; eauto.
Qed.

(** Acceptance by a loop over a Go map does not depend on iteration order. *)
Lemma for_each_Permutation {A} (f : A -> result unit) l l' :
  l ≡ₚ l' -> is_ok (for_each f l) = is_ok (for_each f l').
Proof.
  intros Hp. apply eq_true_iff_eq. rewrite !is_ok_unit, !for_each_Ok.
  by rewrite Hp.
Qed.

Lemma map_result_Ok {A B} (f : A -> result B) l ys :
  map_result f l = Ok ys <-> Forall2 (fun x y => f x = Ok y) l ys.
Proof.
  revert ys. induction l as [|x l IH]; intros ys; simpl.
  { split; [by intros [= <-]|]. by inversion 1. }
  rewrite rbind_Ok. setoid_rewrite rbind_Ok. setoid_rewrite IH. split.
  - intros (y & ? & ys' & ? & [= <-]). by constructor.
  - inversion 1; subst. naive_solver.
Qed.

Lemma map_result_total {A B} (f : A -> result B) l :
  (forall x, x ∈ l -> exists y, f x = Ok y) -> exists ys, map_result f l = Ok ys.
Proof.
  induction l as [|x l IH]; intros Hf; simpl; [by eexists|].
  destruct (Hf x) as [y ->]; [set_solver|]. destruct IH as [ys ->]; [set_solver|]. by eexists.
Qed.

(** A loop none of whose iterations fails is a [map]. *)
Lemma map_result_map {A B} (f : A -> result B) (g : A -> B) l :
  (forall x, x ∈ l -> f x = Ok (g x)) -> map_result f l = Ok (map g l).
Proof.
  induction l as [|x l IH]; intros Hf; simpl; [done|].
  rewrite Hf, IH by set_solver. done.
Qed.

Lemma for_each_unique_Ok {A K} `{Countable K} check (key : A -> K) dup seen l u :
  for_each_unique check key dup seen l = Ok u <->
  Forall (fun x => check x = Ok tt) l /\ NoDup (key <$> l) /\ (forall x, x ∈ l -> key x ∉ seen).
Proof.
  destruct u. revert seen. induction l as [|x l IH]; intros seen; simpl.
  { split; [|done]. intros _. split_and!; [done|constructor|set_solver]. }
  rewrite rbind_Ok, Forall_cons, NoDup_cons. setoid_rewrite rbind_Ok.
  setoid_rewrite fail_if_Ok. setoid_rewrite IH. setoid_rewrite bool_decide_eq_false. split.
  - intros ([] & ? & [] & ? & Hl & Hnd & Hs). split_and!; [done..| | |set_solver]; [|done].
    intros (y & Hy & Hin)%list_elem_of_fmap. specialize (Hs y Hin). set_solver.
  - intros ([Hx Hl] & [Hnx Hnd] & Hs). exists tt. split; [done|]. exists tt.
    split; [set_solver|]. split_and!; [done..|].
    intros y Hy. specialize (Hs y). rewrite list_elem_of_fmap in Hnx. set_solver.
Qed.

Lemma for_each_unique_Permutation {A K} `{Countable K} check (key : A -> K) dup l l' :
  l ≡ₚ l' -> is_ok (for_each_unique check key dup ∅ l) = is_ok (for_each_unique check key dup ∅ l').
Proof.
  intros Hp. apply eq_true_iff_eq. rewrite !is_ok_unit, !for_each_unique_Ok.
  rewrite Hp. setoid_rewrite Hp. done.
Qed.

Ltac go_cases :=
  repeat match goal with
  | H : context [negb _ = false] |- _ => rewrite negb_false_iff in H
  | H : context [negb _ = true] |- _ => rewrite negb_true_iff in H
  | H : (_ || _) = false |- _ => apply orb_false_iff in H as [? ?]
  | H : (_ && _) = true |- _ => apply andb_true_iff in H as [? ?]
  | H : (_ || _) = true |- _ => apply orb_true_iff in H
  | H : (_ && _) = false |- _ => apply andb_false_iff in H
  | H : bool_decide _ = true |- _ => apply bool_decide_eq_true in H
  | H : bool_decide _ = false |- _ => apply bool_decide_eq_false in H
  | H : context [bool_decide _ = true] |- _ => rewrite bool_decide_eq_true in H
  | H : context [bool_decide _ = false] |- _ => rewrite bool_decide_eq_false in H
  | H : (_ <? _) = true |- _ => apply Z.ltb_lt in H
  | H : (_ <? _) = false |- _ => apply Z.ltb_ge in H
  | H : (_ <=? _) = true |- _ => apply Z.leb_le in H
  | H : (_ <=? _) = false |- _ => apply Z.leb_gt in H
  | H : (_ =? _) = true |- _ => apply Z.eqb_eq in H
  | H : (_ =? _) = false |- _ => apply Z.eqb_neq in H
  | H : (_ >? _) = true |- _ => rewrite Z.gtb_ltb in H
  | H : (_ >? _) = false |- _ => rewrite Z.gtb_ltb in H
  | H : (_ >=? _) = true |- _ => rewrite Z.geb_leb in H
  | H : (_ >=? _) = false |- _ => rewrite Z.geb_leb in H
  end.

Ltac ok_inv :=
  repeat match goal with
  | H : rbind _ _ = Ok _ |- _ =>
      let a := fresh "a" in let H1 := fresh H in
      apply rbind_Ok in H as (a & H1 & H);
      match type of a with unit => destruct a | _ => idtac end
  | H : fail_if _ _ = Ok _ |- _ => apply fail_if_Ok in H
  | H : wrap_err _ _ = Ok _ |- _ => apply wrap_err_Ok in H
  | H : replace_err _ _ = Ok _ |- _ => apply replace_err_Ok in H
  | H : Ok _ = Ok _ |- _ => apply Ok_inj in H
  | H : Err _ = Ok _ |- _ => discriminate H
  end; go_cases.

(** ** Atomic methods

    [ReadOnly m]: [m] leaves the receiver alone.  [Atomic m]: a call that
    returns an error leaves the receiver as it was.  Both are closed under the
    sequencing the code uses, so that a whole handler is shown atomic by
    instance search. *)
Class ReadOnly {S A} (m : M S A) : Prop := read_only : forall s, fst (m s) = s.
Class NeverFails {S A} (m : M S A) : Prop := never_fails : forall s, is_ok (snd (m s)) = true.
Class Atomic {S A} (m : M S A) : Prop :=
  atomic : forall s s' e, m s = (s', Err e) -> s' = s.

#[global] Instance sret_ReadOnly {S A} (a : A) : ReadOnly (S:=S) (sret a).
Proof. by intros s. Qed.
#[global] Instance sthrow_ReadOnly {S A} e : ReadOnly (S:=S) (A:=A) (sthrow e).
Proof. by intros s. Qed.
#[global] Instance slift_ReadOnly {S A} (r : result A) : ReadOnly (S:=S) (slift r).
Proof. by intros s. Qed.
#[global] Instance sget_ReadOnly {S} : ReadOnly (S:=S) sget.
Proof. by intros s. Qed.
#[global] Instance sbind_ReadOnly {S A B} (m : M S A) (k : A -> M S B) :
  ReadOnly m -> (forall a, ReadOnly (k a)) -> ReadOnly (sbind m k).
Proof.
  intros Hm Hk s. unfold sbind. specialize (Hm s).
  destruct (m s) as [s' [a|e]]; simpl in *; subst; [apply Hk|done].
Qed.

#[global] Instance sret_NeverFails {S A} (a : A) : NeverFails (S:=S) (sret a).
Proof. by intros s. Qed.
#[global] Instance sput_NeverFails {S} (s0 : S) : NeverFails (sput s0).
Proof. by intros s. Qed.
#[global] Instance sbind_NeverFails {S A B} (m : M S A) (k : A -> M S B) :
  NeverFails m -> (forall a, NeverFails (k a)) -> NeverFails (sbind m k).
Proof.
  intros Hm Hk s. unfold sbind. specialize (Hm s).
  destruct (m s) as [s' [a|e]]; simpl in *; [apply Hk|done].
Qed.

#[global] Instance ReadOnly_Atomic {S A} (m : M S A) : ReadOnly m -> Atomic m | 10.
Proof. intros Hm s s' e H. specialize (Hm s). by rewrite H in Hm. Qed.
#[global] Instance NeverFails_Atomic {S A} (m : M S A) : NeverFails m -> Atomic m | 11.
Proof. intros Hm s s' e H. specialize (Hm s). by rewrite H in Hm. Qed.
#[global] Instance sbind_Atomic {S A B} (m : M S A) (k : A -> M S B) :
  ReadOnly m -> (forall a, Atomic (k a)) -> Atomic (sbind m k) | 5.
Proof.
  intros Hm Hk s s' e. unfold sbind. specialize (Hm s).
  destruct (m s) as [s1 [a|e1]]; simpl in *; subst; [apply Hk|congruence].
Qed.

#[export] Hint Extern 1 (ReadOnly (match ?x with _ => _ end)) => destruct x : typeclass_instances.
#[export] Hint Extern 1 (NeverFails (match ?x with _ => _ end)) => destruct x : typeclass_instances.
#[export] Hint Extern 1 (Atomic (match ?x with _ => _ end)) => destruct x : typeclass_instances.

(** Running one step of a method on a known state. *)
Lemma sbind_Ok_inv {S A B} (m : M S A) (k : A -> M S B) s s' b :
  sbind m k s = (s', Ok b) ->
  exists s1 a, m s = (s1, Ok a) /\ k a s1 = (s', Ok b).
Proof. unfold sbind. destruct (m s) as [s1 [a|e]]; naive_solver. Qed.

Ltac run_inv :=
  repeat match goal with
  | H : sbind _ _ _ = (_, Ok _) |- _ =>
      let s := fresh "s" in let a := fresh "a" in let H1 := fresh H in
      apply sbind_Ok_inv in H as (s & a & H1 & H)
  | H : sget _ = (_, _) |- _ => unfold sget in H; injection H as ? ?; subst
  | H : sput _ _ = (_, _) |- _ => unfold sput in H; injection H as ? ?; subst
  | H : sret _ _ = (_, _) |- _ => unfold sret in H; injection H as ? ?; subst
  | H : slift _ _ = (_, _) |- _ => unfold slift in H; injection H as ? ?; subst
  | H : sthrow _ _ = (_, Ok _) |- _ => discriminate H
  | H : (match ?x with Some _ => _ | None => _ end) _ = (_, Ok _) |- _ =>
      let v := fresh "v" in let E := fresh "E" in destruct x as [v|] eqn:E
  | H : (if ?x then _ else _) _ = (_, Ok _) |- _ =>
      let E := fresh "E" in destruct x eqn:E
  | a : unit |- _ => destruct a
  end.

(** ** Total orders given by a comparison function *)
Class TotalCompare {A} (c : A -> A -> comparison) : Prop := {
  tc_antisym x y : c y x = CompOpp (c x y);
  tc_trans x y z : c x y = Lt -> c y z = Lt -> c x z = Lt;
  tc_eq x y z : c x y = Eq -> c x z = c y z;
}.

(** First key, then second key. *)
Definition lex (c1 c2 : comparison) : comparison :=
  match c1 with Eq => c2 | _ => c1 end.
Definition lex_by {A} (c1 c2 : A -> A -> comparison) (x y : A) : comparison :=
  lex (c1 x y) (c2 x y).
Definition comparing {A K} (key : A -> K) (c : K -> K -> comparison) (x y : A) : comparison :=
  c (key x) (key y).

#[global] Instance Z_TotalCompare : TotalCompare Z.compare.
Proof.
  split.
  - intros x y. apply Z.compare_antisym.
  - intros x y z. rewrite !Z.compare_lt_iff. lia.
  - intros x y z ->%Z.compare_eq_iff. done.
Qed.

Lemma ascii_compare_eq a b : Ascii.compare a b = Eq -> a = b.
Proof.
  unfold Ascii.compare. intros H%N.compare_eq_iff.
  by rewrite <-(Ascii.ascii_N_embedding a), <-(Ascii.ascii_N_embedding b), H.
Qed.

Lemma string_compare_lt_trans a b c :
  String.compare a b = Lt -> String.compare b c = Lt -> String.compare a c = Lt.
Proof.
  revert b c. induction a as [|x a IH]; intros [|y b] [|z c]; simpl; try done.
  destruct (Ascii.compare x y) eqn:Exy; try done.
  - apply ascii_compare_eq in Exy as ->.
    destruct (Ascii.compare y z); try done. apply IH.
  - intros _. destruct (Ascii.compare y z) eqn:Eyz; try done.
    + apply ascii_compare_eq in Eyz as ->. by rewrite Exy.
    + unfold Ascii.compare in *. rewrite N.compare_lt_iff in *.
      assert (Ascii.N_of_ascii x < Ascii.N_of_ascii z)%N as H by lia.
      apply N.compare_lt_iff in H. by rewrite H.
Qed.

#[global] Instance string_TotalCompare : TotalCompare String.compare.
Proof.
  split.
  - intros x y. by rewrite String.compare_antisym.
  - apply string_compare_lt_trans.
  - intros x y z ->%String.compare_eq_iff. done.
Qed.

#[global] Instance comparing_TotalCompare {A K} (key : A -> K) c :
  TotalCompare c -> TotalCompare (comparing key c).
Proof.
  intros Hc. unfold comparing.
  split; intros; [apply tc_antisym|by eapply tc_trans|by apply tc_eq].
Qed.

#[global] Instance lex_by_TotalCompare {A} (c1 c2 : A -> A -> comparison) :
  TotalCompare c1 -> TotalCompare c2 -> TotalCompare (lex_by c1 c2).
Proof.
  intros H1 H2. unfold lex_by. split.
  - intros x y. rewrite (tc_antisym (c:=c1) x y), (tc_antisym (c:=c2) x y).
    by destruct (c1 x y).
  - intros x y z.
    destruct (c1 x y) eqn:Exy; simpl; [|intros _|done].
    + rewrite (tc_eq _ _ z Exy). destruct (c1 y z); simpl; [|done..].
      apply tc_trans.
    + destruct (c1 y z) eqn:Eyz; simpl; [intros _|intros _|done].
      * assert (c1 x z = Lt) as ->; [|done].
        assert (c1 z y = Eq) as Ezy by (by rewrite (tc_antisym y z), Eyz).
        rewrite (tc_antisym z x), (tc_eq _ _ x Ezy), (tc_antisym x y), Exy. done.
      * by rewrite (tc_trans _ _ _ Exy Eyz).
  - intros x y z. destruct (c1 x y) eqn:Exy; simpl; [|done..]. intros E2.
    by rewrite (tc_eq _ _ z Exy), (tc_eq _ _ z E2).
Qed.

Section order.
Context {A : Type} (c : A -> A -> comparison) `{!TotalCompare c}.

Lemma tc_refl x : c x x = Eq.
Proof. pose proof (tc_antisym (c:=c) x x) as H. by destruct (c x x). Qed.

Lemma tc_flip x y : c x y = Gt <-> c y x = Lt.
Proof. rewrite (tc_antisym y x). by destruct (c y x). Qed.

Lemma tc_le_trans x y z : c x y <> Gt -> c y z <> Gt -> c x z <> Gt.
Proof.
  intros Hxy Hyz. destruct (c x y) eqn:Exy; [|destruct (c y z) eqn:Eyz|done].
  - by rewrite (tc_eq _ _ _ Exy).
  - assert (c z y = Eq) as Ezy by (by rewrite (tc_antisym y z), Eyz).
    rewrite (tc_antisym z x), (tc_eq _ _ x Ezy), (tc_antisym x y), Exy. done.
  - by rewrite (tc_trans _ _ _ Exy Eyz).
  - done.
Qed.
End order.

(** ** The sorting function *)
Section sorting.
Context {A : Type}.

Lemma insert_cmp_Permutation cmp (x : A) l : insert_cmp cmp x l ≡ₚ x :: l.
Proof.
  induction l as [|y l IH]; simpl; [done|].
  destruct (cmp x y <? 0); [done|]. rewrite IH. apply perm_swap.
Qed.

Lemma SortFunc_app_Permutation cmp (l acc : list A) :
  foldl (fun acc x => insert_cmp cmp x acc) acc l ≡ₚ acc ++ l.
Proof.
  revert acc. induction l as [|x l IH]; intros acc; simpl; [by rewrite app_nil_r|].
  rewrite IH, insert_cmp_Permutation. apply Permutation_middle.
Qed.

Lemma SortFunc_Permutation cmp (l : list A) : SortFunc cmp l ≡ₚ l.
Proof. unfold SortFunc. by rewrite SortFunc_app_Permutation. Qed.

Lemma SortFunc_length cmp (l : list A) : length (SortFunc cmp l) = length l.
Proof. by rewrite SortFunc_Permutation. Qed.

Lemma elem_of_SortFunc cmp (l : list A) x : x ∈ SortFunc cmp l <-> x ∈ l.
Proof. by rewrite SortFunc_Permutation. Qed.

Lemma insert_cmp_ext cmp1 cmp2 (x : A) l :
  (forall y, y ∈ l -> cmp1 x y = cmp2 x y) -> insert_cmp cmp1 x l = insert_cmp cmp2 x l.
Proof.
  induction l as [|y l IH]; simpl; intros H; [done|].
  rewrite (H y), IH by set_solver. done.
Qed.

(** Only the comparator's values on the elements of the slice matter. *)
Lemma SortFunc_ext cmp1 cmp2 (l : list A) :
  (forall x y, x ∈ l -> y ∈ l -> cmp1 x y = cmp2 x y) -> SortFunc cmp1 l = SortFunc cmp2 l.
Proof.
  unfold SortFunc. intros H.
  assert (forall acc, acc ⊆ l -> forall l0, l0 ⊆ l ->
    foldl (fun acc x => insert_cmp cmp1 x acc) acc l0
    = foldl (fun acc x => insert_cmp cmp2 x acc) acc l0) as Hgen; [|apply Hgen; set_solver].
  intros acc Hacc l0. revert acc Hacc. induction l0 as [|x l0 IH]; intros acc Hacc Hl0; [done|].
  simpl. rewrite (insert_cmp_ext cmp1 cmp2) by set_solver.
  apply IH; [|set_solver]. intros y. rewrite insert_cmp_Permutation. set_solver.
Qed.

Context (c : A -> A -> comparison) `{!TotalCompare c}.

Definition sorted_by : list A -> Prop := StronglySorted (fun x y => c x y <> Gt).
Definition int_of (x y : A) : Z := to_int (c x y).

Lemma insert_cmp_sorted x l : sorted_by l -> sorted_by (insert_cmp int_of x l).
Proof.
  unfold sorted_by, int_of. induction l as [|y l IH]; simpl; intros Hs.
  { repeat constructor. }
  apply StronglySorted_cons in Hs as [Hy Hs]. destruct (c x y) eqn:Exy; simpl.
  2:{ apply StronglySorted_cons. split; [|by apply StronglySorted_cons].
      constructor; [by rewrite Exy|].
      eapply Forall_impl; [exact Hy|]. intros z Hz. eapply (tc_le_trans c); [|exact Hz]. by rewrite Exy. }
  all: apply StronglySorted_cons; split; [|by apply IH].
  all: rewrite insert_cmp_Permutation; constructor; [|done].
  all: rewrite (tc_antisym x y), Exy; done.
Qed.

Lemma SortFunc_sorted l : sorted_by (SortFunc int_of l).
Proof.
  unfold SortFunc. assert (sorted_by []) as Hnil by constructor.
  revert Hnil. generalize (@nil A). induction l as [|x l IH]; intros acc Hacc; simpl; [done|].
  apply IH. by apply insert_cmp_sorted.
Qed.

(** A sorted slice stays as it is. *)
Lemma insert_cmp_last x l : Forall (fun y => c y x <> Gt) l -> insert_cmp int_of x l = l ++ [x].
Proof.
  unfold int_of. induction 1 as [|y l Hy Hl IH]; simpl; [done|].
  rewrite (tc_antisym (c:=c) y x). destruct (c y x); simpl; [by rewrite IH..|done].
Qed.

Lemma SortFunc_sorted_id l : sorted_by l -> SortFunc int_of l = l.
Proof.
  unfold SortFunc. assert (forall acc, sorted_by (acc ++ l) -> foldl (fun acc x => insert_cmp int_of x acc) acc l = acc ++ l) as H;
    [|by apply (H [])].
  induction l as [|x l IH]; intros acc Hs; simpl; [by rewrite app_nil_r|].
  rewrite insert_cmp_last; [rewrite IH; rewrite <-app_assoc; done|].
  clear IH. unfold sorted_by in Hs. induction acc as [|y acc IHa]; [done|]. simpl in Hs.
  apply StronglySorted_cons in Hs as [Hy Hs]. apply Forall_cons. split; [|by apply IHa].
  apply Forall_app in Hy as [_ Hy]. by apply Forall_cons in Hy as [? _].
Qed.

Lemma SortFunc_idempotent l : SortFunc int_of (SortFunc int_of l) = SortFunc int_of l.
Proof. apply SortFunc_sorted_id, SortFunc_sorted. Qed.

Lemma sorted_by_unique l1 l2 :
  (forall x y, x ∈ l1 -> y ∈ l1 -> c x y = Eq -> x = y) ->
  sorted_by l1 -> sorted_by l2 -> l1 ≡ₚ l2 -> l1 = l2.
Proof.
  intros Hinj H1 H2 Hp. eapply StronglySorted_unique_strong; [|exact H1|exact H2|exact Hp].
  intros x y Hx Hy Hxy Hyx. apply Hinj; [done|by rewrite Hp|].
  simpl in *. rewrite (tc_antisym (c:=c) x y) in Hyx. by destruct (c x y).
Qed.

(** Any sorted permutation is the one [SortFunc] returns, when the
    comparator separates the elements. *)
Lemma SortFunc_unique l l' :
  (forall x y, x ∈ l -> y ∈ l -> c x y = Eq -> x = y) ->
  sorted_by l' -> l' ≡ₚ l -> SortFunc int_of l = l'.
Proof.
  intros Hinj Hs Hp. apply sorted_by_unique; [|apply SortFunc_sorted|done|].
  - intros x y. rewrite !elem_of_SortFunc. apply Hinj.
  - by rewrite SortFunc_Permutation.
Qed.

(** Sorting forgets the input order. *)
Lemma SortFunc_order_independent l l' :
  (forall x y, x ∈ l -> y ∈ l -> c x y = Eq -> x = y) ->
  l ≡ₚ l' -> SortFunc int_of l = SortFunc int_of l'.
Proof.
  intros Hinj Hp. apply SortFunc_unique; [done|apply SortFunc_sorted|].
  by rewrite SortFunc_Permutation.
Qed.
End sorting.

(** [a < b] and [a > b] tests chained into a three-way comparator. *)
Lemma str_three_way a b k :
  (if str_lt a b then -1 else if str_lt b a then 1 else k)
  = match String.compare a b with Eq => k | x => to_int x end.
Proof.
  unfold str_lt. rewrite (String.compare_antisym b a).
  by destruct (String.compare a b).
Qed.

Lemma Z_three_way a b k :
  (if a <? b then -1 else if a >? b then 1 else k)
  = match Z.compare a b with Eq => k | x => to_int x end.
Proof.
  rewrite Z.gtb_ltb. unfold Z.ltb. rewrite (Z.compare_antisym a b).
  by destruct (Z.compare a b).
Qed.

Lemma to_int_lex c1 c2 : to_int (lex c1 c2) = match c1 with Eq => to_int c2 | x => to_int x end.
Proof. by destruct c1. Qed.

(** ** Machine integers *)
Lemma u64_range x : is_u64 (u64 x).
Proof. unfold is_u64, u64. apply Z.mod_pos_bound. lia. Qed.
Lemma u64_small x : is_u64 x -> u64 x = x.
Proof. unfold is_u64, u64. apply Z.mod_small. Qed.
Lemma u32_range x : is_u32 (u32 x).
Proof. unfold is_u32, u32. apply Z.mod_pos_bound. lia. Qed.
Lemma u32_small x : is_u32 x -> u32 x = x.
Proof. unfold is_u32, u32. apply Z.mod_small. Qed.

(** Incrementing a counter either advances it by one or wraps to zero, which
    every revision check of the code rejects. *)
Lemma u64_succ_nonzero x : is_u64 x -> u64 (x + 1) <> 0 -> u64 (x + 1) = x + 1.
Proof.
  unfold is_u64, u64. intros Hx Hn. apply Z.mod_small.
  destruct (Z.eq_dec x (2 ^ 64 - 1)) as [->|]; [|lia].
  by rewrite Z.sub_add, Z_mod_same_full in Hn.
Qed.

(** ** Strings as byte sequences *)
Lemma codes_app a b : codes (a +:+ b) = codes a ++ codes b.
Proof. unfold codes. induction a as [|c a IH]; simpl; [done|]. by rewrite IH. Qed.

Lemma length_codes s : length (codes s) = String.length s.
Proof. unfold codes. rewrite length_map. induction s; simpl; congruence. Qed.

#[global] Instance codes_inj : Inj (=) (=) codes.
Proof.
  intros a. induction a as [|c a IH]; intros [|d b]; try done.
  unfold codes in *. simpl. injection 1 as Hc H. f_equal; [|by apply IH].
  by rewrite <-(Ascii.ascii_N_embedding c), <-(Ascii.ascii_N_embedding d), (N2Z.inj _ _ Hc).
Qed.

Lemma string_app_length a b : String.length (a +:+ b) = (String.length a + String.length b)%nat.
Proof. rewrite <-!length_codes, codes_app. apply length_app. Qed.

Lemma codes_range s b : b ∈ codes s -> 0 <= b < 256.
Proof.
  unfold codes. rewrite list_elem_of_In, in_map_iff. intros (c & <- & _).
  pose proof (Ascii.N_ascii_bounded c). lia.
Qed.

(** Splitting at the first occurrence of a separator byte is unambiguous. *)
Lemma app_sep_inj (sep : Z) (a a' b b' : list Z) :
  sep ∉ a -> sep ∉ a' -> a ++ sep :: b = a' ++ sep :: b' -> a = a' /\ b = b'.
Proof.
  revert a'. induction a as [|x a IH]; intros [|y a'] Ha Ha' H; simpl in *; try naive_solver.
  - set_solver.
  - set_solver.
  - injection H as -> H. destruct (IH a') as [-> ->]; set_solver.
Qed.

Lemma match_class_not_in class lo hi s b :
  match_class class lo hi s = true -> class b = false -> b ∉ codes s.
Proof.
  unfold match_class. intros Hm Hb Hin. go_cases.
  rewrite forallb_forall in *. apply list_elem_of_In in Hin.
  match goal with H : forall x, _ |- _ => apply H in Hin end. congruence.
Qed.

(** Counting positions of a value through [lookup] is counting the value. *)
Lemma filter_lookup_seq {A} `{EqDecision A} (l : list A) (x : A) :
  length (filter (fun i => l !! i = Some x) (seq 0 (length l))) = length (filter (.= x) l).
Proof.
  induction l as [|y l IH]; [done|].
  cbn [length seq]. rewrite <-fmap_S_seq, !filter_cons. cbn [lookup list_lookup].
  assert (length (filter (fun i => (y :: l) !! i = Some x) (S <$> seq 0 (length l)))
    = length (filter (.= x) l)) as Htl.
  { rewrite <-IH. clear IH. generalize (seq 0 (length l)) as is_. induction is_ as [|i is_ IH]; [done|].
    cbn [fmap list_fmap]. rewrite !filter_cons. cbn [lookup list_lookup].
    repeat case_decide; simpl; try done; by rewrite IH. }
  repeat case_decide; simplify_eq; simpl; [by rewrite Htl|done].
Qed.

Lemma filter_eq_notin {A} `{EqDecision A} (l : list A) x : x ∉ l -> filter (.= x) l = [].
Proof.
  induction l as [|y l IH]; intros Hx; [done|].
  rewrite filter_cons_False by set_solver. apply IH. set_solver.
Qed.

Lemma filter_eq_replicate {A} `{EqDecision A} n (x : A) : filter (.= x) (replicate n x) = replicate n x.
Proof. induction n; simpl; [done|]. rewrite filter_cons_True by done. by f_equal. Qed.

(** ** Counting the values of a map that satisfy a test *)
Section count.
Context {K V : Type} `{Countable K} (p : V -> bool).

Definition countb (m : gmap K V) : Z := Z.of_nat (size (filter (fun kv => p kv.2 = true) m)).
Definition b2z (b : bool) : Z := if b then 1 else 0.

Lemma countb_nonneg m : 0 <= countb m.
Proof. unfold countb. lia. Qed.

Lemma countb_empty : countb ∅ = 0.
Proof. unfold countb. by rewrite map_filter_empty, map_size_empty. Qed.

Lemma countb_insert_fresh m k v : m !! k = None -> countb (<[k:=v]> m) = countb m + b2z (p v).
Proof.
  intros Hk. unfold countb. destruct (p v) eqn:E; simpl.
  - rewrite map_filter_insert_True by done. rewrite map_size_insert_None; [lia|].
    apply map_lookup_filter_None_2. by left.
  - rewrite map_filter_insert_False by (simpl; congruence).
    rewrite delete_id by done. lia.
Qed.

Lemma countb_delete m k v : m !! k = Some v -> countb (delete k m) = countb m - b2z (p v).
Proof.
  intros Hk. rewrite <-(insert_id m k v Hk) at 2. rewrite <-(insert_delete_eq m k v).
  rewrite countb_insert_fresh by apply lookup_delete_eq. lia.
Qed.

Lemma countb_update m k v v' :
  m !! k = Some v -> countb (<[k:=v']> m) = countb m - b2z (p v) + b2z (p v').
Proof.
  intros Hk. rewrite <-insert_delete_eq, countb_insert_fresh by apply lookup_delete_eq.
  by rewrite (countb_delete _ _ v).
Qed.

Lemma countb_positive m k v : m !! k = Some v -> p v = true -> 0 < countb m.
Proof.
  intros Hk Hp. pose proof (countb_delete m k v Hk) as Hd. rewrite Hp in Hd. simpl in Hd.
  pose proof (countb_nonneg (delete k m)). lia.
Qed.
End count.

(** Inserting the entries of a map one by one, in any order, rebuilds it. *)
Lemma foldl_insert_map {K V} `{Countable K} (m : gmap K V) l :
  l ≡ₚ map_to_list m -> foldl (fun acc e => <[fst e := snd e]> acc) ∅ l = m.
Proof.
  intros Hp. assert (forall l (acc : gmap K V),
    foldl (fun acc e => <[fst e := snd e]> acc) acc l = list_to_map (rev l) ∪ acc) as Hfold.
  { clear. induction l as [|[k v] l IH]; intros acc; simpl; [by rewrite (left_id_L ∅ (∪))|].
    rewrite IH, list_to_map_app, <-(assoc_L (∪)). f_equal. rewrite insert_union_singleton_l. simpl.
    by rewrite insert_empty. }
  rewrite Hfold, (right_id_L ∅ (∪)). symmetry. apply list_to_map_flip. rewrite <-Hp. apply Permutation_rev.
Qed.

(** ** Counting over lists *)
Definition tally {A} (f : A -> Z) (l : list A) : Z := foldr (fun x n => f x + n) 0 l.

#[global] Instance tally_Permutation {A} (f : A -> Z) : Proper ((≡ₚ) ==> (=)) (tally f).
Proof. induction 1; simpl; lia. Qed.

Section tally.
Context {A : Type} (f : A -> Z).

Lemma tally_cons x l : tally f (x :: l) = f x + tally f l.
Proof. done. Qed.
Lemma tally_app l l' : tally f (l ++ l') = tally f l + tally f l'.
Proof. induction l; simpl; lia. Qed.
Lemma tally_snoc l x : tally f (l ++ [x]) = tally f l + f x.
Proof. rewrite tally_app. simpl. lia. Qed.
Lemma tally_ext g l : (forall x, x ∈ l -> f x = g x) -> tally f l = tally g l.
Proof. induction l as [|x l IH]; intros H; simpl; [done|]. rewrite H, IH; [done| |by left]. intros y Hy. apply H. by right. Qed.
Lemma tally_le g l : (forall x, f x <= g x) -> tally f l <= tally g l.
Proof. intros H. induction l as [|x l IH]; simpl; [lia|]. specialize (H x). lia. Qed.
Lemma tally_fresh l : (forall x, x ∈ l -> f x = 0) -> tally f l = 0.
Proof. induction l as [|x l IH]; simpl; intros H; [done|]. rewrite (H x), IH; set_solver. Qed.
Lemma tally_insert l i x y : l !! i = Some x -> tally f (<[i := y]> l) = tally f l - f x + f y.
Proof. revert i. induction l as [|z l IH]; intros [|i] E; simplify_eq/=; [lia|]. rewrite (IH i E). lia. Qed.

Context (Hf : forall x, 0 <= f x).
Lemma tally_nonneg l : 0 <= tally f l.
Proof. induction l as [|x l IH]; simpl; [lia|]. specialize (Hf x). lia. Qed.
Lemma tally_member l x : x ∈ l -> f x <= tally f l.
Proof.
  induction l as [|y l IH]; [by intros ?%not_elem_of_nil|]. pose proof (Hf y). pose proof (tally_nonneg l). simpl.
  intros [->|Hin]%elem_of_cons; [lia|]. specialize (IH Hin). lia.
Qed.
Lemma tally_zero l x : tally f l = 0 -> x ∈ l -> f x = 0.
Proof. intros Hz Hx. pose proof (tally_member l x Hx). specialize (Hf x). lia. Qed.
End tally.

(** An element taken out of a list, and replaced. *)
Lemma insert_split {A} (l : list A) i x : l !! i = Some x -> exists rest, l ≡ₚ x :: rest /\ forall y, <[i := y]> l ≡ₚ y :: rest.
Proof.
  intros (l1 & l2 & -> & ->)%list_elem_of_split_length. exists (l1 ++ l2). split; [by rewrite Permutation_middle|].
  intros y. rewrite insert_app_r_alt, Nat.sub_diag by lia. simpl. by rewrite Permutation_middle.
Qed.
Lemma lookup_snoc {A} (l : list A) x i y : (l ++ [x]) !! i = Some y -> l !! i = Some y \/ (i = length l /\ y = x).
Proof. intros [E|[Hge E]]%lookup_app_Some; [by left|right]. apply list_lookup_singleton_Some in E as [? ->]. split; [lia|done]. Qed.


(** Whether two pointers are the same. *)
Definition hits (p q : nat) : Z := if decide (p = q) then 1 else 0.
Lemma hits_nonneg p q : 0 <= hits p q.
Proof. unfold hits. case_decide; lia. Qed.
Lemma hits_same p : hits p p = 1.
Proof. unfold hits. by rewrite decide_True. Qed.
Lemma hits_other p q : p <> q -> hits p q = 0.
Proof. unfold hits. intros. by rewrite decide_False. Qed.
