(* ===== verification/Problem.v ===== *)
(** * Package [internal/problem]: the stable error catalog

    Error codes are Go strings, so a code outside the catalog is
    representable and [Known] decides membership, as in the source. *)
From stdpp Require Import base gmap strings list.
From S2P Require Import Prelude.

Module problem.

Definition CodeInvalidArgument : string := "invalid_argument".
Definition CodeUnauthenticated : string := "unauthenticated".
Definition CodeForbidden : string := "forbidden".
Definition CodeNotFound : string := "not_found".
Definition CodeConflict : string := "conflict".
Definition CodeRevisionConflict : string := "revision_conflict".
Definition CodeRollbackUnavailable : string := "rollback_unavailable".
Definition CodeOperationUnknown : string := "operation_unknown".
Definition CodeOperationExpired : string := "operation_expired".
Definition CodeCredentialNotReplayable : string := "credential_not_replayable".
Definition CodeNoQuorum : string := "no_quorum".
Definition CodeControlPlaneStale : string := "control_plane_stale".
Definition CodeFunctionDisabled : string := "function_disabled".
Definition CodeNoReadyReplica : string := "no_ready_replica".
Definition CodeOverloaded : string := "overloaded".
Definition CodeColdStartTimeout : string := "cold_start_timeout".
Definition CodeFunctionTimeout : string := "function_timeout".
Definition CodeInvalidModule : string := "invalid_module".
Definition CodeCapabilityDenied : string := "capability_denied".
Definition CodeFunctionTrap : string := "function_trap".
Definition CodeInvalidFunctionResponse : string := "invalid_function_response".
Definition CodeOutputLimit : string := "output_limit".
Definition CodeWorkerLost : string := "worker_lost".
Definition CodeStaleAssignment : string := "stale_assignment".
Definition CodeStaleGeneration : string := "stale_generation".
Definition CodeArtifactUnavailable : string := "artifact_unavailable".
Definition CodeAsyncUnavailable : string := "async_unavailable".
Definition CodeResultExpired : string := "result_expired".

Definition allCodes : list string :=
  [CodeInvalidArgument; CodeUnauthenticated; CodeForbidden; CodeNotFound;
   CodeConflict; CodeRevisionConflict; CodeRollbackUnavailable;
   CodeOperationUnknown; CodeOperationExpired; CodeCredentialNotReplayable;
   CodeNoQuorum; CodeControlPlaneStale; CodeFunctionDisabled;
   CodeNoReadyReplica; CodeOverloaded; CodeColdStartTimeout;
   CodeFunctionTimeout; CodeInvalidModule; CodeCapabilityDenied;
   CodeFunctionTrap; CodeInvalidFunctionResponse; CodeOutputLimit;
   CodeWorkerLost; CodeStaleAssignment; CodeStaleGeneration;
   CodeArtifactUnavailable; CodeAsyncUnavailable; CodeResultExpired].

Definition Known (code : string) : bool := bool_decide (code ∈ allCodes).

(** [Invalid] and the [classified] helper the packages share. *)
Definition Invalid (field message : string) : error :=
  ProblemError CodeInvalidArgument message field.
Definition classified (code message : string) : error :=
  ProblemError code message "".

Definition revisionConflict (kind : string) (expected actual : Z) : error :=
  RevisionConflictError kind expected actual.

(** [errors.As(err, **problem.Error)]: the first problem in the wrap chain;
    [RevisionConflict.Unwrap] supplies the stable classification. *)
Fixpoint as_problem (e : error) : option (string * string * string) :=
  match e with
  | ProblemError code message field => Some (code, message, field)
  | PlainError _ => None
  | WrapError _ inner => as_problem inner
  | RevisionConflictError _ _ _ =>
      Some (CodeRevisionConflict, "expected revision does not match current resource", "")
  | SentinelError _ => None
  | JoinError first second =>
      match as_problem first with Some p => Some p | None => as_problem second end
  end%string.

(** [(e *Error) Error()], and the text of the other error shapes. *)
Definition error_text (code message field : string) : string :=
  if field == "" then code +:+ ": " +:+ message
  else code +:+ ": " +:+ field +:+ ": " +:+ message.

Definition HTTPStatus (code : string) : Z :=
  if code == CodeInvalidArgument then 400
  else if code == CodeUnauthenticated then 401
  else if bool_decide (code ∈ [CodeForbidden; CodeCapabilityDenied]) then 403
  else if code == CodeNotFound then 404
  else if bool_decide (code ∈ [CodeConflict; CodeRevisionConflict; CodeRollbackUnavailable;
      CodeOperationUnknown; CodeCredentialNotReplayable; CodeStaleAssignment]) then 409
  else if bool_decide (code ∈ [CodeOperationExpired; CodeResultExpired]) then 410
  else if code == CodeOverloaded then 429
  else if code == CodeInvalidModule then 422
  else if bool_decide (code ∈ [CodeFunctionTrap; CodeInvalidFunctionResponse;
      CodeOutputLimit; CodeWorkerLost]) then 502
  else if bool_decide (code ∈ [CodeColdStartTimeout; CodeFunctionTimeout]) then 504
  else if bool_decide (code ∈ [CodeNoQuorum; CodeControlPlaneStale; CodeFunctionDisabled;
      CodeNoReadyReplica; CodeStaleGeneration; CodeArtifactUnavailable; CodeAsyncUnavailable]) then 503
  else 500.

(** [NewEnvelope]; [any]-valued details are kept abstract. *)
Record ResponseError (V : Type) := {
  re_Code : string;
  re_Message : string;
  re_RequestID : string;
  re_Details : gmap string V;
}.
Arguments re_Code {V}. Arguments re_Message {V}.
Arguments re_RequestID {V}. Arguments re_Details {V}.

Definition NewEnvelope {V} (of_string : string -> V)
    (classified : string * string * string) (requestID : string)
    (details : gmap string V) : ResponseError V :=
  let '(code, message, field) := classified in
  let publicDetails :=
    if field != "" then <["field"%string := of_string field]> details else details in
  {| re_Code := code; re_Message := message; re_RequestID := requestID;
     re_Details := publicDetails |}.

(** ** Properties *)

(** The catalog has no repeated code, and every catalog code has a status of
    its own class: only an unknown code maps to 500. *)
Lemma allCodes_NoDup : NoDup allCodes.
Proof. by apply (bool_decide_eq_true _); vm_compute. Qed.

Lemma HTTPStatus_known code : Known code = true -> 400 <= HTTPStatus code < 600 /\ HTTPStatus code <> 500.
Proof.
  unfold Known. intros H%bool_decide_eq_true.
  assert (Forall (fun c => 400 <= HTTPStatus c < 600 /\ HTTPStatus c <> 500) allCodes) as Hall.
  { repeat constructor; by vm_compute. }
  rewrite Forall_forall in Hall. by apply Hall.
Qed.

End problem.
