(* ===== verification/Digest.v ===== *)
(** * Package [internal/digest]: SHA-256 and domain-separated digests

    SHA-256 of the Go standard library is implemented here and computes, so
    that witnesses can evaluate real digests.  RFC 8785 canonicalisation
    ([github.com/gowebpki/jcs], a third-party package) is the parameter
    [JCS]. *)
From stdpp Require Import base gmap strings list.
From S2P Require Import Prelude Problem.

(** ** [crypto/sha256] *)
Module sha256.

(** Truncation to a 32-bit word. *)
Definition w32 (x : Z) : Z := Z.land x 0xffffffff.
Definition rotr (n x : Z) : Z := Z.lor (Z.shiftr x n) (w32 (Z.shiftl x (32 - n))).

(** FIPS 180-4 derives its constants from the first primes: the round
    constants are the first 32 bits of the fractional parts of their cube
    roots, the initial state those of the square roots. *)
Definition is_prime (n : nat) : bool := forallb (fun d => negb (Nat.eqb (Nat.modulo n d) 0)) (seq 2 (n - 2)).
Definition primes : list Z := map Z.of_nat (List.filter is_prime (seq 2 310)).

(** The integer cube root, most significant of [bits] bits first. *)
Fixpoint cube_root (bits : nat) (r n : Z) : Z :=
  match bits with
  | O => r
  | S bits' =>
    let r' := r + 2 ^ Z.of_nat bits' in
    cube_root bits' (if r' ^ 3 <=? n then r' else r) n
  end.

Definition K : list Z := Eval vm_compute in map (fun p => w32 (cube_root 36 0 (p * 2 ^ 96))) primes.
Definition H0 : list Z := Eval vm_compute in map (fun p => w32 (Z.sqrt (p * 2 ^ 64))) (take 8 primes).

(** [n] big-endian bytes of [v]. *)
Fixpoint be_codes (n : nat) (v : Z) : list Z :=
  match n with
  | O => []
  | S n' => (Z.shiftr v (8 * Z.of_nat n')) mod 256 :: be_codes n' v
  end.

Definition be_value (l : list Z) : Z := foldl (fun acc b => acc * 256 + b) 0 l.

Fixpoint words (l : list Z) : list Z :=
  match l with
  | a :: b :: c :: d :: l' => be_value [a; b; c; d] :: words l'
  | _ => []
  end.

(** The message schedule, newest word first, from the sixteen block words. *)
Fixpoint schedule (n : nat) (ws : list Z) : list Z :=
  match n with
  | O => ws
  | S n' =>
    let w := fun i => nth i ws 0 in
    let w15 := w 14%nat in
    let w2 := w 1%nat in
    let s0 := Z.lxor (Z.lxor (rotr 7 w15) (rotr 18 w15)) (Z.shiftr w15 3) in
    let s1 := Z.lxor (Z.lxor (rotr 17 w2) (rotr 19 w2)) (Z.shiftr w2 10) in
    schedule n' (w32 (w 15%nat + s0 + w 6%nat + s1) :: ws)
  end.

Definition round (st : list Z) (kw : Z * Z) : list Z :=
  match st with
  | [a; b; c; d; e; f; g; h] =>
    let S1 := Z.lxor (Z.lxor (rotr 6 e) (rotr 11 e)) (rotr 25 e) in
    let ch := Z.lxor (Z.land e f) (Z.land (Z.lxor e 0xffffffff) g) in
    let t1 := w32 (h + S1 + ch + fst kw + snd kw) in
    let S0 := Z.lxor (Z.lxor (rotr 2 a) (rotr 13 a)) (rotr 22 a) in
    let maj := Z.lxor (Z.lxor (Z.land a b) (Z.land a c)) (Z.land b c) in
    let t2 := w32 (S0 + maj) in
    [w32 (t1 + t2); a; b; c; w32 (d + t1); e; f; g]
  | _ => st
  end.

Definition block (h : list Z) (ws : list Z) : list Z :=
  let sched := rev (schedule 48 (rev ws)) in
  zip_with (fun x y => w32 (x + y)) h (foldl round h (zip K sched)).

(** Absorb the padded message word by word, sixteen at a time. *)
Fixpoint absorb (fuel : nat) (h : list Z) (ws : list Z) : list Z :=
  match fuel, ws with
  | S fuel', _ :: _ => absorb fuel' (block h (firstn 16 ws)) (skipn 16 ws)
  | _, _ => h
  end.

Definition pad (l : list Z) : list Z :=
  l ++ [0x80] ++ repeat 0 (Z.to_nat ((55 - len l) mod 64)) ++ be_codes 8 (u64 (8 * len l)).

(** [sha256.Sum256]: 32 bytes. *)
Definition Sum256 (l : list Z) : list Z :=
  let ws := words (pad l) in
  concat (map (be_codes 4) (absorb (length ws) H0 ws)).

End sha256.

Module digest.

Definition hex_char (n : Z) : Ascii.ascii :=
  Ascii.ascii_of_N (Z.to_N (if n <? 10 then 48 + n else 87 + n)).
(** [hex.EncodeToString]. *)
Fixpoint hex_EncodeToString (l : list Z) : string :=
  match l with
  | [] => ""
  | b :: l' => String (hex_char (b / 16)) (String (hex_char (b mod 16)) (hex_EncodeToString l'))
  end.

(** [^sha256:[0-9a-f]{64}$] *)
Definition encodedPattern (s : string) : bool :=
  String.prefix "sha256:" s
  && match_class (fun b => is_digit b || in_range 97 102 b) 64 64
       (String.substring 7 (String.length s - 7) s).

Definition ParseSHA256 (value : string) : result string :=
  fail_if (negb (encodedPattern value)) (PlainError "invalid sha256 digest") ;;;
  Ok value.

Definition Sum (data : string) : string :=
  "sha256:" +:+ hex_EncodeToString (sha256.Sum256 (codes data)).

(** RFC 8785 canonicalisation, third-party code. *)
Class JCS := jcs_Transform : string -> result string.

Definition NUL : string := String Ascii.zero "".
Definition prefix : string := "minicloud" +:+ NUL.

Definition preimage (domain schemaVersion canonical : string) : string :=
  prefix +:+ domain +:+ NUL +:+ schemaVersion +:+ NUL +:+ canonical.

Definition CanonicalJSON `{JCS} (domain schemaVersion source : string) : result string :=
  fail_if (domain == "") (PlainError "digest domain is required") ;;;
  fail_if (schemaVersion == "") (PlainError "digest schema version is required") ;;;
  canonical <- wrap_err "canonicalizing json" (jcs_Transform source) ;;
  Ok (Sum (preimage domain schemaVersion canonical)).

(** ** Properties *)

Lemma be_codes_length n v : length (sha256.be_codes n v) = n.
Proof. induction n; simpl; congruence. Qed.

Lemma be_codes_range n v : Forall (fun b => 0 <= b < 256) (sha256.be_codes n v).
Proof. induction n; simpl; constructor; [apply Z.mod_pos_bound; lia|done]. Qed.

Lemma be_value_acc l acc : foldl (fun acc b => acc * 256 + b) acc l
  = acc * 256 ^ len l + sha256.be_value l.
Proof.
  unfold sha256.be_value, len. revert acc. induction l as [|b l IH]; intros acc; cbn [foldl length].
  - lia.
  - rewrite IH, (IH (0 * 256 + b)). rewrite Nat2Z.inj_succ, Z.pow_succ_r by lia. ring.
Qed.

(** [binary.BigEndian.PutUint] followed by [Uint] is the identity at width. *)
Lemma be_value_codes n v : 0 <= v -> sha256.be_value (sha256.be_codes n v) = v mod 256 ^ Z.of_nat n.
Proof.
  intros Hv. induction n as [|n IH]; [by rewrite Z.mod_1_r|].
  cbn [sha256.be_codes]. unfold sha256.be_value at 1. cbn [foldl].
  rewrite be_value_acc, IH. unfold len. rewrite be_codes_length.
  rewrite Z.shiftr_div_pow2 by lia. rewrite Nat2Z.inj_succ, Z.pow_succ_r by lia.
  replace (2 ^ (8 * Z.of_nat n)) with (256 ^ Z.of_nat n) by (rewrite Z.pow_mul_r by lia; done).
  rewrite (Z.mul_comm 256), Z.rem_mul_r by lia. lia.
Qed.

Lemma round_length st kw : length (sha256.round st kw) = length st.
Proof. unfold sha256.round. repeat case_match; simpl; congruence. Qed.

Lemma foldl_round_length l st : length (foldl sha256.round st l) = length st.
Proof. revert st. induction l; intros st; simpl; [done|]. by rewrite IHl, round_length. Qed.

Lemma absorb_length n h ws : length (sha256.absorb n h ws) = length h.
Proof.
  revert h ws. induction n as [|n IH]; intros h [|w ws]; cbn [sha256.absorb]; try done.
  rewrite IH. unfold sha256.block. rewrite length_zip_with, foldl_round_length. lia.
Qed.

Lemma concat_be_codes_length n ws :
  length (concat (map (sha256.be_codes n) ws)) = (n * length ws)%nat.
Proof. induction ws; simpl; [lia|]. rewrite length_app, be_codes_length, IHws. lia. Qed.

Lemma Sum256_length l : length (sha256.Sum256 l) = 32%nat.
Proof. unfold sha256.Sum256. by rewrite concat_be_codes_length, absorb_length. Qed.

Lemma Sum256_range l : Forall (fun b => 0 <= b < 256) (sha256.Sum256 l).
Proof.
  unfold sha256.Sum256. apply Forall_concat, Forall_fmap, Forall_true.
  intros w. apply be_codes_range.
Qed.

Definition hex_class (b : Z) : bool := is_digit b || in_range 97 102 b.

Lemma hex_char_class n : 0 <= n < 16 -> hex_class (Z.of_N (Ascii.N_of_ascii (hex_char n))) = true.
Proof.
  intros Hn. assert (n ∈ seqZ 0 16) as Hin by (apply elem_of_seqZ; lia).
  revert Hin. generalize n. apply Forall_forall. repeat constructor.
Qed.

Lemma hex_encode_class l : Forall (fun b => 0 <= b < 256) l ->
  forallb hex_class (codes (hex_EncodeToString l)) = true.
Proof.
  induction 1 as [|b l Hb Hl IH]; [done|].
  cbn -[hex_char hex_class]. unfold codes in IH. rewrite IH.
  rewrite !hex_char_class; [done|apply Z.mod_pos_bound; lia|].
  split; [apply Z.div_pos; lia|apply Z.div_lt_upper_bound; lia].
Qed.

Lemma hex_encode_length l : String.length (hex_EncodeToString l) = (2 * length l)%nat.
Proof. induction l; simpl; lia. Qed.

Lemma substring_full s : String.substring 0 (String.length s) s = s.
Proof. induction s; simpl; congruence. Qed.

(** A computed digest is always accepted by the parser. *)
Lemma Sum_encodedPattern data : encodedPattern (Sum data) = true.
Proof.
  unfold encodedPattern, Sum. set (x := sha256.Sum256 _).
  assert (String.length (hex_EncodeToString x) = 64%nat) as Hlen.
  { rewrite hex_encode_length. unfold x. by rewrite Sum256_length. }
  assert (forallb hex_class (codes (hex_EncodeToString x)) = true) as Hc
    by apply hex_encode_class, Sum256_range.
  revert Hlen Hc. generalize (hex_EncodeToString x). intros s Hlen Hc.
  change (String.prefix "sha256:" ("sha256:" +:+ s)) with (String.prefix "" s).
  change (String.length ("sha256:" +:+ s)) with (7 + String.length s)%nat.
  replace (7 + String.length s - 7)%nat with (String.length s) by lia.
  change (String.substring 7 (String.length s) ("sha256:" +:+ s))
    with (String.substring 0 (String.length s) s).
  rewrite substring_full. unfold match_class, strlen. rewrite Hlen.
  destruct s; exact Hc.
Qed.

Lemma ParseSHA256_Ok value v : ParseSHA256 value = Ok v <-> v = value /\ encodedPattern value = true.
Proof. unfold ParseSHA256. destruct (encodedPattern value); simpl; naive_solver. Qed.

Lemma codes_preimage d v c :
  codes (preimage d v c) = codes prefix ++ codes d ++ 0 :: codes v ++ 0 :: codes c.
Proof. unfold preimage. by rewrite !codes_app. Qed.

(** Two preimages with NUL-free domains and versions are equal only when all
    three components are: no two protocol domains share a preimage. *)
Lemma preimage_inj d v c d' v' c' :
  0 ∉ codes d -> 0 ∉ codes d' -> 0 ∉ codes v -> 0 ∉ codes v' ->
  preimage d v c = preimage d' v' c' -> d = d' /\ v = v' /\ c = c'.
Proof.
  intros Hd Hd' Hv Hv' H%(f_equal codes). rewrite !codes_preimage in H.
  apply app_inv_head in H.
  apply app_sep_inj in H as [H1 H]; [|done..].
  apply app_sep_inj in H as [H2 H3]; [|done..].
  split_and!; by apply (inj codes).
Qed.

Example Sum_abc :
  Sum "abc" = "sha256:ba7816bf8f01cfea414140de5dae2223b00361a396177a9cb410ff61f20015ad"%string.
Proof. by vm_compute. Qed.

Example Sum_two_blocks :
  Sum "abcdbcdecdefdefgefghfghighijhijkijkljklmklmnlmnomnopnopq"
  = "sha256:248d6a61d20638b8e5c026930c3e6039a33ce45964ff2167f6ecedd419db06c1"%string.
Proof. by vm_compute. Qed.

End digest.
