(* ===== verification/Json.v ===== *)
(** * [encoding/json]: the part of [json.Marshal] that the digests use

    Values are the JSON trees the modelled structs marshal to, with struct
    fields in declaration order and Go maps in sorted key order. *)
From stdpp Require Import base gmap strings list pretty.
From S2P Require Import Prelude.

#[local] Set Warnings "-register-all".

Inductive json :=
| JNull
| JBool (b : bool)
| JInt (z : Z)
| JString (s : string)
| JArray (l : list json)
| JObject (fields : list (string * json))
| JRaw (s : string).

Module json.

Definition str_of (l : list Z) : string :=
  String.string_of_list_ascii (map (fun b => Ascii.ascii_of_N (Z.to_N b)) l).

Lemma codes_str_of l : Forall (fun b => 0 <= b < 256) l -> codes (str_of l) = l.
Proof.
  unfold codes, str_of. intros H. rewrite String.list_ascii_of_string_of_list_ascii.
  induction H as [|b l Hb Hl IH]; [done|]. simpl in *. rewrite IH. f_equal.
  rewrite Ascii.N_ascii_embedding by lia. lia.
Qed.

Definition hex4 (b : Z) : list Z :=
  let digit n := if n <? 10 then 48 + n else 87 + n in
  codes "\u00" ++ [digit (b / 16); digit (b mod 16)].

(** An ASCII byte inside a JSON string, with the default HTML escaping. *)
Definition escape_ascii (b : Z) : list Z :=
  if one_of "\" b || (b =? 34) then [92; b]
  else if b =? 8 then codes "\b"
  else if b =? 12 then codes "\f"
  else if b =? 10 then codes "\n"
  else if b =? 13 then codes "\r"
  else if b =? 9 then codes "\t"
  else if (b <? 32) || one_of "<>&" b then hex4 b
  else [b].

(** Copies valid multi-byte runes, replaces an invalid byte by U+FFFD and
    escapes the line separators U+2028 and U+2029. *)
Fixpoint escape (l : list Z) : list Z :=
  match l with
  | [] => []
  | b0 :: l0 =>
    if in_range 0 0x7F b0 then escape_ascii b0 ++ escape l0
    else match l0 with
    | b1 :: l1 =>
      if utf8_valid [b0; b1] then b0 :: b1 :: escape l1
      else match l1 with
      | b2 :: l2 =>
        if utf8_valid [b0; b1; b2] then
          (if (b0 =? 0xE2) && (b1 =? 0x80) && (b2 =? 0xA8) then codes "\u2028"
           else if (b0 =? 0xE2) && (b1 =? 0x80) && (b2 =? 0xA9) then codes "\u2029"
           else [b0; b1; b2]) ++ escape l2
        else match l2 with
        | b3 :: l3 =>
          if utf8_valid [b0; b1; b2; b3] then b0 :: b1 :: b2 :: b3 :: escape l3
          else codes "\ufffd" ++ escape l0
        | [] => codes "\ufffd" ++ escape l0
        end
      | [] => codes "\ufffd" ++ escape l0
      end
    | [] => codes "\ufffd"
    end
  end.

(** Compaction of a [json.RawMessage]: white space outside strings goes, and
    the HTML characters and line separators are escaped. *)
Fixpoint compact (in_string escaped : bool) (l : list Z) : list Z :=
  match l with
  | [] => []
  | b :: l' =>
    if one_of "<>&" b then hex4 b ++ compact in_string false l'
    else if in_string then
      if escaped then b :: compact true false l'
      else if b =? 92 then b :: compact true true l'
      else if b =? 34 then b :: compact false false l'
      else match l with
      | 0xE2 :: 0x80 :: 0xA8 :: l3 => codes "\u2028" ++ compact true false l3
      | 0xE2 :: 0x80 :: 0xA9 :: l3 => codes "\u2029" ++ compact true false l3
      | _ => b :: compact true false l'
      end
    else if one_of " " b || (b =? 9) || (b =? 10) || (b =? 13) then compact false false l'
    else b :: compact (b =? 34) false l'
  end.

Definition quote : string := String (Ascii.ascii_of_nat 34) "".

Definition marshal_string (s : string) : string :=
  quote +:+ str_of (escape (codes s)) +:+ quote.

Fixpoint join (sep : string) (l : list string) : string :=
  match l with
  | [] => ""
  | [x] => x
  | x :: l' => x +:+ sep +:+ join sep l'
  end.

Fixpoint Marshal (v : json) : string :=
  match v with
  | JNull => "null"
  | JBool true => "true"
  | JBool false => "false"
  | JInt z => pretty z
  | JString s => marshal_string s
  | JArray l => "[" +:+ join "," (map Marshal l) +:+ "]"
  | JObject fields =>
      "{" +:+ join "," (map (fun '(k, x) => marshal_string k +:+ ":" +:+ Marshal x) fields) +:+ "}"
  | JRaw s => str_of (compact false false (codes s))
  end.

(** Marshalling a nil or present Go map, keys sorted. *)
Definition of_map {V} (value : V -> json) (m : option (gmap string V)) : json :=
  match m with
  | None => JNull
  | Some m =>
      JObject (map (fun '(k, v) => (k, value v))
        (SortFunc (fun x y => strings_Compare (fst x) (fst y)) (map_to_list m)))
  end.

Definition of_option {V} (value : V -> json) (o : option V) : json :=
  match o with None => JNull | Some v => value v end.

Example Marshal_ex :
  Marshal (JObject [("a", JInt 12); ("b", JArray [JBool true; JNull; JString "x<y"])])
  = ("{" +:+ quote +:+ "a" +:+ quote +:+ ":12," +:+ quote +:+ "b" +:+ quote +:+ ":[true,null,"
     +:+ quote +:+ "x\u003cy" +:+ quote +:+ "]}")%string.
Proof. by vm_compute. Qed.

End json.
