(* ===== verification/Model.v ===== *)
(** * Packages [internal/model] and [internal/wasmprofile]

    Versioned control-plane values and their validation.  Validators are
    chains of early returns in the order of the source.  Enumerations are Go
    strings, since a value outside the enumeration is representable and
    rejected by the validators. *)
From stdpp Require Import base gmap strings list pretty.
From S2P Require Import Prelude Problem Digest Json.
Import problem digest.

(** ** [wasmprofile] *)
Module wasmprofile.

Definition RuntimeName : string := "wazero".
Definition RuntimeVersion : string := "v1.12.0".
Definition FeatureProfile : string := "wazero-core-v2-v1".
Definition EngineCompiler : string := "compiler".
Definition EngineInterpreter : string := "interpreter".
Definition WasmPageBytes : Z := u32 (64 * 2 ^ 10).
Definition memoryTiersMiB : list Z := [64; 128; 256; 512].

Record Profile := { p_Engine : string; p_MemoryLimitMiB : Z }.

Definition ValidMemoryTier (memoryMiB : Z) : bool := bool_decide (memoryMiB ∈ memoryTiersMiB).

Definition New (engine : string) (memoryLimitMiB : Z) : result Profile :=
  fail_if ((engine != EngineCompiler) && (engine != EngineInterpreter))
    (PlainError "unsupported wasm runtime engine") ;;;
  fail_if (negb (ValidMemoryTier memoryLimitMiB)) (PlainError "unsupported wasm memory tier") ;;;
  Ok {| p_Engine := engine; p_MemoryLimitMiB := memoryLimitMiB |}.

Definition MemoryLimitPages (memoryMiB : Z) : Z :=
  u32 (u32 (memoryMiB * 2 ^ 20) / WasmPageBytes).

(** A validated tier never overflows the 32-bit multiplication: a tier of
    [m] MiB is exactly [16 m] pages. *)
Lemma MemoryLimitPages_tier m : ValidMemoryTier m = true -> MemoryLimitPages m = 16 * m.
Proof.
  unfold ValidMemoryTier. intros H%bool_decide_eq_true.
  revert m H. apply Forall_forall. repeat constructor.
Qed.

End wasmprofile.

Module model.

Definition DefaultNamespace : string := "default".

Definition id_class (b : Z) : bool := is_alnum b || one_of "._:-" b.
(** [^[A-Za-z0-9._:-]{1,128}$], the identifier pattern every package uses. *)
Definition idPattern (s : string) : bool := match_class id_class 1 128 s.
(** [^[a-z][a-z0-9-]{0,62}$] *)
Definition functionNamePattern (s : string) : bool :=
  match_first is_lower (fun b => is_lower b || is_digit b || one_of "-" b) 62 s.
(** [^[a-z][a-z0-9_.-]{0,62}$] *)
Definition labelKeyPattern (s : string) : bool :=
  match_first is_lower (fun b => is_lower b || is_digit b || one_of "_.-" b) 62 s.
Definition token_class (b : Z) : bool := one_of "!#$%&'*+.^_`|~-" b || is_alnum b.
(** One or more HTTP token characters. *)
Definition httpTokenPattern (s : string) : bool :=
  (1 <=? strlen s) && forallb token_class (codes s).

(** ** Metadata *)
Record Metadata := {
  md_ID : string;
  md_Namespace : string;
  md_CreatedAt : Time;
  md_UpdatedAt : Time;
  md_CreatedRaftIndex : Z;
  md_ResourceRevision : Z;
}.

#[global] Instance Metadata_eq_dec : EqDecision Metadata.
Proof. solve_decision. Defined.

Definition isUTC (value : Time) : bool := time_IsUTC value.

Definition Metadata_Validate (m : Metadata) : result unit :=
  fail_if (negb (idPattern (md_ID m))) (Invalid "id" "must contain 1 to 128 allowed characters") ;;;
  fail_if (md_Namespace m != DefaultNamespace) (Invalid "namespace" "only default is supported in v1") ;;;
  fail_if (time_IsZero (md_CreatedAt m)) (Invalid "created_at" "is required") ;;;
  fail_if (negb (isUTC (md_CreatedAt m))) (Invalid "created_at" "must use UTC") ;;;
  fail_if (time_IsZero (md_UpdatedAt m)) (Invalid "updated_at" "is required") ;;;
  fail_if (negb (isUTC (md_UpdatedAt m))) (Invalid "updated_at" "must use UTC") ;;;
  fail_if (time_Before (md_UpdatedAt m) (md_CreatedAt m))
    (Invalid "updated_at" "must not precede created_at") ;;;
  fail_if (md_CreatedRaftIndex m =? 0) (Invalid "created_raft_index" "must be greater than zero") ;;;
  fail_if (md_ResourceRevision m =? 0) (Invalid "resource_revision" "must be greater than zero").

(** ** Function *)
Definition maxDescriptionBytes : Z := 512.
Definition maxLabels : Z := 32.
Definition maxLabelValueBytes : Z := 256.

Definition FunctionActive : string := "Active".
Definition FunctionDisabled : string := "Disabled".
Definition FunctionDeleting : string := "Deleting".
Definition FunctionTombstoned : string := "Tombstoned".

Record Function := {
  fn_Metadata : Metadata;
  fn_Name : string;
  fn_Description : string;
  fn_ActiveRouteRevision : Z;
  fn_Labels : gmap string string;
  fn_Lifecycle : string;
}.

#[global] Instance Function_eq_dec : EqDecision Function.
Proof. solve_decision. Defined.

Definition FunctionLifecycle_valid (l : string) : bool :=
  bool_decide (l ∈ [FunctionActive; FunctionDisabled; FunctionDeleting; FunctionTombstoned]).

(** One iteration of the label loop. *)
Definition validateLabel (label : string * string) : result unit :=
  fail_if (negb (labelKeyPattern (fst label))) (Invalid "labels" "contains an invalid key") ;;;
  fail_if (negb (utf8_ValidString (snd label)))
    (Invalid "labels" "contains a value that is not valid UTF-8") ;;;
  fail_if (strlen (snd label) >? maxLabelValueBytes)
    (Invalid "labels" "contains a value longer than 256 bytes").

Definition Function_Validate (f : Function) : result unit :=
  Metadata_Validate (fn_Metadata f) ;;;
  fail_if (negb (functionNamePattern (fn_Name f))) (Invalid "name" "must match the function name syntax") ;;;
  fail_if (negb (utf8_ValidString (fn_Description f))) (Invalid "description" "must be valid UTF-8") ;;;
  fail_if (strlen (fn_Description f) >? maxDescriptionBytes)
    (Invalid "description" "must not exceed 512 bytes") ;;;
  fail_if (Z.of_nat (size (fn_Labels f)) >? maxLabels)
    (Invalid "labels" "must not contain more than 32 entries") ;;;
  for_each validateLabel (map_to_list (fn_Labels f)) ;;;
  fail_if (negb (FunctionLifecycle_valid (fn_Lifecycle f)))
    (Invalid "lifecycle" "is not a supported function lifecycle").

(** ** Version *)
Definition ABIWASICommandV1 : string := "wasi-command-v1".
Definition HostAPIProfileNone : string := "none".
Definition MaxArtifactBytes : Z := 256 * 2 ^ 20.
Definition supportedMemoryMiB : list Z := [64; 128; 256; 512].

Definition VersionUploaded : string := "Uploaded".
Definition VersionValidating : string := "Validating".
Definition VersionReady : string := "Ready".
Definition VersionFailed : string := "Failed".
Definition VersionDeprecated : string := "Deprecated".
Definition VersionDeleting : string := "Deleting".
Definition VersionTombstoned : string := "Tombstoned".

Definition VersionState_valid (s : string) : bool :=
  bool_decide (s ∈ [VersionUploaded; VersionValidating; VersionReady; VersionFailed;
                    VersionDeprecated; VersionDeleting; VersionTombstoned]).

Record ToolchainMetadata := { tc_Name : string; tc_Version : string; tc_Provenance : string }.

Record ResourceRequest := {
  rr_Timeout : Z;
  rr_MemoryMiB : Z;
  rr_MaxConcurrency : Z;
  rr_MaxInputBytes : Z;
  rr_MaxOutputBytes : Z;
}.

Record CapabilityRequest := { cap_Name : string; cap_Version : string }.

Record SafeError := { se_Code : string; se_Message : string }.

Record Version := {
  v_Metadata : Metadata;
  v_FunctionID : string;
  v_VersionID : string;
  v_ArtifactDigest : string;
  v_ManifestDigest : string;
  v_ArtifactSize : Z;
  v_ABI : string;
  v_HostAPIProfile : string;
  v_RuntimeFeatureProfile : string;
  v_Toolchain : ToolchainMetadata;
  v_AdmissionEpoch : Z;
  v_ResourceRequest : ResourceRequest;
  v_RequestedCapabilities : list CapabilityRequest;
  v_State : string;
  v_ValidationError : option SafeError;
}.

#[global] Instance ToolchainMetadata_eq_dec : EqDecision ToolchainMetadata.
Proof. solve_decision. Defined.
#[global] Instance ResourceRequest_eq_dec : EqDecision ResourceRequest.
Proof. solve_decision. Defined.
#[global] Instance CapabilityRequest_eq_dec : EqDecision CapabilityRequest.
Proof. solve_decision. Defined.
#[global] Instance SafeError_eq_dec : EqDecision SafeError.
Proof. solve_decision. Defined.
#[global] Instance Version_eq_dec : EqDecision Version.
Proof. solve_decision. Defined.

Definition ResourceRequest_Validate (r : ResourceRequest) : result unit :=
  fail_if ((rr_Timeout r <=? 0) || (rr_Timeout r >? 30 * second))
    (Invalid "resource_request.timeout" "must be between zero and 30 seconds") ;;;
  fail_if (negb (bool_decide (rr_MemoryMiB r ∈ supportedMemoryMiB)))
    (Invalid "resource_request.memory_mib" "must be one of 64, 128, 256, or 512") ;;;
  fail_if (rr_MaxConcurrency r =? 0)
    (Invalid "resource_request.max_concurrency" "must be greater than zero") ;;;
  fail_if ((rr_MaxInputBytes r <=? 0) || (rr_MaxInputBytes r >? 2 ^ 20))
    (Invalid "resource_request.max_input_bytes" "must be within 1 MiB") ;;;
  fail_if ((rr_MaxOutputBytes r <=? 0) || (rr_MaxOutputBytes r >? 2 ^ 20))
    (Invalid "resource_request.max_output_bytes" "must be within 1 MiB").

Definition capability_key (c : CapabilityRequest) : string :=
  cap_Name c +:+ NUL +:+ cap_Version c.

Definition validateCapability (capability : CapabilityRequest) : result unit :=
  fail_if (negb (labelKeyPattern (cap_Name capability)) || (cap_Version capability == ""))
    (Invalid "requested_capabilities" "contains an invalid capability").

Definition validateCapabilities (capabilities : list CapabilityRequest) : result unit :=
  for_each_unique validateCapability capability_key
    (Invalid "requested_capabilities" "contains a duplicate capability") ∅ capabilities.

Definition Version_Validate (v : Version) : result unit :=
  Metadata_Validate (v_Metadata v) ;;;
  fail_if (negb (idPattern (v_FunctionID v))) (Invalid "function_id" "must be a valid identifier") ;;;
  fail_if (negb (idPattern (v_VersionID v))) (Invalid "version_id" "must be a valid identifier") ;;;
  replace_err (Invalid "artifact_digest" "must be a lowercase SHA-256 digest")
    (ParseSHA256 (v_ArtifactDigest v)) ;;;
  replace_err (Invalid "manifest_digest" "must be a lowercase SHA-256 digest")
    (ParseSHA256 (v_ManifestDigest v)) ;;;
  fail_if ((v_ArtifactSize v <=? 0) || (v_ArtifactSize v >? MaxArtifactBytes))
    (Invalid "artifact_size" "must be within the v1 artifact size limit") ;;;
  fail_if (v_ABI v != ABIWASICommandV1) (Invalid "abi" "only wasi-command-v1 is supported in v1") ;;;
  fail_if (v_HostAPIProfile v != HostAPIProfileNone)
    (Invalid "host_api_profile" "only none is supported in v1") ;;;
  fail_if (v_RuntimeFeatureProfile v == "") (Invalid "runtime_feature_profile" "is required") ;;;
  fail_if ((tc_Name (v_Toolchain v) == "") || (tc_Version (v_Toolchain v) == ""))
    (Invalid "toolchain_metadata" "name and version are required") ;;;
  fail_if (tc_Provenance (v_Toolchain v) == "")
    (Invalid "toolchain_metadata" "provenance is required") ;;;
  fail_if (v_AdmissionEpoch v =? 0) (Invalid "admission_epoch" "must be greater than zero") ;;;
  ResourceRequest_Validate (v_ResourceRequest v) ;;;
  validateCapabilities (v_RequestedCapabilities v) ;;;
  fail_if (negb (VersionState_valid (v_State v))) (Invalid "state" "is not a supported version state") ;;;
  fail_if ((v_State v == VersionFailed) && (v_ValidationError v == None))
    (Invalid "validation_error" "is required for a failed version") ;;;
  fail_if (match v_ValidationError v with
           | Some e => (se_Code e == "") || (se_Message e == "") | None => false end)
    (Invalid "validation_error" "code and message are required") ;;;
  fail_if (match v_ValidationError v with
           | Some e => negb (Known (se_Code e)) | None => false end)
    (Invalid "validation_error" "code is not a stable v1 error") ;;;
  fail_if ((v_State v != VersionFailed) && (v_ValidationError v != None))
    (Invalid "validation_error" "is only allowed for a failed version").

(** ** Route *)
Definition TotalRouteWeightBasisPoints : Z := 10000.
Definition MaxRouteTargets : Z := 32.
Definition HashVersionSHA256BPSV1 : string := "sha256-bps-v1".

Definition AffinityRequestID : string := "request_id".
Definition AffinityIdempotencyKey : string := "idempotency_key".
Definition AffinityHeader : string := "header".

Record RouteTarget := {
  rt_VersionID : string;
  rt_AdmissionEpoch : Z;
  rt_DeploymentGeneration : Z;
  rt_EffectivePolicyDigest : string;
  rt_WeightBasisPoints : Z;
}.

Record Route := {
  r_Metadata : Metadata;
  r_FunctionID : string;
  r_RouteRevision : Z;
  r_Targets : list RouteTarget;
  r_Affinity : string;
  r_AffinityHeader : string;
  r_HashVersion : string;
  r_SaltID : string;
  r_Salt : string;
  r_Enabled : bool;
}.

Record ServingRoute := {
  sr_FunctionID : string;
  sr_RouteRevision : Z;
  sr_Targets : list RouteTarget;
  sr_HashVersion : string;
  sr_Salt : string;
  sr_Enabled : bool;
}.

#[global] Instance RouteTarget_eq_dec : EqDecision RouteTarget.
Proof. solve_decision. Defined.
#[global] Instance Route_eq_dec : EqDecision Route.
Proof. solve_decision. Defined.
#[global] Instance ServingRoute_eq_dec : EqDecision ServingRoute.
Proof. solve_decision. Defined.

(** [strconv.FormatUint(n, 10)]. *)
Definition FormatUint (n : Z) : string := pretty (Z.to_N n).

Definition target_key (t : RouteTarget) : string :=
  rt_VersionID t +:+ NUL +:+ FormatUint (rt_DeploymentGeneration t).

(** The checks of one iteration that do not depend on earlier targets. *)
Definition validateRouteTarget (target : RouteTarget) : result unit :=
  fail_if (negb (idPattern (rt_VersionID target))) (Invalid "targets" "contains an invalid version_id") ;;;
  fail_if ((rt_AdmissionEpoch target =? 0) || (rt_DeploymentGeneration target =? 0))
    (Invalid "targets" "contains a zero epoch or generation") ;;;
  replace_err (Invalid "targets" "contains an invalid policy digest")
    (ParseSHA256 (rt_EffectivePolicyDigest target)) ;;;
  fail_if ((rt_WeightBasisPoints target =? 0)
           || (rt_WeightBasisPoints target >? TotalRouteWeightBasisPoints))
    (Invalid "targets" "contains an invalid weight").

(** The loop of [validateRouteTargets], returning the 32-bit running total. *)
Fixpoint validateRouteTargets_loop (total : Z) (seen : gset string) (l : list RouteTarget) : result Z :=
  match l with
  | [] => Ok total
  | target :: l' =>
    validateRouteTarget target ;;;
    fail_if (bool_decide (target_key target ∈ seen)) (Invalid "targets" "contains a duplicate target") ;;;
    validateRouteTargets_loop (u32 (total + rt_WeightBasisPoints target))
      ({[ target_key target ]} ∪ seen) l'
  end.

Definition validateRouteTargets (targets : list RouteTarget) : result unit :=
  total <- validateRouteTargets_loop 0 ∅ targets ;;
  fail_if ((len targets >? 0) && (total != TotalRouteWeightBasisPoints))
    (Invalid "targets" "weights must total 10000 basis points").

Definition validateAffinity (r : Route) : result unit :=
  if (r_Affinity r == AffinityRequestID) || (r_Affinity r == AffinityIdempotencyKey) then
    fail_if (r_AffinityHeader r != "") (Invalid "affinity_header" "is only valid for header affinity")
  else if r_Affinity r == AffinityHeader then
    fail_if (negb (httpTokenPattern (r_AffinityHeader r)))
      (Invalid "affinity_header" "must be a valid HTTP field name")
  else Err (Invalid "affinity_source" "is not supported").

(** Lines shared by [Route.Validate] and [ServingRoute.Validate]. *)
Definition validateTargetPresence (enabled : bool) (targets : list RouteTarget) : result unit :=
  fail_if (len targets >? MaxRouteTargets) (Invalid "targets" "must not contain more than 32 entries") ;;;
  fail_if (negb enabled && negb (len targets =? 0))
    (Invalid "targets" "must be empty when the route is disabled") ;;;
  fail_if (enabled && (len targets =? 0))
    (Invalid "targets" "must not be empty when the route is enabled").

Definition Route_Validate (r : Route) : result unit :=
  Metadata_Validate (r_Metadata r) ;;;
  fail_if (negb (idPattern (r_FunctionID r))) (Invalid "function_id" "must be a valid identifier") ;;;
  fail_if (r_RouteRevision r =? 0) (Invalid "route_revision" "must be greater than zero") ;;;
  validateTargetPresence (r_Enabled r) (r_Targets r) ;;;
  validateRouteTargets (r_Targets r) ;;;
  validateAffinity r ;;;
  fail_if (r_HashVersion r != HashVersionSHA256BPSV1) (Invalid "hash_version" "is not supported") ;;;
  fail_if (negb (idPattern (r_SaltID r))) (Invalid "salt_id" "must be a valid identifier") ;;;
  fail_if (negb (strlen (r_Salt r) =? 16)) (Invalid "salt" "must contain exactly 128 bits").

(** [(r Route) ServingRoute()]. *)
Definition ToServingRoute (r : Route) : ServingRoute :=
  {| sr_FunctionID := r_FunctionID r; sr_RouteRevision := r_RouteRevision r;
     sr_Targets := r_Targets r; sr_HashVersion := r_HashVersion r;
     sr_Salt := r_Salt r; sr_Enabled := r_Enabled r |}.

Definition ServingRoute_Validate (r : ServingRoute) : result unit :=
  fail_if (negb (idPattern (sr_FunctionID r))) (Invalid "function_id" "must be a valid identifier") ;;;
  fail_if (sr_RouteRevision r =? 0) (Invalid "route_revision" "must be greater than zero") ;;;
  validateTargetPresence (sr_Enabled r) (sr_Targets r) ;;;
  validateRouteTargets (sr_Targets r) ;;;
  fail_if (sr_HashVersion r != HashVersionSHA256BPSV1) (Invalid "hash_version" "is not supported") ;;;
  fail_if (negb (strlen (sr_Salt r) =? 16)) (Invalid "salt" "must contain exactly 128 bits").

Definition Route_ValidateCore (r : Route) : result unit :=
  Route_Validate r ;;;
  fail_if (r_Enabled r && negb (len (r_Targets r) =? 1))
    (Invalid "targets" "core mode requires exactly one target").

(** ** Deployment *)
Definition MaxReplicasV1 : Z := 100.
Definition ScalingManual : string := "manual".
Definition ScalingAuto : string := "auto".
Definition DeploymentActive : string := "Active".
Definition DeploymentDraining : string := "Draining".
Definition DeploymentStopped : string := "Stopped".
Definition DeploymentDeleting : string := "Deleting".

Record ResourceLimits := {
  rl_Timeout : Z;
  rl_MemoryMiB : Z;
  rl_MaxInputBytes : Z;
  rl_MaxOutputBytes : Z;
  rl_MaxLogBytes : Z;
}.

Record Deployment := {
  d_Metadata : Metadata;
  d_VersionID : string;
  d_Generation : Z;
  d_ScalingRevision : Z;
  d_ResourceLimits : ResourceLimits;
  d_GrantedCapabilities : list CapabilityRequest;
  d_EffectivePolicyDigest : string;
  d_MinReplicas : Z;
  d_MaxReplicas : Z;
  d_DesiredReplicas : Z;
  d_ReadyReplicas : Z;
  d_TargetConcurrency : Z;
  d_ScalingMode : string;
  d_IdleTimeout : Z;
  d_DesiredPhase : string;
}.

#[global] Instance ResourceLimits_eq_dec : EqDecision ResourceLimits.
Proof. solve_decision. Defined.
#[global] Instance Deployment_eq_dec : EqDecision Deployment.
Proof. solve_decision. Defined.

Definition ScalingMode_valid (m : string) : bool := (m == ScalingManual) || (m == ScalingAuto).
Definition DeploymentPhase_valid (p : string) : bool :=
  bool_decide (p ∈ [DeploymentActive; DeploymentDraining; DeploymentStopped; DeploymentDeleting]).

Definition ResourceLimits_Validate (l : ResourceLimits) : result unit :=
  ResourceRequest_Validate
    {| rr_Timeout := rl_Timeout l; rr_MemoryMiB := rl_MemoryMiB l; rr_MaxConcurrency := 1;
       rr_MaxInputBytes := rl_MaxInputBytes l; rr_MaxOutputBytes := rl_MaxOutputBytes l |} ;;;
  fail_if ((rl_MaxLogBytes l <=? 0) || (rl_MaxLogBytes l >? 256 * 2 ^ 10))
    (Invalid "resource_limits.max_log_bytes" "must be within 256 KiB").

Definition Deployment_Validate (d : Deployment) : result unit :=
  Metadata_Validate (d_Metadata d) ;;;
  fail_if (negb (idPattern (d_VersionID d))) (Invalid "version_id" "must be a valid identifier") ;;;
  fail_if (d_Generation d =? 0) (Invalid "generation" "must be greater than zero") ;;;
  fail_if (d_ScalingRevision d =? 0) (Invalid "scaling_revision" "must be greater than zero") ;;;
  ResourceLimits_Validate (d_ResourceLimits d) ;;;
  validateCapabilities (d_GrantedCapabilities d) ;;;
  replace_err (Invalid "effective_policy_digest" "must be a lowercase SHA-256 digest")
    (ParseSHA256 (d_EffectivePolicyDigest d)) ;;;
  fail_if ((d_MaxReplicas d =? 0) || (d_MaxReplicas d >? MaxReplicasV1))
    (Invalid "max_replicas" "must be between 1 and 100") ;;;
  fail_if (d_MinReplicas d >? d_MaxReplicas d) (Invalid "min_replicas" "must not exceed max_replicas") ;;;
  fail_if ((d_DesiredReplicas d <? d_MinReplicas d) || (d_DesiredReplicas d >? d_MaxReplicas d))
    (Invalid "desired_replicas" "must be within the replica bounds") ;;;
  fail_if (d_ReadyReplicas d >? d_MaxReplicas d)
    (Invalid "ready_replicas" "must not exceed max_replicas") ;;;
  fail_if (d_TargetConcurrency d =? 0) (Invalid "target_concurrency" "must be greater than zero") ;;;
  fail_if (negb (ScalingMode_valid (d_ScalingMode d))) (Invalid "scaling_mode" "is not supported") ;;;
  fail_if (d_IdleTimeout d <? 0) (Invalid "idle_timeout" "must not be negative") ;;;
  fail_if (negb (DeploymentPhase_valid (d_DesiredPhase d))) (Invalid "desired_phase" "is not supported").

(** ** Effective policy *)
Definition EffectivePolicyDomain : string := "effective-policy".
Definition EffectivePolicySchemaVersion : string := "v1".

Record EffectivePolicy := {
  ep_VersionID : string;
  ep_AdmissionEpoch : Z;
  ep_DeploymentGeneration : Z;
  ep_ArtifactDigest : string;
  ep_ArtifactSize : Z;
  ep_ABI : string;
  ep_HostAPIProfile : string;
  ep_RuntimeFeatureProfile : string;
  ep_ResourceLimits : ResourceLimits;
  ep_MaxConcurrency : Z;
  ep_GrantedCapabilities : list CapabilityRequest;
}.

Definition EffectivePolicy_Validate (p : EffectivePolicy) : result unit :=
  fail_if (negb (idPattern (ep_VersionID p))) (Invalid "version_id" "must be a valid identifier") ;;;
  fail_if (ep_AdmissionEpoch p =? 0) (Invalid "admission_epoch" "must be greater than zero") ;;;
  fail_if (ep_DeploymentGeneration p =? 0)
    (Invalid "deployment_generation" "must be greater than zero") ;;;
  replace_err (Invalid "artifact_digest" "must be a lowercase sha-256 digest")
    (ParseSHA256 (ep_ArtifactDigest p)) ;;;
  fail_if ((ep_ArtifactSize p <? 1) || (ep_ArtifactSize p >? MaxArtifactBytes))
    (Invalid "artifact_size" "must be within the v1 artifact size limit") ;;;
  fail_if (ep_ABI p != ABIWASICommandV1) (Invalid "abi" "only wasi-command-v1 is supported in v1") ;;;
  fail_if (ep_HostAPIProfile p != HostAPIProfileNone)
    (Invalid "host_api_profile" "only none is supported in v1") ;;;
  fail_if (ep_RuntimeFeatureProfile p == "") (Invalid "runtime_feature_profile" "is required") ;;;
  ResourceLimits_Validate (ep_ResourceLimits p) ;;;
  fail_if (negb (Z.rem (rl_Timeout (ep_ResourceLimits p)) millisecond =? 0))
    (Invalid "resource_limits.timeout" "must use whole milliseconds") ;;;
  fail_if (ep_MaxConcurrency p =? 0) (Invalid "max_concurrency" "must be greater than zero") ;;;
  match validateCapabilities (ep_GrantedCapabilities p) with
  | Ok _ => Ok tt
  | Err err =>
      match as_problem err with
      | Some (_, message, _) => Err (Invalid "granted_capabilities" message)
      | None => Err err
      end
  end.

Definition compareCapabilities (left right : CapabilityRequest) : Z :=
  if str_lt (cap_Name left) (cap_Name right) then -1
  else if str_lt (cap_Name right) (cap_Name left) then 1
  else if str_lt (cap_Version left) (cap_Version right) then -1
  else if str_lt (cap_Version right) (cap_Version left) then 1
  else 0.

Definition json_capability (c : CapabilityRequest) : json :=
  JObject [("name"%string, JString (cap_Name c)); ("version"%string, JString (cap_Version c))].

(** [canonicalEffectivePolicyV1] as it marshals. *)
Definition canonicalEffectivePolicyV1 (p : EffectivePolicy) : json :=
  let l := ep_ResourceLimits p in
  JObject
    [("version_id", JString (ep_VersionID p));
     ("admission_epoch", JInt (ep_AdmissionEpoch p));
     ("deployment_generation", JInt (ep_DeploymentGeneration p));
     ("artifact_digest", JString (ep_ArtifactDigest p));
     ("artifact_size", JInt (ep_ArtifactSize p));
     ("abi", JString (ep_ABI p));
     ("host_api_profile", JString (ep_HostAPIProfile p));
     ("runtime_feature_profile", JString (ep_RuntimeFeatureProfile p));
     ("resource_limits", JObject
       [("timeout_ms", JInt (Z.quot (rl_Timeout l) millisecond));
        ("memory_mib", JInt (rl_MemoryMiB l));
        ("max_input_bytes", JInt (rl_MaxInputBytes l));
        ("max_output_bytes", JInt (rl_MaxOutputBytes l));
        ("max_log_bytes", JInt (rl_MaxLogBytes l))]);
     ("max_concurrency", JInt (ep_MaxConcurrency p));
     ("granted_capabilities", JArray (map json_capability
        (SortFunc compareCapabilities (ep_GrantedCapabilities p))))]%string.

Definition EffectivePolicy_Digest `{JCS} (p : EffectivePolicy) : result string :=
  EffectivePolicy_Validate p ;;;
  CanonicalJSON EffectivePolicyDomain EffectivePolicySchemaVersion
    (json.Marshal (canonicalEffectivePolicyV1 p)).

(** ** Lemmas *)

(** Identifiers contain no NUL byte, so the composite keys built from them
    with a NUL separator determine their parts. *)
Lemma idPattern_no_NUL s : idPattern s = true -> 0 ∉ codes s.
Proof. intros H. by eapply match_class_not_in. Qed.

Lemma labelKeyPattern_no_NUL s : labelKeyPattern s = true -> 0 ∉ codes s.
Proof.
  unfold labelKeyPattern, match_first. destruct (codes s) as [|b l] eqn:E; [done|].
  intros H. go_cases. intros [<-|Hin]%elem_of_cons; [done|].
  apply list_elem_of_In in Hin. rewrite forallb_forall in *.
  match goal with H : forall x, In x l -> _ |- _ => by apply H in Hin end.
Qed.

Lemma codes_NUL_app a b : codes (a +:+ NUL +:+ b) = codes a ++ 0 :: codes b.
Proof. by rewrite !codes_app. Qed.

Lemma NUL_key_inj a a' b b' :
  0 ∉ codes a -> 0 ∉ codes a' -> a +:+ NUL +:+ b = a' +:+ NUL +:+ b' -> a = a' /\ b = b'.
Proof.
  intros Ha Ha' H%(f_equal codes). rewrite !codes_NUL_app in H.
  apply app_sep_inj in H as [H1 H2]; [|done..]. by split; apply (inj codes).
Qed.

Lemma FormatUint_inj n m : 0 <= n -> 0 <= m -> FormatUint n = FormatUint m -> n = m.
Proof. unfold FormatUint. intros ?? H%(inj pretty). lia. Qed.

Lemma target_key_inj t t' :
  idPattern (rt_VersionID t) = true -> idPattern (rt_VersionID t') = true ->
  0 <= rt_DeploymentGeneration t -> 0 <= rt_DeploymentGeneration t' ->
  target_key t = target_key t' ->
  rt_VersionID t = rt_VersionID t' /\ rt_DeploymentGeneration t = rt_DeploymentGeneration t'.
Proof.
  intros Hv Hv' Hg Hg' H. unfold target_key in H.
  apply NUL_key_inj in H as [? ?%FormatUint_inj]; [done|done|done|by apply idPattern_no_NUL..].
Qed.

Lemma capability_key_inj c c' :
  validateCapability c = Ok tt -> validateCapability c' = Ok tt ->
  capability_key c = capability_key c' -> c = c'.
Proof.
  unfold validateCapability. intros H H' Hk. ok_inv.
  apply NUL_key_inj in Hk as [? ?]; [|by apply labelKeyPattern_no_NUL..].
  destruct c, c'; simpl in *; congruence.
Qed.

Lemma validateCapabilities_Ok l u :
  validateCapabilities l = Ok u <-> Forall (fun c => validateCapability c = Ok tt) l /\ NoDup l.
Proof.
  unfold validateCapabilities. rewrite for_each_unique_Ok. split.
  - intros (Hf & Hn & _). split; [done|]. by apply NoDup_fmap_1 in Hn.
  - intros [Hf Hn]. split_and!; [done| |set_solver].
    rewrite Forall_forall in Hf. apply NoDup_fmap_2_strong; [|done].
    intros x y Hx Hy. apply capability_key_inj; auto.
Qed.

(** Total weight of a target list, as an unbounded integer. *)
Definition total_weight (l : list RouteTarget) : Z := foldr (fun t acc => rt_WeightBasisPoints t + acc) 0 l.

Definition valid_target (t : RouteTarget) : Prop := validateRouteTarget t = Ok tt.
Definition target_id (t : RouteTarget) : string * Z := (rt_VersionID t, rt_DeploymentGeneration t).

(** Generations are unsigned in the source. *)
Definition target_u64 (t : RouteTarget) : Prop :=
  is_u64 (rt_DeploymentGeneration t) /\ is_u32 (rt_WeightBasisPoints t).

Lemma valid_target_weight t : valid_target t -> target_u64 t -> 1 <= rt_WeightBasisPoints t <= 10000.
Proof.
  unfold valid_target, validateRouteTarget, target_u64, is_u32, TotalRouteWeightBasisPoints.
  intros H [_ Hw]. ok_inv. lia.
Qed.

Lemma validateRouteTargets_loop_unique total seen l t :
  validateRouteTargets_loop total seen l = Ok t ->
  for_each_unique validateRouteTarget target_key (Invalid "targets" "contains a duplicate target") seen l
    = Ok tt.
Proof.
  revert total seen. induction l as [|x l IH]; intros total seen; simpl; [done|].
  intros H. ok_inv. rewrite H0. simpl. rewrite bool_decide_eq_false_2 by done. simpl. by eapply IH.
Qed.

Lemma validateRouteTargets_loop_complete total seen l :
  for_each_unique validateRouteTarget target_key (Invalid "targets" "contains a duplicate target") seen l
    = Ok tt ->
  exists t, validateRouteTargets_loop total seen l = Ok t.
Proof.
  revert total seen. induction l as [|x l IH]; intros total seen; simpl; [eauto|].
  destruct (validateRouteTarget x) as [[]|]; [simpl|done].
  destruct (fail_if _ _); [simpl; apply IH|done].
Qed.

(** Below 2^32 the 32-bit running total is the real sum. *)
Lemma validateRouteTargets_loop_total total seen l t :
  Forall target_u64 l -> 0 <= total -> total + 10000 * len l < 2 ^ 32 ->
  validateRouteTargets_loop total seen l = Ok t -> t = total + total_weight l.
Proof.
  unfold len. revert total seen. induction l as [|x l IH]; intros total seen Hu Ht Hb; simpl.
  { intros [= <-]. lia. }
  intros H. ok_inv. apply Forall_cons in Hu as [Hux Hu].
  pose proof (valid_target_weight x H0 Hux). simpl length in Hb.
  rewrite u32_small in H by (unfold is_u32; lia).
  apply IH in H; [lia|done|lia|lia].
Qed.

Lemma for_each_unique_targets_Ok l :
  Forall target_u64 l ->
  for_each_unique validateRouteTarget target_key (Invalid "targets" "contains a duplicate target") ∅ l = Ok tt ->
  Forall valid_target l /\ NoDup (target_id <$> l).
Proof.
  intros Hu (Hf & Hn & _)%for_each_unique_Ok. split; [done|].
  clear -Hu Hf Hn. induction l as [|x l IH]; simpl in *; [constructor|].
  apply Forall_cons in Hu as [Hux Hu], Hf as [Hfx Hf]. apply NoDup_cons in Hn as [Hx Hn].
  apply NoDup_cons. split; [|by apply IH].
  intros (y & Hxy & Hy)%list_elem_of_fmap. apply Hx. apply list_elem_of_fmap.
  exists y. split; [|done]. unfold target_id in Hxy. injection Hxy as H1 H2.
  unfold target_key. by rewrite H1, H2.
Qed.

(** What an accepted target list guarantees. *)
Lemma validateRouteTargets_spec l :
  Forall target_u64 l -> len l <= MaxRouteTargets ->
  validateRouteTargets l = Ok tt ->
  Forall valid_target l /\ NoDup (target_id <$> l) /\ (l <> [] -> total_weight l = 10000).
Proof.
  unfold validateRouteTargets, MaxRouteTargets. intros Hu Hlen H.
  apply rbind_Ok in H as (total & Hloop & H). apply fail_if_Ok in H.
  pose proof (for_each_unique_targets_Ok l Hu (validateRouteTargets_loop_unique _ _ _ _ Hloop)) as [? ?].
  split_and!; [done..|]. intros Hne.
  apply validateRouteTargets_loop_total in Hloop; [|done|lia|lia].
  go_cases. destruct H as [H|H]; go_cases; [|unfold TotalRouteWeightBasisPoints in *; lia].
  destruct l; [done|]. unfold len in H. simpl in H. lia.
Qed.

End model.
