(* ===== verification/Routing.v ===== *)
(** * Package [internal/routing]: the weighted Route selector

    [Select] hashes the Route identity and the affinity key into one of
    10000 buckets and picks the target whose cumulative interval holds it. *)
From stdpp Require Import base gmap strings list sorting.
From S2P Require Import Prelude Problem Digest Json Model.
Import problem digest model.

Module routing.

Definition lengthPrefixBytes : Z := 4.
Definition maxInt : Z := 2 ^ 63 - 1.

Record Decision := {
  dec_Digest : string;
  dec_Bucket : Z;
  dec_Target : RouteTarget;
}.

(** Big-endian bytes of an unsigned integer as a byte string. *)
Definition be_string (n : nat) (v : Z) : string := json.str_of (sha256.be_codes n v).

Definition preimage_fields (route : ServingRoute) (affinityKey : string) : list string :=
  [HashVersionSHA256BPSV1; sr_FunctionID route; be_string 8 (sr_RouteRevision route);
   sr_Salt route; affinityKey].

(** First loop: bounds every field and totals the 64-bit input size. *)
Fixpoint preimage_size (totalBytes : Z) (fields : list string) : result Z :=
  match fields with
  | [] => Ok totalBytes
  | field :: fields' =>
    fail_if (strlen field >? maxUint32)
      (Invalid "route_hash_input" "field exceeds the v1 length-prefix limit") ;;;
    preimage_size (u64 (totalBytes + (lengthPrefixBytes + strlen field))) fields'
  end.

(** Second loop: length-prefixed concatenation. *)
Fixpoint preimage_bytes (fields : list string) : string :=
  match fields with
  | [] => ""
  | field :: fields' => be_string 4 (u32 (strlen field)) +:+ field +:+ preimage_bytes fields'
  end.

Definition hashPreimage (route : ServingRoute) (affinityKey : string) : result string :=
  let fields := preimage_fields route affinityKey in
  totalBytes <- preimage_size 0 fields ;;
  fail_if (totalBytes >? maxInt)
    (Invalid "route_hash_input" "fields exceed the platform input limit") ;;;
  Ok (preimage_bytes fields).

(** [bits.Mul64(u, 10000)], high word. *)
Definition bucketFromHash (hash : list Z) : Z :=
  let u := sha256.be_value (firstn 8 hash) in
  u32 (Z.shiftr (u * TotalRouteWeightBasisPoints) 64).

Fixpoint targetForBucket_loop (cumulative : Z) (targets : list RouteTarget) (bucket : Z)
    : option RouteTarget :=
  match targets with
  | [] => None
  | target :: targets' =>
    let cumulative' := u32 (cumulative + rt_WeightBasisPoints target) in
    if bucket <? cumulative' then Some target
    else targetForBucket_loop cumulative' targets' bucket
  end.

Definition targetForBucket (targets : list RouteTarget) (bucket : Z) : option RouteTarget :=
  targetForBucket_loop 0 targets bucket.

Definition compareTargets (left right : RouteTarget) : Z :=
  if str_lt (rt_VersionID left) (rt_VersionID right) then -1
  else if str_lt (rt_VersionID right) (rt_VersionID left) then 1
  else if rt_DeploymentGeneration left <? rt_DeploymentGeneration right then -1
  else if rt_DeploymentGeneration left >? rt_DeploymentGeneration right then 1
  else 0.

Definition uncovered : error :=
  PlainError "routing: validated target intervals do not cover bucket".

Definition selectServing (route : ServingRoute) (affinityKey : string) : result Decision :=
  fail_if (negb (sr_Enabled route)) (classified CodeFunctionDisabled "route is disabled") ;;;
  preimage <- hashPreimage route affinityKey ;;
  let hash := sha256.Sum256 (codes preimage) in
  let digestValue := ("sha256:" +:+ hex_EncodeToString hash)%string in
  let bucket := bucketFromHash hash in
  let targets := SortFunc compareTargets (sr_Targets route) in
  match targetForBucket targets bucket with
  | Some target =>
      Ok {| dec_Digest := digestValue; dec_Bucket := bucket; dec_Target := target |}
  | None => Err uncovered
  end.

Definition SelectServing (route : ServingRoute) (affinityKey : string) : result Decision :=
  ServingRoute_Validate route ;;; selectServing route affinityKey.

Definition Select (route : Route) (affinityKey : string) : result Decision :=
  Route_Validate route ;;; selectServing (ToServingRoute route) affinityKey.

(** ** Reference: the bucket table

    A target of weight [w] owns [w] consecutive rows of a table of 10000. *)
Definition bucket_table (targets : list RouteTarget) : list RouteTarget :=
  concat (map (fun t => replicate (Z.to_nat (rt_WeightBasisPoints t)) t) targets).

(** A validated, enabled serving route within the widths of the source. *)
Definition servable (route : ServingRoute) : Prop :=
  ServingRoute_Validate route = Ok tt /\ sr_Enabled route = true /\
  Forall target_u64 (sr_Targets route) /\ is_u64 (sr_RouteRevision route).

(** ** Reproduction of the published vectors *)
Definition vector_route : ServingRoute :=
  {| sr_FunctionID := "fn_payments"; sr_RouteRevision := 42;
     sr_Targets :=
       [{| rt_VersionID := "ver_b"; rt_AdmissionEpoch := 1; rt_DeploymentGeneration := 2;
           rt_EffectivePolicyDigest := Sum "policy-b"; rt_WeightBasisPoints := 2500 |};
        {| rt_VersionID := "ver_a"; rt_AdmissionEpoch := 1; rt_DeploymentGeneration := 3;
           rt_EffectivePolicyDigest := Sum "policy-a3"; rt_WeightBasisPoints := 3000 |};
        {| rt_VersionID := "ver_a"; rt_AdmissionEpoch := 1; rt_DeploymentGeneration := 1;
           rt_EffectivePolicyDigest := Sum "policy-a1"; rt_WeightBasisPoints := 4500 |}];
     sr_HashVersion := HashVersionSHA256BPSV1;
     sr_Salt := json.str_of [0x00; 0x11; 0x22; 0x33; 0x44; 0x55; 0x66; 0x77;
                             0x88; 0x99; 0xaa; 0xbb; 0xcc; 0xdd; 0xee; 0xff];
     sr_Enabled := true |}.
Definition vector_affinity : string :=
  json.str_of [0x63; 0x75; 0x73; 0x74; 0x6f; 0x6d; 0x65; 0x72; 0x3a; 0x00; 0xff].

Example published_vector :
  match SelectServing vector_route vector_affinity with
  | Ok d => dec_Digest d = "sha256:c8f2c66d28ad9fd37d92fe0af3317b023852c580c3780d1b8eba7b86e4f2b942"%string
            /\ dec_Bucket d = 7849 /\ rt_VersionID (dec_Target d) = "ver_b"%string
  | Err _ => False
  end.
Proof. by vm_compute. Qed.

(** ** Lemmas *)

Lemma be_value_range l :
  Forall (fun b => 0 <= b < 256) l -> 0 <= sha256.be_value l < 256 ^ len l.
Proof.
  unfold len. induction l as [|b l IH] using rev_ind; intros Hl; [done|].
  apply Forall_app in Hl as [Hl [Hb _]%Forall_cons]. specialize (IH Hl).
  unfold sha256.be_value in *. rewrite foldl_app. simpl.
  rewrite length_app, Nat2Z.inj_add, Z.pow_add_r by lia. simpl. lia.
Qed.

Lemma bucketFromHash_range hash :
  (8 <= length hash)%nat -> Forall (fun b => 0 <= b < 256) hash ->
  0 <= bucketFromHash hash < 10000.
Proof.
  intros Hlen Hr. unfold bucketFromHash, TotalRouteWeightBasisPoints.
  pose proof (be_value_range (firstn 8 hash)) as Hu. unfold len in Hu.
  rewrite length_take, Nat.min_l in Hu by done.
  specialize (Hu (Forall_take _ _ _ Hr)). change (256 ^ Z.of_nat 8) with (2 ^ 64) in Hu.
  rewrite Z.shiftr_div_pow2 by lia.
  assert (0 <= sha256.be_value (firstn 8 hash) * 10000 / 2 ^ 64 < 10000) as Hb.
  { split; [apply Z.div_pos; lia|apply Z.div_lt_upper_bound; lia]. }
  rewrite u32_small; [done|unfold is_u32; lia].
Qed.

Lemma total_weight_Permutation l l' : l ≡ₚ l' -> total_weight l = total_weight l'.
Proof. unfold total_weight. induction 1; simpl; lia. Qed.

Lemma bucket_table_length l :
  Forall (fun t => 0 <= rt_WeightBasisPoints t) l ->
  Z.of_nat (length (bucket_table l)) = total_weight l.
Proof.
  unfold bucket_table, total_weight. induction 1 as [|t l Ht Hl IH]; [done|].
  cbn [map concat foldr]. rewrite length_app, length_replicate. lia.
Qed.

Lemma targetForBucket_loop_table cum l b :
  Forall (fun t => 0 <= rt_WeightBasisPoints t) l ->
  0 <= cum <= b -> cum + total_weight l < 2 ^ 32 ->
  targetForBucket_loop cum l b = bucket_table l !! Z.to_nat (b - cum).
Proof.
  unfold bucket_table, total_weight.
  intros Hl. revert cum. induction Hl as [|t l Ht Hl IH]; intros cum Hc Hb;
    cbn [map concat foldr targetForBucket_loop] in *; [done|].
  assert (0 <= foldr (fun t acc => rt_WeightBasisPoints t + acc) 0 l) as Hnn.
  { clear -Hl. induction Hl; simpl; lia. }
  rewrite u32_small by (unfold is_u32; lia). case_match; go_cases.
  - rewrite lookup_app_l by (rewrite length_replicate; lia).
    by rewrite lookup_replicate_2 by lia.
  - rewrite IH by lia. rewrite lookup_app_r by (rewrite length_replicate; lia).
    rewrite length_replicate. f_equal. lia.
Qed.

Lemma valid_weights_nonneg l : Forall target_u64 l -> Forall (fun t => 0 <= rt_WeightBasisPoints t) l.
Proof.
  intros H. eapply Forall_impl; [exact H|]. unfold target_u64, is_u32. simpl. lia.
Qed.

Lemma servable_targets route :
  servable route ->
  Forall valid_target (sr_Targets route) /\ NoDup (target_id <$> sr_Targets route) /\
  total_weight (sr_Targets route) = 10000.
Proof.
  intros (Hv & Hen & Hu & _). unfold ServingRoute_Validate, validateTargetPresence in Hv.
  rewrite Hen in Hv. ok_inv. destruct (validateRouteTargets_spec (sr_Targets route)) as (?&?&?);
    [done|lia|done|]. split_and!; [done..|].
  match goal with H : _ <> [] -> _ |- _ => apply H end.
  intros E. rewrite E in *. unfold len in *. simpl in *. go_cases. naive_solver lia.
Qed.

Lemma compareTargets_spec l r :
  compareTargets l r
  = int_of (lex_by (comparing rt_VersionID String.compare)
                   (comparing rt_DeploymentGeneration Z.compare)) l r.
Proof.
  unfold compareTargets, int_of, lex_by, comparing. rewrite str_three_way, Z_three_way, to_int_lex.
  repeat case_match; done.
Qed.

Lemma target_compare_eq x y :
  lex_by (comparing rt_VersionID String.compare)
         (comparing rt_DeploymentGeneration Z.compare) x y = Eq -> target_id x = target_id y.
Proof.
  unfold lex_by, comparing, lex, target_id. case_match eqn:E; try done.
  apply String.compare_eq_iff in E. intros E2%Z.compare_eq_iff. congruence.
Qed.

(** Canonical order separates targets with distinct identities. *)
Lemma target_separated l :
  NoDup (target_id <$> l) ->
  forall x y, x ∈ l -> y ∈ l ->
  lex_by (comparing rt_VersionID String.compare)
         (comparing rt_DeploymentGeneration Z.compare) x y = Eq -> x = y.
Proof.
  intros Hn x y Hx Hy H%target_compare_eq.
  apply list_elem_of_lookup in Hx as [i Hi], Hy as [j Hj].
  assert (i = j) as ->; [|congruence].
  apply (NoDup_lookup _ _ _ (target_id x) Hn); rewrite list_lookup_fmap;
    [by rewrite Hi|rewrite Hj; simpl; congruence].
Qed.

Lemma codes_be_string n v : codes (be_string n v) = sha256.be_codes n v.
Proof. apply json.codes_str_of, be_codes_range. Qed.

Lemma strlen_codes s : strlen s = len (codes s).
Proof. unfold strlen, len. by rewrite length_codes. Qed.

Lemma strlen_be_string n v : strlen (be_string n v) = Z.of_nat n.
Proof. by rewrite strlen_codes, codes_be_string; unfold len; rewrite be_codes_length. Qed.

Lemma preimage_size_Ok fields total :
  Forall (fun f => strlen f <= maxUint32) fields -> 0 <= total ->
  total + (4 + maxUint32) * len fields < 2 ^ 63 ->
  exists n, preimage_size total fields = Ok n /\ 0 <= n <= maxInt.
Proof.
  unfold len, maxUint32, maxInt. intros Hf. revert total.
  induction Hf as [|f fs Hf Hfs IH]; intros total H0 Hb; simpl in *; [exists total; split; [done|lia]|].
  assert (0 <= strlen f) by (unfold strlen; lia).
  unfold fail_if. case_match; go_cases; [unfold maxUint32 in *; lia|]. simpl. apply IH.
  - unfold lengthPrefixBytes. rewrite u64_small by (unfold is_u64; lia). lia.
  - unfold lengthPrefixBytes. rewrite u64_small by (unfold is_u64; lia). lia.
Qed.

Lemma servable_preimage route key :
  servable route -> strlen key <= maxUint32 ->
  hashPreimage route key = Ok (preimage_bytes (preimage_fields route key)).
Proof.
  intros (Hv & _) Hk. unfold ServingRoute_Validate, idPattern, match_class in Hv. ok_inv.
  unfold hashPreimage. destruct (preimage_size_Ok (preimage_fields route key) 0) as (n & -> & Hn).
  - unfold preimage_fields, maxUint32 in *. repeat constructor; try lia.
    + by vm_compute.
    + rewrite strlen_be_string. lia.
  - done.
  - by vm_compute.
  - simpl. unfold fail_if. case_match; [go_cases; lia|done].
Qed.

Lemma targetForBucket_table route b :
  servable route -> 0 <= b ->
  targetForBucket (SortFunc compareTargets (sr_Targets route)) b
  = bucket_table (SortFunc compareTargets (sr_Targets route)) !! Z.to_nat b.
Proof.
  intros Hs Hb. destruct (servable_targets _ Hs) as (_ & _ & Htot). destruct Hs as (_ & _ & Hu & _).
  unfold targetForBucket. rewrite targetForBucket_loop_table; [by rewrite Z.sub_0_r| |lia|].
  - apply valid_weights_nonneg. by rewrite SortFunc_Permutation.
  - rewrite (total_weight_Permutation _ _ (SortFunc_Permutation _ _)). lia.
Qed.

Lemma bucket_table_size route :
  servable route -> length (bucket_table (SortFunc compareTargets (sr_Targets route))) = Z.to_nat 10000.
Proof.
  intros Hs. destruct (servable_targets _ Hs) as (_ & _ & Htot). destruct Hs as (_ & _ & Hu & _).
  apply Nat2Z.inj. rewrite Z2Nat.id by lia. rewrite bucket_table_length.
  - by rewrite (total_weight_Permutation _ _ (SortFunc_Permutation _ _)).
  - apply valid_weights_nonneg. by rewrite SortFunc_Permutation.
Qed.

Lemma elem_of_bucket_table l t : t ∈ bucket_table l -> t ∈ l.
Proof.
  unfold bucket_table. intros (ts & (t' & <- & Hin)%in_map_iff & Ht)%list_elem_of_In%in_concat.
  apply list_elem_of_In, elem_of_replicate in Ht as [-> _]. by apply list_elem_of_In.
Qed.

(** C35: Selection on a validated, enabled route is total: for every affinity
    key that fits the length prefix it returns a target of the route, through
    a bucket below 10000, and the internal "intervals do not cover bucket"
    error is unreachable. *)
Theorem SelectServing_total route key :
  servable route -> strlen key <= maxUint32 ->
  exists d, SelectServing route key = Ok d /\
    dec_Target d ∈ sr_Targets route /\ 0 <= dec_Bucket d < 10000 /\
    targetForBucket (SortFunc compareTargets (sr_Targets route)) (dec_Bucket d) = Some (dec_Target d).
Proof.
  intros Hs Hk. unfold SelectServing, selectServing.
  destruct (Hs) as (-> & -> & _). simpl. rewrite servable_preimage by done. simpl.
  set (hash := sha256.Sum256 _).
  assert (0 <= bucketFromHash hash < 10000) as Hb.
  { apply bucketFromHash_range; [unfold hash; rewrite Sum256_length; lia|apply Sum256_range]. }
  destruct (lookup_lt_is_Some_2 (bucket_table (SortFunc compareTargets (sr_Targets route)))
    (Z.to_nat (bucketFromHash hash))) as [t Ht]; [rewrite bucket_table_size by done; lia|].
  rewrite targetForBucket_table, Ht by (done || lia).
  eexists. split; [done|]. simpl. split_and!; [|lia|lia|by rewrite targetForBucket_table by (done || lia)].
  apply list_elem_of_lookup_2, elem_of_bucket_table in Ht. by rewrite elem_of_SortFunc in Ht.
Qed.

Lemma bucket_table_count l t :
  NoDup (target_id <$> l) -> t ∈ l ->
  length (filter (.= t) (bucket_table l)) = Z.to_nat (rt_WeightBasisPoints t).
Proof.
  induction l as [|x l IH]; intros Hn Ht; [set_solver|].
  unfold bucket_table in *. cbn [map concat]. rewrite filter_app, length_app.
  apply NoDup_cons in Hn as [Hx Hn]. apply elem_of_cons in Ht as [->|Ht].
  - rewrite filter_eq_replicate, length_replicate, filter_eq_notin; [simpl; lia|].
    intros Hin%elem_of_bucket_table. apply Hx, list_elem_of_fmap. by exists x.
  - rewrite filter_eq_notin; [simpl; by apply IH|].
    intros [-> _]%elem_of_replicate. apply Hx, list_elem_of_fmap. by exists x.
Qed.

(** Of the 10000 buckets, a target owns exactly as many as its weight in
    basis points: the cumulative intervals partition the bucket space. *)
Theorem bucket_share route t :
  servable route -> t ∈ sr_Targets route ->
  length (filter (fun b => targetForBucket (SortFunc compareTargets (sr_Targets route)) (Z.of_nat b) = Some t)
            (seq 0 (Z.to_nat 10000))) = Z.to_nat (rt_WeightBasisPoints t).
Proof.
  intros Hs Ht. destruct (servable_targets _ Hs) as (_ & Hn & _).
  rewrite <-(bucket_table_size route Hs).
  rewrite (list_filter_iff _ (fun b => bucket_table (SortFunc compareTargets (sr_Targets route)) !! b = Some t)).
  - rewrite filter_lookup_seq. apply bucket_table_count; [|by apply elem_of_SortFunc].
    by rewrite SortFunc_Permutation.
  - intros b. by rewrite targetForBucket_table, Nat2Z.id by (done || lia).
Qed.

Lemma validateRouteTargets_Permutation l l' :
  Forall target_u64 l -> len l <= MaxRouteTargets -> l ≡ₚ l' ->
  validateRouteTargets l = Ok tt -> validateRouteTargets l' = Ok tt.
Proof.
  intros Hu Hlen Hp Hok. unfold validateRouteTargets in *.
  apply rbind_Ok in Hok as (total & Hloop & Htot).
  pose proof (validateRouteTargets_loop_unique _ _ _ _ Hloop) as Hun.
  assert (for_each_unique validateRouteTarget target_key
    (Invalid "targets" "contains a duplicate target") ∅ l' = Ok tt) as Hun'.
  { apply is_ok_unit. rewrite <-(for_each_unique_Permutation _ _ _ _ _ Hp). by rewrite Hun. }
  apply (validateRouteTargets_loop_complete 0) in Hun' as [total' Hloop'].
  rewrite Hloop'. simpl. unfold MaxRouteTargets, len in *.
  pose proof (Permutation_length Hp) as Hl.
  apply validateRouteTargets_loop_total in Hloop; [|done|lia|unfold len; lia].
  apply validateRouteTargets_loop_total in Hloop'; [|by rewrite <-Hp|lia|unfold len; lia].
  rewrite Hloop', <-(total_weight_Permutation _ _ Hp), <-Hloop. unfold len. by rewrite <-Hl.
Qed.

Definition with_targets (route : ServingRoute) (targets : list RouteTarget) : ServingRoute :=
  {| sr_FunctionID := sr_FunctionID route; sr_RouteRevision := sr_RouteRevision route;
     sr_Targets := targets; sr_HashVersion := sr_HashVersion route;
     sr_Salt := sr_Salt route; sr_Enabled := sr_Enabled route |}.

Lemma servable_Permutation route targets :
  servable route -> targets ≡ₚ sr_Targets route -> servable (with_targets route targets).
Proof.
  intros (Hv & Hen & Hu & Hr) Hp. unfold servable, with_targets. simpl. split_and!; [|done| |done].
  2: by rewrite Hp.
  unfold ServingRoute_Validate, validateTargetPresence in *. simpl.
  unfold len in *. rewrite (Permutation_length Hp).
  destruct (fail_if _ _) as [[]|]; [simpl in *|done].
  destruct (fail_if _ _) as [[]|]; [simpl in *|done].
  apply rbind_Ok in Hv as ([] & Hpres & Hv). rewrite Hpres. simpl.
  apply rbind_Ok in Hv as ([] & Htar & Hv).
  rewrite (validateRouteTargets_Permutation (sr_Targets route)); [done|done| |by symmetry|done].
  clear -Hpres. ok_inv. unfold len. lia.
Qed.

(** The order in which a route lists its targets is irrelevant: permuting
    the targets of a servable route changes neither digest, bucket nor the
    selected target. *)
Theorem SelectServing_order_independent route targets key :
  servable route -> strlen key <= maxUint32 -> targets ≡ₚ sr_Targets route ->
  SelectServing (with_targets route targets) key = SelectServing route key.
Proof.
  intros Hs Hk Hp. pose proof (servable_Permutation _ _ Hs Hp) as Hs'.
  destruct (servable_targets _ Hs') as (_ & Hn & _).
  unfold SelectServing, selectServing. rewrite !servable_preimage by done.
  destruct Hs as (-> & _), Hs' as (-> & _). simpl in *.
  rewrite !(SortFunc_ext compareTargets (int_of _) _ (fun x y _ _ => compareTargets_spec x y)).
  by rewrite (SortFunc_order_independent _ _ _ (target_separated _ Hn) Hp).
Qed.

Lemma be_codes_inj n v w :
  0 <= v < 256 ^ Z.of_nat n -> 0 <= w < 256 ^ Z.of_nat n ->
  sha256.be_codes n v = sha256.be_codes n w -> v = w.
Proof.
  intros Hv Hw H%(f_equal sha256.be_value). rewrite !be_value_codes in H by lia.
  by rewrite !Z.mod_small in H by lia.
Qed.

Lemma preimage_size_bounds total fields n :
  preimage_size total fields = Ok n -> Forall (fun f => strlen f <= maxUint32) fields.
Proof.
  revert total. induction fields as [|f fs IH]; intros total; simpl; intros H; constructor;
    ok_inv; [lia|by eapply IH].
Qed.

Lemma preimage_bytes_inj fs fs' :
  length fs = length fs' ->
  Forall (fun f => strlen f <= maxUint32) fs -> Forall (fun f => strlen f <= maxUint32) fs' ->
  preimage_bytes fs = preimage_bytes fs' -> fs = fs'.
Proof.
  revert fs'. induction fs as [|f fs IH]; intros [|f' fs'] Hl Hf Hf' H; try done.
  apply Forall_cons in Hf as [Hf Hfs], Hf' as [Hf' Hfs'].
  apply (f_equal codes) in H. cbn [preimage_bytes] in H.
  rewrite !codes_app, !codes_be_string in H.
  apply app_inj_1 in H as [Hlen H]; [|by rewrite !be_codes_length].
  unfold maxUint32 in *. assert (0 <= strlen f /\ 0 <= strlen f') as [? ?] by (unfold strlen; lia).
  rewrite !u32_small in Hlen by (unfold is_u32; lia).
  apply be_codes_inj in Hlen; [|simpl; lia..].
  rewrite !strlen_codes in Hlen. unfold len in Hlen.
  apply app_inj_1 in H as [Hff H]; [|lia].
  apply (inj codes) in Hff as ->. apply (inj codes) in H. f_equal. apply IH; auto.
Qed.

Lemma list5_inj {A} (a b c d e a' b' c' d' e' : A) :
  [a; b; c; d; e] = [a'; b'; c'; d'; e'] -> b = b' /\ c = c' /\ d = d' /\ e = e'.
Proof. by injection 1. Qed.

(** The routing hash input is unambiguous: two selections share a preimage
    only when function, route revision, salt and affinity key all agree. *)
Theorem hashPreimage_injective route route' key key' p :
  is_u64 (sr_RouteRevision route) -> is_u64 (sr_RouteRevision route') ->
  hashPreimage route key = Ok p -> hashPreimage route' key' = Ok p ->
  sr_FunctionID route = sr_FunctionID route' /\ sr_RouteRevision route = sr_RouteRevision route' /\
  sr_Salt route = sr_Salt route' /\ key = key'.
Proof.
  unfold hashPreimage. intros Hr Hr' H H'. ok_inv.
  apply preimage_size_bounds in H0, H'0. subst p.
  apply preimage_bytes_inj in H'; [|done..].
  apply list5_inj in H' as (Hid & Hrev & Hsalt & Hkey).
  split_and!; [done| |done..]. apply (f_equal codes) in Hrev. rewrite !codes_be_string in Hrev.
  symmetry in Hrev. by apply be_codes_inj in Hrev.
Qed.

(** Selecting through a persisted Route and through its serving projection
    agree: a valid Route projects to a valid ServingRoute. *)
Theorem Select_refines_projection r key :
  Route_Validate r = Ok tt -> Select r key = SelectServing (ToServingRoute r) key.
Proof.
  intros Hv. unfold Select, SelectServing. rewrite Hv.
  assert (ServingRoute_Validate (ToServingRoute r) = Ok tt) as ->; [|done].
  unfold Route_Validate in Hv. unfold ServingRoute_Validate, ToServingRoute. simpl.
  repeat (apply rbind_Ok in Hv as ([] & ? & Hv)).
  repeat match goal with H : ?c = Ok tt |- context [?c] => rewrite H; simpl end. done.
Qed.

(** *** Witnesses *)
Definition vector_route_target : RouteTarget :=
  {| rt_VersionID := "ver_b"; rt_AdmissionEpoch := 1; rt_DeploymentGeneration := 2;
     rt_EffectivePolicyDigest := Sum "policy-b"; rt_WeightBasisPoints := 2500 |}.

Lemma vector_servable : servable vector_route.
Proof.
  split; [by vm_compute|]. split; [done|].
  split; [repeat constructor; by vm_compute|split; by vm_compute].
Qed.

Lemma SelectServing_total_witness :
  exists d, SelectServing vector_route vector_affinity = Ok d /\ dec_Bucket d = 7849.
Proof.
  destruct (SelectServing_total vector_route vector_affinity vector_servable) as (d & Hd & _); [by vm_compute|].
  exists d. split; [exact Hd|]. vm_compute in Hd. by injection Hd as <-.
Defined.

Lemma bucket_share_witness :
  length (filter (fun b => targetForBucket (SortFunc compareTargets (sr_Targets vector_route)) (Z.of_nat b)
                   = Some vector_route_target) (seq 0 (Z.to_nat 10000))) = Z.to_nat 2500.
Proof. apply (bucket_share vector_route vector_route_target vector_servable). constructor. Defined.

Lemma SelectServing_order_independent_witness :
  SelectServing (with_targets vector_route (rev (sr_Targets vector_route))) vector_affinity
  = SelectServing vector_route vector_affinity.
Proof.
  apply (SelectServing_order_independent vector_route _ _ vector_servable); [by vm_compute|].
  symmetry. apply Permutation_rev.
Defined.

Lemma hashPreimage_injective_witness :
  exists p, hashPreimage vector_route vector_affinity = Ok p /\ vector_affinity = vector_affinity.
Proof.
  destruct (hashPreimage vector_route vector_affinity) as [p|] eqn:E; [|by vm_compute in E].
  exists p. split; [done|].
  apply (hashPreimage_injective vector_route vector_route _ _ p); try exact E; split; by vm_compute.
Defined.

Definition vector_full_route : Route :=
  {| r_Metadata :=
       {| md_ID := "route_1"; md_Namespace := "default";
          md_CreatedAt := {| t_wall := 1; t_offset := 0; t_mono := None |};
          md_UpdatedAt := {| t_wall := 1; t_offset := 0; t_mono := None |};
          md_CreatedRaftIndex := 1; md_ResourceRevision := 1 |};
     r_FunctionID := sr_FunctionID vector_route; r_RouteRevision := 42;
     r_Targets := sr_Targets vector_route; r_Affinity := AffinityRequestID; r_AffinityHeader := "";
     r_HashVersion := HashVersionSHA256BPSV1; r_SaltID := "salt_1";
     r_Salt := sr_Salt vector_route; r_Enabled := true |}.

Lemma Select_refines_projection_witness :
  Select vector_full_route vector_affinity = SelectServing vector_route vector_affinity.
Proof. apply (Select_refines_projection vector_full_route). by vm_compute. Defined.

End routing.
