(* ===== verification/Catalog.v ===== *)
(** * Package [internal/controlplane], catalog.go: Functions and HTTP Triggers

    The catalog keeps Functions by ID, an index from names to IDs, Triggers
    by ID and an index from Functions to their default Trigger.  Commands
    carry every generated value (IDs, timestamps, applied index); operations
    never read a clock. *)
From stdpp Require Import base gmap strings list sorting.
From S2P Require Import Prelude Problem Digest Model.
Import problem digest model.

Module catalog.

Definition DefaultMaxFunctions : Z := 1000.

Definition identifierPattern (s : string) : bool := idPattern s.

Definition validateUTC (field : string) (value : Time) : result unit :=
  fail_if (time_IsZero value) (Invalid field "is required") ;;;
  fail_if (negb (time_IsUTC value)) (Invalid field "must use UTC").

Definition AuthPolicyToken : string := "token".
Definition AuthPolicyPublic : string := "public".

Record HTTPTrigger := {
  tr_Metadata : Metadata;
  tr_FunctionID : string;
  tr_Enabled : bool;
  tr_AuthPolicy : string;
  tr_TokenVerifierDigest : option string;
}.

#[global] Instance HTTPTrigger_eq_dec : EqDecision HTTPTrigger.
Proof. solve_decision. Defined.

Definition HTTPTrigger_Validate (t : HTTPTrigger) : result unit :=
  Metadata_Validate (tr_Metadata t) ;;;
  fail_if (negb (identifierPattern (tr_FunctionID t))) (Invalid "function_id" "must be a valid identifier") ;;;
  if tr_AuthPolicy t == AuthPolicyToken then
    match tr_TokenVerifierDigest t with
    | None => Err (Invalid "token_verifier_digest" "is required for token authentication")
    | Some d =>
        replace_err (Invalid "token_verifier_digest" "must be a lowercase SHA-256 digest")
          (ParseSHA256 d) ;;; Ok tt
    end
  else if tr_AuthPolicy t == AuthPolicyPublic then
    fail_if (tr_TokenVerifierDigest t != None)
      (Invalid "token_verifier_digest" "is not allowed for public authentication")
  else Err (Invalid "auth_policy" "must be token or public").

(** ** Commands *)
Record CreateFunctionCommand := {
  cf_IfNoneMatch : bool;
  cf_AppliedIndex : Z;
  cf_Function : Function;
  cf_Trigger : HTTPTrigger;
}.

Record RotateInvocationTokenCommand := {
  ri_FunctionID : string;
  ri_ExpectedResourceRevision : Z;
  ri_TokenVerifierDigest : string;
  ri_UpdatedAt : Time;
  ri_AppliedIndex : Z;
}.

Record SetFunctionLifecycleCommand := {
  sl_FunctionID : string;
  sl_ExpectedResourceRevision : Z;
  sl_Lifecycle : string;
  sl_UpdatedAt : Time;
  sl_AppliedIndex : Z;
}.

(** ** State *)
Record Catalog := {
  functionsByID : gmap string Function;
  functionIDByName : gmap string string;
  triggersByID : gmap string HTTPTrigger;
  triggerIDByFunc : gmap string string;
}.

Record CatalogSnapshot := {
  snap_Functions : list Function;
  snap_Triggers : list HTTPTrigger;
}.

Definition NewCatalog : Catalog :=
  {| functionsByID := ∅; functionIDByName := ∅; triggersByID := ∅; triggerIDByFunc := ∅ |}.

(** Zero values, which a Go map read returns for an absent key. *)
Definition zero_Time : Time := {| t_wall := 0; t_offset := 0; t_mono := None |}.
Definition zero_Metadata : Metadata :=
  {| md_ID := ""; md_Namespace := ""; md_CreatedAt := zero_Time; md_UpdatedAt := zero_Time;
     md_CreatedRaftIndex := 0; md_ResourceRevision := 0 |}.
Definition zero_Function : Function :=
  {| fn_Metadata := zero_Metadata; fn_Name := ""; fn_Description := "";
     fn_ActiveRouteRevision := 0; fn_Labels := ∅; fn_Lifecycle := "" |}.
Definition zero_HTTPTrigger : HTTPTrigger :=
  {| tr_Metadata := zero_Metadata; tr_FunctionID := ""; tr_Enabled := false;
     tr_AuthPolicy := ""; tr_TokenVerifierDigest := None |}.

Definition fn_ID (f : Function) : string := md_ID (fn_Metadata f).
Definition fn_Revision (f : Function) : Z := md_ResourceRevision (fn_Metadata f).
Definition tr_ID (t : HTTPTrigger) : string := md_ID (tr_Metadata t).
Definition tr_Revision (t : HTTPTrigger) : Z := md_ResourceRevision (tr_Metadata t).

(** [UpdatedAt = t.Round(0); ResourceRevision++] *)
Definition touch (m : Metadata) (updatedAt : Time) : Metadata :=
  {| md_ID := md_ID m; md_Namespace := md_Namespace m; md_CreatedAt := md_CreatedAt m;
     md_UpdatedAt := time_Round0 updatedAt; md_CreatedRaftIndex := md_CreatedRaftIndex m;
     md_ResourceRevision := u64 (md_ResourceRevision m + 1) |}.

(** ** Command validation *)
Definition validateCreateFunction (command : CreateFunctionCommand) : result unit :=
  let function := cf_Function command in
  let trigger := cf_Trigger command in
  fail_if (negb (cf_IfNoneMatch command))
    (Invalid "if_none_match" "is required when creating a function") ;;;
  fail_if (cf_AppliedIndex command =? 0) (Invalid "applied_index" "must be greater than zero") ;;;
  Function_Validate function ;;;
  fail_if (fn_Lifecycle function != FunctionActive)
    (Invalid "function.lifecycle" "must be Active when creating a function") ;;;
  fail_if (negb (fn_ActiveRouteRevision function =? 0))
    (Invalid "function.active_route_revision" "must be zero before the first Route is published") ;;;
  fail_if (negb (md_CreatedRaftIndex (fn_Metadata function) =? cf_AppliedIndex command)
           || negb (fn_Revision function =? 1))
    (Invalid "function" "must be created at this applied index with resource revision one") ;;;
  HTTPTrigger_Validate trigger ;;;
  fail_if ((tr_FunctionID trigger != fn_ID function) || negb (tr_Enabled trigger))
    (Invalid "trigger" "must be enabled and belong to the created function") ;;;
  fail_if (negb (md_CreatedRaftIndex (tr_Metadata trigger) =? cf_AppliedIndex command)
           || negb (tr_Revision trigger =? 1)
           || negb (time_Equal (md_CreatedAt (tr_Metadata trigger)) (md_CreatedAt (fn_Metadata function)))
           || negb (time_Equal (md_UpdatedAt (tr_Metadata trigger)) (md_UpdatedAt (fn_Metadata function))))
    (Invalid "trigger" "must share the creation command and timestamp with its function").

Definition validateLifecycleCommand (command : SetFunctionLifecycleCommand) : result unit :=
  fail_if (negb (identifierPattern (sl_FunctionID command)))
    (Invalid "function_id" "must be a valid identifier") ;;;
  fail_if (sl_ExpectedResourceRevision command =? 0)
    (Invalid "expected_resource_revision" "must be greater than zero") ;;;
  fail_if ((sl_Lifecycle command != FunctionActive) && (sl_Lifecycle command != FunctionDisabled))
    (Invalid "lifecycle" "must be Active or Disabled") ;;;
  validateUTC "updated_at" (sl_UpdatedAt command) ;;;
  fail_if (sl_AppliedIndex command =? 0) (Invalid "applied_index" "must be greater than zero").

Definition validateRotateInvocationToken (command : RotateInvocationTokenCommand) : result unit :=
  fail_if (negb (identifierPattern (ri_FunctionID command)))
    (Invalid "function_id" "must be a valid identifier") ;;;
  fail_if (ri_ExpectedResourceRevision command =? 0)
    (Invalid "expected_resource_revision" "must be greater than zero") ;;;
  replace_err (Invalid "token_verifier_digest" "must be a lowercase SHA-256 digest")
    (ParseSHA256 (ri_TokenVerifierDigest command)) ;;;
  validateUTC "updated_at" (ri_UpdatedAt command) ;;;
  fail_if (ri_AppliedIndex command =? 0) (Invalid "applied_index" "must be greater than zero").

(** ** Operations *)
Definition CreateFunction (command : CreateFunctionCommand) : M Catalog CatalogSnapshot :=
  let function := cf_Function command in
  let trigger := cf_Trigger command in
  do! slift (validateCreateFunction command) in
  let! c := sget in
  do! slift (fail_if (bool_decide (is_Some (functionsByID c !! fn_ID function)))
               (classified CodeConflict "function id already exists")) in
  do! slift (fail_if (bool_decide (is_Some (functionIDByName c !! fn_Name function)))
               (classified CodeConflict "function name already exists")) in
  do! slift (fail_if (bool_decide (is_Some (triggersByID c !! tr_ID trigger)))
               (classified CodeConflict "trigger id already exists")) in
  do! slift (fail_if (bool_decide (is_Some (triggerIDByFunc c !! fn_ID function)))
               (classified CodeConflict "function already has a default HTTP trigger")) in
  do! slift (fail_if (Z.of_nat (size (functionsByID c)) >=? DefaultMaxFunctions)
               (classified CodeOverloaded "function catalog is full")) in
  do! sput {| functionsByID := <[fn_ID function := function]> (functionsByID c);
              functionIDByName := <[fn_Name function := fn_ID function]> (functionIDByName c);
              triggersByID := <[tr_ID trigger := trigger]> (triggersByID c);
              triggerIDByFunc := <[fn_ID function := tr_ID trigger]> (triggerIDByFunc c) |} in
  sret {| snap_Functions := [function]; snap_Triggers := [trigger] |}.

(** [c.functionsByID[function.ID] = function] *)
Definition store_function (c : Catalog) (function : Function) : Catalog :=
  {| functionsByID := <[fn_ID function := function]> (functionsByID c);
     functionIDByName := functionIDByName c;
     triggersByID := triggersByID c; triggerIDByFunc := triggerIDByFunc c |}.

Definition set_lifecycle (function : Function) (lifecycle : string) (updatedAt : Time) : Function :=
  {| fn_Metadata := touch (fn_Metadata function) updatedAt; fn_Name := fn_Name function;
     fn_Description := fn_Description function;
     fn_ActiveRouteRevision := fn_ActiveRouteRevision function;
     fn_Labels := fn_Labels function; fn_Lifecycle := lifecycle |}.

Definition SetFunctionLifecycle (command : SetFunctionLifecycleCommand) : M Catalog Function :=
  do! slift (validateLifecycleCommand command) in
  let! c := sget in
  match functionsByID c !! sl_FunctionID command with
  | None => sthrow (classified CodeNotFound "function was not found")
  | Some function =>
    do! slift (fail_if (negb (fn_Revision function =? sl_ExpectedResourceRevision command))
                 (revisionConflict "resource_revision"
                    (sl_ExpectedResourceRevision command) (fn_Revision function))) in
    do! slift (fail_if ((fn_Lifecycle function != FunctionActive)
                        && (fn_Lifecycle function != FunctionDisabled))
                 (classified CodeConflict "function lifecycle cannot be changed in its current state")) in
    if fn_Lifecycle function == sl_Lifecycle command then sret function
    else
      let function' := set_lifecycle function (sl_Lifecycle command) (sl_UpdatedAt command) in
      do! slift (wrap_err "validating updated function" (Function_Validate function')) in
      do! sput (store_function c function') in
      sret function'
  end.

Definition rotate_verifier (trigger : HTTPTrigger) (verifier : string) (updatedAt : Time) : HTTPTrigger :=
  {| tr_Metadata := touch (tr_Metadata trigger) updatedAt;
     tr_FunctionID := tr_FunctionID trigger; tr_Enabled := tr_Enabled trigger;
     tr_AuthPolicy := tr_AuthPolicy trigger; tr_TokenVerifierDigest := Some verifier |}.

Definition missing_trigger : error :=
  PlainError "catalog invariant: function has no default HTTP trigger".

Definition RotateInvocationToken (command : RotateInvocationTokenCommand) : M Catalog HTTPTrigger :=
  do! slift (validateRotateInvocationToken command) in
  let! c := sget in
  match triggerIDByFunc c !! ri_FunctionID command with
  | None => sthrow (classified CodeNotFound "function was not found")
  | Some triggerID =>
    match triggersByID c !! triggerID with
    | None => sthrow missing_trigger
    | Some trigger =>
      do! slift (fail_if (negb (tr_Revision trigger =? ri_ExpectedResourceRevision command))
                   (revisionConflict "resource_revision"
                      (ri_ExpectedResourceRevision command) (tr_Revision trigger))) in
      do! slift (fail_if (tr_AuthPolicy trigger != AuthPolicyToken)
                   (classified CodeConflict "public HTTP trigger has no invocation token")) in
      do! slift (fail_if (tr_TokenVerifierDigest trigger == Some (ri_TokenVerifierDigest command))
                   (classified CodeConflict "invocation token verifier did not change")) in
      let trigger' := rotate_verifier trigger (ri_TokenVerifierDigest command) (ri_UpdatedAt command) in
      do! slift (wrap_err "validating rotated HTTP trigger" (HTTPTrigger_Validate trigger')) in
      do! sput {| functionsByID := functionsByID c; functionIDByName := functionIDByName c;
                  triggersByID := <[triggerID := trigger']> (triggersByID c);
                  triggerIDByFunc := triggerIDByFunc c |} in
      sret trigger'
    end
  end.

(** [m[k]] on a map of strings: the zero value when absent. *)
Definition str_get (m : gmap string string) (k : string) : string := default "" (m !! k).

Definition GetFunction (c : Catalog) (functionID : string) : result (Function * HTTPTrigger) :=
  fail_if (negb (identifierPattern functionID)) (Invalid "function_id" "must be a valid identifier") ;;;
  match functionsByID c !! functionID with
  | None => Err (classified CodeNotFound "function was not found")
  | Some function =>
    match triggersByID c !! str_get (triggerIDByFunc c) functionID with
    | None => Err missing_trigger
    | Some trigger => Ok (function, trigger)
    end
  end.

Definition GetFunctionByName (c : Catalog) (name : string) : result (Function * HTTPTrigger) :=
  match functionIDByName c !! name with
  | None => Err (classified CodeNotFound "function was not found")
  | Some functionID =>
    Ok (default zero_Function (functionsByID c !! functionID),
        default zero_HTTPTrigger (triggersByID c !! str_get (triggerIDByFunc c) functionID))
  end.

Definition compareFunction (left right : Function) : Z :=
  if md_CreatedRaftIndex (fn_Metadata left) <? md_CreatedRaftIndex (fn_Metadata right) then -1
  else if md_CreatedRaftIndex (fn_Metadata left) >? md_CreatedRaftIndex (fn_Metadata right) then 1
  else strings_Compare (fn_ID left) (fn_ID right).

(** [snapshotLocked] for one iteration order of the Function map. *)
Definition snapshot_in (c : Catalog) (order : list (string * Function)) : CatalogSnapshot :=
  let functions := SortFunc compareFunction (map snd order) in
  {| snap_Functions := functions;
     snap_Triggers := map (fun function =>
       default zero_HTTPTrigger (triggersByID c !! str_get (triggerIDByFunc c) (fn_ID function))) functions |}.

Definition Snapshot (c : Catalog) : CatalogSnapshot := snapshot_in c (map_to_list (functionsByID c)).

(** ** Atomicity, by instance search *)
#[global] Instance CreateFunction_Atomic command : Atomic (CreateFunction command).
Proof. unfold CreateFunction. apply _. Qed.
#[global] Instance SetFunctionLifecycle_Atomic command : Atomic (SetFunctionLifecycle command).
Proof. unfold SetFunctionLifecycle. apply _. Qed.
#[global] Instance RotateInvocationToken_Atomic command : Atomic (RotateInvocationToken command).
Proof. unfold RotateInvocationToken. apply _. Qed.

(** ** Invariant *)
Definition mutable_lifecycle (l : string) : Prop := l = FunctionActive \/ l = FunctionDisabled.

Record function_ok (id : string) (f : Function) : Prop := {
  fo_id : fn_ID f = id;
  fo_valid : Function_Validate f = Ok tt;
  fo_rev : is_u64 (fn_Revision f);
  fo_route : is_u64 (fn_ActiveRouteRevision f);
  fo_life : mutable_lifecycle (fn_Lifecycle f);
}.

Record trigger_ok (fid tid : string) (t : HTTPTrigger) : Prop := {
  to_id : tr_ID t = tid;
  to_func : tr_FunctionID t = fid;
  to_valid : HTTPTrigger_Validate t = Ok tt;
  to_rev : is_u64 (tr_Revision t);
}.

Record catalog_inv (c : Catalog) : Prop := {
  ci_function : forall id f, functionsByID c !! id = Some f -> function_ok id f;
  ci_name : forall n id, functionIDByName c !! n = Some id <->
    exists f, functionsByID c !! id = Some f /\ fn_Name f = n;
  ci_has_trigger : forall id, is_Some (functionsByID c !! id) <-> is_Some (triggerIDByFunc c !! id);
  ci_trigger : forall fid tid, triggerIDByFunc c !! fid = Some tid <->
    exists t, triggersByID c !! tid = Some t /\ trigger_ok fid tid t;
  ci_owner : forall tid t, triggersByID c !! tid = Some t ->
    triggerIDByFunc c !! tr_FunctionID t = Some tid;
  ci_size : Z.of_nat (size (functionsByID c)) <= DefaultMaxFunctions;
}.

Lemma NewCatalog_inv : catalog_inv NewCatalog.
Proof.
  split; simpl; intros; try setoid_rewrite lookup_empty; try done.
  - split; [done|]. by intros (? & ? & _).
  - split; [done|]. by intros (? & ? & _).
Qed.

(** *** Functional effect of each operation *)
Lemma Function_Validate_revision f : Function_Validate f = Ok tt -> fn_Revision f <> 0.
Proof. unfold Function_Validate, Metadata_Validate. intros H. ok_inv. done. Qed.

Lemma HTTPTrigger_Validate_revision t : HTTPTrigger_Validate t = Ok tt -> tr_Revision t <> 0.
Proof. unfold HTTPTrigger_Validate, Metadata_Validate. intros H. ok_inv. done. Qed.

Lemma CreateFunction_Ok command c c' s :
  CreateFunction command c = (c', Ok s) ->
  let f := cf_Function command in let t := cf_Trigger command in
  validateCreateFunction command = Ok tt /\
  functionsByID c !! fn_ID f = None /\ functionIDByName c !! fn_Name f = None /\
  triggersByID c !! tr_ID t = None /\ triggerIDByFunc c !! fn_ID f = None /\
  Z.of_nat (size (functionsByID c)) < DefaultMaxFunctions /\
  c' = {| functionsByID := <[fn_ID f := f]> (functionsByID c);
          functionIDByName := <[fn_Name f := fn_ID f]> (functionIDByName c);
          triggersByID := <[tr_ID t := t]> (triggersByID c);
          triggerIDByFunc := <[fn_ID f := tr_ID t]> (triggerIDByFunc c) |} /\
  s = {| snap_Functions := [f]; snap_Triggers := [t] |}.
Proof.
  unfold CreateFunction. intros H. run_inv. ok_inv. simpl.
  rewrite <-!eq_None_not_Some in *. split_and!; try done.
Qed.

Lemma validateCreateFunction_ok command :
  validateCreateFunction command = Ok tt ->
  let f := cf_Function command in let t := cf_Trigger command in
  function_ok (fn_ID f) f /\ trigger_ok (fn_ID f) (tr_ID t) t /\
  fn_ActiveRouteRevision f = 0 /\ fn_Lifecycle f = FunctionActive.
Proof.
  unfold validateCreateFunction. intros H. ok_inv. simpl.
  split_and!; [split|split|..]; try done; unfold is_u64; try lia. by left.
Qed.

Lemma SetFunctionLifecycle_Ok command c c' f' :
  SetFunctionLifecycle command c = (c', Ok f') ->
  exists f, functionsByID c !! sl_FunctionID command = Some f /\
    fn_Revision f = sl_ExpectedResourceRevision command /\
    mutable_lifecycle (fn_Lifecycle f) /\ mutable_lifecycle (sl_Lifecycle command) /\
    ((fn_Lifecycle f = sl_Lifecycle command /\ c' = c /\ f' = f) \/
     (fn_Lifecycle f <> sl_Lifecycle command /\
      f' = set_lifecycle f (sl_Lifecycle command) (sl_UpdatedAt command) /\
      Function_Validate f' = Ok tt /\ c' = store_function c f')).
Proof.
  unfold SetFunctionLifecycle, mutable_lifecycle. intros H. run_inv; ok_inv.
  all: unfold validateLifecycleCommand in *; ok_inv; eexists; split; [done|]; naive_solver.
Qed.

Lemma RotateInvocationToken_Ok command c c' t' :
  RotateInvocationToken command c = (c', Ok t') ->
  exists tid t, triggerIDByFunc c !! ri_FunctionID command = Some tid /\
    triggersByID c !! tid = Some t /\
    tr_Revision t = ri_ExpectedResourceRevision command /\
    tr_AuthPolicy t = AuthPolicyToken /\
    tr_TokenVerifierDigest t <> Some (ri_TokenVerifierDigest command) /\
    t' = rotate_verifier t (ri_TokenVerifierDigest command) (ri_UpdatedAt command) /\
    HTTPTrigger_Validate t' = Ok tt /\
    c' = {| functionsByID := functionsByID c; functionIDByName := functionIDByName c;
            triggersByID := <[tid := t']> (triggersByID c); triggerIDByFunc := triggerIDByFunc c |}.
Proof.
  unfold RotateInvocationToken. intros H. run_inv; ok_inv.
  eexists _, _. split_and!; try done.
Qed.

(** *** Preservation *)
Lemma CreateFunction_inv command c c' s :
  catalog_inv c -> CreateFunction command c = (c', Ok s) -> catalog_inv c'.
Proof.
  intros Hc (Hv & Hfid & Hname & Htid & Htf & Hsz & -> & _)%CreateFunction_Ok.
  apply validateCreateFunction_ok in Hv as (Hf & Ht & _ & _).
  set (f := cf_Function command) in *. set (t := cf_Trigger command) in *.
  split; simpl.
  - intros id g. rewrite lookup_insert. case_decide; [naive_solver|apply Hc].
  - intros n id. rewrite !lookup_insert. destruct (decide (fn_Name f = n)) as [<-|Hn].
    + split; [intros [= <-]; exists f; by rewrite decide_True|].
      intros (g & Hg & Heq). case_decide; [congruence|].
      assert (functionIDByName c !! fn_Name f = Some id) by (apply Hc; eauto). congruence.
    + rewrite (ci_name _ Hc). case_decide; [|done]. subst.
      split; intros (g & Hg & Heq); [congruence|naive_solver].
  - intros id. rewrite !lookup_insert. case_decide; [|apply Hc]. split; eauto.
  - intros fid tid. rewrite !lookup_insert. destruct (decide (fn_ID f = fid)) as [<-|Hne].
    + split; [intros [= <-]; exists t; by rewrite decide_True|].
      intros (g & Hg & Hok). case_decide as E; [congruence|].
      apply (ci_owner _ Hc) in Hg. rewrite (to_func _ _ _ Hok) in Hg. congruence.
    + rewrite (ci_trigger _ Hc). case_decide as E; [|done]. subst tid.
      split; intros (g & Hg & Hok); [congruence|]. injection Hg as <-.
      destruct Hne. by rewrite <-(to_func _ _ _ Ht), (to_func _ _ _ Hok).
  - intros tid g. rewrite !lookup_insert. case_decide as E.
    + intros [= <-]. subst tid. rewrite (to_func _ _ _ Ht). by rewrite decide_True.
    + intros Hg. apply (ci_owner _ Hc) in Hg as Ho. case_decide as E2; [|done].
      rewrite <-E2 in Ho. congruence.
  - rewrite map_size_insert_None by done. lia.
Qed.

(** Rewriting a stored Function in place, same ID and name. *)
Lemma store_function_inv c f f' :
  catalog_inv c -> functionsByID c !! fn_ID f' = Some f -> fn_Name f' = fn_Name f ->
  function_ok (fn_ID f') f' -> catalog_inv (store_function c f').
Proof.
  intros Hc Hf Hname Hok. split; simpl.
  - intros id g. rewrite lookup_insert. case_decide; [naive_solver|apply Hc].
  - intros n id. rewrite (ci_name _ Hc), lookup_insert. case_decide; [|done]. subst id.
    split; intros (g & Hg & Hn); simplify_eq; eauto.
  - intros id. rewrite lookup_insert. case_decide; [|apply Hc]. subst id.
    rewrite <-(ci_has_trigger _ Hc). split; eauto.
  - apply Hc.
  - apply Hc.
  - rewrite map_size_insert_Some by eauto. apply Hc.
Qed.

Lemma set_lifecycle_ok f id life t :
  function_ok id f -> mutable_lifecycle life ->
  Function_Validate (set_lifecycle f life t) = Ok tt -> function_ok id (set_lifecycle f life t).
Proof. intros Hf Hl Hv. split; try done; [apply Hf|apply u64_range|apply Hf]. Qed.

Lemma SetFunctionLifecycle_inv command c c' f' :
  catalog_inv c -> SetFunctionLifecycle command c = (c', Ok f') -> catalog_inv c'.
Proof.
  intros Hc (f & Hf & _ & Hl & Hl' & [(_ & -> & _)|(_ & -> & Hv & ->)])%SetFunctionLifecycle_Ok; [done|].
  pose proof (ci_function _ Hc _ _ Hf) as Hok.
  assert (fn_ID f = sl_FunctionID command) as Hid by apply Hok. rewrite <-Hid in *.
  apply (store_function_inv _ f); [done..|]. by apply set_lifecycle_ok.
Qed.

Lemma RotateInvocationToken_inv command c c' t' :
  catalog_inv c -> RotateInvocationToken command c = (c', Ok t') -> catalog_inv c'.
Proof.
  intros Hc (tid & t & Hfid & Ht & _ & _ & _ & -> & Hv & ->)%RotateInvocationToken_Ok.
  pose proof (proj1 (ci_trigger _ Hc _ _) Hfid) as (t0 & Ht0 & Hok). simplify_eq.
  set (t' := rotate_verifier _ _ _) in *.
  assert (trigger_ok (ri_FunctionID command) tid t') as Hok'.
  { split; [apply Hok|apply Hok|done|apply u64_range]. }
  split; simpl; try apply Hc.
  - intros fid tid'. rewrite (ci_trigger _ Hc), lookup_insert. case_decide; [|done]. subst tid'.
    split; intros (g & Hg & Hgok); simplify_eq.
    + exists t'. split; [done|]. rewrite <-(to_func _ _ _ Hgok), (to_func _ _ _ Hok). done.
    + exists t. split; [done|]. rewrite <-(to_func _ _ _ Hgok), (to_func _ _ _ Hok'). done.
  - intros tid' g. rewrite lookup_insert. case_decide; [|apply Hc].
    intros [= <-]. subst tid'. by rewrite (to_func _ _ _ Hok').
Qed.

(** *** Reads under the invariant *)
Lemma GetFunction_inv c id f :
  catalog_inv c -> identifierPattern id = true -> functionsByID c !! id = Some f ->
  exists t tid, GetFunction c id = Ok (f, t) /\ triggerIDByFunc c !! id = Some tid /\
    triggersByID c !! tid = Some t /\ trigger_ok id tid t.
Proof.
  intros Hc Hid Hf. unfold GetFunction, str_get. rewrite Hid. simpl. rewrite Hf.
  destruct (proj1 (ci_has_trigger _ Hc id)) as [tid Htid]; [eauto|].
  rewrite Htid. simpl. destruct (proj1 (ci_trigger _ Hc id tid) Htid) as (t & Ht & Hok).
  rewrite Ht. exists t, tid. eauto.
Qed.

Lemma function_ok_id f id : function_ok id f -> identifierPattern id = true.
Proof.
  intros [<- Hv _ _ _]. unfold Function_Validate, Metadata_Validate in Hv. ok_inv. done.
Qed.

(** The order in which a snapshot lists Functions separates them. *)
Definition function_order : Function -> Function -> comparison :=
  lex_by (comparing (fun f => md_CreatedRaftIndex (fn_Metadata f)) Z.compare)
         (comparing fn_ID String.compare).

Lemma compareFunction_spec l r : compareFunction l r = int_of function_order l r.
Proof.
  unfold compareFunction, int_of, function_order, lex_by, comparing, strings_Compare.
  rewrite Z_three_way, to_int_lex. by case_match.
Qed.

#[global] Instance function_order_total : TotalCompare function_order.
Proof. unfold function_order. apply _. Qed.

Lemma function_order_eq x y : function_order x y = Eq -> fn_ID x = fn_ID y.
Proof.
  unfold function_order, lex_by, lex, comparing. case_match; try done.
  apply String.compare_eq_iff.
Qed.

(** A committed creation is what every read returns: after CreateFunction
    succeeds, lookups by ID and by name both return exactly the new Function
    with its Trigger, the snapshot returned is that pair, and no other
    Function changed. *)
Theorem CreateFunction_roundtrip command c c' s :
  catalog_inv c -> CreateFunction command c = (c', Ok s) ->
  GetFunction c' (fn_ID (cf_Function command)) = Ok (cf_Function command, cf_Trigger command) /\
  GetFunctionByName c' (fn_Name (cf_Function command)) = Ok (cf_Function command, cf_Trigger command) /\
  s = {| snap_Functions := [cf_Function command]; snap_Triggers := [cf_Trigger command] |} /\
  (forall id f, functionsByID c !! id = Some f -> functionsByID c' !! id = Some f).
Proof.
  intros Hc (Hv & Hfid & Hname & Htid & Htf & Hsz & -> & ->)%CreateFunction_Ok.
  apply validateCreateFunction_ok in Hv as (Hf & Ht & _ & _).
  unfold GetFunction, GetFunctionByName, str_get. simpl.
  rewrite (function_ok_id _ _ Hf). simpl. repeat (rewrite !lookup_insert_eq; simpl).
  split_and!; [done..|]. intros id g Hg. rewrite lookup_insert_ne; [done|congruence].
Qed.

(** Optimistic concurrency admits one writer per revision: once a
    lifecycle change has been applied at a revision, every well-formed
    lifecycle command that expects that same revision is refused with the
    revision conflict naming both revisions, and the catalog is untouched. *)
Theorem lifecycle_single_winner command command' c c1 f1 :
  catalog_inv c ->
  SetFunctionLifecycle command c = (c1, Ok f1) -> c1 <> c ->
  validateLifecycleCommand command' = Ok tt ->
  sl_FunctionID command' = sl_FunctionID command ->
  sl_ExpectedResourceRevision command' = sl_ExpectedResourceRevision command ->
  fn_Revision f1 = sl_ExpectedResourceRevision command + 1 /\
  SetFunctionLifecycle command' c1
    = (c1, Err (revisionConflict "resource_revision" (sl_ExpectedResourceRevision command)
                  (sl_ExpectedResourceRevision command + 1))).
Proof.
  intros Hc (f & Hf & Hrev & Hl & Hl' & [(_ & -> & _)|(_ & -> & Hv & ->)])%SetFunctionLifecycle_Ok
    Hne Hv' Hid' Hexp; [done|].
  pose proof (ci_function _ Hc _ _ Hf) as Hok.
  assert (fn_Revision (set_lifecycle f (sl_Lifecycle command) (sl_UpdatedAt command))
          = sl_ExpectedResourceRevision command + 1) as Hrev'.
  { rewrite <-Hrev. apply u64_succ_nonzero; [apply Hok|]. by apply Function_Validate_revision in Hv. }
  split; [done|]. unfold SetFunctionLifecycle, sbind, slift, sget. rewrite Hv', Hid'. simpl.
  assert (fn_ID (set_lifecycle f (sl_Lifecycle command) (sl_UpdatedAt command)) = sl_FunctionID command)
    as -> by apply Hok.
  rewrite lookup_insert_eq, Hrev', Hexp.
  rewrite (proj2 (Z.eqb_neq (sl_ExpectedResourceRevision command + 1) _)) by lia. done.
Qed.

(** Token rotation leaves exactly one accepted verifier: the stored
    Trigger of the Function carries the new digest and not the previous one,
    its revision advances by exactly one, and nothing else in the catalog
    changes. *)
Theorem rotation_replaces_verifier command c c' t' :
  catalog_inv c -> RotateInvocationToken command c = (c', Ok t') ->
  exists f t, GetFunction c (ri_FunctionID command) = Ok (f, t) /\
    GetFunction c' (ri_FunctionID command) = Ok (f, t') /\
    tr_TokenVerifierDigest t' = Some (ri_TokenVerifierDigest command) /\
    tr_TokenVerifierDigest t <> tr_TokenVerifierDigest t' /\
    tr_Revision t' = tr_Revision t + 1 /\
    functionsByID c' = functionsByID c /\
    (forall tid, tid <> tr_ID t -> triggersByID c' !! tid = triggersByID c !! tid).
Proof.
  intros Hc (tid & t & Hfid & Ht & Hrev & _ & Hnew & -> & Hv & ->)%RotateInvocationToken_Ok.
  destruct (proj2 (ci_has_trigger _ Hc (ri_FunctionID command))) as [f Hf]; [eauto|].
  pose proof (function_ok_id _ _ (ci_function _ Hc _ _ Hf)) as Hid.
  pose proof (proj1 (ci_trigger _ Hc _ _) Hfid) as (t0 & Ht0 & Hok). simplify_eq.
  exists f, t. unfold GetFunction, str_get. rewrite Hid. simpl. rewrite Hf, Hfid. simpl.
  rewrite Ht, lookup_insert_eq. split_and!; try done.
  - apply u64_succ_nonzero; [apply Hok|]. by apply HTTPTrigger_Validate_revision in Hv.
  - rewrite (to_id _ _ _ Hok). intros tid' Hne. by rewrite lookup_insert_ne.
Qed.

(** A snapshot is a function of the catalog's contents alone: whatever
    order Go iterates the Function map in, the ordered Functions and Triggers
    are the same. *)
Theorem Snapshot_iteration_independent c order :
  catalog_inv c -> order ≡ₚ map_to_list (functionsByID c) ->
  snapshot_in c order = Snapshot c.
Proof.
  intros Hc Hp. unfold Snapshot, snapshot_in.
  assert (SortFunc compareFunction (map snd order)
    = SortFunc compareFunction (map snd (map_to_list (functionsByID c)))) as ->; [|done].
  rewrite !(SortFunc_ext compareFunction (int_of function_order) _ (fun x y _ _ => compareFunction_spec x y)).
  apply SortFunc_order_independent; [apply _| |by rewrite Hp].
  intros x y Hx Hy Heq%function_order_eq.
  apply list_elem_of_fmap in Hx as ([i x'] & -> & Hx), Hy as ([j y'] & -> & Hy). simpl in *.
  rewrite Hp in Hx, Hy. apply elem_of_map_to_list in Hx, Hy.
  rewrite (fo_id _ _ (ci_function _ Hc _ _ Hx)), (fo_id _ _ (ci_function _ Hc _ _ Hy)) in Heq.
  congruence.
Qed.

(** Catalog writes are all-or-nothing: a command that is refused, for
    whatever reason, leaves the catalog exactly as it was. *)
Theorem catalog_writes_atomic c c' e :
  (forall command, CreateFunction command c = (c', Err e) -> c' = c) /\
  (forall command, SetFunctionLifecycle command c = (c', Err e) -> c' = c) /\
  (forall command, RotateInvocationToken command c = (c', Err e) -> c' = c).
Proof. split_and!; intros command; apply atomic. Qed.

(** ** Witnesses *)
Definition ex_at (n : Z) : Time := {| t_wall := n; t_offset := 0; t_mono := None |}.
Definition ex_metadata (id : string) (at_ index : Z) : Metadata :=
  {| md_ID := id; md_Namespace := DefaultNamespace; md_CreatedAt := ex_at at_;
     md_UpdatedAt := ex_at at_; md_CreatedRaftIndex := index; md_ResourceRevision := 1 |}.
Definition ex_create : CreateFunctionCommand :=
  {| cf_IfNoneMatch := true; cf_AppliedIndex := 7;
     cf_Function := {| fn_Metadata := ex_metadata "fn_1" 100 7; fn_Name := "echo";
       fn_Description := "demo"; fn_ActiveRouteRevision := 0;
       fn_Labels := {["team"%string := "core"%string]}; fn_Lifecycle := FunctionActive |};
     cf_Trigger := {| tr_Metadata := ex_metadata "trg_1" 100 7; tr_FunctionID := "fn_1";
       tr_Enabled := true; tr_AuthPolicy := AuthPolicyToken;
       tr_TokenVerifierDigest := Some (Sum "secret-1") |} |}.
Definition ex_catalog : Catalog := fst (CreateFunction ex_create NewCatalog).
Definition ex_disable (revision : Z) : SetFunctionLifecycleCommand :=
  {| sl_FunctionID := "fn_1"; sl_ExpectedResourceRevision := revision;
     sl_Lifecycle := FunctionDisabled; sl_UpdatedAt := ex_at 200; sl_AppliedIndex := 8 |}.
Definition ex_rotate : RotateInvocationTokenCommand :=
  {| ri_FunctionID := "fn_1"; ri_ExpectedResourceRevision := 1;
     ri_TokenVerifierDigest := Sum "secret-2"; ri_UpdatedAt := ex_at 200; ri_AppliedIndex := 8 |}.

Lemma ex_create_runs :
  CreateFunction ex_create NewCatalog
  = (ex_catalog, Ok {| snap_Functions := [cf_Function ex_create]; snap_Triggers := [cf_Trigger ex_create] |}).
Proof. by vm_compute. Qed.

Lemma ex_catalog_inv : catalog_inv ex_catalog.
Proof. eapply CreateFunction_inv; [apply NewCatalog_inv|apply ex_create_runs]. Qed.

Lemma CreateFunction_roundtrip_witness :
  GetFunctionByName ex_catalog "echo" = Ok (cf_Function ex_create, cf_Trigger ex_create).
Proof. apply (CreateFunction_roundtrip _ _ _ _ NewCatalog_inv ex_create_runs). Defined.

Lemma lifecycle_single_winner_witness :
  exists c1, SetFunctionLifecycle (ex_disable 1) c1
    = (c1, Err (revisionConflict "resource_revision" 1 2)).
Proof.
  exists (fst (SetFunctionLifecycle (ex_disable 1) ex_catalog)).
  eapply (lifecycle_single_winner (ex_disable 1) (ex_disable 1) ex_catalog _ _ ex_catalog_inv);
    [by vm_compute| |by vm_compute..].
  intros H%(f_equal (fun c => fn_Revision <$> functionsByID c !! "fn_1"%string)). by vm_compute in H.
Defined.

Definition ok_or {A} (d : A) (r : result A) : A := match r with Ok a => a | Err _ => d end.

Lemma rotation_replaces_verifier_witness :
  exists f t, GetFunction ex_catalog "fn_1" = Ok (f, t) /\ tr_TokenVerifierDigest t <> Some (Sum "secret-2").
Proof.
  destruct (rotation_replaces_verifier ex_rotate ex_catalog
    (fst (RotateInvocationToken ex_rotate ex_catalog))
    (ok_or zero_HTTPTrigger (snd (RotateInvocationToken ex_rotate ex_catalog))) ex_catalog_inv)
    as (f & t & H1 & _ & H2 & H3 & _); [by vm_compute|].
  exists f, t. split; [exact H1|]. intros E. apply H3. rewrite H2. exact E.
Defined.

Lemma Snapshot_iteration_independent_witness :
  snapshot_in ex_catalog (rev (map_to_list (functionsByID ex_catalog))) = Snapshot ex_catalog.
Proof.
  apply (Snapshot_iteration_independent _ _ ex_catalog_inv). symmetry. apply Permutation_rev.
Defined.

Lemma catalog_writes_atomic_witness :
  fst (SetFunctionLifecycle (ex_disable 9) ex_catalog) = ex_catalog.
Proof.
  destruct (catalog_writes_atomic ex_catalog (fst (SetFunctionLifecycle (ex_disable 9) ex_catalog))
    (revisionConflict "resource_revision" 9 1)) as (_ & H & _).
  apply (H (ex_disable 9)). by vm_compute.
Defined.

End catalog.
