(* ===== verification/ValidatorProtocol.v ===== *)
(** * Package [internal/validator/protocol]: request and report contracts

    The values exchanged with the isolated validator process and the checks
    both sides apply before trusting them. *)
From stdpp Require Import base gmap strings list.
From S2P Require Import Prelude Problem Digest Model.
Import problem digest model.

Module protocol.

Definition SchemaVersion : string := "validator-v1".
Definition HardArtifactBytes : Z := 256 * 2 ^ 20.
Definition CodeOK : string := "ok".
Definition validationIDPattern (s : string) : bool := idPattern s.

Record Request := {
  rq_SchemaVersion : string;
  rq_ValidationID : string;
  rq_ArtifactDigest : string;
  rq_ArtifactSize : Z;
  rq_ABI : string;
  rq_HostAPIProfile : string;
  rq_RuntimeFeatureProfile : string;
  rq_RuntimeEngine : string;
  rq_MemoryLimitMiB : Z;
  rq_RequestedCapabilities : option (list CapabilityRequest);
}.

Record Import := { im_Module : string; im_Name : string; im_Kind : string }.
Record Memory := { me_Exported : bool; me_MinPages : Z; me_MaxPages : Z }.
Record Isolation := {
  is_ProcessBoundary : bool; is_Deadline : bool; is_CPULimit : bool;
  is_FileSizeLimit : bool; is_MemoryLimit : bool; is_TempDiskLimit : bool;
}.

(** [Imports] and [Exports] distinguish the nil slice from an empty one. *)
Record Report := {
  rp_SchemaVersion : string;
  rp_ValidationID : string;
  rp_Valid : bool;
  rp_Code : string;
  rp_Reason : string;
  rp_Message : string;
  rp_ArtifactDigest : string;
  rp_ArtifactSize : Z;
  rp_RuntimeName : string;
  rp_RuntimeVersion : string;
  rp_RuntimeFeatureProfile : string;
  rp_RuntimeEngine : string;
  rp_Imports : option (list Import);
  rp_Exports : option (list string);
  rp_Memory : Memory;
  rp_CompileNanoseconds : Z;
  rp_Isolation : Isolation;
}.

Definition is_nil {A} (o : option A) : bool := match o with None => true | Some _ => false end.

Definition Request_Validate (r : Request) : result unit :=
  fail_if (rq_SchemaVersion r != SchemaVersion)
    (PlainError "validator protocol: unsupported schema version") ;;;
  fail_if (negb (validationIDPattern (rq_ValidationID r)))
    (PlainError "validator protocol: invalid validation id") ;;;
  replace_err (PlainError "validator protocol: invalid artifact digest")
    (ParseSHA256 (rq_ArtifactDigest r)) ;;;
  fail_if ((rq_ArtifactSize r <? 1) || (rq_ArtifactSize r >? HardArtifactBytes))
    (PlainError "validator protocol: invalid artifact size") ;;;
  fail_if (rq_ABI r != ABIWASICommandV1) (PlainError "validator protocol: unsupported abi") ;;;
  fail_if (rq_HostAPIProfile r != HostAPIProfileNone)
    (PlainError "validator protocol: unsupported host api profile") ;;;
  fail_if (rq_RuntimeFeatureProfile r != wasmprofile.FeatureProfile)
    (PlainError "validator protocol: unsupported runtime feature profile") ;;;
  fail_if ((rq_RuntimeEngine r != wasmprofile.EngineCompiler)
           && (rq_RuntimeEngine r != wasmprofile.EngineInterpreter))
    (PlainError "validator protocol: unsupported runtime engine") ;;;
  fail_if (negb (wasmprofile.ValidMemoryTier (rq_MemoryLimitMiB r)))
    (PlainError "validator protocol: unsupported memory tier") ;;;
  fail_if (is_nil (rq_RequestedCapabilities r))
    (PlainError "validator protocol: requested capabilities must be an array").

Definition Report_Validate (r : Report) : result unit :=
  fail_if ((rp_SchemaVersion r != SchemaVersion) || negb (validationIDPattern (rp_ValidationID r)))
    (PlainError "validator protocol: invalid report identity") ;;;
  fail_if ((rp_Message r == "") || (rp_Reason r == ""))
    (PlainError "validator protocol: invalid report classification") ;;;
  replace_err (PlainError "validator protocol: invalid report artifact digest")
    (ParseSHA256 (rp_ArtifactDigest r)) ;;;
  fail_if ((rp_ArtifactSize r <? 1) || (rp_RuntimeName r != wasmprofile.RuntimeName)
           || (rp_RuntimeVersion r != wasmprofile.RuntimeVersion))
    (PlainError "validator protocol: invalid report runtime metadata") ;;;
  fail_if ((rp_RuntimeFeatureProfile r != wasmprofile.FeatureProfile)
           || is_nil (rp_Imports r) || is_nil (rp_Exports r))
    (PlainError "validator protocol: incomplete report metadata") ;;;
  fail_if ((rp_RuntimeEngine r != wasmprofile.EngineCompiler)
           && (rp_RuntimeEngine r != wasmprofile.EngineInterpreter))
    (PlainError "validator protocol: invalid report runtime engine") ;;;
  fail_if (rp_CompileNanoseconds r <? 0) (PlainError "validator protocol: invalid report timing") ;;;
  fail_if (rp_Valid r && (rp_Code r != CodeOK))
    (PlainError "validator protocol: valid report must use ok code") ;;;
  fail_if (negb (rp_Valid r) && negb (Known (rp_Code r)))
    (PlainError "validator protocol: rejected report must use a stable error code").

End protocol.
