(* ===== verification/Release.v ===== *)
(** * Package [internal/controlplane], release.go: the Version lifecycle

    Uploaded -> Validating -> Ready or Failed.  A validation is fenced by the
    ValidationID recorded when it started; a valid report creates the
    generation-one Deployment in the same write that makes the Version Ready. *)
From stdpp Require Import base gmap strings list sorting.
From S2P Require Import Prelude Problem Digest Json Model Catalog ValidatorProtocol.
Import problem digest model catalog protocol.

Module release.

Definition DefaultMaxVersionsPerFunction : Z := 100.
Definition defaultMaxLogBytes : Z := 256 * 2 ^ 10.
Definition MaxOperationMessage : Z := 512.

Record CreateVersionCommand := {
  cv_IfNoneMatch : bool;
  cv_AppliedIndex : Z;
  cv_Version : Version;
}.

Record StartValidationCommand := {
  sv_VersionID : string;
  sv_ExpectedResourceRevision : Z;
  sv_ValidationID : string;
  sv_UpdatedAt : Time;
  sv_AppliedIndex : Z;
}.

Record CompleteValidationCommand := {
  co_VersionID : string;
  co_ExpectedResourceRevision : Z;
  co_Report : Report;
  co_Deployment : option Deployment;
  co_UpdatedAt : Time;
  co_AppliedIndex : Z;
}.

Record VersionAdmissionAttempt := { va_VersionID : string; va_ValidationID : string }.

Record ReleaseStore := {
  versions : gmap string Version;
  versionCountByFunc : gmap string Z;
  validationIDByVersion : gmap string string;
  deployments : gmap string Deployment;
}.

Record ReleaseSnapshot := {
  rs_Versions : list Version;
  rs_Deployments : list Deployment;
  rs_PendingValidations : list VersionAdmissionAttempt;
}.

Definition NewReleaseStore : ReleaseStore :=
  {| versions := ∅; versionCountByFunc := ∅; validationIDByVersion := ∅; deployments := ∅ |}.

Definition v_ID (v : Version) : string := md_ID (v_Metadata v).
Definition v_Revision (v : Version) : Z := md_ResourceRevision (v_Metadata v).
Definition v_UpdatedAt (v : Version) : Time := md_UpdatedAt (v_Metadata v).

(** [m[k]] on a map of integers. *)
Definition int_get (m : gmap string Z) (k : string) : Z := default 0 (m !! k).

(** The Version with the fields a transition assigns. *)
Definition set_state (v : Version) (md : Metadata) (state : string) (err : option SafeError) : Version :=
  {| v_Metadata := md; v_FunctionID := v_FunctionID v; v_VersionID := v_VersionID v;
     v_ArtifactDigest := v_ArtifactDigest v; v_ManifestDigest := v_ManifestDigest v;
     v_ArtifactSize := v_ArtifactSize v; v_ABI := v_ABI v; v_HostAPIProfile := v_HostAPIProfile v;
     v_RuntimeFeatureProfile := v_RuntimeFeatureProfile v; v_Toolchain := v_Toolchain v;
     v_AdmissionEpoch := v_AdmissionEpoch v; v_ResourceRequest := v_ResourceRequest v;
     v_RequestedCapabilities := v_RequestedCapabilities v; v_State := state; v_ValidationError := err |}.

(** ** Command validation *)
Definition validateCreateVersion (command : CreateVersionCommand) : result unit :=
  let version := cv_Version command in
  fail_if (negb (cv_IfNoneMatch command))
    (Invalid "if_none_match" "is required when creating a version") ;;;
  fail_if (cv_AppliedIndex command =? 0) (Invalid "applied_index" "must be greater than zero") ;;;
  Version_Validate version ;;;
  fail_if ((v_State version != VersionUploaded) || (v_ValidationError version != None))
    (Invalid "state" "new version must be Uploaded without a validation error") ;;;
  fail_if ((v_ID version != v_VersionID version) || negb (v_AdmissionEpoch version =? 1))
    (Invalid "version" "new version id must match version id with admission epoch one") ;;;
  fail_if (v_RuntimeFeatureProfile version != wasmprofile.FeatureProfile)
    (Invalid "runtime_feature_profile" "must use the fixed v1 feature profile") ;;;
  fail_if (negb (md_CreatedRaftIndex (v_Metadata version) =? cv_AppliedIndex command)
           || negb (v_Revision version =? 1))
    (Invalid "version" "must be created at this applied index with resource revision one").

Definition validateStartValidation (command : StartValidationCommand) : result unit :=
  fail_if (negb (identifierPattern (sv_VersionID command)) || negb (identifierPattern (sv_ValidationID command)))
    (Invalid "validation" "version id and validation id must be valid identifiers") ;;;
  fail_if ((sv_ExpectedResourceRevision command =? 0) || (sv_AppliedIndex command =? 0))
    (Invalid "revision" "expected resource revision and applied index must be greater than zero") ;;;
  validateUTC "updated_at" (sv_UpdatedAt command).

Definition validateCompleteValidation (command : CompleteValidationCommand) : result unit :=
  fail_if (negb (identifierPattern (co_VersionID command))
           || (co_ExpectedResourceRevision command =? 0) || (co_AppliedIndex command =? 0))
    (Invalid "validation" "version id, expected revision, and applied index are required") ;;;
  validateUTC "updated_at" (co_UpdatedAt command) ;;;
  replace_err (Invalid "report" "must be a valid validator report") (Report_Validate (co_Report command)) ;;;
  fail_if (rp_Valid (co_Report command) && is_nil (co_Deployment command))
    (Invalid "deployment" "is required for a successful validation") ;;;
  fail_if (negb (rp_Valid (co_Report command)) && negb (is_nil (co_Deployment command)))
    (Invalid "deployment" "is not allowed for a failed validation").

Definition validateReportForVersion (report : Report) (version : Version) : result unit :=
  fail_if ((rp_ArtifactDigest report != v_ArtifactDigest version)
           || negb (rp_ArtifactSize report =? v_ArtifactSize version)
           || (rp_RuntimeFeatureProfile report != v_RuntimeFeatureProfile version))
    (Invalid "report" "does not match immutable version artifact or runtime profile") ;;;
  fail_if (rp_RuntimeEngine report != wasmprofile.EngineCompiler)
    (Invalid "report.runtime_engine" "must use the fixed Local Core compiler engine") ;;;
  fail_if (negb (rp_Valid report)
           && (negb (utf8_ValidString (rp_Message report)) || (strlen (rp_Message report) >? MaxOperationMessage)))
    (Invalid "report.message" "must be safe UTF-8 within 512 bytes").

Definition capabilitiesSubset (granted requested : list CapabilityRequest) : bool :=
  let requestedSet : gset string := list_to_set (map capability_key requested) in
  forallb (fun capability => bool_decide (capability_key capability ∈ requestedSet)) granted.

(** The execution policy a generation-one Deployment of a Version stands for. *)
Definition policy_of (deployment : Deployment) (version : Version) : EffectivePolicy :=
  {| ep_VersionID := v_VersionID version; ep_AdmissionEpoch := v_AdmissionEpoch version;
     ep_DeploymentGeneration := d_Generation deployment;
     ep_ArtifactDigest := v_ArtifactDigest version; ep_ArtifactSize := v_ArtifactSize version;
     ep_ABI := v_ABI version; ep_HostAPIProfile := v_HostAPIProfile version;
     ep_RuntimeFeatureProfile := v_RuntimeFeatureProfile version;
     ep_ResourceLimits := d_ResourceLimits deployment;
     ep_MaxConcurrency := rr_MaxConcurrency (v_ResourceRequest version);
     ep_GrantedCapabilities := d_GrantedCapabilities deployment |}.

(** ** Operations *)
Section operations.
Context `{JCS}.

Definition validateInitialDeployment (deployment : Deployment) (version : Version)
    (appliedIndex : Z) (updatedAt : Time) : result unit :=
  let limits := d_ResourceLimits deployment in
  let request := v_ResourceRequest version in
  let md := d_Metadata deployment in
  Deployment_Validate deployment ;;;
  let exactLimits := (rl_Timeout limits =? rr_Timeout request)
    && (rl_MemoryMiB limits =? rr_MemoryMiB request)
    && (rl_MaxInputBytes limits =? rr_MaxInputBytes request)
    && (rl_MaxOutputBytes limits =? rr_MaxOutputBytes request)
    && (rl_MaxLogBytes limits =? defaultMaxLogBytes) in
  fail_if ((d_VersionID deployment != v_VersionID version) || negb (d_Generation deployment =? 1)
           || negb (d_ScalingRevision deployment =? 1)
           || negb (md_CreatedRaftIndex md =? appliedIndex) || negb (md_ResourceRevision md =? 1)
           || negb (time_Equal (md_CreatedAt md) updatedAt) || negb (time_Equal (md_UpdatedAt md) updatedAt)
           || negb exactLimits
           || negb (d_MinReplicas deployment =? 1) || negb (d_MaxReplicas deployment =? 1)
           || negb (d_DesiredReplicas deployment =? 1) || negb (d_ReadyReplicas deployment =? 0)
           || negb (d_TargetConcurrency deployment =? rr_MaxConcurrency request)
           || (d_ScalingMode deployment != ScalingManual) || negb (d_IdleTimeout deployment =? 0)
           || (d_DesiredPhase deployment != DeploymentActive))
    (Invalid "deployment" "must be the fixed Local Core generation one policy") ;;;
  fail_if (negb (capabilitiesSubset (d_GrantedCapabilities deployment) (v_RequestedCapabilities version)))
    (Invalid "deployment.granted_capabilities" "must be requested by the version") ;;;
  policyDigest <- wrap_err "calculating initial effective policy"
                    (EffectivePolicy_Digest (policy_of deployment version)) ;;
  fail_if (d_EffectivePolicyDigest deployment != policyDigest)
    (Invalid "deployment.effective_policy_digest" "does not match generation one effective policy").

(** [CreateVersion], first part: the parent check runs under the catalog's
    mutex only, before the release store is locked. *)
Definition CreateVersion_check (functions : Catalog) (command : CreateVersionCommand) : result unit :=
  validateCreateVersion command ;;;
  parent <- wrap_err "resolving version parent function"
              (GetFunction functions (v_FunctionID (cv_Version command))) ;;
  fail_if ((fn_Lifecycle (fst parent) == FunctionDeleting) || (fn_Lifecycle (fst parent) == FunctionTombstoned))
    (classified CodeConflict "function does not accept new versions").

(** [CreateVersion], second part, under the release store's mutex. *)
Definition CreateVersion_commit (command : CreateVersionCommand) : M ReleaseStore Version :=
  let version := cv_Version command in
  let! s := sget in
  do! slift (fail_if (bool_decide (is_Some (versions s !! v_VersionID version)))
               (classified CodeConflict "version id already exists")) in
  do! slift (fail_if (int_get (versionCountByFunc s) (v_FunctionID version) >=? DefaultMaxVersionsPerFunction)
               (classified CodeOverloaded "function version limit reached")) in
  do! sput {| versions := <[v_VersionID version := version]> (versions s);
              versionCountByFunc :=
                <[v_FunctionID version := int_get (versionCountByFunc s) (v_FunctionID version) + 1]>
                  (versionCountByFunc s);
              validationIDByVersion := validationIDByVersion s; deployments := deployments s |} in
  sret version.

Definition CreateVersion (functions : Catalog) (command : CreateVersionCommand) : M ReleaseStore Version :=
  do! slift (CreateVersion_check functions command) in CreateVersion_commit command.

Definition StartValidation (command : StartValidationCommand) : M ReleaseStore Version :=
  do! slift (validateStartValidation command) in
  let! s := sget in
  match versions s !! sv_VersionID command with
  | None => sthrow (classified CodeNotFound "version was not found")
  | Some version =>
    do! slift (fail_if (negb (v_Revision version =? sv_ExpectedResourceRevision command))
                 (revisionConflict "resource_revision"
                    (sv_ExpectedResourceRevision command) (v_Revision version))) in
    do! slift (fail_if (v_State version != VersionUploaded)
                 (classified CodeConflict "version is not awaiting validation")) in
    let version' := set_state version (touch (v_Metadata version) (sv_UpdatedAt command))
                      VersionValidating (v_ValidationError version) in
    do! slift (wrap_err "validating started version" (Version_Validate version')) in
    do! sput {| versions := <[v_VersionID version' := version']> (versions s);
                versionCountByFunc := versionCountByFunc s;
                validationIDByVersion :=
                  <[v_VersionID version' := sv_ValidationID command]> (validationIDByVersion s);
                deployments := deployments s |} in
    sret version'
  end.

Definition CompleteValidation (command : CompleteValidationCommand)
    : M ReleaseStore (Version * option Deployment) :=
  let report := co_Report command in
  do! slift (validateCompleteValidation command) in
  let! s := sget in
  match versions s !! co_VersionID command with
  | None => sthrow (classified CodeNotFound "version was not found")
  | Some version =>
    do! slift (fail_if (negb (v_Revision version =? co_ExpectedResourceRevision command))
                 (revisionConflict "resource_revision"
                    (co_ExpectedResourceRevision command) (v_Revision version))) in
    do! slift (fail_if (v_State version != VersionValidating)
                 (classified CodeStaleGeneration "version is no longer validating")) in
    do! slift (fail_if (str_get (validationIDByVersion s) (v_VersionID version) != rp_ValidationID report)
                 (classified CodeStaleGeneration "validator report does not match the active validation")) in
    do! slift (validateReportForVersion report version) in
    do! slift (fail_if (time_Before (co_UpdatedAt command) (v_UpdatedAt version))
                 (Invalid "updated_at" "must not precede the current version update time")) in
    let md := touch (v_Metadata version) (co_UpdatedAt command) in
    if negb (rp_Valid report) then
      let failed := set_state version md VersionFailed
                      (Some {| se_Code := rp_Code report; se_Message := rp_Message report |}) in
      do! slift (wrap_err "validating failed version" (Version_Validate failed)) in
      do! sput {| versions := <[v_VersionID failed := failed]> (versions s);
                  versionCountByFunc := versionCountByFunc s;
                  validationIDByVersion := delete (v_VersionID failed) (validationIDByVersion s);
                  deployments := deployments s |} in
      sret (failed, None)
    else
      match co_Deployment command with
      | None => sthrow (PlainError "nil pointer dereference") (* excluded by validateCompleteValidation *)
      | Some deployment =>
        let touched := set_state version md (v_State version) (v_ValidationError version) in
        do! slift (validateInitialDeployment deployment touched (co_AppliedIndex command) (co_UpdatedAt command)) in
        let ready := set_state version md VersionReady (v_ValidationError version) in
        do! slift (wrap_err "validating ready version" (Version_Validate ready)) in
        do! sput {| versions := <[v_VersionID ready := ready]> (versions s);
                    versionCountByFunc := versionCountByFunc s;
                    validationIDByVersion := delete (v_VersionID ready) (validationIDByVersion s);
                    deployments := <[v_VersionID ready := deployment]> (deployments s) |} in
        sret (ready, Some deployment)
      end
  end.

Definition Get (s : ReleaseStore) (versionID : string) : result (Version * option Deployment) :=
  fail_if (negb (identifierPattern versionID)) (Invalid "version_id" "must be a valid identifier") ;;;
  match versions s !! versionID with
  | None => Err (classified CodeNotFound "version was not found")
  | Some version => Ok (version, deployments s !! versionID)
  end.

Definition compareVersion (left right : Version) : Z :=
  if v_FunctionID left != v_FunctionID right then strings_Compare (v_FunctionID left) (v_FunctionID right)
  else strings_Compare (v_VersionID left) (v_VersionID right).

(** [Snapshot] for one iteration order of the Version map. *)
Definition snapshot_in (s : ReleaseStore) (order : list (string * Version)) : ReleaseSnapshot :=
  let vs := SortFunc compareVersion (map snd order) in
  {| rs_Versions := vs;
     rs_Deployments := omap (fun v => deployments s !! v_VersionID v) vs;
     rs_PendingValidations := omap (fun v =>
       (fun vid => {| va_VersionID := v_VersionID v; va_ValidationID := vid |})
         <$> validationIDByVersion s !! v_VersionID v) vs |}.

Definition Snapshot (s : ReleaseStore) : ReleaseSnapshot := snapshot_in s (map_to_list (versions s)).

(** ** Atomicity *)
#[global] Instance CreateVersion_commit_Atomic command : Atomic (CreateVersion_commit command).
Proof. unfold CreateVersion_commit. apply _. Qed.
#[global] Instance CreateVersion_Atomic functions command : Atomic (CreateVersion functions command).
Proof. unfold CreateVersion. apply _. Qed.
#[global] Instance StartValidation_Atomic command : Atomic (StartValidation command).
Proof. unfold StartValidation. apply _. Qed.
#[global] Instance CompleteValidation_Atomic command : Atomic (CompleteValidation command).
Proof. unfold CompleteValidation. apply _. Qed.

(** ** Invariant *)
Definition live_state (st : string) : Prop :=
  st ∈ [VersionUploaded; VersionValidating; VersionReady; VersionFailed].

Record version_ok (vid : string) (v : Version) : Prop := {
  vo_vid : v_VersionID v = vid;
  vo_id : v_ID v = vid;
  vo_valid : Version_Validate v = Ok tt;
  vo_rev : is_u64 (v_Revision v);
  vo_epoch : v_AdmissionEpoch v = 1;
  vo_state : live_state (v_State v);
}.

(** The generation-one Deployment that belongs to a Ready Version. *)
Record deployment_ok (vid : string) (v : Version) (d : Deployment) : Prop := {
  do_valid : Deployment_Validate d = Ok tt;
  do_vid : d_VersionID d = vid;
  do_generation : d_Generation d = 1;
  do_scaling : d_ScalingRevision d = 1;
  do_replicas : d_DesiredReplicas d = 1;
  do_phase : d_DesiredPhase d = DeploymentActive;
  do_memory : rl_MemoryMiB (d_ResourceLimits d) = rr_MemoryMiB (v_ResourceRequest v);
  do_policy : EffectivePolicy_Digest (policy_of d v) = Ok (d_EffectivePolicyDigest d);
}.

Record release_inv (s : ReleaseStore) : Prop := {
  ri_version : forall vid v, versions s !! vid = Some v -> version_ok vid v;
  ri_count : forall fid, int_get (versionCountByFunc s) fid
    = countb (fun v => v_FunctionID v == fid) (versions s);
  ri_limit : forall fid, int_get (versionCountByFunc s) fid <= DefaultMaxVersionsPerFunction;
  ri_fence : forall vid, is_Some (validationIDByVersion s !! vid) <->
    exists v, versions s !! vid = Some v /\ v_State v = VersionValidating;
  ri_ready : forall vid, is_Some (deployments s !! vid) <->
    exists v, versions s !! vid = Some v /\ v_State v = VersionReady;
  ri_deployment : forall vid v d, versions s !! vid = Some v -> deployments s !! vid = Some d ->
    deployment_ok vid v d;
}.

Lemma NewReleaseStore_inv : release_inv NewReleaseStore.
Proof.
  split; simpl; unfold int_get; intros.
  - done.
  - by rewrite lookup_empty, countb_empty.
  - by rewrite lookup_empty.
  - rewrite lookup_empty. split; [by intros []|by intros (? & ? & _)].
  - rewrite lookup_empty. split; [by intros []|by intros (? & ? & _)].
  - done.
Qed.

Lemma Version_Validate_revision v : Version_Validate v = Ok tt -> v_Revision v <> 0.
Proof. unfold Version_Validate, Metadata_Validate. intros H0. ok_inv. done. Qed.

(** *** Effects *)
Lemma CreateVersion_commit_Ok command s s' v :
  CreateVersion_commit command s = (s', Ok v) ->
  v = cv_Version command /\ versions s !! v_VersionID v = None /\
  int_get (versionCountByFunc s) (v_FunctionID v) < DefaultMaxVersionsPerFunction /\
  s' = {| versions := <[v_VersionID v := v]> (versions s);
          versionCountByFunc :=
            <[v_FunctionID v := int_get (versionCountByFunc s) (v_FunctionID v) + 1]> (versionCountByFunc s);
          validationIDByVersion := validationIDByVersion s; deployments := deployments s |}.
Proof.
  unfold CreateVersion_commit. intros H0. run_inv. ok_inv.
  rewrite <-eq_None_not_Some in *. done.
Qed.

Lemma StartValidation_Ok command s s' v' :
  StartValidation command s = (s', Ok v') ->
  exists v, versions s !! sv_VersionID command = Some v /\
    v_Revision v = sv_ExpectedResourceRevision command /\ v_State v = VersionUploaded /\
    v' = set_state v (touch (v_Metadata v) (sv_UpdatedAt command)) VersionValidating (v_ValidationError v) /\
    Version_Validate v' = Ok tt /\
    s' = {| versions := <[v_VersionID v := v']> (versions s);
            versionCountByFunc := versionCountByFunc s;
            validationIDByVersion := <[v_VersionID v := sv_ValidationID command]> (validationIDByVersion s);
            deployments := deployments s |}.
Proof. unfold StartValidation. intros H0. run_inv; ok_inv. eexists; split_and!; done. Qed.

(** What the two successful outcomes of CompleteValidation have in common. *)
Record completes (command : CompleteValidationCommand) (s : ReleaseStore) (v : Version) : Prop := {
  cp_command : validateCompleteValidation command = Ok tt;
  cp_lookup : versions s !! co_VersionID command = Some v;
  cp_revision : v_Revision v = co_ExpectedResourceRevision command;
  cp_state : v_State v = VersionValidating;
  cp_fence : str_get (validationIDByVersion s) (v_VersionID v) = rp_ValidationID (co_Report command);
  cp_report : validateReportForVersion (co_Report command) v = Ok tt;
}.

Definition completed (s : ReleaseStore) (v' : Version) (od : option Deployment) : ReleaseStore :=
  {| versions := <[v_VersionID v' := v']> (versions s);
     versionCountByFunc := versionCountByFunc s;
     validationIDByVersion := delete (v_VersionID v') (validationIDByVersion s);
     deployments := match od with
                    | Some d => <[v_VersionID v' := d]> (deployments s)
                    | None => deployments s end |}.

Lemma CompleteValidation_Ok command s s' v' od :
  CompleteValidation command s = (s', Ok (v', od)) ->
  exists v, completes command s v /\ Version_Validate v' = Ok tt /\ s' = completed s v' od /\
    let md := touch (v_Metadata v) (co_UpdatedAt command) in
    if rp_Valid (co_Report command) then
      exists d, od = Some d /\ co_Deployment command = Some d /\
        v' = set_state v md VersionReady (v_ValidationError v) /\
        validateInitialDeployment d (set_state v md (v_State v) (v_ValidationError v))
          (co_AppliedIndex command) (co_UpdatedAt command) = Ok tt
    else od = None /\
      v' = set_state v md VersionFailed
             (Some {| se_Code := rp_Code (co_Report command); se_Message := rp_Message (co_Report command) |}).
Proof.
  unfold CompleteValidation. intros H0. run_inv; ok_inv; simplify_eq.
  all: eexists; split; [split; done|]; split; [done|]; split; [done|].
  - by rewrite E0.
  - rewrite E0. eauto.
Qed.

Lemma validateInitialDeployment_ok d v md st err index at_ :
  validateInitialDeployment d (set_state v md st err) index at_ = Ok tt ->
  deployment_ok (v_VersionID v) v d.
Proof.
  unfold validateInitialDeployment. intros H0. ok_inv. subst. split; try done.
Qed.

Lemma deployment_ok_set_state vid v d md st err :
  deployment_ok vid v d -> deployment_ok vid (set_state v md st err) d.
Proof. by intros []. Qed.

Lemma set_state_ok vid v md st err :
  version_ok vid v -> md_ID md = md_ID (v_Metadata v) -> is_u64 (md_ResourceRevision md) -> live_state st ->
  Version_Validate (set_state v md st err) = Ok tt -> version_ok vid (set_state v md st err).
Proof. intros [] Hid Hr Hs Hv. split; try done. unfold v_ID in *. simpl. congruence. Qed.

(** *** Preservation *)
Lemma CreateVersion_inv command s s' v :
  validateCreateVersion command = Ok tt -> release_inv s ->
  CreateVersion_commit command s = (s', Ok v) -> release_inv s'.
Proof.
  intros Hval Hs (-> & Hnew & Hlim & ->)%CreateVersion_commit_Ok.
  set (v := cv_Version command) in *.
  assert (version_ok (v_VersionID v) v /\ v_State v = VersionUploaded) as [Hok Hst].
  { unfold validateCreateVersion in Hval. fold v in Hval. ok_inv.
    split; [|done]. split; try done; [unfold is_u64; lia|]. unfold live_state. set_solver. }
  split; simpl.
  - intros vid w. rewrite lookup_insert. case_decide; [naive_solver|apply Hs].
  - intros fid. rewrite countb_insert_fresh by done. unfold int_get.
    rewrite lookup_insert. pose proof (ri_count _ Hs) as Hc. unfold int_get in Hc.
    case_decide; simpl; [subst; rewrite Hc, bool_decide_eq_true_2 by done; simpl; lia|].
    rewrite Hc, bool_decide_eq_false_2 by done. simpl. lia.
  - intros fid. unfold int_get in *. rewrite lookup_insert. case_decide; simpl; [subst; lia|apply Hs].
  - intros vid. rewrite (ri_fence _ Hs), lookup_insert. case_decide; [|done]. subst vid.
    split; intros (w & Hw & Hw'); [congruence|]. injection Hw as <-. by rewrite Hst in Hw'.
  - intros vid. rewrite (ri_ready _ Hs), lookup_insert. case_decide; [|done]. subst vid.
    split; intros (w & Hw & Hw'); [congruence|]. injection Hw as <-. by rewrite Hst in Hw'.
  - intros vid w d. rewrite lookup_insert. case_decide; [|apply Hs]. subst vid.
    intros _ Hd. destruct (proj1 (ri_ready _ Hs (v_VersionID v))) as (w' & ? & _); [eauto|congruence].
Qed.

Lemma StartValidation_inv command s s' v' :
  release_inv s -> StartValidation command s = (s', Ok v') -> release_inv s'.
Proof.
  intros Hs (v & Hv & _ & Hst & -> & Hval & ->)%StartValidation_Ok.
  pose proof (ri_version _ Hs _ _ Hv) as Hok. rewrite <-(vo_vid _ _ Hok) in Hv.
  split; simpl.
  - intros vid w. rewrite lookup_insert. case_decide; [|apply Hs]. subst vid. intros [= <-].
    rewrite (vo_vid _ _ Hok). apply set_state_ok; [done|done|apply u64_range| |done].
    unfold live_state. set_solver.
  - intros fid. rewrite (countb_update _ _ _ v) by done. rewrite (ri_count _ Hs). simpl. lia.
  - apply Hs.
  - intros vid. rewrite !lookup_insert. case_decide; [|apply Hs]. split; eauto.
  - intros vid. rewrite (ri_ready _ Hs), lookup_insert. case_decide; [|done]. subst vid.
    split; intros (w & Hw & Hw'); simplify_eq. by rewrite Hst in Hw'.
  - intros vid w d. rewrite lookup_insert. case_decide; [|apply Hs]. subst vid.
    intros _ Hd. destruct (proj1 (ri_ready _ Hs (v_VersionID v))) as (w' & ? & Hr); [eauto|].
    simplify_eq. by rewrite Hst in Hr.
Qed.

Lemma CompleteValidation_inv command s s' v' od :
  release_inv s -> CompleteValidation command s = (s', Ok (v', od)) -> release_inv s'.
Proof.
  intros Hs (v & Hcp & Hval & -> & Hcase)%CompleteValidation_Ok.
  pose proof (cp_lookup _ _ _ Hcp) as Hv. pose proof (cp_state _ _ _ Hcp) as Hst.
  pose proof (ri_version _ Hs _ _ Hv) as Hok. rewrite <-(vo_vid _ _ Hok) in Hv.
  assert (deployments s !! v_VersionID v = None) as Hnodep.
  { apply eq_None_not_Some. intros (w & Hw & Hr)%(ri_ready _ Hs). simplify_eq. by rewrite Hst in Hr. }
  assert (v_VersionID v' = v_VersionID v /\ v_FunctionID v' = v_FunctionID v /\
    version_ok (v_VersionID v) v' /\ v_State v' <> VersionValidating /\
    match od with Some d => v_State v' = VersionReady /\ deployment_ok (v_VersionID v) v' d
             | None => v_State v' <> VersionReady end)
    as (Hvid & Hfid & Hok' & Hnv & Hod).
  { assert (version_ok (v_VersionID v) v) as Hok2 by (by rewrite (vo_vid _ _ Hok)).
    simpl in Hcase. destruct (rp_Valid _).
    - destruct Hcase as (d & -> & _ & -> & Hdep). split_and!; try done.
      + apply set_state_ok; [done|done|apply u64_range|unfold live_state; set_solver|done].
      + apply deployment_ok_set_state. by eapply validateInitialDeployment_ok.
    - destruct Hcase as [-> ->]. split_and!; try done.
      apply set_state_ok; [done|done|apply u64_range|unfold live_state; set_solver|done]. }
  split; unfold completed; simpl; rewrite ?Hvid.
  - intros vid w. rewrite lookup_insert. case_decide; [|apply Hs]. naive_solver.
  - intros fid. rewrite (countb_update _ _ _ v) by done. rewrite (ri_count _ Hs), Hfid. lia.
  - apply Hs.
  - intros vid. rewrite lookup_insert, lookup_delete. case_decide; [|apply Hs].
    split; [by intros []|]. intros (w & [= <-] & ?). done.
  - intros vid. rewrite lookup_insert. destruct od as [d|]; [|].
    + rewrite lookup_insert. case_decide; [|apply Hs]. destruct Hod. split; eauto.
    + case_decide; [|apply Hs]. subst vid. rewrite Hnodep.
      split; [by intros []|]. intros (w & [= <-] & ?). done.
  - intros vid w d. rewrite lookup_insert. case_decide.
    + subst vid. intros [= <-]. destruct od as [d'|]; [|congruence].
      rewrite lookup_insert_eq. intros [= <-]. apply Hod.
    + intros Hw Hd. apply (ri_deployment _ Hs); [done|].
      destruct od; [|done]. by rewrite lookup_insert_ne in Hd.
Qed.

(** ** The abstract Version lifecycle *)
Inductive admits : string -> string -> Prop :=
| admits_start : admits VersionUploaded VersionValidating
| admits_ready : admits VersionValidating VersionReady
| admits_failed : admits VersionValidating VersionFailed.

(** One call on the store, whatever it returns. *)
Inductive release_op :=
| OpCreateVersion (functions : Catalog) (command : CreateVersionCommand)
| OpStartValidation (command : StartValidationCommand)
| OpCompleteValidation (command : CompleteValidationCommand).

Definition run_op (op : release_op) (s : ReleaseStore) : ReleaseStore :=
  match op with
  | OpCreateVersion functions command => fst (CreateVersion functions command s)
  | OpStartValidation command => fst (StartValidation command s)
  | OpCompleteValidation command => fst (CompleteValidation command s)
  end.

(** Everything but the update time, revision, state and safe error. *)
Definition same_version (v v' : Version) : Prop :=
  v' = set_state v (v_Metadata v') (v_State v') (v_ValidationError v') /\
  md_ID (v_Metadata v') = md_ID (v_Metadata v) /\
  md_Namespace (v_Metadata v') = md_Namespace (v_Metadata v) /\
  md_CreatedAt (v_Metadata v') = md_CreatedAt (v_Metadata v) /\
  md_CreatedRaftIndex (v_Metadata v') = md_CreatedRaftIndex (v_Metadata v).

Lemma same_version_refl v : same_version v v.
Proof. split_and!; try done. by destruct v. Qed.

Lemma run_op_cases op s :
  run_op op s = s \/
  (exists functions command v, op = OpCreateVersion functions command /\
     CreateVersion_check functions command = Ok tt /\
     CreateVersion_commit command s = (run_op op s, Ok v)) \/
  (exists command v, op = OpStartValidation command /\ StartValidation command s = (run_op op s, Ok v)) \/
  (exists command v od, op = OpCompleteValidation command /\
     CompleteValidation command s = (run_op op s, Ok (v, od))).
Proof.
  destruct op as [functions command|command|command]; simpl.
  - destruct (CreateVersion functions command s) as [s' [v|e]] eqn:E; simpl.
    + right; left. exists functions, command, v. unfold CreateVersion in E. run_inv.
      done.
    + left. by eapply CreateVersion_Atomic.
  - destruct (StartValidation command s) as [s' [v|e]] eqn:E; simpl; [naive_solver|].
    left. by eapply StartValidation_Atomic.
  - destruct (CompleteValidation command s) as [s' [[v od]|e]] eqn:E; simpl; [naive_solver|].
    left. by eapply CompleteValidation_Atomic.
Qed.

Lemma run_op_inv op s : release_inv s -> release_inv (run_op op s).
Proof.
  intros Hs. destruct (run_op_cases op s) as
    [->|[(fs & c & v & _ & Hch & Hc)|[(c & v & _ & Hc)|(c & v & od & _ & Hc)]]]; [done|..].
  - unfold CreateVersion_check in Hch. ok_inv. by eapply CreateVersion_inv.
  - by eapply StartValidation_inv.
  - by eapply CompleteValidation_inv.
Qed.

Lemma run_op_version op s vid v :
  release_inv s -> versions s !! vid = Some v ->
  exists v', versions (run_op op s) !! vid = Some v' /\ same_version v v' /\
    (v' = v \/ (admits (v_State v) (v_State v') /\ v_Revision v' = v_Revision v + 1)).
Proof.
  intros Hs Hv. destruct (run_op_cases op s) as
    [->|[(fs & c & w & _ & Hch & Hc)|[(c & w & _ & Hc)|(c & w & od & _ & Hc)]]].
  { exists v. eauto using same_version_refl. }
  - apply CreateVersion_commit_Ok in Hc as (-> & Hnew & _ & ->). simpl.
    exists v. rewrite lookup_insert_ne by congruence. eauto using same_version_refl.
  - apply StartValidation_Ok in Hc as (w0 & Hw & _ & Hst & -> & Hval & ->). simpl.
    pose proof (ri_version _ Hs _ _ Hw) as Hok. rewrite lookup_insert. case_decide as E; [|eauto using same_version_refl].
    subst vid. rewrite <-(vo_vid _ _ Hok) in Hw. simplify_eq.
    eexists. split; [done|]. split; [by split_and!|]. right. simpl. rewrite Hst.
    split; [constructor|]. apply u64_succ_nonzero; [apply Hok|]. by apply Version_Validate_revision in Hval.
  - apply CompleteValidation_Ok in Hc as (w0 & Hcp & Hval & -> & Hcase).
    pose proof (cp_lookup _ _ _ Hcp) as Hw. pose proof (ri_version _ Hs _ _ Hw) as Hok.
    assert (v_VersionID w = v_VersionID w0 /\ same_version w0 w /\ admits (v_State w0) (v_State w) /\
      v_Revision w = u64 (v_Revision w0 + 1)) as (Hvid & Hsame & Hadm & Hrev).
    { rewrite (cp_state _ _ _ Hcp). simpl in Hcase. destruct (rp_Valid _).
      - destruct Hcase as (d & _ & _ & -> & _). split_and!; try done. constructor.
      - destruct Hcase as [_ ->]. split_and!; try done. constructor. }
    simpl. rewrite lookup_insert. case_decide as E; [|eauto using same_version_refl].
    assert (v = w0) as -> by (rewrite <-E, Hvid, (vo_vid _ _ Hok) in Hv; congruence).
    eexists. split; [done|]. split; [done|]. right. split; [done|].
    rewrite Hrev. apply u64_succ_nonzero; [apply Hok|]. rewrite <-Hrev. by apply Version_Validate_revision.
Qed.

(** A sequence of calls, oldest first. *)
Definition run_ops (ops : list release_op) (s : ReleaseStore) : ReleaseStore :=
  foldl (fun s op => run_op op s) s ops.

Lemma run_ops_inv ops s : release_inv s -> release_inv (run_ops ops s).
Proof. revert s. induction ops; intros s Hs; simpl; [done|]. by apply IHops, run_op_inv. Qed.

Lemma same_version_trans v1 v2 v3 : same_version v1 v2 -> same_version v2 v3 -> same_version v1 v3.
Proof.
  intros (E2 & ? & ? & ? & ?) (E3 & ? & ? & ? & ?). split_and!; try congruence.
  rewrite E3, E2. by destruct v1.
Qed.

Lemma run_ops_version ops s vid v :
  release_inv s -> versions s !! vid = Some v ->
  exists v' n, versions (run_ops ops s) !! vid = Some v' /\ same_version v v' /\
    nsteps admits n (v_State v) (v_State v') /\ v_Revision v' = v_Revision v + Z.of_nat n /\
    (n = 0%nat -> v' = v).
Proof.
  revert s v. induction ops as [|op ops IH]; intros s v Hs Hv; simpl.
  { exists v, 0%nat. split_and!; [done|apply same_version_refl|constructor|lia|done]. }
  destruct (run_op_version op s vid v Hs Hv) as (v1 & Hv1 & Hsame & Hstep).
  destruct (IH _ _ (run_op_inv op s Hs) Hv1) as (v' & n & Hv' & Hsame' & Hn & Hrev & H0).
  destruct Hstep as [->|[Hadm Hr]].
  - exists v', n. done.
  - exists v', (S n). split_and!; [done|by eapply same_version_trans|by econstructor|lia|done].
Qed.

(** C32: Any sequence of store operations refines the Version state machine
    Uploaded -> Validating -> Ready | Failed: a stored Version is never
    removed, its immutable fields (artifact, manifest, policy inputs, creation
    metadata) never change, its state moves only along allowed transitions,
    and its revision grows by exactly the number of transitions taken; with
    no transition the stored Version is unchanged. *)
Theorem version_lifecycle_refinement ops s vid v :
  release_inv s -> versions s !! vid = Some v ->
  exists v' n, versions (run_ops ops s) !! vid = Some v' /\ same_version v v' /\
    nsteps admits n (v_State v) (v_State v') /\ v_Revision v' = v_Revision v + Z.of_nat n /\
    (n = 0%nat -> v' = v).
Proof. apply run_ops_version. Qed.

Definition terminal (st : string) : Prop := st = VersionReady \/ st = VersionFailed.

Lemma terminal_forever ops s vid v :
  release_inv s -> versions s !! vid = Some v -> terminal (v_State v) ->
  versions (run_ops ops s) !! vid = Some v.
Proof.
  intros Hs Hv Ht. destruct (run_ops_version ops s vid v Hs Hv) as (v' & [|n] & Hv' & _ & Hn & _ & H0).
  - rewrite Hv'. by rewrite H0.
  - exfalso. inversion Hn as [|? ? ? ? Hadm]; subst.
    destruct Ht as [E|E]; rewrite E in Hadm; inversion Hadm.
Qed.

(** C36: A validator report completes only the attempt it belongs to.  After
    StartValidation records an attempt, a well-formed completion carrying
    another ValidationID is refused as stale and changes nothing; and once a
    completion has been applied, after any further calls, no completion for
    that Version is applied again. *)
Theorem validation_fencing s s' start v :
  release_inv s -> StartValidation start s = (s', Ok v) ->
  (forall complete,
     validateCompleteValidation complete = Ok tt ->
     co_VersionID complete = sv_VersionID start ->
     co_ExpectedResourceRevision complete = v_Revision v ->
     rp_ValidationID (co_Report complete) <> sv_ValidationID start ->
     CompleteValidation complete s'
     = (s', Err (classified CodeStaleGeneration "validator report does not match the active validation"))) /\
  (forall complete s'' w od later again,
     CompleteValidation complete s' = (s'', Ok (w, od)) ->
     co_VersionID complete = sv_VersionID start -> co_VersionID again = sv_VersionID start ->
     rp_ValidationID (co_Report complete) = sv_ValidationID start /\
     is_ok (snd (CompleteValidation again (run_ops later s''))) = false).
Proof.
  intros Hs Hstart. pose proof (StartValidation_inv _ _ _ _ Hs Hstart) as Hs'.
  apply StartValidation_Ok in Hstart as (v0 & Hv0 & _ & _ & -> & Hval & ->).
  pose proof (ri_version _ Hs _ _ Hv0) as Hok0. assert (v_VersionID v0 = sv_VersionID start) as Hvid by apply Hok0.
  split.
  - intros complete Hc Hid Hrev Hne. unfold CompleteValidation, sbind, slift, sget. rewrite Hc, Hid. simpl.
    rewrite Hvid, lookup_insert_eq, Hrev, Z.eqb_refl. simpl. rewrite Hvid. unfold str_get.
    rewrite lookup_insert_eq. simpl. rewrite bool_decide_eq_false_2 by congruence. done.
  - intros complete s'' w od later again Hc Hid Hid'.
    pose proof (CompleteValidation_inv _ _ _ _ _ Hs' Hc) as Hs''.
    apply CompleteValidation_Ok in Hc as (v1 & Hcp & _ & -> & Hcase).
    pose proof (cp_lookup _ _ _ Hcp) as Hl. rewrite Hid in Hl. simpl in Hl.
    rewrite Hvid, lookup_insert_eq in Hl. injection Hl as <-.
    pose proof (cp_fence _ _ _ Hcp) as Hf. simpl in Hf. unfold str_get in Hf.
    rewrite Hvid, lookup_insert_eq in Hf. simpl in Hf. split; [done|].
    assert (v_VersionID w = sv_VersionID start /\ terminal (v_State w)) as [Hw Hst].
    { unfold terminal. simpl in Hcase. destruct (rp_Valid _);
        [destruct Hcase as (d & _ & _ & -> & _)|destruct Hcase as [_ ->]]; simpl; auto. }
    destruct (CompleteValidation again _) as [s3 [[w' od']|e]] eqn:Hagain; [|done]. exfalso.
    apply CompleteValidation_Ok in Hagain as (v2 & Hcp2 & _).
    pose proof (cp_lookup _ _ _ Hcp2) as Hl2. rewrite Hid', <-Hw in Hl2.
    rewrite (terminal_forever later _ _ w Hs'') in Hl2; [|apply lookup_insert_eq|done].
    injection Hl2 as <-. destruct Hst as [E|E]; rewrite (cp_state _ _ _ Hcp2) in E; done.
Qed.

End operations.

(** ** Witnesses: one Version taken through a validation *)
#[local] Instance ex_jcs : JCS := fun document => Ok document.

Definition ex_request : ResourceRequest :=
  {| rr_Timeout := 5 * second; rr_MemoryMiB := 64; rr_MaxConcurrency := 4;
     rr_MaxInputBytes := 1024; rr_MaxOutputBytes := 1024 |}.
Definition ex_version : Version :=
  {| v_Metadata := ex_metadata "ver_1" 110 8; v_FunctionID := "fn_1"; v_VersionID := "ver_1";
     v_ArtifactDigest := Sum "artifact"; v_ManifestDigest := Sum "manifest"; v_ArtifactSize := 4096;
     v_ABI := ABIWASICommandV1; v_HostAPIProfile := HostAPIProfileNone;
     v_RuntimeFeatureProfile := wasmprofile.FeatureProfile;
     v_Toolchain := {| tc_Name := "tinygo"; tc_Version := "0.39"; tc_Provenance := "local" |};
     v_AdmissionEpoch := 1; v_ResourceRequest := ex_request; v_RequestedCapabilities := [];
     v_State := VersionUploaded; v_ValidationError := None |}.
Definition ex_create_version : CreateVersionCommand :=
  {| cv_IfNoneMatch := true; cv_AppliedIndex := 8; cv_Version := ex_version |}.
Definition ex_start : StartValidationCommand :=
  {| sv_VersionID := "ver_1"; sv_ExpectedResourceRevision := 1; sv_ValidationID := "val_1";
     sv_UpdatedAt := ex_at 120; sv_AppliedIndex := 9 |}.
Definition ex_report (validationID : string) : Report :=
  {| rp_SchemaVersion := SchemaVersion; rp_ValidationID := validationID; rp_Valid := true;
     rp_Code := CodeOK; rp_Reason := "accepted"; rp_Message := "module accepted";
     rp_ArtifactDigest := Sum "artifact"; rp_ArtifactSize := 4096;
     rp_RuntimeName := wasmprofile.RuntimeName; rp_RuntimeVersion := wasmprofile.RuntimeVersion;
     rp_RuntimeFeatureProfile := wasmprofile.FeatureProfile;
     rp_RuntimeEngine := wasmprofile.EngineCompiler;
     rp_Imports := Some []; rp_Exports := Some ["_start"%string];
     rp_Memory := {| me_Exported := true; me_MinPages := 1; me_MaxPages := 16 |};
     rp_CompileNanoseconds := 10;
     rp_Isolation := {| is_ProcessBoundary := true; is_Deadline := true; is_CPULimit := true;
       is_FileSizeLimit := true; is_MemoryLimit := true; is_TempDiskLimit := true |} |}.
Definition ex_deployment_with (policyDigest : string) : Deployment :=
  {| d_Metadata := ex_metadata "dep_1" 130 10; d_VersionID := "ver_1"; d_Generation := 1;
     d_ScalingRevision := 1;
     d_ResourceLimits := {| rl_Timeout := 5 * second; rl_MemoryMiB := 64; rl_MaxInputBytes := 1024;
       rl_MaxOutputBytes := 1024; rl_MaxLogBytes := defaultMaxLogBytes |};
     d_GrantedCapabilities := []; d_EffectivePolicyDigest := policyDigest;
     d_MinReplicas := 1; d_MaxReplicas := 1; d_DesiredReplicas := 1; d_ReadyReplicas := 0;
     d_TargetConcurrency := 4; d_ScalingMode := ScalingManual; d_IdleTimeout := 0;
     d_DesiredPhase := DeploymentActive |}.
Definition ex_policy_digest : string :=
  Eval vm_compute in ok_or "" (EffectivePolicy_Digest (policy_of (ex_deployment_with "") ex_version)).
Definition ex_deployment : Deployment := ex_deployment_with ex_policy_digest.
Definition ex_complete (validationID : string) : CompleteValidationCommand :=
  {| co_VersionID := "ver_1"; co_ExpectedResourceRevision := 2; co_Report := ex_report validationID;
     co_Deployment := Some ex_deployment; co_UpdatedAt := ex_at 130; co_AppliedIndex := 10 |}.

Definition ex_uploaded : ReleaseStore := run_op (OpCreateVersion ex_catalog ex_create_version) NewReleaseStore.
Definition ex_validating : ReleaseStore := run_op (OpStartValidation ex_start) ex_uploaded.
Definition ex_released : ReleaseStore := run_op (OpCompleteValidation (ex_complete "val_1")) ex_validating.

Lemma ex_uploaded_inv : release_inv ex_uploaded.
Proof. apply run_op_inv, NewReleaseStore_inv. Qed.
Lemma ex_released_inv : release_inv ex_released.
Proof. apply run_op_inv, run_op_inv, ex_uploaded_inv. Qed.

(** The example Version does become Ready, with its Deployment. *)
Lemma ex_released_ready :
  v_State <$> versions ex_released !! "ver_1"%string = Some VersionReady /\
  deployments ex_released !! "ver_1"%string = Some ex_deployment.
Proof. by vm_compute. Qed.

Lemma ex_released_run :
  run_ops [OpStartValidation ex_start; OpCompleteValidation (ex_complete "val_1")] ex_uploaded = ex_released.
Proof. unfold run_ops, ex_released, ex_validating. cbn [foldl]. reflexivity. Qed.

Lemma version_lifecycle_refinement_witness :
  exists v' n, versions ex_released !! "ver_1"%string = Some v' /\ same_version ex_version v' /\
    nsteps admits n VersionUploaded (v_State v') /\ v_Revision v' = 1 + Z.of_nat n.
Proof.
  destruct (version_lifecycle_refinement [OpStartValidation ex_start; OpCompleteValidation (ex_complete "val_1")]
    ex_uploaded "ver_1" ex_version ex_uploaded_inv) as (v' & n & H1 & H2 & H3 & H4 & _); [by vm_compute|].
  exists v', n. rewrite ex_released_run in H1. split; [exact H1|]. split; [exact H2|].
  split; [exact H3|exact H4].
Defined.

Lemma validation_fencing_witness :
  CompleteValidation (ex_complete "val_0") ex_validating
    = (ex_validating, Err (classified CodeStaleGeneration "validator report does not match the active validation")) /\
  is_ok (snd (CompleteValidation (ex_complete "val_1") (run_ops [] ex_released))) = false.
Proof.
  destruct (validation_fencing ex_uploaded ex_validating ex_start
    (ok_or ex_version (snd (StartValidation ex_start ex_uploaded))) ex_uploaded_inv)
    as [Hstale Honce]; [by vm_compute|]. split.
  - apply Hstale; by vm_compute.
  - apply (Honce (ex_complete "val_1") ex_released
      (fst (ok_or (ex_version, None) (snd (CompleteValidation (ex_complete "val_1") ex_validating))))
      (snd (ok_or (ex_version, None) (snd (CompleteValidation (ex_complete "val_1") ex_validating)))));
      by vm_compute.
Defined.

End release.
