(* ===== verification/RouteStore.v ===== *)
(** * Package [internal/controlplane], route.go: the current Route of a Function

    [Publish] is the one write that spans the catalog, the release store and
    the route store.  It holds the three mutexes in that order, so that it is
    one atomic step on the triple of stores; [ServingStates] is the aggregate
    read under the same three locks. *)
From stdpp Require Import base gmap strings list sorting.
From S2P Require Import Prelude Problem Digest Model Catalog ValidatorProtocol Release.
Import problem digest model catalog protocol release.

Module routestore.

Record PublishRouteCommand := {
  pr_FunctionID : string;
  pr_ExpectedActiveRouteRevision : Z;
  pr_Route : Route;
  pr_UpdatedAt : Time;
  pr_AppliedIndex : Z;
}.

Record RouteStore := {
  routes : gmap string Route;
  routeIDs : gset string;
}.

(** The three stores a [RouteStore] holds pointers to, with its own maps. *)
Record Stores := {
  st_catalog : Catalog;
  st_releases : ReleaseStore;
  st_routes : RouteStore;
}.

Record ServingState := {
  ss_Function : Function;
  ss_Trigger : HTTPTrigger;
  ss_Route : option Route;
  ss_Version : option Version;
  ss_Deployment : option Deployment;
}.

Definition NewRouteStore : RouteStore := {| routes := ∅; routeIDs := ∅ |}.

Definition r_ID (r : Route) : string := md_ID (r_Metadata r).
Definition fn_UpdatedAt (f : Function) : Time := md_UpdatedAt (fn_Metadata f).

Definition validatePublishRoute (command : PublishRouteCommand) : result unit :=
  let route := pr_Route command in
  let md := r_Metadata route in
  fail_if (negb (identifierPattern (pr_FunctionID command)) || (r_FunctionID route != pr_FunctionID command))
    (Invalid "function_id" "must match a valid route function id") ;;;
  fail_if (pr_AppliedIndex command =? 0) (Invalid "applied_index" "must be greater than zero") ;;;
  validateUTC "updated_at" (pr_UpdatedAt command) ;;;
  Route_ValidateCore route ;;;
  fail_if (negb (md_CreatedRaftIndex md =? pr_AppliedIndex command) || negb (md_ResourceRevision md =? 1)
           || negb (time_Equal (md_CreatedAt md) (pr_UpdatedAt command))
           || negb (time_Equal (md_UpdatedAt md) (pr_UpdatedAt command)))
    (Invalid "route" "must be a new immutable snapshot from this command").

Definition not_ready_version : error :=
  classified CodeConflict "route target is not a ready version for this function".
Definition not_active_policy : error :=
  classified CodeConflict "route target does not match an active deployment policy".

(** Both callers have checked with [ValidateCore] that an enabled Route has
    exactly one target, so the index expression cannot panic. *)
Definition validateReadyTargetLocked (releases : ReleaseStore) (route : Route) (function : Function)
    : result unit :=
  match r_Targets route with
  | [] => Err (PlainError "index out of range")
  | target :: _ =>
    match versions releases !! rt_VersionID target with
    | None => Err not_ready_version
    | Some version =>
      fail_if ((v_FunctionID version != fn_ID function) || (v_State version != VersionReady)
               || negb (v_AdmissionEpoch version =? rt_AdmissionEpoch target)) not_ready_version ;;;
      match deployments releases !! rt_VersionID target with
      | None => Err not_active_policy
      | Some deployment =>
        fail_if (negb (d_Generation deployment =? rt_DeploymentGeneration target)
                 || (d_DesiredPhase deployment != DeploymentActive)
                 || (d_EffectivePolicyDigest deployment != rt_EffectivePolicyDigest target)) not_active_policy
      end
    end
  end.

(** The Function with its active-route pointer moved. *)
Definition set_active_route (function : Function) (revision : Z) (updatedAt : Time) : Function :=
  {| fn_Metadata := touch (fn_Metadata function) updatedAt; fn_Name := fn_Name function;
     fn_Description := fn_Description function; fn_ActiveRouteRevision := revision;
     fn_Labels := fn_Labels function; fn_Lifecycle := fn_Lifecycle function |}.

Definition Publish (command : PublishRouteCommand) : M Stores (Route * Function) :=
  let route := pr_Route command in
  do! slift (validatePublishRoute command) in
  let! s := sget in
  match functionsByID (st_catalog s) !! pr_FunctionID command with
  | None => sthrow (classified CodeNotFound "function was not found")
  | Some function =>
    do! slift (fail_if (negb (pr_ExpectedActiveRouteRevision command =? fn_ActiveRouteRevision function))
                 (revisionConflict "active_route_revision"
                    (pr_ExpectedActiveRouteRevision command) (fn_ActiveRouteRevision function))) in
    do! slift (fail_if ((fn_ActiveRouteRevision function =? maxUint64) || (fn_Revision function =? maxUint64))
                 (classified CodeConflict "function revision space is exhausted")) in
    do! slift (fail_if (negb (r_RouteRevision route =? u64 (fn_ActiveRouteRevision function + 1)))
                 (Invalid "route.route_revision" "must advance the active route revision by one")) in
    do! slift (fail_if (time_Before (pr_UpdatedAt command) (fn_UpdatedAt function))
                 (Invalid "updated_at" "must not precede the current function update time")) in
    do! slift (fail_if (bool_decide (r_ID route ∈ routeIDs (st_routes s)))
                 (classified CodeConflict "route id was already used")) in
    do! slift (if r_Enabled route then
                 fail_if (fn_Lifecycle function != FunctionActive)
                   (classified CodeConflict "only an active function may publish an enabled route") ;;;
                 validateReadyTargetLocked (st_releases s) route function
               else Ok tt) in
    let function' := set_active_route function (r_RouteRevision route) (pr_UpdatedAt command) in
    do! slift (Function_Validate function') in
    do! sput {| st_catalog := store_function (st_catalog s) function';
                st_releases := st_releases s;
                st_routes := {| routes := <[fn_ID function' := route]> (routes (st_routes s));
                                routeIDs := {[ r_ID route ]} ∪ routeIDs (st_routes s) |} |} in
    sret (route, function')
  end.

Definition Get (s : RouteStore) (functionID : string) : result Route :=
  fail_if (negb (identifierPattern functionID)) (Invalid "function_id" "must be a valid identifier") ;;;
  match routes s !! functionID with
  | None => Err (classified CodeNotFound "route was not found")
  | Some route => Ok route
  end.

Definition compareRoute (left right : Route) : Z :=
  if str_lt (r_FunctionID left) (r_FunctionID right) then -1
  else if str_lt (r_FunctionID right) (r_FunctionID left) then 1
  else if r_RouteRevision left <? r_RouteRevision right then -1
  else if r_RouteRevision left >? r_RouteRevision right then 1
  else 0.

(** [Snapshot] for one iteration order of the Route map. *)
Definition snapshot_in (order : list (string * Route)) : list Route := SortFunc compareRoute (map snd order).

Definition Snapshot (s : RouteStore) : list Route := snapshot_in (map_to_list (routes s)).

Definition invariant_error (message : string) : error := PlainError message.

(** One iteration of the loop of [ServingStates]. *)
Definition serving_state (s : Stores) (function : Function) : result ServingState :=
  match triggerIDByFunc (st_catalog s) !! fn_ID function with
  | None => Err (invariant_error "catalog invariant: function has no default HTTP trigger")
  | Some triggerID =>
    match triggersByID (st_catalog s) !! triggerID with
    | None => Err (invariant_error "catalog invariant: default HTTP trigger was not found")
    | Some trigger =>
      match routes (st_routes s) !! fn_ID function with
      | None =>
        fail_if (negb (fn_ActiveRouteRevision function =? 0))
          (invariant_error "route store invariant: function active route is missing") ;;;
        Ok {| ss_Function := function; ss_Trigger := trigger; ss_Route := None;
              ss_Version := None; ss_Deployment := None |}
      | Some route =>
        fail_if (negb (r_RouteRevision route =? fn_ActiveRouteRevision function))
          (invariant_error "route store invariant: route revision does not match function") ;;;
        wrap_err "route store invariant: validating persisted route" (Route_ValidateCore route) ;;;
        if r_Enabled route then
          wrap_err "route store invariant: validating ready target"
            (validateReadyTargetLocked (st_releases s) route function) ;;;
          match r_Targets route with
          | [] => Err (PlainError "index out of range")
          | target :: _ =>
            match versions (st_releases s) !! rt_VersionID target with
            | None => Err (invariant_error "route store invariant: ready route version was not found")
            | Some version =>
              match deployments (st_releases s) !! rt_VersionID target with
              | None => Err (invariant_error "route store invariant: ready route deployment was not found")
              | Some deployment =>
                Ok {| ss_Function := function; ss_Trigger := trigger; ss_Route := Some route;
                      ss_Version := Some version; ss_Deployment := Some deployment |}
              end
            end
          end
        else Ok {| ss_Function := function; ss_Trigger := trigger; ss_Route := Some route;
                   ss_Version := None; ss_Deployment := None |}
      end
    end
  end.

(** [ServingStates] for one iteration order of the Function map: the first
    failing iteration decides the error. *)
Definition serving_states_in (s : Stores) (order : list (string * Function)) : result (list ServingState) :=
  states <- map_result (serving_state s) (map snd order) ;;
  Ok (SortFunc (fun left right => compareFunction (ss_Function left) (ss_Function right)) states).

Definition ServingStates (s : Stores) : result (list ServingState) :=
  serving_states_in s (map_to_list (functionsByID (st_catalog s))).

(** ** Atomicity *)
#[global] Instance Publish_Atomic command : Atomic (Publish command).
Proof. unfold Publish. apply _. Qed.

(** ** Invariant of the three stores *)
Section stores.
Context `{JCS}.

(** What a stored Route promises: it is the Function's active revision, it is
    well formed, its ID is spent, and an enabled Route targets a Ready
    Version with its Active Deployment. *)
Record route_ok (s : Stores) (fid : string) (f : Function) (r : Route) : Prop := {
  ro_revision : r_RouteRevision r = fn_ActiveRouteRevision f;
  ro_function : r_FunctionID r = fid;
  ro_valid : Route_ValidateCore r = Ok tt;
  ro_used : r_ID r ∈ routeIDs (st_routes s);
  ro_ready : r_Enabled r = true -> validateReadyTargetLocked (st_releases s) r f = Ok tt;
}.

Record stores_inv (s : Stores) : Prop := {
  si_catalog : catalog_inv (st_catalog s);
  si_releases : release_inv (st_releases s);
  si_route : forall fid r, routes (st_routes s) !! fid = Some r ->
    exists f, functionsByID (st_catalog s) !! fid = Some f /\ route_ok s fid f r;
  si_no_route : forall fid f, functionsByID (st_catalog s) !! fid = Some f ->
    routes (st_routes s) !! fid = None -> fn_ActiveRouteRevision f = 0;
}.

Definition NewStores : Stores :=
  {| st_catalog := NewCatalog; st_releases := NewReleaseStore; st_routes := NewRouteStore |}.

Lemma NewStores_inv : stores_inv NewStores.
Proof. split; [apply NewCatalog_inv|apply NewReleaseStore_inv|done|done]. Qed.

(** *** Ready targets *)
Record ready_target (releases : ReleaseStore) (r : Route) (fid : string) (v : Version) (d : Deployment)
    : Prop := {
  re_target : exists t, r_Targets r = [t] /\ versions releases !! rt_VersionID t = Some v /\
    deployments releases !! rt_VersionID t = Some d /\
    v_AdmissionEpoch v = rt_AdmissionEpoch t /\ d_Generation d = rt_DeploymentGeneration t /\
    d_EffectivePolicyDigest d = rt_EffectivePolicyDigest t;
  re_function : v_FunctionID v = fid;
  re_state : v_State v = VersionReady;
  re_phase : d_DesiredPhase d = DeploymentActive;
}.

Lemma validateReadyTargetLocked_Ok releases r f :
  Route_ValidateCore r = Ok tt -> r_Enabled r = true ->
  validateReadyTargetLocked releases r f = Ok tt <-> exists v d, ready_target releases r (fn_ID f) v d.
Proof.
  unfold Route_ValidateCore. intros Hcore Hen. ok_inv.
  destruct Hcore as [?|Hone]; [congruence|]. go_cases. unfold validateReadyTargetLocked, len in *. destruct (r_Targets r) as [|t [|]] eqn:Et; simpl in *; try lia.
  split.
  - intros Hready.
    destruct (versions releases !! rt_VersionID t) as [v|] eqn:Hv; [|done]. ok_inv.
    destruct (deployments releases !! rt_VersionID t) as [d|] eqn:Hd; [|done]. ok_inv.
    eexists _, _. split; try done. exists t. split_and!; eauto; congruence.
  - intros (v & d & [(t' & Ht' & Hv & Hd & He & Hg & Hp) Hf Hs Hph]).
    assert (t' = t) as -> by congruence.
    rewrite Hv, Hf, Hs, He, Z.eqb_refl, !bool_decide_eq_true_2 by done. simpl.
    by rewrite Hd, Hg, Hph, Hp, Z.eqb_refl, !bool_decide_eq_true_2 by done.
Qed.

(** *** Effect of Publish *)
Definition published (s : Stores) (f' : Function) (r : Route) : Stores :=
  {| st_catalog := store_function (st_catalog s) f'; st_releases := st_releases s;
     st_routes := {| routes := <[fn_ID f' := r]> (routes (st_routes s));
                     routeIDs := {[ r_ID r ]} ∪ routeIDs (st_routes s) |} |}.

Record publishes (command : PublishRouteCommand) (s : Stores) (f : Function) : Prop := {
  pb_command : validatePublishRoute command = Ok tt;
  pb_function : functionsByID (st_catalog s) !! pr_FunctionID command = Some f;
  pb_expected : pr_ExpectedActiveRouteRevision command = fn_ActiveRouteRevision f;
  pb_room : fn_ActiveRouteRevision f <> maxUint64 /\ fn_Revision f <> maxUint64;
  pb_next : r_RouteRevision (pr_Route command) = u64 (fn_ActiveRouteRevision f + 1);
  pb_fresh : r_ID (pr_Route command) ∉ routeIDs (st_routes s);
  pb_ready : r_Enabled (pr_Route command) = true ->
    fn_Lifecycle f = FunctionActive /\
    validateReadyTargetLocked (st_releases s) (pr_Route command) f = Ok tt;
  pb_valid : Function_Validate
    (set_active_route f (r_RouteRevision (pr_Route command)) (pr_UpdatedAt command)) = Ok tt;
}.

Lemma Publish_Ok command s s' r f' :
  Publish command s = (s', Ok (r, f')) ->
  exists f, publishes command s f /\ r = pr_Route command /\
    f' = set_active_route f (r_RouteRevision r) (pr_UpdatedAt command) /\ s' = published s f' r.
Proof.
  unfold Publish. intros Hp. run_inv. ok_inv. eexists. split; [|done].
  split; try done.
  intros Hen. match goal with H0 : (if _ then _ else _) = Ok _ |- _ => rewrite Hen in H0 end.
  ok_inv. done.
Qed.

(** The reads of [validateReadyTargetLocked] only concern one Ready Version
    and its Deployment, which no later store operation changes. *)
Definition releases_extend (s s' : ReleaseStore) : Prop :=
  forall vid v d, versions s !! vid = Some v -> v_State v = VersionReady ->
    deployments s !! vid = Some d ->
    versions s' !! vid = Some v /\ deployments s' !! vid = Some d.

Lemma validateReadyTargetLocked_extend s s' r f f' :
  Route_ValidateCore r = Ok tt -> r_Enabled r = true -> releases_extend s s' -> fn_ID f' = fn_ID f ->
  validateReadyTargetLocked s r f = Ok tt -> validateReadyTargetLocked s' r f' = Ok tt.
Proof.
  intros Hr Hen Hext Hid. rewrite !validateReadyTargetLocked_Ok by done.
  intros (v & d & [(t & Ht & Hv & Hd & Hrest) Hf Hs Hph]). exists v, d.
  destruct (Hext _ _ _ Hv Hs Hd) as [? ?]. split; try done; [by exists t|congruence].
Qed.

Lemma run_op_extends op s : release_inv s -> releases_extend s (run_op op s).
Proof.
  intros Hs vid v d Hv Hst Hd.
  destruct (run_op_version op s vid v Hs Hv) as (v' & Hv' & _ & [->|[Hadm _]]);
    [|rewrite Hst in Hadm; inversion Hadm].
  split; [done|]. destruct (run_op_cases op s) as
    [->|[(fs & c & w & _ & _ & Hc)|[(c & w & _ & Hc)|(c & w & od & _ & Hc)]]]; [done|..].
  - by apply CreateVersion_commit_Ok in Hc as (_ & _ & _ & ->).
  - by apply StartValidation_Ok in Hc as (w0 & _ & _ & _ & _ & _ & ->).
  - pose proof Hc as Hc'. apply CompleteValidation_Ok in Hc as (w0 & Hcp & _ & -> & Hcase). simpl.
    destruct od as [d'|]; [|done]. rewrite lookup_insert_ne; [done|]. intros <-.
    assert (v_VersionID w = v_VersionID w0) as E.
    { simpl in Hcase. destruct (rp_Valid _); destruct Hcase as (? & ?); [|done]. naive_solver. }
    pose proof (cp_lookup _ _ _ Hcp) as Hw0. pose proof (cp_state _ _ _ Hcp) as Hst0.
    rewrite E, (vo_vid _ _ (ri_version _ Hs _ _ Hw0)) in Hv. simplify_eq. by rewrite Hst in Hst0.
Qed.

(** What the Route layer needs of a write to the catalog. *)
Record catalog_extends (c c' : Catalog) : Prop := {
  ce_inv : catalog_inv c';
  ce_old : forall fid f, functionsByID c !! fid = Some f ->
    exists f', functionsByID c' !! fid = Some f' /\ fn_ActiveRouteRevision f' = fn_ActiveRouteRevision f;
  ce_new : forall fid f', functionsByID c' !! fid = Some f' -> functionsByID c !! fid = None ->
    fn_ActiveRouteRevision f' = 0;
}.

Lemma stores_inv_extend s c' r' :
  stores_inv s -> catalog_extends (st_catalog s) c' ->
  release_inv r' -> releases_extend (st_releases s) r' ->
  stores_inv {| st_catalog := c'; st_releases := r'; st_routes := st_routes s |}.
Proof.
  intros Hs Hc Hr Hext. split; simpl; [apply Hc|done| |].
  - intros fid r Hfid. destruct (si_route _ Hs _ _ Hfid) as (f & Hf & [Hrev Hrf Hv Hu Hready]).
    destruct (ce_old _ _ Hc _ _ Hf) as (f' & Hf' & Ha). exists f'. split; [done|].
    split; simpl; try done; [congruence|].
    intros Hen. eapply validateReadyTargetLocked_extend; [done|done|exact Hext| |by apply Hready].
    rewrite (fo_id _ _ (ci_function _ (ce_inv _ _ Hc) _ _ Hf')).
    by rewrite (fo_id _ _ (ci_function _ (si_catalog _ Hs) _ _ Hf)).
  - intros fid f' Hf' Hnone. destruct (functionsByID (st_catalog s) !! fid) as [f|] eqn:Hf.
    + destruct (ce_old _ _ Hc _ _ Hf) as (f2 & Hf2 & Ha). simplify_eq. rewrite Ha.
      by eapply (si_no_route _ Hs).
    + by eapply (ce_new _ _ Hc).
Qed.

Lemma catalog_extends_refl c : catalog_inv c -> catalog_extends c c.
Proof. intros Hc. split; [done|eauto|congruence]. Qed.

Lemma CreateFunction_extends command c :
  catalog_inv c -> catalog_extends c (fst (CreateFunction command c)).
Proof.
  intros Hc. destruct (CreateFunction command c) as [c' [sn|e]] eqn:E; simpl;
    [|rewrite (CreateFunction_Atomic _ _ _ _ E); by apply catalog_extends_refl].
  pose proof (CreateFunction_inv _ _ _ _ Hc E) as Hc'.
  apply CreateFunction_Ok in E as (Hv & Hfid & _ & _ & _ & _ & -> & _).
  apply validateCreateFunction_ok in Hv as (_ & _ & Har & _).
  split; simpl; [done|..]; intros fid f Hf.
  - exists f. rewrite lookup_insert_ne by congruence. done.
  - rewrite lookup_insert in Hf. case_decide; [congruence|]. congruence.
Qed.

Lemma SetFunctionLifecycle_extends command c :
  catalog_inv c -> catalog_extends c (fst (SetFunctionLifecycle command c)).
Proof.
  intros Hc. destruct (SetFunctionLifecycle command c) as [c' [f'|e]] eqn:E; simpl;
    [|rewrite (SetFunctionLifecycle_Atomic _ _ _ _ E); by apply catalog_extends_refl].
  pose proof (SetFunctionLifecycle_inv _ _ _ _ Hc E) as Hc'.
  apply SetFunctionLifecycle_Ok in E as (f & Hf & _ & _ & _ & [(_ & -> & _)|(_ & -> & _ & ->)]);
    [by apply catalog_extends_refl|].
  pose proof (fo_id _ _ (ci_function _ Hc _ _ Hf)) as Hid.
  split; simpl; [done|..]; intros fid g; unfold fn_ID; simpl; fold (fn_ID f); rewrite Hid, lookup_insert.
  - intros Hg. case_decide; [|by eauto]. subst. simplify_eq. by eexists.
  - case_decide; congruence.
Qed.

Lemma RotateInvocationToken_extends command c :
  catalog_inv c -> catalog_extends c (fst (RotateInvocationToken command c)).
Proof.
  intros Hc. destruct (RotateInvocationToken command c) as [c' [t'|e]] eqn:E; simpl;
    [|rewrite (RotateInvocationToken_Atomic _ _ _ _ E); by apply catalog_extends_refl].
  pose proof (RotateInvocationToken_inv _ _ _ _ Hc E) as Hc'.
  apply RotateInvocationToken_Ok in E as (tid & t & _ & _ & _ & _ & _ & _ & _ & ->).
  split; simpl; [done|by eauto|congruence].
Qed.

Lemma Publish_inv command s s' r f' :
  stores_inv s -> Publish command s = (s', Ok (r, f')) -> stores_inv s'.
Proof.
  intros Hs (f & Hp & -> & Hf' & ->)%Publish_Ok. set (r := pr_Route command) in *.
  pose proof (pb_function _ _ _ Hp) as Hf. pose proof (ci_function _ (si_catalog _ Hs) _ _ Hf) as Hok.
  assert (fn_ID f' = pr_FunctionID command) as Hid by (rewrite Hf'; apply Hok).
  assert (r_FunctionID r = pr_FunctionID command /\ Route_ValidateCore r = Ok tt) as [Hrf Hrv].
  { pose proof (pb_command _ _ _ Hp) as Hv. unfold validatePublishRoute in Hv. ok_inv. done. }
  split; simpl; [|apply Hs|..].
  - apply (store_function_inv _ f); [apply Hs|by rewrite Hid|by rewrite Hf'|].
    rewrite Hid, Hf'. split; simpl; [apply Hok|apply Hp|apply u64_range| |apply Hok].
    pose proof (pb_next _ _ _ Hp) as Hn. fold r in Hn. rewrite Hn. apply u64_range.
  - intros fid r'. rewrite Hid, !lookup_insert. case_decide as E.
    + intros [= <-]. subst fid. exists f'. split; [done|]. split; simpl; try done; [by rewrite Hf'|set_solver|].
      intros Hen. destruct (pb_ready _ _ _ Hp Hen) as [_ Hready].
      eapply validateReadyTargetLocked_extend; [done|done| |..|exact Hready]; [by intros ????|].
      rewrite Hid. symmetry. apply Hok.
    + intros Hr'. destruct (si_route _ Hs _ _ Hr') as (g & Hg & [??? Hu ?]). exists g. split; [done|].
      split; simpl; try done. set_solver.
  - intros fid g. rewrite Hid, !lookup_insert. case_decide; [done|]. apply (si_no_route _ Hs).
Qed.

(** ** The aggregate read *)
Definition route_order : Route -> Route -> comparison :=
  lex_by (comparing r_FunctionID String.compare) (comparing r_RouteRevision Z.compare).

Lemma compareRoute_spec l r : compareRoute l r = int_of route_order l r.
Proof.
  unfold compareRoute, int_of, route_order, lex_by, comparing.
  rewrite str_three_way, Z_three_way, to_int_lex. by repeat case_match.
Qed.

#[local] Instance route_order_total : TotalCompare route_order.
Proof. unfold route_order. apply _. Qed.

Lemma route_order_eq x y : route_order x y = Eq -> r_FunctionID x = r_FunctionID y.
Proof.
  unfold route_order, lex_by, lex, comparing. case_match; try done.
  intros _. by apply String.compare_eq_iff.
Qed.

(** A serving state is consistent with the stores it was read from. *)
Record state_ok (s : Stores) (f : Function) (st : ServingState) : Prop := {
  sk_function : ss_Function st = f;
  sk_trigger : GetFunction (st_catalog s) (fn_ID f) = Ok (f, ss_Trigger st);
  sk_route : ss_Route st = routes (st_routes s) !! fn_ID f;
  sk_target :
    match ss_Route st with
    | Some r => r_RouteRevision r = fn_ActiveRouteRevision f /\
        if r_Enabled r then
          exists v d, ss_Version st = Some v /\ ss_Deployment st = Some d /\
            ready_target (st_releases s) r (fn_ID f) v d
        else ss_Version st = None /\ ss_Deployment st = None
    | None => fn_ActiveRouteRevision f = 0 /\ ss_Version st = None /\ ss_Deployment st = None
    end;
}.

Lemma serving_state_total s f :
  stores_inv s -> functionsByID (st_catalog s) !! fn_ID f = Some f ->
  exists st, serving_state s f = Ok st /\ state_ok s f st.
Proof.
  intros Hs Hf. pose proof (function_ok_id _ _ (ci_function _ (si_catalog _ Hs) _ _ Hf)) as Hpat.
  destruct (GetFunction_inv _ _ _ (si_catalog _ Hs) Hpat Hf) as (t & tid & Hget & Htid & Ht & _).
  unfold serving_state. rewrite Htid, Ht.
  destruct (routes (st_routes s) !! fn_ID f) as [r|] eqn:Hr.
  - destruct (si_route _ Hs _ _ Hr) as (f0 & Hf0 & [Hrev Hrf Hv Hu Hready]). simplify_eq.
    rewrite Hrev, Z.eqb_refl, Hv. simpl. destruct (r_Enabled r) eqn:Hen.
    + rewrite Hready by done. simpl. specialize (Hready eq_refl).
      apply validateReadyTargetLocked_Ok in Hready as (v & d & Hrt); [|done..].
      destruct (re_target _ _ _ _ _ Hrt) as (tg & Htg & Hvv & Hdd & _).
      rewrite Htg, Hvv, Hdd. eexists. split; [done|]. split; simpl; try done.
      split; [done|]. rewrite Hen. by exists v, d.
    + eexists. split; [done|]. split; simpl; try done. by rewrite Hen.
  - rewrite (si_no_route _ Hs _ _ Hf Hr). simpl. eexists. split; [done|].
    split; simpl; try done. by rewrite (si_no_route _ Hs _ _ Hf Hr).
Qed.

Lemma functions_keyed s f :
  stores_inv s -> f ∈ map snd (map_to_list (functionsByID (st_catalog s))) ->
  functionsByID (st_catalog s) !! fn_ID f = Some f.
Proof.
  intros Hs ([i g] & -> & Hg)%list_elem_of_fmap. apply elem_of_map_to_list in Hg. simpl.
  by rewrite (fo_id _ _ (ci_function _ (si_catalog _ Hs) _ _ Hg)).
Qed.

Lemma serving_states_ok s : stores_inv s -> exists states, ServingStates s = Ok states.
Proof.
  intros Hs. unfold ServingStates, serving_states_in.
  destruct (map_result_total (serving_state s) (map snd (map_to_list (functionsByID (st_catalog s)))))
    as [states ->]; [|by eexists].
  intros f Hf. destruct (serving_state_total s f Hs (functions_keyed s f Hs Hf)) as (st & -> & _). eauto.
Qed.

(** Whenever the stores' invariant holds, the aggregate serving read
    succeeds: none of its invariant errors is reachable.  Whatever order Go
    iterates the Function map in, it returns the same list, with one state
    per Function, each pairing the Function with its own Trigger, its active
    Route and, for an enabled Route, the Ready Version and Active Deployment
    that the Route's epoch, generation and policy digest name. *)
Theorem ServingStates_total s order :
  stores_inv s -> order ≡ₚ map_to_list (functionsByID (st_catalog s)) ->
  exists states, serving_states_in s order = Ok states /\ ServingStates s = Ok states /\
    map ss_Function states ≡ₚ map snd (map_to_list (functionsByID (st_catalog s))) /\
    Forall (fun st => state_ok s (ss_Function st) st) states.
Proof.
  intros Hs Hp.
  assert (forall f, f ∈ map snd (map_to_list (functionsByID (st_catalog s))) ->
    functionsByID (st_catalog s) !! fn_ID f = Some f) as Hkey by (intros f; by apply functions_keyed).
  pose (get := fun f => ok_or {| ss_Function := f; ss_Trigger := zero_HTTPTrigger; ss_Route := None;
    ss_Version := None; ss_Deployment := None |} (serving_state s f)).
  assert (forall f, f ∈ map snd (map_to_list (functionsByID (st_catalog s))) ->
    serving_state s f = Ok (get f) /\ state_ok s f (get f)) as Hget.
  { intros f Hf. destruct (serving_state_total s f Hs (Hkey f Hf)) as (st & E & Hst).
    unfold get. by rewrite E. }
  pose (cmp := fun left right => compareFunction (ss_Function left) (ss_Function right)).
  assert (forall o, o ≡ₚ map_to_list (functionsByID (st_catalog s)) ->
    serving_states_in s o = Ok (SortFunc cmp (map get (map snd o)))) as Hrun.
  { intros o Ho. unfold serving_states_in. rewrite (map_result_map _ get); [done|].
    intros f Hf. apply Hget. by rewrite <-Ho. }
  exists (SortFunc cmp (map get (map snd order))). split_and!.
  - by apply Hrun.
  - unfold ServingStates. rewrite Hrun by done. f_equal.
    pose (c := comparing ss_Function function_order).
    rewrite !(SortFunc_ext cmp (int_of c)) by (intros; apply compareFunction_spec).
    apply SortFunc_order_independent; [apply _| |by rewrite Hp].
    intros x y (f & -> & Hf)%list_elem_of_fmap (g & -> & Hg)%list_elem_of_fmap E%function_order_eq.
    destruct (Hget f Hf) as [_ Hsf], (Hget g Hg) as [_ Hsg].
    rewrite (sk_function _ _ _ Hsf), (sk_function _ _ _ Hsg) in E.
    apply Hkey in Hf, Hg. congruence.
  - rewrite SortFunc_Permutation, Hp, map_map.
    rewrite (map_ext_in _ (fun f => f)); [by rewrite map_id|].
    intros f Hf%list_elem_of_In. by apply Hget.
  - rewrite SortFunc_Permutation. apply Forall_forall. intros st (f & -> & Hf)%list_elem_of_fmap.
    rewrite Hp in Hf. destruct (Hget f Hf) as [_ Hst]. by rewrite (sk_function _ _ _ Hst).
Qed.

(** C34: Publishing is a compare-and-swap on the Function's active route.  A
    success moves the pointer from the expected revision to its successor
    without wrapping, makes exactly the command's Route current, spends its
    Route ID, leaves every other Function's Route alone, and, when the Route
    is enabled, found the Function Active and the target Ready.  Any
    well-formed command that expects the same revision is then refused with
    the conflict that names both revisions, and changes nothing. *)
Theorem Publish_CAS command s s' r f' :
  stores_inv s -> Publish command s = (s', Ok (r, f')) ->
  let fid := pr_FunctionID command in
  let old := pr_ExpectedActiveRouteRevision command in
  r = pr_Route command /\ r_RouteRevision r = old + 1 /\
  routestore.Get (st_routes s') fid = Ok r /\
  functionsByID (st_catalog s') !! fid = Some f' /\ fn_ActiveRouteRevision f' = old + 1 /\
  ~ (r_ID r ∈ routeIDs (st_routes s)) /\ (r_ID r ∈ routeIDs (st_routes s')) /\
  (forall other, other <> fid -> routes (st_routes s') !! other = routes (st_routes s) !! other) /\
  (r_Enabled r = true -> fn_Lifecycle f' = FunctionActive /\
     exists v d, ready_target (st_releases s') r fid v d) /\
  (forall command', validatePublishRoute command' = Ok tt -> pr_FunctionID command' = fid ->
     pr_ExpectedActiveRouteRevision command' = old ->
     Publish command' s' = (s', Err (revisionConflict "active_route_revision" old (old + 1)))).
Proof.
  intros Hs (f & Hp & -> & -> & ->)%Publish_Ok. simpl. set (r := pr_Route command) in *.
  pose proof (pb_function _ _ _ Hp) as Hf. pose proof (ci_function _ (si_catalog _ Hs) _ _ Hf) as Hok.
  assert (fn_ID f = pr_FunctionID command) as Hid by apply Hok.
  set (f' := set_active_route _ _ _). assert (fn_ID f' = pr_FunctionID command) as Hid' by done.
  assert (r_RouteRevision r = pr_ExpectedActiveRouteRevision command + 1) as Hrev.
  { pose proof (pb_next _ _ _ Hp) as Hn. fold r in Hn. rewrite Hn, (pb_expected _ _ _ Hp).
    pose proof (fo_route _ _ Hok) as Hu. destruct (pb_room _ _ _ Hp) as [Hroom _].
    apply u64_small. unfold is_u64, maxUint64 in *. lia. }
  split_and!; try done.
  - unfold Get. rewrite (function_ok_id _ _ Hok), Hid'. simpl. by rewrite lookup_insert_eq.
  - by rewrite Hid', lookup_insert_eq.
  - apply Hp.
  - set_solver.
  - intros other Hne. by rewrite Hid', lookup_insert_ne.
  - intros Hen. destruct (pb_ready _ _ _ Hp Hen) as [Hl Hready]. split; [done|].
    apply validateReadyTargetLocked_Ok in Hready; [by rewrite Hid in Hready| |done].
    pose proof (pb_command _ _ _ Hp) as Hv. unfold validatePublishRoute in Hv. ok_inv. done.
  - intros command' Hv' Hfid Hexp. unfold Publish, sbind, slift, sget. rewrite Hv'. simpl.
    rewrite Hfid, Hid', lookup_insert_eq. simpl. rewrite Hexp, Hrev.
    rewrite (proj2 (Z.eqb_neq _ _)) by lia. done.
Qed.
End stores.

(** ** Witnesses *)
#[local] Existing Instance ex_jcs.

Definition ex_route (id : string) (revision : Z) : Route :=
  {| r_Metadata := ex_metadata id 140 11; r_FunctionID := "fn_1"; r_RouteRevision := revision;
     r_Targets := [{| rt_VersionID := "ver_1"; rt_AdmissionEpoch := 1; rt_DeploymentGeneration := 1;
       rt_EffectivePolicyDigest := ex_policy_digest; rt_WeightBasisPoints := 10000 |}];
     r_Affinity := AffinityRequestID; r_AffinityHeader := ""; r_HashVersion := HashVersionSHA256BPSV1;
     r_SaltID := "salt_1"; r_Salt := "0123456789abcdef"; r_Enabled := true |}.
Definition ex_publish (id : string) (expected : Z) : PublishRouteCommand :=
  {| pr_FunctionID := "fn_1"; pr_ExpectedActiveRouteRevision := expected;
     pr_Route := ex_route id (expected + 1); pr_UpdatedAt := ex_at 140; pr_AppliedIndex := 11 |}.
Definition ex_stores : Stores :=
  {| st_catalog := ex_catalog; st_releases := ex_released; st_routes := NewRouteStore |}.
Definition ex_published : Stores := fst (Publish (ex_publish "route_1" 0) ex_stores).
Definition ex_active : Function :=
  set_active_route (cf_Function ex_create) 1 (ex_at 140).

Lemma ex_stores_inv : stores_inv ex_stores.
Proof.
  apply (stores_inv_extend
    {| st_catalog := ex_catalog; st_releases := NewReleaseStore; st_routes := NewRouteStore |}).
  - split; [apply ex_catalog_inv|apply NewReleaseStore_inv|done|]. simpl. intros fid f Hf _. revert fid f Hf.
    change (map_Forall (fun _ f => fn_ActiveRouteRevision f = 0) (functionsByID ex_catalog)).
    by apply (bool_decide_unpack _); vm_compute.
  - apply catalog_extends_refl, ex_catalog_inv.
  - apply ex_released_inv.
  - by intros vid v d Hv.
Qed.

Lemma ex_publish_runs :
  Publish (ex_publish "route_1" 0) ex_stores = (ex_published, Ok (ex_route "route_1" 1, ex_active)).
Proof. by vm_compute. Qed.

Lemma Publish_CAS_witness :
  routestore.Get (st_routes ex_published) "fn_1" = Ok (ex_route "route_1" 1) /\
  Publish (ex_publish "route_2" 0) ex_published
    = (ex_published, Err (revisionConflict "active_route_revision" 0 1)).
Proof.
  destruct (Publish_CAS _ _ _ _ _ ex_stores_inv ex_publish_runs)
    as (_ & _ & Hget & _ & _ & _ & _ & _ & _ & Hagain).
  split; [exact Hget|]. apply Hagain; by vm_compute.
Defined.

Lemma ServingStates_total_witness :
  exists st, ServingStates ex_published = Ok [st] /\ ss_Route st = Some (ex_route "route_1" 1).
Proof.
  assert (stores_inv ex_published) as Hinv by (eapply Publish_inv; [apply ex_stores_inv|apply ex_publish_runs]).
  destruct (ServingStates_total ex_published (map_to_list (functionsByID (st_catalog ex_published))) Hinv)
    as (states & _ & Hrun & Hperm & Hall); [done|].
  assert (map_to_list (functionsByID (st_catalog ex_published)) = [("fn_1"%string, ex_active)]) as El
    by (by vm_compute).
  rewrite El in Hperm. symmetry in Hperm. apply Permutation_length_1_inv in Hperm.
  destruct states as [|st [|]]; [discriminate Hperm| |discriminate Hperm].
  assert (ss_Function st = ex_active) as Est by exact (f_equal (List.hd ex_active) Hperm).
  exists st. split; [exact Hrun|]. apply Forall_cons in Hall as [Hst _].
  rewrite (sk_route _ _ _ Hst), Est. by vm_compute.
Defined.

End routestore.
