(* ===== verification/ServingAuth.v ===== *)
(** * Package [internal/servingauth]: the Worker-side serving gate

    The gate decides whether a Worker may run one synchronous invocation.  It
    remembers the highest Discovery Epoch and the Session Epoch of the control
    connection it accepted, and one authorization per Assignment.  The
    monotonic clock it reads is outside the package: every operation that
    reads it takes the reading as an argument. *)
From stdpp Require Import base gmap strings list.
From S2P Require Import Prelude Problem Digest Model.
Import problem digest model.

Module servingauth.

Definition ModeNormal : string := "normal".
Definition ModeDrainOnly : string := "drain-only".
Definition LifetimeTTL : string := "ttl".
Definition LifetimeLiveOnly : string := "live_only".

Record WorkerSession := { ws_WorkerID : string; ws_BootID : string; ws_SessionEpoch : Z }.
Record WorkerProcess := { wp_WorkerID : string; wp_BootID : string }.

Record AssignmentIdentity := {
  ai_Worker : WorkerSession;
  ai_AssignmentID : string;
  ai_VersionID : string;
  ai_AdmissionEpoch : Z;
  ai_DeploymentGeneration : Z;
  ai_PolicyDigest : string;
  ai_Mode : string;
}.

Record InvocationFence := { if_Assignment : AssignmentIdentity; if_DiscoveryEpoch : Z }.

Record Authorization := { au_Fence : InvocationFence; au_Lifetime : string; au_TTL : Z }.

Record ControlConnection := { cc_ConnectionID : string; cc_SessionEpoch : Z; cc_DiscoveryEpoch : Z }.

#[global] Instance WorkerSession_eq_dec : EqDecision WorkerSession.
Proof. solve_decision. Defined.
#[global] Instance WorkerProcess_eq_dec : EqDecision WorkerProcess.
Proof. solve_decision. Defined.
#[global] Instance AssignmentIdentity_eq_dec : EqDecision AssignmentIdentity.
Proof. solve_decision. Defined.
#[global] Instance InvocationFence_eq_dec : EqDecision InvocationFence.
Proof. solve_decision. Defined.
#[global] Instance Authorization_eq_dec : EqDecision Authorization.
Proof. solve_decision. Defined.
#[global] Instance ControlConnection_eq_dec : EqDecision ControlConnection.
Proof. solve_decision. Defined.

Definition WorkerProcess_validate (p : WorkerProcess) : result unit :=
  fail_if (negb (idPattern (wp_WorkerID p))) (Invalid "worker_id" "must be a valid identifier") ;;;
  fail_if (negb (idPattern (wp_BootID p))) (Invalid "boot_id" "must be a valid identifier").

Definition WorkerSession_validate (s : WorkerSession) : result unit :=
  fail_if (negb (idPattern (ws_WorkerID s))) (Invalid "worker_id" "must be a valid identifier") ;;;
  fail_if (negb (idPattern (ws_BootID s))) (Invalid "boot_id" "must be a valid identifier") ;;;
  fail_if (ws_SessionEpoch s =? 0) (Invalid "session_epoch" "must be greater than zero").

Definition AssignmentIdentity_validate (a : AssignmentIdentity) : result unit :=
  WorkerSession_validate (ai_Worker a) ;;;
  fail_if (negb (idPattern (ai_AssignmentID a))) (Invalid "assignment_id" "must be a valid identifier") ;;;
  fail_if (negb (idPattern (ai_VersionID a))) (Invalid "version_id" "must be a valid identifier") ;;;
  fail_if (ai_AdmissionEpoch a =? 0) (Invalid "admission_epoch" "must be greater than zero") ;;;
  fail_if (ai_DeploymentGeneration a =? 0) (Invalid "deployment_generation" "must be greater than zero") ;;;
  replace_err (Invalid "policy_digest" "must be a lowercase sha-256 digest")
    (ParseSHA256 (ai_PolicyDigest a)) ;;;
  fail_if ((ai_Mode a != ModeNormal) && (ai_Mode a != ModeDrainOnly))
    (Invalid "assignment_mode" "must be normal or drain-only").

Definition InvocationFence_validate (f : InvocationFence) : result unit :=
  AssignmentIdentity_validate (if_Assignment f) ;;;
  fail_if (if_DiscoveryEpoch f =? 0) (Invalid "discovery_epoch" "must be greater than zero").

Definition Authorization_validate (a : Authorization) (maxTTL : Z) : result unit :=
  InvocationFence_validate (au_Fence a) ;;;
  if au_Lifetime a == LifetimeTTL then
    fail_if ((au_TTL a <=? 0) || (au_TTL a >? maxTTL))
      (Invalid "authorization_ttl" "must be positive and within the worker maximum")
  else if au_Lifetime a == LifetimeLiveOnly then
    fail_if (negb (au_TTL a =? 0)) (Invalid "authorization_ttl" "must be zero for live-only authorization")
  else Err (Invalid "authorization_lifetime" "must be ttl or live_only").

Definition ControlConnection_validate (c : ControlConnection) : result unit :=
  fail_if (negb (idPattern (cc_ConnectionID c))) (Invalid "control_connection_id" "must be a valid identifier") ;;;
  fail_if (cc_SessionEpoch c =? 0) (Invalid "session_epoch" "must be greater than zero") ;;;
  fail_if (cc_DiscoveryEpoch c =? 0) (Invalid "discovery_epoch" "must be greater than zero").

(** ** The gate *)
Definition DefaultMaxTTL : Z := 5 * minute.
Definition HardMaxTTL : Z := 10 * minute.
Definition DefaultMaxAuthorizations : Z := 4096.
Definition HardMaxAuthorizations : Z := 65536.

Record Config := {
  cfg_Worker : WorkerProcess;
  cfg_MaxTTL : Z;
  cfg_MaxAuthorizations : Z;
}.

Record authorizationRecord := {
  ar_authorization : Authorization;
  ar_connection : ControlConnection;
  ar_receivedAt : Z;
}.

(** [controlState] is inlined as [g_connection] and [g_connected]. *)
Record Gate := {
  g_worker : WorkerProcess;
  g_maxTTL : Z;
  g_maxAuthorizations : Z;
  g_highestDiscoveryEpoch : Z;
  g_currentSessionEpoch : Z;
  g_connection : ControlConnection;
  g_connected : bool;
  g_assignments : gmap string AssignmentIdentity;
  g_authorizations : gmap string authorizationRecord;
  g_lastElapsed : Z;
  g_clockHealthy : bool;
}.

Record GateSnapshot := {
  gs_HighestDiscoveryEpoch : Z;
  gs_CurrentSessionEpoch : Z;
  gs_ControlConnected : bool;
  gs_TrackedAssignments : Z;
  gs_StoredAuthorizations : Z;
  gs_ClockHealthy : bool;
}.

(** [New], given the first reading of the configured clock. *)
Definition New (config : Config) (elapsed : Z) : result Gate :=
  let maxTTL := if cfg_MaxTTL config =? 0 then DefaultMaxTTL else cfg_MaxTTL config in
  let maxAuthorizations :=
    if cfg_MaxAuthorizations config =? 0 then DefaultMaxAuthorizations else cfg_MaxAuthorizations config in
  WorkerProcess_validate (cfg_Worker config) ;;;
  fail_if ((maxTTL <=? 0) || (maxTTL >? HardMaxTTL))
    (PlainError "serving authorization ttl limit is outside v1 bounds") ;;;
  fail_if ((maxAuthorizations <? 1) || (maxAuthorizations >? HardMaxAuthorizations))
    (PlainError "serving authorization entry limit is outside v1 bounds") ;;;
  fail_if (elapsed <? 0)
    (PlainError "serving authorization monotonic clock returned negative elapsed time") ;;;
  Ok {| g_worker := cfg_Worker config; g_maxTTL := maxTTL; g_maxAuthorizations := maxAuthorizations;
        g_highestDiscoveryEpoch := 0; g_currentSessionEpoch := 0;
        g_connection := {| cc_ConnectionID := ""; cc_SessionEpoch := 0; cc_DiscoveryEpoch := 0 |};
        g_connected := false; g_assignments := ∅; g_authorizations := ∅;
        g_lastElapsed := elapsed; g_clockHealthy := true |}.

(** The gate with its connection fields and its two maps replaced. *)
Definition set_control (g : Gate) (highest session : Z) (connection : ControlConnection) (connected : bool)
    (assignments : gmap string AssignmentIdentity) (authorizations : gmap string authorizationRecord) : Gate :=
  {| g_worker := g_worker g; g_maxTTL := g_maxTTL g; g_maxAuthorizations := g_maxAuthorizations g;
     g_highestDiscoveryEpoch := highest; g_currentSessionEpoch := session;
     g_connection := connection; g_connected := connected;
     g_assignments := assignments; g_authorizations := authorizations;
     g_lastElapsed := g_lastElapsed g; g_clockHealthy := g_clockHealthy g |}.

Definition set_clock (g : Gate) (lastElapsed : Z) (healthy : bool) : Gate :=
  {| g_worker := g_worker g; g_maxTTL := g_maxTTL g; g_maxAuthorizations := g_maxAuthorizations g;
     g_highestDiscoveryEpoch := g_highestDiscoveryEpoch g; g_currentSessionEpoch := g_currentSessionEpoch g;
     g_connection := g_connection g; g_connected := g_connected g;
     g_assignments := g_assignments g; g_authorizations := g_authorizations g;
     g_lastElapsed := lastElapsed; g_clockHealthy := healthy |}.

Definition set_maps (g : Gate) (assignments : gmap string AssignmentIdentity)
    (authorizations : gmap string authorizationRecord) : Gate :=
  set_control g (g_highestDiscoveryEpoch g) (g_currentSessionEpoch g) (g_connection g) (g_connected g)
    assignments authorizations.

(** Advancing the Discovery Epoch is kept even when a later check of the same
    call refuses the connection. *)
Definition AcceptAuthoritativeControl (connection : ControlConnection) : M Gate unit :=
  do! slift (ControlConnection_validate connection) in
  let! g0 := sget in
  do! slift (fail_if (cc_DiscoveryEpoch connection <? g_highestDiscoveryEpoch g0)
               (classified CodeStaleGeneration "control discovery epoch is stale")) in
  let g := if cc_DiscoveryEpoch connection >? g_highestDiscoveryEpoch g0
           then set_control g0 (cc_DiscoveryEpoch connection) (g_currentSessionEpoch g0)
                  (g_connection g0) false (g_assignments g0) ∅
           else g0 in
  do! sput g in
  do! slift (fail_if (cc_SessionEpoch connection <? g_currentSessionEpoch g)
               (classified CodeStaleAssignment "worker session epoch is stale")) in
  if cc_SessionEpoch connection =? g_currentSessionEpoch g then
    let idempotent := g_connected g && (g_connection g == connection) in
    slift (fail_if (negb idempotent)
             (classified CodeStaleAssignment "worker session epoch must increase on reconnect"))
  else
    sput (set_control g (g_highestDiscoveryEpoch g) (cc_SessionEpoch connection) connection true ∅ ∅).

Definition currentWorkerLocked (g : Gate) : WorkerSession :=
  {| ws_WorkerID := wp_WorkerID (g_worker g); ws_BootID := wp_BootID (g_worker g);
     ws_SessionEpoch := g_currentSessionEpoch g |}.

Definition currentControlLocked (g : Gate) (connection : ControlConnection) : bool :=
  g_connected g && (g_connection g == connection)
  && (cc_DiscoveryEpoch connection =? g_highestDiscoveryEpoch g).

Definition CheckAssignment (connection : ControlConnection) (fence : InvocationFence) (g : Gate) : result unit :=
  ControlConnection_validate connection ;;;
  InvocationFence_validate fence ;;;
  fail_if (negb (currentControlLocked g connection)
           || negb (if_DiscoveryEpoch fence =? cc_DiscoveryEpoch connection))
    (classified CodeStaleAssignment "authenticated control connection is unavailable") ;;;
  fail_if (ai_Worker (if_Assignment fence) != currentWorkerLocked g)
    (classified CodeStaleAssignment "assignment targets another worker session").

Definition CheckControl (connection : ControlConnection) (g : Gate) : result unit :=
  ControlConnection_validate connection ;;;
  fail_if (negb (currentControlLocked g connection))
    (classified CodeStaleAssignment "authenticated control connection is unavailable").

Definition DisconnectControl (connection : ControlConnection) (g : Gate) : Gate :=
  if g_connection g == connection then
    set_control g (g_highestDiscoveryEpoch g) (g_currentSessionEpoch g) (g_connection g) false
      (g_assignments g) (g_authorizations g)
  else g.

(** [elapsedLocked], given the reading of the clock. *)
Definition elapsedLocked (now : Z) : M Gate Z :=
  let! g := sget in
  if negb (g_clockHealthy g) || (now <? g_lastElapsed g) then
    do! sput (set_clock g (g_lastElapsed g) false) in
    sthrow (classified CodeStaleAssignment "worker monotonic clock is unhealthy")
  else
    do! sput (set_clock g now (g_clockHealthy g)) in
    sret now.

Definition compatibleRefresh (previous next : AssignmentIdentity) : result unit :=
  fail_if (ai_AssignmentID previous != ai_AssignmentID next)
    (classified CodeStaleAssignment "authorization assignment id changed") ;;;
  let generationChanged :=
    (ai_VersionID previous != ai_VersionID next)
    || negb (ai_AdmissionEpoch previous =? ai_AdmissionEpoch next)
    || negb (ai_DeploymentGeneration previous =? ai_DeploymentGeneration next)
    || (ai_PolicyDigest previous != ai_PolicyDigest next) in
  fail_if generationChanged (classified CodeStaleGeneration "authorization generation identity changed") ;;;
  fail_if (previous != next) (classified CodeStaleAssignment "authorization assignment identity changed").

Definition Install (connection : ControlConnection) (authorization : Authorization) (clock : Z) : M Gate unit :=
  let fence := au_Fence authorization in
  let! g := sget in
  do! slift (Authorization_validate authorization (g_maxTTL g)) in
  do! slift (ControlConnection_validate connection) in
  do! slift (fail_if (negb (currentControlLocked g connection)
                      || negb (if_DiscoveryEpoch fence =? cc_DiscoveryEpoch connection))
               (classified CodeStaleAssignment "authenticated control connection is unavailable")) in
  do! slift (fail_if (ai_Worker (if_Assignment fence) != currentWorkerLocked g)
               (classified CodeStaleAssignment "authorization targets another worker session")) in
  let! now := elapsedLocked clock in
  let! g := sget in
  let identity := if_Assignment fence in
  let assignmentID := ai_AssignmentID identity in
  do! slift (match g_assignments g !! assignmentID with
             | Some previous => compatibleRefresh previous identity
             | None => fail_if (Z.of_nat (size (g_assignments g)) >=? g_maxAuthorizations g)
                         (classified CodeOverloaded "serving authorization capacity is full")
             end) in
  sput (set_maps g (<[assignmentID := identity]> (g_assignments g))
          (<[assignmentID := {| ar_authorization := authorization; ar_connection := connection;
                                ar_receivedAt := now |}]> (g_authorizations g))).

Definition validLocked (g : Gate) (record : authorizationRecord) (now : Z) : bool :=
  let authorization := ar_authorization record in
  if negb (if_DiscoveryEpoch (au_Fence authorization) =? g_highestDiscoveryEpoch g)
     || (now <? ar_receivedAt record) then false
  else if au_Lifetime authorization == LifetimeLiveOnly then currentControlLocked g (ar_connection record)
  else i64 (now - ar_receivedAt record) <? au_TTL authorization.

Definition AuthorizeSync (fence : InvocationFence) (clock : Z) : M Gate unit :=
  let assignmentID := ai_AssignmentID (if_Assignment fence) in
  do! slift (InvocationFence_validate fence) in
  let! g := sget in
  do! slift (fail_if (if_DiscoveryEpoch fence <? g_highestDiscoveryEpoch g)
               (classified CodeStaleAssignment "invocation discovery epoch is stale")) in
  do! slift (fail_if (ai_Mode (if_Assignment fence) != ModeNormal)
               (classified CodeStaleAssignment "assignment does not accept synchronous work")) in
  match g_authorizations g !! assignmentID with
  | None => sthrow (classified CodeStaleAssignment "invocation fence does not match serving authorization")
  | Some record =>
    do! slift (fail_if (au_Fence (ar_authorization record) != fence)
                 (classified CodeStaleAssignment "invocation fence does not match serving authorization")) in
    let! now := elapsedLocked clock in
    let! g := sget in
    if negb (validLocked g record now) then
      do! sput (set_maps g (g_assignments g) (delete assignmentID (g_authorizations g))) in
      sthrow (classified CodeStaleAssignment "serving authorization is no longer valid")
    else sret tt
  end.

Definition Revoke (assignmentID : string) (g : Gate) : Gate :=
  if assignmentID == "" then g
  else set_maps g (delete assignmentID (g_assignments g)) (delete assignmentID (g_authorizations g)).

Definition Snapshot (g : Gate) : GateSnapshot :=
  {| gs_HighestDiscoveryEpoch := g_highestDiscoveryEpoch g; gs_CurrentSessionEpoch := g_currentSessionEpoch g;
     gs_ControlConnected := g_connected g;
     gs_TrackedAssignments := Z.of_nat (size (g_assignments g));
     gs_StoredAuthorizations := Z.of_nat (size (g_authorizations g));
     gs_ClockHealthy := g_clockHealthy g |}.

(** ** Effects *)
Lemma Accept_cases connection g g' r :
  AcceptAuthoritativeControl connection g = (g', r) ->
  let bumped := set_control g (cc_DiscoveryEpoch connection) (g_currentSessionEpoch g)
                  (g_connection g) false (g_assignments g) ∅ in
  (ControlConnection_validate connection <> Ok tt /\ is_ok r = false /\ g' = g) \/
  (cc_DiscoveryEpoch connection < g_highestDiscoveryEpoch g /\ is_ok r = false /\ g' = g) \/
  (cc_DiscoveryEpoch connection = g_highestDiscoveryEpoch g /\
   cc_SessionEpoch connection <= g_currentSessionEpoch g /\ g' = g) \/
  (g_highestDiscoveryEpoch g < cc_DiscoveryEpoch connection /\
   cc_SessionEpoch connection <= g_currentSessionEpoch g /\ is_ok r = false /\ g' = bumped) \/
  (g_highestDiscoveryEpoch g <= cc_DiscoveryEpoch connection /\
   g_currentSessionEpoch g < cc_SessionEpoch connection /\ is_ok r = true /\
   g' = set_control g (cc_DiscoveryEpoch connection) (cc_SessionEpoch connection) connection true ∅ ∅).
Proof.
  unfold AcceptAuthoritativeControl, sbind, slift, sget, sput, sret.
  destruct (ControlConnection_validate connection) as [[]|e]; [|intros [= <- <-]; naive_solver].
  destruct (cc_DiscoveryEpoch connection <? g_highestDiscoveryEpoch g) eqn:E1; simpl; go_cases.
  { intros [= <- <-]. naive_solver. }
  destruct (cc_DiscoveryEpoch connection >? g_highestDiscoveryEpoch g) eqn:E2; simpl; go_cases.
  all: destruct (cc_SessionEpoch connection <? g_currentSessionEpoch g) eqn:E3; simpl; go_cases.
  all: try (intros [= <- <-]; assert (cc_SessionEpoch connection <= g_currentSessionEpoch g) by lia;
            assert (cc_DiscoveryEpoch connection = g_highestDiscoveryEpoch g \/
                    g_highestDiscoveryEpoch g < cc_DiscoveryEpoch connection) by lia; naive_solver lia).
  all: destruct (cc_SessionEpoch connection =? g_currentSessionEpoch g) eqn:E4; simpl; go_cases.
  - intros [= <- <-]. right; right; right; left. split_and!; [lia|lia|done|done].
  - intros [= <- <-]. right; right; right; right. split_and!; [lia|lia|done|done].
  - intros [= <- <-]. right; right; left. split_and!; [lia|lia|done].
  - intros [= <- <-]. right; right; right; right. split_and!; [lia|lia|done|].
    assert (cc_DiscoveryEpoch connection = g_highestDiscoveryEpoch g) as -> by lia. done.
Qed.

Lemma elapsedLocked_cases now g g' r :
  elapsedLocked now g = (g', r) ->
  (is_ok r = false /\ g' = set_clock g (g_lastElapsed g) false) \/
  (r = Ok now /\ g_clockHealthy g = true /\ g_lastElapsed g <= now /\ g' = set_clock g now true).
Proof.
  unfold elapsedLocked, sbind, sget, sput, sret, sthrow.
  destruct (g_clockHealthy g) eqn:E; simpl; [|intros [= <- <-]; by left].
  destruct (now <? g_lastElapsed g) eqn:E1; simpl; intros [= <- <-]; go_cases; [by left|].
  right. split_and!; [done|done|lia|done].
Qed.

(** The gate after a successful [Install]. *)
Definition installed (g : Gate) (connection : ControlConnection) (authorization : Authorization) (now : Z) : Gate :=
  let identity := if_Assignment (au_Fence authorization) in
  set_maps (set_clock g now true)
    (<[ai_AssignmentID identity := identity]> (g_assignments g))
    (<[ai_AssignmentID identity := {| ar_authorization := authorization; ar_connection := connection;
                                      ar_receivedAt := now |}]> (g_authorizations g)).

Record installs (g : Gate) (connection : ControlConnection) (authorization : Authorization) (now : Z) : Prop := {
  in_valid : Authorization_validate authorization (g_maxTTL g) = Ok tt;
  in_connected : g_connected g = true;
  in_connection : g_connection g = connection;
  in_discovery : cc_DiscoveryEpoch connection = g_highestDiscoveryEpoch g;
  in_fence : if_DiscoveryEpoch (au_Fence authorization) = cc_DiscoveryEpoch connection;
  in_worker : ai_Worker (if_Assignment (au_Fence authorization)) = currentWorkerLocked g;
  in_healthy : g_clockHealthy g = true;
  in_clock : g_lastElapsed g <= now;
  in_identity : match g_assignments g !! ai_AssignmentID (if_Assignment (au_Fence authorization)) with
                | Some previous => previous = if_Assignment (au_Fence authorization)
                | None => Z.of_nat (size (g_assignments g)) < g_maxAuthorizations g
                end;
}.

Lemma compatibleRefresh_Ok previous next : compatibleRefresh previous next = Ok tt -> previous = next.
Proof. unfold compatibleRefresh. intros H. ok_inv. done. Qed.

Lemma Install_cases connection authorization now g g' r :
  Install connection authorization now g = (g', r) ->
  (is_ok r = false /\ g' = g) \/
  (is_ok r = false /\ g' = set_clock g (g_lastElapsed g) false) \/
  (is_ok r = false /\ g_clockHealthy g = true /\ g_lastElapsed g <= now /\ g' = set_clock g now true) \/
  (r = Ok tt /\ installs g connection authorization now /\ g' = installed g connection authorization now).
Proof.
  unfold Install, sbind, slift, sget at 1, sput. cbn beta iota.
  destruct (Authorization_validate authorization (g_maxTTL g)) as [[]|e] eqn:Ha; [|intros [= <- <-]; by left].
  destruct (ControlConnection_validate connection) as [[]|e]; [|intros [= <- <-]; by left].
  destruct (fail_if _ _) as [[]|e] eqn:Hc; [|intros [= <- <-]; by left].
  destruct (fail_if (ai_Worker _ != _) _) as [[]|e] eqn:Hw; [|intros [= <- <-]; by left].
  destruct (elapsedLocked now g) as [g1 r1] eqn:He.
  apply elapsedLocked_cases in He as [[Hr ->]|(-> & Hh & Hn & ->)];
    [destruct r1; [done|]; intros [= <- <-]; naive_solver|].
  simpl. destruct (match g_assignments g !! _ with Some p => compatibleRefresh p _ | None => _ end)
    as [[]|e] eqn:Hid; intros [= <- <-]; [|naive_solver].
  right; right; right. split; [done|]. split; [|done]. unfold currentControlLocked in Hc. ok_inv.
  split; try done; try lia.
  destruct (g_assignments g !! _); [by apply compatibleRefresh_Ok|]. ok_inv. lia.
Qed.

(** What a successful [AuthorizeSync] has checked. *)
Record authorizes (g : Gate) (fence : InvocationFence) (now : Z) (record : authorizationRecord) : Prop := {
  au_valid : InvocationFence_validate fence = Ok tt;
  au_mode : ai_Mode (if_Assignment fence) = ModeNormal;
  au_record : g_authorizations g !! ai_AssignmentID (if_Assignment fence) = Some record;
  au_match : au_Fence (ar_authorization record) = fence;
  au_healthy : g_clockHealthy g = true;
  au_clock : g_lastElapsed g <= now;
  au_live : validLocked g record now = true;
}.

Lemma validLocked_clock g record now last healthy :
  validLocked (set_clock g last healthy) record now = validLocked g record now.
Proof. done. Qed.

Lemma AuthorizeSync_cases fence now g g' r :
  AuthorizeSync fence now g = (g', r) ->
  (is_ok r = false /\ g' = g) \/
  (is_ok r = false /\ g' = set_clock g (g_lastElapsed g) false) \/
  (is_ok r = false /\ g_clockHealthy g = true /\ g_lastElapsed g <= now /\
   g' = set_maps (set_clock g now true) (g_assignments g)
          (delete (ai_AssignmentID (if_Assignment fence)) (g_authorizations g))) \/
  (r = Ok tt /\ (exists record, authorizes g fence now record) /\ g' = set_clock g now true).
Proof.
  unfold AuthorizeSync, sbind, slift, sget at 1. cbn beta iota.
  destruct (InvocationFence_validate fence) as [[]|e] eqn:Hv; [|intros [= <- <-]; by left].
  destruct (fail_if (_ <? _) _) as [[]|e] eqn:Hd; [|intros [= <- <-]; by left].
  destruct (fail_if (ai_Mode _ != _) _) as [[]|e] eqn:Hm; [|intros [= <- <-]; by left].
  destruct (g_authorizations g !! _) as [record|] eqn:Hrec; [|intros [= <- <-]; by left].
  destruct (fail_if (au_Fence _ != _) _) as [[]|e] eqn:Hf; [|intros [= <- <-]; by left].
  destruct (elapsedLocked now g) as [g1 r1] eqn:He.
  apply elapsedLocked_cases in He as [[Hr ->]|(-> & Hh & Hn & ->)];
    [destruct r1; [done|]; intros [= <- <-]; naive_solver|].
  unfold sget. rewrite validLocked_clock. destruct (validLocked g record now) eqn:Hl; simpl; intros [= <- <-].
  - right; right; right. ok_inv. split; [done|]. split; [|done]. exists record. by split.
  - right; right; left. done.
Qed.

(** ** Histories

    Every method holds the gate's mutex, so that any concurrent use is some
    sequence of these calls; each call runs whatever it returns. *)
Inductive gate_op :=
| OpAccept (connection : ControlConnection)
| OpDisconnect (connection : ControlConnection)
| OpInstall (connection : ControlConnection) (authorization : Authorization) (now : Z)
| OpAuthorize (fence : InvocationFence) (now : Z)
| OpRevoke (assignmentID : string).

Definition gate_step (g : Gate) (op : gate_op) : Gate :=
  match op with
  | OpAccept connection => fst (AcceptAuthoritativeControl connection g)
  | OpDisconnect connection => DisconnectControl connection g
  | OpInstall connection authorization now => fst (Install connection authorization now g)
  | OpAuthorize fence now => fst (AuthorizeSync fence now g)
  | OpRevoke assignmentID => Revoke assignmentID g
  end.

Definition gate_run (g : Gate) (ops : list gate_op) : Gate := foldl gate_step g ops.

Lemma gate_run_app g ops1 ops2 : gate_run g (ops1 ++ ops2) = gate_run (gate_run g ops1) ops2.
Proof. apply foldl_app. Qed.

(** ** Invariant *)
Record record_ok (g : Gate) (id : string) (record : authorizationRecord) : Prop := {
  rk_valid : Authorization_validate (ar_authorization record) (g_maxTTL g) = Ok tt;
  rk_identity : g_assignments g !! id = Some (if_Assignment (au_Fence (ar_authorization record)));
  rk_discovery : if_DiscoveryEpoch (au_Fence (ar_authorization record)) = g_highestDiscoveryEpoch g;
  rk_connection : ar_connection record = g_connection g;
  rk_epoch : cc_DiscoveryEpoch (ar_connection record) = g_highestDiscoveryEpoch g;
  rk_received : 0 <= ar_receivedAt record <= g_lastElapsed g;
}.

Record gate_inv (g : Gate) : Prop := {
  gi_record : forall id record, g_authorizations g !! id = Some record -> record_ok g id record;
  gi_assignment : forall id identity, g_assignments g !! id = Some identity ->
    ai_AssignmentID identity = id /\ ai_Worker identity = currentWorkerLocked g;
  gi_capacity : Z.of_nat (size (g_assignments g)) <= g_maxAuthorizations g;
  gi_control : g_connected g = true ->
    cc_SessionEpoch (g_connection g) = g_currentSessionEpoch g /\
    cc_DiscoveryEpoch (g_connection g) = g_highestDiscoveryEpoch g;
  gi_elapsed : 0 <= g_lastElapsed g;
}.

Lemma New_gate_inv config elapsed g : New config elapsed = Ok g -> gate_inv g.
Proof.
  unfold New. intros H. ok_inv. subst g. split; simpl; try done.
  rewrite map_size_empty. lia.
Qed.

Lemma set_clock_inv g now healthy :
  gate_inv g -> g_lastElapsed g <= now -> gate_inv (set_clock g now healthy).
Proof.
  intros Hg Hn. split; simpl; try apply Hg; [|pose proof (gi_elapsed _ Hg); lia].
  intros id record Hr. destruct (gi_record _ Hg _ _ Hr). split; simpl; try done. lia.
Qed.

Lemma set_clock_inv_same g healthy : gate_inv g -> gate_inv (set_clock g (g_lastElapsed g) healthy).
Proof. intros Hg. apply set_clock_inv; [done|lia]. Qed.

Lemma set_maps_delete_inv g id :
  gate_inv g -> gate_inv (set_maps g (g_assignments g) (delete id (g_authorizations g))).
Proof.
  intros Hg. split; simpl; try apply Hg. intros id' record (_ & Hr)%lookup_delete_Some.
  destruct (gi_record _ Hg _ _ Hr). by split.
Qed.

#[local] Hint Resolve set_clock_inv set_clock_inv_same set_maps_delete_inv : go.

Lemma Accept_inv connection g : gate_inv g -> gate_inv (fst (AcceptAuthoritativeControl connection g)).
Proof.
  intros Hg. destruct (AcceptAuthoritativeControl connection g) as [g' r] eqn:E. simpl.
  apply Accept_cases in E as [(_ & _ & ->)|[(_ & _ & ->)|[(_ & _ & ->)|[(_ & _ & _ & ->)|(_ & _ & _ & ->)]]]];
    try done; split; simpl; try done; try apply Hg. rewrite map_size_empty. pose proof (gi_capacity _ Hg). lia.
Qed.

Lemma Install_gate_inv connection authorization now g :
  gate_inv g -> gate_inv (fst (Install connection authorization now g)).
Proof.
  intros Hg. destruct (Install connection authorization now g) as [g' r] eqn:E. simpl.
  apply Install_cases in E as [[_ ->]|[[_ ->]|[(_ & _ & ? & ->)|(_ & Hin & ->)]]]; [eauto with go..|].
  pose proof (gi_elapsed _ Hg). pose proof (in_clock _ _ _ _ Hin). pose proof (in_identity _ _ _ _ Hin) as Hid.
  set (identity := if_Assignment (au_Fence authorization)) in *. split; simpl.
  - intros id record. rewrite lookup_insert. case_decide; [|].
    + intros [= <-]. subst id. destruct Hin. split; simpl; try done; [|congruence..|lia].
      by rewrite lookup_insert_eq.
    + intros Hr. destruct (gi_record _ Hg _ _ Hr). split; simpl; try done; [|lia]. by rewrite lookup_insert_ne.
  - intros id a. rewrite lookup_insert. case_decide; [|apply Hg]. intros [= <-]. split; [done|apply Hin].
  - pose proof (gi_capacity _ Hg). destruct (g_assignments g !! _) eqn:El.
    + by rewrite map_size_insert_Some by eauto.
    + rewrite map_size_insert_None by done. lia.
  - intros Hc. apply Hg. done.
  - lia.
Qed.

Lemma gate_step_inv g op : gate_inv g -> gate_inv (gate_step g op).
Proof.
  intros Hg. destruct op as [c|c|c a now|f now|id]; simpl.
  - by apply Accept_inv.
  - unfold DisconnectControl. case_match; [|done]. split; simpl; try apply Hg; [|done].
    intros id record Hr. destruct (gi_record _ Hg _ _ Hr). by split.
  - by apply Install_gate_inv.
  - destruct (AuthorizeSync f now g) as [g' r] eqn:E. simpl.
    apply AuthorizeSync_cases in E as [[_ ->]|[[_ ->]|[(_ & _ & ? & ->)|(_ & [record []] & ->)]]]; eauto with go.
    apply (set_maps_delete_inv (set_clock g now true)). eauto with go.
  - unfold Revoke. case_match; [done|]. split; simpl; try apply Hg.
    + intros id' record (Hne & Hr)%lookup_delete_Some. destruct (gi_record _ Hg _ _ Hr).
      split; simpl; try done. by rewrite lookup_delete_ne.
    + intros id' a (_ & Ha)%lookup_delete_Some. by apply Hg.
    + pose proof (gi_capacity _ Hg). rewrite map_size_delete. case_match; simpl; lia.
Qed.

Lemma gate_run_inv g ops : gate_inv g -> gate_inv (gate_run g ops).
Proof. revert g. induction ops; intros g Hg; simpl; [done|]. by apply IHops, gate_step_inv. Qed.

(** The two epochs never move backwards. *)
Lemma gate_step_epochs g op :
  g_highestDiscoveryEpoch g <= g_highestDiscoveryEpoch (gate_step g op) /\
  g_currentSessionEpoch g <= g_currentSessionEpoch (gate_step g op).
Proof.
  destruct op as [c|c|c a now|f now|id]; simpl.
  - destruct (AcceptAuthoritativeControl c g) as [g' r] eqn:E. simpl. apply Accept_cases in E. naive_solver lia.
  - unfold DisconnectControl. case_match; simpl; lia.
  - destruct (Install c a now g) as [g' r] eqn:E. simpl. apply Install_cases in E.
    destruct E as [[_ ->]|[[_ ->]|[(_ & _ & _ & ->)|(_ & _ & ->)]]]; simpl; lia.
  - destruct (AuthorizeSync f now g) as [g' r] eqn:E. simpl. apply AuthorizeSync_cases in E.
    destruct E as [[_ ->]|[[_ ->]|[(_ & _ & _ & ->)|(_ & _ & ->)]]]; simpl; lia.
  - unfold Revoke. case_match; simpl; lia.
Qed.

Lemma gate_run_epochs g ops :
  g_highestDiscoveryEpoch g <= g_highestDiscoveryEpoch (gate_run g ops) /\
  g_currentSessionEpoch g <= g_currentSessionEpoch (gate_run g ops).
Proof.
  revert g. induction ops as [|op ops IH]; intros g; simpl; [lia|].
  pose proof (gate_step_epochs g op). pose proof (IH (gate_step g op)). lia.
Qed.

Lemma gate_step_config g op : g_worker (gate_step g op) = g_worker g /\ g_maxTTL (gate_step g op) = g_maxTTL g.
Proof.
  destruct op as [c|c|c a now|f now|id]; simpl.
  - destruct (AcceptAuthoritativeControl c g) as [g' r] eqn:E. simpl. apply Accept_cases in E. naive_solver.
  - unfold DisconnectControl. by case_match.
  - destruct (Install c a now g) as [g' r] eqn:E. simpl. apply Install_cases in E. naive_solver.
  - destruct (AuthorizeSync f now g) as [g' r] eqn:E. simpl. apply AuthorizeSync_cases in E. naive_solver.
  - unfold Revoke. by case_match.
Qed.

(** ** Provenance of a stored authorization *)

(** An operation that leaves an authorization for [fence] standing. *)
Definition harmless (fence : InvocationFence) (op : gate_op) : Prop :=
  match op with
  | OpAccept c => ControlConnection_validate c = Ok tt ->
      cc_DiscoveryEpoch c <= if_DiscoveryEpoch fence /\
      (cc_DiscoveryEpoch c = if_DiscoveryEpoch fence ->
       cc_SessionEpoch c <= ws_SessionEpoch (ai_Worker (if_Assignment fence)))
  | OpRevoke id => id <> ai_AssignmentID (if_Assignment fence)
  | _ => True
  end.

(** The record stored for [id] was written by an accepted [Install] of the
    history, and nothing since has withdrawn it. *)
Definition granted (g0 : Gate) (ops : list gate_op) (record : authorizationRecord) : Prop :=
  exists before after connection authorization now,
    ops = before ++ OpInstall connection authorization now :: after /\
    snd (Install connection authorization now (gate_run g0 before)) = Ok tt /\
    record = {| ar_authorization := authorization; ar_connection := connection; ar_receivedAt := now |} /\
    Forall (harmless (au_Fence authorization)) after.

Lemma granted_snoc g0 ops op record :
  granted g0 ops record -> harmless (au_Fence (ar_authorization record)) op ->
  granted g0 (ops ++ [op]) record.
Proof.
  intros (before & after & c & a & now & -> & Hok & -> & Hall) Hop.
  exists before, (after ++ [op]), c, a, now. rewrite <-app_assoc. split_and!; [done..|].
  by apply Forall_app_2; [|constructor].
Qed.

(** A record present after one more call was there before and the call is
    harmless to it, or the call is the [Install] that wrote it. *)
Lemma gate_step_record g op id record :
  gate_inv g -> g_authorizations (gate_step g op) !! id = Some record ->
  (g_authorizations g !! id = Some record /\ harmless (au_Fence (ar_authorization record)) op) \/
  (exists c a now, op = OpInstall c a now /\ snd (Install c a now g) = Ok tt /\
     record = {| ar_authorization := a; ar_connection := c; ar_receivedAt := now |}).
Proof.
  intros Hg. destruct op as [c|c|c a now|f now|id']; simpl.
  - destruct (AcceptAuthoritativeControl c g) as [g' r] eqn:E. simpl. apply Accept_cases in E.
    intros Hr. destruct E as [(Hv & _ & ->)|[(Hd & _ & ->)|[(Hd & Hs & ->)|[(_ & _ & _ & ->)|(_ & _ & _ & ->)]]]];
      [|..|done|done]; left; (split; [done|]); [done|..].
    all: pose proof (rk_discovery _ _ _ (gi_record _ Hg _ _ Hr)) as Hdisc; rewrite Hdisc; intros _.
    + lia.
    + destruct (gi_assignment _ Hg _ _ (rk_identity _ _ _ (gi_record _ Hg _ _ Hr))) as [_ Hw].
      rewrite Hw. simpl. lia.
  - unfold DisconnectControl. intros Hr. left. split; [by case_match|done].
  - destruct (Install c a now g) as [g' r] eqn:E. simpl. pose proof E as Hcases.
    apply Install_cases in Hcases as [[_ ->]|[[_ ->]|[(_ & _ & _ & ->)|(-> & _ & ->)]]]; simpl; [by left..|].
    rewrite lookup_insert. case_decide; [|by left].
    intros [= <-]. right. exists c, a, now. by rewrite E.
  - destruct (AuthorizeSync f now g) as [g' r] eqn:E. simpl.
    apply AuthorizeSync_cases in E as [[_ ->]|[[_ ->]|[(_ & _ & _ & ->)|(_ & _ & ->)]]]; simpl; [by left..| |by left].
    intros (_ & Hr)%lookup_delete_Some. by left.
  - unfold Revoke. case_bool_decide as Eid; simpl.
    + intros Hr. left. split; [done|]. pose proof (rk_valid _ _ _ (gi_record _ Hg _ _ Hr)) as Hv.
      unfold Authorization_validate, InvocationFence_validate, AssignmentIdentity_validate in Hv.
      apply rbind_Ok in Hv as ([] & Hv & _). ok_inv. simpl. intros E2. subst id'.
      by rewrite <-E2 in *.
    + intros (Hne & Hr)%lookup_delete_Some. left. split; [done|].
      destruct (gi_assignment _ Hg _ _ (rk_identity _ _ _ (gi_record _ Hg _ _ Hr))) as [Eid' _].
      simpl. congruence.
Qed.

Lemma record_granted g0 ops id record :
  gate_inv g0 -> g_authorizations g0 = ∅ ->
  g_authorizations (gate_run g0 ops) !! id = Some record -> granted g0 ops record.
Proof.
  intros Hg0 Hempty. revert id record. induction ops as [|op ops IH] using rev_ind; intros id record.
  { simpl. by rewrite Hempty. }
  rewrite gate_run_app. simpl. intros Hr.
  apply gate_step_record in Hr as [[Hr Hh]|(c & a & now & -> & Hok & ->)]; [|..|by apply gate_run_inv].
  - by eapply granted_snoc; [eapply IH|].
  - by exists ops, [], c, a, now.
Qed.

(** Clock readings are [time.Duration] values. *)
Definition is_i64 (x : Z) : Prop := - 2 ^ 63 <= x < 2 ^ 63.

Lemma validLocked_spec g id record now :
  gate_inv g -> g_authorizations g !! id = Some record -> g_lastElapsed g <= now -> is_i64 now ->
  validLocked g record now
  = if au_Lifetime (ar_authorization record) == LifetimeLiveOnly then g_connected g
    else now - ar_receivedAt record <? au_TTL (ar_authorization record).
Proof.
  intros Hg Hr Hn Hi. destruct (gi_record _ Hg _ _ Hr) as [_ _ Hd Hc He Hrec].
  unfold validLocked. rewrite Hd, Z.eqb_refl, (proj2 (Z.ltb_ge _ _)) by lia. simpl.
  assert (currentControlLocked g (ar_connection record) = g_connected g) as ->.
  { unfold currentControlLocked. rewrite bool_decide_eq_true_2 by congruence.
    by rewrite He, Z.eqb_refl, !andb_true_r. }
  case_match; [done|]. f_equal. unfold i64, is_i64 in *. rewrite Z.mod_small; lia.
Qed.

(** C3: The gate authorizes a synchronous invocation only on the strength of
    an authorization it was really given.  If AuthorizeSync accepts a fence
    after any sequence of calls on a new gate, then some earlier Install in
    that sequence was accepted with exactly this fence, at a clock reading not
    after this one; since then the Assignment has not been revoked and no
    valid connection with a newer Discovery Epoch, or the same one and a newer
    session, was presented; the fence names this gate's Worker and boot in
    normal mode; a TTL authorization is younger than its TTL, and a live-only
    one still has its own control connection. *)
Theorem AuthorizeSync_sound config elapsed g0 ops fence now :
  New config elapsed = Ok g0 -> is_i64 now ->
  snd (AuthorizeSync fence now (gate_run g0 ops)) = Ok tt ->
  exists before after connection authorization received,
    ops = before ++ OpInstall connection authorization received :: after /\
    snd (Install connection authorization received (gate_run g0 before)) = Ok tt /\
    au_Fence authorization = fence /\ received <= now /\
    Forall (harmless fence) after /\
    ws_WorkerID (ai_Worker (if_Assignment fence)) = wp_WorkerID (cfg_Worker config) /\
    ws_BootID (ai_Worker (if_Assignment fence)) = wp_BootID (cfg_Worker config) /\
    ai_Mode (if_Assignment fence) = ModeNormal /\
    ((au_Lifetime authorization = LifetimeTTL /\ now - received < au_TTL authorization) \/
     (au_Lifetime authorization = LifetimeLiveOnly /\
      currentControlLocked (gate_run g0 ops) connection = true)).
Proof.
  intros Hnew Hi Hauth. pose proof (New_gate_inv _ _ _ Hnew) as Hg0.
  assert (g_authorizations g0 = ∅ /\ g_worker g0 = cfg_Worker config) as [Hempty Hworker].
  { unfold New in Hnew. ok_inv. by subst g0. }
  pose proof (gate_run_inv g0 ops Hg0) as Hg.
  assert (g_worker (gate_run g0 ops) = g_worker g0) as Hw.
  { clear. revert g0. induction ops as [|op ops IH]; intros g0; simpl; [done|].
    rewrite IH. apply gate_step_config. }
  destruct (AuthorizeSync fence now (gate_run g0 ops)) as [g' r] eqn:E. simpl in Hauth. subst r.
  apply AuthorizeSync_cases in E as [[? _]|[[? _]|[(? & _)|(_ & (record & Ha) & _)]]]; [done..|].
  destruct Ha as [Hval Hmode Hrec Hmatch _ Hclock Hlive].
  pose proof (gi_record _ Hg _ _ Hrec) as Hok.
  destruct (gi_assignment _ Hg _ _ (rk_identity _ _ _ Hok)) as [_ Hwk]. rewrite Hmatch in Hwk.
  rewrite (validLocked_spec _ _ _ _ Hg Hrec Hclock Hi) in Hlive.
  pose proof (rk_received _ _ _ Hok). pose proof (rk_valid _ _ _ Hok) as Hv.
  pose proof (rk_connection _ _ _ Hok) as Hconn. pose proof (rk_epoch _ _ _ Hok) as Hep.
  destruct (record_granted g0 ops _ record Hg0 Hempty Hrec)
    as (before & after & c & a & t & Hops & Hinst & -> & Hall). simpl in *. subst fence.
  exists before, after, c, a, t. rewrite Hwk. simpl. rewrite Hw, Hworker. split_and!; try done; [lia|].
  unfold Authorization_validate in Hv. apply rbind_Ok in Hv as (_ & _ & Hv).
  destruct (decide (au_Lifetime a = LifetimeLiveOnly)) as [El|El].
  - right. split; [done|]. rewrite bool_decide_eq_true_2 in Hlive by done. unfold currentControlLocked.
    by rewrite Hlive, Hep, Z.eqb_refl, bool_decide_eq_true_2.
  - left. rewrite bool_decide_eq_false_2 in Hlive by done. go_cases. split; [|lia].
    rewrite (bool_decide_eq_false_2 (_ = LifetimeLiveOnly)) in Hv by done. by case_bool_decide.
Qed.

(** A TTL authorization expires exactly at its TTL.  After Install accepts
    a normal-mode TTL authorization at some clock reading, an AuthorizeSync
    with its fence succeeds at every reading from then until the TTL has
    elapsed, even if the control connection is closed meanwhile, and is
    refused at every later reading. *)
Theorem ttl_exact_expiry g connection authorization received now closed :
  gate_inv g -> snd (Install connection authorization received g) = Ok tt ->
  au_Lifetime authorization = LifetimeTTL ->
  ai_Mode (if_Assignment (au_Fence authorization)) = ModeNormal ->
  received <= now -> is_i64 now ->
  let g' := DisconnectControl closed (fst (Install connection authorization received g)) in
  is_ok (snd (AuthorizeSync (au_Fence authorization) now g')) = (now - received <? au_TTL authorization).
Proof.
  intros Hg Hok Hlife Hmode Hle Hi. pose proof (Install_gate_inv connection authorization received g Hg) as Hg1.
  destruct (Install connection authorization received g) as [g1 r] eqn:E. simpl in *. subst r.
  apply Install_cases in E as [[? _]|[[? _]|[(? & _)|(_ & Hin & ->)]]]; [done..|].
  set (g1 := installed g connection authorization received) in *.
  set (record := {| ar_authorization := authorization; ar_connection := connection; ar_receivedAt := received |}).
  assert (gate_inv (DisconnectControl closed g1)) as Hg2 by exact (gate_step_inv g1 (OpDisconnect closed) Hg1).
  assert (g_authorizations (DisconnectControl closed g1) !! ai_AssignmentID (if_Assignment (au_Fence authorization))
    = Some record /\ g_highestDiscoveryEpoch (DisconnectControl closed g1) = g_highestDiscoveryEpoch g /\
    g_clockHealthy (DisconnectControl closed g1) = true /\ g_lastElapsed (DisconnectControl closed g1) = received)
    as (Hrec & Hhigh & Hheal & Hlast).
  { unfold DisconnectControl. case_match; simpl; by rewrite lookup_insert_eq. }
  assert (InvocationFence_validate (au_Fence authorization) = Ok tt) as Hval.
  { pose proof (in_valid _ _ _ _ Hin) as Hv. by apply rbind_Ok in Hv as ([] & ? & _). }
  unfold AuthorizeSync, sbind, slift, sget at 1. cbn beta iota. rewrite Hval. cbn beta iota.
  rewrite Hhigh, (in_fence _ _ _ _ Hin), (in_discovery _ _ _ _ Hin), Z.ltb_irrefl. cbn [fail_if].
  rewrite Hmode, bool_decide_eq_true_2 by done. cbn [negb fail_if]. rewrite Hrec. cbn [ar_authorization record].
  rewrite bool_decide_eq_true_2 by done. cbn [negb fail_if].
  unfold elapsedLocked, sbind, sget, sput, sret. rewrite Hheal, Hlast, (proj2 (Z.ltb_ge _ _)) by lia. simpl.
  rewrite validLocked_clock, (validLocked_spec _ _ _ _ Hg2 Hrec) by (done || lia).
  simpl. rewrite Hlife. simpl. by destruct (now - received <? au_TTL authorization).
Qed.

(** Fencing is permanent: the two epochs the gate has seen never decrease
    under any sequence of calls, so a fence from an older Discovery Epoch or
    for an older session of this Worker is refused for ever, and so is every
    fence once the clock has been seen to run backwards. *)
Theorem stale_fence_refused_forever g ops fence now :
  gate_inv g ->
  if_DiscoveryEpoch fence < g_highestDiscoveryEpoch g \/
  ws_SessionEpoch (ai_Worker (if_Assignment fence)) < g_currentSessionEpoch g \/
  g_clockHealthy g = false ->
  is_ok (snd (AuthorizeSync fence now (gate_run g ops))) = false.
Proof.
  intros Hg Hstale. pose proof (gate_run_inv g ops Hg) as Hg'. pose proof (gate_run_epochs g ops) as [Hd Hs].
  assert (g_clockHealthy g = false -> g_clockHealthy (gate_run g ops) = false) as Hh.
  { clear. revert g. induction ops as [|op ops IH]; intros g Hc; simpl; [done|]. apply IH.
    destruct op as [c|c|c a t|f t|id]; simpl.
    - destruct (AcceptAuthoritativeControl c g) as [g' r] eqn:E. apply Accept_cases in E. naive_solver.
    - unfold DisconnectControl. by case_match.
    - destruct (Install c a t g) as [g' r] eqn:E. apply Install_cases in E.
      destruct E as [[_ ->]|[[_ ->]|[(_ & ? & _)|(_ & [] & _)]]]; simpl; congruence.
    - destruct (AuthorizeSync f t g) as [g' r] eqn:E. apply AuthorizeSync_cases in E.
      destruct E as [[_ ->]|[[_ ->]|[(_ & ? & _)|(_ & [record []] & _)]]]; simpl; congruence.
    - unfold Revoke. by case_match. }
  destruct (AuthorizeSync fence now (gate_run g ops)) as [g' r] eqn:E. simpl.
  apply AuthorizeSync_cases in E as [[? _]|[[? _]|[(? & _)|(_ & (record & Ha) & _)]]]; [done..|]. exfalso.
  pose proof (gi_record _ Hg' _ _ (au_record _ _ _ _ Ha)) as Hok.
  pose proof (rk_discovery _ _ _ Hok) as Hdisc.
  destruct (gi_assignment _ Hg' _ _ (rk_identity _ _ _ Hok)) as [_ Hw].
  rewrite (au_match _ _ _ _ Ha) in *. rewrite Hw in Hstale. simpl in Hstale.
  pose proof (au_healthy _ _ _ _ Ha). destruct Hstale as [?|[?|?]]; [lia|lia|]. specialize (Hh H0). congruence.
Qed.

(** The gate's bookkeeping stays bounded and consistent under every
    sequence of calls: at most the configured number of Assignments is
    tracked, every stored authorization belongs to a tracked Assignment of the
    current Worker session and to the highest Discovery Epoch, and an open
    control connection carries the current epochs. *)
Theorem gate_bookkeeping config elapsed g0 ops :
  New config elapsed = Ok g0 -> gate_inv (gate_run g0 ops) /\
  gs_StoredAuthorizations (Snapshot (gate_run g0 ops)) <= gs_TrackedAssignments (Snapshot (gate_run g0 ops))
    <= g_maxAuthorizations (gate_run g0 ops).
Proof.
  intros Hnew%New_gate_inv. pose proof (gate_run_inv g0 ops Hnew) as Hg. split; [done|]. split; [|apply Hg]. simpl.
  rewrite <-!(size_dom (D:=gset string)). apply inj_le, subseteq_size. intros id Hid.
  apply elem_of_dom in Hid as [record Hr]. apply elem_of_dom. eexists. apply (rk_identity _ _ _ (gi_record _ Hg _ _ Hr)).
Qed.

(** ** Witnesses *)
Definition ex_process : WorkerProcess := {| wp_WorkerID := "worker-1"; wp_BootID := "boot-1" |}.
Definition ex_config : Config := {| cfg_Worker := ex_process; cfg_MaxTTL := 0; cfg_MaxAuthorizations := 0 |}.
Definition ex_gate : Gate :=
  Eval vm_compute in
  match New ex_config 100 with
  | Ok g => g
  | Err _ => {| g_worker := ex_process; g_maxTTL := 0; g_maxAuthorizations := 0; g_highestDiscoveryEpoch := 0;
                g_currentSessionEpoch := 0;
                g_connection := {| cc_ConnectionID := ""; cc_SessionEpoch := 0; cc_DiscoveryEpoch := 0 |};
                g_connected := false; g_assignments := ∅; g_authorizations := ∅;
                g_lastElapsed := 0; g_clockHealthy := false |}
  end.
Definition ex_connection (session discovery : Z) : ControlConnection :=
  {| cc_ConnectionID := "control-1"; cc_SessionEpoch := session; cc_DiscoveryEpoch := discovery |}.
Definition ex_fence : InvocationFence :=
  {| if_Assignment := {| ai_Worker := {| ws_WorkerID := "worker-1"; ws_BootID := "boot-1"; ws_SessionEpoch := 1 |};
       ai_AssignmentID := "assignment-1"; ai_VersionID := "ver_1"; ai_AdmissionEpoch := 1;
       ai_DeploymentGeneration := 1; ai_PolicyDigest := Sum "policy"; ai_Mode := ModeNormal |};
     if_DiscoveryEpoch := 10 |}.
Definition ex_ttl : Authorization :=
  {| au_Fence := ex_fence; au_Lifetime := LifetimeTTL; au_TTL := minute |}.
Definition ex_ops : list gate_op := [OpAccept (ex_connection 1 10); OpInstall (ex_connection 1 10) ex_ttl 200].

Lemma ex_gate_new : New ex_config 100 = Ok ex_gate.
Proof. by vm_compute. Qed.

Lemma ex_accepted_inv : gate_inv (gate_run ex_gate [OpAccept (ex_connection 1 10)]).
Proof. apply gate_run_inv. eapply New_gate_inv, ex_gate_new. Qed.

Lemma AuthorizeSync_sound_witness :
  exists before after connection authorization received,
    ex_ops = before ++ OpInstall connection authorization received :: after /\
    au_Fence authorization = ex_fence /\ received <= 300.
Proof.
  destruct (AuthorizeSync_sound ex_config 100 ex_gate ex_ops ex_fence 300 ex_gate_new)
    as (b & a & c & au & t & H1 & _ & H2 & H3 & _); [unfold is_i64; lia|by vm_compute|].
  exists b, a, c, au, t. split; [exact H1|]. split; [exact H2|exact H3].
Defined.

Lemma ttl_exact_expiry_witness :
  let g' := DisconnectControl (ex_connection 1 10) (fst (Install (ex_connection 1 10) ex_ttl 200
              (gate_run ex_gate [OpAccept (ex_connection 1 10)]))) in
  is_ok (snd (AuthorizeSync ex_fence (199 + minute) g')) = true /\
  is_ok (snd (AuthorizeSync ex_fence (200 + minute) g')) = false.
Proof.
  split.
  - refine (eq_trans (ttl_exact_expiry _ (ex_connection 1 10) ex_ttl 200 (199 + minute) (ex_connection 1 10)
      ex_accepted_inv _ _ _ _ _) _); [by vm_compute|done|done|by vm_compute|by vm_compute|by vm_compute].
  - refine (eq_trans (ttl_exact_expiry _ (ex_connection 1 10) ex_ttl 200 (200 + minute) (ex_connection 1 10)
      ex_accepted_inv _ _ _ _ _) _); [by vm_compute|done|done|by vm_compute|by vm_compute|by vm_compute].
Defined.

Lemma stale_fence_refused_forever_witness :
  is_ok (snd (AuthorizeSync ex_fence 300
    (gate_run (gate_run ex_gate (ex_ops ++ [OpAccept (ex_connection 2 11)])) ex_ops))) = false.
Proof.
  apply stale_fence_refused_forever; [apply gate_run_inv; eapply New_gate_inv, ex_gate_new|].
  left. by vm_compute.
Defined.

Lemma gate_bookkeeping_witness :
  gs_StoredAuthorizations (Snapshot (gate_run ex_gate ex_ops)) = 1 /\ gate_inv (gate_run ex_gate ex_ops).
Proof.
  split; [by vm_compute|]. apply (gate_bookkeeping ex_config 100 ex_gate ex_ops ex_gate_new).
Defined.

End servingauth.
