(* ===== verification/Scheduler.v ===== *)
(** * Package [internal/scheduler]: deterministic placement

    Pure placement rules over Worker observations, and the Planner that
    retains decisions for idempotent retries.  [internal/workercache]'s
    compilation key, which a request may carry, is modelled here too. *)
From stdpp Require Import base gmap strings list sorting.
From Stdlib Require Import QArith.
From S2P Require Import Prelude Problem Digest Json Model ServingAuth.
Import problem digest model servingauth.
#[local] Open Scope Z_scope.

(** ** [internal/workercache], key.go *)
Module workercache.

Record ModuleSpec := {
  ms_ArtifactDigest : string;
  ms_ArtifactSize : Z;
  ms_ABI : string;
  ms_HostAPIProfile : string;
  ms_RuntimeFeatureProfile : string;
}.

Record Key := {
  k_ArtifactDigest : string;
  k_ArtifactSize : Z;
  k_RuntimeName : string;
  k_RuntimeVersion : string;
  k_ABI : string;
  k_HostAPIProfile : string;
  k_RuntimeFeatureProfile : string;
  k_Engine : string;
  k_MemoryLimitMiB : Z;
  k_GOOS : string;
  k_GOARCH : string;
}.

#[global] Instance Key_eq_dec : EqDecision Key.
Proof. solve_decision. Defined.
#[global] Instance Key_countable : Countable Key.
Proof.
  refine (inj_countable'
    (fun k => (k_ArtifactDigest k, k_ArtifactSize k, k_RuntimeName k, k_RuntimeVersion k, k_ABI k,
               k_HostAPIProfile k, k_RuntimeFeatureProfile k, k_Engine k, k_MemoryLimitMiB k,
               k_GOOS k, k_GOARCH k))
    (fun '(a, b, c, d, e, f, g, h, i, j, l) => Build_Key a b c d e f g h i j l) _).
  by intros [].
Defined.

(** [newProfile]. *)
Definition newProfile (runtimeProfile : wasmprofile.Profile) : result wasmprofile.Profile :=
  replace_err (PlainError "worker cache compiler profile is invalid")
    (wasmprofile.New (wasmprofile.p_Engine runtimeProfile) (wasmprofile.p_MemoryLimitMiB runtimeProfile)).

(** [Profile.key]; [runtime.GOOS] and [runtime.GOARCH] are arguments. *)
Definition key (goos goarch : string) (runtime : wasmprofile.Profile) (spec : ModuleSpec) : result Key :=
  replace_err (PlainError "worker cache artifact digest is invalid") (ParseSHA256 (ms_ArtifactDigest spec)) ;;;
  fail_if ((ms_ArtifactSize spec <? 1) || (ms_ArtifactSize spec >? MaxArtifactBytes))
    (PlainError "worker cache artifact size is outside v1 bounds") ;;;
  fail_if (ms_ABI spec != ABIWASICommandV1) (PlainError "worker cache abi is unsupported") ;;;
  fail_if (ms_HostAPIProfile spec != HostAPIProfileNone)
    (PlainError "worker cache host api profile is unsupported") ;;;
  fail_if (ms_RuntimeFeatureProfile spec != wasmprofile.FeatureProfile)
    (PlainError "worker cache runtime feature profile is unsupported") ;;;
  Ok {| k_ArtifactDigest := ms_ArtifactDigest spec; k_ArtifactSize := ms_ArtifactSize spec;
        k_RuntimeName := wasmprofile.RuntimeName; k_RuntimeVersion := wasmprofile.RuntimeVersion;
        k_ABI := ms_ABI spec; k_HostAPIProfile := ms_HostAPIProfile spec;
        k_RuntimeFeatureProfile := ms_RuntimeFeatureProfile spec;
        k_Engine := wasmprofile.p_Engine runtime; k_MemoryLimitMiB := wasmprofile.p_MemoryLimitMiB runtime;
        k_GOOS := goos; k_GOARCH := goarch |}.

End workercache.
Import workercache.

Module scheduler.

Definition DefaultMaxDecisions : Z := 100000.
Definition HardMaxDecisions : Z := 100000.
Definition MaxWorkers : Z := 1000.
Definition MaxRequiredLabels : Z := 32.
Definition MaxExistingWorkers : Z := 100.
Definition MaxCacheHints : Z := 4096.
Definition MaxWorkerSlots : Z := 1024.

Definition IntentSchedulable : string := "Schedulable".
Definition IntentDraining : string := "Draining".
Definition IntentRemoved : string := "Removed".
Definition SessionJoining : string := "Joining".
Definition SessionReady : string := "Ready".
Definition SessionSuspect : string := "Suspect".
Definition SessionUnavailable : string := "Unavailable".
Definition DrainNotDraining : string := "NotDraining".
Definition DrainDraining : string := "Draining".
Definition DrainDrained : string := "Drained".

Record RuntimeProfile := {
  rp_Name : string;
  rp_Version : string;
  rp_Engine : string;
  rp_GOOS : string;
  rp_GOARCH : string;
  rp_ABI : string;
  rp_HostAPI : string;
  rp_FeatureProfile : string;
  rp_MemoryMiB : Z;
}.

Record Capacity := {
  ca_MemoryMiB : Z;
  ca_AllocatedMemoryMiB : Z;
  ca_Slots : Z;
  ca_AllocatedSlots : Z;
}.

Record CacheHints := { ch_Artifacts : gset string; ch_Compiled : gset Key }.

Record WorkerSnapshot := {
  w_Session : WorkerSession;
  w_Runtime : RuntimeProfile;
  w_Intent : string;
  w_State : string;
  w_Drain : string;
  w_Capacity : Capacity;
  w_Labels : gmap string string;
  w_Cache : CacheHints;
}.

(** The two maps distinguish nil, which marshals to [null]. *)
Record PlacementRequest := {
  pl_CommandID : string;
  pl_AssignmentID : string;
  pl_VersionID : string;
  pl_ArtifactDigest : string;
  pl_ArtifactSize : Z;
  pl_ABI : string;
  pl_HostAPI : string;
  pl_FeatureProfile : string;
  pl_RuntimeName : string;
  pl_RuntimeVersion : string;
  pl_RuntimeEngine : string;
  pl_GOOS : string;
  pl_GOARCH : string;
  pl_MemoryMiB : Z;
  pl_RequiredSlots : Z;
  pl_AdmissionEpoch : Z;
  pl_DeploymentGeneration : Z;
  pl_PolicyDigest : string;
  pl_CompiledCacheKey : Key;
  pl_RequiredLabels : option (gmap string string);
  pl_ExistingWorkerIDs : option (gset string);
}.

Record Assignment := {
  a_CommandID : string;
  a_AssignmentID : string;
  a_Worker : WorkerSession;
  a_VersionID : string;
  a_ArtifactDigest : string;
  a_ArtifactSize : Z;
  a_ABI : string;
  a_HostAPI : string;
  a_FeatureProfile : string;
  a_MemoryMiB : Z;
  a_RequiredSlots : Z;
  a_AdmissionEpoch : Z;
  a_DeploymentGeneration : Z;
  a_PolicyDigest : string;
}.

#[global] Instance Assignment_eq_dec : EqDecision Assignment.
Proof. solve_decision. Defined.

Definition Assignment_Validate (a : Assignment) : result unit :=
  fail_if (negb (idPattern (a_CommandID a))) (Invalid "command_id" "must be a valid identifier") ;;;
  AssignmentIdentity_validate
    {| ai_Worker := a_Worker a; ai_AssignmentID := a_AssignmentID a; ai_VersionID := a_VersionID a;
       ai_AdmissionEpoch := a_AdmissionEpoch a; ai_DeploymentGeneration := a_DeploymentGeneration a;
       ai_PolicyDigest := a_PolicyDigest a; ai_Mode := ModeNormal |} ;;;
  replace_err (Invalid "artifact_digest" "must be a lowercase sha-256 digest")
    (ParseSHA256 (a_ArtifactDigest a)) ;;;
  fail_if ((a_ArtifactSize a <? 1) || (a_ArtifactSize a >? MaxArtifactBytes))
    (Invalid "artifact_size" "must be within the v1 artifact size limit") ;;;
  fail_if (a_ABI a != ABIWASICommandV1) (Invalid "abi" "is not supported") ;;;
  fail_if (a_HostAPI a != HostAPIProfileNone) (Invalid "host_api" "is not supported") ;;;
  fail_if (a_FeatureProfile a != wasmprofile.FeatureProfile) (Invalid "feature_profile" "is not supported") ;;;
  replace_err (Invalid "memory_mib" "is not a supported runtime memory tier")
    (wasmprofile.New wasmprofile.EngineCompiler (a_MemoryMiB a)) ;;;
  fail_if ((a_RequiredSlots a =? 0) || (a_RequiredSlots a >? MaxWorkerSlots))
    (Invalid "required_slots" "must be within the v1 worker slot limit").

Definition StatusApplied : string := "applied".
Definition StatusDuplicate : string := "duplicate".
Definition StatusAlreadySatisfied : string := "already_satisfied".

Definition ReasonInvalidObservation : string := "invalid_observation".
Definition ReasonIntent : string := "intent_not_schedulable".
Definition ReasonSession : string := "session_not_ready".
Definition ReasonRuntime : string := "runtime_incompatible".
Definition ReasonLabels : string := "labels_not_satisfied".
Definition ReasonMemory : string := "memory_capacity".
Definition ReasonSlots : string := "slot_capacity".

Record Candidate := {
  c_WorkerID : string;
  c_Session : WorkerSession;
  c_Eligible : bool;
  c_Reasons : list string;
  c_CacheScore : Z;
  c_LoadNumerator : Z;
  c_LoadDenominator : Z;
}.

Record LeaderBarrier := { lb_Term : Z; lb_AppliedIndex : Z; lb_Ready : bool }.

Record Decision := {
  dc_Status : string;
  dc_Assignment : Assignment;
  dc_Barrier : LeaderBarrier;
  dc_Candidates : list Candidate;
}.

Definition SchedulingIntent_valid (s : string) : bool :=
  (s == IntentSchedulable) || (s == IntentDraining) || (s == IntentRemoved).
Definition SessionState_valid (s : string) : bool :=
  (s == SessionJoining) || (s == SessionReady) || (s == SessionSuspect) || (s == SessionUnavailable).
Definition DrainState_valid (d : string) : bool :=
  (d == DrainNotDraining) || (d == DrainDraining) || (d == DrainDrained).

Definition compatible (r : RuntimeProfile) (request : PlacementRequest) : bool :=
  (rp_Name r == pl_RuntimeName request) && (rp_Version r == pl_RuntimeVersion request)
  && (rp_Engine r == pl_RuntimeEngine request) && (rp_GOOS r == pl_GOOS request)
  && (rp_GOARCH r == pl_GOARCH request) && (rp_ABI r == pl_ABI request)
  && (rp_HostAPI r == pl_HostAPI request) && (rp_FeatureProfile r == pl_FeatureProfile request)
  && (rp_MemoryMiB r =? pl_MemoryMiB request).

Definition key_mismatch (r : PlacementRequest) : bool :=
  let key := pl_CompiledCacheKey r in
  (k_ArtifactDigest key != pl_ArtifactDigest r) || negb (k_ArtifactSize key =? pl_ArtifactSize r)
  || (k_RuntimeName key != pl_RuntimeName r) || (k_RuntimeVersion key != pl_RuntimeVersion r)
  || (k_Engine key != pl_RuntimeEngine r) || (k_GOOS key != pl_GOOS r) || (k_GOARCH key != pl_GOARCH r)
  || (k_ABI key != pl_ABI r) || (k_HostAPIProfile key != pl_HostAPI r)
  || (k_RuntimeFeatureProfile key != pl_FeatureProfile r) || negb (k_MemoryLimitMiB key =? pl_MemoryMiB r).

Definition required_labels (r : PlacementRequest) : gmap string string := default ∅ (pl_RequiredLabels r).
Definition existing_workers (r : PlacementRequest) : gset string := default ∅ (pl_ExistingWorkerIDs r).

(** The first loop ranges over a three-entry map literal; when several of the
    identifiers are invalid Go reports any one of them, the model the first. *)
Definition PlacementRequest_Validate (r : PlacementRequest) : result unit :=
  for_each (fun '(field, value) =>
      fail_if (negb (idPattern value)) (Invalid field "must be a valid identifier"))
    [("command_id", pl_CommandID r); ("assignment_id", pl_AssignmentID r);
     ("version_id", pl_VersionID r)]%string ;;;
  replace_err (Invalid "artifact_digest" "must be a lowercase sha-256 digest")
    (ParseSHA256 (pl_ArtifactDigest r)) ;;;
  fail_if ((pl_ArtifactSize r <? 1) || (pl_ArtifactSize r >? MaxArtifactBytes))
    (Invalid "artifact_size" "must be within the v1 artifact size limit") ;;;
  fail_if (pl_ABI r != ABIWASICommandV1) (Invalid "abi" "is not supported") ;;;
  fail_if (pl_HostAPI r != HostAPIProfileNone) (Invalid "host_api" "is not supported") ;;;
  fail_if ((pl_RuntimeName r != wasmprofile.RuntimeName) || (pl_RuntimeVersion r != wasmprofile.RuntimeVersion)
           || (pl_RuntimeEngine r == "") || (pl_GOOS r == "") || (pl_GOARCH r == "")
           || (pl_FeatureProfile r != wasmprofile.FeatureProfile)
           || (pl_MemoryMiB r =? 0) || (pl_RequiredSlots r =? 0))
    (Invalid "runtime_profile" "runtime, platform, feature, memory, and slots are required") ;;;
  replace_err (Invalid "runtime_profile" "engine and memory tier are unsupported")
    (wasmprofile.New (pl_RuntimeEngine r) (pl_MemoryMiB r)) ;;;
  fail_if (pl_RequiredSlots r >? MaxWorkerSlots)
    (Invalid "required_slots" "exceeds the v1 worker slot limit") ;;;
  fail_if ((pl_AdmissionEpoch r =? 0) || (pl_DeploymentGeneration r =? 0))
    (Invalid "generation" "admission epoch and deployment generation are required") ;;;
  replace_err (Invalid "policy_digest" "must be a lowercase sha-256 digest") (ParseSHA256 (pl_PolicyDigest r)) ;;;
  fail_if ((k_ArtifactDigest (pl_CompiledCacheKey r) != "") && key_mismatch r)
    (Invalid "compiled_cache_key" "does not match placement runtime inputs") ;;;
  fail_if (Z.of_nat (size (required_labels r)) >? MaxRequiredLabels)
    (Invalid "required_labels" "contains too many labels") ;;;
  for_each (fun '(k, value) =>
      fail_if (negb (labelKeyPattern k)) (Invalid "required_labels" "contains an invalid key") ;;;
      fail_if (negb (utf8_ValidString value) || (strlen value >? 256))
        (Invalid "required_labels" "contains an invalid value"))
    (map_to_list (required_labels r)) ;;;
  fail_if (Z.of_nat (size (existing_workers r)) >? MaxExistingWorkers)
    (Invalid "existing_worker_ids" "contains too many workers") ;;;
  for_each (fun id => fail_if (negb (idPattern id))
      (Invalid "existing_worker_ids" "contains an invalid worker id"))
    (elements (existing_workers r)).

Definition WorkerSnapshot_validate (w : WorkerSnapshot) : result unit :=
  let r := w_Runtime w in
  let c := w_Capacity w in
  WorkerSession_validate (w_Session w) ;;;
  fail_if (negb (SchedulingIntent_valid (w_Intent w)) || negb (SessionState_valid (w_State w))
           || negb (DrainState_valid (w_Drain w)))
    (Invalid "worker_state" "intent or session state is unsupported") ;;;
  fail_if ((rp_Name r != wasmprofile.RuntimeName) || (rp_Version r != wasmprofile.RuntimeVersion)
           || (rp_GOOS r == "") || (rp_GOARCH r == "") || (rp_ABI r != ABIWASICommandV1)
           || (rp_HostAPI r != HostAPIProfileNone) || (rp_FeatureProfile r != wasmprofile.FeatureProfile))
    (Invalid "runtime" "runtime profile is incomplete") ;;;
  replace_err (Invalid "runtime" "runtime engine or memory tier is unsupported")
    (wasmprofile.New (rp_Engine r) (rp_MemoryMiB r)) ;;;
  fail_if ((ca_AllocatedMemoryMiB c >? ca_MemoryMiB c) || (ca_AllocatedSlots c >? ca_Slots c)
           || (ca_Slots c >? MaxWorkerSlots))
    (Invalid "capacity" "allocation exceeds capacity") ;;;
  fail_if ((Z.of_nat (size (w_Labels w)) >? MaxRequiredLabels)
           || (Z.of_nat (size (ch_Artifacts (w_Cache w))) >? MaxCacheHints)
           || (Z.of_nat (size (ch_Compiled (w_Cache w))) >? MaxCacheHints))
    (Invalid "worker_observation" "contains more entries than the v1 bound") ;;;
  for_each (fun '(k, value) =>
      fail_if (negb (labelKeyPattern k) || negb (utf8_ValidString value) || (strlen value >? 256))
        (Invalid "labels" "contains an invalid label"))
    (map_to_list (w_Labels w)).

(** ** planner.go *)
Record decisionRecord := { dr_fingerprint : string; dr_decision : Decision }.

Record Planner := {
  p_maxDecisions : Z;
  p_barrier : LeaderBarrier;
  p_decisions : gmap string decisionRecord;
  p_assignments : gmap string string;
}.

Definition New (maxDecisions : Z) : result Planner :=
  let maxDecisions := if maxDecisions =? 0 then DefaultMaxDecisions else maxDecisions in
  fail_if ((maxDecisions <? 1) || (maxDecisions >? HardMaxDecisions))
    (PlainError "scheduler decision limit is outside v1 bounds") ;;;
  Ok {| p_maxDecisions := maxDecisions;
        p_barrier := {| lb_Term := 0; lb_AppliedIndex := 0; lb_Ready := false |};
        p_decisions := ∅; p_assignments := ∅ |}.

Definition set_barrier (p : Planner) (barrier : LeaderBarrier) : Planner :=
  {| p_maxDecisions := p_maxDecisions p; p_barrier := barrier;
     p_decisions := p_decisions p; p_assignments := p_assignments p |}.

Definition InstallBarrier (barrier : LeaderBarrier) : M Planner unit :=
  do! slift (fail_if ((lb_Term barrier =? 0) || (lb_AppliedIndex barrier =? 0))
               (Invalid "leader_barrier" "term and applied index must be greater than zero")) in
  do! slift (fail_if (negb (lb_Ready barrier)) (classified CodeNoQuorum "leader barrier is not committed")) in
  let! p := sget in
  do! slift (fail_if (negb (lb_Term (p_barrier p) =? 0)
                      && ((lb_Term barrier <? lb_Term (p_barrier p))
                          || (lb_AppliedIndex barrier <? lb_AppliedIndex (p_barrier p))))
               (classified CodeStaleGeneration "leader barrier moved backwards")) in
  sput (set_barrier p barrier).

Definition InvalidateBarrier (p : Planner) : Planner :=
  set_barrier p {| lb_Term := lb_Term (p_barrier p); lb_AppliedIndex := lb_AppliedIndex (p_barrier p);
                   lb_Ready := false |}.

Record eligibleCandidate := {
  e_worker : WorkerSnapshot;
  e_cacheScore : Z;
  e_spreadScore : Z;
  e_loadNumerator : Z;
  e_loadDenominator : Z;
  e_memoryNumerator : Z;
  e_memoryDenominator : Z;
}.

(** A missing label reads as the empty string, as in the code. *)
Definition labelsMatch (labels required : gmap string string) : bool :=
  forallb (fun '(k, expected) => default "" (labels !! k) == expected) (map_to_list required).

Definition memoryOK (request : PlacementRequest) (c : Capacity) : bool :=
  (ca_MemoryMiB c >=? ca_AllocatedMemoryMiB c)
  && (u64 (ca_MemoryMiB c - ca_AllocatedMemoryMiB c) >=? pl_MemoryMiB request).
Definition slotsOK (request : PlacementRequest) (c : Capacity) : bool :=
  (ca_Slots c >=? ca_AllocatedSlots c)
  && (u64 (ca_Slots c - ca_AllocatedSlots c) >=? pl_RequiredSlots request).

(** The hard filters of one iteration, in order. *)
Definition filter_reasons (request : PlacementRequest) (worker : WorkerSnapshot) : list string :=
  (if w_Intent worker != IntentSchedulable then [ReasonIntent] else [])
  ++ (if w_State worker != SessionReady then [ReasonSession] else [])
  ++ (if negb (compatible (w_Runtime worker) request) then [ReasonRuntime] else [])
  ++ (if negb (labelsMatch (w_Labels worker) (required_labels request)) then [ReasonLabels] else [])
  ++ (if negb (memoryOK request (w_Capacity worker)) then [ReasonMemory] else [])
  ++ (if negb (slotsOK request (w_Capacity worker)) then [ReasonSlots] else []).

Definition cache_score (request : PlacementRequest) (worker : WorkerSnapshot) : Z :=
  let base := if bool_decide (pl_ArtifactDigest request ∈ ch_Artifacts (w_Cache worker)) then 1 else 0 in
  if (k_ArtifactDigest (pl_CompiledCacheKey request) != "")
     && bool_decide (pl_CompiledCacheKey request ∈ ch_Compiled (w_Cache worker)) then 2 else base.

Definition spread_score (request : PlacementRequest) (worker : WorkerSnapshot) : Z :=
  if bool_decide (ws_WorkerID (w_Session worker) ∈ existing_workers request) then 0 else 1.

Definition entry (request : PlacementRequest) (worker : WorkerSnapshot) : eligibleCandidate :=
  let c := w_Capacity worker in
  {| e_worker := worker; e_cacheScore := cache_score request worker;
     e_spreadScore := spread_score request worker;
     e_loadNumerator := ca_AllocatedSlots c; e_loadDenominator := ca_Slots c;
     e_memoryNumerator := ca_AllocatedMemoryMiB c; e_memoryDenominator := ca_MemoryMiB c |}.

(** A Candidate with its identity and filter reasons set. *)
Definition rejected (worker : WorkerSnapshot) (reasons : list string) : Candidate :=
  {| c_WorkerID := ws_WorkerID (w_Session worker); c_Session := w_Session worker; c_Eligible := false;
     c_Reasons := reasons; c_CacheScore := 0; c_LoadNumerator := 0; c_LoadDenominator := 0 |}.

Definition accepted (request : PlacementRequest) (worker : WorkerSnapshot) : Candidate :=
  {| c_WorkerID := ws_WorkerID (w_Session worker); c_Session := w_Session worker; c_Eligible := true;
     c_Reasons := []; c_CacheScore := cache_score request worker;
     c_LoadNumerator := ca_AllocatedSlots (w_Capacity worker);
     c_LoadDenominator := ca_Slots (w_Capacity worker) |}.

Fixpoint evaluate_loop (request : PlacementRequest) (seenIDs : gset string) (workers : list WorkerSnapshot)
    : list Candidate * list eligibleCandidate :=
  match workers with
  | [] => ([], [])
  | worker :: workers' =>
    let id := ws_WorkerID (w_Session worker) in
    if bool_decide (id ∈ seenIDs) then
      let '(cs, es) := evaluate_loop request seenIDs workers' in
      (rejected worker [ReasonInvalidObservation] :: cs, es)
    else
      let '(cs, es) := evaluate_loop request ({[ id ]} ∪ seenIDs) workers' in
      if negb (is_ok (WorkerSnapshot_validate worker)) then
        (rejected worker [ReasonInvalidObservation] :: cs, es)
      else match filter_reasons request worker with
           | [] => (accepted request worker :: cs, entry request worker :: es)
           | reasons => (rejected worker reasons :: cs, es)
           end
  end.

Definition compareCandidates (left right : Candidate) : Z :=
  if str_lt (c_WorkerID left) (c_WorkerID right) then -1
  else if str_lt (c_WorkerID right) (c_WorkerID left) then 1
  else if str_lt (ws_BootID (c_Session left)) (ws_BootID (c_Session right)) then -1
  else if str_lt (ws_BootID (c_Session right)) (ws_BootID (c_Session left)) then 1
  else if ws_SessionEpoch (c_Session left) <? ws_SessionEpoch (c_Session right) then -1
  else if ws_SessionEpoch (c_Session left) >? ws_SessionEpoch (c_Session right) then 1
  else 0.

Definition evaluateCandidates (request : PlacementRequest) (workers : list WorkerSnapshot)
    : list Candidate * list eligibleCandidate :=
  let ce := evaluate_loop request ∅ workers in
  (SortFunc compareCandidates (fst ce), snd ce).

(** [bits.Mul64]. *)
Definition Mul64 (x y : Z) : Z * Z := ((x * y) / 2 ^ 64, (x * y) mod 2 ^ 64).

Definition compareRatio (leftNumerator leftDenominator rightNumerator rightDenominator : Z) : Z :=
  let '(leftHigh, leftLow) := Mul64 leftNumerator rightDenominator in
  let '(rightHigh, rightLow) := Mul64 rightNumerator leftDenominator in
  if (leftHigh <? rightHigh) || ((leftHigh =? rightHigh) && (leftLow <? rightLow)) then -1
  else if (leftHigh >? rightHigh) || ((leftHigh =? rightHigh) && (leftLow >? rightLow)) then 1
  else 0.

Definition compareEligible (left right : eligibleCandidate) : Z :=
  if negb (e_cacheScore left =? e_cacheScore right) then
    (if e_cacheScore left >? e_cacheScore right then -1 else 1)
  else if negb (e_spreadScore left =? e_spreadScore right) then
    (if e_spreadScore left >? e_spreadScore right then -1 else 1)
  else
    let load := compareRatio (e_loadNumerator left) (e_loadDenominator left)
                  (e_loadNumerator right) (e_loadDenominator right) in
    if negb (load =? 0) then load
    else
      let memory := compareRatio (e_memoryNumerator left) (e_memoryDenominator left)
                      (e_memoryNumerator right) (e_memoryDenominator right) in
      if negb (memory =? 0) then memory
      else compareCandidates (rejected (e_worker left) []) (rejected (e_worker right) []).

Definition validateWorkerSet (workers : list WorkerSnapshot) : result unit :=
  fail_if (len workers >? MaxWorkers)
    (Invalid "workers" "contains more than the v1 worker observation limit") ;;;
  for_each_unique (fun _ => Ok tt) (fun w => ws_WorkerID (w_Session w))
    (Invalid "workers" "contains a duplicate worker_id") ∅ workers.

Definition json_key (k : Key) : json :=
  JObject
    [("ArtifactDigest", JString (k_ArtifactDigest k)); ("ArtifactSize", JInt (k_ArtifactSize k));
     ("RuntimeName", JString (k_RuntimeName k)); ("RuntimeVersion", JString (k_RuntimeVersion k));
     ("ABI", JString (k_ABI k)); ("HostAPIProfile", JString (k_HostAPIProfile k));
     ("RuntimeFeatureProfile", JString (k_RuntimeFeatureProfile k)); ("Engine", JString (k_Engine k));
     ("MemoryLimitMiB", JInt (k_MemoryLimitMiB k)); ("GOOS", JString (k_GOOS k));
     ("GOARCH", JString (k_GOARCH k))]%string.

(** The request as it marshals, with its CommandID cleared. *)
Definition json_request (r : PlacementRequest) : json :=
  JObject
    [("CommandID", JString ""); ("AssignmentID", JString (pl_AssignmentID r));
     ("VersionID", JString (pl_VersionID r)); ("ArtifactDigest", JString (pl_ArtifactDigest r));
     ("ArtifactSize", JInt (pl_ArtifactSize r)); ("ABI", JString (pl_ABI r));
     ("HostAPI", JString (pl_HostAPI r)); ("FeatureProfile", JString (pl_FeatureProfile r));
     ("RuntimeName", JString (pl_RuntimeName r)); ("RuntimeVersion", JString (pl_RuntimeVersion r));
     ("RuntimeEngine", JString (pl_RuntimeEngine r)); ("GOOS", JString (pl_GOOS r));
     ("GOARCH", JString (pl_GOARCH r)); ("MemoryMiB", JInt (pl_MemoryMiB r));
     ("RequiredSlots", JInt (pl_RequiredSlots r)); ("AdmissionEpoch", JInt (pl_AdmissionEpoch r));
     ("DeploymentGeneration", JInt (pl_DeploymentGeneration r));
     ("PolicyDigest", JString (pl_PolicyDigest r)); ("CompiledCacheKey", json_key (pl_CompiledCacheKey r));
     ("RequiredLabels", json.of_map JString (pl_RequiredLabels r));
     ("ExistingWorkerIDs", json.of_map (fun _ => JObject [])
        (gset_to_gmap tt <$> pl_ExistingWorkerIDs r))]%string.

(** The Assignment built for the chosen Worker. *)
Definition assignment_of (request : PlacementRequest) (worker : WorkerSession) : Assignment :=
  {| a_CommandID := pl_CommandID request; a_AssignmentID := pl_AssignmentID request; a_Worker := worker;
     a_VersionID := pl_VersionID request; a_ArtifactDigest := pl_ArtifactDigest request;
     a_ArtifactSize := pl_ArtifactSize request; a_ABI := pl_ABI request; a_HostAPI := pl_HostAPI request;
     a_FeatureProfile := pl_FeatureProfile request; a_MemoryMiB := pl_MemoryMiB request;
     a_RequiredSlots := pl_RequiredSlots request; a_AdmissionEpoch := pl_AdmissionEpoch request;
     a_DeploymentGeneration := pl_DeploymentGeneration request; a_PolicyDigest := pl_PolicyDigest request |}.

Definition zero_Assignment : Assignment :=
  {| a_CommandID := ""; a_AssignmentID := "";
     a_Worker := {| ws_WorkerID := ""; ws_BootID := ""; ws_SessionEpoch := 0 |};
     a_VersionID := ""; a_ArtifactDigest := ""; a_ArtifactSize := 0; a_ABI := ""; a_HostAPI := "";
     a_FeatureProfile := ""; a_MemoryMiB := 0; a_RequiredSlots := 0; a_AdmissionEpoch := 0;
     a_DeploymentGeneration := 0; a_PolicyDigest := "" |}.

Definition zero_decisionRecord : decisionRecord :=
  {| dr_fingerprint := "";
     dr_decision := {| dc_Status := ""; dc_Assignment := zero_Assignment;
       dc_Barrier := {| lb_Term := 0; lb_AppliedIndex := 0; lb_Ready := false |}; dc_Candidates := [] |} |}.

Definition with_status (d : Decision) (status : string) : Decision :=
  {| dc_Status := status; dc_Assignment := dc_Assignment d; dc_Barrier := dc_Barrier d;
     dc_Candidates := dc_Candidates d |}.

Definition no_worker : error :=
  classified CodeNoReadyReplica "no Worker satisfies the placement constraints".

Section planner.
Context `{JCS}.

Definition requestFingerprint (request : PlacementRequest) : result string :=
  CanonicalJSON "scheduler-decision" "v1" (json.Marshal (json_request request)).

(** [Plan].  The one return with both a Decision (the explanations) and an
    error, for want of an eligible Worker, is [Ok (decision, Some error)];
    every other error comes with the zero Decision and is an [Err]. *)
Definition Plan (request : PlacementRequest) (workers : list WorkerSnapshot)
    : M Planner (Decision * option error) :=
  do! slift (PlacementRequest_Validate request) in
  let! fingerprint := slift (requestFingerprint request) in
  let! p := sget in
  match p_decisions p !! pl_CommandID request with
  | Some existing =>
    do! slift (fail_if (dr_fingerprint existing != fingerprint)
                 (classified CodeConflict "command id was reused with different placement input")) in
    sret (with_status (dr_decision existing) StatusDuplicate, None)
  | None =>
    match p_assignments p !! pl_AssignmentID request with
    | Some commandID =>
      let existing := default zero_decisionRecord (p_decisions p !! commandID) in
      do! slift (fail_if (dr_fingerprint existing != fingerprint)
                   (classified CodeConflict "assignment id was reused with different placement input")) in
      sret (with_status (dr_decision existing) StatusAlreadySatisfied, None)
    | None =>
      do! slift (fail_if (negb (lb_Ready (p_barrier p)))
                   (classified CodeControlPlaneStale "current Leader barrier is not installed")) in
      do! slift (fail_if (Z.of_nat (size (p_decisions p)) >=? p_maxDecisions p)
                   (classified CodeOverloaded "scheduler decision capacity is full")) in
      do! slift (validateWorkerSet workers) in
      let ce := evaluateCandidates request workers in
      let candidates := fst ce in
      match SortFunc compareEligible (snd ce) with
      | [] => sret ({| dc_Status := ""; dc_Assignment := zero_Assignment; dc_Barrier := p_barrier p;
                       dc_Candidates := candidates |}, Some no_worker)
      | chosen :: _ =>
        let decision := {| dc_Status := StatusApplied;
                           dc_Assignment := assignment_of request (w_Session (e_worker chosen));
                           dc_Barrier := p_barrier p; dc_Candidates := candidates |} in
        do! sput {| p_maxDecisions := p_maxDecisions p; p_barrier := p_barrier p;
                    p_decisions := <[pl_CommandID request :=
                      {| dr_fingerprint := fingerprint; dr_decision := decision |}]> (p_decisions p);
                    p_assignments := <[pl_AssignmentID request := pl_CommandID request]> (p_assignments p) |} in
        sret (decision, None)
      end
    end
  end.
End planner.

Definition Acknowledge (commandID : string) : M Planner unit :=
  do! slift (fail_if (negb (idPattern commandID)) (Invalid "command_id" "must be a valid identifier")) in
  let! p := sget in
  match p_decisions p !! commandID with
  | None => sret tt
  | Some record =>
    let assignmentID := a_AssignmentID (dc_Assignment (dr_decision record)) in
    sput {| p_maxDecisions := p_maxDecisions p; p_barrier := p_barrier p;
            p_decisions := delete commandID (p_decisions p);
            p_assignments := if default "" (p_assignments p !! assignmentID) == commandID
                             then delete assignmentID (p_assignments p) else p_assignments p |}
  end.

Definition DecisionCount (p : Planner) : Z := Z.of_nat (size (p_decisions p)).

(** ** Ordering *)
#[local] Instance Q_TotalCompare : TotalCompare Qcompare.
Proof.
  split.
  - intros x y. by rewrite Qcompare_antisym.
  - intros x y z. rewrite <-!Qlt_alt. apply Qlt_trans.
  - intros x y z Hxy. apply Qeq_alt in Hxy. by rewrite Hxy.
Qed.

Definition ratio (numerator denominator : Z) : Q := numerator # Z.to_pos denominator.

Lemma Mul64_compare x y :
  let '(xh, xl) := (x / 2 ^ 64, x mod 2 ^ 64) in
  let '(yh, yl) := (y / 2 ^ 64, y mod 2 ^ 64) in
  (if (xh <? yh) || ((xh =? yh) && (xl <? yl)) then -1
   else if (xh >? yh) || ((xh =? yh) && (xl >? yl)) then 1 else 0) = to_int (Z.compare x y).
Proof.
  simpl. pose proof (Z.div_mod x (2 ^ 64) ltac:(lia)). pose proof (Z.div_mod y (2 ^ 64) ltac:(lia)).
  pose proof (Z.mod_pos_bound x (2 ^ 64) ltac:(lia)). pose proof (Z.mod_pos_bound y (2 ^ 64) ltac:(lia)).
  destruct (Z.compare_spec x y); simpl;
    repeat match goal with |- context [if ?c then _ else _] => destruct c eqn:?E end; try done; exfalso;
    go_cases; repeat match goal with E : _ \/ _ |- _ => destruct E end; go_cases; nia.
Qed.

(** The 128-bit cross multiplication compares the two fractions exactly. *)
Lemma compareRatio_spec ln ld rn rd :
  0 < ld -> 0 < rd -> compareRatio ln ld rn rd = to_int (Qcompare (ratio ln ld) (ratio rn rd)).
Proof.
  intros Hl Hr. unfold Qcompare, ratio. cbn [Qnum Qden]. rewrite !Z2Pos.id by done.
  apply (Mul64_compare (ln * rd) (rn * ld)).
Qed.

Definition candidate_order : Candidate -> Candidate -> comparison :=
  lex_by (comparing c_WorkerID String.compare)
    (lex_by (comparing (fun c => ws_BootID (c_Session c)) String.compare)
            (comparing (fun c => ws_SessionEpoch (c_Session c)) Z.compare)).

(** Cache affinity first, then spreading, then the lower slot load, then the
    lower memory load, then the Worker's identity. *)
Definition eligible_order : eligibleCandidate -> eligibleCandidate -> comparison :=
  lex_by (comparing (fun e => - e_cacheScore e) Z.compare)
    (lex_by (comparing (fun e => - e_spreadScore e) Z.compare)
       (lex_by (comparing (fun e => ratio (e_loadNumerator e) (e_loadDenominator e)) Qcompare)
          (lex_by (comparing (fun e => ratio (e_memoryNumerator e) (e_memoryDenominator e)) Qcompare)
             (comparing (fun e => rejected (e_worker e) []) candidate_order)))).

#[local] Instance candidate_order_total : TotalCompare candidate_order.
Proof. unfold candidate_order. apply _. Qed.
#[local] Instance eligible_order_total : TotalCompare eligible_order.
Proof. unfold eligible_order. apply _. Qed.

Lemma compareCandidates_spec l r : compareCandidates l r = int_of candidate_order l r.
Proof.
  unfold compareCandidates, int_of, candidate_order, lex_by, comparing.
  rewrite !str_three_way, Z_three_way, !to_int_lex. by repeat case_match.
Qed.

Lemma candidate_order_eq l r : candidate_order l r = Eq -> c_WorkerID l = c_WorkerID r.
Proof.
  unfold candidate_order, lex_by, lex, comparing. destruct (String.compare _ _) eqn:E; try done.
  intros _. by apply String.compare_eq_iff.
Qed.

Lemma descending a b k :
  (if negb (a =? b) then (if a >? b then -1 else 1) else k)
  = match Z.compare (- a) (- b) with Eq => k | x => to_int x end.
Proof.
  destruct (Z.compare_spec (- a) (- b)); destruct (a =? b) eqn:E; simpl; go_cases; try lia; try done.
  - by rewrite (proj2 (Z.gtb_lt _ _)) by lia.
  - rewrite Z.gtb_ltb, (proj2 (Z.ltb_ge _ _)) by lia. done.
Qed.

Lemma to_int_nonzero c k : (if negb (to_int c =? 0) then to_int c else k) = match c with Eq => k | x => to_int x end.
Proof. by destruct c. Qed.

Definition ranked (e : eligibleCandidate) : Prop := 0 < e_loadDenominator e /\ 0 < e_memoryDenominator e.

Lemma compareEligible_spec l r : ranked l -> ranked r -> compareEligible l r = int_of eligible_order l r.
Proof.
  intros [Hl Hl'] [Hr Hr']. unfold compareEligible, int_of, eligible_order, lex_by, comparing.
  rewrite !descending, !compareRatio_spec, !to_int_nonzero, compareCandidates_spec, !to_int_lex by done.
  unfold int_of. by repeat case_match.
Qed.

(** ** Placement as a specification *)

(** The widths of the fields the arithmetic of placement reads. *)
Definition worker_u64 (w : WorkerSnapshot) : Prop :=
  is_u64 (ca_MemoryMiB (w_Capacity w)) /\ is_u64 (ca_AllocatedMemoryMiB (w_Capacity w)) /\
  is_u64 (ca_Slots (w_Capacity w)) /\ is_u64 (ca_AllocatedSlots (w_Capacity w)).
Definition request_u64 (r : PlacementRequest) : Prop := 0 <= pl_MemoryMiB r /\ 0 <= pl_RequiredSlots r.

(** A Worker on which the request may be placed. *)
Record placeable (request : PlacementRequest) (w : WorkerSnapshot) : Prop := {
  pc_valid : WorkerSnapshot_validate w = Ok tt;
  pc_intent : w_Intent w = IntentSchedulable;
  pc_state : w_State w = SessionReady;
  pc_runtime : compatible (w_Runtime w) request = true;
  pc_labels : forall k v, required_labels request !! k = Some v -> default ""%string (w_Labels w !! k) = v;
  pc_memory : ca_AllocatedMemoryMiB (w_Capacity w) + pl_MemoryMiB request <= ca_MemoryMiB (w_Capacity w);
  pc_slots : ca_AllocatedSlots (w_Capacity w) + pl_RequiredSlots request <= ca_Slots (w_Capacity w);
}.

Definition placeableb (request : PlacementRequest) (w : WorkerSnapshot) : bool :=
  is_ok (WorkerSnapshot_validate w) && (filter_reasons request w == []).

Lemma room_spec a b need :
  is_u64 a -> is_u64 b -> 0 <= need -> (a >=? b) && (u64 (a - b) >=? need) = true <-> b + need <= a.
Proof.
  intros Ha Hb Hn. rewrite andb_true_iff, !Z.geb_leb, !Z.leb_le. split.
  - intros [Hle Hu]. rewrite u64_small in Hu; [lia|]. unfold is_u64 in *. lia.
  - intros Hsum. rewrite u64_small; [lia|]. unfold is_u64 in *. lia.
Qed.

Lemma labelsMatch_spec labels required :
  labelsMatch labels required = true <->
  (forall k v, required !! k = Some v -> default ""%string (labels !! k) = v).
Proof.
  unfold labelsMatch. rewrite forallb_forall. split.
  - intros Hall k v Hk. specialize (Hall (k, v)). rewrite <-list_elem_of_In, elem_of_map_to_list in Hall.
    specialize (Hall Hk). simpl in Hall. by apply bool_decide_eq_true in Hall.
  - intros Hall [k v]. rewrite <-list_elem_of_In, elem_of_map_to_list. intros Hk.
    apply bool_decide_eq_true. by apply Hall.
Qed.

Lemma placeableb_spec request w :
  request_u64 request -> worker_u64 w -> placeableb request w = true <-> placeable request w.
Proof.
  intros [Hm Hs] (H1 & H2 & H3 & H4). unfold placeableb, filter_reasons.
  rewrite andb_true_iff, is_ok_unit, bool_decide_eq_true. split.
  - intros [Hv Hr]. repeat match type of Hr with
      | _ ++ _ = [] => let E := fresh "E" in apply app_nil in Hr as [E Hr] end.
    repeat match goal with E : (if negb ?c then [_] else []) = [] |- _ => destruct c eqn:?; [clear E|done] end.
    split; try done; go_cases; try done; [by apply labelsMatch_spec|..]; by apply room_spec.
  - intros [Hv -> -> Hc Hl Hmem Hslot]. split; [done|].
    apply labelsMatch_spec in Hl. unfold memoryOK, slotsOK.
    apply (proj2 (room_spec _ _ _ H1 H2 Hm)) in Hmem. apply (proj2 (room_spec _ _ _ H3 H4 Hs)) in Hslot.
    rewrite Hc, Hl, Hmem, Hslot.
    by rewrite !bool_decide_eq_true_2.
Qed.

(** *** Evaluation of a set of distinct Workers *)
Definition worker_id (w : WorkerSnapshot) : string := ws_WorkerID (w_Session w).

Definition explain (request : PlacementRequest) (w : WorkerSnapshot) : Candidate :=
  if is_ok (WorkerSnapshot_validate w) then
    match filter_reasons request w with
    | [] => accepted request w
    | reasons => rejected w reasons
    end
  else rejected w [ReasonInvalidObservation].

Lemma explain_worker request w : c_WorkerID (explain request w) = worker_id w.
Proof. unfold explain. by repeat case_match. Qed.

Lemma evaluate_loop_spec request seen workers :
  NoDup (map worker_id workers) -> (forall w, w ∈ workers -> worker_id w ∉ seen) ->
  evaluate_loop request seen workers
  = (map (explain request) workers, map (entry request) (List.filter (placeableb request) workers)).
Proof.
  revert seen. induction workers as [|w workers IH]; intros seen Hnd Hseen; [done|].
  cbn [map] in Hnd. apply NoDup_cons in Hnd as [Hw Hnd]. simpl.
  rewrite bool_decide_eq_false_2 by (apply (Hseen w); set_solver).
  rewrite IH; [|done|].
  2:{ intros w' Hw'. apply not_elem_of_union. split; [|apply Hseen; set_solver].
      intros E%elem_of_singleton. apply Hw. apply list_elem_of_fmap. exists w'. split; [|done]. symmetry. exact E. }
  destruct (placeableb request w) eqn:Ep; unfold placeableb, explain in *; simpl;
    destruct (is_ok (WorkerSnapshot_validate w)) eqn:Ev; simpl in *; try done; go_cases.
  - by rewrite Ep.
  - by destruct (filter_reasons request w).
Qed.

Lemma validateWorkerSet_Ok workers u : validateWorkerSet workers = Ok u -> NoDup (map worker_id workers).
Proof. unfold validateWorkerSet. intros H. ok_inv. by apply for_each_unique_Ok in H as (_ & Hnd & _). Qed.

Lemma validateWorkerSet_Permutation workers workers' :
  workers ≡ₚ workers' -> validateWorkerSet workers = validateWorkerSet workers'.
Proof.
  intros Hp. unfold validateWorkerSet, len. rewrite (Permutation_length Hp).
  destruct (fail_if _ _) as [[]|]; simpl; [|done].
  pose proof (for_each_unique_Permutation (fun _ => Ok tt) (fun w => ws_WorkerID (w_Session w))
    (Invalid "workers" "contains a duplicate worker_id") _ _ Hp) as Hok.
  assert (forall seen l, for_each_unique (fun _ => Ok tt) (fun w => ws_WorkerID (w_Session w))
      (Invalid "workers" "contains a duplicate worker_id") seen l
    = if is_ok (for_each_unique (fun _ => Ok tt) (fun w => ws_WorkerID (w_Session w))
        (Invalid "workers" "contains a duplicate worker_id") seen l) then Ok tt
      else Err (Invalid "workers" "contains a duplicate worker_id")) as Hres.
  { intros seen l. revert seen. induction l as [|w l IH]; intros seen; simpl; [done|].
    case_bool_decide; simpl; [done|apply IH]. }
  rewrite (Hres ∅ workers), (Hres ∅ workers'). by rewrite Hok.
Qed.

Lemma filter_Permutation_bool {A} (f : A -> bool) l l' : l ≡ₚ l' -> List.filter f l ≡ₚ List.filter f l'.
Proof.
  induction 1 as [|x l l' _ IH|x y l|l1 l2 l3 _ IH1 _ IH2]; simpl; [done|..].
  - case_match; by rewrite IH.
  - repeat case_match; try done. apply perm_swap.
  - by rewrite IH1.
Qed.

Lemma worker_id_inj workers w w' :
  NoDup (map worker_id workers) -> w ∈ workers -> w' ∈ workers -> worker_id w = worker_id w' -> w = w'.
Proof.
  induction workers as [|x l IH]; [set_solver|]. cbn [map]. intros [Hx Hnd]%NoDup_cons.
  assert (forall y, y ∈ l -> worker_id y <> worker_id x) as Hne.
  { intros y Hy E. apply Hx. apply list_elem_of_fmap. eauto. }
  rewrite !elem_of_cons. intros [->|Hw] [->|Hw'] E; try done; [|..|by apply IH].
  - by destruct (Hne w' Hw').
  - by destruct (Hne w Hw).
Qed.

(** Candidates come out in identity order whatever the input order. *)
Lemma candidates_order_independent request workers workers' :
  NoDup (map worker_id workers) -> workers ≡ₚ workers' ->
  SortFunc compareCandidates (map (explain request) workers)
  = SortFunc compareCandidates (map (explain request) workers').
Proof.
  intros Hnd Hp.
  rewrite !(SortFunc_ext compareCandidates (int_of candidate_order)) by (intros; apply compareCandidates_spec).
  apply SortFunc_order_independent; [apply _| |by rewrite Hp].
  intros x y (w & -> & Hw)%list_elem_of_fmap (w' & -> & Hw')%list_elem_of_fmap E%candidate_order_eq.
  rewrite !explain_worker in E. f_equal. by eapply worker_id_inj.
Qed.

Lemma placeable_ranked request w :
  PlacementRequest_Validate request = Ok tt -> request_u64 request -> worker_u64 w ->
  placeable request w -> ranked (entry request w).
Proof.
  intros Hv [Hm Hs] (H1 & H2 & H3 & H4) [_ _ _ _ _ Hmem Hslot]. unfold PlacementRequest_Validate in Hv.
  ok_inv. unfold ranked, is_u64 in *. simpl. lia.
Qed.

Section sorted_eligible.
Context (request : PlacementRequest) (workers : list WorkerSnapshot).
Hypothesis Hvalid : PlacementRequest_Validate request = Ok tt.
Hypothesis Hrequest : request_u64 request.
Hypothesis Hworkers : Forall worker_u64 workers.
Hypothesis Hdistinct : NoDup (map worker_id workers).

Definition entries (ws : list WorkerSnapshot) : list eligibleCandidate :=
  map (entry request) (List.filter (placeableb request) ws).

Lemma elem_of_entries e :
  e ∈ entries workers <-> exists w, w ∈ workers /\ placeable request w /\ e = entry request w.
Proof.
  unfold entries. rewrite list_elem_of_fmap. setoid_rewrite list_elem_of_In. setoid_rewrite filter_In.
  setoid_rewrite <-list_elem_of_In. rewrite Forall_forall in Hworkers. split.
  - intros (w & -> & Hw & Hp). exists w. split_and!; [done| |done]. apply placeableb_spec; auto.
  - intros (w & Hw & Hp & ->). exists w. split_and!; [done|done|]. apply placeableb_spec; auto.
Qed.

Lemma entries_ranked e : e ∈ entries workers -> ranked e.
Proof.
  rewrite elem_of_entries. intros (w & Hw & Hp & ->). rewrite Forall_forall in Hworkers.
  apply placeable_ranked; auto.
Qed.

Lemma entries_separated x y :
  x ∈ entries workers -> y ∈ entries workers -> eligible_order x y = Eq -> x = y.
Proof.
  rewrite !elem_of_entries. intros (w & Hw & _ & ->) (w' & Hw' & _ & ->) E. f_equal.
  eapply worker_id_inj; [exact Hdistinct|done|done|]. revert E. unfold eligible_order, lex_by, lex.
  repeat case_match; try done. unfold comparing at 1. intros E%candidate_order_eq. exact E.
Qed.

Lemma sorted_entries :
  SortFunc compareEligible (entries workers) = SortFunc (int_of eligible_order) (entries workers).
Proof.
  apply SortFunc_ext. intros x y Hx Hy. apply compareEligible_spec; by apply entries_ranked.
Qed.

(** The head of the sorted slice beats every other placeable Worker. *)
Lemma chosen_best chosen rest :
  SortFunc compareEligible (entries workers) = chosen :: rest ->
  exists w, w ∈ workers /\ placeable request w /\ chosen = entry request w /\
    forall w', w' ∈ workers -> placeable request w' -> w' <> w ->
      eligible_order (entry request w) (entry request w') = Lt.
Proof.
  intros Hs. assert (forall e, e ∈ chosen :: rest <-> e ∈ entries workers) as Hin.
  { intros e. rewrite <-Hs. apply elem_of_SortFunc. }
  pose proof (proj1 (Hin chosen)) as Hc. rewrite elem_of_entries in Hc.
  destruct Hc as (w & Hw & Hp & ->); [set_solver|]. exists w. split_and!; [done..|].
  intros w' Hw' Hp' Hne. assert (entry request w' ∈ entries workers) as He' by (apply elem_of_entries; eauto).
  pose proof (SortFunc_sorted eligible_order (entries workers)) as Hsorted.
  rewrite <-sorted_entries, Hs in Hsorted. apply StronglySorted_cons in Hsorted as [Hall _].
  assert (entry request w' <> entry request w) as Hene by (intros E; apply Hne; by apply (f_equal e_worker) in E).
  assert (entry request w' ∈ rest) as Hrest by (apply Hin, elem_of_cons in He' as [?|?]; [done|done]).
  rewrite Forall_forall in Hall. specialize (Hall _ Hrest). simpl in Hall.
  destruct (eligible_order (entry request w) (entry request w')) eqn:E; [|done|done]. exfalso. apply Hene.
  symmetry. apply entries_separated; [apply elem_of_entries; eauto|done|done].
Qed.

Lemma sorted_entries_Permutation workers' :
  workers ≡ₚ workers' ->
  SortFunc compareEligible (entries workers) = SortFunc (int_of eligible_order) (entries workers').
Proof.
  intros Hp. rewrite sorted_entries. apply SortFunc_order_independent; [apply _|apply entries_separated|].
  unfold entries. apply Permutation_map, filter_Permutation_bool, Hp.
Qed.
End sorted_eligible.

(** ** The Planner *)
Section planner_theory.
Context `{JCS}.

#[global] Instance InstallBarrier_Atomic barrier : Atomic (InstallBarrier barrier).
Proof. unfold InstallBarrier. apply _. Qed.

Definition planned (p : Planner) (request : PlacementRequest) (fingerprint : string) (d : Decision) : Planner :=
  {| p_maxDecisions := p_maxDecisions p; p_barrier := p_barrier p;
     p_decisions := <[pl_CommandID request := {| dr_fingerprint := fingerprint; dr_decision := d |}]> (p_decisions p);
     p_assignments := <[pl_AssignmentID request := pl_CommandID request]> (p_assignments p) |}.

(** A call that makes a new decision. *)
Record plans (request : PlacementRequest) (workers : list WorkerSnapshot) (p : Planner)
    (fingerprint : string) (chosen : eligibleCandidate) : Prop := {
  pn_valid : PlacementRequest_Validate request = Ok tt;
  pn_fingerprint : requestFingerprint request = Ok fingerprint;
  pn_command : p_decisions p !! pl_CommandID request = None;
  pn_assignment : p_assignments p !! pl_AssignmentID request = None;
  pn_barrier : lb_Ready (p_barrier p) = true;
  pn_room : Z.of_nat (size (p_decisions p)) < p_maxDecisions p;
  pn_workers : validateWorkerSet workers = Ok tt;
  pn_chosen : exists rest, SortFunc compareEligible (entries request workers) = chosen :: rest;
}.

Definition decision_of (request : PlacementRequest) (workers : list WorkerSnapshot) (p : Planner)
    (chosen : eligibleCandidate) : Decision :=
  {| dc_Status := StatusApplied; dc_Assignment := assignment_of request (w_Session (e_worker chosen));
     dc_Barrier := p_barrier p;
     dc_Candidates := SortFunc compareCandidates (map (explain request) workers) |}.

Lemma evaluateCandidates_spec request workers :
  NoDup (map worker_id workers) ->
  evaluateCandidates request workers
  = (SortFunc compareCandidates (map (explain request) workers), entries request workers).
Proof.
  intros Hnd. unfold evaluateCandidates. rewrite evaluate_loop_spec; [done|done|set_solver].
Qed.

(** Plan either leaves the Planner alone and does not return a new decision,
    or makes one. *)
Lemma Plan_cases request workers p p' r :
  Plan request workers p = (p', r) ->
  (p' = p /\ (forall d oe, r = Ok (d, oe) -> dc_Status d <> StatusApplied)) \/
  (exists fingerprint chosen, plans request workers p fingerprint chosen /\
     r = Ok (decision_of request workers p chosen, None) /\
     p' = planned p request fingerprint (decision_of request workers p chosen)).
Proof.
  unfold Plan, sbind, slift, sget, sput, sret.
  destruct (PlacementRequest_Validate request) as [[]|e] eqn:Hv; [|intros [= <- <-]; by left].
  destruct (requestFingerprint request) as [fp|e] eqn:Hfp; [|intros [= <- <-]; by left].
  destruct (p_decisions p !! pl_CommandID request) as [record|] eqn:Hd.
  { destruct (fail_if _ _) as [[]|]; intros [= <- <-]; left; [|by split]. split; [done|].
    by intros d oe [= <- _]. }
  destruct (p_assignments p !! pl_AssignmentID request) as [cid|] eqn:Ha.
  { destruct (fail_if _ _) as [[]|]; intros [= <- <-]; left; [|by split]. split; [done|].
    by intros d oe [= <- _]. }
  destruct (fail_if (negb _) _) as [[]|] eqn:Hb; [|intros [= <- <-]; by left].
  destruct (fail_if (_ >=? _) _) as [[]|] eqn:Hn; [|intros [= <- <-]; by left].
  destruct (validateWorkerSet workers) as [[]|] eqn:Hw; [|intros [= <- <-]; by left].
  rewrite evaluateCandidates_spec by (by eapply validateWorkerSet_Ok). cbn [fst snd].
  destruct (SortFunc compareEligible (entries request workers)) as [|chosen rest] eqn:Hs; intros [= <- <-].
  - left. split; [done|]. by intros d oe [= <- <-].
  - right. exists fp, chosen. split; [|done]. ok_inv. split; try done; by exists rest.
Qed.

Inductive planner_op :=
| OpInstallBarrier (barrier : LeaderBarrier)
| OpInvalidateBarrier
| OpPlan (request : PlacementRequest) (workers : list WorkerSnapshot)
| OpAcknowledge (commandID : string).

Definition planner_step (p : Planner) (op : planner_op) : Planner :=
  match op with
  | OpInstallBarrier barrier => fst (InstallBarrier barrier p)
  | OpInvalidateBarrier => InvalidateBarrier p
  | OpPlan request workers => fst (Plan request workers p)
  | OpAcknowledge commandID => fst (Acknowledge commandID p)
  end.

Definition planner_run (p : Planner) (ops : list planner_op) : Planner := foldl planner_step p ops.

Record planner_inv (p : Planner) : Prop := {
  pi_decision : forall cid record, p_decisions p !! cid = Some record ->
    a_CommandID (dc_Assignment (dr_decision record)) = cid /\
    p_assignments p !! a_AssignmentID (dc_Assignment (dr_decision record)) = Some cid;
  pi_assignment : forall aid cid, p_assignments p !! aid = Some cid ->
    exists record, p_decisions p !! cid = Some record /\
      a_AssignmentID (dc_Assignment (dr_decision record)) = aid;
  pi_size : Z.of_nat (size (p_decisions p)) <= p_maxDecisions p <= HardMaxDecisions;
}.

Lemma New_planner_inv maxDecisions p : New maxDecisions = Ok p -> planner_inv p.
Proof.
  unfold New. intros Hn. ok_inv. subst p. split; simpl; try done. rewrite map_size_empty. lia.
Qed.

Lemma planned_inv request workers p fingerprint chosen :
  planner_inv p -> plans request workers p fingerprint chosen ->
  planner_inv (planned p request fingerprint (decision_of request workers p chosen)).
Proof.
  intros Hp Hpl. pose proof (pn_command _ _ _ _ _ Hpl) as Hc. pose proof (pn_assignment _ _ _ _ _ Hpl) as Ha.
  split; simpl.
  - intros cid record. rewrite lookup_insert. case_decide; [subst cid|].
    + intros [= <-]. simpl. by rewrite lookup_insert_eq.
    + intros Hr. destruct (pi_decision _ Hp _ _ Hr) as [? Hr']. split; [done|].
      rewrite lookup_insert_ne by congruence. done.
  - intros aid cid. rewrite lookup_insert. case_decide; [subst aid|].
    + intros [= <-]. rewrite lookup_insert_eq. eauto.
    + intros Hr. destruct (pi_assignment _ Hp _ _ Hr) as (record & Hrec & ?). exists record.
      rewrite lookup_insert_ne by congruence. done.
  - rewrite map_size_insert_None by done. pose proof (pn_room _ _ _ _ _ Hpl). pose proof (pi_size _ Hp). lia.
Qed.

Lemma Acknowledge_cases cid p :
  fst (Acknowledge cid p) = p \/
  exists record, p_decisions p !! cid = Some record /\
    let aid := a_AssignmentID (dc_Assignment (dr_decision record)) in
    fst (Acknowledge cid p)
    = {| p_maxDecisions := p_maxDecisions p; p_barrier := p_barrier p;
         p_decisions := delete cid (p_decisions p);
         p_assignments := if default ""%string (p_assignments p !! aid) == cid
                          then delete aid (p_assignments p) else p_assignments p |}.
Proof.
  unfold Acknowledge, sbind, slift, sget, sput, sret.
  destruct (fail_if _ _) as [[]|]; [|by left]. destruct (p_decisions p !! cid) eqn:E; [|by left].
  right. eauto.
Qed.

Lemma planner_step_inv p op : planner_inv p -> planner_inv (planner_step p op).
Proof.
  intros Hp. destruct op as [b| |request workers|cid]; simpl.
  - destruct (InstallBarrier b p) as [p' [u|e]] eqn:E; simpl;
      [|by rewrite (InstallBarrier_Atomic _ _ _ _ E)].
    unfold InstallBarrier in E. run_inv. split; apply Hp.
  - split; apply Hp.
  - destruct (Plan request workers p) as [p' r] eqn:E. simpl.
    apply Plan_cases in E as [[-> _]|(fp & ch & Hpl & _ & ->)]; [done|by apply planned_inv].
  - destruct (Acknowledge_cases cid p) as [->|(record & Hr & ->)]; [done|].
    destruct (pi_decision _ Hp _ _ Hr) as [Hcid Haid]. rewrite Haid. simpl. rewrite bool_decide_eq_true_2 by done.
    split; simpl.
    + intros cid' record' (Hne & Hr')%lookup_delete_Some. destruct (pi_decision _ Hp _ _ Hr') as [? Ha'].
      split; [done|]. rewrite lookup_delete_ne; [done|]. intros E. rewrite E in Haid. congruence.
    + intros aid cid' (Hne & Ha)%lookup_delete_Some. destruct (pi_assignment _ Hp _ _ Ha) as (record' & Hr' & Ha').
      exists record'. rewrite lookup_delete_ne; [done|]. intros ->. simplify_eq.
    + pose proof (pi_size _ Hp). rewrite map_size_delete, Hr. simpl. lia.
Qed.

Lemma planner_run_inv p ops : planner_inv p -> planner_inv (planner_run p ops).
Proof. revert p. induction ops; intros p Hp; simpl; [done|]. by apply IHops, planner_step_inv. Qed.

(** A decision stays until its own command is acknowledged. *)
Lemma planner_step_retains p op cid record :
  planner_inv p -> p_decisions p !! cid = Some record -> op <> OpAcknowledge cid ->
  p_decisions (planner_step p op) !! cid = Some record.
Proof.
  intros Hp Hr Hop. destruct op as [b| |request workers|cid']; simpl; [|done|..].
  - destruct (InstallBarrier b p) as [p' [u|e]] eqn:E; simpl;
      [|by rewrite (InstallBarrier_Atomic _ _ _ _ E)].
    unfold InstallBarrier in E. run_inv. done.
  - destruct (Plan request workers p) as [p' r] eqn:E. simpl.
    apply Plan_cases in E as [[-> _]|(fp & ch & Hpl & _ & ->)]; [done|]. simpl.
    pose proof (pn_command _ _ _ _ _ Hpl). rewrite lookup_insert_ne; [done|congruence].
  - destruct (Acknowledge_cases cid' p) as [->|(record' & _ & ->)]; [done|]. simpl.
    rewrite lookup_delete_ne; [done|congruence].
Qed.

Lemma planner_run_retains p ops cid record :
  planner_inv p -> p_decisions p !! cid = Some record -> OpAcknowledge cid ∉ ops ->
  p_decisions (planner_run p ops) !! cid = Some record.
Proof.
  revert p. induction ops as [|op ops IH]; intros p Hp Hr Hops; simpl; [done|].
  apply IH; [by apply planner_step_inv| |set_solver]. apply planner_step_retains; [done..|set_solver].
Qed.

(** The request under another CommandID. *)
Definition with_command (r : PlacementRequest) (commandID : string) : PlacementRequest :=
  {| pl_CommandID := commandID; pl_AssignmentID := pl_AssignmentID r; pl_VersionID := pl_VersionID r;
     pl_ArtifactDigest := pl_ArtifactDigest r; pl_ArtifactSize := pl_ArtifactSize r; pl_ABI := pl_ABI r;
     pl_HostAPI := pl_HostAPI r; pl_FeatureProfile := pl_FeatureProfile r; pl_RuntimeName := pl_RuntimeName r;
     pl_RuntimeVersion := pl_RuntimeVersion r; pl_RuntimeEngine := pl_RuntimeEngine r; pl_GOOS := pl_GOOS r;
     pl_GOARCH := pl_GOARCH r; pl_MemoryMiB := pl_MemoryMiB r; pl_RequiredSlots := pl_RequiredSlots r;
     pl_AdmissionEpoch := pl_AdmissionEpoch r; pl_DeploymentGeneration := pl_DeploymentGeneration r;
     pl_PolicyDigest := pl_PolicyDigest r; pl_CompiledCacheKey := pl_CompiledCacheKey r;
     pl_RequiredLabels := pl_RequiredLabels r; pl_ExistingWorkerIDs := pl_ExistingWorkerIDs r |}.

Lemma with_command_valid r c :
  PlacementRequest_Validate r = Ok tt -> idPattern c = true ->
  PlacementRequest_Validate (with_command r c) = Ok tt.
Proof.
  intros Hv Hc. unfold PlacementRequest_Validate in *. simpl in *. rewrite Hc. simpl.
  destruct (idPattern (pl_CommandID r)); done.
Qed.

(** C33: The Worker a new decision places an Assignment on is one that may run
    it and the best such Worker.  It belongs to the observed set, its
    observation is valid, it is Schedulable and Ready, its runtime and labels
    match, and its free memory and slots cover the request; and it comes
    strictly before every other placeable Worker in the order: cache affinity,
    then spreading, then exact slot load ratio, then exact memory load ratio,
    then identity. *)
Theorem Plan_best_worker request workers p p' d :
  request_u64 request -> Forall worker_u64 workers ->
  Plan request workers p = (p', Ok (d, None)) -> dc_Status d = StatusApplied ->
  exists w, w ∈ workers /\ placeable request w /\ dc_Assignment d = assignment_of request (w_Session w) /\
    forall w', w' ∈ workers -> placeable request w' -> w' <> w ->
      eligible_order (entry request w) (entry request w') = Lt.
Proof.
  intros Hr Hw [[_ Hno]|(fp & chosen & Hpl & [= ->] & _)]%Plan_cases Hst; [by destruct (Hno d None)|].
  destruct (pn_chosen _ _ _ _ _ Hpl) as [rest Hs].
  pose proof (validateWorkerSet_Ok _ _ (pn_workers _ _ _ _ _ Hpl)) as Hnd.
  destruct (chosen_best request workers (pn_valid _ _ _ _ _ Hpl) Hr Hw Hnd _ _ Hs)
    as (w & Hin & Hp & -> & Hbest). by exists w.
Qed.

(** Placement is refused for want of a Worker exactly when no observed
    Worker may run the request: with a well-formed, new request, a ready
    barrier, room for a decision and a duplicate-free set of observations,
    Plan returns an Assignment if and only if some Worker is placeable. *)
Theorem Plan_succeeds_iff_placeable request workers p fingerprint :
  request_u64 request -> Forall worker_u64 workers ->
  PlacementRequest_Validate request = Ok tt -> requestFingerprint request = Ok fingerprint ->
  p_decisions p !! pl_CommandID request = None -> p_assignments p !! pl_AssignmentID request = None ->
  lb_Ready (p_barrier p) = true -> Z.of_nat (size (p_decisions p)) < p_maxDecisions p ->
  validateWorkerSet workers = Ok tt ->
  (exists p' d, Plan request workers p = (p', Ok (d, None)) /\ dc_Status d = StatusApplied)
  <-> exists w, w ∈ workers /\ placeable request w.
Proof.
  intros Hr Hw Hv Hfp Hd Ha Hb Hn Hset. pose proof (validateWorkerSet_Ok _ _ Hset) as Hnd.
  unfold Plan, sbind, slift, sget, sput, sret. rewrite Hv, Hfp, Hd, Ha, Hb. cbn [negb fail_if].
  rewrite Z.geb_leb, (proj2 (Z.leb_gt _ _)) by done. cbn [fail_if]. rewrite Hset.
  rewrite evaluateCandidates_spec by done. cbn [fst snd]. split.
  - destruct (SortFunc compareEligible (entries request workers)) as [|chosen rest] eqn:Hs.
    + by intros (p' & d & [= _ _] & _).
    + intros _. destruct (chosen_best request workers Hv Hr Hw Hnd _ _ Hs) as (w & ? & ? & _). eauto.
  - intros (w & Hin & Hp).
    assert (entry request w ∈ SortFunc compareEligible (entries request workers)) as He.
    { apply elem_of_SortFunc, elem_of_entries; eauto. }
    destruct (SortFunc compareEligible (entries request workers)); [set_solver|]. eauto.
Qed.

(** Placement is deterministic: the whole result of Plan, decision,
    explanations and new state, does not depend on the order in which the
    Worker observations are listed. *)
Theorem Plan_order_independent request workers workers' p :
  request_u64 request -> Forall worker_u64 workers -> workers ≡ₚ workers' ->
  Plan request workers p = Plan request workers' p.
Proof.
  intros Hr Hw Hp. assert (Forall worker_u64 workers') as Hw' by (by rewrite <-Hp).
  unfold Plan, sbind, slift, sget, sput, sret.
  destruct (PlacementRequest_Validate request) as [[]|] eqn:Hv; [|done].
  destruct (requestFingerprint request); [|done].
  destruct (p_decisions p !! _); [done|]. destruct (p_assignments p !! _); [done|].
  destruct (fail_if (negb _) _) as [[]|]; [|done]. destruct (fail_if (_ >=? _) _) as [[]|]; [|done].
  rewrite <-(validateWorkerSet_Permutation _ _ Hp).
  destruct (validateWorkerSet workers) as [[]|] eqn:Hset; [|done].
  pose proof (validateWorkerSet_Ok _ _ Hset) as Hnd.
  assert (NoDup (map worker_id workers')) as Hnd' by (rewrite <-Hp; done).
  rewrite !evaluateCandidates_spec by done. cbn [fst snd].
  rewrite (candidates_order_independent request workers workers' Hnd Hp).
  rewrite (sorted_entries_Permutation request workers Hv Hr Hw Hnd workers' Hp).
  by rewrite (sorted_entries request workers' Hv Hr Hw').
Qed.

(** A decision is made once.  After a new decision, and after any further
    calls that do not acknowledge its command, a retry of the command returns
    the same decision marked duplicate, whatever Workers are observed then; a
    fresh command for the same Assignment and inputs returns it marked already
    satisfied; and the command with different inputs is refused as a conflict.
    None of these changes the Planner. *)
Theorem Plan_idempotent request workers p p' d ops :
  planner_inv p -> Plan request workers p = (p', Ok (d, None)) -> dc_Status d = StatusApplied ->
  OpAcknowledge (pl_CommandID request) ∉ ops ->
  let q := planner_run p' ops in
  (forall ws, Plan request ws q = (q, Ok (with_status d StatusDuplicate, None))) /\
  (forall c ws, idPattern c = true -> p_decisions q !! c = None ->
     Plan (with_command request c) ws q = (q, Ok (with_status d StatusAlreadySatisfied, None))) /\
  (forall request' ws fingerprint', PlacementRequest_Validate request' = Ok tt ->
     pl_CommandID request' = pl_CommandID request ->
     requestFingerprint request' = Ok fingerprint' -> requestFingerprint request <> Ok fingerprint' ->
     Plan request' ws q
     = (q, Err (classified CodeConflict "command id was reused with different placement input"))).
Proof.
  intros Hp Hplan Hst Hops. apply Plan_cases in Hplan as [[_ Hno]|(fp & chosen & Hpl & [= ->] & ->)];
    [by destruct (Hno d None)|].
  set (d := decision_of request workers p chosen) in *. set (q := planner_run _ ops).
  assert (planner_inv q) as Hq by (by apply planner_run_inv, planned_inv).
  assert (p_decisions q !! pl_CommandID request = Some {| dr_fingerprint := fp; dr_decision := d |}) as Hrec.
  { apply planner_run_retains; [by apply planned_inv|simpl; by rewrite lookup_insert_eq|done]. }
  destruct (pi_decision _ Hq _ _ Hrec) as [_ Haid]. simpl in Haid.
  pose proof (pn_valid _ _ _ _ _ Hpl) as Hv. pose proof (pn_fingerprint _ _ _ _ _ Hpl) as Hfp.
  split_and!.
  - intros ws. unfold Plan, sbind, slift, sget, sret. rewrite Hv, Hfp, Hrec. simpl.
    by rewrite bool_decide_eq_true_2.
  - intros c ws Hc Hnone. unfold Plan, sbind, slift, sget, sret. rewrite (with_command_valid _ _ Hv Hc).
    change (requestFingerprint (with_command request c)) with (requestFingerprint request). rewrite Hfp. simpl.
    rewrite Hnone, Haid, Hrec. simpl. by rewrite bool_decide_eq_true_2.
  - intros request' ws fp' Hv' Hcid Hfp' Hne. unfold Plan, sbind, slift, sget, sret.
    rewrite Hv', Hfp', Hcid, Hrec. simpl. rewrite bool_decide_eq_false_2; [done|congruence].
Qed.

Definition barrier_ge (b b' : LeaderBarrier) : Prop :=
  lb_Term b <= lb_Term b' /\ lb_AppliedIndex b <= lb_AppliedIndex b'.

Lemma planner_step_barrier p op :
  p_barrier p = {| lb_Term := 0; lb_AppliedIndex := 0; lb_Ready := false |} \/ 0 < lb_Term (p_barrier p) ->
  (forall b, op = OpInstallBarrier b -> 0 <= lb_Term b /\ 0 <= lb_AppliedIndex b) ->
  barrier_ge (p_barrier p) (p_barrier (planner_step p op)) /\
  (p_barrier (planner_step p op) = {| lb_Term := 0; lb_AppliedIndex := 0; lb_Ready := false |} \/
   0 < lb_Term (p_barrier (planner_step p op))) /\
  (lb_Ready (p_barrier (planner_step p op)) = true ->
     lb_Ready (p_barrier p) = true \/ exists b, op = OpInstallBarrier b /\ p_barrier (planner_step p op) = b).
Proof.
  intros Hb Hty. destruct op as [b| |request workers|cid]; simpl.
  - destruct (InstallBarrier b p) as [p' [u|e]] eqn:E; simpl;
      [|rewrite (InstallBarrier_Atomic _ _ _ _ E); unfold barrier_ge; naive_solver lia].
    unfold InstallBarrier in E. run_inv. ok_inv. simpl. destruct (Hty b eq_refl). unfold barrier_ge.
    split_and!; [..|by eauto].
    + destruct Hb as [->|Hb]; simpl; [lia|]. naive_solver lia.
    + destruct Hb as [->|Hb]; simpl; [lia|]. naive_solver lia.
    + right. lia.
  - unfold barrier_ge. simpl. split_and!; [lia..| |done]. destruct Hb as [->|Hb]; [by left|by right].
  - destruct (Plan request workers p) as [p' r] eqn:E. simpl. unfold barrier_ge.
    apply Plan_cases in E as [[-> _]|(fp & ch & _ & _ & ->)]; simpl; naive_solver lia.
  - unfold barrier_ge. destruct (Acknowledge_cases cid p) as [->|(record & _ & ->)]; simpl; naive_solver lia.
Qed.

Definition typed_op (op : planner_op) : Prop :=
  forall b, op = OpInstallBarrier b -> 0 <= lb_Term b /\ 0 <= lb_AppliedIndex b.
Definition barrier_started (p : Planner) : Prop :=
  p_barrier p = {| lb_Term := 0; lb_AppliedIndex := 0; lb_Ready := false |} \/ 0 < lb_Term (p_barrier p).

Lemma planner_run_barrier p ops :
  barrier_started p -> Forall typed_op ops ->
  barrier_started (planner_run p ops) /\ barrier_ge (p_barrier p) (p_barrier (planner_run p ops)) /\
  (lb_Ready (p_barrier p) = false -> (forall b, OpInstallBarrier b ∉ ops) ->
   lb_Ready (p_barrier (planner_run p ops)) = false).
Proof.
  revert p. induction ops as [|op ops IH]; intros p Hp Hty; simpl.
  { unfold barrier_ge. split_and!; [done|lia|lia|done]. }
  apply Forall_cons in Hty as [Hop Hty].
  destruct (planner_step_barrier p op Hp Hop) as (Hge & Hst & Hready).
  destruct (IH _ Hst Hty) as (Hs & Hge' & Hr). unfold barrier_ge in *. split_and!; [done|lia|lia|].
  intros Hoff Hno. apply Hr; [|intros b; specialize (Hno b); set_solver].
  destruct (lb_Ready (p_barrier (planner_step p op))) eqn:E; [|done].
  destruct (Hready eq_refl) as [?|(b & -> & _)]; [congruence|]. destruct (Hno b). set_solver.
Qed.

(** Leadership fences placement.  Over any history of a new Planner the
    installed term and applied index never go backwards; and once the barrier
    has been invalidated, no new decision is made until a barrier is installed
    again, whatever else is called in between. *)
Theorem leader_barrier_authority maxDecisions p ops ops' :
  New maxDecisions = Ok p -> Forall typed_op ops -> Forall typed_op ops' ->
  let q := planner_run p ops in
  barrier_ge (p_barrier q) (p_barrier (planner_run q ops')) /\
  ((forall b, OpInstallBarrier b ∉ ops') ->
   forall request workers p' d oe,
     Plan request workers (planner_run (InvalidateBarrier q) ops') = (p', Ok (d, oe)) ->
     dc_Status d <> StatusApplied).
Proof.
  intros Hnew Hty Hty'. assert (barrier_started p) as Hp by (unfold New in Hnew; ok_inv; subst p; by left).
  destruct (planner_run_barrier p ops Hp Hty) as (Hq & _ & _). simpl. set (q := planner_run p ops) in *.
  split; [by apply planner_run_barrier|]. intros Hno request workers p' d oe Hplan Hst.
  apply Plan_cases in Hplan as [[_ Hnot]|(fp & chosen & Hpl & _ & _)]; [by eapply Hnot|].
  assert (barrier_started (InvalidateBarrier q)) as Hi.
  { unfold barrier_started in *. simpl. destruct Hq as [->|Hq]; [by left|by right]. }
  destruct (planner_run_barrier _ _ Hi Hty') as (_ & _ & Hoff).
  pose proof (pn_barrier _ _ _ _ _ Hpl) as Hon. rewrite Hoff in Hon; done.
Qed.

(** The Planner's records stay bounded and consistent over any history:
    never more than the configured limit, itself at most 100000, and the index
    by Assignment is a bijection onto the retained commands, so that no
    Assignment is planned twice. *)
Theorem planner_bookkeeping maxDecisions p ops :
  New maxDecisions = Ok p ->
  let q := planner_run p ops in
  DecisionCount q <= p_maxDecisions q <= HardMaxDecisions /\
  (forall cid, is_Some (p_decisions q !! cid) <-> exists aid, p_assignments q !! aid = Some cid) /\
  (forall aid aid' cid, p_assignments q !! aid = Some cid -> p_assignments q !! aid' = Some cid -> aid = aid').
Proof.
  intros Hnew. pose proof (planner_run_inv p ops (New_planner_inv _ _ Hnew)) as Hq. simpl.
  set (q := planner_run p ops) in *.
  assert (forall aid aid' cid, p_assignments q !! aid = Some cid -> p_assignments q !! aid' = Some cid ->
    aid = aid') as Hinj.
  { intros aid aid' cid Ha Ha'. destruct (pi_assignment _ Hq _ _ Ha) as (r & Hr & <-).
    destruct (pi_assignment _ Hq _ _ Ha') as (r' & Hr' & <-). congruence. }
  assert (forall cid, is_Some (p_decisions q !! cid) <-> exists aid, p_assignments q !! aid = Some cid) as Hdom.
  { intros cid. split.
    - intros [record Hr]. eexists. apply (pi_decision _ Hq _ _ Hr).
    - intros [aid Ha]. destruct (pi_assignment _ Hq _ _ Ha) as (r & Hr & _). eauto. }
  split_and!; [apply Hq..|done|done].
Qed.

End planner_theory.
(** ** Witnesses *)
#[local] Instance ex_jcs : JCS := fun document => Ok document.

Definition ex_no_key : Key :=
  {| k_ArtifactDigest := ""; k_ArtifactSize := 0; k_RuntimeName := ""; k_RuntimeVersion := ""; k_ABI := "";
     k_HostAPIProfile := ""; k_RuntimeFeatureProfile := ""; k_Engine := ""; k_MemoryLimitMiB := 0;
     k_GOOS := ""; k_GOARCH := "" |}.
Definition ex_request (commandID assignmentID : string) : PlacementRequest :=
  {| pl_CommandID := commandID; pl_AssignmentID := assignmentID; pl_VersionID := "ver_1";
     pl_ArtifactDigest := Sum "artifact"; pl_ArtifactSize := 4096; pl_ABI := ABIWASICommandV1;
     pl_HostAPI := HostAPIProfileNone; pl_FeatureProfile := wasmprofile.FeatureProfile;
     pl_RuntimeName := wasmprofile.RuntimeName; pl_RuntimeVersion := wasmprofile.RuntimeVersion;
     pl_RuntimeEngine := wasmprofile.EngineCompiler; pl_GOOS := "linux"; pl_GOARCH := "amd64";
     pl_MemoryMiB := 64; pl_RequiredSlots := 4; pl_AdmissionEpoch := 1; pl_DeploymentGeneration := 1;
     pl_PolicyDigest := Sum "policy"; pl_CompiledCacheKey := ex_no_key;
     pl_RequiredLabels := None; pl_ExistingWorkerIDs := None |}.
Definition ex_worker (id : string) (allocated : Z) : WorkerSnapshot :=
  {| w_Session := {| ws_WorkerID := id; ws_BootID := "boot-1"; ws_SessionEpoch := 1 |};
     w_Runtime := {| rp_Name := wasmprofile.RuntimeName; rp_Version := wasmprofile.RuntimeVersion;
       rp_Engine := wasmprofile.EngineCompiler; rp_GOOS := "linux"; rp_GOARCH := "amd64";
       rp_ABI := ABIWASICommandV1; rp_HostAPI := HostAPIProfileNone;
       rp_FeatureProfile := wasmprofile.FeatureProfile; rp_MemoryMiB := 64 |};
     w_Intent := IntentSchedulable; w_State := SessionReady; w_Drain := DrainNotDraining;
     w_Capacity := {| ca_MemoryMiB := 1024; ca_AllocatedMemoryMiB := 64 * allocated;
       ca_Slots := 16; ca_AllocatedSlots := allocated |};
     w_Labels := ∅; w_Cache := {| ch_Artifacts := ∅; ch_Compiled := ∅ |} |}.
Definition ex_workers : list WorkerSnapshot := [ex_worker "worker-1" 8; ex_worker "worker-2" 2; ex_worker "worker-3" 14].
Definition ex_empty : Planner :=
  {| p_maxDecisions := DefaultMaxDecisions;
     p_barrier := {| lb_Term := 0; lb_AppliedIndex := 0; lb_Ready := false |};
     p_decisions := ∅; p_assignments := ∅ |}.
Definition ex_barrier : LeaderBarrier := {| lb_Term := 3; lb_AppliedIndex := 40; lb_Ready := true |}.
Definition ex_quiet : list planner_op := [OpInvalidateBarrier; OpAcknowledge "cmd-1"].
Definition ex_planner : Planner := planner_step ex_empty (OpInstallBarrier ex_barrier).
Definition ex_chosen : Decision :=
  decision_of (ex_request "cmd-1" "asg-1") ex_workers ex_planner (entry (ex_request "cmd-1" "asg-1") (ex_worker "worker-2" 2)).

Lemma ex_empty_new : New 0 = Ok ex_empty.
Proof. done. Qed.
Lemma ex_workers_u64 : Forall worker_u64 ex_workers.
Proof. repeat constructor; simpl; lia. Qed.
Lemma ex_request_u64 c a : request_u64 (ex_request c a).
Proof. unfold request_u64. simpl. lia. Qed.
Lemma ex_planner_inv : planner_inv ex_planner.
Proof. apply planner_step_inv. exact (New_planner_inv _ _ ex_empty_new). Qed.

(** The least loaded of the three Workers is chosen; the third lacks slots. *)
Lemma ex_plan_runs :
  Plan (ex_request "cmd-1" "asg-1") ex_workers ex_planner
  = (fst (Plan (ex_request "cmd-1" "asg-1") ex_workers ex_planner), Ok (ex_chosen, None)).
Proof. by vm_compute. Qed.

Lemma Plan_best_worker_witness :
  exists w, w ∈ ex_workers /\ placeable (ex_request "cmd-1" "asg-1") w /\
    dc_Assignment ex_chosen = assignment_of (ex_request "cmd-1" "asg-1") (w_Session w).
Proof.
  destruct (Plan_best_worker (ex_request "cmd-1" "asg-1") ex_workers ex_planner _ ex_chosen
    (ex_request_u64 _ _) ex_workers_u64 ex_plan_runs eq_refl) as (w & H1 & H2 & H3 & _).
  exists w. split; [exact H1|]. split; [exact H2|exact H3].
Defined.

Lemma Plan_succeeds_iff_placeable_witness :
  exists w, w ∈ ex_workers /\ placeable (ex_request "cmd-1" "asg-1") w.
Proof.
  assert (exists fp, requestFingerprint (ex_request "cmd-1" "asg-1") = Ok fp) as [fp Hfp] by (eexists; by vm_compute).
  apply (Plan_succeeds_iff_placeable (ex_request "cmd-1" "asg-1") ex_workers ex_planner fp
    (ex_request_u64 _ _) ex_workers_u64); [by vm_compute|exact Hfp|by vm_compute..|].
  eexists _, ex_chosen. split; [exact ex_plan_runs|reflexivity].
Defined.

Lemma Plan_order_independent_witness :
  Plan (ex_request "cmd-1" "asg-1") (rev ex_workers) ex_planner
  = Plan (ex_request "cmd-1" "asg-1") ex_workers ex_planner.
Proof.
  symmetry. apply (Plan_order_independent _ _ _ _ (ex_request_u64 _ _) ex_workers_u64), Permutation_rev.
Defined.

Lemma Plan_idempotent_witness :
  let q := planner_run (fst (Plan (ex_request "cmd-1" "asg-1") ex_workers ex_planner))
             [OpInvalidateBarrier; OpAcknowledge "cmd-2"] in
  Plan (ex_request "cmd-1" "asg-1") [] q = (q, Ok (with_status ex_chosen StatusDuplicate, None)).
Proof.
  destruct (Plan_idempotent (ex_request "cmd-1" "asg-1") ex_workers ex_planner _ ex_chosen
    [OpInvalidateBarrier; OpAcknowledge "cmd-2"] ex_planner_inv ex_plan_runs eq_refl) as [Hdup _].
  { rewrite !not_elem_of_cons. split; [done|]. split; [|apply not_elem_of_nil]. by intros [=]. }
  exact (Hdup []).
Defined.

Lemma leader_barrier_authority_witness :
  barrier_ge (p_barrier ex_planner) (p_barrier (planner_run ex_planner ex_quiet)) /\
  (forall p' d oe,
    Plan (ex_request "cmd-1" "asg-1") ex_workers (planner_run (InvalidateBarrier ex_planner) ex_quiet) =
      (p', Ok (d, oe)) ->
    dc_Status d <> StatusApplied).
Proof.
  destruct (leader_barrier_authority 0 ex_empty [OpInstallBarrier ex_barrier] ex_quiet ex_empty_new) as [Hge Hfence].
  - apply Forall_singleton. intros b [= <-]. simpl. lia.
  - apply Forall_cons. split; [intros b [=]|]. apply Forall_singleton. intros b [=].
  - split; [exact Hge|]. apply Hfence. intros b. unfold ex_quiet. rewrite !not_elem_of_cons.
    split_and!; [intros [=]|intros [=]|apply not_elem_of_nil].
Defined.

Lemma planner_bookkeeping_witness : DecisionCount ex_planner <= HardMaxDecisions.
Proof.
  destruct (planner_bookkeeping 0 ex_empty [OpInstallBarrier ex_barrier] ex_empty_new) as [[H1 H2] _].
  etrans; [exact H1|exact H2].
Defined.

End scheduler.
