(* ===== verification/WorkerRegistry.v ===== *)
(** * Package [internal/workerregistry]: Worker sessions and liveness

    The registry tracks, for every Worker identity, the highest committed
    session epoch, the scheduling intent, the drain state and a liveness state
    derived from heartbeats.  The injected monotonic clock is outside the
    package: every operation that reads it takes the reading as an argument.
    Nil and empty label and cache maps are not distinguished. *)
From stdpp Require Import base gmap strings list sorting.
From S2P Require Import Prelude Problem Digest Json Model ServingAuth Scheduler.
Import problem digest model servingauth scheduler.

#[local] Open Scope Z_scope.

Module workerregistry.

Definition DefaultHeartbeatInterval : Z := 2 * second.
Definition DefaultSuspectAfter : Z := 6 * second.
Definition DefaultUnavailableAfter : Z := 10 * second.
Definition HardHeartbeatInterval : Z := 30 * second.
Definition HardSuspectAfter : Z := 10 * minute.
Definition HardUnavailableAfter : Z := 10 * minute.
Definition DefaultMaxWorkers : Z := 1000.
Definition HardMaxWorkers : Z := 1000.

Record Config := {
  cf_HeartbeatInterval : Z;
  cf_SuspectAfter : Z;
  cf_UnavailableAfter : Z;
  cf_MaxWorkers : Z;
}.

Record Inventory := {
  in_Revision : Z;
  in_Session : WorkerSession;
  in_Runtime : RuntimeProfile;
  in_Capacity : Capacity;
  in_Labels : gmap string string;
  in_Cache : CacheHints;
}.

Record DrainObservation := {
  do_Session : WorkerSession;
  do_ActiveInvocations : Z;
  do_AssignmentsDrained : bool;
  do_GatewayFencesAcked : bool;
  do_AuthorizationExpired : bool;
}.

Record WorkerView := {
  wv_Snapshot : WorkerSnapshot;
  wv_MaxSessionEpoch : Z;
  wv_LastHeartbeat : Z;
  wv_Registered : bool;
}.

Record RegistrySnapshot := {
  rs_Revision : Z;
  rs_ClockHealthy : bool;
  rs_Workers : list WorkerView;
}.

Record workerRecord := {
  wr_workerID : string;
  wr_bootID : string;
  wr_maxSessionEpoch : Z;
  wr_current : WorkerSession;
  wr_registered : bool;
  wr_needsNewSession : bool;
  wr_intent : string;
  wr_drain : string;
  wr_state : string;
  wr_runtime : RuntimeProfile;
  wr_capacity : Capacity;
  wr_labels : gmap string string;
  wr_cache : CacheHints;
  wr_hasInventory : bool;
  wr_inventoryRevision : Z;
  wr_lastHeartbeat : Z;
}.

Record Registry := {
  r_heartbeatInterval : Z;
  r_suspectAfter : Z;
  r_unavailableAfter : Z;
  r_maxWorkers : Z;
  r_workers : gmap string workerRecord;
  r_revision : Z;
  r_lastElapsed : Z;
  r_clockHealthy : bool;
}.

Definition zero_RuntimeProfile : RuntimeProfile :=
  {| rp_Name := ""; rp_Version := ""; rp_Engine := ""; rp_GOOS := ""; rp_GOARCH := ""; rp_ABI := "";
     rp_HostAPI := ""; rp_FeatureProfile := ""; rp_MemoryMiB := 0 |}.
Definition zero_Capacity : Capacity :=
  {| ca_MemoryMiB := 0; ca_AllocatedMemoryMiB := 0; ca_Slots := 0; ca_AllocatedSlots := 0 |}.
Definition zero_CacheHints : CacheHints := {| ch_Artifacts := ∅; ch_Compiled := ∅ |}.
Definition zero_WorkerSession : WorkerSession :=
  {| ws_WorkerID := ""; ws_BootID := ""; ws_SessionEpoch := 0 |}.

(** [New], given the first reading of the configured clock. *)
Definition New (config : Config) (elapsed : Z) : result Registry :=
  let heartbeat :=
    if cf_HeartbeatInterval config =? 0 then DefaultHeartbeatInterval else cf_HeartbeatInterval config in
  let suspect := if cf_SuspectAfter config =? 0 then DefaultSuspectAfter else cf_SuspectAfter config in
  let unavailable :=
    if cf_UnavailableAfter config =? 0 then DefaultUnavailableAfter else cf_UnavailableAfter config in
  let maxWorkers := if cf_MaxWorkers config =? 0 then DefaultMaxWorkers else cf_MaxWorkers config in
  fail_if ((heartbeat <? 500 * millisecond) || (heartbeat >? HardHeartbeatInterval)
           || (suspect <=? heartbeat) || (suspect >? HardSuspectAfter)
           || (unavailable <=? suspect) || (unavailable >? HardUnavailableAfter))
    (PlainError "worker registry timing bounds are invalid") ;;;
  fail_if ((maxWorkers <? 1) || (maxWorkers >? HardMaxWorkers))
    (PlainError "worker registry worker limit is outside v1 bounds") ;;;
  fail_if (elapsed <? 0) (PlainError "worker registry clock returned negative elapsed time") ;;;
  Ok {| r_heartbeatInterval := heartbeat; r_suspectAfter := suspect; r_unavailableAfter := unavailable;
        r_maxWorkers := maxWorkers; r_workers := ∅; r_revision := 0; r_lastElapsed := elapsed;
        r_clockHealthy := true |}.

(** The registry with its workers and its revision replaced. *)
Definition set_workers (r : Registry) (workers : gmap string workerRecord) (revision : Z) : Registry :=
  {| r_heartbeatInterval := r_heartbeatInterval r; r_suspectAfter := r_suspectAfter r;
     r_unavailableAfter := r_unavailableAfter r; r_maxWorkers := r_maxWorkers r;
     r_workers := workers; r_revision := revision; r_lastElapsed := r_lastElapsed r;
     r_clockHealthy := r_clockHealthy r |}.

Definition set_clock (r : Registry) (workers : gmap string workerRecord) (lastElapsed : Z) (healthy : bool)
    : Registry :=
  {| r_heartbeatInterval := r_heartbeatInterval r; r_suspectAfter := r_suspectAfter r;
     r_unavailableAfter := r_unavailableAfter r; r_maxWorkers := r_maxWorkers r;
     r_workers := workers; r_revision := r_revision r; r_lastElapsed := lastElapsed;
     r_clockHealthy := healthy |}.

(** The fields of a record that more than one operation assigns. *)
Definition with_lifecycle (record : workerRecord) (registered needsNewSession : bool)
    (intent drain state : string) : workerRecord :=
  {| wr_workerID := wr_workerID record; wr_bootID := wr_bootID record;
     wr_maxSessionEpoch := wr_maxSessionEpoch record; wr_current := wr_current record;
     wr_registered := registered; wr_needsNewSession := needsNewSession;
     wr_intent := intent; wr_drain := drain; wr_state := state;
     wr_runtime := wr_runtime record; wr_capacity := wr_capacity record; wr_labels := wr_labels record;
     wr_cache := wr_cache record; wr_hasInventory := wr_hasInventory record;
     wr_inventoryRevision := wr_inventoryRevision record; wr_lastHeartbeat := wr_lastHeartbeat record |}.

Definition with_state (record : workerRecord) (state : string) : workerRecord :=
  with_lifecycle record (wr_registered record) (wr_needsNewSession record) (wr_intent record)
    (wr_drain record) state.

(** The record that the first commit of an identity creates. *)
Definition new_worker (workerID : string) : workerRecord :=
  {| wr_workerID := workerID; wr_bootID := ""; wr_maxSessionEpoch := 0; wr_current := zero_WorkerSession;
     wr_registered := false; wr_needsNewSession := false; wr_intent := IntentSchedulable;
     wr_drain := DrainNotDraining; wr_state := SessionJoining; wr_runtime := zero_RuntimeProfile;
     wr_capacity := zero_Capacity; wr_labels := ∅; wr_cache := zero_CacheHints; wr_hasInventory := false;
     wr_inventoryRevision := 0; wr_lastHeartbeat := 0 |}.

(** The assignments of [CommitSession]. *)
Definition committed (record : workerRecord) (session : WorkerSession) : workerRecord :=
  {| wr_workerID := wr_workerID record; wr_bootID := ws_BootID session;
     wr_maxSessionEpoch := ws_SessionEpoch session; wr_current := session;
     wr_registered := false; wr_needsNewSession := false; wr_intent := wr_intent record;
     wr_drain := wr_drain record; wr_state := SessionJoining; wr_runtime := zero_RuntimeProfile;
     wr_capacity := zero_Capacity; wr_labels := ∅; wr_cache := zero_CacheHints; wr_hasInventory := false;
     wr_inventoryRevision := 0; wr_lastHeartbeat := wr_lastHeartbeat record |}.

Definition CommitSession (session : WorkerSession) : M Registry unit :=
  do! slift (WorkerSession_validate session) in
  let! r := sget in
  let workerID := ws_WorkerID session in
  let! record :=
    match r_workers r !! workerID with
    | Some record => sret record
    | None =>
      do! slift (fail_if (Z.of_nat (size (r_workers r)) >=? r_maxWorkers r)
                   (classified CodeOverloaded "worker registry capacity is full")) in
      do! slift (fail_if (negb (ws_SessionEpoch session =? 1))
                   (classified CodeStaleAssignment "new Worker session must start at epoch one")) in
      let record := new_worker workerID in
      do! sput (set_workers r (<[workerID := record]> (r_workers r)) (r_revision r)) in
      sret record
    end in
  let! r := sget in
  do! slift (fail_if (wr_intent record == IntentRemoved)
               (classified CodeForbidden "removed Worker identity cannot register")) in
  do! slift (fail_if (negb (ws_SessionEpoch session =? u64 (wr_maxSessionEpoch record + 1)))
               (classified CodeStaleAssignment
                  "session epoch is not the next committed high-water mark")) in
  sput (set_workers r (<[workerID := committed record session]> (r_workers r)) (u64 (r_revision r + 1))).

(** The loop of [elapsedLocked] on a clock regression. *)
Definition clock_failed (record : workerRecord) : workerRecord :=
  if wr_registered record && (wr_intent record != IntentRemoved)
  then with_state record SessionUnavailable else record.

Definition elapsedLocked (now : Z) : M Registry Z :=
  let! r := sget in
  if negb (r_clockHealthy r) || (now <? r_lastElapsed r) then
    do! sput (set_clock r (clock_failed <$> r_workers r) (r_lastElapsed r) false) in
    sthrow (classified CodeControlPlaneStale "worker registry monotonic clock is unhealthy")
  else
    do! sput (set_clock r (r_workers r) now (r_clockHealthy r)) in
    sret now.

(** The assignments of [Register]. *)
Definition joined (record : workerRecord) (session : WorkerSession) (now : Z) : workerRecord :=
  {| wr_workerID := wr_workerID record; wr_bootID := wr_bootID record;
     wr_maxSessionEpoch := wr_maxSessionEpoch record; wr_current := session;
     wr_registered := true; wr_needsNewSession := wr_needsNewSession record; wr_intent := wr_intent record;
     wr_drain := wr_drain record; wr_state := SessionJoining; wr_runtime := wr_runtime record;
     wr_capacity := wr_capacity record; wr_labels := wr_labels record; wr_cache := wr_cache record;
     wr_hasInventory := false; wr_inventoryRevision := wr_inventoryRevision record;
     wr_lastHeartbeat := now |}.

Definition Register (session : WorkerSession) (clock : Z) : M Registry unit :=
  do! slift (WorkerSession_validate session) in
  let! r := sget in
  match r_workers r !! ws_WorkerID session with
  | None => sthrow (classified CodeStaleAssignment "Worker session is not committed")
  | Some record =>
    do! slift (fail_if (wr_intent record == IntentRemoved)
                 (classified CodeForbidden "removed Worker identity cannot register")) in
    do! slift (fail_if (negb (wr_maxSessionEpoch record =? ws_SessionEpoch session)
                        || (wr_bootID record != ws_BootID session))
                 (classified CodeStaleAssignment "Worker session is stale")) in
    do! slift (fail_if (wr_needsNewSession record)
                 (classified CodeStaleAssignment "Worker must register a newer session")) in
    if wr_registered record && (wr_current record == session) then sret tt
    else
      do! slift (fail_if (wr_registered record)
                   (classified CodeStaleAssignment "another registration owns the current session")) in
      let! now := elapsedLocked clock in
      let! r := sget in
      sput (set_workers r (<[ws_WorkerID session := joined record session now]> (r_workers r))
              (u64 (r_revision r + 1)))
  end.

Definition currentLocked (session : WorkerSession) (r : Registry) : result workerRecord :=
  let stale := classified CodeStaleAssignment "Worker session is stale or unavailable" in
  match r_workers r !! ws_WorkerID session with
  | None => Err stale
  | Some record => fail_if (negb (wr_registered record) || (wr_current record != session)) stale ;;; Ok record
  end.

(** The observation that [ReportInventory] validates. *)
Definition observation_of (record : workerRecord) (inventory : Inventory) : WorkerSnapshot :=
  {| w_Session := in_Session inventory; w_Runtime := in_Runtime inventory; w_Intent := wr_intent record;
     w_State := SessionReady; w_Drain := wr_drain record; w_Capacity := in_Capacity inventory;
     w_Labels := in_Labels inventory; w_Cache := in_Cache inventory |}.

(** The assignments of [ReportInventory]. *)
Definition inventoried (record : workerRecord) (inventory : Inventory) (now : Z) : workerRecord :=
  {| wr_workerID := wr_workerID record; wr_bootID := wr_bootID record;
     wr_maxSessionEpoch := wr_maxSessionEpoch record; wr_current := wr_current record;
     wr_registered := wr_registered record; wr_needsNewSession := wr_needsNewSession record;
     wr_intent := wr_intent record; wr_drain := wr_drain record; wr_state := SessionReady;
     wr_runtime := in_Runtime inventory; wr_capacity := in_Capacity inventory;
     wr_labels := in_Labels inventory; wr_cache := in_Cache inventory; wr_hasInventory := true;
     wr_inventoryRevision := in_Revision inventory; wr_lastHeartbeat := now |}.

Definition ReportInventory (inventory : Inventory) (clock : Z) : M Registry unit :=
  let session := in_Session inventory in
  do! slift (WorkerSession_validate session) in
  let! r := sget in
  let! record := slift (currentLocked session r) in
  do! slift (fail_if (wr_needsNewSession record)
               (classified CodeStaleAssignment
                  "Worker must register a newer session before reporting inventory")) in
  do! slift (fail_if (wr_hasInventory record && (in_Revision inventory <? wr_inventoryRevision record))
               (classified CodeStaleGeneration "Worker inventory revision is stale")) in
  do! slift (WorkerSnapshot_validate (observation_of record inventory)) in
  let! now := elapsedLocked clock in
  let! r := sget in
  sput (set_workers r (<[ws_WorkerID session := inventoried record inventory now]> (r_workers r))
          (u64 (r_revision r + 1))).

(** [record.lastHeartbeat = now]. *)
Definition heard (record : workerRecord) (now : Z) : workerRecord :=
  {| wr_workerID := wr_workerID record; wr_bootID := wr_bootID record;
     wr_maxSessionEpoch := wr_maxSessionEpoch record; wr_current := wr_current record;
     wr_registered := wr_registered record; wr_needsNewSession := wr_needsNewSession record;
     wr_intent := wr_intent record; wr_drain := wr_drain record; wr_state := wr_state record;
     wr_runtime := wr_runtime record; wr_capacity := wr_capacity record; wr_labels := wr_labels record;
     wr_cache := wr_cache record; wr_hasInventory := wr_hasInventory record;
     wr_inventoryRevision := wr_inventoryRevision record; wr_lastHeartbeat := now |}.

Definition Heartbeat (session : WorkerSession) (clock : Z) : M Registry unit :=
  do! slift (WorkerSession_validate session) in
  let! r := sget in
  let! record := slift (currentLocked session r) in
  do! slift (fail_if (wr_needsNewSession record)
               (classified CodeStaleAssignment
                  "Worker must register a newer session before sending heartbeats")) in
  let! now := elapsedLocked clock in
  let! r := sget in
  let record := heard record now in
  if wr_hasInventory record && negb (wr_needsNewSession record)
     && ((wr_state record == SessionSuspect) || (wr_state record == SessionUnavailable)) then
    sput (set_workers r (<[ws_WorkerID session := with_state record SessionReady]> (r_workers r))
            (u64 (r_revision r + 1)))
  else sput (set_workers r (<[ws_WorkerID session := record]> (r_workers r)) (r_revision r)).

(** The state that [Evaluate] derives for a record. *)
Definition derived_state (r : Registry) (record : workerRecord) (now : Z) : string :=
  if negb (wr_registered record) || wr_needsNewSession record || negb (wr_hasInventory record)
  then wr_state record
  else
    let elapsed := i64 (now - wr_lastHeartbeat record) in
    if elapsed >=? r_unavailableAfter r then SessionUnavailable
    else if elapsed >=? r_suspectAfter r then SessionSuspect
    else SessionReady.

(** The loop of [Evaluate], visiting the records in a given order. *)
Definition evaluate_records (now : Z) (order : list (string * workerRecord)) (r : Registry) : Registry :=
  foldl (fun r '(workerID, record) =>
    let next := derived_state r record now in
    if next != wr_state record then
      set_workers r (<[workerID := with_state record next]> (r_workers r)) (u64 (r_revision r + 1))
    else r) r order.

Definition Evaluate_in (order : list (string * workerRecord)) (clock : Z) : M Registry unit :=
  let! now := elapsedLocked clock in
  let! r := sget in
  sput (evaluate_records now order r).

Definition Evaluate (clock : Z) (r : Registry) : Registry * result unit :=
  Evaluate_in (map_to_list (r_workers r)) clock r.

Definition intentValid (intent : string) : bool :=
  (intent == IntentSchedulable) || (intent == IntentDraining) || (intent == IntentRemoved).

(** The record after [SetIntent] to an intent other than its own. *)
Definition with_intent (record : workerRecord) (intent : string) : workerRecord :=
  if intent == IntentDraining then
    with_lifecycle record (wr_registered record) (wr_needsNewSession record) intent DrainDraining
      (wr_state record)
  else with_lifecycle record (wr_registered record) true intent DrainNotDraining SessionJoining.

(** The record that [SetIntent] removes. *)
Definition removed (record : workerRecord) : workerRecord :=
  with_lifecycle record false (wr_needsNewSession record) IntentRemoved (wr_drain record) SessionUnavailable.

Definition SetIntent (workerID intent : string) : M Registry unit :=
  do! slift (fail_if (negb (idPattern workerID) || negb (intentValid intent))
               (Invalid "worker_intent" "worker ID or intent is invalid")) in
  let! r := sget in
  match r_workers r !! workerID with
  | None => sthrow (Invalid "worker_id" "worker is not registered")
  | Some record =>
    do! slift (fail_if (wr_intent record == IntentRemoved)
                 (classified CodeForbidden "removed Worker intent cannot change")) in
    if intent == IntentRemoved then
      do! slift (fail_if ((wr_intent record != IntentDraining) || (wr_drain record != DrainDrained))
                   (classified CodeConflict "Worker must be Drained before Removed")) in
      sput (set_workers r (<[workerID := removed record]> (r_workers r)) (u64 (r_revision r + 1)))
    else if wr_intent record == intent then sret tt
    else sput (set_workers r (<[workerID := with_intent record intent]> (r_workers r)) (u64 (r_revision r + 1)))
  end.

Definition drain_proved (observation : DrainObservation) : bool :=
  (do_ActiveInvocations observation =? 0) && do_AssignmentsDrained observation
  && (do_GatewayFencesAcked observation || do_AuthorizationExpired observation).

Definition with_drain (record : workerRecord) (drain : string) : workerRecord :=
  with_lifecycle record (wr_registered record) (wr_needsNewSession record) (wr_intent record) drain
    (wr_state record).

Definition UpdateDrain (observation : DrainObservation) : M Registry unit :=
  let session := do_Session observation in
  do! slift (WorkerSession_validate session) in
  let! r := sget in
  let! record := slift (currentLocked session r) in
  do! slift (fail_if (wr_intent record != IntentDraining)
               (classified CodeConflict "Worker is not draining")) in
  let nextDrain := if drain_proved observation then DrainDrained else DrainDraining in
  if wr_drain record != nextDrain then
    sput (set_workers r (<[ws_WorkerID session := with_drain record nextDrain]> (r_workers r))
            (u64 (r_revision r + 1)))
  else sret tt.

Definition snapshot_of (record : workerRecord) : WorkerSnapshot :=
  {| w_Session := wr_current record; w_Runtime := wr_runtime record; w_Intent := wr_intent record;
     w_State := wr_state record; w_Drain := wr_drain record; w_Capacity := wr_capacity record;
     w_Labels := wr_labels record; w_Cache := wr_cache record |}.

Definition view_of (record : workerRecord) : WorkerView :=
  {| wv_Snapshot := snapshot_of record; wv_MaxSessionEpoch := wr_maxSessionEpoch record;
     wv_LastHeartbeat := wr_lastHeartbeat record; wv_Registered := wr_registered record |}.

Definition compareView (left right : WorkerView) : Z :=
  let l := ws_WorkerID (w_Session (wv_Snapshot left)) in
  let r := ws_WorkerID (w_Session (wv_Snapshot right)) in
  if str_lt l r then -1 else if str_lt r l then 1 else 0.

(** [Snapshot] for one iteration order of the map. *)
Definition snapshot_in (r : Registry) (order : list (string * workerRecord)) : RegistrySnapshot :=
  {| rs_Revision := r_revision r; rs_ClockHealthy := r_clockHealthy r;
     rs_Workers := SortFunc compareView (map (fun kr => view_of (snd kr)) order) |}.

Definition Snapshot (r : Registry) : RegistrySnapshot := snapshot_in r (map_to_list (r_workers r)).

(** ** Effects *)
Lemma with_state_same record : with_state record (wr_state record) = record.
Proof. by destruct record. Qed.

Lemma registry_clock_cases now r r' res :
  elapsedLocked now r = (r', res) ->
  (is_ok res = false /\ r' = set_clock r (clock_failed <$> r_workers r) (r_lastElapsed r) false) \/
  (res = Ok now /\ r_clockHealthy r = true /\ r_lastElapsed r <= now /\ r' = set_clock r (r_workers r) now true).
Proof.
  unfold elapsedLocked, sbind, sget, sput, sthrow, sret.
  destruct (negb (r_clockHealthy r) || (now <? r_lastElapsed r)) eqn:E; intros [= <- <-]; [by left|].
  go_cases. right. split_and!; try done. by rewrite H.
Qed.

Lemma currentLocked_Ok session r record :
  currentLocked session r = Ok record ->
  r_workers r !! ws_WorkerID session = Some record /\ wr_registered record = true /\ wr_current record = session.
Proof. unfold currentLocked. destruct (r_workers r !! _) as [rec|]; [|done]. intros H. ok_inv. by subst. Qed.

(** The state after a call that read a healthy clock and wrote one record. *)
Definition touched (r : Registry) (now : Z) (id : string) (record : workerRecord) (revision : Z) : Registry :=
  set_workers (set_clock r (r_workers r) now true) (<[id := record]> (r_workers r)) revision.

Definition failed_clock (r : Registry) : Registry :=
  set_clock r (clock_failed <$> r_workers r) (r_lastElapsed r) false.

(** The checks of each operation that succeeds. *)
Record commits (session : WorkerSession) (r : Registry) (record : workerRecord) : Prop := {
  cs_valid : WorkerSession_validate session = Ok tt;
  cs_record : r_workers r !! ws_WorkerID session = Some record \/
    (r_workers r !! ws_WorkerID session = None /\ record = new_worker (ws_WorkerID session) /\
     Z.of_nat (size (r_workers r)) < r_maxWorkers r);
  cs_intent : wr_intent record <> IntentRemoved;
  cs_next : ws_SessionEpoch session = u64 (wr_maxSessionEpoch record + 1);
}.

Lemma CommitSession_cases session r r' res :
  CommitSession session r = (r', res) ->
  (is_ok res = false /\ r' = r) \/
  (res = Ok tt /\ exists record, commits session r record /\
     r' = set_workers r (<[ws_WorkerID session := committed record session]> (r_workers r)) (u64 (r_revision r + 1))).
Proof.
  unfold CommitSession, sbind, slift, sget, sput, sret.
  destruct (WorkerSession_validate session) as [[]|] eqn:Hv; [|intros [= <- <-]; by left].
  destruct (r_workers r !! ws_WorkerID session) as [record|] eqn:Hl.
  - destruct (fail_if (wr_intent record == _) _) as [[]|] eqn:Hi; [|intros [= <- <-]; by left].
    destruct (fail_if (negb (_ =? _)) _) as [[]|] eqn:He; [|intros [= <- <-]; by left].
    intros [= <- <-]. ok_inv. right. split; [done|]. exists record. split; [|done]. split; auto.
  - destruct (fail_if (_ >=? _) _) as [[]|] eqn:Hs; [|intros [= <- <-]; by left].
    destruct (fail_if (negb (_ =? 1)) _) as [[]|] eqn:He; [|intros [= <- <-]; by left].
    ok_inv. rewrite He. change (u64 (wr_maxSessionEpoch (new_worker (ws_WorkerID session)) + 1)) with 1. simpl.
    intros [= <- <-]. right. split; [done|]. exists (new_worker (ws_WorkerID session)). split.
    + split; try done. right. split_and!; try done; lia.
    + unfold set_workers. simpl. by rewrite insert_insert_eq.
Qed.

Record registers (session : WorkerSession) (r : Registry) (record : workerRecord) : Prop := {
  rg_valid : WorkerSession_validate session = Ok tt;
  rg_record : r_workers r !! ws_WorkerID session = Some record;
  rg_intent : wr_intent record <> IntentRemoved;
  rg_epoch : wr_maxSessionEpoch record = ws_SessionEpoch session;
  rg_boot : wr_bootID record = ws_BootID session;
  rg_needs : wr_needsNewSession record = false;
}.

Lemma Register_cases session clock r r' res :
  Register session clock r = (r', res) ->
  (is_ok res = false /\ r' = r) \/
  (exists record, registers session r record /\
    ((res = Ok tt /\ r' = r) \/
     (is_ok res = false /\ r' = failed_clock r) \/
     (res = Ok tt /\ wr_registered record = false /\ r_clockHealthy r = true /\ r_lastElapsed r <= clock /\
      r' = touched r clock (ws_WorkerID session) (joined record session clock) (u64 (r_revision r + 1))))).
Proof.
  unfold Register, sbind, slift, sget, sput, sret, sthrow.
  destruct (WorkerSession_validate session) as [[]|] eqn:Hv; [|intros [= <- <-]; by left].
  destruct (r_workers r !! ws_WorkerID session) as [record|] eqn:Hl; [|intros [= <- <-]; by left].
  destruct (fail_if (wr_intent record == _) _) as [[]|] eqn:Hi; [|intros [= <- <-]; by left].
  destruct (fail_if (_ || _) _) as [[]|] eqn:He; [|intros [= <- <-]; by left].
  destruct (fail_if (wr_needsNewSession record) _) as [[]|] eqn:Hn; [|intros [= <- <-]; by left].
  ok_inv. assert (registers session r record) as Hreg by (by split).
  destruct (wr_registered record && _) eqn:Hc; [intros [= <- <-]; right; exists record; auto|].
  destruct (wr_registered record) eqn:Hr; simpl; [intros [= <- <-]; by left|].
  destruct (elapsedLocked clock r) as [r1 res1] eqn:Ec.
  apply registry_clock_cases in Ec as [[Hok ->]|(-> & Hh & Hle & ->)].
  - destruct res1; [done|]. intros [= <- <-]. right. exists record. split; [done|]. auto.
  - intros [= <- <-]. right. exists record. split; [done|]. right; right. done.
Qed.

Record reports (session : WorkerSession) (r : Registry) (record : workerRecord) : Prop := {
  rp_valid : WorkerSession_validate session = Ok tt;
  rp_record : r_workers r !! ws_WorkerID session = Some record;
  rp_registered : wr_registered record = true;
  rp_current : wr_current record = session;
}.

Lemma ReportInventory_cases inventory clock r r' res :
  ReportInventory inventory clock r = (r', res) ->
  (is_ok res = false /\ r' = r) \/
  (exists record, reports (in_Session inventory) r record /\ wr_needsNewSession record = false /\
    ((is_ok res = false /\ r' = failed_clock r) \/
     (res = Ok tt /\ r_clockHealthy r = true /\ r_lastElapsed r <= clock /\
      (wr_hasInventory record = true -> wr_inventoryRevision record <= in_Revision inventory) /\
      WorkerSnapshot_validate (observation_of record inventory) = Ok tt /\
      r' = touched r clock (ws_WorkerID (in_Session inventory)) (inventoried record inventory clock)
             (u64 (r_revision r + 1))))).
Proof.
  unfold ReportInventory, sbind, slift, sget, sput.
  destruct (WorkerSession_validate _) as [[]|] eqn:Hv; [|intros [= <- <-]; by left].
  destruct (currentLocked _ r) as [record|] eqn:Hc; [|intros [= <- <-]; by left].
  apply currentLocked_Ok in Hc as (Hl & Hr & Hs).
  destruct (fail_if (wr_needsNewSession record) _) as [[]|] eqn:Hn; [|intros [= <- <-]; by left].
  destruct (fail_if (_ && _) _) as [[]|] eqn:Hi; [|intros [= <- <-]; by left].
  destruct (WorkerSnapshot_validate _) as [[]|] eqn:Hw; [|intros [= <- <-]; by left].
  ok_inv. assert (reports (in_Session inventory) r record) as Hrep by (by split).
  destruct (elapsedLocked clock r) as [r1 res1] eqn:Ec.
  apply registry_clock_cases in Ec as [[Hok ->]|(-> & Hh & Hle & ->)].
  - destruct res1; [done|]. intros [= <- <-]. right. exists record. auto.
  - intros [= <- <-]. right. exists record. split_and!; try done. right. split_and!; try done.
    intros Hinv. destruct Hi as [Hi|Hi]; [congruence|]. by apply Z.ltb_ge in Hi.
Qed.

Definition heartbeat_state (record : workerRecord) : string :=
  if wr_hasInventory record && ((wr_state record == SessionSuspect) || (wr_state record == SessionUnavailable))
  then SessionReady else wr_state record.

Lemma Heartbeat_cases session clock r r' res :
  Heartbeat session clock r = (r', res) ->
  (is_ok res = false /\ r' = r) \/
  (exists record, reports session r record /\ wr_needsNewSession record = false /\
    ((is_ok res = false /\ r' = failed_clock r) \/
     (res = Ok tt /\ r_clockHealthy r = true /\ r_lastElapsed r <= clock /\ exists revision,
      r' = touched r clock (ws_WorkerID session) (with_state (heard record clock) (heartbeat_state record)) revision))).
Proof.
  unfold Heartbeat, sbind, slift, sget, sput.
  destruct (WorkerSession_validate _) as [[]|] eqn:Hv; [|intros [= <- <-]; by left].
  destruct (currentLocked _ r) as [record|] eqn:Hc; [|intros [= <- <-]; by left].
  apply currentLocked_Ok in Hc as (Hl & Hr & Hs).
  destruct (fail_if (wr_needsNewSession record) _) as [[]|] eqn:Hn; [|intros [= <- <-]; by left].
  ok_inv. assert (reports session r record) as Hrep by (by split).
  destruct (elapsedLocked clock r) as [r1 res1] eqn:Ec.
  apply registry_clock_cases in Ec as [[Hok ->]|(-> & Hh & Hle & ->)].
  { destruct res1; [done|]. intros [= <- <-]. right. exists record. auto. }
  simpl. rewrite Hn, andb_true_r. unfold heartbeat_state. intros Hrun. right. exists record. split_and!; try done.
  right. destruct (wr_hasInventory record && _) eqn:E; injection Hrun as <- <-; split_and!; try done; eexists; [done|].
  change (wr_state record) with (wr_state (heard record clock)). by rewrite with_state_same.
Qed.

Lemma SetIntent_cases workerID intent r r' res :
  SetIntent workerID intent r = (r', res) ->
  r' = r \/
  (res = Ok tt /\ exists record record', r_workers r !! workerID = Some record /\
    wr_intent record <> IntentRemoved /\
    ((intent = IntentRemoved /\ wr_intent record = IntentDraining /\ wr_drain record = DrainDrained /\
      record' = removed record) \/
     (wr_intent record <> intent /\ record' = with_intent record intent /\
      (intent = IntentSchedulable \/ intent = IntentDraining))) /\
    r' = set_workers r (<[workerID := record']> (r_workers r)) (u64 (r_revision r + 1))).
Proof.
  unfold SetIntent, sbind, slift, sget, sput, sret, sthrow.
  destruct (fail_if (_ || _) _) as [[]|] eqn:Hv; [|intros [= <- <-]; by left].
  destruct (r_workers r !! workerID) as [record|] eqn:Hl; [|intros [= <- <-]; by left].
  destruct (fail_if (wr_intent record == _) _) as [[]|] eqn:Hi; [|intros [= <- <-]; by left].
  unfold intentValid in Hv. ok_inv. destruct (intent == IntentRemoved) eqn:Hrm; go_cases.
  - destruct (fail_if (_ || _) _) as [[]|] eqn:Hd; [|intros [= <- <-]; by left]. ok_inv.
    intros [= <- <-]. right. split; [done|]. exists record, (removed record). naive_solver.
  - destruct (wr_intent record == intent) eqn:Hsame; go_cases; [intros [= <- <-]; by left|]. intros [= <- <-]. right. split; [done|].
    rewrite !orb_true_iff, !bool_decide_eq_true in *. exists record, (with_intent record intent). naive_solver.
Qed.

Definition next_drain (observation : DrainObservation) : string :=
  if drain_proved observation then DrainDrained else DrainDraining.

Lemma UpdateDrain_cases observation r r' res :
  UpdateDrain observation r = (r', res) ->
  (is_ok res = false /\ r' = r) \/
  (exists record, res = Ok tt /\ reports (do_Session observation) r record /\ wr_intent record = IntentDraining /\
    ((wr_drain record = next_drain observation /\ r' = r) \/
     (exists revision, r' = set_workers r (<[ws_WorkerID (do_Session observation) :=
        with_drain record (next_drain observation)]> (r_workers r)) revision))).
Proof.
  unfold UpdateDrain, sbind, slift, sget, sput, sret.
  destruct (WorkerSession_validate _) as [[]|] eqn:Hv; [|intros [= <- <-]; by left].
  destruct (currentLocked _ r) as [record|] eqn:Hc; [|intros [= <- <-]; by left].
  apply currentLocked_Ok in Hc as (Hl & Hr & Hs).
  destruct (fail_if (wr_intent record != _) _) as [[]|] eqn:Hn; [|intros [= <- <-]; by left].
  ok_inv. intros Hrun. right. exists record. fold (next_drain observation) in Hrun.
  case_bool_decide as Hd; injection Hrun as <- <-; (split; [done|]); (split; [by split|]); eauto.
Qed.

(** *** The loop of Evaluate, for any iteration order *)
Definition evaluated (r : Registry) (now : Z) (record : workerRecord) : workerRecord :=
  with_state record (derived_state r record now).

Definition changes (r : Registry) (now : Z) (kr : string * workerRecord) : bool :=
  derived_state r (snd kr) now != wr_state (snd kr).

Definition bumps (n : nat) (revision : Z) : Z := Nat.iter n (fun x => u64 (x + 1)) revision.

Lemma bumps_succ n revision : bumps (S n) revision = bumps n (u64 (revision + 1)).
Proof. unfold bumps. by rewrite Nat.iter_succ_r. Qed.

Lemma evaluate_records_spec now order r :
  NoDup order.*1 -> (forall id record, (id, record) ∈ order -> r_workers r !! id = Some record) ->
  exists workers,
    evaluate_records now order r
    = set_workers r workers (bumps (length (List.filter (changes r now) order)) (r_revision r)) /\
    (forall id, id ∉ order.*1 -> workers !! id = r_workers r !! id) /\
    (forall id record, (id, record) ∈ order -> workers !! id = Some (evaluated r now record)).
Proof.
  revert r. induction order as [|[id record] order IH]; intros r Hnd Hin; simpl.
  { exists (r_workers r). split_and!; [by destruct r|done|]. by intros ?? ?%elem_of_nil. }
  apply NoDup_cons in Hnd as [Hid Hnd]. simpl in Hid. unfold changes at 1. simpl.
  set (r1 := if derived_state r record now != wr_state record then _ else r).
  assert (forall id', id' <> id -> r_workers r1 !! id' = r_workers r !! id') as Hother.
  { intros id' Hne. subst r1. case_match; simpl; [|done]. by rewrite lookup_insert_ne. }
  assert (r_workers r1 !! id = Some (evaluated r now record)) as Hself.
  { subst r1. unfold evaluated. case_match eqn:E; simpl; [by rewrite lookup_insert_eq|].
    go_cases. rewrite E, with_state_same. apply Hin. by left. }
  destruct (IH r1 Hnd) as (workers & Heq & Hout & Hval).
  { intros id' record' Hr. rewrite Hother; [apply Hin; by right|].
    intros ->. apply Hid. apply list_elem_of_fmap. by exists (id, record'). }
  assert (changes r1 now = changes r now /\ evaluated r1 now = evaluated r now) as [Hc He]
    by (subst r1; by case_match).
  exists workers. unfold evaluate_records in *. simpl. fold r1. rewrite Heq, Hc. split_and!.
  - subst r1. case_match; [|done]. cbn [length]. by rewrite bumps_succ.
  - intros id' [Hne Hni]%not_elem_of_cons. rewrite Hout by done. by apply Hother.
  - intros id' record' [[= -> ->]|Hr]%elem_of_cons; [|by rewrite (Hval _ _ Hr), He].
    by rewrite Hout, Hself by done.
Qed.

Lemma Evaluate_in_cases order clock r r' res :
  order ≡ₚ map_to_list (r_workers r) ->
  Evaluate_in order clock r = (r', res) ->
  (is_ok res = false /\ r' = failed_clock r) \/
  (res = Ok tt /\ r_clockHealthy r = true /\ r_lastElapsed r <= clock /\
   r' = set_workers (set_clock r (r_workers r) clock true) (evaluated r clock <$> r_workers r)
          (bumps (length (List.filter (changes r clock) (map_to_list (r_workers r)))) (r_revision r))).
Proof.
  intros Hp. unfold Evaluate_in, sbind, sget, sput.
  destruct (elapsedLocked clock r) as [r1 res1] eqn:Ec.
  apply registry_clock_cases in Ec as [[Hok ->]|(-> & Hh & Hle & ->)].
  { destruct res1; [done|]. intros [= <- <-]. by left. }
  intros [= <- <-]. right. split_and!; try done.
  destruct (evaluate_records_spec clock order (set_clock r (r_workers r) clock true)) as (workers & -> & Hout & Hval).
  - rewrite Hp. apply NoDup_fst_map_to_list.
  - intros id record. rewrite Hp. by intros ?%elem_of_map_to_list.
  - rewrite <-(Permutation_length (filter_Permutation_bool (changes r clock) _ _ Hp)). f_equal. apply map_eq. intros id. rewrite lookup_fmap.
    destruct (r_workers r !! id) as [record|] eqn:Hl.
    + apply Hval. rewrite Hp. by apply elem_of_map_to_list.
    + rewrite Hout; [done|]. rewrite Hp. intros ([? record] & -> & Hr)%list_elem_of_fmap.
      apply elem_of_map_to_list in Hr. simpl in Hl. congruence.
Qed.

(** ** Histories *)
Inductive registry_op :=
| OpCommitSession (session : WorkerSession)
| OpRegister (session : WorkerSession) (clock : Z)
| OpReportInventory (inventory : Inventory) (clock : Z)
| OpHeartbeat (session : WorkerSession) (clock : Z)
| OpEvaluate (clock : Z)
| OpSetIntent (workerID intent : string)
| OpUpdateDrain (observation : DrainObservation).

Definition registry_step (r : Registry) (op : registry_op) : Registry :=
  match op with
  | OpCommitSession session => fst (CommitSession session r)
  | OpRegister session clock => fst (Register session clock r)
  | OpReportInventory inventory clock => fst (ReportInventory inventory clock r)
  | OpHeartbeat session clock => fst (Heartbeat session clock r)
  | OpEvaluate clock => fst (Evaluate clock r)
  | OpSetIntent workerID intent => fst (SetIntent workerID intent r)
  | OpUpdateDrain observation => fst (UpdateDrain observation r)
  end.
Definition registry_run (r : Registry) (ops : list registry_op) : Registry := foldl registry_step r ops.

Lemma registry_run_app r ops1 ops2 : registry_run r (ops1 ++ ops2) = registry_run (registry_run r ops1) ops2.
Proof. apply foldl_app. Qed.

(** *** The state machine of one Worker

    [transition r r' op id record record']: the step [op] from [r] to [r']
    takes the record of [id] to [record']. *)
Definition clock_read (r r' : Registry) (now : Z) : Prop :=
  r_clockHealthy r = true /\ r_clockHealthy r' = true /\ r_lastElapsed r <= now /\ r_lastElapsed r' = now.

Inductive transition (r r' : Registry) (op : registry_op) (id : string) (record : workerRecord)
    : workerRecord -> Prop :=
| TSame :
    r_clockHealthy r' = r_clockHealthy r \/ wr_registered record = false \/ wr_intent record = IntentRemoved ->
    transition r r' op id record record
| TClockFailed :
    r_clockHealthy r' = false -> wr_registered record = true -> wr_intent record <> IntentRemoved ->
    transition r r' op id record (with_state record SessionUnavailable)
| TCommit session :
    op = OpCommitSession session -> ws_WorkerID session = id -> commits session r record ->
    transition r r' op id record (committed record session)
| TRegister session now :
    op = OpRegister session now -> ws_WorkerID session = id -> registers session r record -> wr_registered record = false ->
    clock_read r r' now -> transition r r' op id record (joined record session now)
| TInventory inventory now :
    op = OpReportInventory inventory now -> ws_WorkerID (in_Session inventory) = id -> reports (in_Session inventory) r record ->
    wr_needsNewSession record = false -> clock_read r r' now ->
    WorkerSnapshot_validate (observation_of record inventory) = Ok tt ->
    transition r r' op id record (inventoried record inventory now)
| THeartbeat session now :
    op = OpHeartbeat session now -> ws_WorkerID session = id -> reports session r record -> wr_needsNewSession record = false ->
    clock_read r r' now ->
    transition r r' op id record (with_state (heard record now) (heartbeat_state record))
| TEvaluate now :
    clock_read r r' now -> transition r r' op id record (evaluated r now record)
| TIntent intent :
    op = OpSetIntent id intent -> r_clockHealthy r' = r_clockHealthy r -> wr_intent record <> IntentRemoved -> wr_intent record <> intent ->
    intent = IntentSchedulable \/ intent = IntentDraining ->
    transition r r' op id record (with_intent record intent)
| TRemove :
    op = OpSetIntent id IntentRemoved -> wr_intent record = IntentDraining -> wr_drain record = DrainDrained ->
    transition r r' op id record (removed record)
| TDrain observation :
    op = OpUpdateDrain observation -> ws_WorkerID (do_Session observation) = id ->
    r_clockHealthy r' = r_clockHealthy r ->
    reports (do_Session observation) r record -> wr_intent record = IntentDraining ->
    transition r r' op id record (with_drain record (next_drain observation)).

Record same_config (r r' : Registry) : Prop := {
  sc_suspect : r_suspectAfter r' = r_suspectAfter r;
  sc_unavailable : r_unavailableAfter r' = r_unavailableAfter r;
  sc_heartbeat : r_heartbeatInterval r' = r_heartbeatInterval r;
  sc_max : r_maxWorkers r' = r_maxWorkers r;
}.

(** One step, seen from the whole registry: existing records make a
    transition, and only [CommitSession] adds one. *)
Record registry_progress (r r' : Registry) (op : registry_op) : Prop := {
  pg_config : same_config r r';
  pg_elapsed : r_lastElapsed r <= r_lastElapsed r';
  pg_clock : r_clockHealthy r' = true -> r_clockHealthy r = true;
  pg_record : forall id record, r_workers r !! id = Some record ->
    exists record', r_workers r' !! id = Some record' /\ transition r r' op id record record';
  pg_new : forall id, r_workers r !! id = None -> is_Some (r_workers r' !! id) ->
    exists session, op = OpCommitSession session /\ ws_WorkerID session = id /\
      commits session r (new_worker id) /\ r_workers r' !! id = Some (committed (new_worker id) session) /\
      Z.of_nat (size (r_workers r)) < r_maxWorkers r /\ r_clockHealthy r' = r_clockHealthy r;
  pg_size : Z.of_nat (size (r_workers r')) <= Z.max (Z.of_nat (size (r_workers r))) (r_maxWorkers r);
}.

Lemma progress_refl r op : registry_progress r r op.
Proof.
  split; [done|lia|done| | |lia].
  - intros id record Hr. exists record. split; [done|]. apply TSame. by left.
  - intros id Hn [? Hs]. congruence.
Qed.

Lemma progress_failed_clock r op : registry_progress r (failed_clock r) op.
Proof.
  split; simpl; [done|lia|done| | |by rewrite map_size_fmap; lia].
  - intros id record Hr. exists (clock_failed record). rewrite lookup_fmap, Hr. split; [done|].
    unfold clock_failed. destruct (wr_registered record) eqn:E; simpl; [|apply TSame; auto].
    case_bool_decide; simpl; [apply TSame; auto|]. by apply TClockFailed.
  - intros id Hn. rewrite lookup_fmap, Hn. by intros [? ?].
Qed.

Lemma progress_update r r' op id record record' :
  r_workers r !! id = Some record -> r_workers r' = <[id := record']> (r_workers r) ->
  same_config r r' -> r_lastElapsed r <= r_lastElapsed r' -> r_clockHealthy r' = r_clockHealthy r ->
  transition r r' op id record record' -> registry_progress r r' op.
Proof.
  intros Hr Hw Hc He Hh Ht. split; [done|done|by rewrite Hh| | |].
  - intros id' rec Hr'. rewrite Hw, lookup_insert. case_decide as E.
    + subst id'. exists record'. split; [done|]. by simplify_eq.
    + exists rec. split; [done|]. apply TSame. by left.
  - intros id' Hn. rewrite Hw, lookup_insert_ne by congruence. rewrite Hn. by intros [? ?].
  - rewrite Hw, map_size_insert_Some by eauto. lia.
Qed.

Lemma progress_touched r op id record record' now revision :
  r_workers r !! id = Some record -> r_clockHealthy r = true -> r_lastElapsed r <= now ->
  (clock_read r (touched r now id record' revision) now ->
   transition r (touched r now id record' revision) op id record record') ->
  registry_progress r (touched r now id record' revision) op.
Proof. intros Hr Hh He Ht. eapply progress_update; eauto; [by split|]. by apply Ht. Qed.

Lemma progress_commit session r record :
  commits session r record ->
  registry_progress r
    (set_workers r (<[ws_WorkerID session := committed record session]> (r_workers r)) (u64 (r_revision r + 1)))
    (OpCommitSession session).
Proof.
  intros Hc. destruct (cs_record _ _ _ Hc) as [Hr|(Hn & -> & Hsize)].
  { eapply progress_update; [done|done|by split|done|done|]. by eapply TCommit. }
  split; simpl; [by split|lia|done| | |].
  - intros id rec Hr. exists rec. rewrite lookup_insert_ne by congruence. split; [done|]. apply TSame. by left.
  - intros id Hid. rewrite lookup_insert. case_decide as E; [|by rewrite Hid; intros [? ?]].
    subst id. intros _. exists session. by split_and!.
  - rewrite map_size_insert_None by done. lia.
Qed.

Lemma progress_evaluate r now revision :
  r_clockHealthy r = true -> r_lastElapsed r <= now ->
  registry_progress r (set_workers (set_clock r (r_workers r) now true) (evaluated r now <$> r_workers r) revision)
    (OpEvaluate now).
Proof.
  intros Hh He. split; simpl; [by split|done|done| | |by rewrite map_size_fmap; lia].
  - intros id record Hr. exists (evaluated r now record). rewrite lookup_fmap, Hr. split; [done|]. by apply TEvaluate.
  - intros id Hn. rewrite lookup_fmap, Hn. by intros [? ?].
Qed.

#[local] Hint Resolve progress_refl progress_failed_clock progress_commit progress_evaluate : go.

Lemma registry_step_progress r op : registry_progress r (registry_step r op) op.
Proof.
  destruct op as [session|session clock|inventory clock|session clock|clock|workerID intent|observation]; simpl.
  - destruct (CommitSession session r) as [r' res] eqn:E. simpl.
    apply CommitSession_cases in E as [[_ ->]|(_ & record & Hc & ->)]; auto with go.
  - destruct (Register session clock r) as [r' res] eqn:E. simpl.
    apply Register_cases in E as [[_ ->]|(record & Hg & [[_ ->]|[[_ ->]|(_ & Hr & Hh & He & ->)]])]; auto with go.
    eapply progress_touched; [apply Hg|done|done|]. intros Hread. by apply TRegister.
  - destruct (ReportInventory inventory clock r) as [r' res] eqn:E. simpl.
    apply ReportInventory_cases in E as [[_ ->]|(record & Hp & Hn & [[_ ->]|(_ & Hh & He & _ & Hv & ->)])]; auto with go.
    eapply progress_touched; [apply Hp|done|done|]. intros Hread. by apply TInventory.
  - destruct (Heartbeat session clock r) as [r' res] eqn:E. simpl.
    apply Heartbeat_cases in E as [[_ ->]|(record & Hp & Hn & [[_ ->]|(_ & Hh & He & revision & ->)])]; auto with go.
    eapply progress_touched; [apply Hp|done|done|]. intros Hread. by eapply THeartbeat.
  - destruct (Evaluate clock r) as [r' res] eqn:E. simpl.
    apply Evaluate_in_cases in E as [[_ ->]|(_ & Hh & He & ->)]; auto with go.
  - destruct (SetIntent workerID intent r) as [r' res] eqn:E. simpl.
    apply SetIntent_cases in E as [->|(_ & record & record' & Hr & Hi & Hcase & ->)]; auto with go.
    eapply progress_update; [done|done|by split|done|done|].
    destruct Hcase as [(-> & Hd & Hdr & ->)|(Hne & -> & Hint)]; [by apply TRemove|by apply TIntent].
  - destruct (UpdateDrain observation r) as [r' res] eqn:E. simpl.
    apply UpdateDrain_cases in E as [[_ ->]|(record & _ & Hp & Hi & [[_ ->]|[revision ->]])]; auto with go.
    eapply progress_update; [apply Hp|done|by split|done|done|]. by eapply TDrain.
Qed.

(** ** Invariant *)
Record worker_ok (r : Registry) (id : string) (record : workerRecord) : Prop := {
  wo_id : wr_workerID record = id;
  wo_session : WorkerSession_validate (wr_current record) = Ok tt;
  wo_worker : ws_WorkerID (wr_current record) = id;
  wo_epoch : ws_SessionEpoch (wr_current record) = wr_maxSessionEpoch record;
  wo_boot : ws_BootID (wr_current record) = wr_bootID record;
  wo_bound : 1 <= wr_maxSessionEpoch record < 2 ^ 64;
  wo_state : SessionState_valid (wr_state record) = true;
  wo_intent : SchedulingIntent_valid (wr_intent record) = true;
  wo_drain : match wr_intent record == IntentSchedulable with
             | true => wr_drain record = DrainNotDraining
             | false => wr_drain record = DrainDrained \/
                 (wr_drain record = DrainDraining /\ wr_intent record = IntentDraining)
             end;
  wo_removed : wr_intent record = IntentRemoved -> wr_registered record = false /\ wr_state record = SessionUnavailable;
  wo_inventory : wr_hasInventory record = true -> WorkerSnapshot_validate (snapshot_of record) = Ok tt;
  wo_live : wr_state record = SessionReady \/ wr_state record = SessionSuspect ->
    wr_registered record = true /\ wr_hasInventory record = true /\ wr_needsNewSession record = false /\
    r_clockHealthy r = true;
  wo_heartbeat : 0 <= wr_lastHeartbeat record <= r_lastElapsed r;
}.

Record registry_inv (r : Registry) : Prop := {
  ri_worker : forall id record, r_workers r !! id = Some record -> worker_ok r id record;
  ri_size : Z.of_nat (size (r_workers r)) <= r_maxWorkers r <= HardMaxWorkers;
  ri_timing : 500 * millisecond <= r_heartbeatInterval r < r_suspectAfter r /\
    r_suspectAfter r < r_unavailableAfter r <= HardUnavailableAfter;
  ri_elapsed : 0 <= r_lastElapsed r;
}.

Lemma New_registry_inv config elapsed r : New config elapsed = Ok r -> registry_inv r /\ r_workers r = ∅.
Proof.
  unfold New. intros H. ok_inv. subst r. split; [|done].
  split; simpl; [done|rewrite map_size_empty; lia|lia|lia].
Qed.

(** Validation reads the intent, the state and the drain state only through
    their own validity. *)
Lemma snapshot_validate_lifecycle w w' :
  WorkerSnapshot_validate w = Ok tt ->
  w_Session w' = w_Session w -> w_Runtime w' = w_Runtime w -> w_Capacity w' = w_Capacity w ->
  w_Labels w' = w_Labels w -> w_Cache w' = w_Cache w ->
  SchedulingIntent_valid (w_Intent w') = true -> SessionState_valid (w_State w') = true ->
  DrainState_valid (w_Drain w') = true ->
  WorkerSnapshot_validate w' = Ok tt.
Proof.
  unfold WorkerSnapshot_validate. intros H -> -> -> -> -> -> -> ->.
  destruct (WorkerSession_validate (w_Session w)) as [[]|]; [|done]. cbn [rbind negb orb fail_if] in *.
  destruct (fail_if (negb _ || _ || _) _) as [[]|]; [|done]. exact H.
Qed.

Lemma drain_valid record :
  match wr_intent record == IntentSchedulable with
  | true => wr_drain record = DrainNotDraining
  | false => wr_drain record = DrainDrained \/ (wr_drain record = DrainDraining /\ wr_intent record = IntentDraining)
  end -> DrainState_valid (wr_drain record) = true.
Proof. destruct (_ == _); [intros ->; done|]. by intros [->|[-> _]]. Qed.

(** A record whose session and inventory are those of a good record. *)
Lemma worker_ok_update r r' id record record' :
  worker_ok r id record ->
  wr_workerID record' = id -> wr_current record' = wr_current record ->
  wr_maxSessionEpoch record' = wr_maxSessionEpoch record -> wr_bootID record' = wr_bootID record ->
  wr_runtime record' = wr_runtime record -> wr_capacity record' = wr_capacity record ->
  wr_labels record' = wr_labels record -> wr_cache record' = wr_cache record ->
  wr_hasInventory record' = wr_hasInventory record ->
  SessionState_valid (wr_state record') = true -> SchedulingIntent_valid (wr_intent record') = true ->
  match wr_intent record' == IntentSchedulable with
  | true => wr_drain record' = DrainNotDraining
  | false => wr_drain record' = DrainDrained \/ (wr_drain record' = DrainDraining /\ wr_intent record' = IntentDraining)
  end ->
  (wr_intent record' = IntentRemoved -> wr_registered record' = false /\ wr_state record' = SessionUnavailable) ->
  (wr_state record' = SessionReady \/ wr_state record' = SessionSuspect ->
    wr_registered record' = true /\ wr_hasInventory record' = true /\ wr_needsNewSession record' = false /\
    r_clockHealthy r' = true) ->
  0 <= wr_lastHeartbeat record' <= r_lastElapsed r' ->
  worker_ok r' id record'.
Proof.
  intros [] Hid Hcur Hmax Hboot Hrt Hcap Hlab Hcache Hinv Hst Hint Hdr Hrm Hlive Hhb.
  split; rewrite ?Hcur, ?Hmax, ?Hboot; try done.
  rewrite Hinv. intros Hhas. eapply (snapshot_validate_lifecycle (snapshot_of record)); simpl; auto.
  by apply drain_valid.
Qed.

Lemma next_drain_cases observation :
  next_drain observation = DrainDrained \/ next_drain observation = DrainDraining.
Proof. unfold next_drain. case_match; auto. Qed.

Lemma heartbeat_state_cases record :
  heartbeat_state record = wr_state record \/
  (heartbeat_state record = SessionReady /\ wr_hasInventory record = true).
Proof. unfold heartbeat_state. case_match eqn:E; go_cases; auto. Qed.

Lemma derived_state_cases r record now :
  derived_state r record now = wr_state record \/
  ((wr_registered record = true /\ wr_needsNewSession record = false /\ wr_hasInventory record = true) /\
   (derived_state r record now = SessionReady \/ derived_state r record now = SessionSuspect \/
    derived_state r record now = SessionUnavailable)).
Proof.
  unfold derived_state. destruct (_ || _) eqn:E; [by left|]. go_cases. right. split; [done|].
  destruct (_ >=? _); [auto|]. destruct (_ >=? _); auto.
Qed.

Lemma committed_ok r r' id record session :
  ws_WorkerID session = id -> wr_workerID record = id -> commits session r record ->
  0 <= wr_maxSessionEpoch record < 2 ^ 64 -> SchedulingIntent_valid (wr_intent record) = true ->
  match wr_intent record == IntentSchedulable with
  | true => wr_drain record = DrainNotDraining
  | false => wr_drain record = DrainDrained \/ (wr_drain record = DrainDraining /\ wr_intent record = IntentDraining)
  end ->
  0 <= wr_lastHeartbeat record <= r_lastElapsed r' ->
  worker_ok r' id (committed record session).
Proof.
  intros Hid Hrid [Hv _ Hint Hnext] Hmax Hi Hd Hh. assert (ws_SessionEpoch session <> 0) as Hnz.
  { unfold WorkerSession_validate in Hv. ok_inv. done. }
  rewrite Hnext in Hnz. pose proof (u64_succ_nonzero _ Hmax Hnz) as Hs.
  split; simpl; try done; [|by intros [|]].
  rewrite Hnext. pose proof (u64_range (wr_maxSessionEpoch record + 1)) as Hr. unfold is_u64 in Hr. lia.
Qed.

Lemma transition_ok r r' op id record record' :
  worker_ok r id record -> 0 <= r_lastElapsed r -> r_lastElapsed r <= r_lastElapsed r' ->
  transition r r' op id record record' -> worker_ok r' id record'.
Proof.
  intros Hok Hz He Ht. pose proof Hok as [Hid Hs Hw Hep Hb Hbd Hst Hi Hd Hrm Hinv Hlive Hhb].
  destruct Ht as [Hc|Hc Hreg Hni|session Hop Hsid Hcm|session now Hop Hsid [] Hreg (? & Hc & ? & <-)
    |inventory now Hop Hsid [] Hn (? & Hc & ? & <-) Hval|session now Hop Hsid [] Hn (? & Hc & ? & <-)|now (? & Hc & ? & <-)
    |intent Hop Hc Hni Hne Hcase|Hop Hdi Hdd|observation Hop Hsid Hc [] Hdi].
  - eapply worker_ok_update; eauto; [|lia]. intros Hl. destruct (Hlive Hl) as (? & ? & ? & Hh). split_and!; try done.
    destruct Hc as [->|[?|Hr]]; [done|congruence|]. destruct (Hrm Hr). congruence.
  - eapply worker_ok_update; eauto; simpl; [done|by intros [|]|lia].
  - eapply committed_ok; eauto; lia.
  - split; simpl; try done; [by intros [|]|lia].
  - split; simpl; try done; [|intros _|lia].
    + intros Hr. destruct (Hrm Hr). congruence.
    + unfold observation_of, snapshot_of in *. simpl. congruence.
  - eapply worker_ok_update; eauto; simpl; [| | |lia].
    + destruct (heartbeat_state_cases record) as [->|[-> _]]; done.
    + intros Hr. destruct (Hrm Hr). congruence.
    + intros Hl. destruct (heartbeat_state_cases record) as [E|[E Hhas]]; [|done].
      rewrite E in Hl. destruct (Hlive Hl) as (? & ? & ? & ?). done.
  - eapply worker_ok_update; eauto; simpl; [| | |lia].
    + destruct (derived_state_cases r record (r_lastElapsed r')) as [->|[_ [->|[->| ->]]]]; done.
    + intros Hr. destruct (Hrm Hr) as [Hreg ?]. split; [done|]. unfold derived_state. by rewrite Hreg.
    + intros Hl. destruct (derived_state_cases r record (r_lastElapsed r')) as [E|[(? & ? & ?) _]]; [|done].
      rewrite E in Hl. destruct (Hlive Hl) as (? & ? & ? & ?). done.
  - unfold with_intent. destruct Hcase as [-> | ->]; simpl; eapply worker_ok_update; eauto; simpl; try done; try lia.
    + by intros [|].
    + auto.
    + by rewrite Hc.
  - eapply worker_ok_update; eauto; simpl; try done; [by left|by intros [|]|lia].
  - eapply worker_ok_update; eauto; simpl; [|by rewrite Hc|lia].
    rewrite Hdi. simpl. destruct (next_drain_cases observation) as [-> | ->]; auto.
Qed.

Lemma registry_step_inv r op : registry_inv r -> registry_inv (registry_step r op).
Proof.
  intros Hr. pose proof (registry_step_progress r op) as [[] He _ Hrec Hnew Hsize].
  pose proof (ri_elapsed _ Hr) as Hz. pose proof (ri_size _ Hr). split; [|lia| |lia].
  - intros id record' Hl. destruct (r_workers r !! id) as [record|] eqn:E.
    + destruct (Hrec _ _ E) as (record1 & Hl1 & Ht). simplify_eq.
      by eapply transition_ok; [apply (ri_worker _ Hr)| | |].
    + destruct (Hnew _ E) as (session & _ & Hid & Hc & Hl' & _); [by eexists|]. simplify_eq.
      eapply committed_ok; eauto; simpl; try done; lia.
  - pose proof (ri_timing _ Hr). congruence.
Qed.

Lemma registry_run_inv r ops : registry_inv r -> registry_inv (registry_run r ops).
Proof. revert r. induction ops as [|op ops IH]; intros r Hr; simpl; [done|]. by apply IH, registry_step_inv. Qed.

(** ** Sessions *)
Lemma registry_run_record r ops id record (P : workerRecord -> workerRecord -> Prop) :
  registry_inv r -> r_workers r !! id = Some record ->
  (forall rec, P rec rec) -> (forall a b c, P a b -> P b c -> P a c) ->
  (forall r op a b, op ∈ ops -> registry_inv r -> worker_ok r id a ->
     transition r (registry_step r op) op id a b -> P a b) ->
  exists record', r_workers (registry_run r ops) !! id = Some record' /\ P record record'.
Proof.
  intros Hr Hl Hrefl Htrans. revert r record Hr Hl.
  induction ops as [|op ops IH]; intros r record Hr Hl Hstep; simpl; [by eauto|].
  destruct (pg_record _ _ _ (registry_step_progress r op) id record Hl) as (record1 & Hl1 & Ht).
  destruct (IH (registry_step r op) record1) as (record2 & Hl2 & HP).
  - by apply registry_step_inv.
  - done.
  - intros r2 op2 a b Hin. apply Hstep. by right.
  - exists record2. split; [done|]. eapply Htrans; [|done]. eapply Hstep; [by left|done|by apply Hr|done].
Qed.

(** The session epoch of an identity never decreases and a removed identity
    never changes. *)
Definition session_order (a b : workerRecord) : Prop :=
  wr_maxSessionEpoch a <= wr_maxSessionEpoch b /\ (wr_intent a = IntentRemoved -> b = a).

Lemma commits_next session r record :
  commits session r record -> 0 <= wr_maxSessionEpoch record < 2 ^ 64 ->
  ws_SessionEpoch session = wr_maxSessionEpoch record + 1.
Proof.
  intros [Hv _ _ Hn] Hm. rewrite Hn. apply u64_succ_nonzero; [done|]. rewrite <-Hn.
  unfold WorkerSession_validate in Hv. ok_inv. done.
Qed.

Lemma transition_session r r' op id a b :
  worker_ok r id a -> transition r r' op id a b -> session_order a b.
Proof.
  intros Hok Ht. pose proof (wo_bound _ _ _ Hok). pose proof (wo_removed _ _ _ Hok) as Hrm. unfold session_order.
  destruct Ht as [|Hc Hreg Hni|session Hop Hsid Hcm|session now Hop Hsid [] Hreg Hc|inventory now Hop Hsid [] Hn Hc Hval
    |session now Hop Hsid [] Hn Hc|now Hc|intent Hop Hc Hni Hne Hcase|Hop Hdi Hdd|observation Hop Hsid Hc [] Hdi]; simpl;
    try (split; [lia|intros Hr; destruct (Hrm Hr); congruence]).
  - pose proof (commits_next _ _ _ Hcm). destruct Hcm. split; [lia|done].
  - split; [lia|]. intros Hr. destruct (Hrm Hr) as [Hreg _]. unfold evaluated, derived_state.
    rewrite Hreg. apply with_state_same.
  - split; [|done]. unfold with_intent. by case_match.
  - split; [lia|]. rewrite Hdi. done.
Qed.

(** A call that is refused and changes nothing. *)
Definition refused (m : M Registry unit) (r : Registry) : Prop := exists e, m r = (r, Err e).

Lemma refused_cases m r : fst (m r) = r -> is_ok (snd (m r)) = false -> refused m r.
Proof. unfold refused. destruct (m r) as [r' [u|e]]; simpl; [done|]. intros -> _. by exists e. Qed.

Lemma not_reports session r record record' :
  r_workers r !! ws_WorkerID session = Some record -> wr_current record <> session -> ~ reports session r record'.
Proof. intros Hl Hne []. congruence. Qed.

(** A session epoch fences all older ones.  Over any history an identity's
    committed epoch never decreases; a session older than the committed one is
    refused by every operation, for ever, without any effect; and an identity
    that was Removed keeps its record unchanged for ever and can never commit
    another session. *)
Theorem session_fencing r ops id record :
  registry_inv r -> r_workers r !! id = Some record ->
  let r' := registry_run r ops in
  exists record', r_workers r' !! id = Some record' /\
    wr_maxSessionEpoch record <= wr_maxSessionEpoch record' /\
    (wr_intent record = IntentRemoved ->
       record' = record /\ forall session, ws_WorkerID session = id -> refused (CommitSession session) r') /\
    (forall session clock, ws_WorkerID session = id -> ws_SessionEpoch session < wr_maxSessionEpoch record ->
       refused (CommitSession session) r' /\ refused (Register session clock) r' /\
       refused (Heartbeat session clock) r' /\
       (forall inventory, in_Session inventory = session -> refused (ReportInventory inventory clock) r') /\
       (forall observation, do_Session observation = session -> refused (UpdateDrain observation) r')).
Proof.
  intros Hr Hl r'. destruct (registry_run_record r ops id record session_order Hr Hl) as (record' & Hl' & Hle & Hrm).
  { unfold session_order. split; [lia|done]. }
  { unfold session_order. intros a b c [? Hab] [? Hbc]. split; [lia|]. intros Ha. pose proof (Hab Ha). subst b. auto. }
  { intros r1 op a b _ _ Hok Ht. by eapply transition_session. }
  fold r' in Hl'. pose proof (registry_run_inv r ops Hr) as Hr'. fold r' in Hr'.
  pose proof (ri_worker _ Hr' _ _ Hl') as Hok. pose proof (wo_bound _ _ _ Hok). pose proof (wo_epoch _ _ _ Hok) as Hep.
  assert (forall session, ws_WorkerID session = id -> wr_intent record' = IntentRemoved \/
    ws_SessionEpoch session <= wr_maxSessionEpoch record' -> refused (CommitSession session) r') as Hcommit.
  { intros session Hid Hst. destruct (CommitSession session r') as [r2 res] eqn:E.
    pose proof E as [[Hno ->]|(_ & rec & Hc & _)]%CommitSession_cases; [apply refused_cases; by rewrite E|].
    exfalso. destruct (cs_record _ _ _ Hc) as [Hrec|(Hn & _)]; [|congruence]. rewrite Hid, Hl' in Hrec. simplify_eq.
    destruct Hst as [Hst|Hst]; [by apply (cs_intent _ _ _ Hc)|]. pose proof (commits_next _ _ _ Hc). lia. }
  exists record'. split_and!; [done|done| |].
  - intros Hrem. pose proof (Hrm Hrem). subst record'. auto.
  - intros session clock Hid Hst. assert (wr_current record' <> session) as Hcur by (intros <-; lia).
    rewrite <-Hid in Hl'. split_and!; [apply Hcommit; [done|right; lia]|..].
    + destruct (Register session clock r') as [r2 res] eqn:E.
      pose proof E as [[Hno ->]|(rec & [] & _)]%Register_cases; [apply refused_cases; by rewrite E|].
      exfalso. simplify_eq. lia.
    + destruct (Heartbeat session clock r') as [r2 res] eqn:E.
      pose proof E as [[Hno ->]|(rec & Hp & _)]%Heartbeat_cases; [apply refused_cases; by rewrite E|].
      by destruct (not_reports _ _ _ rec Hl' Hcur).
    + intros inventory <-. destruct (ReportInventory inventory clock r') as [r2 res] eqn:E.
      pose proof E as [[Hno ->]|(rec & Hp & _)]%ReportInventory_cases; [apply refused_cases; by rewrite E|].
      by destruct (not_reports _ _ _ rec Hl' Hcur).
    + intros observation <-. destruct (UpdateDrain observation r') as [r2 res] eqn:E.
      pose proof E as [[Hno ->]|(rec & _ & Hp & _)]%UpdateDrain_cases; [apply refused_cases; by rewrite E|].
      by destruct (not_reports _ _ _ rec Hl' Hcur).
Qed.

(** ** Liveness *)
Lemma registry_run_clock r ops : r_clockHealthy (registry_run r ops) = true -> r_clockHealthy r = true.
Proof.
  revert r. induction ops as [|op ops IH]; intros r H; simpl in *; [done|].
  apply (pg_clock _ _ op (registry_step_progress r op)). by apply IH.
Qed.

(** The liveness state that the time since the last heartbeat calls for. *)
Definition liveness (r : Registry) (silent : Z) : string :=
  if silent <? r_suspectAfter r then SessionReady
  else if silent <? r_unavailableAfter r then SessionSuspect
  else SessionUnavailable.

Definition observed (record : workerRecord) : bool :=
  wr_registered record && negb (wr_needsNewSession record) && wr_hasInventory record.

Lemma derived_state_spec r id record now :
  registry_inv r -> r_workers r !! id = Some record -> r_lastElapsed r <= now < 2 ^ 63 ->
  derived_state r record now
  = if observed record then liveness r (now - wr_lastHeartbeat record) else wr_state record.
Proof.
  intros Hr Hl Hn. pose proof (wo_heartbeat _ _ _ (ri_worker _ Hr _ _ Hl)) as Hh.
  pose proof (ri_timing _ Hr). unfold derived_state, observed, liveness.
  assert (i64 (now - wr_lastHeartbeat record) = now - wr_lastHeartbeat record) as ->.
  { unfold i64. rewrite Z.mod_small by lia. lia. }
  destruct (wr_registered record), (wr_needsNewSession record), (wr_hasInventory record); simpl; try done.
  rewrite !Z.geb_leb, !Z.leb_antisym.
  destruct (_ <? r_unavailableAfter r) eqn:E1, (_ <? r_suspectAfter r) eqn:E2; simpl; go_cases; done || lia.
Qed.

(** [Evaluate] classifies every Worker exactly by the time since its last
    heartbeat, whatever order the map is iterated in: Ready below the suspect
    threshold, Suspect from it, Unavailable from the unavailable threshold;
    records without a same-session inventory, and all other fields, are left
    alone.  It fails only on a clock regression, and then no Worker is ever
    again Ready or Suspect. *)
Theorem Evaluate_liveness r order clock :
  registry_inv r -> order ≡ₚ map_to_list (r_workers r) -> clock < 2 ^ 63 ->
  Evaluate_in order clock r = Evaluate clock r /\
  let r' := fst (Evaluate clock r) in
  match snd (Evaluate clock r) with
  | Ok _ =>
    r_clockHealthy r = true /\ r_lastElapsed r <= clock /\
    forall id, r_workers r' !! id =
      (fun record => if observed record then with_state record (liveness r (clock - wr_lastHeartbeat record))
                     else record) <$> r_workers r !! id
  | Err _ =>
    (r_clockHealthy r = false \/ clock < r_lastElapsed r) /\
    forall ops id record, r_workers (registry_run r' ops) !! id = Some record ->
      wr_state record <> SessionReady /\ wr_state record <> SessionSuspect
  end.
Proof.
  intros Hr Hp Hn. destruct (Evaluate_in order clock r) as [r1 res1] eqn:E1.
  destruct (Evaluate clock r) as [r2 res2] eqn:E2. pose proof E1 as H1%Evaluate_in_cases; [|done].
  pose proof E2 as H2%Evaluate_in_cases; [|done].
  assert (res1 = res2) as <-.
  { revert E1 E2. unfold Evaluate, Evaluate_in, sbind, sget, sput.
    destruct (elapsedLocked clock r) as [r0 [now|e]]; congruence. }
  assert (r1 = r2) as <- by (destruct H1 as [[? ->]|(-> & ? & ? & ->)], H2 as [[? ->]|(? & ? & ? & ->)];
    subst; done).
  clear H2. split; [done|]. simpl. destruct H1 as [[Hno ->]|(-> & Hh & He & ->)].
  - destruct res1 as [u|e]; [done|]. split.
    + clear E1. revert E2. unfold Evaluate, Evaluate_in, sbind, sget, sput, elapsedLocked, sthrow, sret, sbind.
      unfold sget. destruct (r_clockHealthy r); [|by left]. simpl. destruct (clock <? r_lastElapsed r) eqn:E; [|done].
      go_cases. by right.
    + intros ops id record Hl.
      assert (registry_inv (failed_clock r)) as Hf.
      { replace (failed_clock r) with (registry_step r (OpEvaluate clock)) by (simpl; by rewrite E2).
        by apply registry_step_inv. }
      pose proof (ri_worker _ (registry_run_inv _ ops Hf) _ _ Hl) as Hok.
      assert (r_clockHealthy (registry_run (failed_clock r) ops) = true -> False) as Hbad
        by (by intros ?%registry_run_clock).
      split; intros Hst; apply Hbad, (wo_live _ _ _ Hok); auto.
  - split_and!; [done|done|]. intros id. simpl. rewrite lookup_fmap.
    destruct (r_workers r !! id) as [record|] eqn:Hl; simpl; [|done]. f_equal. unfold evaluated.
    rewrite (derived_state_spec r id record clock) by (done || lia). destruct (observed record); [done|].
    apply with_state_same.
Qed.

(** ** Ready Workers *)

(** The record holds exactly the inventory that was reported. *)
Definition holds (record : workerRecord) (inventory : Inventory) : Prop :=
  in_Session inventory = wr_current record /\ in_Runtime inventory = wr_runtime record /\
  in_Capacity inventory = wr_capacity record /\ in_Labels inventory = wr_labels record /\
  in_Cache inventory = wr_cache record.

Lemma transition_inventory r r' op id record record' :
  transition r r' op id record record' -> wr_hasInventory record' = true ->
  (exists inventory clock, op = OpReportInventory inventory clock /\ holds record' inventory) \/
  (wr_hasInventory record = true /\ forall inventory, holds record inventory -> holds record' inventory).
Proof.
  intros Ht. destruct Ht as [| | | |inventory now -> ? [] ? ? ?| | |intent ? ? ? ? ?| |]; simpl; try (by auto).
  - intros _. left. exists inventory, now. split; [done|]. unfold holds. by rewrite <-rp_current0.
  - unfold with_intent. case_match; simpl; auto.
Qed.

Lemma inventory_provenance r0 ops id record :
  r_workers r0 = ∅ -> r_workers (registry_run r0 ops) !! id = Some record -> wr_hasInventory record = true ->
  exists ops1 inventory clock ops2, ops = ops1 ++ OpReportInventory inventory clock :: ops2 /\ holds record inventory.
Proof.
  intros H0. revert record. induction ops as [|op ops IH] using rev_ind; intros record Hl Hinv.
  { simpl in Hl. rewrite H0 in Hl. done. }
  rewrite registry_run_app in Hl. simpl in Hl. pose proof (registry_step_progress (registry_run r0 ops) op) as Hp.
  destruct (r_workers (registry_run r0 ops) !! id) as [rec|] eqn:E.
  - destruct (pg_record _ _ _ Hp _ _ E) as (rec' & Hl' & Ht). simplify_eq.
    destruct (transition_inventory _ _ _ _ _ _ Ht Hinv) as [(inventory & clock & -> & Hh)|[Hhas Hkeep]].
    + by exists ops, inventory, clock, [].
    + destruct (IH _ eq_refl Hhas) as (ops1 & inventory & clock & ops2 & -> & Hh).
      exists ops1, inventory, clock, (ops2 ++ [op]). rewrite <-app_assoc. auto.
  - destruct (pg_new _ _ _ Hp _ E) as (session & _ & _ & _ & Hl' & _); [by eexists|]. by simplify_eq.
Qed.

Lemma compareView_spec a b :
  compareView a b = to_int (String.compare (ws_WorkerID (w_Session (wv_Snapshot a)))
                              (ws_WorkerID (w_Session (wv_Snapshot b)))).
Proof. unfold compareView. rewrite str_three_way. by destruct (String.compare _ _). Qed.

Definition view_order : WorkerView -> WorkerView -> comparison :=
  comparing (fun v => ws_WorkerID (w_Session (wv_Snapshot v))) String.compare.
#[global] Instance view_order_total : TotalCompare view_order.
Proof. unfold view_order. apply _. Qed.

Lemma snapshot_order r order :
  registry_inv r -> order ≡ₚ map_to_list (r_workers r) -> snapshot_in r order = Snapshot r.
Proof.
  intros Hr Hp. unfold Snapshot, snapshot_in. f_equal.
  rewrite !(SortFunc_ext compareView (int_of view_order) _ (fun x y _ _ => compareView_spec x y)).
  apply SortFunc_order_independent; [apply _| |by rewrite Hp].
  intros x y Hx Hy Heq%String.compare_eq_iff.
  apply list_elem_of_fmap in Hx as ([i x'] & -> & Hx), Hy as ([j y'] & -> & Hy). simpl in *.
  rewrite Hp in Hx, Hy. apply elem_of_map_to_list in Hx, Hy.
  rewrite (wo_worker _ _ _ (ri_worker _ Hr _ _ Hx)), (wo_worker _ _ _ (ri_worker _ Hr _ _ Hy)) in Heq. congruence.
Qed.

Lemma snapshot_worker_ids r :
  registry_inv r ->
  map (fun kr => ws_WorkerID (w_Session (snapshot_of (snd kr)))) (map_to_list (r_workers r))
  = (map_to_list (r_workers r)).*1.
Proof.
  intros Hr. apply map_ext_in. intros [id record] Hin%list_elem_of_In%elem_of_map_to_list. simpl.
  apply (wo_worker _ _ _ (ri_worker _ Hr _ _ Hin)).
Qed.

(** The registry delivers what the scheduler asks of a set of observations. *)
Lemma snapshot_worker_set r :
  registry_inv r -> validateWorkerSet (map wv_Snapshot (rs_Workers (Snapshot r))) = Ok tt.
Proof.
  intros Hr. unfold Snapshot, snapshot_in. simpl.
  rewrite (validateWorkerSet_Permutation _ _ (fmap_Permutation wv_Snapshot _ _ (SortFunc_Permutation _ _))).
  unfold validateWorkerSet. apply rbind_Ok. exists tt. split.
  - apply fail_if_Ok. unfold len. rewrite !length_map, length_map_to_list, Z.gtb_ltb, Z.ltb_ge.
    pose proof (ri_size _ Hr). unfold HardMaxWorkers, MaxWorkers in *. lia.
  - apply for_each_unique_Ok. split_and!; [by apply Forall_true| |set_solver].
    change (NoDup (map (fun w => ws_WorkerID (w_Session w)) (map wv_Snapshot
      (map (fun kr => view_of (snd kr)) (map_to_list (r_workers r)))))).
    rewrite !map_map. pose proof (snapshot_worker_ids r Hr) as Hids. simpl in Hids |- *. rewrite Hids.
    apply NoDup_fst_map_to_list.
Qed.

(** C38: In every reachable registry state a Worker shown as Ready or Suspect
    is registered under exactly its highest committed session, is not Removed,
    the clock is healthy, and its observation is the inventory that this very
    session reported, valid for the scheduler.  The snapshot does not depend on
    map iteration order and is always an acceptable Worker set for placement. *)
Theorem ready_workers_sound config elapsed r0 ops :
  New config elapsed = Ok r0 ->
  let r := registry_run r0 ops in
  (forall id record, r_workers r !! id = Some record ->
     wr_state record = SessionReady \/ wr_state record = SessionSuspect ->
     r_clockHealthy r = true /\ wr_registered record = true /\ wr_intent record <> IntentRemoved /\
     wr_current record = {| ws_WorkerID := id; ws_BootID := wr_bootID record;
                            ws_SessionEpoch := wr_maxSessionEpoch record |} /\
     WorkerSnapshot_validate (snapshot_of record) = Ok tt /\
     exists ops1 inventory clock ops2,
       ops = ops1 ++ OpReportInventory inventory clock :: ops2 /\ holds record inventory) /\
  (forall order, order ≡ₚ map_to_list (r_workers r) -> snapshot_in r order = Snapshot r) /\
  validateWorkerSet (map wv_Snapshot (rs_Workers (Snapshot r))) = Ok tt.
Proof.
  intros [Hi H0]%New_registry_inv r. pose proof (registry_run_inv r0 ops Hi) as Hr. fold r in Hr.
  split_and!; [|by intros; apply snapshot_order|by apply snapshot_worker_set].
  intros id record Hl Hst. pose proof (ri_worker _ Hr _ _ Hl) as Hok.
  destruct (wo_live _ _ _ Hok Hst) as (Hreg & Hhas & _ & Hc). split_and!; try done.
  - intros Hrm. destruct (wo_removed _ _ _ Hok Hrm). congruence.
  - pose proof (wo_worker _ _ _ Hok). pose proof (wo_boot _ _ _ Hok). pose proof (wo_epoch _ _ _ Hok).
    destruct (wr_current record); simpl in *; congruence.
  - by apply (wo_inventory _ _ _ Hok).
  - by eapply inventory_provenance.
Qed.

(** ** Draining *)
Lemma transition_drained r r' op id a b :
  transition r r' op id a b -> wr_drain b = DrainDrained ->
  wr_drain a = DrainDrained \/
  exists observation, op = OpUpdateDrain observation /\ ws_WorkerID (do_Session observation) = id /\
    drain_proved observation = true /\ reports (do_Session observation) r a /\ wr_intent a = IntentDraining.
Proof.
  intros Ht. destruct Ht as [| | | | | | |intent ? ? ? ? Hcase| |observation]; simpl; try (by auto).
  - unfold with_intent. by destruct Hcase as [-> | ->].
  - unfold next_drain. intros E. destruct (drain_proved observation) eqn:Ep; [|done]. right. by exists observation.
Qed.

Definition drain_of (id : string) (r : Registry) : option string := wr_drain <$> r_workers r !! id.

Lemma drain_provenance r0 ops id :
  r_workers r0 = ∅ -> drain_of id (registry_run r0 ops) = Some DrainDrained ->
  exists ops1 observation ops2,
    ops = ops1 ++ OpUpdateDrain observation :: ops2 /\ ws_WorkerID (do_Session observation) = id /\
    drain_proved observation = true /\
    (exists record, reports (do_Session observation) (registry_run r0 ops1) record /\ wr_intent record = IntentDraining) /\
    forall n, drain_of id (registry_run r0 (ops1 ++ OpUpdateDrain observation :: take n ops2)) = Some DrainDrained.
Proof.
  intros H0. induction ops as [|op ops IH] using rev_ind; intros Hd.
  { unfold drain_of in Hd. simpl in Hd. by rewrite H0 in Hd. }
  pose proof Hd as Hd0. rewrite registry_run_app in Hd. simpl in Hd.
  pose proof (registry_step_progress (registry_run r0 ops) op) as Hp. unfold drain_of in Hd.
  apply fmap_Some in Hd as (rec' & Hl' & Hdr).
  destruct (r_workers (registry_run r0 ops) !! id) as [rec|] eqn:E.
  - destruct (pg_record _ _ _ Hp _ _ E) as (rec1 & Hl1 & Ht). simplify_eq.
    destruct (transition_drained _ _ _ _ _ _ Ht) as [Hold|(observation & -> & Hid & Hpr & Hrep & Hint)]; [done|..].
    + destruct IH as (ops1 & observation & ops2 & -> & Hid & Hpr & Hrec & Hall).
      { unfold drain_of. rewrite E. simpl. by f_equal. }
      exists ops1, observation, (ops2 ++ [op]). split; [by rewrite <-app_assoc|]. split_and!; try done.
      intros n. destruct (decide (n <= length ops2)%nat) as [Hn|Hn].
      * rewrite take_app_le by done. apply Hall.
      * rewrite take_ge by (rewrite length_app; simpl; lia). by rewrite <-app_assoc in Hd0.
    + exists ops, observation, []. split_and!; try done; [by exists rec|]. intros n. by rewrite take_nil.
  - destruct (pg_new _ _ _ Hp _ E) as (session & _ & _ & _ & Hl1 & _); [by eexists|]. by simplify_eq.
Qed.

Lemma transition_needs r r' op id a b :
  transition r r' op id a b -> (forall session, op = OpCommitSession session -> ws_WorkerID session <> id) ->
  wr_needsNewSession a = true -> wr_needsNewSession b = true.
Proof.
  intros Ht Hop Hn. destruct Ht as [| |session ? ?| | | | |intent| |]; simpl; try done.
  - by destruct (Hop session).
  - unfold with_intent. by case_match.
Qed.

(** A Worker is shown Drained, and can be Removed, only on a proof: some
    accepted observation of its current session, while it was draining, reported
    no active invocation, no remaining Assignment and either acknowledged fences
    or an expired authorization window, and it was never retracted since.  A
    Worker that is activated again stays out of service until a new session is
    committed, whatever else is called. *)
Theorem drain_protocol config elapsed r0 ops id record :
  New config elapsed = Ok r0 -> r_workers (registry_run r0 ops) !! id = Some record ->
  (wr_drain record = DrainDrained \/ wr_intent record = IntentRemoved ->
   exists ops1 observation ops2,
     ops = ops1 ++ OpUpdateDrain observation :: ops2 /\ ws_WorkerID (do_Session observation) = id /\
     do_ActiveInvocations observation = 0 /\ do_AssignmentsDrained observation = true /\
     (do_GatewayFencesAcked observation = true \/ do_AuthorizationExpired observation = true) /\
     (exists before, currentLocked (do_Session observation) (registry_run r0 ops1) = Ok before /\
                     wr_intent before = IntentDraining) /\
     forall n, drain_of id (registry_run r0 (ops1 ++ OpUpdateDrain observation :: take n ops2)) = Some DrainDrained) /\
  (wr_intent record = IntentDraining -> forall ops' record',
   (forall session, OpCommitSession session ∈ ops' -> ws_WorkerID session <> id) ->
   r_workers (registry_run (fst (SetIntent id IntentSchedulable (registry_run r0 ops))) ops') !! id = Some record' ->
   wr_state record' <> SessionReady /\ wr_state record' <> SessionSuspect).
Proof.
  intros [Hi H0]%New_registry_inv Hl. pose proof (registry_run_inv r0 ops Hi) as Hr.
  pose proof (ri_worker _ Hr _ _ Hl) as Hok. split.
  - intros Hd. assert (wr_drain record = DrainDrained) as Hdr.
    { destruct Hd as [Hd|Hrm]; [done|]. pose proof (wo_drain _ _ _ Hok) as Hw. rewrite Hrm in Hw. simpl in Hw.
      by destruct Hw as [?|[_ ?]]. }
    destruct (drain_provenance r0 ops id H0) as (ops1 & observation & ops2 & -> & Hid & Hpr & (before & [] & Hint) & Hall).
    { unfold drain_of. rewrite Hl. simpl. by f_equal. }
    unfold drain_proved in Hpr. go_cases. exists ops1, observation, ops2. split_and!; try done.
    exists before. split; [|done]. unfold currentLocked. rewrite rp_record0, rp_registered0. simpl.
    by rewrite rp_current0, bool_decide_true by done.
  - intros Hint ops' record' Hno Hl'. set (q := fst (SetIntent _ _ _)) in *.
    assert (r_workers q !! id = Some (with_intent record IntentSchedulable)) as Hq.
    { subst q. unfold SetIntent, sbind, slift, sget, sput, sret, sthrow.
      pose proof (wo_session _ _ _ Hok) as Hv. unfold WorkerSession_validate in Hv. ok_inv.
      rewrite (wo_worker _ _ _ Hok) in Hv0. rewrite Hv0. simpl. rewrite Hl, Hint. simpl.
      by rewrite lookup_insert_eq. }
    assert (registry_inv q) as Hqi by (apply (registry_step_inv _ (OpSetIntent id IntentSchedulable) Hr)).
    destruct (registry_run_record q ops' id _ (fun a b => wr_needsNewSession a = true -> wr_needsNewSession b = true)
      Hqi Hq) as (record1 & Hl1 & Hneeds).
    { done. } { auto. }
    { intros r1 op a b Hin _ _ Ht. eapply transition_needs; [done|]. intros session ->. by apply Hno. }
    simplify_eq. pose proof (ri_worker _ (registry_run_inv q ops' Hqi) _ _ Hl') as Hok'.
    split; intros Hst; destruct (wo_live _ _ _ Hok') as (_ & _ & Hnn & _); auto; rewrite Hneeds in Hnn; done.
Qed.

(** ** Witnesses: one Worker joins, is drained, removed or activated again *)
Definition ex_config : Config :=
  {| cf_HeartbeatInterval := 0; cf_SuspectAfter := 0; cf_UnavailableAfter := 0; cf_MaxWorkers := 0 |}.
Definition ex_registry : Registry :=
  {| r_heartbeatInterval := DefaultHeartbeatInterval; r_suspectAfter := DefaultSuspectAfter;
     r_unavailableAfter := DefaultUnavailableAfter; r_maxWorkers := DefaultMaxWorkers; r_workers := ∅;
     r_revision := 0; r_lastElapsed := 0; r_clockHealthy := true |}.
Definition ex_session (epoch : Z) : WorkerSession :=
  {| ws_WorkerID := "worker-1"; ws_BootID := "boot-1"; ws_SessionEpoch := epoch |}.
Definition ex_inventory (epoch : Z) : Inventory :=
  {| in_Revision := 1; in_Session := ex_session epoch; in_Runtime := w_Runtime (ex_worker "worker-1" 2);
     in_Capacity := w_Capacity (ex_worker "worker-1" 2); in_Labels := {[ "zone" := "east" ]}%string;
     in_Cache := zero_CacheHints |}.
Definition ex_join (epoch clock : Z) : list registry_op :=
  [OpCommitSession (ex_session epoch); OpRegister (ex_session epoch) clock;
   OpReportInventory (ex_inventory epoch) clock].
Definition ex_drained (epoch : Z) : DrainObservation :=
  {| do_Session := ex_session epoch; do_ActiveInvocations := 0; do_AssignmentsDrained := true;
     do_GatewayFencesAcked := true; do_AuthorizationExpired := false |}.
Definition ex_ready : Registry := registry_run ex_registry (ex_join 1 0).
Definition ex_drain : list registry_op :=
  ex_join 1 0 ++ [OpSetIntent "worker-1" IntentDraining; OpUpdateDrain (ex_drained 1)].
Definition ex_record (r : Registry) : workerRecord := default (new_worker "") (r_workers r !! "worker-1"%string).

Lemma ex_registry_new : New ex_config 0 = Ok ex_registry.
Proof. done. Qed.
Lemma ex_ready_inv : registry_inv ex_ready.
Proof. apply registry_run_inv. exact (proj1 (New_registry_inv _ _ _ ex_registry_new)). Qed.
Lemma ex_ready_record : r_workers ex_ready !! "worker-1"%string = Some (ex_record ex_ready).
Proof. by vm_compute. Qed.
Lemma ex_drain_record :
  r_workers (registry_run ex_registry ex_drain) !! "worker-1"%string = Some (ex_record (registry_run ex_registry ex_drain)).
Proof. by vm_compute. Qed.

Lemma session_fencing_witness :
  refused (Heartbeat (ex_session 1) 9) (registry_run (registry_run ex_ready (ex_join 2 5)) []).
Proof.
  assert (registry_inv (registry_run ex_ready (ex_join 2 5))) as Hi by (apply registry_run_inv, ex_ready_inv).
  destruct (session_fencing (registry_run ex_ready (ex_join 2 5)) [] "worker-1"
    (ex_record (registry_run ex_ready (ex_join 2 5))) Hi) as (record & _ & _ & _ & H); [by vm_compute|].
  destruct (H (ex_session 1) 9) as (_ & _ & Hb & _); [exact eq_refl|by vm_compute|exact Hb].
Defined.

Lemma Evaluate_liveness_witness :
  Evaluate_in (rev (map_to_list (r_workers ex_ready))) (7 * second) ex_ready = Evaluate (7 * second) ex_ready /\
  wr_state (ex_record (fst (Evaluate (7 * second) ex_ready))) = SessionSuspect.
Proof.
  destruct (Evaluate_liveness ex_ready (rev (map_to_list (r_workers ex_ready))) (7 * second) ex_ready_inv) as [H _];
    [symmetry; apply Permutation_rev|by vm_compute|].
  split; [exact H|by vm_compute].
Defined.

Lemma ready_workers_sound_witness :
  wr_state (ex_record ex_ready) = SessionReady /\ holds (ex_record ex_ready) (ex_inventory 1) /\
  validateWorkerSet (map wv_Snapshot (rs_Workers (Snapshot ex_ready))) = Ok tt.
Proof.
  destruct (ready_workers_sound ex_config 0 ex_registry (ex_join 1 0) ex_registry_new) as (_ & _ & H).
  split; [vm_compute; exact eq_refl|]. split; [|exact H].
  unfold holds. split; [|split; [|split; [|split]]]; vm_compute; exact eq_refl.
Defined.

Lemma drain_protocol_witness :
  wr_drain (ex_record (registry_run ex_registry ex_drain)) = DrainDrained /\
  (exists ops1 observation ops2, ex_drain = ops1 ++ OpUpdateDrain observation :: ops2).
Proof.
  destruct (drain_protocol ex_config 0 ex_registry ex_drain "worker-1" _ ex_registry_new ex_drain_record) as [H _].
  split; [by vm_compute|]. destruct H as (ops1 & observation & ops2 & H & _); [left; by vm_compute|].
  exists ops1, observation, ops2. exact H.
Defined.

End workerregistry.
