(* ===== verification/Net.v ===== *)
(** * The parts of [net], [net/netip], [strings], [strconv], [time] and
    [encoding/base64] that serving snapshots rely on

    Everything here works on the bytes of a Go string and only decides what
    the code asks: whether the call succeeds and the parts it splits off. *)
From stdpp Require Import base gmap strings list pretty.
From S2P Require Import Prelude Json.

#[local] Open Scope Z_scope.

Module net.

(** [bytealg.IndexByte]: the bytes before and after the first [b]. *)
Fixpoint cut (b : Z) (l : list Z) : option (list Z * list Z) :=
  match l with
  | [] => None
  | x :: l' =>
    if x =? b then Some ([], l')
    else match cut b l' with Some (u, v) => Some (x :: u, v) | None => None end
  end.

(** The same at the last [b]. *)
Definition cut_last (b : Z) (l : list Z) : option (list Z * list Z) :=
  match cut b (rev l) with Some (u, v) => Some (rev v, rev u) | None => None end.

Definition contains (b : Z) (l : list Z) : bool := existsb (Z.eqb b) l.

Definition colon : Z := 58.
Definition dot : Z := 46.
Definition percent : Z := 37.
Definition lbracket : Z := 91.
Definition rbracket : Z := 93.
Definition hyphen : Z := 45.

(** [net.SplitHostPort]: host and port, or an error. *)
Definition SplitHostPort (hostport : list Z) : option (list Z * list Z) :=
  match cut_last colon hostport with
  | None => None
  | Some (before, port) =>
    match hostport with
    | [] => None
    | first :: rest =>
      if first =? lbracket then
        (* the first ']' must be just before the last ':' *)
        match cut rbracket rest with
        | None => None
        | Some (host, after) =>
          match after with
          | c :: port' =>
            if (c =? colon) && negb (contains colon port') && negb (contains lbracket rest)
               && negb (contains rbracket after)
            then Some (host, port') else None
          | [] => None
          end
        end
      else if contains colon before || contains lbracket hostport || contains rbracket hostport then None
      else Some (before, port)
    end
  end.

(** [strconv.ParseUint(s, 10, bits)]. *)
Fixpoint parse_digits (acc : Z) (l : list Z) : option Z :=
  match l with
  | [] => Some acc
  | b :: l' => if is_digit b then parse_digits (10 * acc + (b - 48)) l' else None
  end.
Definition ParseUint (bits : Z) (l : list Z) : option Z :=
  match l with
  | [] => None
  | _ => match parse_digits 0 l with
         | Some v => if v <? 2 ^ bits then Some v else None
         | None => None
         end
  end.

(** [strings.Split(s, sep)] for a one-byte separator. *)
Fixpoint split (sep : Z) (l : list Z) : list (list Z) :=
  match l with
  | [] => [[]]
  | b :: l' =>
    if b =? sep then [] :: split sep l'
    else match split sep l' with
         | part :: parts => (b :: part) :: parts
         | [] => [[b]]
         end
  end.

(** ** [strings.TrimSpace(s) != s], for valid UTF-8 *)
Definition space_runes : list (list Z) :=
  [[9]; [10]; [11]; [12]; [13]; [32]; [0xC2; 0x85]; [0xC2; 0xA0]; [0xE1; 0x9A; 0x80]]
  ++ map (fun b => [0xE2; 0x80; b]) [0x80; 0x81; 0x82; 0x83; 0x84; 0x85; 0x86; 0x87; 0x88; 0x89; 0x8A; 0xA8; 0xA9; 0xAF]
  ++ [[0xE2; 0x81; 0x9F]; [0xE3; 0x80; 0x80]].

Fixpoint starts_with (p l : list Z) : bool :=
  match p, l with
  | [], _ => true
  | x :: p', y :: l' => (x =? y) && starts_with p' l'
  | _ :: _, [] => false
  end.

Definition trimmed (l : list Z) : bool :=
  negb (existsb (fun r => starts_with r l) space_runes)
  && negb (existsb (fun r => starts_with (rev r) (rev l)) space_runes).

(** ** [netip.ParseAddr] succeeds *)

(** One octet: one to three digits, no leading zero, at most 255. *)
Definition octet (l : list Z) : bool :=
  match l with
  | [] => false
  | b :: l' =>
    ((negb (b =? 48)) || (len l' =? 0))
    && match parse_digits 0 l with Some v => v <=? 255 | None => false end
  end.

Definition parse_ipv4 (l : list Z) : bool :=
  let parts := split dot l in (len parts =? 4) && forallb octet parts.

Definition is_hex (b : Z) : bool := is_digit b || in_range 97 102 b || in_range 65 70 b.

(** The leading hex digits and the rest. *)
Fixpoint span_hex (l : list Z) : list Z * list Z :=
  match l with
  | b :: l' => if is_hex b then let '(u, v) := span_hex l' in (b :: u, v) else ([], l)
  | [] => ([], [])
  end.

(** The group loop of [parseIPv6]: [i] bytes are filled, [ellipsis] tells
    whether "::" was seen.  Eight groups fill the sixteen bytes, so eight
    iterations are enough. *)
Fixpoint ipv6_groups (fuel : nat) (i : Z) (ellipsis : bool) (l : list Z) : bool :=
  let finish i ellipsis l :=
    (len l =? 0) && (if i <? 16 then ellipsis else negb ellipsis) in
  match fuel with
  | O => finish i ellipsis l
  | S fuel' =>
    if i >=? 16 then finish i ellipsis l
    else
      let '(group, rest) := span_hex l in
      if (len group =? 0) || (len group >? 4) then false
      else match rest with
      | [] => finish (i + 2) ellipsis []
      | c :: rest' =>
        if c =? dot then
          if negb ellipsis && negb (i =? 12) then false
          else if i + 4 >? 16 then false
          else parse_ipv4 l && finish (i + 4) ellipsis []
        else if negb (c =? colon) then false
        else match rest' with
        | [] => false
        | c' :: rest'' =>
          if c' =? colon then
            if ellipsis then false
            else match rest'' with
                 | [] => finish (i + 2) true []
                 | _ => ipv6_groups fuel' (i + 2) true rest''
                 end
          else ipv6_groups fuel' (i + 2) ellipsis rest'
        end
      end
  end.

Definition parse_ipv6 (l : list Z) : bool :=
  let '(address, zone_ok) :=
    match cut percent l with
    | None => (l, true)
    | Some (address, zone) => (address, negb (len zone =? 0))
    end in
  zone_ok &&
  match address with
  | 58 :: 58 :: [] => true
  | 58 :: 58 :: rest => ipv6_groups 8 0 true rest
  | _ => ipv6_groups 8 0 false address
  end.

(** The first of '.', ':' and '%' decides the kind of address. *)
Fixpoint first_separator (l : list Z) : option Z :=
  match l with
  | [] => None
  | b :: l' => if (b =? dot) || (b =? colon) || (b =? percent) then Some b else first_separator l'
  end.

Definition ParseAddr (l : list Z) : bool :=
  match first_separator l with
  | Some b => if b =? dot then parse_ipv4 l else if b =? colon then parse_ipv6 l else false
  | None => false
  end.

Example ParseAddr_ok :
  forallb (fun s => ParseAddr (codes s))
    ["10.0.0.1"; "::"; "::1"; "fe80::1%eth0"; "2001:db8::8a2e:370:7334"; "1:2:3:4:5:6:7:8"; "::ffff:10.0.0.1";
     "1:2:3:4:5:6:1.2.3.4"; "1::"]%string = true.
Proof. by vm_compute. Qed.

Example ParseAddr_bad :
  existsb (fun s => ParseAddr (codes s))
    [""; "10.0.0"; "10.0.0.01"; "10.0.0.256"; "1.2.3.4.5"; ":::"; "1::2::3"; "12345::"; "1:2:3:4:5:6:7:8:9";
     "1:2:3:4:5:6:7::8"; "fe80::1%"; "host"; "1:2:3:4:5:6:7:1.2.3.4"; "::1:"]%string = false.
Proof. by vm_compute. Qed.

Example SplitHostPort_ex :
  SplitHostPort (codes "[::1]:80") = Some (codes "::1", codes "80") /\
  SplitHostPort (codes "a:80") = Some (codes "a", codes "80") /\
  SplitHostPort (codes "a:b:80") = None /\ SplitHostPort (codes "[::1]80") = None.
Proof. by vm_compute. Qed.

(** ** [encoding/base64], standard encoding: how a [[]byte] marshals *)
Definition base64_digit (n : Z) : Z :=
  if n <? 26 then 65 + n else if n <? 52 then 71 + n else if n <? 62 then n - 4
  else if n =? 62 then 43 else 47.
Fixpoint base64 (l : list Z) : list Z :=
  match l with
  | a :: b :: c :: l' =>
    base64_digit (a / 4) :: base64_digit (a mod 4 * 16 + b / 16)
    :: base64_digit (b mod 16 * 4 + c / 64) :: base64_digit (c mod 64) :: base64 l'
  | [a; b] => [base64_digit (a / 4); base64_digit (a mod 4 * 16 + b / 16); base64_digit (b mod 16 * 4); 61]
  | [a] => [base64_digit (a / 4); base64_digit (a mod 4 * 16); 61; 61]
  | [] => []
  end.
Definition base64_string (s : string) : string := json.str_of (base64 (codes s)).

Example base64_ex : map base64_string ["f"; "fo"; "foo"; "foobar"]%string = ["Zg=="; "Zm8="; "Zm9v"; "Zm9vYmFy"]%string.
Proof. by vm_compute. Qed.

(** ** [t.Format(time.RFC3339Nano)] for a UTC time *)
Definition digits (width : nat) (n : Z) : string :=
  let s := pretty (Z.to_N n) in
  json.str_of (repeat 48 (width - String.length s)) +:+ s.

(** The proleptic Gregorian date of a day counted from January 1, year 1. *)
Definition civil (days : Z) : Z * Z * Z :=
  (* days from March 1, year 0, the start of a 400-year era *)
  let z := days + 306 in
  let era := z / 146097 in
  let doe := z mod 146097 in
  let yoe := (doe - doe / 1460 + doe / 36524 - doe / 146096) / 365 in
  let doy := doe - (365 * yoe + yoe / 4 - yoe / 100) in
  let mp := (5 * doy + 2) / 153 in
  let day := doy - (153 * mp + 2) / 5 + 1 in
  let month := if mp <? 10 then mp + 3 else mp - 9 in
  (era * 400 + yoe + (if month <=? 2 then 1 else 0), month, day).

(** The fraction of a second without its trailing zeros. *)
Fixpoint strip_zeros (l : list Z) : list Z :=
  match l with
  | 48 :: l' => strip_zeros l'
  | _ => l
  end.
Definition fraction (nanos : Z) : string :=
  if nanos =? 0 then ""
  else "." +:+ json.str_of (rev (strip_zeros (rev (codes (digits 9 nanos))))).

Definition FormatRFC3339Nano (t : Time) : string :=
  let wall := t_wall t in
  let seconds := wall / second in
  let '(year, month, day) := civil (seconds / 86400) in
  let clock := seconds mod 86400 in
  digits 4 year +:+ "-" +:+ digits 2 month +:+ "-" +:+ digits 2 day +:+ "T"
  +:+ digits 2 (clock / 3600) +:+ ":" +:+ digits 2 (clock / 60 mod 60) +:+ ":" +:+ digits 2 (clock mod 60)
  +:+ fraction (wall mod second) +:+ "Z".

(** 1970-01-01 is 719162 days after 0001-01-01. *)
Example Format_ex :
  map (fun ns => FormatRFC3339Nano {| t_wall := 719162 * 86400 * second + ns; t_offset := 0; t_mono := None |})
    [0; 1785542399 * second + 120000000; 951782400 * second]
  = ["1970-01-01T00:00:00Z"; "2026-07-31T23:59:59.12Z"; "2000-02-29T00:00:00Z"]%string.
Proof. by vm_compute. Qed.

End net.
