(* ===== verification/Discovery.v ===== *)
(** * Package [internal/discovery]: complete serving snapshots

    A snapshot is one Function's Trigger, Route and publishable Endpoints,
    with a checksum over all of them.  [Build] filters Endpoint candidates and
    explains every exclusion; the [Publisher] owns the global sequence. *)
From stdpp Require Import base gmap strings list sorting pretty.
From S2P Require Import Prelude Problem Digest Json Model ServingAuth Scheduler Net.
Import problem digest model servingauth scheduler.

#[local] Open Scope Z_scope.

Module discovery.

Definition ServingSchemaVersion : string := "minicloud-serving-v1".
Definition ServingChecksumDomain : string := "serving-snapshot".
Definition ServingChecksumVersion : string := "v1".
Definition DefaultMaxEndpoints : Z := 1000.
Definition HardMaxEndpoints : Z := 1000.
Definition maxEndpointAddressBytes : Z := 512.

Definition AuthPublic : string := "public".
Definition AuthToken : string := "token".
Definition AssignmentAssigned : string := "Assigned".
Definition AssignmentCancelled : string := "Cancelled".
Definition EndpointReady : string := "Ready".

Definition ReasonFunctionNotActive : string := "function_not_active".
Definition ReasonTriggerDisabled : string := "trigger_disabled".
Definition ReasonRouteDisabled : string := "route_disabled".
Definition ReasonInvalidAssignment : string := "invalid_assignment".
Definition ReasonAssignmentNotAssigned : string := "assignment_not_assigned".
Definition ReasonAuthorizationNotInstalled : string := "authorization_not_installed".
Definition ReasonAuthorizationMismatch : string := "authorization_mismatch".
Definition ReasonAssignmentModeNotNormal : string := "assignment_mode_not_normal".
Definition ReasonInvalidWorkerObservation : string := "invalid_worker_observation".
Definition ReasonWorkerSessionMismatch : string := "worker_session_mismatch".
Definition ReasonWorkerNotSchedulable : string := "worker_not_schedulable".
Definition ReasonWorkerNotReady : string := "worker_not_ready".
Definition ReasonWorkerDraining : string := "worker_draining".
Definition ReasonReplicaNotReady : string := "replica_not_ready".
Definition ReasonRouteTargetMissing : string := "route_target_missing".
Definition ReasonAdmissionEpochMismatch : string := "admission_epoch_mismatch".
Definition ReasonDeploymentGenerationMismatch : string := "deployment_generation_mismatch".
Definition ReasonPolicyDigestMismatch : string := "policy_digest_mismatch".
Definition ReasonInvalidAddress : string := "invalid_address".

Record Function := {
  sf_ID : string;
  sf_Name : string;
  sf_ResourceRevision : Z;
  sf_Lifecycle : string;
}.

Record HTTPTrigger := {
  sg_ID : string;
  sg_FunctionID : string;
  sg_ResourceRevision : Z;
  sg_Enabled : bool;
  sg_AuthPolicy : string;
  sg_TokenVerifierDigest : option string;
}.

Record Route := {
  sr_Present : bool;
  sr_FunctionID : string;
  sr_ResourceRevision : Z;
  sr_RouteRevision : Z;
  sr_Enabled : bool;
  sr_Targets : list RouteTarget;
  sr_Affinity : string;
  sr_AffinityHeader : string;
  sr_HashVersion : string;
  sr_SaltID : string;
  sr_Salt : string;
}.

Record Endpoint := {
  en_Assignment : AssignmentIdentity;
  en_Address : string;
  en_State : string;
}.

Record EndpointCandidate := {
  ec_Assignment : AssignmentIdentity;
  ec_DesiredState : string;
  ec_Worker : WorkerSnapshot;
  ec_ReplicaReady : bool;
  ec_Authorization : option Authorization;
  ec_Address : string;
}.

Record CandidateDecision := {
  cd_AssignmentID : string;
  cd_Included : bool;
  cd_Reasons : list string;
}.

(** The Endpoints of a received snapshot may be nil. *)
Record Snapshot := {
  sn_SchemaVersion : string;
  sn_FunctionID : string;
  sn_DiscoveryEpoch : Z;
  sn_ServingSequence : Z;
  sn_GeneratedAt : Time;
  sn_Function : Function;
  sn_Trigger : HTTPTrigger;
  sn_Route : Route;
  sn_Endpoints : option (list Endpoint);
  sn_Checksum : string;
}.

Record Input := {
  ip_DiscoveryEpoch : Z;
  ip_ServingSequence : Z;
  ip_GeneratedAt : Time;
  ip_Function : Function;
  ip_Trigger : HTTPTrigger;
  ip_Route : Route;
  ip_Candidates : list EndpointCandidate;
}.

Record Result := {
  re_Snapshot : Snapshot;
  re_Candidates : list CandidateDecision;
}.

Record Builder := { b_maxEndpoints : Z }.

#[global] Instance Function_eq_dec : EqDecision Function.
Proof. solve_decision. Defined.
#[global] Instance HTTPTrigger_eq_dec : EqDecision HTTPTrigger.
Proof. solve_decision. Defined.
#[global] Instance Endpoint_eq_dec : EqDecision Endpoint.
Proof. solve_decision. Defined.

(** [New]; [config.MaxEndpoints] is the argument. *)
Definition New (maxEndpoints : Z) : result Builder :=
  let maxEndpoints := if maxEndpoints =? 0 then DefaultMaxEndpoints else maxEndpoints in
  fail_if ((maxEndpoints <? 1) || (maxEndpoints >? HardMaxEndpoints))
    (PlainError "discovery endpoint limit is outside v1 bounds") ;;;
  Ok {| b_maxEndpoints := maxEndpoints |}.

(** ** Addresses *)
Definition hostname_class (b : Z) : bool := is_alnum b || one_of ".-" b.
(** [^[A-Za-z0-9.-]{1,253}$] on the bytes of the host. *)
Definition hostnamePattern (l : list Z) : bool :=
  (1 <=? len l) && (len l <=? 253) && forallb hostname_class l.

Definition valid_label (label : list Z) : bool :=
  negb (len label =? 0) && (len label <=? 63)
  && negb (default 0 (head label) =? net.hyphen) && negb (default 0 (last label) =? net.hyphen).

Definition validEndpointAddress (address : string) : bool :=
  if (address == "") || (strlen address >? maxEndpointAddressBytes) || negb (utf8_ValidString address)
     || negb (net.trimmed (codes address)) then false
  else match net.SplitHostPort (codes address) with
  | None => false
  | Some (host, portText) =>
    if len host =? 0 then false
    else match net.ParseUint 16 portText with
    | None => false
    | Some port =>
      if port =? 0 then false
      else if net.ParseAddr host then true
      else if negb (hostnamePattern host) then false
      else forallb valid_label (net.split net.dot host)
    end
  end.

Definition Endpoint_Validate (e : Endpoint) : result unit :=
  replace_err (Invalid "endpoint.assignment" "contains an invalid Assignment fence")
    (AssignmentIdentity_validate (en_Assignment e)) ;;;
  fail_if ((ai_Mode (en_Assignment e) != ModeNormal) || (en_State e != EndpointReady))
    (Invalid "endpoint" "is not a normal ready Endpoint") ;;;
  fail_if (negb (validEndpointAddress (en_Address e)))
    (Invalid "endpoint.address" "is not a valid internal address").

(** ** Order *)
Definition compareString (left right : string) : Z :=
  if str_lt left right then -1 else if str_lt right left then 1 else 0.
Definition compareUint64 (left right : Z) : Z :=
  if left <? right then -1 else if left >? right then 1 else 0.

Definition compareRouteTargets (left right : RouteTarget) : Z :=
  let value := compareString (rt_VersionID left) (rt_VersionID right) in
  if negb (value =? 0) then value
  else compareUint64 (rt_DeploymentGeneration left) (rt_DeploymentGeneration right).

Definition compareEndpointIdentity (left right : AssignmentIdentity) : Z :=
  let value := compareString (ai_VersionID left) (ai_VersionID right) in
  if negb (value =? 0) then value else
  let value := compareUint64 (ai_DeploymentGeneration left) (ai_DeploymentGeneration right) in
  if negb (value =? 0) then value else
  let value := compareString (ai_AssignmentID left) (ai_AssignmentID right) in
  if negb (value =? 0) then value else
  let value := compareString (ws_WorkerID (ai_Worker left)) (ws_WorkerID (ai_Worker right)) in
  if negb (value =? 0) then value else
  let value := compareString (ws_BootID (ai_Worker left)) (ws_BootID (ai_Worker right)) in
  if negb (value =? 0) then value
  else compareUint64 (ws_SessionEpoch (ai_Worker left)) (ws_SessionEpoch (ai_Worker right)).

Definition compareEndpoints (left right : Endpoint) : Z :=
  compareEndpointIdentity (en_Assignment left) (en_Assignment right).
Definition compareCandidates (left right : EndpointCandidate) : Z :=
  compareEndpointIdentity (ec_Assignment left) (ec_Assignment right).

(** [slices.IsSortedFunc]. *)
Fixpoint IsSortedFunc {A} (cmp : A -> A -> Z) (l : list A) : bool :=
  match l with
  | x :: (y :: _) as l' => (negb (cmp y x <? 0)) && IsSortedFunc cmp l'
  | _ => true
  end.

(** ** Validation *)
Definition validateSnapshotHeader (s : Snapshot) : result unit :=
  fail_if (sn_SchemaVersion s != ServingSchemaVersion) (Invalid "schema_version" "is not supported") ;;;
  fail_if (negb (idPattern (sn_FunctionID s))) (Invalid "function_id" "must be a valid identifier") ;;;
  fail_if (sn_DiscoveryEpoch s =? 0) (Invalid "discovery_epoch" "must be greater than zero") ;;;
  fail_if (sn_ServingSequence s =? 0) (Invalid "serving_sequence" "must be greater than zero") ;;;
  fail_if (time_IsZero (sn_GeneratedAt s) || negb (isUTC (sn_GeneratedAt s)))
    (Invalid "generated_at" "must be a non-zero UTC time").

Definition validateFunction (f : Function) : result unit :=
  fail_if (negb (idPattern (sf_ID f)) || negb (functionNamePattern (sf_Name f)))
    (Invalid "function" "contains an invalid ID or name") ;;;
  fail_if (sf_ResourceRevision f =? 0) (Invalid "function.resource_revision" "must be greater than zero") ;;;
  fail_if (negb ((sf_Lifecycle f == FunctionActive) || (sf_Lifecycle f == FunctionDisabled)
                 || (sf_Lifecycle f == FunctionDeleting) || (sf_Lifecycle f == FunctionTombstoned)))
    (Invalid "function.lifecycle" "is not supported").

Definition validateHTTPTrigger (t : HTTPTrigger) (functionID : string) : result unit :=
  fail_if (negb (idPattern (sg_ID t)) || (sg_FunctionID t != functionID))
    (Invalid "http_trigger" "contains an invalid ID or Function reference") ;;;
  fail_if (sg_ResourceRevision t =? 0) (Invalid "http_trigger.resource_revision" "must be greater than zero") ;;;
  if sg_AuthPolicy t == AuthPublic then
    fail_if (bool_decide (is_Some (sg_TokenVerifierDigest t)))
      (Invalid "http_trigger.token_verifier_digest" "must be absent for public auth")
  else if sg_AuthPolicy t == AuthToken then
    match sg_TokenVerifierDigest t with
    | None => Err (Invalid "http_trigger.token_verifier_digest" "is required for token auth")
    | Some verifier =>
      replace_err (Invalid "http_trigger.token_verifier_digest" "must be a lowercase SHA-256 digest")
        (ParseSHA256 verifier) ;;; Ok tt
    end
  else Err (Invalid "http_trigger.auth_policy" "is not supported").

Definition validateTarget (target : RouteTarget) : result unit :=
  fail_if (negb (idPattern (rt_VersionID target)) || (rt_AdmissionEpoch target =? 0)
           || (rt_DeploymentGeneration target =? 0) || (rt_WeightBasisPoints target =? 0)
           || (rt_WeightBasisPoints target >? TotalRouteWeightBasisPoints))
    (Invalid "route.targets" "contains an invalid target") ;;;
  replace_err (Invalid "route.targets" "contains an invalid policy digest")
    (ParseSHA256 (rt_EffectivePolicyDigest target)) ;;; Ok tt.

Fixpoint validate_targets (total : Z) (seen : gset string) (l : list RouteTarget) : result Z :=
  match l with
  | [] => Ok total
  | target :: l' =>
    validateTarget target ;;;
    fail_if (bool_decide (target_key target ∈ seen)) (Invalid "route.targets" "contains a duplicate target") ;;;
    validate_targets (u32 (total + rt_WeightBasisPoints target)) ({[ target_key target ]} ∪ seen) l'
  end.

Definition validateAffinity (r : Route) : result unit :=
  if (sr_Affinity r == AffinityRequestID) || (sr_Affinity r == AffinityIdempotencyKey) then
    fail_if (sr_AffinityHeader r != "") (Invalid "route.affinity_header" "is only valid for header affinity")
  else if sr_Affinity r == AffinityHeader then
    fail_if (negb (utf8_ValidString (sr_AffinityHeader r)) || negb (httpTokenPattern (sr_AffinityHeader r)))
      (Invalid "route.affinity_header" "is required for header affinity")
  else Err (Invalid "route.affinity" "is not supported").

Definition validateRoute (r : Route) (functionID : string) : result unit :=
  fail_if (sr_FunctionID r != functionID) (Invalid "route.function_id" "must match the snapshot Function") ;;;
  if negb (sr_Present r) then
    fail_if (negb (sr_ResourceRevision r =? 0) || negb (sr_RouteRevision r =? 0) || sr_Enabled r
             || negb (len (sr_Targets r) =? 0) || (sr_Affinity r != "") || (sr_AffinityHeader r != "")
             || (sr_HashVersion r != "") || (sr_SaltID r != "") || negb (strlen (sr_Salt r) =? 0))
      (Invalid "route" "an absent Route must contain only its Function ID")
  else
    fail_if ((sr_ResourceRevision r =? 0) || (sr_RouteRevision r =? 0))
      (Invalid "route.revision" "resource and Route revisions must be greater than zero") ;;;
    fail_if (len (sr_Targets r) >? MaxRouteTargets)
      (Invalid "route.targets" "must not contain more than 32 entries") ;;;
    fail_if (Bool.eqb (sr_Enabled r) (len (sr_Targets r) =? 0))
      (Invalid "route.targets" "must be non-empty exactly when the Route is enabled") ;;;
    fail_if ((sr_HashVersion r != HashVersionSHA256BPSV1) || negb (idPattern (sr_SaltID r))
             || negb (strlen (sr_Salt r) =? 16))
      (Invalid "route.hash" "contains an unsupported hash profile or Salt") ;;;
    validateAffinity r ;;;
    total <- validate_targets 0 ∅ (sr_Targets r) ;;
    fail_if ((len (sr_Targets r) >? 0) && negb (total =? TotalRouteWeightBasisPoints))
      (Invalid "route.targets" "weights must total 10000 basis points").

(** The loop over the targets stops at the first exact generation. *)
Fixpoint find_target (targets : list RouteTarget) (a : AssignmentIdentity) : bool * option RouteTarget :=
  match targets with
  | [] => (false, None)
  | t :: targets' =>
    if rt_VersionID t != ai_VersionID a then find_target targets' a
    else if rt_DeploymentGeneration t =? ai_DeploymentGeneration a then (true, Some t)
    else (true, snd (find_target targets' a))
  end.

Definition routeMismatchReasons (targets : list RouteTarget) (a : AssignmentIdentity) : list string :=
  match find_target targets a with
  | (false, _) => [ReasonRouteTargetMissing]
  | (true, None) => [ReasonDeploymentGenerationMismatch]
  | (true, Some target) =>
    (if negb (rt_AdmissionEpoch target =? ai_AdmissionEpoch a) then [ReasonAdmissionEpochMismatch] else [])
    ++ (if rt_EffectivePolicyDigest target != ai_PolicyDigest a then [ReasonPolicyDigestMismatch] else [])
  end.

Definition reason_if (cond : bool) (reason : string) : list string := if cond then [reason] else [].

Definition exclusionReasons (s : Snapshot) (c : EndpointCandidate) : list string :=
  let a := ec_Assignment c in
  let w := ec_Worker c in
  reason_if (sf_Lifecycle (sn_Function s) != FunctionActive) ReasonFunctionNotActive
  ++ reason_if (negb (sg_Enabled (sn_Trigger s))) ReasonTriggerDisabled
  ++ reason_if (negb (sr_Present (sn_Route s)) || negb (sr_Enabled (sn_Route s))) ReasonRouteDisabled
  ++ reason_if (negb (is_ok (AssignmentIdentity_validate a))) ReasonInvalidAssignment
  ++ reason_if (ec_DesiredState c != AssignmentAssigned) ReasonAssignmentNotAssigned
  ++ match ec_Authorization c with
     | None => [ReasonAuthorizationNotInstalled]
     | Some authorization =>
       reason_if (negb (is_ok (Authorization_validate authorization HardMaxTTL))
                  || (if_Assignment (au_Fence authorization) != a)
                  || negb (if_DiscoveryEpoch (au_Fence authorization) =? sn_DiscoveryEpoch s))
         ReasonAuthorizationMismatch
     end
  ++ reason_if (ai_Mode a != ModeNormal) ReasonAssignmentModeNotNormal
  ++ reason_if (negb (is_ok (WorkerSnapshot_validate w))) ReasonInvalidWorkerObservation
  ++ reason_if (w_Session w != ai_Worker a) ReasonWorkerSessionMismatch
  ++ reason_if (w_Intent w != IntentSchedulable) ReasonWorkerNotSchedulable
  ++ reason_if (w_State w != SessionReady) ReasonWorkerNotReady
  ++ reason_if (w_Drain w != DrainNotDraining) ReasonWorkerDraining
  ++ reason_if (negb (ec_ReplicaReady c)) ReasonReplicaNotReady
  ++ routeMismatchReasons (sr_Targets (sn_Route s)) a
  ++ reason_if (negb (validEndpointAddress (ec_Address c))) ReasonInvalidAddress.

(** ** Checksum *)
Definition json_function (f : Function) : json :=
  JObject [("id", JString (sf_ID f)); ("name", JString (sf_Name f));
           ("resource_revision", JInt (sf_ResourceRevision f)); ("lifecycle", JString (sf_Lifecycle f))]%string.

Definition json_trigger (t : HTTPTrigger) : json :=
  JObject ([("id", JString (sg_ID t)); ("function_id", JString (sg_FunctionID t));
            ("resource_revision", JInt (sg_ResourceRevision t)); ("enabled", JBool (sg_Enabled t));
            ("auth_policy", JString (sg_AuthPolicy t))]%string
           ++ match sg_TokenVerifierDigest t with
              | Some verifier => [("token_verifier_digest"%string, JString verifier)]
              | None => []
              end).

Definition json_target (t : RouteTarget) : json :=
  JObject [("version_id", JString (rt_VersionID t)); ("admission_epoch", JInt (rt_AdmissionEpoch t));
           ("deployment_generation", JInt (rt_DeploymentGeneration t));
           ("effective_policy_digest", JString (rt_EffectivePolicyDigest t));
           ("weight_basis_points", JInt (rt_WeightBasisPoints t))]%string.

Definition json_route (r : Route) : json :=
  JObject ([("present", JBool (sr_Present r)); ("function_id", JString (sr_FunctionID r));
            ("resource_revision", JInt (sr_ResourceRevision r)); ("route_revision", JInt (sr_RouteRevision r));
            ("enabled", JBool (sr_Enabled r)); ("targets", JArray (map json_target (sr_Targets r)));
            ("affinity_source", JString (sr_Affinity r))]%string
           ++ (if sr_AffinityHeader r == "" then [] else [("affinity_header"%string, JString (sr_AffinityHeader r))])
           ++ [("hash_version", JString (sr_HashVersion r)); ("salt_id", JString (sr_SaltID r));
               ("salt", JString (net.base64_string (sr_Salt r)))]%string).

Definition canonicalEndpointV1 (e : Endpoint) : json :=
  let identity := en_Assignment e in
  JObject [("assignment_id", JString (ai_AssignmentID identity)); ("version_id", JString (ai_VersionID identity));
           ("admission_epoch", JInt (ai_AdmissionEpoch identity));
           ("deployment_generation", JInt (ai_DeploymentGeneration identity));
           ("effective_policy_digest", JString (ai_PolicyDigest identity)); ("mode", JString (ai_Mode identity));
           ("worker_id", JString (ws_WorkerID (ai_Worker identity)));
           ("boot_id", JString (ws_BootID (ai_Worker identity)));
           ("session_epoch", JInt (ws_SessionEpoch (ai_Worker identity)));
           ("address", JString (en_Address e)); ("state", JString (en_State e))]%string.

Definition endpoints (s : Snapshot) : list Endpoint := default [] (sn_Endpoints s).

Definition canonicalSnapshotV1 (s : Snapshot) : json :=
  JObject [("schema_version", JString (sn_SchemaVersion s)); ("function_id", JString (sn_FunctionID s));
           ("discovery_epoch", JInt (sn_DiscoveryEpoch s)); ("serving_sequence", JInt (sn_ServingSequence s));
           ("generated_at", JString (net.FormatRFC3339Nano (sn_GeneratedAt s)));
           ("function", json_function (sn_Function s)); ("http_trigger", json_trigger (sn_Trigger s));
           ("route", json_route (sn_Route s));
           ("endpoints", JArray (map canonicalEndpointV1 (endpoints s)))]%string.

Section build.
Context `{JCS}.

Definition calculateChecksum (s : Snapshot) : result string :=
  CanonicalJSON ServingChecksumDomain ServingChecksumVersion (json.Marshal (canonicalSnapshotV1 s)).

Definition serving_enabled (s : Snapshot) : bool :=
  (sf_Lifecycle (sn_Function s) == FunctionActive) && sg_Enabled (sn_Trigger s)
  && sr_Present (sn_Route s) && sr_Enabled (sn_Route s).

(** The loop of [Snapshot.Validate] over the Endpoints. *)
Fixpoint validate_endpoints (targets : list RouteTarget) (seen : gset string) (l : list Endpoint) : result unit :=
  match l with
  | [] => Ok tt
  | e :: l' =>
    Endpoint_Validate e ;;;
    fail_if (bool_decide (ai_AssignmentID (en_Assignment e) ∈ seen))
      (Invalid "endpoints.assignment_id" "contains a duplicate Assignment ID") ;;;
    fail_if (negb (len (routeMismatchReasons targets (en_Assignment e)) =? 0))
      (Invalid "endpoints" "contains an Endpoint outside the Route target fence") ;;;
    validate_endpoints targets ({[ ai_AssignmentID (en_Assignment e) ]} ∪ seen) l'
  end.

Definition Snapshot_Validate (s : Snapshot) : result unit :=
  validateSnapshotHeader s ;;;
  validateFunction (sn_Function s) ;;;
  fail_if (sn_FunctionID s != sf_ID (sn_Function s)) (Invalid "function_id" "must match the Function projection") ;;;
  validateHTTPTrigger (sn_Trigger s) (sn_FunctionID s) ;;;
  validateRoute (sn_Route s) (sn_FunctionID s) ;;;
  fail_if (len (endpoints s) >? HardMaxEndpoints) (Invalid "endpoints" "exceeds the v1 endpoint limit") ;;;
  fail_if (bool_decide (sn_Endpoints s = None)) (Invalid "endpoints" "must be an explicit array") ;;;
  fail_if (negb (IsSortedFunc compareRouteTargets (sr_Targets (sn_Route s))))
    (Invalid "route.targets" "must use canonical target order") ;;;
  fail_if (negb (IsSortedFunc compareEndpoints (endpoints s)))
    (Invalid "endpoints" "must use canonical endpoint order") ;;;
  fail_if (negb (len (endpoints s) =? 0) && negb (serving_enabled s))
    (Invalid "endpoints" "must be empty when serving is disabled") ;;;
  validate_endpoints (sr_Targets (sn_Route s)) ∅ (endpoints s) ;;;
  replace_err (Invalid "checksum" "must be a lowercase SHA-256 digest") (ParseSHA256 (sn_Checksum s)) ;;;
  want <- calculateChecksum s ;;
  fail_if (sn_Checksum s != want) (Invalid "checksum" "does not match the complete serving snapshot").

(** ** Build *)
Definition with_targets (r : Route) (targets : list RouteTarget) : Route :=
  {| sr_Present := sr_Present r; sr_FunctionID := sr_FunctionID r; sr_ResourceRevision := sr_ResourceRevision r;
     sr_RouteRevision := sr_RouteRevision r; sr_Enabled := sr_Enabled r; sr_Targets := targets;
     sr_Affinity := sr_Affinity r; sr_AffinityHeader := sr_AffinityHeader r; sr_HashVersion := sr_HashVersion r;
     sr_SaltID := sr_SaltID r; sr_Salt := sr_Salt r |}.

Definition with_endpoints (s : Snapshot) (route : Route) (l : list Endpoint) (checksum : string) : Snapshot :=
  {| sn_SchemaVersion := sn_SchemaVersion s; sn_FunctionID := sn_FunctionID s;
     sn_DiscoveryEpoch := sn_DiscoveryEpoch s; sn_ServingSequence := sn_ServingSequence s;
     sn_GeneratedAt := sn_GeneratedAt s; sn_Function := sn_Function s; sn_Trigger := sn_Trigger s;
     sn_Route := route; sn_Endpoints := Some l; sn_Checksum := checksum |}.

(** The literal at the start of [Build]. *)
Definition initial_snapshot (input : Input) : Snapshot :=
  {| sn_SchemaVersion := ServingSchemaVersion; sn_FunctionID := sf_ID (ip_Function input);
     sn_DiscoveryEpoch := ip_DiscoveryEpoch input; sn_ServingSequence := ip_ServingSequence input;
     sn_GeneratedAt := time_Round0 (ip_GeneratedAt input); sn_Function := ip_Function input;
     sn_Trigger := ip_Trigger input; sn_Route := ip_Route input; sn_Endpoints := Some []; sn_Checksum := "" |}.

Definition endpoint_of (c : EndpointCandidate) : Endpoint :=
  {| en_Assignment := ec_Assignment c; en_Address := ec_Address c; en_State := EndpointReady |}.

Definition decision_for (s : Snapshot) (c : EndpointCandidate) : CandidateDecision :=
  let reasons := exclusionReasons s c in
  {| cd_AssignmentID := ai_AssignmentID (ec_Assignment c); cd_Included := len reasons =? 0; cd_Reasons := reasons |}.

(** The loop over the sorted candidates: decisions and Endpoints so far. *)
Fixpoint build_candidates (b : Builder) (s : Snapshot) (seen : gset string)
    (decisions : list CandidateDecision) (included : list Endpoint) (l : list EndpointCandidate)
    : result (list CandidateDecision * list Endpoint) :=
  match l with
  | [] => Ok (decisions, included)
  | c :: l' =>
    let assignmentID := ai_AssignmentID (ec_Assignment c) in
    fail_if (negb (idPattern assignmentID))
      (Invalid "candidates.assignment_id" "must be a valid identifier") ;;;
    fail_if (bool_decide (assignmentID ∈ seen))
      (Invalid "candidates.assignment_id" "contains a duplicate Assignment ID") ;;;
    let decision := decision_for s c in
    if cd_Included decision then
      fail_if (len included >=? b_maxEndpoints b)
        (classified CodeOverloaded "serving endpoint limit exceeded") ;;;
      build_candidates b s ({[ assignmentID ]} ∪ seen) (decisions ++ [decision]) (included ++ [endpoint_of c]) l'
    else build_candidates b s ({[ assignmentID ]} ∪ seen) (decisions ++ [decision]) included l'
  end.

Definition Build (b : Builder) (input : Input) : result Result :=
  fail_if (len (ip_Candidates input) >? HardMaxEndpoints)
    (classified CodeOverloaded "endpoint candidate limit exceeded") ;;;
  let s0 := initial_snapshot input in
  validateSnapshotHeader s0 ;;;
  validateFunction (sn_Function s0) ;;;
  validateHTTPTrigger (sn_Trigger s0) (sn_FunctionID s0) ;;;
  validateRoute (sn_Route s0) (sn_FunctionID s0) ;;;
  let route := with_targets (sn_Route s0) (SortFunc compareRouteTargets (sr_Targets (sn_Route s0))) in
  let s := with_endpoints s0 route [] "" in
  built <- build_candidates b s ∅ [] [] (SortFunc compareCandidates (ip_Candidates input)) ;;
  let s := with_endpoints s route (SortFunc compareEndpoints (snd built)) "" in
  checksum <- calculateChecksum s ;;
  let s := with_endpoints s route (endpoints s) checksum in
  wrap_err "validating built serving snapshot" (Snapshot_Validate s) ;;;
  Ok {| re_Snapshot := s; re_Candidates := fst built |}.

(** ** publisher.go *)
Record Publisher := { pu_builder : Builder; pu_epoch : Z; pu_sequence : Z }.

Definition NewPublisher (epoch : Z) (builder : Builder) : result Publisher :=
  fail_if (epoch =? 0) (PlainError "discovery publisher epoch must be greater than zero") ;;;
  Ok {| pu_builder := builder; pu_epoch := epoch; pu_sequence := 0 |}.

Definition at_position (input : Input) (epoch sequence : Z) : Input :=
  {| ip_DiscoveryEpoch := epoch; ip_ServingSequence := sequence; ip_GeneratedAt := ip_GeneratedAt input;
     ip_Function := ip_Function input; ip_Trigger := ip_Trigger input; ip_Route := ip_Route input;
     ip_Candidates := ip_Candidates input |}.

Definition exhausted : error :=
  PlainError "discovery serving sequence is exhausted; a new epoch is required".

Definition set_sequence (p : Publisher) (sequence : Z) : Publisher :=
  {| pu_builder := pu_builder p; pu_epoch := pu_epoch p; pu_sequence := sequence |}.

Definition Publisher_Build (input : Input) : M Publisher Result :=
  let! p := sget in
  do! slift (fail_if (pu_sequence p =? maxUint64) exhausted) in
  let next := u64 (pu_sequence p + 1) in
  let! built := slift (Build (pu_builder p) (at_position input (pu_epoch p) next)) in
  do! sput (set_sequence p next) in
  sret built.

(** The loop of [BuildFull]. *)
Fixpoint build_all (p : Publisher) (next : Z) (seen : gset string) (inputs : list Input) : result (list Result) :=
  match inputs with
  | [] => Ok []
  | input :: inputs' =>
    fail_if (bool_decide (sf_ID (ip_Function input) ∈ seen))
      (PlainError "discovery full sync contains a duplicate function id") ;;;
    built <- Build (pu_builder p) (at_position input (pu_epoch p) next) ;;
    rest <- build_all p next ({[ sf_ID (ip_Function input) ]} ∪ seen) inputs' ;;
    Ok (built :: rest)
  end.

Definition BuildFull (inputs : list Input) : M Publisher (list Result * Z) :=
  let! p := sget in
  do! slift (fail_if (pu_sequence p =? maxUint64) exhausted) in
  let next := u64 (pu_sequence p + 1) in
  let! results := slift (build_all p next ∅ inputs) in
  do! sput (set_sequence p next) in
  sret (results, next).

Definition Position (p : Publisher) : Z * Z := (pu_epoch p, pu_sequence p).

End build.

(** ** Canonical orders *)
Lemma compareString_spec a b : compareString a b = to_int (String.compare a b).
Proof. unfold compareString. rewrite str_three_way. by destruct (String.compare a b). Qed.
Lemma compareUint64_spec a b : compareUint64 a b = to_int (Z.compare a b).
Proof. unfold compareUint64. rewrite Z_three_way. by destruct (Z.compare a b). Qed.

(** [if value := compare...; value != 0 { return value }]. *)
Lemma three_way_lex c1 c2 k : to_int c2 = k ->
  (if negb (to_int c1 =? 0) then to_int c1 else k) = to_int (lex c1 c2).
Proof. intros <-. by destruct c1. Qed.

Definition identity_order : AssignmentIdentity -> AssignmentIdentity -> comparison :=
  lex_by (comparing ai_VersionID String.compare)
  (lex_by (comparing ai_DeploymentGeneration Z.compare)
  (lex_by (comparing ai_AssignmentID String.compare)
  (lex_by (comparing (fun a => ws_WorkerID (ai_Worker a)) String.compare)
  (lex_by (comparing (fun a => ws_BootID (ai_Worker a)) String.compare)
          (comparing (fun a => ws_SessionEpoch (ai_Worker a)) Z.compare))))).

#[global] Instance identity_order_total : TotalCompare identity_order.
Proof. unfold identity_order. apply _. Qed.

Lemma compareEndpointIdentity_spec a b : compareEndpointIdentity a b = int_of identity_order a b.
Proof.
  unfold compareEndpointIdentity, int_of, identity_order, lex_by, comparing.
  rewrite !compareString_spec, !compareUint64_spec. repeat apply three_way_lex || symmetry. done.
Qed.

Definition endpoint_order : Endpoint -> Endpoint -> comparison := comparing en_Assignment identity_order.
Definition candidate_order : EndpointCandidate -> EndpointCandidate -> comparison :=
  comparing ec_Assignment identity_order.
Definition target_order : RouteTarget -> RouteTarget -> comparison :=
  lex_by (comparing rt_VersionID String.compare) (comparing rt_DeploymentGeneration Z.compare).
#[global] Instance endpoint_order_total : TotalCompare endpoint_order.
Proof. unfold endpoint_order. apply _. Qed.
#[global] Instance candidate_order_total : TotalCompare candidate_order.
Proof. unfold candidate_order. apply _. Qed.
#[global] Instance target_order_total : TotalCompare target_order.
Proof. unfold target_order. apply _. Qed.

Lemma compareRouteTargets_spec a b : compareRouteTargets a b = int_of target_order a b.
Proof.
  unfold compareRouteTargets, int_of, target_order, lex_by, comparing.
  rewrite compareString_spec, compareUint64_spec. by apply three_way_lex.
Qed.

Lemma identity_order_id a b : identity_order a b = Eq -> ai_AssignmentID a = ai_AssignmentID b.
Proof.
  unfold identity_order, lex_by, comparing, lex. intros H. repeat case_match; try done.
  by apply String.compare_eq_iff.
Qed.

(** A list sorted by [SortFunc] passes [slices.IsSortedFunc]. *)
Lemma sorted_IsSortedFunc {A} (c : A -> A -> comparison) `{!TotalCompare c} l :
  sorted_by c l -> IsSortedFunc (int_of c) l = true.
Proof.
  unfold sorted_by, int_of. induction l as [|x l IH]; [done|]. intros [Hx Hl]%StronglySorted_cons.
  specialize (IH Hl). destruct l as [|y l]; [done|]. apply Forall_cons in Hx as [Hxy _].
  simpl in *. rewrite (tc_antisym (c:=c) x y), IH. by destruct (c x y).
Qed.

Lemma IsSortedFunc_ext {A} (cmp1 cmp2 : A -> A -> Z) l :
  (forall x y, cmp1 x y = cmp2 x y) -> IsSortedFunc cmp1 l = IsSortedFunc cmp2 l.
Proof.
  intros H. induction l as [|x l IH]; [done|]. destruct l as [|y l]; [done|].
  simpl in *. by rewrite H, IH.
Qed.

Lemma IsSortedFunc_SortFunc {A} (cmp : A -> A -> Z) (c : A -> A -> comparison) `{!TotalCompare c} l :
  (forall x y, cmp x y = int_of c x y) -> IsSortedFunc cmp (SortFunc cmp l) = true.
Proof.
  intros H. rewrite (IsSortedFunc_ext _ _ _ H), (SortFunc_ext cmp (int_of c) l (fun x y _ _ => H x y)).
  apply sorted_IsSortedFunc; [apply _|]. by apply SortFunc_sorted.
Qed.

(** Sorting by an order that separates the elements by a key. *)
Lemma SortFunc_keyed {A K} (cmp : A -> A -> Z) (c : A -> A -> comparison) `{!TotalCompare c} (key : A -> K) l l' :
  (forall x y, cmp x y = int_of c x y) -> (forall x y, c x y = Eq -> key x = key y) ->
  NoDup (key <$> l) -> l ≡ₚ l' -> SortFunc cmp l = SortFunc cmp l'.
Proof.
  intros Hcmp Hkey Hnd Hp. rewrite !(SortFunc_ext cmp (int_of c) _ (fun x y _ _ => Hcmp x y)).
  apply SortFunc_order_independent; [done| |done].
  intros x y Hx Hy Heq%Hkey. apply list_elem_of_lookup in Hx as [i Hi], Hy as [j Hj].
  assert (i = j) as ->; [|congruence].
  apply (NoDup_lookup _ _ _ (key x) Hnd); rewrite list_lookup_fmap; [by rewrite Hi|rewrite Hj; simpl; congruence].
Qed.

(** ** Targets *)
Definition duplicate_target : error := Invalid "route.targets" "contains a duplicate target".

Lemma validate_targets_spec total seen l t :
  validate_targets total seen l = Ok t <->
  for_each_unique validateTarget target_key duplicate_target seen l = Ok tt /\
  t = foldl (fun total target => u32 (total + rt_WeightBasisPoints target)) total l.
Proof.
  unfold duplicate_target. revert total seen. induction l as [|x l IH]; intros total seen; simpl.
  { split; [intros [= <-]; done|by intros [_ ->]]. }
  destruct (validateTarget x) as [[]|]; simpl; [|naive_solver].
  destruct (fail_if _ _) as [[]|]; simpl; [|naive_solver]. apply IH.
Qed.

Lemma weights_Permutation l l' total : l ≡ₚ l' ->
  foldl (fun total target => u32 (total + rt_WeightBasisPoints target)) total l
  = foldl (fun total target => u32 (total + rt_WeightBasisPoints target)) total l'.
Proof.
  intros Hp. revert total. induction Hp as [|x l l' Hp IH|x y l|l1 l2 l3 H1 IH1 H2 IH2]; intros total; simpl.
  - done.
  - apply IH.
  - f_equal. unfold u32. rewrite !Zplus_mod_idemp_l. f_equal. lia.
  - by rewrite IH1.
Qed.

Lemma validate_targets_Permutation l l' total : l ≡ₚ l' ->
  validate_targets 0 ∅ l = Ok total -> validate_targets 0 ∅ l' = Ok total.
Proof.
  intros Hp [Hu ->]%validate_targets_spec. apply validate_targets_spec. split; [|by apply weights_Permutation].
  apply is_ok_unit. rewrite <-(for_each_unique_Permutation _ _ _ _ _ Hp). by apply is_ok_unit.
Qed.

Lemma validateRoute_Permutation r functionID targets :
  targets ≡ₚ sr_Targets r -> validateRoute r functionID = Ok tt ->
  validateRoute (with_targets r targets) functionID = Ok tt.
Proof.
  intros Hp. unfold validateRoute. simpl. assert (len targets = len (sr_Targets r)) as ->.
  { unfold len. by rewrite Hp. }
  destruct (fail_if (sr_FunctionID r != _) _) as [[]|]; [|done]. destruct (negb (sr_Present r)); [done|]. simpl.
  change (validateAffinity (with_targets r targets)) with (validateAffinity r).
  repeat (destruct (fail_if _ _) as [[]|]; [|done]; simpl).
  destruct (validateAffinity r) as [[]|]; [|done]. simpl. intros Hr.
  apply rbind_Ok in Hr as (total & Ht & Hr).
  rewrite (validate_targets_Permutation _ _ _ (symmetry Hp) Ht). exact Hr.
Qed.

Lemma validateRoute_sorted r functionID :
  validateRoute r functionID = Ok tt ->
  validateRoute (with_targets r (SortFunc compareRouteTargets (sr_Targets r))) functionID = Ok tt.
Proof. apply validateRoute_Permutation, SortFunc_Permutation. Qed.

(** ** Which candidates are published *)
Definition matches_target (t : RouteTarget) (a : AssignmentIdentity) : Prop :=
  rt_VersionID t = ai_VersionID a /\ rt_DeploymentGeneration t = ai_DeploymentGeneration a /\
  rt_AdmissionEpoch t = ai_AdmissionEpoch a /\ rt_EffectivePolicyDigest t = ai_PolicyDigest a.

Record publishable (s : Snapshot) (c : EndpointCandidate) : Prop := {
  pb_serving : serving_enabled s = true;
  pb_assignment : AssignmentIdentity_validate (ec_Assignment c) = Ok tt;
  pb_mode : ai_Mode (ec_Assignment c) = ModeNormal;
  pb_desired : ec_DesiredState c = AssignmentAssigned;
  pb_authorized : exists authorization, ec_Authorization c = Some authorization /\
    Authorization_validate authorization HardMaxTTL = Ok tt /\
    au_Fence authorization = {| if_Assignment := ec_Assignment c; if_DiscoveryEpoch := sn_DiscoveryEpoch s |};
  pb_worker : WorkerSnapshot_validate (ec_Worker c) = Ok tt;
  pb_session : w_Session (ec_Worker c) = ai_Worker (ec_Assignment c);
  pb_schedulable : w_Intent (ec_Worker c) = IntentSchedulable;
  pb_ready : w_State (ec_Worker c) = SessionReady;
  pb_drain : w_Drain (ec_Worker c) = DrainNotDraining;
  pb_replica : ec_ReplicaReady c = true;
  pb_target : exists t, t ∈ sr_Targets (sn_Route s) /\ matches_target t (ec_Assignment c);
  pb_address : validEndpointAddress (ec_Address c) = true;
}.

Lemma find_target_Some targets a t :
  snd (find_target targets a) = Some t ->
  t ∈ targets /\ rt_VersionID t = ai_VersionID a /\ rt_DeploymentGeneration t = ai_DeploymentGeneration a.
Proof.
  induction targets as [|x targets IH]; simpl; [done|]. case_match eqn:E1; go_cases.
  - intros ?%IH. set_solver.
  - case_match eqn:E2; simpl; go_cases; [intros [= <-]; set_solver|intros ?%IH; set_solver].
Qed.

Lemma find_target_complete targets a t :
  NoDup (target_id <$> targets) -> t ∈ targets -> rt_VersionID t = ai_VersionID a ->
  rt_DeploymentGeneration t = ai_DeploymentGeneration a -> find_target targets a = (true, Some t).
Proof.
  intros Hnd Hin Hv Hg. induction targets as [|x targets IH]; [by apply elem_of_nil in Hin|].
  simpl in *. apply NoDup_cons in Hnd as [Hx Hnd].
  apply elem_of_cons in Hin as [<-|Hin].
  { by rewrite Hv, bool_decide_true, Hg, Z.eqb_refl by done. }
  rewrite (IH Hnd Hin). case_bool_decide as E1; simpl; [|done].
  destruct (rt_DeploymentGeneration x =? ai_DeploymentGeneration a) eqn:E2; [|done]. go_cases. destruct Hx.
  apply list_elem_of_fmap. exists t. split; [|done]. unfold target_id. congruence.
Qed.

Lemma routeMismatchReasons_nil targets a :
  routeMismatchReasons targets a = [] -> exists t, t ∈ targets /\ matches_target t a.
Proof.
  unfold routeMismatchReasons. destruct (find_target targets a) as [[] [t|]] eqn:E; try done.
  destruct (find_target_Some targets a t) as (Hin & Hv & Hg); [by rewrite E|].
  case_match eqn:E1; [done|]. case_match eqn:E2; [done|]. go_cases. intros _. exists t. by split_and!.
Qed.

Lemma routeMismatchReasons_matches targets a t :
  NoDup (target_id <$> targets) -> t ∈ targets -> matches_target t a -> routeMismatchReasons targets a = [].
Proof.
  intros Hnd Hin (Hv & Hg & He & Hd). unfold routeMismatchReasons.
  rewrite (find_target_complete _ _ _ Hnd Hin Hv Hg), He, Z.eqb_refl, Hd. by rewrite bool_decide_true.
Qed.

Lemma reason_if_nil cond reason : reason_if cond reason = [] <-> cond = false.
Proof. by destruct cond. Qed.

Lemma not_ok_false {A} (r : result A) : negb (is_ok r) = false <-> exists a, r = Ok a.
Proof. by rewrite negb_false_iff, is_ok_true. Qed.

Lemma exclusionReasons_publishable s c : exclusionReasons s c = [] -> publishable s c.
Proof.
  unfold exclusionReasons. rewrite !app_nil, !reason_if_nil, !not_ok_false.
  intros (Hl & Ht & Hr & [[] Ha] & Hd & Hau & Hm & [[] Hw] & Hs & Hi & Hst & Hdr & Hrep & Htg & Had).
  go_cases. split; try done.
  - unfold serving_enabled. rewrite Hl, Ht, H, H0. done.
  - destruct (ec_Authorization c) as [authorization|]; [|done]. exists authorization.
    apply reason_if_nil in Hau. go_cases. apply is_ok_true in H1 as [[] H1]. split_and!; [done|done|].
    destruct (au_Fence authorization); simpl in *; congruence.
  - by apply routeMismatchReasons_nil.
Qed.

Lemma publishable_exclusionReasons s c :
  NoDup (target_id <$> sr_Targets (sn_Route s)) -> publishable s c -> exclusionReasons s c = [].
Proof.
  intros Hnd [Hs Ha Hm Hd (authorization & Hau & Hval & Hf) Hw Hse Hi Hst Hdr Hrep (t & Hin & Hmt) Had].
  unfold serving_enabled in Hs. go_cases. unfold exclusionReasons.
  rewrite Hau, Hval, Hf, Ha, Hm, Hd, Hw, Hse, Hi, Hst, Hdr, Hrep, Had, H, H0, H1, H2.
  rewrite (routeMismatchReasons_matches _ _ _ Hnd Hin Hmt). simpl.
  by rewrite Z.eqb_refl, !bool_decide_true by done.
Qed.

(** ** The loops *)
Definition candidate_id (c : EndpointCandidate) : string := ai_AssignmentID (ec_Assignment c).
Definition endpoint_id (e : Endpoint) : string := ai_AssignmentID (en_Assignment e).
Definition included (s : Snapshot) (c : EndpointCandidate) : bool := cd_Included (decision_for s c).

Lemma included_spec s c : included s c = true <-> exclusionReasons s c = [].
Proof.
  unfold included, decision_for, len. simpl. rewrite Z.eqb_eq.
  destruct (exclusionReasons s c); simpl; split; (done || lia).
Qed.

Lemma included_publishable s c :
  NoDup (target_id <$> sr_Targets (sn_Route s)) -> included s c = true <-> publishable s c.
Proof.
  intros Hnd. rewrite included_spec. split; [apply exclusionReasons_publishable|by apply publishable_exclusionReasons].
Qed.

Lemma build_candidates_Ok b s seen ds inc l out :
  build_candidates b s seen ds inc l = Ok out ->
  Forall (fun c => idPattern (candidate_id c) = true) l /\ NoDup (candidate_id <$> l) /\
  (forall c, c ∈ l -> candidate_id c ∉ seen) /\
  out = (ds ++ map (decision_for s) l, inc ++ map endpoint_of (List.filter (included s) l)) /\
  len (snd out) <= Z.max (len inc) (b_maxEndpoints b).
Proof.
  revert seen ds inc. induction l as [|c l IH]; intros seen ds inc; cbn [build_candidates].
  { intros H. ok_inv. subst out. split_and!; [done|constructor|set_solver|by rewrite !app_nil_r|simpl; lia]. }
  fold (candidate_id c). fold (included s c). intros H. ok_inv.
  assert (exists seen' inc', build_candidates b s seen' (ds ++ [decision_for s c]) inc' l = Ok out /\
    seen' = {[ candidate_id c ]} ∪ seen /\
    inc' = inc ++ (if included s c then [endpoint_of c] else []) /\ len inc' <= Z.max (len inc) (b_maxEndpoints b))
    as (seen' & inc' & Hrun & -> & -> & Hlen).
  { destruct (included s c); ok_inv; eexists _, _; (split; [exact H|]); split_and!; try done.
    - unfold len in *. rewrite length_app. simpl. lia.
    - by rewrite app_nil_r.
    - lia. }
  destruct (IH _ _ _ Hrun) as (Hid & Hnd & Hseen & -> & Hmax). simpl. split_and!.
  - by apply Forall_cons.
  - apply NoDup_cons. split; [|done]. intros (c' & Heq & Hc')%list_elem_of_fmap.
    apply (Hseen _ Hc'). set_solver.
  - intros c' [->|Hc']%elem_of_cons; [done|]. specialize (Hseen _ Hc'). set_solver.
  - rewrite <-!app_assoc. by destruct (included s c).
  - simpl in Hmax. lia.
Qed.

Lemma build_candidates_total b s seen ds inc l :
  Forall (fun c => idPattern (candidate_id c) = true) l -> NoDup (candidate_id <$> l) ->
  (forall c, c ∈ l -> candidate_id c ∉ seen) -> len inc + len l <= b_maxEndpoints b ->
  exists out, build_candidates b s seen ds inc l = Ok out.
Proof.
  revert seen ds inc. induction l as [|c l IH]; intros seen ds inc Hid Hnd Hseen Hlen; cbn [build_candidates]; [eauto|].
  fold (candidate_id c). fold (included s c). apply Forall_cons in Hid as [Hc Hid]. simpl in Hnd.
  apply NoDup_cons in Hnd as [Hn Hnd]. rewrite Hc, bool_decide_false by (apply Hseen; by left). simpl.
  assert (forall c', c' ∈ l -> candidate_id c' ∉ {[ candidate_id c ]} ∪ seen) as Hseen'.
  { intros c' Hc'. apply not_elem_of_union. split; [|apply Hseen; by right]. rewrite not_elem_of_singleton.
    intros E. apply Hn, list_elem_of_fmap. by exists c'. }
  unfold len in Hlen. simpl in Hlen. destruct (included s c).
  - unfold len. rewrite Z.geb_leb, Z.leb_antisym. rewrite (proj2 (Z.ltb_lt _ _)) by lia. simpl.
    apply IH; try done. unfold len. rewrite length_app. simpl. lia.
  - apply IH; try done. unfold len. lia.
Qed.

Lemma validate_endpoints_Ok targets seen l :
  validate_endpoints targets seen l = Ok tt ->
  Forall (fun e => Endpoint_Validate e = Ok tt /\ routeMismatchReasons targets (en_Assignment e) = []) l /\
  NoDup (endpoint_id <$> l) /\ (forall e, e ∈ l -> endpoint_id e ∉ seen).
Proof.
  revert seen. induction l as [|e l IH]; intros seen; cbn [validate_endpoints].
  { intros _. split_and!; [constructor|constructor|set_solver]. }
  intros Hv. apply rbind_Ok in Hv as ([] & Hval & Hv). apply rbind_Ok in Hv as ([] & Hseen%fail_if_Ok & Hv).
  apply rbind_Ok in Hv as ([] & Hr%fail_if_Ok & Hv). apply IH in Hv as (Hf & Hnd & Hs). go_cases.
  unfold len in Hr. destruct (routeMismatchReasons targets (en_Assignment e)) eqn:Hreasons; [|simpl in Hr; lia].
  rewrite fmap_cons. fold (endpoint_id e) in *. split_and!.
  - by apply Forall_cons.
  - apply NoDup_cons. split; [|done]. intros (e' & He & Hin)%list_elem_of_fmap. specialize (Hs _ Hin). set_solver.
  - intros e' [->|Hin]%elem_of_cons; [done|]. specialize (Hs _ Hin). set_solver.
Qed.

Lemma validate_endpoints_total targets seen l :
  Forall (fun e => Endpoint_Validate e = Ok tt /\ routeMismatchReasons targets (en_Assignment e) = []) l ->
  NoDup (endpoint_id <$> l) -> (forall e, e ∈ l -> endpoint_id e ∉ seen) ->
  validate_endpoints targets seen l = Ok tt.
Proof.
  revert seen. induction l as [|e l IH]; intros seen Hf Hnd Hseen; cbn [validate_endpoints]; [done|].
  apply Forall_cons in Hf as [[-> ->] Hf]. simpl in Hnd. apply NoDup_cons in Hnd as [Hn Hnd].
  fold (endpoint_id e). rewrite bool_decide_false by (apply Hseen; by left). simpl.
  apply IH; try done. intros e' He'. apply not_elem_of_union. split; [|apply Hseen; by right].
  rewrite not_elem_of_singleton. intros E. apply Hn, list_elem_of_fmap. by exists e'.
Qed.

(** ** Build *)
Section theory.
Context `{HJ : JCS}.

Definition sorted_route (input : Input) : Route :=
  with_targets (ip_Route input) (SortFunc compareRouteTargets (sr_Targets (ip_Route input))).
Definition base_snapshot (input : Input) : Snapshot :=
  with_endpoints (initial_snapshot input) (sorted_route input) [] "".
Definition published_endpoints (input : Input) : list Endpoint :=
  SortFunc compareEndpoints
    (map endpoint_of (List.filter (included (base_snapshot input)) (SortFunc compareCandidates (ip_Candidates input)))).
Definition final_snapshot (input : Input) (checksum : string) : Snapshot :=
  with_endpoints (initial_snapshot input) (sorted_route input) (published_endpoints input) checksum.

(** The checks on the input, before any candidate is looked at. *)
Record input_ok (input : Input) : Prop := {
  io_header : validateSnapshotHeader (initial_snapshot input) = Ok tt;
  io_function : validateFunction (ip_Function input) = Ok tt;
  io_trigger : validateHTTPTrigger (ip_Trigger input) (sf_ID (ip_Function input)) = Ok tt;
  io_route : validateRoute (ip_Route input) (sf_ID (ip_Function input)) = Ok tt;
}.

Lemma Build_Ok b input r :
  Build b input = Ok r ->
  input_ok input /\ NoDup (candidate_id <$> ip_Candidates input) /\
  Forall (fun c => idPattern (candidate_id c) = true) (ip_Candidates input) /\
  exists checksum,
    calculateChecksum (final_snapshot input "") = Ok checksum /\
    Snapshot_Validate (final_snapshot input checksum) = Ok tt /\
    len (published_endpoints input) <= Z.max 0 (b_maxEndpoints b) /\
    r = {| re_Snapshot := final_snapshot input checksum;
           re_Candidates := map (decision_for (base_snapshot input)) (SortFunc compareCandidates (ip_Candidates input)) |}.
Proof.
  unfold Build. intros H. apply rbind_Ok in H as ([] & _ & H). apply rbind_Ok in H as ([] & H1 & H).
  apply rbind_Ok in H as ([] & H2 & H). apply rbind_Ok in H as ([] & H3 & H). apply rbind_Ok in H as ([] & H4 & H).
  apply rbind_Ok in H as (built & Hb & H). apply rbind_Ok in H as (checksum & Hck & H).
  apply rbind_Ok in H as ([] & Hv & H). apply wrap_err_Ok in Hv. apply Ok_inj in H. subst r.
  apply build_candidates_Ok in Hb as (Hid & Hnd & _ & -> & Hlen).
  rewrite (SortFunc_Permutation compareCandidates) in Hid, Hnd. split; [by split|]. split_and!; [done|done|].
  exists checksum. split_and!; [exact Hck|exact Hv| |done].
  simpl in Hlen. unfold published_endpoints, len in *. rewrite SortFunc_length. done.
Qed.

Lemma input_targets_NoDup input : input_ok input -> NoDup (target_id <$> sr_Targets (sn_Route (base_snapshot input))).
Proof.
  intros [_ _ _ Hr%validateRoute_sorted]. change (sn_Route (base_snapshot input)) with (sorted_route input).
  fold (sorted_route input) in Hr. unfold validateRoute in Hr. destruct (fail_if _ _) as [[]|]; [|done].
  simpl in Hr. destruct (sr_Present (ip_Route input)); simpl in Hr.
  - ok_inv. apply validate_targets_spec in Hr5 as [Hu _]. apply for_each_unique_Ok in Hu as (_ & Hnd & _).
    apply (NoDup_fmap_1 (fun '(version, generation) => version +:+ NUL +:+ FormatUint generation)%string).
    rewrite <-list_fmap_compose. exact Hnd.
  - ok_inv. simpl. destruct (SortFunc compareRouteTargets (sr_Targets (ip_Route input))); [constructor|].
    unfold len in *. simpl in *. lia.
Qed.

Lemma elem_of_published input e :
  e ∈ published_endpoints input <->
  exists c, c ∈ ip_Candidates input /\ included (base_snapshot input) c = true /\ e = endpoint_of c.
Proof.
  unfold published_endpoints. rewrite elem_of_SortFunc, list_elem_of_fmap. split.
  - intros (c & -> & [Hc Hi]%list_elem_of_In%filter_In). exists c. split_and!; try done.
    by rewrite <-(elem_of_SortFunc compareCandidates), list_elem_of_In.
  - intros (c & Hc & Hi & ->). exists c. split; [done|]. apply list_elem_of_In, filter_In. split; [|done].
    by rewrite <-list_elem_of_In, elem_of_SortFunc.
Qed.

Lemma NoDup_filter_map {A K} (key : A -> K) (f : A -> bool) l :
  NoDup (key <$> l) -> NoDup (key <$> List.filter f l).
Proof.
  induction l as [|x l IH]; simpl; [done|]. intros [Hx Hnd]%NoDup_cons. destruct (f x); [|auto].
  simpl. apply NoDup_cons. split; [|auto]. intros (y & Hy & [Hin _]%list_elem_of_In%filter_In)%list_elem_of_fmap.
  apply Hx, list_elem_of_fmap. exists y. by rewrite list_elem_of_In.
Qed.

Lemma published_NoDup input :
  NoDup (candidate_id <$> ip_Candidates input) -> NoDup (endpoint_id <$> published_endpoints input).
Proof.
  intros Hnd. unfold published_endpoints. rewrite (SortFunc_Permutation compareEndpoints).
  change (map endpoint_of ?l) with (endpoint_of <$> l). rewrite <-list_fmap_compose.
  apply (NoDup_filter_map candidate_id). by rewrite (SortFunc_Permutation compareCandidates).
Qed.

Lemma Build_endpoints b input r :
  Build b input = Ok r ->
  let s := re_Snapshot r in
  (forall e, e ∈ endpoints s <-> exists c, c ∈ ip_Candidates input /\ publishable s c /\ e = endpoint_of c) /\
  (forall c, c ∈ ip_Candidates input -> exists d, d ∈ re_Candidates r /\ cd_AssignmentID d = candidate_id c /\
     (cd_Included d = true <-> publishable s c) /\ (cd_Included d = true <-> cd_Reasons d = [])).
Proof.
  intros (Hin & Hnd & _ & checksum & _ & Hv & Hlen & ->)%Build_Ok. simpl.
  assert (forall c, included (base_snapshot input) c = true <-> publishable (final_snapshot input checksum) c) as Hpub.
  { intros c. change (included (base_snapshot input) c) with (included (final_snapshot input checksum) c).
    apply included_publishable. exact (input_targets_NoDup input Hin). }
  split.
  - intros e. change (endpoints _) with (published_endpoints input). rewrite elem_of_published. by setoid_rewrite Hpub.
  - intros c Hc. exists (decision_for (base_snapshot input) c). split_and!.
    + apply list_elem_of_fmap. exists c. by rewrite elem_of_SortFunc.
    + done.
    + apply Hpub.
    + apply included_spec.
Qed.

(** C39: A successful Build publishes exactly the candidates that may serve:
    committed, authorized for this very fence and Discovery Epoch, on a ready,
    schedulable, undrained Worker with the same session, matching a Route
    target, while Function, Trigger and Route allow serving.  The snapshot is
    valid, lists every Assignment once and within the limit, and every
    candidate has a decision that says whether it is in and if not why. *)
Theorem Build_publishes_exactly b input r :
  Build b input = Ok r ->
  let s := re_Snapshot r in
  Snapshot_Validate s = Ok tt /\
  (forall e, e ∈ endpoints s <-> exists c, c ∈ ip_Candidates input /\ publishable s c /\ e = endpoint_of c) /\
  NoDup (map endpoint_id (endpoints s)) /\ len (endpoints s) <= Z.max 0 (b_maxEndpoints b) /\
  (forall c, c ∈ ip_Candidates input -> exists d, d ∈ re_Candidates r /\ cd_AssignmentID d = candidate_id c /\
     (cd_Included d = true <-> publishable s c) /\ (cd_Included d = true <-> cd_Reasons d = [])).
Proof.
  intros Hbuild. pose proof (Build_endpoints _ _ _ Hbuild) as [He Hdec].
  apply Build_Ok in Hbuild as (Hin & Hnd & _ & checksum & _ & Hv & Hlen & ->).
  split_and!; [exact Hv|exact He|by apply published_NoDup|exact Hlen|exact Hdec].
Qed.

Lemma published_valid input e :
  e ∈ published_endpoints input ->
  Endpoint_Validate e = Ok tt /\ routeMismatchReasons (sr_Targets (sorted_route input)) (en_Assignment e) = [] /\
  serving_enabled (base_snapshot input) = true.
Proof.
  intros (c & _ & Hi%included_spec & ->)%elem_of_published.
  pose proof (exclusionReasons_publishable _ _ Hi) as Hp. split_and!; [| |apply Hp].
  - unfold Endpoint_Validate. simpl. rewrite (pb_assignment _ _ Hp), (pb_mode _ _ Hp), (pb_address _ _ Hp). done.
  - unfold exclusionReasons in Hi. rewrite !app_nil in Hi. apply Hi.
Qed.

Lemma checksum_parses s checksum : calculateChecksum s = Ok checksum -> ParseSHA256 checksum = Ok checksum.
Proof.
  unfold calculateChecksum, CanonicalJSON. intros H. ok_inv. subst. apply ParseSHA256_Ok. split; [done|].
  apply Sum_encodedPattern.
Qed.

(** The final self-check of Build cannot fail. *)
Lemma final_snapshot_valid input checksum :
  input_ok input -> NoDup (candidate_id <$> ip_Candidates input) ->
  len (published_endpoints input) <= HardMaxEndpoints ->
  calculateChecksum (final_snapshot input "") = Ok checksum ->
  Snapshot_Validate (final_snapshot input checksum) = Ok tt.
Proof.
  intros [Hh Hf Ht Hr] Hnd Hlen Hck. unfold Snapshot_Validate.
  change (validateSnapshotHeader (final_snapshot input checksum)) with (validateSnapshotHeader (initial_snapshot input)).
  rewrite Hh. simpl. rewrite Hf. simpl. rewrite bool_decide_true by done. simpl. rewrite Ht. simpl.
  fold (sorted_route input). pose proof (validateRoute_sorted _ _ Hr) as Hr'. fold (sorted_route input) in Hr'.
  rewrite Hr'. simpl. change (endpoints (final_snapshot input checksum)) with (published_endpoints input).
  rewrite Z.gtb_ltb, (proj2 (Z.ltb_ge _ _)) by done. simpl.
  rewrite (IsSortedFunc_SortFunc compareRouteTargets target_order _ compareRouteTargets_spec). simpl.
  assert (IsSortedFunc compareEndpoints (published_endpoints input) = true) as ->.
  { apply (IsSortedFunc_SortFunc compareEndpoints endpoint_order). intros x y.
    unfold compareEndpoints. by rewrite compareEndpointIdentity_spec. }
  simpl. assert (negb (len (published_endpoints input) =? 0) && negb (serving_enabled (final_snapshot input checksum)) = false) as ->.
  { destruct (published_endpoints input) as [|e l] eqn:E; [done|].
    destruct (published_valid input e) as (_ & _ & Hs); [rewrite E; by left|].
    change (serving_enabled (final_snapshot input checksum)) with (serving_enabled (base_snapshot input)).
    by rewrite Hs, andb_false_r. }
  simpl. rewrite validate_endpoints_total; [| |by apply published_NoDup|set_solver].
  - simpl. rewrite (checksum_parses _ _ Hck). simpl.
    change (calculateChecksum (final_snapshot input checksum)) with (calculateChecksum (final_snapshot input "")).
    rewrite Hck. simpl. by rewrite bool_decide_true.
  - apply Forall_forall. intros e He. destruct (published_valid input e He) as (? & ? & _). by split.
Qed.

Definition reordered (input : Input) (candidates : list EndpointCandidate) (targets : list RouteTarget) : Input :=
  {| ip_DiscoveryEpoch := ip_DiscoveryEpoch input; ip_ServingSequence := ip_ServingSequence input;
     ip_GeneratedAt := ip_GeneratedAt input; ip_Function := ip_Function input; ip_Trigger := ip_Trigger input;
     ip_Route := with_targets (ip_Route input) targets; ip_Candidates := candidates |}.

Lemma target_order_id x y : target_order x y = Eq -> target_id x = target_id y.
Proof.
  unfold target_order, lex_by, comparing, lex, target_id. case_match eqn:E; try done.
  apply String.compare_eq_iff in E. intros E2%Z.compare_eq_iff. congruence.
Qed.

Lemma reordered_same input candidates targets :
  input_ok input -> NoDup (candidate_id <$> ip_Candidates input) ->
  candidates ≡ₚ ip_Candidates input -> targets ≡ₚ sr_Targets (ip_Route input) ->
  input_ok (reordered input candidates targets) /\
  sorted_route (reordered input candidates targets) = sorted_route input /\
  SortFunc compareCandidates candidates = SortFunc compareCandidates (ip_Candidates input).
Proof.
  intros Hin Hnd Hc Ht. pose proof (input_targets_NoDup input Hin) as Htn. split_and!.
  - destruct Hin as [Hh Hf Htr Hr]. split; [exact Hh|done|done|]. simpl. by apply validateRoute_Permutation.
  - change (with_targets (ip_Route input) (SortFunc compareRouteTargets targets) = sorted_route input).
    unfold sorted_route. f_equal. symmetry.
    apply (SortFunc_keyed compareRouteTargets target_order target_id); [exact compareRouteTargets_spec|exact target_order_id| |done].
    simpl in Htn. by rewrite (SortFunc_Permutation compareRouteTargets) in Htn.
  - symmetry. apply (SortFunc_keyed compareCandidates candidate_order candidate_id); [| |done|done].
    + intros x y. unfold compareCandidates. by rewrite compareEndpointIdentity_spec.
    + intros x y. apply identity_order_id.
Qed.

(** Build is total and deterministic.  On every input whose Function,
    Trigger and Route are valid and whose candidates have valid, distinct IDs
    within the limit it succeeds, so that its closing self-check never fires,
    and the whole result is the same for every order of the candidates and of
    the Route's targets. *)
Theorem Build_total b input :
  (forall v, is_ok (jcs_Transform (json.Marshal v)) = true) ->
  1 <= b_maxEndpoints b <= HardMaxEndpoints -> input_ok input ->
  len (ip_Candidates input) <= b_maxEndpoints b ->
  Forall (fun c => idPattern (candidate_id c) = true) (ip_Candidates input) ->
  NoDup (candidate_id <$> ip_Candidates input) ->
  exists r, forall candidates targets,
    candidates ≡ₚ ip_Candidates input -> targets ≡ₚ sr_Targets (ip_Route input) ->
    Build b (reordered input candidates targets) = Ok r.
Proof.
  intros Hjcs Hb Hin Hlen Hids Hnd.
  destruct (build_candidates_total b (base_snapshot input) ∅ [] [] (SortFunc compareCandidates (ip_Candidates input)))
    as [built Hbuilt].
  { by rewrite (SortFunc_Permutation compareCandidates). } { by rewrite (SortFunc_Permutation compareCandidates). }
  { set_solver. } { unfold len in *. rewrite SortFunc_length. simpl. lia. }
  pose proof (build_candidates_Ok _ _ _ _ _ _ _ Hbuilt) as (_ & _ & _ & -> & Hmax).
  assert (exists checksum, calculateChecksum (final_snapshot input "") = Ok checksum) as [checksum Hck].
  { unfold calculateChecksum, CanonicalJSON.
    destruct (proj1 (is_ok_true _) (Hjcs (canonicalSnapshotV1 (final_snapshot input "")))) as [c ->].
    eexists. reflexivity. }
  assert (Snapshot_Validate (final_snapshot input checksum) = Ok tt) as Hv.
  { apply final_snapshot_valid; try done. unfold published_endpoints, len in *. rewrite SortFunc_length.
    simpl in Hmax. lia. }
  eexists. intros candidates targets Hc Ht.
  destruct (reordered_same input candidates targets Hin Hnd Hc Ht) as (Hin' & Hroute & Hsort).
  unfold Build. rewrite Z.gtb_ltb, (proj2 (Z.ltb_ge _ _)) by (simpl; unfold len in *; rewrite Hc; lia).
  cbn [fail_if rbind]. rewrite (io_header _ Hin'). cbn [rbind].
  change (sn_Function _) with (ip_Function (reordered input candidates targets)). rewrite (io_function _ Hin'). cbn [rbind].
  change (sn_Trigger _) with (ip_Trigger (reordered input candidates targets)).
  change (sn_FunctionID _) with (sf_ID (ip_Function (reordered input candidates targets))).
  rewrite (io_trigger _ Hin'). cbn [rbind].
  change (sn_Route (initial_snapshot _)) with (ip_Route (reordered input candidates targets)).
  rewrite (io_route _ Hin'). cbn [rbind]. fold (sorted_route (reordered input candidates targets)). rewrite Hroute.
  change (with_endpoints (initial_snapshot (reordered input candidates targets)) (sorted_route input) [] "")
    with (base_snapshot input).
  change (ip_Candidates (reordered input candidates targets)) with candidates. rewrite Hsort, Hbuilt. cbn [rbind snd].
  change (with_endpoints (base_snapshot input) (sorted_route input) _ "") with (final_snapshot input "").
  rewrite Hck. cbn [rbind].
  change (with_endpoints (final_snapshot input "") (sorted_route input) _ checksum) with (final_snapshot input checksum).
  rewrite Hv. simpl. done.
Qed.

(** What a validated snapshot says about its Endpoints. *)
Lemma Snapshot_Validate_endpoints s :
  Snapshot_Validate s = Ok tt ->
  Forall (fun e => Endpoint_Validate e = Ok tt /\ routeMismatchReasons (sr_Targets (sn_Route s)) (en_Assignment e) = []) (endpoints s) /\
  NoDup (endpoint_id <$> endpoints s).
Proof.
  unfold Snapshot_Validate. intros Hv. do 10 (apply rbind_Ok in Hv as ([] & _ & Hv)).
  apply rbind_Ok in Hv as ([] & (Hf & Hnd & _)%validate_endpoints_Ok & _). done.
Qed.

(** ** The Publisher *)
Inductive publisher_op :=
| OpBuild (input : Input)
| OpBuildFull (inputs : list Input).

Definition publisher_step (p : Publisher) (op : publisher_op) : Publisher :=
  match op with
  | OpBuild input => fst (Publisher_Build input p)
  | OpBuildFull inputs => fst (BuildFull inputs p)
  end.

(** The snapshots one call hands out. *)
Definition handed_out (p : Publisher) (op : publisher_op) : list Snapshot :=
  match op with
  | OpBuild input => match snd (Publisher_Build input p) with Ok r => [re_Snapshot r] | Err _ => [] end
  | OpBuildFull inputs => match snd (BuildFull inputs p) with Ok (rs, _) => map re_Snapshot rs | Err _ => [] end
  end.

Definition succeeds (p : Publisher) (op : publisher_op) : bool :=
  match op with
  | OpBuild input => is_ok (snd (Publisher_Build input p))
  | OpBuildFull inputs => is_ok (snd (BuildFull inputs p))
  end.

Definition publisher_run (p : Publisher) (ops : list publisher_op) : Publisher := foldl publisher_step p ops.

Lemma Build_position b input r :
  Build b input = Ok r ->
  sn_DiscoveryEpoch (re_Snapshot r) = ip_DiscoveryEpoch input /\
  sn_ServingSequence (re_Snapshot r) = ip_ServingSequence input /\
  sn_FunctionID (re_Snapshot r) = sf_ID (ip_Function input) /\ Snapshot_Validate (re_Snapshot r) = Ok tt.
Proof. intros (_ & _ & _ & checksum & _ & Hv & _ & ->)%Build_Ok. by split_and!. Qed.

Lemma build_all_Ok p next seen inputs rs :
  build_all p next seen inputs = Ok rs ->
  map (fun r => sn_FunctionID (re_Snapshot r)) rs = map (fun input => sf_ID (ip_Function input)) inputs /\
  NoDup (map (fun input => sf_ID (ip_Function input)) inputs) /\
  (forall input, input ∈ inputs -> sf_ID (ip_Function input) ∉ seen) /\
  Forall (fun r => sn_DiscoveryEpoch (re_Snapshot r) = pu_epoch p /\ sn_ServingSequence (re_Snapshot r) = next /\
                   Snapshot_Validate (re_Snapshot r) = Ok tt) rs.
Proof.
  revert seen rs. induction inputs as [|input inputs IH]; intros seen rs; simpl.
  { intros H. apply Ok_inj in H. subst. split_and!; [done|constructor|set_solver|constructor]. }
  intros H. ok_inv. subst rs. apply Build_position in H1 as (He & Hs & Hf & Hv).
  destruct (IH _ _ H2) as (Hmap & Hnd & Hseen & Hall). simpl. split_and!.
  - by rewrite Hf, Hmap.
  - apply NoDup_cons. split; [|done]. intros (i & Heq & Hi)%list_elem_of_In%in_map_iff. specialize (Hseen i).
    rewrite list_elem_of_In in Hseen. specialize (Hseen Hi). set_solver.
  - intros i [->|Hi]%elem_of_cons; [done|]. specialize (Hseen _ Hi). set_solver.
  - by apply Forall_cons.
Qed.

Lemma publisher_step_cases p op :
  is_u64 (pu_sequence p) ->
  (publisher_step p op = p /\ handed_out p op = []) \/
  (pu_sequence p < maxUint64 /\ publisher_step p op = set_sequence p (pu_sequence p + 1) /\
   NoDup (map sn_FunctionID (handed_out p op)) /\
   Forall (fun s => sn_DiscoveryEpoch s = pu_epoch p /\ sn_ServingSequence s = pu_sequence p + 1 /\
                    Snapshot_Validate s = Ok tt) (handed_out p op)).
Proof.
  intros Hu. assert ((pu_sequence p =? maxUint64) = false ->
    u64 (pu_sequence p + 1) = pu_sequence p + 1 /\ pu_sequence p < maxUint64) as Hnext.
  { intros E. go_cases. unfold is_u64, maxUint64 in *. split; [apply u64_small; unfold is_u64; lia|lia]. }
  destruct op as [input|inputs]; simpl; unfold Publisher_Build, BuildFull, sbind, slift, sget, sput, sret;
    destruct (pu_sequence p =? maxUint64); simpl; try (by left); destruct (Hnext eq_refl) as [-> Hlt].
  - destruct (Build _ _) as [r|] eqn:E; simpl; [|by left]. right. apply Build_position in E as (He & Hs & _ & Hv).
    split_and!; [done|done|apply NoDup_singleton|by apply Forall_singleton].
  - destruct (build_all _ _ _ _) as [rs|] eqn:E; simpl; [|by left]. right.
    apply build_all_Ok in E as (Hmap & Hnd & _ & Hall). split_and!; [done|done| |].
    + rewrite map_map, Hmap. done.
    + by apply Forall_map.
Qed.

Lemma publisher_run_spec p ops :
  is_u64 (pu_sequence p) ->
  is_u64 (pu_sequence (publisher_run p ops)) /\ pu_epoch (publisher_run p ops) = pu_epoch p /\
  pu_sequence p <= pu_sequence (publisher_run p ops).
Proof.
  revert p. induction ops as [|op ops IH]; intros p Hu; simpl; [split_and!; (done || lia)|].
  destruct (publisher_step_cases p op Hu) as [[-> _]|(Hlt & -> & _)]; [by apply IH|].
  destruct (IH (set_sequence p (pu_sequence p + 1))) as (H1 & H2 & H3).
  - unfold is_u64, maxUint64 in *. simpl. lia.
  - simpl in *. split_and!; [done|done|lia].
Qed.

(** The Publisher's positions are unique and increasing.  Over any
    history, everything one call hands out is valid and carries the
    Publisher's epoch and the next sequence number, at most once per Function;
    whatever is handed out by a later call has a strictly greater number; a
    failed call consumes none, and the number never wraps around. *)
Theorem publisher_sequence epoch builder p ops1 op ops2 op' :
  NewPublisher epoch builder = Ok p ->
  let q := publisher_run p ops1 in
  let q' := publisher_run (publisher_step q op) ops2 in
  NoDup (map sn_FunctionID (handed_out q op)) /\
  (forall s, s ∈ handed_out q op ->
     Snapshot_Validate s = Ok tt /\ sn_DiscoveryEpoch s = epoch /\
     sn_ServingSequence s = pu_sequence q + 1 /\ pu_sequence (publisher_step q op) = pu_sequence q + 1 /\
     0 < sn_ServingSequence s < 2 ^ 64 /\
     forall s', s' ∈ handed_out q' op' -> sn_ServingSequence s < sn_ServingSequence s') /\
  (succeeds q op = false -> publisher_step q op = q).
Proof.
  intros Hnew q q'. unfold NewPublisher in Hnew. ok_inv.
  assert (is_u64 (pu_sequence p)) as Hp by (subst p; done). assert (pu_epoch p = epoch) as He by (by subst p).
  destruct (publisher_run_spec p ops1 Hp) as (Hq & Hqe & Hq0). fold q in Hq, Hqe, Hq0.
  assert (0 <= pu_sequence p) as Hp0 by (unfold is_u64 in Hp; lia).
  split_and!.
  - destruct (publisher_step_cases q op Hq) as [[_ ->]|(_ & _ & Hnd & _)]; [constructor|done].
  - intros s Hs. destruct (publisher_step_cases q op Hq) as [[_ E]|(Hlt & Hstep & _ & Hall)];
      [rewrite E in Hs; by apply elem_of_nil in Hs|].
    rewrite Forall_forall in Hall. destruct (Hall _ Hs) as (Hse & Hss & Hv). rewrite Hss. split_and!; try done.
    + congruence.
    + by rewrite Hstep.
    + lia.
    + unfold maxUint64 in Hlt. lia.
    + intros s' Hs'.
      assert (is_u64 (pu_sequence (publisher_step q op))) as Hu.
      { rewrite Hstep. unfold is_u64, maxUint64 in *. simpl. lia. }
      destruct (publisher_run_spec _ ops2 Hu) as (Hq'u & _ & Hge). fold q' in Hq'u, Hge.
      destruct (publisher_step_cases q' op' Hq'u) as [[_ E]|(_ & _ & _ & Hall')];
        [rewrite E in Hs'; by apply elem_of_nil in Hs'|].
      rewrite Forall_forall in Hall'. destruct (Hall' _ Hs') as (_ & -> & _). rewrite Hstep in Hge. simpl in Hge. lia.
  - destruct op as [input|inputs]; simpl; unfold Publisher_Build, BuildFull, sbind, slift, sget, sput, sret;
      destruct (fail_if _ _); simpl; [|done| |done].
    + by destruct (Build _ _).
    + by destruct (build_all _ _ _ _).
Qed.

(** Where a published snapshot comes from. *)
Lemma build_all_inputs p next seen inputs rs r :
  build_all p next seen inputs = Ok rs -> r ∈ rs ->
  exists input, input ∈ inputs /\ Build (pu_builder p) (at_position input (pu_epoch p) next) = Ok r.
Proof.
  revert seen rs. induction inputs as [|input inputs IH]; intros seen rs; simpl.
  { intros [= <-] Hr. by apply elem_of_nil in Hr. }
  intros Hb Hr. apply rbind_Ok in Hb as ([] & _ & Hb). apply rbind_Ok in Hb as (built & Hbuild & Hb).
  apply rbind_Ok in Hb as (rest & Hrest & [= <-]). apply elem_of_cons in Hr as [->|Hr].
  - exists input. split; [by left|done].
  - destruct (IH _ _ Hrest Hr) as (i & Hi & Hbi). exists i. split; [by right|done].
Qed.

Definition op_inputs (op : publisher_op) : list Input :=
  match op with OpBuild input => [input] | OpBuildFull inputs => inputs end.

Lemma handed_out_built p op s :
  s ∈ handed_out p op ->
  exists input sequence r, input ∈ op_inputs op /\
    Build (pu_builder p) (at_position input (pu_epoch p) sequence) = Ok r /\ s = re_Snapshot r.
Proof.
  destruct op as [input|inputs]; simpl; unfold Publisher_Build, BuildFull, sbind, slift, sget, sput, sret;
    (destruct (fail_if _ _); simpl; [|set_solver]).
  - destruct (Build _ _) as [r|] eqn:Hb; simpl; [|set_solver]. rewrite list_elem_of_singleton. intros ->.
    eexists input, _, r. split; [by left|]. split; [exact Hb|done].
  - destruct (build_all _ _ _ _) as [rs|] eqn:Hb; simpl; [|set_solver]. intros (r & -> & Hr)%list_elem_of_fmap.
    destruct (build_all_inputs _ _ _ _ _ _ Hb Hr) as (input & Hi & Hbi). by eexists input, _, r.
Qed.

End theory.

(** ** Witnesses: one Function served by one Worker *)
#[local] Instance ex_jcs : JCS := fun document => Ok document.

Definition ex_builder : Builder := {| b_maxEndpoints := 10 |}.
Definition ex_policy : string := Eval vm_compute in Sum "policy".
Definition ex_identity (id : string) : AssignmentIdentity :=
  {| ai_Worker := {| ws_WorkerID := "worker-1"; ws_BootID := "boot-1"; ws_SessionEpoch := 1 |};
     ai_AssignmentID := id; ai_VersionID := "ver_1"; ai_AdmissionEpoch := 1; ai_DeploymentGeneration := 1;
     ai_PolicyDigest := ex_policy; ai_Mode := ModeNormal |}.
Definition ex_candidate (id : string) (ready : bool) : EndpointCandidate :=
  {| ec_Assignment := ex_identity id; ec_DesiredState := AssignmentAssigned; ec_Worker := ex_worker "worker-1" 2;
     ec_ReplicaReady := ready;
     ec_Authorization := Some {| au_Fence := {| if_Assignment := ex_identity id; if_DiscoveryEpoch := 3 |};
                                 au_Lifetime := LifetimeTTL; au_TTL := minute |};
     ec_Address := "10.0.0.7:8443" |}.
Definition ex_target : RouteTarget :=
  {| rt_VersionID := "ver_1"; rt_AdmissionEpoch := 1; rt_DeploymentGeneration := 1;
     rt_EffectivePolicyDigest := ex_policy; rt_WeightBasisPoints := 10000 |}.
Definition ex_input : Input :=
  {| ip_DiscoveryEpoch := 3; ip_ServingSequence := 1;
     ip_GeneratedAt := {| t_wall := 719163 * 86400 * second; t_offset := 0; t_mono := None |};
     ip_Function := {| sf_ID := "fn_1"; sf_Name := "hello"; sf_ResourceRevision := 2; sf_Lifecycle := FunctionActive |};
     ip_Trigger := {| sg_ID := "tr_1"; sg_FunctionID := "fn_1"; sg_ResourceRevision := 1; sg_Enabled := true;
                      sg_AuthPolicy := AuthPublic; sg_TokenVerifierDigest := None |};
     ip_Route := {| sr_Present := true; sr_FunctionID := "fn_1"; sr_ResourceRevision := 1; sr_RouteRevision := 1;
                    sr_Enabled := true; sr_Targets := [ex_target]; sr_Affinity := AffinityRequestID;
                    sr_AffinityHeader := ""; sr_HashVersion := HashVersionSHA256BPSV1; sr_SaltID := "salt_1";
                    sr_Salt := "0123456789abcdef" |};
     ip_Candidates := [ex_candidate "asg_2" false; ex_candidate "asg_1" true] |}.
Definition ex_result : Result := Eval vm_compute in
  match Build ex_builder ex_input with
  | Ok r => r
  | Err _ => {| re_Snapshot := initial_snapshot ex_input; re_Candidates := [] |}
  end.

Lemma ex_build_runs : Build ex_builder ex_input = Ok ex_result.
Proof. vm_compute. exact eq_refl. Qed.

Lemma Build_publishes_exactly_witness :
  map endpoint_id (endpoints (re_Snapshot ex_result)) = ["asg_1"]%string /\
  Snapshot_Validate (re_Snapshot ex_result) = Ok tt.
Proof.
  destruct (Build_publishes_exactly ex_builder ex_input ex_result ex_build_runs) as (H & _).
  split; [vm_compute; exact eq_refl|exact H].
Defined.

Lemma ex_jcs_total v : is_ok (jcs_Transform (json.Marshal v)) = true.
Proof. done. Qed.

Lemma ex_input_ok : input_ok ex_input.
Proof. split; vm_compute; exact eq_refl. Qed.

Lemma Build_total_witness :
  exists r, Build ex_builder (reordered ex_input (rev (ip_Candidates ex_input)) [ex_target]) = Ok r.
Proof.
  destruct (Build_total ex_builder ex_input ex_jcs_total) as [r H].
  - split; vm_compute; discriminate.
  - exact ex_input_ok.
  - vm_compute. discriminate.
  - apply Forall_cons. split; [vm_compute; exact eq_refl|]. apply Forall_singleton. vm_compute. exact eq_refl.
  - change (NoDup ["asg_2"; "asg_1"]%string). apply NoDup_cons. split; [|apply NoDup_singleton].
    rewrite list_elem_of_singleton. discriminate.
  - exists r. apply H; [symmetry; apply Permutation_rev|exact (Permutation_refl _)].
Defined.

Definition ex_publisher : Publisher := {| pu_builder := ex_builder; pu_epoch := 3; pu_sequence := 0 |}.

Lemma publisher_sequence_witness :
  map sn_ServingSequence (handed_out (publisher_step ex_publisher (OpBuild ex_input)) (OpBuildFull [ex_input])) = [2] /\
  NoDup (map sn_FunctionID (handed_out (publisher_step ex_publisher (OpBuild ex_input)) (OpBuildFull [ex_input]))).
Proof.
  destruct (publisher_sequence 3 ex_builder ex_publisher [OpBuild ex_input] (OpBuildFull [ex_input]) [] (OpBuild ex_input)
    eq_refl) as (H & _).
  split; [vm_compute; exact eq_refl|exact H].
Defined.

End discovery.
