(* ===== verification/GatewayRoute.v ===== *)
(** * Package [internal/gatewayroute]: choosing one Endpoint of a Route target

    The balancer counts the calls in flight per Assignment and takes the least
    loaded Endpoint of exactly the given target, round-robin among ties.  A
    Lease carries a pointer to the state that makes its release happen once,
    shared by all copies of the Lease; those states live in a heap here. *)
From stdpp Require Import base gmap strings list sorting.
From S2P Require Import Prelude Problem Digest Json Model ServingAuth Scheduler Net Discovery.
Import problem digest model servingauth discovery.

#[local] Open Scope Z_scope.

Module gatewayroute.

Record targetKey := { tk_functionID : string; tk_versionID : string; tk_generation : Z }.

#[global] Instance targetKey_eq_dec : EqDecision targetKey.
Proof. solve_decision. Defined.
#[global] Instance targetKey_countable : Countable targetKey.
Proof.
  refine (inj_countable' (fun k => (tk_functionID k, tk_versionID k, tk_generation k))
    (fun '(a, b, c) => Build_targetKey a b c) _).
  by intros [].
Defined.

#[global] Instance WorkerSession_countable : Countable WorkerSession.
Proof.
  refine (inj_countable' (fun w => (ws_WorkerID w, ws_BootID w, ws_SessionEpoch w))
    (fun '(a, b, c) => Build_WorkerSession a b c) _).
  by intros [].
Defined.
#[global] Instance AssignmentIdentity_countable : Countable AssignmentIdentity.
Proof.
  refine (inj_countable' (fun a => (ai_Worker a, ai_AssignmentID a, ai_VersionID a, ai_AdmissionEpoch a,
                                    ai_DeploymentGeneration a, ai_PolicyDigest a, ai_Mode a))
    (fun '(a, b, c, d, e, f, g) => Build_AssignmentIdentity a b c d e f g) _).
  by intros [].
Defined.

Record Balancer := {
  bl_inflight : gmap AssignmentIdentity Z;
  bl_roundRobin : gmap targetKey Z;
}.

(** [sync.Once] as the flag [rs_done]. *)
Record releaseState := { rs_done : bool; rs_identity : AssignmentIdentity }.

(** The balancer with the release states it has allocated. *)
Record World := {
  wd_balancer : Balancer;
  wd_states : gmap nat releaseState;
  wd_next : nat;
}.

(** A Lease; the zero Lease has no state. *)
Record Lease := { ls_Endpoint : Endpoint; ls_state : option nat }.

Definition New : Balancer := {| bl_inflight := ∅; bl_roundRobin := ∅ |}.
Definition start : World := {| wd_balancer := New; wd_states := ∅; wd_next := 0 |}.

(** Reading an absent key gives zero. *)
Definition Inflight (b : Balancer) (identity : AssignmentIdentity) : Z := default 0 (bl_inflight b !! identity).
Definition cursor (b : Balancer) (key : targetKey) : Z := default 0 (bl_roundRobin b !! key).

Definition compareEndpoints (left right : Endpoint) : Z :=
  if str_lt (endpoint_id left) (endpoint_id right) then -1
  else if str_lt (endpoint_id right) (endpoint_id left) then 1
  else 0.

Definition validateTarget (target : RouteTarget) : result unit :=
  fail_if (negb (idPattern (rt_VersionID target))) (Invalid "route_target.version_id" "must be a valid identifier") ;;;
  fail_if ((rt_AdmissionEpoch target =? 0) || (rt_DeploymentGeneration target =? 0)
           || (rt_WeightBasisPoints target =? 0) || (rt_WeightBasisPoints target >? TotalRouteWeightBasisPoints))
    (Invalid "route_target" "contains an invalid epoch, generation, or weight") ;;;
  replace_err (Invalid "route_target.effective_policy_digest" "must be a lowercase SHA-256 digest")
    (ParseSHA256 (rt_EffectivePolicyDigest target)) ;;; Ok tt.

(** The [continue] condition of the loop, negated. *)
Definition serves (target : RouteTarget) (e : Endpoint) : bool :=
  let identity := en_Assignment e in
  negb ((en_State e != EndpointReady) || (ai_Mode identity != ModeNormal)
        || (ai_VersionID identity != rt_VersionID target)
        || negb (ai_AdmissionEpoch identity =? rt_AdmissionEpoch target)
        || negb (ai_DeploymentGeneration identity =? rt_DeploymentGeneration target)
        || (ai_PolicyDigest identity != rt_EffectivePolicyDigest target)).

Fixpoint collect_eligible (target : RouteTarget) (seen : gset string) (l : list Endpoint) : result (list Endpoint) :=
  match l with
  | [] => Ok []
  | e :: l' =>
    Endpoint_Validate e ;;;
    if negb (serves target e) then collect_eligible target seen l'
    else
      fail_if (bool_decide (endpoint_id e ∈ seen)) (Invalid "endpoints" "contains a duplicate Assignment ID") ;;;
      rest <- collect_eligible target ({[ endpoint_id e ]} ∪ seen) l' ;;
      Ok (e :: rest)
  end.

Definition load (b : Balancer) (e : Endpoint) : Z := Inflight b (en_Assignment e).

(** The two loops over the sorted eligible Endpoints. *)
Definition minimum_load (b : Balancer) (first : Endpoint) (rest : list Endpoint) : Z :=
  foldl (fun minimum e => Z.min minimum (load b e)) (load b first) rest.
Definition tied (b : Balancer) (minimum : Z) (l : list Endpoint) : list Endpoint :=
  List.filter (fun e => load b e =? minimum) l.

Definition Acquire (functionID : string) (target : RouteTarget) (l : list Endpoint) : M World Lease :=
  do! slift (fail_if (negb (idPattern functionID)) (Invalid "function_id" "must be a valid identifier")) in
  do! slift (validateTarget target) in
  let! eligible := slift (collect_eligible target ∅ l) in
  match SortFunc compareEndpoints eligible with
  | [] => sthrow (classified CodeNoReadyReplica "selected Route target has no ready Endpoint")
  | first :: rest =>
    let key := {| tk_functionID := functionID; tk_versionID := rt_VersionID target;
                  tk_generation := rt_DeploymentGeneration target |} in
    let! w := sget in
    let b := wd_balancer w in
    let candidates := tied b (minimum_load b first rest) (first :: rest) in
    let chosen := nth (Z.to_nat (cursor b key mod len candidates)) candidates first in
    let identity := en_Assignment chosen in
    do! sput {| wd_balancer :=
                  {| bl_inflight := <[identity := u64 (Inflight b identity + 1)]> (bl_inflight b);
                     bl_roundRobin := <[key := u64 (cursor b key + 1)]> (bl_roundRobin b) |};
                wd_states := <[wd_next w := {| rs_done := false; rs_identity := identity |}]> (wd_states w);
                wd_next := S (wd_next w) |} in
    sret {| ls_Endpoint := chosen; ls_state := Some (wd_next w) |}
  end.

(** The function that [Release] runs once. *)
Definition decrement (b : Balancer) (identity : AssignmentIdentity) : Balancer :=
  let count := Inflight b identity in
  {| bl_inflight := if count <=? 1 then delete identity (bl_inflight b)
                    else <[identity := u64 (count - 1)]> (bl_inflight b);
     bl_roundRobin := bl_roundRobin b |}.

Definition Release (lease : Lease) (w : World) : World :=
  match ls_state lease with
  | None => w
  | Some address =>
    match wd_states w !! address with
    | None => w
    | Some state =>
      if rs_done state then w
      else {| wd_balancer := decrement (wd_balancer w) (rs_identity state);
              wd_states := <[address := {| rs_done := true; rs_identity := rs_identity state |}]> (wd_states w);
              wd_next := wd_next w |}
    end
  end.

(** ** Choice *)
Definition id_order : Endpoint -> Endpoint -> comparison := comparing endpoint_id String.compare.
#[global] Instance id_order_total : TotalCompare id_order.
Proof. unfold id_order. apply _. Qed.

Lemma compareEndpoints_spec x y : compareEndpoints x y = int_of id_order x y.
Proof.
  unfold compareEndpoints, int_of, id_order, comparing. rewrite str_three_way.
  by destruct (String.compare _ _).
Qed.

Lemma collect_eligible_spec target seen l es :
  collect_eligible target seen l = Ok es <->
  Forall (fun e => Endpoint_Validate e = Ok tt) l /\ es = List.filter (serves target) l /\
  NoDup (endpoint_id <$> es) /\ (forall e, e ∈ es -> endpoint_id e ∉ seen).
Proof.
  revert seen es. induction l as [|e l IH]; intros seen es; cbn [collect_eligible List.filter].
  { split; [intros [= <-]; split_and!; [done|done|constructor|set_solver]|naive_solver]. }
  rewrite Forall_cons. destruct (Endpoint_Validate e) as [[]|]; cbn [rbind]; [|naive_solver].
  destruct (serves target e); cbn [negb].
  2:{ rewrite IH. naive_solver. }
  destruct (decide (endpoint_id e ∈ seen)) as [Hin|Hout].
  { rewrite bool_decide_eq_true_2 by done. split; [done|]. intros (_ & -> & _ & Hs). destruct (Hs e); [by left|done]. }
  rewrite bool_decide_eq_false_2 by done. cbn [fail_if rbind]. split.
  - destruct (collect_eligible target _ l) as [rest|] eqn:Hc; cbn [rbind]; [|done]. intros [= <-].
    apply IH in Hc as (Hv & -> & Hnd & Hs). split_and!; try done.
    + rewrite fmap_cons. apply NoDup_cons. split; [|done]. intros (e' & He & Hin)%list_elem_of_fmap.
      specialize (Hs _ Hin). set_solver.
    + intros e' [->|Hin]%elem_of_cons; [done|]. specialize (Hs _ Hin). set_solver.
  - intros ([_ Hv] & -> & Hnd & Hs). rewrite fmap_cons in Hnd. apply NoDup_cons in Hnd as [Hn Hnd].
    rewrite (proj2 (IH _ (List.filter (serves target) l))); [done|]. split_and!; try done.
    intros e' Hin. apply not_elem_of_union.
    split; [|apply Hs; by right]. rewrite not_elem_of_singleton. intros E. apply Hn, list_elem_of_fmap. by exists e'.
Qed.

Lemma minimum_load_spec b first rest :
  (exists e, e ∈ first :: rest /\ load b e = minimum_load b first rest) /\
  (forall e, e ∈ first :: rest -> minimum_load b first rest <= load b e).
Proof.
  unfold minimum_load. assert (forall m, (foldl (fun minimum e => Z.min minimum (load b e)) m rest = m \/
      exists e, e ∈ rest /\ load b e = foldl (fun minimum e => Z.min minimum (load b e)) m rest) /\
    foldl (fun minimum e => Z.min minimum (load b e)) m rest <= m /\
    (forall e, e ∈ rest -> foldl (fun minimum e => Z.min minimum (load b e)) m rest <= load b e)) as H.
  { induction rest as [|x rest IH]; intros m; simpl; [split_and!; [by left|lia|set_solver]|].
    destruct (IH (Z.min m (load b x))) as (Hw & Hle & Hall). split_and!.
    - destruct Hw as [Hw|(e & Hin & Hw)]; [|right; exists e; set_solver]. rewrite Hw.
      destruct (Z.min_spec m (load b x)) as [[_ ->]|[_ ->]]; [by left|right; exists x; set_solver].
    - lia.
    - intros e [->|Hin]%elem_of_cons; [lia|by apply Hall]. }
  destruct (H (load b first)) as (Hw & Hle & Hall). split.
  - destruct Hw as [Hw|(e & Hin & Hw)]; [exists first|exists e]; set_solver.
  - intros e [->|Hin]%elem_of_cons; [lia|by apply Hall].
Qed.

(** The Endpoints of the target with the fewest calls in flight, in canonical
    order. *)
Definition least_loaded (b : Balancer) (target : RouteTarget) (l : list Endpoint) : list Endpoint :=
  match SortFunc compareEndpoints (List.filter (serves target) l) with
  | [] => []
  | first :: rest => tied b (minimum_load b first rest) (first :: rest)
  end.

Definition target_key_of (functionID : string) (target : RouteTarget) : targetKey :=
  {| tk_functionID := functionID; tk_versionID := rt_VersionID target; tk_generation := rt_DeploymentGeneration target |}.

Lemma elem_of_least_loaded b target l e :
  e ∈ least_loaded b target l <->
  (e ∈ l /\ serves target e = true /\ forall e', e' ∈ l -> serves target e' = true -> load b e <= load b e').
Proof.
  assert (forall x, x ∈ SortFunc compareEndpoints (List.filter (serves target) l) <-> x ∈ l /\ serves target x = true) as Hin.
  { intros x. rewrite elem_of_SortFunc, !list_elem_of_In, filter_In. done. }
  unfold least_loaded. destruct (SortFunc compareEndpoints (List.filter (serves target) l)) as [|first rest] eqn:E.
  { rewrite elem_of_nil. split; [done|]. intros (H1 & H2 & _). by apply (elem_of_nil e), Hin. }
  destruct (minimum_load_spec b first rest) as ((m & Hm & Hmin) & Hall). unfold tied.
  rewrite list_elem_of_In, filter_In, <-list_elem_of_In, Hin, Z.eqb_eq. split.
  - intros [[H1 H2] H3]. split_and!; try done. intros e' H4 H5. rewrite H3. apply Hall, Hin. done.
  - intros (H1 & H2 & H3). split; [done|]. apply Z.le_antisymm; [|by apply Hall, Hin].
    rewrite <-Hmin. apply Hin in Hm as [Hm1 Hm2]. by apply H3.
Qed.

Lemma least_loaded_nil b target l :
  (forall e, e ∈ l -> serves target e = false) -> least_loaded b target l = [].
Proof.
  intros H. destruct (least_loaded b target l) as [|e rest] eqn:E; [done|].
  assert (e ∈ least_loaded b target l) as (He & Hs & _)%elem_of_least_loaded by (rewrite E; by left).
  by rewrite (H _ He) in Hs.
Qed.

Lemma least_loaded_lookup b key target l e :
  e ∈ l -> serves target e = true ->
  is_Some (least_loaded b target l !! Z.to_nat (cursor b key mod len (least_loaded b target l))).
Proof.
  intros He Hs. apply lookup_lt_is_Some.
  assert (0 < len (least_loaded b target l)) as Hpos.
  { unfold least_loaded. destruct (SortFunc compareEndpoints _) as [|first rest] eqn:E.
    { exfalso. apply (elem_of_nil e). rewrite <-E, elem_of_SortFunc, list_elem_of_In, filter_In, <-list_elem_of_In. done. }
    destruct (minimum_load_spec b first rest) as ((m & Hm & Hmin) & _).
    assert (m ∈ tied b (minimum_load b first rest) (first :: rest)) as Hties
      by (apply list_elem_of_In, filter_In; by rewrite <-list_elem_of_In, Z.eqb_eq).
    unfold len. destruct (tied _ _ _); [by apply elem_of_nil in Hties|simpl; lia]. }
  pose proof (Z.mod_pos_bound (cursor b key) _ Hpos) as Hb. unfold len in *. lia.
Qed.

(** The state after a successful [Acquire] of [identity]. *)
Definition acquired (key : targetKey) (identity : AssignmentIdentity) (w : World) : World :=
  let b := wd_balancer w in
  {| wd_balancer :=
       {| bl_inflight := <[identity := u64 (Inflight b identity + 1)]> (bl_inflight b);
          bl_roundRobin := <[key := u64 (cursor b key + 1)]> (bl_roundRobin b) |};
     wd_states := <[wd_next w := {| rs_done := false; rs_identity := identity |}]> (wd_states w);
     wd_next := S (wd_next w) |}.

(** What [Acquire] checks before it looks at the load. *)
Definition acceptable (functionID : string) (target : RouteTarget) (l : list Endpoint) : Prop :=
  idPattern functionID = true /\ validateTarget target = Ok tt /\
  Forall (fun e => Endpoint_Validate e = Ok tt) l /\
  NoDup (endpoint_id <$> List.filter (serves target) l).

#[global] Instance acceptable_dec functionID target l : Decision (acceptable functionID target l).
Proof.
  unfold acceptable. assert (forall r : result unit, Decision (r = Ok tt)) as Hd
    by (intros [[]|]; [by left|by right]). apply _.
Defined.

Lemma collect_eligible_acceptable functionID target l :
  acceptable functionID target l <->
  idPattern functionID = true /\ validateTarget target = Ok tt /\
  collect_eligible target ∅ l = Ok (List.filter (serves target) l).
Proof. unfold acceptable. rewrite collect_eligible_spec. set_solver. Qed.

Lemma Acquire_acceptable functionID target l w :
  acceptable functionID target l ->
  Acquire functionID target l w =
    (let ties := least_loaded (wd_balancer w) target l in
     match ties !! Z.to_nat (cursor (wd_balancer w) (target_key_of functionID target) mod len ties) with
     | None => (w, Err (classified CodeNoReadyReplica "selected Route target has no ready Endpoint"))
     | Some chosen => (acquired (target_key_of functionID target) (en_Assignment chosen) w,
                       Ok {| ls_Endpoint := chosen; ls_state := Some (wd_next w) |})
     end).
Proof.
  intros (Hf & Ht & Hc)%collect_eligible_acceptable.
  unfold Acquire, sbind, slift, sget, sput, sret, sthrow, least_loaded.
  rewrite Hf, Ht, Hc. cbn [negb fail_if].
  destruct (SortFunc compareEndpoints _) as [|first rest] eqn:E; [by rewrite lookup_nil|].
  fold (target_key_of functionID target). set (b := wd_balancer w). set (key := target_key_of functionID target).
  assert (least_loaded b target l = tied b (minimum_load b first rest) (first :: rest)) as Hties
    by (unfold least_loaded; by rewrite E).
  destruct (least_loaded_lookup b key target l first) as [chosen Hl].
  1,2: assert (first ∈ first :: rest) as Hin by (by left); rewrite <-E, elem_of_SortFunc, list_elem_of_In, filter_In in Hin;
    rewrite ?list_elem_of_In; apply Hin.
  rewrite Hties in Hl. cbv zeta. by rewrite Hl, (nth_lookup_Some _ _ _ _ Hl).
Qed.

Lemma Acquire_refused functionID target l w :
  ~ acceptable functionID target l -> exists err, Acquire functionID target l w = (w, Err err).
Proof.
  rewrite collect_eligible_acceptable. intros Hn. unfold Acquire, sbind, slift, sthrow.
  destruct (idPattern functionID); cbn [negb fail_if]; [|by eexists].
  destruct (validateTarget target) as [[]|]; [|by eexists].
  destruct (collect_eligible target ∅ l) as [es|] eqn:Hc; [|by eexists].
  exfalso. apply Hn. split_and!; try done. pose proof Hc as (_ & -> & _)%collect_eligible_spec. done.
Qed.

Lemma Acquire_Ok functionID target l w w' lease :
  Acquire functionID target l w = (w', Ok lease) ->
  acceptable functionID target l /\
  (let ties := least_loaded (wd_balancer w) target l in
   ties !! Z.to_nat (cursor (wd_balancer w) (target_key_of functionID target) mod len ties) = Some (ls_Endpoint lease)) /\
  ls_state lease = Some (wd_next w) /\
  w' = acquired (target_key_of functionID target) (en_Assignment (ls_Endpoint lease)) w.
Proof.
  intros H. destruct (decide (acceptable functionID target l)) as [Ha|Hn].
  - rewrite (Acquire_acceptable _ _ _ _ Ha) in H. cbv zeta in *.
    destruct (_ !! _) as [chosen|] eqn:Hl; simplify_eq. done.
  - destruct (Acquire_refused _ _ _ w Hn) as [err Herr]. congruence.
Qed.

Lemma Acquire_Err functionID target l w w' err :
  Acquire functionID target l w = (w', Err err) -> w' = w.
Proof.
  intros H. destruct (decide (acceptable functionID target l)) as [Ha|Hn].
  - rewrite (Acquire_acceptable _ _ _ _ Ha) in H. cbv zeta in H. by destruct (_ !! _); simplify_eq.
  - destruct (Acquire_refused _ _ _ w Hn) as [? Herr]. congruence.
Qed.

Lemma Inflight_acquired key chosen w identity :
  Inflight (wd_balancer (acquired key chosen w)) identity =
  if decide (identity = chosen) then u64 (Inflight (wd_balancer w) identity + 1) else Inflight (wd_balancer w) identity.
Proof.
  unfold Inflight, acquired. cbn [wd_balancer bl_inflight]. case_decide as E; subst.
  - by rewrite lookup_insert_eq.
  - rewrite lookup_insert_ne by congruence. done.
Qed.

Lemma least_loaded_order_independent b target l l' :
  NoDup (endpoint_id <$> List.filter (serves target) l) -> l ≡ₚ l' ->
  least_loaded b target l = least_loaded b target l'.
Proof.
  intros Hnd Hp. unfold least_loaded.
  rewrite (SortFunc_keyed compareEndpoints id_order endpoint_id _ (List.filter (serves target) l')); try done.
  - apply compareEndpoints_spec.
  - intros x y. apply String.compare_eq_iff.
  - by apply scheduler.filter_Permutation_bool.
Qed.

(** No two Endpoints of the target differ by more than one call. *)
Definition balanced (b : Balancer) (target : RouteTarget) (l : list Endpoint) : Prop :=
  forall e e', e ∈ l -> serves target e = true -> e' ∈ l -> serves target e' = true -> load b e <= load b e' + 1.

Lemma acquired_balanced key target l w chosen :
  chosen ∈ least_loaded (wd_balancer w) target l ->
  (forall e, e ∈ l -> 0 <= load (wd_balancer w) e < maxUint64) ->
  balanced (wd_balancer w) target l ->
  balanced (wd_balancer (acquired key (en_Assignment chosen) w)) target l.
Proof.
  intros (Hc & Hs & Hmin)%elem_of_least_loaded Hrange Hb e e' He Hse He' Hse'. unfold load. rewrite !Inflight_acquired.
  pose proof (Hrange _ He). pose proof (Hrange _ He'). pose proof (Hb _ _ He Hse He' Hse'). pose proof (Hmin _ He' Hse').
  unfold load, maxUint64 in *. rewrite !u64_small by (unfold is_u64; lia).
  repeat case_decide; try lia. replace (en_Assignment e) with (en_Assignment chosen). lia.
Qed.

(** [Acquire] takes a least loaded Endpoint of exactly the given target.
    It succeeds precisely when its inputs are acceptable and some Endpoint
    serves the target, and it fails without any effect otherwise.  The chosen
    Endpoint is one of the given ones, serves that target generation and no
    other, and no Endpoint of the target has fewer calls in flight; among the
    least loaded ones in canonical order the cursor of the target decides, and
    the cursor advances.  Only the chosen Assignment's count changes.  The
    order in which the Endpoints are given is irrelevant, and loads that differ
    by at most one before still do so afterwards. *)
Theorem Acquire_least_loaded functionID target l w :
  let b := wd_balancer w in
  let key := target_key_of functionID target in
  (acceptable functionID target l -> (exists e, e ∈ l /\ serves target e = true) ->
   exists w' lease, Acquire functionID target l w = (w', Ok lease)) /\
  (acceptable functionID target l -> (forall e, e ∈ l -> serves target e = false) ->
   Acquire functionID target l w =
     (w, Err (classified CodeNoReadyReplica "selected Route target has no ready Endpoint"))) /\
  (~ acceptable functionID target l -> exists err, Acquire functionID target l w = (w, Err err)) /\
  (forall w' lease, Acquire functionID target l w = (w', Ok lease) ->
     let chosen := ls_Endpoint lease in
     acceptable functionID target l /\ chosen ∈ l /\ serves target chosen = true /\
     (forall e, e ∈ l -> serves target e = true -> load b chosen <= load b e) /\
     (let ties := least_loaded b target l in ties !! Z.to_nat (cursor b key mod len ties) = Some chosen) /\
     cursor (wd_balancer w') key = u64 (cursor b key + 1) /\
     (forall identity, Inflight (wd_balancer w') identity =
        if decide (identity = en_Assignment chosen) then u64 (Inflight b identity + 1) else Inflight b identity) /\
     ((forall e, e ∈ l -> 0 <= load b e < maxUint64) -> balanced b target l -> balanced (wd_balancer w') target l)) /\
  (acceptable functionID target l -> forall l', l ≡ₚ l' ->
   Acquire functionID target l' w = Acquire functionID target l w).
Proof.
  intros b key. split_and!.
  - intros Ha (e & He & Hs). rewrite (Acquire_acceptable _ _ _ w Ha). cbv zeta.
    destruct (least_loaded_lookup b key target l e He Hs) as [chosen Hl]. unfold b, key in Hl. rewrite Hl. by eexists _, _.
  - intros Ha Hn. rewrite (Acquire_acceptable _ _ _ w Ha). cbv zeta. by rewrite least_loaded_nil.
  - apply Acquire_refused.
  - intros w' lease (Ha & Hl & _ & ->)%Acquire_Ok chosen. cbv zeta in Hl. fold b key chosen in Hl.
    assert (chosen ∈ least_loaded b target l) as Hin by (by apply list_elem_of_lookup; eexists).
    pose proof Hin as (H1 & H2 & H3)%elem_of_least_loaded. split_and!; try done.
    + unfold cursor, acquired. cbn [wd_balancer bl_roundRobin]. fold key. by rewrite lookup_insert_eq.
    + intros identity. apply Inflight_acquired.
    + intros Hr. by apply acquired_balanced.
  - intros Ha l' Hp. rewrite (Acquire_acceptable _ _ _ w Ha), (Acquire_acceptable _ _ l' w).
    + by rewrite (least_loaded_order_independent _ _ l l') by (apply Ha || done).
    + destruct Ha as (H1 & H2 & H3 & H4). split_and!; try done; [by rewrite <-Hp|].
      by rewrite <-(scheduler.filter_Permutation_bool (serves target) _ _ Hp).
Qed.

(** ** Accounting *)

(** The leases of [identity] that no call has released yet. *)
Definition held_by (identity : AssignmentIdentity) (p : nat * releaseState) : Prop :=
  rs_done p.2 = false /\ rs_identity p.2 = identity.
Definition outstanding (w : World) (identity : AssignmentIdentity) : Z :=
  Z.of_nat (size (filter (held_by identity) (wd_states w))).

Inductive balancer_op :=
| OpAcquire (functionID : string) (target : RouteTarget) (l : list Endpoint)
| OpRelease (lease : Lease).

Definition balancer_step (w : World) (op : balancer_op) : World :=
  match op with
  | OpAcquire functionID target l => fst (Acquire functionID target l w)
  | OpRelease lease => Release lease w
  end.
Definition balancer_run (w : World) (ops : list balancer_op) : World := foldl balancer_step w ops.

(** After [n] calls: addresses are fresh, counts are positive and equal to the
    outstanding leases. *)
Record accounted (n : nat) (w : World) : Prop := {
  ac_next : (wd_next w <= n)%nat;
  ac_fresh : forall a, is_Some (wd_states w !! a) -> (a < wd_next w)%nat;
  ac_size : (size (wd_states w) <= wd_next w)%nat;
  ac_positive : forall identity, bl_inflight (wd_balancer w) !! identity <> Some 0;
  ac_count : forall identity, Inflight (wd_balancer w) identity = outstanding w identity;
}.

Lemma outstanding_bound n w identity : accounted n w -> 0 <= outstanding w identity <= Z.of_nat n.
Proof.
  intros [Hn _ Hs _ _]. unfold outstanding. split; [lia|].
  assert (size (filter (held_by identity) (wd_states w)) <= size (wd_states w))%nat; [|lia].
  rewrite <-!size_dom. apply subseteq_size, dom_filter_subseteq.
Qed.

Lemma outstanding_fresh w identity a state states' :
  wd_states w !! a = None -> states' = <[a := state]> (wd_states w) ->
  Z.of_nat (size (filter (held_by identity) states')) =
  outstanding w identity + (if decide (held_by identity (a, state)) then 1 else 0).
Proof.
  intros Hf ->. unfold outstanding. rewrite map_filter_insert. case_decide.
  - rewrite map_size_insert_None; [lia|]. by apply map_lookup_filter_None_2; left.
  - rewrite delete_id by done. lia.
Qed.

Lemma outstanding_release w identity a state :
  wd_states w !! a = Some state -> rs_done state = false ->
  Z.of_nat (size (filter (held_by identity) (<[a := {| rs_done := true; rs_identity := rs_identity state |}]> (wd_states w)))) =
  outstanding w identity - (if decide (identity = rs_identity state) then 1 else 0).
Proof.
  intros Hl Hd. unfold outstanding. rewrite map_filter_insert_False by (by intros [? _]).
  rewrite map_filter_delete, map_size_delete. case_decide as E.
  - assert (filter (held_by identity) (wd_states w) !! a = Some state) as Hf
      by (by apply map_lookup_filter_Some).
    rewrite Hf. assert (size (filter (held_by identity) (wd_states w)) <> 0%nat); [|lia].
    intros E0%map_size_empty_inv. by rewrite E0, lookup_empty in Hf.
  - assert (filter (held_by identity) (wd_states w) !! a = None) as ->; [|unfold id; lia].
    apply map_lookup_filter_None_2. right. intros x Hx [_ Hi]. by simplify_eq.
Qed.

Lemma Inflight_decrement b chosen identity :
  is_u64 (Inflight b chosen) ->
  Inflight (decrement b chosen) identity =
  if decide (identity = chosen) then Z.max 0 (Inflight b identity - 1) else Inflight b identity.
Proof.
  unfold is_u64. intros Hu. unfold decrement. cbv zeta. case_decide as E; subst.
  - destruct (Inflight b chosen <=? 1) eqn:Hc; unfold Inflight in *; cbn [bl_inflight];
      [rewrite lookup_delete_eq|rewrite lookup_insert_eq]; simpl; go_cases; [lia|].
    rewrite u64_small by (unfold is_u64; lia). lia.
  - unfold Inflight at 1. cbn [bl_inflight].
    destruct (_ <=? 1); [rewrite lookup_delete_ne by done|rewrite lookup_insert_ne by done]; done.
Qed.

Lemma accounted_start : accounted 0 start.
Proof.
  split; simpl; try done.
  - intros a. rewrite lookup_empty. by intros [].
Qed.

Lemma accounted_mono n n' w : (n <= n')%nat -> accounted n w -> accounted n' w.
Proof. intros Hn []. split; [lia|done..]. Qed.

Lemma acquired_accounted n key identity w :
  Z.of_nat n < maxUint64 -> accounted n w -> accounted (S n) (acquired key identity w).
Proof.
  intros Hn Ha. pose proof (outstanding_bound n w identity Ha) as Hb. unfold maxUint64 in Hn.
  destruct Ha as [H1 H2 H3 H4 H5].
  assert (wd_states w !! wd_next w = None) as Hf.
  { destruct (wd_states w !! wd_next w) eqn:E; [|done]. specialize (H2 (wd_next w) ltac:(by eexists)). lia. }
  assert (u64 (Inflight (wd_balancer w) identity + 1) = outstanding w identity + 1) as Hu
    by (rewrite H5; apply u64_small; unfold is_u64; lia).
  split; cbn [acquired wd_next wd_states wd_balancer bl_inflight].
  - lia.
  - intros a. destruct (decide (a = wd_next w)) as [->|]; [lia|]. rewrite lookup_insert_ne by done.
    intros ?%H2. lia.
  - rewrite map_size_insert_None by done. lia.
  - intros i. destruct (decide (i = identity)) as [->|]; [|by rewrite lookup_insert_ne].
    rewrite lookup_insert_eq, Hu. intros [=]. lia.
  - intros i. change (Inflight (wd_balancer (acquired key identity w)) i = outstanding (acquired key identity w) i). rewrite Inflight_acquired. unfold outstanding at 1. cbn [acquired wd_states].
    rewrite (outstanding_fresh w i (wd_next w) _ _ Hf eq_refl), H5.
    unfold held_by. cbn [snd rs_done rs_identity]. repeat case_decide; subst; rewrite <-?H5, ?Hu, ?H5; naive_solver lia.
Qed.

Lemma Release_accounted n lease w :
  Z.of_nat n <= maxUint64 -> accounted n w -> accounted n (Release lease w).
Proof.
  intros Hn Ha. unfold Release. destruct (ls_state lease) as [a|]; [|done].
  destruct (wd_states w !! a) as [state|] eqn:Hl; [|done]. destruct (rs_done state) eqn:Hd; [done|].
  pose proof (outstanding_bound n w (rs_identity state) Ha) as Hb. destruct Ha as [H1 H2 H3 H4 H5].
  assert (is_u64 (Inflight (wd_balancer w) (rs_identity state))) as Hu
    by (rewrite H5; unfold is_u64, maxUint64 in *; lia).
  assert (0 < outstanding w (rs_identity state)) as Hpos.
  { pose proof (outstanding_release w (rs_identity state) a state Hl Hd) as E. rewrite decide_True in E by done. lia. }
  split; cbn [wd_next wd_states wd_balancer].
  - done.
  - intros a'. destruct (decide (a' = a)) as [->|]; [intros _; apply H2; by eexists|].
    rewrite lookup_insert_ne by done. apply H2.
  - rewrite map_size_insert_Some by done. done.
  - intros i. unfold decrement. cbn [bl_inflight]. cbv zeta. rewrite H5 in *.
    destruct (_ <=? 1) eqn:Hc; destruct (decide (i = rs_identity state)) as [->|].
    + by rewrite lookup_delete_eq.
    + by rewrite lookup_delete_ne.
    + go_cases. rewrite lookup_insert_eq, u64_small by (unfold is_u64 in *; lia). intros [=]. lia.
    + by rewrite lookup_insert_ne.
  - intros i. rewrite Inflight_decrement by done. unfold outstanding at 1. cbn [wd_states].
    rewrite outstanding_release by done. rewrite H5. case_decide; subst; lia.
Qed.

Lemma balancer_run_accounted ops n w :
  Z.of_nat n + len ops <= maxUint64 -> accounted n w -> accounted (n + length ops) (balancer_run w ops).
Proof.
  revert n w. induction ops as [|op ops IH]; intros n w Hn Ha; simpl.
  { by rewrite Nat.add_0_r. }
  unfold len in Hn. simpl in Hn. rewrite <-Nat.add_succ_comm. apply IH; [unfold len; lia|].
  destruct op as [functionID target l|lease]; simpl.
  - destruct (Acquire functionID target l w) as [w' [lease|err]] eqn:E; simpl.
    + apply Acquire_Ok in E as (_ & _ & _ & ->). apply acquired_accounted; [lia|done].
    + rewrite (Acquire_Err _ _ _ _ _ _ E). apply (accounted_mono n); [lia|done].
  - apply (accounted_mono n); [lia|]. apply Release_accounted; [lia|done].
Qed.

(** The release state of a lease has run its function. *)
Definition released (lease : Lease) (w : World) : Prop :=
  match ls_state lease with
  | None => True
  | Some a => exists state, wd_states w !! a = Some state /\ rs_done state = true
  end.
Definition allocated (lease : Lease) (w : World) : Prop :=
  match ls_state lease with
  | None => True
  | Some a => is_Some (wd_states w !! a)
  end.
Definition fresh_next (w : World) : Prop := forall a, is_Some (wd_states w !! a) -> (a < wd_next w)%nat.

Lemma Release_released lease w : allocated lease w -> released lease (Release lease w).
Proof.
  unfold allocated, released, Release. destruct (ls_state lease) as [a|]; [|done]. intros [state Hs]. rewrite Hs.
  destruct (rs_done state) eqn:Hd; [by eexists|]. simpl. rewrite lookup_insert_eq. by eexists.
Qed.

Lemma released_no_effect lease w : released lease w -> Release lease w = w.
Proof.
  unfold released, Release. destruct (ls_state lease) as [a|]; [|done]. intros (state & -> & ->). done.
Qed.

Lemma balancer_step_released lease w op :
  fresh_next w -> released lease w -> fresh_next (balancer_step w op) /\ released lease (balancer_step w op).
Proof.
  intros Hf Hr. destruct op as [functionID target l|other]; simpl.
  - destruct (Acquire functionID target l w) as [w' [ls|err]] eqn:E; simpl;
      [|by rewrite (Acquire_Err _ _ _ _ _ _ E)].
    apply Acquire_Ok in E as (_ & _ & _ & ->). split.
    + intros a. simpl. destruct (decide (a = wd_next w)) as [->|]; [lia|]. rewrite lookup_insert_ne by done.
      intros ?%Hf. lia.
    + revert Hr. unfold released. destruct (ls_state lease) as [a|]; [|done]. intros (state & Hs & Hd). simpl.
      exists state. split; [|done]. rewrite lookup_insert_ne; [done|]. specialize (Hf a ltac:(by eexists)). lia.
  - unfold Release. destruct (ls_state other) as [a|]; [|done]. destruct (wd_states w !! a) as [state|] eqn:Hs; [|done].
    destruct (rs_done state) eqn:Hd; [done|]. split.
    + intros a'. simpl. destruct (decide (a' = a)) as [->|]; [intros _; apply Hf; by eexists|].
      rewrite lookup_insert_ne by done. apply Hf.
    + revert Hr. unfold released. destruct (ls_state lease) as [a'|]; [|done]. intros (state' & Hs' & Hd'). simpl.
      exists state'. split; [|done]. rewrite lookup_insert_ne; [done|]. intros ->. congruence.
Qed.

Lemma balancer_run_released ops lease w :
  fresh_next w -> released lease w -> released lease (balancer_run w ops).
Proof.
  revert w. induction ops as [|op ops IH]; intros w Hf Hr; simpl; [done|].
  destruct (balancer_step_released lease w op Hf Hr). by apply IH.
Qed.

Lemma Release_fresh lease w : fresh_next w -> fresh_next (Release lease w).
Proof. intros Hf. by apply (balancer_step_released {| ls_Endpoint := ls_Endpoint lease; ls_state := None |} w (OpRelease lease)). Qed.

Lemma acquired_release n key chosen w :
  Z.of_nat n < maxUint64 -> accounted n w ->
  bl_inflight (wd_balancer (Release {| ls_Endpoint := chosen; ls_state := Some (wd_next w) |}
                              (acquired key (en_Assignment chosen) w))) = bl_inflight (wd_balancer w).
Proof.
  intros Hn Ha. pose proof (outstanding_bound n w (en_Assignment chosen) Ha) as Hb. unfold maxUint64 in Hn.
  destruct Ha as [_ _ _ H4 H5]. unfold Release, acquired. cbn [ls_state wd_states].
  rewrite lookup_insert_eq. cbn [rs_done rs_identity wd_balancer decrement bl_inflight].
  specialize (H5 (en_Assignment chosen)). specialize (H4 (en_Assignment chosen)).
  set (c := Inflight (wd_balancer w) (en_Assignment chosen)) in *.
  rewrite (u64_small (c + 1)) by (unfold is_u64; lia). unfold Inflight. cbn [bl_inflight]. rewrite lookup_insert_eq. simpl.
  destruct (c + 1 <=? 1) eqn:E; go_cases.
  - rewrite delete_insert_eq. apply delete_id. unfold c, Inflight in *.
    destruct (bl_inflight (wd_balancer w) !! en_Assignment chosen) as [v|]; [simpl in *|done]. exfalso. apply H4. f_equal. lia.
  - rewrite insert_insert_eq, Z.add_simpl_r, u64_small by (unfold is_u64; lia). apply insert_id. unfold c, Inflight in *.
    destruct (bl_inflight (wd_balancer w) !! en_Assignment chosen) as [v|]; simpl in *; [done|lia].
Qed.

(** The in-flight counts are exact.  After any sequence of fewer than
    2^64 calls the count of an Assignment is the number of its leases that
    were acquired and not yet released; when all leases are released the
    table is empty, so nothing leaks.  Releasing restores the counts from
    before the acquisition, and any further release of the same lease or of a
    copy of it, however much later, changes nothing. *)
Theorem inflight_accounting ops :
  len ops < maxUint64 ->
  let w := balancer_run start ops in
  (forall identity, Inflight (wd_balancer w) identity = outstanding w identity) /\
  ((forall a state, wd_states w !! a = Some state -> rs_done state = true) -> bl_inflight (wd_balancer w) = ∅) /\
  (forall functionID target l w' lease, Acquire functionID target l w = (w', Ok lease) ->
     outstanding w' (en_Assignment (ls_Endpoint lease)) = outstanding w (en_Assignment (ls_Endpoint lease)) + 1 /\
     bl_inflight (wd_balancer (Release lease w')) = bl_inflight (wd_balancer w) /\ allocated lease w') /\
  (forall lease copy later, allocated lease w -> ls_state copy = ls_state lease ->
     let w' := balancer_run (Release lease w) later in Release copy w' = w').
Proof.
  intros Hlen w. assert (accounted (length ops) w) as Ha
    by (apply (balancer_run_accounted ops 0 start); [unfold maxUint64 in *; lia|apply accounted_start]).
  split_and!.
  - apply (ac_count _ _ Ha).
  - intros Hall. apply map_eq. intros identity. rewrite lookup_empty. pose proof (ac_count _ _ Ha identity) as Hc.
    pose proof (ac_positive _ _ Ha identity) as Hp. unfold outstanding in Hc.
    assert (filter (held_by identity) (wd_states w) = ∅) as E.
    { apply map_empty. intros a. apply map_lookup_filter_None_2. right. intros state Hs [Hd _]. simpl in Hd.
      specialize (Hall _ _ Hs). congruence. }
    rewrite E, map_size_empty in Hc.
    unfold Inflight in Hc. revert Hc Hp. destruct (bl_inflight (wd_balancer w) !! identity); simpl; [intros -> Hp; by destruct Hp|done].
  - intros functionID target l w' lease (_ & _ & Hst & ->)%Acquire_Ok. split_and!.
    + rewrite <-!(ac_count _ _ Ha). pose proof (outstanding_bound _ _ (en_Assignment (ls_Endpoint lease)) Ha) as Hb.
      rewrite <-(ac_count _ _ (acquired_accounted _ _ _ _ Hlen Ha)), Inflight_acquired, decide_True by done.
      rewrite (ac_count _ _ Ha). apply u64_small. unfold is_u64, len, maxUint64 in *. lia.
    + destruct lease as [chosen st]. simpl in *. subst st. by apply (acquired_release (length ops)).
    + unfold allocated. rewrite Hst. simpl. rewrite lookup_insert_eq. by eexists.
  - intros lease copy later Hal Hst w'. apply released_no_effect.
    pose proof (balancer_run_released later lease (Release lease w) (Release_fresh _ _ (ac_fresh _ _ Ha)) (Release_released _ _ Hal)).
    unfold released in *. by rewrite Hst.
Qed.

(** ** Witnesses: a target with two Endpoints *)
Definition ex_endpoint (id address : string) : Endpoint :=
  {| en_Assignment := ex_identity id; en_Address := address; en_State := EndpointReady |}.
Definition ex_endpoints : list Endpoint := [ex_endpoint "asg_2" "10.0.0.8:8443"; ex_endpoint "asg_1" "10.0.0.7:8443"].
Definition ex_acquire : balancer_op := OpAcquire "fn_1" ex_target ex_endpoints.
Definition ex_lease (n : nat) : Lease := {| ls_Endpoint := ex_endpoint "asg_1" "10.0.0.7:8443"; ls_state := Some n |}.

Lemma ex_endpoints_acceptable : acceptable "fn_1" ex_target ex_endpoints.
Proof.
  split; [vm_compute; exact eq_refl|]. split; [vm_compute; exact eq_refl|]. split.
  - apply Forall_cons. split; [vm_compute; exact eq_refl|]. apply Forall_singleton. vm_compute. exact eq_refl.
  - change (NoDup ["asg_2"; "asg_1"]%string). apply NoDup_cons. split; [|apply NoDup_singleton].
    rewrite list_elem_of_singleton. discriminate.
Qed.

Lemma Acquire_least_loaded_witness :
  (exists w' lease, Acquire "fn_1" ex_target ex_endpoints start = (w', Ok lease)) /\
  Acquire "fn_1" ex_target (rev ex_endpoints) start = Acquire "fn_1" ex_target ex_endpoints start.
Proof.
  destruct (Acquire_least_loaded "fn_1" ex_target ex_endpoints start) as (H1 & _ & _ & _ & H5). split.
  - apply H1; [exact ex_endpoints_acceptable|]. exists (ex_endpoint "asg_1" "10.0.0.7:8443").
    split; [right; left|vm_compute; exact eq_refl].
  - apply H5; [exact ex_endpoints_acceptable|apply Permutation_rev].
Defined.

Lemma inflight_accounting_witness :
  let w := balancer_run start [ex_acquire; ex_acquire; ex_acquire; OpRelease (ex_lease 0); OpRelease (ex_lease 0)] in
  Inflight (wd_balancer w) (ex_identity "asg_1") = 1 /\ outstanding w (ex_identity "asg_2") = 1.
Proof.
  destruct (inflight_accounting [ex_acquire; ex_acquire; ex_acquire; OpRelease (ex_lease 0); OpRelease (ex_lease 0)])
    as (H & _); [vm_compute; exact eq_refl|]. cbv zeta. split; [vm_compute; exact eq_refl|].
  rewrite <-H. vm_compute. exact eq_refl.
Defined.

End gatewayroute.
