(* ===== verification/GatewayDiscovery.v ===== *)
(** * Package [internal/gatewaydiscovery]: the Gateway's serving view

    The store applies Watch events: a Full event replaces the whole view, an
    incremental one replaces one Function and must carry the next sequence
    number.  Views are served within one staleness window, without the
    Endpoints that local health checks suppressed. *)
From stdpp Require Import base gmap strings list sorting.
From S2P Require Import Prelude Problem Digest Json Model ServingAuth Scheduler Net Discovery.
Import problem digest model servingauth discovery.

#[local] Open Scope Z_scope.

Module gatewaydiscovery.

Definition DefaultMaxStale : Z := 5 * minute.
Definition HardMaxStale : Z := 10 * minute.
Definition DefaultMaxFunctions : Z := 10000.
Definition HardMaxFunctions : Z := 10000.

(** [Config.MaxStale] is a pointer; the clock is an argument of the operations
    that read it. *)
Record Config := { cfg_MaxStale : option Z; cfg_MaxFunctions : Z }.

Record Event := {
  ev_Full : bool;
  ev_DiscoveryEpoch : Z;
  ev_ServingSequence : Z;
  ev_Snapshots : list Snapshot;
}.

Record Status := {
  su_DiscoveryEpoch : Z;
  su_ServingSequence : Z;
  su_Functions : Z;
  su_FullSynced : bool;
  su_NeedsFullSync : bool;
  su_WatchConnected : bool;
  su_ClockHealthy : bool;
}.

Record View := { vw_Snapshot : Snapshot; vw_Endpoints : list Endpoint }.

Record functionRecord := {
  fr_snapshot : Snapshot;
  fr_receivedAt : Z;
  fr_suppressed : gmap string AssignmentIdentity;
}.

Record eventPosition := { ep_epoch : Z; ep_sequence : Z; ep_fingerprint : string }.

Record Store := {
  st_maxStale : Z;
  st_maxFunctions : Z;
  st_functions : gmap string functionRecord;
  st_position : eventPosition;
  st_fullSynced : bool;
  st_needsFullSync : bool;
  st_watchConnected : bool;
  st_lastElapsed : Z;
  st_clockHealthy : bool;
}.

(** [elapsed] is the first reading of the clock. *)
Definition New (config : Config) (elapsed : Z) : result Store :=
  let maxStale := default DefaultMaxStale (cfg_MaxStale config) in
  let maxFunctions := if cfg_MaxFunctions config =? 0 then DefaultMaxFunctions else cfg_MaxFunctions config in
  fail_if ((maxStale <? 0) || (maxStale >? HardMaxStale))
    (PlainError "gateway serving max stale is outside v1 bounds") ;;;
  fail_if ((maxFunctions <? 1) || (maxFunctions >? HardMaxFunctions))
    (PlainError "gateway function limit is outside v1 bounds") ;;;
  fail_if (elapsed <? 0) (PlainError "gateway monotonic clock returned negative elapsed time") ;;;
  Ok {| st_maxStale := maxStale; st_maxFunctions := maxFunctions; st_functions := ∅;
        st_position := {| ep_epoch := 0; ep_sequence := 0; ep_fingerprint := "" |};
        st_fullSynced := false; st_needsFullSync := true; st_watchConnected := false;
        st_lastElapsed := elapsed; st_clockHealthy := true |}.

(** ** Field assignments *)
Definition set_needs (s : Store) : Store :=
  {| st_maxStale := st_maxStale s; st_maxFunctions := st_maxFunctions s; st_functions := st_functions s;
     st_position := st_position s; st_fullSynced := st_fullSynced s; st_needsFullSync := true;
     st_watchConnected := st_watchConnected s; st_lastElapsed := st_lastElapsed s; st_clockHealthy := st_clockHealthy s |}.
Definition set_connected (s : Store) (connected : bool) : Store :=
  {| st_maxStale := st_maxStale s; st_maxFunctions := st_maxFunctions s; st_functions := st_functions s;
     st_position := st_position s; st_fullSynced := st_fullSynced s; st_needsFullSync := st_needsFullSync s;
     st_watchConnected := connected; st_lastElapsed := st_lastElapsed s; st_clockHealthy := st_clockHealthy s |}.
Definition set_functions (s : Store) (functions : gmap string functionRecord) : Store :=
  {| st_maxStale := st_maxStale s; st_maxFunctions := st_maxFunctions s; st_functions := functions;
     st_position := st_position s; st_fullSynced := st_fullSynced s; st_needsFullSync := st_needsFullSync s;
     st_watchConnected := st_watchConnected s; st_lastElapsed := st_lastElapsed s; st_clockHealthy := st_clockHealthy s |}.

(** [now] is what [s.clock()] returns. *)
Definition elapsedLocked (now : Z) : M Store Z :=
  let! s := sget in
  if negb (st_clockHealthy s) || (now <? st_lastElapsed s) then
    do! sput {| st_maxStale := st_maxStale s; st_maxFunctions := st_maxFunctions s; st_functions := st_functions s;
                st_position := st_position s; st_fullSynced := st_fullSynced s; st_needsFullSync := true;
                st_watchConnected := st_watchConnected s; st_lastElapsed := st_lastElapsed s;
                st_clockHealthy := false |} in
    sthrow (classified CodeControlPlaneStale "gateway monotonic clock is unhealthy")
  else
    do! sput {| st_maxStale := st_maxStale s; st_maxFunctions := st_maxFunctions s; st_functions := st_functions s;
                st_position := st_position s; st_fullSynced := st_fullSynced s; st_needsFullSync := st_needsFullSync s;
                st_watchConnected := st_watchConnected s; st_lastElapsed := now;
                st_clockHealthy := st_clockHealthy s |} in
    sret now.

(** ** Events *)
Definition compareSnapshots (left right : Snapshot) : Z := compareString (sn_FunctionID left) (sn_FunctionID right).

Definition samePosition (event : Event) (position : eventPosition) : bool :=
  (ev_DiscoveryEpoch event =? ep_epoch position) && (ev_ServingSequence event =? ep_sequence position).

Definition sameFunction (left right : Function) : bool := left == right.

Definition sameHTTPTrigger (left right : HTTPTrigger) : bool :=
  if (sg_ID left != sg_ID right) || (sg_FunctionID left != sg_FunctionID right)
     || negb (sg_ResourceRevision left =? sg_ResourceRevision right)
     || negb (Bool.eqb (sg_Enabled left) (sg_Enabled right)) || (sg_AuthPolicy left != sg_AuthPolicy right)
  then false
  else match sg_TokenVerifierDigest left, sg_TokenVerifierDigest right with
       | Some l, Some r => l == r
       | None, None => true
       | _, _ => false
       end.

Definition sameRoute (left right : Route) : bool :=
  Bool.eqb (sr_Present left) (sr_Present right) && (sr_FunctionID left == sr_FunctionID right)
  && (sr_ResourceRevision left =? sr_ResourceRevision right) && (sr_RouteRevision left =? sr_RouteRevision right)
  && Bool.eqb (sr_Enabled left) (sr_Enabled right) && (sr_Targets left == sr_Targets right)
  && (sr_Affinity left == sr_Affinity right) && (sr_AffinityHeader left == sr_AffinityHeader right)
  && (sr_HashVersion left == sr_HashVersion right) && (sr_SaltID left == sr_SaltID right)
  && (sr_Salt left == sr_Salt right).

Definition revisionsDoNotRegress (current next : Snapshot) : result unit :=
  let cf := sn_Function current in let nf := sn_Function next in
  let ct := sn_Trigger current in let nt := sn_Trigger next in
  let cr := sn_Route current in let nr := sn_Route next in
  fail_if ((sf_ResourceRevision nf <? sf_ResourceRevision cf) || (sg_ResourceRevision nt <? sg_ResourceRevision ct))
    (classified CodeStaleGeneration "function or trigger resource revision regressed") ;;;
  fail_if ((sf_ResourceRevision nf =? sf_ResourceRevision cf) && negb (sameFunction cf nf))
    (classified CodeStaleGeneration "function content changed without a resource revision") ;;;
  fail_if ((sg_ResourceRevision nt =? sg_ResourceRevision ct) && negb (sameHTTPTrigger ct nt))
    (classified CodeStaleGeneration "http trigger content changed without a resource revision") ;;;
  fail_if (sr_Present cr && negb (sr_Present nr))
    (classified CodeStaleGeneration "an existing route cannot disappear from an incremental snapshot") ;;;
  fail_if (sr_Present cr && sr_Present nr
           && ((sr_ResourceRevision nr <? sr_ResourceRevision cr) || (sr_RouteRevision nr <? sr_RouteRevision cr)))
    (classified CodeStaleGeneration "route revision regressed") ;;;
  fail_if (sr_Present cr && sr_Present nr && (sr_ResourceRevision nr =? sr_ResourceRevision cr)
           && (sr_RouteRevision nr =? sr_RouteRevision cr) && negb (sameRoute cr nr))
    (classified CodeStaleGeneration "route content changed without a resource or route revision").

(** The loop over the previous suppressions' Endpoints. *)
Definition retain (previous : gmap string AssignmentIdentity) (retained : gmap string AssignmentIdentity)
    (e : Endpoint) : gmap string AssignmentIdentity :=
  match previous !! ai_AssignmentID (en_Assignment e) with
  | Some identity => if identity == en_Assignment e then <[ai_AssignmentID identity := identity]> retained else retained
  | None => retained
  end.
Definition retainedSuppressions (previous : gmap string AssignmentIdentity) (l : list Endpoint)
    : gmap string AssignmentIdentity :=
  if Z.of_nat (size previous) =? 0 then ∅ else foldl (retain previous) ∅ l.

Definition suppressed_in (suppressed : gmap string AssignmentIdentity) (e : Endpoint) : bool :=
  match suppressed !! ai_AssignmentID (en_Assignment e) with
  | Some identity => identity == en_Assignment e
  | None => false
  end.

Definition visibleSnapshot (record : functionRecord) : View :=
  let l := endpoints (fr_snapshot record) in
  {| vw_Snapshot := fr_snapshot record;
     vw_Endpoints := if Z.of_nat (size (fr_suppressed record)) =? 0 then l
                     else List.filter (fun e => negb (suppressed_in (fr_suppressed record) e)) l |}.

Definition usableLocked (s : Store) (record : functionRecord) (now : Z) : bool :=
  if st_maxStale s =? 0 then st_watchConnected s
  else (now >=? fr_receivedAt record) && (now - fr_receivedAt record <? st_maxStale s).

Section store.
Context `{JCS}.

Definition eventFingerprint (event : Event) : result string :=
  let item s := JObject [("function_id", JString (sn_FunctionID s)); ("checksum", JString (sn_Checksum s))]%string in
  CanonicalJSON "serving-watch-event" "v1"
    (json.Marshal (JObject [("full", JBool (ev_Full event)); ("discovery_epoch", JInt (ev_DiscoveryEpoch event));
                            ("serving_sequence", JInt (ev_ServingSequence event));
                            ("snapshots", JArray (map item (ev_Snapshots event)))]%string)).

(** The loop of [normalizeEvent]. *)
Fixpoint check_snapshots (event : Event) (seen : gset string) (l : list Snapshot) : result unit :=
  match l with
  | [] => Ok tt
  | s :: l' =>
    fail_if (negb (sn_DiscoveryEpoch s =? ev_DiscoveryEpoch event)
             || negb (sn_ServingSequence s =? ev_ServingSequence event))
      (Invalid "serving_event" "snapshot position does not match the event") ;;;
    Snapshot_Validate s ;;;
    fail_if (bool_decide (sn_FunctionID s ∈ seen)) (Invalid "serving_event" "contains a duplicate Function snapshot") ;;;
    check_snapshots event ({[ sn_FunctionID s ]} ∪ seen) l'
  end.

Definition sorted_event (event : Event) : Event :=
  {| ev_Full := ev_Full event; ev_DiscoveryEpoch := ev_DiscoveryEpoch event;
     ev_ServingSequence := ev_ServingSequence event;
     ev_Snapshots := SortFunc compareSnapshots (ev_Snapshots event) |}.

Definition normalizeEvent (event : Event) (maxFunctions : Z) : result (Event * string) :=
  fail_if ((ev_DiscoveryEpoch event =? 0) || (ev_ServingSequence event =? 0))
    (Invalid "serving_event" "epoch and sequence must be greater than zero") ;;;
  fail_if (len (ev_Snapshots event) >? maxFunctions)
    (Invalid "serving_event" "contains too many Function snapshots") ;;;
  fail_if (negb (ev_Full event) && negb (len (ev_Snapshots event) =? 1))
    (Invalid "serving_event" "an incremental event must contain exactly one Function snapshot") ;;;
  check_snapshots event ∅ (ev_Snapshots event) ;;;
  let normalized := sorted_event event in
  fingerprint <- eventFingerprint normalized ;;
  Ok (normalized, fingerprint).

Fixpoint check_revisions (functions : gmap string functionRecord) (l : list Snapshot) : result unit :=
  match l with
  | [] => Ok tt
  | s :: l' =>
    match functions !! sn_FunctionID s with
    | Some current => revisionsDoNotRegress (fr_snapshot current) s
    | None => Ok tt
    end ;;;
    check_revisions functions l'
  end.

Definition record_for (functions : gmap string functionRecord) (now : Z) (s : Snapshot) : functionRecord :=
  {| fr_snapshot := s; fr_receivedAt := now;
     fr_suppressed := retainedSuppressions (default ∅ (fr_suppressed <$> functions !! sn_FunctionID s)) (endpoints s) |}.

(** The second loop of [applyFullLocked]. *)
Definition full_view (functions : gmap string functionRecord) (now : Z) (l : list Snapshot) : gmap string functionRecord :=
  foldl (fun next s => <[sn_FunctionID s := record_for functions now s]> next) ∅ l.

Definition applied (s : Store) (functions : gmap string functionRecord) (event : Event) (fingerprint : string)
    (fullSynced needsFullSync : bool) : Store :=
  {| st_maxStale := st_maxStale s; st_maxFunctions := st_maxFunctions s; st_functions := functions;
     st_position := {| ep_epoch := ev_DiscoveryEpoch event; ep_sequence := ev_ServingSequence event;
                       ep_fingerprint := fingerprint |};
     st_fullSynced := fullSynced; st_needsFullSync := needsFullSync; st_watchConnected := true;
     st_lastElapsed := st_lastElapsed s; st_clockHealthy := st_clockHealthy s |}.

Definition applyFullLocked (clock : Z) (event : Event) (fingerprint : string) : M Store unit :=
  let! s := sget in
  do! slift (fail_if ((ev_DiscoveryEpoch event =? ep_epoch (st_position s))
                      && (ev_ServingSequence event <? ep_sequence (st_position s)))
               (classified CodeStaleGeneration "full sync serving sequence regressed")) in
  do! slift (check_revisions (st_functions s) (ev_Snapshots event)) in
  let! now := elapsedLocked clock in
  let! s := sget in
  sput (applied s (full_view (st_functions s) now (ev_Snapshots event)) event fingerprint true false).

Definition applyIncrementalLocked (clock : Z) (event : Event) (fingerprint : string) : M Store unit :=
  let! s := sget in
  do! slift (fail_if (negb (st_fullSynced s) || st_needsFullSync s)
               (classified CodeControlPlaneStale "gateway requires a complete serving Full Sync")) in
  if ev_DiscoveryEpoch event >? ep_epoch (st_position s) then
    do! sput (set_needs s) in
    sthrow (classified CodeControlPlaneStale "a higher discovery epoch requires Full Sync")
  else
  do! slift (fail_if (ev_ServingSequence event <=? ep_sequence (st_position s))
               (classified CodeStaleGeneration "serving sequence regressed")) in
  if (ep_sequence (st_position s) =? maxUint64)
     || negb (ev_ServingSequence event =? u64 (ep_sequence (st_position s) + 1)) then
    do! sput (set_needs s) in
    sthrow (classified CodeControlPlaneStale "serving sequence gap requires Full Sync")
  else
  match ev_Snapshots event with
  | [] => sthrow (PlainError "index out of range")
  | snapshot :: _ =>
    do! slift (match st_functions s !! sn_FunctionID snapshot with
               | Some current => revisionsDoNotRegress (fr_snapshot current) snapshot
               | None => fail_if (Z.of_nat (size (st_functions s)) >=? st_maxFunctions s)
                           (classified CodeOverloaded "gateway function serving cache is full")
               end) in
    let! now := elapsedLocked clock in
    let! s := sget in
    sput (applied s (<[sn_FunctionID snapshot := record_for (st_functions s) now snapshot]> (st_functions s))
            event fingerprint (st_fullSynced s) (st_needsFullSync s))
  end.

(** The clock is read only after every other check. *)
Definition Apply (clock : Z) (event : Event) : M Store unit :=
  let! s := sget in
  let! normalized := slift (normalizeEvent event (st_maxFunctions s)) in
  let '(event, fingerprint) := normalized in
  do! slift (fail_if (negb (st_clockHealthy s))
               (classified CodeControlPlaneStale "gateway monotonic clock is unhealthy")) in
  do! slift (fail_if (ev_DiscoveryEpoch event <? ep_epoch (st_position s))
               (classified CodeStaleGeneration "serving discovery epoch regressed")) in
  if samePosition event (st_position s) then
    slift (fail_if (fingerprint != ep_fingerprint (st_position s))
             (classified CodeStaleGeneration "serving watch position was reused with different content"))
  else if ev_Full event then applyFullLocked clock event fingerprint
  else applyIncrementalLocked clock event fingerprint.

Definition SetWatchConnected (connected : bool) (s : Store) : Store := set_connected s connected.

Definition Lookup (clock : Z) (functionID : string) : M Store View :=
  do! slift (fail_if (negb (idPattern functionID)) (Invalid "function_id" "must be a valid identifier")) in
  let! now := elapsedLocked clock in
  let! s := sget in
  do! slift (fail_if (negb (st_fullSynced s) || st_needsFullSync s)
               (classified CodeControlPlaneStale "gateway serving view requires Full Sync")) in
  match st_functions s !! functionID with
  | None => sthrow (classified CodeNotFound "function serving snapshot was not found")
  | Some record =>
    do! slift (fail_if (negb (usableLocked s record now))
                 (classified CodeControlPlaneStale "function serving snapshot is stale")) in
    sret (visibleSnapshot record)
  end.

(** The loop of [LookupAll], in the order of the map iteration. *)
Fixpoint collect_views (s : Store) (now : Z) (l : list functionRecord) : result (list View) :=
  match l with
  | [] => Ok []
  | record :: l' =>
    fail_if (negb (usableLocked s record now))
      (classified CodeControlPlaneStale "gateway serving view contains a stale function") ;;;
    rest <- collect_views s now l' ;;
    Ok (visibleSnapshot record :: rest)
  end.
Definition compareViews (left right : View) : Z := compareSnapshots (vw_Snapshot left) (vw_Snapshot right).

Definition LookupAll_in (order : gmap string functionRecord -> list (string * functionRecord)) (clock : Z)
    : M Store (list View) :=
  let! now := elapsedLocked clock in
  let! s := sget in
  do! slift (fail_if (negb (st_fullSynced s) || st_needsFullSync s)
               (classified CodeControlPlaneStale "gateway serving view requires Full Sync")) in
  let! views := slift (collect_views s now (map snd (order (st_functions s)))) in
  sret (SortFunc compareViews views).
Definition LookupAll : Z -> M Store (list View) := LookupAll_in map_to_list.

(** The loop of [SuppressEndpoint] stops at the first Endpoint with the ID. *)
Fixpoint suppress_in (record : functionRecord) (assignment : AssignmentIdentity) (l : list Endpoint)
    : result functionRecord :=
  match l with
  | [] => Err (classified CodeStaleAssignment "endpoint failure does not match an authoritative endpoint")
  | e :: l' =>
    if ai_AssignmentID (en_Assignment e) != ai_AssignmentID assignment then suppress_in record assignment l'
    else
      fail_if (en_Assignment e != assignment) (classified CodeStaleAssignment "endpoint failure fence is stale") ;;;
      Ok {| fr_snapshot := fr_snapshot record; fr_receivedAt := fr_receivedAt record;
            fr_suppressed := <[ai_AssignmentID assignment := assignment]> (fr_suppressed record) |}
  end.

Definition SuppressEndpoint (functionID : string) (assignment : AssignmentIdentity) : M Store unit :=
  do! slift (fail_if (negb (idPattern functionID)) (Invalid "function_id" "must be a valid identifier")) in
  do! slift (AssignmentIdentity_validate assignment) in
  let! s := sget in
  match st_functions s !! functionID with
  | None => sthrow (classified CodeNotFound "function serving snapshot was not found")
  | Some record =>
    let! suppressed := slift (suppress_in record assignment (endpoints (fr_snapshot record))) in
    sput (set_functions s (<[functionID := suppressed]> (st_functions s)))
  end.

Definition StatusOf (s : Store) : Status :=
  {| su_DiscoveryEpoch := ep_epoch (st_position s); su_ServingSequence := ep_sequence (st_position s);
     su_Functions := Z.of_nat (size (st_functions s)); su_FullSynced := st_fullSynced s;
     su_NeedsFullSync := st_needsFullSync s; su_WatchConnected := st_watchConnected s;
     su_ClockHealthy := st_clockHealthy s |}.

(** ** What an operation leaves alone *)
Record kept (s s' : Store) : Prop := {
  kp_maxStale : st_maxStale s' = st_maxStale s;
  kp_maxFunctions : st_maxFunctions s' = st_maxFunctions s;
  kp_functions : st_functions s' = st_functions s;
  kp_position : st_position s' = st_position s;
  kp_fullSynced : st_fullSynced s' = st_fullSynced s;
  kp_connected : st_watchConnected s' = st_watchConnected s;
  kp_needs : st_needsFullSync s = true -> st_needsFullSync s' = true;
  kp_elapsed : st_lastElapsed s <= st_lastElapsed s';
  kp_clock : st_clockHealthy s = false -> st_clockHealthy s' = false;
}.

#[local] Instance kept_refl : Reflexive kept.
Proof. intros s. by split. Qed.

Lemma set_needs_kept s : kept s (set_needs s).
Proof. by split. Qed.

(** A store whose clock has been read as [now]. *)
Definition ticked (s : Store) (now : Z) : Store :=
  {| st_maxStale := st_maxStale s; st_maxFunctions := st_maxFunctions s; st_functions := st_functions s;
     st_position := st_position s; st_fullSynced := st_fullSynced s; st_needsFullSync := st_needsFullSync s;
     st_watchConnected := st_watchConnected s; st_lastElapsed := now; st_clockHealthy := st_clockHealthy s |}.

Definition clock_ok (s : Store) (now : Z) : bool := st_clockHealthy s && (st_lastElapsed s <=? now).

Definition clock_failed (s : Store) : Store :=
  {| st_maxStale := st_maxStale s; st_maxFunctions := st_maxFunctions s; st_functions := st_functions s;
     st_position := st_position s; st_fullSynced := st_fullSynced s; st_needsFullSync := true;
     st_watchConnected := st_watchConnected s; st_lastElapsed := st_lastElapsed s; st_clockHealthy := false |}.

Lemma elapsedLocked_run now s :
  elapsedLocked now s =
  if clock_ok s now then (ticked s now, Ok now)
  else (clock_failed s, Err (classified CodeControlPlaneStale "gateway monotonic clock is unhealthy")).
Proof.
  unfold elapsedLocked, sbind, sget, sput, sret, sthrow, clock_ok, ticked, clock_failed.
  destruct (st_clockHealthy s); simpl; [|done]. rewrite Z.ltb_antisym. by destruct (_ <=? _).
Qed.

Lemma ticked_kept s now : clock_ok s now = true -> kept s (ticked s now).
Proof. unfold clock_ok. intros [_ Hle]%andb_true_iff. go_cases. split; simpl; try done; lia. Qed.
Lemma clock_failed_kept s : kept s (clock_failed s).
Proof. by split. Qed.

(** ** Events *)
Record well_formed (event : Event) (maxFunctions : Z) : Prop := {
  wf_epoch : ev_DiscoveryEpoch event <> 0;
  wf_sequence : ev_ServingSequence event <> 0;
  wf_size : len (ev_Snapshots event) <= maxFunctions;
  wf_single : ev_Full event = false -> length (ev_Snapshots event) = 1%nat;
  wf_snapshots : Forall (fun s => sn_DiscoveryEpoch s = ev_DiscoveryEpoch event /\
                    sn_ServingSequence s = ev_ServingSequence event /\ Snapshot_Validate s = Ok tt) (ev_Snapshots event);
  wf_NoDup : NoDup (sn_FunctionID <$> ev_Snapshots event);
}.

Lemma check_snapshots_spec event seen l :
  check_snapshots event seen l = Ok tt <->
  Forall (fun s => sn_DiscoveryEpoch s = ev_DiscoveryEpoch event /\
            sn_ServingSequence s = ev_ServingSequence event /\ Snapshot_Validate s = Ok tt) l /\
  NoDup (sn_FunctionID <$> l) /\ (forall s, s ∈ l -> sn_FunctionID s ∉ seen).
Proof.
  revert seen. induction l as [|s l IH]; intros seen; cbn [check_snapshots].
  { split; [|done]. intros _. split_and!; [constructor|constructor|set_solver]. }
  rewrite Forall_cons, fmap_cons, NoDup_cons. generalize (Snapshot_Validate s) as v. intros v.
  destruct (sn_DiscoveryEpoch s =? _) eqn:E1; cbn [negb orb fail_if rbind]; go_cases; [|naive_solver].
  destruct (sn_ServingSequence s =? _) eqn:E2; cbn [negb orb fail_if rbind]; go_cases; [|naive_solver].
  destruct v as [[]|]; cbn [rbind]; [|naive_solver].
  destruct (decide (sn_FunctionID s ∈ seen)) as [Hin|Hout].
  { rewrite bool_decide_eq_true_2 by done. split; [done|]. intros (_ & _ & Hs). destruct (Hs s); [by left|done]. }
  rewrite bool_decide_eq_false_2 by done. cbn [fail_if rbind]. rewrite IH. split.
  - intros (Hv & Hnd & Hs). split_and!; try done.
    + intros (s' & He & Hin)%list_elem_of_fmap. specialize (Hs _ Hin). set_solver.
    + intros s' [->|Hin]%elem_of_cons; [done|]. specialize (Hs _ Hin). set_solver.
  - intros ([_ Hv] & [Hn Hnd] & Hs). split_and!; try done. intros s' Hin. apply not_elem_of_union.
    split; [|apply Hs; by right]. rewrite not_elem_of_singleton. intros E. apply Hn, list_elem_of_fmap. by exists s'.
Qed.

Lemma normalizeEvent_spec event maxFunctions normalized fingerprint :
  normalizeEvent event maxFunctions = Ok (normalized, fingerprint) <->
  well_formed event maxFunctions /\ normalized = sorted_event event /\
  eventFingerprint (sorted_event event) = Ok fingerprint.
Proof.
  unfold normalizeEvent. split.
  - intros Hn. apply rbind_Ok in Hn as ([] & H1%fail_if_Ok & Hn). apply rbind_Ok in Hn as ([] & H2%fail_if_Ok & Hn).
    apply rbind_Ok in Hn as ([] & H3%fail_if_Ok & Hn). apply rbind_Ok in Hn as ([] & H4 & Hn).
    apply rbind_Ok in Hn as (fp & Hfp & [= <- <-]). apply check_snapshots_spec in H4 as (Hv & Hnd & _).
    split_and!; [|done|done]. go_cases. split; try done.
    intros E. destruct H3 as [?|?]; [congruence|]. unfold len in *. go_cases. lia.
  - intros ([H1 H2 H3 H4 H5 H6] & -> & Hfp). rewrite (proj2 (Z.eqb_neq _ _) H1), (proj2 (Z.eqb_neq _ _) H2).
    rewrite Z.gtb_ltb, (proj2 (Z.ltb_ge _ _) H3). cbn [orb fail_if rbind].
    assert (negb (ev_Full event) && negb (len (ev_Snapshots event) =? 1) = false) as ->.
    { destruct (ev_Full event); [done|]. unfold len. by rewrite H4. }
    cbn [fail_if rbind]. rewrite (proj2 (check_snapshots_spec event ∅ (ev_Snapshots event))) by (split_and!; [done|done|set_solver]).
    cbn [rbind]. rewrite Hfp. done.
Qed.

(** ** Acceptance *)
Definition put_record (functions : gmap string functionRecord) (now : Z) (next : gmap string functionRecord)
    (s : Snapshot) : gmap string functionRecord := <[sn_FunctionID s := record_for functions now s]> next.

Definition accepted (s : Store) (now : Z) (event : Event) (fingerprint : string) : Store :=
  applied (ticked s now)
    (foldl (put_record (st_functions s) now) (if ev_Full event then ∅ else st_functions s)
       (SortFunc compareSnapshots (ev_Snapshots event)))
    event fingerprint true false.

Definition newer (event : Event) (position : eventPosition) : Prop :=
  ep_epoch position < ev_DiscoveryEpoch event \/
  (ep_epoch position = ev_DiscoveryEpoch event /\ ep_sequence position < ev_ServingSequence event).
Definition follows (event : Event) (position : eventPosition) : Prop :=
  ev_DiscoveryEpoch event = ep_epoch position /\ ev_ServingSequence event = ep_sequence position + 1.

Definition revisions_ok (s : Store) (event : Event) : Prop :=
  forall snapshot current, snapshot ∈ ev_Snapshots event -> st_functions s !! sn_FunctionID snapshot = Some current ->
    revisionsDoNotRegress (fr_snapshot current) snapshot = Ok tt.
Definition fits (s : Store) (event : Event) : Prop :=
  forall snapshot, snapshot ∈ ev_Snapshots event -> st_functions s !! sn_FunctionID snapshot = None ->
    Z.of_nat (size (st_functions s)) < st_maxFunctions s.

(** When an event at a new position is accepted. *)
Record accepts (s : Store) (now : Z) (event : Event) : Prop := {
  ac_clock : clock_ok s now = true;
  ac_revisions : revisions_ok s event;
  ac_position : if ev_Full event then newer event (st_position s)
                else follows event (st_position s) /\ ep_sequence (st_position s) < maxUint64 /\
                     st_fullSynced s = true /\ st_needsFullSync s = false /\ fits s event;
}.

Lemma check_revisions_spec functions l :
  check_revisions functions l = Ok tt <->
  forall snapshot current, snapshot ∈ l -> functions !! sn_FunctionID snapshot = Some current ->
    revisionsDoNotRegress (fr_snapshot current) snapshot = Ok tt.
Proof.
  induction l as [|s l IH]; cbn [check_revisions]; [set_solver|]. rewrite rbind_Ok. split.
  - intros ([] & Hs & Hl) s' current [->|Hin]%elem_of_cons Hc; [by rewrite Hc in Hs|]. by apply (proj1 IH Hl s').
  - intros Hall. exists tt. split.
    + destruct (functions !! sn_FunctionID s) as [current|] eqn:E; [|done]. by apply (Hall s current); [left|].
    + apply IH. intros s' current Hin. apply Hall. by right.
Qed.

Lemma revisions_ok_sorted s event :
  revisions_ok s event <-> check_revisions (st_functions s) (SortFunc compareSnapshots (ev_Snapshots event)) = Ok tt.
Proof. rewrite check_revisions_spec. unfold revisions_ok. by setoid_rewrite elem_of_SortFunc. Qed.

Lemma applyFullLocked_run now event fingerprint s :
  ep_epoch (st_position s) <= ev_DiscoveryEpoch event -> samePosition event (st_position s) = false ->
  ev_Full event = true ->
  match applyFullLocked now (sorted_event event) fingerprint s with
  | (s', Ok _) => accepts s now event /\ s' = accepted s now event fingerprint
  | (s', Err _) => ~ accepts s now event /\ kept s s'
  end.
Proof.
  intros Hge Hsame Hfull. unfold applyFullLocked, sbind, sget, slift, sput.
  cbn [sorted_event ev_DiscoveryEpoch ev_ServingSequence ev_Snapshots].
  destruct (_ && _) eqn:Hold; cbv beta iota delta [fail_if].
  { split; [|reflexivity]. intros [_ _ Hp]. rewrite Hfull in Hp. unfold newer in Hp. go_cases. lia. }
  assert (newer event (st_position s)) as Hnew.
  { unfold newer. unfold samePosition in Hsame. apply andb_false_iff in Hold, Hsame. go_cases. lia. }
  destruct (check_revisions _ _) as [[]|] eqn:Hrev; cbv beta iota.
  2:{ split; [|reflexivity]. intros [_ Hr _]. apply revisions_ok_sorted in Hr. congruence. }
  rewrite elapsedLocked_run. destruct (clock_ok s now) eqn:Hc; cbv beta iota.
  - split; [|unfold accepted; by rewrite Hfull]. split; [done|by apply revisions_ok_sorted|by rewrite Hfull].
  - split; [|apply clock_failed_kept]. intros [Hc' _ _]. congruence.
Qed.

Definition admits (s : Store) (snapshot : Snapshot) : result unit :=
  match st_functions s !! sn_FunctionID snapshot with
  | Some current => revisionsDoNotRegress (fr_snapshot current) snapshot
  | None => fail_if (Z.of_nat (size (st_functions s)) >=? st_maxFunctions s)
              (classified CodeOverloaded "gateway function serving cache is full")
  end.

Lemma accepts_incremental s now event snapshot :
  ev_Full event = false -> ev_Snapshots event = [snapshot] ->
  accepts s now event <->
  clock_ok s now = true /\ follows event (st_position s) /\ ep_sequence (st_position s) < maxUint64 /\
  st_fullSynced s = true /\ st_needsFullSync s = false /\ admits s snapshot = Ok tt.
Proof.
  intros Hfull Hsingle. unfold admits. split.
  - intros [Hc Hr Hp]. rewrite Hfull in Hp. destruct Hp as (H1 & H2 & H3 & H4 & H5). split_and!; try done.
    unfold revisions_ok, fits in *. rewrite Hsingle in *. specialize (H5 snapshot ltac:(by left)).
    destruct (st_functions s !! sn_FunctionID snapshot) as [current|] eqn:E; [apply Hr; [by left|done]|].
    rewrite fail_if_Ok, Z.geb_leb. apply Z.leb_gt. by apply H5.
  - intros (Hc & H1 & H2 & H3 & H4 & H5). split; [done| |rewrite Hfull; split_and!; try done];
      unfold revisions_ok, fits; rewrite Hsingle; [intros s' current|intros s'];
      rewrite list_elem_of_singleton; intros -> E; rewrite E in H5; [done|].
    apply fail_if_Ok in H5. go_cases. lia.
Qed.

Lemma applyIncrementalLocked_run now event snapshot fingerprint s :
  ep_epoch (st_position s) <= ev_DiscoveryEpoch event -> 0 <= ep_sequence (st_position s) ->
  ev_Full event = false -> ev_Snapshots event = [snapshot] ->
  match applyIncrementalLocked now (sorted_event event) fingerprint s with
  | (s', Ok _) => accepts s now event /\ s' = accepted s now event fingerprint
  | (s', Err _) => ~ accepts s now event /\ kept s s'
  end.
Proof.
  intros Hge Hpos Hfull Hsingle. pose proof (accepts_incremental s now event snapshot Hfull Hsingle) as Hacc.
  unfold applyIncrementalLocked, sbind, sget, slift, sput, sthrow.
  cbn [sorted_event ev_DiscoveryEpoch ev_ServingSequence ev_Snapshots]. rewrite Hsingle.
  change (SortFunc compareSnapshots [snapshot]) with [snapshot]. cbv beta iota. fold (admits s snapshot). unfold fail_if.
  destruct (st_fullSynced s) eqn:Hf; cbn [negb orb]; cbv beta iota; [|rewrite Hacc; split; [naive_solver|reflexivity]].
  destruct (st_needsFullSync s) eqn:Hn; cbv beta iota; [rewrite Hacc; split; [naive_solver|reflexivity]|].
  destruct (ev_DiscoveryEpoch event >? _) eqn:Hep; cbv beta iota; go_cases.
  { rewrite Hacc; split; [intros (_ & [E _] & _); lia|apply set_needs_kept]. }
  destruct (ev_ServingSequence event <=? _) eqn:Hle; cbv beta iota; go_cases.
  { rewrite Hacc; split; [intros (_ & [_ E] & _); lia|reflexivity]. }
  destruct ((ep_sequence (st_position s) =? maxUint64) || _) eqn:Hgap; cbv beta iota.
  { rewrite Hacc. split; [|apply set_needs_kept]. intros (_ & [_ E] & Hlt & _). unfold maxUint64 in *.
    rewrite E, u64_small in Hgap by (unfold is_u64; lia). go_cases. lia. }
  go_cases. pose proof (u64_range (ep_sequence (st_position s) + 1)) as Hr. unfold is_u64, maxUint64 in *.
  assert (u64 (ep_sequence (st_position s) + 1) = ep_sequence (st_position s) + 1) as Hu
    by (apply u64_small; unfold is_u64; lia).
  destruct (admits s snapshot) as [[]|]; cbv beta iota; [|rewrite Hacc; split; [naive_solver|reflexivity]].
  rewrite elapsedLocked_run. destruct (clock_ok s now) eqn:Hc; cbv beta iota.
  - rewrite Hacc; split; [unfold follows; split_and!; (done || lia)|]. unfold accepted. rewrite Hfull, Hsingle. unfold ticked. by rewrite Hf, Hn.
  - rewrite Hacc; split; [naive_solver|apply clock_failed_kept].
Qed.

(** Every outcome of [Apply]. *)
Lemma Apply_run now event s :
  0 <= ep_sequence (st_position s) ->
  match Apply now event s with
  | (s', Ok _) =>
    well_formed event (st_maxFunctions s) /\ st_clockHealthy s = true /\
    exists fingerprint, eventFingerprint (sorted_event event) = Ok fingerprint /\
      ((samePosition event (st_position s) = true /\ fingerprint = ep_fingerprint (st_position s) /\ s' = s) \/
       (samePosition event (st_position s) = false /\ ep_epoch (st_position s) <= ev_DiscoveryEpoch event /\
        accepts s now event /\ s' = accepted s now event fingerprint))
  | (s', Err _) =>
    kept s s' /\
    ~ (exists fingerprint, well_formed event (st_maxFunctions s) /\ eventFingerprint (sorted_event event) = Ok fingerprint /\
       st_clockHealthy s = true /\ ep_epoch (st_position s) <= ev_DiscoveryEpoch event /\
       (if samePosition event (st_position s) then fingerprint = ep_fingerprint (st_position s) else accepts s now event))
  end.
Proof.
  intros Hpos. unfold Apply. unfold sbind at 1 2. unfold sget, slift at 1.
  destruct (normalizeEvent event (st_maxFunctions s)) as [[normalized fingerprint]|] eqn:Hn; cbv beta iota.
  2:{ split; [reflexivity|]. intros (fp & Hw & Hfp & _).
      rewrite (proj2 (normalizeEvent_spec event (st_maxFunctions s) (sorted_event event) fp)) in Hn by done. done. }
  apply normalizeEvent_spec in Hn as (Hw & -> & Hfp). unfold sbind, slift.
  destruct (st_clockHealthy s) eqn:Hh; cbv beta iota delta [fail_if negb]; [|split; [reflexivity|naive_solver]].
  change (ev_DiscoveryEpoch (sorted_event event)) with (ev_DiscoveryEpoch event).
  destruct (ev_DiscoveryEpoch event <? _) eqn:He; cbv beta iota; go_cases; [split; [reflexivity|intros (_ & _ & _ & _ & ? & _); lia]|].
  change (samePosition (sorted_event event) (st_position s)) with (samePosition event (st_position s)).
  destruct (samePosition event (st_position s)) eqn:Hs; cbv beta iota.
  { case_bool_decide as Hfe; cbv beta iota delta [negb]; [naive_solver|]. split; [reflexivity|naive_solver congruence]. }
  change (ev_Full (sorted_event event)) with (ev_Full event). destruct (ev_Full event) eqn:Hfull.
  - pose proof (applyFullLocked_run now event fingerprint s He Hs Hfull) as Hrun.
    destruct (applyFullLocked _ _ _ _) as [s' [?|?]]; naive_solver.
  - destruct (ev_Snapshots event) as [|snapshot [|? ?]] eqn:Hl; try (by specialize (wf_single _ _ Hw Hfull); rewrite Hl).
    pose proof (applyIncrementalLocked_run now event snapshot fingerprint s He Hpos Hfull Hl) as Hrun.
    destruct (applyIncrementalLocked _ _ _ _) as [s' [?|?]]; naive_solver.
Qed.

(** ** The published view *)
Definition snapshots_of (s : Store) : gmap string Snapshot := fr_snapshot <$> st_functions s.

Definition put_snapshot (view : gmap string Snapshot) (s : Snapshot) : gmap string Snapshot := <[sn_FunctionID s := s]> view.
(** What an event says the view becomes. *)
Definition install (view : gmap string Snapshot) (event : Event) : gmap string Snapshot :=
  foldl put_snapshot (if ev_Full event then ∅ else view) (ev_Snapshots event).

Lemma put_snapshot_lookup l view k v :
  NoDup (sn_FunctionID <$> l) ->
  foldl put_snapshot view l !! k = Some v <->
  (v ∈ l /\ sn_FunctionID v = k) \/ (~ (k ∈ sn_FunctionID <$> l) /\ view !! k = Some v).
Proof.
  revert view. induction l as [|s l IH]; intros view Hnd; cbn [foldl]; [set_solver|].
  rewrite fmap_cons in *. apply NoDup_cons in Hnd as [Hn Hnd]. rewrite IH by done. unfold put_snapshot.
  rewrite not_elem_of_cons, elem_of_cons. destruct (decide (k = sn_FunctionID s)) as [->|Hk].
  - rewrite lookup_insert_eq. split.
    + intros [[Hv Hi]|[_ [= ->]]]; left; auto.
    + intros [[[->|Hv] Hi]|[[? _] _]]; [right; auto|left; auto|done].
  - rewrite lookup_insert_ne by done. split.
    + intros [[Hv Hi]|[? ?]]; [left|right]; auto.
    + intros [[[->|Hv] Hi]|[[_ ?] ?]]; [done|left; auto|right; auto].
Qed.

Lemma put_snapshot_Permutation l l' view :
  NoDup (sn_FunctionID <$> l) -> l ≡ₚ l' -> foldl put_snapshot view l = foldl put_snapshot view l'.
Proof.
  intros Hnd Hp. apply map_eq. intros k. apply option_eq. intros v.
  rewrite !put_snapshot_lookup; [|by rewrite <-Hp|done]. by setoid_rewrite Hp.
Qed.

Lemma put_record_snapshots functions now l next :
  fr_snapshot <$> foldl (put_record functions now) next l = foldl put_snapshot (fr_snapshot <$> next) l.
Proof.
  revert next. induction l as [|s l IH]; intros next; simpl; [done|]. rewrite IH. unfold put_record. by rewrite fmap_insert.
Qed.

Lemma accepted_snapshots s now event fingerprint :
  NoDup (sn_FunctionID <$> ev_Snapshots event) ->
  snapshots_of (accepted s now event fingerprint) = install (snapshots_of s) event.
Proof.
  intros Hnd. unfold snapshots_of, accepted, install. cbn [applied st_functions]. rewrite put_record_snapshots.
  symmetry. rewrite (put_snapshot_Permutation _ (SortFunc compareSnapshots (ev_Snapshots event))); [|done|by rewrite SortFunc_Permutation].
  by destruct (ev_Full event); rewrite ?fmap_empty.
Qed.

(** ** Histories *)
Inductive gateway_op :=
| OpApply (clock : Z) (event : Event)
| OpLookup (clock : Z) (functionID : string)
| OpLookupAll (clock : Z)
| OpSuppress (functionID : string) (assignment : AssignmentIdentity)
| OpConnected (connected : bool).

Definition gateway_step (s : Store) (op : gateway_op) : Store :=
  match op with
  | OpApply clock event => fst (Apply clock event s)
  | OpLookup clock functionID => fst (Lookup clock functionID s)
  | OpLookupAll clock => fst (LookupAll clock s)
  | OpSuppress functionID assignment => fst (SuppressEndpoint functionID assignment s)
  | OpConnected connected => SetWatchConnected connected s
  end.
Definition gateway_run (s : Store) (ops : list gateway_op) : Store := foldl gateway_step s ops.

Lemma Lookup_kept clock functionID s : kept s (fst (Lookup clock functionID s)).
Proof.
  unfold Lookup, sbind, slift. destruct (fail_if _ _) as [?|?]; [|reflexivity]. cbv beta iota. rewrite elapsedLocked_run.
  destruct (clock_ok s clock) eqn:Hc; cbv beta iota; [|apply clock_failed_kept]. unfold sget, sret, sthrow.
  destruct (fail_if _ _); cbv beta iota; [|by apply ticked_kept].
  destruct (st_functions _ !! _); [|by apply ticked_kept]. destruct (fail_if _ _); by apply ticked_kept.
Qed.

Lemma LookupAll_kept order clock s : kept s (fst (LookupAll_in order clock s)).
Proof.
  unfold LookupAll_in, sbind, slift. rewrite elapsedLocked_run.
  destruct (clock_ok s clock) eqn:Hc; cbv beta iota; [|apply clock_failed_kept]. unfold sget, sret.
  destruct (fail_if _ _); cbv beta iota; [|by apply ticked_kept]. destruct (collect_views _ _ _); by apply ticked_kept.
Qed.

Lemma suppress_in_Ok record assignment l record' :
  suppress_in record assignment l = Ok record' ->
  (exists e, e ∈ l /\ en_Assignment e = assignment) /\
  record' = {| fr_snapshot := fr_snapshot record; fr_receivedAt := fr_receivedAt record;
               fr_suppressed := <[ai_AssignmentID assignment := assignment]> (fr_suppressed record) |}.
Proof.
  induction l as [|e l IH]; simpl; [done|]. case_bool_decide as Hid; simpl.
  - case_bool_decide as Ha; simpl; [|done]. intros [= <-]. split; [|done]. exists e. split; [by left|done].
  - intros Hs. destruct (IH Hs) as ((e' & Hin & He) & ->). split; [|done]. exists e'. split; [by right|done].
Qed.

Lemma SuppressEndpoint_run functionID assignment s :
  (exists err, SuppressEndpoint functionID assignment s = (s, Err err)) \/
  (exists record, st_functions s !! functionID = Some record /\
     (exists e, e ∈ endpoints (fr_snapshot record) /\ en_Assignment e = assignment) /\
     SuppressEndpoint functionID assignment s =
       (set_functions s (<[functionID := {| fr_snapshot := fr_snapshot record; fr_receivedAt := fr_receivedAt record;
            fr_suppressed := <[ai_AssignmentID assignment := assignment]> (fr_suppressed record) |}]> (st_functions s)), Ok tt)).
Proof.
  unfold SuppressEndpoint, sbind, slift, sget, sput, sthrow. destruct (fail_if _ _) as [?|err]; [|left; by exists err].
  destruct (AssignmentIdentity_validate assignment) as [?|err]; [|left; by exists err].
  destruct (st_functions s !! functionID) as [record|]; [|left; by eexists].
  destruct (suppress_in _ _ _) as [record'|err] eqn:Hs; [|left; by exists err]. right. exists record. split; [done|].
  apply suppress_in_Ok in Hs as [He ->]. done.
Qed.

Lemma set_functions_snapshots s functionID record suppressed :
  st_functions s !! functionID = Some record ->
  snapshots_of (set_functions s (<[functionID := {| fr_snapshot := fr_snapshot record; fr_receivedAt := fr_receivedAt record;
     fr_suppressed := suppressed |}]> (st_functions s))) = snapshots_of s.
Proof.
  intros Hl. unfold snapshots_of. cbn [set_functions st_functions]. rewrite fmap_insert. simpl. apply insert_id.
  by rewrite lookup_fmap, Hl.
Qed.

(** ** The Watch stream of a Publisher *)
Definition event_of (p : Publisher) (op : publisher_op) : option Event :=
  match op with
  | OpBuild input =>
    match snd (Publisher_Build input p) with
    | Ok r => Some {| ev_Full := false; ev_DiscoveryEpoch := sn_DiscoveryEpoch (re_Snapshot r);
                      ev_ServingSequence := sn_ServingSequence (re_Snapshot r); ev_Snapshots := [re_Snapshot r] |}
    | Err _ => None
    end
  | OpBuildFull inputs =>
    match snd (BuildFull inputs p) with
    | Ok (results, sequence) => Some {| ev_Full := true; ev_DiscoveryEpoch := fst (Position p);
                                        ev_ServingSequence := sequence; ev_Snapshots := map re_Snapshot results |}
    | Err _ => None
    end
  end.
Fixpoint stream (p : Publisher) (ops : list publisher_op) : list Event :=
  match ops with
  | [] => []
  | op :: ops' => option_list (event_of p op) ++ stream (publisher_step p op) ops'
  end.

(** The Publisher that [NewPublisher] creates for an epoch, and its stream. *)
Definition published (builder : Z -> Builder) (history : Z -> list publisher_op) (epoch : Z) : list Event :=
  stream {| pu_builder := builder epoch; pu_epoch := epoch; pu_sequence := 0 |} (history epoch).

(** The view after the first [n] events of a stream. *)
Definition view_at (log : list Event) (n : nat) : gmap string Snapshot := foldl install ∅ (take n log).

Lemma view_at_S log n event : log !! n = Some event -> view_at log (S n) = install (view_at log n) event.
Proof. intros Hl. unfold view_at. by rewrite (take_S_r _ _ _ Hl), foldl_app. Qed.

Lemma event_of_cases p op :
  is_u64 (pu_sequence p) ->
  match event_of p op with
  | Some event => publisher_step p op = set_sequence p (pu_sequence p + 1) /\ pu_sequence p < maxUint64 /\
      ev_DiscoveryEpoch event = pu_epoch p /\ ev_ServingSequence event = pu_sequence p + 1 /\
      ev_Snapshots event = handed_out p op
  | None => publisher_step p op = p
  end.
Proof.
  intros Hu. destruct op as [input|inputs]; simpl; unfold Publisher_Build, BuildFull, sbind, slift, sget, sput, sret;
    destruct (pu_sequence p =? maxUint64) eqn:E; cbn [fail_if]; try done; go_cases;
    (assert (u64 (pu_sequence p + 1) = pu_sequence p + 1) as -> by (apply u64_small; unfold is_u64, maxUint64 in *; lia)).
  - destruct (Build _ _) as [r|] eqn:Hb; simpl; [|done]. apply Build_position in Hb as (He & Hs & _).
    unfold is_u64, maxUint64 in *. split_and!; try done; lia.
  - destruct (build_all _ _ _ _) as [rs|] eqn:Hb; simpl; [|done]. unfold is_u64, maxUint64 in *. split_and!; try done; lia.
Qed.

Lemma stream_lookup ops p i event :
  is_u64 (pu_sequence p) -> stream p ops !! i = Some event ->
  ev_DiscoveryEpoch event = pu_epoch p /\ ev_ServingSequence event = pu_sequence p + Z.of_nat i + 1.
Proof.
  revert p i. induction ops as [|op ops IH]; intros p i Hu; simpl; [done|].
  pose proof (event_of_cases p op Hu) as Hc. destruct (event_of p op) as [event'|]; simpl; [|rewrite Hc; by apply IH].
  destruct Hc as (Hstep & Hlt & He & Hs & _). destruct i as [|i]; simpl.
  - intros [= <-]. split; [done|lia].
  - rewrite Hstep. intros Hi%IH; [simpl in Hi; lia|]. unfold is_u64, maxUint64 in *. simpl. lia.
Qed.

Lemma published_lookup builder history epoch event :
  event ∈ published builder history epoch ->
  exists n, published builder history epoch !! n = Some event /\
    ev_DiscoveryEpoch event = epoch /\ ev_ServingSequence event = Z.of_nat n + 1.
Proof.
  intros [n Hn]%list_elem_of_lookup. exists n. split; [done|]. apply stream_lookup in Hn; [|done]. simpl in Hn. lia.
Qed.

Lemma view_at_key log n functionID snapshot :
  view_at log n !! functionID = Some snapshot -> sn_FunctionID snapshot = functionID.
Proof.
  unfold view_at. assert (forall l (view : gmap string Snapshot), map_Forall (fun k s => sn_FunctionID s = k) view ->
    map_Forall (fun k s => sn_FunctionID s = k) (foldl put_snapshot view l)) as Hput.
  { induction l as [|s l IH]; intros view Hv; [done|]. cbn [foldl]. apply IH. by apply map_Forall_insert_2. }
  assert (forall l (view : gmap string Snapshot), map_Forall (fun k s => sn_FunctionID s = k) view ->
    map_Forall (fun k s => sn_FunctionID s = k) (foldl install view l)) as Hgen.
  { induction l as [|event l IH]; intros view Hv; [done|]. cbn [foldl]. apply IH. unfold install. apply Hput.
    destruct (ev_Full event); [apply map_Forall_empty|done]. }
  apply (Hgen (take n log) ∅ (map_Forall_empty _)).
Qed.

Lemma view_at_event log n functionID snapshot :
  view_at log n !! functionID = Some snapshot -> exists event, event ∈ log /\ snapshot ∈ ev_Snapshots event.
Proof.
  assert (forall l view, (forall k s, view !! k = Some s -> exists event, event ∈ log /\ s ∈ ev_Snapshots event) ->
    Forall (fun event => event ∈ log) l ->
    forall k s, foldl install view l !! k = Some s -> exists event, event ∈ log /\ s ∈ ev_Snapshots event) as Hgen.
  { induction l as [|event l IH]; intros view Hview Hl k s; cbn [foldl]; [apply Hview|].
    apply Forall_cons in Hl as [He Hl]. apply IH; [|done]. clear k s. intros k s. unfold install.
    assert (forall l' acc, foldl put_snapshot acc l' !! k = Some s -> s ∈ l' \/ acc !! k = Some s) as Hput.
    { induction l' as [|s' l' IH']; intros acc; cbn [foldl]; [by right|]. intros [?|Hacc]%IH'; [left; by right|].
      unfold put_snapshot in Hacc. destruct (decide (k = sn_FunctionID s')) as [->|Hk].
      - rewrite lookup_insert_eq in Hacc. injection Hacc as <-. left. by left.
      - rewrite lookup_insert_ne in Hacc by done. by right. }
    intros [Hin|Hold]%Hput; [by exists event|]. destruct (ev_Full event); [by rewrite lookup_empty in Hold|by eapply Hview]. }
  apply Hgen; [intros k s; by rewrite lookup_empty|]. apply Forall_forall. intros event He. by eapply subseteq_take.
Qed.

Lemma stream_built ops p event snapshot :
  is_u64 (pu_sequence p) -> event ∈ stream p ops -> snapshot ∈ ev_Snapshots event ->
  exists op input sequence r, op ∈ ops /\ input ∈ op_inputs op /\
    Build (pu_builder p) (at_position input (pu_epoch p) sequence) = Ok r /\ snapshot = re_Snapshot r.
Proof.
  revert p. induction ops as [|op ops IH]; intros p Hu; simpl; [set_solver|].
  pose proof (event_of_cases p op Hu) as Hc. rewrite elem_of_app. intros [He|He] Hs.
  - destruct (event_of p op) as [event'|]; simpl in He; [|set_solver]. apply list_elem_of_singleton in He as ->.
    destruct Hc as (_ & _ & _ & _ & Hh). rewrite Hh in Hs.
    destruct (handed_out_built _ _ _ Hs) as (input & sequence & r & Hi & Hb & Hr). exists op, input, sequence, r. split; [by left|done].
  - assert (is_u64 (pu_sequence (publisher_step p op)) /\ pu_builder (publisher_step p op) = pu_builder p /\
      pu_epoch (publisher_step p op) = pu_epoch p) as (Hu' & Hb' & He').
    { destruct (event_of p op); [destruct Hc as (-> & Hlt & _)|rewrite Hc; done]. split; [|done].
      unfold is_u64, maxUint64 in *. simpl. lia. }
    destruct (IH _ Hu' He Hs) as (op' & input & sequence & r & Ho & Hi & Hb & Hr). rewrite Hb', He' in Hb.
    exists op', input, sequence, r. split; [by right|done].
Qed.

(** The store holds the published view of its position. *)
Record consistent (builder : Z -> Builder) (history : Z -> list publisher_op) (s : Store) : Prop := {
  co_sequence : 0 <= ep_sequence (st_position s);
  co_synced : st_fullSynced s = true ->
    let log := published builder history (ep_epoch (st_position s)) in
    let n := Z.to_nat (ep_sequence (st_position s)) in
    (n <= length log)%nat /\ snapshots_of s = view_at log n;
  co_empty : st_fullSynced s = false -> st_functions s = ∅;
}.

Lemma kept_consistent builder history s s' : kept s s' -> consistent builder history s -> consistent builder history s'.
Proof.
  intros [_ _ Hf Hp Hs _ _ _ _] [H1 H2 H3]. unfold snapshots_of in *. split; rewrite ?Hf, ?Hp, ?Hs; try done.
  unfold snapshots_of. by rewrite Hf.
Qed.

Lemma accepted_consistent builder history s now event fingerprint :
  (exists epoch, event ∈ published builder history epoch) -> NoDup (sn_FunctionID <$> ev_Snapshots event) ->
  accepts s now event -> consistent builder history s -> consistent builder history (accepted s now event fingerprint).
Proof.
  intros (epoch & (n & Hn & He & Hs)%published_lookup) Hnd Ha [Hseq Hsync _].
  assert (install (snapshots_of s) event = view_at (published builder history epoch) (S n)) as Hview.
  { rewrite (view_at_S _ _ _ Hn). destruct Ha as [_ _ Hp]. destruct (ev_Full event) eqn:Hf; [unfold install; by rewrite Hf|].
    destruct Hp as ((Hfe & Hfs) & _ & Hfull & _). destruct (Hsync Hfull) as [_ Hv]. cbv zeta in Hv. rewrite Hv.
    rewrite <-Hfe, He. do 2 f_equal. lia. }
  split.
  - cbn [accepted applied st_position ep_sequence]. lia.
  - intros _ log m. rewrite accepted_snapshots by done. rewrite Hview. subst log m.
    cbn [accepted applied st_position ep_sequence ep_epoch]. rewrite He.
    replace (Z.to_nat (ev_ServingSequence event)) with (S n) by lia. split; [|done]. apply lookup_lt_Some in Hn. lia.
  - done.
Qed.

Lemma gateway_step_consistent builder history s op :
  (forall clock event, op = OpApply clock event -> exists epoch, event ∈ published builder history epoch) ->
  consistent builder history s -> consistent builder history (gateway_step s op).
Proof.
  intros Hop Hc. destruct op as [clock event|clock id|clock|id a|connected]; simpl.
  - pose proof (Apply_run clock event s (co_sequence _ _ _ Hc)) as Hrun.
    destruct (Apply clock event s) as [s' [[]|err]]; simpl.
    + destruct Hrun as (Hw & _ & fp & _ & [(_ & _ & ->)|(_ & _ & Ha & ->)]); [done|].
      apply accepted_consistent; [by eapply Hop|apply Hw|done|done].
    + eapply kept_consistent; [apply Hrun|done].
  - eapply kept_consistent; [apply Lookup_kept|done].
  - eapply kept_consistent; [apply LookupAll_kept|done].
  - destruct (SuppressEndpoint_run id a s) as [[err ->]|(record & Hl & _ & ->)]; [done|]. destruct Hc as [H1 H2 H3].
    split; [done| |].
    + cbn [fst]. rewrite set_functions_snapshots by done. exact H2.
    + intros Hf. simpl in Hf. by rewrite (H3 Hf), lookup_empty in Hl.
  - destruct Hc as [H1 H2 H3]. split; [done|exact H2|done].
Qed.

Lemma gateway_run_consistent builder history ops s :
  (forall clock event, OpApply clock event ∈ ops -> exists epoch, event ∈ published builder history epoch) ->
  consistent builder history s -> consistent builder history (gateway_run s ops).
Proof.
  revert s. induction ops as [|op ops IH]; intros s Hops Hc; simpl; [done|]. apply IH; [set_solver|].
  apply gateway_step_consistent; [|done]. intros clock event ->. apply (Hops clock). by left.
Qed.

Lemma New_consistent builder history config elapsed s : New config elapsed = Ok s -> consistent builder history s.
Proof. unfold New. intros Hn. ok_inv. subst s. by split. Qed.

(** ** Reads *)
Lemma visible_endpoints record :
  vw_Endpoints (visibleSnapshot record) =
  List.filter (fun e => negb (suppressed_in (fr_suppressed record) e)) (endpoints (fr_snapshot record)).
Proof.
  unfold visibleSnapshot. cbn [vw_Endpoints]. destruct (_ =? 0) eqn:E; [|done]. go_cases.
  assert (fr_suppressed record = ∅) as -> by (apply map_size_empty_iff; lia).
  induction (endpoints (fr_snapshot record)) as [|e l IH]; simpl; [done|]. unfold suppressed_in at 1.
  rewrite lookup_empty. simpl. by rewrite <-IH.
Qed.

Lemma Lookup_Ok clock functionID s s' v :
  Lookup clock functionID s = (s', Ok v) ->
  clock_ok s clock = true /\ st_fullSynced s = true /\ st_needsFullSync s = false /\ s' = ticked s clock /\
  exists record, st_functions s !! functionID = Some record /\ usableLocked s record clock = true /\
    v = visibleSnapshot record.
Proof.
  unfold Lookup, sbind, slift. destruct (fail_if _ _) as [?|?]; [|done]. cbv beta iota. rewrite elapsedLocked_run.
  destruct (clock_ok s clock) eqn:Hc; [|done]. unfold sget, sret, sthrow. cbn [ticked st_fullSynced st_needsFullSync st_functions].
  destruct (st_fullSynced s) eqn:Hf, (st_needsFullSync s) eqn:Hn; try done. cbn [negb orb fail_if].
  destruct (st_functions s !! functionID) as [record|]; [|done].
  change (usableLocked (ticked s clock) record clock) with (usableLocked s record clock).
  destruct (usableLocked s record clock) eqn:Hu; [|done]. cbn [negb fail_if]. intros [= <- <-]. split_and!; try done.
  by exists record.
Qed.

Lemma collect_views_Ok s now l views :
  collect_views s now l = Ok views <->
  Forall (fun record => usableLocked s record now = true) l /\ views = map visibleSnapshot l.
Proof.
  revert views. induction l as [|record l IH]; intros views; simpl.
  { rewrite Forall_nil. naive_solver. }
  rewrite Forall_cons. destruct (usableLocked s record now); cbn [negb fail_if rbind]; [|naive_solver].
  destruct (collect_views s now l) as [rest|]; cbn [rbind]; split.
  - intros [= <-]. destruct (proj1 (IH rest) eq_refl) as [? ->]. done.
  - intros [[_ Hl] ->]. destruct (IH (map visibleSnapshot l)) as [_ H2]. rewrite (Ok_inj _ _ (H2 (conj Hl eq_refl))). done.
  - done.
  - intros [[_ Hl] ->]. destruct (IH (map visibleSnapshot l)) as [_ H2]. by specialize (H2 (conj Hl eq_refl)).
Qed.

Lemma LookupAll_Ok order clock s s' views :
  (forall m, order m ≡ₚ map_to_list m) -> LookupAll_in order clock s = (s', Ok views) ->
  clock_ok s clock = true /\ st_fullSynced s = true /\ st_needsFullSync s = false /\ s' = ticked s clock /\
  (forall record, record ∈ map snd (map_to_list (st_functions s)) -> usableLocked s record clock = true) /\
  views ≡ₚ map visibleSnapshot (map snd (map_to_list (st_functions s))).
Proof.
  intros Ho. unfold LookupAll_in, sbind, slift. rewrite elapsedLocked_run.
  destruct (clock_ok s clock) eqn:Hc; [|done]. unfold sget, sret. cbn [ticked st_fullSynced st_needsFullSync st_functions].
  destruct (st_fullSynced s) eqn:Hf, (st_needsFullSync s) eqn:Hn; try done. cbn [negb orb fail_if].
  destruct (collect_views _ _ _) as [vs|] eqn:Hv; [|done]. intros [= <- <-].
  apply collect_views_Ok in Hv as [Hall ->]. split_and!; try done.
  - intros record Hr. rewrite Forall_forall in Hall. apply Hall. by rewrite (Ho (st_functions s)).
  - rewrite SortFunc_Permutation. by rewrite (Ho (st_functions s)).
Qed.

(** C17: The Gateway's view is always one the control plane published.  Any
    number of Publishers, one per Discovery Epoch, emit incremental and Full
    events; these reach the store in any order, repeated, delayed or not at
    all, among any other calls.  Whenever the store is synchronized, its
    snapshots are exactly the result of the first n events of one Publisher,
    where epoch and n are the store's position, and that is what [Lookup] and
    [LookupAll] show; before the first Full event it holds nothing. *)
Theorem watch_consistency (builder : Z -> Builder) (history : Z -> list publisher_op) config elapsed s0 ops :
  New config elapsed = Ok s0 ->
  (forall clock event, OpApply clock event ∈ ops -> exists epoch, event ∈ published builder history epoch) ->
  let s := gateway_run s0 ops in
  let log := published builder history (ep_epoch (st_position s)) in
  let n := Z.to_nat (ep_sequence (st_position s)) in
  (st_fullSynced s = true -> (n <= length log)%nat /\ snapshots_of s = view_at log n) /\
  (st_fullSynced s = false -> st_functions s = ∅) /\
  (forall clock functionID s' v, Lookup clock functionID s = (s', Ok v) ->
     view_at log n !! functionID = Some (vw_Snapshot v)) /\
  (forall clock s' views, LookupAll clock s = (s', Ok views) ->
     forall snapshot, snapshot ∈ map vw_Snapshot views <-> exists functionID, view_at log n !! functionID = Some snapshot).
Proof.
  intros Hnew Hops s log n.
  assert (consistent builder history s) as [_ Hsync Hempty] by (apply gateway_run_consistent; [done|by eapply New_consistent]).
  split_and!; [exact Hsync|exact Hempty| |].
  - intros clock functionID s' v (_ & Hf & _ & _ & record & Hl & _ & ->)%Lookup_Ok.
    destruct (Hsync Hf) as [_ Hv]. cbv zeta in Hv. fold log n in Hv. rewrite <-Hv. unfold snapshots_of. by rewrite lookup_fmap, Hl.
  - intros clock s' views (_ & Hf & _ & _ & _ & Hp)%LookupAll_Ok; [|done]. intros snapshot. rewrite Hp.
    destruct (Hsync Hf) as [_ Hv]. cbv zeta in Hv. fold log n in Hv. rewrite <-Hv. unfold snapshots_of.
    setoid_rewrite lookup_fmap_Some. rewrite !map_map. rewrite list_elem_of_fmap. split.
    + intros ([id record] & -> & Hin%elem_of_map_to_list). exists id, record. done.
    + intros (id & record & <- & Hl). exists (id, record). split; [done|]. by apply elem_of_map_to_list.
Qed.

Lemma accepted_revisions s now event fingerprint functionID old new :
  NoDup (sn_FunctionID <$> ev_Snapshots event) -> accepts s now event ->
  snapshots_of s !! functionID = Some old -> snapshots_of (accepted s now event fingerprint) !! functionID = Some new ->
  new = old \/ (new ∈ ev_Snapshots event /\ revisionsDoNotRegress old new = Ok tt).
Proof.
  intros Hnd Ha Hold. rewrite accepted_snapshots by done. unfold install. rewrite put_snapshot_lookup by done.
  unfold snapshots_of in Hold. apply lookup_fmap_Some in Hold as (record & <- & Hl).
  intros [[Hin Hid]|[_ Hsame]]; [right|left].
  - split; [done|]. apply (ac_revisions _ _ _ Ha); [done|by rewrite Hid].
  - destruct (ev_Full event); [by rewrite lookup_empty in Hsame|]. unfold snapshots_of in Hsame.
    rewrite lookup_fmap, Hl in Hsame. by injection Hsame.
Qed.

(** Every outcome of [Apply].  A refused event leaves the view, the
    position and the staleness clock of every Function as they were and can
    only take the store out of service, never put it back.  A successful call
    is either the repetition of the last event, without any effect, or a step
    to a strictly newer position, which installs exactly the event's
    snapshots, lets no revision go backwards, and puts the store in service.
    A well-formed Full event of a newer position, or the next incremental one
    of a synchronized store, is always accepted while the clock is sound, the
    revisions do not regress and there is room. *)
Theorem Apply_outcome now event s :
  0 <= ep_sequence (st_position s) ->
  match Apply now event s with
  | (s', Err _) => kept s s' /\ (st_needsFullSync s' = false -> st_needsFullSync s = false)
  | (s', Ok _) =>
    well_formed event (st_maxFunctions s) /\
    ((s' = s /\ ev_DiscoveryEpoch event = ep_epoch (st_position s) /\ ev_ServingSequence event = ep_sequence (st_position s)) \/
     (newer event (st_position s) /\ snapshots_of s' = install (snapshots_of s) event /\
      ep_epoch (st_position s') = ev_DiscoveryEpoch event /\ ep_sequence (st_position s') = ev_ServingSequence event /\
      st_fullSynced s' = true /\ st_needsFullSync s' = false /\ st_watchConnected s' = true /\
      forall functionID old new, snapshots_of s !! functionID = Some old -> snapshots_of s' !! functionID = Some new ->
        new = old \/ revisionsDoNotRegress old new = Ok tt))
  end /\
  (forall fingerprint, well_formed event (st_maxFunctions s) -> eventFingerprint (sorted_event event) = Ok fingerprint ->
   newer event (st_position s) -> accepts s now event ->
   Apply now event s = (accepted s now event fingerprint, Ok tt)).
Proof.
  intros Hpos. pose proof (Apply_run now event s Hpos) as Hrun. split.
  - destruct (Apply now event s) as [s' [[]|err]].
    + destruct Hrun as (Hw & _ & fp & _ & [(Hs & _ & ->)|(Hs & Hep & Ha & ->)]); (split; [done|]); [left|right].
      * unfold samePosition in Hs. by go_cases.
      * split_and!; try done.
        -- pose proof (ac_position _ _ _ Ha) as Hp. destruct (ev_Full event); [done|]. destruct Hp as ([? ?] & _). right. lia.
        -- apply accepted_snapshots, Hw.
        -- intros id old new H1 H2. destruct (accepted_revisions _ _ _ _ _ _ _ (wf_NoDup _ _ Hw) Ha H1 H2) as [?|[_ ?]]; auto.
    + destruct Hrun as [Hk _]. split; [done|]. pose proof (kp_needs _ _ Hk). destruct (st_needsFullSync s); [|done].
      intros E. rewrite H0 in E; done.
  - intros fp Hw Hfp Hnew Ha.
    assert (samePosition event (st_position s) = false) as Hs.
    { unfold samePosition. apply andb_false_iff. rewrite !Z.eqb_neq. unfold newer in Hnew. lia. }
    assert (st_clockHealthy s = true) as Hh by (pose proof (ac_clock _ _ _ Ha) as Hc; unfold clock_ok in Hc; by go_cases).
    destruct (Apply now event s) as [s' [[]|err]].
    + destruct Hrun as (_ & _ & fp' & Hfp' & [(? & _)|(_ & _ & _ & ->)]); [congruence|]. congruence.
    + destruct Hrun as [_ Hrun]. destruct Hrun. exists fp. rewrite Hs. split_and!; try done. unfold newer in Hnew. lia.
Qed.

(** ** Staleness and suppression *)
Definition suppressed (s : Store) (functionID : string) (a : AssignmentIdentity) : Prop :=
  exists record, st_functions s !! functionID = Some record /\ fr_suppressed record !! ai_AssignmentID a = Some a.
Definition listed (s : Store) (functionID : string) (a : AssignmentIdentity) : Prop :=
  exists record e, st_functions s !! functionID = Some record /\ e ∈ endpoints (fr_snapshot record) /\ en_Assignment e = a.

(** Where the record of a Function comes from. *)
Record traced (ops : list gateway_op) (s : Store) : Prop := {
  tr_sequence : 0 <= ep_sequence (st_position s);
  tr_stale : 0 <= st_maxStale s <= HardMaxStale;
  tr_records : forall functionID record, st_functions s !! functionID = Some record ->
    sn_FunctionID (fr_snapshot record) = functionID /\ Snapshot_Validate (fr_snapshot record) = Ok tt /\
    fr_receivedAt record <= st_lastElapsed s /\
    exists event, OpApply (fr_receivedAt record) event ∈ ops /\ fr_snapshot record ∈ ev_Snapshots event;
}.

Lemma kept_traced ops ops' s s' : ops ⊆ ops' -> kept s s' -> traced ops s -> traced ops' s'.
Proof.
  intros Hsub [Hm _ Hf Hp _ _ _ He _] [H1 H2 H3]. split; rewrite ?Hp, ?Hm; try done. intros id record. rewrite Hf. intros Hl.
  destruct (H3 _ _ Hl) as (Ha & Hb & Hc & event & Hd & Hg). split_and!; try done; [lia|]. exists event. split; [by apply Hsub|done].
Qed.

Lemma put_record_lookup functions now l next k record :
  foldl (put_record functions now) next l !! k = Some record ->
  (exists s, s ∈ l /\ k = sn_FunctionID s /\ record = record_for functions now s) \/ next !! k = Some record.
Proof.
  revert next. induction l as [|s l IH]; intros next; cbn [foldl]; [by right|].
  intros [(s' & Hs & -> & ->)|Hl]%IH; [left; exists s'; split; [by right|done]|].
  unfold put_record in Hl. destruct (decide (k = sn_FunctionID s)) as [->|Hk].
  - rewrite lookup_insert_eq in Hl. injection Hl as <-. left. exists s. split; [by left|done].
  - rewrite lookup_insert_ne in Hl by done. by right.
Qed.

(** An event's sequence number is a [uint64]. *)
Definition typed (op : gateway_op) : Prop :=
  match op with OpApply _ event => is_u64 (ev_ServingSequence event) | _ => True end.

Lemma gateway_step_traced ops s op : typed op -> traced ops s -> traced (ops ++ [op]) (gateway_step s op).
Proof.
  intros Hty Ht. assert (ops ⊆ ops ++ [op]) as Hsub by set_solver.
  destruct op as [clock event|clock id|clock|id a|connected]; simpl.
  - pose proof (Apply_run clock event s (tr_sequence _ _ Ht)) as Hrun.
    destruct (Apply clock event s) as [s' [[]|err]]; simpl; [|eapply kept_traced; [done|apply Hrun|done]].
    destruct Hrun as (Hw & _ & fp & _ & [(_ & _ & ->)|(_ & _ & Ha & ->)]); [by eapply kept_traced; [| reflexivity|]|].
    pose proof (ac_clock _ _ _ Ha) as Hc. unfold clock_ok in Hc. destruct Ht as [H1 H2 H3]. go_cases.
    split; [|done|].
    + unfold typed, is_u64 in Hty. cbn [accepted applied st_position ep_sequence]. lia.
    + intros k record. cbn [accepted applied st_functions st_lastElapsed ticked].
      intros [(snap & Hin & -> & ->)|Hold]%put_record_lookup.
      * rewrite elem_of_SortFunc in Hin. pose proof (wf_snapshots _ _ Hw) as Hs. rewrite Forall_forall in Hs.
        destruct (Hs _ Hin) as (_ & _ & Hv). split_and!; try done. exists event. split; [set_solver|done].
      * destruct (ev_Full event); [by rewrite lookup_empty in Hold|].
        destruct (H3 _ _ Hold) as (Ha' & Hb & Hc & ev & Hd & Hg). split_and!; try done; [lia|]. exists ev. split; [set_solver|done].
  - eapply kept_traced; [done|apply Lookup_kept|done].
  - eapply kept_traced; [done|apply LookupAll_kept|done].
  - destruct (SuppressEndpoint_run id a s) as [[err ->]|(record & Hl & _ & ->)]; [by eapply kept_traced; [|reflexivity|]|].
    destruct Ht as [H1 H2 H3]. split; [done|done|]. intros k record'. cbn [fst set_functions st_functions st_lastElapsed].
    destruct (decide (k = id)) as [->|Hk]; [rewrite lookup_insert_eq; intros [= <-]|rewrite lookup_insert_ne by done; intros Hl'].
    + destruct (H3 _ _ Hl) as (Ha & Hb & Hc & ev & Hd & Hg). split_and!; try done. exists ev. split; [set_solver|done].
    + destruct (H3 _ _ Hl') as (Ha & Hb & Hc & ev & Hd & Hg). split_and!; try done. exists ev. split; [set_solver|done].
  - destruct Ht as [H1 H2 H3]. split; [done|done|]. intros k record Hl.
    destruct (H3 _ _ Hl) as (Ha & Hb & Hc & ev & Hd & Hg). split_and!; try done. exists ev. split; [set_solver|done].
Qed.

Lemma gateway_run_traced ops ops0 s : Forall typed ops -> traced ops0 s -> traced (ops0 ++ ops) (gateway_run s ops).
Proof.
  revert ops0 s. induction ops as [|op ops IH]; intros ops0 s Hty Ht; simpl; [by rewrite app_nil_r|].
  apply Forall_cons in Hty as [Hop Hty]. change (op :: ops) with ([op] ++ ops). rewrite (assoc_L app). apply IH; [done|]. by apply gateway_step_traced.
Qed.

Lemma New_traced config elapsed s : New config elapsed = Ok s -> traced [] s.
Proof.
  unfold New. intros Hn. ok_inv. subst s. split; cbn [st_maxStale st_position ep_sequence st_functions]; [done|lia|].
  intros k record. by rewrite lookup_empty.
Qed.

Lemma visible_spec s functionID record e :
  st_functions s !! functionID = Some record ->
  e ∈ vw_Endpoints (visibleSnapshot record) <->
  e ∈ endpoints (fr_snapshot record) /\ ~ suppressed s functionID (en_Assignment e).
Proof.
  intros Hl. rewrite visible_endpoints, list_elem_of_In, filter_In, <-list_elem_of_In, negb_true_iff.
  unfold suppressed_in, suppressed. split; intros [He Hs]; (split; [done|]).
  - intros (record' & Hl' & Ha). rewrite Hl in Hl'. injection Hl' as <-. rewrite Ha in Hs. by apply bool_decide_eq_false in Hs.
  - destruct (fr_suppressed record !! _) as [identity|] eqn:E; [|done]. apply bool_decide_eq_false. intros ->. apply Hs. by exists record.
Qed.

(** A view is served only while it may be trusted.  After any history, a
    successful [Lookup] shows a valid snapshot of the Function asked for that
    some accepted Watch event delivered at time [received]; less than the
    configured staleness (at most ten minutes) has passed since, or, with a
    staleness of zero, the Watch is connected; no Full Sync is pending and the
    clock has never run backwards.  The visible Endpoints are exactly those of
    the snapshot that no local health failure suppresses. *)
Theorem Lookup_sound config elapsed s0 ops clock functionID s' v :
  New config elapsed = Ok s0 -> Forall typed ops ->
  let s := gateway_run s0 ops in
  Lookup clock functionID s = (s', Ok v) ->
  Snapshot_Validate (vw_Snapshot v) = Ok tt /\ sn_FunctionID (vw_Snapshot v) = functionID /\
  st_needsFullSync s = false /\ st_clockHealthy s = true /\
  (exists received event, OpApply received event ∈ ops /\ vw_Snapshot v ∈ ev_Snapshots event /\ received <= clock /\
     if decide (st_maxStale s = 0) then st_watchConnected s = true
     else clock - received < st_maxStale s <= HardMaxStale) /\
  (forall e, e ∈ vw_Endpoints v <-> e ∈ endpoints (vw_Snapshot v) /\ ~ suppressed s functionID (en_Assignment e)).
Proof.
  intros Hnew Hty s (Hc & _ & Hn & _ & record & Hl & Hu & ->)%Lookup_Ok.
  pose proof (gateway_run_traced ops [] s0 Hty (New_traced _ _ _ Hnew)) as [_ Hst Hrec]. fold s in Hst, Hrec.
  destruct (Hrec _ _ Hl) as (Hid & Hv & Hle & event & Hop & Hin). unfold clock_ok in Hc. go_cases.
  split_and!; try done.
  - exists (fr_receivedAt record), event. split_and!; try done; [lia|]. unfold usableLocked in Hu.
    destruct (st_maxStale s =? 0) eqn:E; go_cases; case_decide; try done. lia.
  - intros e. by apply visible_spec.
Qed.

Lemma retained_sticky previous l acc a e :
  previous !! ai_AssignmentID a = Some a -> (e ∈ l /\ en_Assignment e = a) \/ acc !! ai_AssignmentID a = Some a ->
  foldl (retain previous) acc l !! ai_AssignmentID a = Some a.
Proof.
  intros Hp. revert acc. induction l as [|e0 l IH]; intros acc; cbn [foldl].
  { intros [[Hin _]|Ha]; [by apply elem_of_nil in Hin|done]. }
  intros Hor. apply IH. unfold retain. destruct (decide (en_Assignment e0 = a)) as [He0|Hne].
  - right. rewrite He0, Hp, bool_decide_true by done. by rewrite lookup_insert_eq.
  - destruct Hor as [[[->|Hin]%elem_of_cons He]|Ha]; [done|by left|right].
    destruct (previous !! ai_AssignmentID (en_Assignment e0)) as [identity|] eqn:Hl; [|done].
    case_bool_decide as Hid; [|done]. subst identity. rewrite lookup_insert_ne; [done|].
    intros E. rewrite E in Hl. congruence.
Qed.

Lemma endpoint_unique l e e' :
  NoDup (endpoint_id <$> l) -> e ∈ l -> e' ∈ l -> endpoint_id e = endpoint_id e' -> e = e'.
Proof.
  intros Hnd He He' Heq. apply list_elem_of_lookup in He as [i Hi], He' as [j Hj].
  assert (i = j) as ->; [|congruence].
  apply (NoDup_lookup (endpoint_id <$> l) i j (endpoint_id e)); [done|by rewrite list_lookup_fmap, Hi|].
  rewrite list_lookup_fmap, Hj, Heq. done.
Qed.

Lemma gateway_step_suppressed ops s op functionID a :
  traced ops s ->
  suppressed s functionID a -> listed (gateway_step s op) functionID a -> suppressed (gateway_step s op) functionID a.
Proof.
  intros [Hpos _ Hrec] (record & Hl & Hs). assert (forall s', kept s s' -> suppressed s' functionID a) as Hkept.
  { intros s' Hk. exists record. by rewrite (kp_functions _ _ Hk). }
  destruct op as [clock event|clock id|clock|id b|connected]; simpl.
  - pose proof (Apply_run clock event s Hpos) as Hrun.
    destruct (Apply clock event s) as [s' [[]|err]]; simpl; [|intros _; apply Hkept, Hrun].
    destruct Hrun as (Hw & _ & fp & _ & [(_ & _ & ->)|(_ & _ & _ & ->)]); [intros _; by exists record|].
    intros (record' & e & Hl' & He & Ha). exists record'. split; [done|]. cbn [accepted applied st_functions] in Hl'.
    apply put_record_lookup in Hl' as [(snap & _ & -> & ->)|Hold].
    + cbn [record_for fr_suppressed]. rewrite Hl. unfold retainedSuppressions. cbn [fmap option_fmap option_map default from_option id].
      destruct (Z.of_nat (size (fr_suppressed record)) =? 0) eqn:E.
      { go_cases. assert (fr_suppressed record = ∅) as E0 by (apply map_size_empty_iff; lia). by rewrite E0, lookup_empty in Hs. }
      apply (retained_sticky _ _ _ _ e); [done|]. left. done.
    + destruct (ev_Full event); [by rewrite lookup_empty in Hold|]. congruence.
  - intros _. apply Hkept, Lookup_kept.
  - intros _. apply Hkept, LookupAll_kept.
  - destruct (SuppressEndpoint_run id b s) as [[err ->]|(record' & Hl' & (e' & He' & Hb) & ->)]; [intros _; by exists record|].
    intros (record0 & e & Hl0 & He & Ha). unfold suppressed. cbn [fst set_functions st_functions].
    destruct (decide (functionID = id)) as [->|Hne]; [rewrite lookup_insert_eq|rewrite lookup_insert_ne by done; by exists record].
    eexists. split; [done|]. cbn [fr_suppressed]. assert (record' = record) as -> by congruence.
    destruct (decide (ai_AssignmentID a = ai_AssignmentID b)) as [E|Hne]; [|by rewrite lookup_insert_ne].
    cbn [fst set_functions st_functions] in Hl0. rewrite lookup_insert_eq in Hl0. injection Hl0 as <-. cbn [fr_snapshot] in He.
    destruct (Hrec _ _ Hl) as (_ & Hv & _). apply Snapshot_Validate_endpoints in Hv as [_ Hnd].
    assert (e = e') as -> by (apply (endpoint_unique _ _ _ Hnd He He'); unfold endpoint_id; congruence).
    assert (a = b) as -> by congruence. by rewrite lookup_insert_eq.
  - intros _. by exists record.
Qed.

Lemma gateway_run_suppressed ops ops0 s functionID a :
  Forall typed ops -> traced ops0 s -> suppressed s functionID a ->
  (forall n, listed (gateway_run s (take n ops)) functionID a) -> suppressed (gateway_run s ops) functionID a.
Proof.
  revert ops0 s. induction ops as [|op ops IH]; intros ops0 s Hty Ht Hs Hl; simpl; [done|].
  apply Forall_cons in Hty as [Hop Hty]. apply (IH (ops0 ++ [op])); [done|by apply gateway_step_traced| |].
  - eapply gateway_step_suppressed; [done|done|]. exact (Hl 1%nat).
  - intros n. exact (Hl (S n)).
Qed.

(** A suppressed Endpoint stays out of use.  Once a local health failure
    is accepted for an Assignment of a Function, no later [Lookup] of the
    Function shows an Endpoint with that Assignment, whatever Watch events,
    reads or other failures come in between, as long as the authoritative
    snapshots keep listing this very Assignment. *)
Theorem suppression_sticky config elapsed s0 ops functionID a s later clock s' v :
  New config elapsed = Ok s0 -> Forall typed ops -> Forall typed later ->
  SuppressEndpoint functionID a (gateway_run s0 ops) = (s, Ok tt) ->
  (forall n, listed (gateway_run s (take n later)) functionID a) ->
  Lookup clock functionID (gateway_run s later) = (s', Ok v) ->
  forall e, e ∈ vw_Endpoints v -> en_Assignment e <> a.
Proof.
  intros Hnew Hty Hty' Hsup Hlist (_ & _ & _ & _ & record & Hl & _ & ->)%Lookup_Ok e He Ha. subst a.
  pose proof (gateway_run_traced ops [] s0 Hty (New_traced _ _ _ Hnew)) as Ht.
  apply (gateway_step_traced _ _ (OpSuppress functionID (en_Assignment e)) I) in Ht. simpl in Ht. rewrite Hsup in Ht.
  assert (suppressed s functionID (en_Assignment e)) as Hs.
  { destruct (SuppressEndpoint_run functionID (en_Assignment e) (gateway_run s0 ops)) as [[err E]|(r & Hr & _ & E)]; [congruence|].
    rewrite E in Hsup. injection Hsup as <-. eexists. cbn [set_functions st_functions]. rewrite lookup_insert_eq.
    split; [done|]. simpl. by rewrite lookup_insert_eq. }
  apply (visible_spec (gateway_run s later) functionID record e Hl) in He as [_ He]. apply He.
  by eapply gateway_run_suppressed.
Qed.

End store.

(** ** Witnesses: one Publisher and a store that follows it *)
#[local] Existing Instance ex_jcs.
Definition ex_history (epoch : Z) : list publisher_op :=
  if epoch =? 3 then [OpBuildFull [ex_input]; OpBuild ex_input] else [].
Definition ex_config : Config := {| cfg_MaxStale := None; cfg_MaxFunctions := 10 |}.
Definition ex_empty : Store := Eval vm_compute in
  match New ex_config 0 with Ok s => s | Err _ => {| st_maxStale := 0; st_maxFunctions := 0; st_functions := ∅;
    st_position := {| ep_epoch := 0; ep_sequence := 0; ep_fingerprint := "" |}; st_fullSynced := false;
    st_needsFullSync := true; st_watchConnected := false; st_lastElapsed := 0; st_clockHealthy := true |} end.
Definition ex_log : list Event := Eval vm_compute in published (fun _ => ex_builder) ex_history 3.
Definition ex_full : Event :=
  nth 0 ex_log {| ev_Full := false; ev_DiscoveryEpoch := 0; ev_ServingSequence := 0; ev_Snapshots := [] |}.
Definition ex_next : Event :=
  nth 1 ex_log {| ev_Full := false; ev_DiscoveryEpoch := 0; ev_ServingSequence := 0; ev_Snapshots := [] |}.
(** The events arrive out of order, and the first one twice. *)
Definition ex_ops : list gateway_op := [OpApply 5 ex_next; OpApply 6 ex_full; OpApply 7 ex_full; OpApply 8 ex_next].

Lemma ex_store_new : New ex_config 0 = Ok ex_empty.
Proof. vm_compute. exact eq_refl. Qed.
Lemma ex_ops_typed : Forall typed ex_ops.
Proof. repeat (apply Forall_cons; split; [vm_compute; split; discriminate || exact eq_refl|]). apply Forall_nil. exact I. Qed.

Lemma ex_log_published : published (fun _ => ex_builder) ex_history 3 = ex_log.
Proof. vm_compute. exact eq_refl. Qed.

Lemma ex_ops_published clock event : OpApply clock event ∈ ex_ops -> event ∈ published (fun _ => ex_builder) ex_history 3.
Proof.
  intros Hin. rewrite ex_log_published.
  assert (event = ex_full \/ event = ex_next) as [->| ->].
  { assert (forall c e c' e', OpApply c e = OpApply c' e' -> e = e') as Hinj by congruence.
    unfold ex_ops in Hin. rewrite !elem_of_cons, elem_of_nil in Hin.
    destruct Hin as [E|[E|[E|[E|[]]]]]; apply Hinj in E; auto. }
  - exact (list_elem_of_lookup_2 ex_log 0 ex_full eq_refl).
  - exact (list_elem_of_lookup_2 ex_log 1 ex_next eq_refl).
Qed.

Definition ex_synced : Store := Eval vm_compute in gateway_run ex_empty ex_ops.
Lemma ex_run : gateway_run ex_empty ex_ops = ex_synced.
Proof. vm_compute. exact eq_refl. Qed.

Lemma watch_consistency_witness :
  let s := gateway_run ex_empty ex_ops in
  ep_sequence (st_position s) = 2 /\
  snapshots_of s = view_at (published (fun _ => ex_builder) ex_history (ep_epoch (st_position s)))
                     (Z.to_nat (ep_sequence (st_position s))).
Proof.
  intros s. split; [subst s; rewrite ex_run; exact eq_refl|].
  destruct (watch_consistency (fun _ => ex_builder) ex_history ex_config 0 ex_empty ex_ops ex_store_new) as (H & _).
  - intros clock event Hin. exists 3. exact (ex_ops_published clock event Hin).
  - apply H. rewrite ex_run. exact eq_refl.
Defined.

Lemma Apply_outcome_witness :
  is_ok (snd (Apply 6 ex_full ex_empty)) = true /\
  well_formed ex_full (st_maxFunctions ex_empty).
Proof.
  split; [vm_compute; exact eq_refl|].
  destruct (Apply_outcome 6 ex_full ex_empty) as [H _]; [vm_compute; discriminate|].
  destruct (Apply 6 ex_full ex_empty) as [s' [[]|err]] eqn:E; [apply H|]. exfalso. revert E. vm_compute. discriminate.
Defined.

Definition ex_view : View := Eval vm_compute in
  match snd (Lookup 9 "fn_1" ex_synced) with Ok v => v | Err _ => {| vw_Snapshot := re_Snapshot ex_result; vw_Endpoints := [] |} end.

Lemma Lookup_sound_witness :
  map endpoint_id (vw_Endpoints ex_view) = ["asg_1"]%string /\ Snapshot_Validate (vw_Snapshot ex_view) = Ok tt.
Proof.
  split; [vm_compute; exact eq_refl|].
  apply (Lookup_sound ex_config 0 ex_empty ex_ops 9 "fn_1" (ticked ex_synced 9) ex_view ex_store_new ex_ops_typed).
  rewrite ex_run. vm_compute. exact eq_refl.
Defined.

Definition ex_failed : Store := Eval vm_compute in fst (SuppressEndpoint "fn_1" (ex_identity "asg_1") ex_synced).
Definition ex_hidden : View := {| vw_Snapshot := vw_Snapshot ex_view; vw_Endpoints := [] |}.

Definition ex_record : functionRecord :=
  {| fr_snapshot := vw_Snapshot ex_view; fr_receivedAt := 8; fr_suppressed := {[ "asg_1"%string := ex_identity "asg_1" ]} |}.
Lemma ex_listed : forall n, listed (gateway_run ex_failed (take n [OpConnected false])) "fn_1" (ex_identity "asg_1").
Proof.
  assert (st_functions ex_failed !! "fn_1"%string = Some ex_record) as Hl by (vm_compute; exact eq_refl).
  assert (exists e, e ∈ endpoints (fr_snapshot ex_record) /\ en_Assignment e = ex_identity "asg_1") as (e & He & Ha).
  { exists (endpoint_of (ex_candidate "asg_1" true)). split; [left|vm_compute; exact eq_refl]. }
  intros [|n]; exists ex_record, e; (split; [|by split]); [exact Hl|]. rewrite take_ge by (simpl; lia). exact Hl.
Qed.

Lemma suppression_sticky_witness :
  SuppressEndpoint "fn_1" (ex_identity "asg_1") ex_synced = (ex_failed, Ok tt) /\
  (forall e, e ∈ vw_Endpoints ex_hidden -> en_Assignment e <> ex_identity "asg_1").
Proof.
  split; [vm_compute; exact eq_refl|].
  apply (suppression_sticky ex_config 0 ex_empty ex_ops "fn_1" (ex_identity "asg_1") ex_failed [OpConnected false] 9
    (ticked (set_connected ex_failed false) 9) ex_hidden ex_store_new ex_ops_typed).
  - apply Forall_singleton. exact I.
  - rewrite ex_run. vm_compute. exact eq_refl.
  - exact ex_listed.
  - vm_compute. exact eq_refl.
Defined.

End gatewaydiscovery.
