(* ===== verification/Abi.v ===== *)
(** * Package [sdk/go/minicloudabi]: the guest protocol

    Requests and responses of one invocation, the limits that Gateway, Worker
    and SDK share, the checks that normalize a request, and encoding. *)
From stdpp Require Import base gmap strings list sorting.
From S2P Require Import Prelude Problem Digest Json Model Net.
Import model.

#[local] Open Scope Z_scope.

Module abi.

Definition Version : string := "1.0".

Record Trigger := {
  tg_Type : string;
  tg_ID : string;
  tg_ResourceRevision : Z;
  tg_FireID : string;
  tg_ScheduledTimeUTC : string;
  tg_ReceiptID : string;
  tg_EventID : string;
  tg_SourceID : string;
  tg_EventType : string;
  tg_OccurredAt : string;
  tg_ContentType : string;
}.

(** A Go map from names to slices: the map may be nil, and so may a slice. *)
Definition fields : Type := option (gmap string (option (list string))).

Record Request := {
  rq_SpecVersion : string;
  rq_InvocationID : string;
  rq_Method : string;
  rq_Path : string;
  rq_Query : fields;
  rq_Headers : fields;
  rq_Body : string;
  rq_DeadlineUnixMS : Z;
  rq_Trigger : Trigger;
}.

Record Response := {
  rp_SpecVersion : string;
  rp_Status : Z;
  rp_Headers : fields;
  rp_Body : string;
}.

(** ** Limits *)
Definition DefaultRawEnvelopeBytes : Z := Z.shiftl 1536 10.
Definition DefaultMetadataBytes : Z := Z.shiftl 128 10.
Definition DefaultBodyBytes : Z := Z.shiftl 1 20.
Definition DefaultHeaderCount : Z := 64.
Definition DefaultHeaderBytes : Z := Z.shiftl 32 10.
Definition DefaultHeaderValueBytes : Z := Z.shiftl 8 10.
Definition DefaultQueryPairs : Z := 128.
Definition DefaultQueryBytes : Z := Z.shiftl 32 10.
Definition DefaultJSONDepth : Z := 32.
Definition DefaultMethodBytes : Z := 16.
Definition DefaultPathBytes : Z := 4096.

Record Limits := {
  lm_RawEnvelopeBytes : Z;
  lm_MetadataBytes : Z;
  lm_BodyBytes : Z;
  lm_HeaderCount : Z;
  lm_HeaderBytes : Z;
  lm_HeaderValueBytes : Z;
  lm_QueryPairs : Z;
  lm_QueryBytes : Z;
  lm_JSONDepth : Z;
  lm_MethodBytes : Z;
  lm_PathBytes : Z;
}.

Definition defaults : Limits :=
  {| lm_RawEnvelopeBytes := DefaultRawEnvelopeBytes; lm_MetadataBytes := DefaultMetadataBytes;
     lm_BodyBytes := DefaultBodyBytes; lm_HeaderCount := DefaultHeaderCount; lm_HeaderBytes := DefaultHeaderBytes;
     lm_HeaderValueBytes := DefaultHeaderValueBytes; lm_QueryPairs := DefaultQueryPairs;
     lm_QueryBytes := DefaultQueryBytes; lm_JSONDepth := DefaultJSONDepth; lm_MethodBytes := DefaultMethodBytes;
     lm_PathBytes := DefaultPathBytes |}.

(** The body of the loop over [values] and [defaultValues]. *)
Definition normalize_limit (value default_value : Z) : result Z :=
  let value := if value =? 0 then default_value else value in
  fail_if ((value <? 1) || (value >? default_value)) (PlainError "minicloudabi: limit is outside v1 bounds") ;;;
  Ok value.

Definition normalizeLimits (l : Limits) : result Limits :=
  let raw := if lm_RawEnvelopeBytes l =? 0 then lm_RawEnvelopeBytes defaults else lm_RawEnvelopeBytes l in
  fail_if ((raw <? 1) || (raw >? lm_RawEnvelopeBytes defaults))
    (PlainError "minicloudabi: raw envelope limit is outside v1 bounds") ;;;
  metadata <- normalize_limit (lm_MetadataBytes l) (lm_MetadataBytes defaults) ;;
  body <- normalize_limit (lm_BodyBytes l) (lm_BodyBytes defaults) ;;
  headerCount <- normalize_limit (lm_HeaderCount l) (lm_HeaderCount defaults) ;;
  headerBytes <- normalize_limit (lm_HeaderBytes l) (lm_HeaderBytes defaults) ;;
  headerValueBytes <- normalize_limit (lm_HeaderValueBytes l) (lm_HeaderValueBytes defaults) ;;
  queryPairs <- normalize_limit (lm_QueryPairs l) (lm_QueryPairs defaults) ;;
  queryBytes <- normalize_limit (lm_QueryBytes l) (lm_QueryBytes defaults) ;;
  depth <- normalize_limit (lm_JSONDepth l) (lm_JSONDepth defaults) ;;
  method <- normalize_limit (lm_MethodBytes l) (lm_MethodBytes defaults) ;;
  path <- normalize_limit (lm_PathBytes l) (lm_PathBytes defaults) ;;
  Ok {| lm_RawEnvelopeBytes := raw; lm_MetadataBytes := metadata; lm_BodyBytes := body;
        lm_HeaderCount := headerCount; lm_HeaderBytes := headerBytes; lm_HeaderValueBytes := headerValueBytes;
        lm_QueryPairs := queryPairs; lm_QueryBytes := queryBytes; lm_JSONDepth := depth;
        lm_MethodBytes := method; lm_PathBytes := path |}.

Definition Limits_Validate (l : Limits) : result unit := normalizeLimits l ;;; Ok tt.
Definition Effective (l : Limits) : result Limits := normalizeLimits l.

Definition zip_limits (f : Z -> Z -> Z) (a b : Limits) : Limits :=
  {| lm_RawEnvelopeBytes := f (lm_RawEnvelopeBytes a) (lm_RawEnvelopeBytes b);
     lm_MetadataBytes := f (lm_MetadataBytes a) (lm_MetadataBytes b);
     lm_BodyBytes := f (lm_BodyBytes a) (lm_BodyBytes b);
     lm_HeaderCount := f (lm_HeaderCount a) (lm_HeaderCount b);
     lm_HeaderBytes := f (lm_HeaderBytes a) (lm_HeaderBytes b);
     lm_HeaderValueBytes := f (lm_HeaderValueBytes a) (lm_HeaderValueBytes b);
     lm_QueryPairs := f (lm_QueryPairs a) (lm_QueryPairs b);
     lm_QueryBytes := f (lm_QueryBytes a) (lm_QueryBytes b);
     lm_JSONDepth := f (lm_JSONDepth a) (lm_JSONDepth b);
     lm_MethodBytes := f (lm_MethodBytes a) (lm_MethodBytes b);
     lm_PathBytes := f (lm_PathBytes a) (lm_PathBytes b) |}.

Definition Tighten (l override : Limits) : result Limits :=
  base <- normalizeLimits l ;;
  requested <- normalizeLimits override ;;
  Ok (zip_limits Z.min base requested).

(** ** Wire form *)
Definition omitempty (name value : string) : list (string * json) :=
  if value == "" then [] else [(name, JString value)].

Definition json_trigger (t : Trigger) : json :=
  JObject ([("type", JString (tg_Type t)); ("id", JString (tg_ID t))]%string
    ++ (if tg_ResourceRevision t =? 0 then [] else [("resource_revision"%string, JInt (tg_ResourceRevision t))])
    ++ omitempty "fire_id" (tg_FireID t) ++ omitempty "scheduled_time_utc" (tg_ScheduledTimeUTC t)
    ++ omitempty "receipt_id" (tg_ReceiptID t) ++ omitempty "event_id" (tg_EventID t)
    ++ omitempty "source_id" (tg_SourceID t) ++ omitempty "event_type" (tg_EventType t)
    ++ omitempty "occurred_at" (tg_OccurredAt t) ++ omitempty "content_type" (tg_ContentType t)).

Definition json_fields : fields -> json :=
  json.of_map (json.of_option (fun values => JArray (map JString values))).

(** [Request.MarshalJSON] through [requestWire]. *)
Definition requestWire (r : Request) : json :=
  JObject [("spec_version", JString (rq_SpecVersion r)); ("invocation_id", JString (rq_InvocationID r));
           ("method", JString (rq_Method r)); ("path", JString (rq_Path r)); ("query", json_fields (rq_Query r));
           ("headers", json_fields (rq_Headers r)); ("body_base64", JString (net.base64_string (rq_Body r)));
           ("deadline_unix_ms", JInt (rq_DeadlineUnixMS r)); ("trigger", json_trigger (rq_Trigger r))]%string.

Definition responseWire (r : Response) : json :=
  JObject [("spec_version", JString (rp_SpecVersion r)); ("status", JInt (rp_Status r));
           ("headers", json_fields (rp_Headers r)); ("body_base64", JString (net.base64_string (rp_Body r)))]%string.

(** ** Checks *)
Definition connectionHeaders : list string :=
  ["connection"; "content-length"; "keep-alive"; "proxy-authenticate"; "proxy-authorization"; "te"; "trailer";
   "transfer-encoding"; "upgrade"]%string.

(** [^[!#$%&'*+.^_`|~0-9A-Za-z-]+$] *)
Definition headerNamePattern (s : string) : bool := httpTokenPattern s.

(** [strings.ToLower] on the ASCII names the pattern admits. *)
Definition lower_byte (b : Z) : Z := if is_upper b then b + 32 else b.
Definition ToLower (s : string) : string := json.str_of (map lower_byte (codes s)).

(** [strings.ToUpper].  Two letters outside ASCII have an ASCII capital, the
    dotless i (U+0131) and the long s (U+017F); the image of any other one is
    outside ASCII, which is all that the following pattern match asks. *)
Definition upper_byte (b : Z) : Z := if is_lower b then b - 32 else b.
Fixpoint upper_codes (l : list Z) : list Z :=
  match l with
  | [] => []
  | b :: l' =>
    match l' with
    | c :: l'' =>
      if (b =? 0xC4) && (c =? 0xB1) then 73 :: upper_codes l''
      else if (b =? 0xC5) && (c =? 0xBF) then 83 :: upper_codes l''
      else upper_byte b :: upper_codes l'
    | [] => [upper_byte b]
    end
  end.
Definition ToUpper (s : string) : string := json.str_of (upper_codes (codes s)).

(** [strings.EqualFold(s, "HEAD")]; no letter outside ASCII folds to these. *)
Definition equal_fold_HEAD (s : string) : bool := ToLower s == "head".

Definition contains_any (bad : list Z) (s : string) : bool := existsb (fun b => existsb (Z.eqb b) bad) (codes s).

(** One value of a header. *)
Definition check_header_value (limits : Limits) (value : string) : result unit :=
  fail_if (negb (utf8_ValidString value) || contains_any [13; 10; 0] value)
    (PlainError "minicloudabi: invalid header value") ;;;
  fail_if (strlen value >? lm_HeaderValueBytes limits) (PlainError "minicloudabi: header value exceeds size limit").

(** The loop over the headers in the order of the map iteration; the result is
    the normalized map and the total of bytes. *)
Fixpoint header_loop (limits : Limits) (normalized : gmap string (option (list string))) (totalBytes : Z)
    (l : list (string * option (list string))) : result (gmap string (option (list string)) * Z) :=
  match l with
  | [] => Ok (normalized, totalBytes)
  | (name, values) :: l' =>
    fail_if (negb (headerNamePattern name)) (PlainError "minicloudabi: invalid header name") ;;;
    let lowerName := ToLower name in
    fail_if (name != lowerName) (PlainError "minicloudabi: constructed header names must be lowercase") ;;;
    fail_if (bool_decide (lowerName ∈ connectionHeaders))
      (PlainError "minicloudabi: connection-level header is forbidden") ;;;
    match values with
    | None => Err (PlainError "minicloudabi: header values must be an array")
    | Some vs =>
      for_each (check_header_value limits) vs ;;;
      header_loop limits (<[lowerName := Some vs]> normalized)
        (totalBytes + foldr (fun v n => strlen v + n) 0 vs + strlen lowerName) l'
    end
  end.

Definition normalizeHeaders_in (order : gmap string (option (list string)) -> list (string * option (list string)))
    (headers : fields) (limits : Limits) : result fields :=
  match headers with
  | None => Err (PlainError "minicloudabi: headers must be an object")
  | Some m =>
    out <- header_loop limits ∅ 0 (order m) ;;
    let '(normalized, totalBytes) := out in
    fail_if ((Z.of_nat (size normalized) >? lm_HeaderCount limits) || (totalBytes >? lm_HeaderBytes limits))
      (PlainError "minicloudabi: headers exceed count or size limit") ;;;
    Ok (Some normalized)
  end.
Definition normalizeHeaders : fields -> Limits -> result fields := normalizeHeaders_in map_to_list.

(** The loop over the query: pairs and bytes so far. *)
Fixpoint query_loop (pairs totalBytes : Z) (l : list (string * option (list string))) : result (Z * Z) :=
  match l with
  | [] => Ok (pairs, totalBytes)
  | (key, values) :: l' =>
    match values with
    | None => Err (PlainError "minicloudabi: invalid query entry")
    | Some vs =>
      fail_if (negb (utf8_ValidString key)) (PlainError "minicloudabi: invalid query entry") ;;;
      for_each (fun v => fail_if (negb (utf8_ValidString v)) (PlainError "minicloudabi: invalid query value")) vs ;;;
      query_loop (pairs + len vs) (totalBytes + foldr (fun v n => strlen key + strlen v + n) 0 vs) l'
    end
  end.

Definition validateQuery_in (order : gmap string (option (list string)) -> list (string * option (list string)))
    (query : fields) (limits : Limits) : result unit :=
  match query with
  | None => Err (PlainError "minicloudabi: query must be an object")
  | Some m =>
    out <- query_loop 0 0 (order m) ;;
    let '(pairs, totalBytes) := out in
    fail_if ((pairs >? lm_QueryPairs limits) || (totalBytes >? lm_QueryBytes limits))
      (PlainError "minicloudabi: query exceeds pair or size limit")
  end.
Definition validateQuery : fields -> Limits -> result unit := validateQuery_in map_to_list.

Definition hex_value (b : Z) : option Z :=
  if is_digit b then Some (b - 48)
  else if in_range 97 102 b then Some (b - 87)
  else if in_range 65 70 b then Some (b - 55)
  else None.
(** [url.PathUnescape]. *)
Fixpoint PathUnescape (l : list Z) : option (list Z) :=
  match l with
  | [] => Some []
  | b :: l' =>
    if b =? 37 then
      match l' with
      | h :: l0 :: l'' =>
        match hex_value h, hex_value l0, PathUnescape l'' with
        | Some x, Some y, Some rest => Some (16 * x + y :: rest)
        | _, _, _ => None
        end
      | _ => None
      end
    else match PathUnescape l' with Some rest => Some (b :: rest) | None => None end
  end.

Definition validatePath (value : string) (maxBytes : Z) : result unit :=
  fail_if (negb (String.prefix "/" value) || (strlen value >? maxBytes) || negb (utf8_ValidString value))
    (PlainError "minicloudabi: invalid path") ;;;
  fail_if (contains_any [0] value) (PlainError "minicloudabi: path contains nul") ;;;
  match PathUnescape (codes value) with
  | None => Err (PlainError "minicloudabi: path contains invalid percent encoding")
  | Some decoded =>
    fail_if (negb (utf8_valid decoded) || existsb (Z.eqb 0) decoded)
      (PlainError "minicloudabi: decoded path is not valid utf-8 or contains nul")
  end.

Definition validateTrigger (t : Trigger) : result unit :=
  fail_if (negb (idPattern (tg_ID t))) (PlainError "minicloudabi: invalid trigger id") ;;;
  fail_if (negb ((tg_Type t == "http") || (tg_Type t == "cron") || (tg_Type t == "event")))
    (PlainError "minicloudabi: invalid trigger type").

Definition check_size (encoded : string) (maxBytes : Z) : result unit :=
  fail_if (strlen encoded >? maxBytes) (PlainError "minicloudabi: envelope metadata exceeds size limit").

Definition with_body (r : Request) (body : string) : Request :=
  {| rq_SpecVersion := rq_SpecVersion r; rq_InvocationID := rq_InvocationID r; rq_Method := rq_Method r;
     rq_Path := rq_Path r; rq_Query := rq_Query r; rq_Headers := rq_Headers r; rq_Body := body;
     rq_DeadlineUnixMS := rq_DeadlineUnixMS r; rq_Trigger := rq_Trigger r |}.

(** [validateMetadataSize] on its two envelope types. *)
Definition request_metadata (r : Request) (maxBytes : Z) : result unit :=
  check_size (json.Marshal (requestWire (with_body r ""))) maxBytes.
Definition response_metadata (r : Response) (maxBytes : Z) : result unit :=
  check_size (json.Marshal (responseWire
    {| rp_SpecVersion := rp_SpecVersion r; rp_Status := rp_Status r; rp_Headers := rp_Headers r; rp_Body := "" |})) maxBytes.

Definition with_method_headers (r : Request) (method : string) (headers : fields) : Request :=
  {| rq_SpecVersion := rq_SpecVersion r; rq_InvocationID := rq_InvocationID r; rq_Method := method;
     rq_Path := rq_Path r; rq_Query := rq_Query r; rq_Headers := headers; rq_Body := rq_Body r;
     rq_DeadlineUnixMS := rq_DeadlineUnixMS r; rq_Trigger := rq_Trigger r |}.

Definition normalizeRequest (r : Request) (limits : Limits) : result Request :=
  fail_if (rq_SpecVersion r != Version) (PlainError "minicloudabi: unsupported request spec_version") ;;;
  fail_if (negb (idPattern (rq_InvocationID r))) (PlainError "minicloudabi: invalid invocation_id") ;;;
  let method := ToUpper (rq_Method r) in
  fail_if ((strlen method =? 0) || (strlen method >? lm_MethodBytes limits) || negb (headerNamePattern method))
    (PlainError "minicloudabi: invalid method") ;;;
  validatePath (rq_Path r) (lm_PathBytes limits) ;;;
  fail_if (rq_DeadlineUnixMS r <=? 0) (PlainError "minicloudabi: deadline_unix_ms must be positive") ;;;
  fail_if (strlen (rq_Body r) >? lm_BodyBytes limits) (PlainError "minicloudabi: request body exceeds size limit") ;;;
  validateTrigger (rq_Trigger r) ;;;
  validateQuery (rq_Query r) limits ;;;
  headers <- normalizeHeaders (rq_Headers r) limits ;;
  let r := with_method_headers r method headers in
  request_metadata r (lm_MetadataBytes limits) ;;;
  Ok r.

Definition validateResponse (r : Response) (requestMethod : string) (limits : Limits) : result unit :=
  fail_if (rp_SpecVersion r != Version) (PlainError "minicloudabi: unsupported response spec_version") ;;;
  fail_if ((rp_Status r <? 200) || (rp_Status r >? 599))
    (PlainError "minicloudabi: response status must be between 200 and 599") ;;;
  fail_if (strlen (rp_Body r) >? lm_BodyBytes limits) (PlainError "minicloudabi: response body exceeds size limit") ;;;
  let bodyForbidden := equal_fold_HEAD requestMethod || (rp_Status r =? 204) || (rp_Status r =? 304) in
  fail_if (bodyForbidden && negb (strlen (rp_Body r) =? 0))
    (PlainError "minicloudabi: response body is forbidden for method or status") ;;;
  normalizeHeaders (rp_Headers r) limits ;;;
  response_metadata r (lm_MetadataBytes limits).

(** ** Encoding

    [Write] is the destination, an [io.Writer]: it may change a state, and
    returns how many bytes it took. *)
Section encode.
Context {W : Type} (Write : string -> M W Z).

Definition encodeEnvelope (envelope : json) (limits : Limits) : M W unit :=
  let data := json.Marshal envelope in
  do! slift (fail_if (strlen data >? lm_RawEnvelopeBytes limits)
               (PlainError "minicloudabi: encoded envelope exceeds raw size limit")) in
  let! written := (fun w => let '(w', r) := Write data w in (w', wrap_err "minicloudabi: writing envelope" r)) in
  slift (fail_if (negb (written =? strlen data)) (PlainError "short write")).

Definition EncodeRequest (request : Request) (limits : Limits) : M W unit :=
  let! limits := slift (normalizeLimits limits) in
  let! request := slift (normalizeRequest request limits) in
  encodeEnvelope (requestWire request) limits.

Definition EncodeResponse (response : Response) (requestMethod : string) (limits : Limits) : M W unit :=
  let! limits := slift (normalizeLimits limits) in
  do! slift (validateResponse response requestMethod limits) in
  encodeEnvelope (responseWire response) limits.

End encode.

(** ** Limits only narrow *)
Definition limits_list (l : Limits) : list Z :=
  [lm_RawEnvelopeBytes l; lm_MetadataBytes l; lm_BodyBytes l; lm_HeaderCount l; lm_HeaderBytes l;
   lm_HeaderValueBytes l; lm_QueryPairs l; lm_QueryBytes l; lm_JSONDepth l; lm_MethodBytes l; lm_PathBytes l].
(** Pointwise order, and the limits of v1. *)
Definition limits_le (a b : Limits) : Prop := Forall2 Z.le (limits_list a) (limits_list b).
Definition positive_limits (l : Limits) : Prop := Forall (fun v => 1 <= v) (limits_list l).
Definition in_bounds (l : Limits) : Prop := positive_limits l /\ limits_le l defaults.

#[global] Instance limits_le_preorder : PreOrder limits_le.
Proof.
  split.
  - intros l. unfold limits_le. induction (limits_list l); constructor; [lia|done].
  - intros a b c. unfold limits_le. apply (transitivity (R := Forall2 Z.le)).
Qed.

Lemma limits_list_inj a b : limits_list a = limits_list b -> a = b.
Proof. destruct a, b. unfold limits_list. simpl. by intros [=]; subst. Qed.

Lemma normalize_limit_Ok value d v :
  normalize_limit value d = Ok v <-> v = (if value =? 0 then d else value) /\ 1 <= v <= d.
Proof.
  unfold normalize_limit. cbv zeta. rewrite rbind_Ok. setoid_rewrite fail_if_Ok. split.
  - intros ([] & Hc & [= <-]). go_cases. lia.
  - intros [-> Hv]. exists tt. split; [|done]. apply orb_false_iff. rewrite Z.gtb_ltb, !Z.ltb_ge. lia.
Qed.

Lemma normalizeLimits_Ok l l' :
  normalizeLimits l = Ok l' -> in_bounds l' /\ l' = zip_limits (fun v d => if v =? 0 then d else v) l defaults.
Proof.
  unfold normalizeLimits. cbv zeta. intros Hn. apply rbind_Ok in Hn as ([] & Hraw%fail_if_Ok & Hn). go_cases.
  do 10 (apply rbind_Ok in Hn as (? & [? ?]%normalize_limit_Ok & Hn)). apply Ok_inj in Hn. subst. unfold in_bounds, positive_limits, limits_le.
  split; [|done]. unfold limits_list. split; repeat (constructor; [simpl in *; lia|]); constructor.
Qed.

Lemma normalizeLimits_in_bounds l : in_bounds l -> normalizeLimits l = Ok l.
Proof.
  unfold in_bounds, positive_limits, limits_le, limits_list. intros [Hp Hl]. unfold normalizeLimits. cbv zeta.
  assert (forall v d, 1 <= v -> v <= d -> normalize_limit v d = Ok v) as Hone.
  { intros v d Hv Hd. apply normalize_limit_Ok. rewrite (proj2 (Z.eqb_neq v 0)) by lia. lia. }
  repeat match goal with H : Forall _ (_ :: _) |- _ => apply Forall_cons in H as [? H] end.
  repeat match goal with H : Forall2 _ (_ :: _) (_ :: _) |- _ => apply Forall2_cons in H as [? H] end.
  rewrite (proj2 (Z.eqb_neq (lm_RawEnvelopeBytes l) 0)) by lia.
  rewrite Z.gtb_ltb, !(proj2 (Z.ltb_ge _ _)) by lia. cbn [orb fail_if rbind].
  rewrite !Hone by done. cbn [rbind]. by destruct l.
Qed.

Lemma min_limits_le (a b c : Limits) : limits_le c (zip_limits Z.min a b) <-> limits_le c a /\ limits_le c b.
Proof.
  unfold limits_le, limits_list, zip_limits. cbn [lm_RawEnvelopeBytes lm_MetadataBytes lm_BodyBytes lm_HeaderCount lm_HeaderBytes
    lm_HeaderValueBytes lm_QueryPairs lm_QueryBytes lm_JSONDepth lm_MethodBytes lm_PathBytes].
  rewrite !Forall2_cons, Forall2_nil. rewrite !Z.min_glb_iff. tauto.
Qed.

(** Limits can only be lowered.  Whatever overrides are combined, every
    effective limit is between one and its v1 default, so nobody can ask for
    more than the specification allows; combining two sets gives the largest
    one that respects both, in either order, and zero fields stand for the
    defaults. *)
Theorem Tighten_narrows l override limits :
  Tighten l override = Ok limits ->
  in_bounds limits /\ Effective limits = Ok limits /\ Tighten override l = Ok limits /\
  (exists base requested, Effective l = Ok base /\ Effective override = Ok requested /\
     limits_le limits base /\ limits_le limits requested /\
     forall c, limits_le c base -> limits_le c requested -> limits_le c limits) /\
  (override = zip_limits (fun _ _ => 0) l l -> Effective l = Ok limits).
Proof.
  unfold Tighten, Effective. intros Ht. apply rbind_Ok in Ht as (base & Hb & Ht). apply rbind_Ok in Ht as (requested & Hr & Ht).
  apply Ok_inj in Ht. subst limits. pose proof (normalizeLimits_Ok _ _ Hb) as [Hbb Hbe]. pose proof (normalizeLimits_Ok _ _ Hr) as [Hrb Hre].
  assert (limits_le (zip_limits Z.min base requested) base /\ limits_le (zip_limits Z.min base requested) requested) as [Hle1 Hle2]
    by (apply min_limits_le; reflexivity).
  assert (in_bounds (zip_limits Z.min base requested)) as Hin.
  { split; [|by etransitivity; [|apply Hbb]]. destruct Hbb as [Hp1 _], Hrb as [Hp2 _].
    clear - Hp1 Hp2. unfold positive_limits, limits_list in *. rewrite !Forall_cons in Hp1, Hp2.
    repeat (apply Forall_cons; split; [apply Z.min_glb; tauto|]). by apply Forall_nil. }
  split_and!; [done|by apply normalizeLimits_in_bounds| | |].
  - rewrite Hr. cbn [rbind]. rewrite Hb. cbn [rbind]. f_equal. unfold zip_limits. f_equal; apply Z.min_comm.
  - exists base, requested. split_and!; try done. intros c H1 H2. by apply min_limits_le.
  - intros ->. rewrite Hb. f_equal. destruct Hbb as [_ Hbb]. subst requested. clear - Hbb.
    unfold limits_le, limits_list in Hbb. rewrite !Forall2_cons in Hbb. apply limits_list_inj. unfold limits_list, zip_limits.
    cbn [lm_RawEnvelopeBytes lm_MetadataBytes lm_BodyBytes lm_HeaderCount lm_HeaderBytes lm_HeaderValueBytes lm_QueryPairs
         lm_QueryBytes lm_JSONDepth lm_MethodBytes lm_PathBytes Z.eqb]. repeat (apply (f_equal2 cons); [symmetry; apply Z.min_l; tauto|]).
    reflexivity.
Qed.

(** ** Normalization *)
Definition header_entry (limits : Limits) (e : string * option (list string)) : Prop :=
  headerNamePattern (fst e) = true /\ ToLower (fst e) = fst e /\ ~ (fst e ∈ connectionHeaders) /\
  exists vs, snd e = Some vs /\ Forall (fun v => check_header_value limits v = Ok tt) vs.
Definition header_bytes (e : string * option (list string)) : Z :=
  foldr (fun v n => strlen v + n) 0 (default [] (snd e)) + strlen (fst e).
Definition total_bytes {A} (f : A -> Z) (l : list A) : Z := foldr (fun e n => f e + n) 0 l.

Lemma total_bytes_Permutation {A} (f : A -> Z) l l' : l ≡ₚ l' -> total_bytes f l = total_bytes f l'.
Proof. unfold total_bytes. induction 1; simpl; lia. Qed.

Lemma header_loop_Ok limits normalized total l out :
  header_loop limits normalized total l = Ok out <->
  Forall (header_entry limits) l /\
  out = (foldl (fun acc e => <[fst e := snd e]> acc) normalized l, total + total_bytes header_bytes l).
Proof.
  revert normalized total. induction l as [|[name values] l IH]; intros normalized total; cbn [header_loop foldl].
  { rewrite Forall_nil. unfold total_bytes. simpl. rewrite Z.add_0_r. naive_solver. }
  rewrite Forall_cons. unfold header_entry at 1. cbn [fst snd].
  destruct (headerNamePattern name); cbn [negb fail_if rbind]; [|naive_solver].
  destruct (decide (name = ToLower name)) as [Hl|Hl].
  2:{ rewrite bool_decide_false by done. cbn [negb fail_if rbind]. naive_solver. }
  rewrite bool_decide_true by done. cbn [negb fail_if rbind]. rewrite <-Hl.
  destruct (decide (name ∈ connectionHeaders)) as [Hc|Hc].
  { rewrite bool_decide_true by done. cbn [fail_if rbind]. naive_solver. }
  rewrite bool_decide_false by done. cbn [fail_if rbind]. destruct values as [vs|]; [|naive_solver].
  destruct (for_each (check_header_value limits) vs) as [u|] eqn:Hf; cbn [rbind].
  - apply for_each_Ok in Hf. rewrite IH. unfold total_bytes at 2. cbn [foldr header_bytes fst snd default from_option].
    fold (total_bytes header_bytes l). unfold header_bytes at 2. cbn [fst snd default from_option].
    rewrite <-!Z.add_assoc. naive_solver.
  - split; [done|]. intros [[(_ & _ & _ & vs' & [= <-] & Hall) _] _].
    assert (for_each (check_header_value limits) vs = Ok tt) by by apply for_each_Ok. congruence.
Qed.

Lemma normalizeHeaders_Ok order m limits h :
  (forall m', order m' ≡ₚ map_to_list m') ->
  normalizeHeaders_in order (Some m) limits = Ok h <->
  Forall (header_entry limits) (map_to_list m) /\ Z.of_nat (size m) <= lm_HeaderCount limits /\
  total_bytes header_bytes (map_to_list m) <= lm_HeaderBytes limits /\ h = Some m.
Proof.
  intros Ho. unfold normalizeHeaders_in. rewrite rbind_Ok. setoid_rewrite header_loop_Ok. split.
  - intros ([normalized total] & [Hf [= -> ->]] & Hr). apply rbind_Ok in Hr as ([] & Hs%fail_if_Ok & [= <-]).
    rewrite (foldl_insert_map m (order m) (Ho m)) in Hs |- *. rewrite (total_bytes_Permutation _ _ _ (Ho m)) in Hs.
    rewrite (Ho m) in Hf. go_cases.
    split_and!; (done || lia).
  - intros (Hf & Hs & Hb & ->). eexists. split; [split; [by rewrite (Ho m)|done]|]. cbv beta iota.
    rewrite (foldl_insert_map m (order m) (Ho m)), Z.add_0_l. rewrite (total_bytes_Permutation _ _ _ (Ho m)). rewrite !Z.gtb_ltb.
    rewrite !(proj2 (Z.ltb_ge _ _)) by lia. done.
Qed.

Definition query_entry (e : string * option (list string)) : Prop :=
  utf8_ValidString (fst e) = true /\ exists vs, snd e = Some vs /\ Forall (fun v => utf8_ValidString v = true) vs.
Definition query_pairs (e : string * option (list string)) : Z := len (default [] (snd e)).
Definition query_bytes (e : string * option (list string)) : Z :=
  foldr (fun v n => strlen (fst e) + strlen v + n) 0 (default [] (snd e)).

Lemma query_loop_Ok pairs total l out :
  query_loop pairs total l = Ok out <->
  Forall query_entry l /\ out = (pairs + total_bytes query_pairs l, total + total_bytes query_bytes l).
Proof.
  revert pairs total. induction l as [|[key values] l IH]; intros pairs total; cbn [query_loop].
  { rewrite Forall_nil. unfold total_bytes. simpl. rewrite !Z.add_0_r. naive_solver. }
  rewrite Forall_cons. unfold query_entry at 1. cbn [fst snd]. destruct values as [vs|]; [|naive_solver].
  destruct (utf8_ValidString key); cbn [negb fail_if rbind]; [|naive_solver].
  destruct (for_each _ vs) as [u|] eqn:Hf; cbn [rbind].
  - apply for_each_Ok in Hf. assert (Forall (fun v => utf8_ValidString v = true) vs) as Hv.
    { eapply Forall_impl; [exact Hf|]. intros v Hv%fail_if_Ok. by apply negb_false_iff. }
    rewrite IH. unfold total_bytes at 3 4. cbn [foldr]. fold (total_bytes query_pairs l) (total_bytes query_bytes l).
    unfold query_pairs at 2, query_bytes at 2. cbn [fst snd default from_option]. rewrite <-!Z.add_assoc. naive_solver.
  - split; [done|]. intros [[(_ & vs' & [= <-] & Hall) _] _].
    assert (for_each (fun v => fail_if (negb (utf8_ValidString v)) (PlainError "minicloudabi: invalid query value")) vs = Ok tt);
      [|congruence]. apply for_each_Ok. eapply Forall_impl; [exact Hall|]. intros v Hv. simpl. by rewrite Hv.
Qed.

Lemma validateQuery_Ok order m limits :
  (forall m', order m' ≡ₚ map_to_list m') ->
  validateQuery_in order (Some m) limits = Ok tt <->
  Forall query_entry (map_to_list m) /\ total_bytes query_pairs (map_to_list m) <= lm_QueryPairs limits /\
  total_bytes query_bytes (map_to_list m) <= lm_QueryBytes limits.
Proof.
  intros Ho. unfold validateQuery_in. rewrite rbind_Ok. setoid_rewrite query_loop_Ok. split.
  - intros ([pairs total] & [Hf [= -> ->]] & Hs%fail_if_Ok).
    rewrite !(total_bytes_Permutation _ _ _ (Ho m)) in Hs. rewrite (Ho m) in Hf. go_cases. split_and!; (done || lia).
  - intros (Hf & Hp & Hb). eexists. split; [split; [by rewrite (Ho m)|done]|]. cbv beta iota. rewrite !Z.add_0_l, !Z.gtb_ltb.
    rewrite !(total_bytes_Permutation _ _ _ (Ho m)), !(proj2 (Z.ltb_ge _ _)) by lia. done.
Qed.

Lemma upper_byte_not_lower b : is_lower (upper_byte b) = false.
Proof.
  unfold upper_byte. destruct (is_lower b) eqn:E; [|done]. unfold is_lower, in_range in *. go_cases.
  apply andb_false_iff. left. apply Z.leb_gt. lia.
Qed.

Lemma upper_codes_cons b c l :
  upper_codes (b :: c :: l) =
  if (b =? 0xC4) && (c =? 0xB1) then 73 :: upper_codes l
  else if (b =? 0xC5) && (c =? 0xBF) then 83 :: upper_codes l
  else upper_byte b :: upper_codes (c :: l).
Proof. done. Qed.

Lemma upper_codes_not_lower l : Forall (fun b => is_lower b = false) (upper_codes l).
Proof.
  induction l as [l IH] using (induction_ltof1 _ (@length Z)). unfold ltof in IH.
  destruct l as [|b [|c l]]; [constructor|repeat constructor; apply upper_byte_not_lower|]. rewrite upper_codes_cons.
  destruct (_ && _); [|destruct (_ && _)]; (constructor; [try done; apply upper_byte_not_lower|apply IH; simpl; lia]).
Qed.

Lemma upper_codes_fixed l :
  Forall (fun b => is_lower b = false) l -> forallb token_class l = true -> upper_codes l = l.
Proof.
  induction l as [|b l IH]; intros Hl Ht; [done|]. apply Forall_cons in Hl as [Hb Hl]. simpl in Ht.
  apply andb_true_iff in Ht as [Htb Ht]. specialize (IH Hl Ht).
  assert (upper_byte b = b) as Hu by (unfold upper_byte; by rewrite Hb).
  destruct l as [|c l]; [by cbn [upper_codes]; rewrite Hu|]. rewrite upper_codes_cons. assert (b < 128) as Hlt.
  { unfold token_class, one_of, is_alnum, is_upper, is_lower, is_digit, in_range in Htb. apply orb_true_iff in Htb as [Htb|Htb].
    - apply existsb_exists in Htb as (x & Hx & Heq). go_cases. subst x. revert Hx. generalize b. apply List.Forall_forall. repeat constructor.
    - go_cases. lia. }
  rewrite (proj2 (Z.eqb_neq b 0xC4)), (proj2 (Z.eqb_neq b 0xC5)) by lia. cbn [andb]. by rewrite IH, Hu.
Qed.

Lemma upper_codes_range l : Forall (fun b => 0 <= b < 256) l -> Forall (fun b => 0 <= b < 256) (upper_codes l).
Proof.
  induction l as [l IH] using (induction_ltof1 _ (@length Z)). unfold ltof in IH. intros Hl.
  assert (forall b, 0 <= b < 256 -> 0 <= upper_byte b < 256) as Hb.
  { intros b Hb. unfold upper_byte, is_lower, in_range. destruct (_ && _) eqn:E; [|done]. go_cases. lia. }
  destruct l as [|b [|c l]]; [constructor| |].
  - apply Forall_cons in Hl as [Hl _]. cbn [upper_codes]. constructor; [exact (Hb _ Hl)|constructor].
  - apply Forall_cons in Hl as [Hb0 Hl]. pose proof Hl as [_ Hl']%Forall_cons. rewrite upper_codes_cons.
    destruct (_ && _); [|destruct (_ && _)]; (constructor; [cbv beta; first [lia|exact (Hb _ Hb0)]|apply IH; [simpl; lia|done]]).
Qed.

Lemma ToUpper_codes s : codes (ToUpper s) = upper_codes (codes s).
Proof. apply json.codes_str_of, upper_codes_range, List.Forall_forall. intros b Hb. by apply (codes_range s), list_elem_of_In. Qed.

Lemma ToUpper_idempotent s : headerNamePattern (ToUpper s) = true -> ToUpper (ToUpper s) = ToUpper s.
Proof.
  unfold headerNamePattern, httpTokenPattern. intros [_ Ht]%andb_true_iff. apply codes_inj. rewrite !ToUpper_codes in *.
  apply upper_codes_fixed; [apply upper_codes_not_lower|done].
Qed.

(** What a normalized request satisfies. *)
Record normalized_request (limits : Limits) (r : Request) : Prop := {
  nr_version : rq_SpecVersion r = Version;
  nr_id : idPattern (rq_InvocationID r) = true;
  nr_method : ToUpper (rq_Method r) = rq_Method r /\ headerNamePattern (rq_Method r) = true /\
              strlen (rq_Method r) <= lm_MethodBytes limits;
  nr_path : validatePath (rq_Path r) (lm_PathBytes limits) = Ok tt;
  nr_deadline : 0 < rq_DeadlineUnixMS r;
  nr_body : strlen (rq_Body r) <= lm_BodyBytes limits;
  nr_trigger : validateTrigger (rq_Trigger r) = Ok tt;
  nr_query : exists m, rq_Query r = Some m /\ Forall query_entry (map_to_list m) /\
     total_bytes query_pairs (map_to_list m) <= lm_QueryPairs limits /\
     total_bytes query_bytes (map_to_list m) <= lm_QueryBytes limits;
  nr_headers : exists m, rq_Headers r = Some m /\ Forall (header_entry limits) (map_to_list m) /\
     Z.of_nat (size m) <= lm_HeaderCount limits /\ total_bytes header_bytes (map_to_list m) <= lm_HeaderBytes limits;
  nr_metadata : strlen (json.Marshal (requestWire (with_body r ""))) <= lm_MetadataBytes limits;
}.

Lemma headerNamePattern_nonempty s : headerNamePattern s = true -> 1 <= strlen s.
Proof. unfold headerNamePattern, httpTokenPattern. intros [Hl _]%andb_true_iff. by apply Z.leb_le. Qed.

Lemma normalizeRequest_Ok r limits r' :
  normalizeRequest r limits = Ok r' <->
  normalized_request limits r' /\ r' = with_method_headers r (ToUpper (rq_Method r)) (rq_Headers r).
Proof.
  unfold normalizeRequest. cbv zeta. split.
  - intros Hn. apply rbind_Ok in Hn as ([] & H1%fail_if_Ok & Hn). apply rbind_Ok in Hn as ([] & H2%fail_if_Ok & Hn).
    apply rbind_Ok in Hn as ([] & H3%fail_if_Ok & Hn). apply rbind_Ok in Hn as ([] & H4 & Hn).
    apply rbind_Ok in Hn as ([] & H5%fail_if_Ok & Hn). apply rbind_Ok in Hn as ([] & H6%fail_if_Ok & Hn).
    apply rbind_Ok in Hn as ([] & H7 & Hn). apply rbind_Ok in Hn as ([] & H8 & Hn).
    apply rbind_Ok in Hn as (h & H9 & Hn). apply rbind_Ok in Hn as ([] & H10%fail_if_Ok & Hn). apply Ok_inj in Hn. subst r'.
    destruct (rq_Query r) as [q|] eqn:Hq; [|done]. destruct (rq_Headers r) as [hm|] eqn:Hh; [|done].
    apply (validateQuery_Ok map_to_list) in H8 as (? & ? & ?); [|done].
    apply (normalizeHeaders_Ok map_to_list) in H9 as (? & ? & ? & ->); [|done]. go_cases.
    split; [|done]. split; cbn [with_method_headers rq_SpecVersion rq_InvocationID rq_Method rq_Path rq_Query rq_Headers rq_Body
      rq_DeadlineUnixMS rq_Trigger]; try done.
    + split_and!; try done; by apply ToUpper_idempotent.
    + by exists q.
    + by exists hm.
  - intros [[N1 N2 (N3 & N3' & N3'') N4 N5 N6 N7 (q & Nq & N8) (hm & Nh & N9 & N9' & N9'') N10] ->].
    cbn [with_method_headers rq_SpecVersion rq_InvocationID rq_Method rq_Path rq_Query rq_Headers rq_Body
      rq_DeadlineUnixMS rq_Trigger] in *. rewrite N1, N2, N3', N4, N7, Nq, Nh.
    pose proof (headerNamePattern_nonempty _ N3'). rewrite bool_decide_true by done.
    rewrite (proj2 (Z.eqb_neq (strlen (ToUpper (rq_Method r))) 0)) by lia. rewrite !Z.gtb_ltb.
    rewrite !(proj2 (Z.ltb_ge _ _)) by lia. rewrite (proj2 (Z.leb_gt (rq_DeadlineUnixMS r) 0)) by lia.
    unfold validateQuery, normalizeHeaders.
    cbn [negb orb fail_if rbind]. rewrite (proj2 (validateQuery_Ok map_to_list q limits (fun _ => reflexivity _))) by done.
    rewrite (proj2 (normalizeHeaders_Ok map_to_list hm limits (Some hm) (fun _ => reflexivity _))) by done.
    cbn [rbind]. rewrite Nh in N10. unfold request_metadata, check_size. rewrite Z.gtb_ltb, (proj2 (Z.ltb_ge _ _)) by lia. done.
Qed.

(** What reached the writer. *)
Definition buffer : Type := list string.
Definition buffer_Write (data : string) : M buffer Z := fun w => (w ++ [data], Ok (strlen data)).

(** Normalizing a request only brings it into canonical form.  It
    succeeds exactly on requests within the limits, changes nothing but the
    case of the method, is idempotent, and does not depend on the order in
    which Go iterates over headers and query.  A request that [EncodeRequest]
    accepts is written once, in that canonical form and within the size
    limit; a refused one writes nothing. *)
Theorem normalizeRequest_canonical r limits :
  (forall r', normalizeRequest r limits = Ok r' ->
     normalizeRequest r' limits = Ok r' /\ normalized_request limits r' /\
     rq_Method r' = ToUpper (rq_Method r) /\ r' = with_method_headers r (rq_Method r') (rq_Headers r)) /\
  (normalized_request limits r -> normalizeRequest r limits = Ok r) /\
  (forall order, (forall m, order m ≡ₚ map_to_list m) ->
     is_ok (validateQuery_in order (rq_Query r) limits) = is_ok (validateQuery (rq_Query r) limits) /\
     (forall h, normalizeHeaders_in order (rq_Headers r) limits = Ok h <-> normalizeHeaders (rq_Headers r) limits = Ok h)) /\
  (forall w, match EncodeRequest buffer_Write r limits w with
     | (w', Ok _) => exists effective r', normalizeLimits limits = Ok effective /\ normalizeRequest r effective = Ok r' /\
         w' = w ++ [json.Marshal (requestWire r')] /\ strlen (json.Marshal (requestWire r')) <= lm_RawEnvelopeBytes effective
     | (w', Err _) => w' = w
     end).
Proof.
  split_and!.
  - intros r' [Hn Hr]%normalizeRequest_Ok. split_and!; try done.
    + apply normalizeRequest_Ok. split; [done|]. rewrite (proj1 (nr_method _ _ Hn)). by destruct r'.
    + by rewrite Hr.
    + rewrite Hr at 2. simpl. by rewrite Hr.
  - intros Hn. apply normalizeRequest_Ok. split; [done|]. rewrite (proj1 (nr_method _ _ Hn)). by destruct r.
  - intros order Ho. split.
    + apply eq_true_iff_eq. rewrite !is_ok_unit. destruct (rq_Query r) as [q|]; [|done].
      unfold validateQuery. rewrite !validateQuery_Ok; done.
    + intros h. destruct (rq_Headers r) as [hm|]; [|done]. unfold normalizeHeaders. rewrite !normalizeHeaders_Ok; done.
  - intros w. unfold EncodeRequest, encodeEnvelope, buffer_Write, sbind, slift.
    destruct (normalizeLimits limits) as [effective|]; [|done]. destruct (normalizeRequest r effective) as [r'|] eqn:Hn; [|done].
    destruct (fail_if _ _) as [[]|] eqn:Hs; [|done]. cbn [wrap_err]. rewrite Z.eqb_refl. cbn [negb fail_if].
    apply fail_if_Ok in Hs. go_cases. exists effective, r'. split_and!; (done || lia).
Qed.

(** ** Witnesses *)
Definition ex_limits : Limits := zip_limits (fun _ _ => 0) defaults defaults.
Definition ex_lower : Limits :=
  {| lm_RawEnvelopeBytes := 2000; lm_MetadataBytes := 1000; lm_BodyBytes := 0; lm_HeaderCount := 2; lm_HeaderBytes := 0;
     lm_HeaderValueBytes := 0; lm_QueryPairs := 0; lm_QueryBytes := 0; lm_JSONDepth := 0; lm_MethodBytes := 8; lm_PathBytes := 0 |}.
Definition ex_request : Request :=
  {| rq_SpecVersion := "1.0"; rq_InvocationID := "inv_1"; rq_Method := "post"; rq_Path := "/a%20b";
     rq_Query := Some {[ "q"%string := Some ["1"; "2"]%string ]};
     rq_Headers := Some {[ "accept"%string := Some ["text/plain"]%string ]}; rq_Body := "hello";
     rq_DeadlineUnixMS := 1; rq_Trigger := {| tg_Type := "http"; tg_ID := "tr_1"; tg_ResourceRevision := 0; tg_FireID := "";
       tg_ScheduledTimeUTC := ""; tg_ReceiptID := ""; tg_EventID := ""; tg_SourceID := ""; tg_EventType := "";
       tg_OccurredAt := ""; tg_ContentType := "" |} |}.

Lemma Tighten_narrows_witness :
  exists limits, Tighten ex_limits ex_lower = Ok limits /\ lm_HeaderCount limits = 2 /\ in_bounds limits.
Proof.
  destruct (Tighten ex_limits ex_lower) as [limits|] eqn:E; [|exfalso; revert E; vm_compute; discriminate].
  exists limits. split; [exact eq_refl|]. split; [|apply (Tighten_narrows ex_limits ex_lower limits E)].
  revert E. vm_compute. intros [= <-]. exact eq_refl.
Defined.

Lemma normalizeRequest_canonical_witness :
  rq_Method ex_request = "post"%string /\
  exists r', normalizeRequest ex_request defaults = Ok r' /\ rq_Method r' = "POST"%string.
Proof.
  split; [exact eq_refl|]. destruct (normalizeRequest ex_request defaults) as [r'|] eqn:E; [|exfalso; revert E; vm_compute; discriminate].
  exists r'. split; [exact eq_refl|]. destruct (normalizeRequest_canonical ex_request defaults) as (H & _).
  destruct (H r' E) as (_ & _ & -> & _). vm_compute. exact eq_refl.
Defined.

End abi.
