(* ===== verification/GatewayInvoke.v ===== *)
(** * Package [internal/gatewayinvoke]: one invocation through the Gateway

    An invocation looks up the serving view, selects a Route target, takes an
    Endpoint of it and calls the Worker there with the exact fence.  Other
    goroutines use the store and the balancer meanwhile: what they do between
    two steps is an argument.  The resolver and the Worker call behind it are
    interfaces and parameters; the calls that reach a Worker are recorded. *)
From stdpp Require Import base gmap strings list sorting.
From S2P Require Import Prelude Problem Digest Json Model Routing ServingAuth Scheduler Net Discovery GatewayRoute GatewayDiscovery Abi.
Import problem digest model servingauth discovery.

#[local] Open Scope Z_scope.

Module gatewayinvoke.

(** [Execution] is [wasmexec.Result], which this package passes on. *)
Section invoke.
Context `{JCS} {Execution : Type} (zero_execution : Execution).

Record Request := {
  iq_FunctionID : string;
  iq_AffinityKey : string;
  iq_Invocation : abi.Request;
  iq_Timeout : Z;
}.

Record Result := {
  ir_InvocationID : string;
  ir_VersionID : string;
  ir_RouteRevision : Z;
  ir_DiscoveryEpoch : Z;
  ir_Endpoint : Endpoint;
  ir_Execution : Execution;
}.

Definition zero_identity : AssignmentIdentity :=
  {| ai_Worker := {| ws_WorkerID := ""; ws_BootID := ""; ws_SessionEpoch := 0 |}; ai_AssignmentID := "";
     ai_VersionID := ""; ai_AdmissionEpoch := 0; ai_DeploymentGeneration := 0; ai_PolicyDigest := ""; ai_Mode := "" |}.
Definition zero_result : Result :=
  {| ir_InvocationID := ""; ir_VersionID := ""; ir_RouteRevision := 0; ir_DiscoveryEpoch := 0;
     ir_Endpoint := {| en_Assignment := zero_identity; en_Address := ""; en_State := "" |};
     ir_Execution := zero_execution |}.

(** The interfaces: a nil invoker is [None]; a call returns a value and an
    error. *)
Definition EndpointInvoker : Type := InvocationFence -> abi.Request -> Z -> Execution * option error.
Definition EndpointResolver : Type := string -> result (option EndpointInvoker).

(** The components a Gateway shares with other goroutines. *)
Record Gateway := { gw_discovery : gatewaydiscovery.Store; gw_balancer : gatewayroute.World }.

Definition New (discovery : gatewaydiscovery.Store) (balancer : option gatewayroute.World) : Gateway :=
  {| gw_discovery := discovery; gw_balancer := default gatewayroute.start balancer |}.

(** One call of the Worker RPC. *)
Record Call := { cl_Address : string; cl_Fence : InvocationFence; cl_Request : abi.Request; cl_Timeout : Z }.

Record Outcome := { oc_Gateway : Gateway; oc_Result : Result; oc_Error : option error; oc_Calls : list Call }.

Definition servingRoute (route : Route) : ServingRoute :=
  {| model.sr_FunctionID := sr_FunctionID route; model.sr_RouteRevision := sr_RouteRevision route;
     model.sr_Targets := sr_Targets route; model.sr_HashVersion := sr_HashVersion route; model.sr_Salt := sr_Salt route;
     model.sr_Enabled := sr_Enabled route |}.

Definition fails (g : Gateway) (err : error) : Outcome :=
  {| oc_Gateway := g; oc_Result := zero_result; oc_Error := Some err; oc_Calls := [] |}.

(** The call of the Worker, after the lease was taken: result, error, calls. *)
Definition call_endpoint (resolver : EndpointResolver) (request : Request) (res : Result)
    : Result * option error * list Call :=
  match resolver (en_Address (ir_Endpoint res)) with
  | Err err => (res, Some (WrapError "resolving endpoint" err), [])
  | Ok None => (res, Some (PlainError "resolving endpoint: resolver returned no worker invoker"), [])
  | Ok (Some invoker) =>
    let fence := {| if_Assignment := en_Assignment (ir_Endpoint res); if_DiscoveryEpoch := ir_DiscoveryEpoch res |} in
    let '(execution, err) := invoker fence (iq_Invocation request) (iq_Timeout request) in
    ({| ir_InvocationID := ir_InvocationID res; ir_VersionID := ir_VersionID res; ir_RouteRevision := ir_RouteRevision res;
        ir_DiscoveryEpoch := ir_DiscoveryEpoch res; ir_Endpoint := ir_Endpoint res; ir_Execution := execution |},
     WrapError "invoking endpoint" <$> err,
     [{| cl_Address := en_Address (ir_Endpoint res); cl_Fence := fence; cl_Request := iq_Invocation request;
         cl_Timeout := iq_Timeout request |}])
  end.

(** [cancelled] is [ctx.Err()] on entry, [clock] what the store reads;
    [selecting] and [calling] are what other goroutines do between the lookup
    and the acquisition, and until the lease is released. *)
Definition Invoke (resolver : EndpointResolver) (cancelled : option error) (clock : Z)
    (selecting calling : Gateway -> Gateway) (request : Request) (g : Gateway) : Outcome :=
  match cancelled with
  | Some err => fails g err
  | None =>
    let '(store, found) := gatewaydiscovery.Lookup clock (iq_FunctionID request) (gw_discovery g) in
    let g := {| gw_discovery := store; gw_balancer := gw_balancer g |} in
    match found with
    | Err err => fails g (WrapError "looking up serving view" err)
    | Ok view =>
      let s := gatewaydiscovery.vw_Snapshot view in
      if (sf_Lifecycle (sn_Function s) != FunctionActive) || negb (sg_Enabled (sn_Trigger s)) || negb (sr_Present (sn_Route s))
      then fails g (classified CodeFunctionDisabled "function does not have an enabled serving view")
      else match routing.SelectServing (servingRoute (sn_Route s)) (iq_AffinityKey request) with
      | Err err => fails g (WrapError "selecting route target" err)
      | Ok decision =>
        let g := selecting g in
        let '(balancer, acquired) :=
          gatewayroute.Acquire (iq_FunctionID request) (routing.dec_Target decision) (gatewaydiscovery.vw_Endpoints view) (gw_balancer g) in
        let g := {| gw_discovery := gw_discovery g; gw_balancer := balancer |} in
        match acquired with
        | Err err => fails g (WrapError "acquiring endpoint" err)
        | Ok lease =>
          let res := {| ir_InvocationID := abi.rq_InvocationID (iq_Invocation request);
                        ir_VersionID := rt_VersionID (routing.dec_Target decision);
                        ir_RouteRevision := sr_RouteRevision (sn_Route s);
                        ir_DiscoveryEpoch := sn_DiscoveryEpoch s;
                        ir_Endpoint := gatewayroute.ls_Endpoint lease; ir_Execution := zero_execution |} in
          let '(res, err, calls) := call_endpoint resolver request res in
          let g := calling g in
          {| oc_Gateway := {| gw_discovery := gw_discovery g;
                              gw_balancer := gatewayroute.Release lease (gw_balancer g) |};
             oc_Result := res; oc_Error := err; oc_Calls := calls |}
        end
      end
    end
  end.

(** ** What reaches a Worker *)
Lemma serves_matches target e : gatewayroute.serves target e = true -> matches_target target (en_Assignment e).
Proof. unfold gatewayroute.serves, matches_target. cbv zeta. intros Hs. go_cases. split_and!; congruence. Qed.

(** The view that an invocation is based on, where the control plane published it. *)
Lemma Lookup_published builder history config elapsed s0 ops clock functionID s' v :
  gatewaydiscovery.New config elapsed = Ok s0 ->
  (forall clock event, gatewaydiscovery.OpApply clock event ∈ ops ->
     exists epoch, event ∈ gatewaydiscovery.published builder history epoch) ->
  gatewaydiscovery.Lookup clock functionID (gatewaydiscovery.gateway_run s0 ops) = (s', Ok v) ->
  exists epoch op input sequence r, op ∈ history epoch /\ input ∈ op_inputs op /\
    Build (builder epoch) (at_position input epoch sequence) = Ok r /\
    gatewaydiscovery.vw_Snapshot v = re_Snapshot r /\ sn_FunctionID (re_Snapshot r) = functionID /\
    (forall e, e ∈ gatewaydiscovery.vw_Endpoints v -> e ∈ endpoints (re_Snapshot r)).
Proof.
  intros Hnew Hops Hl. set (s := gatewaydiscovery.gateway_run s0 ops) in *.
  pose proof (gatewaydiscovery.gateway_run_consistent builder history ops s0 Hops (gatewaydiscovery.New_consistent _ _ _ _ _ Hnew)) as Hc.
  fold s in Hc. apply gatewaydiscovery.Lookup_Ok in Hl as (_ & Hf & _ & _ & record & Hrec & _ & ->).
  destruct (gatewaydiscovery.co_synced _ _ _ Hc Hf) as [_ Hview]. cbv zeta in Hview.
  assert (gatewaydiscovery.snapshots_of s !! functionID = Some (gatewaydiscovery.fr_snapshot record)) as Hs
    by (unfold gatewaydiscovery.snapshots_of; by rewrite lookup_fmap, Hrec).
  rewrite Hview in Hs. pose proof (gatewaydiscovery.view_at_key _ _ _ _ Hs) as Hkey.
  destruct (gatewaydiscovery.view_at_event _ _ _ _ Hs) as (event & He & Hin).
  unfold gatewaydiscovery.published in He. assert (is_u64 0) as Hz by done.
  destruct (gatewaydiscovery.stream_built _ (Build_Publisher _ _ 0) _ _ Hz He Hin) as (op & input & sequence & r & Hop & Hi & Hb & Hr).
  simpl in Hb. eexists _, op, input, sequence, r. split_and!; try done; [by rewrite <-Hr|].
  intros e. rewrite gatewaydiscovery.visible_endpoints, <-Hr, !list_elem_of_In, filter_In. by intros [? _].
Qed.

Lemma call_endpoint_calls resolver request res :
  let '(res', err, calls) := call_endpoint resolver request res in
  (length calls <= 1)%nat /\ ir_VersionID res' = ir_VersionID res /\
  forall call, call ∈ calls ->
    cl_Address call = en_Address (ir_Endpoint res) /\ cl_Request call = iq_Invocation request /\
    cl_Fence call = {| if_Assignment := en_Assignment (ir_Endpoint res); if_DiscoveryEpoch := ir_DiscoveryEpoch res |}.
Proof.
  unfold call_endpoint. destruct (resolver _) as [[invoker|]|err]; simpl; try (split_and!; [lia|done|set_solver]).
  destruct (invoker _ _ _) as [execution err]. simpl. split_and!; [lia|done|]. intros call.
  rewrite list_elem_of_singleton. intros ->. done.
Qed.

(** What is known about a call that reaches a Worker. *)
Record justified (builder : Z -> Builder) (history : Z -> list publisher_op) (request : Request) (res : Result) (call : Call)
    (epoch : Z) (input : Input) (s : Snapshot) (c : EndpointCandidate) (decision : routing.Decision) : Prop := {
  ju_input : exists op, op ∈ history epoch /\ input ∈ op_inputs op;
  ju_built : exists sequence r, Build (builder epoch) (at_position input epoch sequence) = Ok r /\ s = re_Snapshot r;
  ju_function : sn_FunctionID s = iq_FunctionID request;
  ju_enabled : serving_enabled s = true;
  ju_candidate : c ∈ ip_Candidates input /\ publishable s c;
  ju_decision : routing.SelectServing (servingRoute (sn_Route s)) (iq_AffinityKey request) = Ok decision;
  ju_target : matches_target (routing.dec_Target decision) (if_Assignment (cl_Fence call));
  ju_fence : au_Fence <$> ec_Authorization c = Some (cl_Fence call);
  ju_address : ec_Address c = cl_Address call;
  ju_request : cl_Request call = iq_Invocation request;
  ju_version : ir_VersionID res = ai_VersionID (if_Assignment (cl_Fence call));
}.

Lemma Build_at_position_candidates input epoch sequence : ip_Candidates (at_position input epoch sequence) = ip_Candidates input.
Proof. done. Qed.

(** The counts after an acquisition, interference and the release. *)
Lemma leased_counts n ops2 key chosen w :
  gatewayroute.accounted n w -> Z.of_nat n + len ops2 + 1 <= maxUint64 ->
  let released := gatewayroute.Release {| gatewayroute.ls_Endpoint := chosen; gatewayroute.ls_state := Some (gatewayroute.wd_next w) |}
    (gatewayroute.balancer_run (gatewayroute.acquired key (en_Assignment chosen) w) ops2) in
  gatewayroute.accounted (n + S (length ops2)) released /\
  (ops2 = [] -> gatewayroute.bl_inflight (gatewayroute.wd_balancer released) = gatewayroute.bl_inflight (gatewayroute.wd_balancer w)).
Proof.
  intros Ha Hn released. unfold len in Hn. split.
  - apply gatewayroute.Release_accounted; [lia|]. replace (n + S (length ops2))%nat with (S n + length ops2)%nat by lia.
    apply gatewayroute.balancer_run_accounted; [unfold len; lia|]. apply gatewayroute.acquired_accounted; [lia|done].
  - intros ->. apply (gatewayroute.acquired_release n); [simpl in Hn; lia|done].
Qed.

(** The call that an acquired Endpoint of a published view leads to. *)
Lemma acquired_justified builder history request epoch op input sequence r view decision w w' lease resolver :
  op ∈ history epoch -> input ∈ op_inputs op -> Build (builder epoch) (at_position input epoch sequence) = Ok r ->
  gatewaydiscovery.vw_Snapshot view = re_Snapshot r -> sn_FunctionID (re_Snapshot r) = iq_FunctionID request ->
  (forall e, e ∈ gatewaydiscovery.vw_Endpoints view -> e ∈ endpoints (re_Snapshot r)) ->
  routing.SelectServing (servingRoute (sn_Route (re_Snapshot r))) (iq_AffinityKey request) = Ok decision ->
  gatewayroute.Acquire (iq_FunctionID request) (routing.dec_Target decision) (gatewaydiscovery.vw_Endpoints view) w = (w', Ok lease) ->
  let res := {| ir_InvocationID := abi.rq_InvocationID (iq_Invocation request);
                ir_VersionID := rt_VersionID (routing.dec_Target decision);
                ir_RouteRevision := sr_RouteRevision (sn_Route (re_Snapshot r));
                ir_DiscoveryEpoch := sn_DiscoveryEpoch (re_Snapshot r);
                ir_Endpoint := gatewayroute.ls_Endpoint lease; ir_Execution := zero_execution |} in
  let '(res', err, calls) := call_endpoint resolver request res in
  (length calls <= 1)%nat /\ forall call, call ∈ calls ->
    exists c, justified builder history request res' call epoch input (re_Snapshot r) c decision.
Proof.
  intros Hop Hi Hb Hs Hf Hpub Hd (_ & Hl & _ & _)%gatewayroute.Acquire_Ok res.
  pose proof (call_endpoint_calls resolver request res) as Hc.
  destruct (call_endpoint resolver request res) as [[res' err] calls]. destruct Hc as (Hlen & Hv & Hc). split; [done|].
  intros call (Haddr & Hreq & Hfence)%Hc. cbv zeta in Hl. apply list_elem_of_lookup_2, gatewayroute.elem_of_least_loaded in Hl as (He & Hserves & _).
  destruct (Build_endpoints _ _ _ Hb) as [Hends _]. apply Hpub, Hends in He as (c & Hc' & Hp & Hce). exists c.
  apply serves_matches in Hserves. simpl in Haddr, Hfence, Hv.
  assert (gatewayroute.ls_Endpoint lease = endpoint_of c) as Hle by done. rewrite Hle in *. simpl in *.
  split; try done.
  - eauto.
  - eauto.
  - apply (pb_serving _ _ Hp).
  - by rewrite Hfence.
  - destruct (pb_authorized _ _ Hp) as (a & -> & _ & Hau). simpl. by rewrite Hau, Hfence.
  - rewrite Hv, Hfence. apply Hserves.
Qed.

(** The lease is returned: if other goroutines call the balancer [ops1] and
    [ops2] meanwhile, the in-flight counts are exact afterwards. *)
Definition lease_returned (balancer : gatewayroute.World) (selecting calling : Gateway -> Gateway) (out : Outcome) : Prop :=
  forall n ops1 ops2,
    gatewayroute.accounted n balancer -> Z.of_nat n + len ops1 + len ops2 + 1 <= maxUint64 ->
    (forall g, gw_balancer (selecting g) = gatewayroute.balancer_run (gw_balancer g) ops1) ->
    (forall g, gw_balancer (calling g) = gatewayroute.balancer_run (gw_balancer g) ops2) ->
    gatewayroute.accounted (n + length ops1 + S (length ops2)) (gw_balancer (oc_Gateway out)) /\
    (ops1 = [] -> ops2 = [] ->
     gatewayroute.bl_inflight (gatewayroute.wd_balancer (gw_balancer (oc_Gateway out))) =
     gatewayroute.bl_inflight (gatewayroute.wd_balancer balancer)).

Lemma lease_returned_early balancer selecting calling g err :
  gw_balancer g = balancer -> lease_returned balancer selecting calling (fails g err).
Proof.
  intros Hg n ops1 ops2 Ha _ _ _. simpl. rewrite Hg. split; [|done]. eapply gatewayroute.accounted_mono; [|exact Ha]. lia.
Qed.

(** C16: An invocation is fenced end to end.  The serving views come from the
    Publishers' events, delivered to the Gateway in any way, and other
    goroutines may interfere between its steps.  Then an invocation calls at
    most one Worker; if it does, the Function was published as servable, the
    affinity key selects a Route target, and the call goes to the address of
    a candidate that the control plane published for exactly that target,
    with exactly the fence of the authorization installed for the candidate.
    Whatever the outcome, the lease is returned: the in-flight counts stay
    exact, and without interference they are what they were. *)
Theorem Invoke_fenced builder history config elapsed s0 ops balancer resolver cancelled clock selecting calling request :
  gatewaydiscovery.New config elapsed = Ok s0 ->
  (forall clock event, gatewaydiscovery.OpApply clock event ∈ ops ->
     exists epoch, event ∈ gatewaydiscovery.published builder history epoch) ->
  let g := {| gw_discovery := gatewaydiscovery.gateway_run s0 ops; gw_balancer := balancer |} in
  let out := Invoke resolver cancelled clock selecting calling request g in
  (length (oc_Calls out) <= 1)%nat /\
  (forall call, call ∈ oc_Calls out -> exists epoch input s c decision,
     justified builder history request (oc_Result out) call epoch input s c decision) /\
  lease_returned balancer selecting calling out.
Proof.
  intros Hnew Hops g out. subst out. unfold Invoke.
  assert (forall g' err, gw_balancer g' = balancer ->
    (length (oc_Calls (fails g' err)) <= 1)%nat /\
    (forall call, call ∈ oc_Calls (fails g' err) -> exists epoch input s c decision,
       justified builder history request (oc_Result (fails g' err)) call epoch input s c decision) /\
    lease_returned balancer selecting calling (fails g' err)) as Hfails.
  { intros g' err Hg'. split_and!; [simpl; lia|simpl; set_solver|by apply lease_returned_early]. }
  destruct cancelled as [err|]; [by apply Hfails|].
  destruct (gatewaydiscovery.Lookup clock (iq_FunctionID request) (gw_discovery g)) as [store found] eqn:Hl.
  destruct found as [view|err]; [|by apply Hfails]. destruct (_ || _) eqn:Hen; [by apply Hfails|].
  destruct (routing.SelectServing _ _) as [decision|err] eqn:Hd; [|by apply Hfails].
  destruct (Lookup_published _ _ _ _ _ _ _ _ _ _ Hnew Hops Hl) as (epoch & op & input & sequence & r & Hop & Hi & Hb & Hs & Hf & Hpub).
  rewrite Hs in Hd |- *. set (g1 := {| gw_discovery := store; gw_balancer := balancer |}).
  change {| gw_discovery := store; gw_balancer := gw_balancer g |} with g1.
  destruct (gatewayroute.Acquire _ _ _ _) as [balancer' acquired] eqn:Ha. destruct acquired as [lease|err].
  2:{ apply gatewayroute.Acquire_Err in Ha as ->. split_and!; [simpl; lia|simpl; set_solver|].
    intros n ops1 ops2 Hacc Hn H1 _. simpl. rewrite H1. simpl. unfold len in Hn. split; [|by intros ->].
    apply (gatewayroute.accounted_mono (n + length ops1)); [lia|].
    apply gatewayroute.balancer_run_accounted; [unfold len; lia|done]. }
  pose proof (acquired_justified builder history request epoch op input sequence r view decision _ _ _ resolver
    Hop Hi Hb Hs Hf Hpub Hd Ha) as Hj. cbv zeta in Hj.
  destruct (call_endpoint _ _ _) as [[res err] calls]. destruct Hj as [Hlen Hj]. split_and!; [done| |].
  { intros call Hc. destruct (Hj call Hc) as [c ?]. by exists epoch, input, (re_Snapshot r), c, decision. }
  intros n ops1 ops2 Hacc Hn H1 H2. apply gatewayroute.Acquire_Ok in Ha as (_ & _ & Hst & ->).
  unfold len in Hn. cbn [oc_Gateway gw_balancer]. rewrite H2. cbn [gw_balancer].
  destruct lease as [chosen st]. simpl in Hst. subst st. cbn [gatewayroute.ls_Endpoint].
  destruct (leased_counts (n + length ops1) ops2 (gatewayroute.target_key_of (iq_FunctionID request) (routing.dec_Target decision))
    chosen (gw_balancer (selecting g1))) as [Hc1 Hc2].
  - rewrite H1. apply gatewayroute.balancer_run_accounted; [unfold len; simpl; lia|done].
  - unfold len. lia.
  - split; [exact Hc1|]. intros -> ->. etransitivity; [by apply Hc2|]. by rewrite H1.
Qed.

End invoke.

(** ** Witness: a call through a synchronized store *)
#[local] Existing Instance ex_jcs.
Definition ex_request : Request :=
  {| iq_FunctionID := "fn_1"; iq_AffinityKey := "user_7"; iq_Invocation := abi.ex_request; iq_Timeout := 1000 |}.
(** The Worker answers with the number 42; the resolver knows one address. *)
Definition ex_resolver : EndpointResolver (Execution := Z) := fun address =>
  if String.eqb address "10.0.0.7:8443" then Ok (Some (fun _ _ _ => (42, None)))
  else Err (PlainError "no route to host").
Definition ex_out (store : gatewaydiscovery.Store) : Outcome :=
  Invoke 0 ex_resolver None 9 id id ex_request {| gw_discovery := store; gw_balancer := gatewayroute.start |}.

Lemma Invoke_fenced_witness :
  let out := ex_out (gatewaydiscovery.gateway_run gatewaydiscovery.ex_empty gatewaydiscovery.ex_ops) in
  map cl_Address (oc_Calls out) = ["10.0.0.7:8443"]%string /\ ir_Execution (oc_Result out) = 42 /\
  (forall call, call ∈ oc_Calls out -> exists epoch input s c decision,
     justified (fun _ => ex_builder) gatewaydiscovery.ex_history ex_request (oc_Result out) call epoch input s c decision).
Proof.
  intros out. split; [subst out; rewrite gatewaydiscovery.ex_run; vm_compute; exact eq_refl|].
  split; [subst out; rewrite gatewaydiscovery.ex_run; vm_compute; exact eq_refl|].
  refine (proj1 (proj2 (Invoke_fenced 0 (fun _ => ex_builder) gatewaydiscovery.ex_history gatewaydiscovery.ex_config 0
    gatewaydiscovery.ex_empty gatewaydiscovery.ex_ops gatewayroute.start ex_resolver None 9 id id ex_request
    gatewaydiscovery.ex_store_new _))).
  intros clock event Hin. exists 3. exact (gatewaydiscovery.ex_ops_published clock event Hin).
Defined.

End gatewayinvoke.
