(* ===== verification/AssignmentStore.v ===== *)
(** * Package [internal/controlplane], assignment.go: committed placements

    An Assignment is installed against the current Ready Route of its Function
    under all four store locks, and later cancelled by its own revision.  The
    store counts the Assigned records of each target. *)
From stdpp Require Import base gmap strings list sorting.
From S2P Require Import Prelude Problem Digest Model Catalog ValidatorProtocol Release RouteStore ServingAuth Scheduler.
Import problem digest model catalog release routestore servingauth scheduler.

Module assignment.

Definition defaultMaxAssignments : Z := 100000.
Definition AssignmentAssigned : string := "Assigned".
Definition AssignmentCancelled : string := "Cancelled".

Record AssignmentRecord := {
  ar_FunctionID : string;
  ar_Placement : Assignment;
  ar_DesiredState : string;
  ar_CreatedAt : Time;
  ar_UpdatedAt : Time;
  ar_CreatedRaftIndex : Z;
  ar_LastAppliedIndex : Z;
  ar_ResourceRevision : Z;
}.

Definition Identity (r : AssignmentRecord) : AssignmentIdentity :=
  let p := ar_Placement r in
  {| ai_Worker := a_Worker p; ai_AssignmentID := a_AssignmentID p; ai_VersionID := a_VersionID p;
     ai_AdmissionEpoch := a_AdmissionEpoch p; ai_DeploymentGeneration := a_DeploymentGeneration p;
     ai_PolicyDigest := a_PolicyDigest p; ai_Mode := ModeNormal |}.

Record InstallAssignmentCommand := {
  ia_FunctionID : string;
  ia_Placement : Assignment;
  ia_IfNoneMatch : bool;
  ia_ExpectedScalingRevision : Z;
  ia_AppliedIndex : Z;
  ia_UpdatedAt : Time;
}.

Record CancelAssignmentCommand := {
  cn_AssignmentID : string;
  cn_ExpectedResourceRevision : Z;
  cn_AppliedIndex : Z;
  cn_UpdatedAt : Time;
}.

Record assignmentTarget := {
  at_functionID : string;
  at_versionID : string;
  at_admissionEpoch : Z;
  at_deploymentGeneration : Z;
}.

#[global] Instance assignmentTarget_eq_dec : EqDecision assignmentTarget.
Proof. solve_decision. Defined.
#[global] Instance assignmentTarget_countable : Countable assignmentTarget.
Proof.
  refine (inj_countable'
    (fun t => (at_functionID t, at_versionID t, at_admissionEpoch t, at_deploymentGeneration t))
    (fun '(f, v, e, g) => Build_assignmentTarget f v e g) _).
  by intros [].
Defined.

Record AssignmentStore := {
  maxAssignments : Z;
  records : gmap string AssignmentRecord;
  activeCounts : gmap assignmentTarget Z;
}.

Definition NewAssignmentStore : AssignmentStore :=
  {| maxAssignments := defaultMaxAssignments; records := ∅; activeCounts := ∅ |}.

Definition assignmentTargetFor (functionID : string) (target : RouteTarget) : assignmentTarget :=
  {| at_functionID := functionID; at_versionID := rt_VersionID target;
     at_admissionEpoch := rt_AdmissionEpoch target;
     at_deploymentGeneration := rt_DeploymentGeneration target |}.

Definition assignmentTargetForRecord (r : AssignmentRecord) : assignmentTarget :=
  {| at_functionID := ar_FunctionID r; at_versionID := a_VersionID (ar_Placement r);
     at_admissionEpoch := a_AdmissionEpoch (ar_Placement r);
     at_deploymentGeneration := a_DeploymentGeneration (ar_Placement r) |}.

Definition active (s : AssignmentStore) (t : assignmentTarget) : Z := default 0 (activeCounts s !! t).

Definition validateInstallAssignment (command : InstallAssignmentCommand) : result unit :=
  fail_if (negb (identifierPattern (ia_FunctionID command)))
    (Invalid "function_id" "must be a valid identifier") ;;;
  fail_if (negb (ia_IfNoneMatch command))
    (Invalid "if_none_match" "must be true when creating assignment intent") ;;;
  fail_if (ia_ExpectedScalingRevision command =? 0)
    (Invalid "expected_scaling_revision" "must be greater than zero") ;;;
  wrap_err "validating assignment placement" (Assignment_Validate (ia_Placement command)) ;;;
  fail_if (ia_AppliedIndex command =? 0) (Invalid "applied_index" "must be greater than zero") ;;;
  validateUTC "updated_at" (ia_UpdatedAt command).

Definition validateCancelAssignment (command : CancelAssignmentCommand) : result unit :=
  fail_if (negb (identifierPattern (cn_AssignmentID command)))
    (Invalid "assignment_id" "must be a valid identifier") ;;;
  fail_if (cn_ExpectedResourceRevision command =? 0)
    (Invalid "expected_resource_revision" "must be greater than zero") ;;;
  fail_if (cn_AppliedIndex command =? 0) (Invalid "applied_index" "must be greater than zero") ;;;
  validateUTC "updated_at" (cn_UpdatedAt command).

Definition targetMatches (placement : Assignment) (target : RouteTarget) : bool :=
  (a_VersionID placement == rt_VersionID target)
  && (a_AdmissionEpoch placement =? rt_AdmissionEpoch target)
  && (a_DeploymentGeneration placement =? rt_DeploymentGeneration target)
  && (a_PolicyDigest placement == rt_EffectivePolicyDigest target).

Definition runtimeMatches (placement : Assignment) (version : Version) (deployment : Deployment) : bool :=
  (a_ArtifactDigest placement == v_ArtifactDigest version)
  && (a_ArtifactSize placement =? v_ArtifactSize version)
  && (a_ABI placement == v_ABI version)
  && (a_HostAPI placement == v_HostAPIProfile version)
  && (a_FeatureProfile placement == v_RuntimeFeatureProfile version)
  && (a_MemoryMiB placement =? rl_MemoryMiB (d_ResourceLimits deployment)).

(** The ready-target check has found the Version and the Deployment that the
    two map reads at the end return, so the zero values Go would return for
    absent keys do not arise. *)
Definition validatePlacementLocked (s : Stores) (command : InstallAssignmentCommand)
    : result (RouteTarget * Deployment) :=
  let placement := ia_Placement command in
  let no_route := classified CodeConflict "assignment function has no current enabled route" in
  match functionsByID (st_catalog s) !! ia_FunctionID command with
  | None => Err (classified CodeNotFound "assignment function was not found")
  | Some function =>
    fail_if (fn_Lifecycle function != FunctionActive)
      (classified CodeConflict "assignment function is not active") ;;;
    match routes (st_routes s) !! ia_FunctionID command with
    | None => Err no_route
    | Some route =>
      fail_if (negb (r_Enabled route) || negb (r_RouteRevision route =? fn_ActiveRouteRevision function))
        no_route ;;;
      wrap_err "validating assignment route target"
        (validateReadyTargetLocked (st_releases s) route function) ;;;
      fail_if (time_Before (ia_UpdatedAt command) (md_UpdatedAt (r_Metadata route))
               || (ia_AppliedIndex command <=? md_CreatedRaftIndex (r_Metadata route)))
        (Invalid "assignment" "must be committed after the current route") ;;;
      match r_Targets route with
      | [] => Err (PlainError "index out of range")
      | target :: _ =>
        fail_if (negb (targetMatches placement target))
          (classified CodeStaleGeneration "assignment does not match the current route target") ;;;
        match versions (st_releases s) !! rt_VersionID target, deployments (st_releases s) !! rt_VersionID target with
        | Some version, Some deployment =>
          fail_if (negb (runtimeMatches placement version deployment))
            (classified CodeConflict "assignment runtime does not match the admitted policy") ;;;
          Ok (target, deployment)
        | _, _ => Err (PlainError "zero version or deployment")
        end
      end
    end
  end.

(** [Install] under the locks of the three stores it reads and of its own. *)
Definition Install (stores : Stores) (command : InstallAssignmentCommand) : M AssignmentStore AssignmentRecord :=
  let assignmentID := a_AssignmentID (ia_Placement command) in
  do! slift (validateInstallAssignment command) in
  let candidate :=
    {| ar_FunctionID := ia_FunctionID command; ar_Placement := ia_Placement command;
       ar_DesiredState := AssignmentAssigned; ar_CreatedAt := time_Round0 (ia_UpdatedAt command);
       ar_UpdatedAt := time_Round0 (ia_UpdatedAt command);
       ar_CreatedRaftIndex := ia_AppliedIndex command; ar_LastAppliedIndex := ia_AppliedIndex command;
       ar_ResourceRevision := 1 |} in
  let! s := sget in
  do! slift (fail_if (bool_decide (is_Some (records s !! assignmentID)))
               (classified CodeConflict "assignment id was already used")) in
  do! slift (fail_if (Z.of_nat (size (records s)) >=? maxAssignments s)
               (classified CodeOverloaded "assignment store is full")) in
  let! td := slift (validatePlacementLocked stores command) in
  let target := fst td in
  let deployment := snd td in
  do! slift (fail_if (negb (ia_ExpectedScalingRevision command =? d_ScalingRevision deployment))
               (revisionConflict "scaling_revision"
                  (ia_ExpectedScalingRevision command) (d_ScalingRevision deployment))) in
  let targetKey := assignmentTargetFor (ia_FunctionID command) target in
  do! slift (fail_if (active s targetKey >=? d_DesiredReplicas deployment)
               (classified CodeConflict "deployment desired replica count is already satisfied")) in
  do! sput {| maxAssignments := maxAssignments s;
              records := <[assignmentID := candidate]> (records s);
              activeCounts := <[targetKey := u32 (active s targetKey + 1)]> (activeCounts s) |} in
  sret candidate.

Definition cancelled (record : AssignmentRecord) (command : CancelAssignmentCommand) : AssignmentRecord :=
  {| ar_FunctionID := ar_FunctionID record; ar_Placement := ar_Placement record;
     ar_DesiredState := AssignmentCancelled; ar_CreatedAt := ar_CreatedAt record;
     ar_UpdatedAt := time_Round0 (cn_UpdatedAt command);
     ar_CreatedRaftIndex := ar_CreatedRaftIndex record; ar_LastAppliedIndex := cn_AppliedIndex command;
     ar_ResourceRevision := u64 (ar_ResourceRevision record + 1) |}.

Definition active_count_missing : error := PlainError "assignment store invariant: active count is missing".

Definition Cancel (command : CancelAssignmentCommand) : M AssignmentStore AssignmentRecord :=
  do! slift (validateCancelAssignment command) in
  let! s := sget in
  match records s !! cn_AssignmentID command with
  | None => sthrow (classified CodeNotFound "assignment was not found")
  | Some record =>
    do! slift (fail_if (negb (ar_ResourceRevision record =? cn_ExpectedResourceRevision command))
                 (revisionConflict "resource_revision"
                    (cn_ExpectedResourceRevision command) (ar_ResourceRevision record))) in
    do! slift (fail_if (ar_DesiredState record != AssignmentAssigned)
                 (classified CodeConflict "assignment is already cancelled")) in
    do! slift (fail_if (time_Before (cn_UpdatedAt command) (ar_UpdatedAt record))
                 (Invalid "updated_at" "must not precede the assignment update time")) in
    do! slift (fail_if (cn_AppliedIndex command <=? ar_LastAppliedIndex record)
                 (Invalid "applied_index" "must advance the assignment apply position")) in
    do! slift (fail_if (ar_ResourceRevision record =? maxUint64)
                 (classified CodeConflict "assignment revision space is exhausted")) in
    let targetKey := assignmentTargetForRecord record in
    do! slift (fail_if (active s targetKey =? 0) active_count_missing) in
    let record' := cancelled record command in
    do! sput {| maxAssignments := maxAssignments s;
                records := <[cn_AssignmentID command := record']> (records s);
                activeCounts := <[targetKey := u32 (active s targetKey - 1)]> (activeCounts s) |} in
    sret record'
  end.

Definition Get (s : AssignmentStore) (assignmentID : string) : result AssignmentRecord :=
  fail_if (negb (identifierPattern assignmentID)) (Invalid "assignment_id" "must be a valid identifier") ;;;
  match records s !! assignmentID with
  | None => Err (classified CodeNotFound "assignment was not found")
  | Some record => Ok record
  end.

Definition compareAssignmentRecord (left right : AssignmentRecord) : Z :=
  if ar_CreatedRaftIndex left <? ar_CreatedRaftIndex right then -1
  else if ar_CreatedRaftIndex left >? ar_CreatedRaftIndex right then 1
  else strings_Compare (a_AssignmentID (ar_Placement left)) (a_AssignmentID (ar_Placement right)).

(** [Snapshot] for one iteration order of the record map. *)
Definition snapshot_in (order : list (string * AssignmentRecord)) : list AssignmentRecord :=
  SortFunc compareAssignmentRecord (map snd order).
Definition Snapshot (s : AssignmentStore) : list AssignmentRecord := snapshot_in (map_to_list (records s)).

#[global] Instance Install_Atomic stores command : Atomic (Install stores command).
Proof. unfold Install. apply _. Qed.
#[global] Instance Cancel_Atomic command : Atomic (Cancel command).
Proof. unfold Cancel. apply _. Qed.

(** ** Invariant *)
Definition assigned_to (t : assignmentTarget) (r : AssignmentRecord) : bool :=
  (ar_DesiredState r == AssignmentAssigned) && (assignmentTargetForRecord r == t).

Record record_ok (id : string) (r : AssignmentRecord) : Prop := {
  rok_id : a_AssignmentID (ar_Placement r) = id;
  rok_valid : Assignment_Validate (ar_Placement r) = Ok tt;
  rok_state : ar_DesiredState r = AssignmentAssigned /\ ar_ResourceRevision r = 1 \/
              ar_DesiredState r = AssignmentCancelled /\ ar_ResourceRevision r = 2;
}.

Record assignment_inv (s : AssignmentStore) : Prop := {
  as_record : forall id r, records s !! id = Some r -> record_ok id r;
  as_count : forall t, active s t = countb (assigned_to t) (records s);
  as_one : forall t, active s t <= 1;
  as_size : Z.of_nat (size (records s)) <= maxAssignments s;
}.

Lemma NewAssignmentStore_inv : assignment_inv NewAssignmentStore.
Proof.
  split; simpl; unfold active; intros; try done.
Qed.

Section theory.
Context `{JCS}.

(** What a successful [Install] has checked against the stores. *)
Record installs (stores : Stores) (command : InstallAssignmentCommand) (f : Function) (r : Route)
    (t : RouteTarget) (v : Version) (d : Deployment) : Prop := {
  is_function : functionsByID (st_catalog stores) !! ia_FunctionID command = Some f;
  is_active : fn_Lifecycle f = FunctionActive;
  is_route : routes (st_routes stores) !! ia_FunctionID command = Some r;
  is_enabled : r_Enabled r = true;
  is_revision : r_RouteRevision r = fn_ActiveRouteRevision f;
  is_ready : validateReadyTargetLocked (st_releases stores) r f = Ok tt;
  is_target : exists rest, r_Targets r = t :: rest;
  is_version : versions (st_releases stores) !! rt_VersionID t = Some v;
  is_deployment : deployments (st_releases stores) !! rt_VersionID t = Some d;
  is_matches : targetMatches (ia_Placement command) t = true;
  is_runtime : runtimeMatches (ia_Placement command) v d = true;
}.

Lemma validatePlacementLocked_Ok stores command t d :
  validatePlacementLocked stores command = Ok (t, d) ->
  exists f r v, installs stores command f r t v d.
Proof.
  unfold validatePlacementLocked. intros Hp.
  destruct (functionsByID _ !! _) as [f|] eqn:Hf; [|done]. ok_inv.
  destruct (routes _ !! _) as [r|] eqn:Hr; [|done]. ok_inv.
  destruct (r_Targets r) as [|t' rest] eqn:Ht; [done|]. ok_inv.
  destruct (versions _ !! _) as [v|] eqn:Hv; [|done].
  destruct (deployments _ !! _) as [d'|] eqn:Hd; [|done]. ok_inv.
  injection Hp as -> ->. exists f, r, v. split; try done. by exists rest.
Qed.

Definition assigned (command : InstallAssignmentCommand) : AssignmentRecord :=
  {| ar_FunctionID := ia_FunctionID command; ar_Placement := ia_Placement command;
     ar_DesiredState := AssignmentAssigned; ar_CreatedAt := time_Round0 (ia_UpdatedAt command);
     ar_UpdatedAt := time_Round0 (ia_UpdatedAt command);
     ar_CreatedRaftIndex := ia_AppliedIndex command; ar_LastAppliedIndex := ia_AppliedIndex command;
     ar_ResourceRevision := 1 |}.

Lemma Install_Ok stores command s s' record :
  Install stores command s = (s', Ok record) ->
  validateInstallAssignment command = Ok tt /\ record = assigned command /\
  records s !! a_AssignmentID (ia_Placement command) = None /\
  Z.of_nat (size (records s)) < maxAssignments s /\
  exists f r t v d, installs stores command f r t v d /\
    active s (assignmentTargetFor (ia_FunctionID command) t) < d_DesiredReplicas d /\
    assignmentTargetForRecord record = assignmentTargetFor (ia_FunctionID command) t /\
    s' = {| maxAssignments := maxAssignments s;
            records := <[a_AssignmentID (ia_Placement command) := record]> (records s);
            activeCounts :=
              <[assignmentTargetForRecord record := u32 (active s (assignmentTargetForRecord record) + 1)]>
                (activeCounts s) |}.
Proof.
  unfold Install. intros Hi. run_inv. ok_inv.
  match goal with a : RouteTarget * Deployment |- _ => destruct a as [t d] end. simpl in *.
  match goal with Hp : validatePlacementLocked _ _ = Ok _ |- _ =>
    apply validatePlacementLocked_Ok in Hp as (f & r & v & Hin) end.
  assert (assignmentTargetForRecord (assigned command) = assignmentTargetFor (ia_FunctionID command) t) as Et.
  { pose proof (is_matches _ _ _ _ _ _ _ Hin) as Hm. unfold targetMatches in Hm. go_cases.
    unfold assignmentTargetForRecord, assignmentTargetFor. simpl. congruence. }
  rewrite <-eq_None_not_Some in *. split_and!; [done..|].
  exists f, r, t, v, d. fold (assigned command). rewrite Et. split_and!; done.
Qed.

Lemma Cancel_Ok command s s' record' :
  Cancel command s = (s', Ok record') ->
  exists record, records s !! cn_AssignmentID command = Some record /\
    ar_ResourceRevision record = cn_ExpectedResourceRevision command /\
    ar_DesiredState record = AssignmentAssigned /\ record' = cancelled record command /\
    ar_ResourceRevision record <> maxUint64 /\
    active s (assignmentTargetForRecord record) <> 0 /\
    s' = {| maxAssignments := maxAssignments s;
            records := <[cn_AssignmentID command := record']> (records s);
            activeCounts :=
              <[assignmentTargetForRecord record := u32 (active s (assignmentTargetForRecord record) - 1)]>
                (activeCounts s) |}.
Proof. unfold Cancel. intros Hc. run_inv; ok_inv. eexists. split_and!; done. Qed.

Lemma active_insert m r c t t' n :
  active {| maxAssignments := m; records := r; activeCounts := <[t := n]> c |} t'
  = if decide (t = t') then n else default 0 (c !! t').
Proof. unfold active. simpl. rewrite lookup_insert. by case_decide. Qed.

Lemma Install_inv stores command s s' record :
  stores_inv stores -> assignment_inv s -> Install stores command s = (s', Ok record) -> assignment_inv s'.
Proof.
  intros Hst Hs (Hval & -> & Hnew & Hsz & f & r & t & v & d & Hin & Hlt & Et & ->)%Install_Ok.
  rewrite <-Et in Hlt. set (record := assigned command) in *. set (key := assignmentTargetForRecord record) in *.
  assert (d_DesiredReplicas d = 1) as Hone.
  { apply (do_replicas (rt_VersionID t) v). apply (ri_deployment _ (si_releases _ Hst)); apply Hin. }
  pose proof (as_count _ Hs key) as Hc. pose proof (countb_nonneg (assigned_to key) (records s)) as Hnn.
  assert (active s key = 0) as Hzero by lia.
  split; simpl.
  - intros id r'. rewrite lookup_insert. case_decide; [|apply Hs]. intros [= <-]. subst id.
    split; [done| |by left]. unfold validateInstallAssignment in Hval. ok_inv. done.
  - intros t'. rewrite active_insert, countb_insert_fresh by done. fold (active s t').
    unfold assigned_to at 2. simpl. fold key. case_decide as E.
    + rewrite <-E, bool_decide_eq_true_2, <-Hc, Hzero by done. done.
    + rewrite bool_decide_eq_false_2 by done. simpl. rewrite <-(as_count _ Hs t'). unfold active. lia.
  - intros t'. rewrite active_insert. case_decide; [by rewrite Hzero|apply (as_one _ Hs t')].
  - rewrite map_size_insert_None by done. lia.
Qed.

Lemma Cancel_inv command s s' record :
  assignment_inv s -> Cancel command s = (s', Ok record) -> assignment_inv s'.
Proof.
  intros Hs (r & Hr & Hrev & Hst & -> & _ & Hne & ->)%Cancel_Ok. set (key := assignmentTargetForRecord r) in *.
  pose proof (as_record _ Hs _ _ Hr) as [Hid Hval Hstate].
  pose proof (as_count _ Hs key) as Hc. pose proof (as_one _ Hs key) as Hle.
  pose proof (countb_nonneg (assigned_to key) (records s)) as Hnn. assert (active s key = 1) as Hone by lia.
  split; simpl.
  - intros id r'. rewrite lookup_insert. case_decide; [|apply Hs]. intros [= <-]. subst id.
    split; [done|done|]. right. split; [done|]. simpl. destruct Hstate as [[_ ->]|[E _]]; [done|].
    by rewrite E in Hst.
  - intros t'. rewrite active_insert, (countb_update _ _ _ r) by done. fold (active s t').
    unfold assigned_to at 2 3. simpl. rewrite Hst. fold key. case_decide as E.
    + rewrite <-E, (bool_decide_eq_true_2 (key = key)), <-Hc, Hone by done. done.
    + rewrite (bool_decide_eq_false_2 (key = t')) by done. simpl. rewrite <-(as_count _ Hs t'). unfold active. lia.
  - intros t'. rewrite active_insert. case_decide; [by rewrite Hone|apply (as_one _ Hs t')].
  - rewrite map_size_insert_Some by eauto. apply Hs.
Qed.

(** ** Histories

    Other operations may move the three stores between two calls; each
    Install sees the stores as they are then. *)
Inductive assignment_op :=
| OpInstall (stores : Stores) (command : InstallAssignmentCommand)
| OpCancel (command : CancelAssignmentCommand).

Definition assignment_step (s : AssignmentStore) (op : assignment_op) : AssignmentStore :=
  match op with
  | OpInstall stores command => fst (Install stores command s)
  | OpCancel command => fst (Cancel command s)
  end.
Definition assignment_run (s : AssignmentStore) (ops : list assignment_op) : AssignmentStore :=
  foldl assignment_step s ops.

Definition op_ok (op : assignment_op) : Prop :=
  match op with OpInstall stores _ => stores_inv stores | OpCancel _ => True end.

Lemma assignment_step_inv s op : assignment_inv s -> op_ok op -> assignment_inv (assignment_step s op).
Proof.
  intros Hs Hop. destruct op as [stores command|command]; simpl.
  - destruct (Install stores command s) as [s' [r|e]] eqn:E; simpl; [by eapply Install_inv|].
    by rewrite (Install_Atomic _ _ _ _ _ E).
  - destruct (Cancel command s) as [s' [r|e]] eqn:E; simpl; [by eapply Cancel_inv|].
    by rewrite (Cancel_Atomic _ _ _ _ E).
Qed.

Lemma assignment_run_inv s ops : assignment_inv s -> Forall op_ok ops -> assignment_inv (assignment_run s ops).
Proof.
  revert s. induction ops as [|op ops IH]; intros s Hs Hops; simpl; [done|].
  apply Forall_cons in Hops as [??]. apply IH; [by apply assignment_step_inv|done].
Qed.

(** The lifetime of one record: Assigned at revision 1, then possibly
    Cancelled at revision 2, with everything else fixed. *)
Inductive record_evolves : AssignmentRecord -> AssignmentRecord -> Prop :=
| evolves_same r : record_evolves r r
| evolves_cancelled r command : ar_DesiredState r = AssignmentAssigned ->
    record_evolves r (cancelled r command).

Lemma assignment_step_record s op id r :
  records s !! id = Some r ->
  exists r', records (assignment_step s op) !! id = Some r' /\ record_evolves r r'.
Proof.
  intros Hr. destruct op as [stores command|command]; simpl.
  - destruct (Install stores command s) as [s' [x|e]] eqn:E; simpl.
    + apply Install_Ok in E as (_ & _ & Hnew & _ & f & rt & t & v & d & _ & _ & _ & ->). simpl.
      exists r. rewrite lookup_insert_ne by congruence. split; [done|constructor].
    + rewrite (Install_Atomic _ _ _ _ _ E). exists r. split; [done|constructor].
  - destruct (Cancel command s) as [s' [x|e]] eqn:E; simpl.
    + apply Cancel_Ok in E as (r0 & Hr0 & _ & Hst & -> & _ & _ & ->). simpl. rewrite lookup_insert.
      case_decide; [|exists r; split; [done|constructor]]. subst id. simplify_eq.
      eexists. split; [done|by constructor].
    + rewrite (Cancel_Atomic _ _ _ _ E). exists r. split; [done|constructor].
Qed.

Lemma assignment_run_record s ops id r :
  records s !! id = Some r ->
  exists r', records (assignment_run s ops) !! id = Some r' /\ record_evolves r r'.
Proof.
  revert s r. induction ops as [|op ops IH]; intros s r Hr; simpl.
  { exists r. split; [done|constructor]. }
  destruct (assignment_step_record s op id r Hr) as (r1 & Hr1 & Hev).
  destruct (IH _ _ Hr1) as (r2 & Hr2 & Hev2). exists r2. split; [done|].
  destruct Hev as [r|r command Hst]; [done|]. inversion Hev2; subst; [by constructor|]. done.
Qed.

(** C37: At most one placement of a target is live.  Over any history of
    Install and Cancel calls, against stores that satisfy their own invariant,
    the active counter of every target is exactly the number of its Assigned
    records and never exceeds one, the store never holds more than its limit,
    and the missing-counter error of Cancel cannot occur. *)
Theorem single_live_assignment ops :
  Forall op_ok ops ->
  let s := assignment_run NewAssignmentStore ops in
  (forall t, active s t = countb (assigned_to t) (records s) /\ active s t <= 1) /\
  Z.of_nat (size (records s)) <= maxAssignments s /\
  (forall command, snd (Cancel command s) <> Err active_count_missing).
Proof.
  intros Hops. simpl. set (s := assignment_run _ _).
  assert (assignment_inv s) as Hs by (by apply assignment_run_inv; [apply NewAssignmentStore_inv|]).
  split_and!; [intros t; split; apply Hs|apply Hs|]. intros command Hc.
  unfold Cancel, sbind, slift, sget, sthrow, sret, sput, classified, revisionConflict, Invalid in Hc.
  destruct (validateCancelAssignment command) as [[]|e] eqn:Hv.
  2:{ simpl in Hc. injection Hc as ->. unfold validateCancelAssignment, validateUTC, fail_if, rbind in Hv.
      repeat case_match; simplify_eq. }
  destruct (records s !! cn_AssignmentID command) as [r|] eqn:Hr; [|done].
  destruct (fail_if (negb (ar_ResourceRevision r =? _)) _) as [[]|] eqn:E1; [|by unfold fail_if in E1; case_match; simplify_eq].
  destruct (fail_if (ar_DesiredState r != _) _) as [[]|] eqn:E2; [|by unfold fail_if in E2; case_match; simplify_eq].
  destruct (fail_if (time_Before _ _) _) as [[]|] eqn:E3; [|by unfold fail_if in E3; case_match; simplify_eq].
  destruct (fail_if (_ <=? _) _) as [[]|] eqn:E4; [|by unfold fail_if in E4; case_match; simplify_eq].
  destruct (fail_if (ar_ResourceRevision r =? maxUint64) _) as [[]|] eqn:E5; [|by unfold fail_if in E5; case_match; simplify_eq].
  ok_inv. assert (0 < active s (assignmentTargetForRecord r)).
  { rewrite (as_count _ Hs). eapply countb_positive; [exact Hr|]. unfold assigned_to. by rewrite E2, !bool_decide_eq_true_2. }
  rewrite (proj2 (Z.eqb_neq _ 0)) in Hc by lia. done.
Qed.

(** An Assignment identity is used once and never rewritten.  After an
    Install succeeds, and after any further calls, the record is still there
    with the same placement, Function and creation data; its state is Assigned
    or, through one Cancel, Cancelled at revision two; and every later Install
    under the same Assignment ID is refused. *)
Theorem assignment_identity_permanent stores command s s1 record ops :
  Install stores command s = (s1, Ok record) ->
  let id := a_AssignmentID (ia_Placement command) in
  let s' := assignment_run s1 ops in
  (exists r, records s' !! id = Some r /\ record_evolves record r /\ Identity r = Identity record) /\
  (forall stores' command', a_AssignmentID (ia_Placement command') = id ->
     is_ok (snd (Install stores' command' s')) = false).
Proof.
  intros Hi. apply Install_Ok in Hi as (_ & -> & _ & _ & f & rt & t & v & d & _ & _ & _ & ->). simpl.
  destruct (assignment_run_record
    {| maxAssignments := maxAssignments s;
       records := <[a_AssignmentID (ia_Placement command) := assigned command]> (records s);
       activeCounts := <[assignmentTargetForRecord (assigned command) :=
         u32 (active s (assignmentTargetForRecord (assigned command)) + 1)]> (activeCounts s) |}
    ops (a_AssignmentID (ia_Placement command)) (assigned command)) as (r & Hr & Hev);
    [apply lookup_insert_eq|].
  split; [exists r; split_and!; [done..|by destruct Hev]|].
  intros stores' command' Hid. destruct (Install stores' command' _) as [s2 [x|e]] eqn:E; [|done].
  apply Install_Ok in E as (_ & _ & Hnew & _). rewrite Hid in Hnew. congruence.
Qed.

(** The admitted policy a committed placement agrees with. *)
Record placement_ok (releases : ReleaseStore) (record : AssignmentRecord) (v : Version) (d : Deployment) : Prop := {
  pk_version : versions releases !! a_VersionID (ar_Placement record) = Some v;
  pk_deployment : deployments releases !! a_VersionID (ar_Placement record) = Some d;
  pk_ready : v_State v = VersionReady;
  pk_function : v_FunctionID v = ar_FunctionID record;
  pk_epoch : v_AdmissionEpoch v = a_AdmissionEpoch (ar_Placement record);
  pk_generation : d_Generation d = a_DeploymentGeneration (ar_Placement record);
  pk_policy : EffectivePolicy_Digest (policy_of d v) = Ok (a_PolicyDigest (ar_Placement record));
  pk_artifact : v_ArtifactDigest v = a_ArtifactDigest (ar_Placement record);
  pk_size : v_ArtifactSize v = a_ArtifactSize (ar_Placement record);
  pk_memory : rl_MemoryMiB (d_ResourceLimits d) = a_MemoryMiB (ar_Placement record);
}.

Lemma installs_placement stores command f r t v d :
  stores_inv stores -> installs stores command f r t v d ->
  ready_target (st_releases stores) r (ia_FunctionID command) v d /\
  placement_ok (st_releases stores) (assigned command) v d.
Proof.
  intros Hst [Hf Hact Hr Hen Hrev Hready (rest & Ht) Hv Hd Hm Hrun].
  destruct (si_route _ Hst _ _ Hr) as (f0 & Hf0 & Hrok). simplify_eq.
  pose proof (proj1 (validateReadyTargetLocked_Ok _ _ _ (ro_valid _ _ _ _ Hrok) Hen) Hready) as (v0 & d0 & Hrt).
  destruct (re_target _ _ _ _ _ Hrt) as (t0 & Ht0 & Hv0 & Hd0 & Hep & Hgen & Hpol).
  rewrite Ht in Ht0. injection Ht0 as -> ->. simplify_eq.
  assert (fn_ID f = ia_FunctionID command) as Hid by apply (ci_function _ (si_catalog _ Hst) _ _ Hf).
  rewrite Hid in Hrt. split; [done|].
  pose proof (ri_deployment _ (si_releases _ Hst) _ _ _ Hv Hd) as Hdep.
  unfold targetMatches, runtimeMatches in *. go_cases.
  split; simpl; try congruence; try apply Hrt.
  rewrite (do_policy _ _ _ Hdep). congruence.
Qed.

(** Only a placement that matches the admitted policy is committed.  When
    Install succeeds the Function is Active, its current Route is enabled, and
    the placement agrees with the Route's target in Version, epoch, generation
    and policy digest, with the Version in artifact and size, and with the
    Deployment in memory; that Version is Ready, belongs to the Function, and
    the policy digest is the digest of the effective policy of Version and
    Deployment. *)
Theorem Install_matches_policy stores command s s' record :
  stores_inv stores -> Install stores command s = (s', Ok record) ->
  exists f r v d, functionsByID (st_catalog stores) !! ar_FunctionID record = Some f /\
    fn_Lifecycle f = FunctionActive /\
    routes (st_routes stores) !! ar_FunctionID record = Some r /\ r_Enabled r = true /\
    ready_target (st_releases stores) r (ar_FunctionID record) v d /\
    placement_ok (st_releases stores) record v d.
Proof.
  intros Hst (_ & -> & _ & _ & f & r & t & v & d & Hin & _ & _ & _)%Install_Ok. simpl.
  destruct (installs_placement _ _ _ _ _ _ _ Hst Hin) as [Hrt Hpk].
  exists f, r, v, d. split_and!; try apply Hin; done.
Qed.

End theory.
(** ** Witnesses *)
#[local] Existing Instance release.ex_jcs.

Definition ex_placement (id : string) : Assignment :=
  {| a_CommandID := "cmd-1"; a_AssignmentID := id;
     a_Worker := {| ws_WorkerID := "worker-1"; ws_BootID := "boot-1"; ws_SessionEpoch := 1 |};
     a_VersionID := "ver_1"; a_ArtifactDigest := Sum "artifact"; a_ArtifactSize := 4096;
     a_ABI := ABIWASICommandV1; a_HostAPI := HostAPIProfileNone; a_FeatureProfile := wasmprofile.FeatureProfile;
     a_MemoryMiB := 64; a_RequiredSlots := 4; a_AdmissionEpoch := 1; a_DeploymentGeneration := 1;
     a_PolicyDigest := ex_policy_digest |}.
Definition ex_install (id : string) : InstallAssignmentCommand :=
  {| ia_FunctionID := "fn_1"; ia_Placement := ex_placement id; ia_IfNoneMatch := true;
     ia_ExpectedScalingRevision := 1; ia_AppliedIndex := 12; ia_UpdatedAt := ex_at 150 |}.
Definition ex_cancel (id : string) : CancelAssignmentCommand :=
  {| cn_AssignmentID := id; cn_ExpectedResourceRevision := 1; cn_AppliedIndex := 13; cn_UpdatedAt := ex_at 160 |}.
Definition ex_assigned : AssignmentStore := assignment_step NewAssignmentStore (OpInstall ex_published (ex_install "asg-1")).

Lemma ex_published_inv : stores_inv ex_published.
Proof. eapply Publish_inv; [apply ex_stores_inv|apply ex_publish_runs]. Qed.

Lemma ex_install_runs :
  Install ex_published (ex_install "asg-1") NewAssignmentStore = (ex_assigned, Ok (assigned (ex_install "asg-1"))).
Proof. by vm_compute. Qed.

(** A second placement waits for the first one's cancellation. *)
Lemma ex_second_install :
  snd (Install ex_published (ex_install "asg-2") ex_assigned)
  = Err (classified CodeConflict "deployment desired replica count is already satisfied") /\
  is_ok (snd (Install ex_published (ex_install "asg-2") (assignment_step ex_assigned (OpCancel (ex_cancel "asg-1")))))
  = true.
Proof. by vm_compute. Qed.

Lemma single_live_assignment_witness :
  snd (Cancel (ex_cancel "asg-1") (assignment_run NewAssignmentStore [OpInstall ex_published (ex_install "asg-1")]))
  <> Err active_count_missing.
Proof.
  apply (single_live_assignment [OpInstall ex_published (ex_install "asg-1")]).
  apply Forall_singleton. exact ex_published_inv.
Defined.

Lemma assignment_identity_permanent_witness :
  is_ok (snd (Install ex_published (ex_install "asg-1")
    (assignment_run ex_assigned [OpCancel (ex_cancel "asg-1")]))) = false.
Proof. apply (assignment_identity_permanent _ _ _ _ _ [OpCancel (ex_cancel "asg-1")] ex_install_runs). reflexivity. Defined.

Lemma Install_matches_policy_witness :
  exists f, functionsByID (st_catalog ex_published) !! "fn_1"%string = Some f /\ fn_Lifecycle f = FunctionActive.
Proof.
  destruct (Install_matches_policy _ _ _ _ _ ex_published_inv ex_install_runs) as (f & r & v & d & H1 & H2 & _).
  exists f. split; [exact H1|exact H2].
Defined.

End assignment.
