(* ===== verification/Ledger.v ===== *)
(** * Package [internal/controlplane], operation.go: the operation ledger

    Every management write carries a client-chosen Operation ID.  The ledger
    records the terminal outcome of each operation under its key, replays it
    to retries of the same request, and garbage-collects outcomes to
    tombstones and tombstones to nothing by a committed cutoff. *)
From stdpp Require Import base gmap strings list sorting.
From S2P Require Import Prelude Problem Digest Json Model Catalog.
Import problem digest model catalog.

(** The promise [internal/strictjson] makes to this package: [Validate] with
    its depth limit. *)
Class StrictJSON := strictjson_Validate : string -> Z -> result unit.

Module ledger.

Definition OperationDigestDomain : string := "control-operation-request".
Definition OperationDigestVersion : string := "v1".
Definition DefaultMaxOperations : Z := 100000.
Definition DefaultOperationTTL : Z := 24 * hour.
Definition DefaultOperationTombstoneTTL : Z := 7 * 24 * hour.
Definition MaxOperationBodyBytes : Z := 2 ^ 20.
Definition MaxOperationPathBytes : Z := 4096.
Definition MaxOperationMessage : Z := 512.

(** [^[!#$%&'*+.^_`|~0-9A-Za-z-]{1,16}$] *)
Definition httpMethodPattern (s : string) : bool := match_class token_class 1 16 s.

(** ** Data *)
Record OperationKey := { ok_Principal : string; ok_Namespace : string; ok_OperationID : string }.

#[global] Instance OperationKey_eq_dec : EqDecision OperationKey.
Proof. solve_decision. Defined.

(** The map key [operationKey]. *)
Definition operationKey : Type := string * string * string.
#[global] Instance operationKey_eq_dec : EqDecision operationKey.
Proof. unfold operationKey. apply _. Defined.
#[global] Instance operationKey_countable : Countable operationKey.
Proof. unfold operationKey. apply _. Defined.
Definition makeOperationKey (key : OperationKey) : operationKey :=
  (ok_Principal key, ok_Namespace key, ok_OperationID key).

Record Preconditions := {
  pre_IfNoneMatch : bool;
  pre_ExpectedResourceRevision : option Z;
  pre_ExpectedActiveRouteRevision : option Z;
}.

(** [Body] distinguishes the nil raw message from an empty one. *)
Record Request := {
  rq_Method : string;
  rq_Path : string;
  rq_Preconditions : Preconditions;
  rq_BodyPresent : bool;
  rq_Body : option string;
  rq_ArtifactDigest : option string;
}.

Definition OutcomeSucceeded : string := "succeeded".
Definition OutcomeFailed : string := "failed".

Record Failure := { fl_Code : string; fl_Message : string }.

Record AffectedResource := {
  af_Kind : string;
  af_ID : string;
  af_ResourceRevision : option Z;
  af_RouteRevision : option Z;
}.

Record Outcome := {
  oc_Status : string;
  oc_Failure : option Failure;
  oc_AffectedResources : list AffectedResource;
  oc_CredentialIssued : bool;
}.

Record Completion := {
  cm_Key : OperationKey;
  cm_Request : Request;
  cm_Outcome : Outcome;
  cm_CompletedAt : Time;
  cm_AppliedIndex : Z;
}.

Record Rec := {
  rc_Key : OperationKey;
  rc_Digest : string;
  rc_Outcome : Outcome;
  rc_CompletedAt : Time;
  rc_AppliedIndex : Z;
}.

Record Tombstone := { tb_Key : OperationKey; tb_Digest : string; tb_TombstonedAt : Time }.

Record LedgerSnapshot := { ls_Records : list Rec; ls_Tombstones : list Tombstone }.

Record Status := { st_Records : Z; st_Tombstones : Z; st_MaxOperations : Z }.

Definition CompletionApplied : string := "applied".
Definition CompletionReplay : string := "replay".
Definition CompletionCredentialNotReplayable : string := "credential_not_replayable".

Record CompletionResult := { cr_Disposition : string; cr_Record : Rec }.
Record GCResult := { gc_Tombstoned : Z; gc_Deleted : Z }.

Record Ledger := {
  l_maxOperations : Z;
  l_operationTTL : Z;
  l_tombstoneTTL : Z;
  l_records : gmap operationKey Rec;
  l_tombstones : gmap operationKey Tombstone;
}.

Definition New : Ledger :=
  {| l_maxOperations := DefaultMaxOperations; l_operationTTL := DefaultOperationTTL;
     l_tombstoneTTL := DefaultOperationTombstoneTTL; l_records := ∅; l_tombstones := ∅ |}.

(** ** Validation *)
Definition OperationKey_Validate (k : OperationKey) : result unit :=
  fail_if (negb (identifierPattern (ok_Principal k))) (Invalid "principal" "must be a valid identifier") ;;;
  fail_if (ok_Namespace k != DefaultNamespace) (Invalid "namespace" "only default is supported in v1") ;;;
  fail_if (negb (identifierPattern (ok_OperationID k))) (Invalid "operation_id" "must be a valid identifier").

Definition is_set {A} (o : option A) : bool := match o with Some _ => true | None => false end.
Definition is_zero (o : option Z) : bool := match o with Some z => z =? 0 | None => false end.

Definition Preconditions_validate (p : Preconditions) : result unit :=
  fail_if (pre_IfNoneMatch p
           && (is_set (pre_ExpectedResourceRevision p) || is_set (pre_ExpectedActiveRouteRevision p)))
    (Invalid "preconditions" "if-none-match cannot be combined with expected revisions") ;;;
  fail_if (is_zero (pre_ExpectedResourceRevision p))
    (Invalid "expected_resource_revision" "must be greater than zero").

Definition Failure_validate (f : option Failure) : result unit :=
  match f with
  | None => Err (Invalid "failure" "is required for a failed operation")
  | Some f =>
    fail_if (negb (Known (fl_Code f))) (Invalid "failure.code" "must be a stable v1 error code") ;;;
    fail_if ((fl_Message f == "") || (strlen (fl_Message f) >? MaxOperationMessage)
             || negb (utf8_ValidString (fl_Message f)))
      (Invalid "failure.message" "must be valid UTF-8 and within 512 bytes")
  end.

Definition AffectedResource_validate (r : AffectedResource) : result unit :=
  fail_if (negb (identifierPattern (af_Kind r)))
    (Invalid "affected_resources.kind" "must be a valid identifier") ;;;
  fail_if (negb (identifierPattern (af_ID r)))
    (Invalid "affected_resources.id" "must be a valid identifier") ;;;
  fail_if (negb (is_set (af_ResourceRevision r)) && negb (is_set (af_RouteRevision r)))
    (Invalid "affected_resources" "must include a resource or route revision") ;;;
  fail_if (is_zero (af_ResourceRevision r))
    (Invalid "affected_resources.resource_revision" "must be greater than zero") ;;;
  fail_if (is_zero (af_RouteRevision r))
    (Invalid "affected_resources.route_revision" "must be greater than zero").

Definition resource_key (r : AffectedResource) : string := af_Kind r +:+ NUL +:+ af_ID r.

Definition Outcome_validate (o : Outcome) : result unit :=
  fail_if (len (oc_AffectedResources o) >? 256)
    (Invalid "affected_resources" "exceeds the v1 operation result limit") ;;;
  fail_if (oc_CredentialIssued o && (oc_Status o != OutcomeSucceeded))
    (Invalid "credential_issued" "is only valid for a successful operation") ;;;
  fail_if (oc_CredentialIssued o && (len (oc_AffectedResources o) =? 0))
    (Invalid "credential_issued" "requires at least one affected resource") ;;;
  (if oc_Status o == OutcomeSucceeded then
     fail_if (is_set (oc_Failure o)) (Invalid "failure" "is only valid for a failed operation")
   else if oc_Status o == OutcomeFailed then Failure_validate (oc_Failure o)
   else Err (Invalid "status" "must be a terminal operation status")) ;;;
  for_each_unique AffectedResource_validate resource_key
    (Invalid "affected_resources" "contains a duplicate resource") ∅ (oc_AffectedResources o).

Definition validateForInsert (c : Completion) : result unit :=
  Outcome_validate (cm_Outcome c) ;;;
  validateUTC "completed_at" (cm_CompletedAt c) ;;;
  fail_if (cm_AppliedIndex c =? 0) (Invalid "applied_index" "must be greater than zero").

(** ** Canonical requests *)

(** [strings.ToUpper] on the ASCII strings the pattern admits. *)
Definition upper (b : Z) : Z := if is_lower b then b - 32 else b.
Definition ToUpper (s : string) : string := json.str_of (map upper (codes s)).

Definition canonicalMethod (value : string) : result string :=
  fail_if (negb (httpMethodPattern value))
    (Invalid "method" "must be a valid HTTP token within 16 bytes") ;;;
  Ok (ToUpper value).

(** [net/url]: percent decoding of a path; [None] for a malformed escape. *)
Definition unhex (b : Z) : option Z :=
  if is_digit b then Some (b - 48)
  else if in_range 97 102 b then Some (b - 87)
  else if in_range 65 70 b then Some (b - 55)
  else None.

Fixpoint unescape (l : list Z) : option (list Z) :=
  match l with
  | [] => Some []
  | b :: l0 =>
    if b =? 37 then
      match l0 with
      | h1 :: h2 :: l' =>
        match unhex h1, unhex h2, unescape l' with
        | Some x, Some y, Some r => Some (16 * x + y :: r)
        | _, _, _ => None
        end
      | _ => None
      end
    else match unescape l0 with Some r => Some (b :: r) | None => None end
  end.

(** The bytes [shouldEscape] leaves alone in a path. *)
Definition path_safe (b : Z) : bool := is_alnum b || one_of "-_.~$&+,/:;=@" b.

Definition upper_hex (n : Z) : Z := if n <? 10 then 48 + n else 55 + n.

Fixpoint escape (l : list Z) : list Z :=
  match l with
  | [] => []
  | b :: l' => (if path_safe b then [b] else [37; upper_hex (b / 16); upper_hex (b mod 16)]) ++ escape l'
  end.

Definition is_control (b : Z) : bool := (b <? 32) || (b =? 127).

(** [canonicalPath].  For a value that starts with a slash and has no query or
    fragment, [url.ParseRequestURI] rejects control bytes and malformed
    escapes, finds no scheme and no host, and stores the decoded path, which
    [EscapedPath] encodes again. *)
Definition canonicalPath (value : string) : result string :=
  fail_if ((strlen value =? 0) || (strlen value >? MaxOperationPathBytes) || negb (utf8_ValidString value)
           || existsb (Z.eqb 0) (codes value) || negb (String.prefix "/" value))
    (Invalid "path" "must be a valid absolute path within 4096 bytes") ;;;
  fail_if (existsb (one_of "?#") (codes value)) (Invalid "path" "must not contain a query or fragment") ;;;
  let bad := Invalid "path" "must be a valid absolute URI path" in
  fail_if (existsb is_control (codes value)) bad ;;;
  match unescape (codes value) with
  | None => Err bad
  | Some path =>
    fail_if (negb (utf8_valid path)) bad ;;;
    let canonical := json.str_of (escape path) in
    fail_if (canonical != value) (Invalid "path" "must use canonical percent encoding") ;;;
    Ok canonical
  end.

Section operations.
Context `{HJ : JCS} `{HS : StrictJSON}.

Definition validateBody (present : bool) (body : option string) : result unit :=
  let size := strlen (default "" body) in
  if negb present then
    fail_if (negb (size =? 0)) (Invalid "body" "must be absent when body_present is false")
  else
    fail_if ((size =? 0) || (size >? MaxOperationBodyBytes))
      (Invalid "body" "must be a JSON value within the management body limit") ;;;
    replace_err (Invalid "body" "must be bounded strict JSON") (strictjson_Validate (default "" body) 32).

(** [canonicalRequest] as it marshals. *)
Definition canonicalRequest (method path : string) (r : Request) : json :=
  let p := rq_Preconditions r in
  JObject
    [("method", JString method); ("path", JString path); ("if_none_match", JBool (pre_IfNoneMatch p));
     ("expected_resource_revision", json.of_option JInt (pre_ExpectedResourceRevision p));
     ("expected_active_route_revision", json.of_option JInt (pre_ExpectedActiveRouteRevision p));
     ("body_present", JBool (rq_BodyPresent r)); ("body", json.of_option JRaw (rq_Body r));
     ("artifact_digest", json.of_option JString (rq_ArtifactDigest r))]%string.

(** [Request.Digest]; marshalling an empty raw message that is not nil is an
    error of [encoding/json]. *)
Definition Request_Digest (r : Request) : result string :=
  method <- canonicalMethod (rq_Method r) ;;
  path <- canonicalPath (rq_Path r) ;;
  Preconditions_validate (rq_Preconditions r) ;;;
  validateBody (rq_BodyPresent r) (rq_Body r) ;;;
  match rq_ArtifactDigest r with
  | Some d => replace_err (Invalid "artifact_digest" "must be a lowercase sha-256 digest") (ParseSHA256 d) ;;; Ok tt
  | None => Ok tt
  end ;;;
  fail_if (rq_Body r == Some ""%string)
    (WrapError "marshaling canonical control operation request" 
       (PlainError "json: error calling MarshalJSON for type json.RawMessage: unexpected end of JSON input")) ;;;
  CanonicalJSON OperationDigestDomain OperationDigestVersion (json.Marshal (canonicalRequest method path r)).

Definition compareResource (left right : AffectedResource) : Z :=
  if af_Kind left != af_Kind right then strings_Compare (af_Kind left) (af_Kind right)
  else strings_Compare (af_ID left) (af_ID right).

Definition cloneOutcome (o : Outcome) : Outcome :=
  {| oc_Status := oc_Status o; oc_Failure := oc_Failure o;
     oc_AffectedResources := SortFunc compareResource (oc_AffectedResources o);
     oc_CredentialIssued := oc_CredentialIssued o |}.

Definition cloneRecord (r : Rec) : Rec :=
  {| rc_Key := rc_Key r; rc_Digest := rc_Digest r; rc_Outcome := cloneOutcome (rc_Outcome r);
     rc_CompletedAt := rc_CompletedAt r; rc_AppliedIndex := rc_AppliedIndex r |}.

Definition expired_id : error :=
  classified CodeOperationExpired "operation id is retained as an expired tombstone".
Definition reused_id : error :=
  classified CodeConflict "operation id was already used with a different request".

(** [complete] on the ledger and the state [W] its callback mutates.  The
    callback runs with the ledger locked, after every other check. *)
Definition complete {W} (completion : Completion) (apply : option (M W unit)) : M (Ledger * W) CompletionResult :=
  let key := makeOperationKey (cm_Key completion) in
  do! slift (OperationKey_Validate (cm_Key completion)) in
  let! lw := sget in
  let l := fst lw in
  do! slift (fail_if (bool_decide (is_Some (l_tombstones l !! key))) expired_id) in
  let! digestValue := slift (Request_Digest (cm_Request completion)) in
  match l_records l !! key with
  | Some current =>
    do! slift (fail_if (rc_Digest current != digestValue) reused_id) in
    sret {| cr_Disposition := if oc_CredentialIssued (rc_Outcome current)
                              then CompletionCredentialNotReplayable else CompletionReplay;
            cr_Record := cloneRecord current |}
  | None =>
    do! slift (validateForInsert completion) in
    do! slift (fail_if (Z.of_nat (size (l_records l)) + Z.of_nat (size (l_tombstones l)) >=? l_maxOperations l)
                 (classified CodeOverloaded "control-plane operation ledger is full")) in
    do! (match apply with
         | None => sret tt
         | Some callback => fun '(l, w) => let '(w', r) := callback w in ((l, w'), r)
         end) in
    let record := {| rc_Key := cm_Key completion; rc_Digest := digestValue;
                     rc_Outcome := cloneOutcome (cm_Outcome completion);
                     rc_CompletedAt := cm_CompletedAt completion;
                     rc_AppliedIndex := cm_AppliedIndex completion |} in
    let! lw := sget in
    do! sput ({| l_maxOperations := l_maxOperations l; l_operationTTL := l_operationTTL l;
                 l_tombstoneTTL := l_tombstoneTTL l;
                 l_records := <[key := record]> (l_records l); l_tombstones := l_tombstones l |}, snd lw) in
    sret {| cr_Disposition := CompletionApplied; cr_Record := cloneRecord record |}
  end.

Definition Complete (completion : Completion) : M (Ledger * unit) CompletionResult := complete completion None.
Definition CompleteAfter {W} (completion : Completion) (apply : M W unit) : M (Ledger * W) CompletionResult :=
  complete completion (Some apply).

Definition Lookup (l : Ledger) (key : OperationKey) : result Rec :=
  OperationKey_Validate key ;;;
  fail_if (bool_decide (is_Some (l_tombstones l !! makeOperationKey key))) expired_id ;;;
  match l_records l !! makeOperationKey key with
  | None => Err (classified CodeNotFound "operation was not found")
  | Some record => Ok (cloneRecord record)
  end.

(** ** Garbage collection *)
Definition set_maps (l : Ledger) (records : gmap operationKey Rec) (tombstones : gmap operationKey Tombstone)
    : Ledger :=
  {| l_maxOperations := l_maxOperations l; l_operationTTL := l_operationTTL l;
     l_tombstoneTTL := l_tombstoneTTL l; l_records := records; l_tombstones := tombstones |}.

Definition record_kept (l : Ledger) (cutoff : Time) (r : Rec) : bool :=
  time_After (time_Add (rc_CompletedAt r) (l_operationTTL l)) cutoff.
Definition tombstone_kept (l : Ledger) (cutoff : Time) (t : Tombstone) : bool :=
  time_After (time_Add (tb_TombstonedAt t) (l_tombstoneTTL l)) cutoff.

Definition tombstone_of (cutoff : Time) (r : Rec) : Tombstone :=
  {| tb_Key := rc_Key r; tb_Digest := rc_Digest r; tb_TombstonedAt := cutoff |}.

(** The first loop, visiting the records in a given order. *)
Definition gc_records (cutoff : Time) (order : list (operationKey * Rec)) (l : Ledger) : Ledger * Z :=
  foldl (fun '(l, n) '(key, record) =>
    if record_kept l cutoff record then (l, n)
    else (set_maps l (delete key (l_records l)) (<[key := tombstone_of cutoff record]> (l_tombstones l)), n + 1))
    (l, 0) order.

(** The second loop, over the tombstones the first one left. *)
Definition gc_tombstones (cutoff : Time) (order : list (operationKey * Tombstone)) (l : Ledger) : Ledger * Z :=
  foldl (fun '(l, n) '(key, tombstone) =>
    if tombstone_kept l cutoff tombstone then (l, n)
    else (set_maps l (l_records l) (delete key (l_tombstones l)), n + 1))
    (l, 0) order.

Definition GC (cutoff : Time) : M Ledger GCResult :=
  do! slift (validateUTC "cutoff" cutoff) in
  let! l := sget in
  let first := gc_records cutoff (map_to_list (l_records l)) l in
  let second := gc_tombstones cutoff (map_to_list (l_tombstones (fst first))) (fst first) in
  do! sput (fst second) in
  sret {| gc_Tombstoned := snd first; gc_Deleted := snd second |}.

Definition compareOperationKey (left right : OperationKey) : Z :=
  if ok_Principal left != ok_Principal right then strings_Compare (ok_Principal left) (ok_Principal right)
  else if ok_Namespace left != ok_Namespace right then strings_Compare (ok_Namespace left) (ok_Namespace right)
  else strings_Compare (ok_OperationID left) (ok_OperationID right).

(** [Snapshot] for one iteration order of each map. *)
Definition snapshot_in (records : list (operationKey * Rec)) (tombstones : list (operationKey * Tombstone))
    : LedgerSnapshot :=
  {| ls_Records := SortFunc (fun a b => compareOperationKey (rc_Key a) (rc_Key b)) (map (fun kr => cloneRecord (snd kr)) records);
     ls_Tombstones := SortFunc (fun a b => compareOperationKey (tb_Key a) (tb_Key b)) (map snd tombstones) |}.

Definition Snapshot (l : Ledger) : LedgerSnapshot :=
  snapshot_in (map_to_list (l_records l)) (map_to_list (l_tombstones l)).

Definition Ledger_Status (l : Ledger) : Status :=
  {| st_Records := Z.of_nat (size (l_records l)); st_Tombstones := Z.of_nat (size (l_tombstones l));
     st_MaxOperations := l_maxOperations l |}.

(** ** Completion *)
Definition new_record (c : Completion) (digestValue : string) : Rec :=
  {| rc_Key := cm_Key c; rc_Digest := digestValue; rc_Outcome := cloneOutcome (cm_Outcome c);
     rc_CompletedAt := cm_CompletedAt c; rc_AppliedIndex := cm_AppliedIndex c |}.

Definition disposition (r : Rec) : string :=
  if oc_CredentialIssued (rc_Outcome r) then CompletionCredentialNotReplayable else CompletionReplay.

(** The checks that precede the callback of a first completion. *)
Record admissible (c : Completion) (l : Ledger) (digestValue : string) : Prop := {
  am_key : OperationKey_Validate (cm_Key c) = Ok tt;
  am_tombstone : l_tombstones l !! makeOperationKey (cm_Key c) = None;
  am_digest : Request_Digest (cm_Request c) = Ok digestValue;
  am_record : l_records l !! makeOperationKey (cm_Key c) = None;
  am_valid : validateForInsert c = Ok tt;
  am_room : Z.of_nat (size (l_records l)) + Z.of_nat (size (l_tombstones l)) < l_maxOperations l;
}.

Definition run_callback {W} (apply : option (M W unit)) (w : W) : W * result unit :=
  match apply with None => (w, Ok tt) | Some callback => callback w end.

Lemma complete_cases {W} c (apply : option (M W unit)) l w s' r :
  complete c apply (l, w) = (s', r) ->
  (s' = (l, w) /\ (forall res, r = Ok res -> exists current d, l_records l !! makeOperationKey (cm_Key c) = Some current /\
     Request_Digest (cm_Request c) = Ok d /\ rc_Digest current = d /\
     res = {| cr_Disposition := disposition current; cr_Record := cloneRecord current |})) \/
  (exists d, admissible c l d /\
     match run_callback apply w with
     | (w', Ok _) => s' = (set_maps l (<[makeOperationKey (cm_Key c) := new_record c d]> (l_records l)) (l_tombstones l), w') /\
         r = Ok {| cr_Disposition := CompletionApplied; cr_Record := cloneRecord (new_record c d) |}
     | (w', Err e) => s' = (l, w') /\ r = Err e
     end).
Proof.
  unfold complete, sbind, slift, sget, sput, sret. cbn [fst snd].
  destruct (OperationKey_Validate (cm_Key c)) as [[]|] eqn:Hk; [|intros [= <- <-]; by left].
  destruct (fail_if (bool_decide _) _) as [[]|] eqn:Ht; [|intros [= <- <-]; by left].
  destruct (Request_Digest (cm_Request c)) as [d|] eqn:Hd; [|intros [= <- <-]; by left].
  destruct (l_records l !! makeOperationKey (cm_Key c)) as [current|] eqn:Hr.
  { destruct (fail_if (rc_Digest current != d) _) as [[]|] eqn:Hf; intros [= <- <-]; left; (split; [done|]); [|done].
    intros res [= <-]. ok_inv. exists current, d. split_and!; done. }
  destruct (validateForInsert c) as [[]|] eqn:Hv; [|intros [= <- <-]; by left].
  destruct (fail_if (_ >=? _) _) as [[]|] eqn:Hn; [|intros [= <- <-]; by left].
  ok_inv. rewrite <-eq_None_not_Some in Ht. intros Hrun. right. exists d.
  split; [by split; try lia|]. revert Hrun. unfold run_callback.
  destruct apply as [callback|]; [destruct (callback w) as [w' [u|e]]|]; by intros [= <- <-].
Qed.

(** ** Histories *)
Inductive ledger_op (W : Type) :=
| OpComplete (completion : Completion) (apply : option (M W unit))
| OpGC (cutoff : Time).
Arguments OpComplete {W}. Arguments OpGC {W}.

Definition ledger_step {W} (s : Ledger * W) (op : ledger_op W) : Ledger * W :=
  match op with
  | OpComplete completion apply => fst (complete completion apply s)
  | OpGC cutoff => (fst (GC cutoff (fst s)), snd s)
  end.
Definition ledger_run {W} (s : Ledger * W) (ops : list (ledger_op W)) : Ledger * W := foldl ledger_step s ops.

(** ** The loops of GC, for any iteration order *)
Lemma set_maps_set_maps l r t r' t' : set_maps (set_maps l r t) r' t' = set_maps l r' t'.
Proof. done. Qed.

(** The effect of the first loop at one key. *)
Definition after_records (cutoff : Time) (l : Ledger) (order : list (operationKey * Rec)) (l' : Ledger) : Prop :=
  (exists r t, l' = set_maps l r t) /\
  (forall k, k ∉ order.*1 -> l_records l' !! k = l_records l !! k /\ l_tombstones l' !! k = l_tombstones l !! k) /\
  (forall k r, (k, r) ∈ order ->
     if record_kept l cutoff r
     then l_records l' !! k = l_records l !! k /\ l_tombstones l' !! k = l_tombstones l !! k
     else l_records l' !! k = None /\ l_tombstones l' !! k = Some (tombstone_of cutoff r)).

Lemma gc_records_after cutoff order l n :
  NoDup order.*1 ->
  after_records cutoff l order
    (fst (foldl (fun '(l, n) '(key, record) =>
      if record_kept l cutoff record then (l, n)
      else (set_maps l (delete key (l_records l)) (<[key := tombstone_of cutoff record]> (l_tombstones l)), n + 1))
      (l, n) order)).
Proof.
  revert l n. induction order as [|[k r] order IH]; intros l n Hnd; simpl.
  { split_and!; [exists (l_records l), (l_tombstones l); by destruct l|done|]. by intros k r ?%not_elem_of_nil. }
  cbn in Hnd. apply NoDup_cons in Hnd as [Hk Hnd]. destruct (record_kept l cutoff r) eqn:E.
  - destruct (IH l n Hnd) as (Hset & Hout & Hin). split_and!; [done|..].
    + intros k' Hk'. apply Hout. set_solver.
    + intros k' r' [[= -> ->]|Hin']%elem_of_cons; [rewrite E; by apply Hout|by apply Hin].
  - set (l1 := set_maps l _ _). destruct (IH l1 (n + 1) Hnd) as ((r1 & t1 & Hset) & Hout & Hin).
    split_and!; [exists r1, t1; by rewrite Hset|..].
    + intros k' Hk'. cbn in Hk'. apply not_elem_of_cons in Hk' as [Hne Hk']. destruct (Hout k' Hk') as [-> ->].
      unfold l1. simpl. by rewrite lookup_delete_ne, lookup_insert_ne by congruence.
    + intros k' r' [[= -> ->]|Hin']%elem_of_cons.
      * rewrite E. destruct (Hout k Hk) as [-> ->]. unfold l1. simpl.
        by rewrite lookup_delete_eq, lookup_insert_eq.
      * assert (k' <> k) as Hne. { intros ->. apply Hk. apply list_elem_of_fmap. by exists (k, r'). }
        specialize (Hin k' r' Hin'). unfold record_kept in *. simpl in Hin.
        by rewrite lookup_delete_ne, lookup_insert_ne in Hin by congruence.
Qed.

Lemma gc_records_count cutoff order l n :
  snd (foldl (fun '(l, n) '(key, record) =>
      if record_kept l cutoff record then (l, n)
      else (set_maps l (delete key (l_records l)) (<[key := tombstone_of cutoff record]> (l_tombstones l)), n + 1))
      (l, n) order)
  = n + len (List.filter (fun kr => negb (record_kept l cutoff (snd kr))) order).
Proof.
  revert l n. induction order as [|[k r] order IH]; intros l n; unfold len in *; simpl; [lia|].
  destruct (record_kept l cutoff r); simpl; rewrite IH; [done|].
  change (List.filter (fun kr => negb (record_kept (set_maps l _ _) cutoff (snd kr))) order)
    with (List.filter (fun kr => negb (record_kept l cutoff (snd kr))) order). lia.
Qed.

(** The effect of the second loop at one key. *)
Definition after_tombstones (cutoff : Time) (l : Ledger) (order : list (operationKey * Tombstone)) (l' : Ledger) : Prop :=
  (exists t, l' = set_maps l (l_records l) t) /\
  (forall k, k ∉ order.*1 -> l_tombstones l' !! k = l_tombstones l !! k) /\
  (forall k t, (k, t) ∈ order ->
     l_tombstones l' !! k = if tombstone_kept l cutoff t then l_tombstones l !! k else None).

Lemma gc_tombstones_after cutoff order l n :
  NoDup order.*1 ->
  after_tombstones cutoff l order
    (fst (foldl (fun '(l, n) '(key, tombstone) =>
      if tombstone_kept l cutoff tombstone then (l, n)
      else (set_maps l (l_records l) (delete key (l_tombstones l)), n + 1)) (l, n) order)).
Proof.
  revert l n. induction order as [|[k t] order IH]; intros l n Hnd; simpl.
  { split_and!; [exists (l_tombstones l); by destruct l|done|]. by intros k t ?%not_elem_of_nil. }
  cbn in Hnd. apply NoDup_cons in Hnd as [Hk Hnd]. destruct (tombstone_kept l cutoff t) eqn:E.
  - destruct (IH l n Hnd) as (Hset & Hout & Hin). split_and!; [done|..].
    + intros k' Hk'. apply Hout. set_solver.
    + intros k' t' [[= -> ->]|Hin']%elem_of_cons; [rewrite E; by apply Hout|by apply Hin].
  - set (l1 := set_maps l _ _). destruct (IH l1 (n + 1) Hnd) as ((t1 & Hset) & Hout & Hin).
    split_and!; [exists t1; by rewrite Hset|..].
    + intros k' Hk'. cbn in Hk'. apply not_elem_of_cons in Hk' as [Hne Hk']. rewrite (Hout k' Hk').
      unfold l1. simpl. by rewrite lookup_delete_ne by congruence.
    + intros k' t' [[= -> ->]|Hin']%elem_of_cons.
      * rewrite E, (Hout k Hk). unfold l1. simpl. by rewrite lookup_delete_eq.
      * assert (k' <> k) as Hne. { intros ->. apply Hk. apply list_elem_of_fmap. by exists (k, t'). }
        rewrite (Hin k' t' Hin'). unfold tombstone_kept. simpl. by rewrite lookup_delete_ne by congruence.
Qed.

Lemma gc_tombstones_count cutoff order l n :
  snd (foldl (fun '(l, n) '(key, tombstone) =>
      if tombstone_kept l cutoff tombstone then (l, n)
      else (set_maps l (l_records l) (delete key (l_tombstones l)), n + 1)) (l, n) order)
  = n + len (List.filter (fun kt => negb (tombstone_kept l cutoff (snd kt))) order).
Proof.
  revert l n. induction order as [|[k t] order IH]; intros l n; unfold len in *; simpl; [lia|].
  destruct (tombstone_kept l cutoff t); simpl; rewrite IH; [done|].
  change (List.filter (fun kt => negb (tombstone_kept (set_maps l _ _) cutoff (snd kt))) order)
    with (List.filter (fun kt => negb (tombstone_kept l cutoff (snd kt))) order). lia.
Qed.

Lemma order_NoDup {A} (m : gmap operationKey A) order : order ≡ₚ map_to_list m -> NoDup order.*1.
Proof. intros ->. apply NoDup_fst_map_to_list. Qed.

Lemma order_lookup {A} (m : gmap operationKey A) order k :
  order ≡ₚ map_to_list m -> (forall a, m !! k = Some a -> (k, a) ∈ order) /\ (m !! k = None -> k ∉ order.*1).
Proof.
  intros Hp. split; [intros a; rewrite Hp; by rewrite elem_of_map_to_list|].
  intros Hk ([k' a] & E & Hin)%list_elem_of_fmap. simpl in E. subst k'. rewrite Hp in Hin.
  apply elem_of_map_to_list in Hin. congruence.
Qed.

(** Two ledgers that agree at every key are the same. *)
Lemma ledger_ext l r t l' :
  l' = set_maps l r t -> forall l2 r2 t2, l2 = set_maps l r2 t2 ->
  (forall k, l_records l' !! k = l_records l2 !! k /\ l_tombstones l' !! k = l_tombstones l2 !! k) -> l' = l2.
Proof.
  intros -> l2 r2 t2 -> Hk. simpl in Hk. f_equal; apply map_eq; intros k; apply Hk.
Qed.

Lemma filter_length_Permutation {A} (f : A -> bool) l l' : l ≡ₚ l' -> len (List.filter f l) = len (List.filter f l').
Proof.
  unfold len. induction 1 as [|x l l' _ IH|x y l|l1 l2 l3 _ IH1 _ IH2]; simpl; [done|..].
  - case_match; simpl; lia.
  - by repeat case_match.
  - congruence.
Qed.

Lemma gc_records_order cutoff l order :
  order ≡ₚ map_to_list (l_records l) ->
  gc_records cutoff order l = gc_records cutoff (map_to_list (l_records l)) l.
Proof.
  intros Hp. unfold gc_records. apply injective_projections.
  - destruct (gc_records_after cutoff order l 0 (order_NoDup _ _ Hp)) as ((r1 & t1 & E1) & Hout & Hin).
    destruct (gc_records_after cutoff (map_to_list (l_records l)) l 0 (order_NoDup _ _ (reflexivity _)))
      as ((r2 & t2 & E2) & Hout2 & Hin2).
    eapply ledger_ext; [exact E1|exact E2|]. intros k.
    destruct (order_lookup (l_records l) order k Hp) as [Hs Hn].
    destruct (order_lookup (l_records l) _ k (reflexivity (map_to_list (l_records l)))) as [Hs2 Hn2].
    destruct (l_records l !! k) as [r|] eqn:Hk.
    + specialize (Hin k r (Hs r eq_refl)). specialize (Hin2 k r (Hs2 r eq_refl)).
      destruct (record_kept l cutoff r); destruct Hin as [-> ->], Hin2 as [-> ->]; done.
    + destruct (Hout k (Hn eq_refl)) as [-> ->], (Hout2 k (Hn2 eq_refl)) as [-> ->]. done.
  - rewrite !gc_records_count. by rewrite (filter_length_Permutation _ _ _ Hp).
Qed.

Lemma gc_tombstones_order cutoff l order :
  order ≡ₚ map_to_list (l_tombstones l) ->
  gc_tombstones cutoff order l = gc_tombstones cutoff (map_to_list (l_tombstones l)) l.
Proof.
  intros Hp. unfold gc_tombstones. apply injective_projections.
  - destruct (gc_tombstones_after cutoff order l 0 (order_NoDup _ _ Hp)) as ((t1 & E1) & Hout & Hin).
    destruct (gc_tombstones_after cutoff (map_to_list (l_tombstones l)) l 0 (order_NoDup _ _ (reflexivity _)))
      as ((t2 & E2) & Hout2 & Hin2).
    eapply ledger_ext; [exact E1|exact E2|]. intros k. rewrite E1, E2 at 1. split; [done|].
    destruct (order_lookup (l_tombstones l) order k Hp) as [Hs Hn].
    destruct (order_lookup (l_tombstones l) _ k (reflexivity (map_to_list (l_tombstones l)))) as [Hs2 Hn2].
    destruct (l_tombstones l !! k) as [t|] eqn:Hk.
    + by rewrite (Hin k t (Hs t eq_refl)), (Hin2 k t (Hs2 t eq_refl)).
    + by rewrite (Hout k (Hn eq_refl)), (Hout2 k (Hn2 eq_refl)).
  - rewrite !gc_tombstones_count. by rewrite (filter_length_Permutation _ _ _ Hp).
Qed.

(** What one garbage collection leaves at a key. *)
Definition collected (l : Ledger) (cutoff : Time) (k : operationKey) : option Rec * option Tombstone :=
  let keep t := if tombstone_kept l cutoff t then Some t else None in
  match l_records l !! k with
  | Some r => if record_kept l cutoff r then (Some r, l_tombstones l !! k ≫= keep)
              else (None, keep (tombstone_of cutoff r))
  | None => (None, l_tombstones l !! k ≫= keep)
  end.

Lemma GC_lookup cutoff l l' res k :
  GC cutoff l = (l', Ok res) ->
  (exists r t, l' = set_maps l r t) /\ (l_records l' !! k, l_tombstones l' !! k) = collected l cutoff k.
Proof.
  unfold GC, sbind, slift, sget, sput, sret. destruct (validateUTC _ _); [|done].
  intros [= <- _]. unfold gc_records, gc_tombstones.
  set (l1 := fst (foldl _ (l, 0) _)).
  destruct (gc_records_after cutoff (map_to_list (l_records l)) l 0 (order_NoDup _ _ (reflexivity _)))
    as ((r1 & t1 & E1) & Hout & Hin). fold l1 in E1, Hout, Hin.
  destruct (gc_tombstones_after cutoff (map_to_list (l_tombstones l1)) l1 0 (order_NoDup _ _ (reflexivity _)))
    as ((t2 & E2) & Hout2 & Hin2). set (l2 := fst (foldl _ (l1, 0) _)) in *.
  split; [exists (l_records l1), t2; by rewrite E2, E1|].
  assert (l_tombstones l2 !! k = l_tombstones l1 !! k ≫= fun t => if tombstone_kept l cutoff t then Some t else None) as Ht.
  { destruct (order_lookup (l_tombstones l1) _ k (reflexivity (map_to_list (l_tombstones l1)))) as [Hs2 Hn2].
    destruct (l_tombstones l1 !! k) as [t|] eqn:Hk; [|by rewrite (Hout2 k (Hn2 eq_refl))].
    rewrite (Hin2 k t (Hs2 t eq_refl)), Hk. simpl. unfold tombstone_kept. by rewrite E1. }
  assert (l_records l2 !! k = l_records l1 !! k) as -> by (by rewrite E2). rewrite Ht. unfold collected.
  destruct (order_lookup (l_records l) _ k (reflexivity (map_to_list (l_records l)))) as [Hs Hn].
  destruct (l_records l !! k) as [r|] eqn:Hk.
  - specialize (Hin k r (Hs r eq_refl)). destruct (record_kept l cutoff r); destruct Hin as [-> ->]; [|done].
    by rewrite Hk.
  - destruct (Hout k (Hn eq_refl)) as [-> ->]. by rewrite Hk.
Qed.

(** ** Invariant *)
Record ledger_inv (l : Ledger) : Prop := {
  li_disjoint : forall k, is_Some (l_records l !! k) -> l_tombstones l !! k = None;
  li_record : forall k r, l_records l !! k = Some r -> makeOperationKey (rc_Key r) = k;
  li_tombstone : forall k t, l_tombstones l !! k = Some t -> makeOperationKey (tb_Key t) = k;
  li_size : Z.of_nat (size (l_records l)) + Z.of_nat (size (l_tombstones l)) <= l_maxOperations l;
  li_ttl : 0 < l_tombstoneTTL l;
}.

Lemma New_ledger_inv : ledger_inv New.
Proof. split; simpl; try done. Qed.

Lemma time_Add_After t d : 0 < d -> time_After (time_Add t d) t = true.
Proof.
  intros Hd. unfold time_After, time_compare, time_Add. simpl.
  destruct (t_mono t) as [m|]; [case_bool_decide|]; rewrite (proj2 (Z.compare_gt_iff _ _)) by lia; done.
Qed.

Lemma fresh_tombstone_kept l cutoff r : 0 < l_tombstoneTTL l -> tombstone_kept l cutoff (tombstone_of cutoff r) = true.
Proof. apply time_Add_After. Qed.

Lemma size_disjoint (r : gmap operationKey Rec) (t : gmap operationKey Tombstone) :
  (forall k, is_Some (r !! k) -> t !! k = None) ->
  (size r + size t = size (dom (D:=gset operationKey) r ∪ dom t))%nat.
Proof.
  intros Hd. rewrite size_union, !size_dom; [done|].
  intros k. rewrite !elem_of_dom. intros Hr%Hd [x Hx]. congruence.
Qed.

Lemma GC_inv cutoff l l' res : ledger_inv l -> GC cutoff l = (l', Ok res) -> ledger_inv l'.
Proof.
  intros Hl Hgc.
  assert (exists r t, l' = set_maps l r t) as (r' & t' & E) by apply (GC_lookup _ _ _ _ ("", "", "")%string Hgc).
  assert (forall k, (l_records l' !! k, l_tombstones l' !! k) = collected l cutoff k) as Hk
    by (intros k; by apply (GC_lookup _ _ _ _ k Hgc)).
  assert (forall k, is_Some (l_records l' !! k) -> l_tombstones l' !! k = None) as Hdis.
  { intros k [r Hr]. specialize (Hk k). unfold collected in Hk. rewrite Hr in Hk.
    destruct (l_records l !! k) as [r0|] eqn:H0; [|congruence].
    destruct (record_kept l cutoff r0); [|congruence].
    rewrite (li_disjoint _ Hl k) in Hk by eauto. simpl in Hk. congruence. }
  split; [done|..].
  - intros k r Hr. specialize (Hk k). rewrite Hr in Hk. unfold collected in Hk.
    destruct (l_records l !! k) as [r0|] eqn:H0; [|congruence].
    destruct (record_kept l cutoff r0); [|congruence]. injection Hk as -> _. by apply Hl.
  - intros k t Ht. specialize (Hk k). rewrite Ht in Hk. unfold collected in Hk.
    destruct (l_records l !! k) as [r0|] eqn:H0; [destruct (record_kept l cutoff r0)|].
    + rewrite (li_disjoint _ Hl k) in Hk by eauto. simpl in Hk. congruence.
    + rewrite fresh_tombstone_kept in Hk by apply Hl. injection Hk as _ ->. by apply (li_record _ Hl).
    + destruct (l_tombstones l !! k) as [t0|] eqn:H1; simpl in Hk; [|congruence].
      destruct (tombstone_kept l cutoff t0); [|congruence]. injection Hk as _ ->. by apply Hl.
  - assert (l_maxOperations l' = l_maxOperations l) as -> by (by rewrite E).
    pose proof (li_size _ Hl) as Hsz. rewrite <-Nat2Z.inj_add in *.
    rewrite size_disjoint by done. rewrite size_disjoint in Hsz by apply Hl.
    etrans; [|exact Hsz]. apply inj_le, subseteq_size. intros k. rewrite !elem_of_union, !elem_of_dom.
    specialize (Hk k). unfold collected in Hk. rewrite <-!not_eq_None_Some.
    destruct (l_records l !! k); [left; done|]. injection Hk as -> ->.
    destruct (l_tombstones l !! k); [right; done|]. simpl. naive_solver.
  - rewrite E. apply Hl.
Qed.

Lemma complete_inv {W} c (callback : option (M W unit)) l w :
  ledger_inv l -> ledger_inv (fst (fst (complete c callback (l, w)))).
Proof.
  intros Hl. destruct (complete c callback (l, w)) as [s' r] eqn:E. simpl.
  apply complete_cases in E as [[-> _]|(d & Had & Hrun)]; [done|].
  destruct (run_callback callback w) as [w' [u|e]]; destruct Hrun as [-> _]; [|done]. simpl.
  pose proof (am_record _ _ _ Had). pose proof (am_tombstone _ _ _ Had). pose proof (am_room _ _ _ Had).
  split; simpl; try apply Hl.
  - intros k. rewrite lookup_insert. case_decide; [congruence|apply Hl].
  - intros k r'. rewrite lookup_insert. case_decide; [|apply Hl]. by intros [= <-].
  - rewrite map_size_insert_None by done. lia.
Qed.

#[global] Instance GC_Atomic cutoff : Atomic (GC cutoff).
Proof. unfold GC. apply _. Qed.

Lemma ledger_step_inv {W} (s : Ledger * W) op : ledger_inv (fst s) -> ledger_inv (fst (ledger_step s op)).
Proof.
  intros Hs. destruct s as [l w], op as [c callback|cutoff]; simpl; [by apply complete_inv|].
  destruct (GC cutoff l) as [l' [res|e]] eqn:E; simpl; [by eapply GC_inv|by rewrite (GC_Atomic _ _ _ _ E)].
Qed.

Lemma ledger_run_inv {W} (s : Ledger * W) ops : ledger_inv (fst s) -> ledger_inv (fst (ledger_run s ops)).
Proof. revert s. induction ops; intros s Hs; simpl; [done|]. by apply IHops, ledger_step_inv. Qed.

(** A GC whose cutoff falls inside the retention of a record. *)
Definition spares {W} (l : Ledger) (r : Rec) (op : ledger_op W) : Prop :=
  match op with OpGC cutoff => record_kept l cutoff r = true | OpComplete _ _ => True end.

Lemma ledger_step_config {W} (s : Ledger * W) op :
  exists r t, fst (ledger_step s op) = set_maps (fst s) r t.
Proof.
  destruct s as [l w], op as [c callback|cutoff]; simpl.
  - destruct (complete c callback (l, w)) as [s' r] eqn:E. simpl.
    apply complete_cases in E as [[-> _]|(d & _ & Hrun)]; [exists (l_records l), (l_tombstones l); by destruct l|].
    destruct (run_callback callback w) as [w' [u|e]]; destruct Hrun as [-> _]; simpl; [eauto|].
    exists (l_records l), (l_tombstones l). by destruct l.
  - destruct (GC cutoff l) as [l' [res|e]] eqn:E; simpl; [apply (GC_lookup _ _ _ _ ("", "", "")%string E)|].
    rewrite (GC_Atomic _ _ _ _ E). exists (l_records l), (l_tombstones l). by destruct l.
Qed.

Lemma ledger_step_retains {W} (s : Ledger * W) op k r :
  l_records (fst s) !! k = Some r -> spares (fst s) r op -> l_records (fst (ledger_step s op)) !! k = Some r.
Proof.
  intros Hr Hop. destruct s as [l w], op as [c callback|cutoff]; simpl in *.
  - destruct (complete c callback (l, w)) as [s' res] eqn:E. simpl.
    apply complete_cases in E as [[-> _]|(d & Had & Hrun)]; [done|].
    destruct (run_callback callback w) as [w' [u|e]]; destruct Hrun as [-> _]; simpl; [|done].
    pose proof (am_record _ _ _ Had). rewrite lookup_insert_ne; [done|congruence].
  - destruct (GC cutoff l) as [l' [res|e]] eqn:E; simpl; [|by rewrite (GC_Atomic _ _ _ _ E)].
    apply (GC_lookup _ _ _ _ k) in E as [_ Hk]. unfold collected in Hk. rewrite Hr, Hop in Hk. congruence.
Qed.

Lemma ledger_run_retains {W} (s : Ledger * W) ops k r :
  l_records (fst s) !! k = Some r -> Forall (spares (fst s) r) ops ->
  l_records (fst (ledger_run s ops)) !! k = Some r.
Proof.
  revert s. induction ops as [|op ops IH]; intros s Hr Hops; simpl; [done|].
  apply Forall_cons in Hops as [Hop Hops]. apply IH; [by apply ledger_step_retains|].
  destruct (ledger_step_config s op) as (r' & t' & E). rewrite E.
  eapply Forall_impl; [exact Hops|]. by intros [].
Qed.

(** C31: A completed operation takes effect exactly once and answers its
    retries.  After a completion has been applied, through any further
    completions and any garbage collections whose cutoff is within its
    retention, every completion under the same key whose request has the same
    digest returns the original record, as a replay or as a non-replayable
    credential, and one whose request has another digest is refused as a
    conflict.  In both cases the ledger and the state that the mutation
    callback works on are unchanged: the callback does not run again. *)
Theorem completion_replay {W} c (callback : option (M W unit)) s s1 res ops :
  ledger_inv (fst s) -> complete c callback s = (s1, Ok res) -> cr_Disposition res = CompletionApplied ->
  Forall (spares (fst s1) (cr_Record res)) ops ->
  let s2 := ledger_run s1 ops in
  forall (retry : Completion) (callback' : option (M W unit)) d, cm_Key retry = cm_Key c ->
    Request_Digest (cm_Request retry) = Ok d ->
    complete retry callback' s2
    = (s2, if d == rc_Digest (cr_Record res)
           then Ok {| cr_Disposition := disposition (cr_Record res); cr_Record := cr_Record res |}
           else Err reused_id).
Proof.
  intros Hinv Hc Hdisp Hops. destruct s as [l w]. pose proof Hc as Hc'.
  apply complete_cases in Hc' as [[_ Hno]|(d0 & Had & Hrun)].
  { exfalso. destruct (Hno res eq_refl) as (cur & d & _ & _ & _ & ->). simpl in Hdisp. unfold disposition in Hdisp.
    by destruct (oc_CredentialIssued _). }
  destruct (run_callback callback w) as [w' [u|e]]; [|by destruct Hrun as [_ ?]].
  destruct Hrun as [-> [= ->]]. set (rec := new_record c d0) in *. cbn [cr_Record] in *.
  set (l1 := set_maps l _ _) in *.
  assert (ledger_inv l1) as Hl1.
  { pose proof (complete_inv c callback l w Hinv) as Hci. rewrite Hc in Hci. exact Hci. }
  set (s2 := ledger_run (l1, w') ops). intros retry callback' d Hkey Hd.
  assert (l_records (fst s2) !! makeOperationKey (cm_Key c) = Some rec) as Hrec.
  { apply ledger_run_retains; [simpl; apply lookup_insert_eq|].
    eapply Forall_impl; [exact Hops|]. by intros []. }
  assert (ledger_inv (fst s2)) as Hinv2 by (by apply ledger_run_inv).
  unfold complete, sbind, slift, sget, sput, sret. rewrite Hkey, (am_key _ _ _ Had). cbn [fst snd].
  rewrite (li_disjoint _ Hinv2) by eauto. rewrite bool_decide_eq_false_2 by (by intros []). cbn [fail_if].
  rewrite Hd, Hrec. cbn [rc_Digest cloneRecord rec new_record].
  destruct (decide (d = d0)) as [->|Hne].
  - rewrite !bool_decide_eq_true_2 by done. done.
  - rewrite !bool_decide_eq_false_2 by done. done.
Qed.

(** A completion whose mutation fails leaves no trace in the ledger, and
    the mutation runs at most once, after every check and only for a first
    completion.  Hence, if the mutation itself is all-or-nothing, so is the
    whole completion, ledger and mutated state together. *)
Theorem complete_atomic {W} c (callback : M W unit) :
  Atomic callback -> Atomic (complete c (Some callback)) /\
  (forall l w s' e, complete c (Some callback) (l, w) = (s', Err e) -> fst s' = l) /\
  (forall l w s' res, complete c (Some callback) (l, w) = (s', Ok res) ->
     snd s' = w \/ exists d, admissible c l d /\ callback w = (snd s', Ok tt)).
Proof.
  intros Hat. split_and!.
  - intros [l w] s' e E. apply complete_cases in E as [[-> _]|(d & _ & Hrun)]; [done|].
    simpl in Hrun. destruct (callback w) as [w' [u|e']] eqn:Ew; destruct Hrun as [-> ?]; [done|].
    by rewrite (Hat _ _ _ Ew).
  - intros l w s' e E. apply complete_cases in E as [[-> _]|(d & _ & Hrun)]; [done|].
    simpl in Hrun. destruct (callback w) as [w' [u|e']]; by destruct Hrun as [-> ?].
  - intros l w s' res E. apply complete_cases in E as [[-> _]|(d & Had & Hrun)]; [by left|].
    simpl in Hrun. destruct (callback w) as [w' [[]|e']] eqn:Ew; [|by destruct Hrun].
    destruct Hrun as [-> _]. right. exists d. done.
Qed.

(** Retention is honoured at every key.  A garbage collection keeps a
    record whose retention reaches past the cutoff and turns every other one
    into a tombstone dated at the cutoff, which this same collection does not
    delete; it removes exactly the older tombstones whose own retention has
    elapsed.  So an Operation ID answers with its outcome, then as expired,
    and only then becomes unknown. *)
Theorem GC_retention cutoff l l' res key :
  ledger_inv l -> GC cutoff l = (l', Ok res) -> OperationKey_Validate key = Ok tt ->
  match l_records l !! makeOperationKey key, l_tombstones l !! makeOperationKey key with
  | Some r, _ => Lookup l' key = if record_kept l cutoff r then Ok (cloneRecord r) else Err expired_id
  | None, Some t => Lookup l' key = Err (if tombstone_kept l cutoff t then expired_id
                                         else classified CodeNotFound "operation was not found")
  | None, None => Lookup l' key = Err (classified CodeNotFound "operation was not found")
  end.
Proof.
  intros Hl Hgc Hkey. apply (GC_lookup _ _ _ _ (makeOperationKey key)) in Hgc as [_ Hk].
  unfold Lookup. rewrite Hkey. simpl. unfold collected in Hk.
  destruct (l_records l !! makeOperationKey key) as [r|] eqn:Hr.
  - rewrite (li_disjoint _ Hl) in Hk by eauto. rewrite fresh_tombstone_kept in Hk by apply Hl. simpl in Hk.
    by destruct (record_kept l cutoff r); injection Hk as -> ->.
  - injection Hk as -> ->. destruct (l_tombstones l !! makeOperationKey key) as [t|]; simpl; [|done].
    by destruct (tombstone_kept l cutoff t).
Qed.

(** Garbage collection does not depend on Go's map iteration order: for
    any order in which the two loops visit the records and the tombstones,
    the resulting ledger and the two counts are the same. *)
Theorem GC_iteration_independent cutoff l records tombstones :
  records ≡ₚ map_to_list (l_records l) ->
  tombstones ≡ₚ map_to_list (l_tombstones (fst (gc_records cutoff records l))) ->
  validateUTC "cutoff" cutoff = Ok tt ->
  let first := gc_records cutoff records l in
  let second := gc_tombstones cutoff tombstones (fst first) in
  GC cutoff l = (fst second, Ok {| gc_Tombstoned := snd first; gc_Deleted := snd second |}).
Proof.
  intros Hr Ht Hc. simpl. rewrite (gc_tombstones_order _ _ _ Ht), (gc_records_order _ _ _ Hr).
  unfold GC, sbind, slift, sget, sput, sret. by rewrite Hc.
Qed.

(** Over any history of completions and collections the ledger holds at
    most its configured number of records and tombstones together, never both
    for one key, and each under the key it names. *)
Theorem ledger_bookkeeping {W} (w : W) ops :
  let l := fst (ledger_run (New, w) ops) in
  ledger_inv l /\ st_Records (Ledger_Status l) + st_Tombstones (Ledger_Status l) <= DefaultMaxOperations.
Proof.
  simpl. assert (ledger_inv (fst (ledger_run (New, w) ops))) as Hl by (apply ledger_run_inv, New_ledger_inv).
  split; [done|]. pose proof (li_size _ Hl) as Hsz.
  assert (l_maxOperations (fst (ledger_run (New, w) ops)) = DefaultMaxOperations) as <-; [|done].
  clear Hl Hsz. change DefaultMaxOperations with (l_maxOperations (fst (New, w))). generalize (New, w).
  induction ops as [|op ops IH]; intros s; simpl; [done|]. rewrite IH.
  destruct (ledger_step_config s op) as (r & t & ->). done.
Qed.

End operations.

#[global] Arguments OpComplete {W}.
#[global] Arguments OpGC {W}.

(** ** Canonical paths *)
Definition is_byte (b : Z) : Prop := 0 <= b < 256.

Lemma byte_cases (P : Z -> Prop) b : is_byte b -> Forall P (seqZ 0 256) -> P b.
Proof. intros Hb Hall. rewrite Forall_forall in Hall. apply Hall. apply elem_of_seqZ. unfold is_byte in Hb. lia. Qed.

(** Bytes that survive in a canonical path: printable ASCII, no query or
    fragment mark. *)
Definition plain (c : Z) : bool := (33 <=? c) && (c <=? 126) && negb (c =? 63) && negb (c =? 35).

Lemma escape_one_plain b : is_byte b -> forallb plain (escape [b]) = true.
Proof.
  intros Hb. apply (byte_cases (fun b => forallb plain (escape [b]) = true) b Hb). repeat constructor.
Qed.

Lemma unescape_escape_one b l r :
  is_byte b -> unescape l = Some r -> unescape (escape [b] ++ l) = Some (b :: r).
Proof.
  intros Hb Hl. simpl. rewrite app_nil_r.
  assert (path_safe b = true -> (b =? 37) = false) as Hsafe.
  { apply (byte_cases (fun b => path_safe b = true -> (b =? 37) = false) b Hb). repeat constructor; by vm_compute. }
  assert (unhex (upper_hex (b / 16)) = Some (b / 16) /\ unhex (upper_hex (b mod 16)) = Some (b mod 16)) as [H1 H2].
  { apply (byte_cases (fun b => unhex (upper_hex (b / 16)) = Some (b / 16) /\
      unhex (upper_hex (b mod 16)) = Some (b mod 16)) b Hb). repeat constructor. }
  destruct (path_safe b) eqn:E; simpl.
  - by rewrite Hsafe, Hl.
  - rewrite H1, H2, Hl. do 2 f_equal. pose proof (Z.div_mod b 16). lia.
Qed.

Lemma escape_cons b l : escape (b :: l) = escape [b] ++ escape l.
Proof. simpl. by rewrite app_nil_r. Qed.

Lemma unescape_escape l : Forall is_byte l -> unescape (escape l) = Some l.
Proof.
  induction 1 as [|b l Hb Hl IH]; [done|]. rewrite escape_cons. by apply unescape_escape_one.
Qed.

Lemma escape_plain l : Forall is_byte l -> forallb plain (escape l) = true.
Proof.
  induction 1 as [|b l Hb Hl IH]; [done|]. by rewrite escape_cons, forallb_app, escape_one_plain, IH.
Qed.

Lemma plain_byte l : forallb plain l = true -> Forall (fun b => 0 <= b < 256) l.
Proof.
  rewrite forallb_forall. intros Hl. apply Forall_forall. intros b Hb%list_elem_of_In%Hl.
  unfold plain in Hb. go_cases. lia.
Qed.

Lemma plain_checks l :
  forallb plain l = true ->
  utf8_valid l = true /\ existsb (Z.eqb 0) l = false /\ existsb (one_of "?#") l = false /\
  existsb is_control l = false.
Proof.
  induction l as [|b l IH]; [done|]. cbn [forallb]. intros [Hb Hl]%andb_true_iff.
  destruct (IH Hl) as (E1 & E2 & E3 & E4).
  assert (in_range 0 0x7F b = true /\ Z.eqb 0 b = false /\ one_of "?#" b = false /\ is_control b = false)
    as (F1 & F2 & F3 & F4).
  { pose proof Hb as Hpl. revert Hb. apply (byte_cases (fun b => plain b = true -> in_range 0 0x7F b = true /\ Z.eqb 0 b = false /\
      one_of "?#" b = false /\ is_control b = false) b).
    - unfold plain in Hpl. go_cases. unfold is_byte. lia.
    - repeat constructor; by vm_compute. }
  cbn [utf8_valid existsb]. by rewrite F1, F2, F3, F4, E1, E2, E3, E4.
Qed.

(** Every absolute path has exactly one accepted spelling.  The percent
    encoding of any UTF-8 path that starts with a slash and fits the length
    bound is accepted and returned unchanged, and any accepted value that
    decodes to the same path is that spelling; so two requests for the same
    resource cannot differ in their digest through path encoding. *)
Theorem canonicalPath_unique path :
  Forall is_byte path -> utf8_valid path = true -> head path = Some 47 ->
  len (escape path) <= MaxOperationPathBytes ->
  let spelling := json.str_of (escape path) in
  canonicalPath spelling = Ok spelling /\
  (forall value c, canonicalPath value = Ok c -> unescape (codes value) = Some path -> value = spelling).
Proof.
  intros Hb Hu Hh Hlen. simpl.
  pose proof (escape_plain path Hb) as Hp. pose proof (json.codes_str_of _ (plain_byte _ Hp)) as Hcodes. split.
  - destruct (plain_checks _ Hp) as (Hu8 & H0 & Hq & Hc). unfold canonicalPath, utf8_ValidString, strlen.
    rewrite <-length_codes, Hcodes, Hu8, H0, Hq, Hc. unfold len in Hlen.
    rewrite (unescape_escape path Hb). destruct path as [|b path]; [done|]. injection Hh as ->.
    rewrite (proj2 (Z.eqb_neq _ 0)) by (simpl; lia).
    rewrite Z.gtb_ltb, (proj2 (Z.ltb_ge _ _)) by done.
    assert (String.prefix "/" (json.str_of (escape (47 :: path))) = true) as ->.
    { assert (json.str_of (escape (47 :: path)) = "/" +:+ json.str_of (escape path))%string as -> by reflexivity.
      generalize (json.str_of (escape path)). by intros []. }
    cbn [orb negb fail_if rbind]. rewrite Hu. cbn [negb fail_if rbind]. by rewrite bool_decide_eq_true_2.
  - intros value c Hval Hun. unfold canonicalPath in Hval. rewrite Hun in Hval. cbv zeta in Hval. ok_inv. done.
Qed.

(** ** Witnesses *)
#[local] Instance ex_jcs : JCS := fun document => Ok document.
#[local] Instance ex_strict : StrictJSON := fun _ _ => Ok tt.

Definition ex_key : OperationKey :=
  {| ok_Principal := "admin"; ok_Namespace := DefaultNamespace; ok_OperationID := "op-1" |}.
Definition ex_request (path : string) : Request :=
  {| rq_Method := "post"; rq_Path := path;
     rq_Preconditions := {| pre_IfNoneMatch := true; pre_ExpectedResourceRevision := None;
       pre_ExpectedActiveRouteRevision := None |};
     rq_BodyPresent := true; rq_Body := Some "{}"%string; rq_ArtifactDigest := None |}.
Definition ex_completion (path : string) : Completion :=
  {| cm_Key := ex_key; cm_Request := ex_request path;
     cm_Outcome := {| oc_Status := OutcomeSucceeded; oc_Failure := None;
       oc_AffectedResources := [{| af_Kind := "function"; af_ID := "fn_1"; af_ResourceRevision := Some 1;
         af_RouteRevision := None |}]; oc_CredentialIssued := false |};
     cm_CompletedAt := ex_at 1000; cm_AppliedIndex := 7 |}.

(** A mutation that counts how often it runs. *)
Definition ex_count : M Z unit := fun n => (n + 1, Ok tt).
Definition ex_state : Ledger * Z := fst (CompleteAfter (ex_completion "/v1/functions") ex_count (New, 0)).
Definition ex_result : CompletionResult :=
  match snd (CompleteAfter (ex_completion "/v1/functions") ex_count (New, 0)) with
  | Ok res => res
  | Err _ => {| cr_Disposition := ""; cr_Record := new_record (ex_completion "/") "" |}
  end.

Lemma ex_applied :
  complete (ex_completion "/v1/functions") (Some ex_count) (New, 0) = (ex_state, Ok ex_result).
Proof. by vm_compute. Qed.

Lemma completion_replay_witness :
  let s2 := ledger_run ex_state [OpGC (ex_at 2000)] in
  snd s2 = 1 /\
  complete (ex_completion "/v1/functions") (Some ex_count) s2
  = (s2, Ok {| cr_Disposition := CompletionReplay; cr_Record := cr_Record ex_result |}).
Proof.
  pose proof (completion_replay (ex_completion "/v1/functions") (Some ex_count) (New, 0) ex_state ex_result
    [OpGC (ex_at 2000)] New_ledger_inv ex_applied eq_refl) as Hreplay.
  split; [by vm_compute|].
  refine (eq_trans (Hreplay _ (ex_completion "/v1/functions") (Some ex_count)
    (rc_Digest (cr_Record ex_result)) eq_refl _) _); [apply Forall_singleton; by vm_compute|by vm_compute|].
  rewrite bool_decide_eq_true_2 by reflexivity. reflexivity.
Defined.

#[local] Instance ex_count_atomic : Atomic ex_count.
Proof. by intros s s' e [=]. Qed.

Lemma complete_atomic_witness : Atomic (complete (ex_completion "/v1/functions") (Some ex_count)).
Proof. apply (complete_atomic (ex_completion "/v1/functions") ex_count ex_count_atomic). Defined.

Definition ex_ledger : Ledger := fst ex_state.
Lemma ex_ledger_inv : ledger_inv ex_ledger.
Proof. pose proof (complete_inv (ex_completion "/v1/functions") (Some ex_count) New 0 New_ledger_inv) as Hi. exact Hi. Qed.

(** One day later the outcome has become a tombstone. *)
Lemma GC_retention_witness :
  Lookup (fst (GC (ex_at (1000 + DefaultOperationTTL)) ex_ledger)) ex_key = Err expired_id.
Proof.
  refine (GC_retention (ex_at (1000 + DefaultOperationTTL)) ex_ledger _
    {| gc_Tombstoned := 1; gc_Deleted := 0 |} ex_key ex_ledger_inv _ eq_refl). by vm_compute.
Defined.

Lemma GC_iteration_independent_witness :
  GC (ex_at 2000) ex_ledger = (ex_ledger, Ok {| gc_Tombstoned := 0; gc_Deleted := 0 |}).
Proof.
  refine (eq_trans (GC_iteration_independent (ex_at 2000) ex_ledger (rev (map_to_list (l_records ex_ledger))) [] _ _ eq_refl) _).
  - symmetry. apply Permutation_rev.
  - by vm_compute.
  - by vm_compute.
Defined.

Lemma canonicalPath_unique_witness :
  canonicalPath "/v1/a%20b" = Ok "/v1/a%20b"%string.
Proof.
  refine (proj1 (canonicalPath_unique (codes "/v1/a b") _ _ _ _)).
  - apply Forall_forall. intros b Hb. by apply codes_range in Hb.
  - by vm_compute.
  - by vm_compute.
  - by vm_compute.
Defined.

End ledger.
