(* ===== verification/ControlPlane.v ===== *)
(** * Package [internal/controlplane]: the stores together

    The joint state of catalog, release store, route store and assignment
    store, and its transitions.  Every operation is one step under its locks,
    except [CreateVersion], whose parent check and commit are two critical
    sections; the concurrent system below lets any other operation run between
    them. *)
From stdpp Require Import base gmap strings list relations.
From S2P Require Import Prelude Problem Digest Model Catalog ValidatorProtocol Release RouteStore.
From S2P Require Import ServingAuth Scheduler AssignmentStore.
Import problem digest model catalog protocol release routestore.

Module controlplane.

Record State := {
  cp_stores : Stores;
  cp_assignments : assignment.AssignmentStore;
}.

Definition init : State := {| cp_stores := NewStores; cp_assignments := assignment.NewAssignmentStore |}.

Definition with_catalog (s : State) (c : Catalog) : State :=
  {| cp_stores := {| st_catalog := c; st_releases := st_releases (cp_stores s); st_routes := st_routes (cp_stores s) |};
     cp_assignments := cp_assignments s |}.
Definition with_releases (s : State) (r : ReleaseStore) : State :=
  {| cp_stores := {| st_catalog := st_catalog (cp_stores s); st_releases := r; st_routes := st_routes (cp_stores s) |};
     cp_assignments := cp_assignments s |}.

Section system.
Context `{HJ : JCS}.

(** The operations other than [CreateVersion]. *)
Inductive op :=
| DoCreateFunction (command : CreateFunctionCommand)
| DoSetLifecycle (command : SetFunctionLifecycleCommand)
| DoRotateToken (command : RotateInvocationTokenCommand)
| DoStartValidation (command : StartValidationCommand)
| DoCompleteValidation (command : CompleteValidationCommand)
| DoPublish (command : PublishRouteCommand)
| DoInstall (command : assignment.InstallAssignmentCommand)
| DoCancel (command : assignment.CancelAssignmentCommand).

(** One call, whatever it returns. *)
Definition run (o : op) (s : State) : State :=
  match o with
  | DoCreateFunction command => with_catalog s (fst (CreateFunction command (st_catalog (cp_stores s))))
  | DoSetLifecycle command => with_catalog s (fst (SetFunctionLifecycle command (st_catalog (cp_stores s))))
  | DoRotateToken command => with_catalog s (fst (RotateInvocationToken command (st_catalog (cp_stores s))))
  | DoStartValidation command => with_releases s (fst (StartValidation command (st_releases (cp_stores s))))
  | DoCompleteValidation command => with_releases s (fst (CompleteValidation command (st_releases (cp_stores s))))
  | DoPublish command =>
      {| cp_stores := fst (Publish command (cp_stores s)); cp_assignments := cp_assignments s |}
  | DoInstall command =>
      {| cp_stores := cp_stores s;
         cp_assignments := fst (assignment.Install (cp_stores s) command (cp_assignments s)) |}
  | DoCancel command =>
      {| cp_stores := cp_stores s; cp_assignments := fst (assignment.Cancel command (cp_assignments s)) |}
  end.

Definition create_version (command : CreateVersionCommand) (s : State) : State :=
  with_releases s (fst (CreateVersion (st_catalog (cp_stores s)) command (st_releases (cp_stores s)))).
Definition commit_version (command : CreateVersionCommand) (s : State) : State :=
  with_releases s (fst (CreateVersion_commit command (st_releases (cp_stores s)))).

(** ** The two systems *)

(** The specification: every operation is one atomic step. *)
Inductive atomic_step : State -> State -> Prop :=
| atomic_run o s : atomic_step s (run o s)
| atomic_create_version command s : atomic_step s (create_version command s).

(** The code: a [CreateVersion] call that has passed its parent check waits,
    with the catalog unlocked, until it commits. *)
Inductive concurrent_step : State * list CreateVersionCommand -> State * list CreateVersionCommand -> Prop :=
| concurrent_run o s waiting : concurrent_step (s, waiting) (run o s, waiting)
| concurrent_check command s waiting :
    CreateVersion_check (st_catalog (cp_stores s)) command = Ok tt ->
    concurrent_step (s, waiting) (s, command :: waiting)
| concurrent_commit command s before after :
    concurrent_step (s, before ++ command :: after) (commit_version command s, before ++ after).

(** ** Invariant *)
Record cp_inv (s : State) : Prop := {
  cp_stores_inv : stores_inv (cp_stores s);
  cp_assignments_inv : assignment.assignment_inv (cp_assignments s);
  cp_parent : forall vid v, versions (st_releases (cp_stores s)) !! vid = Some v ->
    is_Some (functionsByID (st_catalog (cp_stores s)) !! v_FunctionID v);
  cp_placement : forall id r, assignment.records (cp_assignments s) !! id = Some r ->
    exists v d, assignment.placement_ok (st_releases (cp_stores s)) r v d;
}.

Lemma init_inv : cp_inv init.
Proof. split; [apply NewStores_inv|apply assignment.NewAssignmentStore_inv|done|done]. Qed.

Lemma placement_extend s s' r v d :
  releases_extend s s' -> assignment.placement_ok s r v d -> assignment.placement_ok s' r v d.
Proof.
  intros Hext [Hv Hd Hr ???????]. destruct (Hext _ _ _ Hv Hr Hd) as [??]. by split.
Qed.

(** The Functions of one catalog are still there in the next. *)
Definition functions_kept (c c' : Catalog) : Prop :=
  forall fid, is_Some (functionsByID c !! fid) -> is_Some (functionsByID c' !! fid).

Lemma catalog_extends_kept c c' : catalog_extends c c' -> functions_kept c c'.
Proof. intros Hc fid [f Hf]. destruct (ce_old _ _ Hc _ _ Hf) as (f' & Hf' & _). eauto. Qed.

Lemma with_catalog_inv s c' : cp_inv s -> catalog_extends (st_catalog (cp_stores s)) c' -> cp_inv (with_catalog s c').
Proof.
  intros [Hst Has Hpar Hpl] Hc. split; simpl; [|done| |done].
  - apply stores_inv_extend; [done..|apply Hst|by intros ????].
  - intros vid v Hv. apply (catalog_extends_kept _ _ Hc). by eapply Hpar.
Qed.

Lemma with_releases_inv s r' :
  cp_inv s -> release_inv r' -> releases_extend (st_releases (cp_stores s)) r' ->
  (forall vid v, versions r' !! vid = Some v -> is_Some (functionsByID (st_catalog (cp_stores s)) !! v_FunctionID v)) ->
  cp_inv (with_releases s r').
Proof.
  intros [Hst Has Hpar Hpl] Hr Hext Hpar'. split; simpl; [|done|done|].
  - apply stores_inv_extend; [done|apply catalog_extends_refl, Hst|done|done].
  - intros id r Hrec. destruct (Hpl id r Hrec) as (v & d & Hpk). exists v, d. by eapply placement_extend.
Qed.

(** Versions after one release-store call: old ones with their Function, or
    the one a commit inserts. *)
Lemma run_op_parent o s vid v' :
  release_inv s -> versions (run_op o s) !! vid = Some v' ->
  (exists v, versions s !! vid = Some v /\ v_FunctionID v = v_FunctionID v') \/
  (exists fs command, o = OpCreateVersion fs command /\ v' = cv_Version command).
Proof.
  intros Hs Hv'. destruct (versions s !! vid) as [v|] eqn:Hv.
  { left. destruct (run_op_version o s vid v Hs Hv) as (w & Hw & (Hsame & _) & _). exists v. split; [done|].
    rewrite Hw in Hv'. injection Hv' as <-. rewrite Hsame. done. }
  right. destruct (run_op_cases o s) as
    [E|[(fs & c & w & -> & _ & Hc)|[(c & w & -> & Hc)|(c & w & od & -> & Hc)]]].
  - rewrite E in Hv'. congruence.
  - apply CreateVersion_commit_Ok in Hc as (-> & _ & _ & E). rewrite E in Hv'. simpl in Hv'.
    rewrite lookup_insert in Hv'. case_decide; [|congruence]. injection Hv' as <-. eauto.
  - apply StartValidation_Ok in Hc as (w0 & Hw0 & _ & _ & -> & _ & E). rewrite E in Hv'. simpl in Hv'.
    rewrite lookup_insert in Hv'. case_decide as Eid; [|congruence].
    rewrite (vo_vid _ _ (ri_version _ Hs _ _ Hw0)) in Eid. congruence.
  - apply CompleteValidation_Ok in Hc as (w0 & Hcp & _ & E & Hcase). rewrite E in Hv'. simpl in Hv'.
    pose proof (cp_lookup _ _ _ Hcp) as Hw0.
    assert (v_VersionID w = v_VersionID w0) as Ew.
    { simpl in Hcase. destruct (rp_Valid _); destruct Hcase as (? & ?); naive_solver. }
    rewrite lookup_insert in Hv'. case_decide as Eid; [|congruence].
    rewrite Ew, (vo_vid _ _ (ri_version _ Hs _ _ Hw0)) in Eid. congruence.
Qed.

Lemma release_call_inv o s :
  cp_inv s -> (forall fs command, o <> OpCreateVersion fs command) ->
  cp_inv (with_releases s (run_op o (st_releases (cp_stores s)))).
Proof.
  intros Hs Ho. pose proof (si_releases _ (cp_stores_inv _ Hs)) as Hr.
  apply with_releases_inv; [done|by apply run_op_inv|by apply run_op_extends|].
  intros vid v' Hv'. apply run_op_parent in Hv' as [(v & Hv & <-)|(fs & c & -> & _)]; [|by destruct (Ho fs c)|done].
  by eapply (cp_parent _ Hs).
Qed.

Lemma run_inv o s : cp_inv s -> cp_inv (run o s).
Proof.
  intros Hs. pose proof (cp_stores_inv _ Hs) as Hst. pose proof (si_catalog _ Hst) as Hc.
  destruct o as [c|c|c|c|c|c|c|c]; simpl.
  - apply with_catalog_inv; [done|by apply CreateFunction_extends].
  - apply with_catalog_inv; [done|by apply SetFunctionLifecycle_extends].
  - apply with_catalog_inv; [done|by apply RotateInvocationToken_extends].
  - by apply (release_call_inv (OpStartValidation c)).
  - by apply (release_call_inv (OpCompleteValidation c)).
  - destruct (Publish c (cp_stores s)) as [s' [[r f]|e]] eqn:E; simpl.
    2:{ rewrite (Publish_Atomic _ _ _ _ E). by destruct s. }
    pose proof (Publish_inv _ _ _ _ _ Hst E) as Hst'. apply Publish_Ok in E as (f0 & Hp & -> & -> & ->).
    split; simpl; [done|apply Hs| |apply Hs].
    intros vid v Hv. rewrite lookup_insert_is_Some'. right. by eapply (cp_parent _ Hs).
  - destruct (assignment.Install (cp_stores s) c (cp_assignments s)) as [s' [r|e]] eqn:E; simpl.
    2:{ rewrite (assignment.Install_Atomic _ _ _ _ _ E). by destruct s. }
    pose proof (assignment.Install_inv _ _ _ _ _ Hst (cp_assignments_inv _ Hs) E) as Has'.
    apply assignment.Install_Ok in E as (_ & -> & _ & _ & f & rt & t & v & d & Hin & _ & _ & ->).
    split; simpl; [done|done|apply Hs|]. intros id r. rewrite lookup_insert. case_decide; [|apply Hs].
    intros [= <-]. exists v, d. by apply (assignment.installs_placement _ _ _ _ _ _ _ Hst Hin).
  - destruct (assignment.Cancel c (cp_assignments s)) as [s' [r|e]] eqn:E; simpl.
    2:{ rewrite (assignment.Cancel_Atomic _ _ _ _ E). by destruct s. }
    pose proof (assignment.Cancel_inv _ _ _ _ (cp_assignments_inv _ Hs) E) as Has'.
    apply assignment.Cancel_Ok in E as (r0 & Hr0 & _ & _ & -> & _ & _ & ->).
    split; simpl; [done|done|apply Hs|]. intros id r. rewrite lookup_insert. case_decide; [|apply Hs].
    intros [= <-]. destruct (cp_placement _ Hs _ _ Hr0) as (v & d & []). exists v, d. by split.
Qed.

(** *** The parent check *)
Lemma check_spec c command :
  catalog_inv c ->
  CreateVersion_check c command = Ok tt <->
  validateCreateVersion command = Ok tt /\ is_Some (functionsByID c !! v_FunctionID (cv_Version command)).
Proof.
  intros Hc. unfold CreateVersion_check. split.
  - intros Hch. ok_inv. split; [done|]. unfold GetFunction in *. ok_inv.
    by destruct (functionsByID c !! _).
  - intros [Hv [f Hf]]. rewrite Hv. cbn [rbind].
    pose proof (ci_function _ Hc _ _ Hf) as Hok.
    destruct (GetFunction_inv _ _ _ Hc (function_ok_id _ _ Hok) Hf) as (t & tid & Hget & _).
    rewrite Hget. cbn [wrap_err rbind fst]. destruct (fo_life _ _ Hok) as [->| ->]; done.
Qed.

Lemma create_version_inv command s : cp_inv s -> cp_inv (create_version command s).
Proof.
  intros Hs. pose proof (si_releases _ (cp_stores_inv _ Hs)) as Hr. unfold create_version.
  set (o := OpCreateVersion (st_catalog (cp_stores s)) command).
  change (fst (CreateVersion _ _ _)) with (run_op o (st_releases (cp_stores s))).
  apply with_releases_inv; [done|by apply run_op_inv|by apply run_op_extends|].
  intros vid v' Hv'. pose proof Hv' as Hnew.
  apply run_op_parent in Hv' as [(v & Hv & <-)|(fs & c & [= <- <-] & ->)]; [by eapply (cp_parent _ Hs)| |done].
  destruct (CreateVersion_check (st_catalog (cp_stores s)) command) as [[]|e] eqn:Hch.
  - by apply check_spec in Hch as [_ ?]; [|apply (cp_stores_inv _ Hs)].
  - simpl in Hnew. unfold CreateVersion, sbind, slift in Hnew. rewrite Hch in Hnew. by eapply (cp_parent _ Hs).
Qed.

Lemma atomic_step_inv s s' : atomic_step s s' -> cp_inv s -> cp_inv s'.
Proof. intros [o s0|command s0] Hs; [by apply run_inv|by apply create_version_inv]. Qed.

Lemma atomic_reachable_inv s : rtc atomic_step init s -> cp_inv s.
Proof.
  intros Hr. refine (rtc_ind_r (R:=atomic_step) (fun s => cp_inv s) init init_inv _ s Hr).
  intros x y _ Hstep Hx. by eapply atomic_step_inv.
Qed.

(** Functions are never removed, so a check that has passed stays passed. *)
Lemma run_functions_kept o s : cp_inv s -> functions_kept (st_catalog (cp_stores s)) (st_catalog (cp_stores (run o s))).
Proof.
  intros Hs. pose proof (si_catalog _ (cp_stores_inv _ Hs)) as Hc.
  destruct o as [c|c|c|c|c|c|c|c]; simpl; try by intros ??.
  - by apply catalog_extends_kept, CreateFunction_extends.
  - by apply catalog_extends_kept, SetFunctionLifecycle_extends.
  - by apply catalog_extends_kept, RotateInvocationToken_extends.
  - destruct (Publish c (cp_stores s)) as [s' [[r f]|e]] eqn:E; simpl;
      [|rewrite (Publish_Atomic _ _ _ _ E); by intros ??].
    apply Publish_Ok in E as (f0 & _ & _ & _ & ->). intros fid Hf. simpl. rewrite lookup_insert_is_Some'. by right.
Qed.

Definition waiting_ok (s : State) (waiting : list CreateVersionCommand) : Prop :=
  Forall (fun command => CreateVersion_check (st_catalog (cp_stores s)) command = Ok tt) waiting.

Lemma waiting_ok_kept s s' waiting :
  cp_inv s -> cp_inv s' -> functions_kept (st_catalog (cp_stores s)) (st_catalog (cp_stores s')) ->
  waiting_ok s waiting -> waiting_ok s' waiting.
Proof.
  intros Hs Hs' Hk Hw. eapply Forall_impl; [exact Hw|]. intros command. simpl.
  rewrite (check_spec _ _ (si_catalog _ (cp_stores_inv _ Hs))), (check_spec _ _ (si_catalog _ (cp_stores_inv _ Hs'))).
  intros [Hv Hf]. split; [done|by apply Hk].
Qed.

Lemma commit_is_create s command :
  CreateVersion_check (st_catalog (cp_stores s)) command = Ok tt ->
  commit_version command s = create_version command s.
Proof. intros Hch. unfold commit_version, create_version, CreateVersion, sbind, slift. by rewrite Hch. Qed.

Lemma concurrent_step_simulation s w s' w' :
  concurrent_step (s, w) (s', w') -> cp_inv s -> waiting_ok s w ->
  (s' = s \/ atomic_step s s') /\ cp_inv s' /\ waiting_ok s' w'.
Proof.
  intros Hstep Hs Hw. inversion Hstep; subst; clear Hstep.
  - assert (cp_inv (run o s)) by (by apply run_inv). split_and!; [right; constructor|done|].
    eapply waiting_ok_kept; [exact Hs|done|by apply run_functions_kept|done].
  - split_and!; [by left|done|by constructor].
  - apply Forall_app in Hw as [Hb [Hch Ha]%Forall_cons]. rewrite (commit_is_create _ _ Hch).
    split_and!; [right; constructor|by apply create_version_inv|]. apply Forall_app. split; [exact Hb|exact Ha].
Qed.

Lemma concurrent_reachable s w :
  rtc concurrent_step (init, []) (s, w) -> rtc atomic_step init s /\ cp_inv s /\ waiting_ok s w.
Proof.
  intros Hr. change (let '(s, w) := (s, w) in rtc atomic_step init s /\ cp_inv s /\ waiting_ok s w).
  refine (rtc_ind_r (R:=concurrent_step)
    (fun x => let '(s, w) := x in rtc atomic_step init s /\ cp_inv s /\ waiting_ok s w) (init, []) _ _ (s, w) Hr);
    [split_and!; [constructor|apply init_inv|constructor]|].
  intros [s1 w1] [s2 w2] _ Hstep (Hr1 & Hs1 & Hw1).
  destruct (concurrent_step_simulation _ _ _ _ Hstep Hs1 Hw1) as ([->|Hat] & Hs2 & Hw2); [done|].
  split_and!; [by eapply rtc_r|done|done].
Qed.

(** C1: The control plane, with CreateVersion's parent check and commit in
    separate critical sections and every other operation free to run in
    between, refines the system in which each operation is one atomic step:
    every state it can reach, whatever calls are still waiting to commit, is
    reached by atomic steps, and every waiting call's check still holds. *)
Theorem concurrent_refines_atomic s waiting :
  rtc concurrent_step (init, []) (s, waiting) ->
  rtc atomic_step init s /\
  Forall (fun command => CreateVersion_check (st_catalog (cp_stores s)) command = Ok tt) waiting.
Proof. intros (Hr & _ & Hw)%concurrent_reachable. done. Qed.

(** C2: In every reachable state of the control plane the stores agree with
    each other: every Version has its parent Function; a Version is Ready
    exactly when it has a Deployment, whose policy digest is the digest of the
    effective policy; every Route is its Function's active revision; every
    Assignment record, live or cancelled, points to a Ready Version of its
    Function with the epoch, generation, artifact and policy digest it was
    placed with; at most one record per target is live; and the serving read
    of all Functions succeeds. *)
Theorem control_plane_consistent s waiting :
  rtc concurrent_step (init, []) (s, waiting) ->
  cp_inv s /\ is_ok (ServingStates (cp_stores s)) = true /\
  (forall t, countb (assignment.assigned_to t) (assignment.records (cp_assignments s)) <= 1).
Proof.
  intros (_ & Hs & _)%concurrent_reachable. split_and!; [done| |].
  - destruct (serving_states_ok _ (cp_stores_inv _ Hs)) as [states ->]. done.
  - intros t. rewrite <-(assignment.as_count _ (cp_assignments_inv _ Hs)). apply (cp_assignments_inv _ Hs).
Qed.

End system.
(** ** Witnesses *)
#[local] Existing Instance release.ex_jcs.

(** A Function is created, a Version of it passes its parent check, the
    Function is disabled, and only then the Version commits. *)
Definition ex_s1 : State := run (DoCreateFunction ex_create) init.
Definition ex_s2 : State := run (DoSetLifecycle (ex_disable 1)) ex_s1.
Definition ex_s3 : State := commit_version ex_create_version ex_s2.

Lemma ex_reachable : rtc concurrent_step (init, []) (ex_s3, []).
Proof.
  apply (rtc_l _ _ (ex_s1, [])); [apply concurrent_run|].
  apply (rtc_l _ _ (ex_s1, [ex_create_version])); [apply concurrent_check; by vm_compute|].
  apply (rtc_l _ _ (ex_s2, [ex_create_version])); [apply concurrent_run|].
  apply (rtc_l _ _ (ex_s3, [])); [apply (concurrent_commit ex_create_version ex_s2 [] [])|constructor].
Qed.

Lemma ex_committed : v_State <$> versions (st_releases (cp_stores ex_s3)) !! "ver_1"%string = Some VersionUploaded.
Proof. by vm_compute. Qed.

Lemma concurrent_refines_atomic_witness : rtc atomic_step init ex_s3.
Proof. apply (concurrent_refines_atomic ex_s3 [] ex_reachable). Defined.

Lemma control_plane_consistent_witness : is_ok (ServingStates (cp_stores ex_s3)) = true.
Proof. apply (control_plane_consistent ex_s3 [] ex_reachable). Defined.

End controlplane.
