(* ===== verification/LocalController.v ===== *)
(** * Package [internal/localcontroller]: the single-process controller

    The controller is the write entry point of the control plane.  It obtains
    identifiers, salts, tokens, command positions, artifacts and validator
    reports from interfaces (the class [Sources]), builds the commands of the
    stores from them, and applies those under its locks.  This file holds the
    controller's state, its sources, and the methods of controller.go,
    function.go, route.go, assignment.go and admission.go. *)
From stdpp Require Import base gmap strings list sorting.
From S2P Require Import Prelude Problem Digest Json Model Catalog ValidatorProtocol Release RouteStore.
From S2P Require Import ServingAuth Scheduler Net AssignmentStore Ledger ControlPlane.
Import problem digest model catalog protocol release routestore.

#[local] Open Scope Z_scope.

Module localcontroller.

Definition randomIDBytes : Z := 16.
Definition randomTokenBytes : Z := 32.
Definition routeSaltBytes : Z := 16.

(** ** Inputs and results (types.go) *)
Record CreateFunctionInput := {
  ci_Name : string;
  ci_Labels : option (gmap string string);
  ci_AuthPolicy : string;
}.

Record RotateInvocationTokenInput := { rt_FunctionID : string; rt_ExpectedResourceRevision : Z }.

Record SetFunctionLifecycleInput := {
  sf_FunctionID : string;
  sf_ExpectedResourceRevision : Z;
  sf_Lifecycle : string;
}.

Record CreateVersionInput := {
  vi_FunctionID : string;
  vi_ArtifactDigest : string;
  vi_ManifestDigest : string;
  vi_Toolchain : ToolchainMetadata;
  vi_ResourceRequest : ResourceRequest;
  vi_RequestedCapabilities : option (list CapabilityRequest);
}.

Record PublishRouteInput := {
  pi_FunctionID : string;
  pi_VersionID : string;
  pi_ExpectedActiveRouteRevision : Z;
}.

Record CommitAssignmentInput := {
  ai_FunctionID : string;
  ai_Placement : scheduler.Assignment;
  ai_ExpectedScalingRevision : Z;
}.

Record CancelAssignmentInput := { xi_AssignmentID : string; xi_ExpectedResourceRevision : Z }.

Record FunctionView := { vw_Function : Function; vw_Trigger : HTTPTrigger; vw_InvocationToken : string }.

Record AdmissionResult := { ad_Version : Version; ad_Deployment : option Deployment }.

(** ** Sources *)
Record CommandMeta := { mt_AppliedIndex : Z; mt_At : Time }.
Definition zero_command : CommandMeta := {| mt_AppliedIndex := 0; mt_At := zero_Time |}.

(** [artifact.Info] *)
Record Info := { in_Digest : string; in_Size : Z; in_Created : bool }.

Definition zero_Version : Version :=
  {| v_Metadata := zero_Metadata; v_FunctionID := ""; v_VersionID := ""; v_ArtifactDigest := ""; v_ManifestDigest := "";
     v_ArtifactSize := 0; v_ABI := ""; v_HostAPIProfile := ""; v_RuntimeFeatureProfile := "";
     v_Toolchain := {| tc_Name := ""; tc_Version := ""; tc_Provenance := "" |}; v_AdmissionEpoch := 0;
     v_ResourceRequest := {| rr_Timeout := 0; rr_MemoryMiB := 0; rr_MaxConcurrency := 0; rr_MaxInputBytes := 0;
                             rr_MaxOutputBytes := 0 |};
     v_RequestedCapabilities := []; v_State := ""; v_ValidationError := None |}.

(** The interfaces the controller is configured with.  [E] is their state;
    [File] an open artifact, [Reader] a byte source.  A nil file is [None]. *)
Class Sources (E File Reader : Type) := {
  Commands_Next : M E CommandMeta;
  IDs_NewID : string -> M E string;
  Salts_NewSalt : M E string;
  Tokens_NewToken : M E string;
  Artifacts_Put : string -> Reader -> M E Info;
  Artifacts_OpenVerified : string -> M E (option File * Info);
  File_Close : File -> M E unit;
  Validator_Validate : protocol.Request -> File -> M E Report;
}.

(** ** State *)
Record Controller := {
  ctl_stores : controlplane.State;
  ctl_ledger : ledger.Ledger;
  ctl_validating : gset string;
  ctl_lastCommand : CommandMeta;
}.

Definition New : Controller :=
  {| ctl_stores := controlplane.init; ctl_ledger := ledger.New; ctl_validating := ∅; ctl_lastCommand := zero_command |}.

Definition set_stores (c : Controller) (stores : controlplane.State) : Controller :=
  {| ctl_stores := stores; ctl_ledger := ctl_ledger c; ctl_validating := ctl_validating c;
     ctl_lastCommand := ctl_lastCommand c |}.
Definition set_ledger (c : Controller) (l : ledger.Ledger) : Controller :=
  {| ctl_stores := ctl_stores c; ctl_ledger := l; ctl_validating := ctl_validating c;
     ctl_lastCommand := ctl_lastCommand c |}.
Definition set_validating (c : Controller) (ids : gset string) : Controller :=
  {| ctl_stores := ctl_stores c; ctl_ledger := ctl_ledger c; ctl_validating := ids;
     ctl_lastCommand := ctl_lastCommand c |}.
Definition set_lastCommand (c : Controller) (command : CommandMeta) : Controller :=
  {| ctl_stores := ctl_stores c; ctl_ledger := ctl_ledger c; ctl_validating := ctl_validating c;
     ctl_lastCommand := command |}.

(** The stores behind the controller's pointers. *)
Definition ctl_catalog (c : Controller) : Catalog := st_catalog (controlplane.cp_stores (ctl_stores c)).
Definition ctl_releases (c : Controller) : ReleaseStore := st_releases (controlplane.cp_stores (ctl_stores c)).
Definition ctl_routes (c : Controller) : RouteStore := st_routes (controlplane.cp_stores (ctl_stores c)).

(** Store methods, as methods of the four stores together. *)
Definition on_catalog {A} (m : M Catalog A) : M controlplane.State A := fun s =>
  let '(c, r) := m (st_catalog (controlplane.cp_stores s)) in (controlplane.with_catalog s c, r).
Definition on_releases {A} (m : M ReleaseStore A) : M controlplane.State A := fun s =>
  let '(x, r) := m (st_releases (controlplane.cp_stores s)) in (controlplane.with_releases s x, r).
Definition on_routes {A} (m : M Stores A) : M controlplane.State A := fun s =>
  let '(x, r) := m (controlplane.cp_stores s) in
  ({| controlplane.cp_stores := x; controlplane.cp_assignments := controlplane.cp_assignments s |}, r).
Definition on_assignments {A} (m : Stores -> M assignment.AssignmentStore A) : M controlplane.State A := fun s =>
  let '(x, r) := m (controlplane.cp_stores s) (controlplane.cp_assignments s) in
  ({| controlplane.cp_stores := controlplane.cp_stores s; controlplane.cp_assignments := x |}, r).

(** [if err != nil { return fmt.Errorf(context + ": %w", err) }] on a method. *)
Definition swrap {S A} (context : string) (m : M S A) : M S A := fun s =>
  let '(s', r) := m s in (s', wrap_err context r).

Section controller.
Context `{HJ : JCS} {E File Reader : Type} `{HE : !Sources E File Reader}.

(** The controller with the state of its sources. *)
Definition World : Type := Controller * E.

Definition with_env {A} (m : M E A) : M World A := fun w =>
  let '(e, r) := m (snd w) in ((fst w, e), r).
Definition with_stores {A} (m : M controlplane.State A) : M World A := fun w =>
  let '(s, r) := m (ctl_stores (fst w)) in ((set_stores (fst w) s, snd w), r).
Definition reading {A} (f : Controller -> result A) : M World A := fun w => (w, f (fst w)).

(** [checkContext], with [ctx.Err()] as its argument. *)
Definition checkContext (cancelled : option error) : result unit :=
  match cancelled with
  | Some err => Err (WrapError "local controller context is unavailable" err)
  | None => Ok tt
  end.

(** ** controller.go *)
Definition nextCommand : M World CommandMeta :=
  let! command := with_env (swrap "getting command metadata" Commands_Next) in
  do! slift (fail_if (mt_AppliedIndex command =? 0)
               (PlainError "local controller command source returned zero applied index")) in
  do! slift (fail_if (time_IsZero (mt_At command) || negb (time_IsUTC (mt_At command)))
               (PlainError "local controller command source returned a non-UTC timestamp")) in
  let command := {| mt_AppliedIndex := mt_AppliedIndex command; mt_At := time_Round0 (mt_At command) |} in
  let! w := sget in
  let last := ctl_lastCommand (fst w) in
  do! slift (fail_if (negb (mt_AppliedIndex last =? 0) && (mt_AppliedIndex command <=? mt_AppliedIndex last))
               (PlainError "local controller command source did not advance applied index")) in
  do! slift (fail_if (negb (time_IsZero (mt_At last)) && time_Before (mt_At command) (mt_At last))
               (PlainError "local controller command source regressed timestamp")) in
  do! sput (set_lastCommand (fst w) command, snd w) in
  sret command.

Definition generating (prefix : string) : string := "generating " +:+ prefix +:+ " id".

Definition newID (prefix : string) : M World string :=
  let! id := with_env (swrap (generating prefix) (IDs_NewID prefix)) in
  do! slift (fail_if (id == "") (PlainError (generating prefix +:+ ": source returned an empty id"))) in
  do! slift (fail_if (negb (idPattern id)) (PlainError (generating prefix +:+ ": source returned an invalid id"))) in
  sret id.

Definition newRouteSalt : M World string :=
  let! salt := with_env (swrap "generating route salt" Salts_NewSalt) in
  do! slift (fail_if (negb (strlen salt =? routeSaltBytes))
               (PlainError "generating route salt: source returned an invalid length")) in
  sret salt.

Definition claimValidation (versionID : string) (w : World) : World * bool :=
  let c := fst w in
  if bool_decide (versionID ∈ ctl_validating c) then (w, false)
  else ((set_validating c ({[ versionID ]} ∪ ctl_validating c), snd w), true).

Definition releaseValidation (versionID : string) (w : World) : World :=
  (set_validating (fst w) (ctl_validating (fst w) ∖ {[ versionID ]}), snd w).

(** ** function.go *)
Definition PutArtifact (cancelled : option error) (expected : string) (source : Reader) : M World Info :=
  do! slift (checkContext cancelled) in
  let! info := with_env (swrap "putting artifact" (Artifacts_Put expected source)) in
  do! slift (fail_if (in_Digest info != expected)
               (PlainError "putting artifact: store returned a mismatched digest")) in
  sret info.

(** [cloneLabels] makes a nil map empty. *)
Definition cloneLabels (labels : option (gmap string string)) : gmap string string := default ∅ labels.

Definition newToken : M World string :=
  let! token := with_env (swrap "generating invocation token" Tokens_NewToken) in
  do! slift (fail_if (token == "")
               (PlainError "generating invocation token: token source returned an empty token")) in
  sret token.

Definition newInvocationToken (policy : string) : M World (string * option string) :=
  if policy == AuthPolicyPublic then sret (""%string, None)
  else if policy == AuthPolicyToken then
    let! token := newToken in sret (token, Some (Sum token))
  else sthrow (Invalid "auth_policy" "must be token or public").

(** The metadata of a resource that a command creates. *)
Definition created_metadata (id namespace : string) (command : CommandMeta) : Metadata :=
  {| md_ID := id; md_Namespace := namespace; md_CreatedAt := mt_At command; md_UpdatedAt := mt_At command;
     md_CreatedRaftIndex := mt_AppliedIndex command; md_ResourceRevision := 1 |}.

Record preparedFunction := { pf_command : CommandMeta; pf_view : FunctionView }.

Definition prepareCreateFunction (input : CreateFunctionInput) : M World preparedFunction :=
  let! token := newInvocationToken (ci_AuthPolicy input) in
  let! functionID := newID "function" in
  let! triggerID := newID "trigger" in
  let! command := nextCommand in
  let function := {| fn_Metadata := created_metadata functionID DefaultNamespace command; fn_Name := ci_Name input;
                     fn_Description := ""; fn_ActiveRouteRevision := 0; fn_Labels := cloneLabels (ci_Labels input);
                     fn_Lifecycle := FunctionActive |} in
  let trigger := {| tr_Metadata := created_metadata triggerID DefaultNamespace command; tr_FunctionID := functionID;
                    tr_Enabled := true; tr_AuthPolicy := ci_AuthPolicy input; tr_TokenVerifierDigest := snd token |} in
  sret {| pf_command := command;
          pf_view := {| vw_Function := function; vw_Trigger := trigger; vw_InvocationToken := fst token |} |}.

Definition create_command (prepared : preparedFunction) : CreateFunctionCommand :=
  {| cf_IfNoneMatch := true; cf_AppliedIndex := mt_AppliedIndex (pf_command prepared);
     cf_Function := vw_Function (pf_view prepared); cf_Trigger := vw_Trigger (pf_view prepared) |}.

Definition applyCreateFunction (prepared : preparedFunction) : M controlplane.State FunctionView :=
  do! swrap "creating function" (on_catalog (catalog.CreateFunction (create_command prepared))) in
  sret (pf_view prepared).

Definition CreateFunction (cancelled : option error) (input : CreateFunctionInput) : M World FunctionView :=
  do! slift (checkContext cancelled) in
  let! prepared := prepareCreateFunction input in
  with_stores (applyCreateFunction prepared).

Record preparedRotation := {
  pt_command : CommandMeta;
  pt_input : RotateInvocationTokenInput;
  pt_triggerID : string;
  pt_token : string;
  pt_verifier : string;
}.

Definition prepareRotateInvocationToken (input : RotateInvocationTokenInput) : M World preparedRotation :=
  let! found := reading (fun c => wrap_err "loading invocation token trigger" (catalog.GetFunction (ctl_catalog c) (rt_FunctionID input))) in
  let! token := newToken in
  let! command := nextCommand in
  sret {| pt_command := command; pt_input := input; pt_triggerID := tr_ID (snd found); pt_token := token;
          pt_verifier := Sum token |}.

Definition rotate_command (prepared : preparedRotation) : RotateInvocationTokenCommand :=
  {| ri_FunctionID := rt_FunctionID (pt_input prepared);
     ri_ExpectedResourceRevision := rt_ExpectedResourceRevision (pt_input prepared);
     ri_TokenVerifierDigest := pt_verifier prepared; ri_UpdatedAt := mt_At (pt_command prepared);
     ri_AppliedIndex := mt_AppliedIndex (pt_command prepared) |}.

Definition applyRotateInvocationToken (prepared : preparedRotation) : M controlplane.State FunctionView :=
  let! trigger := swrap "rotating invocation token" (on_catalog (catalog.RotateInvocationToken (rotate_command prepared))) in
  let! s := sget in
  let! found := slift (wrap_err "loading rotated invocation token"
                         (catalog.GetFunction (st_catalog (controlplane.cp_stores s)) (rt_FunctionID (pt_input prepared)))) in
  sret {| vw_Function := fst found; vw_Trigger := trigger; vw_InvocationToken := pt_token prepared |}.

Definition RotateInvocationToken (cancelled : option error) (input : RotateInvocationTokenInput) : M World FunctionView :=
  do! slift (checkContext cancelled) in
  let! prepared := prepareRotateInvocationToken input in
  with_stores (applyRotateInvocationToken prepared).

Definition GetFunction (cancelled : option error) (functionID : string) (c : Controller) : result FunctionView :=
  checkContext cancelled ;;;
  found <- wrap_err "getting function" (catalog.GetFunction (ctl_catalog c) functionID) ;;
  Ok {| vw_Function := fst found; vw_Trigger := snd found; vw_InvocationToken := "" |}.

(** The map the loop over the snapshot's Triggers builds. *)
Definition triggers_by_function (l : list HTTPTrigger) : gmap string HTTPTrigger :=
  foldl (fun m t => <[tr_FunctionID t := t]> m) ∅ l.

Definition ListFunctions (cancelled : option error) (c : Controller) : result (list FunctionView) :=
  checkContext cancelled ;;;
  let snapshot := catalog.Snapshot (ctl_catalog c) in
  let triggers := triggers_by_function (snap_Triggers snapshot) in
  map_result (fun function =>
    match triggers !! fn_ID function with
    | None => Err (PlainError "listing functions: catalog invariant has no default trigger")
    | Some trigger => Ok {| vw_Function := function; vw_Trigger := trigger; vw_InvocationToken := "" |}
    end) (snap_Functions snapshot).

Definition lifecycle_command (input : SetFunctionLifecycleInput) (command : CommandMeta) : SetFunctionLifecycleCommand :=
  {| sl_FunctionID := sf_FunctionID input; sl_ExpectedResourceRevision := sf_ExpectedResourceRevision input;
     sl_Lifecycle := sf_Lifecycle input; sl_UpdatedAt := mt_At command; sl_AppliedIndex := mt_AppliedIndex command |}.

(** [applyFunctionLifecycle], whose body [SetFunctionLifecycle] repeats. *)
Definition applyFunctionLifecycle (input : SetFunctionLifecycleInput) (command : CommandMeta) : M controlplane.State Function :=
  swrap "setting function lifecycle" (on_catalog (catalog.SetFunctionLifecycle (lifecycle_command input command))).

Definition SetFunctionLifecycle (cancelled : option error) (input : SetFunctionLifecycleInput) : M World Function :=
  do! slift (checkContext cancelled) in
  let! command := nextCommand in
  with_stores (applyFunctionLifecycle input command).

(** What other goroutines do meanwhile, where no lock excludes them. *)
Definition interfere (meanwhile : World -> World) : M World unit := fun w => (meanwhile w, Ok tt).

(** ** route.go *)
Record preparedRoute := { pp_command : CommandMeta; pp_input : PublishRouteInput; pp_route : Route }.

Definition preparePublishRoute (input : PublishRouteInput) : M World preparedRoute :=
  do! slift (fail_if (pi_ExpectedActiveRouteRevision input =? maxUint64)
               (classified CodeConflict "function route revision space is exhausted")) in
  let! found := reading (fun c => wrap_err "loading route target version" (release.Get (ctl_releases c) (pi_VersionID input))) in
  let version := fst found in
  let not_ready := classified CodeConflict "route target is not a ready active version for this function" in
  do! slift (fail_if ((v_FunctionID version != pi_FunctionID input) || (v_State version != VersionReady)) not_ready) in
  match snd found with
  | None => sthrow not_ready
  | Some deployment =>
    do! slift (fail_if (d_DesiredPhase deployment != DeploymentActive) not_ready) in
    let! routeID := newID "route" in
    let! saltID := newID "salt" in
    let! salt := newRouteSalt in
    let! command := nextCommand in
    sret {| pp_command := command; pp_input := input;
            pp_route := {|
              r_Metadata := created_metadata routeID (md_Namespace (v_Metadata version)) command;
              r_FunctionID := pi_FunctionID input;
              r_RouteRevision := u64 (pi_ExpectedActiveRouteRevision input + 1);
              r_Targets := [{| rt_VersionID := v_VersionID version; rt_AdmissionEpoch := v_AdmissionEpoch version;
                               rt_DeploymentGeneration := d_Generation deployment;
                               rt_EffectivePolicyDigest := d_EffectivePolicyDigest deployment;
                               rt_WeightBasisPoints := TotalRouteWeightBasisPoints |}];
              r_Affinity := AffinityRequestID; r_AffinityHeader := ""; r_HashVersion := HashVersionSHA256BPSV1;
              r_SaltID := saltID; r_Salt := salt; r_Enabled := true |} |}
  end.

Definition publish_command (prepared : preparedRoute) : PublishRouteCommand :=
  {| pr_FunctionID := pi_FunctionID (pp_input prepared);
     pr_ExpectedActiveRouteRevision := pi_ExpectedActiveRouteRevision (pp_input prepared);
     pr_Route := pp_route prepared; pr_UpdatedAt := mt_At (pp_command prepared);
     pr_AppliedIndex := mt_AppliedIndex (pp_command prepared) |}.

Definition applyPublishRoute (prepared : preparedRoute) : M controlplane.State (Route * Function) :=
  swrap "publishing route" (on_routes (Publish (publish_command prepared))).

Definition PublishRoute (cancelled : option error) (meanwhile : World -> World) (input : PublishRouteInput)
    : M World (Route * Function) :=
  do! slift (checkContext cancelled) in
  let! prepared := preparePublishRoute input in
  do! interfere meanwhile in
  with_stores (applyPublishRoute prepared).

Definition GetRoute (cancelled : option error) (functionID : string) (c : Controller) : result Route :=
  checkContext cancelled ;;; wrap_err "getting route" (routestore.Get (ctl_routes c) functionID).

Definition ListServingStates (cancelled : option error) (c : Controller) : result (list ServingState) :=
  checkContext cancelled ;;;
  wrap_err "listing serving states" (ServingStates (controlplane.cp_stores (ctl_stores c))).

(** ** assignment.go *)
Definition CommitAssignment (cancelled : option error) (meanwhile : World -> World) (input : CommitAssignmentInput)
    : M World assignment.AssignmentRecord :=
  do! slift (checkContext cancelled) in
  let! command := nextCommand in
  do! interfere meanwhile in
  with_stores (swrap "committing assignment" (on_assignments (fun stores => assignment.Install stores
    {| assignment.ia_FunctionID := ai_FunctionID input; assignment.ia_Placement := ai_Placement input;
       assignment.ia_IfNoneMatch := true; assignment.ia_ExpectedScalingRevision := ai_ExpectedScalingRevision input;
       assignment.ia_AppliedIndex := mt_AppliedIndex command; assignment.ia_UpdatedAt := mt_At command |}))).

Definition CancelAssignment (cancelled : option error) (meanwhile : World -> World) (input : CancelAssignmentInput)
    : M World assignment.AssignmentRecord :=
  do! slift (checkContext cancelled) in
  let! command := nextCommand in
  do! interfere meanwhile in
  with_stores (swrap "cancelling assignment" (on_assignments (fun _ => assignment.Cancel
    {| assignment.cn_AssignmentID := xi_AssignmentID input;
       assignment.cn_ExpectedResourceRevision := xi_ExpectedResourceRevision input;
       assignment.cn_AppliedIndex := mt_AppliedIndex command; assignment.cn_UpdatedAt := mt_At command |}))).

Definition GetAssignment (cancelled : option error) (assignmentID : string) (c : Controller)
    : result assignment.AssignmentRecord :=
  checkContext cancelled ;;;
  wrap_err "getting assignment" (assignment.Get (controlplane.cp_assignments (ctl_stores c)) assignmentID).

Definition ListAssignments (cancelled : option error) (c : Controller) : result (list assignment.AssignmentRecord) :=
  checkContext cancelled ;;; Ok (assignment.Snapshot (controlplane.cp_assignments (ctl_stores c))).

(** ** admission.go *)
Definition ErrTimedOut : string := "validator process timed out".
Definition ErrOutputLimit : string := "validator output exceeds limit".

Definition verifyArtifact (expected : string) : M World Info :=
  let! opened := with_env (swrap "verifying artifact" (Artifacts_OpenVerified expected)) in
  let info := snd opened in
  match fst opened with
  | None => sthrow (PlainError "verifying artifact: store returned a nil file")
  | Some file =>
    do! with_env (swrap "verifying artifact: closing verified file" (File_Close file)) in
    do! slift (fail_if ((in_Digest info != expected) || (in_Size info <? 1))
                 (PlainError "verifying artifact: store returned inconsistent metadata")) in
    sret info
  end.

Record preparedVersion := {
  pv_createCommand : CommandMeta;
  pv_startCommand : CommandMeta;
  pv_validationID : string;
  pv_version : Version;
}.

(** [cloneCapabilities] makes a nil slice empty. *)
Definition cloneCapabilities (source : option (list CapabilityRequest)) : list CapabilityRequest := default [] source.

Definition prepareCreateVersion (input : CreateVersionInput) : M World preparedVersion :=
  do! slift (fail_if (negb (Z.rem (rr_Timeout (vi_ResourceRequest input)) millisecond =? 0))
               (Invalid "resource_request.timeout" "must use whole milliseconds")) in
  let! artifactInfo := verifyArtifact (vi_ArtifactDigest input) in
  let! versionID := newID "version" in
  let! validationID := newID "validation" in
  let! createCommand := nextCommand in
  let! startCommand := nextCommand in
  sret {| pv_createCommand := createCommand; pv_startCommand := startCommand; pv_validationID := validationID;
          pv_version := {|
            v_Metadata := created_metadata versionID DefaultNamespace createCommand;
            v_FunctionID := vi_FunctionID input; v_VersionID := versionID; v_ArtifactDigest := vi_ArtifactDigest input;
            v_ManifestDigest := vi_ManifestDigest input; v_ArtifactSize := in_Size artifactInfo;
            v_ABI := ABIWASICommandV1; v_HostAPIProfile := HostAPIProfileNone;
            v_RuntimeFeatureProfile := wasmprofile.FeatureProfile; v_Toolchain := vi_Toolchain input;
            v_AdmissionEpoch := 1; v_ResourceRequest := vi_ResourceRequest input;
            v_RequestedCapabilities := cloneCapabilities (vi_RequestedCapabilities input);
            v_State := VersionUploaded; v_ValidationError := None |} |}.

Definition version_command (prepared : preparedVersion) : CreateVersionCommand :=
  {| cv_IfNoneMatch := true; cv_AppliedIndex := mt_AppliedIndex (pv_createCommand prepared);
     cv_Version := pv_version prepared |}.

Definition applyCreateVersion (prepared : preparedVersion) : M controlplane.State Version := fun s =>
  swrap "creating version"
    (on_releases (release.CreateVersion (st_catalog (controlplane.cp_stores s)) (version_command prepared))) s.

(** Results that are returned together with an error. *)
Definition Returns (A : Type) : Type := World -> World * (A * option error).

Definition currentAdmission (versionID : string) (cause : error) : Returns AdmissionResult := fun w =>
  (w, match release.Get (ctl_releases (fst w)) versionID with
      | Err err => ({| ad_Version := zero_Version; ad_Deployment := None |},
                    Some (JoinError cause (WrapError "loading current version" err)))
      | Ok (version, deployment) => ({| ad_Version := version; ad_Deployment := deployment |}, Some cause)
      end).

(** The rest of an admission step, where an error ends it with the current Version. *)
Definition admission_step {A} (versionID : string) (m : M World A) (k : A -> Returns AdmissionResult)
    : Returns AdmissionResult := fun w =>
  match m w with
  | (w', Err err) => currentAdmission versionID err w'
  | (w', Ok a) => k a w'
  end.

Definition openArtifactForValidation (version : Version) : M World (File * Info) :=
  let! opened := with_env (swrap "opening artifact for validation" (Artifacts_OpenVerified (v_ArtifactDigest version))) in
  let info := snd opened in
  match fst opened with
  | None => sthrow (PlainError "opening artifact for validation: store returned a nil file")
  | Some file =>
    if (in_Digest info == v_ArtifactDigest version) && (in_Size info =? v_ArtifactSize version) then sret (file, info)
    else fun w =>
      let metadataErr := PlainError "opening artifact for validation: store returned inconsistent metadata" in
      let '(w', closed) := with_env (File_Close file) w in
      (w', Err (match closed with Ok _ => metadataErr | Err err => JoinError metadataErr err end))
  end.

Definition validationRequest (version : Version) (validationID : string) : protocol.Request :=
  {| rq_SchemaVersion := SchemaVersion; rq_ValidationID := validationID; rq_ArtifactDigest := v_ArtifactDigest version;
     rq_ArtifactSize := v_ArtifactSize version; rq_ABI := v_ABI version; rq_HostAPIProfile := v_HostAPIProfile version;
     rq_RuntimeFeatureProfile := v_RuntimeFeatureProfile version; rq_RuntimeEngine := wasmprofile.EngineCompiler;
     rq_MemoryLimitMiB := rr_MemoryMiB (v_ResourceRequest version);
     rq_RequestedCapabilities := Some (v_RequestedCapabilities version) |}.

Definition isValidationLimit (err : error) : bool := errors_Is ErrTimedOut err || errors_Is ErrOutputLimit err.

Definition validationLimitReport (version : Version) (validationID : string) (err : error) : Report :=
  {| rp_SchemaVersion := SchemaVersion; rp_ValidationID := validationID; rp_Valid := false; rp_Code := CodeInvalidModule;
     rp_Reason := if errors_Is ErrTimedOut err then "validator_timeout" else "validator_output_limit";
     rp_Message := if errors_Is ErrTimedOut err then "module validation exceeded the admission limit"
                   else "validator output exceeded the admission limit";
     rp_ArtifactDigest := v_ArtifactDigest version; rp_ArtifactSize := v_ArtifactSize version;
     rp_RuntimeName := wasmprofile.RuntimeName; rp_RuntimeVersion := wasmprofile.RuntimeVersion;
     rp_RuntimeFeatureProfile := wasmprofile.FeatureProfile; rp_RuntimeEngine := wasmprofile.EngineCompiler;
     rp_Imports := Some []; rp_Exports := Some []; rp_Memory := {| me_Exported := false; me_MinPages := 0; me_MaxPages := 0 |};
     rp_CompileNanoseconds := 0;
     rp_Isolation := {| is_ProcessBoundary := false; is_Deadline := false; is_CPULimit := false;
       is_FileSizeLimit := false; is_MemoryLimit := false; is_TempDiskLimit := false |} |}.

Definition initialDeployment (version : Version) (deploymentID : string) (command : CommandMeta) : result Deployment :=
  let request := v_ResourceRequest version in
  let limits := {| rl_Timeout := rr_Timeout request; rl_MemoryMiB := rr_MemoryMiB request;
                   rl_MaxInputBytes := rr_MaxInputBytes request; rl_MaxOutputBytes := rr_MaxOutputBytes request;
                   rl_MaxLogBytes := defaultMaxLogBytes |} in
  let capabilities := v_RequestedCapabilities version in
  let policy := {| ep_VersionID := v_VersionID version; ep_AdmissionEpoch := v_AdmissionEpoch version;
                   ep_DeploymentGeneration := 1; ep_ArtifactDigest := v_ArtifactDigest version;
                   ep_ArtifactSize := v_ArtifactSize version; ep_ABI := v_ABI version;
                   ep_HostAPIProfile := v_HostAPIProfile version;
                   ep_RuntimeFeatureProfile := v_RuntimeFeatureProfile version; ep_ResourceLimits := limits;
                   ep_MaxConcurrency := rr_MaxConcurrency request; ep_GrantedCapabilities := capabilities |} in
  policyDigest <- wrap_err "calculating initial effective policy" (EffectivePolicy_Digest policy) ;;
  Ok {| d_Metadata := created_metadata deploymentID (md_Namespace (v_Metadata version)) command;
        d_VersionID := v_VersionID version; d_Generation := 1; d_ScalingRevision := 1; d_ResourceLimits := limits;
        d_GrantedCapabilities := capabilities; d_EffectivePolicyDigest := policyDigest; d_MinReplicas := 1;
        d_MaxReplicas := 1; d_DesiredReplicas := 1; d_ReadyReplicas := 0;
        d_TargetConcurrency := rr_MaxConcurrency request; d_ScalingMode := ScalingManual; d_IdleTimeout := 0;
        d_DesiredPhase := DeploymentActive |}.

Definition complete_command (version : Version) (report : Report) (deployment : option Deployment) (command : CommandMeta)
    : CompleteValidationCommand :=
  {| co_VersionID := v_VersionID version; co_ExpectedResourceRevision := v_Revision version; co_Report := report;
     co_Deployment := deployment; co_UpdatedAt := mt_At command; co_AppliedIndex := mt_AppliedIndex command |}.

Definition applyCompletion (version : Version) (report : Report) (deployment : option Deployment) (command : CommandMeta)
    : Returns AdmissionResult :=
  admission_step (v_VersionID version)
    (with_stores (swrap "completing version validation"
       (on_releases (CompleteValidation (complete_command version report deployment command)))))
    (fun completed w => (w, ({| ad_Version := fst completed; ad_Deployment := snd completed |}, None))).

Definition completeAdmission (version : Version) (report : Report) : Returns AdmissionResult :=
  let vid := v_VersionID version in
  if rp_Valid report then
    admission_step vid (newID "deployment") (fun deploymentID =>
    admission_step vid nextCommand (fun command =>
    admission_step vid (slift (initialDeployment version deploymentID command)) (fun deployment =>
    applyCompletion version report (Some deployment) command)))
  else
    admission_step vid nextCommand (fun command => applyCompletion version report None command).

(** The report of one validator run; exceeding a limit is a report too. *)
Definition run_validator (version : Version) (validationID : string) (file : File) : M World Report := fun w =>
  match with_env (Validator_Validate (validationRequest version validationID) file) w with
  | (w', Ok report) => (w', Ok report)
  | (w', Err err) =>
      (w', if negb (isValidationLimit err) then Err (WrapError "running validator" err)
           else Ok (validationLimitReport version validationID err))
  end.

(** [meanwhile] is what others do while the validator runs. *)
Definition admit_version (meanwhile : World -> World) (version : Version) (validationID : string) : Returns AdmissionResult :=
  let vid := v_VersionID version in
  admission_step vid (openArtifactForValidation version) (fun opened =>
  let info := snd opened in
  admission_step vid (let! report := run_validator version validationID (fst opened) in
                      do! interfere meanwhile in sret report) (fun report =>
  admission_step vid (slift (fail_if ((rp_ArtifactDigest report != in_Digest info)
                                      || negb (rp_ArtifactSize report =? in_Size info))
                        (PlainError "validator report did not match the verified artifact"))) (fun _ =>
  completeAdmission version report))).

Definition start_command (created : Version) (prepared : preparedVersion) : StartValidationCommand :=
  {| sv_VersionID := v_VersionID created; sv_ExpectedResourceRevision := v_Revision created;
     sv_ValidationID := pv_validationID prepared; sv_UpdatedAt := mt_At (pv_startCommand prepared);
     sv_AppliedIndex := mt_AppliedIndex (pv_startCommand prepared) |}.

Definition driveAdmission (meanwhile : World -> World) (created : Version) (prepared : preparedVersion)
    : Returns AdmissionResult := fun w =>
  let result := {| ad_Version := created; ad_Deployment := None |} in
  let '(w, claimed) := claimValidation (v_VersionID created) w in
  if negb claimed then (w, (result, Some (PlainError "creating version: validation is already active")))
  else
    let '(w, out) :=
      match with_stores (swrap "starting version validation" (on_releases (StartValidation (start_command created prepared)))) w with
      | (w, Err err) => (w, (result, Some err))
      | (w, Ok started) => admit_version meanwhile started (pv_validationID prepared) w
      end in
    (releaseValidation (v_VersionID created) w, out).

(** [first] and [second] are what others do before the Version is created and
    before its validation starts. *)
Definition CreateVersion (cancelled : option error) (first second meanwhile : World -> World) (input : CreateVersionInput)
    : Returns AdmissionResult := fun w =>
  let zero := {| ad_Version := zero_Version; ad_Deployment := None |} in
  match (do! slift (checkContext cancelled) in
         let! prepared := prepareCreateVersion input in
         do! interfere first in
         let! created := with_stores (applyCreateVersion prepared) in
         do! interfere second in
         sret (created, prepared)) w with
  | (w, Err err) => (w, (zero, Some err))
  | (w, Ok (created, prepared)) => driveAdmission meanwhile created prepared w
  end.

Definition GetVersion (cancelled : option error) (versionID : string) (c : Controller) : result (Version * option Deployment) :=
  checkContext cancelled ;;; wrap_err "getting version" (release.Get (ctl_releases c) versionID).

(** One claimed attempt of [ResumePendingValidation], with its failure. *)
Definition resume_attempt (meanwhile : World -> World) (attempt : VersionAdmissionAttempt) (w : World)
    : World * list error :=
  match release.Get (ctl_releases (fst w)) (va_VersionID attempt) with
  | Err err => (w, [WrapError "loading pending validation" err])
  | Ok (version, _) =>
    if v_State version != VersionValidating then (w, [])
    else
      let '(w, (_, err)) := admit_version meanwhile version (va_ValidationID attempt) w in
      (w, match err with Some err => [WrapError "resuming pending validation" err] | None => [] end)
  end.

(** [polled n] is [ctx.Err()] after the [n]-th attempt. *)
Fixpoint resume_loop (meanwhile : World -> World) (polled : Z -> option error) (limit processed : Z)
    (pending : list VersionAdmissionAttempt) (w : World) : World * list error :=
  match pending with
  | [] => (w, [])
  | attempt :: rest =>
    if processed >=? limit then (w, [])
    else
      let '(w, claimed) := claimValidation (va_VersionID attempt) w in
      if negb claimed then resume_loop meanwhile polled limit processed rest w
      else
        let '(w, failure) := resume_attempt meanwhile attempt w in
        let w := releaseValidation (va_VersionID attempt) w in
        match polled (processed + 1) with
        | Some err => (w, failure ++ [WrapError "resuming validation context" err])
        | None =>
          let '(w, failures) := resume_loop meanwhile polled limit (processed + 1) rest w in
          (w, failure ++ failures)
        end
  end.

(** [errors.Join] *)
Fixpoint errors_Join (l : list error) : option error :=
  match l with
  | [] => None
  | e :: l' => Some (match errors_Join l' with None => e | Some rest => JoinError e rest end)
  end.

Definition ResumePendingValidation (cancelled : option error) (meanwhile : World -> World) (polled : Z -> option error)
    (limit : Z) (w : World) : World * option error :=
  match (checkContext cancelled ;;; fail_if (limit <? 1) (Invalid "limit" "must be greater than zero")) with
  | Err err => (w, Some err)
  | Ok _ =>
    let pending := rs_PendingValidations (release.Snapshot (ctl_releases (fst w))) in
    let '(w, failures) := resume_loop meanwhile polled limit 0 pending w in
    (w, errors_Join failures)
  end.

(** ** What every method guarantees

    The stores move by the control plane's atomic steps, ledger records are
    kept, the command position advances.  Methods guarantee this if the other
    goroutines do ([Rely]); both are closed under composition, so that a method
    is shown to guarantee it by instance search. *)
Record command_lt (a b : CommandMeta) : Prop := {
  cl_index : mt_AppliedIndex a = 0 \/ mt_AppliedIndex a < mt_AppliedIndex b;
  cl_index_set : mt_AppliedIndex b <> 0;
  cl_at : t_wall (mt_At a) = 0 \/ t_wall (mt_At a) <= t_wall (mt_At b);
  cl_at_set : t_wall (mt_At b) <> 0;
}.
Definition command_le (a b : CommandMeta) : Prop := a = b \/ command_lt a b.

#[global] Instance command_le_preorder : PreOrder command_le.
Proof.
  split; [by left|]. intros a b c [->|[]] [->|[]]; [by left|by right..|]. right. split; lia.
Qed.

Record evolves (c c' : Controller) : Prop := {
  ev_stores : rtc controlplane.atomic_step (ctl_stores c) (ctl_stores c');
  ev_records : ledger.l_records (ctl_ledger c) ⊆ ledger.l_records (ctl_ledger c');
  ev_ledger : ctl_ledger c' = ledger.set_maps (ctl_ledger c) (ledger.l_records (ctl_ledger c')) (ledger.l_tombstones (ctl_ledger c));
  ev_command : command_le (ctl_lastCommand c) (ctl_lastCommand c');
}.

Record ctl_inv (c : Controller) : Prop := {
  cn_stores : controlplane.cp_inv (ctl_stores c);
  cn_ledger : ledger.ledger_inv (ctl_ledger c);
  cn_tombstones : ledger.l_tombstones (ctl_ledger c) = ∅;
  cn_command : t_mono (mt_At (ctl_lastCommand c)) = None;
}.

#[global] Instance evolves_preorder : PreOrder evolves.
Proof.
  split.
  - intros c. split; [done|done|by destruct c as [? []]|done].
  - intros c1 c2 c3 [S1 R1 L1 C1] [S2 R2 L2 C2]. split; [by etrans|by etrans| |by etrans].
    rewrite L2, L1. done.
Qed.

Lemma New_inv : ctl_inv New.
Proof. split; [apply controlplane.init_inv|apply ledger.New_ledger_inv|done|done]. Qed.

Lemma rtc_atomic_inv s s' : rtc controlplane.atomic_step s s' -> controlplane.cp_inv s -> controlplane.cp_inv s'.
Proof. induction 1; [done|]. intros Hs. by eapply IHrtc, controlplane.atomic_step_inv. Qed.

(** From one controller state to a later one. *)
Definition moves (c c' : Controller) : Prop := ctl_inv c -> ctl_inv c' /\ evolves c c'.

#[global] Instance moves_preorder : PreOrder moves.
Proof.
  split; [done|]. intros c1 c2 c3 H12 H23 H1. destruct (H12 H1) as [H2 E12]. destruct (H23 H2) as [H3 E23].
  split; [done|by etrans].
Qed.

Class Stepwise {A} (m : M controlplane.State A) : Prop := stepwise s : rtc controlplane.atomic_step s (fst (m s)).
Class Guarantees {A} (m : M World A) : Prop := guarantees w : moves (fst w) (fst (fst (m w))).
Class Delivers {A} (m : Returns A) : Prop := delivers w : moves (fst w) (fst (fst (m w))).
Class Rely (f : World -> World) : Prop := rely w : moves (fst w) (fst (f w)).

#[global] Instance ReadOnly_Stepwise {A} (m : M controlplane.State A) : ReadOnly m -> Stepwise m | 10.
Proof. intros H s. by rewrite H. Qed.
#[global] Instance swrap_Stepwise {A} context (m : M controlplane.State A) : Stepwise m -> Stepwise (swrap context m).
Proof. intros H s. specialize (H s). unfold swrap. by destruct (m s). Qed.
#[global] Instance sbind_Stepwise {A B} (m : M controlplane.State A) (k : A -> M controlplane.State B) :
  Stepwise m -> (forall a, Stepwise (k a)) -> Stepwise (sbind m k).
Proof.
  intros Hm Hk s. specialize (Hm s). unfold sbind. destruct (m s) as [s1 [a|e]]; [|done].
  simpl in *. etrans; [done|]. apply Hk.
Qed.

Ltac one_step o :=
  let s := fresh in intros s; unfold on_catalog, on_releases, on_routes, on_assignments;
  etrans; [apply rtc_once, (controlplane.atomic_run o)|]; simpl;
  match goal with |- rtc _ _ (fst (let '(_, _) := ?m in _)) => by destruct m end.

#[global] Instance create_function_Stepwise command : Stepwise (on_catalog (catalog.CreateFunction command)).
Proof. one_step (controlplane.DoCreateFunction command). Qed.
#[global] Instance set_lifecycle_Stepwise command : Stepwise (on_catalog (catalog.SetFunctionLifecycle command)).
Proof. one_step (controlplane.DoSetLifecycle command). Qed.
#[global] Instance rotate_token_Stepwise command : Stepwise (on_catalog (catalog.RotateInvocationToken command)).
Proof. one_step (controlplane.DoRotateToken command). Qed.
#[global] Instance start_validation_Stepwise command : Stepwise (on_releases (StartValidation command)).
Proof. one_step (controlplane.DoStartValidation command). Qed.
#[global] Instance complete_validation_Stepwise command : Stepwise (on_releases (CompleteValidation command)).
Proof. one_step (controlplane.DoCompleteValidation command). Qed.
#[global] Instance publish_Stepwise command : Stepwise (on_routes (Publish command)).
Proof. one_step (controlplane.DoPublish command). Qed.
#[global] Instance install_Stepwise command :
  Stepwise (on_assignments (fun stores => assignment.Install stores command)).
Proof. one_step (controlplane.DoInstall command). Qed.
#[global] Instance cancel_Stepwise command : Stepwise (on_assignments (fun _ => assignment.Cancel command)).
Proof. one_step (controlplane.DoCancel command). Qed.
#[global] Instance applyCreateVersion_Stepwise prepared : Stepwise (applyCreateVersion prepared).
Proof.
  intros s. unfold applyCreateVersion, swrap, on_releases.
  etrans; [apply rtc_once, (controlplane.atomic_create_version (version_command prepared))|].
  unfold controlplane.create_version. by destruct (release.CreateVersion _ _ _).
Qed.
#[global] Instance applyCreateFunction_Stepwise prepared : Stepwise (applyCreateFunction prepared).
Proof. unfold applyCreateFunction. apply _. Qed.
#[global] Instance applyRotateInvocationToken_Stepwise prepared : Stepwise (applyRotateInvocationToken prepared).
Proof. unfold applyRotateInvocationToken. apply _. Qed.
#[global] Instance applyFunctionLifecycle_Stepwise input command : Stepwise (applyFunctionLifecycle input command).
Proof. unfold applyFunctionLifecycle. apply _. Qed.
#[global] Instance applyPublishRoute_Stepwise prepared : Stepwise (applyPublishRoute prepared).
Proof. unfold applyPublishRoute. apply _. Qed.

Lemma set_stores_moves c s' : rtc controlplane.atomic_step (ctl_stores c) s' -> moves c (set_stores c s').
Proof.
  intros Hs [H1 H2 H3 H4]. split; split; simpl; try done; [by eapply rtc_atomic_inv|by destruct (ctl_ledger c)].
Qed.
Lemma set_validating_moves c ids : moves c (set_validating c ids).
Proof. intros [H1 H2 H3 H4]. split; split; simpl; try done. by destruct (ctl_ledger c). Qed.

#[global] Instance ReadOnly_Guarantees {A} (m : M World A) : ReadOnly m -> Guarantees m | 10.
Proof. intros H w. by rewrite H. Qed.
#[global] Instance reading_Guarantees {A} (f : Controller -> result A) : Guarantees (reading f).
Proof. by intros w. Qed.
#[global] Instance with_env_Guarantees {A} (m : M E A) : Guarantees (with_env m).
Proof. intros w. unfold with_env. by destruct (m (snd w)). Qed.
#[global] Instance with_stores_Guarantees {A} (m : M controlplane.State A) : Stepwise m -> Guarantees (with_stores m).
Proof. intros H w. specialize (H (ctl_stores (fst w))). unfold with_stores. destruct (m _). by apply set_stores_moves. Qed.
#[global] Instance interfere_Guarantees f : Rely f -> Guarantees (interfere f).
Proof. intros H w. apply H. Qed.
#[global] Instance sbind_Guarantees {A B} (m : M World A) (k : A -> M World B) :
  Guarantees m -> (forall a, Guarantees (k a)) -> Guarantees (sbind m k).
Proof.
  intros Hm Hk w. specialize (Hm w). unfold sbind. destruct (m w) as [w1 [a|e]]; [|done].
  simpl in *. etrans; [done|]. apply Hk.
Qed.

Lemma nextCommand_Ok w w' command :
  nextCommand w = (w', Ok command) ->
  mt_AppliedIndex command <> 0 /\ time_IsZero (mt_At command) = false /\ time_IsUTC (mt_At command) = true /\
  t_mono (mt_At command) = None /\
  (mt_AppliedIndex (ctl_lastCommand (fst w)) = 0 \/ mt_AppliedIndex (ctl_lastCommand (fst w)) < mt_AppliedIndex command) /\
  (time_IsZero (mt_At (ctl_lastCommand (fst w))) = true \/ time_Before (mt_At command) (mt_At (ctl_lastCommand (fst w))) = false) /\
  fst w' = set_lastCommand (fst w) command.
Proof.
  unfold nextCommand. intros H. apply sbind_Ok_inv in H as (w1 & c0 & H1 & H).
  assert (fst w1 = fst w) as Hw1. { revert H1. unfold with_env. destruct (swrap _ _ _). by intros [= <- _]. }
  run_inv. ok_inv. simpl. rewrite Hw1 in *. split_and!; try done; try lia; naive_solver.
Qed.

Lemma nextCommand_state w : fst (fst (nextCommand w)) = fst w \/
  exists command, snd (nextCommand w) = Ok command /\ fst (fst (nextCommand w)) = set_lastCommand (fst w) command.
Proof.
  destruct (nextCommand w) as [w' [command|err]] eqn:Hn; simpl.
  { right. exists command. split; [done|]. by apply nextCommand_Ok in Hn as (_ & _ & _ & _ & _ & _ & ?). }
  left. revert Hn. unfold nextCommand, sbind, slift, sget, sput, sret, with_env.
  destruct (swrap _ _ _) as [e [c|err']]; [|by intros [= <- _]].
  repeat (destruct (fail_if _ _) as [[]|]; [|by intros [= <- _]]). done.
Qed.

Lemma next_command_lt w w' command :
  t_mono (mt_At (ctl_lastCommand (fst w))) = None -> nextCommand w = (w', Ok command) ->
  command_lt (ctl_lastCommand (fst w)) command /\ t_mono (mt_At command) = None.
Proof.
  intros Hm (Hi & Hz & _ & Hmono & Hidx & Hat & _)%nextCommand_Ok. split; [|done]. unfold time_IsZero in *. go_cases.
  split; [lia|done| |lia]. destruct Hat as [Hat|Hat]; [left; lia|]. right.
  unfold time_Before, time_compare in Hat. rewrite Hmono in Hat.
  destruct (Z.compare_spec (t_wall (mt_At command)) (t_wall (mt_At (ctl_lastCommand (fst w))))); [lia|done|lia].
Qed.

#[global] Instance nextCommand_Guarantees : Guarantees nextCommand.
Proof.
  intros w. destruct (nextCommand_state w) as [->|(command & Hc & ->)]; [done|]. intros [H1 H2 H3 H4].
  destruct (nextCommand w) as [w' r] eqn:Hn. simpl in Hc. subst r.
  destruct (next_command_lt _ _ _ H4 Hn) as [Hlt Hm].
  split; split; simpl; try done; [by destruct (ctl_ledger (fst w))|by right].
Qed.
#[global] Instance newID_Guarantees prefix : Guarantees (newID prefix).
Proof. unfold newID. apply _. Qed.
#[global] Instance newRouteSalt_Guarantees : Guarantees newRouteSalt.
Proof. unfold newRouteSalt. apply _. Qed.
#[global] Instance newToken_Guarantees : Guarantees newToken.
Proof. unfold newToken. apply _. Qed.
#[global] Instance newInvocationToken_Guarantees policy : Guarantees (newInvocationToken policy).
Proof. unfold newInvocationToken. repeat case_match; apply _. Qed.
#[global] Instance prepareCreateFunction_Guarantees input : Guarantees (prepareCreateFunction input).
Proof. unfold prepareCreateFunction. apply _. Qed.
#[global] Instance CreateFunction_Guarantees cancelled input : Guarantees (CreateFunction cancelled input).
Proof. unfold CreateFunction. apply _. Qed.
#[global] Instance prepareRotateInvocationToken_Guarantees input : Guarantees (prepareRotateInvocationToken input).
Proof. unfold prepareRotateInvocationToken. apply _. Qed.
#[global] Instance RotateInvocationToken_Guarantees cancelled input : Guarantees (RotateInvocationToken cancelled input).
Proof. unfold RotateInvocationToken. apply _. Qed.
#[global] Instance SetFunctionLifecycle_Guarantees cancelled input : Guarantees (SetFunctionLifecycle cancelled input).
Proof. unfold SetFunctionLifecycle. apply _. Qed.
#[global] Instance PutArtifact_Guarantees cancelled expected source : Guarantees (PutArtifact cancelled expected source).
Proof. unfold PutArtifact. apply _. Qed.
#[global] Instance preparePublishRoute_Guarantees input : Guarantees (preparePublishRoute input).
Proof.
  unfold preparePublishRoute. apply sbind_Guarantees; [apply _|]. intros _. apply sbind_Guarantees; [apply _|].
  intros [version deployment]. apply sbind_Guarantees; [apply _|]. intros _. cbn [snd]. destruct deployment; apply _.
Qed.
#[global] Instance PublishRoute_Guarantees cancelled f input : Rely f -> Guarantees (PublishRoute cancelled f input).
Proof. unfold PublishRoute. apply _. Qed.
#[global] Instance CommitAssignment_Guarantees cancelled f input : Rely f -> Guarantees (CommitAssignment cancelled f input).
Proof. unfold CommitAssignment. apply _. Qed.
#[global] Instance CancelAssignment_Guarantees cancelled f input : Rely f -> Guarantees (CancelAssignment cancelled f input).
Proof.
  intros Hf. unfold CancelAssignment. repeat (apply sbind_Guarantees; [apply _|intros ?]).
  apply with_stores_Guarantees, swrap_Stepwise, cancel_Stepwise.
Qed.
#[global] Instance verifyArtifact_Guarantees expected : Guarantees (verifyArtifact expected).
Proof. unfold verifyArtifact. apply sbind_Guarantees; [apply _|]. intros [[file|] info]; cbn [fst]; apply _. Qed.
#[global] Instance prepareCreateVersion_Guarantees input : Guarantees (prepareCreateVersion input).
Proof. unfold prepareCreateVersion. apply _. Qed.
#[global] Instance openArtifactForValidation_Guarantees version : Guarantees (openArtifactForValidation version).
Proof.
  unfold openArtifactForValidation. apply sbind_Guarantees; [apply _|]. intros [[file|] info]; cbn [fst snd]; [|apply _].
  case_match; [apply _|]. intros w. pose proof (with_env_Guarantees (File_Close file) w) as Hg.
  by destruct (with_env (File_Close file) w).
Qed.
#[global] Instance run_validator_Guarantees version validationID file : Guarantees (run_validator version validationID file).
Proof.
  intros w. unfold run_validator. pose proof (with_env_Guarantees (Validator_Validate (validationRequest version validationID) file) w) as Hg.
  by destruct (with_env _ w) as [w' [r|e]].
Qed.

#[global] Instance admission_step_Delivers {A} vid (m : M World A) k :
  Guarantees m -> (forall a, Delivers (k a)) -> Delivers (admission_step vid m k).
Proof.
  intros Hm Hk w. specialize (Hm w). unfold admission_step. destruct (m w) as [w1 [a|e]]; [|done].
  simpl in *. etrans; [done|]. apply Hk.
Qed.
#[global] Instance applyCompletion_Delivers version report deployment command :
  Delivers (applyCompletion version report deployment command).
Proof. unfold applyCompletion. apply admission_step_Delivers; [apply _|]. by intros a w. Qed.
#[global] Instance completeAdmission_Delivers version report : Delivers (completeAdmission version report).
Proof. unfold completeAdmission. case_match; apply _. Qed.
#[global] Instance admit_version_Delivers f version validationID : Rely f -> Delivers (admit_version f version validationID).
Proof. unfold admit_version. apply _. Qed.

Lemma claimValidation_moves vid w : moves (fst w) (fst (fst (claimValidation vid w))).
Proof. unfold claimValidation. case_match; [done|]. apply set_validating_moves. Qed.
Lemma releaseValidation_moves vid w : moves (fst w) (fst (releaseValidation vid w)).
Proof. apply set_validating_moves. Qed.

#[global] Instance driveAdmission_Delivers f created prepared : Rely f -> Delivers (driveAdmission f created prepared).
Proof.
  intros Hf w. unfold driveAdmission. pose proof (claimValidation_moves (v_VersionID created) w) as Hc.
  destruct (claimValidation _ w) as [w1 [|]]; [|done]. cbn [negb fst] in *. etrans; [exact Hc|].
  set (m := with_stores _). assert (Guarantees m) as Hm by apply _. specialize (Hm w1).
  destruct (m w1) as [w2 [started|err]]; cbn [fst] in *.
  - pose proof (admit_version_Delivers f started (pv_validationID prepared) Hf w2) as Ha.
    destruct (admit_version f started _ w2) as [w3 out]. cbn [fst] in *. etrans; [done|]. etrans; [done|]. apply releaseValidation_moves.
  - etrans; [done|]. apply releaseValidation_moves.
Qed.
#[global] Instance CreateVersion_Delivers cancelled f1 f2 f3 input :
  Rely f1 -> Rely f2 -> Rely f3 -> Delivers (CreateVersion cancelled f1 f2 f3 input).
Proof.
  intros H1 H2 H3 w. unfold CreateVersion. set (m := sbind (slift (checkContext cancelled)) _).
  assert (Guarantees m) as Hm by apply _. specialize (Hm w). destruct (m w) as [w1 [[created prepared]|err]]; [|done].
  cbn [fst] in *. etrans; [done|]. by apply driveAdmission_Delivers.
Qed.

Lemma resume_attempt_moves f attempt w : Rely f -> moves (fst w) (fst (fst (resume_attempt f attempt w))).
Proof.
  intros Hf. unfold resume_attempt. destruct (release.Get _ _) as [[version d]|err]; [|done]. case_match; [done|].
  pose proof (admit_version_Delivers f version (va_ValidationID attempt) Hf w) as Ha. by destruct (admit_version _ _ _ w) as [w1 [r e]].
Qed.
Lemma resume_loop_moves f polled limit processed pending w :
  Rely f -> moves (fst w) (fst (fst (resume_loop f polled limit processed pending w))).
Proof.
  intros Hf. revert processed w. induction pending as [|attempt pending IH]; intros processed w; cbn [resume_loop]; [done|].
  case_match; [done|]. pose proof (claimValidation_moves (va_VersionID attempt) w) as Hc.
  destruct (claimValidation _ w) as [w1 [|]]; cbn [negb fst] in *; (etrans; [exact Hc|]); [|apply IH].
  pose proof (resume_attempt_moves f attempt w1 Hf) as Ha. destruct (resume_attempt f attempt w1) as [w2 failure].
  cbn [fst] in Ha. etrans; [exact Ha|]. pose proof (releaseValidation_moves (va_VersionID attempt) w2) as Hr.
  destruct (polled _); [exact Hr|]. etrans; [exact Hr|].
  specialize (IH (processed + 1) (releaseValidation (va_VersionID attempt) w2)). by destruct (resume_loop _ _ _ _ _ _).
Qed.
Lemma ResumePendingValidation_moves cancelled f polled limit w :
  Rely f -> moves (fst w) (fst (fst (ResumePendingValidation cancelled f polled limit w))).
Proof.
  intros Hf. unfold ResumePendingValidation. case_match; [|done].
  pose proof (resume_loop_moves f polled limit 0 (rs_PendingValidations (release.Snapshot (ctl_releases (fst w)))) w Hf) as Hl.
  by destruct (resume_loop _ _ _ _ _ _).
Qed.

End controller.

End localcontroller.
