(* ===== verification/LocalOperations.v ===== *)
(** * Package [internal/localcontroller], operation.go: idempotent management writes

    Each write carries an Operation ID.  It is prepared and applied once; its
    terminal outcome, success or failure, is recorded in the ledger with the
    digest of its request, and retries are answered from the record.  The
    variables that the closures capture are the type [V]. *)
From stdpp Require Import base gmap strings list sorting.
From S2P Require Import Prelude Problem Digest Json Model Catalog ValidatorProtocol Release RouteStore.
From S2P Require Import ServingAuth Scheduler Net AssignmentStore Ledger ControlPlane LocalController.
Import problem digest model catalog protocol release routestore ledger localcontroller.

#[local] Open Scope Z_scope.

Module operations.

Definition functionsPath : string := "/v1/functions".
Definition versionsSuffix : string := "/versions".
Definition routeSuffix : string := "/route".
Definition tokenRotateSuffix : string := "/invocation-token:rotate".
Definition functionKind : string := "function".
Definition httpTriggerKind : string := "http_trigger".
Definition versionKind : string := "version".
Definition routeKind : string := "route".
Definition maxOperationBodies : Z := MaxOperationBodyBytes.

(** ** Inputs and results (types.go) *)
Record CreateFunctionOperationInput := { of_Operation : OperationKey; of_Function : CreateFunctionInput }.
Record SetFunctionLifecycleOperationInput := { ol_Operation : OperationKey; ol_Lifecycle : SetFunctionLifecycleInput }.
Record RotateInvocationTokenOperationInput := { ot_Operation : OperationKey; ot_Rotation : RotateInvocationTokenInput }.
Record CreateVersionOperationInput := { ov_Operation : OperationKey; ov_Version : CreateVersionInput }.
Record PublishRouteOperationInput := { op_Operation : OperationKey; op_Route : PublishRouteInput }.

(** The results hold the ledger's answer, [None] for its zero value. *)
Record FunctionOperationResult := { fr_Completion : option CompletionResult; fr_View : FunctionView }.
Record VersionOperationResult := {
  vr_Completion : option CompletionResult;
  vr_Version : Version;
  vr_Deployment : option Deployment;
}.
Record RouteOperationResult := {
  rr_Completion : option CompletionResult;
  rr_Route : Route;
  rr_Function : Function;
}.

Definition zero_View : FunctionView :=
  {| vw_Function := zero_Function; vw_Trigger := zero_HTTPTrigger; vw_InvocationToken := "" |}.
Definition zero_Route : Route :=
  {| r_Metadata := zero_Metadata; r_FunctionID := ""; r_RouteRevision := 0; r_Targets := []; r_Affinity := "";
     r_AffinityHeader := ""; r_HashVersion := ""; r_SaltID := ""; r_Salt := ""; r_Enabled := false |}.

(** ** Requests *)
Definition json_labels (labels : option (gmap string string)) : json := json.of_map JString labels.
Definition json_function_input (i : CreateFunctionInput) : json :=
  JObject [("name", JString (ci_Name i)); ("labels", json_labels (ci_Labels i)); ("auth_policy", JString (ci_AuthPolicy i))]%string.
Definition json_version_input (i : CreateVersionInput) : json :=
  let t := vi_Toolchain i in
  let r := vi_ResourceRequest i in
  JObject [("function_id", JString (vi_FunctionID i)); ("artifact_digest", JString (vi_ArtifactDigest i));
    ("manifest_digest", JString (vi_ManifestDigest i));
    ("toolchain", JObject [("name", JString (tc_Name t)); ("version", JString (tc_Version t));
                           ("provenance", JString (tc_Provenance t))]);
    ("resource_request", JObject [("timeout", JInt (rr_Timeout r)); ("memory_mib", JInt (rr_MemoryMiB r));
                           ("max_concurrency", JInt (rr_MaxConcurrency r)); ("max_input_bytes", JInt (rr_MaxInputBytes r));
                           ("max_output_bytes", JInt (rr_MaxOutputBytes r))]);
    ("requested_capabilities", json.of_option (fun l => JArray (map json_capability l)) (vi_RequestedCapabilities i))]%string.

Definition operationBody (value : json) : result string :=
  let body := json.Marshal value in
  fail_if (strlen body >? maxOperationBodies) (Invalid "body" "exceeds the management operation body limit") ;;; Ok body.

Definition functionPath (functionID suffix : string) : result string :=
  fail_if (negb (idPattern functionID)) (Invalid "function_id" "must be a valid identifier") ;;;
  Ok (functionsPath +:+ "/" +:+ functionID +:+ suffix).

Section operations.
Context `{HJ : JCS} `{HS : StrictJSON} {E File Reader : Type} `{HE : !Sources E File Reader}.
Abbreviation World := (localcontroller.World (E := E)).
Abbreviation Returns A := (localcontroller.Returns (E := E) A).

Definition validOperationRequest (request : Request) : result Request :=
  wrap_err "validating management operation request" (Request_Digest request) ;;; Ok request.

Definition createFunctionRequest (input : CreateFunctionInput) : result Request :=
  body <- operationBody (json_function_input input) ;;
  validOperationRequest
    {| rq_Method := "POST"; rq_Path := functionsPath;
       rq_Preconditions := {| pre_IfNoneMatch := true; pre_ExpectedResourceRevision := None;
                              pre_ExpectedActiveRouteRevision := None |};
       rq_BodyPresent := true; rq_Body := Some body; rq_ArtifactDigest := None |}.

Definition setFunctionLifecycleRequest (input : SetFunctionLifecycleInput) : result Request :=
  path <- functionPath (sf_FunctionID input) "" ;;
  body <- operationBody (JObject [("lifecycle"%string, JString (sf_Lifecycle input))]) ;;
  validOperationRequest
    {| rq_Method := "PATCH"; rq_Path := path;
       rq_Preconditions := {| pre_IfNoneMatch := false; pre_ExpectedResourceRevision := Some (sf_ExpectedResourceRevision input);
                              pre_ExpectedActiveRouteRevision := None |};
       rq_BodyPresent := true; rq_Body := Some body; rq_ArtifactDigest := None |}.

Definition rotateInvocationTokenRequest (input : RotateInvocationTokenInput) : result Request :=
  path <- functionPath (rt_FunctionID input) tokenRotateSuffix ;;
  validOperationRequest
    {| rq_Method := "POST"; rq_Path := path;
       rq_Preconditions := {| pre_IfNoneMatch := false; pre_ExpectedResourceRevision := Some (rt_ExpectedResourceRevision input);
                              pre_ExpectedActiveRouteRevision := None |};
       rq_BodyPresent := false; rq_Body := None; rq_ArtifactDigest := None |}.

Definition createVersionRequest (input : CreateVersionInput) : result Request :=
  path <- functionPath (vi_FunctionID input) versionsSuffix ;;
  body <- operationBody (json_version_input input) ;;
  validOperationRequest
    {| rq_Method := "POST"; rq_Path := path;
       rq_Preconditions := {| pre_IfNoneMatch := true; pre_ExpectedResourceRevision := None;
                              pre_ExpectedActiveRouteRevision := None |};
       rq_BodyPresent := true; rq_Body := Some body; rq_ArtifactDigest := Some (vi_ArtifactDigest input) |}.

Definition publishRouteRequest (input : PublishRouteInput) : result Request :=
  path <- functionPath (pi_FunctionID input) routeSuffix ;;
  body <- operationBody (JObject [("version_id"%string, JString (pi_VersionID input))]) ;;
  validOperationRequest
    {| rq_Method := "PUT"; rq_Path := path;
       rq_Preconditions := {| pre_IfNoneMatch := false; pre_ExpectedResourceRevision := None;
                              pre_ExpectedActiveRouteRevision := Some (pi_ExpectedActiveRouteRevision input) |};
       rq_BodyPresent := true; rq_Body := Some body; rq_ArtifactDigest := None |}.

(** ** Errors *)
Definition problemCode (err : error) : string :=
  match as_problem err with
  | Some (code, _, _) => if Known code then code else ""
  | None => ""
  end.

Definition safeProblemMessage (err : error) : string :=
  match as_problem err with
  | Some (_, message, _) => message
  | None => "operation failed"
  end.

Definition terminalOperationFailure (code : string) : bool :=
  bool_decide (code ∈ [CodeInvalidArgument; CodeNotFound; CodeConflict; CodeRevisionConflict; CodeStaleGeneration]).

Definition failureError (failure : option Failure) : error :=
  match failure with
  | None => PlainError "operation failure record has no safe failure"
  | Some f => ProblemError (fl_Code f) (fl_Message f) ""
  end.

Definition replayDisposition (record : Rec) : string :=
  if oc_CredentialIssued (rc_Outcome record) then CompletionCredentialNotReplayable else CompletionReplay.

Definition affectedResourceID (outcome : Outcome) (kind : string) : result string :=
  match List.find (fun resource => af_Kind resource == kind) (oc_AffectedResources outcome) with
  | Some resource => Ok (af_ID resource)
  | None => Err (PlainError ("operation outcome does not identify its " +:+ kind))
  end.

(** ** The protocol *)

(** A prepared write; [po_captured] are the closure's variables after
    [prepare], [po_apply] mutates the stores and those variables. *)
Record preparedOperation (V : Type) := {
  po_command : CommandMeta;
  po_outcome : Outcome;
  po_captured : V;
  po_apply : M (controlplane.State * V) unit;
}.
Arguments po_command {V}. Arguments po_outcome {V}. Arguments po_captured {V}. Arguments po_apply {V}.

Definition lookupOperation (l : Ledger) (key : OperationKey) (request : Request) : result (option Rec) :=
  match Lookup l key with
  | Err err => if problemCode err == CodeNotFound then Ok None else Err err
  | Ok record =>
    digestValue <- Request_Digest request ;;
    fail_if (rc_Digest record != digestValue)
      (classified CodeConflict "operation id was already used with a different request") ;;;
    Ok (Some record)
  end.

Definition completion_of {V} (key : OperationKey) (request : Request) (prepared : preparedOperation V) : Completion :=
  {| cm_Key := key; cm_Request := request; cm_Outcome := po_outcome prepared;
     cm_CompletedAt := mt_At (po_command prepared); cm_AppliedIndex := mt_AppliedIndex (po_command prepared) |}.

Definition failed_completion (completion : Completion) (code message : string) : Completion :=
  {| cm_Key := cm_Key completion; cm_Request := cm_Request completion;
     cm_Outcome := {| oc_Status := OutcomeFailed; oc_Failure := Some {| fl_Code := code; fl_Message := message |};
                      oc_AffectedResources := []; oc_CredentialIssued := false |};
     cm_CompletedAt := cm_CompletedAt completion; cm_AppliedIndex := cm_AppliedIndex completion |}.

Definition recordOperationFailure (completion : Completion) (applyErr : error) : Returns (option CompletionResult) := fun w =>
  let code := problemCode applyErr in
  if negb (terminalOperationFailure code) then (w, (None, Some applyErr))
  else
    let '(l, _, r) := Complete (failed_completion completion code (safeProblemMessage applyErr)) (ctl_ledger (fst w), tt) in
    let w := (set_ledger (fst w) l, snd w) in
    match r with
    | Err err => (w, (None, Some (JoinError applyErr err)))
    | Ok result => (w, (Some result, Some applyErr))
    end.

(** [ledger.CompleteAfter] with the closure over the stores and variables. *)
Definition complete_after {V} (completion : Completion) (apply : M (controlplane.State * V) unit) (v : V) (w : World)
    : World * V * result CompletionResult :=
  let '(l, (s, v), r) := CompleteAfter completion apply (ctl_ledger (fst w), (ctl_stores (fst w), v)) in
  ((set_stores (set_ledger (fst w) l) s, snd w), v, r).

Definition applyOperation {V} (zero : V) (key : OperationKey) (request : Request) (prepare : M World (preparedOperation V))
    : Returns (option CompletionResult * V) := fun w =>
  match lookupOperation (ctl_ledger (fst w)) key request with
  | Err err => (w, (None, zero, Some err))
  | Ok (Some record) =>
    let result := {| cr_Disposition := replayDisposition record; cr_Record := record |} in
    (w, (Some result, zero,
         if oc_Status (rc_Outcome record) == OutcomeFailed then Some (failureError (oc_Failure (rc_Outcome record))) else None))
  | Ok None =>
    match prepare w with
    | (w, Err err) => (w, (None, zero, Some err))
    | (w, Ok prepared) =>
      let completion := completion_of key request prepared in
      let '(w, v, r) := complete_after completion (po_apply prepared) (po_captured prepared) w in
      match r with
      | Err err => let '(w, (result, err)) := recordOperationFailure completion err w in (w, (result, v, err))
      | Ok result => (w, (Some result, v, None))
      end
    end
  end.

(** Runs a store method and assigns its result to the captured variable. *)
Definition capturing {V A} (m : M controlplane.State A) (assign : V -> A -> V) : M (controlplane.State * V) unit := fun sv =>
  match m (fst sv) with
  | (s, Ok a) => ((s, assign (snd sv) a), Ok tt)
  | (s, Err err) => ((s, snd sv), Err err)
  end.

Definition succeeded (resources : list AffectedResource) (credential : bool) : Outcome :=
  {| oc_Status := OutcomeSucceeded; oc_Failure := None; oc_AffectedResources := resources; oc_CredentialIssued := credential |}.
Definition resource (kind id : string) (revision : Z) : AffectedResource :=
  {| af_Kind := kind; af_ID := id; af_ResourceRevision := Some revision; af_RouteRevision := None |}.

(** ** Results *)
Definition resolveFunctionView (c : Controller) (record : Rec) (fallbackFunctionID : string) : result FunctionView :=
  functionID <- match affectedResourceID (rc_Outcome record) functionKind with
                | Ok id => Ok id
                | Err err => if fallbackFunctionID == "" then Err err else Ok fallbackFunctionID
                end ;;
  found <- wrap_err "resolving function operation result" (catalog.GetFunction (ctl_catalog c) functionID) ;;
  Ok {| vw_Function := fst found; vw_Trigger := snd found; vw_InvocationToken := "" |}.

Definition functionOperationResult (c : Controller) (result : CompletionResult) (view : FunctionView)
    (fallbackFunctionID : string) : FunctionOperationResult * option error :=
  let resolved :=
    if (cr_Disposition result != CompletionApplied) || (fn_ID (vw_Function view) == "")
    then resolveFunctionView c (cr_Record result) fallbackFunctionID else Ok view in
  match resolved with
  | Err err => ({| fr_Completion := None; fr_View := zero_View |}, Some err)
  | Ok view =>
    ({| fr_Completion := Some result; fr_View := view |},
     if cr_Disposition result == CompletionCredentialNotReplayable
     then Some (classified CodeCredentialNotReplayable "operation credential cannot be replayed") else None)
  end.

(** What the Function operations do with the outcome of [applyOperation]. *)
Definition function_result (fallbackFunctionID : string) (w : World) (out : option CompletionResult * FunctionView * option error)
    : World * (FunctionOperationResult * option error) :=
  let '(result, view, err) := out in
  (w, match err, result with
      | Some err, _ => ({| fr_Completion := result; fr_View := zero_View |}, Some err)
      | None, Some result => functionOperationResult (fst w) result view fallbackFunctionID
      | None, None => ({| fr_Completion := None; fr_View := zero_View |}, None)
      end).

Definition replayedVersionResult (c : Controller) (completed : CompletionResult) : result VersionOperationResult :=
  versionID <- affectedResourceID (rc_Outcome (cr_Record completed)) versionKind ;;
  found <- wrap_err "resolving version operation result" (release.Get (ctl_releases c) versionID) ;;
  Ok {| vr_Completion := Some completed; vr_Version := fst found; vr_Deployment := snd found |}.

Definition replayedRouteResult (c : Controller) (completed : CompletionResult) : result RouteOperationResult :=
  functionID <- affectedResourceID (rc_Outcome (cr_Record completed)) functionKind ;;
  found <- wrap_err "resolving route operation function" (catalog.GetFunction (ctl_catalog c) functionID) ;;
  route <- wrap_err "resolving route operation result" (routestore.Get (ctl_routes c) functionID) ;;
  Ok {| rr_Completion := Some completed; rr_Route := route; rr_Function := fst found |}.

(** The check and the request that precede the operation lock. *)
Definition admitted {A} (cancelled : option error) (request : result Request) (zero : A) (k : Request -> Returns A) : Returns A :=
  fun w => match (checkContext cancelled ;;; request) with
           | Err err => (w, (zero, Some err))
           | Ok request => k request w
           end.

(** ** The operations *)
Definition prepare_create_function (input : CreateFunctionInput) : M World (preparedOperation FunctionView) :=
  let! prepared := prepareCreateFunction input in
  let view := pf_view prepared in
  sret {| po_command := pf_command prepared;
          po_outcome := succeeded [resource functionKind (fn_ID (vw_Function view)) (fn_Revision (vw_Function view));
                                   resource httpTriggerKind (tr_ID (vw_Trigger view)) (tr_Revision (vw_Trigger view))]
                          (vw_InvocationToken view != "");
          po_captured := zero_View;
          po_apply := capturing (applyCreateFunction prepared) (fun _ applied => applied) |}.

Definition CreateFunctionOperation (cancelled : option error) (input : CreateFunctionOperationInput)
    : Returns FunctionOperationResult :=
  admitted cancelled (createFunctionRequest (of_Function input)) {| fr_Completion := None; fr_View := zero_View |}
    (fun request w =>
       let '(w, out) := applyOperation zero_View (of_Operation input) request (prepare_create_function (of_Function input)) w in
       function_result "" w out).

Definition nextLifecycleRevision (c : Controller) (input : SetFunctionLifecycleInput) : result Z :=
  found <- wrap_err "loading function lifecycle" (catalog.GetFunction (ctl_catalog c) (sf_FunctionID input)) ;;
  Ok (if fn_Lifecycle (fst found) == sf_Lifecycle input then fn_Revision (fst found)
      else u64 (sf_ExpectedResourceRevision input + 1)).

Definition prepare_lifecycle (input : SetFunctionLifecycleInput) : M World (preparedOperation FunctionView) :=
  let! command := nextCommand in
  let! revision := reading (fun c => nextLifecycleRevision c input) in
  sret {| po_command := command; po_outcome := succeeded [resource functionKind (sf_FunctionID input) revision] false;
          po_captured := zero_View;
          po_apply := capturing (applyFunctionLifecycle input command) (fun view _ => view) |}.

Definition SetFunctionLifecycleOperation (cancelled : option error) (input : SetFunctionLifecycleOperationInput)
    : Returns FunctionOperationResult :=
  admitted cancelled (setFunctionLifecycleRequest (ol_Lifecycle input)) {| fr_Completion := None; fr_View := zero_View |}
    (fun request w =>
       let '(w, out) := applyOperation zero_View (ol_Operation input) request (prepare_lifecycle (ol_Lifecycle input)) w in
       function_result (sf_FunctionID (ol_Lifecycle input)) w out).

Definition prepare_rotation (input : RotateInvocationTokenInput) : M World (preparedOperation FunctionView) :=
  let! prepared := prepareRotateInvocationToken input in
  sret {| po_command := pt_command prepared;
          po_outcome := succeeded [resource httpTriggerKind (pt_triggerID prepared) (u64 (rt_ExpectedResourceRevision input + 1))] true;
          po_captured := zero_View;
          po_apply := capturing (applyRotateInvocationToken prepared) (fun _ applied => applied) |}.

Definition RotateInvocationTokenOperation (cancelled : option error) (input : RotateInvocationTokenOperationInput)
    : Returns FunctionOperationResult :=
  admitted cancelled (rotateInvocationTokenRequest (ot_Rotation input)) {| fr_Completion := None; fr_View := zero_View |}
    (fun request w =>
       let '(w, out) := applyOperation zero_View (ot_Operation input) request (prepare_rotation (ot_Rotation input)) w in
       function_result (rt_FunctionID (ot_Rotation input)) w out).

(** The captured variables [prepared] and [created]. *)
Definition prepare_create_version (input : CreateVersionInput) : M World (preparedOperation (option preparedVersion * Version)) :=
  let! candidate := prepareCreateVersion input in
  let version := pv_version candidate in
  sret {| po_command := pv_createCommand candidate;
          po_outcome := succeeded [resource versionKind (v_VersionID version) (v_Revision version)] false;
          po_captured := (Some candidate, zero_Version);
          po_apply := capturing (applyCreateVersion candidate) (fun v applied => (fst v, applied)) |}.

(** [meanwhile] is what others do after the operation lock is released and
    before validation starts, [validating] while the validator runs. *)
Definition CreateVersionOperation (cancelled : option error) (meanwhile validating : World -> World)
    (input : CreateVersionOperationInput) : Returns VersionOperationResult :=
  let zero := {| vr_Completion := None; vr_Version := zero_Version; vr_Deployment := None |} in
  admitted cancelled (createVersionRequest (ov_Version input)) zero (fun request w =>
    let '(w, (result, (prepared, created), err)) :=
      applyOperation (None, zero_Version) (ov_Operation input) request (prepare_create_version (ov_Version input)) w in
    match err, result, prepared with
    | Some err, _, _ => (w, ({| vr_Completion := result; vr_Version := zero_Version; vr_Deployment := None |}, Some err))
    | None, Some result, prepared =>
      if cr_Disposition result != CompletionApplied then
        (w, match replayedVersionResult (fst w) result with
            | Ok replayed => (replayed, None)
            | Err err => (zero, Some err)
            end)
      else match prepared with
      | Some prepared =>
        let '(w, (admission, err)) := driveAdmission validating created prepared (meanwhile w) in
        (w, ({| vr_Completion := Some result; vr_Version := ad_Version admission; vr_Deployment := ad_Deployment admission |}, err))
      | None => (w, (zero, None)) (* an applied operation was prepared *)
      end
    | None, None, _ => (w, (zero, None)) (* without an error there is a result *)
    end).

Definition prepare_publish (input : PublishRouteInput) : M World (preparedOperation (Route * Function)) :=
  let! prepared := preparePublishRoute input in
  let! current := reading (fun c => wrap_err "loading route function" (catalog.GetFunction (ctl_catalog c) (pi_FunctionID input))) in
  let route := pp_route prepared in
  sret {| po_command := pp_command prepared;
          po_outcome := succeeded
            [{| af_Kind := routeKind; af_ID := r_ID route; af_ResourceRevision := None;
                af_RouteRevision := Some (r_RouteRevision route) |};
             resource functionKind (fn_ID (fst current)) (u64 (fn_Revision (fst current) + 1))] false;
          po_captured := (zero_Route, zero_Function);
          po_apply := capturing (applyPublishRoute prepared) (fun _ applied => applied) |}.

Definition PublishRouteOperation (cancelled : option error) (input : PublishRouteOperationInput) : Returns RouteOperationResult :=
  let zero := {| rr_Completion := None; rr_Route := zero_Route; rr_Function := zero_Function |} in
  admitted cancelled (publishRouteRequest (op_Route input)) zero (fun request w =>
    let '(w, (result, (route, function), err)) :=
      applyOperation (zero_Route, zero_Function) (op_Operation input) request (prepare_publish (op_Route input)) w in
    (w, match err, result with
        | Some err, _ => ({| rr_Completion := result; rr_Route := zero_Route; rr_Function := zero_Function |}, Some err)
        | None, Some result =>
          if cr_Disposition result != CompletionApplied then
            match replayedRouteResult (fst w) result with Ok replayed => (replayed, None) | Err err => (zero, Some err) end
          else ({| rr_Completion := Some result; rr_Route := route; rr_Function := function |}, None)
        | None, None => (zero, None) (* without an error there is a result *)
        end)).

Definition GetOperation (cancelled : option error) (key : OperationKey) (c : Controller) : result Rec :=
  checkContext cancelled ;;; wrap_err "getting operation" (Lookup (ctl_ledger c) key).

(** ** Preparation leaves stores and ledger alone *)
Class Quiet {A} (m : M World A) : Prop := quiet w : exists command, fst (fst (m w)) = set_lastCommand (fst w) command.

Lemma set_lastCommand_same (c : Controller) : set_lastCommand c (ctl_lastCommand c) = c.
Proof. by destruct c. Qed.

#[global] Instance ReadOnly_Quiet {A} (m : M World A) : ReadOnly m -> Quiet m | 10.
Proof. intros H w. exists (ctl_lastCommand (fst w)). by rewrite H, set_lastCommand_same. Qed.
#[global] Instance reading_Quiet {A} (f : Controller -> result A) : Quiet (reading (E := E) f).
Proof. intros w. exists (ctl_lastCommand (fst w)). by rewrite set_lastCommand_same. Qed.
#[global] Instance with_env_Quiet {A} (m : M E A) : Quiet (with_env m).
Proof. intros w. exists (ctl_lastCommand (fst w)). rewrite set_lastCommand_same. unfold with_env. by destruct (m (snd w)). Qed.
#[global] Instance nextCommand_Quiet : Quiet nextCommand.
Proof.
  intros w. destruct (nextCommand_state w) as [->|(command & _ & ->)]; [|by eexists].
  exists (ctl_lastCommand (fst w)). by rewrite set_lastCommand_same.
Qed.
#[global] Instance sbind_Quiet {A B} (m : M World A) (k : A -> M World B) :
  Quiet m -> (forall a, Quiet (k a)) -> Quiet (sbind m k).
Proof.
  intros Hm Hk w. destruct (Hm w) as [c1 H1]. unfold sbind. destruct (m w) as [w1 [a|e]]; [|by eexists].
  destruct (Hk a w1) as [c2 H2]. exists c2. rewrite H2. cbn [fst] in H1. by rewrite H1.
Qed.
#[global] Instance newID_Quiet prefix : Quiet (newID prefix).
Proof. unfold newID. apply _. Qed.
#[global] Instance newToken_Quiet : Quiet newToken.
Proof. unfold newToken. apply _. Qed.
#[global] Instance prepareCreateFunction_Quiet input : Quiet (prepareCreateFunction input).
Proof. unfold prepareCreateFunction, newInvocationToken. apply sbind_Quiet; [|apply _]. repeat case_match; apply _. Qed.
#[global] Instance prepareRotateInvocationToken_Quiet input : Quiet (prepareRotateInvocationToken input).
Proof. unfold prepareRotateInvocationToken. apply _. Qed.
#[global] Instance prepareCreateVersion_Quiet input : Quiet (prepareCreateVersion input).
Proof.
  assert (Quiet (verifyArtifact (vi_ArtifactDigest input))); [|unfold prepareCreateVersion; apply _].
  unfold verifyArtifact. apply sbind_Quiet; [apply _|]. intros [[file|] info]; cbn [fst]; apply _.
Qed.
#[global] Instance preparePublishRoute_Quiet input : Quiet (preparePublishRoute input).
Proof.
  unfold preparePublishRoute, newRouteSalt. apply sbind_Quiet; [apply _|]. intros _. apply sbind_Quiet; [apply _|].
  intros [version deployment]. apply sbind_Quiet; [apply _|]. intros _. cbn [snd]. destruct deployment; apply _.
Qed.

(** ** The contract of a management write *)

(** A listed resource is in the stores with the listed revision. *)
Definition current (s : controlplane.State) (r : AffectedResource) : Prop :=
  let stores := controlplane.cp_stores s in
  (af_Kind r = functionKind /\ exists f, functionsByID (st_catalog stores) !! af_ID r = Some f /\
     af_ResourceRevision r = Some (fn_Revision f)) \/
  (af_Kind r = httpTriggerKind /\ exists t, triggersByID (st_catalog stores) !! af_ID r = Some t /\
     af_ResourceRevision r = Some (tr_Revision t)) \/
  (af_Kind r = versionKind /\ exists v, versions (st_releases stores) !! af_ID r = Some v /\
     af_ResourceRevision r = Some (v_Revision v)) \/
  (af_Kind r = routeKind /\ exists fid rt, routes (st_routes stores) !! fid = Some rt /\ r_ID rt = af_ID r /\
     af_RouteRevision r = Some (r_RouteRevision rt)).

(** [identifies s o]: the outcome names what a replay looks up again. *)
Record faithful {V} (prepare : M World (preparedOperation V)) (identifies : controlplane.State -> Outcome -> Prop) : Prop := {
  fa_quiet : Quiet prepare;
  fa_guarantees : Guarantees prepare;
  fa_status w w1 p : prepare w = (w1, Ok p) -> oc_Status (po_outcome p) = OutcomeSucceeded;
  fa_fails w w1 p s v e : controlplane.cp_inv (ctl_stores (fst w)) -> prepare w = (w1, Ok p) ->
    po_apply p (ctl_stores (fst w), po_captured p) = ((s, v), Err e) -> s = ctl_stores (fst w);
  fa_applies w w1 p s v : controlplane.cp_inv (ctl_stores (fst w)) -> prepare w = (w1, Ok p) ->
    po_apply p (ctl_stores (fst w), po_captured p) = ((s, v), Ok tt) ->
    rtc controlplane.atomic_step (ctl_stores (fst w)) s /\ identifies s (po_outcome p) /\
    forall r, r ∈ oc_AffectedResources (po_outcome p) -> current s r;
}.

Lemma capturing_Ok {V A} (m : M controlplane.State A) (assign : V -> A -> V) s v s' v' r :
  capturing m assign (s, v) = ((s', v'), r) ->
  match m s with
  | (s1, Ok a) => s' = s1 /\ v' = assign v a /\ r = Ok tt
  | (s1, Err e) => s' = s1 /\ v' = v /\ r = Err e
  end.
Proof. unfold capturing. simpl. destruct (m s) as [s1 [a|e]]; intros [= <- <- <-]; done. Qed.

Lemma swrap_cases {S A} context (m : M S A) s :
  swrap context m s = (fst (m s), wrap_err context (snd (m s))).
Proof. unfold swrap. by destruct (m s). Qed.
Lemma wrap_err_Ok_iff {A} context (r : result A) a : wrap_err context r = Ok a <-> r = Ok a.
Proof. by destruct r. Qed.

Lemma on_catalog_Ok {A} (m : M Catalog A) s s' a :
  on_catalog m s = (s', Ok a) -> exists c, m (st_catalog (controlplane.cp_stores s)) = (c, Ok a) /\ s' = controlplane.with_catalog s c.
Proof. unfold on_catalog. destruct (m _) as [c r]. intros [= <- ->]. by exists c. Qed.

Lemma swrap_Ok {S A} context (m : M S A) s s' a : swrap context m s = (s', Ok a) -> m s = (s', Ok a).
Proof. unfold swrap. destruct (m s) as [s1 [a1|e]]; simpl; [|done]. by intros [= -> ->]. Qed.

(** A failing store method changes nothing. *)
Lemma on_catalog_Atomic {A} (m : M Catalog A) : Atomic m -> Atomic (on_catalog m).
Proof.
  intros Hm s s' e. unfold on_catalog. destruct (m _) as [c r] eqn:Hc. intros [= <- ->].
  rewrite (Hm _ _ _ Hc). by destruct s as [[]].
Qed.
Lemma on_releases_Atomic {A} (m : M ReleaseStore A) : Atomic m -> Atomic (on_releases m).
Proof.
  intros Hm s s' e. unfold on_releases. destruct (m _) as [c r] eqn:Hc. intros [= <- ->].
  rewrite (Hm _ _ _ Hc). by destruct s as [[]].
Qed.
Lemma on_routes_Atomic {A} (m : M Stores A) : Atomic m -> Atomic (on_routes m).
Proof.
  intros Hm s s' e. unfold on_routes. destruct (m _) as [c r] eqn:Hc. intros [= <- ->].
  rewrite (Hm _ _ _ Hc). by destruct s.
Qed.
Lemma swrap_Atomic {S A} context (m : M S A) : Atomic m -> Atomic (swrap context m).
Proof.
  intros Hm s s' e. unfold swrap. destruct (m s) as [s1 [a|e1]] eqn:Hs; simpl; [done|]. intros [= <- _]. by eapply Hm.
Qed.

Lemma elem_of_pair {A} (x a b : A) : x ∈ [a; b] -> x = a \/ x = b.
Proof. rewrite !elem_of_cons, elem_of_nil. tauto. Qed.

Lemma Stepwise_run {A} (m : M controlplane.State A) (Hm : Stepwise m) s s' r :
  m s = (s', r) -> rtc controlplane.atomic_step s s'.
Proof. intros Hs. specialize (Hm s). by rewrite Hs in Hm. Qed.

(** ** The five writes keep the contract *)
Definition identifies_function (fallback : string) (s : controlplane.State) (o : Outcome) : Prop :=
  exists fid, is_Some (functionsByID (st_catalog (controlplane.cp_stores s)) !! fid) /\
    (affectedResourceID (cloneOutcome o) functionKind = Ok fid \/
     (is_ok (affectedResourceID (cloneOutcome o) functionKind) = false /\ fid = fallback /\ fallback <> ""%string)).
Definition identifies_version (s : controlplane.State) (o : Outcome) : Prop :=
  oc_CredentialIssued o = false /\ exists vid, affectedResourceID (cloneOutcome o) versionKind = Ok vid /\
    is_Some (versions (st_releases (controlplane.cp_stores s)) !! vid).
Definition identifies_route (s : controlplane.State) (o : Outcome) : Prop :=
  oc_CredentialIssued o = false /\ exists fid, affectedResourceID (cloneOutcome o) functionKind = Ok fid /\
    is_Some (functionsByID (st_catalog (controlplane.cp_stores s)) !! fid) /\
    is_Some (routes (st_routes (controlplane.cp_stores s)) !! fid).

Lemma prepare_create_function_faithful input : faithful (prepare_create_function input) (identifies_function "").
Proof.
  split; [unfold prepare_create_function; apply _..| | |].
  - intros w w1 p Hp. unfold prepare_create_function in Hp. run_inv. done.
  - intros w w1 p s v e _ Hp Ha. unfold prepare_create_function in Hp. run_inv. cbn [po_apply po_captured] in Ha.
    apply capturing_Ok in Ha. destruct (applyCreateFunction a _) as [s1 [view|e1]] eqn:Ha1; [naive_solver|].
    destruct Ha as (-> & _ & _). revert Ha1. unfold applyCreateFunction, sbind.
    destruct (swrap _ _ _) as [s2 [u|e2]] eqn:Hs; [by intros [=]|]. intros [= <- _].
    eapply (swrap_Atomic _ _ (on_catalog_Atomic _ (CreateFunction_Atomic _))). exact Hs.
  - intros w w1 p s v _ Hp Ha. unfold prepare_create_function in Hp. run_inv. cbn [po_apply po_captured po_outcome] in *.
    apply capturing_Ok in Ha. destruct (applyCreateFunction a _) as [s1 [view|e1]] eqn:Ha1; [|naive_solver].
    destruct Ha as (-> & _ & _). split; [exact (Stepwise_run _ _ _ _ _ Ha1)|].
    unfold applyCreateFunction in Ha1. run_inv. apply swrap_Ok, on_catalog_Ok in Ha0 as (c & Hc & ->).
    apply CreateFunction_Ok in Hc as (_ & _ & _ & _ & _ & _ & -> & _). cbn [create_command cf_Function cf_Trigger].
    split.
    + exists (fn_ID (vw_Function (pf_view a))). split; [simpl; rewrite lookup_insert_eq; by eexists|]. left. by vm_compute.
    + intros r [->| ->]%elem_of_pair; unfold current; simpl; [left|right; left]; (split; [done|]);
        rewrite lookup_insert_eq; by eexists.
Qed.

Lemma prepare_lifecycle_faithful input : faithful (prepare_lifecycle input) (identifies_function (sf_FunctionID input)).
Proof.
  split; [unfold prepare_lifecycle; apply _..| | |].
  - intros w w1 p Hp. unfold prepare_lifecycle in Hp. run_inv. done.
  - intros w w1 p s v e _ Hp Ha. unfold prepare_lifecycle in Hp. run_inv. cbn [po_apply po_captured] in Ha.
    apply capturing_Ok in Ha. destruct (applyFunctionLifecycle _ _ _) as [s1 [f|e1]] eqn:Ha1; [naive_solver|].
    destruct Ha as (-> & _ & _).
    eapply (swrap_Atomic _ _ (on_catalog_Atomic _ (SetFunctionLifecycle_Atomic _))). exact Ha1.
  - intros w w1 p s v Hinv Hp Ha. unfold prepare_lifecycle in Hp. run_inv. cbn [po_apply po_captured po_outcome] in *.
    apply capturing_Ok in Ha. destruct (applyFunctionLifecycle _ _ _) as [s2 [f|e1]] eqn:Ha1; [|naive_solver].
    destruct Ha as (-> & _ & _). split; [exact (Stepwise_run _ _ _ _ _ Ha1)|].
    unfold reading in Hp1. injection Hp1 as <- Hrev.
    assert (ctl_catalog (fst s0) = ctl_catalog (fst w)) as Hcat.
    { destruct (nextCommand_Quiet w) as [cm Hq]. rewrite Hp0 in Hq. cbn [fst] in Hq. by rewrite Hq. }
    unfold nextLifecycleRevision in Hrev. rewrite Hcat in Hrev. unfold catalog.GetFunction in Hrev. ok_inv.
    unfold applyFunctionLifecycle in Ha1. apply swrap_Ok, on_catalog_Ok in Ha1 as (c & Hc & ->).
    apply SetFunctionLifecycle_Ok in Hc as (f0 & Hf0 & Hexp & _ & _ & Hcase). cbn [lifecycle_command sl_FunctionID sl_Lifecycle sl_ExpectedResourceRevision] in *.
    unfold ctl_catalog in *. rewrite Hf0 in Hrev0. destruct (triggersByID _ !! _) as [t|]; ok_inv. subst a1. cbn [fst] in *.
    pose proof (ci_function _ (si_catalog _ (controlplane.cp_stores_inv _ Hinv)) _ _ Hf0) as Hok.
    assert (exists f', functionsByID c !! sf_FunctionID input = Some f' /\
      a0 = fn_Revision f') as (f' & Hf' & Hr').
    { destruct Hcase as [(Hl & -> & ->)|(Hl & -> & _ & ->)].
      - exists f0. split; [done|]. rewrite Hl, bool_decide_eq_true_2 in Hrev by done. done.
      - eexists. simpl. rewrite <-(fo_id _ _ Hok) at 1. change (fn_ID (set_lifecycle f0 _ _)) with (fn_ID f0).
        rewrite lookup_insert_eq. split; [done|]. rewrite bool_decide_eq_false_2 in Hrev by done.
        subst a0. unfold fn_Revision. simpl. f_equal. unfold fn_Revision in Hexp. by rewrite Hexp. }
    split.
    + exists (sf_FunctionID input). split; [simpl; rewrite Hf'; by eexists|]. left. by vm_compute.
    + intros r ->%list_elem_of_singleton. left. split; [done|]. exists f'. simpl. by rewrite Hr'.
Qed.

Lemma GetFunction_Ok c id f t :
  catalog_inv c -> catalog.GetFunction c id = Ok (f, t) ->
  idPattern id = true /\ functionsByID c !! id = Some f /\ fn_ID f = id /\
  exists tid, triggerIDByFunc c !! id = Some tid /\ triggersByID c !! tid = Some t /\ tr_ID t = tid.
Proof.
  intros Hc Hg. unfold catalog.GetFunction in Hg. ok_inv. destruct (functionsByID c !! id) as [f0|] eqn:Hf; [|done].
  destruct (GetFunction_inv c id f0 Hc) as (t' & tid & Hg' & Htid & Ht & Hok); [done|done|].
  unfold str_get in Hg. rewrite Htid in Hg. simpl in Hg. rewrite Ht in Hg. injection Hg as <- <-.
  split_and!; [done|done|by apply (ci_function _ Hc _ _ Hf)|]. exists tid. split_and!; [done|done|by apply Hok].
Qed.

(** Nothing a preparation does changes the catalog. *)
Lemma Quiet_stores {A} (m : M World A) (Hm : Quiet m) w w' r : m w = (w', r) ->
  ctl_stores (fst w') = ctl_stores (fst w) /\ ctl_ledger (fst w') = ctl_ledger (fst w).
Proof. intros Hw. destruct (Hm w) as [c Hq]. rewrite Hw in Hq. cbn [fst] in Hq. by rewrite Hq. Qed.

Lemma prepareRotateInvocationToken_Ok input w w' prepared :
  prepareRotateInvocationToken input w = (w', Ok prepared) ->
  pt_input prepared = input /\ exists f t, catalog.GetFunction (ctl_catalog (fst w)) (rt_FunctionID input) = Ok (f, t) /\
    pt_triggerID prepared = tr_ID t.
Proof.
  unfold prepareRotateInvocationToken. intros Hp. apply sbind_Ok_inv in Hp as (w1 & [f t] & Hr & Hp).
  unfold reading in Hr. injection Hr as <- Hg. apply wrap_err_Ok in Hg. run_inv. simpl. eauto 10.
Qed.

Lemma applyRotateInvocationToken_fails prepared s s' e f t :
  catalog_inv (st_catalog (controlplane.cp_stores s)) ->
  catalog.GetFunction (st_catalog (controlplane.cp_stores s)) (rt_FunctionID (pt_input prepared)) = Ok (f, t) ->
  applyRotateInvocationToken prepared s = (s', Err e) -> s' = s.
Proof.
  intros Hc (Hid & Hf & _)%GetFunction_Ok; [|done]. unfold applyRotateInvocationToken, sbind.
  destruct (swrap _ _ s) as [s1 [t'|e1]] eqn:Hs.
  - apply swrap_Ok, on_catalog_Ok in Hs as (c' & Hr & ->). cbn [sget]. unfold slift.
    pose proof (RotateInvocationToken_inv _ _ _ _ Hc Hr) as Hc'.
    apply RotateInvocationToken_Ok in Hr as (tid & t0 & _ & _ & _ & _ & _ & _ & _ & ->).
    destruct (GetFunction_inv _ _ _ Hc' Hid Hf) as (t1 & tid1 & Hg & _). cbn [controlplane.with_catalog controlplane.cp_stores st_catalog].
    rewrite Hg. done.
  - intros [= <- _]. eapply (swrap_Atomic _ _ (on_catalog_Atomic _ (RotateInvocationToken_Atomic _))). exact Hs.
Qed.

Lemma prepare_rotation_faithful input : faithful (prepare_rotation input) (identifies_function (rt_FunctionID input)).
Proof.
  split; [unfold prepare_rotation; apply _..| | |].
  - intros w w1 p Hp. unfold prepare_rotation in Hp. run_inv. done.
  - intros w w1 p s v e Hinv Hp Ha. unfold prepare_rotation in Hp. run_inv. cbn [po_apply po_captured] in Ha.
    apply prepareRotateInvocationToken_Ok in Hp0 as (Hi & f & t & Hg & _).
    apply capturing_Ok in Ha. destruct (applyRotateInvocationToken _ _) as [s1 [view|e1]] eqn:Ha1; [naive_solver|].
    destruct Ha as (-> & _ & _). eapply (applyRotateInvocationToken_fails a); [apply (si_catalog _ (controlplane.cp_stores_inv _ Hinv))| |done].
    rewrite Hi. exact Hg.
  - intros w w1 p s v Hinv Hp Ha. unfold prepare_rotation in Hp. run_inv. cbn [po_apply po_captured po_outcome] in *.
    apply prepareRotateInvocationToken_Ok in Hp0 as (Hi & f & t & Hg & Htid).
    pose proof (si_catalog _ (controlplane.cp_stores_inv _ Hinv)) as Hc.
    apply capturing_Ok in Ha. destruct (applyRotateInvocationToken _ _) as [s1 [view|e1]] eqn:Ha1; [|naive_solver].
    destruct Ha as (-> & _ & _). split; [exact (Stepwise_run _ _ _ _ _ Ha1)|].
    apply GetFunction_Ok in Hg as (Hid & Hf & _ & tid & Hft & Ht & Htr); [|done].
    unfold applyRotateInvocationToken in Ha1. run_inv. apply swrap_Ok, on_catalog_Ok in Ha0 as (c & Hr & ->).
    apply RotateInvocationToken_Ok in Hr as (tid' & t0 & Hft' & Ht' & Hexp & _ & _ & -> & _ & ->).
    cbn [rotate_command ri_FunctionID ri_ExpectedResourceRevision] in *. unfold ctl_catalog in *.
    assert (tid' = tr_ID t) as -> by congruence. assert (t0 = t) as -> by congruence.
    split.
    + eexists. split; [simpl; rewrite Hf; by eexists|]. right. split_and!; [by vm_compute|done|].
      intros E0. rewrite E0 in Hid. done.
    + intros r ->%list_elem_of_singleton. right. left. split; [done|]. simpl. rewrite Htid, lookup_insert_eq.
      eexists. split; [done|]. simpl. unfold tr_Revision in *. simpl. by rewrite Hexp.
Qed.

Lemma prepare_create_version_faithful input : faithful (prepare_create_version input) identifies_version.
Proof.
  split; [unfold prepare_create_version; apply _..| | |].
  - intros w w1 p Hp. unfold prepare_create_version in Hp. run_inv. done.
  - intros w w1 p s v e _ Hp Ha. unfold prepare_create_version in Hp. run_inv. cbn [po_apply po_captured] in Ha.
    apply capturing_Ok in Ha. destruct (applyCreateVersion _ _) as [s1 [f|e1]] eqn:Ha1; [naive_solver|].
    destruct Ha as (-> & _ & _).
    eapply (swrap_Atomic _ _ (on_releases_Atomic _ (CreateVersion_Atomic _ _))). exact Ha1.
  - intros w w1 p s v _ Hp Ha. unfold prepare_create_version in Hp. run_inv. cbn [po_apply po_captured po_outcome] in *.
    apply capturing_Ok in Ha. destruct (applyCreateVersion _ _) as [s2 [f|e1]] eqn:Ha1; [|naive_solver].
    destruct Ha as (-> & _ & _). split; [exact (Stepwise_run _ _ _ _ _ Ha1)|].
    unfold applyCreateVersion in Ha1. apply swrap_Ok in Ha1. unfold on_releases in Ha1.
    destruct (release.CreateVersion _ _ _) as [x r] eqn:Hc. injection Ha1 as <- ->.
    unfold release.CreateVersion in Hc. run_inv. apply CreateVersion_commit_Ok in Hc as (-> & _ & _ & ->).
    split; [split; [done|exists (v_VersionID (pv_version a)); split; [by vm_compute|]]|
            intros r ->%list_elem_of_singleton; right; right; left; split; [done|]];
      simpl; rewrite lookup_insert_eq; by eexists.
Qed.

Lemma prepare_publish_faithful input : faithful (prepare_publish input) identifies_route.
Proof.
  split; [unfold prepare_publish; apply _..| | |].
  - intros w w1 p Hp. unfold prepare_publish in Hp. run_inv. done.
  - intros w w1 p s v e _ Hp Ha. unfold prepare_publish in Hp. run_inv. cbn [po_apply po_captured] in Ha.
    apply capturing_Ok in Ha. destruct (applyPublishRoute _ _) as [s2 [f|e1]] eqn:Ha1; [naive_solver|].
    destruct Ha as (-> & _ & _). eapply (swrap_Atomic _ _ (on_routes_Atomic _ (Publish_Atomic _))). exact Ha1.
  - intros w w1 p s v Hinv Hp Ha. unfold prepare_publish in Hp. apply sbind_Ok_inv in Hp as (w2 & prepared & Hpr & Hp).
    apply sbind_Ok_inv in Hp as (w3 & [f t] & Hr & Hp). run_inv. cbn [po_apply po_captured po_outcome] in *.
    unfold reading in Hr. injection Hr as -> Hg. apply wrap_err_Ok in Hg.
    destruct (Quiet_stores _ _ _ _ _ Hpr) as [Hst _]. unfold ctl_catalog in Hg. rewrite Hst in Hg.
    assert (pp_input prepared = input) as Hi.
    { unfold preparePublishRoute in Hpr. run_inv. done. }
    apply capturing_Ok in Ha. destruct (applyPublishRoute _ _) as [s2 [[rt f2]|e1]] eqn:Ha1; [|naive_solver].
    destruct Ha as (-> & _ & _). split; [exact (Stepwise_run _ _ _ _ _ Ha1)|].
    pose proof (si_catalog _ (controlplane.cp_stores_inv _ Hinv)) as Hc.
    apply GetFunction_Ok in Hg as (Hid & Hf & Hfid & _); [|done].
    unfold applyPublishRoute in Ha1. apply swrap_Ok in Ha1. unfold on_routes in Ha1.
    destruct (Publish _ _) as [x r] eqn:Hpub. injection Ha1 as <- ->.
    apply Publish_Ok in Hpub as (f0 & Hpb & -> & -> & ->). pose proof (pb_function _ _ _ Hpb) as Hf0.
    cbn [publish_command pr_FunctionID pr_Route] in *. rewrite Hi in Hf0. assert (f0 = f) as -> by congruence.
    cbn [fst] in *.
    split; [split; [done|exists (fn_ID f); split_and!; [by vm_compute| |]]|
            intros r [->| ->]%elem_of_pair; [right; right; right|left]; (split; [done|])];
      simpl; rewrite ?lookup_insert_eq; eauto.
    exists (fn_ID f), (pp_route prepared). by rewrite lookup_insert_eq.
Qed.

(** ** The protocol keeps its record *)
Lemma OperationKey_Validate_code key e : OperationKey_Validate key = Err e -> problemCode e <> CodeNotFound.
Proof.
  unfold OperationKey_Validate, fail_if. repeat (case_match; cbn [rbind]); intros [= <-]; by vm_compute.
Qed.

Lemma lookupOperation_None l key request :
  lookupOperation l key request = Ok None ->
  OperationKey_Validate key = Ok tt /\ l_tombstones l !! makeOperationKey key = None /\ l_records l !! makeOperationKey key = None.
Proof.
  unfold lookupOperation, Lookup. destruct (OperationKey_Validate key) as [[]|e] eqn:Hk; cbn [rbind].
  2:{ apply OperationKey_Validate_code in Hk. by rewrite bool_decide_eq_false_2. }
  destruct (l_tombstones l !! makeOperationKey key) eqn:Ht.
  { rewrite bool_decide_eq_true_2 by done. by vm_compute. }
  rewrite bool_decide_eq_false_2 by (by intros []). cbn [fail_if rbind].
  destruct (l_records l !! makeOperationKey key) eqn:Hr; [|done].
  destruct (Request_Digest request); cbn [rbind]; [|done]. unfold fail_if. by case_match.
Qed.

Lemma lookupOperation_Some l key request record :
  lookupOperation l key request = Ok (Some record) ->
  exists r, l_records l !! makeOperationKey key = Some r /\ record = cloneRecord r /\ Request_Digest request = Ok (rc_Digest r).
Proof.
  unfold lookupOperation. destruct (Lookup l key) as [record'|e] eqn:Hl; [|by case_match].
  intros Ho. ok_inv. unfold Lookup in Hl. ok_inv. destruct (l_records l !! makeOperationKey key) as [r|]; ok_inv.
  subst record'. injection Ho as <-. exists r. split_and!; [done|done|].
  change (rc_Digest (cloneRecord r)) with (rc_Digest r) in *. congruence.
Qed.

(** What a retained record answers to a request with its digest, or another. *)
Lemma lookupOperation_retained l key request r d :
  ledger_inv l -> l_records l !! makeOperationKey key = Some r -> OperationKey_Validate key = Ok tt -> Request_Digest request = Ok d ->
  lookupOperation l key request = if rc_Digest r == d then Ok (Some (cloneRecord r)) else Err reused_id.
Proof.
  intros Hl Hr Hk Hd. unfold lookupOperation, Lookup. rewrite Hk. cbn [rbind].
  rewrite (li_disjoint _ Hl) by eauto. rewrite bool_decide_eq_false_2 by (by intros []). cbn [fail_if rbind].
  rewrite Hr, Hd. cbn [rbind]. change (rc_Digest (cloneRecord r)) with (rc_Digest r). unfold fail_if.
  by destruct (bool_decide _).
Qed.

Definition answered (r : Rec) : CompletionResult := {| cr_Disposition := replayDisposition r; cr_Record := r |}.
Definition recorded (w w' : World) (key : OperationKey) (rec : Rec) : Prop :=
  l_records (ctl_ledger (fst w)) !! makeOperationKey key = None /\ OperationKey_Validate key = Ok tt /\
  ctl_ledger (fst w') = set_maps (ctl_ledger (fst w)) (<[makeOperationKey key := rec]> (l_records (ctl_ledger (fst w))))
                          (l_tombstones (ctl_ledger (fst w))).

(** The ways an operation can end. *)
Inductive ends {V} (zero : V) (identifies : controlplane.State -> Outcome -> Prop) (key : OperationKey) (request : Request) (w : World)
    : World -> option CompletionResult -> V -> option error -> Prop :=
| ends_refused e : lookupOperation (ctl_ledger (fst w)) key request = Err e -> ends zero identifies key request w w None zero (Some e)
| ends_replayed r :
    l_records (ctl_ledger (fst w)) !! makeOperationKey key = Some r -> Request_Digest request = Ok (rc_Digest r) ->
    ends zero identifies key request w w (Some (answered (cloneRecord r))) zero
      (if oc_Status (rc_Outcome r) == OutcomeFailed then Some (failureError (oc_Failure (rc_Outcome r))) else None)
| ends_without_record w' v e :
    ctl_stores (fst w') = ctl_stores (fst w) -> ctl_ledger (fst w') = ctl_ledger (fst w) -> ends zero identifies key request w w' None v (Some e)
| ends_failed w' v e rec :
    ctl_stores (fst w') = ctl_stores (fst w) -> recorded w w' key rec -> Request_Digest request = Ok (rc_Digest rec) ->
    oc_Status (rc_Outcome rec) = OutcomeFailed -> oc_CredentialIssued (rc_Outcome rec) = false ->
    oc_Failure (rc_Outcome rec) = Some {| fl_Code := problemCode e; fl_Message := safeProblemMessage e |} ->
    ends zero identifies key request w w' (Some {| cr_Disposition := CompletionApplied; cr_Record := cloneRecord rec |}) v (Some e)
| ends_applied w' v rec o :
    recorded w w' key rec -> Request_Digest request = Ok (rc_Digest rec) -> rc_Outcome rec = cloneOutcome o ->
    oc_Status o = OutcomeSucceeded -> identifies (ctl_stores (fst w')) o ->
    (forall r, r ∈ oc_AffectedResources o -> current (ctl_stores (fst w')) r) ->
    ends zero identifies key request w w' (Some {| cr_Disposition := CompletionApplied; cr_Record := cloneRecord rec |}) v None.

Lemma complete_fresh {W} c (apply : option (M W unit)) l w s' r :
  l_records l !! makeOperationKey (cm_Key c) = None -> complete c apply (l, w) = (s', r) ->
  (s' = (l, w) /\ exists e, r = Err e) \/
  (exists d, admissible c l d /\
     match run_callback apply w with
     | (w', Ok _) => s' = (set_maps l (<[makeOperationKey (cm_Key c) := new_record c d]> (l_records l)) (l_tombstones l), w') /\
         r = Ok {| cr_Disposition := CompletionApplied; cr_Record := cloneRecord (new_record c d) |}
     | (w', Err e) => s' = (l, w') /\ r = Err e
     end).
Proof.
  intros Hn Hc. apply complete_cases in Hc as [[-> Hr]|?]; [left|by right]. split; [done|].
  destruct r as [res|e]; [|by eexists]. destruct (Hr res eq_refl) as (cur & _ & Hcur & _). congruence.
Qed.

Lemma recordOperationFailure_ends completion e w w' result err :
  l_records (ctl_ledger (fst w)) !! makeOperationKey (cm_Key completion) = None ->
  recordOperationFailure completion e w = (w', (result, err)) ->
  ctl_stores (fst w') = ctl_stores (fst w) /\
  ((ctl_ledger (fst w') = ctl_ledger (fst w) /\ result = None /\ exists e', err = Some e') \/
   exists d, err = Some e /\ OperationKey_Validate (cm_Key completion) = Ok tt /\
     let rec := new_record (failed_completion completion (problemCode e) (safeProblemMessage e)) d in
     ctl_ledger (fst w') = set_maps (ctl_ledger (fst w)) (<[makeOperationKey (cm_Key completion) := rec]> (l_records (ctl_ledger (fst w))))
                             (l_tombstones (ctl_ledger (fst w))) /\
     Request_Digest (cm_Request completion) = Ok d /\
     result = Some {| cr_Disposition := CompletionApplied; cr_Record := cloneRecord rec |}).
Proof.
  intros Hn. unfold recordOperationFailure. case_match.
  { intros [= <- <- <-]. split; [done|]. left. eauto. }
  set (c := failed_completion _ _ _). destruct (Complete c _) as [[l u] r] eqn:Hc. unfold Complete in Hc.
  apply complete_fresh in Hc as [[[= -> ->] [e' ->]]|(d & Had & Hrun)]; [| |exact Hn].
  - intros [= <- <- <-]. split; [done|]. left. split_and!; [by destruct (ctl_ledger (fst w))|done|by eexists].
  - cbn [run_callback] in Hrun. destruct Hrun as [[= -> ->] ->]. intros [= <- <- <-]. split; [done|]. right. exists d.
    split_and!; [done|apply (am_key _ _ _ Had)|done|apply (am_digest _ _ _ Had)|done].
Qed.

Lemma applyOperation_ends {V} (zero : V) key request prepare identifies w w' result v err :
  faithful prepare identifies -> ctl_inv (fst w) ->
  applyOperation zero key request prepare w = (w', (result, v, err)) -> ends zero identifies key request w w' result v err.
Proof.
  intros Hf Hinv. unfold applyOperation. destruct (lookupOperation _ key request) as [[record|]|e] eqn:Hl.
  - apply lookupOperation_Some in Hl as (r & Hr & -> & Hd). intros [= <- <- <- <-].
    exact (ends_replayed zero identifies key request w r Hr Hd).
  - apply lookupOperation_None in Hl as (Hk & _ & Hr). destruct (prepare w) as [w1 [p|e]] eqn:Hp.
    2:{ intros [= <- <- <- <-]. destruct (Quiet_stores prepare (fa_quiet _ _ Hf) _ _ _ Hp). by apply ends_without_record. }
    destruct (Quiet_stores prepare (fa_quiet _ _ Hf) _ _ _ Hp) as [Hs1 Hl1]. unfold complete_after.
    destruct (CompleteAfter _ _ _) as [[l [s v1]] r] eqn:Hc. unfold CompleteAfter in Hc.
    rewrite Hs1, Hl1 in Hc. apply complete_fresh in Hc; [|exact Hr].
    set (w2 := (set_stores (set_ledger (fst w1) l) s, snd w1)).
    assert ((s = ctl_stores (fst w) /\ l = ctl_ledger (fst w) /\ exists e, r = Err e) \/
      exists d, admissible (completion_of key request p) (ctl_ledger (fst w)) d /\
        po_apply p (ctl_stores (fst w), po_captured p) = ((s, v1), Ok tt) /\
        l = set_maps (ctl_ledger (fst w)) (<[makeOperationKey key := new_record (completion_of key request p) d]> (l_records (ctl_ledger (fst w))))
              (l_tombstones (ctl_ledger (fst w))) /\
        r = Ok {| cr_Disposition := CompletionApplied; cr_Record := cloneRecord (new_record (completion_of key request p) d) |}) as Hcase.
    { destruct Hc as [[[= -> -> ->] [e ->]]|(d & Had & Hrun)]; [left; eauto|]. cbn [run_callback] in Hrun.
      destruct (po_apply p _) as [[s2 v2] [[]|e]] eqn:Ha; destruct Hrun as [[= -> -> ->] ->]; [right; by exists d|].
      left. split_and!; [|done|by eexists]. eapply (fa_fails _ _ Hf); [apply Hinv|done|done]. }
    destruct Hcase as [(-> & -> & e & ->)|(d & Had & Ha & -> & ->)].
    + destruct (recordOperationFailure _ e w2) as [w3 [res err']] eqn:Hrec. intros [= <- <- <- <-].
      apply recordOperationFailure_ends in Hrec as [Hs3 [(Hl3 & -> & e' & ->)|(d & -> & _ & Hl3 & Hd & ->)]]; [| |exact Hr].
      * by apply ends_without_record.
      * eapply ends_failed; [done|split_and!; [done|done|exact Hl3]|exact Hd|done..].
    + intros [= <- <- <- <-]. destruct (fa_applies _ _ Hf w w1 p s v1 (cn_stores _ Hinv) Hp Ha) as (_ & Hid & Hcur).
      eapply ends_applied; [split_and!; done|apply (am_digest _ _ _ Had)|done|by apply (fa_status _ _ Hf w w1)|exact Hid|exact Hcur].
  - intros [= <- <- <- <-]. by apply ends_refused.
Qed.

(** ** Operations guarantee what the other methods rely on *)
Lemma complete_moves {W} (c : Controller) completion (apply : option (M W unit)) x l x' r s' :
  complete completion apply (ctl_ledger c, x) = ((l, x'), r) -> rtc controlplane.atomic_step (ctl_stores c) s' ->
  moves c (set_stores (set_ledger c l) s').
Proof.
  intros Hc Hs [H1 H2 H3 H4]. pose proof (complete_inv completion apply _ x H2) as Hl. rewrite Hc in Hl. cbn [fst] in Hl.
  assert (exists records, l = set_maps (ctl_ledger c) records (l_tombstones (ctl_ledger c)) /\ l_records (ctl_ledger c) ⊆ records)
    as (records & -> & Hsub).
  { apply complete_cases in Hc as [[[= -> ->] _]|(d & Had & Hrun)].
    - exists (l_records (ctl_ledger c)). split; [by destruct (ctl_ledger c)|done].
    - destruct (run_callback apply x) as [x1 [u|e]]; destruct Hrun as [[= -> ->] _].
      + eexists. split; [done|]. apply insert_subseteq, (am_record _ _ _ Had).
      + exists (l_records (ctl_ledger c)). split; [by destruct (ctl_ledger c)|done]. }
  split; split; simpl; try done. by eapply rtc_atomic_inv.
Qed.

Lemma set_stores_same (c : Controller) : set_stores c (ctl_stores c) = c.
Proof. by destruct c. Qed.

Lemma recordOperationFailure_moves completion e w : moves (fst w) (fst (fst (recordOperationFailure completion e w))).
Proof.
  unfold recordOperationFailure. case_match; [done|]. destruct (Complete _ _) as [[l u] r] eqn:Hc. unfold Complete in Hc.
  pose proof (complete_moves (fst w) _ _ _ _ _ _ (ctl_stores (fst w)) Hc ltac:(reflexivity)) as Hm.
  rewrite (set_stores_same (set_ledger (fst w) l) : set_stores _ (ctl_stores (fst w)) = _) in Hm. by destruct r.
Qed.

Lemma applyOperation_moves {V} (zero : V) key request prepare identifies w :
  faithful prepare identifies -> moves (fst w) (fst (fst (applyOperation zero key request prepare w))).
Proof.
  intros Hf Hinv. unfold applyOperation. destruct (lookupOperation _ key request) as [[record|]|e]; [done| |done].
  pose proof (fa_guarantees _ _ Hf w) as Hm1. destruct (prepare w) as [w1 [p|e]] eqn:Hp; [|by apply Hm1]. cbn [fst] in Hm1.
  destruct (Quiet_stores prepare (fa_quiet _ _ Hf) _ _ _ Hp) as [Hs1 Hl1]. unfold complete_after.
  destruct (CompleteAfter _ _ _) as [[l [s v1]] r] eqn:Hc. set (w2 := (set_stores (set_ledger (fst w1) l) s, snd w1)).
  assert (moves (fst w1) (fst w2)) as Hm2.
  { unfold CompleteAfter in Hc. eapply complete_moves; [exact Hc|]. apply complete_cases in Hc as [[[= -> -> ->] _]|(d & _ & Hrun)]; [done|].
    cbn [run_callback] in Hrun. rewrite Hs1 in *. destruct (po_apply p _) as [[s2 v2] [[]|e]] eqn:Ha; destruct Hrun as [[= -> -> ->] _].
    - by eapply (fa_applies _ _ Hf); [apply Hinv| |].
    - by erewrite (fa_fails _ _ Hf); [| |exact Hp|exact Ha]; [|apply Hinv]. }
  revert Hinv. change (moves (fst w) (fst (fst (match r with
    | Ok result => (w2, (Some result, v1, None))
    | Err err => let '(w, (result, err)) := recordOperationFailure (completion_of key request p) err w2 in (w, (result, v1, err)) end)))).
  etrans; [exact Hm1|]. etrans; [exact Hm2|]. destruct r as [res|e]; [done|].
  pose proof (recordOperationFailure_moves (completion_of key request p) e w2) as Hm3.
  by destruct (recordOperationFailure _ e w2) as [w3 [res err]].
Qed.

(** ** What stays in the stores *)
Lemma atomic_step_kept s s' : controlplane.atomic_step s s' -> controlplane.cp_inv s ->
  controlplane.functions_kept (st_catalog (controlplane.cp_stores s)) (st_catalog (controlplane.cp_stores s')) /\
  (forall vid, is_Some (versions (st_releases (controlplane.cp_stores s)) !! vid) ->
     is_Some (versions (st_releases (controlplane.cp_stores s')) !! vid)) /\
  (forall fid, is_Some (routes (st_routes (controlplane.cp_stores s)) !! fid) ->
     is_Some (routes (st_routes (controlplane.cp_stores s')) !! fid)).
Proof.
  intros Hstep Hs. pose proof (si_releases _ (controlplane.cp_stores_inv _ Hs)) as Hr.
  assert (forall o vid, is_Some (versions (st_releases (controlplane.cp_stores s)) !! vid) ->
    is_Some (versions (run_op o (st_releases (controlplane.cp_stores s))) !! vid)) as Hver.
  { intros o vid [v Hv]. destruct (run_op_version o _ vid v Hr Hv) as (v' & Hv' & _). by exists v'. }
  destruct Hstep as [o s|command s].
  - split_and!; [by apply controlplane.run_functions_kept|..].
    + intros vid Hv. destruct o as [c|c|c|c|c|c|c|c]; simpl; try done.
      * by apply (Hver (OpStartValidation c)).
      * by apply (Hver (OpCompleteValidation c)).
      * destruct (Publish c _) as [x [[rt f]|e]] eqn:Hp; simpl; [|by rewrite (Publish_Atomic _ _ _ _ Hp)].
        by apply Publish_Ok in Hp as (f0 & _ & _ & _ & ->).
    + intros fid Hv. destruct o as [c|c|c|c|c|c|c|c]; simpl; try done.
      destruct (Publish c _) as [x [[rt f]|e]] eqn:Hp; simpl; [|by rewrite (Publish_Atomic _ _ _ _ Hp)].
      apply Publish_Ok in Hp as (f0 & _ & _ & _ & ->). simpl. rewrite lookup_insert_is_Some'. by right.
  - split_and!; [by intros ??| |done]. intros vid. simpl. apply (Hver (OpCreateVersion (st_catalog (controlplane.cp_stores s)) command)).
Qed.

Lemma rtc_kept s s' : rtc controlplane.atomic_step s s' -> controlplane.cp_inv s ->
  controlplane.functions_kept (st_catalog (controlplane.cp_stores s)) (st_catalog (controlplane.cp_stores s')) /\
  (forall vid, is_Some (versions (st_releases (controlplane.cp_stores s)) !! vid) ->
     is_Some (versions (st_releases (controlplane.cp_stores s')) !! vid)) /\
  (forall fid, is_Some (routes (st_routes (controlplane.cp_stores s)) !! fid) ->
     is_Some (routes (st_routes (controlplane.cp_stores s')) !! fid)).
Proof.
  induction 1 as [s|s1 s2 s3 H12 H23 IH]; intros Hs; [split_and!; by intros ?|].
  destruct (atomic_step_kept _ _ H12 Hs) as (F1 & V1 & R1).
  destruct (IH (controlplane.atomic_step_inv _ _ H12 Hs)) as (F2 & V2 & R2).
  split_and!; [intros fid ?; by apply F2, F1|intros vid ?; by apply V2, V1|intros fid ?; by apply R2, R1].
Qed.

Lemma identifies_function_kept fallback s s' o : rtc controlplane.atomic_step s s' -> controlplane.cp_inv s ->
  identifies_function fallback s o -> identifies_function fallback s' o.
Proof.
  intros Hr Hs (fid & Hf & Hid). destruct (rtc_kept _ _ Hr Hs) as (Hk & _). exists fid. split; [by apply Hk|done].
Qed.
Lemma identifies_version_kept s s' o : rtc controlplane.atomic_step s s' -> controlplane.cp_inv s ->
  identifies_version s o -> identifies_version s' o.
Proof.
  intros Hr Hs (Hc & vid & Hid & Hv). destruct (rtc_kept _ _ Hr Hs) as (_ & Hk & _). split; [done|]. exists vid. split; [done|by apply Hk].
Qed.
Lemma identifies_route_kept s s' o : rtc controlplane.atomic_step s s' -> controlplane.cp_inv s ->
  identifies_route s o -> identifies_route s' o.
Proof.
  intros Hr Hs (Hc & fid & Hid & Hf & Hrt). destruct (rtc_kept _ _ Hr Hs) as (Hkf & _ & Hkr). split; [done|]. exists fid.
  split_and!; [done|by apply Hkf|by apply Hkr].
Qed.

(** Replays resolve. *)
Lemma GetFunction_kept s fid : controlplane.cp_inv s -> is_Some (functionsByID (st_catalog (controlplane.cp_stores s)) !! fid) ->
  exists found, catalog.GetFunction (st_catalog (controlplane.cp_stores s)) fid = Ok found.
Proof.
  intros Hs [f Hf]. pose proof (si_catalog _ (controlplane.cp_stores_inv _ Hs)) as Hc.
  destruct (GetFunction_inv _ _ _ Hc (function_ok_id _ _ (ci_function _ Hc _ _ Hf)) Hf) as (t & tid & Hg & _). eauto.
Qed.
Lemma release_Get_kept s vid : controlplane.cp_inv s -> is_Some (versions (st_releases (controlplane.cp_stores s)) !! vid) ->
  exists found, release.Get (st_releases (controlplane.cp_stores s)) vid = Ok found.
Proof.
  intros Hs [v Hv]. pose proof (ri_version _ (si_releases _ (controlplane.cp_stores_inv _ Hs)) _ _ Hv) as [Hvid _ Hval _ _ _].
  unfold release.Get. assert (identifierPattern vid = true) as ->; [|rewrite Hv; simpl; eauto].
  unfold Version_Validate in Hval. ok_inv. by rewrite <-Hvid.
Qed.
Lemma route_Get_kept s fid : controlplane.cp_inv s -> is_Some (routes (st_routes (controlplane.cp_stores s)) !! fid) ->
  exists route, routestore.Get (st_routes (controlplane.cp_stores s)) fid = Ok route.
Proof.
  intros Hs [r Hr]. pose proof (controlplane.cp_stores_inv _ Hs) as Hst. destruct (si_route _ Hst _ _ Hr) as (f & Hf & _).
  unfold routestore.Get. rewrite (function_ok_id _ _ (ci_function _ (si_catalog _ Hst) _ _ Hf) : identifierPattern fid = true), Hr. simpl. eauto.
Qed.

Lemma replayDisposition_not_applied r : (replayDisposition r != CompletionApplied) = true.
Proof. unfold replayDisposition. by case_match. Qed.

(** The error a retry is answered with. *)
Definition replay_error (r : Rec) : option error :=
  if oc_Status (rc_Outcome r) == OutcomeFailed then Some (failureError (oc_Failure (rc_Outcome r)))
  else if oc_CredentialIssued (rc_Outcome r)
  then Some (classified CodeCredentialNotReplayable "operation credential cannot be replayed") else None.

Lemma functionOperationResult_replays c r o view fallback :
  ctl_inv c -> rc_Outcome r = cloneOutcome o -> oc_Status o = OutcomeSucceeded -> identifies_function fallback (ctl_stores c) o ->
  exists view', functionOperationResult c (answered r) view fallback =
    ({| fr_Completion := Some (answered r); fr_View := view' |}, replay_error r).
Proof.
  intros Hc Ho Hs (fid & Hf & Hid). destruct (GetFunction_kept _ _ (cn_stores _ Hc) Hf) as [found Hg].
  unfold functionOperationResult, answered. cbn [cr_Disposition cr_Record]. rewrite replayDisposition_not_applied. cbn [orb].
  unfold resolveFunctionView. rewrite Ho.
  assert ((match affectedResourceID (cloneOutcome o) functionKind with
           | Ok id => Ok id
           | Err err => if fallback == "" then Err err else Ok fallback end) = Ok fid) as ->.
  { destruct Hid as [->|(Hn & -> & Hne)]; [done|]. destruct (affectedResourceID _ _); [done|].
    by rewrite bool_decide_eq_false_2. }
  cbn [rbind]. unfold ctl_catalog. rewrite Hg. cbn [wrap_err rbind]. eexists. f_equal.
  unfold replay_error, replayDisposition. rewrite Ho. cbn [cloneOutcome oc_Status oc_CredentialIssued]. rewrite Hs.
  by destruct (oc_CredentialIssued o).
Qed.

Lemma replayedVersionResult_replays c r o :
  ctl_inv c -> rc_Outcome r = cloneOutcome o -> identifies_version (ctl_stores c) o ->
  exists res, replayedVersionResult c (answered r) = Ok res /\ vr_Completion res = Some (answered r).
Proof.
  intros Hc Ho (_ & vid & Hid & Hv). destruct (release_Get_kept _ _ (cn_stores _ Hc) Hv) as [found Hg].
  unfold replayedVersionResult, answered. cbn [cr_Record]. rewrite Ho, Hid. cbn [rbind]. unfold ctl_releases. rewrite Hg.
  cbn [wrap_err rbind]. by eexists.
Qed.

Lemma replayedRouteResult_replays c r o :
  ctl_inv c -> rc_Outcome r = cloneOutcome o -> identifies_route (ctl_stores c) o ->
  exists res, replayedRouteResult c (answered r) = Ok res /\ rr_Completion res = Some (answered r).
Proof.
  intros Hc Ho (_ & fid & Hid & Hf & Hrt). destruct (GetFunction_kept _ _ (cn_stores _ Hc) Hf) as [found Hg].
  destruct (route_Get_kept _ _ (cn_stores _ Hc) Hrt) as [route Hr].
  unfold replayedRouteResult, answered. cbn [cr_Record]. rewrite Ho, Hid. cbn [rbind]. unfold ctl_catalog, ctl_routes.
  rewrite Hg. cbn [wrap_err rbind]. rewrite Hr. by eexists.
Qed.

(** Handing a record out again does not change it. *)
Definition resource_order : AffectedResource -> AffectedResource -> comparison :=
  lex_by (comparing af_Kind String.compare) (comparing af_ID String.compare).
#[local] Instance resource_order_total : TotalCompare resource_order.
Proof. unfold resource_order. apply _. Qed.

Lemma compareResource_spec l r : compareResource l r = int_of resource_order l r.
Proof.
  unfold compareResource, int_of, resource_order, lex_by, lex, comparing, strings_Compare.
  destruct (decide (af_Kind l = af_Kind r)) as [->|Hne].
  - rewrite bool_decide_eq_true_2 by done. cbn [negb]. by rewrite (tc_refl String.compare).
  - rewrite bool_decide_eq_false_2 by done. cbn [negb]. destruct (String.compare (af_Kind l) (af_Kind r)) eqn:Hc; [|done..].
    by apply String.compare_eq_iff in Hc.
Qed.

Lemma cloneOutcome_idempotent o : cloneOutcome (cloneOutcome o) = cloneOutcome o.
Proof.
  unfold cloneOutcome. cbn [oc_Status oc_Failure oc_AffectedResources oc_CredentialIssued]. f_equal.
  assert (forall l, SortFunc compareResource l = SortFunc (int_of resource_order) l) as Hext
    by (intros l; apply SortFunc_ext; intros; apply compareResource_spec).
  rewrite !Hext. apply SortFunc_idempotent. apply _.
Qed.
Lemma cloneRecord_outcome r o : rc_Outcome r = cloneOutcome o -> cloneRecord r = r.
Proof. destruct r. simpl. intros ->. unfold cloneRecord. simpl. by rewrite cloneOutcome_idempotent. Qed.

(** ** Management operations *)
Inductive operation :=
| WriteFunction (input : CreateFunctionOperationInput)
| WriteLifecycle (input : SetFunctionLifecycleOperationInput)
| WriteRotation (input : RotateInvocationTokenOperationInput)
| WriteVersion (meanwhile validating : World -> World) (input : CreateVersionOperationInput)
| WriteRoute (input : PublishRouteOperationInput).

Definition op_key (op : operation) : OperationKey :=
  match op with
  | WriteFunction i => of_Operation i
  | WriteLifecycle i => ol_Operation i
  | WriteRotation i => ot_Operation i
  | WriteVersion _ _ i => ov_Operation i
  | WriteRoute i => op_Operation i
  end.
Definition op_request (op : operation) : result Request :=
  match op with
  | WriteFunction i => createFunctionRequest (of_Function i)
  | WriteLifecycle i => setFunctionLifecycleRequest (ol_Lifecycle i)
  | WriteRotation i => rotateInvocationTokenRequest (ot_Rotation i)
  | WriteVersion _ _ i => createVersionRequest (ov_Version i)
  | WriteRoute i => publishRouteRequest (op_Route i)
  end.

(** What the ledger answered, and the error the caller sees. *)
Definition perform (op : operation) (w : World) : World * (option CompletionResult * option error) :=
  match op with
  | WriteFunction i => let '(w, (r, e)) := CreateFunctionOperation None i w in (w, (fr_Completion r, e))
  | WriteLifecycle i => let '(w, (r, e)) := SetFunctionLifecycleOperation None i w in (w, (fr_Completion r, e))
  | WriteRotation i => let '(w, (r, e)) := RotateInvocationTokenOperation None i w in (w, (fr_Completion r, e))
  | WriteVersion f g i => let '(w, (r, e)) := CreateVersionOperation None f g i w in (w, (vr_Completion r, e))
  | WriteRoute i => let '(w, (r, e)) := PublishRouteOperation None i w in (w, (rr_Completion r, e))
  end.

Definition op_identifies (op : operation) : controlplane.State -> Outcome -> Prop :=
  match op with
  | WriteFunction _ => identifies_function ""
  | WriteLifecycle i => identifies_function (sf_FunctionID (ol_Lifecycle i))
  | WriteRotation i => identifies_function (rt_FunctionID (ot_Rotation i))
  | WriteVersion _ _ _ => identifies_version
  | WriteRoute _ => identifies_route
  end.

Definition op_relies (op : operation) : Prop :=
  match op with WriteVersion f g _ => Rely f /\ Rely g | _ => True end.

(** The same call again; the interference may differ. *)
Definition retry_of (op op' : operation) : Prop :=
  match op, op' with
  | WriteVersion _ _ i, WriteVersion _ _ i' => i = i'
  | WriteVersion _ _ _, _ | _, WriteVersion _ _ _ => False
  | _, _ => op = op'
  end.

Lemma op_identifies_kept op s s' o : rtc controlplane.atomic_step s s' -> controlplane.cp_inv s ->
  op_identifies op s o -> op_identifies op s' o.
Proof. destruct op; simpl; eauto using identifies_function_kept, identifies_version_kept, identifies_route_kept. Qed.

Lemma retry_of_same op op' : retry_of op op' ->
  op_key op' = op_key op /\ op_request op' = op_request op /\ op_identifies op' = op_identifies op.
Proof. destruct op, op'; simpl; naive_solver. Qed.

(** A record that answers the operation. *)
Definition answers (op : operation) (s : controlplane.State) (rec : Rec) : Prop :=
  oc_Status (rc_Outcome rec) = OutcomeFailed \/
  exists o, rc_Outcome rec = cloneOutcome o /\ oc_Status o = OutcomeSucceeded /\ op_identifies op s o.

Lemma applyOperation_retained {V} (zero : V) key request prepare w rec :
  ctl_inv (fst w) -> l_records (ctl_ledger (fst w)) !! makeOperationKey key = Some rec -> OperationKey_Validate key = Ok tt ->
  Request_Digest request = Ok (rc_Digest rec) ->
  applyOperation zero key request prepare w =
    (w, (Some (answered (cloneRecord rec)), zero,
         if oc_Status (rc_Outcome rec) == OutcomeFailed then Some (failureError (oc_Failure (rc_Outcome rec))) else None)).
Proof.
  intros Hinv Hr Hk Hd. unfold applyOperation.
  rewrite (lookupOperation_retained _ _ _ _ _ (cn_ledger _ Hinv) Hr Hk Hd), bool_decide_eq_true_2 by done. done.
Qed.

Lemma applyOperation_conflict {V} (zero : V) key request prepare w rec d :
  ctl_inv (fst w) -> l_records (ctl_ledger (fst w)) !! makeOperationKey key = Some rec -> OperationKey_Validate key = Ok tt ->
  Request_Digest request = Ok d -> d <> rc_Digest rec ->
  applyOperation zero key request prepare w = (w, (None, zero, Some reused_id)).
Proof.
  intros Hinv Hr Hk Hd Hne. unfold applyOperation.
  rewrite (lookupOperation_retained _ _ _ _ _ (cn_ledger _ Hinv) Hr Hk Hd), bool_decide_eq_false_2 by done. done.
Qed.

Lemma perform_retained op w rec request :
  ctl_inv (fst w) -> l_records (ctl_ledger (fst w)) !! makeOperationKey (op_key op) = Some rec ->
  OperationKey_Validate (op_key op) = Ok tt -> op_request op = Ok request -> Request_Digest request = Ok (rc_Digest rec) ->
  answers op (ctl_stores (fst w)) rec ->
  perform op w = (w, (Some (answered (cloneRecord rec)), replay_error (cloneRecord rec))).
Proof.
  intros Hinv Hr Hk Hreq Hd Hans.
  assert (cloneRecord rec = rec \/ oc_Status (rc_Outcome rec) = OutcomeFailed) as Hclone.
  { destruct Hans as [?|(o & Ho & _)]; [by right|left; by eapply cloneRecord_outcome]. }
  unfold replay_error. change (oc_Status (rc_Outcome (cloneRecord rec))) with (oc_Status (rc_Outcome rec)).
  change (oc_Failure (rc_Outcome (cloneRecord rec))) with (oc_Failure (rc_Outcome rec)).
  destruct op as [i|i|i|f g i|i]; simpl in Hreq, Hr, Hk;
    unfold perform, CreateFunctionOperation, SetFunctionLifecycleOperation, RotateInvocationTokenOperation, CreateVersionOperation,
      PublishRouteOperation, admitted; cbn [checkContext rbind]; rewrite Hreq;
    rewrite (applyOperation_retained _ _ _ _ _ _ Hinv Hr Hk Hd);
    (destruct Hans as [Hfail|(o & Ho & Hs & Hid)];
     [rewrite Hfail, bool_decide_eq_true_2 by done; done|]);
    rewrite (cloneRecord_outcome _ _ Ho) in *;
    (assert (oc_Status (rc_Outcome rec) = OutcomeSucceeded) as Hst by (by rewrite Ho));
    rewrite Hst; change (bool_decide (OutcomeSucceeded = OutcomeFailed)) with false; cbv iota beta.
  1-3: unfold function_result; destruct (functionOperationResult_replays _ _ _ zero_View _ Hinv Ho Hs Hid) as [view ->];
       unfold replay_error; by rewrite Hst.
  - change (cr_Disposition (answered rec)) with (replayDisposition rec). rewrite replayDisposition_not_applied.
    destruct (replayedVersionResult_replays _ _ _ Hinv Ho Hid) as (res & Hres & Hc). rewrite Hres.
    destruct Hid as [Hcred _]. rewrite Ho. cbn [cloneOutcome oc_CredentialIssued]. rewrite Hcred. by rewrite Hc.
  - change (cr_Disposition (answered rec)) with (replayDisposition rec). rewrite replayDisposition_not_applied.
    destruct (replayedRouteResult_replays _ _ _ Hinv Ho Hid) as (res & Hres & Hc). rewrite Hres.
    destruct Hid as [Hcred _]. rewrite Ho. cbn [cloneOutcome oc_CredentialIssued]. rewrite Hcred. by rewrite Hc.
Qed.

Lemma perform_conflict op w rec request d :
  ctl_inv (fst w) -> l_records (ctl_ledger (fst w)) !! makeOperationKey (op_key op) = Some rec ->
  OperationKey_Validate (op_key op) = Ok tt -> op_request op = Ok request -> Request_Digest request = Ok d -> d <> rc_Digest rec ->
  perform op w = (w, (None, Some reused_id)).
Proof.
  intros Hinv Hr Hk Hreq Hd Hne. destruct op as [i|i|i|f g i|i]; simpl in Hreq, Hr, Hk;
    unfold perform, CreateFunctionOperation, SetFunctionLifecycleOperation, RotateInvocationTokenOperation, CreateVersionOperation,
      PublishRouteOperation, admitted; cbn [checkContext rbind]; rewrite Hreq;
    by rewrite (applyOperation_conflict _ _ _ _ _ _ _ Hinv Hr Hk Hd Hne).
Qed.

(** What the first completion of an operation leaves behind. *)
Record fresh (op : operation) (w w1 : World) (res : CompletionResult) (err : option error) (rec : Rec) (request : Request) : Prop := {
  fs_record : cr_Record res = cloneRecord rec;
  fs_request : op_request op = Ok request;
  fs_digest : Request_Digest request = Ok (rc_Digest rec);
  fs_key : OperationKey_Validate (op_key op) = Ok tt;
  fs_retained : l_records (ctl_ledger (fst w1)) !! makeOperationKey (op_key op) = Some rec;
  fs_inv : ctl_inv (fst w1);
  fs_evolves : evolves (fst w) (fst w1);
  fs_answers : answers op (ctl_stores (fst w1)) rec;
  fs_failed : oc_Status (rc_Outcome rec) = OutcomeFailed -> ctl_stores (fst w1) = ctl_stores (fst w) /\
    exists e, err = Some e /\ oc_Failure (rc_Outcome rec) = Some {| fl_Code := problemCode e; fl_Message := safeProblemMessage e |};
  fs_succeeded : err = None -> oc_Status (rc_Outcome rec) = OutcomeSucceeded;
}.

Lemma stage_fresh {V} (zero : V) op request prepare w w1 res v err :
  faithful prepare (op_identifies op) -> ctl_inv (fst w) -> op_request op = Ok request ->
  applyOperation zero (op_key op) request prepare w = (w1, (Some res, v, err)) -> cr_Disposition res = CompletionApplied ->
  exists rec, fresh op w w1 res err rec request.
Proof.
  intros Hf Hinv Hreq Ha Hdisp. pose proof (applyOperation_moves zero (op_key op) request prepare _ w Hf Hinv) as [Hinv1 Hev].
  rewrite Ha in Hinv1, Hev. cbn [fst] in Hinv1, Hev. apply (applyOperation_ends _ _ _ _ _ _ _ _ _ _ Hf Hinv) in Ha.
  inversion Ha as [|r Hr Hd| |w' v' e rec Hs (Hn & Hk & Hl) Hd Hst Hcred Hfl|w' v' rec o (Hn & Hk & Hl) Hd Ho Hst Hid Hcur]; subst.
  - exfalso. simpl in Hdisp. pose proof (replayDisposition_not_applied (cloneRecord r)) as Hx. rewrite Hdisp in Hx. done.
  - exists rec. split; try done; [rewrite Hl; apply lookup_insert_eq|by left|]. intros _. eauto.
  - exists rec. split; try done; [rewrite Hl; apply lookup_insert_eq|right; eauto|rewrite Ho; cbn [cloneOutcome oc_Status]; by rewrite Hst|by rewrite Ho].
Qed.

Lemma fresh_later op w w1 w2 res rec request err :
  fresh op w w1 res None rec request -> moves (fst w1) (fst w2) -> fresh op w w2 res err rec request.
Proof.
  intros [H1 H2 H3 H4 H5 H6 H7 H8 H9 H10] Hm. destruct (Hm H6) as [Hinv Hev]. split; try done.
  - eapply lookup_weaken; [exact H5|apply (ev_records _ _ Hev)].
  - by etrans.
  - destruct H8 as [?|(o & Ho & Hs & Hid)]; [by left|]. right. exists o. split_and!; [done|done|].
    eapply op_identifies_kept; [apply (ev_stores _ _ Hev)|apply (cn_stores _ H6)|done].
  - intros Hf. rewrite (H10 eq_refl) in Hf. done.
  - intros _. by apply H10.
Qed.

Lemma functionOperationResult_completion c result view fallback r e res :
  functionOperationResult c result view fallback = (r, e) -> fr_Completion r = Some res -> result = res /\
  (cr_Disposition res = CompletionApplied -> e = None).
Proof.
  unfold functionOperationResult. cbv zeta.
  match goal with |- context [match ?x with Ok _ => _ | Err _ => _ end] => destruct x end; intros [= <- <-]; simpl; [|done].
  intros [= ->]. split; [done|]. by intros ->.
Qed.

(** A Function operation, from its stage to its result. *)
Ltac function_fresh op Hf :=
  match goal with Hinv : ctl_inv (fst ?w), Hreq : _ = Ok ?request, Hdisp : cr_Disposition _ = _, Hp : _ = (_, (Some _, _)) |- _ =>
    let Ha := fresh in let e := fresh in let result := fresh in
    destruct (applyOperation _ _ _ _ w) as [? [[result ?] e]] eqn:Ha; unfold function_result in Hp;
    destruct e as [e|]; [injection Hp as <- -> <-|destruct result as [result|]; [|done]];
    [|let Hr := fresh in let Hc := fresh in let He := fresh in
      destruct (functionOperationResult _ _ _ _) eqn:Hr; injection Hp as <- Hc <-;
      apply (functionOperationResult_completion _ _ _ _ _ _ _ Hr) in Hc as [-> He]; rewrite (He Hdisp)];
    let r := fresh in
    destruct (stage_fresh _ op _ _ _ _ _ _ _ Hf Hinv Hreq Ha Hdisp) as [r ?]; by exists r, request
  end.

Lemma perform_fresh op w w1 res err :
  ctl_inv (fst w) -> op_relies op -> perform op w = (w1, (Some res, err)) -> cr_Disposition res = CompletionApplied ->
  exists rec request, fresh op w w1 res err rec request.
Proof.
  intros Hinv Hrel Hp Hdisp. destruct (op_request op) as [request|e] eqn:Hreq.
  2:{ exfalso. destruct op; cbn [perform op_request] in Hreq, Hp;
        unfold CreateFunctionOperation, SetFunctionLifecycleOperation, RotateInvocationTokenOperation, CreateVersionOperation,
          PublishRouteOperation, admitted in Hp; cbn [checkContext rbind] in Hp; by rewrite Hreq in Hp. }
  destruct op as [i|i|i|f g i|i]; cbn [perform op_request] in Hreq, Hp;
    unfold CreateFunctionOperation, SetFunctionLifecycleOperation, RotateInvocationTokenOperation, CreateVersionOperation,
      PublishRouteOperation, admitted in Hp; cbn [checkContext rbind] in Hp; rewrite Hreq in Hp.
  - function_fresh (WriteFunction i) (prepare_create_function_faithful (of_Function i)).
  - function_fresh (WriteLifecycle i) (prepare_lifecycle_faithful (ol_Lifecycle i)).
  - function_fresh (WriteRotation i) (prepare_rotation_faithful (ot_Rotation i)).
  - pose proof (prepare_create_version_faithful (ov_Version i)) as Hf. destruct Hrel as [Hrf Hrg].
    destruct (applyOperation _ _ _ _ w) as [w2 [[result [prepared created]] e]] eqn:Ha.
    destruct e as [e|]; [injection Hp as <- -> <-;
      destruct (stage_fresh _ (WriteVersion f g i) _ _ _ _ _ _ _ Hf Hinv Hreq Ha Hdisp) as [rec Hfr]; by exists rec, request|].
    destruct result as [result|]; [|done]. destruct (_ != _) eqn:Hd.
    { destruct (replayedVersionResult _ _) as [replayed|e] eqn:Hrep; [|done]. injection Hp as <- Hc <-. exfalso.
      unfold replayedVersionResult in Hrep. ok_inv. subst replayed. simpl in Hc. injection Hc as ->.
      by rewrite Hdisp in Hd. }
    go_cases. destruct prepared as [prepared|]; [|done].
    pose proof (driveAdmission_Delivers g created prepared Hrg (f w2)) as Hm.
    destruct (driveAdmission g created prepared (f w2)) as [w3 [admission e]]. injection Hp as <- -> <-.
    destruct (stage_fresh _ (WriteVersion f g i) _ _ _ _ _ _ _ Hf Hinv Hreq Ha Hdisp) as [rec Hfr]. exists rec, request.
    eapply fresh_later; [exact Hfr|]. etrans; [apply Hrf|exact Hm].
  - pose proof (prepare_publish_faithful (op_Route i)) as Hf.
    destruct (applyOperation _ _ _ _ w) as [w2 [[result [route function]] e]] eqn:Ha.
    destruct e as [e|]; [injection Hp as <- -> <-;
      destruct (stage_fresh _ (WriteRoute i) _ _ _ _ _ _ _ Hf Hinv Hreq Ha Hdisp) as [rec Hfr]; by exists rec, request|].
    destruct result as [result|]; [|done]. destruct (_ != _) eqn:Hd.
    { destruct (replayedRouteResult _ _) as [replayed|e] eqn:Hrep; [|done]. injection Hp as <- Hc <-. exfalso.
      unfold replayedRouteResult in Hrep. ok_inv. subst replayed. simpl in Hc. injection Hc as ->.
      by rewrite Hdisp in Hd. }
    injection Hp as <- -> <-. destruct (stage_fresh _ (WriteRoute i) _ _ _ _ _ _ _ Hf Hinv Hreq Ha Hdisp) as [rec Hfr]. by exists rec, request.
Qed.

Lemma failureError_code e :
  let e' := failureError (Some {| fl_Code := problemCode e; fl_Message := safeProblemMessage e |}) in
  problemCode e' = problemCode e /\ safeProblemMessage e' = safeProblemMessage e.
Proof.
  split; [|done]. unfold failureError. cbn [fl_Code fl_Message]. unfold problemCode at 1. cbn [as_problem].
  unfold problemCode. destruct (as_problem e) as [[[code message] field]|]; [|done]. destruct (Known code) eqn:Hk; [by rewrite Hk|done].
Qed.

(** C28: A management operation takes effect once.  Once its outcome, success
    or failure, has been recorded, then whatever the controller and its other
    callers do afterwards, a retry of the same call returns the recorded
    outcome, with the recorded failure or the refusal to show a credential
    again, and changes nothing: neither the stores nor the ledger nor the
    state of any source, so no identifier, token or command position is used
    up.  A different request under the same key is refused as a conflict, also
    without effect.  A recorded failure changed no store and carries the code
    and message of the error that the first caller saw. *)
Theorem operation_exactly_once op w w1 w2 res err :
  ctl_inv (fst w) -> op_relies op -> perform op w = (w1, (Some res, err)) -> cr_Disposition res = CompletionApplied ->
  moves (fst w1) (fst w2) ->
  (forall op', retry_of op op' -> perform op' w2 = (w2, (Some (answered (cr_Record res)), replay_error (cr_Record res)))) /\
  (forall op' request d, op_key op' = op_key op -> op_request op' = Ok request -> Request_Digest request = Ok d ->
     d <> rc_Digest (cr_Record res) -> perform op' w2 = (w2, (None, Some reused_id))) /\
  (oc_Status (rc_Outcome (cr_Record res)) = OutcomeFailed ->
     ctl_stores (fst w1) = ctl_stores (fst w) /\
     exists e e', err = Some e /\ replay_error (cr_Record res) = Some e' /\
       problemCode e' = problemCode e /\ safeProblemMessage e' = safeProblemMessage e).
Proof.
  intros Hinv Hrel Hp Hdisp Hm. destruct (perform_fresh _ _ _ _ _ Hinv Hrel Hp Hdisp) as (rec & request & Hfr).
  destruct (Hm (fs_inv _ _ _ _ _ _ _ Hfr)) as [Hinv2 Hev2].
  assert (l_records (ctl_ledger (fst w2)) !! makeOperationKey (op_key op) = Some rec) as Hr2
    by (eapply lookup_weaken; [apply (fs_retained _ _ _ _ _ _ _ Hfr)|apply (ev_records _ _ Hev2)]).
  rewrite (fs_record _ _ _ _ _ _ _ Hfr). split_and!.
  - intros op' (Hkey & Hreq & Hid)%retry_of_same.
    apply perform_retained with request; rewrite ?Hkey, ?Hreq; try done; [apply Hfr..|].
    destruct (fs_answers _ _ _ _ _ _ _ Hfr) as [?|(o & Ho & Hs & Hi)]; [by left|]. right. exists o.
    rewrite Hid. split_and!; [done|done|]. eapply op_identifies_kept; [apply (ev_stores _ _ Hev2)|apply (cn_stores _ (fs_inv _ _ _ _ _ _ _ Hfr))|done].
  - intros op' request' d Hkey Hreq Hd Hne. eapply perform_conflict; rewrite ?Hkey; try done. apply Hfr.
  - intros Hfail. change (oc_Status (rc_Outcome rec) = OutcomeFailed) in Hfail.
    destruct (fs_failed _ _ _ _ _ _ _ Hfr Hfail) as (Hs & e & -> & Hfl). split; [done|].
    exists e, (failureError (oc_Failure (rc_Outcome rec))). split_and!; [done| |rewrite Hfl; apply failureError_code..].
    unfold replay_error. change (oc_Status (rc_Outcome (cloneRecord rec))) with (oc_Status (rc_Outcome rec)).
    by rewrite Hfail, bool_decide_eq_true_2.
Qed.

(** ** Every operation guarantees that the controller moves on *)
#[global] Instance admitted_Delivers {A} cancelled request (zero : A) k :
  (forall request, Delivers (k request)) -> Delivers (admitted cancelled request zero k).
Proof. intros Hk w. unfold admitted. destruct (rbind _ _); [apply Hk|done]. Qed.

Lemma function_result_Delivers key request prepare identifies fallback :
  faithful prepare identifies ->
  Delivers (fun w => let '(w, out) := applyOperation zero_View key request prepare w in function_result fallback w out).
Proof.
  intros Hf w. pose proof (applyOperation_moves zero_View key request prepare _ w Hf) as Hm.
  by destruct (applyOperation _ _ _ _ w) as [w1 [[r v] e]].
Qed.

#[global] Instance CreateFunctionOperation_Delivers cancelled input : Delivers (CreateFunctionOperation cancelled input).
Proof. apply admitted_Delivers. intros request. apply (function_result_Delivers _ _ _ _ _ (prepare_create_function_faithful _)). Qed.
#[global] Instance SetFunctionLifecycleOperation_Delivers cancelled input : Delivers (SetFunctionLifecycleOperation cancelled input).
Proof. apply admitted_Delivers. intros request. apply (function_result_Delivers _ _ _ _ _ (prepare_lifecycle_faithful _)). Qed.
#[global] Instance RotateInvocationTokenOperation_Delivers cancelled input : Delivers (RotateInvocationTokenOperation cancelled input).
Proof. apply admitted_Delivers. intros request. apply (function_result_Delivers _ _ _ _ _ (prepare_rotation_faithful _)). Qed.
#[global] Instance CreateVersionOperation_Delivers cancelled f g input :
  Rely f -> Rely g -> Delivers (CreateVersionOperation cancelled f g input).
Proof.
  intros Hf Hg. apply admitted_Delivers. intros request w.
  pose proof (applyOperation_moves (None, zero_Version) (ov_Operation input) request _ _ w (prepare_create_version_faithful (ov_Version input))) as Hm.
  destruct (applyOperation _ _ _ _ w) as [w1 [[r [prepared created]] [e|]]]; [done|]. destruct r as [r|]; [|done].
  destruct (_ != _); [done|]. destruct prepared as [prepared|]; [|done]. cbn [fst] in Hm. etrans; [exact Hm|]. etrans; [apply (Hf w1)|].
  pose proof (driveAdmission_Delivers g created prepared Hg (f w1)) as Hd. by destruct (driveAdmission _ _ _ _) as [w2 [admission e]].
Qed.
#[global] Instance PublishRouteOperation_Delivers cancelled input : Delivers (PublishRouteOperation cancelled input).
Proof.
  apply admitted_Delivers. intros request w.
  pose proof (applyOperation_moves (zero_Route, zero_Function) (op_Operation input) request _ _ w (prepare_publish_faithful (op_Route input))) as Hm.
  by destruct (applyOperation _ _ _ _ w) as [w1 [[r [route function]] e]].
Qed.

Lemma perform_moves op w : op_relies op -> moves (fst w) (fst (fst (perform op w))).
Proof.
  destruct op as [i|i|i|f g i|i]; cbn [op_relies perform].
  - intros _. pose proof (CreateFunctionOperation_Delivers None i w). by destruct (CreateFunctionOperation _ _ _) as [? []].
  - intros _. pose proof (SetFunctionLifecycleOperation_Delivers None i w). by destruct (SetFunctionLifecycleOperation _ _ _) as [? []].
  - intros _. pose proof (RotateInvocationTokenOperation_Delivers None i w). by destruct (RotateInvocationTokenOperation _ _ _) as [? []].
  - intros [Hf Hg]. pose proof (CreateVersionOperation_Delivers None f g i Hf Hg w). by destruct (CreateVersionOperation _ _ _ _ _) as [? []].
  - intros _. pose proof (PublishRouteOperation_Delivers None i w). by destruct (PublishRouteOperation _ _ _) as [? []].
Qed.

(** The five preparations. *)
Inductive management : forall V : Type, V -> M World (preparedOperation V) -> Prop :=
| manages_create input : management _ zero_View (prepare_create_function input)
| manages_lifecycle input : management _ zero_View (prepare_lifecycle input)
| manages_rotation input : management _ zero_View (prepare_rotation input)
| manages_version input : management _ (None, zero_Version) (prepare_create_version input)
| manages_route input : management _ (zero_Route, zero_Function) (prepare_publish input).

Lemma management_faithful V zero prepare : management V zero prepare -> exists identifies, faithful prepare identifies.
Proof.
  intros [i|i|i|i|i]; eauto using prepare_create_function_faithful, prepare_lifecycle_faithful, prepare_rotation_faithful,
    prepare_create_version_faithful, prepare_publish_faithful.
Qed.

(** A completion that the ledger has room for runs its callback. *)
Lemma complete_admits {W} c (apply : option (M W unit)) l w d : admissible c l d ->
  complete c apply (l, w) =
    match run_callback apply w with
    | (w', Ok _) => ((set_maps l (<[makeOperationKey (cm_Key c) := new_record c d]> (l_records l)) (l_tombstones l), w'),
                     Ok {| cr_Disposition := CompletionApplied; cr_Record := cloneRecord (new_record c d) |})
    | (w', Err e) => ((l, w'), Err e)
    end.
Proof.
  intros [Hk Ht Hd Hr Hv Hroom]. unfold complete, sbind, slift, sget, sput, sret. cbn [fst snd].
  rewrite Hk, Ht, Hd, Hr, Hv. rewrite bool_decide_eq_false_2 by (by intros [? ?]). cbn [fail_if].
  assert ((_ >=? l_maxOperations l) = false) as -> by (rewrite Z.geb_leb; apply Z.leb_gt; exact Hroom). cbn [fail_if].
  unfold run_callback. destruct apply as [callback|]; [|done]. by destruct (callback w) as [w' [[]|e]].
Qed.

Lemma admissible_lookup c l d : admissible c l d -> lookupOperation l (cm_Key c) (cm_Request c) = Ok None.
Proof.
  intros [Hk Ht Hd Hr Hv Hroom]. unfold lookupOperation, Lookup. rewrite Hk, Ht, Hr. rewrite bool_decide_eq_false_2 by (by intros [? ?]). by vm_compute.
Qed.

(** The failure of an operation that the ledger has room for can be recorded. *)
Lemma admissible_failure c l d code message : admissible c l d -> Failure_validate (Some {| fl_Code := code; fl_Message := message |}) = Ok tt ->
  admissible (failed_completion c code message) l d.
Proof.
  intros [Hk Ht Hd Hr Hv Hroom] Hf. split; try done. unfold validateForInsert in Hv |- *. ok_inv. cbn [failed_completion cm_Outcome cm_CompletedAt cm_AppliedIndex].
  assert (Outcome_validate (cm_Outcome (failed_completion c code message)) = Ok tt) as Ho.
  { unfold Outcome_validate, failed_completion. cbn [cm_Outcome oc_AffectedResources oc_CredentialIssued oc_Status oc_Failure]. rewrite Hf. by vm_compute. }
  cbn [failed_completion cm_Outcome] in Ho. rewrite Ho. cbn [rbind].
  match goal with E : validateUTC _ _ = Ok _ |- _ => rewrite E end. cbn [rbind]. unfold fail_if. case_match; [go_cases; done|done].
Qed.

(** A terminal refusal of the stores is recorded. *)
Lemma applyOperation_records {V} (zero : V) key request prepare identifies w w1 p s v1 e d :
  faithful prepare identifies -> ctl_inv (fst w) -> prepare w = (w1, Ok p) -> admissible (completion_of key request p) (ctl_ledger (fst w)) d ->
  po_apply p (ctl_stores (fst w), po_captured p) = ((s, v1), Err e) -> terminalOperationFailure (problemCode e) = true ->
  Failure_validate (Some {| fl_Code := problemCode e; fl_Message := safeProblemMessage e |}) = Ok tt ->
  let rec := new_record (failed_completion (completion_of key request p) (problemCode e) (safeProblemMessage e)) d in
  exists w', applyOperation zero key request prepare w = (w', (Some {| cr_Disposition := CompletionApplied; cr_Record := cloneRecord rec |}, v1, Some e)) /\
    l_records (ctl_ledger (fst w')) = <[makeOperationKey key := rec]> (l_records (ctl_ledger (fst w))).
Proof.
  intros Hf Hinv Hp Had Ha Ht Hfail rec. destruct (Quiet_stores prepare (fa_quiet _ _ Hf) _ _ _ Hp) as [Hs1 Hl1].
  unfold applyOperation. pose proof (admissible_lookup _ _ _ Had) as Hlk. cbn [completion_of cm_Key cm_Request] in Hlk. rewrite Hlk, Hp.
  unfold complete_after, CompleteAfter. rewrite Hs1, Hl1, (complete_admits _ _ _ _ d Had). cbn [run_callback]. rewrite Ha.
  unfold recordOperationFailure. rewrite Ht. cbn [negb fst snd]. unfold Complete. rewrite (complete_admits _ None _ tt d).
  - cbn [run_callback]. eexists. split; [done|]. done.
  - by apply admissible_failure.
Qed.

(** C29: A management write is all or nothing, and its record tells the truth.
    If it returns an error, the stores are as before; either nothing was
    recorded, or the failure is the record of the operation's key.  An error
    before the write is attempted, of the lookup or the preparation, is not
    recorded.  But when the preparation succeeded, the ledger has room for the
    operation and the stores refuse it with a terminal error (whose message the
    ledger accepts), then this error is returned and the ledger holds a failed
    record of it under the key, with its code and message and the digest of the
    request.  If the write succeeds, the outcome is recorded and, when this call
    applied it, every resource that the record lists is in the stores with
    exactly the listed revision; when the call was a replay, nothing changed. *)
Theorem operation_all_or_nothing V (zero : V) prepare key request w w' result v err :
  ctl_inv (fst w) -> management V zero prepare ->
  applyOperation zero key request prepare w = (w', (result, v, err)) ->
  ctl_inv (fst w') /\
  match err with
  | Some e => ctl_stores (fst w') = ctl_stores (fst w) /\
      (result = None -> ctl_ledger (fst w') = ctl_ledger (fst w)) /\
      (forall res, result = Some res -> oc_Status (rc_Outcome (cr_Record res)) = OutcomeFailed /\
         exists rec, l_records (ctl_ledger (fst w')) !! makeOperationKey key = Some rec /\ cr_Record res = cloneRecord rec)
  | None => exists res rec, result = Some res /\
      l_records (ctl_ledger (fst w')) !! makeOperationKey key = Some rec /\ cr_Record res = cloneRecord rec /\
      (cr_Disposition res <> CompletionApplied -> w' = w) /\
      (cr_Disposition res = CompletionApplied -> oc_Status (rc_Outcome (cr_Record res)) = OutcomeSucceeded /\
         forall r, r ∈ oc_AffectedResources (rc_Outcome (cr_Record res)) -> current (ctl_stores (fst w')) r)
  end /\
  (forall e, lookupOperation (ctl_ledger (fst w)) key request = Err e \/
             (lookupOperation (ctl_ledger (fst w)) key request = Ok None /\ exists w1, prepare w = (w1, Err e)) ->
     err = Some e /\ result = None /\ ctl_ledger (fst w') = ctl_ledger (fst w)) /\
  (forall w1 p s v1 e d, prepare w = (w1, Ok p) -> admissible (completion_of key request p) (ctl_ledger (fst w)) d ->
     po_apply p (ctl_stores (fst w), po_captured p) = ((s, v1), Err e) -> terminalOperationFailure (problemCode e) = true ->
     Failure_validate (Some {| fl_Code := problemCode e; fl_Message := safeProblemMessage e |}) = Ok tt ->
     err = Some e /\ exists res rec, result = Some res /\ cr_Disposition res = CompletionApplied /\ cr_Record res = cloneRecord rec /\
       l_records (ctl_ledger (fst w')) !! makeOperationKey key = Some rec /\ rc_Digest rec = d /\
       oc_Status (rc_Outcome rec) = OutcomeFailed /\ oc_Failure (rc_Outcome rec) = Some {| fl_Code := problemCode e; fl_Message := safeProblemMessage e |}).
Proof.
  intros Hinv (identifies & Hf)%management_faithful Ha.
  pose proof (applyOperation_moves zero key request prepare _ w Hf Hinv) as [Hinv1 _]. rewrite Ha in Hinv1. split; [done|]. split_and!.
  2:{ intros e. revert Ha. unfold applyOperation. intros Ha [Hl|[Hl [w1 Hp]]]; rewrite Hl in Ha; [by injection Ha as <- <- <- <-|].
      rewrite Hp in Ha. injection Ha as <- <- <- <-. split_and!; [done|done|apply (Quiet_stores prepare (fa_quiet _ _ Hf) _ _ _ Hp)]. }
  2:{ intros w1 p s v1 e d Hp Had Hap Ht Hfail. destruct (applyOperation_records zero key request prepare _ w w1 p s v1 e d Hf Hinv Hp Had Hap Ht Hfail) as (w2 & Hrun & Hl).
      rewrite Ha in Hrun. injection Hrun as -> -> -> ->. split; [done|]. eexists _, _. split_and!; [done|done|done|rewrite Hl; apply lookup_insert_eq|done..]. }
  apply (applyOperation_ends _ _ _ _ _ _ _ _ _ _ Hf Hinv) in Ha.
  destruct Ha as [e|r Hr Hd|w' v e Hs Hl|w' v e rec Hs (Hn & Hk & Hl) Hd Hst Hcred Hfl|w' v rec o (Hn & Hk & Hl) Hd Ho Hst Hid Hcur].
  - by split.
  - destruct (oc_Status (rc_Outcome r) == OutcomeFailed) eqn:Hst; go_cases.
    + split; [done|]. split; [done|]. intros res [= <-]. split; [done|]. by exists r.
    + exists (answered (cloneRecord r)), r. split_and!; try done. intros Hx.
      pose proof (replayDisposition_not_applied (cloneRecord r)) as Hy. unfold answered in Hx. cbn [cr_Disposition] in Hx. by rewrite Hx in Hy.
  - by split_and!.
  - split; [done|]. split; [done|]. intros res [= <-]. split; [done|]. exists rec. rewrite Hl. split; [apply lookup_insert_eq|done].
  - eexists _, rec. split_and!; [done|rewrite Hl; apply lookup_insert_eq|done|done|]. intros _. cbn [cr_Record].
    rewrite (cloneRecord_outcome _ _ Ho), Ho. split; [done|]. intros r. cbn [cloneOutcome oc_AffectedResources].
    rewrite elem_of_SortFunc. apply Hcur.
Qed.

End operations.

(** ** Witnesses *)
#[local] Instance ex_jcs : JCS := fun document => Ok document.
#[local] Instance ex_strict : StrictJSON := fun _ _ => Ok tt.

(** Sources that count: every call uses up one number. *)
Definition ex_counted {A} (f : Z -> result A) : M Z A := fun n => (n + 1, f (n + 1)).
#[local] Instance ex_sources : Sources Z unit unit := {|
  Commands_Next := ex_counted (fun n => Ok {| mt_AppliedIndex := n; mt_At := ex_at n |});
  IDs_NewID := fun prefix => ex_counted (fun n => Ok (prefix +:+ "-" +:+ hex_EncodeToString [n]));
  Salts_NewSalt := ex_counted (fun n => Ok (json.str_of (replicate 16 n)));
  Tokens_NewToken := ex_counted (fun n => Ok ("token-" +:+ hex_EncodeToString [n]));
  Artifacts_Put := fun digest _ => ex_counted (fun n => Ok {| in_Digest := digest; in_Size := n; in_Created := true |});
  Artifacts_OpenVerified := fun digest => ex_counted (fun n => Ok (Some tt, {| in_Digest := digest; in_Size := n; in_Created := false |}));
  File_Close := fun _ => sret tt;
  Validator_Validate := fun _ _ => sthrow (PlainError "validator is not available");
|}.

Definition ex_create (id name : string) : CreateFunctionOperationInput :=
  {| of_Operation := {| ok_Principal := "admin"; ok_Namespace := DefaultNamespace; ok_OperationID := id |};
     of_Function := {| ci_Name := name; ci_Labels := None; ci_AuthPolicy := AuthPolicyToken |} |}.
Definition ex_op : operation (E := Z) := WriteFunction (ex_create "op-1" "hello").

Definition ex_w : World (E := Z) := (localcontroller.New, 0).
Definition ex_w1 : World (E := Z) := fst (perform ex_op ex_w).
Definition ex_completed : option CompletionResult := fst (snd (perform ex_op ex_w)).
(** Another caller creates another function. *)
Definition ex_w2 : World (E := Z) := fst (CreateFunction None (of_Function (ex_create "op-2" "world")) ex_w1).

Definition ex_result : CompletionResult :=
  match ex_completed with
  | Some res => res
  | None => {| cr_Disposition := ""; cr_Record := new_record (ledger.ex_completion "/") "" |}
  end.

Lemma ex_performed : perform ex_op ex_w = (ex_w1, (Some ex_result, None)).
Proof. by vm_compute. Qed.
Lemma ex_moved : moves (fst ex_w1) (fst ex_w2).
Proof. apply (guarantees (m := CreateFunction None _)). Qed.

(** The credential cannot be shown again. *)
Lemma operation_exactly_once_witness :
  cr_Disposition ex_result = CompletionApplied /\
  perform ex_op ex_w2 = (ex_w2, (Some (answered (cr_Record ex_result)), replay_error (cr_Record ex_result))) /\
  cr_Disposition (answered (cr_Record ex_result)) = CompletionCredentialNotReplayable.
Proof.
  split; [by vm_compute|]. split; [|by vm_compute].
  refine (proj1 (operation_exactly_once ex_op ex_w ex_w1 ex_w2 ex_result None New_inv I ex_performed _ ex_moved) ex_op _);
    [by vm_compute|done].
Defined.

(** A second create under the name of the first is refused; its failure is
    recorded, and the stores keep the first function only. *)
Definition ex_again : CreateFunctionOperationInput := ex_create "op-2" "hello".
Definition ex_request_again : Request :=
  match createFunctionRequest (of_Function ex_again) with Ok request => request | Err _ => ledger.ex_request "/" end.
Definition ex_refused := applyOperation zero_View (of_Operation ex_again) ex_request_again (prepare_create_function (of_Function ex_again)) ex_w1.

Definition ex_prepared : option (preparedOperation FunctionView) :=
  match snd (prepare_create_function (of_Function ex_again) ex_w1) with Ok p => Some p | Err _ => None end.
Definition ex_failure (r : result unit) : option Failure :=
  match r with Err e => Some {| fl_Code := problemCode e; fl_Message := safeProblemMessage e |} | Ok _ => None end.
Definition ex_conflict : Failure := {| fl_Code := CodeConflict; fl_Message := "function name already exists" |}.

Lemma ex_again_admissible p : ex_prepared = Some p ->
  admissible (completion_of (of_Operation ex_again) ex_request_again p) (ctl_ledger (fst ex_w1)) (catalog.ok_or ""%string (Request_Digest ex_request_again)).
Proof.
  intros Hp. split; try (vm_compute; exact eq_refl).
  assert (match ex_prepared with Some p => validateForInsert (completion_of (of_Operation ex_again) ex_request_again p) | None => Ok tt end = Ok tt) as Hv
    by (vm_compute; exact eq_refl). by rewrite Hp in Hv.
Qed.

Lemma operation_all_or_nothing_witness :
  ctl_stores (fst (fst ex_refused)) = ctl_stores (fst ex_w1) /\
  exists rec, l_records (ctl_ledger (fst (fst ex_refused))) !! makeOperationKey (of_Operation ex_again) = Some rec /\
    oc_Status (rc_Outcome rec) = OutcomeFailed /\ oc_Failure (rc_Outcome rec) = Some ex_conflict.
Proof.
  assert (ctl_inv (fst ex_w1)) as Hinv by exact (proj1 (perform_moves ex_op ex_w I New_inv)).
  pose proof (operation_all_or_nothing _ zero_View (prepare_create_function (of_Function ex_again)) (of_Operation ex_again) ex_request_again
    ex_w1 (fst ex_refused) (fst (fst (snd ex_refused))) (snd (fst (snd ex_refused))) (snd (snd ex_refused)) Hinv
    (manages_create (of_Function ex_again))) as (_ & H & _ & Hrec); [by vm_compute|].
  assert (problemCode <$> snd (snd ex_refused) = Some CodeConflict) as Hcode by (vm_compute; exact eq_refl).
  split; [destruct (snd (snd ex_refused)) as [e|]; [exact (proj1 H)|discriminate Hcode]|]. clear H Hcode.
  assert (match ex_prepared with Some p => ex_failure (snd (po_apply _ p (ctl_stores (fst ex_w1), po_captured _ p))) | None => None end = Some ex_conflict) as Hfail
    by (vm_compute; exact eq_refl).
  pose proof ex_again_admissible as Had. unfold ex_prepared in Hfail, Had.
  destruct (prepare_create_function (of_Function ex_again) ex_w1) as [w1 [p|err]] eqn:Hp; [|discriminate Hfail]. cbn [snd] in Hfail, Had.
  destruct (po_apply _ p (ctl_stores (fst ex_w1), po_captured _ p)) as [[st v1] [u|e]] eqn:Ha; [discriminate Hfail|]. injection Hfail as Hcode Hmsg.
  destruct (Hrec w1 p st v1 e _ eq_refl (Had p eq_refl) Ha) as (_ & res & rec & _ & _ & _ & Hl & _ & Hs & Hf).
  - rewrite Hcode. vm_compute. exact eq_refl.
  - rewrite Hcode, Hmsg. vm_compute. exact eq_refl.
  - exists rec. split; [exact Hl|]. split; [exact Hs|]. rewrite Hf, Hcode, Hmsg. exact eq_refl.
Defined.

End operations.
