(* ===== verification/LocalHistory.v ===== *)
(** * Package [internal/localcontroller]: histories of calls

    Any sequence of calls to the controller's methods, from any callers.  The
    methods that release the lock take what other callers do meanwhile as a
    function on the world, which may itself be a history. *)
From stdpp Require Import base gmap strings list.
From S2P Require Import Prelude Problem Digest Json Model Catalog ValidatorProtocol Release RouteStore.
From S2P Require Import ServingAuth Scheduler Net AssignmentStore Ledger ControlPlane LocalController LocalOperations.
Import problem digest model catalog protocol release routestore ledger localcontroller operations.

#[local] Open Scope Z_scope.

Module history.

Section history.
Context `{HJ : JCS} `{HS : StrictJSON} {E File Reader : Type} `{HE : !Sources E File Reader}.
#[local] Abbreviation World := (localcontroller.World (E := E)).

(** ** Calls *)
Inductive call :=
| CallPutArtifact (cancelled : option error) (expected : string) (source : Reader)
| CallCreateFunction (cancelled : option error) (input : CreateFunctionInput)
| CallRotateInvocationToken (cancelled : option error) (input : RotateInvocationTokenInput)
| CallSetFunctionLifecycle (cancelled : option error) (input : SetFunctionLifecycleInput)
| CallCreateVersion (cancelled : option error) (first second validating : World -> World) (input : CreateVersionInput)
| CallPublishRoute (cancelled : option error) (meanwhile : World -> World) (input : PublishRouteInput)
| CallCommitAssignment (cancelled : option error) (meanwhile : World -> World) (input : CommitAssignmentInput)
| CallCancelAssignment (cancelled : option error) (meanwhile : World -> World) (input : CancelAssignmentInput)
| CallResumePendingValidation (cancelled : option error) (validating : World -> World) (polled : Z -> option error) (limit : Z)
| CallOperation (op : operation (E := E)).

Definition run_call (c : call) (w : World) : World :=
  match c with
  | CallPutArtifact cancelled expected source => fst (PutArtifact cancelled expected source w)
  | CallCreateFunction cancelled input => fst (CreateFunction cancelled input w)
  | CallRotateInvocationToken cancelled input => fst (RotateInvocationToken cancelled input w)
  | CallSetFunctionLifecycle cancelled input => fst (SetFunctionLifecycle cancelled input w)
  | CallCreateVersion cancelled first second validating input => fst (CreateVersion cancelled first second validating input w)
  | CallPublishRoute cancelled meanwhile input => fst (PublishRoute cancelled meanwhile input w)
  | CallCommitAssignment cancelled meanwhile input => fst (CommitAssignment cancelled meanwhile input w)
  | CallCancelAssignment cancelled meanwhile input => fst (CancelAssignment cancelled meanwhile input w)
  | CallResumePendingValidation cancelled validating polled limit => fst (ResumePendingValidation cancelled validating polled limit w)
  | CallOperation op => fst (perform op w)
  end.
Definition run_calls (cs : list call) (w : World) : World := fold_left (fun w c => run_call c w) cs w.

(** The other callers keep the controller's guarantee. *)
Definition call_relies (c : call) : Prop :=
  match c with
  | CallCreateVersion _ f g h _ => Rely f /\ Rely g /\ Rely h
  | CallPublishRoute _ f _ | CallCommitAssignment _ f _ | CallCancelAssignment _ f _ | CallResumePendingValidation _ f _ _ => Rely f
  | CallOperation op => op_relies op
  | _ => True
  end.

Lemma run_call_moves c w : call_relies c -> moves (fst w) (fst (run_call c w)).
Proof.
  destruct c; cbn [call_relies run_call]; intros Hc.
  - apply (PutArtifact_Guarantees _ _ _ w).
  - apply (CreateFunction_Guarantees _ _ w).
  - apply (RotateInvocationToken_Guarantees _ _ w).
  - apply (SetFunctionLifecycle_Guarantees _ _ w).
  - apply (CreateVersion_Delivers _ _ _ _ _ (proj1 Hc) (proj1 (proj2 Hc)) (proj2 (proj2 Hc)) w).
  - apply (PublishRoute_Guarantees _ _ _ Hc w).
  - apply (CommitAssignment_Guarantees _ _ _ Hc w).
  - apply (CancelAssignment_Guarantees _ _ _ Hc w).
  - by apply ResumePendingValidation_moves.
  - by apply perform_moves.
Qed.

#[global] Instance run_calls_Rely cs : Forall call_relies cs -> Rely (run_calls cs).
Proof.
  unfold run_calls. induction 1 as [|c cs Hc Hcs IH]; intros w; simpl; [done|].
  etrans; [by apply run_call_moves|apply IH].
Qed.

(** ** Listings *)
Lemma triggers_by_function_lookup l fid :
  NoDup (tr_FunctionID <$> l) -> forall t, triggers_by_function l !! fid = Some t <-> t ∈ l /\ tr_FunctionID t = fid.
Proof.
  unfold triggers_by_function. induction l as [|x l IH] using rev_ind; intros Hnd t; [split; [done|by intros [?%not_elem_of_nil ?]]|].
  rewrite fmap_app in Hnd. apply NoDup_app in Hnd as (Hnd & Hx & _). rewrite foldl_snoc, lookup_insert, elem_of_app, list_elem_of_singleton.
  case_decide as Hid; [|rewrite (IH Hnd t); naive_solver]. split; [intros [= <-]; auto|]. intros [[Ht| ->] E']; [|done].
  exfalso. apply (Hx (tr_FunctionID t)); [by apply list_elem_of_fmap_2|]. simpl. rewrite E', <-Hid. set_solver.
Qed.

Lemma snapshot_function c f : catalog_inv c -> f ∈ snap_Functions (catalog.Snapshot c) -> functionsByID c !! fn_ID f = Some f.
Proof.
  intros Hc Hf. cbn [catalog.Snapshot snapshot_in snap_Functions] in Hf. apply elem_of_SortFunc, list_elem_of_fmap in Hf as ([id f'] & -> & Hf).
  apply elem_of_map_to_list in Hf. simpl. by rewrite (fo_id _ _ (ci_function _ Hc _ _ Hf)).
Qed.

Lemma snapshot_trigger c f : catalog_inv c -> f ∈ snap_Functions (catalog.Snapshot c) ->
  tr_FunctionID (default zero_HTTPTrigger (triggersByID c !! str_get (triggerIDByFunc c) (fn_ID f))) = fn_ID f.
Proof.
  intros Hc Hf%snapshot_function; [|done]. destruct (proj1 (ci_has_trigger _ Hc (fn_ID f))) as [tid Htid]; [eauto|].
  destruct (proj1 (ci_trigger _ Hc _ _) Htid) as (t & Ht & Hok). unfold str_get. rewrite Htid. simpl. rewrite Ht. apply Hok.
Qed.

Lemma snapshot_nodup c : catalog_inv c -> NoDup (fn_ID <$> snap_Functions (catalog.Snapshot c)).
Proof.
  intros Hc. cbn [catalog.Snapshot snapshot_in snap_Functions]. eapply NoDup_Permutation_proper; [apply fmap_Permutation, SortFunc_Permutation|].
  assert (fn_ID <$> map snd (map_to_list (functionsByID c)) = (map_to_list (functionsByID c)).*1) as ->; [|apply NoDup_fst_map_to_list].
  change (map snd ?l) with (snd <$> l). rewrite <-list_fmap_compose. apply list_fmap_ext. intros i [id f] Hf%list_elem_of_lookup_2%elem_of_map_to_list.
  simpl. apply (fo_id _ _ (ci_function _ Hc _ _ Hf)).
Qed.

(** Every Function is listed with its own trigger. *)
Lemma ListFunctions_total c : ctl_inv c ->
  exists views, ListFunctions None c = Ok views /\
    vw_Function <$> views = snap_Functions (catalog.Snapshot (ctl_catalog c)) /\
    Forall (fun view => tr_FunctionID (vw_Trigger view) = fn_ID (vw_Function view) /\ vw_InvocationToken view = ""%string) views.
Proof.
  intros Hc. pose proof (si_catalog _ (controlplane.cp_stores_inv _ (cn_stores _ Hc))) as Hcat. fold (ctl_catalog c) in Hcat.
  set (cat := ctl_catalog c) in *. set (functions := snap_Functions (catalog.Snapshot cat)).
  set (trigger := fun function => default zero_HTTPTrigger (triggersByID cat !! str_get (triggerIDByFunc cat) (fn_ID function))).
  assert (forall f, f ∈ functions -> tr_FunctionID (trigger f) = fn_ID f) as Htr.
  { intros f Hf. by apply snapshot_trigger. }
  assert (tr_FunctionID <$> snap_Triggers (catalog.Snapshot cat) = fn_ID <$> functions) as Hids.
  { change (snap_Triggers (catalog.Snapshot cat)) with (trigger <$> functions). rewrite <-list_fmap_compose.
    apply list_fmap_ext. intros i f Hf%list_elem_of_lookup_2. by apply Htr. }
  exists (map (fun f => {| vw_Function := f; vw_Trigger := trigger f; vw_InvocationToken := "" |}) functions). split_and!.
  - unfold ListFunctions. cbn [checkContext rbind]. fold cat. apply map_result_map. intros f Hf.
    assert (triggers_by_function (snap_Triggers (catalog.Snapshot cat)) !! fn_ID f = Some (trigger f)) as ->; [|done].
    apply triggers_by_function_lookup; [rewrite Hids; by apply snapshot_nodup|]. split; [|by apply Htr].
    change (snap_Triggers (catalog.Snapshot cat)) with (trigger <$> functions). by apply list_elem_of_fmap_2.
  - change (vw_Function <$> ((fun f => {| vw_Function := f; vw_Trigger := trigger f; vw_InvocationToken := "" |}) <$> functions) = functions).
    rewrite <-list_fmap_compose. apply list_fmap_id.
  - apply Forall_fmap, Forall_forall. intros f Hf. split; [by apply Htr|done].
Qed.

(** ** What the stores keep *)
Lemma run_op_deployment op s vid d : release_inv s -> deployments s !! vid = Some d -> deployments (run_op op s) !! vid = Some d.
Proof.
  intros Hs Hd. destruct (run_op_cases op s) as [->|[(fs & c & w & _ & Hch & Hc)|[(c & w & _ & Hc)|(c & w & od & _ & Hc)]]]; [done|..].
  - by apply CreateVersion_commit_Ok in Hc as (_ & _ & _ & ->).
  - by apply StartValidation_Ok in Hc as (w0 & _ & _ & _ & _ & _ & ->).
  - apply CompleteValidation_Ok in Hc as (w0 & Hcp & _ & -> & Hcase). unfold completed. cbn [deployments]. destruct od as [d'|]; [|done].
    pose proof (cp_lookup _ _ _ Hcp) as Hw. assert (v_VersionID w = v_VersionID w0) as Hvid.
    { destruct (rp_Valid _); [by destruct Hcase as (? & _ & _ & -> & _)|by destruct Hcase as [_ ->]]. }
    rewrite Hvid, (vo_vid _ _ (ri_version _ Hs _ _ Hw)). rewrite lookup_insert_ne; [done|]. intros <-.
    destruct (proj1 (ri_ready _ Hs _) (ex_intro _ d Hd)) as (v & Hv & Hst). rewrite Hw in Hv. injection Hv as <-. by rewrite (cp_state _ _ _ Hcp) in Hst.
Qed.

Lemma record_evolves_trans r1 r2 r3 : assignment.record_evolves r1 r2 -> assignment.record_evolves r2 r3 -> assignment.record_evolves r1 r3.
Proof. intros [r|r c Hst] H2; [done|]. inversion H2; subst; [by constructor|done]. Qed.

(** Versions keep their immutable fields, Deployments are unchanged, and an
    Assignment record is unchanged or was cancelled once. *)
Record stores_keep (s s' : controlplane.State) : Prop := {
  sk_versions : forall vid v, versions (st_releases (controlplane.cp_stores s)) !! vid = Some v ->
    exists v', versions (st_releases (controlplane.cp_stores s')) !! vid = Some v' /\ same_version v v';
  sk_deployments : forall vid d, deployments (st_releases (controlplane.cp_stores s)) !! vid = Some d ->
    deployments (st_releases (controlplane.cp_stores s')) !! vid = Some d;
  sk_assignments : forall id r, assignment.records (controlplane.cp_assignments s) !! id = Some r ->
    exists r', assignment.records (controlplane.cp_assignments s') !! id = Some r' /\ assignment.record_evolves r r';
}.
#[local] Instance stores_keep_preorder : PreOrder stores_keep.
Proof.
  split.
  - intros s. split; [intros vid v Hv; exists v; split; [done|apply same_version_refl]|done|intros id r Hr; exists r; split; [done|constructor]].
  - intros s1 s2 s3 [V1 D1 A1] [V2 D2 A2]. split.
    + intros vid v (v2 & Hv2 & E2)%V1. destruct (V2 _ _ Hv2) as (v3 & Hv3 & E3). exists v3. split; [done|by eapply same_version_trans].
    + intros vid d Hd. by apply D2, D1.
    + intros id r (r2 & Hr2 & E2)%A1. destruct (A2 _ _ Hr2) as (r3 & Hr3 & E3). exists r3. split; [done|by eapply record_evolves_trans].
Qed.

Lemma atomic_releases s s' : controlplane.atomic_step s s' ->
  st_releases (controlplane.cp_stores s') = st_releases (controlplane.cp_stores s) \/
  exists o, st_releases (controlplane.cp_stores s') = run_op o (st_releases (controlplane.cp_stores s)).
Proof.
  intros [o s0|command s0]; [|right; by exists (OpCreateVersion (st_catalog (controlplane.cp_stores s0)) command)].
  destruct o as [c|c|c|c|c|c|c|c]; try (by left); [right; by exists (OpStartValidation c)|right; by exists (OpCompleteValidation c)|left]. cbn [controlplane.run controlplane.cp_stores].
  destruct (Publish c (controlplane.cp_stores s0)) as [x [[rt f]|e]] eqn:Hp; cbn [fst]; [|by rewrite (Publish_Atomic _ _ _ _ Hp)]. by apply Publish_Ok in Hp as (f0 & _ & _ & _ & ->).
Qed.
Lemma atomic_assignments s s' : controlplane.atomic_step s s' ->
  controlplane.cp_assignments s' = controlplane.cp_assignments s \/
  exists o, controlplane.cp_assignments s' = assignment.assignment_step (controlplane.cp_assignments s) o.
Proof.
  intros [o s0|command s0]; [|by left]. destruct o as [c|c|c|c|c|c|c|c]; try (by left).
  - right. by exists (assignment.OpInstall (controlplane.cp_stores s0) c).
  - right. by exists (assignment.OpCancel c).
Qed.
Lemma atomic_keeps s s' : controlplane.atomic_step s s' -> controlplane.cp_inv s -> stores_keep s s'.
Proof.
  intros Hstep Hs. pose proof (si_releases _ (controlplane.cp_stores_inv _ Hs)) as Hrel. split.
  - intros vid v Hv. destruct (atomic_releases _ _ Hstep) as [->|[o ->]]; [exists v; split; [done|apply same_version_refl]|].
    destruct (run_op_version o _ vid v Hrel Hv) as (v' & Hv' & Hsame & _). by exists v'.
  - intros vid d Hd. destruct (atomic_releases _ _ Hstep) as [->|[o ->]]; [done|by apply run_op_deployment].
  - intros id r Hr. destruct (atomic_assignments _ _ Hstep) as [->|[o ->]]; [exists r; split; [done|constructor]|by apply assignment.assignment_step_record].
Qed.
Lemma rtc_keeps s s' : rtc controlplane.atomic_step s s' -> controlplane.cp_inv s -> stores_keep s s'.
Proof.
  induction 1 as [s|s1 s2 s3 H12 _ IH]; intros Hs; [done|]. etrans; [by apply atomic_keeps|]. apply IH. by eapply controlplane.atomic_step_inv.
Qed.

(** What a caller may count on after any history. *)
Record preserved (c c' : Controller) : Prop := {
  pd_functions : forall fid view, GetFunction None fid c = Ok view -> exists view', GetFunction None fid c' = Ok view' /\
    fn_ID (vw_Function view') = fid;
  pd_versions : forall vid version deployment, GetVersion None vid c = Ok (version, deployment) ->
    exists version' deployment', GetVersion None vid c' = Ok (version', deployment') /\ same_version version version' /\
      (forall d, deployment = Some d -> deployment' = Some d);
  pd_routes : forall fid route, GetRoute None fid c = Ok route -> exists route', GetRoute None fid c' = Ok route';
  pd_assignments : forall id record, GetAssignment None id c = Ok record ->
    exists record', GetAssignment None id c' = Ok record' /\ assignment.record_evolves record record';
  pd_listed : forall records, ListAssignments None c = Ok records ->
    exists records', ListAssignments None c' = Ok records' /\
      forall record, record ∈ records -> exists record', record' ∈ records' /\ assignment.record_evolves record record';
  pd_operations : forall key rec, GetOperation None key c = Ok rec -> GetOperation None key c' = Ok rec;
  pd_command : command_le (ctl_lastCommand c) (ctl_lastCommand c');
}.

Lemma GetFunction_known c fid view : GetFunction None fid c = Ok view -> is_Some (functionsByID (ctl_catalog c) !! fid).
Proof.
  unfold GetFunction. cbn [checkContext rbind]. unfold catalog.GetFunction. intros H. ok_inv.
  destruct (functionsByID (ctl_catalog c) !! fid) eqn:Hf; [eauto|]. ok_inv.
Qed.

Lemma GetRoute_known c fid route : GetRoute None fid c = Ok route -> is_Some (routes (ctl_routes c) !! fid).
Proof.
  unfold GetRoute. cbn [checkContext rbind]. unfold routestore.Get. intros H. ok_inv.
  destruct (routes (ctl_routes c) !! fid) eqn:Hf; [eauto|]. ok_inv.
Qed.

Lemma moves_preserved c c' : ctl_inv c -> moves c c' -> preserved c c'.
Proof.
  intros Hc Hm. destruct (Hm Hc) as [Hc' Hev]. pose proof (cn_stores _ Hc') as Hs'.
  destruct (rtc_kept _ _ (ev_stores _ _ Hev) (cn_stores _ Hc)) as (Hf & _ & Hr).
  destruct (rtc_keeps _ _ (ev_stores _ _ Hev) (cn_stores _ Hc)) as [Hv Hd Ha]. split.
  - intros fid view [f Hfid]%GetFunction_known%Hf. pose proof (si_catalog _ (controlplane.cp_stores_inv _ Hs')) as Hcat.
    destruct (GetFunction_inv _ _ _ Hcat (function_ok_id _ _ (ci_function _ Hcat _ _ Hfid)) Hfid) as (t & tid & Hg & _).
    unfold GetFunction. cbn [checkContext rbind]. fold (ctl_catalog c') in Hg. rewrite Hg. eexists. split; [done|]. simpl.
    apply (fo_id _ _ (ci_function _ Hcat _ _ Hfid)).
  - intros vid version deployment. unfold GetVersion. cbn [checkContext rbind]. unfold release.Get, ctl_releases. intros H. ok_inv.
    destruct (versions _ !! vid) as [v|] eqn:Hvid; [|ok_inv]. match goal with E : Ok _ = Ok _ |- _ => injection E as -> <- end.
    destruct (Hv _ _ Hvid) as (v' & -> & Hsame). match goal with E : identifierPattern _ = true |- _ => rewrite E end. cbn [negb fail_if rbind wrap_err]. eexists _, _. split; [done|]. split; [done|apply Hd].
  - intros fid route Hfid%GetRoute_known%Hr. destruct (route_Get_kept _ _ Hs' Hfid) as [route' Hg]. exists route'.
    unfold GetRoute. cbn [checkContext rbind]. fold (ctl_routes c') in Hg. by rewrite Hg.
  - intros id record. unfold GetAssignment. cbn [checkContext rbind]. unfold assignment.Get. intros H. ok_inv.
    destruct (assignment.records _ !! id) as [r|] eqn:Hid; [|ok_inv]. match goal with E : Ok _ = Ok _ |- _ => injection E as -> end.
    destruct (Ha _ _ Hid) as (r' & -> & Hev'). match goal with E : identifierPattern _ = true |- _ => rewrite E end. cbn [negb fail_if rbind wrap_err]. by exists r'.
  - intros records. unfold ListAssignments. cbn [checkContext rbind]. intros [= <-]. eexists. split; [done|].
    unfold assignment.Snapshot, assignment.snapshot_in. intros record Hin. apply elem_of_SortFunc, list_elem_of_fmap in Hin as ([id r] & -> & Hin%elem_of_map_to_list).
    destruct (Ha _ _ Hin) as (r' & Hr' & Hev'). exists r'. split; [|done]. apply elem_of_SortFunc, list_elem_of_fmap. exists (id, r'). split; [done|by apply elem_of_map_to_list].
  - intros key rec. unfold GetOperation. cbn [checkContext rbind]. unfold Lookup.
    rewrite (cn_tombstones _ Hc), (cn_tombstones _ Hc'). intros Hl.
    destruct (l_records (ctl_ledger c) !! makeOperationKey key) eqn:Hk; [|ok_inv].
    by rewrite (lookup_weaken _ _ _ _ Hk (ev_records _ _ Hev)).
  - apply Hev.
Qed.

(** C30: After any history of calls to the controller, by any callers, with
    anything that these callers may do while a method has released the lock,
    the state is consistent: every Function is listed with its own trigger and
    without a token, and the serving states can be computed.  What could be read
    before can still be read: Functions and Routes under their Function's ID;
    Versions, with the same immutable fields; their Deployments, unchanged;
    Assignments, read by ID or listed, as they were or cancelled once, with
    everything else fixed; and recorded operation outcomes, unchanged.  The
    command position never goes back.  A history is in turn something that other
    callers may do meanwhile. *)
Theorem controller_history cs w :
  ctl_inv (fst w) -> Forall call_relies cs ->
  let c := fst (run_calls cs w) in
  preserved (fst w) c /\ Rely (run_calls cs) /\
  (exists states, ListServingStates None c = Ok states) /\
  (exists views, ListFunctions None c = Ok views /\ vw_Function <$> views = snap_Functions (catalog.Snapshot (ctl_catalog c)) /\
     Forall (fun view => tr_FunctionID (vw_Trigger view) = fn_ID (vw_Function view) /\ vw_InvocationToken view = ""%string) views).
Proof.
  intros Hw Hcs. pose proof (run_calls_Rely cs Hcs) as Hrely. pose proof (Hrely w) as Hm. destruct (Hm Hw) as [Hc _]. simpl.
  split_and!; [by apply moves_preserved|done| |by apply ListFunctions_total].
  destruct (serving_states_ok _ (controlplane.cp_stores_inv _ (cn_stores _ Hc))) as [states Hstates]. exists states.
  unfold ListServingStates. cbn [checkContext rbind]. by rewrite Hstates.
Qed.

End history.

(** ** Witness: a placed Version; then a create, a refused second create of the
    same name, a resumption and a cancellation *)
#[local] Existing Instances operations.ex_jcs operations.ex_strict operations.ex_sources.
#[local] Instance id_Rely : Rely (E := Z) id.
Proof. by intros w. Qed.

Definition ex_placed (s : controlplane.State) : controlplane.State :=
  controlplane.run (controlplane.DoInstall (assignment.ex_install "asg-1"))
    (controlplane.run (controlplane.DoPublish (ex_publish "route_1" 0))
      (controlplane.run (controlplane.DoCompleteValidation (release.ex_complete "val_1"))
        (controlplane.run (controlplane.DoStartValidation release.ex_start)
          (controlplane.create_version release.ex_create_version (controlplane.run (controlplane.DoCreateFunction catalog.ex_create) s))))).
Definition ex_w : localcontroller.World (E := Z) := (set_stores localcontroller.New (ex_placed controlplane.init), 200).
Lemma ex_w_inv : ctl_inv (fst ex_w).
Proof.
  refine (proj1 (with_stores_Guarantees (E := Z) (fun s => (ex_placed s, Ok tt)) _ (localcontroller.New, 200) New_inv)). intros s. cbn [fst]. unfold ex_placed.
  eapply rtc_l; [apply controlplane.atomic_run|]. eapply rtc_l; [apply controlplane.atomic_create_version|].
  eapply rtc_l; [apply controlplane.atomic_run|]. eapply rtc_l; [apply controlplane.atomic_run|]. eapply rtc_l; [apply controlplane.atomic_run|].
  apply rtc_once, controlplane.atomic_run.
Qed.

Definition ex_calls : list (call (E := Z) (Reader := unit)) :=
  [CallOperation operations.ex_op; CallCreateFunction None (of_Function (operations.ex_create "op-2" "hello"));
   CallResumePendingValidation None id (fun _ => None) 5;
   CallCancelAssignment None id {| xi_AssignmentID := "asg-1"; xi_ExpectedResourceRevision := 1 |}].

Lemma controller_history_witness :
  (exists record, GetAssignment None "asg-1" (fst (run_calls ex_calls ex_w)) = Ok record /\
     assignment.record_evolves (assignment.assigned (assignment.ex_install "asg-1")) record /\ assignment.ar_DesiredState record = assignment.AssignmentCancelled) /\
  exists views, ListFunctions None (fst (run_calls ex_calls ex_w)) = Ok views /\
    vw_Function <$> views = snap_Functions (catalog.Snapshot (ctl_catalog (fst (run_calls ex_calls ex_w)))).
Proof.
  destruct (controller_history ex_calls ex_w ex_w_inv) as (Hpd & _ & _ & views & Hl & Hv & _).
  - apply Forall_cons; split; [exact I|]. apply Forall_cons; split; [exact I|]. apply Forall_cons; split; [exact id_Rely|].
    apply Forall_cons; split; [exact id_Rely|apply Forall_nil; exact I].
  - split; [|exists views; split; [exact Hl|exact Hv]].
    destruct (pd_assignments _ _ Hpd "asg-1" (assignment.assigned (assignment.ex_install "asg-1"))) as (record & Hg & Hev); [vm_compute; exact eq_refl|].
    exists record. split; [exact Hg|]. split; [exact Hev|].
    assert (match GetAssignment None "asg-1" (fst (run_calls ex_calls ex_w)) with Ok r => assignment.ar_DesiredState r | Err _ => ""%string end
      = assignment.AssignmentCancelled) as Hs by (vm_compute; exact eq_refl). rewrite Hg in Hs. exact Hs.
Defined.

End history.
