(* ===== verification/LocalSources.v ===== *)
(** * Package [internal/localcontroller], controller.go: the default sources

    Command positions come from a process-local counter and the wall clock,
    identifiers, salts and tokens from a random byte reader.  The clock and the
    reader are outside the package: readings and reads are functions of how
    many were made before. *)
From stdpp Require Import base gmap strings list.
From S2P Require Import Prelude Problem Digest Json Model Catalog ValidatorProtocol Release RouteStore.
From S2P Require Import ServingAuth Scheduler Net AssignmentStore Ledger ControlPlane LocalController.
Import problem digest model catalog protocol release routestore localcontroller.

#[local] Open Scope Z_scope.

Module sources.

(** ** [MonotonicCommandSource] *)
Record MonotonicCommandSource := { ms_index : Z; ms_last : Time }.
Definition NewMonotonicCommandSource : MonotonicCommandSource := {| ms_index := 0; ms_last := zero_Time |}.

(** [t.UTC()] *)
Definition time_UTC (t : Time) : Time := {| t_wall := t_wall t; t_offset := 0; t_mono := t_mono t |}.

(** [now] is what [s.clock()] returns. *)
Definition Next (now : Time) : M MonotonicCommandSource CommandMeta :=
  let! s := sget in
  do! slift (fail_if (ms_index s =? maxUint64) (PlainError "local command source applied index is exhausted")) in
  do! slift (fail_if (time_IsZero now) (PlainError "local command source clock returned zero time")) in
  let now := time_Round0 (time_UTC now) in
  let now := if negb (time_IsZero (ms_last s)) && negb (time_After now (ms_last s)) then time_Add (ms_last s) 1 else now in
  let index := u64 (ms_index s + 1) in
  do! sput {| ms_index := index; ms_last := now |} in
  sret {| mt_AppliedIndex := index; mt_At := now |}.

(** ** Random sources

    [read n] is [io.ReadFull] on a slice of [n] bytes. *)
Section random.
Context {R : Type} (read : Z -> M R (list Z)).

Definition NewID (prefix : string) : M R string :=
  do! slift (fail_if (prefix == "") (PlainError "local id prefix is required")) in
  let! bytes := swrap "reading local id randomness" (read randomIDBytes) in
  sret (prefix +:+ "-" +:+ hex_EncodeToString bytes).

Definition NewSalt : M R string :=
  let! salt := swrap "reading route salt randomness" (read routeSaltBytes) in
  sret (json.str_of salt).

(** [base64.RawURLEncoding]: the URL alphabet, without padding. *)
Definition base64url_digit (n : Z) : Z :=
  if n <? 26 then 65 + n else if n <? 52 then 71 + n else if n <? 62 then n - 4
  else if n =? 62 then 45 else 95.
Fixpoint base64url (l : list Z) : list Z :=
  match l with
  | a :: b :: c :: l' =>
    base64url_digit (a / 4) :: base64url_digit (a mod 4 * 16 + b / 16)
    :: base64url_digit (b mod 16 * 4 + c / 64) :: base64url_digit (c mod 64) :: base64url l'
  | [a; b] => [base64url_digit (a / 4); base64url_digit (a mod 4 * 16 + b / 16); base64url_digit (b mod 16 * 4)]
  | [a] => [base64url_digit (a / 4); base64url_digit (a mod 4 * 16)]
  | [] => []
  end.

Definition NewToken : M R string :=
  let! random := swrap "reading invocation token randomness" (read randomTokenBytes) in
  sret (json.str_of (base64url random)).

End random.

(** *** The encoding is injective *)
Definition is_byte (b : Z) : Prop := 0 <= b < 256.

Lemma base64url_digit_inj m n : 0 <= m < 64 -> 0 <= n < 64 -> base64url_digit m = base64url_digit n -> m = n.
Proof. unfold base64url_digit. intros Hm Hn. repeat case_match; go_cases; lia. Qed.

Lemma base64url_digit_range n : 0 <= n < 64 -> 45 <= base64url_digit n <= 122.
Proof. unfold base64url_digit. intros Hn. repeat case_match; go_cases; lia. Qed.

(** A byte is determined by its high bits and the digit that holds its low
    bits; [x] is what else that digit holds. *)
Lemma base64url_low k j x x' a a' p p' : 0 < k -> 0 < j -> k * j = 64 -> a / k = a' / k ->
  0 <= x < j -> 0 <= x' < j -> p = a mod k * j + x -> p' = a' mod k * j + x' -> base64url_digit p = base64url_digit p' -> a = a' /\ x = x'.
Proof.
  intros Hk Hj Hkj Hd Hx Hx' -> -> H%base64url_digit_inj.
  - pose proof (Z.div_mod a k). pose proof (Z.div_mod a' k). assert (a mod k = a' mod k) by nia. split; nia.
  - pose proof (Z.mod_pos_bound a k). nia.
  - pose proof (Z.mod_pos_bound a' k). nia.
Qed.
Lemma base64url_high k a a' : is_byte a -> is_byte a' -> 4 <= k -> base64url_digit (a / k) = base64url_digit (a' / k) -> a / k = a' / k.
Proof.
  unfold is_byte. intros Ha Ha' Hk. assert (forall x, 0 <= x < 256 -> 0 <= x / k < 64) as Hr.
  { intros x Hx. split; [apply Z.div_pos; lia|apply Z.div_lt_upper_bound; lia]. }
  apply base64url_digit_inj; auto.
Qed.
Lemma byte_div k j a : is_byte a -> 0 < k -> k * j = 256 -> 0 <= a / k < j.
Proof. unfold is_byte. intros Ha Hk Hj. split; [apply Z.div_pos; lia|apply Z.div_lt_upper_bound; lia]. Qed.

(** Induction over groups of three. *)
Lemma groups_ind (P : list Z -> Prop) :
  P [] -> (forall a, P [a]) -> (forall a b, P [a; b]) -> (forall a b c l, P l -> P (a :: b :: c :: l)) -> forall l, P l.
Proof.
  intros H0 H1 H2 H3. refine (well_founded_ind (Wf_nat.well_founded_ltof _ (@length Z)) _ _).
  intros [|a [|b [|c l]]] IH; [done..|]. apply H3, IH. unfold Wf_nat.ltof. simpl. lia.
Qed.

(** [base64url_low] at numerals: its arithmetic hypotheses are evaluated. *)
Ltac base64url_byte k j x x' H1 H2 :=
  apply (base64url_low k j x x' _ _ _ _ ltac:(lia) ltac:(lia) eq_refl H1) in H2;
    [destruct H2 as [-> H2]|first [done|by apply byte_div]|first [done|by apply byte_div]|lia|lia].

Lemma base64url_inj l l' : Forall is_byte l -> Forall is_byte l' -> base64url l = base64url l' -> l = l'.
Proof.
  revert l'. induction l as [|a|a b|a b c l IH] using groups_ind; intros [|a' [|b' [|c' l']]] Hl Hl'; try done; cbn [base64url];
    try discriminate; repeat match goal with H : Forall _ (_ :: _) |- _ => apply Forall_cons_1 in H as [? H] end.
  - intros [= D1%base64url_high D2]; [|done..]. by base64url_byte 4 16 0 0 D1 D2.
  - intros [= D1%base64url_high D2 D3]; [|done..]. base64url_byte 4 16 (b / 16) (b' / 16) D1 D2. by base64url_byte 16 4 0 0 D2 D3.
  - intros [= D1%base64url_high D2 D3 D4 D5%IH]; [|done..]. subst l'. base64url_byte 4 16 (b / 16) (b' / 16) D1 D2.
    base64url_byte 16 4 (c / 64) (c' / 64) D2 D3. by base64url_byte 64 1 0 0 D3 D4.
Qed.

(** ** The sources [New] falls back to *)

(** The process: its clock and random reader, and how often they were read. *)
Record Process := {
  pr_source : MonotonicCommandSource;
  pr_clock : nat -> Time;
  pr_readings : nat;
  pr_random : nat -> Z -> result (list Z);
  pr_reads : nat;
}.

(** The artifact store and the validator, which have no default. *)
Class Backends (E File Reader : Type) := {
  backend_Put : string -> Reader -> M E Info;
  backend_OpenVerified : string -> M E (option File * Info);
  backend_Close : File -> M E unit;
  backend_Validate : protocol.Request -> File -> M E Report;
}.

Definition ReadFull (n : Z) : M Process (list Z) := fun p =>
  ({| pr_source := pr_source p; pr_clock := pr_clock p; pr_readings := pr_readings p; pr_random := pr_random p;
      pr_reads := S (pr_reads p) |}, pr_random p (pr_reads p) n).

Definition process_Next : M Process CommandMeta := fun p =>
  let '(source, r) := Next (pr_clock p (pr_readings p)) (pr_source p) in
  ({| pr_source := source; pr_clock := pr_clock p; pr_readings := S (pr_readings p); pr_random := pr_random p;
      pr_reads := pr_reads p |}, r).

Definition in_process {E A} (m : M Process A) : M (Process * E) A := fun w =>
  let '(p, r) := m (fst w) in ((p, snd w), r).
Definition in_backend {E A} (m : M E A) : M (Process * E) A := fun w =>
  let '(e, r) := m (snd w) in ((fst w, e), r).

Section defaults.
Context {E File Reader : Type} `{HB : !Backends E File Reader}.

#[global] Instance default_sources : Sources (Process * E) File Reader := {|
  Commands_Next := in_process process_Next;
  IDs_NewID := fun prefix => in_process (NewID ReadFull prefix);
  Salts_NewSalt := in_process (NewSalt ReadFull);
  Tokens_NewToken := in_process (NewToken ReadFull);
  Artifacts_Put := fun digest reader => in_backend (backend_Put digest reader);
  Artifacts_OpenVerified := fun digest => in_backend (backend_OpenVerified digest);
  File_Close := fun file => in_backend (backend_Close file);
  Validator_Validate := fun request file => in_backend (backend_Validate request file);
|}.

(** ** They never make the controller fail *)

(** The controller has seen every position that the source gave out. *)
Definition in_step (w : localcontroller.World (E := Process * E)) : Prop :=
  let s := pr_source (fst (snd w)) in
  ctl_lastCommand (fst w) = {| mt_AppliedIndex := ms_index s; mt_At := ms_last s |} /\
  is_u64 (ms_index s) /\ t_offset (ms_last s) = 0 /\ t_mono (ms_last s) = None /\
  0 <= t_wall (ms_last s) /\ (ms_index s <> 0 -> t_wall (ms_last s) <> 0).

(** A clock after year one, and a reader that fills its slices. *)
Definition clock_runs (p : Process) : Prop := forall n, 0 < t_wall (pr_clock p n).
Definition random_fills (p : Process) : Prop := forall n k, 0 <= k ->
  exists bytes, pr_random p n k = Ok bytes /\ len bytes = k /\ Forall (fun b => 0 <= b < 256) bytes.

Lemma Next_Ok now s :
  is_u64 (ms_index s) -> ms_index s < maxUint64 -> 0 < t_wall now -> t_mono (ms_last s) = None -> 0 <= t_wall (ms_last s) ->
  t_offset (ms_last s) = 0 ->
  exists at_, Next now s = ({| ms_index := ms_index s + 1; ms_last := at_ |}, Ok {| mt_AppliedIndex := ms_index s + 1; mt_At := at_ |}) /\
    t_offset at_ = 0 /\ t_mono at_ = None /\ t_wall (ms_last s) < t_wall at_ /\
    (t_wall (ms_last s) = 0 \/ t_wall (ms_last s) < t_wall now -> t_wall at_ = t_wall now).
Proof.
  intros Hu Hmax Hnow Hm Hl Ho. unfold Next, sbind, slift, sget, sput, sret.
  rewrite (proj2 (Z.eqb_neq _ _)) by lia. unfold time_IsZero. rewrite (proj2 (Z.eqb_neq (t_wall now) 0)) by lia. cbn [fail_if].
  rewrite u64_small by (unfold is_u64, maxUint64 in *; lia). eexists. split; [done|].
  unfold time_After, time_compare. cbn [time_Round0 time_UTC t_wall t_mono].
  destruct (t_wall (ms_last s) =? 0) eqn:Hz; cbn [negb andb]; go_cases.
  { split_and!; try done; simpl; lia. }
  destruct (Z.compare_spec (t_wall now) (t_wall (ms_last s))); cbn [negb]; unfold time_Add; cbn [t_wall t_mono t_offset];
    rewrite ?Hm; split_and!; try done; simpl; lia.
Qed.

Lemma nextCommand_default w :
  in_step w -> clock_runs (fst (snd w)) -> ms_index (pr_source (fst (snd w))) < maxUint64 ->
  exists command w', nextCommand w = (w', Ok command) /\ in_step w' /\ ctl_lastCommand (fst w') = command /\
    mt_AppliedIndex command = mt_AppliedIndex (ctl_lastCommand (fst w)) + 1 /\
    t_wall (mt_At (ctl_lastCommand (fst w))) < t_wall (mt_At command) /\
    pr_clock (fst (snd w')) = pr_clock (fst (snd w)) /\ pr_random (fst (snd w')) = pr_random (fst (snd w)).
Proof.
  destruct w as [c [p e]]. intros (Hlast & Hu & Ho & Hm & Hw & Hz) Hclock Hmax. simpl in *.
  destruct (Next_Ok (pr_clock p (pr_readings p)) (pr_source p) Hu Hmax (Hclock _) Hm Hw Ho) as (at_ & Hn & Ho' & Hm' & Hlt & _).
  assert (time_Round0 at_ = at_) as Hround by (destruct at_ as [wall off mono]; simpl in *; by subst).
  unfold nextCommand, sbind, with_env, swrap. cbn [Commands_Next default_sources in_process snd fst]. unfold in_process, process_Next.
  cbn [fst snd]. rewrite Hn. cbn [wrap_err]. unfold slift, sget, sput, sret. cbn [mt_AppliedIndex mt_At fst snd].
  unfold time_IsZero, time_IsUTC. unfold is_u64, maxUint64 in *.
  rewrite (proj2 (Z.eqb_neq _ _)) by lia. cbn [fail_if]. rewrite (proj2 (Z.eqb_neq (t_wall at_) 0)) by lia.
  rewrite Ho'. cbn [Z.eqb negb orb fail_if]. rewrite Hlast. cbn [mt_AppliedIndex mt_At].
  rewrite (proj2 (Z.leb_gt (ms_index (pr_source p) + 1) (ms_index (pr_source p)))) by lia. rewrite andb_false_r. cbn [fail_if].
  assert (time_Before (time_Round0 at_) (ms_last (pr_source p)) = false) as ->.
  { unfold time_Before, time_compare. cbn [time_Round0 t_mono t_wall].
    destruct (Z.compare_spec (t_wall at_) (t_wall (ms_last (pr_source p)))); [done|lia|done]. }
  rewrite andb_false_r. cbn [fail_if]. eexists _, _. split; [done|]. rewrite Hround. split_and!; try done; simpl; try lia.
  unfold in_step, is_u64. simpl. split_and!; try done; lia.
Qed.

(** A world whose sources work. *)
Record steady (w : localcontroller.World (E := Process * E)) : Prop := {
  sd_step : in_step w;
  sd_clock : clock_runs (fst (snd w));
  sd_random : random_fills (fst (snd w));
}.

(** [m] succeeds with a value satisfying [P] and leaves the controller alone. *)
Definition supplies {A} (m : M (localcontroller.World (E := Process * E)) A) (P : A -> Prop) : Prop :=
  forall w, steady w -> exists a w', m w = (w', Ok a) /\ P a /\ steady w' /\ fst w' = fst w.

Lemma supplies_bind {A B} (m : M _ A) (k : A -> M _ B) P Q :
  supplies m P -> (forall a, P a -> supplies (k a) Q) -> supplies (sbind m k) Q.
Proof.
  intros Hm Hk w Hw. destruct (Hm w Hw) as (a & w1 & H1 & HP & Hw1 & Hc1). destruct (Hk a HP w1 Hw1) as (b & w2 & H2 & HQ & Hw2 & Hc2).
  exists b, w2. unfold sbind. rewrite H1, H2. by rewrite Hc2.
Qed.
Lemma supplies_ret {A} (a : A) (P : A -> Prop) : P a -> supplies (sret a) P.
Proof. intros HP w Hw. by exists a, w. Qed.

(** One read of the random reader, through any of the sources. *)
Definition bytes_of (n : Z) (bytes : list Z) : Prop := len bytes = n /\ Forall (fun b => 0 <= b < 256) bytes.

Lemma supplies_read {A} n (k : list Z -> A) outer inner (m : M (Process * E) A) : 0 <= n ->
  (forall w, m w = in_process (let! bytes := swrap inner (ReadFull n) in sret (k bytes)) w) ->
  supplies (with_env (swrap outer m)) (fun a => exists bytes, a = k bytes /\ bytes_of n bytes).
Proof.
  intros Hn Hm [c [p e]] [Hs Hc Hr]. simpl in *. destruct (Hr (pr_reads p) n Hn) as (bytes & Hb & Hrange).
  unfold with_env, swrap. cbn [fst snd]. rewrite Hm. unfold in_process, sbind, swrap, ReadFull, sret. cbn [fst snd].
  rewrite Hb. cbn [wrap_err]. eexists _, _. split; [done|].
  split_and!; [by exists bytes|done|done].
Qed.

Lemma supplies_check {A} (b : bool) e (m : M _ A) P : b = false -> supplies m P -> supplies (do! slift (fail_if b e) in m) P.
Proof. intros -> Hm. exact Hm. Qed.

Definition plain_prefix (prefix : string) : Prop := 1 <= strlen prefix <= 95 /\ forallb id_class (codes prefix) = true.

Lemma strlen_app a b : strlen (a +:+ b) = strlen a + strlen b.
Proof. unfold strlen. rewrite string_app_length. lia. Qed.

Lemma hex_id_class l : Forall (fun b => 0 <= b < 256) l -> forallb id_class (codes (hex_EncodeToString l)) = true.
Proof.
  intros H%hex_encode_class. apply forallb_forall. intros b Hb. rewrite forallb_forall in H. specialize (H b Hb).
  unfold hex_class, id_class, is_alnum in *. apply orb_true_iff in H as [H|H]; rewrite !orb_true_iff; left; [by right|].
  left; right. unfold is_lower, in_range in *. rewrite andb_true_iff, !Z.leb_le in *. lia.
Qed.

Lemma newID_default prefix : plain_prefix prefix ->
  supplies (newID prefix) (fun id => idPattern id = true /\
    exists bytes, id = prefix +:+ "-" +:+ hex_EncodeToString bytes /\ bytes_of randomIDBytes bytes).
Proof.
  intros [Hlen Hcl]. unfold newID. eapply supplies_bind.
  { eapply (supplies_read randomIDBytes (fun bytes => prefix +:+ "-" +:+ hex_EncodeToString bytes)); [done|].
    intros w. cbn [IDs_NewID default_sources]. unfold NewID, in_process, sbind, slift.
    rewrite bool_decide_eq_false_2 by (intros ->; change (strlen "") with 0 in Hlen; lia). done. }
  intros id (bytes & -> & Hb & Hr). cbv beta. set (id := _ +:+ _).
  assert (idPattern id = true) as Hid.
  { assert (strlen (hex_EncodeToString bytes) = 32) as Hhex
      by (unfold strlen; rewrite hex_encode_length; unfold len, randomIDBytes in Hb; lia).
    unfold idPattern, match_class, id. rewrite !strlen_app, Hhex, !codes_app, !forallb_app, Hcl, hex_id_class by done.
    change (strlen "-") with 1. rewrite !andb_true_iff, !Z.leb_le. split_and!; [lia|lia|done|done|done]. }
  apply supplies_check; [apply bool_decide_eq_false_2; intros E0; by rewrite E0 in Hid|].
  apply supplies_check; [by rewrite Hid|]. apply supplies_ret. split; [done|]. by exists bytes.
Qed.

Lemma newRouteSalt_default : supplies newRouteSalt (fun salt => len (codes salt) = routeSaltBytes).
Proof.
  unfold newRouteSalt. eapply supplies_bind.
  { by eapply (supplies_read routeSaltBytes json.str_of). }
  intros salt (bytes & -> & Hb & Hr). cbv beta.
  assert (strlen (json.str_of bytes) = routeSaltBytes) as Hs
    by (unfold strlen; rewrite <-length_codes, json.codes_str_of by done; exact Hb).
  apply supplies_check; [by rewrite Hs|]. apply supplies_ret. by rewrite json.codes_str_of.
Qed.

Lemma newToken_default : supplies newToken (fun token => exists bytes,
  token = json.str_of (base64url bytes) /\ bytes_of randomTokenBytes bytes).
Proof.
  unfold newToken. eapply supplies_bind.
  { by eapply (supplies_read randomTokenBytes (fun bytes => json.str_of (base64url bytes))). }
  intros token (bytes & -> & Hb). cbv beta. apply supplies_check; [|apply supplies_ret; by exists bytes].
  apply bool_decide_eq_false_2. destruct Hb as [Hb _]. by destruct bytes as [|? [|? [|? ?]]].
Qed.

Lemma base64url_length l : len (base64url l) = (4 * len l + 2) / 3.
Proof.
  unfold len. induction l as [|a|a b|a b c l IH] using groups_ind; [done..|]. cbn [base64url length].
  rewrite !Nat2Z.inj_succ in *. rewrite IH. Z.to_euclidean_division_equations. lia.
Qed.
Lemma base64url_range l : Forall is_byte l -> Forall is_byte (base64url l).
Proof.
  assert (forall n, 0 <= n < 64 -> is_byte (base64url_digit n)) as Hd
    by (intros n Hn; pose proof (base64url_digit_range n Hn); unfold is_byte; lia).
  induction l as [|a|a b|a b c l IH] using groups_ind; intros Hl; cbn [base64url]; [done|..];
    repeat match goal with H : Forall _ (_ :: _) |- _ => apply Forall_cons_1 in H as [? H] end;
    unfold is_byte in *; repeat (apply Forall_cons; split); try (apply Hd; Z.to_euclidean_division_equations; lia); auto.
Qed.

(** The invocation token of a new Function, by its access policy. *)
Definition token_issued (policy token : string) (verifier : option string) : Prop :=
  if policy == AuthPolicyPublic then token = ""%string /\ verifier = None
  else verifier = Some (Sum token) /\
    exists bytes, codes token = base64url bytes /\ bytes_of randomTokenBytes bytes /\ strlen token = 43.

Lemma newInvocationToken_default policy : policy = AuthPolicyPublic \/ policy = AuthPolicyToken ->
  supplies (newInvocationToken policy) (fun r => token_issued policy (fst r) (snd r)).
Proof.
  unfold newInvocationToken, token_issued. intros [->| ->]; cbn [bool_decide].
  { by apply supplies_ret. }
  apply (supplies_bind _ _ _ _ newToken_default). intros token (bytes & -> & Hb). apply supplies_ret. split; [done|].
  cbn [fst]. pose proof (base64url_range bytes (proj2 Hb)) as Hr. exists bytes. split; [by apply json.codes_str_of|]. split; [done|].
  unfold strlen. rewrite <-length_codes, json.codes_str_of by done. fold (len (base64url bytes)). rewrite base64url_length.
  by rewrite (proj1 Hb).
Qed.

(** With its default sources the controller never fails for want of a
    command position, identifier or token: while the clock is past year one,
    the random reader fills its slices and fewer than 2^64-1 positions have
    been given out, the preparation of any new Function with a known access
    policy succeeds, and leaves the sources ready for the next one.  Its
    position is the next index and its time is later than every earlier one,
    also when the wall clock stands still or goes back; both identifiers
    satisfy the identifier syntax, and the token is the 43-digit base64url form
    of 32 random bytes, of which only the digest is stored. *)
Theorem default_sources_total w input :
  steady w -> ms_index (pr_source (fst (snd w))) < maxUint64 ->
  ci_AuthPolicy input = AuthPolicyPublic \/ ci_AuthPolicy input = AuthPolicyToken ->
  exists prepared w', prepareCreateFunction input w = (w', Ok prepared) /\ steady w' /\
    ctl_lastCommand (fst w') = pf_command prepared /\
    mt_AppliedIndex (pf_command prepared) = mt_AppliedIndex (ctl_lastCommand (fst w)) + 1 /\
    t_wall (mt_At (ctl_lastCommand (fst w))) < t_wall (mt_At (pf_command prepared)) /\
    idPattern (fn_ID (vw_Function (pf_view prepared))) = true /\
    idPattern (md_ID (tr_Metadata (vw_Trigger (pf_view prepared)))) = true /\
    token_issued (ci_AuthPolicy input) (vw_InvocationToken (pf_view prepared)) (tr_TokenVerifierDigest (vw_Trigger (pf_view prepared))).
Proof.
  intros Hw Hmax Hpolicy. unfold prepareCreateFunction, sbind.
  destruct (newInvocationToken_default _ Hpolicy w Hw) as (token & w1 & -> & Htoken & Hw1 & Hc1).
  destruct (newID_default "function" ltac:(done) w1 Hw1) as (fid & w2 & -> & [Hfid _] & Hw2 & Hc2).
  destruct (newID_default "trigger" ltac:(done) w2 Hw2) as (tid & w3 & -> & [Htid _] & Hw3 & Hc3).
  assert (fst w3 = fst w) as Hc by congruence.
  destruct (nextCommand_default w3 (sd_step _ Hw3) (sd_clock _ Hw3)) as (command & w4 & -> & Hs & Hlast & Hidx & Hat & Hclock & Hrandom).
  { pose proof (proj1 (sd_step _ Hw3)) as H3. rewrite Hc, (proj1 (sd_step _ Hw)) in H3. injection H3 as H3 _. lia. }
  rewrite Hc in *. eexists _, _. split; [done|]. simpl. split_and!; try done.
  destruct Hw3 as [_ Hclk Hrnd]. split; [done| |]; unfold clock_runs, random_fills; by rewrite ?Hclock, ?Hrandom.
Qed.

End defaults.

(** ** Witness: a clock that stands at one of two times *)
#[local] Instance ex_backends : Backends unit unit unit := {|
  backend_Put := fun _ _ => sthrow (PlainError "no space");
  backend_OpenVerified := fun _ => sthrow (PlainError "no artifact");
  backend_Close := fun _ => sret tt;
  backend_Validate := fun _ _ => sthrow (PlainError "no validator");
|}.

Definition ex_process : Process :=
  {| pr_source := {| ms_index := 7; ms_last := ex_at 1000 |}; pr_clock := fun n => ex_at (if Nat.even n then 5 else 2000); pr_readings := 0;
     pr_random := fun n k => Ok (replicate (Z.to_nat k) (Z.of_nat n mod 256)); pr_reads := 0 |}.
Definition ex_w : localcontroller.World (E := Process * unit) :=
  (set_lastCommand localcontroller.New {| mt_AppliedIndex := 7; mt_At := ex_at 1000 |}, (ex_process, tt)).

Lemma ex_steady : steady ex_w.
Proof.
  split.
  - unfold in_step. split_and!; try done; by vm_compute.
  - intros n. simpl. by destruct (Nat.even n).
  - intros n k Hk. simpl. eexists. split; [done|]. split; [unfold len; rewrite length_replicate; lia|].
    apply Forall_replicate. by apply Z.mod_pos_bound.
Qed.

Lemma default_sources_total_witness :
  exists prepared w', prepareCreateFunction {| ci_Name := "hello"; ci_Labels := None; ci_AuthPolicy := AuthPolicyToken |} ex_w = (w', Ok prepared) /\
    mt_AppliedIndex (pf_command prepared) = 8 /\ 1000 < t_wall (mt_At (pf_command prepared)).
Proof.
  destruct (default_sources_total ex_w {| ci_Name := "hello"; ci_Labels := None; ci_AuthPolicy := AuthPolicyToken |}
    ex_steady eq_refl (or_intror eq_refl)) as (prepared & w' & H & _ & _ & Hidx & Hat & _).
  exists prepared, w'. split; [exact H|]. split; [exact Hidx|exact Hat].
Defined.

End sources.
