(* ===== verification/WorkerAgent.v ===== *)
(** * Package [internal/workeragent]: Replicas of one Worker

    The Agent prepares the Replicas of a Worker, admits invocations to them and
    releases their compiled modules.  Replicas are shared by pointer between
    the Agent and its goroutines: they live in a heap.  The functions of this
    file are the regions that run under the Agent's mutex; what the goroutines
    do between them is in [WorkerServing].  A region that panics ends in [Err];
    errors that Go returns are values. *)
From stdpp Require Import base gmap strings list.
From S2P Require Import Prelude Problem Digest Json Model ServingAuth Scheduler Net Abi.
Import problem digest model.

#[local] Open Scope Z_scope.

Module agent.
Export servingauth.
#[local] Abbreviation ModuleSpec := workercache.ModuleSpec.
#[local] Abbreviation Key := workercache.Key.

(** ** Bounds and states (types.go) *)
Definition DefaultMaxAssignments : Z := 4096.
Definition HardMaxAssignments : Z := 65536.
Definition DefaultMaxConcurrent : Z := 4.
Definition DefaultMaxQueued : Z := 64.
Definition DefaultMaxQueuedPerReplica : Z := 16.
Definition DefaultPrepareTimeout : Z := 30 * second.
Definition HardMaxConcurrent : Z := 64.
Definition HardMaxQueued : Z := 4096.
Definition HardMaxQueuedPerReplica : Z := 4096.
Definition HardMaxPrepareTimeout : Z := 5 * minute.

Definition ReplicaAssigned : string := "Assigned".
Definition ReplicaFetching : string := "Fetching".
Definition ReplicaValidating : string := "Validating".
Definition ReplicaCompiling : string := "Compiling".
Definition ReplicaReady : string := "Ready".
Definition ReplicaDraining : string := "Draining".
Definition ReplicaStopped : string := "Stopped".
Definition ReplicaFailed : string := "Failed".
Definition ReplicaLost : string := "Lost".

Definition terminal (s : string) : bool := (s == ReplicaStopped) || (s == ReplicaFailed) || (s == ReplicaLost).

Definition validReplicaTransition (previous next : string) : bool :=
  if previous == ReplicaAssigned then bool_decide (next ∈ [ReplicaFetching; ReplicaDraining; ReplicaLost])
  else if previous == ReplicaFetching then bool_decide (next ∈ [ReplicaValidating; ReplicaDraining; ReplicaFailed; ReplicaLost])
  else if previous == ReplicaValidating then bool_decide (next ∈ [ReplicaCompiling; ReplicaDraining; ReplicaFailed; ReplicaLost])
  else if previous == ReplicaCompiling then bool_decide (next ∈ [ReplicaReady; ReplicaDraining; ReplicaFailed; ReplicaLost])
  else if previous == ReplicaReady then bool_decide (next ∈ [ReplicaDraining; ReplicaLost])
  else if previous == ReplicaDraining then bool_decide (next ∈ [ReplicaStopped; ReplicaLost])
  else false.

(** [wasmexec.ExecutionLimits], [wasmexec.InvocationPolicy] and
    [workercache.Result]. *)
Record ExecutionLimits := {
  el_MaxTimeout : Z;
  el_MaxConcurrent : Z;
  el_MaxConcurrentPerProgram : Z;
  el_ABILimits : abi.Limits;
  el_MaxLogBytes : Z;
  el_MaxLogLineBytes : Z;
}.
Definition DefaultMaxLogLineBytes : Z := Z.shiftl 16 10.

Record InvocationPolicy := {
  ip_Timeout : Z;
  ip_RequestLimits : abi.Limits;
  ip_ResponseLimits : abi.Limits;
  ip_MaxLogBytes : Z;
  ip_MaxLogLineBytes : Z;
}.

Record Result := {
  rs_Key : Key;
  rs_Hit : bool;
  rs_Coalesced : bool;
  rs_ArtifactLoad : Z;
  rs_Compile : Z;
  rs_Evicted : Z;
}.
Definition zero_Key : Key :=
  {| workercache.k_ArtifactDigest := ""; workercache.k_ArtifactSize := 0; workercache.k_RuntimeName := "";
     workercache.k_RuntimeVersion := ""; workercache.k_ABI := ""; workercache.k_HostAPIProfile := "";
     workercache.k_RuntimeFeatureProfile := ""; workercache.k_Engine := ""; workercache.k_MemoryLimitMiB := 0;
     workercache.k_GOOS := ""; workercache.k_GOARCH := "" |}.
Definition zero_Result : Result :=
  {| rs_Key := zero_Key; rs_Hit := false; rs_Coalesced := false; rs_ArtifactLoad := 0; rs_Compile := 0; rs_Evicted := 0 |}.

Record PrepareRequest := {
  pq_Connection : ControlConnection;
  pq_Fence : InvocationFence;
  pq_Module : ModuleSpec;
  pq_Policy : EffectivePolicy;
}.
Definition pq_Assignment (r : PrepareRequest) : AssignmentIdentity := if_Assignment (pq_Fence r).
Definition pq_ID (r : PrepareRequest) : string := ai_AssignmentID (pq_Assignment r).

Record CancelRequest := { cq_Connection : ControlConnection; cq_Fence : InvocationFence }.

Record Observation := {
  ob_Identity : AssignmentIdentity;
  ob_Module : ModuleSpec;
  ob_State : string;
  ob_Failure : option SafeError;
  ob_Load : Result;
  ob_ActiveInvocations : Z;
  ob_QueuedInvocations : Z;
}.

(** [int64] and [int] conversions keep these values: they are validated byte
    counts. *)
Definition responseEnvelopeBytes (bodyBytes : Z) : Z :=
  let base64Bytes := 4 * ((bodyBytes + 2) `quot` 3) in
  Z.min (abi.DefaultMetadataBytes + base64Bytes + 1024) abi.DefaultRawEnvelopeBytes.

Definition invocationTimeout (requested policy : Z) : result Z :=
  fail_if (requested <? 0) (Invalid "timeout" "must not be negative") ;;;
  fail_if ((0 <? requested) && (requested <? millisecond)) (Invalid "timeout" "must be at least one millisecond") ;;;
  Ok (if (requested =? 0) || (policy <? requested) then policy else requested).

Definition body_limits (envelope body : Z) : abi.Limits :=
  {| abi.lm_RawEnvelopeBytes := envelope; abi.lm_MetadataBytes := 0; abi.lm_BodyBytes := body; abi.lm_HeaderCount := 0;
     abi.lm_HeaderBytes := 0; abi.lm_HeaderValueBytes := 0; abi.lm_QueryPairs := 0; abi.lm_QueryBytes := 0;
     abi.lm_JSONDepth := 0; abi.lm_MethodBytes := 0; abi.lm_PathBytes := 0 |}.

Definition runtimeInvocationPolicy (policy : EffectivePolicy) (requestedTimeout : Z) : result InvocationPolicy :=
  let limits := ep_ResourceLimits policy in
  timeout <- invocationTimeout requestedTimeout (rl_Timeout limits) ;;
  Ok {| ip_Timeout := timeout;
        ip_RequestLimits := body_limits (responseEnvelopeBytes (rl_MaxInputBytes limits)) (rl_MaxInputBytes limits);
        ip_ResponseLimits := body_limits (responseEnvelopeBytes (rl_MaxOutputBytes limits)) (rl_MaxOutputBytes limits);
        ip_MaxLogBytes := rl_MaxLogBytes limits; ip_MaxLogLineBytes := 0 |}.

(** ** Limiter (limiter.go)

    Two buffered channels, as their capacities and the number of tokens in
    them. *)
Record limiter := { lm_concurrent : Z; lm_queued : Z; lm_slots : Z; lm_queue : Z }.
Definition newLimiter (concurrent queued : Z) : limiter :=
  {| lm_concurrent := concurrent; lm_queued := queued; lm_slots := 0; lm_queue := 0 |}.
Definition move_tokens (l : limiter) (slots queue : Z) : limiter :=
  {| lm_concurrent := lm_concurrent l; lm_queued := lm_queued l; lm_slots := lm_slots l + slots; lm_queue := lm_queue l + queue |}.

Definition errQueueFull : string := "worker agent invocation queue is full".
Definition errStopping : string := "worker agent admission is stopping".

(** Where a call of [acquire] stands: before the first check, at its three
    [select] statements in order, and at the deferred receive from the queue. *)
Inductive acquiring := Arriving | Trying | Enqueuing | Waiting | Dequeuing (r : option error).

(** Which ready case of a [select] is taken; [Proceed] is a send, or [default]
    where there is no other. *)
Inductive choice := Proceed | TakeStop | TakeDone (err : error).

Inductive acquired := Continue (at_ : acquiring) | Acquired | Refused (err : error).

(** One step of [acquire]; [None] if the choice is not ready.  [stopped] says
    whether one of the two stop channels is closed.  The context may end at any
    time. *)
Definition acquire (l : limiter) (stopped : bool) (at_ : acquiring) (c : choice) : option (limiter * acquired) :=
  let stop := SentinelError errStopping in
  match at_, c with
  | Dequeuing None, Proceed => Some (move_tokens l 0 (-1), Acquired)
  | Dequeuing (Some err), Proceed => Some (move_tokens l 0 (-1), Refused err)
  | Dequeuing _, _ => None
  | Waiting, TakeDone err => Some (l, Continue (Dequeuing (Some err)))
  | Waiting, TakeStop => if stopped then Some (l, Continue (Dequeuing (Some stop))) else None
  | _, TakeDone err => Some (l, Refused err)
  | _, TakeStop => if stopped then Some (l, Refused stop) else None
  | Arriving, Proceed => if stopped then None else Some (l, Continue Trying)
  | Trying, Proceed =>
    if lm_slots l <? lm_concurrent l then Some (move_tokens l 1 0, Acquired)
    else if stopped then None else Some (l, Continue Enqueuing)
  | Enqueuing, Proceed =>
    if lm_queue l <? lm_queued l then Some (move_tokens l 0 1, Continue Waiting)
    else if stopped then None else Some (l, Refused (SentinelError errQueueFull))
  | Waiting, Proceed => if lm_slots l <? lm_concurrent l then Some (move_tokens l 1 0, Continue (Dequeuing None)) else None
  end.

(** [<-l.slots], which would block on an empty channel. *)
Definition limiter_release (l : limiter) : option limiter :=
  if 0 <? lm_slots l then Some (move_tokens l (-1) 0) else None.

(** ** Replicas and the Agent (agent.go)

    A channel that is only ever closed is the flag that records it.
    [r_cancelled] says that [prepareCancel] was called; [r_prepareCancel] that it
    is not nil.  A lease of the compiled-module cache is a number. *)
Record replica := {
  r_request : PrepareRequest;
  r_state : string;
  r_failure : option SafeError;
  r_load : Result;
  r_lease : option nat;
  r_limiter : limiter;
  r_preparing : bool;
  r_prepareCancel : bool;
  r_cancelled : bool;
  r_prepareErr : option error;
  r_preparedDone : bool;
  r_doneClosed : bool;
  r_stopClosed : bool;
  r_users : Z;
  r_active : Z;
  r_releasing : bool;
}.

Definition set_state (x : string) (r : replica) : replica :=
  {| r_request := r_request r; r_state := x; r_failure := r_failure r; r_load := r_load r; r_lease := r_lease r;
     r_limiter := r_limiter r; r_preparing := r_preparing r; r_prepareCancel := r_prepareCancel r; r_cancelled := r_cancelled r;
     r_prepareErr := r_prepareErr r; r_preparedDone := r_preparedDone r; r_doneClosed := r_doneClosed r;
     r_stopClosed := r_stopClosed r; r_users := r_users r; r_active := r_active r; r_releasing := r_releasing r |}.
Definition set_failure (x : option SafeError) (r : replica) : replica :=
  {| r_request := r_request r; r_state := r_state r; r_failure := x; r_load := r_load r; r_lease := r_lease r;
     r_limiter := r_limiter r; r_preparing := r_preparing r; r_prepareCancel := r_prepareCancel r; r_cancelled := r_cancelled r;
     r_prepareErr := r_prepareErr r; r_preparedDone := r_preparedDone r; r_doneClosed := r_doneClosed r;
     r_stopClosed := r_stopClosed r; r_users := r_users r; r_active := r_active r; r_releasing := r_releasing r |}.
(** [finishPrepare]: the goroutine has the cache's answer. *)
Definition set_answered (load : Result) (r : replica) : replica :=
  {| r_request := r_request r; r_state := r_state r; r_failure := r_failure r; r_load := load; r_lease := r_lease r;
     r_limiter := r_limiter r; r_preparing := false; r_prepareCancel := false; r_cancelled := r_cancelled r;
     r_prepareErr := r_prepareErr r; r_preparedDone := r_preparedDone r; r_doneClosed := r_doneClosed r;
     r_stopClosed := r_stopClosed r; r_users := r_users r; r_active := r_active r; r_releasing := r_releasing r |}.
Definition set_prepareErr (x : option error) (r : replica) : replica :=
  {| r_request := r_request r; r_state := r_state r; r_failure := r_failure r; r_load := r_load r; r_lease := r_lease r;
     r_limiter := r_limiter r; r_preparing := r_preparing r; r_prepareCancel := r_prepareCancel r; r_cancelled := r_cancelled r;
     r_prepareErr := x; r_preparedDone := r_preparedDone r; r_doneClosed := r_doneClosed r;
     r_stopClosed := r_stopClosed r; r_users := r_users r; r_active := r_active r; r_releasing := r_releasing r |}.
Definition set_lease (x : option nat) (releasing : bool) (r : replica) : replica :=
  {| r_request := r_request r; r_state := r_state r; r_failure := r_failure r; r_load := r_load r; r_lease := x;
     r_limiter := r_limiter r; r_preparing := r_preparing r; r_prepareCancel := r_prepareCancel r; r_cancelled := r_cancelled r;
     r_prepareErr := r_prepareErr r; r_preparedDone := r_preparedDone r; r_doneClosed := r_doneClosed r;
     r_stopClosed := r_stopClosed r; r_users := r_users r; r_active := r_active r; r_releasing := releasing |}.
Definition set_limiter (x : limiter) (r : replica) : replica :=
  {| r_request := r_request r; r_state := r_state r; r_failure := r_failure r; r_load := r_load r; r_lease := r_lease r;
     r_limiter := x; r_preparing := r_preparing r; r_prepareCancel := r_prepareCancel r; r_cancelled := r_cancelled r;
     r_prepareErr := r_prepareErr r; r_preparedDone := r_preparedDone r; r_doneClosed := r_doneClosed r;
     r_stopClosed := r_stopClosed r; r_users := r_users r; r_active := r_active r; r_releasing := r_releasing r |}.
(** [if current.prepareCancel != nil { current.prepareCancel() }] *)
Definition cancel_prepare (r : replica) : replica :=
  {| r_request := r_request r; r_state := r_state r; r_failure := r_failure r; r_load := r_load r; r_lease := r_lease r;
     r_limiter := r_limiter r; r_preparing := r_preparing r; r_prepareCancel := r_prepareCancel r;
     r_cancelled := r_prepareCancel r || r_cancelled r;
     r_prepareErr := r_prepareErr r; r_preparedDone := r_preparedDone r; r_doneClosed := r_doneClosed r;
     r_stopClosed := r_stopClosed r; r_users := r_users r; r_active := r_active r; r_releasing := r_releasing r |}.
Definition set_channels (prepared done_ stop : bool) (r : replica) : replica :=
  {| r_request := r_request r; r_state := r_state r; r_failure := r_failure r; r_load := r_load r; r_lease := r_lease r;
     r_limiter := r_limiter r; r_preparing := r_preparing r; r_prepareCancel := r_prepareCancel r; r_cancelled := r_cancelled r;
     r_prepareErr := r_prepareErr r; r_preparedDone := prepared; r_doneClosed := done_;
     r_stopClosed := stop; r_users := r_users r; r_active := r_active r; r_releasing := r_releasing r |}.
Definition set_counts (users active : Z) (r : replica) : replica :=
  {| r_request := r_request r; r_state := r_state r; r_failure := r_failure r; r_load := r_load r; r_lease := r_lease r;
     r_limiter := r_limiter r; r_preparing := r_preparing r; r_prepareCancel := r_prepareCancel r; r_cancelled := r_cancelled r;
     r_prepareErr := r_prepareErr r; r_preparedDone := r_preparedDone r; r_doneClosed := r_doneClosed r;
     r_stopClosed := r_stopClosed r; r_users := users; r_active := active; r_releasing := r_releasing r |}.

(** The cache's profile and execution limits do not change. *)
Record Agent := {
  ag_profile : wasmprofile.Profile;
  ag_executionLimits : ExecutionLimits;
  ag_maxAssignments : Z;
  ag_maxConcurrent : Z;
  ag_maxQueuedPerReplica : Z;
  ag_prepareTimeout : Z;
  ag_gate : Gate;
  ag_limiter : limiter;
  ag_stopped : bool;
  ag_heap : list replica;
  ag_replicas : gmap string nat;
  ag_revision : Z;
  ag_closing : bool;
  ag_closed : bool;
  ag_cacheClosing : bool;
  ag_closeErr : option error;
}.

Definition with_mutable (a : Agent) (gate : Gate) (lim : limiter) (heap : list replica) (replicas : gmap string nat) (revision : Z) : Agent :=
  {| ag_profile := ag_profile a; ag_executionLimits := ag_executionLimits a; ag_maxAssignments := ag_maxAssignments a;
     ag_maxConcurrent := ag_maxConcurrent a; ag_maxQueuedPerReplica := ag_maxQueuedPerReplica a;
     ag_prepareTimeout := ag_prepareTimeout a; ag_gate := gate; ag_limiter := lim; ag_stopped := ag_stopped a;
     ag_heap := heap; ag_replicas := replicas; ag_revision := revision; ag_closing := ag_closing a; ag_closed := ag_closed a;
     ag_cacheClosing := ag_cacheClosing a; ag_closeErr := ag_closeErr a |}.
Definition set_gate (g : Gate) (a : Agent) : Agent :=
  with_mutable a g (ag_limiter a) (ag_heap a) (ag_replicas a) (ag_revision a).
Definition set_global (l : limiter) (a : Agent) : Agent :=
  with_mutable a (ag_gate a) l (ag_heap a) (ag_replicas a) (ag_revision a).
Definition set_heap (heap : list replica) (a : Agent) : Agent :=
  with_mutable a (ag_gate a) (ag_limiter a) heap (ag_replicas a) (ag_revision a).
Definition set_replicas (replicas : gmap string nat) (a : Agent) : Agent :=
  with_mutable a (ag_gate a) (ag_limiter a) (ag_heap a) replicas (ag_revision a).
Definition set_revision (revision : Z) (a : Agent) : Agent :=
  with_mutable a (ag_gate a) (ag_limiter a) (ag_heap a) (ag_replicas a) revision.
Definition set_closing (closing stopped closed cacheClosing : bool) (closeErr : option error) (a : Agent) : Agent :=
  {| ag_profile := ag_profile a; ag_executionLimits := ag_executionLimits a; ag_maxAssignments := ag_maxAssignments a;
     ag_maxConcurrent := ag_maxConcurrent a; ag_maxQueuedPerReplica := ag_maxQueuedPerReplica a;
     ag_prepareTimeout := ag_prepareTimeout a; ag_gate := ag_gate a; ag_limiter := ag_limiter a; ag_stopped := stopped;
     ag_heap := ag_heap a; ag_replicas := ag_replicas a; ag_revision := ag_revision a; ag_closing := closing; ag_closed := closed;
     ag_cacheClosing := cacheClosing; ag_closeErr := closeErr |}.

(** [newAgent], with the first reading of the gate's clock. *)
Record Config := {
  cg_Authorization : servingauth.Config;
  cg_MaxAssignments : Z;
  cg_MaxConcurrent : Z;
  cg_MaxQueued : Z;
  cg_MaxQueuedPerReplica : Z;
  cg_PrepareTimeout : Z;
}.

Definition newAgent (config : Config) (profile : wasmprofile.Profile) (limits : ExecutionLimits) (elapsed : Z) : result Agent :=
  let maxAssignments := if cg_MaxAssignments config =? 0 then DefaultMaxAssignments else cg_MaxAssignments config in
  let maxConcurrent := if cg_MaxConcurrent config =? 0 then DefaultMaxConcurrent else cg_MaxConcurrent config in
  let maxQueued := if cg_MaxQueued config =? 0 then DefaultMaxQueued else cg_MaxQueued config in
  let maxQueuedPerReplica :=
    if cg_MaxQueuedPerReplica config =? 0 then Z.min DefaultMaxQueuedPerReplica maxQueued else cg_MaxQueuedPerReplica config in
  let prepareTimeout := if cg_PrepareTimeout config =? 0 then DefaultPrepareTimeout else cg_PrepareTimeout config in
  fail_if ((maxAssignments <? 1) || (maxAssignments >? HardMaxAssignments))
    (PlainError "worker agent assignment limit is outside v1 bounds") ;;;
  fail_if ((maxConcurrent <? 1) || (maxConcurrent >? HardMaxConcurrent))
    (PlainError "worker agent concurrency is outside v1 bounds") ;;;
  fail_if ((maxQueued <? 1) || (maxQueued >? HardMaxQueued)) (PlainError "worker agent queue limit is outside v1 bounds") ;;;
  fail_if ((maxQueuedPerReplica <? 1) || (maxQueuedPerReplica >? HardMaxQueuedPerReplica) || (maxQueuedPerReplica >? maxQueued))
    (PlainError "worker agent replica queue limit is outside v1 bounds") ;;;
  fail_if ((prepareTimeout <? millisecond) || (prepareTimeout >? HardMaxPrepareTimeout))
    (PlainError "worker agent prepare timeout is outside v1 bounds") ;;;
  fail_if (maxConcurrent >? el_MaxConcurrent limits) (PlainError "worker agent concurrency exceeds runtime capacity") ;;;
  gate <- wrap_err "creating worker authorization gate" (servingauth.New (cg_Authorization config) elapsed) ;;
  Ok {| ag_profile := profile; ag_executionLimits := limits; ag_maxAssignments := maxAssignments;
        ag_maxConcurrent := maxConcurrent; ag_maxQueuedPerReplica := maxQueuedPerReplica;
        ag_prepareTimeout := prepareTimeout; ag_gate := gate; ag_limiter := newLimiter maxConcurrent maxQueued;
        ag_stopped := false; ag_heap := []; ag_replicas := ∅; ag_revision := 0; ag_closing := false; ag_closed := false;
        ag_cacheClosing := false; ag_closeErr := None |}.

(** ** Helpers under the mutex *)
Definition panic {A} (message : string) : M Agent A := sthrow (PlainError message).

Definition deref (p : nat) : M Agent replica := fun a =>
  match ag_heap a !! p with
  | Some r => (a, Ok r)
  | None => (a, Err (PlainError "invalid memory address or nil pointer dereference"))
  end.
Definition modify (p : nat) (f : replica -> replica) : M Agent unit :=
  let! r := deref p in
  let! a := sget in
  sput (set_heap (<[p := f r]> (ag_heap a)) a).

Definition bumpLocked : M Agent unit :=
  let! a := sget in sput (set_revision (u64 (ag_revision a + 1)) a).

Definition transitionLocked (p : nat) (state : string) : M Agent unit :=
  let! current := deref p in
  if r_state current == state then sret tt
  else if negb (validReplicaTransition (r_state current) state) then
    panic ("workeragent: invalid replica transition " +:+ r_state current +:+ " -> " +:+ state)
  else do! modify p (set_state state) in bumpLocked.

Definition close_prepared (r : replica) : replica := set_channels true (r_doneClosed r) (r_stopClosed r) r.
Definition close_stop (r : replica) : replica := set_channels (r_preparedDone r) (r_doneClosed r) true r.
Definition close_done (r : replica) : replica := set_channels (r_preparedDone r) true (r_stopClosed r) r.

Definition closePreparedLocked (p : nat) : M Agent unit :=
  let! current := deref p in
  if r_preparedDone current then sret tt else modify p close_prepared.

Definition closeStopLocked (p : nat) : M Agent unit :=
  let! current := deref p in
  if r_stopClosed current then sret tt else modify p close_stop.

Definition finishTerminalLocked (p : nat) : M Agent unit :=
  let! current := deref p in
  if negb (terminal (r_state current)) || r_preparing current || negb (r_users current =? 0)
     || bool_decide (is_Some (r_lease current)) || r_releasing current || r_doneClosed current then sret tt
  else do! modify p close_done in bumpLocked.

(** [releaseAction] *)
Definition releaseAction : Type := nat * nat.

Definition finalizeIdleLocked (p : nat) : M Agent (list releaseAction) :=
  let! current := deref p in
  if negb (r_users current =? 0) || r_preparing current then sret []
  else
    do! (if r_state current == ReplicaDraining then transitionLocked p ReplicaStopped else sret tt) in
    let! current := deref p in
    if negb (terminal (r_state current)) then sret []
    else
      match r_lease current, r_releasing current with
      | Some lease, false => do! modify p (set_lease None true) in sret [(p, lease)]
      | _, _ => do! finishTerminalLocked p in sret []
      end.

Definition ErrFull : string := "worker compiled cache has no evictable capacity".
Definition ErrEntryTooLarge : string := "compiled cache entry exceeds configured capacity".
Definition ErrLoadQueueFull : string := "worker compiled cache load queue is full".
Definition ErrCorrupt : string := "artifact content is corrupt".

Definition safeFailure (err : error) : SafeError :=
  let unclassified :=
    if errors_Is ErrFull err || errors_Is ErrEntryTooLarge err || errors_Is ErrLoadQueueFull err
    then {| se_Code := CodeOverloaded; se_Message := "worker runtime capacity is unavailable" |}
    else if errors_Is ErrCorrupt err
    then {| se_Code := CodeArtifactUnavailable; se_Message := "artifact verification failed" |}
    else {| se_Code := CodeArtifactUnavailable; se_Message := "replica preparation failed" |} in
  match as_problem err with
  | Some (code, message, _) => if Known code then {| se_Code := code; se_Message := message |} else unclassified
  | None => unclassified
  end.

Definition revoke (p : nat) : M Agent unit :=
  let! current := deref p in
  let! a := sget in
  sput (set_gate (Revoke (pq_ID (r_request current)) (ag_gate a)) a).

Definition drainReplicaLocked (p : nat) : M Agent (list releaseAction) :=
  let! current := deref p in
  if terminal (r_state current) then sret []
  else
    do! transitionLocked p ReplicaDraining in
    do! closeStopLocked p in
    do! modify p cancel_prepare in
    do! modify p (set_prepareErr (Some (classified CodeStaleAssignment "assignment was cancelled"))) in
    do! (if r_preparing current then sret tt else closePreparedLocked p) in
    do! revoke p in
    finalizeIdleLocked p.

Definition loseReplicaLocked (p : nat) : M Agent (list releaseAction) :=
  let! current := deref p in
  if terminal (r_state current) then sret []
  else
    do! transitionLocked p ReplicaLost in
    do! closeStopLocked p in
    do! modify p cancel_prepare in
    let changed := classified CodeStaleAssignment "worker session changed" in
    do! modify p (set_prepareErr (Some changed)) in
    do! modify p (set_failure (Some (safeFailure changed))) in
    do! (if r_preparing current then sret tt else closePreparedLocked p) in
    do! revoke p in
    finalizeIdleLocked p.

(** A loop over the Replica map that collects the actions of [f]. *)
Fixpoint collect (f : nat -> M Agent (list releaseAction)) (order : list nat) : M Agent (list releaseAction) :=
  match order with
  | [] => sret []
  | p :: order => let! actions := f p in let! rest := collect f order in sret (actions ++ rest)
  end.

Definition observeLocked (current : replica) : Observation :=
  {| ob_Identity := pq_Assignment (r_request current); ob_Module := pq_Module (r_request current);
     ob_State := r_state current; ob_Failure := r_failure current; ob_Load := r_load current;
     ob_ActiveInvocations := r_active current; ob_QueuedInvocations := lm_queue (r_limiter current) |}.

Definition incompatibleAssignment (previous next : AssignmentIdentity) : error :=
  if (ai_VersionID previous != ai_VersionID next) || negb (ai_AdmissionEpoch previous =? ai_AdmissionEpoch next)
     || negb (ai_DeploymentGeneration previous =? ai_DeploymentGeneration next)
     || (ai_PolicyDigest previous != ai_PolicyDigest next)
  then classified CodeStaleGeneration "assignment generation identity changed"
  else classified CodeStaleAssignment "assignment identity changed".

(** ** Control session *)
Definition closing_error : error := classified CodeWorkerLost "worker agent is closing".

(** What a locked region returns: release actions to run after unlocking, and
    the error for the caller. *)
Definition Actions : Type := list releaseAction * option error.

Definition error_of {A} (r : result A) : option error := match r with Ok _ => None | Err err => Some err end.

Definition lose_stale (epoch : Z) (p : nat) : M Agent (list releaseAction) :=
  let! current := deref p in
  if ws_SessionEpoch (ai_Worker (pq_Assignment (r_request current))) =? epoch then sret [] else loseReplicaLocked p.

Definition lose_unchecked (p : nat) : M Agent (list releaseAction) :=
  let! current := deref p in
  if negb (r_preparing current) then sret []
  else let! a := sget in
       match CheckAssignment (pq_Connection (r_request current)) (pq_Fence (r_request current)) (ag_gate a) with
       | Err _ => loseReplicaLocked p
       | Ok _ => sret []
       end.

(** [order] and [order'] are the iteration orders of the two loops. *)
Definition AcceptControl (order order' : list nat) (connection : ControlConnection) : M Agent Actions :=
  let! a := sget in
  if ag_closing a then sret ([], Some closing_error)
  else
    let before := Snapshot (ag_gate a) in
    let '(gate, err) := AcceptAuthoritativeControl connection (ag_gate a) in
    let after := Snapshot gate in
    do! sput (set_gate gate a) in
    let! actions := if gs_CurrentSessionEpoch after >? gs_CurrentSessionEpoch before
                    then collect (lose_stale (gs_CurrentSessionEpoch after)) order else sret [] in
    let! actions' := collect lose_unchecked order' in
    sret (actions ++ actions', error_of err).

Definition lose_disconnected (connection : ControlConnection) (p : nat) : M Agent (list releaseAction) :=
  let! current := deref p in
  if r_preparing current && (pq_Connection (r_request current) == connection) then loseReplicaLocked p else sret [].

Definition DisconnectControl (order : list nat) (connection : ControlConnection) : M Agent Actions :=
  let! a := sget in
  let before := Snapshot (ag_gate a) in
  let gate := servingauth.DisconnectControl connection (ag_gate a) in
  let after := Snapshot gate in
  do! sput (set_gate gate a) in
  let! actions := if gs_ControlConnected before && negb (gs_ControlConnected after)
                  then collect (lose_disconnected connection) order else sret [] in
  sret (actions, None).

(** ** Preparation *)
#[global] Instance ModuleSpec_eq_dec : EqDecision ModuleSpec.
Proof. solve_decision. Defined.

Definition samePreparation (left right : PrepareRequest) : bool :=
  (pq_Connection left == pq_Connection right) && (pq_Fence left == pq_Fence right) && (pq_Module left == pq_Module right).

Definition executionLimitsSatisfy (policy : EffectivePolicy) (limits : ExecutionLimits) : bool :=
  let abiLimits := el_ABILimits limits in
  let resources := ep_ResourceLimits policy in
  let standardMetadata :=
    (abi.lm_MetadataBytes abiLimits >=? abi.DefaultMetadataBytes) && (abi.lm_HeaderCount abiLimits >=? abi.DefaultHeaderCount)
    && (abi.lm_HeaderBytes abiLimits >=? abi.DefaultHeaderBytes) && (abi.lm_HeaderValueBytes abiLimits >=? abi.DefaultHeaderValueBytes)
    && (abi.lm_QueryPairs abiLimits >=? abi.DefaultQueryPairs) && (abi.lm_QueryBytes abiLimits >=? abi.DefaultQueryBytes)
    && (abi.lm_JSONDepth abiLimits >=? abi.DefaultJSONDepth) && (abi.lm_MethodBytes abiLimits >=? abi.DefaultMethodBytes)
    && (abi.lm_PathBytes abiLimits >=? abi.DefaultPathBytes) in
  let requiredRawEnvelope :=
    Z.max (responseEnvelopeBytes (rl_MaxInputBytes resources)) (responseEnvelopeBytes (rl_MaxOutputBytes resources)) in
  (el_MaxTimeout limits >=? rl_Timeout resources) && (el_MaxConcurrentPerProgram limits >=? ep_MaxConcurrency policy)
  && (abi.lm_BodyBytes abiLimits >=? rl_MaxInputBytes resources) && (abi.lm_BodyBytes abiLimits >=? rl_MaxOutputBytes resources)
  && (abi.lm_RawEnvelopeBytes abiLimits >=? requiredRawEnvelope) && standardMetadata
  && (el_MaxLogBytes limits >=? rl_MaxLogBytes resources) && (el_MaxLogLineBytes limits >=? DefaultMaxLogLineBytes).

Definition validatePrepare `{JCS} (a : Agent) (request : PrepareRequest) : result unit :=
  let policy := pq_Policy request in
  let identity := pq_Assignment request in
  let module := pq_Module request in
  EffectivePolicy_Validate policy ;;;
  policyDigest <- wrap_err "digesting effective policy" (EffectivePolicy_Digest policy) ;;
  fail_if (policyDigest != ai_PolicyDigest identity)
    (classified CodeStaleGeneration "assignment policy digest does not match effective policy") ;;;
  fail_if (negb ((ai_VersionID identity == ep_VersionID policy) && (ai_AdmissionEpoch identity =? ep_AdmissionEpoch policy)
                 && (ai_DeploymentGeneration identity =? ep_DeploymentGeneration policy)))
    (classified CodeStaleGeneration "assignment identity does not match effective policy") ;;;
  fail_if (negb ((workercache.ms_ArtifactDigest module == ep_ArtifactDigest policy)
                 && (workercache.ms_ArtifactSize module =? ep_ArtifactSize policy) && (workercache.ms_ABI module == ep_ABI policy)
                 && (workercache.ms_HostAPIProfile module == ep_HostAPIProfile policy)
                 && (workercache.ms_RuntimeFeatureProfile module == ep_RuntimeFeatureProfile policy)))
    (classified CodeStaleGeneration "assignment module does not match effective policy") ;;;
  fail_if (negb (len (ep_GrantedCapabilities policy) =? 0))
    (classified CodeCapabilityDenied "worker runtime supports no optional host capabilities") ;;;
  fail_if (ep_MaxConcurrency policy >? u32 (ag_maxConcurrent a))
    (classified CodeCapabilityDenied "assignment concurrency exceeds worker capacity") ;;;
  fail_if (negb (wasmprofile.p_MemoryLimitMiB (ag_profile a) =? rl_MemoryMiB (ep_ResourceLimits policy)))
    (classified CodeCapabilityDenied "assignment memory tier does not match worker runtime") ;;;
  fail_if (negb (executionLimitsSatisfy policy (ag_executionLimits a)))
    (classified CodeCapabilityDenied "assignment limits do not match worker runtime").

Definition new_replica (a : Agent) (request : PrepareRequest) : replica :=
  {| r_request := request; r_state := ReplicaAssigned; r_failure := None; r_load := zero_Result; r_lease := None;
     r_limiter := newLimiter (ep_MaxConcurrency (pq_Policy request)) (ag_maxQueuedPerReplica a);
     r_preparing := true; r_prepareCancel := true; r_cancelled := false; r_prepareErr := None; r_preparedDone := false;
     r_doneClosed := false; r_stopClosed := false; r_users := 0; r_active := 0; r_releasing := false |}.

(** The caller returns at once, joins a running preparation, or has started one
    and waits for it. *)
Inductive prepare_outcome :=
| PrepareRefused (err : error)
| PrepareDone (observation : Observation) (err : option error)
| PrepareJoins (p : nat)
| PrepareStarts (p : nat).

Definition Prepare `{JCS} (request : PrepareRequest) : M Agent prepare_outcome :=
  let! a := sget in
  match validatePrepare a request with
  | Err err => sret (PrepareRefused err)
  | Ok _ =>
    if ag_closing a then sret (PrepareRefused closing_error)
    else
      match CheckAssignment (pq_Connection request) (pq_Fence request) (ag_gate a) with
      | Err err => sret (PrepareRefused err)
      | Ok _ =>
        match ag_replicas a !! pq_ID request with
        | Some p =>
          let! current := deref p in
          if negb (samePreparation (r_request current) request) then
            sret (PrepareRefused (incompatibleAssignment (pq_Assignment (r_request current)) (pq_Assignment request)))
          else if r_preparedDone current then sret (PrepareDone (observeLocked current) (r_prepareErr current))
          else sret (PrepareJoins p)
        | None =>
          if Z.of_nat (size (ag_replicas a)) >=? ag_maxAssignments a then
            sret (PrepareRefused (classified CodeOverloaded "worker replica capacity is full"))
          else
            let p := length (ag_heap a) in
            do! sput (set_replicas (<[pq_ID request := p]> (ag_replicas a)) (set_heap (ag_heap a ++ [new_replica a request]) a)) in
            do! bumpLocked in
            do! transitionLocked p ReplicaFetching in
            sret (PrepareStarts p)
        end
      end
  end.

Definition preparationResult (p : nat) : M Agent (Observation * option error) :=
  let! current := deref p in sret (observeLocked current, r_prepareErr current).

Definition cacheResultMatches (request : PrepareRequest) (result : Result) : bool :=
  let key := rs_Key result in
  let policy := pq_Policy request in
  (workercache.k_ArtifactDigest key == workercache.ms_ArtifactDigest (pq_Module request))
  && (workercache.k_ArtifactSize key =? workercache.ms_ArtifactSize (pq_Module request))
  && (workercache.k_ABI key == ep_ABI policy) && (workercache.k_HostAPIProfile key == ep_HostAPIProfile policy)
  && (workercache.k_RuntimeFeatureProfile key == ep_RuntimeFeatureProfile policy)
  && (workercache.k_MemoryLimitMiB key =? rl_MemoryMiB (ep_ResourceLimits policy)).

Definition finishFailedPreparationLocked (p : nat) (err : error) : M Agent unit :=
  let! current := deref p in
  do! (if r_state current == ReplicaDraining then
         do! modify p (set_prepareErr (Some (classified CodeStaleAssignment "assignment was cancelled during preparation"))) in
         transitionLocked p ReplicaStopped
       else if r_state current == ReplicaLost then
         modify p (set_prepareErr (Some (classified CodeStaleAssignment "worker session changed during preparation")))
       else
         do! modify p (set_prepareErr (Some err)) in
         do! modify p (set_failure (Some (safeFailure err))) in
         transitionLocked p ReplicaFailed) in
  do! closeStopLocked p in
  do! closePreparedLocked p in
  finishTerminalLocked p.

(** A prepared Replica that cannot serve: its lease goes back to the cache. *)
Definition abandon (p : nat) (err : error) (next : string) (lease : nat) : M Agent (list releaseAction) :=
  do! modify p (set_prepareErr (Some err)) in
  do! modify p (set_failure (Some (safeFailure err))) in
  do! transitionLocked p next in
  do! closeStopLocked p in
  do! closePreparedLocked p in
  do! modify p (fun r => set_lease (r_lease r) true r) in
  sret [(p, lease)].

(** [finishPrepare], for the outcome of [cache.acquire]: a lease or an error. *)
Definition finishPrepare (p : nat) (load : Result) (acquired : nat + error) : M Agent (list releaseAction) :=
  do! modify p (set_answered load) in
  match acquired with
  | inr err => do! finishFailedPreparationLocked p err in sret []
  | inl lease =>
    let! current := deref p in
    let! a := sget in
    if (r_state current == ReplicaDraining) || (r_state current == ReplicaLost) || ag_closing a then
      do! modify p (set_prepareErr (Some (classified CodeStaleAssignment "assignment stopped during replica preparation"))) in
      do! (if r_state current == ReplicaDraining then transitionLocked p ReplicaStopped else sret tt) in
      do! closePreparedLocked p in
      do! modify p (fun r => set_lease (r_lease r) true r) in
      sret [(p, lease)]
    else
      match CheckAssignment (pq_Connection (r_request current)) (pq_Fence (r_request current)) (ag_gate a) with
      | Err err => abandon p err ReplicaLost lease
      | Ok _ =>
        if negb (cacheResultMatches (r_request current) load) then
          abandon p (classified CodeCapabilityDenied "compiled runtime profile does not match assignment policy") ReplicaFailed lease
        else
          do! modify p (fun r => set_lease (Some lease) (r_releasing r) r) in
          do! transitionLocked p ReplicaValidating in
          do! transitionLocked p ReplicaCompiling in
          do! transitionLocked p ReplicaReady in
          do! closePreparedLocked p in
          sret []
      end
  end.

Definition not_ready : error := classified CodeNoReadyReplica "assignment replica is not ready".

(** [clock] is the reading of the gate's clock. *)
Definition InstallAuthorization (connection : ControlConnection) (authorization : Authorization) (clock : Z) : M Agent (option error) :=
  let! a := sget in
  if ag_closing a then sret (Some closing_error)
  else
    match ag_replicas a !! ai_AssignmentID (if_Assignment (au_Fence authorization)) with
    | None => sret (Some not_ready)
    | Some p =>
      let! current := deref p in
      if r_state current != ReplicaReady then sret (Some not_ready)
      else if pq_Assignment (r_request current) != if_Assignment (au_Fence authorization) then
        sret (Some (incompatibleAssignment (pq_Assignment (r_request current)) (if_Assignment (au_Fence authorization))))
      else
        let '(gate, r) := Install connection authorization clock (ag_gate a) in
        do! sput (set_gate gate a) in sret (error_of r)
    end.

(** ** Invocation

    [Invoke] locks the mutex four times: to look the Replica up, to count
    itself in, to check again once it has a slot, and in the callback that the
    runtime makes before it instantiates the guest. *)
Definition invoke_lookup (fence : InvocationFence) (bodyBytes timeout : Z) : M Agent (result (nat * InvocationPolicy)) :=
  let! a := sget in
  match ag_replicas a !! ai_AssignmentID (if_Assignment fence) with
  | None => sret (Err not_ready)
  | Some p =>
    let! current := deref p in
    sret (fail_if (ag_closing a || (r_state current != ReplicaReady)) not_ready ;;;
          fail_if (pq_Assignment (r_request current) != if_Assignment fence)
            (classified CodeStaleAssignment "invocation fence does not match ready replica") ;;;
          fail_if (bodyBytes >? rl_MaxInputBytes (ep_ResourceLimits (pq_Policy (r_request current))))
            (Invalid "body" "exceeds the assignment input limit") ;;;
          runtimePolicy <- runtimeInvocationPolicy (pq_Policy (r_request current)) timeout ;;
          Ok (p, runtimePolicy))
  end.

(** Whether [current] is still the Ready Replica of its Assignment. *)
Definition serving (a : Agent) (fence : InvocationFence) (p : nat) (current : replica) : bool :=
  negb (ag_closing a) && (r_state current == ReplicaReady)
  && bool_decide (ag_replicas a !! ai_AssignmentID (if_Assignment fence) = Some p).

Definition invoke_enter (fence : InvocationFence) (p : nat) : M Agent (result nat) :=
  let! a := sget in
  let! current := deref p in
  if negb (serving a fence p current) then sret (Err not_ready)
  else
    match r_lease current with
    | None => panic "nil lease"
    | Some lease => do! modify p (set_counts (r_users current + 1) (r_active current)) in do! bumpLocked in sret (Ok lease)
    end.

Definition invoke_recheck (fence : InvocationFence) (p : nat) : M Agent (option error) :=
  let! a := sget in
  let! current := deref p in
  sret (if serving a fence p current then None
        else Some (classified CodeStaleAssignment "assignment stopped before invocation acceptance")).

(** The [Check] callback.  [expired] and [expired'] say whether the context has
    ended at its two checks. *)
Definition invoke_check (fence : InvocationFence) (p : nat) (expired expired' : bool) (clock : Z) : M Agent (option error) :=
  let late := classified CodeFunctionTimeout "invocation deadline was exceeded before acceptance" in
  if expired then sret (Some late)
  else
    let! a := sget in
    let! current := deref p in
    if negb (serving a fence p current) then
      sret (Some (classified CodeStaleAssignment "assignment stopped before invocation acceptance"))
    else
      let '(gate, r) := AuthorizeSync fence clock (ag_gate a) in
      do! sput (set_gate gate a) in
      match r with
      | Err err => sret (Some err)
      | Ok _ =>
        if expired' then sret (Some late)
        else do! modify p (set_counts (r_users current) (r_active current + 1)) in do! bumpLocked in sret None
      end.

Definition finishInvocation (p : nat) (accepted : bool) : M Agent (list releaseAction) :=
  let! current := deref p in
  do! modify p (set_counts (r_users current - 1) (if accepted then r_active current - 1 else r_active current)) in
  do! bumpLocked in
  finalizeIdleLocked p.

Definition stoppingAdmissionError (p : nat) : M Agent error :=
  let! a := sget in
  let! current := deref p in
  sret (if ag_closing a then closing_error
        else if r_state current != ReplicaReady then classified CodeStaleAssignment "assignment stopped while queued"
        else classified CodeStaleAssignment "invocation admission was fenced").

(** [globalAdmissionError] and [replicaAdmissionError] differ in the message for
    a full queue. *)
Definition admissionError (full : string) (p : nat) (err : error) : M Agent error :=
  if errors_Is errQueueFull err then sret (classified CodeOverloaded full)
  else if errors_Is errStopping err then stoppingAdmissionError p
  else sret (classified CodeFunctionTimeout "invocation deadline was exceeded while queued").
Definition globalAdmissionError : nat -> error -> M Agent error := admissionError "worker invocation queue is full".
Definition replicaAdmissionError : nat -> error -> M Agent error := admissionError "replica invocation queue is full".

(** ** Cancellation, acknowledgement and inventory *)
Definition Cancel (request : CancelRequest) : M Agent Actions :=
  let! a := sget in
  if ag_closing a then sret ([], Some closing_error)
  else
    match CheckAssignment (cq_Connection request) (cq_Fence request) (ag_gate a) with
    | Err err => sret ([], Some err)
    | Ok _ =>
      match ag_replicas a !! ai_AssignmentID (if_Assignment (cq_Fence request)) with
      | None => sret ([], None)
      | Some p =>
        let! current := deref p in
        if pq_Assignment (r_request current) != if_Assignment (cq_Fence request) then
          sret ([], Some (incompatibleAssignment (pq_Assignment (r_request current)) (if_Assignment (cq_Fence request))))
        else let! actions := drainReplicaLocked p in sret (actions, None)
      end
    end.

Definition AcknowledgeTerminal (connection : ControlConnection) (assignmentID : string) : M Agent (option error) :=
  let! a := sget in
  if ag_closing a then sret (Some closing_error)
  else
    match CheckControl connection (ag_gate a) with
    | Err err => sret (Some err)
    | Ok _ =>
      match ag_replicas a !! assignmentID with
      | None => sret None
      | Some p =>
        let! current := deref p in
        if negb (terminal (r_state current)) || negb (r_doneClosed current) then
          sret (Some (classified CodeConflict "assignment replica has not fully stopped"))
        else do! sput (set_replicas (delete assignmentID (ag_replicas a)) a) in do! bumpLocked in sret None
      end
    end.

Record Inventory := {
  iv_Revision : Z;
  iv_Replicas : list Observation;
  iv_Authorization : GateSnapshot;
  iv_Closing : bool;
  iv_Closed : bool;
}.

Definition compareObservation (left right : Observation) : Z :=
  strings_Compare (ai_AssignmentID (ob_Identity left)) (ai_AssignmentID (ob_Identity right)).

(** [Inventory] for one iteration order of the Replica map, without the
    statistics of the cache. *)
Definition inventory_in (order : list nat) (a : Agent) : Inventory :=
  {| iv_Revision := ag_revision a;
     iv_Replicas := SortFunc compareObservation (observeLocked <$> omap (fun p => ag_heap a !! p) order);
     iv_Authorization := Snapshot (ag_gate a); iv_Closing := ag_closing a; iv_Closed := ag_closed a |}.

(** ** Closing *)
Definition beginClose (order : list nat) : M Agent (list releaseAction * list nat) :=
  let! a := sget in
  do! (if ag_closing a then sret tt
       else do! sput (set_closing true true (ag_closed a) (ag_cacheClosing a) (ag_closeErr a) a) in bumpLocked) in
  let! actions := collect drainReplicaLocked order in
  sret (actions, order).

(** [closeCache] up to its call of [cache.close]: it returns, waits for another
    caller, or goes on. *)
Inductive close_outcome := CloseReturns (err : option error) | CloseWaits | CloseProceeds.

Definition closeCache_begin : M Agent close_outcome :=
  let! a := sget in
  if ag_closed a then sret (CloseReturns (ag_closeErr a))
  else if ag_cacheClosing a then sret CloseWaits
  else do! sput (set_closing (ag_closing a) (ag_stopped a) (ag_closed a) true (ag_closeErr a) a) in sret CloseProceeds.

Definition closeCache_end (err : option error) : M Agent unit :=
  let! a := sget in
  match err with
  | None => do! sput (set_closing (ag_closing a) (ag_stopped a) true false None a) in bumpLocked
  | Some _ => sput (set_closing (ag_closing a) (ag_stopped a) (ag_closed a) false err a)
  end.

(** [release], after [lease.Release()]. *)
Definition finish_release (p : nat) : M Agent unit :=
  do! modify p (fun r => set_lease (r_lease r) false r) in finishTerminalLocked p.

End agent.
