(* ===== verification/WorkerServing.v ===== *)
(** * Package [internal/workeragent]: the goroutines of a Worker

    Control calls, preparations, invocations and shutdown interleave.  A
    goroutine is a [thread] that stands between two regions of the Agent's
    mutex, or at a channel operation; an [event] is one step of one goroutine, or
    a call from outside.  Any list of events is a schedule.  The compiled-module
    cache hands out leases and takes them back; [w_granted] counts the leases it
    has handed out and [w_released] records the calls of [Release]. *)
From stdpp Require Import base gmap strings list.
From S2P Require Import Prelude Problem Digest Json Model ServingAuth Scheduler Net Abi WorkerAgent.
Import problem digest model agent.

#[local] Open Scope Z_scope.

Module serving.

(** ** Goroutines *)

(** Where a call of [Invoke] stands once it has counted itself in: at the
    Replica's limiter; at the check after it; in the lease's
    [InvokeWithAcceptance], before the [Acquire] callback, in it, between it and
    the [Check] callback, and after that; at the releases that end it.  The
    error is the one that [Invoke] returns. *)
Inductive phase :=
| AtReplica (at_ : acquiring)
| AtRecheck
| InLease
| AtWorker (at_ : acquiring)
| Permitted
| Running
| ReleasingWorker (accepted : bool) (err : option error)
| ReleasingReplica (accepted : bool) (err : option error)
| Finishing (accepted : bool) (err : option error).

Inductive thread :=
| TDone
| TPrepare (p : nat)
| TLookedUp (p : nat) (fence : InvocationFence) (policy : InvocationPolicy)
| TInvoke (p : nat) (fence : InvocationFence) (lease : nat) (ph : phase)
| TRelease (actions : list releaseAction) (next : option (list nat))
| TReleased (p : nat) (actions : list releaseAction) (next : option (list nat))
| TWait (waits : list nat)
| TCloseCache.

Record World := {
  w_agent : Agent;
  w_threads : list thread;
  w_granted : nat;
  w_released : list nat;
}.

Inductive event :=
| EvAcceptControl (order order' : list nat) (connection : ControlConnection)
| EvDisconnectControl (order : list nat) (connection : ControlConnection)
| EvPrepare (request : PrepareRequest)
| EvPrepared (tid : nat) (load : Result) (failure : option error)
| EvInstallAuthorization (connection : ControlConnection) (authorization : Authorization) (clock : Z)
| EvInvoke (fence : InvocationFence) (bodyBytes timeout : Z)
| EvEnter (tid : nat) (elapsed : Z)
| EvAcquire (tid : nat) (c : choice)
| EvRecheck (tid : nat)
| EvCallAcquire (tid : nat)
| EvCheck (tid : nat) (expired expired' : bool) (clock : Z)
| EvReturn (tid : nat) (err : option error)
| EvReleaseSlot (tid : nat)
| EvFinish (tid : nat)
| EvRelease (tid : nat)
| EvReleased (tid : nat)
| EvCancel (request : CancelRequest)
| EvAcknowledge (connection : ControlConnection) (assignmentID : string)
| EvClose (order : list nat)
| EvWait (tid : nat)
| EvGiveUp (tid : nat)
| EvCloseCache (tid : nat)
| EvCacheClosed (tid : nat) (err : option error).

(** ** Steps *)
Inductive outcome := Disabled | Panicked (err : error) | Stepped (w : World).

Section steps.
Context `{HJ : JCS}.

(** A region of the mutex, then what the goroutine does next. *)
Definition region {A} (m : M Agent A) (w : World) (k : A -> Agent -> World) : outcome :=
  match m (w_agent w) with
  | (a, Ok x) => Stepped (k x a)
  | (_, Err err) => Panicked err
  end.

Definition spawn (w : World) (t : thread) (a : Agent) : World :=
  {| w_agent := a; w_threads := w_threads w ++ [t]; w_granted := w_granted w; w_released := w_released w |}.
Definition becomes (w : World) (tid : nat) (t : thread) (a : Agent) : World :=
  {| w_agent := a; w_threads := <[tid := t]> (w_threads w); w_granted := w_granted w; w_released := w_released w |}.
Definition grant (w : World) : World :=
  {| w_agent := w_agent w; w_threads := w_threads w; w_granted := S (w_granted w); w_released := w_released w |}.
Definition call_Release (w : World) (lease : nat) : World :=
  {| w_agent := w_agent w; w_threads := w_threads w; w_granted := w_granted w; w_released := lease :: w_released w |}.

(** The Replica map may be iterated in any order. *)
Definition iterates (order : list nat) (a : Agent) : bool := bool_decide (order ≡ₚ (map_to_list (ag_replicas a)).*2).

Definition call (w : World) (m : M Agent (option error)) : outcome := region m w (fun _ a => spawn w TDone a).
Definition call_releasing (w : World) (m : M Agent Actions) : outcome :=
  region m w (fun actions a => spawn w (TRelease (fst actions) None) a).

(** [InvokeWithAcceptance] has returned [err]. *)
Definition ErrAcceptanceStopped : string := "wasmexec invocation acceptance stopped".
Definition lease_error (p : nat) (err : option error) : M Agent (option error) :=
  match err with
  | Some err => if errors_Is ErrAcceptanceStopped err then let! err := stoppingAdmissionError p in sret (Some err) else sret (Some err)
  | None => sret None
  end.

(** One step of the limiter at which the goroutine stands. *)
Definition step_limiter (w : World) (tid p : nat) (fence : InvocationFence) (lease : nat) (ph : phase) (c : choice) : outcome :=
  let a := w_agent w in
  match ag_heap a !! p with
  | None => Disabled
  | Some r =>
    let stopped := r_stopClosed r || ag_stopped a in
    match ph with
    | AtReplica at_ =>
      match acquire (r_limiter r) stopped at_ c with
      | None => Disabled
      | Some (l, next) =>
        let w := {| w_agent := set_heap (<[p := set_limiter l r]> (ag_heap a)) a; w_threads := w_threads w;
                    w_granted := w_granted w; w_released := w_released w |} in
        match next with
        | Continue at_ => Stepped (becomes w tid (TInvoke p fence lease (AtReplica at_)) (w_agent w))
        | Acquired => Stepped (becomes w tid (TInvoke p fence lease AtRecheck) (w_agent w))
        | Refused err =>
          region (replicaAdmissionError p err) w (fun err a => becomes w tid (TInvoke p fence lease (Finishing false (Some err))) a)
        end
      end
    | AtWorker at_ =>
      match acquire (ag_limiter a) stopped at_ c with
      | None => Disabled
      | Some (l, next) =>
        let w := {| w_agent := set_global l a; w_threads := w_threads w; w_granted := w_granted w; w_released := w_released w |} in
        match next with
        | Continue at_ => Stepped (becomes w tid (TInvoke p fence lease (AtWorker at_)) (w_agent w))
        | Acquired => Stepped (becomes w tid (TInvoke p fence lease Permitted) (w_agent w))
        | Refused err =>
          region (globalAdmissionError p err) w (fun err a => becomes w tid (TInvoke p fence lease (ReleasingReplica false (Some err))) a)
        end
      end
    | _ => Disabled
    end
  end.

(** One step of a call of [Invoke]. *)
Definition step_invoke (w : World) (tid p : nat) (fence : InvocationFence) (lease : nat) (ph : phase) (e : event) : outcome :=
  let a := w_agent w in
  let next ph := becomes w tid (TInvoke p fence lease ph) in
  match e, ph with
  | EvAcquire _ c, _ => step_limiter w tid p fence lease ph c
  | EvRecheck _, AtRecheck =>
    region (invoke_recheck fence p) w (fun err => match err with
      | None => next InLease
      | Some err => next (ReleasingReplica false (Some err))
      end)
  | EvCallAcquire _, InLease => Stepped (next (AtWorker Arriving) a)
  | EvCheck _ expired expired' clock, Permitted =>
    region (invoke_check fence p expired expired' clock) w (fun err => match err with
      | None => next Running
      | Some err => next (ReleasingWorker false (Some err))
      end)
  | EvReturn _ (Some err), InLease => region (lease_error p (Some err)) w (fun err => next (ReleasingReplica false err))
  | EvReturn _ (Some err), Permitted => Stepped (next (ReleasingWorker false (Some err)) a)
  | EvReturn _ err, Running => Stepped (next (ReleasingWorker true err) a)
  | EvReleaseSlot _, ReleasingWorker accepted err =>
    match limiter_release (ag_limiter a) with
    | None => Disabled
    | Some l =>
      let w := {| w_agent := set_global l a; w_threads := w_threads w; w_granted := w_granted w; w_released := w_released w |} in
      region (lease_error p err) w (fun err => next (ReleasingReplica accepted err))
    end
  | EvReleaseSlot _, ReleasingReplica accepted err =>
    match ag_heap a !! p with
    | None => Disabled
    | Some r =>
      match limiter_release (r_limiter r) with
      | None => Disabled
      | Some l => Stepped (next (Finishing accepted err) (set_heap (<[p := set_limiter l r]> (ag_heap a)) a))
      end
    end
  | EvFinish _, Finishing accepted err =>
    region (finishInvocation p accepted) w (fun actions => becomes w tid (TRelease actions None))
  | _, _ => Disabled
  end.

(** Steps of the other goroutines. *)
Definition step_thread (w : World) (tid : nat) (t : thread) (e : event) : outcome :=
  let a := w_agent w in
  match t, e with
  | TPrepare p, EvPrepared _ load failure =>
    match failure with
    | Some err => region (finishPrepare p load (inr err)) w (fun actions => becomes w tid (TRelease actions None))
    | None => region (finishPrepare p load (inl (w_granted w))) w (fun actions => becomes (grant w) tid (TRelease actions None))
    end
  | TLookedUp p fence policy, EvEnter _ elapsed =>
    if ip_Timeout policy - elapsed <=? 0 then Stepped (becomes w tid TDone a)
    else region (invoke_enter fence p) w (fun r => match r with
      | Ok lease => becomes w tid (TInvoke p fence lease (AtReplica Arriving))
      | Err _ => becomes w tid TDone
      end)
  | TInvoke p fence lease ph, _ => step_invoke w tid p fence lease ph e
  | TRelease ((p, lease) :: actions) next, EvRelease _ =>
    Stepped (becomes (call_Release w lease) tid (TReleased p actions next) a)
  | TReleased p actions next, EvReleased _ => region (finish_release p) w (fun _ => becomes w tid (TRelease actions next))
  | TRelease [] None, EvReleased _ => Stepped (becomes w tid TDone a)
  | TRelease [] (Some waits), EvWait _ => Stepped (becomes w tid (TWait waits) a)
  | TWait (p :: waits), EvWait _ =>
    match ag_heap a !! p with
    | Some r => if r_doneClosed r then Stepped (becomes w tid (TWait waits) a) else Disabled
    | None => Disabled
    end
  | TWait _, EvGiveUp _ => Stepped (becomes w tid TDone a)
  | TWait [], EvCloseCache _ =>
    match closeCache_begin a with
    | (a, Ok (CloseReturns _)) => Stepped (becomes w tid TDone a)
    | (_, Ok CloseWaits) => Disabled
    | (a, Ok CloseProceeds) => Stepped (becomes w tid TCloseCache a)
    | (_, Err err) => Panicked err
    end
  | TCloseCache, EvCacheClosed _ err => region (closeCache_end err) w (fun _ => becomes w tid TDone)
  | _, _ => Disabled
  end.

Definition thread_of (e : event) : option nat :=
  match e with
  | EvPrepared tid _ _ | EvEnter tid _ | EvAcquire tid _ | EvRecheck tid | EvCallAcquire tid | EvCheck tid _ _ _ | EvReturn tid _
  | EvReleaseSlot tid | EvFinish tid | EvRelease tid | EvReleased tid | EvWait tid | EvGiveUp tid | EvCloseCache tid
  | EvCacheClosed tid _ => Some tid
  | _ => None
  end.

(** A request is a Go value: its fields have the width of their types. *)
Definition uint32 (x : Z) : bool := (0 <=? x) && (x <? 2 ^ 32).

Definition step (e : event) (w : World) : outcome :=
  let a := w_agent w in
  match thread_of e with
  | Some tid => match w_threads w !! tid with Some t => step_thread w tid t e | None => Disabled end
  | None =>
    match e with
    | EvAcceptControl order order' connection =>
      if iterates order a && iterates order' a then call_releasing w (AcceptControl order order' connection) else Disabled
    | EvDisconnectControl order connection =>
      if iterates order a then call_releasing w (DisconnectControl order connection) else Disabled
    | EvPrepare request =>
      if negb (uint32 (ep_MaxConcurrency (pq_Policy request))) then Disabled
      else region (Prepare request) w (fun r => spawn w (match r with PrepareStarts p => TPrepare p | _ => TDone end))
    | EvInstallAuthorization connection authorization clock => call w (InstallAuthorization connection authorization clock)
    | EvInvoke fence bodyBytes timeout =>
      region (invoke_lookup fence bodyBytes timeout) w (fun r =>
        spawn w (match r with Ok (p, policy) => TLookedUp p fence policy | Err _ => TDone end))
    | EvCancel request => call_releasing w (Cancel request)
    | EvAcknowledge connection assignmentID => call w (AcknowledgeTerminal connection assignmentID)
    | EvClose order =>
      if iterates order a then region (beginClose order) w (fun r => spawn w (TRelease (fst r) (Some (snd r)))) else Disabled
    | _ => Disabled
    end
  end.

(** A schedule; events that are not ready are skipped. *)
Fixpoint run (es : list event) (w : World) : outcome :=
  match es with
  | [] => Stepped w
  | e :: es => match step e w with
               | Disabled => run es w
               | Panicked err => Panicked err
               | Stepped w => run es w
               end
  end.

Definition init (a : Agent) : World := {| w_agent := a; w_threads := []; w_granted := 0; w_released := [] |}.

End steps.

End serving.
