(* ===== verification/WorkerEffects.v ===== *)
(** * Package [internal/workeragent]: effects of the locked regions

    A region changes one Replica at a time; [goes] gives its net effect on it as
    a pure function.  [state_ok] says which combinations of a Replica's state,
    flags and lease occur; the effects keep it. *)
From stdpp Require Import base gmap strings list.
From S2P Require Import Prelude Problem Digest Json Model ServingAuth Scheduler Net Abi WorkerAgent.
Import problem digest model agent.

#[local] Open Scope Z_scope.

Module effects.

(** ** The effect of a region on one Replica *)

(** The Agent with another value of Replica [p], and other revision and gate. *)
Definition at_replica (a : Agent) (p : nat) (r : replica) (rev : Z) (g : Gate) : Agent :=
  with_mutable a g (ag_limiter a) (<[p := r]> (ag_heap a)) (ag_replicas a) rev.

Lemma at_replica_id a p r : ag_heap a !! p = Some r -> at_replica a p r (ag_revision a) (ag_gate a) = a.
Proof. intros H. unfold at_replica. rewrite list_insert_id by done. by destruct a. Qed.

Section goes.
Context (a : Agent) (p : nat) (Hp : (p < length (ag_heap a))%nat).

(** [m] returns [x] and changes the Replica from [r] to [r'] and the gate from
    [g] to [g']. *)
Definition goes {A} (m : M Agent A) (r : replica) (g : Gate) (x : A) (r' : replica) (g' : Gate) : Prop :=
  forall rev, exists rev', m (at_replica a p r rev g) = (at_replica a p r' rev' g', Ok x).

Lemma goes_bind {A B} (m : M Agent A) (k : A -> M Agent B) r g x r1 g1 y r2 g2 :
  goes m r g x r1 g1 -> goes (k x) r1 g1 y r2 g2 -> goes (sbind m k) r g y r2 g2.
Proof. intros Hm Hk rev. destruct (Hm rev) as [rev1 H1]. destruct (Hk rev1) as [rev2 H2]. exists rev2. unfold sbind. by rewrite H1. Qed.

Lemma goes_ret {A} (x : A) r g : goes (sret x) r g x r g.
Proof. intros rev. by exists rev. Qed.
Lemma goes_deref r g : goes (deref p) r g r r g.
Proof. intros rev. exists rev. unfold deref. cbn [at_replica with_mutable ag_heap]. by rewrite list_lookup_insert_eq. Qed.
Lemma goes_modify f r g : goes (modify p f) r g tt (f r) g.
Proof.
  intros rev. exists rev. unfold modify, sbind, sget, sput, deref, at_replica, set_heap, with_mutable. simpl.
  rewrite list_lookup_insert_eq by done. simpl. by rewrite list_insert_insert_eq.
Qed.
Lemma goes_bump r g : goes bumpLocked r g tt r g.
Proof. intros rev. by eexists. Qed.
Lemma goes_revoke r g : goes (revoke p) r g tt r (Revoke (pq_ID (r_request r)) g).
Proof. eapply goes_bind; [apply goes_deref|]. intros rev. by exists rev. Qed.

Lemma goes_transition state r g : r_state r = state \/ validReplicaTransition (r_state r) state = true ->
  goes (transitionLocked p state) r g tt (set_state state r) g.
Proof.
  intros H. eapply goes_bind; [apply goes_deref|]. cbv beta. destruct (r_state r == state) eqn:E; go_cases.
  { subst state. assert (set_state (r_state r) r = r) as -> by (by destruct r). apply goes_ret. }
  destruct H as [?|H]; [done|]. rewrite H. cbn [negb]. eapply goes_bind; [apply goes_modify|apply goes_bump].
Qed.
Lemma goes_closePrepared r g : goes (closePreparedLocked p) r g tt (close_prepared r) g.
Proof.
  eapply goes_bind; [apply goes_deref|]. cbv beta. destruct (r_preparedDone r) eqn:E; [|apply goes_modify].
  assert (close_prepared r = r) as -> by (destruct r; simpl in *; by subst). apply goes_ret.
Qed.
Lemma goes_closeStop r g : goes (closeStopLocked p) r g tt (close_stop r) g.
Proof.
  eapply goes_bind; [apply goes_deref|]. cbv beta. destruct (r_stopClosed r) eqn:E; [|apply goes_modify].
  assert (close_stop r = r) as -> by (destruct r; simpl in *; by subst). apply goes_ret.
Qed.

(** [finishTerminalLocked] *)
Definition idle (r : replica) : bool :=
  terminal (r_state r) && negb (r_preparing r) && (r_users r =? 0) && negb (bool_decide (is_Some (r_lease r))) && negb (r_releasing r).
Definition finish (r : replica) : replica := if idle r && negb (r_doneClosed r) then close_done r else r.

Lemma goes_finish r g : goes (finishTerminalLocked p) r g tt (finish r) g.
Proof.
  eapply goes_bind; [apply goes_deref|]. cbv beta. unfold finish, idle.
  destruct (terminal _), (r_preparing r), (r_users r =? 0), (bool_decide _), (r_releasing r), (r_doneClosed r); cbn [negb orb andb]; try apply goes_ret.
  eapply goes_bind; [apply goes_modify|apply goes_bump].
Qed.

(** [finalizeIdleLocked] *)
Definition stop_drained (r : replica) : replica := if r_state r == ReplicaDraining then set_state ReplicaStopped r else r.
Definition finalize (r : replica) : replica * list releaseAction :=
  if negb (r_users r =? 0) || r_preparing r then (r, [])
  else if negb (terminal (r_state (stop_drained r))) then (r, [])
  else match r_lease r, r_releasing r with
       | Some lease, false => (set_lease None true (stop_drained r), [(p, lease)])
       | _, _ => (finish (stop_drained r), [])
       end.

Lemma goes_finalize r g : goes (finalizeIdleLocked p) r g (snd (finalize r)) (fst (finalize r)) g.
Proof.
  eapply goes_bind; [apply goes_deref|]. cbv beta. unfold finalize. destruct (_ || _); [apply goes_ret|].
  eapply goes_bind; [instantiate (1 := g); instantiate (1 := stop_drained r)|eapply goes_bind; [apply goes_deref|]].
  { unfold stop_drained. destruct (_ == _) eqn:E; go_cases; [|apply goes_ret]. apply goes_transition. right. by rewrite E. }
  cbv beta. destruct (terminal (r_state (stop_drained r))) eqn:Ht; cbn [negb].
  - assert (r_lease (stop_drained r) = r_lease r) as -> by (unfold stop_drained; by case_match).
    assert (r_releasing (stop_drained r) = r_releasing r) as -> by (unfold stop_drained; by case_match).
    destruct (r_lease r) as [lease|]; [destruct (r_releasing r)|]; cbn [fst snd].
    + eapply goes_bind; [apply goes_finish|apply goes_ret].
    + eapply goes_bind; [apply goes_modify|apply goes_ret].
    + eapply goes_bind; [apply goes_finish|apply goes_ret].
  - assert (stop_drained r = r) as ->; [|apply goes_ret]. unfold stop_drained in *. destruct (_ == _); [|done]. done.
Qed.

(** [drainReplicaLocked] and [loseReplicaLocked] on a Replica that is not
    terminal, before they finalize it. *)
Definition unprepare (r : replica) : replica := if r_preparing r then r else close_prepared r.
Definition drained (r : replica) : replica :=
  unprepare (set_prepareErr (Some (classified CodeStaleAssignment "assignment was cancelled"))
    (cancel_prepare (close_stop (set_state ReplicaDraining r)))).
Definition lost (r : replica) : replica :=
  let changed := classified CodeStaleAssignment "worker session changed" in
  unprepare (set_failure (Some (safeFailure changed)) (set_prepareErr (Some changed)
    (cancel_prepare (close_stop (set_state ReplicaLost r))))).

Lemma goes_unprepare r0 r g : r_preparing r0 = r_preparing r ->
  goes (if r_preparing r0 then sret tt else closePreparedLocked p) r g tt (unprepare r) g.
Proof. intros ->. unfold unprepare. destruct (r_preparing r); [apply goes_ret|apply goes_closePrepared]. Qed.

Lemma goes_drain r g : terminal (r_state r) = false -> r_state r = ReplicaDraining \/ validReplicaTransition (r_state r) ReplicaDraining = true ->
  goes (drainReplicaLocked p) r g (snd (finalize (drained r))) (fst (finalize (drained r))) (Revoke (pq_ID (r_request r)) g).
Proof.
  intros Ht Hv. eapply goes_bind; [apply goes_deref|]. cbv beta. rewrite Ht.
  eapply goes_bind; [by apply goes_transition|]. eapply goes_bind; [apply goes_closeStop|]. eapply goes_bind; [apply goes_modify|].
  eapply goes_bind; [apply goes_modify|]. eapply goes_bind; [by apply goes_unprepare|]. eapply goes_bind; [apply goes_revoke|].
  replace (pq_ID _) with (pq_ID (r_request r)) by (unfold unprepare; by case_match). apply goes_finalize.
Qed.

Lemma goes_lose r g : terminal (r_state r) = false -> validReplicaTransition (r_state r) ReplicaLost = true ->
  goes (loseReplicaLocked p) r g (snd (finalize (lost r))) (fst (finalize (lost r))) (Revoke (pq_ID (r_request r)) g).
Proof.
  intros Ht Hv. eapply goes_bind; [apply goes_deref|]. cbv beta. rewrite Ht.
  eapply goes_bind; [apply goes_transition; by right|]. eapply goes_bind; [apply goes_closeStop|]. eapply goes_bind; [apply goes_modify|].
  eapply goes_bind; [apply goes_modify|]. eapply goes_bind; [apply goes_modify|].
  eapply goes_bind; [by apply goes_unprepare|]. eapply goes_bind; [apply goes_revoke|].
  replace (pq_ID _) with (pq_ID (r_request r)) by (unfold unprepare; by case_match). apply goes_finalize.
Qed.

Lemma goes_terminal_drain r g : terminal (r_state r) = true -> goes (drainReplicaLocked p) r g [] r g.
Proof. intros Ht. eapply goes_bind; [apply goes_deref|]. cbv beta. rewrite Ht. apply goes_ret. Qed.
Lemma goes_terminal_lose r g : terminal (r_state r) = true -> goes (loseReplicaLocked p) r g [] r g.
Proof. intros Ht. eapply goes_bind; [apply goes_deref|]. cbv beta. rewrite Ht. apply goes_ret. Qed.

(** [finishPrepare], after the cache's answer was noted. *)
Definition failed (err : error) (r : replica) : replica :=
  finish (close_prepared (close_stop
    (if r_state r == ReplicaDraining then
       set_state ReplicaStopped (set_prepareErr (Some (classified CodeStaleAssignment "assignment was cancelled during preparation")) r)
     else if r_state r == ReplicaLost then
       set_prepareErr (Some (classified CodeStaleAssignment "worker session changed during preparation")) r
     else set_state ReplicaFailed (set_failure (Some (safeFailure err)) (set_prepareErr (Some err) r))))).
Definition stopped (r : replica) : replica :=
  let r := close_prepared (stop_drained (set_prepareErr (Some (classified CodeStaleAssignment "assignment stopped during replica preparation")) r)) in
  set_lease (r_lease r) true r.
Definition abandoned (err : error) (next : string) (r : replica) : replica :=
  let r := close_prepared (close_stop (set_state next (set_failure (Some (safeFailure err)) (set_prepareErr (Some err) r)))) in
  set_lease (r_lease r) true r.
Definition ready (lease : nat) (r : replica) : replica :=
  close_prepared (set_state ReplicaReady (set_lease (Some lease) (r_releasing r) r)).

Lemma goes_failed load err r g : r_state r = ReplicaFetching \/ r_state r = ReplicaDraining \/ r_state r = ReplicaLost ->
  goes (finishPrepare p load (inr err)) r g [] (failed err (set_answered load r)) g.
Proof.
  intros Hs. unfold failed. eapply goes_bind; [apply goes_modify|]. cbv beta iota. eapply goes_bind; [|apply goes_ret].
  eapply goes_bind; [apply goes_deref|]. cbv beta. change (r_state (set_answered load r)) with (r_state r).
  eapply goes_bind; [|eapply goes_bind; [apply goes_closeStop|]; eapply goes_bind; [apply goes_closePrepared|]; apply goes_finish].
  destruct Hs as [Hs|[Hs|Hs]]; rewrite Hs; cbn [bool_decide].
  - change (ReplicaFetching == ReplicaDraining) with false. change (ReplicaFetching == ReplicaLost) with false. cbv iota.
    eapply goes_bind; [apply goes_modify|]. eapply goes_bind; [apply goes_modify|]. apply goes_transition. right. simpl. by rewrite Hs.
  - change (ReplicaDraining == ReplicaDraining) with true. cbv iota.
    eapply goes_bind; [apply goes_modify|]. apply goes_transition. right. simpl. by rewrite Hs.
  - change (ReplicaLost == ReplicaDraining) with false. change (ReplicaLost == ReplicaLost) with true. cbv iota. apply goes_modify.
Qed.

Lemma goes_abandon err next lease r g : validReplicaTransition (r_state r) next = true ->
  goes (abandon p err next lease) r g [(p, lease)] (abandoned err next r) g.
Proof.
  intros Hv. unfold abandon. eapply goes_bind; [apply goes_modify|]. eapply goes_bind; [apply goes_modify|].
  eapply goes_bind; [apply goes_transition; by right|]. eapply goes_bind; [apply goes_closeStop|].
  eapply goes_bind; [apply goes_closePrepared|]. eapply goes_bind; [apply goes_modify|apply goes_ret].
Qed.

Lemma goes_prepared load lease r g : r_state r = ReplicaFetching \/ r_state r = ReplicaDraining \/ r_state r = ReplicaLost ->
  (r_state r = ReplicaFetching -> ag_closing a = false) ->
  exists actions r', goes (finishPrepare p load (inl lease)) r g actions r' g /\
    ((actions = [] /\ r_state r = ReplicaFetching /\ r' = ready lease (set_answered load r) /\
        CheckAssignment (pq_Connection (r_request r)) (pq_Fence (r_request r)) g = Ok tt /\ cacheResultMatches (r_request r) load = true) \/
     (actions = [(p, lease)] /\ (r_state r = ReplicaDraining \/ r_state r = ReplicaLost) /\ r' = stopped (set_answered load r)) \/
     (actions = [(p, lease)] /\ r_state r = ReplicaFetching /\
        exists err next, r' = abandoned err next (set_answered load r) /\ (next = ReplicaLost \/ next = ReplicaFailed))).
Proof.
  intros Hs Hclosing. set (r1 := set_answered load r).
  assert (forall k : replica -> Agent -> M Agent (list releaseAction), forall x r' actions,
    (forall rev, goes (k r1 (at_replica a p r1 rev g)) r1 g x r' g) -> x = actions ->
    goes (do! modify p (set_answered load) in let! current := deref p in let! a := sget in k current a) r g actions r' g) as Hstart.
  { intros k x r' actions Hk <-. eapply goes_bind; [apply goes_modify|]. eapply goes_bind; [apply goes_deref|].
    intros rev. destruct (Hk rev rev) as [rev' E]. exists rev'. exact E. }
  destruct ((r_state r == ReplicaDraining) || (r_state r == ReplicaLost)) eqn:Hst.
  { exists [(p, lease)], (stopped r1). split; [|right; left; split_and!; [done|go_cases; naive_solver|done]].
    unfold finishPrepare. eapply Hstart; [|done]. intros rev. cbv beta. change (r_state r1) with (r_state r). rewrite Hst. cbn [orb].
    eapply goes_bind; [apply goes_modify|]. eapply goes_bind; [|eapply goes_bind; [apply goes_closePrepared|]; eapply goes_bind; [apply goes_modify|apply goes_ret]].
    unfold stop_drained. cbn [r_state set_prepareErr]. change (r_state r1) with (r_state r).
    destruct (r_state r == ReplicaDraining) eqn:E; go_cases; [|apply goes_ret]. apply goes_transition. right. simpl. by rewrite E. }
  assert (r_state r = ReplicaFetching) as Hf by (go_cases; naive_solver).
  destruct (CheckAssignment (pq_Connection (r_request r)) (pq_Fence (r_request r)) g) as [[]|err] eqn:Hcheck.
  - destruct (cacheResultMatches (r_request r) load) eqn:Hmatch.
    + exists [], (ready lease r1). split; [|left; split_and!; done]. unfold finishPrepare. eapply Hstart; [|done]. intros rev. cbv beta.
      change (r_state r1) with (r_state r). change (r_request r1) with (r_request r). rewrite Hst. cbn [orb].
      cbn [at_replica with_mutable ag_closing ag_gate]. rewrite (Hclosing Hf), Hcheck, Hmatch. cbn [negb].
      eapply goes_bind; [apply goes_modify|]. eapply goes_bind; [apply goes_transition; right; simpl; by rewrite Hf|].
      eapply goes_bind; [apply goes_transition; by right|]. eapply goes_bind; [apply goes_transition; by right|].
      eapply goes_bind; [apply goes_closePrepared|apply goes_ret].
    + eexists [(p, lease)], _. split; [|right; right; split_and!; [done|done|eexists _, ReplicaFailed; split; [done|by right]]].
      unfold finishPrepare. eapply Hstart; [|done]. intros rev. cbv beta. change (r_state r1) with (r_state r).
      change (r_request r1) with (r_request r). rewrite Hst. cbn [orb]. cbn [at_replica with_mutable ag_closing ag_gate].
      rewrite (Hclosing Hf), Hcheck, Hmatch. cbn [negb]. apply goes_abandon. simpl. by rewrite Hf.
  - eexists [(p, lease)], _. split; [|right; right; split_and!; [done|done|eexists err, ReplicaLost; split; [done|by left]]].
    unfold finishPrepare. eapply Hstart; [|done]. intros rev. cbv beta. change (r_state r1) with (r_state r).
    change (r_request r1) with (r_request r). rewrite Hst. cbn [orb]. cbn [at_replica with_mutable ag_closing ag_gate].
    rewrite (Hclosing Hf), Hcheck. apply goes_abandon. simpl. by rewrite Hf.
Qed.

(** The end of an invocation, and of a release. *)
Lemma goes_finishInvocation (accepted : bool) r g :
  let r1 := set_counts (r_users r - 1) (if accepted then r_active r - 1 else r_active r) r in
  goes (finishInvocation p accepted) r g (snd (finalize r1)) (fst (finalize r1)) g.
Proof.
  eapply goes_bind; [apply goes_deref|]. eapply goes_bind; [apply goes_modify|]. eapply goes_bind; [apply goes_bump|apply goes_finalize].
Qed.
Lemma goes_finish_release r g : goes (finish_release p) r g tt (finish (set_lease (r_lease r) false r)) g.
Proof. eapply goes_bind; [apply goes_modify|apply goes_finish]. Qed.

End goes.

(** ** One Replica *)
Definition among (l : list string) (s : string) : bool := existsb (fun x => s == x) l.

Lemma among_elem l s : among l s = true -> s ∈ l.
Proof. unfold among. intros (x & Hx & E)%existsb_exists. go_cases. subst. by apply list_elem_of_In. Qed.

(** Cases of a state that is one of a list. *)
Ltac in_states H := repeat (apply elem_of_cons in H as [H|H]); [..|by apply not_elem_of_nil in H].
Ltac in_state H := apply among_elem in H; in_states H.

Record state_ok (r : replica) : Prop := {
  so_state : among [ReplicaFetching; ReplicaReady; ReplicaDraining; ReplicaStopped; ReplicaFailed; ReplicaLost] (r_state r) = true;
  so_fetching : r_state r = ReplicaFetching -> r_preparing r = true;
  so_preparing : r_preparing r = true ->
    among [ReplicaFetching; ReplicaDraining; ReplicaLost] (r_state r) = true /\ r_lease r = None /\ r_releasing r = false /\ r_users r = 0;
  so_ready : r_state r = ReplicaReady -> is_Some (r_lease r);
  so_draining : r_state r = ReplicaDraining -> r_preparing r = true \/ r_users r <> 0;
  so_users : r_users r <> 0 -> is_Some (r_lease r);
  so_lease : is_Some (r_lease r) -> r_releasing r = false /\ (terminal (r_state r) = true -> r_users r <> 0);
  so_releasing : r_releasing r = true -> terminal (r_state r) = true;
  so_done : r_doneClosed r = idle r;
  so_stop : r_stopClosed r = negb (among [ReplicaFetching; ReplicaReady] (r_state r));
  so_prepared : r_preparedDone r = negb (r_preparing r);
  so_cancel : r_prepareCancel r = r_preparing r;
}.

(** What a region may do to a Replica that is not being prepared by it:
    [actions] take the lease away. *)
Record keeps (p : nat) (r r' : replica) (actions : list releaseAction) : Prop := {
  kp_ok : state_ok r';
  kp_request : r_request r' = r_request r;
  kp_limiter : r_limiter r' = r_limiter r;
  kp_preparing : r_preparing r' = r_preparing r;
  kp_users : r_users r' = r_users r;
  kp_active : r_active r' = r_active r;
  kp_lease :
    (actions = [] /\ r_lease r' = r_lease r /\ r_releasing r' = r_releasing r) \/
    (exists lease, actions = [(p, lease)] /\ r_lease r = Some lease /\ r_lease r' = None /\ r_releasing r = false /\
       r_releasing r' = true /\ r_users r' = 0);
  kp_done : r_doneClosed r = true -> r_doneClosed r' = true;
}.

Ltac replica_cases r :=
  destruct r as [request state failure load lease lim preparing prepareCancel cancelled prepareErr preparedDone doneClosed stopClosed users active releasing];
  simpl in *.

(** With the state, the flags and the lease known, a field of [state_ok] is a
    computation. *)
Ltac field_ok := first [reflexivity|intros; discriminate|intros; eexists; reflexivity|intros; left; reflexivity|intros [? ?]; discriminate
  |intros; split; [reflexivity|intros; first [discriminate|assumption]]|intros; repeat split; reflexivity|intros; congruence].

(** A Replica that has left service and has nothing pending is finished. *)
Lemma finalize_keeps p r r0 :
  r_request r = r_request r0 -> r_limiter r = r_limiter r0 -> r_preparing r = r_preparing r0 ->
  r_active r = r_active r0 -> r_lease r = r_lease r0 -> r_releasing r0 = false -> r_releasing r = false -> r_users r = r_users r0 ->
  r_state r = ReplicaDraining \/ r_state r = ReplicaLost -> r_doneClosed r = false -> r_doneClosed r0 = false ->
  (r_preparing r = true -> r_lease r = None /\ r_users r = 0) -> (r_users r <> 0 -> is_Some (r_lease r)) ->
  r_stopClosed r = true -> r_preparedDone r = negb (r_preparing r) -> r_prepareCancel r = r_preparing r ->
  keeps p r0 (fst (finalize p r)) (snd (finalize p r)).
Proof.
  intros Hreq Hlim Hprep Hact Hlease Hrel0 Hrel Husers Hst Hd Hd0 Hp Hu Hs Hpd Hpc. replica_cases r.
  destruct r0 as [request0 state0 failure0 load0 lease0 lim0 preparing0 prepareCancel0 cancelled0 prepareErr0 preparedDone0 doneClosed0 stopClosed0
    users0 active0 releasing0]; simpl in *.
  subst request0 lim0 preparing0 active0 lease0 releasing0 releasing users0 doneClosed doneClosed0 stopClosed preparedDone prepareCancel.
  unfold finalize, stop_drained, finish, idle. simpl. destruct (users =? 0) eqn:Hz; go_cases; simpl.
  - subst users. destruct preparing; simpl.
    + destruct (Hp eq_refl) as [-> _].
      split; simpl; try done; [|by left]. destruct Hst as [-> | ->]; split; simpl; field_ok.
    + destruct Hst as [-> | ->]; simpl; destruct lease as [l|]; simpl; (split; simpl; try done; [split; simpl; field_ok|]);
        first [by left|right; by exists l].
  - destruct preparing; [by destruct (Hp eq_refl)|]. destruct (Hu Hz) as [l ->].
    split; simpl; try done; [|by left].
    destruct Hst as [-> | ->]; split; simpl; try field_ok; unfold idle; simpl; try (by rewrite (proj2 (Z.eqb_neq _ _) Hz)).
    all: intros; by right.
Qed.

Lemma live_state r : state_ok r -> terminal (r_state r) = false ->
  r_state r = ReplicaFetching \/ r_state r = ReplicaReady \/ r_state r = ReplicaDraining.
Proof. intros Hr Ht. pose proof (so_state _ Hr) as Hs. in_state Hs; rewrite Hs in *; auto; discriminate. Qed.

Lemma live_transitions r : state_ok r -> terminal (r_state r) = false ->
  (r_state r = ReplicaDraining \/ validReplicaTransition (r_state r) ReplicaDraining = true) /\
  validReplicaTransition (r_state r) ReplicaLost = true.
Proof. intros Hr Ht. destruct (live_state r Hr Ht) as [Hs|[Hs|Hs]]; rewrite Hs; auto. Qed.

Lemma live_idle r : state_ok r -> terminal (r_state r) = false -> r_doneClosed r = false /\ r_releasing r = false.
Proof.
  intros Hr Ht. rewrite (so_done _ Hr). unfold idle. rewrite Ht. split; [done|].
  destruct (r_releasing r) eqn:E; [|done]. pose proof (so_releasing _ Hr E). congruence.
Qed.

Lemma unprepare_same r : r_preparedDone r = negb (r_preparing r) -> unprepare r = r.
Proof. unfold unprepare. replica_cases r. intros ->. by destruct preparing. Qed.

Lemma drain_keeps p r : state_ok r -> terminal (r_state r) = false -> keeps p r (fst (finalize p (drained r))) (snd (finalize p (drained r))).
Proof.
  intros Hr Ht. destruct (live_idle r Hr Ht) as [Hd Hrel].
  assert (drained r = set_prepareErr (Some (classified CodeStaleAssignment "assignment was cancelled"))
    (cancel_prepare (close_stop (set_state ReplicaDraining r)))) as -> by (apply unprepare_same; apply (so_prepared _ Hr)).
  apply finalize_keeps; try done; simpl; [by left| |apply (so_users _ Hr)|apply (so_prepared _ Hr)|apply (so_cancel _ Hr)].
  intros Hp. destruct (so_preparing _ Hr Hp) as (_ & ? & _ & ?). done.
Qed.

Lemma lose_keeps p r : state_ok r -> terminal (r_state r) = false -> keeps p r (fst (finalize p (lost r))) (snd (finalize p (lost r))).
Proof.
  intros Hr Ht. destruct (live_idle r Hr Ht) as [Hd Hrel]. unfold lost. rewrite unprepare_same by apply (so_prepared _ Hr).
  apply finalize_keeps; try done; simpl; [by right| |apply (so_users _ Hr)|apply (so_prepared _ Hr)|apply (so_cancel _ Hr)].
  intros Hp. destruct (so_preparing _ Hr Hp) as (_ & ? & _ & ?). done.
Qed.

(** The state after a drain or a loss. *)
Lemma finalize_state p r : r_state r = ReplicaDraining \/ terminal (r_state r) = true ->
  r_state (fst (finalize p r)) = ReplicaDraining \/ terminal (r_state (fst (finalize p r))) = true.
Proof.
  intros Hs. unfold finalize, stop_drained, finish. destruct (_ || _); [done|].
  destruct (r_state r == ReplicaDraining) eqn:E; go_cases.
  - simpl. destruct (r_lease r); [destruct (r_releasing r)|]; simpl; try (by right); destruct (_ && _); by right.
  - destruct Hs as [?|Hs]; [done|]. rewrite Hs. simpl. destruct (r_lease r); [destruct (r_releasing r)|]; simpl; try (by right); destruct (_ && _); by right.
Qed.
Lemma finalize_terminal p r : terminal (r_state r) = true -> terminal (r_state (fst (finalize p r))) = true.
Proof.
  intros Hs. assert (stop_drained r = r) as E.
  { unfold stop_drained. destruct (_ == _) eqn:Hd; go_cases; [by rewrite Hd in Hs|done]. }
  unfold finalize, finish. rewrite E, Hs. destruct (_ || _); [done|]. simpl. destruct (r_lease r); [destruct (r_releasing r)|]; simpl; try done; by destruct (_ && _).
Qed.

(** *** Preparation ends *)
Lemma preparing_flags r : state_ok r -> r_preparing r = true ->
  (r_state r = ReplicaFetching \/ r_state r = ReplicaDraining \/ r_state r = ReplicaLost) /\
  r_lease r = None /\ r_releasing r = false /\ r_users r = 0 /\ r_doneClosed r = false /\
  r_stopClosed r = negb (among [ReplicaFetching] (r_state r)).
Proof.
  intros Hr Hp. destruct (so_preparing _ Hr Hp) as (Hs & Hl & Hrel & Hu). rewrite (so_done _ Hr), (so_stop _ Hr). unfold idle. rewrite Hp, andb_false_r.
  in_state Hs; rewrite Hs; split_and!; auto.
Qed.

Record prepares (r r' : replica) (lease : option nat) (releasing : bool) : Prop := {
  pr_ok : state_ok r';
  pr_request : r_request r' = r_request r;
  pr_limiter : r_limiter r' = r_limiter r;
  pr_preparing : r_preparing r' = false;
  pr_users : r_users r' = r_users r;
  pr_active : r_active r' = r_active r;
  pr_lease : r_lease r' = lease;
  pr_releasing : r_releasing r' = releasing;
}.

Lemma failed_prepares answer err r : state_ok r -> r_preparing r = true -> prepares r (failed err (set_answered answer r)) None false.
Proof.
  intros Hr Hp. destruct (preparing_flags r Hr Hp) as (Hs & Hl & Hrel & Hu & Hd & Hst). clear Hr. replica_cases r. subst.
  destruct Hs as [-> |[-> | ->]]; (split; simpl; try done); split; simpl; field_ok.
Qed.
Lemma stopped_prepares answer r : state_ok r -> r_preparing r = true -> r_state r = ReplicaDraining \/ r_state r = ReplicaLost ->
  prepares r (stopped (set_answered answer r)) None true.
Proof.
  intros Hr Hp Hs. destruct (preparing_flags r Hr Hp) as (_ & Hl & Hrel & Hu & Hd & Hst). clear Hr. replica_cases r. subst.
  destruct Hs as [-> | ->]; (split; simpl; try done); split; simpl; field_ok.
Qed.
Lemma abandoned_prepares answer err next r : state_ok r -> r_preparing r = true -> r_state r = ReplicaFetching ->
  next = ReplicaLost \/ next = ReplicaFailed -> prepares r (abandoned err next (set_answered answer r)) None true.
Proof.
  intros Hr Hp Hs Hn. destruct (preparing_flags r Hr Hp) as (_ & Hl & Hrel & Hu & Hd & Hst). clear Hr. replica_cases r. subst.
  destruct Hn as [-> | ->]; (split; simpl; try done); split; simpl; field_ok.
Qed.
Lemma ready_prepares answer granted r : state_ok r -> r_preparing r = true -> r_state r = ReplicaFetching ->
  prepares r (ready granted (set_answered answer r)) (Some granted) false.
Proof.
  intros Hr Hp Hs. destruct (preparing_flags r Hr Hp) as (_ & Hl & Hrel & Hu & Hd & Hst). clear Hr. replica_cases r. subst.
  (split; simpl; try done); split; simpl; field_ok.
Qed.

(** *** An invocation ends *)
Lemma used_flags r : state_ok r -> r_users r <> 0 ->
  exists lease, r_lease r = Some lease /\ r_preparing r = false /\ r_releasing r = false /\ r_doneClosed r = false /\
    among [ReplicaReady; ReplicaDraining; ReplicaStopped; ReplicaFailed; ReplicaLost] (r_state r) = true.
Proof.
  intros Hr Hu. destruct (so_users _ Hr Hu) as [lease Hl]. destruct (so_lease _ Hr) as [Hrel _]; [by rewrite Hl|].
  assert (r_preparing r = false) as Hp by (destruct (r_preparing r) eqn:E; [|done]; destruct (so_preparing _ Hr E) as (_ & ? & _); congruence).
  exists lease. rewrite (so_done _ Hr). unfold idle. rewrite Hl, andb_false_r. split_and!; try done.
  pose proof (so_state _ Hr) as Hs. in_state Hs; rewrite Hs; try done. rewrite (so_fetching _ Hr Hs) in Hp. done.
Qed.

Lemma used_keeps p r active' : state_ok r -> r_users r <> 0 ->
  let r1 := set_counts (r_users r - 1) active' r in keeps p r1 (fst (finalize p r1)) (snd (finalize p r1)).
Proof.
  intros Hr Hu r1. subst r1. destruct (used_flags r Hr Hu) as (x & Hl & Hp & Hrel & Hd & Hs).
  pose proof (so_stop _ Hr) as Hst. pose proof (so_prepared _ Hr) as Hpd. pose proof (so_cancel _ Hr) as Hpc. clear Hr. apply among_elem in Hs.
  replica_cases r. subst. unfold finalize, stop_drained, finish, idle. simpl. destruct (users - 1 =? 0) eqn:Hz; go_cases; simpl.
  - rewrite Hz. in_states Hs; subst state; simpl; (split; simpl; try done; first [by left|right; by exists x|split; simpl; field_ok]).
  - split; simpl; try done; [|by left].
    in_states Hs; subst state; split; simpl; try field_ok; unfold idle; simpl; try (by rewrite (proj2 (Z.eqb_neq _ _) Hz)); intros; by right.
Qed.

(** *** A release ends *)
Lemma released_ok r : state_ok r -> r_releasing r = true ->
  let r' := finish (set_lease (r_lease r) false r) in
  state_ok r' /\ r_lease r = None /\ r_lease r' = None /\ r_request r' = r_request r /\ r_limiter r' = r_limiter r /\ r_preparing r' = r_preparing r /\
  r_users r' = r_users r /\ r_active r' = r_active r /\ r_releasing r' = false /\ r_state r' = r_state r /\ r_doneClosed r' = true.
Proof.
  intros Hr Hrel r'. subst r'. pose proof (so_releasing _ Hr Hrel) as Ht.
  assert (r_lease r = None) as Hl by (destruct (r_lease r) eqn:E; [|done]; destruct (so_lease _ Hr) as [? _]; [by eexists|congruence]).
  assert (r_users r = 0) as Hu by (destruct (decide (r_users r = 0)) as [|H]; [done|]; destruct (so_users _ Hr H); congruence).
  assert (r_preparing r = false) as Hp by (destruct (r_preparing r) eqn:E; [|done]; destruct (so_preparing _ Hr E) as (_ & _ & ? & _); congruence).
  pose proof (so_state _ Hr) as Hs. pose proof (so_stop _ Hr) as Hst. pose proof (so_prepared _ Hr) as Hpd. pose proof (so_cancel _ Hr) as Hpc.
  pose proof (so_done _ Hr) as Hd. clear Hr. apply among_elem in Hs. replica_cases r. unfold idle in Hd. simpl in Hd. subst. rewrite Ht. unfold finish, idle. simpl.
  in_states Hs; subst state; try done; simpl; (split_and!; try done); split; simpl; field_ok.
Qed.

End effects.
