(* ===== verification/WorkerSafety.v ===== *)
(** * Package [internal/workeragent]: what holds under every schedule

    The invariant [inv] relates the Replicas to the goroutines by counting
    ([tally]): users, accepted calls, tokens of the limiters, pending releases
    and leases.  Every event preserves it. *)
From stdpp Require Import base gmap strings list.
From S2P Require Import Prelude Problem Digest Json Model ServingAuth Scheduler Net Abi WorkerAgent WorkerServing WorkerEffects.
Import problem digest model agent serving effects.

#[local] Open Scope Z_scope.

Module safety.

(** ** Counting goroutines *)
Fixpoint occ (p : nat) (actions : list releaseAction) : Z :=
  match actions with [] => 0 | (q, _) :: actions => hits p q + occ p actions end.

(** The part of a goroutine in each of the counters of Replica [p]. *)
Definition prep (p : nat) (t : thread) : Z := match t with TPrepare q => hits p q | _ => 0 end.
Definition uses (p : nat) (t : thread) : Z := match t with TInvoke q _ _ _ => hits p q | _ => 0 end.
Definition accepted_phase (ph : phase) : bool :=
  match ph with Running => true | ReleasingWorker b _ | ReleasingReplica b _ | Finishing b _ => b | _ => false end.
Definition running (p : nat) (t : thread) : Z := match t with TInvoke q _ _ ph => if accepted_phase ph then hits p q else 0 | _ => 0 end.
Definition releases (p : nat) (t : thread) : Z :=
  match t with TRelease actions _ => occ p actions | TReleased q actions _ => hits p q + occ p actions | _ => 0 end.

(** Tokens in the limiters. *)
Definition replica_slot (ph : phase) : bool :=
  match ph with AtReplica (Dequeuing None) => true | AtReplica _ | Finishing _ _ => false | _ => true end.
Definition replica_queue (ph : phase) : bool :=
  match ph with AtReplica Waiting | AtReplica (Dequeuing _) => true | _ => false end.
Definition worker_slot (ph : phase) : bool :=
  match ph with AtWorker (Dequeuing None) | Permitted | Running | ReleasingWorker _ _ => true | _ => false end.
Definition worker_queue (ph : phase) : bool :=
  match ph with AtWorker Waiting | AtWorker (Dequeuing _) => true | _ => false end.
Definition at_phase (f : phase -> bool) (p : nat) (t : thread) : Z := match t with TInvoke q _ _ ph => if f ph then hits p q else 0 | _ => 0 end.
Definition any_phase (f : phase -> bool) (t : thread) : Z := match t with TInvoke _ _ _ ph => b2z (f ph) | _ => 0 end.

(** Whether it is in the cache's [close]. *)
Definition closes (t : thread) : Z := match t with TCloseCache => 1 | _ => 0 end.

(** Leases that a goroutine is about to release. *)
Definition pend (t : thread) : list nat :=
  match t with TRelease actions _ | TReleased _ actions _ => actions.*2 | _ => [] end.

Lemma occ_nonneg p l : 0 <= occ p l.
Proof. induction l as [|[q x] l IH]; simpl; [lia|]. pose proof (hits_nonneg p q). lia. Qed.
Lemma occ_app p l l' : occ p (l ++ l') = occ p l + occ p l'.
Proof. induction l as [|[q x] l IH]; simpl; lia. Qed.
Lemma uses_nonneg p t : 0 <= uses p t.
Proof. destruct t; simpl; try lia. apply hits_nonneg. Qed.

(** ** The invariant *)
Definition all_done (a : Agent) : Prop := forall p r, ag_heap a !! p = Some r -> r_doneClosed r = true.
Definition waits_ok (a : Agent) (next : option (list nat)) : Prop :=
  match next with
  | None => True
  | Some waits => ag_closing a = true /\ (forall p, p ∈ waits -> (p < length (ag_heap a))%nat) /\
    forall p r, ag_heap a !! p = Some r -> r_doneClosed r = true \/ p ∈ waits
  end.

Definition thread_ok (a : Agent) (t : thread) : Prop :=
  match t with
  | TDone => True
  | TPrepare p => (p < length (ag_heap a))%nat
  | TLookedUp p fence _ => exists r, ag_heap a !! p = Some r /\ pq_Assignment (r_request r) = if_Assignment fence
  | TInvoke p fence lease _ =>
    exists r, ag_heap a !! p = Some r /\ pq_Assignment (r_request r) = if_Assignment fence /\ r_lease r = Some lease
  | TRelease actions next => (forall p, p ∈ actions.*1 -> (p < length (ag_heap a))%nat) /\ waits_ok a next
  | TReleased p actions next =>
    (p < length (ag_heap a))%nat /\ (forall p, p ∈ actions.*1 -> (p < length (ag_heap a))%nat) /\ waits_ok a next
  | TWait waits => waits_ok a (Some waits)
  | TCloseCache => ag_closing a = true /\ all_done a
  end.

Record limiter_ok (l : limiter) (concurrent slots queue : Z) : Prop := {
  lk_concurrent : lm_concurrent l = concurrent;
  lk_slots : lm_slots l = slots;
  lk_queue : lm_queue l = queue;
  lk_slots_bound : lm_slots l <= lm_concurrent l;
  lk_queue_bound : lm_queue l <= lm_queued l;
  lk_capacity : lm_queued l <= HardMaxQueued;
}.

Record replica_ok (ths : list thread) (p : nat) (r : replica) : Prop := {
  rk_state : state_ok r;
  rk_preparing : b2z (r_preparing r) = tally (prep p) ths;
  rk_users : r_users r = tally (uses p) ths;
  rk_active : r_active r = tally (running p) ths;
  rk_releasing : b2z (r_releasing r) = tally (releases p) ths;
  rk_limiter : limiter_ok (r_limiter r) (ep_MaxConcurrency (pq_Policy (r_request r)))
    (tally (at_phase replica_slot p) ths) (tally (at_phase replica_queue p) ths);
  rk_id : pq_ID (r_request r) <> ""%string;
}.

Definition held (heap : list replica) : list nat := omap r_lease heap.

(** [stale] and [open]: Replicas that a region which is running has yet to
    visit, because the session changed or the Agent began to close. *)
Record inv (a : Agent) (ths : list thread) (stale open : list nat) (granted : nat) (released : list nat) : Prop := {
  iv_replica : forall p r, ag_heap a !! p = Some r -> replica_ok ths p r;
  iv_thread : forall t, t ∈ ths -> thread_ok a t;
  iv_mapped : forall id p, ag_replicas a !! id = Some p -> exists r, ag_heap a !! p = Some r /\ pq_ID (r_request r) = id;
  iv_unmapped : forall p r, ag_heap a !! p = Some r -> ag_replicas a !! pq_ID (r_request r) <> Some p -> r_doneClosed r = true;
  iv_session : forall p r, ag_heap a !! p = Some r -> terminal (r_state r) = false ->
    ws_WorkerID (ai_Worker (pq_Assignment (r_request r))) = wp_WorkerID (g_worker (ag_gate a)) /\
    ws_BootID (ai_Worker (pq_Assignment (r_request r))) = wp_BootID (g_worker (ag_gate a)) /\
    (p ∉ stale -> ws_SessionEpoch (ai_Worker (pq_Assignment (r_request r))) = g_currentSessionEpoch (ag_gate a));
  iv_authorized : forall id rec, g_authorizations (ag_gate a) !! id = Some rec -> exists p r,
    ag_replicas a !! id = Some p /\ ag_heap a !! p = Some r /\ r_state r = ReplicaReady /\
    pq_Assignment (r_request r) = if_Assignment (au_Fence (ar_authorization rec));
  iv_leases : held (ag_heap a) ++ (ths ≫= pend) ++ released ≡ₚ seq 0 granted;
  iv_limiter : limiter_ok (ag_limiter a) (ag_maxConcurrent a) (tally (any_phase worker_slot) ths) (tally (any_phase worker_queue) ths);
  iv_stopped : ag_stopped a = ag_closing a;
  iv_closing : ag_closing a = true -> forall p r, ag_heap a !! p = Some r -> p ∉ open ->
    r_state r = ReplicaDraining \/ terminal (r_state r) = true;
  iv_cache : ag_cacheClosing a = true \/ ag_closed a = true -> ag_closing a = true /\ all_done a;
  iv_bounds : ag_maxConcurrent a <= HardMaxConcurrent /\ 0 <= ag_maxQueuedPerReplica a <= HardMaxQueuedPerReplica /\
    ag_maxAssignments a <= HardMaxAssignments;
  iv_capacity : Z.of_nat (size (ag_replicas a)) <= ag_maxAssignments a;
  iv_cacheClosing : b2z (ag_cacheClosing a) = tally closes ths;
}.

#[global] Instance inv_Permutation a : Proper ((≡ₚ) ==> eq ==> eq ==> eq ==> eq ==> iff) (inv a).
Proof.
  assert (forall ths ths' stale open granted released, ths ≡ₚ ths' -> inv a ths stale open granted released -> inv a ths' stale open granted released) as H.
  { intros ths ths' stale open granted released Hp [Hr Ht Hm Hu Hs Ha Hl Hlim Hst Hc Hca Hcf Hcap Hcc]. split; try done.
    - intros p r E. destruct (Hr p r E) as [? ? ? ? ? ? ?]. split; try done; by rewrite <-Hp.
    - intros t E. apply Ht. by rewrite Hp.
    - rewrite <-Hl. by rewrite Hp.
    - by rewrite <-Hp.
    - by rewrite <-Hp. }
  intros ths ths' Hp stale ? <- open ? <- granted ? <- released ? <-. split; by apply H.
Qed.

(** ** A step of one goroutine at one Replica *)
Lemma held_insert heap p r r' : heap !! p = Some r ->
  option_list (r_lease r) ++ held (<[p := r']> heap) ≡ₚ option_list (r_lease r') ++ held heap.
Proof.
  intros (l1 & l2 & -> & ->)%list_elem_of_split_length. rewrite insert_app_r_alt, Nat.sub_diag by lia. simpl. unfold held. rewrite !omap_app. simpl.
  destruct (r_lease r) as [x|], (r_lease r') as [y|]; simpl; rewrite <-?Permutation_middle; try done. apply perm_swap.
Qed.

(** Goroutine [t] becomes [t'] and Replica [p] changes from [r] to [r']: each
    counter changes by what the goroutine contributes to it. *)
Record counted (p : nat) (t t' : thread) (r r' : replica) : Prop := {
  ct_prep : b2z (r_preparing r') - b2z (r_preparing r) = prep p t' - prep p t;
  ct_users : r_users r' - r_users r = uses p t' - uses p t;
  ct_active : r_active r' - r_active r = running p t' - running p t;
  ct_releasing : b2z (r_releasing r') - b2z (r_releasing r) = releases p t' - releases p t;
  ct_slots : lm_slots (r_limiter r') - lm_slots (r_limiter r) = at_phase replica_slot p t' - at_phase replica_slot p t;
  ct_queue : lm_queue (r_limiter r') - lm_queue (r_limiter r) = at_phase replica_queue p t' - at_phase replica_queue p t;
  ct_bounds : lm_concurrent (r_limiter r') = lm_concurrent (r_limiter r) /\ lm_queued (r_limiter r') = lm_queued (r_limiter r) /\
    lm_slots (r_limiter r') <= lm_concurrent (r_limiter r') /\ lm_queue (r_limiter r') <= lm_queued (r_limiter r');
  ct_others : forall q, q <> p -> prep q t' = prep q t /\ uses q t' = uses q t /\ running q t' = running q t /\ releases q t' = releases q t /\
    at_phase replica_slot q t' = at_phase replica_slot q t /\ at_phase replica_queue q t' = at_phase replica_queue q t;
  ct_closes : closes t' = closes t;
}.

Lemma counted_ok p t t' ths r r' : counted p t t' r r' -> replica_ok (t :: ths) p r -> state_ok r' -> r_request r' = r_request r ->
  replica_ok (t' :: ths) p r'.
Proof.
  intros [] [? ? ? ? ? [] ?] Hok Hreq. simpl in *. split; simpl; try done; try lia; [|by rewrite Hreq].
  split; rewrite ?Hreq; simpl; naive_solver lia.
Qed.
Lemma counted_other p t t' ths r r' q r0 : counted p t t' r r' -> q <> p -> replica_ok (t :: ths) q r0 -> replica_ok (t' :: ths) q r0.
Proof.
  intros [] Hq [? ? ? ? ? [] ?]. destruct (ct_others0 q Hq) as (? & ? & ? & ? & ? & ?). simpl in *. split; simpl; try done; try lia.
  split; simpl; try done; lia.
Qed.

(** What the new gate may be. *)
Record gate_keeps (g g' : Gate) (id : string) (serves : Prop) : Prop := {
  gk_worker : g_worker g' = g_worker g;
  gk_session : g_currentSessionEpoch g' = g_currentSessionEpoch g;
  gk_subset : forall id rec, g_authorizations g' !! id = Some rec -> g_authorizations g !! id = Some rec;
  gk_revoked : serves \/ g_authorizations g' !! id = None;
}.

Lemma thread_ok_local a p r r' rev g t ths : ag_heap a !! p = Some r -> r_request r' = r_request r ->
  (r_lease r' = r_lease r \/ tally (uses p) ths = 0) -> (r_doneClosed r = true -> r_doneClosed r' = true) ->
  t ∈ ths -> thread_ok a t -> thread_ok (at_replica a p r' rev g) t.
Proof.
  intros Hp Hreq Hl Hd Ht. pose proof (lookup_lt_Some _ _ _ Hp) as Hlt. set (a' := at_replica a p r' rev g).
  assert (length (ag_heap a') = length (ag_heap a)) as Hlen by apply length_insert.
  assert (forall q, ag_heap a' !! q = if decide (q = p) then Some r' else ag_heap a !! q) as Hh.
  { intros q. unfold a'. simpl. case_decide; [subst; by rewrite list_lookup_insert_eq|by rewrite list_lookup_insert_ne]. }
  assert (forall next, waits_ok a next -> waits_ok a' next) as Hw.
  { intros [waits|]; cbn [waits_ok]; [|done]. rewrite Hlen. intros (Hc & Hin & H). split; [done|]. split; [done|]. intros q rq. rewrite Hh. case_decide; [|apply H].
    subst q. intros [= <-]. destruct (H p r Hp); auto. }
  destruct t as [|q|q fence policy|q fence lease ph|actions next|q actions next|waits|]; cbn [thread_ok]; rewrite ?Hlen.
  - done.
  - done.
  - intros (rq & E & Ha). rewrite Hh. case_decide; [|by exists rq]. subst q. exists r'. rewrite Hreq. by simplify_eq.
  - intros (rq & E & Ha & El). rewrite Hh. case_decide; [|by exists rq]. subst q. simplify_eq. exists r'. rewrite Hreq. split_and!; [done|done|].
    destruct Hl as [->|Hz]; [done|]. pose proof (tally_zero _ (uses_nonneg p) _ _ Hz Ht) as H0. simpl in H0. by rewrite hits_same in H0.
  - naive_solver.
  - naive_solver.
  - apply (Hw (Some waits)).
  - intros [Hc H]. split; [done|]. intros q rq. rewrite Hh. case_decide; [|apply H]. subst. intros [= <-]. apply Hd. by eapply H.
Qed.

Lemma inv_local a t t' ths stale stale' open open' granted granted' released released' p r r' rev g :
  inv a (t :: ths) stale open granted released -> ag_heap a !! p = Some r ->
  state_ok r' -> r_request r' = r_request r -> counted p t t' r r' ->
  any_phase worker_slot t' = any_phase worker_slot t -> any_phase worker_queue t' = any_phase worker_queue t ->
  option_list (r_lease r') ++ pend t' ++ released' ++ seq 0 granted ≡ₚ option_list (r_lease r) ++ pend t ++ released ++ seq 0 granted' ->
  (r_lease r' = r_lease r \/ r_users r' = 0) -> (r_doneClosed r = true -> r_doneClosed r' = true) ->
  thread_ok (at_replica a p r' rev g) t' ->
  gate_keeps (ag_gate a) g (pq_ID (r_request r)) (r_state r <> ReplicaReady \/ r_state r' = ReplicaReady) ->
  (terminal (r_state r') = false -> terminal (r_state r) = false /\ (p ∉ stale' -> p ∉ stale)) ->
  (forall q, q <> p -> (q ∉ stale' -> q ∉ stale) /\ (q ∉ open' -> q ∉ open)) ->
  (ag_closing a = true -> p ∉ open' -> r_state r' = ReplicaDraining \/ terminal (r_state r') = true) ->
  inv (at_replica a p r' rev g) (t' :: ths) stale' open' granted' released'.
Proof.
  intros [Hr Ht Hm Hu Hs Ha Hl [] Hst Hc Hca Hcf Hcap Hcc] Hp Hok Hreq Hct Hws Hwq Hleases Hlease Hd Ht' [Gw Gs Gsub Grev] Hlive Htodo Hclosing.
  pose proof (lookup_lt_Some _ _ _ Hp) as Hlt.
  assert (forall q rq, <[p := r']> (ag_heap a) !! q = Some rq -> (q = p /\ rq = r') \/ (q <> p /\ ag_heap a !! q = Some rq)) as Hh.
  { intros q rq E. destruct (decide (q = p)) as [->|Hne]; [left|right; by rewrite list_lookup_insert_ne in E].
    rewrite list_lookup_insert_eq in E by done. by simplify_eq. }
  assert (replica_ok (t' :: ths) p r') as Hok' by (eapply counted_ok; eauto).
  split; cbn [at_replica with_mutable ag_heap ag_replicas ag_gate ag_limiter ag_maxConcurrent ag_stopped ag_closing ag_cacheClosing ag_closed].
  - intros q rq [[-> ->]|[Hq E]]%Hh; [done|]. eapply counted_other; eauto.
  - intros t0 [->|Ht0]%elem_of_cons; [done|]. eapply thread_ok_local with (ths := ths); try done; [|by apply Ht, elem_of_cons; right].
    destruct Hlease as [?|Hz]; [by left|]. right. pose proof (rk_users _ _ _ Hok') as Hcount. simpl in Hcount.
    pose proof (tally_nonneg (uses p) (uses_nonneg p) ths). pose proof (uses_nonneg p t'). lia.
  - intros id q E. destruct (Hm id q E) as (rq & Hq & Hid). destruct (decide (q = p)) as [->|Hne].
    + exists r'. rewrite list_lookup_insert_eq by done. rewrite Hreq. by simplify_eq.
    + exists rq. by rewrite list_lookup_insert_ne.
  - intros q rq [[-> ->]|[Hq E]]%Hh Hid; [|by eapply Hu]. apply Hd. eapply Hu; [done|]. by rewrite <-Hreq.
  - intros q rq [[-> ->]|[Hq E]]%Hh Hlv; rewrite Gw, Gs.
    + destruct (Hlive Hlv) as [Hlv' Htd]. rewrite Hreq. destruct (Hs p r Hp Hlv') as (? & ? & Hse). auto.
    + destruct (Hs q rq E Hlv) as (? & ? & Hse). destruct (Htodo q Hq). auto.
  - intros id rec Hrec. destruct (Ha id rec (Gsub _ _ Hrec)) as (q & rq & Hq & E & Hready & Hass). exists q.
    destruct (decide (q = p)) as [->|Hne]; [|exists rq; by rewrite list_lookup_insert_ne].
    exists r'. rewrite list_lookup_insert_eq, Hreq by done. simplify_eq. split_and!; try done.
    destruct Grev as [[?|?]|Hnone]; [done|done|]. destruct (Hm id p Hq) as (? & ? & <-). simplify_eq.
  - pose proof (held_insert (ag_heap a) p r r' Hp) as Hheld. simpl in *.
    apply (Permutation_app_inv_l (option_list (r_lease r) ++ seq 0 granted)).
    transitivity ((option_list (r_lease r) ++ held (<[p:=r']> (ag_heap a))) ++ (ths ≫= pend) ++ (pend t' ++ released' ++ seq 0 granted));
      [solve_Permutation|]. rewrite Hheld.
    transitivity ((held (ag_heap a) ++ (ths ≫= pend)) ++ (option_list (r_lease r') ++ pend t' ++ released' ++ seq 0 granted)); [solve_Permutation|].
    rewrite Hleases. transitivity (option_list (r_lease r) ++ (held (ag_heap a) ++ (pend t ++ (ths ≫= pend)) ++ released) ++ seq 0 granted');
      [solve_Permutation|]. rewrite Hl. solve_Permutation.
  - split; simpl in *; try done; lia.
  - done.
  - intros Hcl q rq [[-> ->]|[Hq E]]%Hh Htd; [by apply Hclosing|]. eapply Hc; [done|done|]. by apply (Htodo q Hq).
  - intros Hx. destruct (Hca Hx) as [? Hall]. split; [done|]. intros q rq [[-> ->]|[Hq E]]%Hh; [|by eapply Hall]. apply Hd. by eapply Hall.
  - done.
  - done.
  - simpl in *. rewrite (ct_closes _ _ _ _ _ Hct). done.
Qed.

(** ** Regions that take Replicas out of service *)
Lemma Revoke_keeps g id serves : id <> ""%string -> gate_keeps g (Revoke id g) id serves.
Proof.
  intros Hid. unfold Revoke. rewrite bool_decide_eq_false_2 by done. split; simpl; try done.
  - intros id' rec. by intros [_ ?]%lookup_delete_Some.
  - right. apply lookup_delete_eq.
Qed.
Lemma gate_keeps_same g id serves : serves -> gate_keeps g g id serves.
Proof. intros H. split; auto. Qed.

Lemma inv_keeps a acts next ths stale stale' open open' granted released p r r' acts' rev g :
  inv a (TRelease acts next :: ths) stale open granted released -> ag_heap a !! p = Some r -> keeps p r r' acts' ->
  gate_keeps (ag_gate a) g (pq_ID (r_request r)) (r_state r <> ReplicaReady \/ r_state r' = ReplicaReady) ->
  (terminal (r_state r') = false -> terminal (r_state r) = false /\ (p ∉ stale' -> p ∉ stale)) ->
  (forall q, q <> p -> (q ∉ stale' -> q ∉ stale) /\ (q ∉ open' -> q ∉ open)) ->
  (ag_closing a = true -> p ∉ open' -> r_state r' = ReplicaDraining \/ terminal (r_state r') = true) ->
  inv (at_replica a p r' rev g) (TRelease (acts ++ acts') next :: ths) stale' open' granted released.
Proof.
  intros Hinv Hp Hk Hg Hlive Htodo Hclosing. pose proof (iv_replica _ _ _ _ _ _ Hinv p r Hp) as [_ _ _ _ _ Hlim _]. destruct Hlim.
  destruct Hk as [Hok Hreq Hlm Hprep Hus Hac Hle Hd].
  assert (forall q, q <> p -> occ q acts' = 0) as Hother.
  { intros q Hq. destruct Hle as [(-> & _)|(l & -> & _)]; simpl; [done|]. by rewrite hits_other. }
  eapply inv_local; try done.
  - split; simpl; rewrite ?Hlm, ?Hprep, ?occ_app; try lia.
    + destruct Hle as [(-> & _ & ->)|(l & -> & _ & _ & -> & -> & _)]; simpl; rewrite ?hits_same; lia.
    + intros q Hq. rewrite occ_app, (Hother q Hq). split_and!; try done. lia.
  - cbn [pend]. destruct Hle as [(-> & -> & _)|(l & -> & -> & -> & _)]; rewrite fmap_app; simpl; solve_Permutation.
  - destruct Hle as [(_ & ? & _)|(l & _ & _ & _ & _ & _ & ?)]; auto.
  - assert (thread_ok (at_replica a p r' rev g) (TRelease acts next)) as [Ha Hw].
    { eapply thread_ok_local with (ths := [TRelease acts next]); try done; [by right|set_solver|]. apply (iv_thread _ _ _ _ _ _ Hinv). set_solver. }
    split; [|done]. intros q. rewrite fmap_app, elem_of_app. intros [Hq|Hq]; [by apply Ha|]. simpl. rewrite length_insert.
    destruct Hle as [(-> & _)|(l & -> & _)]; [by apply not_elem_of_nil in Hq|]. apply list_elem_of_singleton in Hq as ->. by eapply lookup_lt_Some.
Qed.

(** Goroutines that count the same. *)
Record alike (t t' : thread) : Prop := {
  al_replica : forall p, prep p t' = prep p t /\ uses p t' = uses p t /\ running p t' = running p t /\ releases p t' = releases p t /\
    at_phase replica_slot p t' = at_phase replica_slot p t /\ at_phase replica_queue p t' = at_phase replica_queue p t;
  al_slot : any_phase worker_slot t' = any_phase worker_slot t;
  al_queue : any_phase worker_queue t' = any_phase worker_queue t;
  al_pend : pend t' = pend t;
  al_closes : closes t' = closes t;
}.
Lemma inv_thread_swap a t t' ths stale open granted released : alike t t' -> thread_ok a t' ->
  inv a (t :: ths) stale open granted released -> inv a (t' :: ths) stale open granted released.
Proof.
  intros [Hb Hb1 Hb2 Hb3 Hb4] Hok [Hr Ht Hm Hu Hs Ha Hl [] Hst Hc Hca Hcf Hcap Hcc]. split; try done.
  - intros p r E. destruct (Hr p r E) as [? ? ? ? ? [] ?]. destruct (Hb p) as (? & ? & ? & ? & ? & ?).
    simpl in *. split; simpl; try done; try lia. split; simpl; try done; lia.
  - intros t0 [->|Ht0]%elem_of_cons; [done|]. apply Ht, elem_of_cons. by right.
  - simpl in *. by rewrite Hb3, <-Hl.
  - simpl in *. split; simpl; try done; lia.
  - simpl in *. lia.
Qed.

(** A thread that ends, or begins, with nothing in hand. *)
Abbreviation blank := (alike TDone).
Lemma inv_thread_add a t ths stale open granted released : blank t -> thread_ok a t ->
  inv a ths stale open granted released -> inv a (t :: ths) stale open granted released.
Proof.
  intros [Hb Hb1 Hb2 Hb3 Hb4] Hok [Hr Ht Hm Hu Hs Ha Hl [] Hst Hc Hca Hcf Hcap Hcc]. split; try done.
  - intros p r E. destruct (Hr p r E) as [? ? ? ? ? [] ?]. destruct (Hb p) as (? & ? & ? & ? & ? & ?). simpl in *.
    split; simpl; try done; try lia. split; simpl; try done; lia.
  - intros t0 [->|Ht0]%elem_of_cons; [done|]. by apply Ht.
  - simpl in *. by rewrite Hb3.
  - simpl in *. split; simpl; try done; lia.
  - simpl in *. lia.
Qed.

(** What a region leaves alone while it takes Replicas out of service. *)
Record frame (a a' : Agent) : Prop := {
  fr_replicas : ag_replicas a' = ag_replicas a;
  fr_length : length (ag_heap a') = length (ag_heap a);
  fr_closing : ag_closing a' = ag_closing a;
  fr_session : g_currentSessionEpoch (ag_gate a') = g_currentSessionEpoch (ag_gate a);
}.
#[global] Instance frame_preorder : PreOrder frame.
Proof. split; [done|]. intros ??? [] []. split; congruence. Qed.

Lemma at_replica_frame a p r rev g : g_currentSessionEpoch g = g_currentSessionEpoch (ag_gate a) -> frame a (at_replica a p r rev g).
Proof. intros Hg. split; simpl; try done. apply length_insert. Qed.

Lemma inv_mono a ths stale stale' open open' granted released :
  (forall q r, ag_heap a !! q = Some r -> terminal (r_state r) = false -> q ∉ stale' -> q ∉ stale) ->
  (forall q r, ag_heap a !! q = Some r -> q ∉ open' -> q ∉ open \/ r_state r = ReplicaDraining \/ terminal (r_state r) = true) ->
  inv a ths stale open granted released -> inv a ths stale' open' granted released.
Proof.
  intros Hst Hop [Hr Ht Hm Hu Hs Ha Hl Hlim Hsp Hc Hca Hcf Hcap Hcc]. split; try done.
  - intros p r E Hlive. destruct (Hs p r E Hlive) as (? & ? & Hse). split_and!; [done|done|]. intros Hp. apply Hse. by eapply Hst.
  - intros Hcl p r E Hp. destruct (Hop p r E Hp) as [?|?]; [|done]. by eapply Hc.
Qed.

(** [goes] from the current state. *)
Lemma goes_run {A} a p (m : M Agent A) r x r' g' : goes a p m r (ag_gate a) x r' g' -> ag_heap a !! p = Some r ->
  exists rev, m a = (at_replica a p r' rev g', Ok x).
Proof. intros Hg Hp. destruct (Hg (ag_revision a)) as [rev E]. rewrite at_replica_id in E by done. by exists rev. Qed.

(** A visit of Replica [p], which takes it off the lists as [ks] and [ko] say. *)
Definition visit (P : Agent -> Prop) (ks ko : bool) (f : nat -> M Agent (list releaseAction)) : Prop :=
  forall a acts next ths stale open granted released p, P a -> (p < length (ag_heap a))%nat ->
    inv a (TRelease acts next :: ths) stale open granted released ->
    exists a' acts', f p a = (a', Ok acts') /\ frame a a' /\
      inv a' (TRelease (acts ++ acts') next :: ths)
        (if ks then filter (.≠ p) stale else stale) (if ko then filter (.≠ p) open else open) granted released.

Lemma not_in_filter (p q : nat) (l : list nat) : q <> p -> q ∉ filter (.≠ p) l -> q ∉ l.
Proof. intros Hq H Hin. apply H. by apply list_elem_of_filter. Qed.

Lemma visit_lose : visit (fun _ => True) true true loseReplicaLocked.
Proof.
  intros a acts next ths stale open granted released p _ Hlt Hinv. destruct (lookup_lt_is_Some_2 _ _ Hlt) as [r Hp].
  pose proof (iv_replica _ _ _ _ _ _ Hinv p r Hp) as Hrok. destruct (terminal (r_state r)) eqn:Ht.
  - exists a, []. rewrite app_nil_r. split_and!; [|done|].
    + unfold loseReplicaLocked, sbind, deref. by rewrite Hp, Ht.
    + eapply inv_mono; [| |exact Hinv].
      * intros q rq Hq Hl. destruct (decide (q = p)) as [->|]; [simplify_eq; congruence|by apply not_in_filter].
      * intros q rq Hq. destruct (decide (q = p)) as [->|]; [simplify_eq; auto|]. intros. left. by eapply not_in_filter.
  - destruct (live_transitions r (rk_state _ _ _ Hrok) Ht) as [_ Hv].
    destruct (goes_run a p _ _ _ _ _ (goes_lose a p Hlt r (ag_gate a) Ht Hv) Hp) as [rev E]. eexists _, _. split; [exact E|].
    assert (terminal (r_state (fst (finalize p (lost r)))) = true) as Hterm.
    { apply finalize_terminal. unfold lost, unprepare. by case_match. }
    pose proof (Revoke_keeps (ag_gate a) (pq_ID (r_request r)) (r_state r <> ReplicaReady \/ r_state (fst (finalize p (lost r))) = ReplicaReady)
      (rk_id _ _ _ Hrok)) as Hg. split; [apply at_replica_frame, Hg|].
    eapply inv_keeps; try done; [apply lose_keeps; [apply Hrok|done]|congruence| |by right].
    intros q Hq. split; by apply not_in_filter.
Qed.

Lemma visit_drain : visit (fun _ => True) false true drainReplicaLocked.
Proof.
  intros a acts next ths stale open granted released p _ Hlt Hinv. destruct (lookup_lt_is_Some_2 _ _ Hlt) as [r Hp].
  pose proof (iv_replica _ _ _ _ _ _ Hinv p r Hp) as Hrok. destruct (terminal (r_state r)) eqn:Ht.
  - exists a, []. rewrite app_nil_r. split_and!; [|done|].
    + unfold drainReplicaLocked, sbind, deref. by rewrite Hp, Ht.
    + eapply inv_mono; [done| |exact Hinv].
      intros q rq Hq. destruct (decide (q = p)) as [->|]; [simplify_eq; auto|]. intros. left. by eapply not_in_filter.
  - destruct (live_transitions r (rk_state _ _ _ Hrok) Ht) as [Hv _].
    destruct (goes_run a p _ _ _ _ _ (goes_drain a p Hlt r (ag_gate a) Ht Hv) Hp) as [rev E]. eexists _, _. split; [exact E|].
    assert (r_state (fst (finalize p (drained r))) = ReplicaDraining \/ terminal (r_state (fst (finalize p (drained r)))) = true) as Hterm.
    { apply finalize_state. left. unfold drained, unprepare. by case_match. }
    pose proof (Revoke_keeps (ag_gate a) (pq_ID (r_request r)) (r_state r <> ReplicaReady \/ r_state (fst (finalize p (drained r))) = ReplicaReady)
      (rk_id _ _ _ Hrok)) as Hg. split; [apply at_replica_frame, Hg|].
    eapply inv_keeps; try done; [apply drain_keeps; [apply Hrok|done]|]. intros q Hq. split; [done|by apply not_in_filter].
Qed.

Lemma collect_inv P ks ko f order a acts next ths stale open stale' open' granted released :
  visit P ks ko f -> (forall a a', frame a a' -> P a -> P a') -> P a -> (forall p, p ∈ order -> (p < length (ag_heap a))%nat) ->
  inv a (TRelease acts next :: ths) stale open granted released ->
  (forall q, q ∉ stale' -> q ∉ stale \/ (ks = true /\ q ∈ order)) -> (forall q, q ∉ open' -> q ∉ open \/ (ko = true /\ q ∈ order)) ->
  exists a' acts', collect f order a = (a', Ok acts') /\ frame a a' /\
    inv a' (TRelease (acts ++ acts') next :: ths) stale' open' granted released.
Proof.
  intros Hf HP. revert a acts stale open. induction order as [|p order IH]; intros a acts stale open Ha Hlt Hinv Hst Hop.
  { exists a, []. rewrite app_nil_r. split_and!; [done|done|]. eapply inv_mono; [| |exact Hinv].
    - intros q r _ _ Hq. destruct (Hst q Hq) as [?|[_ ?%not_elem_of_nil]]; done.
    - intros q r _ Hq. destruct (Hop q Hq) as [?|[_ ?%not_elem_of_nil]]; [by left|done]. }
  destruct (Hf a acts next ths stale open granted released p Ha) as (a1 & acts1 & E1 & F1 & Hinv1); [apply Hlt; set_solver|done|].
  edestruct (IH a1 (acts ++ acts1)) as (a2 & acts2 & E2 & F2 & Hinv2); [by eapply HP| |exact Hinv1|..].
  - intros q Hq. rewrite (fr_length _ _ F1). apply Hlt. set_solver.
  - intros q Hq. destruct (Hst q Hq) as [?|[-> [->|?]%elem_of_cons]]; [left|left|right; done].
    + destruct ks; [|done]. by intros [_ ?]%list_elem_of_filter.
    + by intros [? _]%list_elem_of_filter.
  - intros q Hq. destruct (Hop q Hq) as [?|[-> [->|?]%elem_of_cons]]; [left|left|right; done].
    + destruct ko; [|done]. by intros [_ ?]%list_elem_of_filter.
    + by intros [? _]%list_elem_of_filter.
  - exists a2, (acts1 ++ acts2). cbn [collect]. unfold sbind. rewrite E1, E2. rewrite app_assoc. split_and!; [done|by etrans|done].
Qed.

(** ** Control calls *)
Ltac fields := cbn [set_gate set_global set_heap set_replicas set_revision set_closing with_mutable at_replica
  ag_heap ag_replicas ag_gate ag_limiter ag_maxConcurrent ag_maxAssignments ag_stopped ag_closing ag_cacheClosing ag_closed ag_revision] in *.

(** The Agent with another gate. *)
Lemma inv_gate a ths stale open granted released g :
  inv a ths [] open granted released ->
  g_worker g = g_worker (ag_gate a) ->
  (forall p r, ag_heap a !! p = Some r -> terminal (r_state r) = false -> p ∉ stale -> g_currentSessionEpoch g = g_currentSessionEpoch (ag_gate a)) ->
  (forall id rec, g_authorizations g !! id = Some rec -> g_authorizations (ag_gate a) !! id = Some rec \/
     exists p r, ag_replicas a !! id = Some p /\ ag_heap a !! p = Some r /\ r_state r = ReplicaReady /\
       pq_Assignment (r_request r) = if_Assignment (au_Fence (ar_authorization rec))) ->
  inv (set_gate g a) ths stale open granted released.
Proof.
  intros [Hr Ht Hm Hu Hs Ha Hl Hlim Hst Hc Hca Hcf Hcap Hcc] Hw Hse Hsub. split; fields; try done.
  - intros p r E Hlive. rewrite Hw. destruct (Hs p r E Hlive) as (? & ? & H3). split_and!; [done|done|].
    intros Hp. rewrite (Hse p r E Hlive Hp). apply H3, not_elem_of_nil.
  - intros id rec Hid. destruct (Hsub _ _ Hid) as [?|?]; [by apply Ha|done].
Qed.

End safety.
