(* ===== verification/WorkerSteps.v ===== *)
(** * Package [internal/workeragent]: every step keeps the invariant

    One lemma per locked region and per step of a limiter, then [step_inv]: from a
    state with the invariant no event panics, and the invariant holds after it. *)
From stdpp Require Import base gmap strings list.
From S2P Require Import Prelude Problem Digest Json Model ServingAuth Scheduler Net Abi WorkerAgent WorkerServing WorkerEffects WorkerSafety.
Import problem digest model agent serving effects safety.

#[local] Open Scope Z_scope.

Module steps.

(** ** Control calls *)
(** Every Replica that is not terminal is in the map. *)
Lemma live_mapped a ths stale open granted released p r : inv a ths stale open granted released ->
  ag_heap a !! p = Some r -> r_doneClosed r = false -> ag_replicas a !! pq_ID (r_request r) = Some p.
Proof.
  intros Hinv Hp Hd. destruct (decide (ag_replicas a !! pq_ID (r_request r) = Some p)) as [|Hne]; [done|].
  pose proof (iv_unmapped _ _ _ _ _ _ Hinv _ _ Hp Hne). congruence.
Qed.
Lemma iterates_live a ths stale open granted released order p r : inv a ths stale open granted released -> iterates order a = true ->
  ag_heap a !! p = Some r -> r_doneClosed r = false -> p ∈ order.
Proof.
  intros Hinv Hord Hp Hd. unfold iterates in Hord. go_cases. rewrite Hord. apply list_elem_of_fmap.
  eexists (_, p). split; [done|]. apply elem_of_map_to_list. by eapply live_mapped.
Qed.
Lemma iterates_lt a ths stale open granted released order p : inv a ths stale open granted released -> iterates order a = true ->
  p ∈ order -> (p < length (ag_heap a))%nat.
Proof.
  intros Hinv Hord Hp. unfold iterates in Hord. go_cases. rewrite Hord in Hp. apply list_elem_of_fmap in Hp as ([id q] & -> & Hq).
  apply elem_of_map_to_list in Hq. destruct (iv_mapped _ _ _ _ _ _ Hinv _ _ Hq) as (r & Hr & _). by eapply lookup_lt_Some.
Qed.
Lemma live_not_done ths p r : replica_ok ths p r -> terminal (r_state r) = false -> r_doneClosed r = false.
Proof. intros Hr Ht. apply (live_idle r (rk_state _ _ _ Hr) Ht). Qed.

Lemma lose_weakened a acts next ths stale open granted released p ks ko : (p < length (ag_heap a))%nat ->
  inv a (TRelease acts next :: ths) stale open granted released ->
  exists a' acts', loseReplicaLocked p a = (a', Ok acts') /\ frame a a' /\
    inv a' (TRelease (acts ++ acts') next :: ths) (if ks : bool then filter (.≠ p) stale else stale) (if ko : bool then filter (.≠ p) open else open) granted released.
Proof.
  intros Hlt Hinv. destruct (visit_lose a acts next ths stale open granted released p I Hlt Hinv) as (a' & acts' & E & F & Hinv').
  exists a', acts'. split_and!; [done|done|]. eapply inv_mono; [| |exact Hinv'].
  - intros q r _ _ Hq. destruct ks; [done|]. by intros [_ ?]%list_elem_of_filter.
  - intros q r _ Hq. left. destruct ko; [done|]. by intros [_ ?]%list_elem_of_filter.
Qed.

Lemma visit_lose_stale epoch : visit (fun a => g_currentSessionEpoch (ag_gate a) = epoch) true false (lose_stale epoch).
Proof.
  intros a acts next ths stale open granted released p He Hlt Hinv. destruct (lookup_lt_is_Some_2 _ _ Hlt) as [r Hp].
  unfold lose_stale, sbind, deref. rewrite Hp. destruct (_ =? epoch) eqn:Heq; go_cases; [|by apply (lose_weakened _ _ _ _ _ _ _ _ p true false)].
  exists a, []. rewrite app_nil_r. split_and!; [done|done|]. destruct Hinv as [Hr Ht Hm Hu Hs Ha Hl Hlim Hst Hc Hca Hcf Hcap Hcc]. split; try done.
  intros q rq E Hlive. destruct (Hs q rq E Hlive) as (? & ? & Hse). split_and!; [done|done|]. intros Hq.
  destruct (decide (q = p)) as [->|Hne]; [simplify_eq; congruence|]. apply Hse. by eapply not_in_filter.
Qed.

Lemma visit_lose_unchecked : visit (fun _ => True) false false lose_unchecked.
Proof.
  intros a acts next ths stale open granted released p _ Hlt Hinv. destruct (lookup_lt_is_Some_2 _ _ Hlt) as [r Hp].
  unfold lose_unchecked, sbind, deref, sget. rewrite Hp.
  assert (exists a' acts', (a, Ok (A := list releaseAction) []) = (a', Ok acts') /\ frame a a' /\ inv a' (TRelease (acts ++ acts') next :: ths) stale open granted released) as Hsame
    by (exists a, []; by rewrite app_nil_r).
  destruct (r_preparing r); [|exact Hsame]. cbn [negb]. destruct (CheckAssignment _ _ _); [exact Hsame|]. by apply (lose_weakened _ _ _ _ _ _ _ _ p false false).
Qed.

Lemma visit_lose_disconnected connection : visit (fun _ => True) false false (lose_disconnected connection).
Proof.
  intros a acts next ths stale open granted released p _ Hlt Hinv. destruct (lookup_lt_is_Some_2 _ _ Hlt) as [r Hp].
  unfold lose_disconnected, sbind, deref. rewrite Hp. destruct (_ && _); [by apply (lose_weakened _ _ _ _ _ _ _ _ p false false)|].
  exists a, []. by rewrite app_nil_r.
Qed.

Lemma blank_release next : blank (TRelease [] next).
Proof. by split. Qed.

Lemma inv_begin a ths stale open granted released : inv a ths stale open granted released ->
  inv a (TRelease [] None :: ths) stale open granted released.
Proof. intros H. apply inv_thread_add; [apply blank_release| |done]. split; [|done]. by intros p ?%not_elem_of_nil. Qed.

(** A region does not panic, and its goroutine goes on as [t] says. *)
Definition region_ok {A} (a : Agent) (ths : list thread) (granted : nat) (released : list nat) (m : M Agent A) (t : A -> thread) : Prop :=
  exists a' x, m a = (a', Ok x) /\ inv a' (t x :: ths) [] [] granted released.
Definition releasing (actions : Actions) : thread := TRelease (fst actions) None.

Lemma AcceptControl_ok a ths granted released order order' connection :
  inv a ths [] [] granted released -> iterates order a = true -> iterates order' a = true ->
  region_ok a ths granted released (AcceptControl order order' connection) releasing.
Proof.
  intros Hinv Ho Ho'. unfold region_ok, AcceptControl, sbind, sget, sput. destruct (ag_closing a) eqn:Hcl.
  { eexists _, _. split; [done|]. by apply inv_begin. }
  destruct (AcceptAuthoritativeControl connection (ag_gate a)) as [g err] eqn:Hacc. cbn [gs_CurrentSessionEpoch Snapshot].
  apply Accept_cases in Hacc. set (a1 := set_gate g a).
  assert (inv a1 (TRelease [] None :: ths) (if g_currentSessionEpoch g >? g_currentSessionEpoch (ag_gate a) then order else []) [] granted released) as H1.
  { apply inv_gate; [by apply inv_begin| | |].
    - naive_solver.
    - intros p r Hp Hlive. destruct (g_currentSessionEpoch g >? _) eqn:Hgt; [intros Hn; exfalso|intros _; naive_solver lia].
      apply Hn. eapply iterates_live; [done..|]. by eapply live_not_done, Hlive; eapply iv_replica.
    - intros id rec. naive_solver. }
  assert (exists a2 acts2, (if g_currentSessionEpoch g >? g_currentSessionEpoch (ag_gate a)
      then collect (lose_stale (g_currentSessionEpoch g)) order else sret []) a1 = (a2, Ok acts2) /\
    frame a1 a2 /\ inv a2 (TRelease acts2 None :: ths) [] [] granted released) as (a2 & acts2 & E2 & F2 & H2).
  { destruct (_ >? _); [|by exists a1, []].
    apply (collect_inv (fun a => g_currentSessionEpoch (ag_gate a) = g_currentSessionEpoch g) true false (lose_stale _) order a1 [] None ths order []);
      [apply visit_lose_stale| |done| |exact H1| |by left].
    - intros x y F. cbv beta. by rewrite (fr_session _ _ F).
    - intros p Hp. by apply (iterates_lt a ths [] [] granted released order).
    - intros q _. destruct (decide (q ∈ order)); auto. }
  rewrite E2.
  destruct (collect_inv (fun _ => True) false false lose_unchecked order' a2 acts2 None ths [] [] [] [] granted released) as (a3 & acts3 & E3 & F3 & H3);
    try done; [apply visit_lose_unchecked| |by left|by left|].
  - intros p Hp. rewrite (fr_length _ _ F2). by apply (iterates_lt a ths [] [] granted released order').
  - rewrite E3. by eexists _, _.
Qed.

Lemma DisconnectControl_ok a ths granted released order connection :
  inv a ths [] [] granted released -> iterates order a = true ->
  region_ok a ths granted released (DisconnectControl order connection) releasing.
Proof.
  intros Hinv Ho. unfold region_ok, DisconnectControl, sbind, sget, sput. set (g := servingauth.DisconnectControl connection (ag_gate a)).
  assert (inv (set_gate g a) (TRelease [] None :: ths) [] [] granted released) as H1.
  { apply inv_gate; [by apply inv_begin| | |]; unfold g, servingauth.DisconnectControl; case_match; simpl; auto. }
  destruct (_ && _); [|by eexists _, _].
  destruct (collect_inv (fun _ => True) false false (lose_disconnected connection) order (set_gate g a) [] None ths [] [] [] [] granted released)
    as (a2 & acts2 & E2 & F2 & H2); try done; [apply visit_lose_disconnected| |by left|by left|].
  - intros p Hp. by apply (iterates_lt a ths [] [] granted released order).
  - rewrite E2. by eexists _, _.
Qed.

Lemma Cancel_ok a ths granted released request : inv a ths [] [] granted released -> region_ok a ths granted released (Cancel request) releasing.
Proof.
  intros Hinv. unfold region_ok, Cancel, sbind, sget. pose proof (inv_begin _ _ _ _ _ _ Hinv) as Hb.
  destruct (ag_closing a); [by eexists _, _|]. destruct (CheckAssignment _ _ _); [|by eexists _, _].
  destruct (ag_replicas a !! _) as [p|] eqn:Hp; [|by eexists _, _]. destruct (iv_mapped _ _ _ _ _ _ Hinv _ _ Hp) as (r & Hr & _).
  unfold deref. rewrite Hr. destruct (_ != _); [by eexists _, _|].
  destruct (visit_drain a [] None ths [] [] granted released p I (lookup_lt_Some _ _ _ Hr) Hb) as (a' & acts & E & _ & H).
  rewrite E. by eexists _, _.
Qed.

(** The revision is not part of the invariant. *)
Lemma inv_revision a ths stale open granted released rev : inv a ths stale open granted released ->
  inv (set_revision rev a) ths stale open granted released.
Proof.
  intros [Hr Ht Hm Hu Hs Ha Hl Hlim Hst Hc Hca Hcf Hcap Hcc]. split; fields; done.
Qed.

Lemma done_terminal ths p r : replica_ok ths p r -> r_doneClosed r = true -> terminal (r_state r) = true.
Proof. intros Hr Hd. destruct (terminal (r_state r)) eqn:E; [done|]. pose proof (live_not_done ths p r Hr E). congruence. Qed.

Lemma inv_begin_close a ths granted released order : inv a ths [] [] granted released -> iterates order a = true ->
  inv (set_closing true true (ag_closed a) (ag_cacheClosing a) (ag_closeErr a) a) (TRelease [] (Some order) :: ths) [] order granted released.
Proof.
  intros Hinv Ho. assert (forall p r, ag_heap a !! p = Some r -> r_doneClosed r = true \/ p ∈ order) as Hord.
  { intros p r Hp. destruct (r_doneClosed r) eqn:E; [by left|right]. by eapply iterates_live. }
  apply inv_thread_add; [by split| |].
  - split; [by intros p ?%not_elem_of_nil|]. split_and!; [done| |done]. intros p. by apply (iterates_lt a ths [] [] granted released order).
  - pose proof Hinv as [Hr Ht Hm Hu Hs Ha Hl Hlim Hst Hc Hca Hcf Hcap Hcc]. split; fields; try done.
    + intros t Hin. pose proof (Ht t Hin) as Hok.
      destruct t as [|q|q fence policy|q fence lease ph|actions [waits|]|q actions [waits|]|waits|]; simpl in *; naive_solver.
    + intros _ p r Hp Hn. right. destruct (Hord p r Hp); [|done]. by eapply done_terminal; [eapply Hr|].
    + intros Hx. destruct (Hca Hx). done.
Qed.

Lemma beginClose_ok a ths granted released order : inv a ths [] [] granted released -> iterates order a = true ->
  region_ok a ths granted released (beginClose order) (fun r => TRelease (fst r) (Some (snd r))).
Proof.
  intros Hinv Ho. unfold region_ok, beginClose, sbind, sget.
  assert (exists a1, (if ag_closing a then sret tt else
      do! sput (set_closing true true (ag_closed a) (ag_cacheClosing a) (ag_closeErr a) a) in bumpLocked) a = (a1, Ok tt) /\
    ag_heap a1 = ag_heap a /\ inv a1 (TRelease [] (Some order) :: ths) [] order granted released) as (a1 & E1 & Hh & H1).
  { pose proof (inv_begin_close a ths granted released order Hinv Ho) as H. destruct (ag_closing a) eqn:Hcl.
    - exists a. split; [done|]. split; [done|]. pose proof (iv_stopped _ _ _ _ _ _ Hinv) as Hst. rewrite Hcl in Hst.
      replace a with (set_closing true true (ag_closed a) (ag_cacheClosing a) (ag_closeErr a) a); [done|]. destruct a; simpl in *. by subst.
    - eexists. split; [done|]. split; [done|]. by apply inv_revision. }
  unfold sbind in E1. rewrite E1.
  destruct (collect_inv (fun _ => True) false true drainReplicaLocked order a1 [] (Some order) ths [] order [] [] granted released)
    as (a2 & acts2 & E2 & F2 & H2); try done; [apply visit_drain| |by left| |].
  - intros p Hp. rewrite Hh. by apply (iterates_lt a ths [] [] granted released order).
  - intros q _. destruct (decide (q ∈ order)); auto.
  - rewrite E2. by eexists _, _.
Qed.

(** ** Authorizations and acknowledgements *)
Definition returns {A} (_ : A) : thread := TDone.
Lemma inv_return a ths granted released : inv a ths [] [] granted released -> inv a (TDone :: ths) [] [] granted released.
Proof. apply inv_thread_add; by split. Qed.

Lemma InstallAuthorization_ok a ths granted released connection authorization clock : inv a ths [] [] granted released ->
  region_ok a ths granted released (InstallAuthorization connection authorization clock) returns.
Proof.
  intros Hinv. pose proof (inv_return _ _ _ _ Hinv) as Hb.
  unfold region_ok, InstallAuthorization, sbind, sget. destruct (ag_closing a); [by eexists _, _|].
  destruct (ag_replicas a !! _) as [p|] eqn:Hp; [|by eexists _, _]. destruct (iv_mapped _ _ _ _ _ _ Hinv _ _ Hp) as (r & Hr & _).
  unfold deref. rewrite Hr. destruct (r_state r != _) eqn:Hst; [by eexists _, _|]. destruct (pq_Assignment _ != _) eqn:Hass; [by eexists _, _|]. go_cases.
  destruct (Install connection authorization clock (ag_gate a)) as [g err] eqn:Hin.
  eexists _, _. split; [done|].
  apply Install_cases in Hin. apply inv_gate; [done|naive_solver|naive_solver|]. intros id rec.
  destruct Hin as [[_ ->]|[[_ ->]|[(_ & _ & _ & ->)|(_ & _ & ->)]]]; [by left..|]. simpl.
  intros [[<- <-]|[_ ?]]%lookup_insert_Some; [right|by left]. by exists p, r.
Qed.

Lemma AcknowledgeTerminal_ok a ths granted released connection assignmentID : inv a ths [] [] granted released ->
  region_ok a ths granted released (AcknowledgeTerminal connection assignmentID) returns.
Proof.
  intros Hinv. pose proof (inv_return _ _ _ _ Hinv) as Hb.
  unfold region_ok, AcknowledgeTerminal, sbind, sget. destruct (ag_closing a); [by eexists _, _|]. destruct (CheckControl _ _); [|by eexists _, _].
  destruct (ag_replicas a !! _) as [p|] eqn:Hp; [|by eexists _, _]. destruct (iv_mapped _ _ _ _ _ _ Hinv _ _ Hp) as (r & Hr & Hid).
  unfold deref. rewrite Hr. destruct (_ || _) eqn:Hd; [by eexists _, _|]. go_cases. eexists _, _. split; [done|]. apply inv_revision.
  destruct Hb as [Hrp Ht Hm Hu Hs Ha Hl Hlim Hst Hc Hca Hcf Hcap Hcc]. split; fields; try done.
  - intros id q [_ ?]%lookup_delete_Some. by apply Hm.
  - intros q rq Hq Hn. destruct (decide (q = p)) as [->|Hne]; [simplify_eq; naive_solver|]. apply (Hu q rq Hq). intros Hq'. apply Hn.
    apply lookup_delete_Some. split; [|done]. intros ->. congruence.
  - intros id rec Hrec. destruct (Ha id rec Hrec) as (q & rq & Hq & Hrq & Hready & Hass). exists q, rq. split_and!; try done.
    apply lookup_delete_Some. split; [|done]. intros <-. simplify_eq. rewrite Hready in *. naive_solver.
  - rewrite map_size_delete. case_match; unfold id; lia.
Qed.

(** ** Preparation *)

(** A goroutine holds no pointer outside the heap. *)
Lemma thread_fresh a t p : thread_ok a t -> (length (ag_heap a) <= p)%nat ->
  prep p t = 0 /\ uses p t = 0 /\ running p t = 0 /\ releases p t = 0 /\ at_phase replica_slot p t = 0 /\ at_phase replica_queue p t = 0.
Proof.
  intros Ht Hp.
  assert (forall actions : list releaseAction, (forall q, q ∈ actions.*1 -> (q < length (ag_heap a))%nat) -> occ p actions = 0) as Hocc.
  { induction actions as [|[q x] actions IH]; intros H; [done|]. cbn [occ]. rewrite hits_other, IH; [done|set_solver|].
    intros ->. specialize (H q ltac:(set_solver)). lia. }
  destruct t as [|q|q fence policy|q fence lease ph|actions next|q actions next|waits|]; try (by split_and!).
  - cbn [thread_ok] in Ht. cbn [prep]. rewrite hits_other by lia. by split_and!.
  - destruct Ht as (r & Hr & _). apply lookup_lt_Some in Hr. cbn [uses running at_phase]. rewrite hits_other by lia. split_and!; try done; by case_match.
  - destruct Ht as [Ht _]. cbn [releases]. rewrite Hocc by done. by split_and!.
  - destruct Ht as (Hq & Ht & _). cbn [releases]. rewrite hits_other, Hocc by (done || lia). by split_and!.
Qed.

(** The Agent with a new Replica. *)
Definition allocated (a : Agent) (r : replica) (rev : Z) : Agent :=
  set_revision rev (set_replicas (<[pq_ID (r_request r) := length (ag_heap a)]> (ag_replicas a)) (set_heap (ag_heap a ++ [r]) a)).

Lemma replica_ok_fresh a ths r : (forall t, t ∈ ths -> thread_ok a t) ->
  state_ok r -> r_preparing r = true -> r_users r = 0 -> r_active r = 0 -> r_releasing r = false ->
  r_limiter r = newLimiter (ep_MaxConcurrency (pq_Policy (r_request r))) (ag_maxQueuedPerReplica a) ->
  0 <= ep_MaxConcurrency (pq_Policy (r_request r)) -> 0 <= ag_maxQueuedPerReplica a <= HardMaxQueuedPerReplica -> pq_ID (r_request r) <> ""%string ->
  replica_ok (TPrepare (length (ag_heap a)) :: ths) (length (ag_heap a)) r.
Proof.
  intros Ht Hok Hp Hu Ha Hrel Hl Hmc Hmq Hid. set (p := length (ag_heap a)).
  assert (forall t, t ∈ ths -> prep p t = 0 /\ uses p t = 0 /\ running p t = 0 /\ releases p t = 0 /\
    at_phase replica_slot p t = 0 /\ at_phase replica_queue p t = 0) as Hf by (intros t Hin; by apply (thread_fresh a); [apply Ht|]).
  assert (tally (prep p) ths = 0 /\ tally (uses p) ths = 0 /\ tally (running p) ths = 0 /\ tally (releases p) ths = 0 /\
    tally (at_phase replica_slot p) ths = 0 /\ tally (at_phase replica_queue p) ths = 0) as (? & ? & ? & ? & ? & ?).
  { split_and!; apply tally_fresh; intros t Hin; by destruct (Hf t Hin) as (? & ? & ? & ? & ? & ?). }
  split; simpl; rewrite ?hits_same, ?Hp, ?Hrel; simpl; try done; try lia. rewrite Hl. unfold HardMaxQueuedPerReplica in Hmq. split; unfold HardMaxQueued; simpl; try done; lia.
Qed.

Lemma inv_alloc a ths granted released r rev : inv a ths [] [] granted released -> ag_closing a = false ->
  ag_replicas a !! pq_ID (r_request r) = None -> state_ok r -> r_preparing r = true -> r_users r = 0 -> r_active r = 0 ->
  r_releasing r = false -> r_lease r = None -> r_limiter r = newLimiter (ep_MaxConcurrency (pq_Policy (r_request r))) (ag_maxQueuedPerReplica a) ->
  0 <= ep_MaxConcurrency (pq_Policy (r_request r)) -> pq_ID (r_request r) <> ""%string -> r_state r <> ReplicaReady ->
  ai_Worker (pq_Assignment (r_request r)) = currentWorkerLocked (ag_gate a) -> Z.of_nat (size (ag_replicas a)) < ag_maxAssignments a ->
  inv (allocated a r rev) (TPrepare (length (ag_heap a)) :: ths) [] [] granted released.
Proof.
  intros [Hr Ht Hm Hu Hs Ha Hl Hlim Hst Hc Hca Hcf Hcap Hcc] Hcl Hnone Hok Hp Hus Hac Hrel Hle Hlm Hmc Hid Hnr Hw Hsize. apply inv_revision.
  assert (forall q rq, (ag_heap a ++ [r]) !! q = Some rq -> (q = length (ag_heap a) /\ rq = r) \/ ((q < length (ag_heap a))%nat /\ ag_heap a !! q = Some rq)) as Hh.
  { intros q rq [Hq|[Hge Hq]]%lookup_app_Some; [right; split; [by eapply lookup_lt_Some|done]|]. apply list_lookup_singleton_Some in Hq as [? <-]. left. split; [lia|done]. }
  assert (forall q rq, ag_heap a !! q = Some rq -> (ag_heap a ++ [r]) !! q = Some rq) as Hext by (intros; by apply lookup_app_l_Some).
  split; fields; try done.
  - intros q rq [[-> ->]|[Hq E]]%Hh; [apply replica_ok_fresh; try done; apply Hcf|]. destruct (Hr q rq E) as [? ? ? ? ? [] ?].
    split; simpl; rewrite ?hits_other by lia; try done.
  - intros t [->|Hin]%elem_of_cons; [simpl; rewrite length_app; simpl; lia|]. pose proof (Ht t Hin) as Hok'.
    destruct t as [|q|q fence policy|q fence lease ph|actions [waits|]|q actions [waits|]|waits|]; simpl in *; rewrite ?length_app; simpl; naive_solver (try lia; try congruence).
  - intros id q [[<- <-]|[Hne Hq]]%lookup_insert_Some.
    + exists r. split; [|done]. by apply list_lookup_middle.
    + destruct (Hm id q Hq) as (rq & ? & ?). eauto.
  - intros q rq [[-> ->]|[Hq E]]%Hh Hn; [by rewrite lookup_insert_eq in Hn|]. apply (Hu q rq E). intros Hq'. apply Hn.
    rewrite lookup_insert_ne; [done|]. intros Heq. rewrite <-Heq in Hq'. congruence.
  - intros q rq [[-> ->]|[Hq E]]%Hh Hlive; [by rewrite Hw|by apply Hs].
  - intros id rec Hrec. destruct (Ha id rec Hrec) as (q & rq & Hq & Hrq & ? & ?). exists q, rq. split_and!; eauto.
    rewrite lookup_insert_ne; [done|]. intros <-. congruence.
  - simpl. unfold held. rewrite omap_app. simpl. rewrite Hle, app_nil_r. done.
  - congruence.
  - intros Hx. destruct (Hca Hx). congruence.
  - rewrite map_size_insert_None by done. lia.
Qed.

Lemma CheckAssignment_Ok connection fence g : CheckAssignment connection fence g = Ok tt ->
  ai_AssignmentID (if_Assignment fence) <> ""%string /\ ai_Worker (if_Assignment fence) = currentWorkerLocked g.
Proof.
  unfold CheckAssignment, InvocationFence_validate, AssignmentIdentity_validate. intros H. ok_inv. split; [|done].
  intros E. match goal with H : idPattern (ai_AssignmentID _) = true |- _ => by rewrite E in H end.
Qed.

Definition preparing (outcome : prepare_outcome) : thread := match outcome with PrepareStarts p => TPrepare p | _ => TDone end.

Lemma Prepare_ok `{JCS} a ths granted released request : inv a ths [] [] granted released -> 0 <= ep_MaxConcurrency (pq_Policy request) ->
  region_ok a ths granted released (Prepare request) preparing.
Proof.
  intros Hinv Hmc. pose proof (inv_return _ _ _ _ Hinv) as Hb. unfold region_ok, Prepare, sbind at 1, sget.
  destruct (validatePrepare a request); [|by eexists _, _]. destruct (ag_closing a) eqn:Hcl; [by eexists _, _|].
  destruct (CheckAssignment _ _ _) as [[]|] eqn:Hck; [|by eexists _, _]. apply CheckAssignment_Ok in Hck as [Hid Hw].
  destruct (ag_replicas a !! _) as [p|] eqn:Hp.
  { destruct (iv_mapped _ _ _ _ _ _ Hinv _ _ Hp) as (r & Hr & _). unfold sbind, deref. rewrite Hr.
    destruct (negb _); [by eexists _, _|]. destruct (r_preparedDone r); by eexists _, _. }
  destruct (_ >=? _) eqn:Hsize; [by eexists _, _|]. go_cases. set (p := length (ag_heap a)). set (r := new_replica a request).
  set (a1 := set_replicas (<[pq_ID request := p]> (ag_replicas a)) (set_heap (ag_heap a ++ [r]) a)).
  assert ((p < length (ag_heap a1))%nat) as Hlt by (simpl; rewrite length_app; simpl; unfold p; lia).
  assert (ag_heap a1 !! p = Some r) as Hr by (by apply list_lookup_middle).
  assert (goes a1 p (do! bumpLocked in do! transitionLocked p ReplicaFetching in sret (PrepareStarts p)) r (ag_gate a1)
    (PrepareStarts p) (set_state ReplicaFetching r) (ag_gate a1)) as Hgo.
  { eapply goes_bind; [by apply goes_bump|]. eapply goes_bind; [apply goes_transition; [done|by right]|]. apply goes_ret. }
  destruct (goes_run _ _ _ _ _ _ _ Hgo Hr) as [rev E]. unfold sbind at 1, sput. fold p r a1. rewrite E. eexists _, _. split; [done|].
  replace (at_replica a1 p _ rev _) with (allocated a (set_state ReplicaFetching r) rev).
  - by apply inv_alloc.
  - unfold allocated, at_replica, a1, p. fields. unfold set_revision, set_replicas, set_heap, with_mutable. simpl. f_equal.
    rewrite insert_app_r_alt, Nat.sub_diag by done. done.
Qed.

Lemma inv_head a t ths stale open granted released : inv a (t :: ths) stale open granted released -> thread_ok a t.
Proof. intros H. apply (iv_thread _ _ _ _ _ _ H), elem_of_cons. by left. Qed.

(** The goroutine of a preparation counts its Replica. *)
Lemma thread_preparing a p ths stale open granted released : inv a (TPrepare p :: ths) stale open granted released ->
  exists r, ag_heap a !! p = Some r /\ r_preparing r = true.
Proof.
  intros Hinv. destruct (lookup_lt_is_Some_2 (ag_heap a) p) as [r Hr]; [apply (inv_head _ _ _ _ _ _ _ Hinv)|].
  exists r. split; [done|]. pose proof (rk_preparing _ _ _ (iv_replica _ _ _ _ _ _ Hinv p r Hr)) as H. simpl in H. rewrite hits_same in H.
  assert (0 <= tally (prep p) ths) by (apply tally_nonneg; intros []; simpl; try lia; apply hits_nonneg).
  destruct (r_preparing r); [done|]. simpl in H. lia.
Qed.

Lemma inv_prepared a p ths granted granted' released r r' lease acts rev : inv a (TPrepare p :: ths) [] [] granted released ->
  ag_heap a !! p = Some r -> r_preparing r = true -> prepares r r' lease (bool_decide (acts <> [])) ->
  acts = [] \/ (exists x, acts = [(p, x)]) -> option_list lease ++ acts.*2 ++ seq 0 granted ≡ₚ seq 0 granted' ->
  terminal (r_state r') = true \/ (r_state r = ReplicaFetching /\ ag_closing a = false) ->
  inv (at_replica a p r' rev (ag_gate a)) (TRelease acts None :: ths) [] [] granted' released.
Proof.
  intros Hinv Hr Hp [Hok Hreq Hlm Hpp Hus Hac Hle Hrel] Hacts Hperm Hterm.
  pose proof (iv_replica _ _ _ _ _ _ Hinv p r Hr) as [Hrok _ _ _ _ Hlim _]. destruct Hlim.
  destruct (preparing_flags r Hrok Hp) as (Hst & Hnone & Hnrel & Husers & Hnd & _).
  assert (occ p acts = b2z (bool_decide (acts <> [])) /\ forall q, q <> p -> occ q acts = 0) as [Hocc Hother].
  { destruct Hacts as [->|[x ->]]; simpl; rewrite ?hits_same; split; try done. intros q Hq. by rewrite hits_other. }
  eapply inv_local; try done.
  - split; simpl; rewrite ?Hlm, ?Hpp, ?Hp, ?hits_same, ?Hrel, ?Hnrel, ?Hocc; simpl; try lia; try done.
    intros q Hq. rewrite hits_other, Hother by done. by split_and!.
  - rewrite Hle, Hnone. simpl. transitivity (released ++ (option_list lease ++ acts.*2 ++ seq 0 granted)); [solve_Permutation|by rewrite Hperm].
  - right. congruence.
  - congruence.
  - split; [|done]. intros q. simpl. rewrite length_insert. destruct Hacts as [->|[x ->]]; [by intros ?%not_elem_of_nil|].
    intros ->%list_elem_of_singleton. by eapply lookup_lt_Some.
  - apply gate_keeps_same. left. intros E. rewrite E in Hst. naive_solver.
  - intros Hl. destruct Hterm as [?|[E _]]; [congruence|]. by rewrite E.
  - intros Hcl _. destruct Hterm as [?|[_ ?]]; [by right|congruence].
Qed.

Definition released_after (actions : list releaseAction) : thread := TRelease actions None.

Lemma failed_terminal answer err r : r_state r = ReplicaFetching \/ r_state r = ReplicaDraining \/ r_state r = ReplicaLost ->
  terminal (r_state (failed err (set_answered answer r))) = true.
Proof. intros Hs. replica_cases r. destruct Hs as [-> |[-> | ->]]; unfold failed, finish; simpl; by case_match. Qed.
Lemma stopped_terminal answer r : r_state r = ReplicaDraining \/ r_state r = ReplicaLost -> terminal (r_state (stopped (set_answered answer r))) = true.
Proof. intros Hs. replica_cases r. by destruct Hs as [-> | ->]. Qed.

Lemma finishPrepare_failed_ok a p ths granted released load err : inv a (TPrepare p :: ths) [] [] granted released ->
  region_ok a ths granted released (finishPrepare p load (inr err)) released_after.
Proof.
  intros Hinv. destruct (thread_preparing _ _ _ _ _ _ _ Hinv) as (r & Hr & Hp).
  pose proof (rk_state _ _ _ (iv_replica _ _ _ _ _ _ Hinv p r Hr)) as Hok. pose proof (lookup_lt_Some _ _ _ Hr) as Hlt.
  destruct (preparing_flags r Hok Hp) as (Hst & _).
  destruct (goes_run _ _ _ _ _ _ _ (goes_failed a p Hlt load err r (ag_gate a) Hst) Hr) as [rev E]. eexists _, _. split; [exact E|].
  apply (inv_prepared a p ths granted granted released r _ None []); try done; [by apply failed_prepares|by left|left; by apply failed_terminal].
Qed.

Lemma finishPrepare_ok a p ths granted released load : inv a (TPrepare p :: ths) [] [] granted released ->
  region_ok a ths (S granted) released (finishPrepare p load (inl granted)) released_after.
Proof.
  intros Hinv. destruct (thread_preparing _ _ _ _ _ _ _ Hinv) as (r & Hr & Hp).
  pose proof (rk_state _ _ _ (iv_replica _ _ _ _ _ _ Hinv p r Hr)) as Hok. pose proof (lookup_lt_Some _ _ _ Hr) as Hlt.
  destruct (preparing_flags r Hok Hp) as (Hst & _).
  assert (r_state r = ReplicaFetching -> ag_closing a = false) as Hcl.
  { intros Hf. destruct (ag_closing a) eqn:Hc; [|done]. pose proof (iv_closing _ _ _ _ _ _ Hinv Hc p r Hr (not_elem_of_nil _)) as H. rewrite Hf in H. naive_solver. }
  destruct (goes_prepared a p Hlt load granted r (ag_gate a) Hst Hcl) as (acts & r' & Hgo & Hcases).
  destruct (goes_run _ _ _ _ _ _ _ Hgo Hr) as [rev E]. eexists _, _. split; [exact E|].
  assert ([granted] ++ seq 0 granted ≡ₚ seq 0 (S granted)) as Hseq by (rewrite seq_S; simpl; solve_Permutation).
  destruct Hcases as [(-> & Hf & -> & _)|[(-> & Hf & ->)|(-> & Hf & e & next & -> & Hn)]].
  - apply (inv_prepared a p ths granted _ released r _ (Some granted) []); try done; [by apply ready_prepares|by left|by right; auto].
  - apply (inv_prepared a p ths granted _ released r _ None [(p, granted)]); try done; [by apply stopped_prepares|right; by eexists|left; by apply stopped_terminal].
  - apply (inv_prepared a p ths granted _ released r _ None [(p, granted)]); try done; [by apply abandoned_prepares|right; by eexists|left; by destruct Hn as [-> | ->]].
Qed.

(** ** Invocations *)
Lemma invoke_lookup_ok a ths granted released fence bodyBytes timeout : inv a ths [] [] granted released ->
  region_ok a ths granted released (invoke_lookup fence bodyBytes timeout)
    (fun r => match r with Ok (p, policy) => TLookedUp p fence policy | Err _ => TDone end).
Proof.
  intros Hinv. pose proof (inv_return _ _ _ _ Hinv) as Hb. unfold region_ok, invoke_lookup, sbind, sget.
  destruct (ag_replicas a !! _) as [p|] eqn:Hp; [|by eexists _, _]. destruct (iv_mapped _ _ _ _ _ _ Hinv _ _ Hp) as (r & Hr & _).
  unfold deref. rewrite Hr. unfold sret. destruct (fail_if _ _ ;;; _) as [[q policy]|] eqn:E; eexists _, _; (split; [done|]); [|done].
  ok_inv. apply inv_thread_add; [by split| |done]. exists r. by simplify_eq.
Qed.

Lemma serving_ready a fence p r : serving a fence p r = true ->
  ag_closing a = false /\ r_state r = ReplicaReady /\ ag_replicas a !! ai_AssignmentID (if_Assignment fence) = Some p.
Proof. unfold serving. intros. go_cases. naive_solver. Qed.

(** A change of the counters only. *)
Lemma state_ok_counts r users active : state_ok r -> r_state r = ReplicaReady -> 0 <= users -> state_ok (set_counts users active r).
Proof.
  intros Hok Hs Hu. pose proof (so_ready _ Hok Hs) as Hl. pose proof (so_lease _ Hok Hl) as [Hrel _].
  assert (r_preparing r = false) as Hp.
  { destruct (r_preparing r) eqn:E; [|done]. destruct (so_preparing _ Hok E) as (H & _). by rewrite Hs in H. }
  destruct Hok. split; simpl; try done; rewrite ?Hp, ?Hs in *; try done.
  - unfold idle in *. simpl. by rewrite Hs in *.
Qed.

Lemma invoke_enter_ok a p fence policy ths granted released : inv a (TLookedUp p fence policy :: ths) [] [] granted released ->
  region_ok a ths granted released (invoke_enter fence p)
    (fun r => match r with Ok lease => TInvoke p fence lease (AtReplica Arriving) | Err _ => TDone end).
Proof.
  intros Hinv. destruct (inv_head _ _ _ _ _ _ _ Hinv) as (r & Hr & Hass). unfold region_ok, invoke_enter, sbind at 1 2, sget, deref at 1. rewrite Hr.
  destruct (serving a fence p r) eqn:Hsv; cbn [negb].
  2: { eexists _, _. split; [done|]. eapply inv_thread_swap; [..|exact Hinv]; by split. }
  apply serving_ready in Hsv as (Hcl & Hready & Hp). pose proof (iv_replica _ _ _ _ _ _ Hinv p r Hr) as [Hok _ Hus _ _ Hlim _]. destruct Hlim.
  destruct (so_ready _ Hok Hready) as [lease Hlease]. rewrite Hlease. pose proof (lookup_lt_Some _ _ _ Hr) as Hlt.
  assert (goes a p (do! modify p (set_counts (r_users r + 1) (r_active r)) in do! bumpLocked in sret (Ok lease)) r (ag_gate a)
    (Ok lease) (set_counts (r_users r + 1) (r_active r) r) (ag_gate a)) as Hgo.
  { eapply goes_bind; [by apply goes_modify|]. eapply goes_bind; [by apply goes_bump|]. apply goes_ret. }
  destruct (goes_run _ _ _ _ _ _ _ Hgo Hr) as [rev E]. eexists _, _. split; [exact E|].
  assert (0 <= r_users r) by (rewrite Hus; apply tally_nonneg, uses_nonneg).
  eapply inv_local; try done; simpl; try done.
  - apply state_ok_counts; [done|done|lia].
  - split; simpl; rewrite ?hits_same; try lia; try done. intros q Hq. by rewrite hits_other.
  - by left.
  - exists (set_counts (r_users r + 1) (r_active r) r). rewrite list_lookup_insert_eq by done. done.
  - apply gate_keeps_same. by right.
  - congruence.
Qed.

(** Phases that count the same. *)
Lemma inv_phase a p fence lease ph ph' ths granted released :
  replica_slot ph' = replica_slot ph -> replica_queue ph' = replica_queue ph -> worker_slot ph' = worker_slot ph ->
  worker_queue ph' = worker_queue ph -> accepted_phase ph' = accepted_phase ph ->
  inv a (TInvoke p fence lease ph :: ths) [] [] granted released -> inv a (TInvoke p fence lease ph' :: ths) [] [] granted released.
Proof.
  intros H1 H2 H3 H4 H5 Hinv. eapply inv_thread_swap; [| |exact Hinv]; [|apply (inv_head _ _ _ _ _ _ _ Hinv)].
  split; simpl; rewrite ?H1, ?H2, ?H3, ?H4, ?H5; done.
Qed.

Lemma invoke_recheck_ok a p fence lease ths granted released : inv a (TInvoke p fence lease AtRecheck :: ths) [] [] granted released ->
  region_ok a ths granted released (invoke_recheck fence p)
    (fun err => TInvoke p fence lease (match err with None => InLease | Some err => ReleasingReplica false (Some err) end)).
Proof.
  intros Hinv. destruct (inv_head _ _ _ _ _ _ _ Hinv) as (r & Hr & _). unfold region_ok, invoke_recheck, sbind, sget, deref. rewrite Hr.
  eexists _, _. split; [done|]. destruct (serving _ _ _ _); by eapply inv_phase, Hinv.
Qed.

Lemma AuthorizeSync_keeps fence clock g g' r id serves : AuthorizeSync fence clock g = (g', r) -> (serves : Prop) -> gate_keeps g g' id serves.
Proof.
  intros H Hs. apply AuthorizeSync_cases in H as [[_ ->]|[[_ ->]|[(_ & _ & _ & ->)|(_ & _ & ->)]]]; split; auto.
  simpl. by intros id' rec [_ ?]%lookup_delete_Some.
Qed.

Lemma invoke_check_ok a p fence lease expired expired' clock ths granted released :
  inv a (TInvoke p fence lease Permitted :: ths) [] [] granted released ->
  region_ok a ths granted released (invoke_check fence p expired expired' clock)
    (fun err => TInvoke p fence lease (match err with None => Running | Some err => ReleasingWorker false (Some err) end)).
Proof.
  intros Hinv. destruct (inv_head _ _ _ _ _ _ _ Hinv) as (r & Hr & Hass & Hlease). unfold region_ok, invoke_check.
  assert (forall a' err, inv a' (TInvoke p fence lease Permitted :: ths) [] [] granted released ->
    inv a' (TInvoke p fence lease (ReleasingWorker false err) :: ths) [] [] granted released) as Hfail by (intros a' err H; by eapply inv_phase, H).
  destruct expired; [eexists _, _; split; [done|by apply Hfail]|]. unfold sbind at 1 2, sget, deref at 1. rewrite Hr.
  destruct (serving a fence p r) eqn:Hsv; cbn [negb]; [|eexists _, _; split; [done|by apply Hfail]].
  apply serving_ready in Hsv as (Hcl & Hready & Hp). destruct (AuthorizeSync fence clock (ag_gate a)) as [g x] eqn:Hauth.
  pose proof (AuthorizeSync_keeps _ _ _ _ _ (pq_ID (r_request r)) (r_state r <> ReplicaReady \/ r_state r = ReplicaReady) Hauth (or_intror Hready)) as Hg.
  assert (inv (set_gate g a) (TInvoke p fence lease Permitted :: ths) [] [] granted released) as Hinv'.
  { apply inv_gate; [done|apply Hg|intros; apply Hg|]. intros id rec Hrec. left. by apply Hg. }
  unfold sbind at 1, sput. destruct x as [u|err]; [|eexists _, _; split; [done|by apply Hfail]].
  destruct expired'; [eexists _, _; split; [done|by apply Hfail]|].
  pose proof (iv_replica _ _ _ _ _ _ Hinv p r Hr) as [Hok _ Hus _ _ Hlim _]. destruct Hlim. pose proof (lookup_lt_Some _ _ _ Hr) as Hlt.
  assert (goes (set_gate g a) p (do! modify p (set_counts (r_users r) (r_active r + 1)) in do! bumpLocked in sret (None : option error)) r g
    None (set_counts (r_users r) (r_active r + 1) r) g) as Hgo.
  { eapply goes_bind; [by apply goes_modify|]. eapply goes_bind; [by apply goes_bump|]. apply goes_ret. }
  destruct (goes_run _ _ _ _ _ _ _ Hgo Hr) as [rev E]. eexists _, _. split; [exact E|].
  change (inv (at_replica a p (set_counts (r_users r) (r_active r + 1) r) rev g) (TInvoke p fence lease Running :: ths) [] [] granted released).
  eapply inv_local; try done; simpl; try done.
  - apply state_ok_counts; [done|done|]. rewrite Hus. apply tally_nonneg, uses_nonneg.
  - split; simpl; rewrite ?hits_same; try lia; try done. intros q Hq. by rewrite hits_other.
  - by left.
  - exists (set_counts (r_users r) (r_active r + 1) r). rewrite list_lookup_insert_eq by done. done.
  - congruence.
Qed.

(** ** Limiters *)
Definition holds_slot (n : acquired) : bool := match n with Acquired | Continue (Dequeuing None) => true | _ => false end.
Definition holds_queue (n : acquired) : bool := match n with Continue Waiting | Continue (Dequeuing _) => true | _ => false end.

(** One step of [acquire] moves the tokens that it should, within the bounds. *)
Record moves (l l' : limiter) (slots queue : Z) : Prop := {
  mv_concurrent : lm_concurrent l' = lm_concurrent l;
  mv_queued : lm_queued l' = lm_queued l;
  mv_slots : lm_slots l' = lm_slots l + slots;
  mv_queue : lm_queue l' = lm_queue l + queue;
  mv_slots_bound : lm_slots l' <= lm_concurrent l';
  mv_queue_bound : lm_queue l' <= lm_queued l';
}.

Lemma acquire_moves l stopped at_ c l' next : lm_slots l <= lm_concurrent l -> lm_queue l <= lm_queued l ->
  acquire l stopped at_ c = Some (l', next) ->
  moves l l' (b2z (holds_slot next) - b2z (holds_slot (Continue at_))) (b2z (holds_queue next) - b2z (holds_queue (Continue at_))).
Proof.
  intros H1 H2 E. unfold acquire in E.
  destruct at_ as [| | | |[err|]], c; repeat case_match; simplify_eq; go_cases; split; simpl; lia.
Qed.

Lemma inv_replica_limiter a p fence lease ph ph' ths granted released r l : inv a (TInvoke p fence lease ph :: ths) [] [] granted released ->
  ag_heap a !! p = Some r ->
  moves (r_limiter r) l (b2z (replica_slot ph') - b2z (replica_slot ph)) (b2z (replica_queue ph') - b2z (replica_queue ph)) ->
  worker_slot ph' = worker_slot ph -> worker_queue ph' = worker_queue ph -> accepted_phase ph' = accepted_phase ph ->
  inv (set_heap (<[p := set_limiter l r]> (ag_heap a)) a) (TInvoke p fence lease ph' :: ths) [] [] granted released.
Proof.
  intros Hinv Hr [M1 M2 M3 M4 M5 M6] H1 H2 H3. pose proof (iv_replica _ _ _ _ _ _ Hinv p r Hr) as [Hok _ _ _ _ _ _].
  pose proof (lookup_lt_Some _ _ _ Hr) as Hlt.
  change (inv (at_replica a p (set_limiter l r) (ag_revision a) (ag_gate a)) (TInvoke p fence lease ph' :: ths) [] [] granted released).
  eapply inv_local; try done; simpl; rewrite ?H1, ?H2; try done.
  - destruct Hok. by split.
  - split; simpl; rewrite ?hits_same, ?H3; try lia; try done.
    + destruct (replica_slot ph), (replica_slot ph'); simpl in *; lia.
    + destruct (replica_queue ph), (replica_queue ph'); simpl in *; lia.
    + intros q Hq. rewrite hits_other by done. repeat case_match; done.
  - by left.
  - destruct (inv_head _ _ _ _ _ _ _ Hinv) as (r0 & E & Ha & Hl). simplify_eq. exists (set_limiter l r).
    by rewrite list_lookup_insert_eq.
  - apply gate_keeps_same. destruct (decide (r_state r = ReplicaReady)); auto.
  - intros Hcl _. by apply (iv_closing _ _ _ _ _ _ Hinv Hcl p r Hr), not_elem_of_nil.
Qed.

Lemma inv_worker_limiter a p fence lease ph ph' ths granted released l : inv a (TInvoke p fence lease ph :: ths) [] [] granted released ->
  moves (ag_limiter a) l (b2z (worker_slot ph') - b2z (worker_slot ph)) (b2z (worker_queue ph') - b2z (worker_queue ph)) ->
  replica_slot ph' = replica_slot ph -> replica_queue ph' = replica_queue ph -> accepted_phase ph' = accepted_phase ph ->
  inv (set_global l a) (TInvoke p fence lease ph' :: ths) [] [] granted released.
Proof.
  intros Hinv [M1 M2 M3 M4 M5 M6] H1 H2 H3. pose proof (inv_head _ _ _ _ _ _ _ Hinv) as Hhead.
  destruct Hinv as [Hr Ht Hm Hu Hs Ha Hl [] Hst Hc Hca Hcf Hcap Hcc]. split; fields; try done.
  - intros q r E. destruct (Hr q r E) as [? ? ? ? ? [] ?]. simpl in *. split; simpl; rewrite ?H1, ?H2, ?H3; done.
  - intros t [->|Hin]%elem_of_cons; [exact Hhead|]. apply (Ht t), elem_of_cons. by right.
  - simpl in *. split; simpl; try done; lia.
Qed.

(** ** The ends of invocations and releases *)
Lemma finalize_ready p r : r_state r = ReplicaReady -> finalize p r = (r, []).
Proof.
  intros Hs. unfold finalize. assert (stop_drained r = r) as -> by (unfold stop_drained; by rewrite Hs). rewrite Hs. simpl. by destruct (_ || _).
Qed.

Lemma finishInvocation_ok a p fence lease accepted err ths granted released :
  inv a (TInvoke p fence lease (Finishing accepted err) :: ths) [] [] granted released ->
  region_ok a ths granted released (finishInvocation p accepted) released_after.
Proof.
  intros Hinv. destruct (inv_head _ _ _ _ _ _ _ Hinv) as (r & Hr & Hass & Hlease). pose proof (lookup_lt_Some _ _ _ Hr) as Hlt.
  pose proof (iv_replica _ _ _ _ _ _ Hinv p r Hr) as [Hok _ Hus _ _ Hlim _]. destruct Hlim.
  destruct (goes_run _ _ _ _ _ _ _ (goes_finishInvocation a p Hlt accepted r (ag_gate a)) Hr) as [rev E]. eexists _, _. split; [exact E|]. clear E.
  assert (r_users r <> 0) as Hu.
  { simpl in Hus. rewrite hits_same in Hus. pose proof (tally_nonneg (uses p) (uses_nonneg p) ths). lia. }
  set (active := if accepted then _ else _). pose proof (used_keeps p r active Hok Hu) as Hk. cbv zeta in Hk.
  set (r1 := set_counts (r_users r - 1) active r) in *.
  assert (r_state r = ReplicaReady -> r_state (fst (finalize p r1)) = ReplicaReady) as Hready by (intros H; by rewrite finalize_ready).
  assert (terminal (r_state r) = true -> terminal (r_state (fst (finalize p r1))) = true) as Hterm by apply (finalize_terminal p r1).
  pose proof (finalize_state p r1) as Hstate. change (r_state r1) with (r_state r) in Hstate.
  destruct (finalize p r1) as [r' acts]. cbn [fst snd] in *. destruct Hk as [Hok' Hreq Hlm Hprep Hus' Hac Hle Hd]. simpl in *.
  assert (forall q, occ q acts = if decide (q = p) then b2z (r_releasing r') - b2z (r_releasing r) else 0) as Hocc.
  { intros q. destruct Hle as [(-> & _ & ->)|(l & -> & _ & _ & -> & -> & _)]; simpl; unfold hits; case_decide; lia. }
  eapply inv_local; try done.
  - split; simpl; rewrite ?Hlm, ?Hprep, ?hits_same, ?Hocc, ?decide_True; try done; try lia.
    + rewrite Hac. unfold active. destruct accepted; lia.
    + intros q Hq. rewrite hits_other, Hocc, decide_False by done. by destruct accepted.
  - cbn [pend]. destruct Hle as [(-> & -> & _)|(l & -> & El & -> & _)]; [done|]. rewrite El. simpl. solve_Permutation.
  - destruct Hle as [(_ & ? & _)|(l & _ & _ & _ & _ & _ & ?)]; auto.
  - split; [|done]. intros q. simpl. rewrite length_insert.
    destruct Hle as [(-> & _)|(l & -> & _)]; [by intros ?%not_elem_of_nil|]. by intros ->%list_elem_of_singleton.
  - apply gate_keeps_same. destruct (decide (r_state r = ReplicaReady)); auto.
  - intros Hl. destruct (terminal (r_state r)); [rewrite Hterm in Hl|]; done.
  - intros Hcl _. apply Hstate. by apply (iv_closing _ _ _ _ _ _ Hinv Hcl p r Hr), not_elem_of_nil.
Qed.

Lemma inv_released a p lease actions next ths granted released :
  inv a (TRelease ((p, lease) :: actions) next :: ths) [] [] granted released ->
  inv a (TReleased p actions next :: ths) [] [] granted (lease :: released).
Proof.
  intros Hinv. destruct (inv_head _ _ _ _ _ _ _ Hinv) as [Hin Hw]. destruct (lookup_lt_is_Some_2 (ag_heap a) p) as [r Hr]; [apply Hin; set_solver|].
  pose proof (iv_replica _ _ _ _ _ _ Hinv p r Hr) as [Hok _ _ _ _ [] _]. rewrite <-(at_replica_id a p r Hr).
  eapply inv_local; try done.
  - split; simpl; try lia; done.
  - cbn [pend]. simpl. solve_Permutation.
  - by left.
  - rewrite at_replica_id by done. split_and!; [by eapply lookup_lt_Some| |done]. intros q Hq. apply Hin. set_solver.
  - apply gate_keeps_same. destruct (decide (r_state r = ReplicaReady)); auto.
  - intros Hcl _. by apply (iv_closing _ _ _ _ _ _ Hinv Hcl p r Hr), not_elem_of_nil.
Qed.

Lemma finish_release_ok a p actions next ths granted released : inv a (TReleased p actions next :: ths) [] [] granted released ->
  region_ok a ths granted released (finish_release p) (fun _ => TRelease actions next).
Proof.
  intros Hinv. destruct (inv_head _ _ _ _ _ _ _ Hinv) as (Hlt & Hin & Hw). destruct (lookup_lt_is_Some_2 _ _ Hlt) as [r Hr].
  pose proof (iv_replica _ _ _ _ _ _ Hinv p r Hr) as [Hok _ _ _ Hrel [] _].
  destruct (goes_run _ _ _ _ _ _ _ (goes_finish_release a p Hlt r (ag_gate a)) Hr) as [rev E]. eexists _, _. split; [exact E|]. clear E.
  assert (r_releasing r = true) as Hr1.
  { simpl in Hrel. rewrite hits_same in Hrel. pose proof (occ_nonneg p actions).
    assert (0 <= tally (releases p) ths).
    { apply tally_nonneg. intros []; simpl; try lia; [apply occ_nonneg|]. pose proof (hits_nonneg p p0). pose proof (occ_nonneg p actions0). lia. }
    destruct (r_releasing r); [done|]. simpl in Hrel. lia. }
  destruct (released_ok r Hok Hr1) as (Hok' & Hl & Hl' & Hreq & Hlm & Hprep & Hus & Hac & Hrel' & Hst & Hd).
  set (r' := finish _) in *. clearbody r'. eapply inv_local; try done.
  - split; simpl; rewrite ?Hlm, ?Hprep, ?hits_same, ?Hr1, ?Hrel'; simpl; try lia; try done. intros q Hq. by rewrite hits_other.
  - by rewrite Hl, Hl'.
  - left. congruence.
  - assert (thread_ok (at_replica a p r' rev (ag_gate a)) (TRelease actions next)) as H; [|exact H].
    eapply thread_ok_local with (ths := [TRelease actions next]); try done; [by right|apply elem_of_cons; by left].
  - apply gate_keeps_same. rewrite Hst. destruct (decide (r_state r = ReplicaReady)); auto.
  - by rewrite Hst.
  - intros Hcl _. rewrite Hst. by apply (iv_closing _ _ _ _ _ _ Hinv Hcl p r Hr), not_elem_of_nil.
Qed.

(** ** Closing *)
Definition closer (t : thread) : bool := match t with TDone | TWait _ | TCloseCache => true | _ => false end.

Lemma inv_flags a t t' ths granted released closed cacheClosing closeErr : closer t = true -> closer t' = true ->
  inv a (t :: ths) [] [] granted released -> ag_closing a = true -> all_done a ->
  thread_ok a t' -> b2z cacheClosing - b2z (ag_cacheClosing a) = closes t' - closes t ->
  inv (set_closing (ag_closing a) (ag_stopped a) closed cacheClosing closeErr a) (t' :: ths) [] [] granted released.
Proof.
  intros Hc Hc' Hinv Hcl Hd Hok Hcount.
  assert (forall p, prep p t' = prep p t /\ uses p t' = uses p t /\ running p t' = running p t /\ releases p t' = releases p t /\
    at_phase replica_slot p t' = at_phase replica_slot p t /\ at_phase replica_queue p t' = at_phase replica_queue p t) as Hsame
    by (by destruct t, t').
  destruct Hinv as [Hr Ht Hm Hu Hs Ha Hl [] Hst Hcg Hca Hcf Hcap Hcc]. split; fields; try done.
  - intros p r E. destruct (Hr p r E) as [? ? ? ? ? [] ?], (Hsame p) as (? & ? & ? & ? & ? & ?). simpl in *.
    split; simpl; try done; try lia. split; simpl; try done; lia.
  - intros t0 [->|Hin]%elem_of_cons; [done|]. apply (Ht t0), elem_of_cons. by right.
  - by destruct t, t'.
  - split; by destruct t, t'.
  - simpl in *. lia.
Qed.

Lemma waited_done a : thread_ok a (TWait []) -> ag_closing a = true /\ all_done a.
Proof. intros (Hcl & _ & H). split; [done|]. intros p r Hp. destruct (H p r Hp) as [?|?%not_elem_of_nil]; done. Qed.

Lemma closeCache_begin_ok a ths granted released : inv a (TWait [] :: ths) [] [] granted released ->
  exists a' outcome, closeCache_begin a = (a', Ok outcome) /\
    match outcome with
    | CloseReturns _ => inv a' (TDone :: ths) [] [] granted released
    | CloseWaits => True
    | CloseProceeds => inv a' (TCloseCache :: ths) [] [] granted released
    end.
Proof.
  intros Hinv. destruct (waited_done a (inv_head _ _ _ _ _ _ _ Hinv)) as [Hcl Hd]. unfold closeCache_begin, sbind, sget, sput.
  destruct (ag_closed a); [eexists _, _; split; [done|]; eapply inv_thread_swap; [..|exact Hinv]; by split|].
  destruct (ag_cacheClosing a) eqn:Hcc; [by eexists _, _|]. eexists _, _. split; [done|]. apply (inv_flags a (TWait [])); try done. by rewrite Hcc.
Qed.

Lemma closeCache_end_ok a ths granted released err : inv a (TCloseCache :: ths) [] [] granted released ->
  region_ok a ths granted released (closeCache_end err) returns.
Proof.
  intros Hinv. destruct (inv_head _ _ _ _ _ _ _ Hinv) as [Hcl Hd]. unfold region_ok, closeCache_end, sbind, sget.
  assert (ag_cacheClosing a = true) as Hcc.
  { pose proof (iv_cacheClosing _ _ _ _ _ _ Hinv) as H. simpl in H. assert (0 <= tally closes ths) by (apply tally_nonneg; intros []; simpl; lia).
    destruct (ag_cacheClosing a); [done|]. simpl in H. lia. }
  destruct err; eexists _, _; (split; [done|]); [|apply inv_revision].
  - apply (inv_flags a TCloseCache); try done. by rewrite Hcc.
  - apply (inv_flags a TCloseCache); try done. by rewrite Hcc.
Qed.

(** ** Every event *)
Definition winv (w : World) : Prop := inv (w_agent w) (w_threads w) [] [] (w_granted w) (w_released w).

Definition outcome_ok (o : outcome) : Prop := match o with Disabled => True | Panicked _ => False | Stepped w => winv w end.

Lemma spawn_ok {A} w (m : M Agent A) t : region_ok (w_agent w) (w_threads w) (w_granted w) (w_released w) m t ->
  outcome_ok (region m w (fun x => spawn w (t x))).
Proof.
  intros (a' & x & E & H). unfold region. rewrite E. unfold outcome_ok, winv. simpl. by rewrite <-Permutation_cons_append.
Qed.

Section thread.
Context (w : World) (tid : nat) (rest : list thread).
Context (Hrest : forall t', <[tid := t']> (w_threads w) ≡ₚ t' :: rest).

Lemma becomes_ok t a granted released : inv a (t :: rest) [] [] granted released ->
  winv {| w_agent := a; w_threads := <[tid := t]> (w_threads w); w_granted := granted; w_released := released |}.
Proof. intros H. unfold winv. simpl. by rewrite Hrest. Qed.

(** Error messages are computed from the state, which they do not change. *)
Lemma stopping_reads p a : is_Some (ag_heap a !! p) -> exists x, stoppingAdmissionError p a = (a, Ok x).
Proof. intros [r Hr]. unfold stoppingAdmissionError, sbind, sget, deref. rewrite Hr. by eexists. Qed.
Lemma admission_reads full p err a : is_Some (ag_heap a !! p) -> exists x, admissionError full p err a = (a, Ok x).
Proof. intros Hr. unfold admissionError. destruct (errors_Is _ _); [by eexists|]. destruct (errors_Is _ _); [by apply stopping_reads|by eexists]. Qed.
Lemma lease_error_reads p err a : is_Some (ag_heap a !! p) -> exists x, lease_error p err a = (a, Ok x).
Proof.
  intros Hr. unfold lease_error. destruct err as [err|]; [|by eexists]. destruct (errors_Is _ _); [|by eexists].
  unfold sbind. destruct (stopping_reads p a Hr) as [x ->]. by eexists.
Qed.

Lemma invoking_heap a p fence lease ph granted released : inv a (TInvoke p fence lease ph :: rest) [] [] granted released ->
  exists r, ag_heap a !! p = Some r /\ lm_slots (r_limiter r) <= lm_concurrent (r_limiter r) /\ lm_queue (r_limiter r) <= lm_queued (r_limiter r).
Proof.
  intros Hinv. destruct (inv_head _ _ _ _ _ _ _ Hinv) as (r & Hr & _). exists r. split; [done|].
  by destruct (rk_limiter _ _ _ (iv_replica _ _ _ _ _ _ Hinv p r Hr)).
Qed.

Lemma step_limiter_ok p fence lease ph c :
  inv (w_agent w) (TInvoke p fence lease ph :: rest) [] [] (w_granted w) (w_released w) -> outcome_ok (step_limiter w tid p fence lease ph c).
Proof.
  intros Hinv. destruct (invoking_heap _ _ _ _ _ _ _ Hinv) as (r & Hr & Hs & Hq). unfold step_limiter. rewrite Hr.
  destruct ph as [at_| | |at_| | | | |]; try exact I.
  - destruct (acquire _ _ _ _) as [[l next]|] eqn:E; [|exact I]. apply acquire_moves in E; [|done..].
    assert (forall ph', worker_slot ph' = false -> worker_queue ph' = false -> accepted_phase ph' = false ->
      b2z (replica_slot ph') = b2z (holds_slot next) -> b2z (replica_queue ph') = b2z (holds_queue next) ->
      inv (set_heap (<[p := set_limiter l r]> (ag_heap (w_agent w))) (w_agent w)) (TInvoke p fence lease ph' :: rest) [] [] (w_granted w) (w_released w)) as Hgo.
    { intros ph' H1 H2 H3 H4 H5. eapply inv_replica_limiter; [exact Hinv|done| |done..]. rewrite H4, H5. by destruct at_ as [| | | |[]]. }
    destruct next as [at'| |err].
    + apply becomes_ok, Hgo; try done; by destruct at' as [| | | |[]].
    + by apply becomes_ok, Hgo.
    + unfold region, replicaAdmissionError. edestruct admission_reads as [x ->]; [|by apply becomes_ok, Hgo].
      simpl. rewrite list_lookup_insert_eq; [by eexists|]. by eapply lookup_lt_Some.
  - pose proof (iv_limiter _ _ _ _ _ _ Hinv) as [_ _ _ Hgs Hgq].
    destruct (acquire _ _ _ _) as [[l next]|] eqn:E; [|exact I]. apply acquire_moves in E; [|done..].
    assert (forall ph', replica_slot ph' = true -> replica_queue ph' = false -> accepted_phase ph' = false ->
      b2z (worker_slot ph') = b2z (holds_slot next) -> b2z (worker_queue ph') = b2z (holds_queue next) ->
      inv (set_global l (w_agent w)) (TInvoke p fence lease ph' :: rest) [] [] (w_granted w) (w_released w)) as Hgo.
    { intros ph' H1 H2 H3 H4 H5. eapply inv_worker_limiter; [exact Hinv| |done..]. rewrite H4, H5. by destruct at_ as [| | | |[]]. }
    destruct next as [at'| |err].
    + apply becomes_ok, Hgo; try done; by destruct at' as [| | | |[]].
    + by apply becomes_ok, Hgo.
    + unfold region, globalAdmissionError. edestruct admission_reads as [x ->]; [|by apply becomes_ok, Hgo]. by eexists.
Qed.

Lemma step_invoke_ok p fence lease ph e :
  inv (w_agent w) (TInvoke p fence lease ph :: rest) [] [] (w_granted w) (w_released w) -> outcome_ok (step_invoke w tid p fence lease ph e).
Proof.
  intros Hinv. destruct (invoking_heap _ _ _ _ _ _ _ Hinv) as (r & Hr & Hs & Hq).
  assert (forall a', ag_heap a' = ag_heap (w_agent w) -> is_Some (ag_heap a' !! p)) as Hheap by (intros a' ->; by eexists).
  assert (forall a ph', inv a (TInvoke p fence lease ph' :: rest) [] [] (w_granted w) (w_released w) ->
    outcome_ok (Stepped (becomes w tid (TInvoke p fence lease ph') a))) as Hnext by (intros; by apply becomes_ok).
  unfold step_invoke. destruct e; try exact I; try (by apply step_limiter_ok); destruct ph as [at_| | |at_| | |accepted err0|accepted err0|accepted err0]; try exact I;
    try (by destruct err).
  - destruct (invoke_recheck_ok _ _ _ _ _ _ _ Hinv) as (a' & x & E & H). unfold region. rewrite E. by destruct x; apply becomes_ok.
  - apply Hnext. by eapply inv_phase, Hinv.
  - destruct (invoke_check_ok _ _ _ _ expired expired' clock _ _ _ Hinv) as (a' & x & E & H). unfold region. rewrite E. by destruct x; apply becomes_ok.
  - destruct err as [err|]; [|exact I]. unfold region. destruct (lease_error_reads p (Some err) (w_agent w)) as [x ->]; [by apply Hheap|].
    apply Hnext. by eapply inv_phase, Hinv.
  - destruct err as [err|]; [|exact I]. apply Hnext. by eapply inv_phase, Hinv.
  - destruct err as [err|]; apply Hnext; by eapply inv_phase, Hinv.
  - destruct (limiter_release (ag_limiter (w_agent w))) as [l|] eqn:E; [|exact I]. unfold limiter_release in E. destruct (_ <? _); [|done]. simplify_eq.
    pose proof (iv_limiter _ _ _ _ _ _ Hinv) as [_ _ _ Hgs Hgq].
    unfold region. edestruct lease_error_reads as [x ->]; [by apply Hheap|]. apply Hnext.
    eapply inv_worker_limiter; [exact Hinv| |done..]. split; simpl; lia.
  - rewrite Hr. destruct (limiter_release (r_limiter r)) as [l|] eqn:E; [|exact I]. unfold limiter_release in E. destruct (_ <? _); [|done]. simplify_eq.
    apply Hnext. eapply inv_replica_limiter; [exact Hinv|done| |done..]. split; simpl; lia.
  - destruct (finishInvocation_ok _ _ _ _ _ _ _ _ _ Hinv) as (a' & x & E & H). unfold region. rewrite E. by apply becomes_ok.
Qed.

Lemma step_thread_ok t e : inv (w_agent w) (t :: rest) [] [] (w_granted w) (w_released w) -> outcome_ok (step_thread w tid t e).
Proof.
  intros Hinv. assert (forall t', alike t t' -> thread_ok (w_agent w) t' -> outcome_ok (Stepped (becomes w tid t' (w_agent w)))) as Hswap.
  { intros t' Ha Hok. apply becomes_ok. eapply inv_thread_swap; [done|done|exact Hinv]. }
  destruct t as [|p|p fence policy|p fence lease ph|actions next|p actions next|waits|]; [exact I|..].
  - destruct e; try exact I. unfold step_thread, region. destruct failure as [err|].
    + destruct (finishPrepare_failed_ok _ _ _ _ _ load err Hinv) as (a' & x & E & H). rewrite E. by apply becomes_ok.
    + destruct (finishPrepare_ok _ _ _ _ _ load Hinv) as (a' & x & E & H). rewrite E. by apply becomes_ok.
  - destruct e; try exact I. unfold step_thread, region. destruct (_ <=? 0); [by apply Hswap|].
    destruct (invoke_enter_ok _ _ _ _ _ _ _ Hinv) as (a' & x & E & H). rewrite E. by destruct x; apply becomes_ok.
  - by apply step_invoke_ok.
  - destruct actions as [|[p lease] actions].
    + destruct next as [waits|], e; try exact I; [|by apply Hswap]. apply Hswap; [done|]. apply (inv_head _ _ _ _ _ _ _ Hinv).
    + destruct next as [waits|], e; try exact I; apply becomes_ok; by apply inv_released.
  - destruct e; try exact I. destruct (finish_release_ok _ _ _ _ _ _ _ Hinv) as (a' & x & E & H). unfold step_thread, region. rewrite E. by apply becomes_ok.
  - destruct (inv_head _ _ _ _ _ _ _ Hinv) as (Hcl & Hlt & Hw). destruct waits as [|p waits], e; try exact I; try (by apply Hswap).
    + unfold step_thread. destruct (closeCache_begin_ok _ _ _ _ Hinv) as (a' & o & E & H). rewrite E. destruct o; [by apply becomes_ok|exact I|by apply becomes_ok].
    + unfold step_thread. destruct (ag_heap (w_agent w) !! p) as [r|] eqn:Hr; [|exact I]. destruct (r_doneClosed r) eqn:Hd; [|exact I]. apply Hswap; [done|].
      split_and!; [done|intros q Hq; apply Hlt, elem_of_cons; by right|]. intros q rq Hq. destruct (Hw q rq Hq) as [?|[->|?]%elem_of_cons]; [by left|left; congruence|by right].
  - destruct e; try exact I. destruct (closeCache_end_ok _ _ _ _ err Hinv) as (a' & x & E & H). unfold step_thread, region. rewrite E. by apply becomes_ok.
Qed.

End thread.

Theorem step_ok `{JCS} e w : winv w -> outcome_ok (step e w).
Proof.
  intros Hinv. unfold step. destruct (thread_of e) as [tid|] eqn:He.
  { destruct (w_threads w !! tid) as [t|] eqn:Ht; [|exact I]. destruct (insert_split _ _ _ Ht) as (rest & Hp & Hrest).
    eapply step_thread_ok; [exact Hrest|]. unfold winv in Hinv. by rewrite Hp in Hinv. }
  destruct e; try done.
  - destruct (iterates order _) eqn:H1; [|exact I]. destruct (iterates order' _) eqn:H2; [|exact I]. by apply (spawn_ok w _ releasing), AcceptControl_ok.
  - destruct (iterates order _) eqn:H1; [|exact I]. by apply (spawn_ok w _ releasing), DisconnectControl_ok.
  - destruct (uint32 _) eqn:Hu; [|exact I]. unfold uint32 in Hu. go_cases. apply (spawn_ok w _ preparing), Prepare_ok; [done|naive_solver lia].
  - by apply (spawn_ok w _ returns), InstallAuthorization_ok.
  - by apply (spawn_ok w _ _), invoke_lookup_ok.
  - by apply (spawn_ok w _ releasing), Cancel_ok.
  - by apply (spawn_ok w _ returns), AcknowledgeTerminal_ok.
  - destruct (iterates order _) eqn:H1; [|exact I]. by apply (spawn_ok w _ (fun r => TRelease (fst r) (Some (snd r)))), beginClose_ok.
Qed.

Theorem run_ok `{JCS} es w : winv w -> exists w', run es w = Stepped w' /\ winv w'.
Proof.
  revert w. induction es as [|e es IH]; intros w Hw; [by exists w|]. cbn [run]. pose proof (step_ok e w Hw) as H1.
  destruct (step e w) as [|err|w1]; [by apply IH|done|by apply IH].
Qed.

(** A new Agent. *)
Lemma newAgent_ok config profile limits elapsed a : newAgent config profile limits elapsed = Ok a -> winv (init a).
Proof.
  unfold newAgent. intros H. ok_inv. subst a.
  match goal with H : New _ _ = Ok ?g |- _ => assert (g_authorizations g = ∅) as Hnone by (unfold servingauth.New in H; ok_inv; by subst) end.
  split; simpl; try done; try lia.
  - by intros t ?%not_elem_of_nil.
  - intros id rec. by rewrite Hnone, lookup_empty.
  - split; simpl; try done; lia.
  - rewrite map_size_empty. lia.
Qed.

End steps.
