(* ===== verification/WorkerGuarantees.v ===== *)
(** * Package [internal/workeragent]: what the Agent promises

    Leases, acceptance, bounds and shutdown, after any schedule of the goroutines
    of a new Agent. *)
From stdpp Require Import base gmap strings list.
From S2P Require Import Prelude Problem Digest Json Model ServingAuth Scheduler Net Abi WorkerAgent WorkerServing WorkerEffects WorkerSafety WorkerSteps.
Import problem digest model agent serving effects safety steps.

#[local] Open Scope Z_scope.

Module guarantees.

(** ** Leases *)
Lemma occ_zero actions : (forall p, occ p actions = 0) -> actions = [].
Proof.
  destruct actions as [|[q x] actions]; [done|]. intros H. specialize (H q). simpl in H. rewrite hits_same in H.
  pose proof (occ_nonneg q actions). lia.
Qed.
Lemma releases_nonneg p t : 0 <= releases p t.
Proof. destruct t; simpl; try lia; [apply occ_nonneg|]. pose proof (hits_nonneg p p0). pose proof (occ_nonneg p actions). lia. Qed.
Lemma prep_nonneg p t : 0 <= prep p t.
Proof. destruct t; simpl; try lia. apply hits_nonneg. Qed.

Lemma done_idle ths p r : replica_ok ths p r -> r_doneClosed r = true ->
  r_preparing r = false /\ r_users r = 0 /\ r_lease r = None /\ r_releasing r = false.
Proof.
  intros Hr Hd. rewrite (so_done _ (rk_state _ _ _ Hr)) in Hd. unfold idle in Hd. go_cases.
  split_and!; try done. destruct (r_lease r); [|done]. exfalso. naive_solver.
Qed.

Lemma omap_nil {A B} (f : A -> option B) l : (forall x, x ∈ l -> f x = None) -> omap f l = [].
Proof. induction l as [|x l IH]; intros H; [done|]. simpl. rewrite (H x) by set_solver. apply IH. intros y Hy. apply H. set_solver. Qed.
Lemma bind_nil {A B} (f : A -> list B) l : (forall x, x ∈ l -> f x = []) -> (l ≫= f) = [].
Proof. induction l as [|x l IH]; intros H; [done|]. simpl. rewrite (H x) by set_solver. apply IH. intros y Hy. apply H. set_solver. Qed.

(** With every Replica finished no goroutine has a lease to release. *)
Lemma all_done_leases w : winv w -> all_done (w_agent w) -> w_released w ≡ₚ seq 0 (w_granted w).
Proof.
  intros Hinv Hd. pose proof (iv_leases _ _ _ _ _ _ Hinv) as Hl.
  assert (held (ag_heap (w_agent w)) = []) as Hheld.
  { apply omap_nil. intros r [p Hp]%list_elem_of_lookup. pose proof (iv_replica _ _ _ _ _ _ Hinv p r Hp) as Hr.
    by apply (done_idle _ _ _ Hr), (Hd p r). }
  assert ((w_threads w ≫= pend) = []) as Hpend; [|by rewrite Hheld, Hpend in Hl].
  apply bind_nil. intros t Ht. assert (forall p, releases p t = 0) as Hz.
  { intros p. destruct (ag_heap (w_agent w) !! p) as [r|] eqn:Hp.
      - pose proof (iv_replica _ _ _ _ _ _ Hinv p r Hp) as Hr. pose proof (rk_releasing _ _ _ Hr) as Hrel.
        destruct (done_idle _ _ _ Hr (Hd p r Hp)) as (_ & _ & _ & E). rewrite E in Hrel. by apply (tally_zero _ (releases_nonneg p) _ _ (eq_sym Hrel)).
      - apply (thread_fresh (w_agent w)); [by apply (iv_thread _ _ _ _ _ _ Hinv)|]. by apply lookup_ge_None. }
  destruct t; simpl in *; try done; [by rewrite (occ_zero actions Hz)|].
  specialize (Hz p). rewrite hits_same in Hz. pose proof (occ_nonneg p actions). lia.
Qed.

Lemma reachable_ok `{JCS} config profile limits elapsed a es : newAgent config profile limits elapsed = Ok a ->
  exists w, run es (init a) = Stepped w /\ winv w.
Proof. intros Ha. by eapply run_ok, newAgent_ok. Qed.

Lemma reachable `{JCS} config profile limits elapsed a es w : newAgent config profile limits elapsed = Ok a -> run es (init a) = Stepped w -> winv w.
Proof. intros Ha Hrun. destruct (reachable_ok config profile limits elapsed a es Ha) as (w0 & E & Hinv). rewrite Hrun in E. by simplify_eq. Qed.

(** C10: Under every schedule of control calls, preparations, invocations and
    shutdown the Agent does not panic; each lease that the cache handed out is
    released at most once, and never while an invocation still uses it; when
    the Agent closes the cache every lease has been released. *)
Theorem lease_discipline `{JCS} config profile limits elapsed a es : newAgent config profile limits elapsed = Ok a ->
  exists w, run es (init a) = Stepped w /\ NoDup (w_released w) /\
    (forall lease, lease ∈ w_released w -> (lease < w_granted w)%nat) /\
    (forall p fence lease ph, TInvoke p fence lease ph ∈ w_threads w -> (lease < w_granted w)%nat /\ lease ∉ w_released w) /\
    (TCloseCache ∈ w_threads w \/ ag_closed (w_agent w) = true -> w_released w ≡ₚ seq 0 (w_granted w)).
Proof.
  intros Ha. destruct (reachable_ok config profile limits elapsed a es Ha) as (w & E & Hinv). exists w.
  pose proof (iv_leases _ _ _ _ _ _ Hinv) as Hl.
  assert (NoDup (held (ag_heap (w_agent w)) ++ (w_threads w ≫= pend) ++ w_released w)) as Hnd by (rewrite Hl; apply NoDup_seq).
  split_and!; [done|..].
  - apply NoDup_app in Hnd as (_ & _ & Hnd). by apply NoDup_app in Hnd as (_ & _ & ?).
  - intros lease Hin. assert (lease ∈ seq 0 (w_granted w)) as Hs by (rewrite <-Hl; set_solver). apply elem_of_seq in Hs. lia.
  - intros p fence lease ph Hin. destruct (iv_thread _ _ _ _ _ _ Hinv _ Hin) as (r & Hr & _ & Hlease).
    assert (lease ∈ held (ag_heap (w_agent w))) as Hh by (apply list_elem_of_omap; exists r; split; [by eapply list_elem_of_lookup_2|done]).
    split; [|apply NoDup_app in Hnd as (_ & Hdis & _); intros Hrel; apply (Hdis _ Hh); set_solver].
    assert (lease ∈ seq 0 (w_granted w)) as Hs by (rewrite <-Hl; set_solver). apply elem_of_seq in Hs. lia.
  - intros Hc. apply all_done_leases; [done|].
    destruct Hc as [Hc|Hc]; [by apply (iv_thread _ _ _ _ _ _ Hinv TCloseCache)|]. by apply (iv_cache _ _ _ _ _ _ Hinv); right.
Qed.

(** ** Steps of goroutines *)

(** A region that returns at most one lease to release. *)
Definition short (m : M Agent (list releaseAction)) : Prop := forall a a' acts, m a = (a', Ok acts) -> (length acts <= 1)%nat.
Lemma short_bind {A} (m : M Agent A) k : (forall x, short (k x)) -> short (sbind m k).
Proof. intros Hk a a' acts. unfold sbind. destruct (m a) as [a1 [x|err]]; [apply Hk|done]. Qed.
Lemma short_ret acts : (length acts <= 1)%nat -> short (sret acts).
Proof. intros H a a' acts'. by intros [= _ <-]. Qed.

Ltac shorten := repeat first [apply short_bind; intros ?|apply short_ret; simpl; lia|case_match].
Lemma finalizeIdleLocked_short p : short (finalizeIdleLocked p).
Proof. unfold finalizeIdleLocked. shorten. Qed.
Lemma finishInvocation_short p accepted : short (finishInvocation p accepted).
Proof. unfold finishInvocation. do 3 (apply short_bind; intros ?). apply finalizeIdleLocked_short. Qed.
Lemma finishPrepare_short p load acquired : short (finishPrepare p load acquired).
Proof. unfold finishPrepare, abandon. shorten. Qed.

(** How many steps a goroutine has left. *)
Definition acquire_steps (at_ : acquiring) : nat :=
  match at_ with Arriving => 4 | Trying => 3 | Enqueuing => 2 | Waiting => 1 | Dequeuing _ => 0 end.
Definition phase_steps (ph : phase) : nat :=
  match ph with
  | AtReplica at_ => 16 + acquire_steps at_
  | AtRecheck => 15
  | InLease => 14
  | AtWorker at_ => 9 + acquire_steps at_
  | Permitted => 8
  | Running => 7
  | ReleasingWorker _ _ => 6
  | ReleasingReplica _ _ => 5
  | Finishing _ _ => 4
  end.
Definition next_steps (next : option (list nat)) : nat := match next with None => 1 | Some waits => length waits + 3 end.
Definition thread_steps (t : thread) : nat :=
  match t with
  | TDone => 0
  | TPrepare _ => 4
  | TLookedUp _ _ _ => 21
  | TInvoke _ _ _ ph => phase_steps ph
  | TRelease actions next => 2 * length actions + next_steps next
  | TReleased _ actions next => 2 * length actions + 1 + next_steps next
  | TWait waits => length waits + 2
  | TCloseCache => 1
  end.

Lemma region_inv {A} (m : M Agent A) w k w' : region m w k = Stepped w' -> exists a x, m (w_agent w) = (a, Ok x) /\ w' = k x a.
Proof. unfold region. destruct (m (w_agent w)) as [a [x|err]]; [|done]. intros [= <-]. eauto. Qed.

Lemma acquire_shrinks l stopped at_ c l' at' : acquire l stopped at_ c = Some (l', Continue at') -> (acquire_steps at' < acquire_steps at_)%nat.
Proof. unfold acquire. intros E. destruct at_ as [| | | |[err|]], c; repeat case_match; simplify_eq; simpl; lia. Qed.

(** What a step of goroutine [tid] does to it; it runs the guest only after
    [invoke_check] let it. *)
Definition becomes_running (w : World) (tid : nat) (t t' : thread) (e : event) : Prop :=
  forall p fence lease, t' = TInvoke p fence lease Running ->
    t = TInvoke p fence lease Permitted /\ exists expired expired' clock, e = EvCheck tid expired expired' clock /\
      exists a, invoke_check fence p expired expired' clock (w_agent w) = (a, Ok None).
Definition advances (w w' : World) (tid : nat) (t : thread) (e : event) : Prop :=
  exists t', w_threads w' = <[tid := t']> (w_threads w) /\ (thread_steps t' < thread_steps t)%nat /\ becomes_running w tid t t' e.

Ltac advance := eexists; split; [reflexivity|]; split; [simpl; try lia|intros ? ? ?; simpl; intros; simplify_eq].

Lemma step_limiter_advances w tid p fence lease ph c w' e : step_limiter w tid p fence lease ph c = Stepped w' ->
  advances w w' tid (TInvoke p fence lease ph) e.
Proof.
  unfold step_limiter. destruct (ag_heap (w_agent w) !! p) as [r|]; [|done]. destruct ph as [at_| | |at_| | | | |]; try done.
  - destruct (acquire _ _ _ _) as [[l next]|] eqn:E; [|done]. destruct next as [at'| |err].
    + intros [= <-]. apply acquire_shrinks in E. advance.
    + intros [= <-]. advance.
    + intros (a & x & _ & ->)%region_inv. advance.
  - destruct (acquire _ _ _ _) as [[l next]|] eqn:E; [|done]. destruct next as [at'| |err].
    + intros [= <-]. apply acquire_shrinks in E. advance.
    + intros [= <-]. advance.
    + intros (a & x & _ & ->)%region_inv. advance.
Qed.

Lemma step_invoke_advances w tid p fence lease ph e w' : thread_of e = Some tid -> step_invoke w tid p fence lease ph e = Stepped w' ->
  advances w w' tid (TInvoke p fence lease ph) e.
Proof.
  intros Hid. unfold step_invoke. destruct e; try done; try apply step_limiter_advances;
    destruct ph as [at_| | |at_| | |accepted err0|accepted err0|accepted err0]; try done; try (by destruct err).
  - intros (a & [err|] & _ & ->)%region_inv; advance.
  - intros [= <-]. advance.
  - intros (a & [err|] & E & ->)%region_inv; [advance|]. eexists. split; [reflexivity|]. split; [simpl; lia|].
    intros p' fence' lease' [= <- <- <-]. split; [done|]. simpl in Hid. simplify_eq. do 3 eexists. split; [done|]. by eexists.
  - destruct err as [err|]; [|done]. intros (a & x & _ & ->)%region_inv. advance.
  - destruct err as [err|]; [|done]. intros [= <-]. advance.
  - destruct err as [err|]; intros [= <-]; advance.
  - destruct (limiter_release _); [|done]. intros (a & x & _ & ->)%region_inv. advance.
  - destruct (ag_heap _ !! p); [|done]. destruct (limiter_release _); [|done]. intros [= <-]. advance.
  - intros (a & x & E & ->)%region_inv. apply finishInvocation_short in E. advance.
Qed.

Lemma step_thread_advances w tid t e w' : thread_of e = Some tid -> step_thread w tid t e = Stepped w' -> advances w w' tid t e.
Proof.
  intros Hid. destruct t as [|p|p fence policy|p fence lease ph|actions next|p actions next|waits|]; [done|..].
  - destruct e; try done. unfold step_thread. destruct failure as [err|]; intros (a & x & E & ->)%region_inv; apply finishPrepare_short in E; advance.
  - destruct e; try done. unfold step_thread. destruct (_ <=? 0); [intros [= <-]; advance|]. intros (a & [lease|err] & E & ->)%region_inv; advance.
  - by apply step_invoke_advances.
  - destruct actions as [|[p lease] actions], next as [waits|], e; try done; intros [= <-]; advance.
  - destruct e; try done. intros (a & x & E & ->)%region_inv. advance.
  - destruct waits as [|p waits], e; try done.
    + intros [= <-]. advance.
    + unfold step_thread. destruct (closeCache_begin (w_agent w)) as [a [[]|]]; try done; intros [= <-]; advance.
    + unfold step_thread. destruct (ag_heap (w_agent w) !! p) as [r|]; [|done]. destruct (r_doneClosed r); [|done]. intros [= <-]. advance.
    + intros [= <-]. advance.
  - destruct e; try done. intros (a & x & E & ->)%region_inv. advance.
Qed.

(** A call from outside starts a goroutine that does not run a guest. *)
Lemma step_call `{JCS} e w w' : thread_of e = None -> step e w = Stepped w' ->
  exists t, w_threads w' = w_threads w ++ [t] /\ forall p fence lease ph, t <> TInvoke p fence lease ph.
Proof.
  intros Hid. unfold step. rewrite Hid. destruct e; try done; unfold call, call_releasing.
  - destruct (_ && _); [|done]. intros (a & x & E & ->)%region_inv. by eexists.
  - destruct (iterates _ _); [|done]. intros (a & x & E & ->)%region_inv. by eexists.
  - destruct (negb _); [done|]. intros (a & x & E & ->)%region_inv. eexists. split; [reflexivity|]. by destruct x.
  - intros (a & x & E & ->)%region_inv. by eexists.
  - intros (a & x & E & ->)%region_inv. eexists. split; [reflexivity|]. by destruct x as [[]|].
  - intros (a & x & E & ->)%region_inv. by eexists.
  - intros (a & x & E & ->)%region_inv. by eexists.
  - destruct (iterates _ _); [|done]. intros (a & x & E & ->)%region_inv. by eexists.
Qed.

(** ** Acceptance *)
Lemma invoke_check_accepts fence p expired expired' clock a a' : invoke_check fence p expired expired' clock a = (a', Ok None) ->
  expired = false /\ expired' = false /\ exists r, ag_heap a !! p = Some r /\ serving a fence p r = true /\
    snd (AuthorizeSync fence clock (ag_gate a)) = Ok tt.
Proof.
  unfold invoke_check. destruct expired; [done|]. unfold sbind at 1 2, sget, deref at 1. destruct (ag_heap a !! p) as [r|]; [|done].
  destruct (serving a fence p r) eqn:Hsv; [|done]. cbn [negb]. destruct (AuthorizeSync fence clock (ag_gate a)) as [g [[]|err]] eqn:Hauth.
  - unfold sbind at 1, sput. destruct expired'; [done|]. intros _. split_and!; try done. by exists r.
  - unfold sbind at 1, sput. done.
Qed.

(** C11: A guest starts to run only in the [Check] callback, before its deadline,
    on the Ready Replica that the Agent then holds for the fence's
    Assignment, in the current session, with that Replica's own unreleased
    lease, and only if the serving gate authorizes the fence at that moment. *)
Theorem acceptance_sound `{JCS} config profile limits elapsed a es w e w' tid p fence lease :
  newAgent config profile limits elapsed = Ok a -> run es (init a) = Stepped w -> step e w = Stepped w' ->
  w_threads w' !! tid = Some (TInvoke p fence lease Running) -> w_threads w !! tid <> Some (TInvoke p fence lease Running) ->
  exists r clock, e = EvCheck tid false false clock /\ ag_closing (w_agent w) = false /\
    ag_replicas (w_agent w) !! ai_AssignmentID (if_Assignment fence) = Some p /\ ag_heap (w_agent w) !! p = Some r /\
    r_state r = ReplicaReady /\ pq_Assignment (r_request r) = if_Assignment fence /\
    ai_Worker (if_Assignment fence) = currentWorkerLocked (ag_gate (w_agent w)) /\
    r_lease r = Some lease /\ (lease ∉ w_released w) /\ snd (AuthorizeSync fence clock (ag_gate (w_agent w))) = Ok tt.
Proof.
  intros Ha Hrun Hstep Hnew Hold. pose proof (reachable config profile limits elapsed a es w Ha Hrun) as Hinv.
  destruct (thread_of e) as [tid'|] eqn:Hid.
  2: { destruct (step_call e w w' Hid Hstep) as (t & Ht & Hno). rewrite Ht in Hnew. apply lookup_app_Some in Hnew as [?|[_ Hnew]]; [done|].
       apply list_lookup_singleton_Some in Hnew as [_ ->]. by destruct (Hno p fence lease Running). }
  unfold step in Hstep. rewrite Hid in Hstep. destruct (w_threads w !! tid') as [t|] eqn:Ht; [|done].
  destruct (step_thread_advances _ _ _ _ _ Hid Hstep) as (t' & Hths & _ & Hrunning). rewrite Hths in Hnew.
  destruct (decide (tid = tid')) as [->|Hne]; [|by rewrite list_lookup_insert_ne in Hnew].
  rewrite list_lookup_insert_eq in Hnew by (by eapply lookup_lt_Some). simplify_eq.
  destruct (Hrunning _ _ _ eq_refl) as (-> & expired & expired' & clock & -> & a' & Hcheck).
  apply invoke_check_accepts in Hcheck as (-> & -> & r & Hr & Hsv & Hauth). apply serving_ready in Hsv as (Hcl & Hready & Hp).
  assert (TInvoke p fence lease Permitted ∈ w_threads w) as Hin by (by eapply list_elem_of_lookup_2).
  destruct (iv_thread _ _ _ _ _ _ Hinv _ Hin) as (r0 & Hr0 & Hass & Hlease). simplify_eq.
  exists r, clock. split_and!; try done.
  - destruct (iv_session _ _ _ _ _ _ Hinv p r Hr) as (H1 & H2 & H3); [by rewrite Hready|]. rewrite Hass in *.
    specialize (H3 (not_elem_of_nil _)). unfold currentWorkerLocked. destruct (ai_Worker (if_Assignment fence)). simpl in *. by subst.
  - pose proof (iv_leases _ _ _ _ _ _ Hinv) as Hl.
    assert (NoDup (held (ag_heap (w_agent w)) ++ (w_threads w ≫= pend) ++ w_released w)) as Hnd by (rewrite Hl; apply NoDup_seq).
    apply NoDup_app in Hnd as (_ & Hdis & _). intros Hrel. apply (Hdis lease); [|set_solver].
    apply list_elem_of_omap. exists r. split; [by eapply list_elem_of_lookup_2|done].
Qed.

(** ** Bounds *)
Definition running_phase (ph : phase) : bool := match ph with Running => true | _ => false end.


(** ** Shutdown *)

(** Regions of goroutines do not change whether the Agent is closing. *)
Definition still {A} (m : M Agent A) : Prop := forall a a' x, m a = (a', x) -> ag_closing a' = ag_closing a.
Lemma still_bind {A B} (m : M Agent A) (k : A -> M Agent B) : still m -> (forall x, still (k x)) -> still (sbind m k).
Proof.
  intros Hm Hk a a' x. unfold sbind. destruct (m a) as [a1 [y|err]] eqn:E.
  - intros E'. rewrite (Hk _ _ _ _ E'). by eapply Hm.
  - intros [= <- _]. by eapply Hm.
Qed.
Lemma still_ret {A} (x : A) : still (sret x).
Proof. intros a a' y. by intros [= <- _]. Qed.
Lemma still_panic {A} message : still (A := A) (panic message).
Proof. intros a a' y. by intros [= <- _]. Qed.
Lemma still_get : still sget.
Proof. intros a a' y. by intros [= <- _]. Qed.
Lemma still_deref p : still (deref p).
Proof. intros a a' y. unfold deref. case_match; by intros [= <- _]. Qed.
Lemma still_modify p f : still (modify p f).
Proof. intros a a' y. unfold modify, sbind, deref, sget, sput. destruct (ag_heap a !! p); by intros [= <- _]. Qed.
Lemma still_bump : still bumpLocked.
Proof. intros a a' y. by intros [= <- _]. Qed.

Ltac stay := repeat first [apply still_ret|apply still_panic|apply still_deref|apply still_modify|apply still_bump|apply still_get
  |apply still_bind; [|intros ?]|case_match].
Lemma still_transition p state : still (transitionLocked p state).
Proof. unfold transitionLocked. stay. Qed.
Lemma still_closePrepared p : still (closePreparedLocked p).
Proof. unfold closePreparedLocked. stay. Qed.
Lemma still_closeStop p : still (closeStopLocked p).
Proof. unfold closeStopLocked. stay. Qed.
Lemma still_finish p : still (finishTerminalLocked p).
Proof. unfold finishTerminalLocked. stay. Qed.
Ltac stay_all := repeat first [apply still_transition|apply still_closePrepared|apply still_closeStop|apply still_finish|progress stay].
Lemma still_finalize p : still (finalizeIdleLocked p).
Proof. unfold finalizeIdleLocked. stay_all. Qed.
Lemma still_finishPrepare p load acquired : still (finishPrepare p load acquired).
Proof. unfold finishPrepare, finishFailedPreparationLocked, abandon. stay_all. Qed.
Lemma still_finishInvocation p accepted : still (finishInvocation p accepted).
Proof. unfold finishInvocation. repeat first [apply still_finalize|progress stay]. Qed.
Lemma still_finish_release p : still (finish_release p).
Proof. unfold finish_release. stay_all. Qed.
Lemma still_enter fence p : still (invoke_enter fence p).
Proof. unfold invoke_enter. stay_all. Qed.
Lemma still_recheck fence p : still (invoke_recheck fence p).
Proof. unfold invoke_recheck. stay_all. Qed.
Lemma still_check fence p expired expired' clock : still (invoke_check fence p expired expired' clock).
Proof.
  intros a a' x. unfold invoke_check. destruct expired; [by intros [= <- _]|]. unfold sbind at 1 2, sget, deref at 1.
  destruct (ag_heap a !! p) as [r|]; [|by intros [= <- _]]. destruct (negb _); [by intros [= <- _]|].
  destruct (AuthorizeSync fence clock (ag_gate a)) as [g [[]|err]]; unfold sbind at 1, sput; [|by intros [= <- _]].
  destruct expired'; [by intros [= <- _]|]. intros E. change (ag_closing a) with (ag_closing (set_gate g a)). revert E.
  eapply (still_bind (modify p _)); [apply still_modify|]. intros ?. stay_all.
Qed.
Lemma still_stopping p : still (stoppingAdmissionError p).
Proof. unfold stoppingAdmissionError. stay. Qed.
Lemma still_admission full p err : still (admissionError full p err).
Proof. unfold admissionError. repeat first [apply still_stopping|progress stay]. Qed.
Lemma still_lease_error p err : still (lease_error p err).
Proof. unfold lease_error. repeat first [apply still_stopping|progress stay]. Qed.
Lemma still_closeCache_end err : still (closeCache_end err).
Proof. intros a a' x. unfold closeCache_end, sbind, sget, sput. destruct err; by intros [= <- _]. Qed.

Lemma step_limiter_closing w tid p fence lease ph c w' : step_limiter w tid p fence lease ph c = Stepped w' ->
  ag_closing (w_agent w') = ag_closing (w_agent w).
Proof.
  unfold step_limiter. destruct (ag_heap (w_agent w) !! p) as [r|]; [|done]. destruct ph as [at_| | |at_| | | | |]; try done.
  all: destruct (acquire _ _ _ _) as [[l [at'| |err]]|]; try done; try (by intros [= <-]).
  all: intros (a & x & E & ->)%region_inv; by apply still_admission in E.
Qed.

Lemma step_thread_closing w tid t e w' : step_thread w tid t e = Stepped w' -> ag_closing (w_agent w') = ag_closing (w_agent w).
Proof.
  destruct t as [|p|p fence policy|p fence lease ph|actions next|p actions next|waits|]; [done|..].
  - destruct e; try done. unfold step_thread. destruct failure; intros (a & x & E & ->)%region_inv; by apply still_finishPrepare in E.
  - destruct e; try done. unfold step_thread. destruct (_ <=? 0); [by intros [= <-]|]. intros (a & [lease|err] & E & ->)%region_inv; by apply still_enter in E.
  - unfold step_thread, step_invoke. destruct e; try done; try apply step_limiter_closing;
      destruct ph as [at_| | |at_| | |accepted err0|accepted err0|accepted err0]; try done; try (by destruct err).
    + intros (a & [err|] & E & ->)%region_inv; by apply still_recheck in E.
    + by intros [= <-].
    + intros (a & [err|] & E & ->)%region_inv; by apply still_check in E.
    + destruct err; [|done]. intros (a & x & E & ->)%region_inv. by apply still_lease_error in E.
    + destruct err; [|done]. by intros [= <-].
    + destruct err; by intros [= <-].
    + destruct (limiter_release _); [|done]. intros (a & x & E & ->)%region_inv. by apply still_lease_error in E.
    + destruct (ag_heap _ !! p); [|done]. destruct (limiter_release _); [|done]. by intros [= <-].
    + intros (a & x & E & ->)%region_inv. by apply still_finishInvocation in E.
  - destruct actions as [|[p lease] actions], next as [waits|], e; try done; by intros [= <-].
  - destruct e; try done. intros (a & x & E & ->)%region_inv. by apply still_finish_release in E.
  - destruct waits as [|p waits], e; try done; try (by intros [= <-]).
    + unfold step_thread, closeCache_begin, sbind, sget, sput. destruct (ag_closed _); [by intros [= <-]|]. destruct (ag_cacheClosing _); [done|]. by intros [= <-].
    + unfold step_thread. destruct (ag_heap (w_agent w) !! p) as [r|]; [|done]. destruct (r_doneClosed r); [|done]. by intros [= <-].
  - destruct e; try done. intros (a & x & E & ->)%region_inv. by apply still_closeCache_end in E.
Qed.

(** Events of goroutines that neither run into a deadline nor give up. *)
Definition patient (e : event) : bool :=
  match e with
  | EvAcquire _ (TakeDone _) | EvGiveUp _ => false
  | _ => match thread_of e with Some _ => true | None => false end
  end.

Definition can_step `{JCS} (w : World) : Prop := exists e w', patient e = true /\ step e w = Stepped w'.

Lemma can_step_intro `{JCS} w tid t e : winv w -> w_threads w !! tid = Some t -> patient e = true -> thread_of e = Some tid ->
  step_thread w tid t e <> Disabled -> can_step w.
Proof.
  intros Hinv Ht Hp Hid Hne. pose proof (step_ok e w Hinv) as Hok. unfold step in Hok. rewrite Hid, Ht in Hok.
  destruct (step_thread w tid t e) as [|err|w'] eqn:E; [done|done|]. exists e, w'. split; [done|]. unfold step. by rewrite Hid, Ht.
Qed.
Lemma region_enabled {A} (m : M Agent A) w k : region m w k <> Disabled.
Proof. unfold region. by destruct (m (w_agent w)) as [a [x|err]]. Qed.

Lemma any_phase_nonneg f t : 0 <= any_phase f t.
Proof. destruct t; simpl; try lia. by destruct (f ph). Qed.
Lemma at_phase_nonneg f p t : 0 <= at_phase f p t.
Proof. destruct t; simpl; try lia. destruct (f ph); [apply hits_nonneg|lia]. Qed.

(** The token that a goroutine gives back is in the channel. *)
Lemma slot_worker w p fence lease accepted err : winv w -> TInvoke p fence lease (ReleasingWorker accepted err) ∈ w_threads w ->
  exists l, limiter_release (ag_limiter (w_agent w)) = Some l.
Proof.
  intros Hinv Hin. pose proof (tally_member _ (any_phase_nonneg worker_slot) _ _ Hin) as Hm. destruct (iv_limiter _ _ _ _ _ _ Hinv).
  unfold limiter_release. rewrite (proj2 (Z.ltb_lt _ _)); [by eexists|]. simpl in Hm. lia.
Qed.
Lemma slot_replica w p fence lease accepted err r : winv w -> TInvoke p fence lease (ReleasingReplica accepted err) ∈ w_threads w ->
  ag_heap (w_agent w) !! p = Some r -> exists l, limiter_release (r_limiter r) = Some l.
Proof.
  intros Hinv Hin Hr. pose proof (tally_member _ (at_phase_nonneg replica_slot p) _ _ Hin) as Hm.
  destruct (rk_limiter _ _ _ (iv_replica _ _ _ _ _ _ Hinv p r Hr)). unfold limiter_release. rewrite (proj2 (Z.ltb_lt _ _)); [by eexists|].
  simpl in Hm. rewrite hits_same in Hm. lia.
Qed.

Lemma stopped_acquire l at_ : exists c l' next, match c with TakeDone _ => false | _ => true end = true /\ acquire l true at_ c = Some (l', next).
Proof. destruct at_ as [| | | |[err|]]; [exists TakeStop|exists TakeStop|exists TakeStop|exists TakeStop|exists Proceed|exists Proceed]; by do 2 eexists. Qed.

Lemma invoking_steps `{JCS} w tid p fence lease ph : winv w -> ag_closing (w_agent w) = true ->
  w_threads w !! tid = Some (TInvoke p fence lease ph) -> can_step w.
Proof.
  intros Hinv Hcl Ht. assert (TInvoke p fence lease ph ∈ w_threads w) as Hin by (by eapply list_elem_of_lookup_2).
  destruct (iv_thread _ _ _ _ _ _ Hinv _ Hin) as (r & Hr & _). pose proof (iv_stopped _ _ _ _ _ _ Hinv) as Hst. rewrite Hcl in Hst.
  destruct ph as [at_| | |at_| | |accepted err|accepted err|accepted err].
  - destruct (stopped_acquire (r_limiter r) at_) as (c & l & next & Hc & E). apply (can_step_intro w tid _ (EvAcquire tid c) Hinv Ht); [by destruct c|done|].
    unfold step_thread, step_invoke, step_limiter. rewrite Hr, Hst, orb_true_r, E. destruct next; [done|done|apply region_enabled].
  - apply (can_step_intro w tid _ (EvRecheck tid) Hinv Ht); [done|done|apply region_enabled].
  - by apply (can_step_intro w tid _ (EvCallAcquire tid) Hinv Ht).
  - destruct (stopped_acquire (ag_limiter (w_agent w)) at_) as (c & l & next & Hc & E).
    apply (can_step_intro w tid _ (EvAcquire tid c) Hinv Ht); [by destruct c|done|].
    unfold step_thread, step_invoke, step_limiter. rewrite Hr, Hst, orb_true_r, E. destruct next; [done|done|apply region_enabled].
  - apply (can_step_intro w tid _ (EvCheck tid true true 0) Hinv Ht); [done|done|apply region_enabled].
  - by apply (can_step_intro w tid _ (EvReturn tid None) Hinv Ht).
  - apply (can_step_intro w tid _ (EvReleaseSlot tid) Hinv Ht); [done|done|]. unfold step_thread, step_invoke.
    destruct (slot_worker w p fence lease accepted err Hinv Hin) as [l ->]. apply region_enabled.
  - apply (can_step_intro w tid _ (EvReleaseSlot tid) Hinv Ht); [done|done|]. unfold step_thread, step_invoke. rewrite Hr.
    by destruct (slot_replica w p fence lease accepted err r Hinv Hin Hr) as [l ->].
  - apply (can_step_intro w tid _ (EvFinish tid) Hinv Ht); [done|done|apply region_enabled].
Qed.

(** A goroutine that waits for nothing can go on. *)
Lemma busy_steps `{JCS} w tid t : winv w -> ag_closing (w_agent w) = true -> w_threads w !! tid = Some t ->
  t <> TDone -> (forall waits, t <> TWait waits) -> can_step w.
Proof.
  intros Hinv Hcl Ht Hd Hw. destruct t as [|p|p fence policy|p fence lease ph|actions next|p actions next|waits|]; [done|..].
  - apply (can_step_intro w tid _ (EvPrepared tid zero_Result (Some (PlainError ""))) Hinv Ht); [done|done|apply region_enabled].
  - apply (can_step_intro w tid _ (EvEnter tid 0) Hinv Ht); [done|done|]. unfold step_thread. destruct (_ <=? 0); [done|apply region_enabled].
  - by eapply invoking_steps.
  - destruct actions as [|[p lease] actions].
    + destruct next; [by apply (can_step_intro w tid _ (EvWait tid) Hinv Ht)|by apply (can_step_intro w tid _ (EvReleased tid) Hinv Ht)].
    + by apply (can_step_intro w tid _ (EvRelease tid) Hinv Ht); [| |destruct next].
  - apply (can_step_intro w tid _ (EvReleased tid) Hinv Ht); [done|done|apply region_enabled].
  - by destruct (Hw waits).
  - apply (can_step_intro w tid _ (EvCacheClosed tid None) Hinv Ht); [done|done|apply region_enabled].
Qed.

Definition resting (t : thread) : Prop := t = TDone \/ exists waits, t = TWait waits.

(** While the Agent closes, a Replica that no goroutine works on is finished. *)
Lemma resting_done w : winv w -> ag_closing (w_agent w) = true -> (forall t, t ∈ w_threads w -> resting t) -> all_done (w_agent w).
Proof.
  intros Hinv Hcl Hrest p r Hr. pose proof (iv_replica _ _ _ _ _ _ Hinv p r Hr) as [Hok Hp Hu _ Hrel _ _].
  assert (forall f : thread -> Z, f TDone = 0 -> (forall waits, f (TWait waits) = 0) -> tally f (w_threads w) = 0) as Hz.
  { intros f H0 H1. apply tally_fresh. intros t Ht. by destruct (Hrest t Ht) as [->|[waits ->]]. }
  rewrite Hz in Hp, Hu, Hrel by done. destruct (r_preparing r) eqn:Ep; [done|]. destruct (r_releasing r) eqn:Er; [done|].
  assert (terminal (r_state r) = true) as Ht.
  { destruct (iv_closing _ _ _ _ _ _ Hinv Hcl p r Hr (not_elem_of_nil _)) as [Hd|?]; [|done]. destruct (so_draining _ Hok Hd); congruence. }
  rewrite (so_done _ Hok). unfold idle. rewrite Ht, Ep, Hu, Er. destruct (r_lease r) eqn:El; [|done].
  destruct (so_lease _ Hok) as [_ H]; [by rewrite El|]. by destruct (H Ht).
Qed.

Lemma waiting_steps `{JCS} w tid waits : winv w -> ag_closing (w_agent w) = true -> (forall t, t ∈ w_threads w -> resting t) ->
  w_threads w !! tid = Some (TWait waits) -> can_step w.
Proof.
  intros Hinv Hcl Hrest Ht. pose proof (resting_done w Hinv Hcl Hrest) as Hd.
  assert (TWait waits ∈ w_threads w) as Hin by (by eapply list_elem_of_lookup_2). destruct (iv_thread _ _ _ _ _ _ Hinv _ Hin) as (_ & Hlt & _).
  destruct waits as [|p waits].
  - apply (can_step_intro w tid _ (EvCloseCache tid) Hinv Ht); [done|done|]. unfold step_thread, closeCache_begin, sbind, sget.
    destruct (ag_closed (w_agent w)); [done|]. destruct (ag_cacheClosing (w_agent w)) eqn:Hcc; [|done].
    pose proof (iv_cacheClosing _ _ _ _ _ _ Hinv) as Hz. rewrite Hcc, tally_fresh in Hz; [done|]. intros t Ht'. by destruct (Hrest t Ht') as [->|[? ->]].
  - apply (can_step_intro w tid _ (EvWait tid) Hinv Ht); [done|done|]. unfold step_thread.
    destruct (lookup_lt_is_Some_2 (ag_heap (w_agent w)) p) as [r Hr]; [apply Hlt, elem_of_cons; by left|]. by rewrite Hr, (Hd p r Hr).
Qed.

#[global] Instance done_dec (t : thread) : Decision (t = TDone).
Proof. destruct t; (by left) || (by right). Defined.
#[global] Instance resting_dec (t : thread) : Decision (resting t).
Proof. destruct t; first [by left; left|by left; right; eexists|by right; intros [?|[? ?]]]. Defined.

Lemma close_progress `{JCS} w : winv w -> ag_closing (w_agent w) = true -> can_step w \/ Forall (fun t => t = TDone) (w_threads w).
Proof.
  intros Hinv Hcl. destruct (decide (Forall resting (w_threads w))) as [Hrest|Hbusy].
  - destruct (decide (Forall (fun t => t = TDone) (w_threads w))) as [|Hn]; [by right|left].
    apply not_Forall_Exists, Exists_exists in Hn as (t & Hin & Hne); [|apply _]. rewrite Forall_forall in Hrest.
    destruct (Hrest t Hin) as [?|[waits ->]]; [done|]. apply list_elem_of_lookup in Hin as [tid Ht]. by eapply waiting_steps.
  - left. apply not_Forall_Exists, Exists_exists in Hbusy as (t & Hin & Hne); [|apply _]. apply list_elem_of_lookup in Hin as [tid Ht].
    eapply busy_steps; [done|done|exact Ht|..]; [intros ->; apply Hne; by left|intros waits ->; apply Hne; right; by eexists].
Qed.

Section run_all.
Context `{JCS}.

(** Every event of the schedule is ready. *)
Fixpoint run_all (es : list event) (w : World) : option World :=
  match es with
  | [] => Some w
  | e :: es => match step e w with Stepped w => run_all es w | _ => None end
  end.
Definition work (w : World) : nat := sum_list_with thread_steps (w_threads w).

Lemma sum_insert (f : thread -> nat) l i t t' : l !! i = Some t -> (sum_list_with f (<[i := t']> l) + f t = sum_list_with f l + f t')%nat.
Proof. revert i. induction l as [|x l IH]; intros [|i] E; simplify_eq/=; [lia|]. specialize (IH i E). lia. Qed.

Lemma patient_step e w w' : winv w -> patient e = true -> step e w = Stepped w' ->
  winv w' /\ (work w' < work w)%nat /\ ag_closing (w_agent w') = ag_closing (w_agent w).
Proof.
  intros Hinv Hp Hs. pose proof (step_ok e w Hinv) as Hok. rewrite Hs in Hok. split; [done|]. unfold step in Hs.
  destruct (thread_of e) as [tid|] eqn:Hid; [|by destruct e]. destruct (w_threads w !! tid) as [t|] eqn:Ht; [|done].
  destruct (step_thread_advances _ _ _ _ _ Hid Hs) as (t' & Hths & Hlt & _). split; [|by eapply step_thread_closing].
  unfold work. rewrite Hths. pose proof (sum_insert thread_steps _ _ _ t' Ht). lia.
Qed.

Lemma patient_run es w w' : winv w -> Forall (fun e => patient e = true) es -> run_all es w = Some w' ->
  winv w' /\ (length es + work w' <= work w)%nat /\ ag_closing (w_agent w') = ag_closing (w_agent w).
Proof.
  revert w. induction es as [|e es IH]; intros w Hinv Hall Hrun; cbn [run_all length] in *.
  { simplify_eq. split_and!; [done|lia|done]. }
  apply Forall_cons in Hall as [He Hes]. destruct (step e w) as [|err|w1] eqn:Hs; [done|done|].
  destruct (patient_step e w w1 Hinv He Hs) as (H1 & Hlt & Hc). destruct (IH w1 H1 Hes Hrun) as (H2 & Hle & Hc'). split_and!; [done|lia|congruence].
Qed.

End run_all.

(** C12: Shutdown terminates.  Once the Agent is closing, any schedule of its
    goroutines in which no call runs into its deadline and no caller of [Close]
    gives up has at most [work] steps, and as long as a goroutine is left one of
    them can take such a step; at the end every Replica has finished and every
    lease has been released. *)
Theorem close_terminates `{JCS} config profile limits elapsed a es w schedule w' :
  newAgent config profile limits elapsed = Ok a -> run es (init a) = Stepped w -> ag_closing (w_agent w) = true ->
  Forall (fun e => patient e = true) schedule -> run_all schedule w = Some w' ->
  (length schedule <= work w)%nat /\
  (can_step w' \/
   (Forall (fun t => t = TDone) (w_threads w') /\ all_done (w_agent w') /\ w_released w' ≡ₚ seq 0 (w_granted w'))).
Proof.
  intros Ha Hrun Hcl Hall Hs. pose proof (reachable config profile limits elapsed a es w Ha Hrun) as Hinv.
  destruct (patient_run schedule w w' Hinv Hall Hs) as (Hinv' & Hle & Hcl'). split; [lia|]. rewrite Hcl in Hcl'.
  destruct (close_progress w' Hinv' Hcl') as [?|Hdone]; [by left|right].
  assert (all_done (w_agent w')) as Hd.
  { apply resting_done; [done|done|]. rewrite Forall_forall in Hdone. intros t Ht. left. by apply Hdone. }
  split_and!; [done|done|by apply all_done_leases].
Qed.

(** ** Witnesses: one invocation, with the Agent closed while it runs *)
#[local] Instance ex_jcs : JCS := fun document => Ok document.

Definition ex_policy : EffectivePolicy :=
  {| ep_VersionID := "ver_1"; ep_AdmissionEpoch := 1; ep_DeploymentGeneration := 1; ep_ArtifactDigest := Sum "artifact";
     ep_ArtifactSize := 4096; ep_ABI := ABIWASICommandV1; ep_HostAPIProfile := HostAPIProfileNone;
     ep_RuntimeFeatureProfile := wasmprofile.FeatureProfile;
     ep_ResourceLimits := {| rl_Timeout := 5 * second; rl_MemoryMiB := 64; rl_MaxInputBytes := 1024; rl_MaxOutputBytes := 1024;
       rl_MaxLogBytes := 1024 |};
     ep_MaxConcurrency := 1; ep_GrantedCapabilities := [] |}.
Definition ex_policy_digest : string := Eval vm_compute in match EffectivePolicy_Digest ex_policy with Ok d => d | Err _ => ""%string end.
Definition ex_identity : AssignmentIdentity :=
  {| ai_Worker := {| ws_WorkerID := "worker_1"; ws_BootID := "boot_1"; ws_SessionEpoch := 1 |}; ai_AssignmentID := "asg_1";
     ai_VersionID := "ver_1"; ai_AdmissionEpoch := 1; ai_DeploymentGeneration := 1; ai_PolicyDigest := ex_policy_digest;
     ai_Mode := ModeNormal |}.
Definition ex_fence : InvocationFence := {| if_Assignment := ex_identity; if_DiscoveryEpoch := 1 |}.
Definition ex_connection : ControlConnection := {| cc_ConnectionID := "conn_1"; cc_SessionEpoch := 1; cc_DiscoveryEpoch := 1 |}.
Definition ex_module : workercache.ModuleSpec :=
  {| workercache.ms_ArtifactDigest := Sum "artifact"; workercache.ms_ArtifactSize := 4096; workercache.ms_ABI := ABIWASICommandV1;
     workercache.ms_HostAPIProfile := HostAPIProfileNone; workercache.ms_RuntimeFeatureProfile := wasmprofile.FeatureProfile |}.
Definition ex_prepare : PrepareRequest :=
  {| pq_Connection := ex_connection; pq_Fence := ex_fence; pq_Module := ex_module; pq_Policy := ex_policy |}.
Definition ex_load : Result :=
  {| rs_Key := {| workercache.k_ArtifactDigest := Sum "artifact"; workercache.k_ArtifactSize := 4096;
       workercache.k_RuntimeName := wasmprofile.RuntimeName; workercache.k_RuntimeVersion := wasmprofile.RuntimeVersion;
       workercache.k_ABI := ABIWASICommandV1; workercache.k_HostAPIProfile := HostAPIProfileNone;
       workercache.k_RuntimeFeatureProfile := wasmprofile.FeatureProfile; workercache.k_Engine := wasmprofile.EngineCompiler;
       workercache.k_MemoryLimitMiB := 64; workercache.k_GOOS := "linux"; workercache.k_GOARCH := "amd64" |};
     rs_Hit := false; rs_Coalesced := false; rs_ArtifactLoad := 1; rs_Compile := 1; rs_Evicted := 0 |}.
Definition ex_authorization : Authorization := {| au_Fence := ex_fence; au_Lifetime := LifetimeTTL; au_TTL := minute |}.
Definition ex_config : agent.Config :=
  {| cg_Authorization := {| cfg_Worker := {| wp_WorkerID := "worker_1"; wp_BootID := "boot_1" |}; cfg_MaxTTL := 0; cfg_MaxAuthorizations := 0 |};
     cg_MaxAssignments := 0; cg_MaxConcurrent := 0; cg_MaxQueued := 0; cg_MaxQueuedPerReplica := 0; cg_PrepareTimeout := 0 |}.
Definition ex_limits : ExecutionLimits :=
  {| el_MaxTimeout := minute; el_MaxConcurrent := 8; el_MaxConcurrentPerProgram := 8; el_ABILimits := abi.defaults;
     el_MaxLogBytes := 65536; el_MaxLogLineBytes := DefaultMaxLogLineBytes |}.
Definition ex_profile : wasmprofile.Profile := {| wasmprofile.p_Engine := wasmprofile.EngineCompiler; wasmprofile.p_MemoryLimitMiB := 64 |}.
Definition ex_agent : result Agent := newAgent ex_config ex_profile ex_limits 0.

(** Goroutine 0 is the control call, 1 the preparation, 2 the authorization and
    3 the invocation. *)
Definition ex_serve : list event :=
  [EvAcceptControl [] [] ex_connection; EvReleased 0; EvPrepare ex_prepare; EvPrepared 1 ex_load None; EvReleased 1;
   EvInstallAuthorization ex_connection ex_authorization 10; EvInvoke ex_fence 10 0; EvEnter 3 1; EvAcquire 3 Proceed;
   EvAcquire 3 Proceed; EvRecheck 3; EvCallAcquire 3; EvAcquire 3 Proceed; EvAcquire 3 Proceed].
Definition ex_check : event := EvCheck 3 false false 20.
Definition ex_close : list event := ex_serve ++ [ex_check; EvClose [0%nat]].
Definition ex_drain : list event :=
  [EvWait 4; EvReturn 3 None; EvReleaseSlot 3; EvReleaseSlot 3; EvFinish 3; EvRelease 3; EvReleased 3; EvReleased 3; EvWait 4;
   EvCloseCache 4; EvCacheClosed 4 None].

Definition ex_a : Agent := ltac:(let x := eval vm_compute in ex_agent in match x with Ok ?a => exact a end).
Lemma ex_agent_ok : newAgent ex_config ex_profile ex_limits 0 = Ok ex_a.
Proof. vm_compute. exact eq_refl. Qed.

Definition after (es : list event) : World := match run es (init ex_a) with Stepped w => w | _ => init ex_a end.
Lemma after_ok es : run es (init ex_a) = Stepped (after es).
Proof. destruct (run_ok es (init ex_a) (newAgent_ok _ _ _ _ _ ex_agent_ok)) as (w & E & _). unfold after. by rewrite E. Qed.

Lemma lease_discipline_witness :
  exists w, run (ex_close ++ ex_drain) (init ex_a) = Stepped w /\ NoDup (w_released w) /\ w_released w ≡ₚ seq 0 (w_granted w).
Proof.
  destruct (lease_discipline ex_config ex_profile ex_limits 0 ex_a (ex_close ++ ex_drain) ex_agent_ok) as (w & E & Hnd & _ & _ & Hall).
  exists w. split; [exact E|]. split; [exact Hnd|]. apply Hall. right.
  assert (match run (ex_close ++ ex_drain) (init ex_a) with Stepped w => ag_closed (w_agent w) | _ => false end = true) as Hc by (vm_compute; exact eq_refl).
  rewrite E in Hc. exact Hc.
Defined.

Lemma acceptance_sound_witness :
  exists r, ag_heap (w_agent (after ex_serve)) !! 0%nat = Some r /\ r_state r = ReplicaReady /\ r_lease r = Some 0%nat /\
    snd (AuthorizeSync ex_fence 20 (ag_gate (w_agent (after ex_serve)))) = Ok tt.
Proof.
  destruct (acceptance_sound ex_config ex_profile ex_limits 0 ex_a ex_serve (after ex_serve) ex_check (after (ex_serve ++ [ex_check])) 3 0 ex_fence 0
    ex_agent_ok (after_ok ex_serve)) as (r & clock & E & _ & _ & Hr & Hs & _ & _ & Hl & _ & Hauth).
  - vm_compute. exact eq_refl.
  - vm_compute. exact eq_refl.
  - vm_compute. discriminate.
  - exists r. injection E as <-. exact (conj Hr (conj Hs (conj Hl Hauth))).
Defined.


Lemma close_terminates_witness :
  exists w', run_all ex_drain (after ex_close) = Some w' /\ (length ex_drain <= work (after ex_close))%nat /\
    (can_step w' \/ w_released w' ≡ₚ seq 0 (w_granted w')).
Proof.
  assert (match run_all ex_drain (after ex_close) with Some _ => true | None => false end = true) as Hrun by (vm_compute; exact eq_refl).
  destruct (run_all ex_drain (after ex_close)) as [w'|] eqn:E; [|discriminate Hrun]. exists w'. split; [exact eq_refl|].
  destruct (close_terminates ex_config ex_profile ex_limits 0 ex_a ex_close (after ex_close) ex_drain w' ex_agent_ok (after_ok ex_close))
    as [Hlen [Hc|(_ & _ & Hall)]]; [vm_compute; exact eq_refl|repeat constructor|exact E|..].
  - split; [exact Hlen|]. left. exact Hc.
  - split; [exact Hlen|]. right. exact Hall.
Defined.

End guarantees.
