(* ===== verification/WorkerCache.v ===== *)
(** * Package [internal/workercache]: the compiled-module cache of a Worker

    Entries, flights, leases and channels are shared by pointer: they live in
    heaps.  Functions on [Cache] are the regions under its mutex; the goroutines
    that run them, loads, closers and the holders of leases are the threads of
    the second half.  A region that panics ends in [Err]; errors that Go returns are
    values.  Programs are numbered in the order in which they were compiled. *)
From stdpp Require Import base gmap strings list.
From S2P Require Import Prelude Problem Digest Json Model ServingAuth Scheduler Net Abi WorkerAgent.
Import problem digest model.

#[local] Open Scope Z_scope.

Module cache.
#[local] Abbreviation ModuleSpec := workercache.ModuleSpec.
#[local] Abbreviation Key := workercache.Key.
#[local] Abbreviation Result := agent.Result.
Import workercache agent.

Definition DefaultMaxWeightBytes : Z := Z.shiftl 10 30.
Definition DefaultMaxEntries : Z := 4096.
Definition DefaultMaxConcurrentLoads : Z := 2.
Definition DefaultMaxQueuedLoads : Z := 64.
Definition hardMaxConcurrentLoads : Z := 64.
Definition hardMaxQueuedLoads : Z := 4096.

Definition ErrClosed : string := "worker compiled cache is closed".
Definition contextCanceled : string := "context canceled".

Definition EvictionCapacityBytes : string := "capacity_bytes".
Definition EvictionCapacityEntries : string := "capacity_entries".

Record Stats := {
  st_Hits : Z;
  st_Misses : Z;
  st_Coalesced : Z;
  st_EvictionsCapacity : Z;
  st_EvictionsBytes : Z;
  st_EvictionsEntries : Z;
  st_RejectionsFull : Z;
  st_RejectionsLoadQueue : Z;
  st_CloseErrors : Z;
}.
Definition zero_Stats : Stats :=
  {| st_Hits := 0; st_Misses := 0; st_Coalesced := 0; st_EvictionsCapacity := 0; st_EvictionsBytes := 0; st_EvictionsEntries := 0;
     st_RejectionsFull := 0; st_RejectionsLoadQueue := 0; st_CloseErrors := 0 |}.

Inductive counter := Hits | Misses | Coalesced | EvictionsCapacity | EvictionsBytes | EvictionsEntries | RejectionsFull
                   | RejectionsLoadQueue | CloseErrors.
(** [stats.X += n] *)
Definition add_stat (x : counter) (n : Z) (s : Stats) : Stats :=
  let at_ y v := if (match x, y with
    | Hits, Hits | Misses, Misses | Coalesced, Coalesced | EvictionsCapacity, EvictionsCapacity | EvictionsBytes, EvictionsBytes
    | EvictionsEntries, EvictionsEntries | RejectionsFull, RejectionsFull | RejectionsLoadQueue, RejectionsLoadQueue
    | CloseErrors, CloseErrors => true | _, _ => false end) then u64 (v + n) else v in
  {| st_Hits := at_ Hits (st_Hits s); st_Misses := at_ Misses (st_Misses s); st_Coalesced := at_ Coalesced (st_Coalesced s);
     st_EvictionsCapacity := at_ EvictionsCapacity (st_EvictionsCapacity s); st_EvictionsBytes := at_ EvictionsBytes (st_EvictionsBytes s);
     st_EvictionsEntries := at_ EvictionsEntries (st_EvictionsEntries s); st_RejectionsFull := at_ RejectionsFull (st_RejectionsFull s);
     st_RejectionsLoadQueue := at_ RejectionsLoadQueue (st_RejectionsLoadQueue s); st_CloseErrors := at_ CloseErrors (st_CloseErrors s) |}.

(** ** The load gate (load_gate.go): two buffered channels *)
Record loadGate := { lg_maxActive : Z; lg_maxQueued : Z; lg_active : Z; lg_queued : Z }.
Definition newLoadGate (maxConcurrent maxQueued : Z) : loadGate :=
  {| lg_maxActive := maxConcurrent; lg_maxQueued := maxQueued; lg_active := 0; lg_queued := 0 |}.
Definition move (g : loadGate) (active queued : Z) : loadGate :=
  {| lg_maxActive := lg_maxActive g; lg_maxQueued := lg_maxQueued g; lg_active := lg_active g + active; lg_queued := lg_queued g + queued |}.

(** Which of its two channels a [loadReservation] holds a token of. *)
Inductive reservation := ReservedActive | ReservedQueued.
(** The two channel operations are one step. *)
Definition reserve (g : loadGate) : result (loadGate * reservation) :=
  if lg_active g <? lg_maxActive g then Ok (move g 1 0, ReservedActive)
  else if lg_queued g <? lg_maxQueued g then Ok (move g 0 1, ReservedQueued)
  else Err (SentinelError ErrLoadQueueFull).

(** ** State *)
Record entry := { e_key : Key; e_program : nat; e_weight : Z; e_refs : Z }.
Definition set_refs (refs : Z) (e : entry) : entry :=
  {| e_key := e_key e; e_program := e_program e; e_weight := e_weight e; e_refs := refs |}.

(** [f_cancelled]: the context of the load was cancelled. *)
Record flight := {
  f_key : Key;
  f_done : nat;
  f_cancelled : bool;
  f_waiters : Z;
  f_finished : bool;
  f_entry : option nat;
  f_result : Result;
  f_err : option error;
}.
Definition set_waiters (waiters : Z) (f : flight) : flight :=
  {| f_key := f_key f; f_done := f_done f; f_cancelled := f_cancelled f; f_waiters := waiters; f_finished := f_finished f;
     f_entry := f_entry f; f_result := f_result f; f_err := f_err f |}.
Definition cancel_flight (f : flight) : flight :=
  {| f_key := f_key f; f_done := f_done f; f_cancelled := true; f_waiters := f_waiters f; f_finished := f_finished f;
     f_entry := f_entry f; f_result := f_result f; f_err := f_err f |}.
Definition finish_flight (cached : option nat) (result : Result) (err : option error) (f : flight) : flight :=
  {| f_key := f_key f; f_done := f_done f; f_cancelled := true; f_waiters := f_waiters f; f_finished := true;
     f_entry := cached; f_result := result; f_err := err |}.

(** [l_readers] read locks of [mu] are held by invocations; [l_once] is the state
    of [release]. *)
Inductive once := OnceNew | OnceRunning | OnceDone.
Record Lease := { l_entry : nat; l_released : bool; l_once : once; l_readers : Z }.
Definition set_lease (released : bool) (o : once) (readers : Z) (l : Lease) : Lease :=
  {| l_entry := l_entry l; l_released := released; l_once := o; l_readers := readers |}.

Record Cache := {
  c_profile : wasmprofile.Profile;
  c_goos : string;
  c_goarch : string;
  c_maxWeightBytes : Z;
  c_maxEntries : Z;
  c_loadGate : loadGate;
  c_entries : gmap Key nat;
  c_lru : list nat;
  c_flights : gmap Key nat;
  c_currentWeight : Z;
  c_active : Z;
  c_drained : nat;
  c_closing : bool;
  c_releasing : bool;
  c_released : bool;
  c_releaseDone : nat;
  c_closePending : list nat;
  c_stats : Stats;
  c_entryHeap : list entry;
  c_flightHeap : list flight;
  c_leaseHeap : list Lease;
  c_channels : list bool;
}.

Definition set_gate (loadGate : loadGate) (c : Cache) : Cache :=
  {| c_profile := c_profile c; c_goos := c_goos c; c_goarch := c_goarch c; c_maxWeightBytes := c_maxWeightBytes c;
     c_maxEntries := c_maxEntries c; c_loadGate := loadGate; c_entries := c_entries c; c_lru := c_lru c; c_flights := c_flights c;
     c_currentWeight := c_currentWeight c; c_active := c_active c; c_drained := c_drained c; c_closing := c_closing c;
     c_releasing := c_releasing c; c_released := c_released c; c_releaseDone := c_releaseDone c;
     c_closePending := c_closePending c; c_stats := c_stats c; c_entryHeap := c_entryHeap c; c_flightHeap := c_flightHeap c;
     c_leaseHeap := c_leaseHeap c; c_channels := c_channels c |}.
Definition set_table (entries : gmap Key nat) (lru : list nat) (currentWeight : Z) (c : Cache) : Cache :=
  {| c_profile := c_profile c; c_goos := c_goos c; c_goarch := c_goarch c; c_maxWeightBytes := c_maxWeightBytes c;
     c_maxEntries := c_maxEntries c; c_loadGate := c_loadGate c; c_entries := entries; c_lru := lru; c_flights := c_flights c;
     c_currentWeight := currentWeight; c_active := c_active c; c_drained := c_drained c; c_closing := c_closing c;
     c_releasing := c_releasing c; c_released := c_released c; c_releaseDone := c_releaseDone c;
     c_closePending := c_closePending c; c_stats := c_stats c; c_entryHeap := c_entryHeap c; c_flightHeap := c_flightHeap c;
     c_leaseHeap := c_leaseHeap c; c_channels := c_channels c |}.
Definition set_flights (flights : gmap Key nat) (c : Cache) : Cache :=
  {| c_profile := c_profile c; c_goos := c_goos c; c_goarch := c_goarch c; c_maxWeightBytes := c_maxWeightBytes c;
     c_maxEntries := c_maxEntries c; c_loadGate := c_loadGate c; c_entries := c_entries c; c_lru := c_lru c; c_flights := flights;
     c_currentWeight := c_currentWeight c; c_active := c_active c; c_drained := c_drained c; c_closing := c_closing c;
     c_releasing := c_releasing c; c_released := c_released c; c_releaseDone := c_releaseDone c;
     c_closePending := c_closePending c; c_stats := c_stats c; c_entryHeap := c_entryHeap c; c_flightHeap := c_flightHeap c;
     c_leaseHeap := c_leaseHeap c; c_channels := c_channels c |}.
Definition set_active (active : Z) (drained : nat) (c : Cache) : Cache :=
  {| c_profile := c_profile c; c_goos := c_goos c; c_goarch := c_goarch c; c_maxWeightBytes := c_maxWeightBytes c;
     c_maxEntries := c_maxEntries c; c_loadGate := c_loadGate c; c_entries := c_entries c; c_lru := c_lru c;
     c_flights := c_flights c; c_currentWeight := c_currentWeight c; c_active := active; c_drained := drained;
     c_closing := c_closing c; c_releasing := c_releasing c; c_released := c_released c; c_releaseDone := c_releaseDone c;
     c_closePending := c_closePending c; c_stats := c_stats c; c_entryHeap := c_entryHeap c; c_flightHeap := c_flightHeap c;
     c_leaseHeap := c_leaseHeap c; c_channels := c_channels c |}.
Definition set_closing (closing : bool) (c : Cache) : Cache :=
  {| c_profile := c_profile c; c_goos := c_goos c; c_goarch := c_goarch c; c_maxWeightBytes := c_maxWeightBytes c;
     c_maxEntries := c_maxEntries c; c_loadGate := c_loadGate c; c_entries := c_entries c; c_lru := c_lru c;
     c_flights := c_flights c; c_currentWeight := c_currentWeight c; c_active := c_active c; c_drained := c_drained c;
     c_closing := closing; c_releasing := c_releasing c; c_released := c_released c; c_releaseDone := c_releaseDone c;
     c_closePending := c_closePending c; c_stats := c_stats c; c_entryHeap := c_entryHeap c; c_flightHeap := c_flightHeap c;
     c_leaseHeap := c_leaseHeap c; c_channels := c_channels c |}.
Definition set_release (releasing : bool) (released : bool) (releaseDone : nat) (closePending : list nat) (c : Cache) : Cache :=
  {| c_profile := c_profile c; c_goos := c_goos c; c_goarch := c_goarch c; c_maxWeightBytes := c_maxWeightBytes c;
     c_maxEntries := c_maxEntries c; c_loadGate := c_loadGate c; c_entries := c_entries c; c_lru := c_lru c;
     c_flights := c_flights c; c_currentWeight := c_currentWeight c; c_active := c_active c; c_drained := c_drained c;
     c_closing := c_closing c; c_releasing := releasing; c_released := released; c_releaseDone := releaseDone;
     c_closePending := closePending; c_stats := c_stats c; c_entryHeap := c_entryHeap c; c_flightHeap := c_flightHeap c;
     c_leaseHeap := c_leaseHeap c; c_channels := c_channels c |}.
Definition set_stats (stats : Stats) (c : Cache) : Cache :=
  {| c_profile := c_profile c; c_goos := c_goos c; c_goarch := c_goarch c; c_maxWeightBytes := c_maxWeightBytes c;
     c_maxEntries := c_maxEntries c; c_loadGate := c_loadGate c; c_entries := c_entries c; c_lru := c_lru c;
     c_flights := c_flights c; c_currentWeight := c_currentWeight c; c_active := c_active c; c_drained := c_drained c;
     c_closing := c_closing c; c_releasing := c_releasing c; c_released := c_released c; c_releaseDone := c_releaseDone c;
     c_closePending := c_closePending c; c_stats := stats; c_entryHeap := c_entryHeap c; c_flightHeap := c_flightHeap c;
     c_leaseHeap := c_leaseHeap c; c_channels := c_channels c |}.
Definition set_entryHeap (entryHeap : list entry) (c : Cache) : Cache :=
  {| c_profile := c_profile c; c_goos := c_goos c; c_goarch := c_goarch c; c_maxWeightBytes := c_maxWeightBytes c;
     c_maxEntries := c_maxEntries c; c_loadGate := c_loadGate c; c_entries := c_entries c; c_lru := c_lru c;
     c_flights := c_flights c; c_currentWeight := c_currentWeight c; c_active := c_active c; c_drained := c_drained c;
     c_closing := c_closing c; c_releasing := c_releasing c; c_released := c_released c; c_releaseDone := c_releaseDone c;
     c_closePending := c_closePending c; c_stats := c_stats c; c_entryHeap := entryHeap; c_flightHeap := c_flightHeap c;
     c_leaseHeap := c_leaseHeap c; c_channels := c_channels c |}.
Definition set_flightHeap (flightHeap : list flight) (c : Cache) : Cache :=
  {| c_profile := c_profile c; c_goos := c_goos c; c_goarch := c_goarch c; c_maxWeightBytes := c_maxWeightBytes c;
     c_maxEntries := c_maxEntries c; c_loadGate := c_loadGate c; c_entries := c_entries c; c_lru := c_lru c;
     c_flights := c_flights c; c_currentWeight := c_currentWeight c; c_active := c_active c; c_drained := c_drained c;
     c_closing := c_closing c; c_releasing := c_releasing c; c_released := c_released c; c_releaseDone := c_releaseDone c;
     c_closePending := c_closePending c; c_stats := c_stats c; c_entryHeap := c_entryHeap c; c_flightHeap := flightHeap;
     c_leaseHeap := c_leaseHeap c; c_channels := c_channels c |}.
Definition set_leaseHeap (leaseHeap : list Lease) (c : Cache) : Cache :=
  {| c_profile := c_profile c; c_goos := c_goos c; c_goarch := c_goarch c; c_maxWeightBytes := c_maxWeightBytes c;
     c_maxEntries := c_maxEntries c; c_loadGate := c_loadGate c; c_entries := c_entries c; c_lru := c_lru c;
     c_flights := c_flights c; c_currentWeight := c_currentWeight c; c_active := c_active c; c_drained := c_drained c;
     c_closing := c_closing c; c_releasing := c_releasing c; c_released := c_released c; c_releaseDone := c_releaseDone c;
     c_closePending := c_closePending c; c_stats := c_stats c; c_entryHeap := c_entryHeap c; c_flightHeap := c_flightHeap c;
     c_leaseHeap := leaseHeap; c_channels := c_channels c |}.
Definition set_channels (channels : list bool) (c : Cache) : Cache :=
  {| c_profile := c_profile c; c_goos := c_goos c; c_goarch := c_goarch c; c_maxWeightBytes := c_maxWeightBytes c;
     c_maxEntries := c_maxEntries c; c_loadGate := c_loadGate c; c_entries := c_entries c; c_lru := c_lru c;
     c_flights := c_flights c; c_currentWeight := c_currentWeight c; c_active := c_active c; c_drained := c_drained c;
     c_closing := c_closing c; c_releasing := c_releasing c; c_released := c_released c; c_releaseDone := c_releaseDone c;
     c_closePending := c_closePending c; c_stats := c_stats c; c_entryHeap := c_entryHeap c; c_flightHeap := c_flightHeap c;
     c_leaseHeap := c_leaseHeap c; c_channels := channels |}.

Record Config := { cg_MaxWeightBytes : Z; cg_MaxEntries : Z; cg_MaxConcurrentLoads : Z; cg_MaxQueuedLoads : Z }.

(** [New], for a compiler with this profile. *)
Definition New (config : Config) (compiler : wasmprofile.Profile) (goos goarch : string) : result Cache :=
  let maxWeightBytes := if cg_MaxWeightBytes config =? 0 then DefaultMaxWeightBytes else cg_MaxWeightBytes config in
  let maxEntries := if cg_MaxEntries config =? 0 then DefaultMaxEntries else cg_MaxEntries config in
  let maxConcurrentLoads := if cg_MaxConcurrentLoads config =? 0 then DefaultMaxConcurrentLoads else cg_MaxConcurrentLoads config in
  let maxQueuedLoads := if cg_MaxQueuedLoads config =? 0 then DefaultMaxQueuedLoads else cg_MaxQueuedLoads config in
  fail_if ((maxWeightBytes <? 1) || (maxWeightBytes >? DefaultMaxWeightBytes)) (PlainError "worker cache weight limit is outside v1 bounds") ;;;
  fail_if ((maxEntries <? 1) || (maxEntries >? DefaultMaxEntries)) (PlainError "worker cache entry limit is outside v1 bounds") ;;;
  fail_if ((maxConcurrentLoads <? 1) || (maxConcurrentLoads >? hardMaxConcurrentLoads))
    (PlainError "worker cache concurrent load limit is outside v1 bounds") ;;;
  fail_if ((maxQueuedLoads <? 1) || (maxQueuedLoads >? hardMaxQueuedLoads))
    (PlainError "worker cache queued load limit is outside v1 bounds") ;;;
  profile <- newProfile compiler ;;
  Ok {| c_profile := profile; c_goos := goos; c_goarch := goarch; c_maxWeightBytes := maxWeightBytes; c_maxEntries := maxEntries;
        c_loadGate := newLoadGate maxConcurrentLoads maxQueuedLoads; c_entries := ∅; c_lru := []; c_flights := ∅; c_currentWeight := 0;
        c_active := 0; c_drained := 0; c_closing := false; c_releasing := false; c_released := false; c_releaseDone := 0;
        c_closePending := []; c_stats := zero_Stats; c_entryHeap := []; c_flightHeap := []; c_leaseHeap := []; c_channels := [true] |}.

(** ** Pointers and channels *)
Definition panic {A} (message : string) : M Cache A := sthrow (PlainError message).
Definition nil_dereference : string := "invalid memory address or nil pointer dereference".

Definition get_entry (p : nat) : M Cache entry :=
  let! c := sget in match c_entryHeap c !! p with Some e => sret e | None => panic nil_dereference end.
Definition put_entry (p : nat) (e : entry) : M Cache unit :=
  let! c := sget in sput (set_entryHeap (<[p := e]> (c_entryHeap c)) c).
Definition get_flight (f : nat) : M Cache flight :=
  let! c := sget in match c_flightHeap c !! f with Some x => sret x | None => panic nil_dereference end.
Definition put_flight (f : nat) (x : flight) : M Cache unit :=
  let! c := sget in sput (set_flightHeap (<[f := x]> (c_flightHeap c)) c).

Definition make_channel : M Cache nat :=
  let! c := sget in
  do! sput (set_channels (c_channels c ++ [false]) c) in
  sret (length (c_channels c)).
Definition close_channel (ch : nat) : M Cache unit :=
  let! c := sget in
  match c_channels c !! ch with
  | None => panic "close of nil channel"
  | Some true => panic "close of closed channel"
  | Some false => sput (set_channels (<[ch := true]> (c_channels c)) c)
  end.

Definition count (x : counter) (n : Z) : M Cache unit :=
  let! c := sget in sput (set_stats (add_stat x n (c_stats c)) c).

(** ** Regions *)
Definition startLocked : M Cache unit :=
  let! c := sget in
  do! (if c_active c =? 0 then let! ch := make_channel in let! c := sget in sput (set_active (c_active c) ch c) else sret tt) in
  let! c := sget in
  sput (set_active (c_active c + 1) (c_drained c) c).

Definition begin : M Cache bool :=
  let! c := sget in
  if c_closing c then sret false else do! startLocked in sret true.

Definition endLocked : M Cache unit :=
  let! c := sget in
  do! sput (set_active (c_active c - 1) (c_drained c) c) in
  if c_active c - 1 =? 0 then close_channel (c_drained c) else sret tt.

(** [cancelFlightsLocked]; the order of the map does not matter. *)
Definition cancelFlightsLocked : M Cache unit :=
  let! c := sget in
  sput (set_flightHeap (foldr (fun f heap => alter cancel_flight f heap) (c_flightHeap c) (map_to_list (c_flights c)).*2) c).

Definition new_lease (p : nat) : M Cache nat :=
  let! c := sget in
  do! sput (set_leaseHeap (c_leaseHeap c ++ [{| l_entry := p; l_released := false; l_once := OnceNew; l_readers := 0 |}]) c) in
  sret (length (c_leaseHeap c)).

(** [lru.MoveToFront] and [lru.Remove]. *)
Definition move_to_front (p : nat) (l : list nat) : list nat := p :: filter (.≠ p) l.
Definition remove (p : nat) (l : list nat) : list nat := filter (.≠ p) l.

Definition zero_result (key : Key) (coalesced : bool) : Result :=
  {| rs_Key := key; rs_Hit := false; rs_Coalesced := coalesced; rs_ArtifactLoad := 0; rs_Compile := 0; rs_Evicted := 0 |}.

(** The second region of [Acquire]: what it finds. *)
Inductive lookup_outcome :=
| Refuses (err : error)
| Hit (lease : nat)
| Joins (f : nat)
| Starts (f : nat) (r : reservation).

Definition acquire_lookup (key : Key) : M Cache lookup_outcome :=
  let! c := sget in
  if c_closing c then sret (Refuses (SentinelError ErrClosed))
  else
    match c_entries c !! key with
    | Some p =>
      let! cached := get_entry p in
      do! put_entry p (set_refs (e_refs cached + 1) cached) in
      let! c := sget in
      do! sput (set_table (c_entries c) (move_to_front p (c_lru c)) (c_currentWeight c) c) in
      do! count Hits 1 in
      let! lease := new_lease p in
      sret (Hit lease)
    | None =>
      match c_flights c !! key with
      | Some f =>
        let! running := get_flight f in
        do! put_flight f (set_waiters (f_waiters running + 1) running) in
        do! count Coalesced 1 in
        sret (Joins f)
      | None =>
        do! count Misses 1 in
        match reserve (c_loadGate c) with
        | Err err => do! count RejectionsLoadQueue 1 in sret (Refuses err)
        | Ok (gate, r) =>
          let! done_ := make_channel in
          let! c := sget in
          let f := length (c_flightHeap c) in
          let running := {| f_key := key; f_done := done_; f_cancelled := false; f_waiters := 1; f_finished := false; f_entry := None;
                            f_result := zero_result key false; f_err := None |} in
          do! sput (set_gate gate (set_flights (<[key := f]> (c_flights c)) (set_flightHeap (c_flightHeap c ++ [running]) c))) in
          do! startLocked in
          sret (Starts f r)
        end
      end
    end.

(** [awaitFlight], once the flight is done and the caller's context is alive. *)
Definition with_coalesced (coalesced : bool) (r : Result) : Result :=
  {| rs_Key := rs_Key r; rs_Hit := rs_Hit r; rs_Coalesced := coalesced; rs_ArtifactLoad := rs_ArtifactLoad r;
     rs_Compile := rs_Compile r; rs_Evicted := rs_Evicted r |}.
Definition collect (f : nat) (coalesced : bool) : M Cache (Result * (nat + error)) :=
  let! running := get_flight f in
  let result := with_coalesced coalesced (f_result running) in
  match f_err running with
  | Some err => sret (result, inr err)
  | None =>
    match f_entry running with
    | None => panic nil_dereference
    | Some p => let! lease := new_lease p in sret (result, inl lease)
    end
  end.

Definition abandonFlight (f : nat) : M Cache unit :=
  let! running := get_flight f in
  if f_waiters running =? 0 then sret tt
  else
    do! put_flight f (set_waiters (f_waiters running - 1) running) in
    do! (match f_entry running with
         | Some p => if f_finished running then let! cached := get_entry p in put_entry p (set_refs (e_refs cached - 1) cached) else sret tt
         | None => sret tt
         end) in
    if negb (f_finished running) && (f_waiters running - 1 =? 0) then
      let! running := get_flight f in put_flight f (cancel_flight running)
    else sret tt.

(** The loop of [selectVictimsLocked] from the back of the list. *)
Fixpoint select_loop (c : Cache) (weight : Z) (back : list nat) (remainingWeight remainingEntries : Z) : list (nat * string) * Z * Z :=
  match back with
  | [] => ([], remainingWeight, remainingEntries)
  | p :: back =>
    let overBytes := remainingWeight + weight >? c_maxWeightBytes c in
    let overEntries := remainingEntries + 1 >? c_maxEntries c in
    if negb overBytes && negb overEntries then ([], remainingWeight, remainingEntries)
    else
      match c_entryHeap c !! p with
      | None => ([], remainingWeight, remainingEntries)
      | Some candidate =>
        if negb (e_refs candidate =? 0) then select_loop c weight back remainingWeight remainingEntries
        else
          let reason := if overBytes then EvictionCapacityBytes else EvictionCapacityEntries in
          let '(victims, w, n) := select_loop c weight back (remainingWeight - e_weight candidate) (remainingEntries - 1) in
          ((p, reason) :: victims, w, n)
      end
  end.

Definition selectVictimsLocked (c : Cache) (weight : Z) : result (list (nat * string)) :=
  let '(victims, remainingWeight, remainingEntries) :=
    select_loop c weight (reverse (c_lru c)) (c_currentWeight c) (Z.of_nat (size (c_entries c))) in
  if (remainingWeight + weight >? c_maxWeightBytes c) || (remainingEntries + 1 >? c_maxEntries c) then Err (SentinelError ErrFull)
  else Ok victims.

Definition evict (victim : nat * string) : M Cache nat :=
  let! e := get_entry (fst victim) in
  let! c := sget in
  do! sput (set_table (delete (e_key e) (c_entries c)) (remove (fst victim) (c_lru c)) (c_currentWeight c - e_weight e) c) in
  do! (if snd victim == EvictionCapacityBytes then count EvictionsBytes 1
       else if snd victim == EvictionCapacityEntries then count EvictionsEntries 1 else sret tt) in
  sret (e_program e).

Fixpoint evict_all (victims : list (nat * string)) : M Cache (list nat) :=
  match victims with
  | [] => sret []
  | victim :: victims => let! program := evict victim in let! programs := evict_all victims in sret (program :: programs)
  end.

Definition with_evicted (n : Z) (r : Result) : Result :=
  {| rs_Key := rs_Key r; rs_Hit := rs_Hit r; rs_Coalesced := rs_Coalesced r; rs_ArtifactLoad := rs_ArtifactLoad r;
     rs_Compile := rs_Compile r; rs_Evicted := n |}.

(** The [default] case of [completeFlight]: insert the program. *)
Definition insert_program (key : Key) (weight : Z) (program : nat) (result : Result) (running : flight)
    : M Cache (option nat * Result * option error * list nat) :=
  let! c := sget in
  match selectVictimsLocked c weight with
  | Err err => do! count RejectionsFull 1 in sret (None, result, Some err, [])
  | Ok victims =>
    let! programs := evict_all victims in
    do! count EvictionsCapacity (len victims) in
    let! c := sget in
    let p := length (c_entryHeap c) in
    let cached := {| e_key := key; e_program := program; e_weight := weight; e_refs := f_waiters running |} in
    do! sput (set_table (<[key := p]> (c_entries c)) (p :: c_lru c) (c_currentWeight c + weight) (set_entryHeap (c_entryHeap c ++ [cached]) c)) in
    sret (Some p, with_evicted (len victims) result, None, programs)
  end.

(** [completeFlight] up to [closeEvicted]: the programs to close. *)
Definition completeFlight (key : Key) (weight : Z) (loaded : result nat) (result : Result) (f : nat) : M Cache (list nat) :=
  let! c := sget in
  do! sput (set_flights (delete key (c_flights c)) c) in
  let! running := get_flight f in
  let! outcome :=
    if c_closing c then sret (None, result, Some (SentinelError ErrClosed), [])
    else match loaded with
         | Err err => sret (None, result, Some err, [])
         | Ok program =>
           if f_waiters running =? 0 then sret (None, result, Some (SentinelError contextCanceled), [])
           else insert_program key weight program result running
         end in
  let '(cached, result, err, programs) := outcome in
  let programs := match cached, loaded with None, Ok program => programs ++ [program] | _, _ => programs end in
  do! put_flight f (finish_flight cached result err running) in
  do! close_channel (f_done running) in
  sret programs.

(** [closeEvicted], when programs failed to close. *)
Definition closeEvicted (failed : list nat) : M Cache unit :=
  do! count CloseErrors (len failed) in
  let! c := sget in
  do! sput (set_closing true (set_release (c_releasing c) (c_released c) (c_releaseDone c) (c_closePending c ++ failed) c)) in
  cancelFlightsLocked.

(** ** [Close] *)
Inductive close_outcome := CloseReturns | CloseAwaits (ch : nat) | CloseDrains (ch : nat).
Definition close_begin : M Cache close_outcome :=
  let! c := sget in
  if c_released c then sret CloseReturns
  else
    do! (if c_closing c then sret tt else do! sput (set_closing true c) in cancelFlightsLocked) in
    let! c := sget in
    sret (if c_releasing c then CloseAwaits (c_releaseDone c) else CloseDrains (c_drained c)).

(** The programs of the entries, in the order [order] of the entry map. *)
Fixpoint programs_of (order : list nat) : M Cache (list nat) :=
  match order with
  | [] => sret []
  | p :: order => let! e := get_entry p in let! programs := programs_of order in sret (e_program e :: programs)
  end.

(** After the drain: [None] if another caller is releasing; else the programs to
    close. *)
Definition close_release (order : list nat) : M Cache (option (list nat)) :=
  let! c := sget in
  if c_releasing c then sret None
  else
    let! programs := programs_of order in
    do! sput (set_table ∅ [] 0 c) in
    let! done_ := make_channel in
    let! c' := sget in
    do! sput (set_release true (c_released c') done_ [] c') in
    sret (Some (programs ++ c_closePending c)).

Definition close_end (failed : list nat) : M Cache unit :=
  let! c := sget in
  do! (if bool_decide (failed = []) then sput (set_release false true (c_releaseDone c) failed c)
       else do! sput (set_release false (c_released c) (c_releaseDone c) failed c) in count CloseErrors (len failed)) in
  let! c := sget in
  close_channel (c_releaseDone c).

(** ** Leases *)
Definition get_lease (l : nat) : M Cache Lease :=
  let! c := sget in match c_leaseHeap c !! l with Some x => sret x | None => panic nil_dereference end.
Definition put_lease (l : nat) (x : Lease) : M Cache unit :=
  let! c := sget in sput (set_leaseHeap (<[l := x]> (c_leaseHeap c)) c).

(** [Invoke] and [InvokeWithAcceptance] up to the call of the program. *)
Definition invoke_begin (l : nat) : M Cache (result nat) :=
  let! lease := get_lease l in
  if l_released lease then sret (Err (PlainError "worker cache lease is released"))
  else
    let! cached := get_entry (l_entry lease) in
    do! put_lease l (set_lease (l_released lease) (l_once lease) (l_readers lease + 1) lease) in
    sret (Ok (e_program cached)).
Definition invoke_end (l : nat) : M Cache unit :=
  let! lease := get_lease l in put_lease l (set_lease (l_released lease) (l_once lease) (l_readers lease - 1) lease).

(** The function of [Release]'s [Once], with both mutexes held. *)
Definition release_locked (l : nat) : M Cache unit :=
  let! lease := get_lease l in
  do! put_lease l (set_lease true OnceDone (l_readers lease) lease) in
  let! cached := get_entry (l_entry lease) in
  do! put_entry (l_entry lease) (set_refs (e_refs cached - 1) cached) in
  endLocked.

(** ** Loading (load.go)

    What the artifact source, the file, the compiler and the programs answer
    are arguments. *)
Record Info := { in_Digest : string; in_Size : Z }.
Record File := { fl_bytes : string; fl_readErr : option error; fl_closeErr : option error }.
Record Opened := { op_file : option File; op_info : Info; op_err : option error }.
Record Compiled := { cm_program : bool; cm_duration : Z; cm_err : option error; cm_closeErr : option error }.

(** [errors.Join] *)
Definition join (first second : option error) : option error :=
  match first, second with
  | Some first, Some second => Some (JoinError first second)
  | Some err, None | None, Some err => Some err
  | None, None => None
  end.

(** [io.ReadAll] of an [io.LimitReader]: [fl_readErr] is the error that the reads
    within the limit end in. *)
Definition read_limited (limit : Z) (file : File) : string := String.substring 0 (Z.to_nat limit) (fl_bytes file).

Definition readVerifiedArtifact (spec : ModuleSpec) (opened : Opened) : result string :=
  match op_err opened, op_file opened with
  | Some err, Some file => Err (default err (join (Some err) (fl_closeErr file)))
  | Some err, None => Err err
  | None, None => Err (PlainError "worker cache artifact source returned no file")
  | None, Some file =>
    let wasm := read_limited (ms_ArtifactSize spec + 1) file in
    match join (fl_readErr file) (fl_closeErr file) with
    | Some err => Err err
    | None =>
      let metadataMatches := (in_Digest (op_info opened) == ms_ArtifactDigest spec) && (in_Size (op_info opened) =? ms_ArtifactSize spec) in
      let bytesMatch := (strlen wasm =? ms_ArtifactSize spec) && (Sum wasm == ms_ArtifactDigest spec) in
      if negb metadataMatches || negb bytesMatch then Err (SentinelError ErrCorrupt) else Ok wasm
    end
  end.

(** The two attempts. *)
Definition read_attempts (spec : ModuleSpec) (first second : Opened) : result string :=
  match readVerifiedArtifact spec first with
  | Ok wasm => Ok wasm
  | Err err => if errors_Is ErrCorrupt err then readVerifiedArtifact spec second else Err err
  end.

(** Bytes to compile, and what the compiler made of them: a program, an error, and
    whether a program was created that is closed at once. *)
Inductive load_outcome := LoadFailed (err : error) | LoadDiscards (wasm : string) (err : error) | LoadCompiled (wasm : string).
Definition loadAndCompile (key : Key) (spec : ModuleSpec) (first second : Opened) (loadTime : Z) (compiled : Compiled) : Result * load_outcome :=
  let result compile := {| rs_Key := key; rs_Hit := false; rs_Coalesced := false; rs_ArtifactLoad := loadTime; rs_Compile := compile; rs_Evicted := 0 |} in
  match read_attempts spec first second with
  | Err err => (result 0, LoadFailed err)
  | Ok wasm =>
    (result (cm_duration compiled),
     match cm_err compiled, cm_program compiled with
     | Some err, true => LoadDiscards wasm (default err (join (Some err) (cm_closeErr compiled)))
     | Some err, false => LoadFailed err
     | None, false => LoadFailed (PlainError "worker cache compiler returned no program")
     | None, true => LoadCompiled wasm
     end)
  end.

(** ** Goroutines

    A flight's goroutine waits for its load, loads, completes the flight, closes
    the programs that this displaced and gives its tokens back.  [failed] are the
    programs that could not be closed. *)
Inductive load_phase :=
| LWait
| LDequeue (err : option error)
| LFailed (err : error)
| LLoad
| LClosing (programs failed : list nat) (active : bool)
| LReleasing.

Inductive close_phase :=
| CBegin
| CAwait (ch : nat)
| CDrain (ch : nat)
| CDrained
| CReleasing (programs failed : list nat).

Inductive thread :=
| TDone
| TBegun (key : Key) (spec : ModuleSpec)
| TAwait (f : nat) (coalesced : bool)
| TAbandon (f : nat)
| TEnd
| TFlight (f : nat) (key : Key) (spec : ModuleSpec) (ph : load_phase)
| TInvoking (l program : nat)
| TRelease (l : nat)
| TLocking (l : nat)
| TClose (ph : close_phase).

(** [w_programs]: the bytes that each program was compiled from;
    [w_closeCalls]: the programs that [Close] was called on; [w_closed]: those of the
    cache for which it succeeded; [w_discarded]: those that the loader closed
    because the compiler also returned an error. *)
Record World := {
  w_cache : Cache;
  w_threads : list thread;
  w_programs : list string;
  w_closeCalls : list nat;
  w_closed : list nat;
  w_discarded : list nat;
}.

Inductive event :=
| EvAcquire (spec : ModuleSpec)
| EvLookup (tid : nat)
| EvDone (tid : nat) (expired : bool)
| EvExpired (tid : nat)
| EvEnd (tid : nat)
| EvGate (tid : nat)
| EvCancelled (tid : nat)
| EvLoaded (tid : nat) (first second : Opened) (loadTime : Z) (compiled : Compiled)
| EvProgramClosed (tid : nat) (ok : bool)
| EvInvoke (l : nat)
| EvReturn (tid : nat)
| EvRelease (l : nat)
| EvOnce (tid : nat)
| EvClose
| EvChannel (tid : nat)
| EvGiveUp (tid : nat)
| EvDetach (tid : nat) (order : list nat).

Inductive outcome := Disabled | Panicked (err : error) | Stepped (w : World).

Definition region {A} (m : M Cache A) (w : World) (k : A -> Cache -> World) : outcome :=
  match m (w_cache w) with
  | (c, Ok x) => Stepped (k x c)
  | (_, Err err) => Panicked err
  end.

Definition with_threads (w : World) (c : Cache) (ths : list thread) : World :=
  {| w_cache := c; w_threads := ths; w_programs := w_programs w; w_closeCalls := w_closeCalls w; w_closed := w_closed w; w_discarded := w_discarded w |}.
Definition spawn (w : World) (t : thread) (c : Cache) : World := with_threads w c (w_threads w ++ [t]).
Definition becomes (w : World) (tid : nat) (t : thread) (c : Cache) : World := with_threads w c (<[tid := t]> (w_threads w)).
Definition compile (w : World) (wasm : string) : World :=
  {| w_cache := w_cache w; w_threads := w_threads w; w_programs := w_programs w ++ [wasm]; w_closeCalls := w_closeCalls w; w_closed := w_closed w; w_discarded := w_discarded w |}.
Definition call_Close (w : World) (program : nat) (ok : bool) : World :=
  {| w_cache := w_cache w; w_threads := w_threads w; w_programs := w_programs w; w_closeCalls := program :: w_closeCalls w;
     w_closed := if ok then program :: w_closed w else w_closed w; w_discarded := w_discarded w |}.
Definition discard (w : World) (program : nat) : World :=
  {| w_cache := w_cache w; w_threads := w_threads w; w_programs := w_programs w; w_closeCalls := program :: w_closeCalls w;
     w_closed := w_closed w; w_discarded := program :: w_discarded w |}.
Definition closed (ch : nat) (c : Cache) : bool := bool_decide (c_channels c !! ch = Some true).

(** After [completeFlight] and [closeEvicted]: a load that had a token gives it
    back. *)
Definition load_ends (f : nat) (key : Key) (spec : ModuleSpec) (active : bool) : thread := if active then TFlight f key spec LReleasing else TEnd.

Definition step_flight (w : World) (tid f : nat) (key : Key) (spec : ModuleSpec) (ph : load_phase) (e : event) : outcome :=
  let c := w_cache w in
  let next ph := becomes w tid (TFlight f key spec ph) in
  match ph, e with
  | LWait, EvGate _ =>
    if lg_active (c_loadGate c) <? lg_maxActive (c_loadGate c)
    then Stepped (next (LDequeue None) (set_gate (move (c_loadGate c) 1 0) c)) else Disabled
  | LWait, EvCancelled _ =>
    match c_flightHeap c !! f with
    | Some running => if f_cancelled running then Stepped (next (LDequeue (Some (SentinelError contextCanceled))) c) else Disabled
    | None => Disabled
    end
  | LDequeue None, EvGate _ => Stepped (next LLoad (set_gate (move (c_loadGate c) 0 (-1)) c))
  | LDequeue (Some err), EvGate _ => Stepped (next (LFailed err) (set_gate (move (c_loadGate c) 0 (-1)) c))
  | LFailed err, EvEnd _ =>
    region (completeFlight key (ms_ArtifactSize spec) (Err err) (zero_result key false) f) w
      (fun programs => next (LClosing programs [] false))
  | LLoad, EvLoaded _ first second loadTime compiled =>
    let '(result, loaded) := loadAndCompile key spec first second loadTime compiled in
    let program := length (w_programs w) in
    let '(w, loaded) :=
      match loaded with
      | LoadFailed err => (w, Err err)
      | LoadDiscards wasm err => (discard (compile w wasm) program, Err err)
      | LoadCompiled wasm => (compile w wasm, Ok program)
      end in
    region (completeFlight key (ms_ArtifactSize spec) loaded result f) w
      (fun programs => becomes w tid (TFlight f key spec (LClosing programs [] true)))
  | LClosing (program :: programs) failed active, EvProgramClosed _ ok =>
    Stepped (becomes (call_Close w program ok) tid
      (TFlight f key spec (LClosing programs (if ok then failed else failed ++ [program]) active)) c)
  | LClosing [] [] active, EvEnd _ => Stepped (becomes w tid (load_ends f key spec active) c)
  | LClosing [] failed active, EvEnd _ => region (closeEvicted failed) w (fun _ => becomes w tid (load_ends f key spec active))
  | LReleasing, EvGate _ => Stepped (becomes w tid TEnd (set_gate (move (c_loadGate c) (-1) 0) c))
  | _, _ => Disabled
  end.

Definition step_close (w : World) (tid : nat) (ph : close_phase) (e : event) : outcome :=
  let c := w_cache w in
  let next ph := becomes w tid (TClose ph) in
  match ph, e with
  | CBegin, EvChannel _ =>
    region close_begin w (fun r => match r with
      | CloseReturns => becomes w tid TDone
      | CloseAwaits ch => next (CAwait ch)
      | CloseDrains ch => next (CDrain ch)
      end)
  | CAwait ch, EvChannel _ => if closed ch c then Stepped (next CBegin c) else Disabled
  | CDrain ch, EvChannel _ => if closed ch c then Stepped (next CDrained c) else Disabled
  | (CAwait _ | CDrain _), EvGiveUp _ => Stepped (becomes w tid TDone c)
  | CDrained, EvDetach _ order =>
    if bool_decide (order ≡ₚ (map_to_list (c_entries c)).*2) then
      region (close_release order) w (fun r => match r with
        | None => next CBegin
        | Some programs => next (CReleasing programs [])
        end)
    else Disabled
  | CReleasing (program :: programs) failed, EvProgramClosed _ ok =>
    Stepped (becomes (call_Close w program ok) tid (TClose (CReleasing programs (if ok then failed else failed ++ [program]))) c)
  | CReleasing [] failed, EvEnd _ => region (close_end failed) w (fun _ => becomes w tid TDone)
  | _, _ => Disabled
  end.

Definition step_thread (w : World) (tid : nat) (t : thread) (e : event) : outcome :=
  let c := w_cache w in
  match t, e with
  | TBegun key spec, EvLookup _ =>
    region (acquire_lookup key) w (fun r => match r with
      | Refuses _ => becomes w tid TEnd
      | Hit _ => becomes w tid TDone
      | Joins f => becomes w tid (TAwait f true)
      | Starts f r => fun c =>
        spawn (becomes w tid (TAwait f false) c)
          (TFlight f key spec (match r with ReservedActive => LLoad | ReservedQueued => LWait end)) c
      end)
  | TAwait f coalesced, EvDone _ expired =>
    match c_flightHeap c !! f with
    | None => Disabled
    | Some running =>
      if negb (closed (f_done running) c) then Disabled
      else if expired then Stepped (becomes w tid (TAbandon f) c)
      else region (collect f coalesced) w (fun r => match snd r with
        | inl _ => becomes w tid TDone
        | inr _ => becomes w tid TEnd
        end)
    end
  | TAwait f _, EvExpired _ => Stepped (becomes w tid (TAbandon f) c)
  | TAbandon f, EvEnd _ => region (abandonFlight f) w (fun _ => becomes w tid TEnd)
  | TEnd, EvEnd _ => region endLocked w (fun _ => becomes w tid TDone)
  | TFlight f key spec ph, _ => step_flight w tid f key spec ph e
  | TInvoking l _, EvReturn _ => region (invoke_end l) w (fun _ => becomes w tid TDone)
  | TRelease l, EvOnce _ =>
    match c_leaseHeap c !! l with
    | None => Disabled
    | Some lease =>
      match l_once lease with
      | OnceNew => Stepped (becomes w tid (TLocking l) (set_leaseHeap (<[l := set_lease (l_released lease) OnceRunning (l_readers lease) lease]> (c_leaseHeap c)) c))
      | OnceRunning => Disabled
      | OnceDone => Stepped (becomes w tid TDone c)
      end
    end
  | TLocking l, EvOnce _ =>
    match c_leaseHeap c !! l with
    | Some lease => if l_readers lease =? 0 then region (release_locked l) w (fun _ => becomes w tid TDone) else Disabled
    | None => Disabled
    end
  | TClose ph, _ => step_close w tid ph e
  | _, _ => Disabled
  end.

Definition thread_of (e : event) : option nat :=
  match e with
  | EvLookup tid | EvDone tid _ | EvExpired tid | EvEnd tid | EvGate tid | EvCancelled tid | EvLoaded tid _ _ _ _ | EvProgramClosed tid _
  | EvReturn tid | EvOnce tid | EvChannel tid | EvGiveUp tid | EvDetach tid _ => Some tid
  | _ => None
  end.

(** [Acquire] up to its second region; a lease is known to the caller that it
    was returned to. *)
Definition step (e : event) (w : World) : outcome :=
  let c := w_cache w in
  match thread_of e with
  | Some tid => match w_threads w !! tid with Some t => step_thread w tid t e | None => Disabled end
  | None =>
    match e with
    | EvAcquire spec =>
      match key (c_goos c) (c_goarch c) (c_profile c) spec with
      | Err _ => Stepped (spawn w TDone c)
      | Ok k =>
        if ms_ArtifactSize spec >? c_maxWeightBytes c then Stepped (spawn w TDone c)
        else region begin w (fun ok => spawn w (if ok then TBegun k spec else TDone))
      end
    | EvInvoke l =>
      if (l <? length (c_leaseHeap c))%nat then
        region (invoke_begin l) w (fun r => spawn w (match r with Ok program => TInvoking l program | Err _ => TDone end))
      else Disabled
    | EvRelease l => if (l <? length (c_leaseHeap c))%nat then Stepped (spawn w (TRelease l) c) else Disabled
    | EvClose => Stepped (spawn w (TClose CBegin) c)
    | _ => Disabled
    end
  end.

Fixpoint run (es : list event) (w : World) : outcome :=
  match es with
  | [] => Stepped w
  | e :: es => match step e w with
               | Disabled => run es w
               | Panicked err => Panicked err
               | Stepped w => run es w
               end
  end.

Definition init (c : Cache) : World := {| w_cache := c; w_threads := []; w_programs := []; w_closeCalls := []; w_closed := []; w_discarded := [] |}.

(** [Snapshot] *)
Record StatsView := { sv_stats : Stats; sv_Entries : Z; sv_CurrentWeight : Z; sv_Inflight : Z }.
Definition Snapshot (c : Cache) : StatsView :=
  {| sv_stats := c_stats c; sv_Entries := Z.of_nat (size (c_entries c)); sv_CurrentWeight := c_currentWeight c;
     sv_Inflight := Z.of_nat (size (c_flights c)) |}.

End cache.
