(* ===== verification/WorkerCacheSafety.v ===== *)
(** * Package [internal/workercache]: the invariant of the cache

    [inv] accounts for every token, reference and program: the [active] count is
    that of the calls, flights and leases in progress; the references of an entry
    are its unreleased leases and the callers still to collect it; each program
    is in the table, about to be closed, or closed. *)
From stdpp Require Import base gmap strings list.
From S2P Require Import Prelude Problem Digest Json Model ServingAuth Scheduler Net Abi WorkerAgent WorkerCache.
Import problem digest model cache.

#[local] Open Scope Z_scope.

Module cachesafety.
#[local] Abbreviation ModuleSpec := workercache.ModuleSpec.
#[local] Abbreviation Key := workercache.Key.

(** ** Counting *)
Abbreviation occ x := (tally (hits x)).
Lemma occ_elem x l : x ∈ l <-> 0 < occ x l.
Proof.
  split.
  - intros Hx. pose proof (tally_member (hits x) (hits_nonneg x) l x Hx) as H. rewrite hits_same in H. lia.
  - intros Hpos. destruct (decide (x ∈ l)) as [|Hn]; [done|]. rewrite tally_fresh in Hpos; [lia|].
    intros y Hy. apply hits_other. by intros ->.
Qed.

Definition holds (t : thread) : Z := match t with TBegun _ _ | TAwait _ _ | TAbandon _ | TEnd | TFlight _ _ _ _ => 1 | _ => 0 end.
Definition waits (f : nat) (t : thread) : Z := match t with TAwait f' _ | TAbandon f' => hits f f' | _ => 0 end.
Definition flying (f : nat) (t : thread) : Z := match t with TFlight f' _ _ (LWait | LDequeue _ | LFailed _ | LLoad) => hits f f' | _ => 0 end.
Definition loads (t : thread) : Z :=
  match t with TFlight _ _ _ (LDequeue None | LLoad | LClosing _ _ true | LReleasing) => 1 | _ => 0 end.
Definition queues (t : thread) : Z := match t with TFlight _ _ _ (LWait | LDequeue _) => 1 | _ => 0 end.
Definition invoking (l : nat) (t : thread) : Z := match t with TInvoking l' _ => hits l l' | _ => 0 end.
Definition locking (l : nat) (t : thread) : Z := match t with TLocking l' => hits l l' | _ => 0 end.
Definition frees (t : thread) : Z := match t with TClose (CReleasing _ _) => 1 | _ => 0 end.
Definition doomed (x : nat) (t : thread) : Z :=
  match t with
  | TFlight _ _ _ (LClosing programs failed _) | TClose (CReleasing programs failed) => occ x programs + occ x failed
  | _ => 0
  end.

Definition unreleased (l : Lease) : Z := if l_released l then 0 else 1.
Definition pins (p : nat) (l : Lease) : Z := if l_released l then 0 else hits p (l_entry l).

(** Weight and program of the entry at [p]. *)
Definition weighs (heap : list entry) (p : nat) : Z := match heap !! p with Some e => e_weight e | None => 0 end.
Definition owns (heap : list entry) (x p : nat) : Z := match heap !! p with Some e => hits x (e_program e) | None => 0 end.

(** ** The invariant *)
Definition matches (key : Key) (spec : ModuleSpec) : Prop :=
  workercache.k_ArtifactDigest key = workercache.ms_ArtifactDigest spec /\ workercache.k_ArtifactSize key = workercache.ms_ArtifactSize spec /\
  1 <= workercache.ms_ArtifactSize spec.

Definition thread_ok (c : Cache) (t : thread) : Prop :=
  match t with
  | TDone | TEnd => True
  | TBegun key spec => matches key spec
  | TAwait f _ | TAbandon f => (f < length (c_flightHeap c))%nat
  | TFlight f key spec _ => matches key spec /\ exists x, c_flightHeap c !! f = Some x /\ f_key x = key
  | TInvoking l program => exists x e, c_leaseHeap c !! l = Some x /\ c_entryHeap c !! l_entry x = Some e /\ e_program e = program
  | TRelease l | TLocking l => (l < length (c_leaseHeap c))%nat
  | TClose (CDrain ch) => c_closing c = true /\ ch = c_drained c
  | TClose (CDrained | CReleasing _ _) => c_closing c = true /\ c_active c = 0
  | TClose _ => True
  end.

(** The entry at [p] is for [k]. *)
Definition key_at (heap : list entry) (p : nat) (k : Key) : Prop := exists e, heap !! p = Some e /\ e_key e = k.

Definition made (heap : list entry) (x : flight) : Prop :=
  match f_entry x with Some p => f_err x = None /\ key_at heap p (f_key x) | None => f_err x <> None end.

Lemma made_mono heap heap' x : (forall p k, key_at heap p k -> key_at heap' p k) -> made heap x -> made heap' x.
Proof. unfold made. intros H. destruct (f_entry x); [|done]. intros []. auto. Qed.
Lemma key_at_lt heap p k : key_at heap p k -> (p < length heap)%nat.
Proof. intros (e & E & _). by eapply lookup_lt_Some. Qed.

Record flight_ok (c : Cache) (ths : list thread) (f : nat) (x : flight) : Prop := {
  fk_done : c_channels c !! f_done x = Some (f_finished x);
  fk_flying : tally (flying f) ths = b2z (negb (f_finished x));
  fk_running : f_finished x = false -> c_flights c !! f_key x = Some f /\ f_entry x = None /\ f_waiters x = tally (waits f) ths;
  fk_finished : f_finished x = true -> tally (waits f) ths <= f_waiters x /\ made (c_entryHeap c) x;
}.

Definition compiled_for (w : World) (e : entry) : Prop :=
  e_weight e = workercache.k_ArtifactSize (e_key e) /\ 1 <= e_weight e /\
  exists wasm, w_programs w !! e_program e = Some wasm /\ Sum wasm = workercache.k_ArtifactDigest (e_key e) /\
    strlen wasm = workercache.k_ArtifactSize (e_key e).

Record entry_ok (c : Cache) (ths : list thread) (p : nat) (e : entry) : Prop := {
  ek_refs : exists f x, c_flightHeap c !! f = Some x /\ f_entry x = Some p /\
    e_refs e = tally (pins p) (c_leaseHeap c) + tally (waits f) ths;
  ek_table : p ∉ c_lru c -> e_refs e = 0;
}.

Record lease_ok (c : Cache) (ths : list thread) (l : nat) (x : Lease) : Prop := {
  lk_entry : (l_entry x < length (c_entryHeap c))%nat;
  lk_readers : l_readers x = tally (invoking l) ths;
  lk_locking : tally (locking l) ths = match l_once x with OnceRunning => 1 | _ => 0 end;
  lk_released : l_released x = match l_once x with OnceDone => true | _ => false end;
  lk_quiet : l_released x = true -> l_readers x = 0;
}.

Definition owned_channels (c : Cache) : list nat :=
  c_drained c :: (if c_releasing c then [c_releaseDone c] else []) ++ (f_done <$> c_flightHeap c).

Record inv (c : Cache) (ths : list thread) (w : World) : Prop := {
  iv_active : c_active c = tally holds ths + tally unreleased (c_leaseHeap c);
  iv_drained : c_channels c !! c_drained c = Some (c_active c =? 0);
  iv_owned : NoDup (owned_channels c);
  iv_flight : forall f x, c_flightHeap c !! f = Some x -> flight_ok c ths f x;
  iv_flights : forall k f, c_flights c !! k = Some f -> (exists x, c_flightHeap c !! f = Some x /\ f_key x = k /\ f_finished x = false) /\
    c_entries c !! k = None;
  iv_maker : forall f f' x x' p, c_flightHeap c !! f = Some x -> c_flightHeap c !! f' = Some x' -> f_entry x = Some p -> f_entry x' = Some p -> f = f';
  iv_entry : forall p e, c_entryHeap c !! p = Some e -> entry_ok c ths p e;
  iv_compiled : forall p e, c_entryHeap c !! p = Some e -> compiled_for w e;
  iv_key : forall k p, c_entries c !! k = Some p -> key_at (c_entryHeap c) p k;
  iv_lru : c_lru c ≡ₚ (map_to_list (c_entries c)).*2;
  iv_lru_unique : NoDup (c_lru c);
  iv_weight : c_currentWeight c = tally (weighs (c_entryHeap c)) (c_lru c);
  iv_capacity : c_currentWeight c <= c_maxWeightBytes c /\ Z.of_nat (size (c_entries c)) <= c_maxEntries c;
  iv_programs : forall x, tally (owns (c_entryHeap c) x) (c_lru c) + tally (doomed x) ths + occ x (c_closePending c) +
    occ x (w_closed w) + occ x (w_discarded w) = b2z (bool_decide (x < length (w_programs w))%nat);
  iv_calls : forall x, x ∈ w_closeCalls w -> (x < length (w_programs w))%nat /\ tally (owns (c_entryHeap c) x) (c_lru c) = 0;
  iv_lease : forall l x, c_leaseHeap c !! l = Some x -> lease_ok c ths l x;
  iv_gate : lg_active (c_loadGate c) = tally loads ths /\ lg_queued (c_loadGate c) = tally queues ths /\
    lg_active (c_loadGate c) <= lg_maxActive (c_loadGate c) /\ lg_queued (c_loadGate c) <= lg_maxQueued (c_loadGate c);
  iv_frees : b2z (c_releasing c) = tally frees ths;
  iv_releaseDone : c_releasing c = true -> c_channels c !! c_releaseDone c = Some false;
  iv_released : c_releasing c = true \/ c_released c = true -> c_closing c = true /\ c_active c = 0;
  iv_detached : c_releasing c = true \/ c_released c = true -> c_lru c = [] /\ c_closePending c = [];
  iv_emptied : c_released c = true -> forall x, tally (doomed x) ths = 0;
  iv_thread : forall t, t ∈ ths -> thread_ok c t;
}.

#[global] Instance inv_Permutation c : Proper ((≡ₚ) ==> eq ==> iff) (inv c).
Proof.
  assert (forall ths ths' w, ths ≡ₚ ths' -> inv c ths w -> inv c ths' w) as H.
  { intros ths ths' w Hp []. split; try done; try (by rewrite <-Hp).
    - intros f x E. destruct (iv_flight0 f x E). split; try done; by rewrite <-Hp.
    - intros p e E. destruct (iv_entry0 p e E) as [(f & x & ? & ? & ?) ?]. split; [|done]. exists f, x. by rewrite <-Hp.
    - intros x. by rewrite <-Hp.
    - intros l x E. destruct (iv_lease0 l x E). split; try done; by rewrite <-Hp.
    - intros Hr x. rewrite <-Hp. by apply iv_emptied0.
    - intros t Ht. apply iv_thread0. by rewrite Hp. }
  intros ths ths' Hp w ? <-. split; by apply H.
Qed.

Ltac cfields := cbn [set_gate set_table set_flights set_active set_closing set_release set_stats set_entryHeap set_flightHeap set_leaseHeap set_channels
  c_profile c_goos c_goarch c_maxWeightBytes c_maxEntries c_loadGate c_entries c_lru c_flights c_currentWeight c_active c_drained c_closing
  c_releasing c_released c_releaseDone c_closePending c_stats c_entryHeap c_flightHeap c_leaseHeap c_channels] in *.
Ltac cinv H := destruct H as [Hact Hdr Hown Hfl Hfs Hmk Hen Hco Hky Hlr Hnd Hwt Hcap Hpr Hcl Hle Hga Hfr Hrd Hrl Hde Hem Hth].

Lemma cinv_head c t ths w : inv c (t :: ths) w -> thread_ok c t.
Proof. intros H. apply (iv_thread _ _ _ H), elem_of_cons. by left. Qed.

(** ** Goroutines that count the same *)
Record alike (t t' : thread) : Prop := {
  al_holds : holds t' = holds t;
  al_waits : forall f, waits f t' = waits f t;
  al_flying : forall f, flying f t' = flying f t;
  al_loads : loads t' = loads t;
  al_queues : queues t' = queues t;
  al_invoking : forall l, invoking l t' = invoking l t;
  al_locking : forall l, locking l t' = locking l t;
  al_frees : frees t' = frees t;
  al_doomed : forall x, doomed x t' = doomed x t;
}.

Lemma inv_swap c t t' ths w : alike t t' -> thread_ok c t' -> inv c (t :: ths) w -> inv c (t' :: ths) w.
Proof.
  intros [A1 A2 A3 A4 A5 A6 A7 A8 A9] Hok H. cinv H. simpl in *. split; simpl; rewrite ?A1, ?A4, ?A5, ?A8; try done.
  - intros f x E. destruct (Hfl f x E) as [F1 F2 F3 F4]. simpl in *. split; simpl; rewrite ?A2, ?A3; done.
  - intros p e E. destruct (Hen p e E) as [(f & x & E1 & E2 & E3) ?]. simpl in *. split; [|done]. exists f, x. simpl. by rewrite A2.
  - intros x. rewrite A9. apply Hpr.
  - intros l x E. destruct (Hle l x E) as [L1 L2 L3 L4 L5]. simpl in *. split; simpl; rewrite ?A6, ?A7; done.
  - intros Hr x. rewrite A9. by apply Hem.
  - intros t0 [->|Ht0]%elem_of_cons; [done|]. apply Hth, elem_of_cons. by right.
Qed.
Lemma inv_add c t ths w : alike TDone t -> thread_ok c t -> inv c ths w -> inv c (t :: ths) w.
Proof.
  intros [A1 A2 A3 A4 A5 A6 A7 A8 A9] Hok H. cinv H. simpl in *. split; simpl; rewrite ?A1, ?A4, ?A5, ?A8; try done.
  - intros f x E. destruct (Hfl f x E) as [F1 F2 F3 F4]. split; simpl; rewrite ?A2, ?A3; done.
  - intros p e E. destruct (Hen p e E) as [(f & x & E1 & E2 & E3) ?]. split; [|done]. exists f, x. simpl. by rewrite A2.
  - intros x. rewrite A9. apply Hpr.
  - intros l x E. destruct (Hle l x E) as [L1 L2 L3 L4 L5]. split; simpl; rewrite ?A6, ?A7; done.
  - intros Hr x. rewrite A9. by apply Hem.
  - intros t0 [->|Ht0]%elem_of_cons; [done|]. by apply Hth.
Qed.

(** ** The [active] count *)
Lemma holds_nonneg t : 0 <= holds t.
Proof. destruct t; simpl; lia. Qed.
Lemma unreleased_nonneg l : 0 <= unreleased l.
Proof. unfold unreleased. case_match; lia. Qed.

Lemma owned_lt c ths w ch : inv c ths w -> ch ∈ owned_channels c -> (ch < length (c_channels c))%nat.
Proof.
  intros H Hin. cinv H. apply elem_of_cons in Hin as [->|[Hin|Hin]%elem_of_app].
  - by eapply lookup_lt_Some.
  - destruct (c_releasing c) eqn:E; [|by apply not_elem_of_nil in Hin]. apply list_elem_of_singleton in Hin as ->. eapply lookup_lt_Some. by apply Hrd.
  - apply list_elem_of_fmap in Hin as (x & -> & [f Hf]%list_elem_of_lookup). eapply lookup_lt_Some. by apply (Hfl f x Hf).
Qed.

(** The state after [startLocked]. *)
Definition started (c : Cache) : Cache :=
  if c_active c =? 0 then set_active (c_active c + 1) (length (c_channels c)) (set_channels (c_channels c ++ [false]) c)
  else set_active (c_active c + 1) (c_drained c) c.
Lemma startLocked_run c : startLocked c = (started c, Ok tt).
Proof. unfold startLocked, started, sbind, sget, sput. by destruct (c_active c =? 0). Qed.

(** What the parts of the invariant that a region does not touch have in common. *)
Ltac ckeep := intros;
  try match goal with
  | H : forall f x, _ -> flight_ok ?c ?ths f x, E : _ !! ?f = Some ?x |- flight_ok _ _ ?f ?x => destruct (H f x E); split; cfields; done
  | H : forall p e, _ -> entry_ok ?c ?ths p e, E : _ !! ?p = Some ?e |- entry_ok _ _ ?p ?e => destruct (H p e E); split; cfields; done
  | H : forall l x, _ -> lease_ok ?c ?ths l x, E : _ !! ?l = Some ?x |- lease_ok _ _ ?l ?x => destruct (H l x E); split; cfields; done
  end.

Lemma active_nonneg c ths w : inv c ths w -> 0 <= c_active c.
Proof.
  intros H. rewrite (iv_active _ _ _ H). pose proof (tally_nonneg holds holds_nonneg ths).
  pose proof (tally_nonneg unreleased unreleased_nonneg (c_leaseHeap c)). lia.
Qed.
Lemma active_pos c t ths w : inv c (t :: ths) w -> holds t = 1 -> 1 <= c_active c.
Proof.
  intros H Ht. rewrite (iv_active _ _ _ H). simpl. pose proof (tally_nonneg holds holds_nonneg ths).
  pose proof (tally_nonneg unreleased unreleased_nonneg (c_leaseHeap c)). lia.
Qed.

(** [t] does not need [active] to be zero, nor [drained] to stay. *)
Definition drainless (t : thread) : Prop := match t with TClose (CDrain _ | CDrained | CReleasing _ _) => False | _ => True end.
Lemma drainless_ok c c' t : drainless t -> c_flightHeap c' = c_flightHeap c -> c_leaseHeap c' = c_leaseHeap c -> c_entryHeap c' = c_entryHeap c ->
  thread_ok c t -> thread_ok c' t.
Proof. intros Hd E1 E2 E3. destruct t as [| | | | | | | | |[]]; simpl; rewrite ?E1, ?E2, ?E3; done. Qed.
Lemma open_drainless c t : c_closing c = false -> thread_ok c t -> drainless t.
Proof. intros Hc. destruct t as [| | | | | | | | |[]]; simpl; try done; rewrite Hc; by intros []. Qed.

Lemma inv_start c ths w : inv c ths w -> c_closing c = false -> inv (started c) (TEnd :: ths) w.
Proof.
  intros H Hclosing. pose proof (owned_lt c ths w) as Hlt. specialize (fun ch => Hlt ch H). pose proof (active_nonneg _ _ _ H) as Hnn.
  cinv H. unfold started. destruct (c_active c =? 0) eqn:Hz; go_cases; split; cfields; try done; try by ckeep.
  - simpl. lia.
  - rewrite lookup_app_r, Nat.sub_diag by done. simpl. by rewrite (proj2 (Z.eqb_neq (c_active c + 1) 0)) by lia.
  - unfold owned_channels in *. cfields. apply NoDup_cons in Hown as [_ Hnd']. apply NoDup_cons. split; [|done]. intros Hin.
    assert (length (c_channels c) < length (c_channels c))%nat; [|lia]. apply Hlt, elem_of_cons. by right.
  - intros f x E. destruct (Hfl f x E). split; cfields; try done. by apply lookup_app_l_Some.
  - intros Hr. apply lookup_app_l_Some. by apply Hrd.
  - intros Hr. destruct (Hrl Hr). congruence.
  - intros t [->|Ht]%elem_of_cons; [done|]. apply (drainless_ok c); try done; [apply (open_drainless c)|]; by try apply Hth.
  - simpl. lia.
  - rewrite Hdr. by rewrite (proj2 (Z.eqb_neq (c_active c + 1) 0)) by lia.
  - intros Hr. destruct (Hrl Hr). congruence.
  - intros t [->|Ht]%elem_of_cons; [done|]. apply (drainless_ok c); try done; [apply (open_drainless c)|]; by try apply Hth.
Qed.

Lemma inv_end c ths w : inv c (TEnd :: ths) w -> exists c', endLocked c = (c', Ok tt) /\ inv c' (TDone :: ths) w.
Proof.
  intros H. pose proof (active_pos _ _ _ _ H eq_refl) as Hpos. cinv H.
  assert (c_channels c !! c_drained c = Some false) as Hch. { rewrite Hdr. by rewrite (proj2 (Z.eqb_neq _ _)) by lia. }
  assert (forall t, t ∈ TDone :: ths -> thread_ok c t /\ match t with TClose (CDrained | CReleasing _ _) => False | _ => True end) as Hth'.
  { intros t [->|Ht]%elem_of_cons; [done|]. specialize (Hth t). rewrite elem_of_cons in Hth. specialize (Hth (or_intror Ht)).
    split; [done|]. destruct t as [| | | | | | | | |[]]; simpl in Hth; try done; destruct Hth; lia. }
  apply NoDup_cons in Hown as [Hnin Hown].
  unfold endLocked, close_channel, sbind, sget, sput. destruct (c_active c - 1 =? 0) eqn:Hz; go_cases; cfields; rewrite ?Hch; (eexists; split; [reflexivity|]);
    split; cfields; try done; try by ckeep.
  - simpl in *. lia.
  - rewrite list_lookup_insert_eq by (by eapply lookup_lt_Some). by rewrite (proj2 (Z.eqb_eq _ _)) by lia.
  - apply NoDup_cons. done.
  - intros f x E. destruct (Hfl f x E). split; cfields; try done. rewrite list_lookup_insert_ne; [done|]. intros Heq. apply Hnin, elem_of_app. right.
    rewrite Heq. apply list_elem_of_fmap. exists x. split; [done|]. by eapply list_elem_of_lookup_2.
  - intros Hr. rewrite list_lookup_insert_ne; [by apply Hrd|]. intros Heq. apply Hnin, elem_of_app. left. rewrite Hr, Heq. by apply list_elem_of_singleton.
  - intros Hr. destruct (Hrl Hr). lia.
  - intros t Ht. destruct (Hth' t Ht). destruct t as [| | | | | | | | |[]]; done.
  - simpl in *. lia.
  - rewrite Hch. by rewrite (proj2 (Z.eqb_neq _ _)) by lia.
  - apply NoDup_cons. done.
  - intros Hr. destruct (Hrl Hr). lia.
  - intros t Ht. destruct (Hth' t Ht). destruct t as [| | | | | | | | |[]]; done.
Qed.

(** ** References *)

(** Entries up to their references. *)
Definition shape (heap : list entry) : list entry := set_refs 0 <$> heap.
Lemma shape_insert heap p e refs : heap !! p = Some e -> shape (<[p := set_refs refs e]> heap) = shape heap.
Proof. intros E. unfold shape. rewrite list_fmap_insert. apply list_insert_id. by rewrite list_lookup_fmap, E. Qed.
Lemma shape_length heap heap' : shape heap' = shape heap -> length heap' = length heap.
Proof. intros H. apply (f_equal length) in H. unfold shape in H. by rewrite !length_fmap in H. Qed.
Lemma shape_lookup heap heap' p e : shape heap' = shape heap -> heap' !! p = Some e ->
  exists e', heap !! p = Some e' /\ e_key e' = e_key e /\ e_program e' = e_program e /\ e_weight e' = e_weight e.
Proof.
  intros H E. assert (shape heap' !! p = Some (set_refs 0 e)) as E' by (unfold shape; by rewrite list_lookup_fmap, E).
  rewrite H in E'. unfold shape in E'. rewrite list_lookup_fmap in E'. destruct (heap !! p) as [e'|]; [|done]. exists e'.
  simpl in E'. by injection E'.
Qed.
Lemma shape_weighs heap heap' p : shape heap' = shape heap -> weighs heap' p = weighs heap p.
Proof.
  intros H. unfold weighs. destruct (heap' !! p) as [e|] eqn:E.
  - destruct (shape_lookup _ _ _ _ H E) as (e' & -> & _ & _ & ->). done.
  - apply lookup_ge_None in E. rewrite (shape_length _ _ H) in E. by rewrite (proj2 (lookup_ge_None _ _) E).
Qed.
Lemma shape_owns heap heap' x p : shape heap' = shape heap -> owns heap' x p = owns heap x p.
Proof.
  intros H. unfold owns. destruct (heap' !! p) as [e|] eqn:E.
  - destruct (shape_lookup _ _ _ _ H E) as (e' & -> & _ & -> & _). done.
  - apply lookup_ge_None in E. rewrite (shape_length _ _ H) in E. by rewrite (proj2 (lookup_ge_None _ _) E).
Qed.

(** The entries whose references changed are still those of the table. *)
Lemma shape_inv c ths w heap : inv c ths w -> shape heap = shape (c_entryHeap c) ->
  (forall p e, heap !! p = Some e -> compiled_for w e) /\
  (forall p k, key_at (c_entryHeap c) p k -> key_at heap p k) /\
  c_currentWeight c = tally (weighs heap) (c_lru c) /\
  (forall x, tally (owns heap x) (c_lru c) = tally (owns (c_entryHeap c) x) (c_lru c)) /\
  length heap = length (c_entryHeap c) /\
  (forall t, thread_ok c t -> thread_ok (set_entryHeap heap c) t).
Proof.
  intros H Hs. cinv H. split_and!.
  - intros p e E. destruct (shape_lookup _ _ _ _ Hs E) as (e' & E' & H1 & H2 & H3). specialize (Hco p e' E').
    unfold compiled_for in *. by rewrite H1, H2, H3 in Hco.
  - intros p k (e & E' & <-). destruct (shape_lookup _ _ _ _ (eq_sym Hs) E') as (e' & ? & ? & _). by exists e'.
  - rewrite Hwt. apply tally_ext. intros p _. symmetry. by apply shape_weighs.
  - intros x. apply tally_ext. intros p _. by apply shape_owns.
  - by apply shape_length.
  - intros t Ht. destruct t as [| | | | | |l program| | |ph]; simpl in *; try done. destruct Ht as (x & e & ? & E & ?).
    destruct (shape_lookup _ _ _ _ (eq_sym Hs) E) as (e' & ? & _ & ? & _). exists x, e'. split_and!; congruence.
Qed.

Lemma remove_fresh p l : p ∉ l -> remove p l = l.
Proof.
  unfold remove. induction l as [|q l IH]; [done|]. rewrite not_elem_of_cons. intros [Hne Hl]. rewrite filter_cons_True by (by intros ->). by rewrite IH.
Qed.
Lemma move_to_front_Permutation p l : NoDup l -> p ∈ l -> move_to_front p l ≡ₚ l.
Proof.
  unfold move_to_front. induction l as [|q l IH]; intros Hnd Hin; [by apply not_elem_of_nil in Hin|]. apply NoDup_cons in Hnd as [Hq Hnd].
  rewrite filter_cons. destruct (decide (q ≠ p)) as [Hne|Heq].
  - apply elem_of_cons in Hin as [->|Hin]; [done|]. rewrite Permutation_swap. by rewrite IH.
  - assert (q = p) as -> by (by destruct (decide (q = p))). pose proof (remove_fresh p l Hq) as E. unfold remove in E. by rewrite E.
Qed.

(** ** Leases *)
Lemma fresh_lease c ths w l : inv c ths w -> (length (c_leaseHeap c) <= l)%nat -> tally (invoking l) ths = 0 /\ tally (locking l) ths = 0.
Proof.
  intros H Hl. cinv H. split; apply tally_fresh; intros t Ht; specialize (Hth t Ht); destruct t as [| | | | | |l' | |l'|]; simpl in *; try done;
    apply hits_other; intros ->.
  - destruct Hth as (x & e & E & _). apply lookup_lt_Some in E. lia.
  - lia.
Qed.

Definition lease_on (p : nat) : Lease := {| l_entry := p; l_released := false; l_once := OnceNew; l_readers := 0 |}.
Lemma leases_grow c ths w p e heap : inv c ths w -> c_entryHeap c !! p = Some e -> length heap = length (c_entryHeap c) ->
  forall l x, (c_leaseHeap c ++ [lease_on p]) !! l = Some x ->
  lease_ok (set_leaseHeap (c_leaseHeap c ++ [lease_on p]) (set_entryHeap heap c)) ths l x.
Proof.
  intros H Hp Hlen l x E. apply lookup_app_Some in E as [E|[Hge E]].
  - destruct (iv_lease _ _ _ H l x E). split; cfields; try done. by rewrite Hlen.
  - apply list_lookup_singleton_Some in E as [E0 <-]. destruct (fresh_lease _ _ _ l H Hge). split; cfields; try done. rewrite Hlen. by eapply lookup_lt_Some.
Qed.
Lemma threads_grow c t x : thread_ok c t -> thread_ok (set_leaseHeap (c_leaseHeap c ++ [x]) c) t.
Proof.
  destruct t as [| | | | | |l program| | |ph]; simpl; rewrite ?length_app; try done; try lia.
  intros (y & e & E & ? & ?). exists y, e. split_and!; try done. by apply lookup_app_l_Some.
Qed.

Definition region_ok {A} (c : Cache) (ths : list thread) (w : World) (m : M Cache A) (k : A -> thread) : Prop :=
  exists c' x, m c = (c', Ok x) /\ inv c' (k x :: ths) w.

Lemma unreleased_on p : unreleased (lease_on p) = 1.
Proof. done. Qed.
Lemma pins_on p q : pins p (lease_on q) = hits p q.
Proof. done. Qed.

(** A hit. *)
Lemma inv_hit c key spec ths w p e stats : inv c (TBegun key spec :: ths) w -> c_entryHeap c !! p = Some e -> p ∈ c_lru c ->
  inv (set_leaseHeap (c_leaseHeap c ++ [lease_on p]) (set_stats stats (set_table (c_entries c) (move_to_front p (c_lru c)) (c_currentWeight c)
        (set_entryHeap (<[p := set_refs (e_refs e + 1) e]> (c_entryHeap c)) c)))) (TDone :: ths) w.
Proof.
  intros H Hp Hin. pose proof (shape_insert _ _ _ (e_refs e + 1) Hp) as Hs.
  destruct (shape_inv _ _ _ _ H Hs) as (S1 & S2 & S3 & S4 & S5 & S6). pose proof (move_to_front_Permutation p _ (iv_lru_unique _ _ _ H) Hin) as Hperm.
  pose proof (leases_grow _ _ _ _ _ _ H Hp S5) as Hgrow. cinv H. split; cfields; try done; try by rewrite ?Hperm.
  - rewrite Hact, tally_snoc, unreleased_on. simpl. lia.
  - intros f x E. destruct (Hfl f x E) as [F1 F2 F3 F4]. split; cfields; try done. intros Hr. destruct (F4 Hr). split; [done|]. by eapply made_mono.
  - intros q e' E. apply list_lookup_insert_Some in E as [(<- & <- & _)|(Hne & E)].
    + destruct (Hen p e Hp) as [(f & x & E1 & E2 & E3) _]. split; cfields; [|by rewrite Hperm]. exists f, x. split_and!; try done.
      rewrite tally_snoc, pins_on, hits_same. cbn [e_refs set_refs]. simpl in *. lia.
    + destruct (Hen q e' E) as [(f & x & E1 & E2 & E3) E4]. split; cfields; [|by rewrite Hperm]. exists f, x. split_and!; try done.
      rewrite tally_snoc, pins_on, hits_other by done. simpl in *. lia.
  - intros k q E. by apply S2, Hky.
  - intros x. rewrite Hperm, S4. apply Hpr.
  - intros x Hx. rewrite Hperm, S4. by apply Hcl.
  - intros l x E. destruct (Hgrow l x E) as [L1 L2 L3 L4 L5]. cfields. by split.
  - intros Hr. destruct (Hde Hr) as [E _]. rewrite E in Hin. by apply not_elem_of_nil in Hin.
  - intros t Ht. apply elem_of_cons in Ht as [->|Ht]; [done|]. specialize (Hth t). rewrite elem_of_cons in Hth. specialize (Hth (or_intror Ht)).
    apply S6 in Hth. apply (threads_grow _ _ (lease_on p)) in Hth. destruct t as [| | | | | | | | |[]]; exact Hth.
Qed.

(** The last step of a caller whose flight succeeded. *)
Lemma inv_collect c f coalesced ths w x p : inv c (TAwait f coalesced :: ths) w -> c_flightHeap c !! f = Some x -> f_finished x = true -> f_entry x = Some p ->
  inv (set_leaseHeap (c_leaseHeap c ++ [lease_on p]) c) (TDone :: ths) w.
Proof.
  intros H Hf Hfin Hp. destruct (fk_finished _ _ _ _ (iv_flight _ _ _ H f x Hf) Hfin) as [_ Hent]. unfold made in Hent. rewrite Hp in Hent. destruct Hent as (_ & e & He & _). pose proof (leases_grow _ _ _ _ _ _ H He eq_refl) as Hgrow.
  cinv H. split; cfields; try done.
  - rewrite Hact, tally_snoc, unreleased_on. simpl. lia.
  - intros f' x' E. destruct (Hfl f' x' E) as [F1 F2 F3 F4]. split; cfields; try done.
    + intros Hr. assert (f <> f') as Hne by (intros ->; congruence). destruct (F3 Hr) as (? & ? & ?). split_and!; try done. simpl in *. by rewrite hits_other in *.
    + intros Hr. destruct (F4 Hr) as [F5 ?]. split; [|done]. simpl in F5. pose proof (hits_nonneg f' f). simpl. lia.
  - intros q e' E. destruct (Hen q e' E) as [(f' & x' & E1 & E2 & E3) E4]. split; cfields; [|done]. exists f', x'. split_and!; try done.
    rewrite tally_snoc, pins_on. simpl in *. destruct (decide (f' = f)) as [->|Hne].
    + assert (q = p) as -> by congruence. rewrite hits_same in *. lia.
    + rewrite hits_other in E3 by done. rewrite hits_other; [lia|]. intros ->. apply Hne. by apply (Hmk f' f x' x p).
  - intros l y E. destruct (Hgrow l y E) as [L1 L2 L3 L4 L5]. cfields. by split.
  - intros t Ht. apply elem_of_cons in Ht as [->|Ht]; [done|]. apply threads_grow, Hth, elem_of_cons. by right.
Qed.

(** ** Callers of a flight *)

(** Flights up to their waiters and their contexts. *)
Definition outline (heap : list flight) : list (Key * nat * bool * option nat * option error) :=
  (fun x => (f_key x, f_done x, f_finished x, f_entry x, f_err x)) <$> heap.
Lemma outline_lookup heap heap' f x : outline heap' = outline heap -> heap' !! f = Some x -> exists x', heap !! f = Some x' /\
  f_key x' = f_key x /\ f_done x' = f_done x /\ f_finished x' = f_finished x /\ f_entry x' = f_entry x /\ f_err x' = f_err x.
Proof.
  intros H E. apply (f_equal (lookup f)) in H. unfold outline in H. rewrite !list_lookup_fmap, E in H. destruct (heap !! f) as [x'|]; [|done]. exists x'.
  simpl in H. by injection H.
Qed.
Lemma outline_done heap heap' : outline heap' = outline heap -> f_done <$> heap' = f_done <$> heap.
Proof. intros H. apply (f_equal (fmap (fun y => y.1.1.1.2))) in H. unfold outline in H. by rewrite <-!list_fmap_compose in H. Qed.
Lemma outline_length heap heap' : outline heap' = outline heap -> length heap' = length heap.
Proof. intros H. apply (f_equal length) in H. unfold outline in H. by rewrite !length_fmap in H. Qed.
Lemma outline_insert heap f x x' : heap !! f = Some x ->
  (f_key x', f_done x', f_finished x', f_entry x', f_err x') = (f_key x, f_done x, f_finished x, f_entry x, f_err x) ->
  outline (<[f := x']> heap) = outline heap.
Proof. intros E H. unfold outline. rewrite list_fmap_insert. apply list_insert_id. by rewrite list_lookup_fmap, E, H. Qed.

(** Goroutines that differ at most in the flight that they wait for. *)
Record akin (t t' : thread) : Prop := {
  ak_holds : holds t' = holds t;
  ak_flying : forall f, flying f t' = flying f t;
  ak_loads : loads t' = loads t;
  ak_queues : queues t' = queues t;
  ak_invoking : forall l, invoking l t' = invoking l t;
  ak_locking : forall l, locking l t' = locking l t;
  ak_frees : frees t' = frees t;
  ak_doomed : forall x, doomed x t' = doomed x t;
}.

Lemma outline_thread c heap t : outline heap = outline (c_flightHeap c) -> thread_ok c t -> thread_ok (set_flightHeap heap c) t.
Proof.
  intros H. destruct t as [| |f|f| |f key spec ph| | | |[]]; simpl; rewrite ?(outline_length _ _ H); try done.
  intros (? & x & E & <-). split; [done|]. destruct (outline_lookup _ _ _ _ (eq_sym H) E) as (x' & ? & ? & _). by exists x'.
Qed.

Lemma pins_nonneg p l : 0 <= pins p l.
Proof. unfold pins. case_match; [done|]. apply hits_nonneg. Qed.
Lemma waits_nonneg f t : 0 <= waits f t.
Proof. destruct t; simpl; try done; apply hits_nonneg. Qed.

Lemma inv_waiters c t t' ths w heap eheap stats : inv c (t :: ths) w -> outline heap = outline (c_flightHeap c) -> shape eheap = shape (c_entryHeap c) ->
  akin t t' -> thread_ok c t' ->
  (forall f x x', c_flightHeap c !! f = Some x -> heap !! f = Some x' ->
     if f_finished x then waits f t' - waits f t <= f_waiters x' - f_waiters x else f_waiters x' - f_waiters x = waits f t' - waits f t) ->
  (forall p e e' f x, c_entryHeap c !! p = Some e -> eheap !! p = Some e' -> c_flightHeap c !! f = Some x -> f_entry x = Some p ->
     e_refs e' - e_refs e = waits f t' - waits f t /\ waits f t' <= waits f t) ->
  inv (set_stats stats (set_flightHeap heap (set_entryHeap eheap c))) (t' :: ths) w.
Proof.
  intros H Ho Hs [A1 A3 A4 A5 A6 A7 A8 A9] Hok Hwait Hrefs. destruct (shape_inv _ _ _ _ H Hs) as (S1 & S2 & S3 & S4 & S5 & S6).
  cinv H. simpl in *. split; cfields; simpl; rewrite ?A1, ?A4, ?A5, ?A8; try done.
  - unfold owned_channels in *. cfields. by rewrite (outline_done _ _ Ho).
  - intros f x' E'. destruct (outline_lookup _ _ _ _ Ho E') as (x & E & O1 & O2 & O3 & O4 & O5). specialize (Hwait f x x' E E').
    destruct (Hfl f x E) as [F1 F2 F3 F4]. simpl in *. split; cfields; simpl; rewrite <-?O1, <-?O2, <-?O3, <-?O4, <-?O5, ?A3; try done; intros Hfin; rewrite Hfin in Hwait.
    + destruct (F3 Hfin) as (? & ? & ?). split_and!; try done. lia.
    + destruct (F4 Hfin) as [? Hent]. split; [lia|]. apply (made_mono _ _ _ S2) in Hent. unfold made in *. by rewrite <-O1, <-O4, <-O5.
  - intros k f E. destruct (Hfs k f E) as [(x & E1 & E2 & E3) E4]. split; [|done]. destruct (outline_lookup _ _ _ _ (eq_sym Ho) E1) as (x' & ? & ? & _ & ? & _).
    exists x'. split_and!; congruence.
  - intros f f' x x' p E E' Hp Hp'. destruct (outline_lookup _ _ _ _ Ho E) as (y & ? & _ & _ & _ & ? & _).
    destruct (outline_lookup _ _ _ _ Ho E') as (y' & ? & _ & _ & _ & ? & _). apply (Hmk f f' y y' p); congruence.
  - intros p e' E'. destruct (shape_lookup _ _ _ _ Hs E') as (e & E & _). destruct (Hen p e E) as [(f & x & E1 & E2 & E3) E4].
    destruct (Hrefs p e e' f x E E' E1 E2) as [R1 R2]. destruct (outline_lookup _ _ _ _ (eq_sym Ho) E1) as (x' & ? & _ & _ & _ & ? & _).
    simpl in *. split; cfields.
    + exists f, x'. split_and!; try congruence. simpl. lia.
    + intros Hnin. specialize (E4 Hnin). pose proof (tally_nonneg _ (pins_nonneg p) (c_leaseHeap c)). pose proof (tally_nonneg _ (waits_nonneg f) ths).
      pose proof (waits_nonneg f t'). lia.
  - intros k q E. by apply S2, Hky.
  - intros x. rewrite A9, S4. apply Hpr.
  - intros x Hx. rewrite S4. by apply Hcl.
  - intros l x E. destruct (Hle l x E) as [L1 L2 L3 L4 L5]. simpl in *. split; cfields; simpl; rewrite ?A6, ?A7, ?S5; done.
  - intros Hr y. rewrite A9. by apply Hem.
  - intros t0 Ht0. assert (thread_ok c t0) as H0 by (apply elem_of_cons in Ht0 as [->|Ht0]; [done|]; apply Hth, elem_of_cons; by right).
    apply S6 in H0. apply (outline_thread _ heap) in H0; [|done]. destruct t0 as [| | | | | | | | |[]]; exact H0.
Qed.

Lemma same_cache c : set_stats (c_stats c) (set_flightHeap (c_flightHeap c) (set_entryHeap (c_entryHeap c) c)) = c.
Proof. by destruct c. Qed.

(** A caller joins a running flight. *)
Lemma inv_join c key spec ths w f x stats : inv c (TBegun key spec :: ths) w -> c_flightHeap c !! f = Some x -> f_finished x = false ->
  inv (set_stats stats (set_flightHeap (<[f := set_waiters (f_waiters x + 1) x]> (c_flightHeap c)) c)) (TAwait f true :: ths) w.
Proof.
  intros H Hf Hrun. pose proof (iv_flight _ _ _ H f x Hf) as [_ _ F3 _].
  apply (inv_waiters c (TBegun key spec) (TAwait f true) ths w _ (c_entryHeap c) stats H); try done.
  - by apply (outline_insert _ _ x).
  - simpl. by eapply lookup_lt_Some.
  - simpl. intros f' y y' E E'. apply list_lookup_insert_Some in E' as [(-> & <- & _)|(Hne & E')].
    + simplify_eq. rewrite Hrun, hits_same. simpl. lia.
    + simplify_eq. rewrite hits_other by done. case_match; lia.
  - simpl. intros p e e' f' y E E' Ef Hp. simplify_eq. destruct (decide (f' = f)) as [->|Hne].
    + simplify_eq. destruct (F3 Hrun) as (_ & ? & _). congruence.
    + rewrite hits_other by done. lia.
Qed.

(** A caller learns that its flight failed. *)
Lemma inv_leave c f coalesced ths w x : inv c (TAwait f coalesced :: ths) w -> c_flightHeap c !! f = Some x -> f_finished x = true -> f_entry x = None ->
  inv c (TEnd :: ths) w.
Proof.
  intros H Hf Hfin Hnone. rewrite <-(same_cache c). apply (inv_waiters c (TAwait f coalesced)); try done; simpl.
  - intros f' y y' E E'. simplify_eq. pose proof (hits_nonneg f' f). case_match; [lia|]. rewrite hits_other; [lia|]. intros ->. congruence.
  - intros p e e' f' y E E' Ef Hp. simplify_eq. pose proof (hits_nonneg f' f). rewrite hits_other; [lia|]. intros ->. congruence.
Qed.

Lemma waiters_pos c t ths w f x : inv c (t :: ths) w -> c_flightHeap c !! f = Some x -> waits f t = 1 -> 1 <= f_waiters x.
Proof.
  intros H Hf Ht. destruct (iv_flight _ _ _ H f x Hf) as [_ _ F3 F4]. pose proof (tally_nonneg _ (waits_nonneg f) ths). simpl in *.
  destruct (f_finished x); [destruct (F4 eq_refl)|destruct (F3 eq_refl) as (_ & _ & ?)]; lia.
Qed.

(** [abandonFlight] *)
Definition left_flight (x : flight) : flight :=
  if negb (f_finished x) && (f_waiters x - 1 =? 0) then cancel_flight (set_waiters (f_waiters x - 1) x) else set_waiters (f_waiters x - 1) x.
Lemma inv_abandon c f ths w x eheap : inv c (TAbandon f :: ths) w -> c_flightHeap c !! f = Some x -> shape eheap = shape (c_entryHeap c) ->
  (forall p e e', c_entryHeap c !! p = Some e -> eheap !! p = Some e' -> e_refs e' = e_refs e - b2z (bool_decide (f_entry x = Some p))) ->
  inv (set_flightHeap (<[f := left_flight x]> (c_flightHeap c)) (set_entryHeap eheap c)) (TEnd :: ths) w.
Proof.
  intros H Hf Hs Hrefs. pose proof (iv_maker _ _ _ H) as Hmk.
  apply (inv_waiters c (TAbandon f) TEnd ths w (<[f := left_flight x]> (c_flightHeap c)) eheap (c_stats c) H); try done; simpl.
  - apply (outline_insert _ _ x); [done|]. unfold left_flight. by destruct (_ && _).
  - intros f' y y' E E'. apply list_lookup_insert_Some in E' as [(-> & <- & _)|(Hne & E')].
    + simplify_eq. rewrite hits_same. unfold left_flight. destruct (_ && _), (f_finished x); simpl; lia.
    + simplify_eq. rewrite hits_other by done. case_match; lia.
  - intros p e e' f' y E E' Ef Hp. rewrite (Hrefs p e e') by done. pose proof (hits_nonneg f' f). destruct (decide (f' = f)) as [->|Hne].
    + simplify_eq. rewrite hits_same, bool_decide_true by done. simpl. lia.
    + rewrite hits_other by done. rewrite bool_decide_false; [simpl; lia|]. intros Hx. apply Hne. by apply (Hmk f' f y x p).
Qed.

Lemma abandonFlight_ok c f ths w : inv c (TAbandon f :: ths) w -> region_ok c ths w (abandonFlight f) (fun _ => TEnd).
Proof.
  intros H. pose proof (cinv_head _ _ _ _ H) as Hlt. simpl in Hlt. apply lookup_lt_is_Some in Hlt as [x Hf].
  pose proof (waiters_pos _ _ _ _ _ _ H Hf (hits_same f)) as Hpos. destruct (iv_flight _ _ _ H f x Hf) as [_ _ F3 F4].
  pose proof (lookup_lt_Some _ _ _ Hf) as Hlt.
  unfold region_ok, abandonFlight, get_flight, put_flight, sbind, sget, sput. rewrite Hf. unfold sret at 1.
  destruct (f_waiters x =? 0) eqn:Hz; go_cases; [lia|]. cfields.
  destruct (f_finished x) eqn:Hfin.
  - destruct (F4 eq_refl) as [_ Hent]. unfold made in Hent. assert (left_flight x = set_waiters (f_waiters x - 1) x) as Hleft by (unfold left_flight; by rewrite Hfin).
    destruct (f_entry x) as [p|] eqn:Hp; simpl negb; cbn [andb].
    + destruct Hent as (_ & e & He & _). unfold get_entry, put_entry, sbind, sget, sput. cfields. rewrite He. eexists _, _. split; [reflexivity|].
      rewrite <-Hleft. apply (inv_abandon c f ths w x (<[p := set_refs (e_refs e - 1) e]> (c_entryHeap c)) H Hf); [by apply shape_insert|].
      intros q e0 e' E0 E'. rewrite Hp. apply list_lookup_insert_Some in E' as [(<- & <- & _)|(Hne & E')]; simplify_eq.
      * by rewrite bool_decide_true.
      * rewrite bool_decide_false by congruence. simpl. lia.
    + eexists _, _. split; [reflexivity|]. rewrite <-Hleft. cfields. replace c with (set_entryHeap (c_entryHeap c) c) at 2 by (by destruct c).
      apply inv_abandon; try done. intros. simplify_eq. rewrite Hp. simpl. lia.
  - destruct (F3 eq_refl) as (_ & Hp & _). rewrite Hp. simpl negb. cbn [andb].
    assert (inv (set_flightHeap (<[f := left_flight x]> (c_flightHeap c)) c) (TEnd :: ths) w) as Hdone.
    { replace c with (set_entryHeap (c_entryHeap c) c) at 2 by (by destruct c). apply inv_abandon; try done. intros. simplify_eq. rewrite Hp. simpl. lia. }
    unfold left_flight in Hdone. rewrite Hfin in Hdone. simpl negb in Hdone. cbn [andb] in Hdone. destruct (f_waiters x - 1 =? 0) eqn:Hz'.
    + cbn [negb andb]. unfold get_flight, sbind, sget, sret at 1. cfields. rewrite list_lookup_insert_eq by done. unfold sret. cfields. rewrite list_insert_insert_eq.
      eexists _, _. split; [reflexivity|]. exact Hdone.
    + eexists _, _. split; [reflexivity|]. exact Hdone.
Qed.

(** ** Flights *)
Lemma fresh_flight c ths w f : inv c ths w -> (length (c_flightHeap c) <= f)%nat -> tally (waits f) ths = 0 /\ tally (flying f) ths = 0.
Proof.
  intros H Hl. cinv H. split; apply tally_fresh; intros t Ht; specialize (Hth t Ht).
  - destruct t as [| |f'|f'| | | | | |]; simpl in *; try done; apply hits_other; intros ->; lia.
  - destruct t as [| | | | |f' key spec ph| | | |]; simpl in *; try done. destruct Hth as (_ & x & E & _). apply lookup_lt_Some in E.
    destruct ph; try done; apply hits_other; intros ->; lia.
Qed.

Definition new_flight (key : Key) (ch : nat) : flight :=
  {| f_key := key; f_done := ch; f_cancelled := false; f_waiters := 1; f_finished := false; f_entry := None; f_result := zero_result key false; f_err := None |}.
Definition reserved (r : reservation) : load_phase := match r with ReservedActive => LLoad | ReservedQueued => LWait end.

Lemma inv_fly c key spec ths w stats gate r : inv c (TBegun key spec :: ths) w -> c_closing c = false ->
  c_entries c !! key = None -> c_flights c !! key = None -> reserve (c_loadGate c) = Ok (gate, r) ->
  inv (set_active (c_active c + 1) (c_drained c) (set_gate gate (set_flights (<[key := length (c_flightHeap c)]> (c_flights c))
    (set_flightHeap (c_flightHeap c ++ [new_flight key (length (c_channels c))]) (set_channels (c_channels c ++ [false]) (set_stats stats c))))))
    (TFlight (length (c_flightHeap c)) key spec (reserved r) :: TAwait (length (c_flightHeap c)) false :: ths) w.
Proof.
  intros H Hcl0 Hnone Hnof Hr. pose proof (active_pos _ _ _ _ H eq_refl) as Hpos. destruct (fresh_flight _ _ _ _ H (le_n _)) as [Hw0 Hf0].
  pose proof (cinv_head _ _ _ _ H) as Hmatch. pose proof (owned_lt _ _ _ (length (c_channels c)) H) as Hlt.
  assert (forall f, flying f (TFlight (length (c_flightHeap c)) key spec (reserved r)) = hits f (length (c_flightHeap c))) as Hfly by (by destruct r).
  cinv H. split; cfields; try done; try by ckeep.
  - simpl in *. lia.
  - apply lookup_app_l_Some. rewrite Hdr. by rewrite !(proj2 (Z.eqb_neq _ 0)) by lia.
  - unfold owned_channels in *. cfields. rewrite fmap_app, app_assoc. simpl. rewrite app_comm_cons. apply NoDup_app. split_and!; [done| |apply NoDup_singleton].
    intros ch Hch ->%list_elem_of_singleton. specialize (Hlt Hch). lia.
  - intros f x E. apply lookup_app_Some in E as [E|[Hge E]].
    + destruct (Hfl f x E) as [F1 F2 F3 F4]. assert (f <> length (c_flightHeap c)) as Hne by (apply lookup_lt_Some in E; lia). simpl in F2, F3, F4.
      split; cfields; cbn [tally foldr waits]; fold (tally (waits f) ths); rewrite ?Hfly, ?hits_other by done; try done.
      * by apply lookup_app_l_Some.
      * intros Hrun. destruct (F3 Hrun) as (E1 & ? & ?). split_and!; try done. rewrite lookup_insert_ne; [done|]. congruence.
    + apply list_lookup_singleton_Some in E as [E0 <-]. assert (f = length (c_flightHeap c)) as -> by lia.
      split; cfields; cbn [f_done f_finished f_key f_entry f_waiters new_flight]; try done.
      * by rewrite lookup_app_r, Nat.sub_diag by done.
      * simpl in *. rewrite Hfly, hits_same. simpl. lia.
      * intros _. rewrite lookup_insert_eq. split_and!; try done. simpl in *. rewrite hits_same. lia.
  - intros k f E. apply lookup_insert_Some in E as [(<- & <-)|(Hne & E)].
    + split; [|done]. exists (new_flight key (length (c_channels c))). rewrite lookup_app_r, Nat.sub_diag by done. done.
    + destruct (Hfs k f E) as [(x & E1 & ? & ?) ?]. split; [|done]. exists x. split_and!; try done. by apply lookup_app_l_Some.
  - intros f f' x x' p E E' Hp Hp'. apply lookup_app_Some in E as [E|[_ E]]; [|apply list_lookup_singleton_Some in E as [_ <-]; done].
    apply lookup_app_Some in E' as [E'|[_ E']]; [|apply list_lookup_singleton_Some in E' as [_ <-]; done]. by apply (Hmk f f' x x' p).
  - intros p e E. destruct (Hen p e E) as [(f & x & E1 & E2 & E3) E4]. split; cfields; [|done]. exists f, x. split_and!; try done.
    + by apply lookup_app_l_Some.
    + assert (f <> length (c_flightHeap c)) as Hne by (apply lookup_lt_Some in E1; lia). simpl in *. rewrite hits_other by done. lia.
  - intros x. specialize (Hpr x). destruct r; simpl in *; lia.
  - unfold reserve in Hr. destruct (lg_active (c_loadGate c) <? _) eqn:Ha; [|destruct (lg_queued (c_loadGate c) <? _) eqn:Hq; [|done]];
      simplify_eq; go_cases; unfold reserved; simpl in *; lia.
  - intros Hrel. apply lookup_app_l_Some. by apply Hrd.
  - intros Hrel. destruct (Hrl Hrel). congruence.
  - intros Hrel. destruct (Hrl (or_intror Hrel)). congruence.
  - intros t [->|Ht]%elem_of_cons.
    { simpl. split; [done|]. eexists. rewrite lookup_app_r, Nat.sub_diag by done. done. }
    apply elem_of_cons in Ht as [->|Ht]; [simpl; rewrite length_app; simpl; lia|].
    assert (thread_ok c t) as H0 by (apply Hth, elem_of_cons; by right). pose proof (open_drainless c t Hcl0 H0) as Hd.
    destruct t as [| |f|f| |f ? ? ?| | | |[]]; simpl in *; try done; rewrite ?length_app; try lia.
    destruct H0 as (? & x & ? & ?). split; [done|]. exists x. split; [|done]. by apply lookup_app_l_Some.
Qed.

Lemma inv_stats c t ths w stats : inv c (t :: ths) w -> inv (set_stats stats c) (t :: ths) w.
Proof.
  intros H. assert (inv (set_stats stats (set_flightHeap (c_flightHeap c) (set_entryHeap (c_entryHeap c) c))) (t :: ths) w) as H'; [|by destruct c].
  apply (inv_waiters c t); try done; [by eapply cinv_head| |]; intros; simplify_eq; [case_match|]; lia.
Qed.

Definition after_lookup (key : Key) (spec : ModuleSpec) (r : lookup_outcome) : list thread :=
  match r with
  | Refuses _ => [TEnd]
  | Hit _ => [TDone]
  | Joins f => [TAwait f true]
  | Starts f r => [TFlight f key spec (reserved r); TAwait f false]
  end.
Lemma acquire_lookup_ok c key spec ths w : inv c (TBegun key spec :: ths) w ->
  exists c' r, acquire_lookup key c = (c', Ok r) /\ inv c' (after_lookup key spec r ++ ths) w.
Proof.
  intros H. pose proof (active_pos _ _ _ _ H eq_refl) as Hpos.
  assert (inv c (TEnd :: ths) w) as Hrefuse by (by apply (inv_swap c (TBegun key spec))).
  unfold acquire_lookup, count, sbind, sget, sput. destruct (c_closing c) eqn:Hcl; [by eexists _, _|].
  destruct (c_entries c !! key) as [p|] eqn:Hp.
  - destruct (iv_key _ _ _ H key p Hp) as (e & He & _). unfold get_entry, put_entry, new_lease, sbind, sget, sput. rewrite He. cfields.
    eexists _, _. split; [reflexivity|]. apply (inv_hit c key spec ths w p e); [done..|].
    rewrite (iv_lru _ _ _ H). apply list_elem_of_fmap. exists (key, p). split; [done|]. by apply elem_of_map_to_list.
  - destruct (c_flights c !! key) as [f|] eqn:Hf.
    + destruct (iv_flights _ _ _ H key f Hf) as [(x & Hx & _ & Hrun) _]. unfold get_flight, put_flight, sbind, sget, sput. rewrite Hx. cfields.
      eexists _, _. split; [reflexivity|]. by apply (inv_join c key spec).
    + destruct (reserve (c_loadGate c)) as [[gate r]|err] eqn:Hr.
      * unfold make_channel, sbind, sget, sput, sret at 1. rewrite startLocked_run. cfields. eexists _, _. split; [reflexivity|].
        unfold started. cfields. rewrite (proj2 (Z.eqb_neq _ 0)) by lia. apply (inv_fly c key spec ths w _ gate r); done.
      * eexists _, _. split; [reflexivity|]. apply (inv_stats c), Hrefuse.
Qed.

Lemma collect_ok c f coalesced ths w x : inv c (TAwait f coalesced :: ths) w -> c_flightHeap c !! f = Some x -> f_finished x = true ->
  region_ok c ths w (collect f coalesced) (fun r => match snd r with inl _ => TDone | inr _ => TEnd end).
Proof.
  intros H Hf Hfin. destruct (fk_finished _ _ _ _ (iv_flight _ _ _ H f x Hf) Hfin) as [_ Hent]. unfold made in Hent.
  unfold region_ok, collect, get_flight, sbind, sget. rewrite Hf. unfold sret at 1. destruct (f_entry x) as [p|] eqn:Hp.
  - destruct Hent as [-> _]. eexists _, _. split; [reflexivity|]. by apply (inv_collect c f coalesced ths w x).
  - destruct (f_err x) as [err|]; [|done]. eexists _, _. split; [reflexivity|]. by apply (inv_leave c f coalesced ths w x).
Qed.

(** ** The gate *)
Lemma cinv_gate c t t' ths w a q : inv c (t :: ths) w -> loads t' = loads t + a -> queues t' = queues t + q ->
  (a <= 0 \/ lg_active (c_loadGate c) + a <= lg_maxActive (c_loadGate c)) -> q <= 0 ->
  holds t' = holds t -> (forall f, waits f t' = waits f t) -> (forall f, flying f t' = flying f t) -> (forall l, invoking l t' = invoking l t) ->
  (forall l, locking l t' = locking l t) -> frees t' = frees t -> (forall x, doomed x t' = doomed x t) -> thread_ok c t' ->
  inv (set_gate (move (c_loadGate c) a q) c) (t' :: ths) w.
Proof.
  intros H Ha Hq Hba Hbq A1 A2 A3 A6 A7 A8 A9 Hok. cinv H. simpl in *. split; cfields; simpl; rewrite ?A1, ?A8; try done.
  - intros f x E. destruct (Hfl f x E) as [F1 F2 F3 F4]. simpl in *. split; cfields; simpl; rewrite ?A2, ?A3; done.
  - intros p e E. destruct (Hen p e E) as [(f & x & E1 & E2 & E3) ?]. simpl in *. split; [|done]. exists f, x. simpl. by rewrite A2.
  - intros x. rewrite A9. apply Hpr.
  - intros l x E. destruct (Hle l x E) as [L1 L2 L3 L4 L5]. simpl in *. split; cfields; simpl; rewrite ?A6, ?A7; done.
  - lia.
  - intros Hr y. rewrite A9. by apply Hem.
  - intros t0 Ht0. assert (thread_ok c t0) as H0 by (apply elem_of_cons in Ht0 as [->|Ht0]; [done|]; apply Hth, elem_of_cons; by right).
    destruct t0 as [| | | | | | | | |[]]; exact H0.
Qed.

(** ** Invocations and releases *)
Definition running_once (o : once) : Z := match o with OnceRunning => 1 | _ => 0 end.
Lemma inv_lease_at c t t' ths w l x x' eheap : inv c (t :: ths) w -> c_leaseHeap c !! l = Some x -> l_entry x' = l_entry x ->
  shape eheap = shape (c_entryHeap c) -> thread_ok c t' ->
  holds t' + unreleased x' = holds t + unreleased x -> (forall f, waits f t' = waits f t) -> (forall f, flying f t' = flying f t) ->
  loads t' = loads t -> queues t' = queues t -> frees t' = frees t -> (forall y, doomed y t' = doomed y t) ->
  (forall l', l' <> l -> invoking l' t' = invoking l' t /\ locking l' t' = locking l' t) ->
  l_readers x' - l_readers x = invoking l t' - invoking l t -> running_once (l_once x') - running_once (l_once x) = locking l t' - locking l t ->
  l_released x' = match l_once x' with OnceDone => true | _ => false end -> (l_released x' = true -> l_readers x' = 0) ->
  (forall p e e', c_entryHeap c !! p = Some e -> eheap !! p = Some e' -> e_refs e' - e_refs e = pins p x' - pins p x /\ pins p x' <= pins p x) ->
  inv (set_leaseHeap (<[l := x']> (c_leaseHeap c)) (set_entryHeap eheap c)) (t' :: ths) w.
Proof.
  intros H Hl Hsame Hs Hok A1 A2 A3 A4 A5 A8 A9 Ho Hrd' Hrun Hrel' Hq Hrefs. destruct (shape_inv _ _ _ _ H Hs) as (S1 & S2 & S3 & S4 & S5 & S6).
  cinv H. simpl in *. split; cfields; simpl; rewrite ?A4, ?A5, ?A8; try done.
  - rewrite (tally_insert _ _ _ _ _ Hl). lia.
  - intros f y E. destruct (Hfl f y E) as [F1 F2 F3 F4]. simpl in *. split; cfields; simpl; rewrite ?A2, ?A3; try done.
    intros Hr. destruct (F4 Hr). split; [done|]. by eapply made_mono.
  - intros p e' E'. destruct (shape_lookup _ _ _ _ Hs E') as (e & E & _). destruct (Hen p e E) as [(f & y & E1 & E2 & E3) E4].
    destruct (Hrefs p e e' E E') as [R1 R2]. simpl in *. split; cfields.
    + exists f, y. split_and!; try done. simpl. rewrite A2, (tally_insert _ _ _ _ _ Hl). lia.
    + intros Hnin. specialize (E4 Hnin). pose proof (tally_nonneg _ (pins_nonneg p) (<[l := x']> (c_leaseHeap c))) as Hn. rewrite (tally_insert _ _ _ _ _ Hl) in Hn.
      pose proof (tally_nonneg _ (waits_nonneg f) ths). pose proof (waits_nonneg f t). lia.
  - intros k q E. by apply S2, Hky.
  - intros y. rewrite A9, S4. apply Hpr.
  - intros y Hy. rewrite S4. by apply Hcl.
  - intros l' y E. apply list_lookup_insert_Some in E as [(<- & <- & _)|(Hne & E)].
    + destruct (Hle l x Hl) as [L1 L2 L3 L4 L5]. unfold running_once in Hrun. simpl in *. split; cfields; simpl; rewrite ?Hsame, ?S5; try done; lia.
    + destruct (Hle l' y E) as [L1 L2 L3 L4 L5]. destruct (Ho l') as [O1 O2]; [done|]. simpl in *. split; cfields; simpl; rewrite ?O1, ?O2, ?S5; done.
  - intros Hr y. rewrite A9. by apply Hem.
  - intros t0 Ht0. assert (thread_ok c t0) as H0 by (apply elem_of_cons in Ht0 as [->|Ht0]; [done|]; apply Hth, elem_of_cons; by right).
    apply S6 in H0. destruct t0 as [| | | | | |l' program| | |[]]; simpl in *; rewrite ?length_insert; try exact H0.
    destruct H0 as (y & e & E1 & E2 & E3). destruct (decide (l' = l)) as [->|Hne].
    + exists x', e. rewrite list_lookup_insert_eq by (by eapply lookup_lt_Some). simplify_eq. by rewrite Hsame.
    + exists y, e. by rewrite list_lookup_insert_ne.
Qed.

Lemma same_entries c : set_entryHeap (c_entryHeap c) c = c.
Proof. by destruct c. Qed.

(** A change of a lease that keeps its reference. *)
Lemma inv_lease_same c t t' ths w l x x' : inv c (t :: ths) w -> c_leaseHeap c !! l = Some x -> l_entry x' = l_entry x -> l_released x' = l_released x ->
  thread_ok c t' -> holds t' = holds t -> (forall f, waits f t' = waits f t) -> (forall f, flying f t' = flying f t) ->
  loads t' = loads t -> queues t' = queues t -> frees t' = frees t -> (forall y, doomed y t' = doomed y t) ->
  (forall l', l' <> l -> invoking l' t' = invoking l' t /\ locking l' t' = locking l' t) ->
  l_readers x' - l_readers x = invoking l t' - invoking l t -> running_once (l_once x') - running_once (l_once x) = locking l t' - locking l t ->
  l_released x' = match l_once x' with OnceDone => true | _ => false end -> (l_released x' = true -> l_readers x' = 0) ->
  inv (set_leaseHeap (<[l := x']> (c_leaseHeap c)) c) (t' :: ths) w.
Proof.
  intros. rewrite <-(same_entries c) at 2. eapply inv_lease_at; try done.
  - unfold unreleased. destruct (l_released x), (l_released x'); try done; lia.
  - intros p e e' E E'. simplify_eq. unfold pins. destruct (l_released x), (l_released x'); try done; try lia. rewrite H1. lia.
Qed.

Lemma lease_at c ths w l : inv c ths w -> (l < length (c_leaseHeap c))%nat -> exists x e, c_leaseHeap c !! l = Some x /\ c_entryHeap c !! l_entry x = Some e.
Proof.
  intros H [x Hx]%lookup_lt_is_Some. destruct (iv_lease _ _ _ H l x Hx) as [L1 _ _ _ _]. apply lookup_lt_is_Some in L1 as [e He]. eauto.
Qed.

Lemma invoke_begin_ok c l ths w : inv c ths w -> (l < length (c_leaseHeap c))%nat ->
  region_ok c ths w (invoke_begin l) (fun r => match r with Ok program => TInvoking l program | Err _ => TDone end).
Proof.
  intros H Hl. destruct (lease_at _ _ _ _ H Hl) as (x & e & Hx & He). destruct (iv_lease _ _ _ H l x Hx) as [L1 L2 L3 L4 L5].
  assert (inv c (TDone :: ths) w) as H' by (by apply inv_add).
  unfold region_ok, invoke_begin, get_lease, get_entry, put_lease, sbind, sget, sput. rewrite Hx. unfold sret at 1.
  destruct (l_released x) eqn:Hrel; [by eexists _, _|]. rewrite He. eexists _, _. split; [reflexivity|]. simpl.
  apply (inv_lease_same c TDone _ ths w l x); try done; simpl; try congruence.
  - by exists x, e.
  - intros l' Hne. by rewrite hits_other.
  - rewrite hits_same. lia.
  - lia.
Qed.
Lemma invoke_end_ok c l program ths w : inv c (TInvoking l program :: ths) w -> region_ok c ths w (invoke_end l) (fun _ => TDone).
Proof.
  intros H. destruct (cinv_head _ _ _ _ H) as (x & e & Hx & He & _). destruct (iv_lease _ _ _ H l x Hx) as [L1 L2 L3 L4 L5].
  unfold region_ok, invoke_end, get_lease, put_lease, sbind, sget, sput. rewrite Hx. unfold sret at 1. eexists _, _. split; [reflexivity|].
  apply (inv_lease_same c (TInvoking l program) _ ths w l x); try done; simpl.
  - intros l' Hne. by rewrite hits_other.
  - rewrite hits_same. lia.
  - lia.
  - intros Hrel. specialize (L5 Hrel). assert (0 <= tally (invoking l) ths). { apply tally_nonneg. intros []; simpl; try done. apply hits_nonneg. }
    simpl in L2. rewrite hits_same in L2. lia.
Qed.

(** [Release]: the first caller runs, the others wait for it. *)
Lemma inv_once c l ths w x : inv c (TRelease l :: ths) w -> c_leaseHeap c !! l = Some x -> l_once x = OnceNew ->
  inv (set_leaseHeap (<[l := set_lease (l_released x) OnceRunning (l_readers x) x]> (c_leaseHeap c)) c) (TLocking l :: ths) w.
Proof.
  intros H Hx Ho. destruct (iv_lease _ _ _ H l x Hx) as [L1 L2 L3 L4 L5]. rewrite Ho in L4.
  apply (inv_lease_same c (TRelease l) _ ths w l x); try done; simpl.
  - by eapply lookup_lt_Some.
  - intros l' Hne. by rewrite hits_other.
  - lia.
  - rewrite Ho, hits_same. done.
Qed.

Lemma release_locked_ok c l ths w x : inv c (TLocking l :: ths) w -> c_leaseHeap c !! l = Some x -> l_readers x = 0 ->
  region_ok c ths w (release_locked l) (fun _ => TDone).
Proof.
  intros H Hx Hz. destruct (iv_lease _ _ _ H l x Hx) as [L1 L2 L3 L4 L5]. apply lookup_lt_is_Some in L1 as [e He].
  assert (l_once x = OnceRunning) as Ho.
  { assert (0 <= tally (locking l) ths). { apply tally_nonneg. intros []; simpl; try done. apply hits_nonneg. }
    simpl in L3. rewrite hits_same in L3. destruct (l_once x); [lia|done|lia]. }
  rewrite Ho in L4. unfold region_ok, release_locked, get_lease, get_entry, put_lease, put_entry, sbind at 1 2 3 4 5 6, sget, sput. rewrite Hx.
  unfold sret at 1. cfields. unfold sbind at 1. cfields. rewrite He. unfold sret at 1. cfields. unfold sbind at 1.
  match goal with |- context [endLocked ?c'] => set (c1 := c') end.
  assert (inv c1 (TEnd :: ths) w) as H1.
  { apply (inv_lease_at c (TLocking l) TEnd ths w l x (set_lease true OnceDone (l_readers x) x) (<[l_entry x := set_refs (e_refs e - 1) e]> (c_entryHeap c))); try done; simpl.
    - by apply shape_insert.
    - unfold unreleased. rewrite L4. simpl. lia.
    - intros l' Hne. by rewrite hits_other.
    - lia.
    - rewrite Ho, hits_same. done.
    - intros p e0 e' E0 E'. unfold pins. rewrite L4. simpl. pose proof (hits_nonneg p (l_entry x)). split; [|done].
      apply list_lookup_insert_Some in E' as [(<- & <- & _)|(Hne & E')]; simplify_eq.
      + rewrite hits_same. simpl. lia.
      + rewrite hits_other by done. lia. }
  destruct (inv_end _ _ _ H1) as (c' & E & H'). eexists _, _. split; [exact E|exact H'].
Qed.

(** ** Victims *)

(** The unpinned entries, the least recently used first. *)
Definition unpinned (heap : list entry) (p : nat) : Prop := match heap !! p with Some e => e_refs e = 0 | None => False end.
#[global] Instance unpinned_dec heap p : Decision (unpinned heap p).
Proof. unfold unpinned. case_match; apply _. Defined.
Definition candidates (c : Cache) : list nat := filter (unpinned (c_entryHeap c)) (reverse (c_lru c)).

(** Room for [weight] after the eviction of [gone]. *)
Definition fits (c : Cache) (weight currentWeight entries : Z) (gone : list nat) : Prop :=
  currentWeight - tally (weighs (c_entryHeap c)) gone + weight <= c_maxWeightBytes c /\ entries - len gone + 1 <= c_maxEntries c.


Lemma select_loop_spec c weight back rw rn victims rw' rn' : (forall p, p ∈ back -> (p < length (c_entryHeap c))%nat) ->
  select_loop c weight back rw rn = (victims, rw', rn') ->
  exists n, (n <= length (filter (unpinned (c_entryHeap c)) back))%nat /\ victims.*1 = take n (filter (unpinned (c_entryHeap c)) back) /\
    rw' = rw - tally (weighs (c_entryHeap c)) victims.*1 /\ rn' = rn - len victims /\
    (forall m, (m < n)%nat -> ~ fits c weight rw rn (take m (filter (unpinned (c_entryHeap c)) back))) /\
    (n = length (filter (unpinned (c_entryHeap c)) back) \/ fits c weight rw rn (take n (filter (unpinned (c_entryHeap c)) back))).
Proof.
  revert rw rn victims rw' rn'. induction back as [|p back IH]; intros rw rn victims rw' rn' Hin; cbn [select_loop].
  { intros [= <- <- <-]. exists 0%nat. unfold len. cbn. split_and!; try done; try lia. }
  assert (exists e, c_entryHeap c !! p = Some e) as [e He] by (apply lookup_lt_is_Some, Hin; by left).
  assert (forall q, q ∈ back -> (q < length (c_entryHeap c))%nat) as Hin' by (intros q Hq; apply Hin; by right).
  destruct (negb _ && negb _) eqn:Hfit.
  { intros [= <- <- <-]. exists 0%nat. rewrite take_0. unfold fits, len. cbn. go_cases. split_and!; try done; try lia. }
  rewrite He. assert (weighs (c_entryHeap c) p = e_weight e) as Hwe by (unfold weighs; by rewrite He).
  assert (~ fits c weight rw rn []) as Hnot. { unfold fits, len. cbn. intros []. rewrite !Z.gtb_ltb, !(proj2 (Z.ltb_ge _ _)) in Hfit by lia. done. }
  rewrite filter_cons. destruct (decide (unpinned (c_entryHeap c) p)) as [Hu|Hu]; unfold unpinned in Hu; rewrite He in Hu.
  - rewrite Hu. cbn [negb Z.eqb]. destruct (select_loop c weight back _ _) as [[vs w1] n1] eqn:Hl. intros [= <- <- <-].
    destruct (IH _ _ _ _ _ Hin' Hl) as (n & Hn & Hvs & Hw & Hc & Hmin & Hend). exists (S n). unfold len in *. cbn. rewrite Hvs.
    assert (forall m, fits c weight rw rn (p :: take m (filter (unpinned (c_entryHeap c)) back)) <->
      fits c weight (rw - e_weight e) (rn - 1) (take m (filter (unpinned (c_entryHeap c)) back))) as Hshift.
    { intros m. unfold fits, len. rewrite tally_cons, Hwe, length_cons. split; intros []; lia. }
    split_and!; try done; try lia.
    + rewrite Hw, Hvs. fold (tally (weighs (c_entryHeap c)) (take n (filter (unpinned (c_entryHeap c)) back))). lia.
    + intros [|m] Hm; cbn; [done|]. rewrite Hshift. apply Hmin. lia.
    + destruct Hend as [->|Hend]; [by left|right]. by rewrite Hshift.
  - rewrite (proj2 (Z.eqb_neq _ _) Hu). cbn [negb]. intros Hl. by apply IH.
Qed.

Lemma candidates_spec c ths w p : inv c ths w -> p ∈ candidates c -> p ∈ c_lru c /\ exists e, c_entryHeap c !! p = Some e /\ e_refs e = 0.
Proof.
  intros H [Hu Hp]%list_elem_of_filter. rewrite elem_of_reverse in Hp. unfold unpinned in Hu. split; [done|]. case_match; [eauto|done].
Qed.
Lemma lru_entry c ths w p : inv c ths w -> p ∈ c_lru c -> exists e, c_entryHeap c !! p = Some e /\ c_entries c !! e_key e = Some p.
Proof.
  intros H Hp. rewrite (iv_lru _ _ _ H) in Hp. apply list_elem_of_fmap in Hp as ([k q] & -> & Hk%elem_of_map_to_list).
  destruct (iv_key _ _ _ H k q Hk) as (e & ? & <-). eauto.
Qed.

Lemma selectVictims_spec c ths w weight : inv c ths w ->
  match selectVictimsLocked c weight with
  | Ok victims => exists n, (n <= length (candidates c))%nat /\ victims.*1 = take n (candidates c) /\
      fits c weight (c_currentWeight c) (Z.of_nat (size (c_entries c))) victims.*1 /\
      forall m, (m < n)%nat -> ~ fits c weight (c_currentWeight c) (Z.of_nat (size (c_entries c))) (take m (candidates c))
  | Err err => err = SentinelError agent.ErrFull /\
      forall n, ~ fits c weight (c_currentWeight c) (Z.of_nat (size (c_entries c))) (take n (candidates c))
  end.
Proof.
  intros H. unfold selectVictimsLocked. destruct (select_loop _ _ _ _ _) as [[victims rw] rn] eqn:Hl.
  destruct (select_loop_spec _ _ _ _ _ _ _ _ (fun p Hp => match lru_entry _ _ _ p H (proj1 (elem_of_reverse _ _) Hp) with
    ex_intro _ e (conj He _) => lookup_lt_Some _ _ _ He end) Hl) as (n & Hn & Hvs & Hw & Hc & Hmin & Hend).
  fold (candidates c) in *. assert (len victims.*1 = len victims) as Hlen by (unfold len; by rewrite length_fmap).
  destruct (_ || _) eqn:Hfull.
  - split; [done|]. assert (~ fits c weight (c_currentWeight c) (Z.of_nat (size (c_entries c))) (take n (candidates c))) as Hnot.
    { rewrite <-Hvs. unfold fits. rewrite Hlen. go_cases. destruct Hfull; go_cases; lia. }
    destruct Hend as [Hend|]; [|done]. intros m. destruct (decide (m < n)%nat); [by apply Hmin|]. by rewrite take_ge, <-(take_ge (candidates c) n) by lia.
  - exists n. split_and!; try done. unfold fits. rewrite Hlen. go_cases. lia.
Qed.

(** ** Evictions *)

(** [Close] has not emptied the table. *)
Definition undetached (c : Cache) : Prop := c_releasing c = false /\ c_released c = false.

(** Programs that are neither in the table nor handed to a goroutine yet. *)
Definition limbo (programs : list nat) (c : Cache) : Cache :=
  set_release (c_releasing c) (c_released c) (c_releaseDone c) (programs ++ c_closePending c) c.

Lemma owns_nonneg heap x p : 0 <= owns heap x p.
Proof. unfold owns. case_match; [apply hits_nonneg|done]. Qed.

Lemma lru_remove c ths w p e : inv c ths w -> c_entryHeap c !! p = Some e -> p ∈ c_lru c ->
  c_lru c ≡ₚ p :: remove p (c_lru c) /\ remove p (c_lru c) ≡ₚ (map_to_list (delete (e_key e) (c_entries c))).*2 /\
  size (c_entries c) = S (size (delete (e_key e) (c_entries c))).
Proof.
  intros H Hp Hin. pose proof (move_to_front_Permutation p _ (iv_lru_unique _ _ _ H) Hin) as Hperm.
  destruct (lru_entry _ _ _ _ H Hin) as (e' & ? & Hk). simplify_eq. split_and!.
  - by rewrite <-Hperm at 1.
  - apply (Permutation_cons_inv (a := p)). change (p :: remove p (c_lru c)) with (move_to_front p (c_lru c)). rewrite Hperm, (iv_lru _ _ _ H).
    by rewrite <-(map_to_list_delete _ _ _ Hk).
  - rewrite map_size_delete_Some by eauto. pose proof (map_size_non_empty_iff (c_entries c)) as Hne.
    destruct (size (c_entries c)); [|done]. exfalso. apply (proj2 Hne); [|done]. intros E. by rewrite E, lookup_empty in Hk.
Qed.

Lemma inv_evict c ths w p e stats : inv c ths w -> undetached c -> c_entryHeap c !! p = Some e -> p ∈ c_lru c -> e_refs e = 0 ->
  inv (limbo [e_program e] (set_stats stats (set_table (delete (e_key e) (c_entries c)) (remove p (c_lru c)) (c_currentWeight c - e_weight e) c))) ths w.
Proof.
  intros H Hfree Hp Hin Hz. destruct (lru_remove _ _ _ _ _ H Hp Hin) as (P1 & P2 & P3).
  assert (forall x, tally (owns (c_entryHeap c) x) (c_lru c) = hits x (e_program e) + tally (owns (c_entryHeap c) x) (remove p (c_lru c))) as Ho.
  { intros x. rewrite P1 at 1. rewrite tally_cons. unfold owns at 1. by rewrite Hp. }
  pose proof (fun x => tally_nonneg _ (owns_nonneg (c_entryHeap c) x) (remove p (c_lru c))) as Hon.
  assert (1 <= e_weight e) as Hpos by (by destruct (iv_compiled _ _ _ H p e Hp) as (_ & ? & _)).
  cinv H. unfold limbo. split; cfields; try done; try by ckeep.
  - intros k f E. destruct (Hfs k f E) as [? E0]. split; [done|]. rewrite lookup_delete_None. by right.
  - intros q e' E. destruct (Hen q e' E) as [E1 E2]. split; cfields; [done|]. intros Hq. destruct (decide (q = p)) as [->|Hne]; [by simplify_eq|].
    apply E2. intros Hq'. apply Hq, list_elem_of_filter. by split.
  - intros k q E. apply lookup_delete_Some in E as [_ E]. by apply Hky.
  - by apply NoDup_filter.
  - rewrite Hwt, P1 at 1. rewrite tally_cons. unfold weighs at 1. rewrite Hp. lia.
  - destruct Hcap. lia.
  - intros x. specialize (Hpr x). rewrite Ho in Hpr. cbn [app]. rewrite tally_cons. lia.
  - intros x Hx. destruct (Hcl x Hx) as [? E]. split; [done|]. rewrite Ho in E. specialize (Hon x). pose proof (hits_nonneg x (e_program e)). lia.
  - destruct Hfree. intros []; congruence.
Qed.

Lemma evict_all_ok victims : forall c ths w xs, inv (limbo xs c) ths w -> undetached c -> NoDup victims.*1 ->
  (forall p, p ∈ victims.*1 -> p ∈ c_lru c /\ exists e, c_entryHeap c !! p = Some e /\ e_refs e = 0) ->
  exists entries lru weight stats programs, evict_all victims c = (set_stats stats (set_table entries lru weight c), Ok programs) /\
    weight = c_currentWeight c - tally (weighs (c_entryHeap c)) victims.*1 /\ Z.of_nat (size entries) = Z.of_nat (size (c_entries c)) - len victims /\
    entries ⊆ c_entries c /\ inv (limbo (programs ++ xs) (set_stats stats (set_table entries lru weight c))) ths w.
Proof.
  induction victims as [|[p reason] victims IH]; intros c ths w xs H Hfree Hnd Hall.
  { exists (c_entries c), (c_lru c), (c_currentWeight c), (c_stats c), []. split_and!; try done; try (by destruct c); unfold len; cbn; lia. }
  rewrite fmap_cons in Hnd, Hall. cbn [fst] in Hnd, Hall. apply NoDup_cons in Hnd as [Hp Hnd].
  destruct (Hall p) as (Hin & e & He & Hz); [by left|].
  assert (exists stats, evict (p, reason) c =
    (set_stats stats (set_table (delete (e_key e) (c_entries c)) (remove p (c_lru c)) (c_currentWeight c - e_weight e) c), Ok (e_program e))) as [stats Hev].
  { unfold evict, get_entry, count, sbind, sget, sput. cbn [fst snd]. rewrite He. unfold sret. cfields.
    destruct (reason == _); [by eexists|]. destruct (reason == _); [by eexists|]. exists (c_stats c). by destruct c. }
  pose proof (inv_evict _ _ _ p e stats H Hfree He Hin Hz) as H'. destruct (lru_remove _ _ _ p e H He Hin) as (_ & _ & Hsz).
  match type of H' with inv ?ca _ _ => match type of Hev with _ = (?cb, _) => change (inv (limbo (e_program e :: xs) cb) ths w) in H'; set (c1 := cb) in * end end.
  destruct (IH c1 ths w (e_program e :: xs) H' Hfree Hnd) as (entries & lru & weight & stats' & programs & E & Hw & Hn & Hsub & Hinv).
  { intros q Hq. destruct (Hall q) as (? & ?); [by right|]. split; [|done]. apply list_elem_of_filter. split; [|done]. by intros ->. }
  exists entries, lru, weight, stats', (e_program e :: programs). cbn [evict_all]. unfold sbind. rewrite Hev, E. unfold len in *. split_and!; try done.
  - rewrite Hw, fmap_cons, tally_cons. unfold weighs at 2. cbn [fst]. rewrite He. subst c1. cfields. lia.
  - rewrite Hn. subst c1. unfold limbo in Hsz. cfields. rewrite Hsz. cbn [length]. lia.
  - etransitivity; [exact Hsub|]. apply delete_subseteq.
  - (* the order of the programs in limbo does not matter *)
    subst c1. clear -Hinv Hfree. cinv Hinv. unfold limbo in *. split; cfields; try done; try by ckeep.
    + intros x. rewrite <-(Hpr x). rewrite !tally_app, !tally_cons. lia.
    + destruct Hfree. intros []; congruence.
Qed.

(** ** The end of a flight *)

(** [t] runs [f] and [t'] has completed it. *)
Record completes (f : nat) (t t' : thread) : Prop := {
  cp_holds : holds t' = holds t;
  cp_waits : forall f', waits f' t' = waits f' t;
  cp_flying : forall f', flying f' t = hits f' f;
  cp_flown : forall f', flying f' t' = 0;
  cp_loads : loads t' = loads t;
  cp_queues : queues t' = queues t;
  cp_invoking : forall l, invoking l t' = invoking l t;
  cp_locking : forall l, locking l t' = locking l t;
  cp_frees : frees t' = frees t;
  cp_doomed : forall x, doomed x t' = doomed x t;
}.

Lemma flying_nonneg f t : 0 <= flying f t.
Proof. destruct t as [| | | | |? ? ? []| | | |]; simpl; try done; apply hits_nonneg. Qed.
Lemma flight_running c t t' ths w f x : inv c (t :: ths) w -> completes f t t' -> c_flightHeap c !! f = Some x ->
  f_finished x = false /\ c_channels c !! f_done x = Some false /\ tally (flying f) ths = 0 /\
  c_flights c !! f_key x = Some f /\ f_entry x = None /\ f_waiters x = tally (waits f) (t :: ths).
Proof.
  intros H [_ _ Hfly _ _ _ _ _ _ _] Hf. destruct (iv_flight _ _ _ H f x Hf) as [F1 F2 F3 F4]. simpl in F2. rewrite Hfly, hits_same in F2.
  pose proof (tally_nonneg _ (flying_nonneg f) ths). destruct (f_finished x); simpl in F2; [lia|]. destruct (F3 eq_refl) as (? & ? & ?).
  split_and!; try done. lia.
Qed.
Lemma done_distinct c ths w f f' x x' : inv c ths w -> c_flightHeap c !! f = Some x -> c_flightHeap c !! f' = Some x' -> f_done x = f_done x' -> f = f'.
Proof.
  intros H E E' Hd. pose proof (iv_owned _ _ _ H) as Hown. unfold owned_channels in Hown. rewrite app_comm_cons in Hown. apply NoDup_app in Hown as (_ & _ & Hown).
  apply (NoDup_lookup _ f f' (f_done x) Hown); rewrite list_lookup_fmap, ?E, ?E'; simpl; congruence.
Qed.
Lemma done_owned c ths w f x : inv c ths w -> c_flightHeap c !! f = Some x ->
  f_done x <> c_drained c /\ (c_releasing c = true -> f_done x <> c_releaseDone c).
Proof.
  intros H E. pose proof (iv_owned _ _ _ H) as Hown. unfold owned_channels in Hown. rewrite app_comm_cons in Hown. apply NoDup_app in Hown as (_ & Hown & _).
  assert (f_done x ∈ f_done <$> c_flightHeap c) as Hin by (apply list_elem_of_fmap; exists x; split; [done|]; by eapply list_elem_of_lookup_2).
  split.
  - intros Heq. apply (Hown (c_drained c)); [by left|]. by rewrite <-Heq.
  - intros Hr Heq. apply (Hown (c_releaseDone c)); [rewrite Hr; right; by apply list_elem_of_singleton|]. by rewrite <-Heq.
Qed.

(** [close(running.done)], after the flight is removed from the table. *)
Definition flown (c : Cache) (f : nat) (x x' : flight) : Cache :=
  set_channels (<[f_done x := true]> (c_channels c)) (set_flightHeap (<[f := x']> (c_flightHeap c)) (set_flights (delete (f_key x) (c_flights c)) c)).

Lemma inv_fail c t t' ths w f x result err : inv c (t :: ths) w -> completes f t t' -> c_flightHeap c !! f = Some x -> thread_ok c t' ->
  inv (flown c f x (finish_flight None result (Some err) x)) (t' :: ths) w.
Proof.
  intros H Ht Hf Hok. destruct (flight_running _ _ _ _ _ _ _ H Ht Hf) as (R1 & R2 & R3 & R4 & R5 & R6).
  pose proof (done_owned _ _ _ _ _ H Hf) as [Hd1 Hd2]. pose proof (fun f' x' => done_distinct _ _ _ f f' x x' H Hf) as Hdist.
  destruct Ht as [A1 A2 A3 A3' A4 A5 A6 A7 A8 A9]. cinv H. unfold flown. simpl in *. split; cfields; simpl; rewrite ?A1, ?A4, ?A5, ?A8; try done.
  - by rewrite list_lookup_insert_ne.
  - unfold owned_channels in *. cfields. rewrite list_fmap_insert. cbn [finish_flight f_done]. rewrite list_insert_id; [done|]. by rewrite list_lookup_fmap, Hf.
  - intros f' x' E. apply list_lookup_insert_Some in E as [(<- & <- & _)|(Hne & E)].
    + split; cfields; cbn [finish_flight f_done f_finished f_key f_entry f_err f_waiters]; try done.
      * apply list_lookup_insert_eq. by eapply lookup_lt_Some.
      * simpl. rewrite A3'. done.
      * intros _. split; [|done]. simpl. rewrite A2. lia.
    + destruct (Hfl f' x' E) as [F1 F2 F3 F4]. simpl in *. rewrite A3, hits_other in F2 by done. split; cfields; simpl; rewrite ?A2, ?A3'; try done.
      * rewrite list_lookup_insert_ne; [done|]. intros Hd. apply Hne. by apply (Hdist f' x').
      * intros Hrun. destruct (F3 Hrun) as (E1 & ? & ?). split_and!; try done. apply lookup_delete_Some. split; [|done]. intros Hk. rewrite <-Hk, R4 in E1. by simplify_eq.
  - intros k f' E. apply lookup_delete_Some in E as [Hne E]. destruct (Hfs k f' E) as [(x' & E1 & E2 & E3) E4]. split; [|done].
    exists x'. rewrite list_lookup_insert_ne; [done|]. intros ->. congruence.
  - intros f1 f2 x1 x2 p E1 E2 Hp1 Hp2. apply list_lookup_insert_Some in E1 as [(_ & <- & _)|(_ & E1)]; [done|].
    apply list_lookup_insert_Some in E2 as [(_ & <- & _)|(_ & E2)]; [done|]. by apply (Hmk f1 f2 x1 x2 p).
  - intros p e E. destruct (Hen p e E) as [(f' & x' & E1 & E2 & E3) ?]. simpl in *. split; cfields; [|done]. exists f', x'. simpl. rewrite A2.
    rewrite list_lookup_insert_ne; [done|]. intros ->. congruence.
  - intros y. rewrite A9. apply Hpr.
  - intros l y E. destruct (Hle l y E) as [L1 L2 L3 L4 L5]. simpl in *. split; cfields; simpl; rewrite ?A6, ?A7; done.
  - intros Hr. rewrite list_lookup_insert_ne; [by apply Hrd|]. by apply Hd2.
  - intros Hr y. rewrite A9. by apply Hem.
  - intros t0 Ht0. assert (thread_ok c t0) as H0 by (apply elem_of_cons in Ht0 as [->|Ht0]; [done|]; apply Hth, elem_of_cons; by right).
    destruct t0 as [| | | | |f' ? ? ?| | | |[]]; simpl in *; rewrite ?length_insert; try exact H0. destruct H0 as (? & y & E & <-). split; [done|].
    destruct (decide (f' = f)) as [->|Hne]; [exists (finish_flight None result (Some err) x)|exists y].
    + rewrite list_lookup_insert_eq by (by eapply lookup_lt_Some). by simplify_eq.
    + by rewrite list_lookup_insert_ne.
Qed.


(** The table owns the new program, and the callers that wait for the finished
    flight [f] the references of its entry. *)
Lemma inv_insert c ths w f x x' e : inv (limbo [e_program e] c) ths w -> c_flightHeap c !! f = Some x -> f_finished x = true -> f_entry x = None ->
  f_waiters x = tally (waits f) ths -> e_refs e = f_waiters x ->
  f_entry x' = Some (length (c_entryHeap c)) -> f_err x' = None -> f_finished x' = true -> f_waiters x' = f_waiters x -> f_key x' = f_key x -> f_done x' = f_done x -> f_key x = e_key e ->
  c_flights c !! e_key e = None -> c_entries c !! e_key e = None -> compiled_for w e -> (e_program e ∉ w_closeCalls w) ->
  c_currentWeight c + e_weight e <= c_maxWeightBytes c -> Z.of_nat (size (c_entries c)) + 1 <= c_maxEntries c ->
  inv (set_flightHeap (<[f := x']> (c_flightHeap c)) (set_table (<[e_key e := length (c_entryHeap c)]> (c_entries c)) (length (c_entryHeap c) :: c_lru c)
    (c_currentWeight c + e_weight e) (set_entryHeap (c_entryHeap c ++ [e]) c))) ths w.
Proof.
  intros H Hf Hfin Hnone Hwait Hrefs X1 X2 X3 X4 X5 X6 X7 Hk1 Hk2 Hcomp Hfresh Hcap1 Hcap2.
  assert (forall p, p ∈ c_lru c -> (p < length (c_entryHeap c))%nat) as Hlt.
  { intros p Hp. destruct (lru_entry _ _ _ p H Hp) as (e' & E & _). by eapply lookup_lt_Some. }
  assert (forall p, p ∈ c_lru c -> (c_entryHeap c ++ [e]) !! p = c_entryHeap c !! p) as Hold by (intros p Hp; by apply lookup_app_l, Hlt).
  assert ((c_entryHeap c ++ [e]) !! length (c_entryHeap c) = Some e) as Hnew by (by rewrite lookup_app_r, Nat.sub_diag by done).
  assert (forall y, tally (owns (c_entryHeap c ++ [e]) y) (length (c_entryHeap c) :: c_lru c) = hits y (e_program e) + tally (owns (c_entryHeap c) y) (c_lru c)) as Ho.
  { intros y. rewrite tally_cons. unfold owns at 1. rewrite Hnew. f_equal. apply tally_ext. intros p Hp. unfold owns. by rewrite Hold. }
  assert (forall f' y p, c_flightHeap c !! f' = Some y -> f_entry y = Some p -> (p < length (c_entryHeap c))%nat) as Hent.
  { intros f' y p E Hp. destruct (iv_flight _ _ _ H f' y E) as [_ _ F3 F4]. destruct (f_finished y); [|by destruct (F3 eq_refl) as (_ & ? & _); congruence].
    destruct (F4 eq_refl) as [_ F5]. unfold made in F5. rewrite Hp in F5. destruct F5 as [_ F5]. by apply key_at_lt in F5. }
  assert (forall p k, key_at (c_entryHeap c) p k -> key_at (c_entryHeap c ++ [e]) p k) as Hkeep.
  { intros p k (e' & ? & ?). exists e'. split; [|done]. by apply lookup_app_l_Some. }
  cinv H. unfold limbo in *. cfields. split; cfields; try done.
  - unfold owned_channels in *. cfields. rewrite list_fmap_insert, X6, list_insert_id; [done|]. by rewrite list_lookup_fmap, Hf.
  - intros f' y E. apply list_lookup_insert_Some in E as [(<- & <- & _)|(Hne & E)].
    + destruct (Hfl f x Hf) as [F1 F2 F3 F4]. cfields. split; cfields; rewrite ?X3, ?X6, <-?Hfin; try done; try congruence.
      intros _. rewrite X4. split; [lia|]. unfold made. rewrite X1, X5. split; [done|]. by exists e.
    + destruct (Hfl f' y E) as [F1 F2 F3 F4]. split; cfields; try done. intros Hy. destruct (F4 Hy) as [? Hm]. split; [done|]. by eapply made_mono.
  - intros k f' E. destruct (Hfs k f' E) as [(y & E1 & E2 & E3) E4]. assert (f <> f') as Hne by (intros ->; congruence). split.
    + exists y. by rewrite list_lookup_insert_ne.
    + rewrite lookup_insert_ne; [done|]. congruence.
  - intros f1 f2 x1 x2 p E1 E2 Hp1 Hp2. apply list_lookup_insert_Some in E1 as [(<- & <- & _)|(_ & E1)];
      apply list_lookup_insert_Some in E2 as [(<- & <- & _)|(_ & E2)]; try done.
    + specialize (Hent _ _ _ E2 Hp2). simplify_eq. lia.
    + specialize (Hent _ _ _ E1 Hp1). simplify_eq. lia.
    + by apply (Hmk f1 f2 x1 x2 p).
  - intros p e' [E|[-> ->]]%lookup_snoc.
    + destruct (Hen p e' E) as [(f' & y & E1 & E2 & E3) E4]. split; cfields; [|intros [_ ?]%not_elem_of_cons; by apply E4].
      exists f', y. rewrite list_lookup_insert_ne; [done|]. intros ->. congruence.
    + split; cfields; [|by intros []%not_elem_of_cons]. exists f, x'. split_and!; try done.
      * apply list_lookup_insert_eq. by eapply lookup_lt_Some.
      * rewrite (tally_fresh (pins _)); [lia|]. intros y [l Hy]%list_elem_of_lookup. destruct (Hle l y Hy) as [L1 _ _ _ _]. unfold pins. case_match; [done|].
        cfields. apply hits_other. lia.
  - intros p e' [E|[-> ->]]%lookup_snoc; [by apply (Hco p)|done].
  - intros k p E. apply lookup_insert_Some in E as [(<- & <-)|(Hne & E)]; [by exists e|]. by apply Hkeep, Hky.
  - rewrite map_to_list_insert by done. simpl. by rewrite Hlr.
  - apply NoDup_cons. split; [|done]. intros Hin. specialize (Hlt _ Hin). lia.
  - rewrite tally_cons. unfold weighs at 1. rewrite Hnew, Hwt, Z.add_comm. f_equal. apply tally_ext. intros p Hp. unfold weighs. by rewrite Hold.
  - rewrite map_size_insert_None by done. lia.
  - intros y. rewrite Ho. specialize (Hpr y). rewrite tally_app in Hpr. simpl in Hpr. lia.
  - intros y Hy. rewrite Ho. destruct (Hcl y Hy) as [? ->]. split; [done|]. rewrite hits_other; [done|]. by intros ->.
  - intros l y E. destruct (Hle l y E) as [L1 L2 L3 L4 L5]. split; cfields; try done. rewrite length_app. lia.
  - intros Hr. by destruct (Hde Hr).
  - intros t Ht. specialize (Hth t Ht). destruct t as [| | | | |f' ? ? ?|l ?| | |[]]; simpl in *; rewrite ?length_insert; try exact Hth.
    + destruct Hth as (? & y & E & <-). split; [done|]. destruct (decide (f' = f)) as [->|Hne]; [exists x'|exists y].
      * rewrite list_lookup_insert_eq by (by eapply lookup_lt_Some). simplify_eq. done.
      * by rewrite list_lookup_insert_ne.
    + destruct Hth as (y & e' & ? & E & ?). exists y, e'. split_and!; try done. by apply lookup_app_l_Some.
Qed.

Lemma busy_undetached c t ths w : inv c (t :: ths) w -> holds t = 1 -> undetached c.
Proof.
  intros H Ht. pose proof (active_pos _ _ _ _ H Ht). pose proof (iv_released _ _ _ H) as Hr. split.
  - destruct (c_releasing c); [|done]. destruct Hr as [_ ?]; [by left|lia].
  - destruct (c_released c); [|done]. destruct Hr as [_ ?]; [by right|lia].
Qed.

(** A goroutine takes programs over. *)
Lemma inv_pending c t t' ths w pending : inv c (t :: ths) w -> undetached c -> holds t' = holds t -> (forall f, waits f t' = waits f t) ->
  (forall f, flying f t' = flying f t) -> loads t' = loads t -> queues t' = queues t -> (forall l, invoking l t' = invoking l t) ->
  (forall l, locking l t' = locking l t) -> frees t' = frees t ->
  (forall x, doomed x t' + occ x pending = doomed x t + occ x (c_closePending c)) -> thread_ok c t' ->
  inv (set_release (c_releasing c) (c_released c) (c_releaseDone c) pending c) (t' :: ths) w.
Proof.
  intros H Hfree A1 A2 A3 A4 A5 A6 A7 A8 A9 Hok. cinv H. cfields. simpl in *. split; cfields; simpl; rewrite ?A1, ?A4, ?A5, ?A8; try done.
  - intros f x E. destruct (Hfl f x E) as [F1 F2 F3 F4]. simpl in *. split; cfields; simpl; rewrite ?A2, ?A3; done.
  - intros p e E. destruct (Hen p e E) as [(f & x & E1 & E2 & E3) ?]. simpl in *. split; [|done]. exists f, x. simpl. by rewrite A2.
  - intros x. specialize (Hpr x). specialize (A9 x). lia.
  - intros l x E. destruct (Hle l x E) as [L1 L2 L3 L4 L5]. simpl in *. split; cfields; simpl; rewrite ?A6, ?A7; done.
  - destruct Hfree. intros []; congruence.
  - destruct Hfree. congruence.
  - intros t0 Ht0. assert (thread_ok c t0) as H0 by (apply elem_of_cons in Ht0 as [->|Ht0]; [done|]; apply Hth, elem_of_cons; by right).
    destruct t0 as [| | | | | | | | |[]]; exact H0.
Qed.
Lemma inv_hand xs ys c t t' ths w : inv (limbo xs c) (t :: ths) w -> undetached c -> holds t' = holds t -> (forall f, waits f t' = waits f t) ->
  (forall f, flying f t' = flying f t) -> loads t' = loads t -> queues t' = queues t -> (forall l, invoking l t' = invoking l t) ->
  (forall l, locking l t' = locking l t) -> frees t' = frees t -> (forall x, doomed x t' + occ x ys = doomed x t + occ x xs) -> thread_ok c t' ->
  inv (limbo ys c) (t' :: ths) w.
Proof.
  intros H Hfree A1 A2 A3 A4 A5 A6 A7 A8 A9 Hok.
  apply (inv_pending _ _ t' ths w (ys ++ c_closePending c) H); try done.
  - intros x. specialize (A9 x). unfold limbo. cfields. rewrite !tally_app. lia.
Qed.
Lemma limbo_nil c : limbo [] c = c.
Proof. by destruct c. Qed.

(** [evict_all] reads and writes the table and the statistics only. *)
Definition same_table (c c' : Cache) : Prop :=
  c_entryHeap c' = c_entryHeap c /\ c_entries c' = c_entries c /\ c_lru c' = c_lru c /\ c_currentWeight c' = c_currentWeight c /\ c_stats c' = c_stats c.
Definition retabled (c c0 : Cache) : Cache := set_stats (c_stats c) (set_table (c_entries c) (c_lru c) (c_currentWeight c) c0).
Lemma evict_frame victim c c' : same_table c c' ->
  same_table (fst (evict victim c)) (fst (evict victim c')) /\ snd (evict victim c') = snd (evict victim c) /\
  fst (evict victim c') = retabled (fst (evict victim c)) c'.
Proof.
  destruct victim as [p reason]. intros (E1 & E2 & E3 & E4 & E5). unfold evict, get_entry, count, sbind, sget, sput, sret, same_table, retabled.
  cbn [fst snd]. rewrite E1. destruct (c_entryHeap c !! p) as [e|].
  - cfields. destruct (reason == EvictionCapacityBytes); [|destruct (reason == EvictionCapacityEntries)]; cbn [fst snd]; cfields;
      rewrite ?E1, ?E2, ?E3, ?E4, ?E5; split_and!; try done. destruct c'; cbn in *; by subst.
  - unfold panic, sthrow. cbn [fst snd]. split_and!; try done. rewrite <-E2, <-E3, <-E4, <-E5. by destruct c'.
Qed.
Lemma evict_all_frame victims : forall c c', same_table c c' ->
  snd (evict_all victims c') = snd (evict_all victims c) /\ fst (evict_all victims c') = retabled (fst (evict_all victims c)) c'.
Proof.
  induction victims as [|v victims IH]; intros c c' H; cbn [evict_all].
  - split; [done|]. destruct H as (E1 & E2 & E3 & E4 & E5). unfold retabled. cbn [fst sret]. rewrite <-E2, <-E3, <-E4, <-E5. by destruct c'.
  - destruct (evict_frame v c c' H) as (Hs & Hr & Hc). unfold sbind. destruct (evict v c) as [c1 r1], (evict v c') as [c2 r2]. cbn [fst snd] in *. subst r2.
    destruct r1 as [program|]; [|done]. destruct (IH c1 c2 Hs) as [Hr' Hc']. destruct (evict_all victims c1) as [c3 r3], (evict_all victims c2) as [c4 r4].
    cbn [fst snd] in *. subst r4. assert (c4 = retabled c3 c') as -> by (rewrite Hc', Hc; done). destruct r3; done.
Qed.

End cachesafety.
