(* ===== verification/WorkerCacheSteps.v ===== *)
(** * Package [internal/workercache]: every step keeps the invariant

    The completion of a flight, the closing of programs and [Close], then the
    steps of all the goroutines together. *)
From stdpp Require Import base gmap strings list.
From S2P Require Import Prelude Problem Digest Json Model ServingAuth Scheduler Net Abi WorkerAgent WorkerCache WorkerCacheSafety.
Import problem digest model cache cachesafety.

#[local] Open Scope Z_scope.

Module cachesteps.
#[local] Abbreviation ModuleSpec := workercache.ModuleSpec.
#[local] Abbreviation Key := workercache.Key.

(** ** [completeFlight] *)
Definition loaded_programs (loaded : result nat) : list nat := match loaded with Ok program => [program] | Err _ => [] end.

(** A program that was just compiled from the bytes that [key] names. *)
Definition fresh_program (w : World) (key : Key) (program : nat) : Prop :=
  (program ∉ w_closeCalls w) /\ exists wasm, w_programs w !! program = Some wasm /\ Sum wasm = workercache.k_ArtifactDigest key /\
    strlen wasm = workercache.k_ArtifactSize key.

Definition completed (f : nat) (key : Key) (spec : ModuleSpec) (active : bool) (programs : list nat) : thread :=
  TFlight f key spec (LClosing programs [] active).

(** The flight fails, and so the program is to be closed. *)
Lemma complete_failure c t f key spec active ths w x loaded result err stats : inv (limbo (loaded_programs loaded) c) (t :: ths) w ->
  completes f t (completed f key spec active []) -> c_flightHeap c !! f = Some x -> thread_ok c (completed f key spec active []) ->
  inv (flown (set_stats stats c) f x (finish_flight None result (Some err) x)) (completed f key spec active (loaded_programs loaded) :: ths) w.
Proof.
  intros H Ht Hf Hok. apply (inv_stats _ _ _ _ stats) in H.
  pose proof (inv_fail _ _ _ _ _ f x result err H Ht Hf Hok) as H'.
  match goal with |- inv ?c' _ _ => rewrite <-(limbo_nil c'); change (inv (limbo (loaded_programs loaded) c') (completed f key spec active [] :: ths) w) in H' end.
  eapply inv_hand; [exact H'|by eapply (busy_undetached _ _ _ _ H')|done..| |].
  - intros y. cbn. lia.
  - pose proof (cinv_head _ _ _ _ H') as Hok'. exact Hok'.
Qed.

(** The program is cached and [victims] are to be closed. *)
Lemma complete_success c t f key spec active ths w x program result entries lru weight stats programs :
  inv (limbo (programs ++ [program]) (set_stats stats (set_table entries lru weight c))) (t :: ths) w ->
  completes f t (completed f key spec active []) -> c_flightHeap c !! f = Some x -> f_key x = key -> matches key spec -> fresh_program w key program ->
  weight + workercache.ms_ArtifactSize spec <= c_maxWeightBytes c -> Z.of_nat (size entries) + 1 <= c_maxEntries c -> forall stats' : Stats,
  inv (set_table (<[key := length (c_entryHeap c)]> entries) (length (c_entryHeap c) :: lru) (weight + workercache.ms_ArtifactSize spec)
        (set_entryHeap (c_entryHeap c ++ [{| e_key := key; e_program := program; e_weight := workercache.ms_ArtifactSize spec; e_refs := f_waiters x |}])
          (flown (set_stats stats' c) f x (finish_flight (Some (length (c_entryHeap c))) result None x))))
      (completed f key spec active programs :: ths) w.
Proof.
  intros H Ht Hf Hkey (M1 & M2 & M3) [Hfresh (wasm & W1 & W2 & W3)] Hcap1 Hcap2 stats'. apply (inv_stats _ _ _ _ stats') in H.
  destruct (flight_running _ _ _ _ _ _ _ H Ht Hf) as (R1 & R2 & R3 & R4 & R5 & R6).
  assert (thread_ok c (completed f key spec active [])) as Hok by (split; [done|by exists x]).
  destruct (iv_flights _ _ _ H _ _ R4) as [_ Hnone].
  pose proof (inv_fail _ _ _ _ _ f x result (PlainError "") H Ht Hf Hok) as H1. set (y := finish_flight None result (Some (PlainError "")) x) in *.
  set (c1 := flown (set_stats stats' (set_table entries lru weight c)) f x y).
  change (inv (limbo (programs ++ [program]) c1) (completed f key spec active [] :: ths) w) in H1.
  assert (inv (limbo [program] c1) (completed f key spec active programs :: ths) w) as H2.
  { eapply inv_hand; [exact H1|by eapply (busy_undetached _ _ _ _ H1)|done..| |].
    - intros z. rewrite tally_app. cbn. lia.
    - pose proof (cinv_head _ _ _ _ H1) as Hok'. exact Hok'. }
  assert (c_flightHeap c1 !! f = Some y) as Hy by (apply list_lookup_insert_eq; by eapply lookup_lt_Some).
  pose proof (inv_insert c1 (completed f key spec active programs :: ths) w f y (finish_flight (Some (length (c_entryHeap c))) result None x)
    {| e_key := key; e_program := program; e_weight := workercache.ms_ArtifactSize spec; e_refs := f_waiters x |} H2 Hy) as H3.
  cbn [e_key e_program e_weight e_refs] in H3. unfold c1, flown in H3. cfields. rewrite list_insert_insert_eq in H3. apply H3; try done; clear H3.
  - subst y. cbn [finish_flight f_waiters]. rewrite R6. destruct Ht as [_ A2 _ _ _ _ _ _ _ _]. rewrite !tally_cons. by rewrite <-A2.
  - rewrite Hkey. apply lookup_delete_eq.
  - unfold limbo in Hnone. cfields. by rewrite Hkey in Hnone.
  - split_and!; [by symmetry|done|]. by exists wasm.
Qed.

(** [insert_program] when there is room, on a cache whose table is that of [c]. *)
Lemma insert_program_ok c c0 t f key spec active ths w x program result : inv (limbo [program] c) (t :: ths) w ->
  completes f t (completed f key spec active []) -> c_flightHeap c !! f = Some x -> f_key x = key -> matches key spec -> fresh_program w key program ->
  same_table c c0 -> c_maxWeightBytes c0 = c_maxWeightBytes c -> c_maxEntries c0 = c_maxEntries c ->
  exists c1 r, insert_program key (workercache.ms_ArtifactSize spec) program result x c0 = (c1, Ok r) /\
    match r with
    | (None, result', Some err, []) => exists stats, c1 = set_stats stats c0
    | (Some p, result', None, programs) => exists stats entries lru weight,
        c1 = set_table entries lru weight (set_entryHeap (c_entryHeap c ++ [{| e_key := key; e_program := program; e_weight := workercache.ms_ArtifactSize spec; e_refs := f_waiters x |}])
               (set_stats stats c0)) /\ p = length (c_entryHeap c) /\
        inv (set_table entries lru weight
              (set_entryHeap (c_entryHeap c ++ [{| e_key := key; e_program := program; e_weight := workercache.ms_ArtifactSize spec; e_refs := f_waiters x |}])
                (flown (set_stats stats c) f x (finish_flight (Some p) result' None x)))) (completed f key spec active programs :: ths) w
    | _ => False
    end.
Proof.
  intros H Ht Hf Hkey Hm Hfresh Hst Hw Hn. destruct Hst as (T1 & T2 & T3 & T4 & T5).
  assert (selectVictimsLocked c0 (workercache.ms_ArtifactSize spec) = selectVictimsLocked (limbo [program] c) (workercache.ms_ArtifactSize spec)) as Hsel.
  { unfold selectVictimsLocked. unfold limbo at 2 3 4 5 6. cfields. rewrite T2, T3, T4, Hw, Hn.
    assert (forall back rw rn, select_loop c0 (workercache.ms_ArtifactSize spec) back rw rn = select_loop (limbo [program] c) (workercache.ms_ArtifactSize spec) back rw rn) as E.
    { induction back as [|p back IH]; intros rw rn; cbn [select_loop]; [done|]. unfold limbo at 1 2 3. cfields. rewrite T1, Hw, Hn.
      destruct (_ && _); [done|]. destruct (c_entryHeap c !! p); [|done]. by rewrite !IH. }
    by rewrite E. }
  pose proof (selectVictims_spec _ _ _ (workercache.ms_ArtifactSize spec) H) as Hspec. rewrite <-Hsel in Hspec.
  unfold insert_program, count, sbind, sget, sput. destruct (selectVictimsLocked c0 _) as [victims|err].
  2: { eexists _, _. split; [reflexivity|]. by eexists. }
  destruct Hspec as (n & Hn1 & Hvs & [Hfit1 Hfit2] & _).
  destruct (evict_all_ok victims c (t :: ths) w [program] H) as (entries & lru & weight & stats & programs & E & Hwt & Hsz & _ & Hinv).
  { destruct Ht as [A1 _ _ _ _ _ _ _ _ _]. by apply (busy_undetached _ _ _ _ H). }
  { rewrite Hvs. eapply sublist_NoDup; [|apply sublist_take]. apply NoDup_filter. rewrite reverse_Permutation. apply (iv_lru_unique _ _ _ H). }
  { intros p Hp. rewrite Hvs in Hp. apply (candidates_spec _ _ _ p H). apply elem_of_take in Hp as (i & Hi & _). by eapply list_elem_of_lookup_2. }
  destruct (evict_all_frame victims c c0) as [Hr Hc]; [done|]. rewrite E in Hr, Hc. destruct (evict_all victims c0) as [c1 r1]. cbn [fst snd] in *. subst r1 c1.
  unfold retabled. cfields. eexists _, _. split; [reflexivity|]. rewrite T1. eexists _, _, _, _. split_and!; [reflexivity|done|].
  unfold limbo in Hfit1, Hfit2. cfields. assert (len victims.*1 = len victims) as Hlen by (unfold len; by rewrite length_fmap).
  eapply complete_success; try done.
  - rewrite Hwt. exact Hfit1.
  - rewrite Hsz. lia.
Qed.

Lemma completeFlight_ok c t f key spec active ths w loaded result : inv (limbo (loaded_programs loaded) c) (t :: ths) w ->
  completes f t (completed f key spec active []) -> thread_ok c (completed f key spec active []) ->
  (forall program, loaded = Ok program -> fresh_program w key program) ->
  region_ok c ths w (completeFlight key (workercache.ms_ArtifactSize spec) loaded result f) (completed f key spec active).
Proof.
  intros H Ht Hok Hfresh. pose proof Hok as (Hm & x & Hf & Hkey). destruct (flight_running _ _ _ _ _ _ _ H Ht Hf) as (_ & Hdone & _).
  change (c_channels c !! f_done x = Some false) in Hdone.
  assert (forall err result' stats, inv (flown (set_stats stats c) f x (finish_flight None result' (Some err) x)) (completed f key spec active (loaded_programs loaded) :: ths) w)
    as Hfail by (intros err result' stats; by eapply complete_failure).
  unfold region_ok, completeFlight, get_flight, put_flight, close_channel, sbind, sget, sput. cfields. rewrite Hf. unfold sret at 1.
  destruct (c_closing c).
  { unfold sret at 1. cfields. rewrite Hdone. eexists _, _. split; [reflexivity|]. unfold flown in Hfail. rewrite Hkey in Hfail.
    destruct loaded; apply (Hfail _ _ (c_stats c)). }
  destruct loaded as [program|err]; [|].
  2: { unfold sret at 1. cfields. rewrite Hdone. eexists _, _. split; [reflexivity|]. unfold flown in Hfail. rewrite Hkey in Hfail. apply (Hfail _ _ (c_stats c)). }
  destruct (f_waiters x =? 0).
  { unfold sret at 1. cfields. rewrite Hdone. eexists _, _. split; [reflexivity|]. unfold flown in Hfail. rewrite Hkey in Hfail. apply (Hfail _ _ (c_stats c)). }
  destruct (insert_program_ok c (set_flights (delete key (c_flights c)) c) t f key spec active ths w x program result H Ht Hf Hkey Hm)
    as (c1 & r & E & Hr); [by apply Hfresh|done..|].
  rewrite E. destruct r as [[[[p|] result'] [err|]] programs]; try done.
  - destruct Hr as (stats & entries & lru & weight & -> & Hp & Hinv). cfields. rewrite Hdone. eexists _, _. split; [reflexivity|].
    unfold flown in Hinv. rewrite Hkey in Hinv. exact Hinv.
  - destruct programs; [|done]. destruct Hr as [stats ->]. cfields. rewrite Hdone. eexists _, _. split; [reflexivity|].
    unfold flown in Hfail. rewrite Hkey in Hfail. apply Hfail.
Qed.

(** ** Programs *)
Lemma inv_ledger c ths w w' : w_programs w' = w_programs w -> w_closeCalls w' = w_closeCalls w -> w_closed w' = w_closed w -> w_discarded w' = w_discarded w ->
  inv c ths w -> inv c ths w'.
Proof.
  intros E1 E2 E3 E4 H. cinv H. split; try done; rewrite ?E1, ?E2, ?E3, ?E4; try done.
  intros p e E. specialize (Hco p e E). unfold compiled_for in *. by rewrite E1.
Qed.

Lemma doomed_nonneg x t : 0 <= doomed x t.
Proof.
  pose proof (fun l => tally_nonneg (hits x) (hits_nonneg x) l) as Hn.
  destruct t as [| | | | |? ? ? [| | | |l1 l2 ?|]| | | |[| | | |l1 l2]]; simpl; try done; specialize (Hn l1) as H1; specialize (Hn l2) as H2; lia.
Qed.
(** A program is in one place only, and programs have numbers below the next one. *)
Lemma program_places c ths w x : inv c ths w ->
  0 <= tally (owns (c_entryHeap c) x) (c_lru c) /\ 0 <= tally (doomed x) ths /\ 0 <= occ x (c_closePending c) /\ 0 <= occ x (w_closed w) /\ 0 <= occ x (w_discarded w).
Proof.
  intros H. pose proof (hits_nonneg x). split_and!; apply tally_nonneg; try done; [apply owns_nonneg|apply doomed_nonneg].
Qed.

Lemma inv_compile c ths w wasm : inv c ths w -> undetached c -> inv (limbo [length (w_programs w)] c) ths (compile w wasm).
Proof.
  intros H Hfree. cinv H. unfold limbo. split; cfields; try done; try by ckeep.
  - intros p e E. destruct (Hco p e E) as (? & ? & wasm' & E1 & ?). split_and!; try done. exists wasm'. split; [|done]. by apply lookup_app_l_Some.
  - intros x. specialize (Hpr x). rewrite tally_app. simpl. rewrite length_app. simpl. destruct (decide (x = length (w_programs w))) as [->|Hne].
    + rewrite hits_same. rewrite bool_decide_false in Hpr by lia. rewrite bool_decide_true by lia. simpl in *. lia.
    + rewrite hits_other by done. rewrite (bool_decide_ext _ (x < length (w_programs w))%nat) by lia. lia.
  - intros x Hx. destruct (Hcl x Hx). split; [|done]. simpl. rewrite length_app. lia.
  - destruct Hfree. intros []; congruence.
Qed.

(** The loader closes a program that came with an error. *)
Lemma inv_discard c ths w wasm : inv c ths w -> undetached c -> inv c ths (discard (compile w wasm) (length (w_programs w))).
Proof.
  intros H Hfree. pose proof (program_places _ _ _ (length (w_programs w)) H) as Hn. pose proof (inv_compile _ _ _ wasm H Hfree) as H'.
  assert (tally (owns (c_entryHeap c) (length (w_programs w))) (c_lru c) = 0) as Hz.
  { pose proof (iv_programs _ _ _ H (length (w_programs w))) as E. rewrite bool_decide_false in E by lia. simpl in E. lia. }
  clear H. cinv H'. unfold limbo in *. cfields. split; try done; try by ckeep.
  - intros x. specialize (Hpr x). rewrite tally_app in Hpr. simpl in *. lia.
  - intros x [->|Hx]%elem_of_cons; [|by apply Hcl]. split; [|done]. simpl. rewrite length_app. simpl. lia.
  - destruct Hfree. intros []; congruence.
Qed.

(** A call of [Close] on a program that the caller is to close. *)
Lemma inv_call_Close c t t' ths w program (ok : bool) : inv c (t :: ths) w -> 1 <= doomed program t ->
  (forall x, doomed x t' = doomed x t - (if ok then hits x program else 0)) ->
  holds t' = holds t -> (forall f, waits f t' = waits f t) -> (forall f, flying f t' = flying f t) -> loads t' = loads t -> queues t' = queues t ->
  (forall l, invoking l t' = invoking l t) -> (forall l, locking l t' = locking l t) -> frees t' = frees t -> thread_ok c t' ->
  inv c (t' :: ths) (call_Close w program ok).
Proof.
  intros H Hd A9 A1 A2 A3 A4 A5 A6 A7 A8 Hok. pose proof (program_places _ _ _ program H) as Hn. pose proof (tally_nonneg _ (doomed_nonneg program) ths) as Hd'.
  pose proof (iv_programs _ _ _ H program) as Hone. simpl in Hone.
  assert ((program < length (w_programs w))%nat /\ tally (owns (c_entryHeap c) program) (c_lru c) = 0) as [Hlt Hz].
  { case_bool_decide; simpl in *; lia. }
  cinv H. simpl in *. split; simpl; rewrite ?A1, ?A4, ?A5, ?A8; try done.
  - intros f x E. destruct (Hfl f x E) as [F1 F2 F3 F4]. simpl in *. split; simpl; rewrite ?A2, ?A3; done.
  - intros p e E. destruct (Hen p e E) as [(f & x & E1 & E2 & E3) ?]. simpl in *. split; [|done]. exists f, x. simpl. by rewrite A2.
  - intros x. rewrite A9. specialize (Hpr x). destruct ok; simpl; lia.
  - intros x [->|Hx]%elem_of_cons; [done|]. by apply Hcl.
  - intros l x E. destruct (Hle l x E) as [L1 L2 L3 L4 L5]. simpl in *. split; simpl; rewrite ?A6, ?A7; done.
  - intros Hr y. specialize (Hem Hr program). lia.
  - intros t0 [->|Ht0]%elem_of_cons; [done|]. apply Hth, elem_of_cons. by right.
Qed.

(** ** [Close] *)
Lemma inv_closing c ths w : inv c ths w -> inv (set_closing true c) ths w.
Proof.
  intros H. cinv H. split; cfields; try done; try by ckeep.
  - intros Hr. by destruct (Hrl Hr).
  - intros t Ht. specialize (Hth t Ht). destruct t as [| | | | | | | | |[]]; simpl in *; try exact Hth; split; try done; apply Hth.
Qed.

Lemma alter_fmap {A B} (g : A -> B) (h : A -> A) (i : nat) (l : list A) : (forall x, g (h x) = g x) -> g <$> alter h i l = g <$> l.
Proof. intros H. revert i. induction l as [|x l IH]; intros [|i]; simpl; rewrite ?H; try done. f_equal. apply IH. Qed.
Lemma cancelled_outline {B} (g : flight -> B) (fs : list nat) (heap : list flight) : (forall x, g (cancel_flight x) = g x) ->
  g <$> foldr (fun f heap => alter cancel_flight f heap) heap fs = g <$> heap.
Proof. intros H. induction fs as [|f fs IH]; [done|]. simpl. by rewrite alter_fmap. Qed.

Lemma cancelFlights_ok c t ths w : inv c (t :: ths) w -> exists c', cancelFlightsLocked c = (c', Ok tt) /\ inv c' (t :: ths) w /\
  c_releasing c' = c_releasing c /\ c_releaseDone c' = c_releaseDone c /\ c_drained c' = c_drained c /\ c_closing c' = c_closing c /\ c_active c' = c_active c.
Proof.
  intros H. unfold cancelFlightsLocked, sbind, sget, sput. eexists _. split; [reflexivity|]. split; [|done].
  match goal with |- inv (set_flightHeap ?h c) _ _ => set (heap := h) end.
  assert (inv (set_stats (c_stats c) (set_flightHeap heap (set_entryHeap (c_entryHeap c) c))) (t :: ths) w) as H'; [|exact H'].
  apply (inv_waiters c t); try done; [by apply cancelled_outline|by eapply cinv_head| |].
  - intros f x x' E E'. assert (f_waiters x' = f_waiters x) as ->; [|case_match; lia].
    pose proof (cancelled_outline f_waiters (map_to_list (c_flights c)).*2 (c_flightHeap c) (fun _ => eq_refl)) as Hw. fold heap in Hw.
    apply (f_equal (lookup f)) in Hw. rewrite !list_lookup_fmap, E, E' in Hw. by injection Hw.
  - intros. simplify_eq. lia.
Qed.

Lemma load_ends_alike f key spec active : alike (TFlight f key spec (LClosing [] [] active)) (load_ends f key spec active).
Proof. unfold load_ends. by destruct active. Qed.

(** The programs that a flight could not close are left to [Close]. *)
Lemma closeEvicted_ok c f key spec failed active ths w : inv c (TFlight f key spec (LClosing [] failed active) :: ths) w ->
  region_ok c ths w (closeEvicted failed) (fun _ => load_ends f key spec active).
Proof.
  intros H. pose proof (busy_undetached _ _ _ _ H eq_refl) as Hfree. pose proof (cinv_head _ _ _ _ H) as Hok. destruct (load_ends_alike f key spec active) as [A1 A2 A3 A4 A5 A6 A7 A8 A9].
  apply (inv_stats _ _ _ _ (add_stat CloseErrors (len failed) (c_stats c))) in H.
  pose proof (inv_pending _ _ (load_ends f key spec active) _ _ (c_closePending c ++ failed) H Hfree A1 A2 A3 A4 A5 A6 A7 A8) as H1.
  assert (forall x, doomed x (load_ends f key spec active) + occ x (c_closePending c ++ failed) = doomed x (TFlight f key spec (LClosing [] failed active)) + occ x (c_closePending c)) as Hd.
  { intros x. rewrite A9, tally_app. cbn. lia. }
  specialize (H1 Hd). apply inv_closing in H1; [|by destruct active].
  destruct (cancelFlights_ok _ _ _ _ H1) as (c' & E & H' & _). unfold region_ok, closeEvicted, count, sbind, sget, sput. cfields.
  eexists _, _. split; [exact E|exact H'].
Qed.

Definition after_begin (r : close_outcome) : thread :=
  match r with CloseReturns => TDone | CloseAwaits ch => TClose (CAwait ch) | CloseDrains ch => TClose (CDrain ch) end.
Lemma close_begin_ok c ths w : inv c (TClose CBegin :: ths) w -> region_ok c ths w close_begin after_begin.
Proof.
  intros H. unfold region_ok, close_begin, sbind, sget, sput. destruct (c_released c).
  { eexists _, _. split; [reflexivity|]. by apply (inv_swap c (TClose CBegin)). }
  assert (forall c', inv c' (TClose CBegin :: ths) w -> c_closing c' = true ->
    inv c' (after_begin (if c_releasing c' then CloseAwaits (c_releaseDone c') else CloseDrains (c_drained c')) :: ths) w) as Hnext.
  { intros c' H' Hc. apply (inv_swap c' (TClose CBegin)); [|by destruct (c_releasing c')|done]. by destruct (c_releasing c'). }
  destruct (c_closing c) eqn:Hc.
  - eexists _, _. split; [reflexivity|]. by apply Hnext.
  - apply inv_closing in H. destruct (cancelFlights_ok _ _ _ _ H) as (c' & E & H' & _ & _ & _ & Hc' & _). rewrite E. eexists _, _. split; [reflexivity|].
    apply Hnext; [done|]. by rewrite Hc'.
Qed.

Lemma drained_idle c ths w : inv c ths w -> c_channels c !! c_drained c = Some true -> c_active c = 0.
Proof. intros H Hch. rewrite (iv_drained _ _ _ H) in Hch. injection Hch as Hch. by apply Z.eqb_eq. Qed.

(** Without calls, flights and leases no entry is referenced. *)
Lemma idle_refs c ths w p e : inv c ths w -> c_active c = 0 -> c_entryHeap c !! p = Some e -> e_refs e = 0.
Proof.
  intros H Hz Hp. pose proof (tally_nonneg _ holds_nonneg ths) as H1. pose proof (tally_nonneg _ unreleased_nonneg (c_leaseHeap c)) as H2.
  pose proof (iv_active _ _ _ H) as Ha. destruct (iv_entry _ _ _ H p e Hp) as [(f & x & _ & _ & ->) _]. rewrite !tally_fresh; [done| |].
  - intros t Ht. assert (holds t = 0) as Ht0 by (apply (tally_zero holds holds_nonneg ths); [lia|done]). by destruct t.
  - intros l Hl. assert (unreleased l = 0) as Hl0 by (apply (tally_zero _ unreleased_nonneg (c_leaseHeap c)); [lia|done]).
    unfold unreleased, pins in *. by destruct (l_released l).
Qed.

Lemma programs_of_run c order : (forall p, p ∈ order -> exists e, c_entryHeap c !! p = Some e) ->
  exists programs, programs_of order c = (c, Ok programs) /\ forall x, occ x programs = tally (owns (c_entryHeap c) x) order.
Proof.
  induction order as [|p order IH]; intros Hall; cbn [programs_of]; [by exists []|].
  destruct (Hall p) as [e He]; [by left|]. destruct IH as (programs & E & Ho); [intros q Hq; apply Hall; by right|].
  exists (e_program e :: programs). unfold get_entry, sbind, sget. rewrite He. unfold sret at 1. rewrite E. split; [done|].
  intros x. rewrite !tally_cons, Ho. unfold owns at 2. by rewrite He.
Qed.

Lemma weighs_nonneg c ths w : inv c ths w -> 0 <= c_currentWeight c.
Proof.
  intros H. rewrite (iv_weight _ _ _ H). apply tally_nonneg. intros p. unfold weighs. destruct (c_entryHeap c !! p) as [e|] eqn:E; [|done].
  destruct (iv_compiled _ _ _ H p e E) as (_ & ? & _). lia.
Qed.

Definition after_release (r : option (list nat)) : thread :=
  match r with None => TClose CBegin | Some programs => TClose (CReleasing programs []) end.
Lemma close_release_ok c order ths w : inv c (TClose CDrained :: ths) w -> order ≡ₚ (map_to_list (c_entries c)).*2 ->
  region_ok c ths w (close_release order) after_release.
Proof.
  intros H Hperm. destruct (cinv_head _ _ _ _ H) as [Hclosing Hidle]. pose proof (fun p e => idle_refs _ _ _ p e H Hidle) as Hrefs.
  pose proof (weighs_nonneg _ _ _ H) as Hpos. pose proof (owned_lt _ _ _ (length (c_channels c)) H) as Hlt. rewrite <-(iv_lru _ _ _ H) in Hperm.
  destruct (programs_of_run c order) as (programs & E & Ho).
  { intros p Hp. rewrite Hperm in Hp. destruct (lru_entry _ _ _ p H Hp) as (e & ? & _). eauto. }
  unfold region_ok, close_release, sbind, sget, sput. destruct (c_releasing c) eqn:Hr.
  { eexists _, _. split; [reflexivity|]. by apply (inv_swap c (TClose CDrained)). }
  rewrite E. unfold make_channel, sbind, sget, sput, sret at 1. cfields. eexists _, _. split; [reflexivity|]. cbn [after_release].
  cinv H. simpl in *. split; cfields; simpl; try done; try by ckeep.
  - apply lookup_app_l_Some. exact Hdr.
  - unfold owned_channels in *. cfields. rewrite Hr in *. simpl in *. apply NoDup_cons in Hown as [Hd Hown]. apply NoDup_cons. split.
    + intros [Heq|?]%elem_of_cons; [|done]. assert (length (c_channels c) < length (c_channels c))%nat; [apply Hlt; rewrite <-Heq; by left|lia].
    + apply NoDup_cons. split; [|done]. intros ?. assert (length (c_channels c) < length (c_channels c))%nat; [apply Hlt; by right|lia].
  - intros f x Ef. destruct (Hfl f x Ef). split; cfields; try done. by apply lookup_app_l_Some.
  - intros k f Ef. split; [|apply lookup_empty]. by apply Hfs.
  - intros p e Ep. destruct (Hen p e Ep) as [E1 _]. split; cfields; [done|]. intros _. by eapply Hrefs.
  - apply NoDup_nil_2.
  - rewrite map_size_empty. destruct Hcap. split; lia.
  - intros x. rewrite <-(Hpr x), tally_app, Ho, <-Hperm. lia.
  - intros x Hx. split; [by apply Hcl|done].
  - rewrite Hr in Hfr. simpl in Hfr. lia.
  - intros _. by rewrite lookup_app_r, Nat.sub_diag by done.
  - intros Hrel x. destruct (Hde (or_intror Hrel)) as [El Ep]. specialize (Hem Hrel x). rewrite tally_app, Ho, Hperm, El, Ep. simpl. lia.
  - intros t0 [->|Ht0]%elem_of_cons; [done|]. assert (thread_ok c t0) as H0 by (apply Hth, elem_of_cons; by right).
    destruct t0 as [| | | | | | | | |[]]; exact H0.
Qed.

(** Without flights, only a releasing [Close] has programs to close. *)
Lemma idle_doomed c t ths w x : inv c (t :: ths) w -> c_active c = 0 -> tally frees ths = 0 -> tally (doomed x) ths = 0.
Proof.
  intros H Hz Hf. pose proof (iv_active _ _ _ H) as Ha. pose proof (tally_nonneg _ holds_nonneg ths) as H1. pose proof (holds_nonneg t).
  pose proof (tally_nonneg _ unreleased_nonneg (c_leaseHeap c)) as H2. simpl in Ha. apply tally_fresh. intros t' Ht.
  assert (holds t' = 0) as Ht0 by (apply (tally_zero holds holds_nonneg ths); [lia|done]).
  assert (frees t' = 0) as Ht1 by (apply (tally_zero frees) with ths; [by intros [| | | | | | | | |[]]|done|done]).
  by destruct t' as [| | | | | | | | |[]].
Qed.

Lemma close_end_ok c failed ths w : inv c (TClose (CReleasing [] failed) :: ths) w -> region_ok c ths w (close_end failed) (fun _ => TDone).
Proof.
  intros H. destruct (cinv_head _ _ _ _ H) as [Hclosing Hidle].
  assert (c_releasing c = true /\ tally frees ths = 0) as [Hr Hf0].
  { pose proof (iv_frees _ _ _ H) as Hfr. simpl in Hfr. assert (0 <= tally frees ths) by (apply tally_nonneg; by intros [| | | | | | | | |[]]).
    destruct (c_releasing c); simpl in Hfr; lia. }
  pose proof (iv_releaseDone _ _ _ H Hr) as Hch. destruct (iv_detached _ _ _ H (or_introl Hr)) as [Hlru Hempty].
  assert (forall released stats, ((released = c_released c \/ released = true) /\ (released = true -> failed = [])) ->
    inv (set_channels (<[c_releaseDone c := true]> (c_channels c)) (set_stats stats (set_release false released (c_releaseDone c) failed c))) (TDone :: ths) w) as Hdone.
  { intros released stats [Hrel Hnone]. pose proof (fun x => idle_doomed _ _ _ _ x H Hidle Hf0) as Hno. cinv H. simpl in *. unfold owned_channels in Hown. rewrite Hr in Hown. simpl in Hown. apply NoDup_cons in Hown as [Hd Hown].
    apply NoDup_cons in Hown as [Hd' Hown]. apply not_elem_of_cons in Hd as [Hne Hd]. split; cfields; simpl; try done; try by ckeep.
    - by rewrite list_lookup_insert_ne.
    - unfold owned_channels. cfields. simpl. by apply NoDup_cons.
    - intros f x E. destruct (Hfl f x E). split; cfields; try done. rewrite list_lookup_insert_ne; [done|]. intros Heq. apply Hd'. rewrite Heq.
      apply list_elem_of_fmap. exists x. split; [done|]. by eapply list_elem_of_lookup_2.
    - intros x. rewrite <-(Hpr x), Hempty. simpl. lia.
    - intros [?|Hrel']; [done|]. split; [done|]. by apply Hnone.
    - intros t0 [->|Ht0]%elem_of_cons; [done|]. assert (thread_ok c t0) as H0 by (apply Hth, elem_of_cons; by right).
      destruct t0 as [| | | | | | | | |[]]; exact H0. }
  unfold region_ok, close_end, close_channel, count, sbind, sget, sput. case_bool_decide; cfields; rewrite Hch; eexists _, _; (split; [reflexivity|]).
  - apply (Hdone true (c_stats c)). split; [by right|done].
  - apply Hdone. split; [by left|]. intros Hrel. pose proof (iv_emptied _ _ _ H Hrel) as Hem. destruct failed as [|p failed]; [done|].
    specialize (Hem p). simpl in Hem. rewrite hits_same in Hem. pose proof (tally_nonneg _ (hits_nonneg p) failed). pose proof (tally_nonneg _ (doomed_nonneg p) ths). lia.
Qed.

(** ** Loads *)
Lemma readVerified_ok spec opened wasm : readVerifiedArtifact spec opened = Ok wasm ->
  Sum wasm = workercache.ms_ArtifactDigest spec /\ strlen wasm = workercache.ms_ArtifactSize spec.
Proof.
  unfold readVerifiedArtifact. destruct (op_err opened), (op_file opened) as [file|]; try done. destruct (join _ _); [done|].
  destruct (_ || _) eqn:E; [done|]. intros [= <-]. go_cases. done.
Qed.
Lemma read_attempts_ok spec first second wasm : read_attempts spec first second = Ok wasm ->
  Sum wasm = workercache.ms_ArtifactDigest spec /\ strlen wasm = workercache.ms_ArtifactSize spec.
Proof.
  unfold read_attempts. destruct (readVerifiedArtifact spec first) as [wasm'|err] eqn:E.
  - intros [= <-]. by eapply readVerified_ok.
  - destruct (errors_Is _ _); [|done]. apply readVerified_ok.
Qed.
Lemma load_compiled key spec first second loadTime compiled result wasm : loadAndCompile key spec first second loadTime compiled = (result, LoadCompiled wasm) ->
  Sum wasm = workercache.ms_ArtifactDigest spec /\ strlen wasm = workercache.ms_ArtifactSize spec.
Proof.
  unfold loadAndCompile. destruct (read_attempts spec first second) as [wasm'|] eqn:E; [|done]. intros [= _ H].
  destruct (cm_err compiled), (cm_program compiled); simplify_eq. by eapply read_attempts_ok.
Qed.
Lemma key_matches goos goarch profile spec k : workercache.key goos goarch profile spec = Ok k -> matches k spec.
Proof.
  unfold workercache.key. intros H. ok_inv. subst k. unfold matches. by split_and!.
Qed.

(** ** Every event *)
Definition winv (w : World) : Prop := inv (w_cache w) (w_threads w) w.
Definition outcome_ok (o : outcome) : Prop := match o with Disabled => True | Panicked _ => False | Stepped w => winv w end.

Lemma winv_with c ths w : inv c ths w -> winv (with_threads w c ths).
Proof. by apply inv_ledger. Qed.

Lemma cache_spawn_ok {A} w (m : M Cache A) t : region_ok (w_cache w) (w_threads w) w m t -> outcome_ok (region m w (fun x => spawn w (t x))).
Proof.
  intros (c' & x & E & H). unfold region. rewrite E. apply winv_with. by rewrite <-Permutation_cons_append.
Qed.

Section thread.
Context (w : World) (tid : nat) (rest : list thread).
Context (Hrest : forall t', <[tid := t']> (w_threads w) ≡ₚ t' :: rest).

Lemma cache_becomes_ok w' c t : w_threads w' = w_threads w -> inv c (t :: rest) w' -> outcome_ok (Stepped (becomes w' tid t c)).
Proof. intros E H. apply winv_with. by rewrite E, Hrest. Qed.
Lemma region_becomes {A} w' (m : M Cache A) t : w_threads w' = w_threads w -> region_ok (w_cache w') rest w' m t ->
  outcome_ok (region m w' (fun x => becomes w' tid (t x))).
Proof. intros Ew (c' & x & E & H). unfold region. rewrite E. by apply cache_becomes_ok. Qed.

Lemma closed_Some ch c b : c_channels c !! ch = Some b -> closed ch c = b.
Proof. intros E. unfold closed. rewrite E. destruct b; [by rewrite bool_decide_true|by rewrite bool_decide_false]. Qed.

Lemma step_flight_ok f key spec ph e : inv (w_cache w) (TFlight f key spec ph :: rest) w -> outcome_ok (step_flight w tid f key spec ph e).
Proof.
  intros H. pose proof (cinv_head _ _ _ _ H) as Hok. pose proof Hok as (Hm & x & Hf & Hkey). unfold step_flight.
  destruct ph as [|[err|]|err| |[|program programs] failed active|], e; try exact I; try (destruct failed; exact I).
  - destruct (_ <? _) eqn:Hg; [|exact I]. go_cases. apply cache_becomes_ok; [done|]. eapply cinv_gate; [exact H|..]; try done; lia.
  - rewrite Hf. destruct (f_cancelled x); [|exact I]. apply cache_becomes_ok; [done|]. by apply (inv_swap _ (TFlight f key spec LWait)).
  - apply cache_becomes_ok; [done|]. eapply cinv_gate; [exact H|..]; try done; lia.
  - apply cache_becomes_ok; [done|]. eapply cinv_gate; [exact H|..]; try done; lia.
  - apply region_becomes; [done|]. eapply (completeFlight_ok _ (TFlight f key spec (LFailed err))); try done. by rewrite limbo_nil.
  - pose proof (busy_undetached _ _ _ _ H eq_refl) as Hfree.
    destruct (loadAndCompile _ _ _ _ _ _) as [result loaded] eqn:El. destruct loaded as [err|wasm err|wasm].
    + apply region_becomes; [done|]. eapply (completeFlight_ok _ (TFlight f key spec LLoad)); try done; by rewrite limbo_nil.
    + apply region_becomes; [done|]. eapply (completeFlight_ok _ (TFlight f key spec LLoad)); try done. rewrite limbo_nil. by apply inv_discard.
    + apply region_becomes; [done|]. eapply (completeFlight_ok _ (TFlight f key spec LLoad)); try done; [by apply inv_compile|].
      intros program [= <-]. destruct (load_compiled _ _ _ _ _ _ _ _ El) as [D1 D2]. destruct Hm as (M1 & M2 & _). split.
      * intros Hin. destruct (iv_calls _ _ _ H _ Hin). simpl in *. lia.
      * exists wasm. rewrite M1, M2. split; [|done]. simpl. by rewrite lookup_app_r, Nat.sub_diag by done.
  - destruct failed as [|p failed].
    + apply cache_becomes_ok; [done|]. eapply inv_swap; [apply load_ends_alike| |exact H]. by destruct active.
    + apply region_becomes; [done|]. by apply closeEvicted_ok.
  - apply cache_becomes_ok; [done|]. eapply inv_call_Close; [exact H| | |done..].
    + simpl. rewrite hits_same. pose proof (tally_nonneg _ (hits_nonneg program) programs). pose proof (tally_nonneg _ (hits_nonneg program) failed). lia.
    + intros y. destruct ok; simpl; rewrite ?tally_snoc; lia.
  - apply cache_becomes_ok; [done|]. eapply cinv_gate; [exact H|..]; try done; lia.
Qed.

Lemma step_close_ok ph e : inv (w_cache w) (TClose ph :: rest) w -> outcome_ok (step_close w tid ph e).
Proof.
  intros H. pose proof (cinv_head _ _ _ _ H) as Hok. unfold step_close. destruct ph as [|ch|ch| |[|program programs] failed], e; try exact I.
  - destruct (close_begin_ok _ _ _ H) as (c' & r & E & H'). unfold region. rewrite E. by destruct r; apply cache_becomes_ok.
  - destruct (closed ch _); [|exact I]. apply cache_becomes_ok; [done|]. by apply (inv_swap _ (TClose (CAwait ch))).
  - apply cache_becomes_ok; [done|]. by apply (inv_swap _ (TClose (CAwait ch))).
  - destruct (closed ch _) eqn:E; [|exact I]. destruct Hok as [Hc ->]. apply cache_becomes_ok; [done|].
    apply (inv_swap _ (TClose (CDrain (c_drained (w_cache w))))); [done| |done]. split; [done|]. eapply drained_idle; [exact H|].
    unfold closed in E. by go_cases.
  - apply cache_becomes_ok; [done|]. by apply (inv_swap _ (TClose (CDrain ch))).
  - case_bool_decide as Hperm; [|exact I]. destruct (close_release_ok _ _ _ _ H Hperm) as (c' & r & E & H'). unfold region. rewrite E.
    by destruct r; apply cache_becomes_ok.
  - apply region_becomes; [done|]. by apply close_end_ok.
  - apply cache_becomes_ok; [done|]. eapply inv_call_Close; [exact H| | |done..].
    + simpl. rewrite hits_same. pose proof (tally_nonneg _ (hits_nonneg program) programs). pose proof (tally_nonneg _ (hits_nonneg program) failed). lia.
    + intros y. destruct ok; simpl; rewrite ?tally_snoc; lia.
Qed.

Lemma cache_thread_ok t e : inv (w_cache w) (t :: rest) w -> outcome_ok (step_thread w tid t e).
Proof.
  intros H. pose proof (cinv_head _ _ _ _ H) as Hok. unfold step_thread.
  destruct t as [|key spec|f coalesced|f| |f key spec ph|l program|l|l|ph]; try exact I; try (by apply step_flight_ok); try (by apply step_close_ok);
    destruct e; try exact I.
  - destruct (acquire_lookup_ok _ _ _ _ _ H) as (c' & r & E & H'). unfold region. rewrite E. destruct r; try (by apply cache_becomes_ok).
    apply winv_with. apply (inv_ledger _ _ w); try done. cbn [becomes with_threads w_threads].
    rewrite <-Permutation_cons_append, Hrest. by destruct r.
  - destruct (c_flightHeap (w_cache w) !! f) as [x|] eqn:Hf; [|exact I]. destruct (iv_flight _ _ _ H f x Hf) as [F1 _ _ _].
    rewrite (closed_Some _ _ _ F1). destruct (f_finished x) eqn:Hfin; [|exact I]. cbn [negb]. destruct expired.
    + apply cache_becomes_ok; [done|]. by apply (inv_swap _ (TAwait f coalesced)).
    + destruct (collect_ok _ _ coalesced _ _ _ H Hf Hfin) as (c' & [r [l|err]] & E & H'); unfold region; rewrite E; by apply cache_becomes_ok.
  - apply cache_becomes_ok; [done|]. by apply (inv_swap _ (TAwait f coalesced)).
  - apply region_becomes; [done|]. by apply abandonFlight_ok.
  - apply region_becomes; [done|]. destruct (inv_end _ _ _ H) as (c' & E & H'). by eexists _, _.
  - apply region_becomes; [done|]. by apply (invoke_end_ok _ _ program).
  - destruct (c_leaseHeap (w_cache w) !! l) as [x|] eqn:Hl; [|exact I]. destruct (l_once x) eqn:Ho; [|exact I|].
    + apply cache_becomes_ok; [done|]. by apply inv_once.
    + apply cache_becomes_ok; [done|]. by apply (inv_swap _ (TRelease l)).
  - destruct (c_leaseHeap (w_cache w) !! l) as [x|] eqn:Hl; [|exact I]. destruct (_ =? 0) eqn:Hz; [|exact I]. go_cases.
    apply region_becomes; [done|]. by apply (release_locked_ok _ _ _ _ x).
Qed.

End thread.

Lemma cache_step_ok e w : winv w -> outcome_ok (step e w).
Proof.
  intros H. unfold step. destruct (thread_of e) as [tid|].
  { destruct (w_threads w !! tid) as [t|] eqn:Ht; [|exact I]. destruct (insert_split _ _ _ Ht) as (rest & Hp & Hrest).
    eapply cache_thread_ok; [exact Hrest|]. unfold winv in H. by rewrite Hp in H. }
  assert (forall t, alike TDone t -> thread_ok (w_cache w) t -> outcome_ok (Stepped (spawn w t (w_cache w)))) as Hspawn.
  { intros t Ha Hok. apply winv_with. rewrite <-Permutation_cons_append. by apply inv_add. }
  destruct e; try exact I.
  - destruct (workercache.key _ _ _ spec) as [k|] eqn:Hk; [|by apply Hspawn]. apply key_matches in Hk. destruct (_ >? _); [by apply Hspawn|].
    apply (cache_spawn_ok w begin (fun ok => if ok then TBegun k spec else TDone)). unfold region_ok, begin, sbind, sget.
    destruct (c_closing (w_cache w)) eqn:Hc.
    + eexists _, _. split; [reflexivity|]. by apply inv_add.
    + rewrite startLocked_run. eexists _, _. split; [reflexivity|]. apply (inv_swap _ TEnd); [done|done|]. by apply inv_start.
  - destruct (_ <? _)%nat eqn:Hl; [|exact I]. apply Nat.ltb_lt in Hl.
    by apply (cache_spawn_ok w _ (fun r => match r with Ok program => TInvoking l program | Err _ => TDone end)), invoke_begin_ok.
  - destruct (_ <? _)%nat eqn:Hl; [|exact I]. apply Nat.ltb_lt in Hl. by apply Hspawn.
  - by apply Hspawn.
Qed.

End cachesteps.
