(* ===== verification/WorkerCacheGuarantees.v ===== *)
(** * Package [internal/workercache]: what the cache guarantees

    For every interleaving of callers, loads, invocations, releases and calls of
    [Close]: the life of a compiled program, the bounds of the cache, the
    integrity of what it serves, its eviction policy, and what [Close] leaves. *)
From stdpp Require Import base gmap strings list.
From S2P Require Import Prelude Problem Digest Json Model ServingAuth Scheduler Net Abi WorkerAgent WorkerCache WorkerCacheSafety WorkerCacheSteps.
Import problem digest model cache cachesafety cachesteps.

#[local] Open Scope Z_scope.

Module cacheguarantees.
#[local] Abbreviation ModuleSpec := workercache.ModuleSpec.
#[local] Abbreviation Key := workercache.Key.

(** ** Reachable states *)
Lemma New_bounds config compiler goos goarch c : New config compiler goos goarch = Ok c ->
  (1 <= c_maxWeightBytes c <= DefaultMaxWeightBytes /\ 1 <= c_maxEntries c <= DefaultMaxEntries) /\
  1 <= lg_maxActive (c_loadGate c) <= hardMaxConcurrentLoads /\ 1 <= lg_maxQueued (c_loadGate c) <= hardMaxQueuedLoads.
Proof. unfold New. intros H. ok_inv. subst c. cbn. split_and!; assumption. Qed.

Lemma New_ok config compiler goos goarch c : New config compiler goos goarch = Ok c -> winv (init c).
Proof.
  intros H. pose proof (New_bounds _ _ _ _ _ H) as (Hb & Hg). unfold New in H. ok_inv. subst c. unfold winv. cbn in Hb, Hg. split; try done; cbn; try lia.
  - apply NoDup_singleton.
  - apply NoDup_nil_2.
  - rewrite map_size_empty. lia.
  - intros x Hx. by apply not_elem_of_nil in Hx.
  - intros t Ht. by apply not_elem_of_nil in Ht.
Qed.

(** The limits do not change. *)
Definition limits (c : Cache) : Z * Z * Z * Z := (c_maxWeightBytes c, c_maxEntries c, lg_maxActive (c_loadGate c), lg_maxQueued (c_loadGate c)).

Definition keeps {A} (m : M Cache A) : Prop := forall c, limits (fst (m c)) = limits c.
Lemma keeps_bind {A B} (m : M Cache A) (k : A -> M Cache B) : keeps m -> (forall x, keeps (k x)) -> keeps (sbind m k).
Proof. intros Hm Hk c. unfold sbind. specialize (Hm c). destruct (m c) as [c' [x|]]; cbn in *; [|done]. by rewrite Hk. Qed.
Lemma keeps_read {B} (k : Cache -> M Cache B) : (forall c, limits (fst (k c c)) = limits c) -> keeps (sbind sget k).
Proof. intros Hk c. unfold sbind, sget. apply Hk. Qed.
Lemma keeps_ret {A} (x : A) : keeps (sret x).
Proof. done. Qed.
Create HintDb keeps.
#[local] Hint Resolve keeps_bind keeps_ret : keeps.

(** Regions without loops or calls. *)
Ltac keeps_cases := intros c; unfold sbind, sget, sput, sret; repeat case_match; simplify_eq; done.
Lemma keeps_get_entry p : keeps (get_entry p).
Proof. unfold get_entry. keeps_cases. Qed.
Lemma keeps_put_entry p e : keeps (put_entry p e).
Proof. done. Qed.
Lemma keeps_get_flight f : keeps (get_flight f).
Proof. unfold get_flight. keeps_cases. Qed.
Lemma keeps_put_flight f x : keeps (put_flight f x).
Proof. done. Qed.
Lemma keeps_get_lease l : keeps (get_lease l).
Proof. unfold get_lease. keeps_cases. Qed.
Lemma keeps_put_lease l x : keeps (put_lease l x).
Proof. done. Qed.
Lemma keeps_make_channel : keeps make_channel.
Proof. done. Qed.
Lemma keeps_close_channel ch : keeps (close_channel ch).
Proof. unfold close_channel. keeps_cases. Qed.
Lemma keeps_count x n : keeps (count x n).
Proof. done. Qed.
Lemma keeps_cancel : keeps cancelFlightsLocked.
Proof. done. Qed.
Lemma keeps_new_lease p : keeps (new_lease p).
Proof. done. Qed.
Lemma keeps_start : keeps startLocked.
Proof. intros c. rewrite startLocked_run. unfold started. by case_match. Qed.
Lemma keeps_end : keeps endLocked.
Proof. unfold endLocked, close_channel. keeps_cases. Qed.
#[local] Hint Resolve keeps_get_entry keeps_put_entry keeps_get_flight keeps_put_flight keeps_get_lease keeps_put_lease keeps_make_channel
  keeps_close_channel keeps_count keeps_cancel keeps_new_lease keeps_start keeps_end : keeps.

Lemma keeps_write {A} c' (k : unit -> M Cache A) c : limits c' = limits c -> keeps (k tt) -> limits (fst (sbind (sput c') k c)) = limits c.
Proof. intros E H. unfold sbind, sput. by rewrite H. Qed.
Ltac keeps_step :=
  match goal with
  | |- keeps (sbind sget _) => apply keeps_read; intros ?
  | |- keeps (sbind _ _) => apply keeps_bind; [|intros ?]
  | |- keeps (if ?b then _ else _) => destruct b
  | |- keeps (match ?x with _ => _ end) => destruct x
  | |- keeps _ => solve [auto with keeps]
  | |- limits (fst (sbind (sput _) _ _)) = _ => apply keeps_write; [done|]
  | |- limits (fst (sput _ _)) = _ => done
  | |- limits (fst ((if ?b then _ else _) _)) = _ => destruct b
  | |- limits (fst ((match ?x with _ => _ end) _)) = _ => destruct x
  | |- limits (fst (?m _)) = _ => let H := fresh in assert (keeps m) as H; [|apply H]
  end.
Ltac keeps := cbv zeta; repeat (keeps_step; cbv beta zeta).

Lemma keeps_reserve g g' r : reserve g = Ok (g', r) -> lg_maxActive g' = lg_maxActive g /\ lg_maxQueued g' = lg_maxQueued g.
Proof. unfold reserve. intros H. repeat case_match; by simplify_eq. Qed.
Lemma keeps_acquire key : keeps (acquire_lookup key).
Proof.
  unfold acquire_lookup. apply keeps_read. intros c. destruct (c_closing c); [keeps|]. destruct (c_entries c !! key); [keeps|]. destruct (c_flights c !! key); [keeps|].
  destruct (reserve (c_loadGate c)) as [[g r]|] eqn:E; [|keeps]. apply keeps_reserve in E as [E1 E2].
  unfold count, make_channel, sbind, sget, sput, sret. rewrite startLocked_run. cbn [fst]. unfold started, limits. cfields. by case_match; cfields; rewrite E1, E2.
Qed.
Lemma keeps_collect f coalesced : keeps (collect f coalesced).
Proof. unfold collect. keeps. Qed.
Lemma keeps_abandon f : keeps (abandonFlight f).
Proof. unfold abandonFlight. keeps. Qed.
Lemma keeps_evict victim : keeps (evict victim).
Proof. unfold evict. keeps. Qed.
#[local] Hint Resolve keeps_acquire keeps_collect keeps_abandon keeps_evict : keeps.
Lemma keeps_evict_all victims : keeps (evict_all victims).
Proof. induction victims; cbn [evict_all]; keeps. Qed.
#[local] Hint Resolve keeps_evict_all : keeps.
Lemma keeps_insert key weight program result running : keeps (insert_program key weight program result running).
Proof. unfold insert_program. keeps. Qed.
#[local] Hint Resolve keeps_insert : keeps.
Lemma keeps_complete key weight loaded result f : keeps (completeFlight key weight loaded result f).
Proof. unfold completeFlight. keeps. Qed.
Lemma keeps_closeEvicted failed : keeps (closeEvicted failed).
Proof. unfold closeEvicted. keeps. Qed.
Lemma keeps_close_begin : keeps close_begin.
Proof. unfold close_begin, cancelFlightsLocked. keeps_cases. Qed.
Lemma keeps_programs order : keeps (programs_of order).
Proof. induction order; cbn [programs_of]; keeps. Qed.
#[local] Hint Resolve keeps_programs : keeps.
Lemma keeps_close_release order : keeps (close_release order).
Proof.
  intros c. pose proof (keeps_programs order c) as H. unfold close_release, sbind, sget, sput. destruct (c_releasing c); [done|].
  by destruct (programs_of order c) as [c1 []].
Qed.
Lemma keeps_close_end failed : keeps (close_end failed).
Proof. unfold close_end, count, close_channel. keeps_cases. Qed.
Lemma keeps_invoke_begin l : keeps (invoke_begin l).
Proof. unfold invoke_begin. keeps. Qed.
Lemma keeps_invoke_end l : keeps (invoke_end l).
Proof. unfold invoke_end. keeps. Qed.
Lemma keeps_release l : keeps (release_locked l).
Proof. unfold release_locked. keeps. Qed.
Lemma keeps_begin : keeps begin.
Proof. unfold begin. keeps. Qed.
#[local] Hint Resolve keeps_complete keeps_closeEvicted keeps_close_begin keeps_close_release keeps_close_end keeps_invoke_begin keeps_invoke_end
  keeps_release keeps_begin : keeps.

Lemma region_keeps {A} (m : M Cache A) w k w' : keeps m -> (forall x c, w_cache (k x c) = c) -> region m w k = Stepped w' -> limits (w_cache w') = limits (w_cache w).
Proof.
  intros Hm Hk. unfold region. specialize (Hm (w_cache w)). destruct (m (w_cache w)) as [c [x|]]; [|done]. intros [= <-]. by rewrite Hk.
Qed.
Ltac by_region :=
  let Hs := fresh in
  intros Hs; eapply region_keeps; [| |exact Hs]; [auto with keeps|first [done|by intros []|by intros [? []]]].
Lemma step_limits e w w' : step e w = Stepped w' -> limits (w_cache w') = limits (w_cache w).
Proof.
  unfold step. destruct (thread_of e) as [tid|].
  - destruct (w_threads w !! tid) as [t|]; [|done]. unfold step_thread.
    destruct t as [|key spec|f coalesced|f| |f key spec ph|l program|l|l|ph]; try done.
    + destruct e; try done. by_region.
    + destruct e; try done; [|by intros [= <-]]. destruct (_ !! f); [|done]. destruct (negb _); [done|]. destruct expired; [by intros [= <-]|].
      by_region.
    + destruct e; try done. by_region.
    + destruct e; try done. by_region.
    + unfold step_flight. destruct ph as [|[err|]|err| |[|program programs] [|p failed] active|], e; try done; try (by intros [= <-]);
        try by_region.
      * destruct (_ <? _); [|done]. by intros [= <-].
      * destruct (_ !! f); [|done]. destruct (f_cancelled _); [|done]. by intros [= <-].
      * destruct (loadAndCompile _ _ _ _ _ _) as [result []]; intros H;
          (eapply region_keeps in H; [exact H|auto with keeps|done]).
    + destruct e; try done. by_region.
    + destruct e; try done. destruct (_ !! l); [|done]. destruct (l_once _); [|done|]; by intros [= <-].
    + destruct e; try done. destruct (_ !! l); [|done]. destruct (_ =? 0); [|done]. by_region.
    + unfold step_close. destruct ph as [|ch|ch| |[|program programs] failed], e; try done; try (by intros [= <-]).
      * by_region.
      * destruct (closed ch _); [|done]. by intros [= <-].
      * destruct (closed ch _); [|done]. by intros [= <-].
      * case_bool_decide; [|done]. by_region.
      * by_region.
  - destruct e; try done; try (by intros [= <-]).
    + destruct (workercache.key _ _ _ _); [|by intros [= <-]]. destruct (_ >? _); [by intros [= <-]|].
      by_region.
    + destruct (_ <? _)%nat; [|done]. by_region.
    + destruct (_ <? _)%nat; [|done]. by intros [= <-].
Qed.

Lemma cache_run_ok es w : winv w -> exists w', run es w = Stepped w' /\ winv w' /\ limits (w_cache w') = limits (w_cache w).
Proof.
  revert w. induction es as [|e es IH]; intros w H; cbn [run]; [by eexists|]. pose proof (cache_step_ok e w H) as Hs.
  destruct (step e w) as [| |w1] eqn:E; [by apply IH|done|]. apply step_limits in E. destruct (IH w1 Hs) as (w' & ? & ? & El). exists w'. by rewrite El, E.
Qed.

(** ** Programs *)
Lemma leased_owned w l x e : winv w -> c_leaseHeap (w_cache w) !! l = Some x -> l_released x = false ->
  c_entryHeap (w_cache w) !! l_entry x = Some e -> l_entry x ∈ c_lru (w_cache w) /\ 1 <= e_refs e /\ (e_program e ∉ w_closeCalls w).
Proof.
  intros H Hl Hr He. destruct (iv_entry _ _ _ H _ _ He) as [(f & y & _ & _ & Hrefs) Htable].
  pose proof (tally_member _ (pins_nonneg (l_entry x)) _ x (list_elem_of_lookup_2 _ _ _ Hl)) as Hpin. unfold pins at 1 in Hpin. rewrite Hr, hits_same in Hpin.
  pose proof (tally_nonneg _ (waits_nonneg f) (w_threads w)) as Hw.
  assert (l_entry x ∈ c_lru (w_cache w)) as Hin. { destruct (decide (l_entry x ∈ c_lru (w_cache w))) as [|Hn]; [done|]. specialize (Htable Hn). lia. }
  split_and!; [done|lia|]. intros Hc. destruct (iv_calls _ _ _ H _ Hc) as [_ Hz].
  pose proof (tally_zero _ (owns_nonneg (c_entryHeap (w_cache w)) (e_program e)) _ _ Hz Hin) as Ho. unfold owns in Ho. rewrite He, hits_same in Ho. done.
Qed.

Lemma invoking_unreleased w l program : winv w -> TInvoking l program ∈ w_threads w ->
  exists x e, c_leaseHeap (w_cache w) !! l = Some x /\ l_released x = false /\ c_entryHeap (w_cache w) !! l_entry x = Some e /\ e_program e = program.
Proof.
  intros H Ht. destruct (iv_thread _ _ _ H _ Ht) as (x & e & Hx & He & <-). exists x, e. split_and!; try done.
  destruct (iv_lease _ _ _ H l x Hx) as [_ L2 _ _ L5]. destruct (l_released x); [|done]. specialize (L5 eq_refl).
  assert (forall t, 0 <= invoking l t) as Hn by (intros []; simpl; try done; apply hits_nonneg).
  pose proof (tally_member _ Hn _ _ Ht) as Hm. simpl in Hm. rewrite hits_same in Hm. lia.
Qed.

Lemma occ_NoDup l : (forall x, occ x l <= 1) -> NoDup l.
Proof.
  induction l as [|y l IH]; intros H; [apply NoDup_nil_2|]. apply NoDup_cons. split.
  - intros Hy%occ_elem. specialize (H y). simpl in H. rewrite hits_same in H. lia.
  - apply IH. intros x. specialize (H x). simpl in H. pose proof (hits_nonneg x y). lia.
Qed.

(** What a caller that looks [key] up is given. *)
Definition for_key (c : Cache) (l : nat) (key : Key) : Prop := exists x, c_leaseHeap c !! l = Some x /\ key_at (c_entryHeap c) (l_entry x) key.

Lemma lookup_hit w key c' l : winv w -> acquire_lookup key (w_cache w) = (c', Ok (Hit l)) -> for_key c' l key.
Proof.
  intros H. unfold acquire_lookup, sbind, sget. destruct (c_closing _); [by intros [= <- ?]|].
  destruct (c_entries (w_cache w) !! key) as [p|] eqn:Hp.
  - destruct (iv_key _ _ _ H key p Hp) as (e & He & Hk). unfold get_entry, put_entry, count, new_lease, sbind, sget, sput. rewrite He. unfold sret. cfields.
    intros [= <- <-]. unfold for_key. cfields. exists (lease_on p). split; [by rewrite lookup_app_r, Nat.sub_diag by done|].
    exists (set_refs (e_refs e + 1) e). split; [|done]. apply list_lookup_insert_eq. by eapply lookup_lt_Some.
  - destruct (c_flights _ !! key) as [f|].
    + unfold get_flight, put_flight, count, sbind, sget, sput. destruct (_ !! f); by intros [= <- ?].
    + unfold count, sbind, sget, sput. destruct (reserve _) as [[g r]|]; [|by intros [= <- ?]]. unfold make_channel, sbind, sget, sput, sret. rewrite startLocked_run.
      by intros [= <- ?].
Qed.

Lemma lookup_flight w key c' f r : winv w -> acquire_lookup key (w_cache w) = (c', Ok r) -> r = Joins f \/ (exists res, r = Starts f res) ->
  exists x, c_flightHeap c' !! f = Some x /\ f_key x = key.
Proof.
  intros H. unfold acquire_lookup, sbind, sget. destruct (c_closing _); [intros [= <- <-]; naive_solver|].
  destruct (c_entries (w_cache w) !! key) as [p|].
  - unfold get_entry, put_entry, count, new_lease, sbind, sget, sput. destruct (_ !! p); [|done]. unfold sret. cfields. intros [= <- <-]. naive_solver.
  - destruct (c_flights _ !! key) as [f'|] eqn:Hf.
    + destruct (iv_flights _ _ _ H key f' Hf) as [(x & Hx & Hk & _) _]. unfold get_flight, put_flight, count, sbind, sget, sput. rewrite Hx. unfold sret. cfields.
      intros [= <- <-] [[= <-]|[? ?]]; [|done]. cfields. eexists. split; [apply list_lookup_insert_eq; by eapply lookup_lt_Some|]. done.
    + unfold count, sbind, sget, sput. destruct (reserve _) as [[g res]|]; [|intros [= <- <-]; naive_solver].
      unfold make_channel, sbind, sget, sput, sret. rewrite startLocked_run. intros [= <- <-] [?|[res' [= <- _]]]; [done|].
      eexists (new_flight key _). split; [|done]. unfold started. cfields. by case_match; cfields; rewrite lookup_app_r, Nat.sub_diag by done.
Qed.

Lemma collect_key w f x coalesced c' r l : winv w -> c_flightHeap (w_cache w) !! f = Some x -> f_finished x = true ->
  collect f coalesced (w_cache w) = (c', Ok (r, inl l)) -> for_key c' l (f_key x).
Proof.
  intros H Hf Hfin. destruct (fk_finished _ _ _ _ (iv_flight _ _ _ H f x Hf) Hfin) as [_ Hm]. unfold made in Hm.
  unfold collect, get_flight, new_lease, sbind, sget, sput. rewrite Hf. unfold sret. destruct (f_err x); [by intros [= <- ? ?]|].
  destruct (f_entry x) as [p|]; [|done]. intros [= <- _ <-]. exists (lease_on p). cfields. split; [by rewrite lookup_app_r, Nat.sub_diag by done|]. apply Hm.
Qed.

(** ** Guarantees *)

(** C14: Under every schedule the cache does not panic, it never calls [Close] on a
    compiled program that an unreleased lease pins or an invocation runs, and no
    program is closed twice. *)
Theorem program_lifetime config compiler goos goarch c es : New config compiler goos goarch = Ok c ->
  exists w, run es (init c) = Stepped w /\
    (forall l program, TInvoking l program ∈ w_threads w -> program ∉ w_closeCalls w) /\
    (forall l x e, c_leaseHeap (w_cache w) !! l = Some x -> l_released x = false -> c_entryHeap (w_cache w) !! l_entry x = Some e -> e_program e ∉ w_closeCalls w) /\
    NoDup (w_closed w ++ w_discarded w).
Proof.
  intros Hc. destruct (cache_run_ok es _ (New_ok _ _ _ _ _ Hc)) as (w & E & H & _). exists w. split_and!; [done|..].
  - intros l program Ht. destruct (invoking_unreleased _ _ _ H Ht) as (x & e & Hx & Hr & He & <-). by eapply leased_owned.
  - intros l x e Hx Hr He. by eapply leased_owned.
  - apply occ_NoDup. intros x. pose proof (iv_programs _ _ _ H x) as Hp. pose proof (program_places _ _ _ x H) as Hn. rewrite tally_app.
    case_bool_decide; simpl in Hp; lia.
Qed.

(** C15: When [Close] has succeeded, every program that was ever compiled has been
    closed exactly once, every lease is released, no call, load or invocation is
    in progress, and the cache is empty. *)
Theorem close_complete config compiler goos goarch c es w : New config compiler goos goarch = Ok c -> run es (init c) = Stepped w ->
  c_released (w_cache w) = true ->
  w_closed w ++ w_discarded w ≡ₚ seq 0 (length (w_programs w)) /\
  (forall l x, c_leaseHeap (w_cache w) !! l = Some x -> l_released x = true) /\
  (forall t, t ∈ w_threads w -> holds t = 0 /\ forall l, invoking l t = 0) /\
  c_entries (w_cache w) = ∅ /\ c_flights (w_cache w) = ∅ /\ c_currentWeight (w_cache w) = 0.
Proof.
  intros Hc Hrun Hrel. destruct (cache_run_ok es _ (New_ok _ _ _ _ _ Hc)) as (w' & E & H & _). assert (w' = w) as -> by congruence. clear E.
  destruct (iv_released _ _ _ H (or_intror Hrel)) as [_ Hidle]. destruct (iv_detached _ _ _ H (or_intror Hrel)) as [Hlru Hpend].
  pose proof (iv_active _ _ _ H) as Ha. pose proof (tally_nonneg _ holds_nonneg (w_threads w)) as H1.
  pose proof (tally_nonneg _ unreleased_nonneg (c_leaseHeap (w_cache w))) as H2.
  assert (forall l x, c_leaseHeap (w_cache w) !! l = Some x -> l_released x = true) as Hleases.
  { intros l x Hx. assert (unreleased x = 0) as Hu by (eapply (tally_zero _ unreleased_nonneg); [|by eapply list_elem_of_lookup_2]; lia).
    unfold unreleased in Hu. by destruct (l_released x). }
  assert (forall t, t ∈ w_threads w -> holds t = 0) as Hholds by (intros t Ht; apply (tally_zero _ holds_nonneg (w_threads w)); [lia|done]).
  assert (forall x, occ x (w_closed w ++ w_discarded w) = b2z (bool_decide (x < length (w_programs w))%nat)) as Hocc.
  { intros x. rewrite <-(iv_programs _ _ _ H x), Hlru, Hpend, (iv_emptied _ _ _ H Hrel x), tally_app. simpl. lia. }
  split_and!; [|done|..].
  - apply NoDup_Permutation; [apply occ_NoDup|apply NoDup_seq|].
    + intros x. rewrite Hocc. by case_bool_decide.
    + intros x. rewrite occ_elem, Hocc, elem_of_seq. case_bool_decide; simpl; lia.
  - intros t Ht. split; [by apply Hholds|]. intros l. destruct t as [| | | | | |l' program| | |]; try done. exfalso.
    destruct (invoking_unreleased _ _ _ H Ht) as (x & e & Hx & Hr & _). by rewrite (Hleases _ _ Hx) in Hr.
  - pose proof (iv_lru _ _ _ H) as Hl. rewrite Hlru in Hl. apply Permutation_nil in Hl. apply fmap_nil_inv in Hl. by apply map_to_list_empty_iff.
  - apply map_empty. intros k. destruct (c_flights (w_cache w) !! k) as [f|] eqn:Hf; [|done]. exfalso.
    destruct (iv_flights _ _ _ H k f Hf) as [(x & Hx & _ & Hrun') _]. pose proof (fk_flying _ _ _ _ (iv_flight _ _ _ H f x Hx)) as Hfly. rewrite Hrun' in Hfly.
    rewrite tally_fresh in Hfly; [done|]. intros t Ht. specialize (Hholds t Ht). by destruct t.
  - by rewrite (iv_weight _ _ _ H), Hlru.
Qed.

(** At every moment the entries and their total size, the loads in progress and
    the loads that wait are within the configured limits, which are within the
    hard ones; the recorded weight is the sum of the sizes of the cached
    artifacts, and the gate counts the loading goroutines. *)
Theorem cache_bounds config compiler goos goarch c es : New config compiler goos goarch = Ok c ->
  exists w, run es (init c) = Stepped w /\
    let c' := w_cache w in
    c_currentWeight c' = tally (weighs (c_entryHeap c')) (c_lru c') /\
    0 <= c_currentWeight c' <= c_maxWeightBytes c /\ c_maxWeightBytes c <= DefaultMaxWeightBytes /\
    Z.of_nat (size (c_entries c')) = len (c_lru c') /\ Z.of_nat (size (c_entries c')) <= c_maxEntries c /\ c_maxEntries c <= DefaultMaxEntries /\
    lg_active (c_loadGate c') = tally loads (w_threads w) /\ tally loads (w_threads w) <= lg_maxActive (c_loadGate c) <= hardMaxConcurrentLoads /\
    lg_queued (c_loadGate c') = tally queues (w_threads w) /\ tally queues (w_threads w) <= lg_maxQueued (c_loadGate c) <= hardMaxQueuedLoads.
Proof.
  intros Hc. destruct (New_bounds _ _ _ _ _ Hc) as [[Hb1 Hb2] [Hb3 Hb4]].
  destruct (cache_run_ok es _ (New_ok _ _ _ _ _ Hc)) as (w & E & H & Hlim). exists w. split; [done|]. unfold limits in Hlim. simpl in Hlim. simplify_eq.
  destruct (iv_capacity _ _ _ H), (iv_gate _ _ _ H) as (? & ? & ? & ?). pose proof (weighs_nonneg _ _ _ H).
  assert (Z.of_nat (size (c_entries (w_cache w))) = len (c_lru (w_cache w))) as Hlen.
  { unfold len. rewrite (iv_lru _ _ _ H), length_fmap, length_map_to_list. done. }
  pose proof (iv_weight _ _ _ H). cbv zeta. split_and!; try done; try congruence; lia.
Qed.

(** C40: Every program that an invocation runs was compiled from bytes that have the
    SHA-256 digest and the size in the key of its entry, and a caller only gets
    leases on entries for the key that it asked for, from the table or from the
    flight that it started or joined. *)
Theorem cache_integrity config compiler goos goarch c es : New config compiler goos goarch = Ok c ->
  exists w, run es (init c) = Stepped w /\
    (forall l program, TInvoking l program ∈ w_threads w -> exists x e wasm, c_leaseHeap (w_cache w) !! l = Some x /\ c_entryHeap (w_cache w) !! l_entry x = Some e /\
       e_program e = program /\ w_programs w !! program = Some wasm /\
       Sum wasm = workercache.k_ArtifactDigest (e_key e) /\ strlen wasm = workercache.k_ArtifactSize (e_key e)) /\
    (forall key c' l, acquire_lookup key (w_cache w) = (c', Ok (Hit l)) -> for_key c' l key) /\
    (forall key c' f r, acquire_lookup key (w_cache w) = (c', Ok r) -> r = Joins f \/ (exists res, r = Starts f res) ->
       exists x, c_flightHeap c' !! f = Some x /\ f_key x = key) /\
    (forall f x coalesced c' r l, c_flightHeap (w_cache w) !! f = Some x -> f_finished x = true ->
       collect f coalesced (w_cache w) = (c', Ok (r, inl l)) -> for_key c' l (f_key x)).
Proof.
  intros Hc. destruct (cache_run_ok es _ (New_ok _ _ _ _ _ Hc)) as (w & E & H & _). exists w. split_and!; [done|..].
  - intros l program Ht. destruct (invoking_unreleased _ _ _ H Ht) as (x & e & Hx & _ & He & <-).
    destruct (iv_compiled _ _ _ H _ _ He) as (_ & _ & wasm & W1 & W2 & W3). by exists x, e, wasm.
  - intros key c' l. by apply lookup_hit.
  - intros key c' f r. by apply lookup_flight.
  - intros f x coalesced c' r l. by apply collect_key.
Qed.

(** [selectVictimsLocked] returns the shortest sequence of least recently used
    unpinned entries whose eviction makes room, and fails only when the eviction
    of all unpinned entries would not make room. *)
Theorem victims_least_recent config compiler goos goarch c es w weight : New config compiler goos goarch = Ok c -> run es (init c) = Stepped w ->
  let c' := w_cache w in
  let room gone := fits c' weight (c_currentWeight c') (Z.of_nat (size (c_entries c'))) gone in
  match selectVictimsLocked c' weight with
  | Ok victims => exists n, (n <= length (candidates c'))%nat /\ victims.*1 = take n (candidates c') /\ room victims.*1 /\
      forall m, (m < n)%nat -> ~ room (take m (candidates c'))
  | Err err => err = SentinelError agent.ErrFull /\ forall n, ~ room (take n (candidates c'))
  end.
Proof.
  intros Hc Hrun. destruct (cache_run_ok es _ (New_ok _ _ _ _ _ Hc)) as (w' & E & H & _). assert (w' = w) as -> by congruence.
  exact (selectVictims_spec _ _ _ weight H).
Qed.

(** ** Examples *)
Definition ex_spec (wasm : string) : ModuleSpec :=
  {| workercache.ms_ArtifactDigest := Sum wasm; workercache.ms_ArtifactSize := strlen wasm; workercache.ms_ABI := ABIWASICommandV1;
     workercache.ms_HostAPIProfile := HostAPIProfileNone; workercache.ms_RuntimeFeatureProfile := wasmprofile.FeatureProfile |}.
Definition ex_config : Config := {| cg_MaxWeightBytes := 16; cg_MaxEntries := 1; cg_MaxConcurrentLoads := 1; cg_MaxQueuedLoads := 1 |}.
Definition ex_compiler : wasmprofile.Profile := {| wasmprofile.p_Engine := wasmprofile.EngineCompiler; wasmprofile.p_MemoryLimitMiB := 64 |}.
Definition ex_open (wasm : string) : Opened :=
  {| op_file := Some {| fl_bytes := wasm; fl_readErr := None; fl_closeErr := None |}; op_info := {| in_Digest := Sum wasm; in_Size := strlen wasm |}; op_err := None |}.
Definition ex_compiled : Compiled := {| cm_program := true; cm_duration := 5; cm_err := None; cm_closeErr := None |}.
Definition ex_cache : Cache := ltac:(let x := eval vm_compute in (New ex_config ex_compiler "linux" "amd64") in match x with Ok ?c => exact c end).
Lemma ex_cache_ok : New ex_config ex_compiler "linux" "amd64" = Ok ex_cache.
Proof. vm_compute. exact eq_refl. Qed.

(** A cold load, an invocation and its release; then another module, which
    displaces the first; its lease is released and the cache closed. *)
Definition ex_load (caller : nat) (wasm : string) : list event :=
  [EvAcquire (ex_spec wasm); EvLookup caller; EvLoaded (S caller) (ex_open wasm) (ex_open wasm) 7 ex_compiled].
Definition ex_invoke : list event := ex_load 0 "abc" ++ [EvEnd 1; EvGate 1; EvEnd 1; EvDone 0 false; EvInvoke 0].
Definition ex_evict : list event :=
  ex_invoke ++ [EvReturn 2; EvRelease 0; EvOnce 3; EvOnce 3] ++ ex_load 4 "abcd" ++ [EvProgramClosed 5 true; EvEnd 5; EvGate 5; EvEnd 5; EvDone 4 false].
Definition ex_close : list event :=
  ex_evict ++ [EvClose; EvChannel 6; EvRelease 1; EvOnce 7; EvOnce 7; EvChannel 6; EvDetach 6 [1%nat]; EvProgramClosed 6 true; EvEnd 6].
Definition after (es : list event) : World := match run es (init ex_cache) with Stepped w => w | _ => init ex_cache end.
Lemma cache_after_ok es : run es (init ex_cache) = Stepped (after es).
Proof. unfold after. destruct (cache_run_ok es _ (New_ok _ _ _ _ _ ex_cache_ok)) as (w & -> & _). done. Qed.

Lemma program_lifetime_witness : exists w, run ex_evict (init ex_cache) = Stepped w /\ NoDup (w_closed w ++ w_discarded w) /\ w_closed w = [0%nat].
Proof.
  destruct (program_lifetime ex_config ex_compiler "linux" "amd64" ex_cache ex_evict ex_cache_ok) as (w & E & _ & _ & Hnd). exists w. split; [exact E|]. split; [exact Hnd|].
  assert (match run ex_evict (init ex_cache) with Stepped w => w_closed w | _ => [] end = [0%nat]) as Hc by (vm_compute; exact eq_refl).
  rewrite E in Hc. exact Hc.
Defined.

Lemma close_complete_witness : w_closed (after ex_close) ++ w_discarded (after ex_close) ≡ₚ [0; 1]%nat /\ c_entries (w_cache (after ex_close)) = ∅.
Proof.
  destruct (close_complete ex_config ex_compiler "linux" "amd64" ex_cache ex_close (after ex_close) ex_cache_ok (cache_after_ok ex_close)) as (Hp & _ & _ & He & _).
  - vm_compute. exact eq_refl.
  - split; [|exact He]. assert (length (w_programs (after ex_close)) = 2%nat) as Hl by (vm_compute; exact eq_refl). rewrite Hl in Hp. exact Hp.
Defined.

Lemma cache_bounds_witness : exists w, run ex_evict (init ex_cache) = Stepped w /\ c_currentWeight (w_cache w) <= 16 /\ tally loads (w_threads w) <= 1.
Proof.
  destruct (cache_bounds ex_config ex_compiler "linux" "amd64" ex_cache ex_evict ex_cache_ok) as (w & E & _ & [_ Hw] & _ & _ & _ & _ & _ & [Hl _] & _).
  exists w. split; [exact E|]. split; [exact Hw|exact Hl].
Defined.

Lemma cache_integrity_witness : exists w wasm, run ex_invoke (init ex_cache) = Stepped w /\ w_programs w !! 0%nat = Some wasm /\ strlen wasm = 3.
Proof.
  destruct (cache_integrity ex_config ex_compiler "linux" "amd64" ex_cache ex_invoke ex_cache_ok) as (w & E & Hinvoke & _).
  assert (match run ex_invoke (init ex_cache) with
          | Stepped w => (w_threads w !! 2%nat, (fun e => workercache.k_ArtifactSize (e_key e)) <$> c_entryHeap (w_cache w), l_entry <$> c_leaseHeap (w_cache w))
          | _ => (None, [], []) end = (Some (TInvoking 0 0), [3], [0%nat])) as Ht by (vm_compute; exact eq_refl).
  rewrite E in Ht. injection Ht as Ht He Hl.
  destruct (Hinvoke 0%nat 0%nat (list_elem_of_lookup_2 _ _ _ Ht)) as (x & e & wasm & Hx & Hxe & _ & Hw & _ & Hsize). exists w, wasm.
  split; [exact E|]. split; [exact Hw|]. rewrite Hsize.
  assert ((l_entry <$> c_leaseHeap (w_cache w)) !! 0%nat = Some (l_entry x)) as H1 by (rewrite list_lookup_fmap, Hx; exact eq_refl).
  rewrite Hl in H1. injection H1 as H1. rewrite <-H1 in Hxe.
  assert (((fun e => workercache.k_ArtifactSize (e_key e)) <$> c_entryHeap (w_cache w)) !! 0%nat = Some (workercache.k_ArtifactSize (e_key e))) as H2
    by (rewrite list_lookup_fmap, Hxe; exact eq_refl).
  rewrite He in H2. injection H2 as H2. symmetry. exact H2.
Defined.

(** With "abcd" idle, a module of 14 bytes needs its place. *)
Definition ex_full : list event := ex_evict ++ [EvRelease 1; EvOnce 6; EvOnce 6].
Lemma victims_least_recent_witness : exists victims, selectVictimsLocked (w_cache (after ex_full)) 14 = Ok victims /\ victims.*1 = [1%nat].
Proof.
  pose proof (victims_least_recent ex_config ex_compiler "linux" "amd64" ex_cache ex_full (after ex_full) 14 ex_cache_ok (cache_after_ok ex_full)) as H. cbv zeta in H.
  assert (match selectVictimsLocked (w_cache (after ex_full)) 14 with Ok victims => victims = [(1%nat, EvictionCapacityBytes)] | Err _ => False end) as Hv by (vm_compute; exact eq_refl).
  destruct (selectVictimsLocked (w_cache (after ex_full)) 14) as [victims|]; [|destruct Hv]. exists victims. split; [exact eq_refl|].
  destruct H as (n & _ & _ & _). rewrite Hv. exact eq_refl.
Defined.

End cacheguarantees.
