(* ===== verification/Rpc.v ===== *)
(** * Package [internal/rpc]: the rules that every internal transport enforces

    Versions, bounded messages, deadlines that cross processes as remaining
    durations, and the concurrency limit of a peer.  Durations and times are
    nanoseconds; what clocks, readers and contexts answer are arguments.
    Messages leave out the numbers and quoted strings that they print. *)
From stdpp Require Import base gmap strings list.
From S2P Require Import Prelude.

#[local] Open Scope Z_scope.

Module rpc.

Definition SchemaVersion : string := "minicloud-rpc-v1".
Definition DefaultMaxMessageBytes : Z := Z.shiftl 4 20.
Definition HardMaxMessageBytes : Z := Z.shiftl 4 20.
Definition DefaultMaxDeadline : Z := 10 * 1000000000.
Definition HardMaxDeadline : Z := 10 * 1000000000.
Definition DefaultMaxConcurrent : Z := 256.
Definition HardMaxConcurrent : Z := 256.

Definition ErrInvalidLimits : string := "rpc limits are invalid".
Definition ErrInvalidVersion : string := "rpc schema version is invalid".
Definition ErrIncompatibleVersion : string := "rpc schema version is incompatible".
Definition ErrMessageTooLarge : string := "rpc message exceeds size limit".
Definition ErrInvalidDeadline : string := "rpc deadline is invalid".
Definition ErrContextRequired : string := "rpc context is required".
Definition ErrConcurrentLimit : string := "rpc peer concurrency limit reached".
Definition deadlineExceeded : string := "context deadline exceeded".

(** [fmt.Errorf("%w: detail", err)] *)
Definition detailed (err detail : string) : error := WrapError detail (SentinelError err).

(** ** Limits *)
Record Limits := { lm_MaxMessageBytes : Z; lm_MaxDeadline : Z; lm_MaxConcurrent : Z }.
Definition DefaultLimits : Limits :=
  {| lm_MaxMessageBytes := DefaultMaxMessageBytes; lm_MaxDeadline := DefaultMaxDeadline; lm_MaxConcurrent := DefaultMaxConcurrent |}.

Definition Validate (l : Limits) : result unit :=
  fail_if ((lm_MaxMessageBytes l <=? 0) || (lm_MaxMessageBytes l >? HardMaxMessageBytes))
    (detailed ErrInvalidLimits "max message bytes must be between 1 and the hard limit") ;;;
  fail_if ((lm_MaxDeadline l <=? 0) || (lm_MaxDeadline l >? HardMaxDeadline))
    (detailed ErrInvalidLimits "max deadline must be positive and at most the hard limit") ;;;
  fail_if ((lm_MaxConcurrent l <=? 0) || (lm_MaxConcurrent l >? HardMaxConcurrent))
    (detailed ErrInvalidLimits "max concurrent must be between 1 and the hard limit").

Definition Normalize (l : Limits) : result Limits :=
  let defaults := DefaultLimits in
  let l := {| lm_MaxMessageBytes := if lm_MaxMessageBytes l =? 0 then lm_MaxMessageBytes defaults else lm_MaxMessageBytes l;
              lm_MaxDeadline := if lm_MaxDeadline l =? 0 then lm_MaxDeadline defaults else lm_MaxDeadline l;
              lm_MaxConcurrent := if lm_MaxConcurrent l =? 0 then lm_MaxConcurrent defaults else lm_MaxConcurrent l |} in
  Validate l ;;;
  Ok l.

(** ** Versions *)
Record Header := { hd_SchemaVersion : string }.

Definition ValidateVersion (version : string) : result unit :=
  fail_if (version == "") (detailed ErrInvalidVersion "schema version is required") ;;;
  fail_if (version != SchemaVersion) (detailed ErrIncompatibleVersion "got").

Definition Header_Validate (h : Header) : result unit := ValidateVersion (hd_SchemaVersion h).

Definition Negotiate (local peer : Header) : result unit :=
  fail_if ((hd_SchemaVersion local == "") || (hd_SchemaVersion peer == ""))
    (detailed ErrInvalidVersion "both peers must advertise a schema version") ;;;
  fail_if (hd_SchemaVersion local != hd_SchemaVersion peer) (detailed ErrIncompatibleVersion "local and peer") ;;;
  wrap_err "local rpc header" (Header_Validate local).

(** ** Messages *)
Definition validateMessageLimit (maxBytes : Z) : result unit :=
  fail_if ((maxBytes <=? 0) || (maxBytes >? HardMaxMessageBytes))
    (detailed ErrInvalidLimits "max message bytes must be between 1 and the hard limit").

Definition ValidateMessage (message : string) (maxBytes : Z) : result unit :=
  validateMessageLimit maxBytes ;;;
  fail_if (strlen message >? maxBytes) (detailed ErrMessageTooLarge "got more bytes than the limit").

(** A reader: its bytes and the error that follows them, if it is not the end;
    [rd_together] says that the error comes with the last bytes. *)
Record Reader := { rd_bytes : string; rd_err : option error; rd_together : bool }.

(** [io.ReadAll(io.LimitReader(source, limit))] *)
Definition ReadAll_Limit (source : Reader) (limit : Z) : result string :=
  let reached := (strlen (rd_bytes source) <? limit) || ((strlen (rd_bytes source) =? limit) && rd_together source) in
  match rd_err source with
  | Some err => if reached then Err err else Ok (String.substring 0 (Z.to_nat limit) (rd_bytes source))
  | None => Ok (String.substring 0 (Z.to_nat limit) (rd_bytes source))
  end.

Definition ReadMessage (source : option Reader) (maxBytes : Z) : result string :=
  match source with
  | None => Err (PlainError "rpc message source is required")
  | Some source =>
    validateMessageLimit maxBytes ;;;
    data <- wrap_err "reading rpc message" (ReadAll_Limit source (maxBytes + 1)) ;;
    fail_if (strlen data >? maxBytes) (detailed ErrMessageTooLarge "got more bytes than the limit") ;;;
    Ok data
  end.

(** ** Deadlines *)
Record Budget := { bg_RemainingNanos : Z }.

Definition clampRemaining (incoming parentRemaining : Z) (parentHasDeadline : bool) (limits : Limits) : result Z :=
  fail_if (incoming <=? 0) (detailed ErrInvalidDeadline "remaining duration must be positive") ;;;
  let effective := if incoming >? lm_MaxDeadline limits then lm_MaxDeadline limits else incoming in
  fail_if (parentHasDeadline && (parentRemaining <=? 0)) (detailed deadlineExceeded "parent deadline has expired") ;;;
  let effective := if parentHasDeadline && (parentRemaining <? effective) then parentRemaining else effective in
  fail_if (effective <=? 0) (SentinelError deadlineExceeded) ;;;
  Ok effective.

Definition NewBudget (remaining : Z) (limits : Limits) : result Budget :=
  normalized <- Normalize limits ;;
  effective <- clampRemaining remaining 0 false normalized ;;
  Ok {| bg_RemainingNanos := effective |}.

Definition Duration (b : Budget) (limits : Limits) : result Z :=
  normalized <- Normalize limits ;;
  clampRemaining (bg_RemainingNanos b) 0 false normalized.

Definition ClampRemaining (incoming parentRemaining : Z) (parentHasDeadline : bool) (limits : Limits) : result Z :=
  normalized <- Normalize limits ;;
  clampRemaining incoming parentRemaining parentHasDeadline normalized.

(** A context: what [Err] answers, and its deadline. *)
Record Context := { cx_err : option error; cx_deadline : option Z }.

(** [time.Until], which saturates. *)
Definition Until (deadline now : Z) : Z := Z.max (- 2 ^ 63) (Z.min (2 ^ 63 - 1) (deadline - now)).

Definition OutboundRemaining (ctx : option Context) (now : Z) (limits : Limits) : result Z :=
  match ctx with
  | None => Err (SentinelError ErrContextRequired)
  | Some ctx =>
    normalized <- Normalize limits ;;
    match cx_err ctx with
    | Some err => Err err
    | None =>
      match cx_deadline ctx with
      | None => Ok (lm_MaxDeadline normalized)
      | Some deadline =>
        let remaining := Until deadline now in
        fail_if (remaining <=? 0) (SentinelError deadlineExceeded) ;;;
        clampRemaining remaining 0 false normalized
      end
    end
  end.

Definition OutboundBudget (ctx : option Context) (now : Z) (limits : Limits) : result Budget :=
  remaining <- OutboundRemaining ctx now limits ;;
  Ok {| bg_RemainingNanos := remaining |}.

(** [context.WithTimeout]: the earlier of the two deadlines. *)
Definition WithTimeout (parent : Context) (now timeout : Z) : Context :=
  {| cx_err := None;
     cx_deadline := Some (match cx_deadline parent with Some current => if current <? now + timeout then current else now + timeout | None => now + timeout end) |}.

(** [now] is read for the deadline of the parent, [later] by [WithTimeout]. *)
Definition WithBudget (parent : option Context) (now later : Z) (budget : Budget) (limits : Limits) : result Context :=
  match parent with
  | None => Err (SentinelError ErrContextRequired)
  | Some parent =>
    normalized <- Normalize limits ;;
    match cx_err parent with
    | Some err => Err err
    | None =>
      let '(parentRemaining, hasParentDeadline) := match cx_deadline parent with Some deadline => (Until deadline now, true) | None => (0, false) end in
      effective <- clampRemaining (bg_RemainingNanos budget) parentRemaining hasParentDeadline normalized ;;
      Ok (WithTimeout parent later effective)
    end
  end.

Definition WithRemaining (parent : option Context) (now later remaining : Z) (limits : Limits) : result Context :=
  WithBudget parent now later {| bg_RemainingNanos := remaining |} limits.

(** ** Concurrency *)
Record PeerLimiter := { pl_slots : Z; pl_max : Z }.
Definition NewPeerLimiter (limits : Limits) : result PeerLimiter :=
  normalized <- Normalize limits ;;
  Ok {| pl_slots := 0; pl_max := lm_MaxConcurrent normalized |}.

Definition Inflight (l : PeerLimiter) : Z := pl_slots l.
Definition MaxConcurrent (l : PeerLimiter) : Z := pl_max l.

(** The channel operations, when they do not block. *)
Definition send (l : PeerLimiter) : option PeerLimiter :=
  if pl_slots l <? pl_max l then Some {| pl_slots := pl_slots l + 1; pl_max := pl_max l |} else None.
Definition receive (l : PeerLimiter) : option PeerLimiter :=
  if 0 <? pl_slots l then Some {| pl_slots := pl_slots l - 1; pl_max := pl_max l |} else None.

(** A call of [Acquire] at its [select], at the second check of its context, and
    a goroutine that is to receive from the channel. *)
Inductive thread := TSelect | TRecheck | TReceive | TDone.

(** [pw_permits]: whether each permit was released. *)
Record Peer := { pw_limiter : PeerLimiter; pw_permits : list bool; pw_threads : list thread }.

Inductive event :=
| EvAcquire (expired : bool)
| EvSend (tid : nat)
| EvCancelled (tid : nat)
| EvRecheck (tid : nat) (expired : bool)
| EvReceive (tid : nat)
| EvTryAcquire
| EvRelease (permit : nat).

Definition newPermit (w : Peer) : list bool := pw_permits w ++ [false].
Definition spawn (w : Peer) (t : thread) : Peer := {| pw_limiter := pw_limiter w; pw_permits := pw_permits w; pw_threads := pw_threads w ++ [t] |}.
Definition becomes (w : Peer) (l : PeerLimiter) (permits : list bool) (tid : nat) (t : thread) : Peer :=
  {| pw_limiter := l; pw_permits := permits; pw_threads := <[tid := t]> (pw_threads w) |}.

(** [TryAcquire] *)
Definition TryAcquire (w : Peer) : Peer * result nat :=
  match send (pw_limiter w) with
  | Some l => ({| pw_limiter := l; pw_permits := newPermit w; pw_threads := pw_threads w |}, Ok (length (pw_permits w)))
  | None => (w, Err (SentinelError ErrConcurrentLimit))
  end.

(** One step; [None] if it is not enabled. *)
Definition step (e : event) (w : Peer) : option Peer :=
  let l := pw_limiter w in
  match e with
  | EvAcquire expired => Some (spawn w (if expired then TDone else TSelect))
  | EvSend tid =>
    match pw_threads w !! tid, send l with
    | Some TSelect, Some l => Some (becomes w l (pw_permits w) tid TRecheck)
    | _, _ => None
    end
  | EvCancelled tid =>
    match pw_threads w !! tid with Some TSelect => Some (becomes w l (pw_permits w) tid TDone) | _ => None end
  | EvRecheck tid expired =>
    match pw_threads w !! tid with
    | Some TRecheck => Some (if expired then becomes w l (pw_permits w) tid TReceive else becomes w l (newPermit w) tid TDone)
    | _ => None
    end
  | EvReceive tid =>
    match pw_threads w !! tid, receive l with
    | Some TReceive, Some l => Some (becomes w l (pw_permits w) tid TDone)
    | _, _ => None
    end
  | EvTryAcquire => Some (fst (TryAcquire w))
  | EvRelease permit =>
    match pw_permits w !! permit with
    | Some false => Some (spawn {| pw_limiter := l; pw_permits := <[permit := true]> (pw_permits w); pw_threads := pw_threads w |} TReceive)
    | Some true => Some (spawn w TDone)
    | None => None
    end
  end.

Fixpoint run (es : list event) (w : Peer) : Peer :=
  match es with [] => w | e :: es => run es (default w (step e w)) end.
Definition init (l : PeerLimiter) : Peer := {| pw_limiter := l; pw_permits := []; pw_threads := [] |}.

(** ** Limits and messages *)
Lemma Normalize_bounds l n : Normalize l = Ok n ->
  1 <= lm_MaxMessageBytes n <= HardMaxMessageBytes /\ 1 <= lm_MaxDeadline n <= HardMaxDeadline /\ 1 <= lm_MaxConcurrent n <= HardMaxConcurrent.
Proof. unfold Normalize, Validate. intros H. ok_inv. subst n. cbn [lm_MaxMessageBytes lm_MaxDeadline lm_MaxConcurrent] in *. lia. Qed.

Lemma substring_all s n : (String.length s <= n)%nat -> String.substring 0 n s = s.
Proof. revert n. induction s as [|a s IH]; intros [|n] Hn; simpl in *; try done; [lia|]. f_equal. apply IH. lia. Qed.
Lemma substring_length s n : (n <= String.length s)%nat -> String.length (String.substring 0 n s) = n.
Proof. revert n. induction s as [|a s IH]; intros [|n] Hn; simpl in *; try done; [lia|]. f_equal. apply IH. lia. Qed.

Lemma ReadMessage_all source maxBytes data : ReadMessage (Some source) maxBytes = Ok data ->
  data = rd_bytes source /\ strlen data <= maxBytes <= HardMaxMessageBytes /\ rd_err source = None.
Proof.
  unfold ReadMessage, validateMessageLimit, ReadAll_Limit. intros H. ok_inv. subst a.
  assert (strlen (rd_bytes source) <= maxBytes) as Hlen.
  { assert (exists n, n = Z.to_nat (maxBytes + 1)) as [n Hn] by eauto. destruct (decide (strlen (rd_bytes source) <= maxBytes)) as [|Hgt]; [done|].
    assert (String.length (String.substring 0 (Z.to_nat (maxBytes + 1)) (rd_bytes source)) = Z.to_nat (maxBytes + 1)) as Hs.
    { apply substring_length. unfold strlen in Hgt. lia. }
    assert (data = String.substring 0 (Z.to_nat (maxBytes + 1)) (rd_bytes source)) as -> by (destruct (rd_err source); [case_match; [done|]|]; congruence).
    unfold strlen in *. rewrite Hs in *. lia. }
  assert (String.substring 0 (Z.to_nat (maxBytes + 1)) (rd_bytes source) = rd_bytes source) as Hall.
  { apply substring_all. unfold strlen in Hlen. lia. }
  rewrite Hall in *. destruct (rd_err source).
  - rewrite (proj2 (Z.ltb_lt _ _)) in * by lia. done.
  - simplify_eq. split_and!; try done; lia.
Qed.

(** ** Deadlines *)
Lemma clamp_spec incoming parentRemaining has limits effective : clampRemaining incoming parentRemaining has limits = Ok effective ->
  0 < effective /\ effective <= incoming /\ effective <= lm_MaxDeadline limits /\ (has = true -> effective <= parentRemaining).
Proof.
  unfold clampRemaining. intros H. ok_inv. subst effective. destruct (incoming >? lm_MaxDeadline limits) eqn:E1; destruct has; cbn [andb] in *;
    try destruct (parentRemaining <? _) eqn:E2; go_cases; lia.
Qed.

(** One hop of a call: the receiver derives a context from the budget, works in
    it, and sends what is left on. *)
Record hop := { hp_parent : Context; hp_in : Z; hp_made : Z; hp_out : Z; hp_inbound : Limits; hp_outbound : Limits }.
Definition forward (h : hop) (b : Budget) : result Budget :=
  child <- WithBudget (Some (hp_parent h)) (hp_in h) (hp_made h) b (hp_inbound h) ;;
  OutboundBudget (Some child) (hp_out h) (hp_outbound h).
Fixpoint chain (hops : list hop) (b : Budget) : result Budget :=
  match hops with [] => Ok b | h :: hops => b <- forward h b ;; chain hops b end.

(** The time that a hop works under its context. *)
Definition worked (h : hop) : Z := hp_out h - hp_made h.

Lemma Until_pos deadline now : 0 < Until deadline now -> Until deadline now <= deadline - now.
Proof. unfold Until. lia. Qed.

Lemma WithBudget_deadline parent now later budget limits child : WithBudget (Some parent) now later budget limits = Ok child ->
  exists deadline, cx_deadline child = Some deadline /\ deadline <= later + bg_RemainingNanos budget /\ 0 < bg_RemainingNanos budget /\
    match cx_deadline parent with Some d => deadline <= d | None => True end /\
    exists n, Normalize limits = Ok n /\ deadline <= later + lm_MaxDeadline n.
Proof.
  unfold WithBudget. intros H. ok_inv. destruct (cx_err parent); [done|]. destruct (cx_deadline parent) as [d|] eqn:Hd; ok_inv; subst child;
    (match goal with H : clampRemaining _ _ _ _ = Ok _ |- _ => apply clamp_spec in H as (? & ? & ? & ?) end); unfold WithTimeout; cbn [cx_deadline]; rewrite Hd; eexists; (split; [reflexivity|]).
  - destruct (d <? _) eqn:E; go_cases; split_and!; try lia; eexists; (split; [done|]); lia.
  - split_and!; try lia; try done. eexists. split; [done|]. lia.
Qed.

Lemma forward_spec h b b' : forward h b = Ok b' ->
  0 < bg_RemainingNanos b' /\ bg_RemainingNanos b' + worked h <= bg_RemainingNanos b /\ bg_RemainingNanos b' <= HardMaxDeadline /\
  exists n, Normalize (hp_outbound h) = Ok n /\ bg_RemainingNanos b' <= lm_MaxDeadline n.
Proof.
  unfold forward, OutboundBudget, OutboundRemaining. intros H. ok_inv. subst b'. apply WithBudget_deadline in H0 as (deadline & Hd & Hle & _).
  rewrite Hd in *. destruct (cx_err a); [done|]. ok_inv.
  match goal with H : Normalize _ = Ok _ |- _ => pose proof (Normalize_bounds _ _ H) as (_ & Hb & _) end.
  match goal with H : clampRemaining _ _ _ _ = Ok _ |- _ => apply clamp_spec in H as (C1 & C2 & C3 & _) end.
  pose proof (Until_pos deadline (hp_out h)). unfold worked. cbn. split_and!; try lia. eexists. split; [done|]. lia.
Qed.

Definition total_worked (hops : list hop) : Z := foldr (fun h n => worked h + n) 0 hops.

(** ** Concurrency *)
Definition holds_slot (t : thread) : Z := match t with TRecheck | TReceive => 1 | _ => 0 end.
Definition outstanding (released : bool) : Z := if released then 0 else 1.
Lemma holds_slot_nonneg t : 0 <= holds_slot t.
Proof. by destruct t. Qed.
Lemma outstanding_nonneg b : 0 <= outstanding b.
Proof. by destruct b. Qed.

Definition accounted (max : Z) (w : Peer) : Prop :=
  pl_slots (pw_limiter w) = tally holds_slot (pw_threads w) + tally outstanding (pw_permits w) /\ pl_slots (pw_limiter w) <= max /\ pl_max (pw_limiter w) = max.

Lemma send_spec l l' : send l = Some l' -> pl_slots l' = pl_slots l + 1 /\ pl_slots l < pl_max l /\ pl_max l' = pl_max l.
Proof. unfold send. intros H. destruct (_ <? _) eqn:E; [|done]. simplify_eq. go_cases. done. Qed.
Lemma receive_spec l l' : receive l = Some l' -> pl_slots l' = pl_slots l - 1 /\ pl_max l' = pl_max l.
Proof. unfold receive. intros H. destruct (_ <? _); [|done]. by simplify_eq. Qed.

Ltac pfields := cbn [spawn becomes pw_limiter pw_permits pw_threads fst holds_slot outstanding].
Lemma step_accounted max e w w' : accounted max w -> step e w = Some w' -> accounted max w'.
Proof.
  intros (Ha & Hb & Hm) Hs. unfold step in Hs. unfold accounted. destruct e; cbv zeta in Hs.
  - simplify_eq. pfields. rewrite tally_snoc. destruct expired; pfields; lia.
  - destruct (pw_threads w !! tid) as [[]|] eqn:Ht; try done. destruct (send _) as [l|] eqn:E; [|done]. simplify_eq. apply send_spec in E as (? & ? & ?).
    pfields. rewrite (tally_insert _ _ _ _ _ Ht). pfields. lia.
  - destruct (pw_threads w !! tid) as [[]|] eqn:Ht; try done. simplify_eq. pfields. rewrite (tally_insert _ _ _ _ _ Ht). pfields. lia.
  - destruct (pw_threads w !! tid) as [[]|] eqn:Ht; try done. destruct expired; simplify_eq; pfields; rewrite (tally_insert _ _ _ _ _ Ht); pfields; [lia|].
    unfold newPermit. rewrite tally_snoc. pfields. lia.
  - destruct (pw_threads w !! tid) as [[]|] eqn:Ht; try done. destruct (receive _) as [l|] eqn:E; [|done]. simplify_eq. apply receive_spec in E as (? & ?).
    pfields. rewrite (tally_insert _ _ _ _ _ Ht). pfields. lia.
  - simplify_eq. unfold TryAcquire. destruct (send _) as [l|] eqn:E; [|done]. apply send_spec in E as (? & ? & ?). pfields. unfold newPermit. rewrite tally_snoc. pfields. lia.
  - destruct (pw_permits w !! permit) as [[]|] eqn:Hp; simplify_eq; pfields; rewrite tally_snoc; pfields; [lia|]. rewrite (tally_insert _ _ _ _ _ Hp). pfields. lia.
Qed.
Lemma run_accounted max es w : accounted max w -> accounted max (run es w).
Proof.
  revert w. induction es as [|e es IH]; intros w H; cbn [run]; [done|]. apply IH. destruct (step e w) as [w'|] eqn:E; [|done]. by eapply step_accounted.
Qed.

(** ** Guarantees *)

(** Along any chain of hops a budget is only spent: what a hop sends on is
    positive, at most its hop limit and at most what it received less the time that
    it worked, so that the whole chain works no longer than the first budget; a
    derived context never outlives its parent. *)
Theorem budget_only_shrinks hops b b' : chain hops b = Ok b' ->
  bg_RemainingNanos b' + total_worked hops <= bg_RemainingNanos b /\
  (hops <> [] -> 0 < bg_RemainingNanos b' <= HardMaxDeadline /\ total_worked hops < bg_RemainingNanos b) /\
  (forall h, last hops = Some h -> exists n, Normalize (hp_outbound h) = Ok n /\ bg_RemainingNanos b' <= lm_MaxDeadline n) /\
  (forall parent now later budget limits child d, WithBudget (Some parent) now later budget limits = Ok child -> cx_deadline parent = Some d ->
     exists d', cx_deadline child = Some d' /\ d' <= d).
Proof.
  intros H. assert (bg_RemainingNanos b' + total_worked hops <= bg_RemainingNanos b /\ (hops <> [] -> 0 < bg_RemainingNanos b' <= HardMaxDeadline) /\
    (forall h, last hops = Some h -> exists n, Normalize (hp_outbound h) = Ok n /\ bg_RemainingNanos b' <= lm_MaxDeadline n)) as (H1 & H2 & H3).
  { revert b H. induction hops as [|h hops IH]; intros b H; cbn [chain] in H; [simplify_eq; cbn; split_and!; [lia|done|done]|].
    ok_inv. apply forward_spec in H0 as (F1 & F2 & F3 & F4). destruct (IH _ H) as (I1 & I2 & I3). cbn [total_worked foldr]. split_and!.
    - fold (total_worked hops). lia.
    - intros _. destruct hops as [|h' hops]; [|by apply I2]. cbn in H. by simplify_eq.
    - intros h0. destruct hops as [|h' hops]; [|by apply I3]. intros [= <-]. cbn in H. by simplify_eq. }
  split_and!; try done.
  - intros Hne. specialize (H2 Hne). lia.
  - intros parent now later budget limits child d Hw Hd. apply WithBudget_deadline in Hw as (d' & E & _ & _ & Hle & _). exists d'. by rewrite Hd in Hle.
Qed.

(** A message that may be written under a limit is read back unchanged under
    it, and every other message is refused with the error that the writer gets;
    whatever a reader delivers, an accepted message is all of it, without an
    error, and within the limit. *)
Theorem message_roundtrip message maxBytes :
  ReadMessage (Some {| rd_bytes := message; rd_err := None; rd_together := false |}) maxBytes = (ValidateMessage message maxBytes ;;; Ok message) /\
  forall source data, ReadMessage (Some source) maxBytes = Ok data -> data = rd_bytes source /\ strlen data <= maxBytes <= HardMaxMessageBytes /\ rd_err source = None.
Proof.
  split; [|intros source data; apply ReadMessage_all].
  unfold ReadMessage, ValidateMessage. destruct (validateMessageLimit maxBytes) as [[]|] eqn:E; [|done]. unfold validateMessageLimit in E. ok_inv.
  cbn. destruct (decide (strlen message <= maxBytes)) as [Hle|Hgt].
  - rewrite substring_all by (unfold strlen in Hle; lia). by destruct (fail_if _ _) as [[]|].
  - unfold strlen in *. rewrite substring_length by lia. unfold fail_if. rewrite !Z.gtb_ltb, !(proj2 (Z.ltb_lt _ _)) by lia. done.
Qed.

(** Under every schedule of waiting and non-waiting acquisitions,
    cancellations and (repeated) releases, the slots in use are exactly the
    permits that were not released and the goroutines in transit, within the
    configured and the hard limit; a receive never blocks, and an immediate
    acquisition fails exactly when all slots are in use. *)
Theorem peer_limiter_sound limits l es : NewPeerLimiter limits = Ok l ->
  let w := run es (init l) in
  Inflight (pw_limiter w) = tally holds_slot (pw_threads w) + tally outstanding (pw_permits w) /\
  tally outstanding (pw_permits w) <= Inflight (pw_limiter w) <= MaxConcurrent l /\ MaxConcurrent l <= HardMaxConcurrent /\
  (forall tid, pw_threads w !! tid = Some TReceive -> is_Some (step (EvReceive tid) w)) /\
  (snd (TryAcquire w) = Err (SentinelError ErrConcurrentLimit) <-> Inflight (pw_limiter w) = MaxConcurrent l).
Proof.
  intros H w. unfold NewPeerLimiter in H. ok_inv. match goal with H : Normalize _ = Ok _ |- _ => pose proof (Normalize_bounds _ _ H) as (_ & _ & Hb) end. subst l.
  assert (accounted (lm_MaxConcurrent a) w) as (Ha & Hle & Hm) by (apply run_accounted; unfold accounted; cbn; lia).
  pose proof (tally_nonneg _ holds_slot_nonneg (pw_threads w)). unfold Inflight, MaxConcurrent. cbn [pl_max]. split_and!; try lia.
  - intros tid Ht. cbn. rewrite Ht. unfold receive. pose proof (tally_member _ holds_slot_nonneg _ _ (list_elem_of_lookup_2 _ _ _ Ht)) as Hin. cbn in Hin.
    pose proof (tally_nonneg _ outstanding_nonneg (pw_permits w)). rewrite (proj2 (Z.ltb_lt _ _)) by lia. by eexists.
  - unfold TryAcquire, send. rewrite Hm. destruct (_ <? _) eqn:E; go_cases; cbn; split; intros Heq; try done; lia.
Qed.

(** ** Examples *)
Definition ex_hop (made out : Z) (deadline : option Z) : hop :=
  {| hp_parent := {| cx_err := None; cx_deadline := deadline |}; hp_in := made; hp_made := made; hp_out := out; hp_inbound := DefaultLimits; hp_outbound := DefaultLimits |}.
Lemma budget_only_shrinks_witness :
  chain [ex_hop 0 300 None; ex_hop 1000 1400 (Some 1600)] {| bg_RemainingNanos := 1000 |} = Ok {| bg_RemainingNanos := 200 |} /\ 200 + (300 + 400) <= 1000.
Proof.
  assert (chain [ex_hop 0 300 None; ex_hop 1000 1400 (Some 1600)] {| bg_RemainingNanos := 1000 |} = Ok {| bg_RemainingNanos := 200 |}) as E by (vm_compute; exact eq_refl).
  split; [exact E|]. destruct (budget_only_shrinks _ _ _ E) as [H _]. exact H.
Defined.

Definition ex_limiter : PeerLimiter := {| pl_slots := 0; pl_max := 1 |}.
Lemma peer_limiter_sound_witness :
  let w := run [EvAcquire false; EvSend 0; EvRecheck 0 false; EvRelease 0; EvRelease 0; EvReceive 1; EvTryAcquire; EvTryAcquire] (init ex_limiter) in
  Inflight (pw_limiter w) = 1 /\ tally outstanding (pw_permits w) <= 1 /\ snd (TryAcquire w) = Err (SentinelError ErrConcurrentLimit).
Proof.
  destruct (peer_limiter_sound {| lm_MaxMessageBytes := 0; lm_MaxDeadline := 0; lm_MaxConcurrent := 1 |} ex_limiter
    [EvAcquire false; EvSend 0; EvRecheck 0 false; EvRelease 0; EvRelease 0; EvReceive 1; EvTryAcquire; EvTryAcquire] eq_refl) as (_ & [Ho Hi] & _ & _ & Htry).
  split; [vm_compute; exact eq_refl|]. split; [vm_compute; discriminate|]. apply Htry. vm_compute. exact eq_refl.
Defined.

End rpc.
