(* ===== verification/LocalWorker.v ===== *)
(** * Package [internal/localworker]: the reconciler of the local Worker

    The reconciler drives a Worker agent towards the committed Assignments and
    offers what is Ready to the serving snapshots.  The agent is the interface
    [AgentOps]: its operations may also do what other goroutines do to the agent
    meanwhile.  The lists, the Worker snapshot and the answers of contexts are
    arguments.  Authorizations that the agent accepted are recorded. *)
From stdpp Require Import base gmap strings list.
From S2P Require Import Prelude Problem Digest Json Model Catalog Release RouteStore ServingAuth Scheduler Net Discovery Abi AssignmentStore WorkerAgent.
Import problem digest model servingauth.

#[local] Open Scope Z_scope.

Module localworker.
#[local] Abbreviation AssignmentRecord := assignment.AssignmentRecord.
#[local] Abbreviation ServingState := routestore.ServingState.
#[local] Abbreviation WorkerSnapshot := scheduler.WorkerSnapshot.
#[local] Abbreviation Observation := agent.Observation.
#[local] Abbreviation Inventory := agent.Inventory.
#[local] Abbreviation PrepareRequest := agent.PrepareRequest.
#[local] Abbreviation EndpointCandidate := discovery.EndpointCandidate.
Import routestore scheduler assignment agent.

(** ** The resolver (resolver.go) *)
Section resolver.
Context {Invoker : Type}.
Record Resolver := { rv_address : string; rv_invoker : Invoker }.

Definition NewResolver (address : string) (invoker : option Invoker) : result Resolver :=
  fail_if (address == "") (PlainError "local worker endpoint address is required") ;;;
  match invoker with
  | None => Err (PlainError "local worker endpoint invoker is required")
  | Some invoker => Ok {| rv_address := address; rv_invoker := invoker |}
  end.

Definition Resolve (r : Resolver) (ctxErr : option error) (address : string) : result Invoker :=
  match ctxErr with
  | Some err => Err err
  | None =>
    fail_if (address != rv_address r) (classified CodeNoReadyReplica "published endpoint is not registered in the local worker resolver") ;;;
    Ok (rv_invoker r)
  end.
End resolver.

(** ** The agent *)
Class AgentOps (A : Type) := {
  op_AcceptControl : ControlConnection -> A -> A * result unit;
  op_Prepare : PrepareRequest -> A -> A * result Observation;
  op_InstallAuthorization : ControlConnection -> Authorization -> A -> A * result unit;
  op_Cancel : CancelRequest -> A -> A * result unit;
  op_AcknowledgeTerminal : ControlConnection -> string -> A -> A * result unit;
  op_Inventory : A -> A * Inventory;
}.

Record installedCandidate := { ic_functionID : string; ic_authorization : Authorization }.

Definition zero_observation : Observation :=
  {| ob_Identity := {| ai_Worker := {| ws_WorkerID := ""; ws_BootID := ""; ws_SessionEpoch := 0 |}; ai_AssignmentID := ""; ai_VersionID := "";
                       ai_AdmissionEpoch := 0; ai_DeploymentGeneration := 0; ai_PolicyDigest := ""; ai_Mode := "" |};
     ob_Module := {| workercache.ms_ArtifactDigest := ""; workercache.ms_ArtifactSize := 0; workercache.ms_ABI := ""; workercache.ms_HostAPIProfile := "";
                     workercache.ms_RuntimeFeatureProfile := "" |};
     ob_State := ""; ob_Failure := None; ob_Load := zero_Result; ob_ActiveInvocations := 0; ob_QueuedInvocations := 0 |}.

Definition terminalReplica (state : string) : bool := (state == ReplicaStopped) || (state == ReplicaFailed) || (state == ReplicaLost).

Definition ai_of (record : AssignmentRecord) : string := a_AssignmentID (ar_Placement record).

Definition indexObservations (inventory : Inventory) : gmap string Observation :=
  foldl (fun indexed observation => <[ai_AssignmentID (ob_Identity observation) := observation]> indexed) ∅ (iv_Replicas inventory).

Definition observationFor (inventory : Inventory) (assignmentID : string) : option Observation :=
  List.find (fun observation => ai_AssignmentID (ob_Identity observation) == assignmentID) (iv_Replicas inventory).

(** The loop of [indexServingStates]. *)
Fixpoint indexServingStates (indexed : gmap string ServingState) (states : list ServingState) : result (gmap string ServingState) :=
  match states with
  | [] => Ok indexed
  | state :: states =>
    fail_if (bool_decide (is_Some (indexed !! md_ID (fn_Metadata (ss_Function state)))))
      (PlainError "local worker serving states contain a duplicate function") ;;;
    indexServingStates (<[md_ID (fn_Metadata (ss_Function state)) := state]> indexed) states
  end.

Definition validateWorkerControl (worker : WorkerSnapshot) (connection : ControlConnection) : result unit :=
  wrap_err "validating local worker snapshot" (WorkerSnapshot_validate worker) ;;;
  fail_if (negb (ws_SessionEpoch (w_Session worker) =? cc_SessionEpoch connection))
    (PlainError "local worker session does not match the control connection") ;;;
  fail_if (cc_DiscoveryEpoch connection =? 0) (PlainError "local worker control discovery epoch is required").

Definition policy_of (version : Version) (deployment : Deployment) : EffectivePolicy :=
  {| ep_VersionID := v_VersionID version; ep_AdmissionEpoch := v_AdmissionEpoch version; ep_DeploymentGeneration := d_Generation deployment;
     ep_ArtifactDigest := v_ArtifactDigest version; ep_ArtifactSize := v_ArtifactSize version; ep_ABI := v_ABI version;
     ep_HostAPIProfile := v_HostAPIProfile version; ep_RuntimeFeatureProfile := v_RuntimeFeatureProfile version;
     ep_ResourceLimits := d_ResourceLimits deployment; ep_MaxConcurrency := rr_MaxConcurrency (v_ResourceRequest version);
     ep_GrantedCapabilities := d_GrantedCapabilities deployment |}.

Definition fence_of (record : AssignmentRecord) (connection : ControlConnection) : InvocationFence :=
  {| if_Assignment := assignment.Identity record; if_DiscoveryEpoch := cc_DiscoveryEpoch connection |}.

Section reconciler.
Context `{JCS}.

Definition prepareRequest (record : AssignmentRecord) (state : ServingState) (connection : ControlConnection) : result PrepareRequest :=
  match ss_Version state, ss_Deployment state with
  | Some version, Some deployment =>
    let policy := policy_of version deployment in
    policyDigest <- wrap_err "calculating assignment policy" (EffectivePolicy_Digest policy) ;;
    let identity := assignment.Identity record in
    fail_if ((policyDigest != d_EffectivePolicyDigest deployment) || (policyDigest != ai_PolicyDigest identity)
             || (ai_VersionID identity != v_VersionID version) || negb (ai_AdmissionEpoch identity =? v_AdmissionEpoch version)
             || negb (ai_DeploymentGeneration identity =? d_Generation deployment))
      (PlainError "assignment identity does not match the admitted serving policy") ;;;
    Ok {| pq_Connection := connection; pq_Fence := fence_of record connection;
          pq_Module := {| workercache.ms_ArtifactDigest := v_ArtifactDigest version; workercache.ms_ArtifactSize := v_ArtifactSize version;
                          workercache.ms_ABI := v_ABI version; workercache.ms_HostAPIProfile := v_HostAPIProfile version;
                          workercache.ms_RuntimeFeatureProfile := v_RuntimeFeatureProfile version |};
          pq_Policy := policy |}
  | _, _ => Err (PlainError "assignment has no admitted serving policy")
  end.

Context {A : Type} `{AgentOps A}.

(** [rc_accepted]: the authorizations that the agent accepted, in order. *)
Record Reconciler := {
  rc_connection : ControlConnection;
  rc_address : string;
  rc_candidates : gmap string installedCandidate;
  rc_agent : A;
  rc_accepted : list Authorization;
}.
Definition set_candidates (candidates : gmap string installedCandidate) (r : Reconciler) : Reconciler :=
  {| rc_connection := rc_connection r; rc_address := rc_address r; rc_candidates := candidates; rc_agent := rc_agent r; rc_accepted := rc_accepted r |}.
Definition set_agent (a : A) (r : Reconciler) : Reconciler :=
  {| rc_connection := rc_connection r; rc_address := rc_address r; rc_candidates := rc_candidates r; rc_agent := a; rc_accepted := rc_accepted r |}.
Definition set_accepted (l : list Authorization) (r : Reconciler) : Reconciler :=
  {| rc_connection := rc_connection r; rc_address := rc_address r; rc_candidates := rc_candidates r; rc_agent := rc_agent r; rc_accepted := l |}.

Definition NewReconciler (agent : A) (connection : ControlConnection) (address : string) : result Reconciler :=
  fail_if (address == "") (PlainError "local worker reconciler endpoint address is required") ;;;
  Ok {| rc_connection := connection; rc_address := address; rc_candidates := ∅; rc_agent := agent; rc_accepted := [] |}.

(** A call of the agent; [attempt] keeps the error as a value, [on_error] handles
    it. *)
Definition call {X} (f : A -> A * result X) : M Reconciler X :=
  fun r => let '(a, x) := f (rc_agent r) in (set_agent a r, x).
Definition attempt {X} (m : M Reconciler X) : M Reconciler (option error) :=
  fun r => let '(r', x) := m r in (r', Ok (match x with Ok _ => None | Err err => Some err end)).
Definition on_error {X} (m : M Reconciler X) (handle : error -> M Reconciler X) : M Reconciler X :=
  fun r => match m r with (r', Ok x) => (r', Ok x) | (r', Err err) => handle err r' end.
Definition inventory : M Reconciler Inventory :=
  fun r => let '(a, x) := op_Inventory (rc_agent r) in (set_agent a r, Ok x).

(** [errors.Join(err, other)] with a first error. *)
Definition joined (err : error) (other : option error) : error := match other with Some other => JoinError err other | None => err end.

Definition removeCandidate (assignmentID : string) : M Reconciler unit :=
  let! r := sget in sput (set_candidates (delete assignmentID (rc_candidates r)) r).

Definition cancel_after {X} (request : PrepareRequest) (err : error) : M Reconciler X :=
  let! r := sget in
  let! cancelErr := attempt (call (op_Cancel {| cq_Connection := rc_connection r; cq_Fence := pq_Fence request |})) in
  sthrow (joined err cancelErr).

Definition install (authorization : Authorization) : M Reconciler unit :=
  let! r := sget in
  do! call (op_InstallAuthorization (rc_connection r) authorization) in
  let! r := sget in
  sput (set_accepted (rc_accepted r ++ [authorization]) r).

Definition reconcileAssigned (record : AssignmentRecord) (state : ServingState) (observation : Observation) : M Reconciler unit :=
  let! r := sget in
  let! request := slift (prepareRequest record state (rc_connection r)) in
  let assigned := if_Assignment (pq_Fence request) in
  do! slift (fail_if ((ai_AssignmentID (ob_Identity observation) != "") && (ob_Identity observation != assigned))
               (PlainError "local assignment replica has a conflicting identity")) in
  do! slift (fail_if (terminalReplica (ob_State observation))
               (PlainError "assigned local replica is terminal and requires replacement intent")) in
  let! observation :=
    (if ob_State observation == ReplicaReady then sret observation
     else on_error (call (op_Prepare request)) (fun err => cancel_after request (WrapError "preparing local assignment" err))) in
  do! slift (fail_if ((ob_Identity observation != assigned) || (ob_State observation != ReplicaReady))
               (PlainError "local assignment replica is not ready with the committed identity")) in
  let authorization := {| au_Fence := pq_Fence request; au_Lifetime := LifetimeLiveOnly; au_TTL := 0 |} in
  do! on_error (install authorization) (fun err => cancel_after request (WrapError "installing local serving authorization" err)) in
  let! r := sget in
  sput (set_candidates (<[ai_of record := {| ic_functionID := ar_FunctionID record; ic_authorization := authorization |}]> (rc_candidates r)) r).

Definition reconcileCancelled (record : AssignmentRecord) : M Reconciler unit :=
  let! r := sget in
  do! on_error (call (op_Cancel {| cq_Connection := rc_connection r; cq_Fence := fence_of record (rc_connection r) |}))
        (fun err => sthrow (WrapError "cancelling local assignment" err)) in
  let! current := inventory in
  match observationFor current (ai_of record) with
  | Some observation =>
    if terminalReplica (ob_State observation) then
      on_error (call (op_AcknowledgeTerminal (rc_connection r) (ai_of record)))
        (fun err => sthrow (WrapError "acknowledging terminal local assignment" err))
    else sret tt
  | None => sret tt
  end.

Definition publishable (session : WorkerSession) (assignment : AssignmentRecord) : bool :=
  (ar_DesiredState assignment == AssignmentAssigned) && (a_Worker (ar_Placement assignment) == session).

Definition removeUnpublishableCandidates (assignments : list AssignmentRecord) (session : WorkerSession) : M Reconciler unit :=
  let keep : gset string := list_to_set (ai_of <$> List.filter (publishable session) assignments) in
  let! r := sget in
  sput (set_candidates (filter (fun c => fst c ∈ keep) (rc_candidates r)) r).

(** One iteration of the loop of [Reconcile]: the error that it adds. *)
Definition reconcile_one (session : WorkerSession) (states : gmap string ServingState) (observations : gmap string Observation)
    (assignment : AssignmentRecord) : M Reconciler (option error) :=
  if a_Worker (ar_Placement assignment) != session then sret None
  else if ar_DesiredState assignment == AssignmentAssigned then
    match states !! ar_FunctionID assignment with
    | None => do! removeCandidate (ai_of assignment) in sret (Some (PlainError "assigned function has no serving state"))
    | Some state =>
      let! failed := attempt (reconcileAssigned assignment state (default zero_observation (observations !! ai_of assignment))) in
      match failed with
      | Some err => do! removeCandidate (ai_of assignment) in sret (Some err)
      | None => sret None
      end
    end
  else if ar_DesiredState assignment == AssignmentCancelled then
    do! removeCandidate (ai_of assignment) in
    attempt (reconcileCancelled assignment)
  else
    do! removeCandidate (ai_of assignment) in
    sret (Some (PlainError "assignment has unsupported desired state")).

Definition join_all (errs : list error) : option error :=
  foldl (fun acc err => Some (match acc with Some first => JoinError first err | None => err end)) None errs.

(** The loop, with the errors so far; [ctx] answers the check of each iteration. *)
Fixpoint reconcile_loop (session : WorkerSession) (states : gmap string ServingState) (observations : gmap string Observation)
    (ctx : nat -> option error) (errs : list error) (assignments : list AssignmentRecord) : M Reconciler (option error) :=
  match assignments with
  | [] => sret (join_all errs)
  | assignment :: assignments =>
    match ctx (length assignments) with
    | Some err => sret (Some (match join_all errs with Some first => JoinError first err | None => err end))
    | None =>
      let! failed := reconcile_one session states observations assignment in
      reconcile_loop session states observations ctx (errs ++ option_list failed) assignments
    end
  end.

(** [Reconcile], under [reconcileMu]; the context is checked before it as well. *)
Definition Reconcile (ctxErr : option error) (ctx : nat -> option error) (assignments : result (list AssignmentRecord)) (states : result (list ServingState))
    (worker : result WorkerSnapshot) : M Reconciler (option error) :=
  match ctxErr with
  | Some err => sret (Some err)
  | None =>
    attempt (
      let! assignments := slift (wrap_err "listing assignment intent" assignments) in
      let! states := slift (wrap_err "listing worker serving state" states) in
      let! worker := slift (wrap_err "loading worker snapshot" worker) in
      let! r := sget in
      do! slift (validateWorkerControl worker (rc_connection r)) in
      do! on_error (call (op_AcceptControl (rc_connection r))) (fun err => sthrow (WrapError "accepting local worker control" err)) in
      let! statesByFunction := slift (indexServingStates ∅ states) in
      do! removeUnpublishableCandidates assignments (w_Session worker) in
      let! current := inventory in
      let! failed := reconcile_loop (w_Session worker) statesByFunction (indexObservations current) ctx [] assignments in
      match failed with Some err => sthrow err | None => sret tt end)
  end.

(** ** Candidates *)
Definition candidate_of (r : Reconciler) (worker : WorkerSnapshot) (candidate : installedCandidate) : EndpointCandidate :=
  {| discovery.ec_Assignment := if_Assignment (au_Fence (ic_authorization candidate)); discovery.ec_DesiredState := discovery.AssignmentAssigned;
     discovery.ec_Worker := worker; discovery.ec_ReplicaReady := true; discovery.ec_Authorization := Some (ic_authorization candidate);
     discovery.ec_Address := rc_address r |}.

Definition offered (worker : WorkerSnapshot) (observations : gmap string Observation) (candidate : installedCandidate) : bool :=
  let assigned := if_Assignment (au_Fence (ic_authorization candidate)) in
  let observation := default zero_observation (observations !! ai_AssignmentID assigned) in
  (ai_Worker assigned == w_Session worker) && (ob_State observation == ReplicaReady) && (ob_Identity observation == assigned).

Definition compare_candidates (left right : EndpointCandidate) : Z :=
  strings_Compare (ai_AssignmentID (discovery.ec_Assignment left)) (ai_AssignmentID (discovery.ec_Assignment right)).

(** [Candidates]; [order] is an iteration of the candidate map. *)
Definition Candidates (ctxErr : option error) (order : list installedCandidate) (state : ServingState) (epoch : Z) (worker : result WorkerSnapshot)
    : M Reconciler (list EndpointCandidate) :=
  match ctxErr with
  | Some err => sthrow err
  | None =>
    let! r := sget in
    if negb (epoch =? cc_DiscoveryEpoch (rc_connection r)) then sret []
    else
      let! worker := slift (wrap_err "loading candidate worker snapshot" worker) in
      do! slift (validateWorkerControl worker (rc_connection r)) in
      let! current := inventory in
      let installed := List.filter (fun candidate => ic_functionID candidate == md_ID (fn_Metadata (ss_Function state))) order in
      let result := candidate_of r worker <$> List.filter (offered worker (indexObservations current)) installed in
      sret (SortFunc compare_candidates result)
  end.

End reconciler.

(** ** What the calls change *)
Section effects.
Context `{JCS} {A : Type} `{AgentOps A}.
Implicit Types (r : Reconciler (A := A)).

Definition authorization_of (record : AssignmentRecord) (connection : ControlConnection) : Authorization :=
  {| au_Fence := fence_of record connection; au_Lifetime := LifetimeLiveOnly; au_TTL := 0 |}.
Definition candidate_for (record : AssignmentRecord) (connection : ControlConnection) : installedCandidate :=
  {| ic_functionID := ar_FunctionID record; ic_authorization := authorization_of record connection |}.

Lemma call_run {X} (f : A -> A * result X) r : exists a x, call f r = (set_agent a r, x).
Proof. unfold call. destruct (f (rc_agent r)). by eexists _, _. Qed.
Lemma cancel_run {X} request err r : exists a err', cancel_after (X := X) request err r = (set_agent a r, Err err').
Proof.
  unfold cancel_after, attempt, sbind, sget. match goal with |- context [call ?f r] => destruct (call_run f r) as (a & x & ->) end. by eexists _, _.
Qed.
Lemma inventory_run r : exists a x, inventory r = (set_agent a r, Ok x) /\ (a, x) = op_Inventory (rc_agent r).
Proof. unfold inventory. destruct (op_Inventory (rc_agent r)). by eexists _, _. Qed.

Lemma prepareRequest_fence record state connection request : prepareRequest record state connection = Ok request ->
  pq_Fence request = fence_of record connection /\ pq_Connection request = connection.
Proof. unfold prepareRequest. destruct (ss_Version state), (ss_Deployment state); try done. intros Hp. ok_inv. by subst request. Qed.

(** An Assigned record: the candidate is there when nothing failed. *)
Lemma reconcileAssigned_run record state observation r : exists a,
  reconcileAssigned record state observation r =
    (set_candidates (<[ai_of record := candidate_for record (rc_connection r)]> (rc_candidates r))
       (set_accepted (rc_accepted r ++ [authorization_of record (rc_connection r)]) (set_agent a r)), Ok tt) \/
  exists err, reconcileAssigned record state observation r = (set_agent a r, Err err).
Proof.
  assert (set_agent (rc_agent r) r = r) as Hsame by (by destruct r).
  assert (forall err : error, exists a, (r, Err err) = (set_agent a r, Err err) :> Reconciler * result unit) as Hstop by (intros err; exists (rc_agent r); by rewrite Hsame).
  unfold reconcileAssigned, install, sbind, sget, slift, sput.
  destruct (prepareRequest record state (rc_connection r)) as [request|err] eqn:Hreq; [|destruct (Hstop err) as [a E]; exists a; right; by exists err].
  apply prepareRequest_fence in Hreq as [Hfence _].
  destruct (fail_if _ _) as [[]|err]; [|destruct (Hstop err) as [a E]; exists a; right; by exists err].
  destruct (fail_if _ _) as [[]|err]; [|destruct (Hstop err) as [a E]; exists a; right; by exists err].
  match goal with |- context [(if ob_State observation == ReplicaReady then ?m else ?n) r] => set (prepare := if ob_State observation == ReplicaReady then m else n) end.
  assert (exists a x, prepare r = (set_agent a r, x)) as (a & x & Hp).
  { subst prepare. destruct (ob_State observation == ReplicaReady); [exists (rc_agent r), (Ok observation); by rewrite Hsame|]. unfold on_error.
    destruct (call_run (op_Prepare request) r) as (a & [o|err] & ->); [by eexists _, _|]. edestruct (cancel_run (X := Observation)) as (a' & err' & ->). by eexists _, _. }
  rewrite Hp. destruct x as [o|err]; [|exists a; right; by exists err]. destruct (fail_if _ _) as [[]|err]; [|exists a; right; by exists err].
  rewrite Hfence. unfold on_error.
  match goal with |- context [call ?f (set_agent a r)] => destruct (call_run f (set_agent a r)) as (a' & [[]|err] & ->) end.
  - exists a'. left. done.
  - edestruct (cancel_run (X := unit)) as (a'' & err' & ->). exists a''. right. by exists err'.
Qed.

Lemma reconcileCancelled_run record r : exists a x, reconcileCancelled record r = (set_agent a r, x).
Proof.
  unfold reconcileCancelled, on_error, sbind, sget, sthrow. match goal with |- context [call ?f r] => destruct (call_run f r) as (a & [[]|err] & ->) end; [|by eexists _, _].
  destruct (inventory_run (set_agent a r)) as (a' & x & -> & _). destruct (observationFor _ _) as [o|]; [|by eexists _, _].
  destruct (terminalReplica _); [|by eexists _, _]. match goal with |- context [call ?f ?r'] => destruct (call_run f r') as (a'' & [[]|err] & ->) end; by eexists _, _.
Qed.

Lemma reconcile_one_run session states observations record r : exists a failed r',
  reconcile_one session states observations record r = (set_agent a r', Ok failed) /\
  ((a_Worker (ar_Placement record) <> session /\ failed = None /\ r' = r) \/
   (publishable session record = true /\ failed = None /\
    r' = set_candidates (<[ai_of record := candidate_for record (rc_connection r)]> (rc_candidates r))
           (set_accepted (rc_accepted r ++ [authorization_of record (rc_connection r)]) r)) \/
   (a_Worker (ar_Placement record) = session /\ (failed = None -> publishable session record = false) /\ r' = set_candidates (delete (ai_of record) (rc_candidates r)) r)).
Proof.
  assert (set_agent (rc_agent r) r = r) as Hsame by (by destruct r). unfold reconcile_one, publishable. case_bool_decide as Hw; cbn [negb].
  2: { exists (rc_agent r), None, r. rewrite Hsame. split; [done|]. by left. }
  case_bool_decide as Ha.
  - destruct (states !! ar_FunctionID record) as [state|].
    2: { exists (rc_agent r), (Some (PlainError "assigned function has no serving state")), (set_candidates (delete (ai_of record) (rc_candidates r)) r). split; [by destruct r|]. right. right. done. }
    unfold attempt, sbind. destruct (reconcileAssigned_run record state (default zero_observation (observations !! ai_of record)) r) as [a [E|[err E]]]; rewrite E.
    + exists a, None. eexists. split; [|right; left; done]. done.
    + exists a, (Some err), (set_candidates (delete (ai_of record) (rc_candidates r)) r). split; [done|]. right. right. done.
  - cbn [andb]. case_bool_decide.
    + unfold attempt, sbind, removeCandidate, sbind, sget, sput.
      match goal with |- context [reconcileCancelled record ?r'] => destruct (reconcileCancelled_run record r') as (a & x & E); rewrite E end.
      eexists a, _, _. split; [done|]. right. right. done.
    + exists (rc_agent r), (Some (PlainError "assignment has unsupported desired state")), (set_candidates (delete (ai_of record) (rc_candidates r)) r).
      split; [by destruct r|]. right. right. done.
Qed.
End effects.

(** ** The candidates *)
Section candidates.
Context `{JCS} {A : Type} `{AgentOps A}.
Implicit Types (r : Reconciler (A := A)).

(** [c] stands for an Assigned record of [history] that the agent accepted an
    authorization for. *)
Definition cand_ok (connection : ControlConnection) (history : list AssignmentRecord) (accepted : list Authorization) (id : string) (c : installedCandidate) : Prop :=
  exists record, record ∈ history /\ ar_DesiredState record = AssignmentAssigned /\ id = ai_of record /\ c = candidate_for record connection /\
    authorization_of record connection ∈ accepted.
Record rinv (connection : ControlConnection) (address : string) (history : list AssignmentRecord) r : Prop := {
  ri_connection : rc_connection r = connection;
  ri_address : rc_address r = address;
  ri_candidates : forall id c, rc_candidates r !! id = Some c -> cand_ok connection history (rc_accepted r) id c;
}.

Lemma cand_ok_mono connection history history' accepted accepted' id c : history ⊆ history' -> accepted ⊆ accepted' ->
  cand_ok connection history accepted id c -> cand_ok connection history' accepted' id c.
Proof. intros H1 H2 (record & ? & ? & ? & ? & ?). exists record. split_and!; try done; [by apply H1|by apply H2]. Qed.
Lemma rinv_history connection address history history' r : history ⊆ history' -> rinv connection address history r -> rinv connection address history' r.
Proof. intros H1 []. split; [done..|]. intros id c E. eapply cand_ok_mono; [exact H1|reflexivity|auto]. Qed.
Lemma rinv_agent connection address history r a : rinv connection address history r -> rinv connection address history (set_agent a r).
Proof. intros []. by split. Qed.
Lemma rinv_remove connection address history r candidates : candidates ⊆ rc_candidates r -> rinv connection address history r ->
  rinv connection address history (set_candidates candidates r).
Proof. intros Hsub []. split; [done..|]. intros id c E. cbn in *. apply ri_candidates0. by eapply lookup_weaken. Qed.

Lemma one_inv connection address history session states observations record r : record ∈ history -> rinv connection address history r ->
  exists r' failed, reconcile_one session states observations record r = (r', Ok failed) /\ rinv connection address history r' /\ rc_accepted r ⊆ rc_accepted r' /\
    (forall id, is_Some (rc_candidates r' !! id) -> is_Some (rc_candidates r !! id) \/ (id = ai_of record /\ publishable session record = true)) /\
    (forall id, id <> ai_of record -> rc_candidates r' !! id = rc_candidates r !! id) /\
    (failed = None -> publishable session record = true -> rc_candidates r' !! ai_of record = Some (candidate_for record connection)).
Proof.
  intros Hin [Hc Haddr Hcand]. destruct (reconcile_one_run session states observations record r) as (a & failed & r' & -> & Hcases). exists (set_agent a r'), failed.
  split; [done|]. destruct Hcases as [(Hw & -> & ->)|[(Hp & -> & ->)|(Hw & Hn & ->)]]; cbn; rewrite ?Hc.
  - split_and!; try done; auto. intros _ Hp. unfold publishable in Hp. by go_cases.
  - split_and!; try done.
    + split; cbn; try done. intros id c [(<- & <-)|(Hne & E)]%lookup_insert_Some.
      * exists record. unfold publishable in Hp. go_cases. split_and!; try done. set_solver.
      * eapply cand_ok_mono; [done| |by apply Hcand]. set_solver.
    + set_solver.
    + intros id. destruct (decide (id = ai_of record)) as [->|Hne]; [by right|]. rewrite lookup_insert_ne by done. by left.
    + intros id Hne. by rewrite lookup_insert_ne.
    + intros _ _. by rewrite lookup_insert_eq.
  - split_and!; try done.
    + apply rinv_agent, rinv_remove; [apply delete_subseteq|by split].
    + intros id [c E]. apply lookup_delete_Some in E as [_ E]. left. by eexists.
    + intros id Hne. by rewrite lookup_delete_ne.
    + intros Hf Hp. specialize (Hn Hf). congruence.
Qed.

Lemma join_all_None errs : join_all errs = None -> errs = [].
Proof.
  unfold join_all. destruct errs as [|e errs]; [done|]. cbn. assert (forall acc, is_Some (foldl (fun acc err => Some (match acc with Some first => JoinError first err | None => err end)) (Some acc) errs)) as Hs.
  { induction errs as [|e' errs IH]; intros acc; cbn; [by eexists|apply IH]. } intros E. destruct (Hs e) as [x Hx]. congruence.
Qed.

Lemma loop_inv connection address history session states observations ctx assignments : forall errs r, assignments ⊆ history -> rinv connection address history r ->
  exists r' failed, reconcile_loop session states observations ctx errs assignments r = (r', Ok failed) /\ rinv connection address history r' /\ rc_accepted r ⊆ rc_accepted r' /\
    (forall id, is_Some (rc_candidates r' !! id) -> is_Some (rc_candidates r !! id) \/ exists record, record ∈ assignments /\ id = ai_of record /\ publishable session record = true) /\
    (forall id, id ∉ ai_of <$> assignments -> rc_candidates r' !! id = rc_candidates r !! id) /\
    (failed = None -> errs = [] /\ (NoDup (ai_of <$> assignments) -> forall record, record ∈ assignments -> publishable session record = true ->
       rc_candidates r' !! ai_of record = Some (candidate_for record connection))).
Proof.
  induction assignments as [|record assignments IH]; intros errs r Hsub Hr; cbn [reconcile_loop].
  { exists r, (join_all errs). split_and!; try done; auto. intros E%join_all_None. split; [done|]. intros _ record Hrec. by apply not_elem_of_nil in Hrec. }
  destruct (ctx (length assignments)) as [err|].
  { eexists r, _. split_and!; try done; auto. }
  destruct (one_inv connection address history session states observations record r) as (r1 & failed & E & Hr1 & Hacc & Hdom & Hother & Hset); [apply Hsub; by left|done|].
  destruct (IH (errs ++ option_list failed) r1) as (r' & x & E' & Hr' & Hacc' & Hdom' & Hother' & Hset'); [intros y Hy; apply Hsub; by right|done|].
  exists r', x. unfold sbind. rewrite E. split_and!; [done|done|by etransitivity|..].
  - intros id Hid. apply Hdom' in Hid as [Hid|(record' & ? & ? & ?)]; [|right; exists record'; by split_and!; [right|..]].
    apply Hdom in Hid as [?|[-> ?]]; [by left|]. right. exists record. by split_and!; [left|..].
  - intros id. rewrite fmap_cons, not_elem_of_cons. intros [Hne Hn]. by rewrite Hother', Hother.
  - intros Hx. destruct (Hset' Hx) as [Herrs Hall]. apply app_nil in Herrs as [-> Hf]. split; [done|]. rewrite fmap_cons. intros [Hnin Hnd]%NoDup_cons record' Hrec Hp.
    apply elem_of_cons in Hrec as [->|Hrec]; [|by apply Hall]. rewrite Hother' by done. apply Hset; [by destruct failed|done].
Qed.
End candidates.

(** ** Histories *)
Section histories.
Context `{JCS} {A : Type} `{AgentOps A}.
Implicit Types (r : Reconciler (A := A)).

Definition listed (assignments : result (list AssignmentRecord)) : list AssignmentRecord := match assignments with Ok l => l | Err _ => [] end.

Lemma Reconcile_run connection address history ctxErr ctx assignments states worker r : rinv connection address history r ->
  exists r' failed, Reconcile ctxErr ctx assignments states worker r = (r', Ok failed) /\ rinv connection address (history ++ listed assignments) r' /\ rc_accepted r ⊆ rc_accepted r' /\
    (failed = None -> exists l w, assignments = Ok l /\ worker = Ok w /\
      (NoDup (ai_of <$> l) -> forall id c, (rc_candidates r' !! id = Some c <->
        exists record, record ∈ l /\ id = ai_of record /\ publishable (w_Session w) record = true /\ c = candidate_for record connection))).
Proof.
  intros Hr. assert (forall r', rinv connection address history r' -> rinv connection address (history ++ listed assignments) r') as Hmore
    by (intros r'; apply rinv_history; set_solver).
  unfold Reconcile. destruct ctxErr as [err|]; [exists r, (Some err); split_and!; auto; done|].
  unfold attempt at 1. unfold sbind, slift, sget. unfold wrap_err at 1. destruct assignments as [l|err]; [|eexists r, _; split_and!; [done|auto|reflexivity|done]].
  unfold wrap_err at 1. destruct states as [st|err]; [|eexists r, _; split_and!; [done|auto|reflexivity|done]].
  unfold wrap_err at 1. destruct worker as [w|err]; [|eexists r, _; split_and!; [done|auto|reflexivity|done]].
  destruct (validateWorkerControl w (rc_connection r)); [|eexists r, _; split_and!; [done|auto|reflexivity|done]].
  unfold on_error. destruct (call_run (op_AcceptControl (rc_connection r)) r) as (a1 & [[]|err] & ->);
    [|eexists (set_agent a1 r), _; split_and!; [done|by apply Hmore, rinv_agent|reflexivity|done]].
  destruct (indexServingStates ∅ st) as [indexed|err]; [|eexists (set_agent a1 r), _; split_and!; [done|by apply Hmore, rinv_agent|reflexivity|done]].
  unfold removeUnpublishableCandidates, sbind, sget, sput. set (keep := list_to_set _ : gset string).
  match goal with |- context [inventory ?r0] => set (r1 := r0) end.
  assert (rinv connection address (history ++ l) r1) as Hr1.
  { apply rinv_remove; [apply map_filter_subseteq|]. by apply rinv_agent, Hmore. }
  destruct (inventory_run r1) as (a2 & current & -> & _).
  destruct (loop_inv connection address (history ++ l) (w_Session w) indexed (indexObservations current) ctx l [] (set_agent a2 r1))
    as (r' & failed & -> & Hr' & Hacc & Hdom & _ & Hall); [set_solver|by apply rinv_agent|].
  exists r', failed. split_and!; [by destruct failed|done|exact Hacc|]. intros Hf. exists l, w. split_and!; try done. intros Hnd id c. destruct (Hall Hf) as [_ Hset]. split.
  - intros Hc. assert (exists record, record ∈ l /\ id = ai_of record /\ publishable (w_Session w) record = true) as (record & Hin & -> & Hp).
    + destruct (Hdom id) as [[c' Hid]|?]; [by eexists| |done]. cbn in Hid. apply map_lookup_filter_Some in Hid as [_ Hk]. cbn in Hk. subst keep.
      apply elem_of_list_to_set, list_elem_of_fmap in Hk as (record & -> & Hin). apply list_elem_of_In, List.filter_In in Hin as [Hin Hp].
      exists record. split_and!; try done. by apply list_elem_of_In.
    + exists record. split_and!; try done. specialize (Hset Hnd record Hin Hp). congruence.
  - intros (record & Hin & -> & Hp & ->). by apply Hset.
Qed.

Lemma Candidates_agent ctxErr order state epoch worker r : exists a x, Candidates ctxErr order state epoch worker r = (set_agent a r, x).
Proof.
  assert (set_agent (rc_agent r) r = r) as Hsame by (by destruct r). unfold Candidates.
  destruct ctxErr as [err|]; [eexists (rc_agent r), _; by rewrite Hsame|]. unfold sbind, sget, slift. destruct (negb _); [eexists (rc_agent r), _; by rewrite Hsame|].
  destruct (wrap_err _ worker) as [w|]; [|eexists (rc_agent r), _; by rewrite Hsame]. destruct (validateWorkerControl _ _) as [[]|]; [|eexists (rc_agent r), _; by rewrite Hsame].
  destruct (inventory_run r) as (a & x & -> & _). by eexists _, _.
Qed.

(** Calls of the reconciler, and what others do to the agent between them. *)
Inductive op :=
| OpReconcile (ctxErr : option error) (ctx : nat -> option error) (assignments : result (list AssignmentRecord)) (states : result (list ServingState)) (worker : result WorkerSnapshot)
| OpCandidates (ctxErr : option error) (order : list installedCandidate) (state : ServingState) (epoch : Z) (worker : result WorkerSnapshot)
| OpAgent (a : A).
Definition apply_op (o : op) r : Reconciler :=
  match o with
  | OpReconcile ctxErr ctx assignments states worker => fst (Reconcile ctxErr ctx assignments states worker r)
  | OpCandidates ctxErr order state epoch worker => fst (Candidates ctxErr order state epoch worker r)
  | OpAgent a => set_agent a r
  end.
Definition run (ops : list op) r : Reconciler := foldl (fun r o => apply_op o r) r ops.
Definition listings (ops : list op) : list AssignmentRecord :=
  ops ≫= fun o => match o with OpReconcile _ _ assignments _ _ => listed assignments | _ => [] end.

Lemma run_rinv connection address history ops : forall r, rinv connection address history r -> rinv connection address (history ++ listings ops) (run ops r).
Proof.
  revert history. induction ops as [|o ops IH]; intros history r Hr; cbn; [by rewrite app_nil_r|].
  unfold listings. cbn. rewrite app_assoc. apply IH. destruct o; cbn; rewrite ?app_nil_r.
  - destruct (Reconcile_run connection address history ctxErr ctx assignments states worker r Hr) as (r' & failed & -> & ? & _ & _). done.
  - destruct (Candidates_agent ctxErr order state epoch worker r) as (a & x & ->). by apply rinv_agent.
  - by apply rinv_agent.
Qed.

Lemma NewReconciler_inv agent connection address r : NewReconciler agent connection address = Ok r -> rinv connection address [] r.
Proof. unfold NewReconciler. intros Hn. ok_inv. by subst r. Qed.

Lemma indexed_from l : forall (acc : gmap string Observation) id o,
  foldl (fun indexed observation => <[ai_AssignmentID (ob_Identity observation) := observation]> indexed) acc l !! id = Some o ->
  acc !! id = Some o \/ (o ∈ l /\ ai_AssignmentID (ob_Identity o) = id).
Proof.
  induction l as [|x l IH]; intros acc id o; cbn; [by left|]. intros [E|[? ?]]%IH; [|right; split; [by right|done]].
  apply lookup_insert_Some in E as [[<- <-]|[_ E]]; [right; split; [by left|done]|by left].
Qed.
Lemma offered_spec worker current candidate : offered worker (indexObservations current) candidate = true ->
  ai_Worker (if_Assignment (au_Fence (ic_authorization candidate))) = w_Session worker /\
  exists o, o ∈ iv_Replicas current /\ ob_State o = ReplicaReady /\ ob_Identity o = if_Assignment (au_Fence (ic_authorization candidate)).
Proof.
  unfold offered. intros Ho. go_cases. split; [done|]. destruct (indexObservations current !! _) as [o|] eqn:E; cbn in *; [|done].
  apply indexed_from in E as [E|[Hin _]]; [by rewrite lookup_empty in E|]. by exists o.
Qed.

(** [Candidates] without an error: the offered candidates of the Function. *)
Lemma Candidates_Ok order state epoch worker r r' cs : Candidates None order state epoch worker r = (r', Ok cs) -> cs <> [] ->
  exists w current, worker = Ok w /\ epoch = cc_DiscoveryEpoch (rc_connection r) /\ (rc_agent r', current) = op_Inventory (rc_agent r) /\
    cs = SortFunc compare_candidates (candidate_of r w <$> List.filter (offered w (indexObservations current))
           (List.filter (fun candidate => ic_functionID candidate == md_ID (fn_Metadata (ss_Function state))) order)).
Proof.
  unfold Candidates, sbind, sget, slift, sret. destruct (epoch =? _) eqn:He; cbn [negb]; [|by intros [= <- <-]]. go_cases.
  destruct worker as [w|]; [|done]. unfold wrap_err. destruct (validateWorkerControl _ _) as [[]|]; [|done].
  destruct (inventory_run r) as (a & x & -> & Hx). intros [= <- <-] _. exists w, x. split_and!; done.
Qed.
End histories.

(** ** Guarantees *)
Section guarantees.
Context `{JCS} {A : Type} `{AgentOps A}.
Implicit Types (r : Reconciler (A := A)).

Definition candidate_order : EndpointCandidate -> EndpointCandidate -> comparison :=
  comparing (fun c => ai_AssignmentID (discovery.ec_Assignment c)) String.compare.
#[local] Instance candidate_order_total : TotalCompare candidate_order.
Proof. unfold candidate_order. apply _. Qed.
Lemma compare_candidates_spec left right : compare_candidates left right = int_of candidate_order left right.
Proof. done. Qed.
Lemma candidate_order_id left right : candidate_order left right = Eq ->
  ai_AssignmentID (discovery.ec_Assignment left) = ai_AssignmentID (discovery.ec_Assignment right).
Proof. apply String.compare_eq_iff. Qed.

Lemma elem_of_order (candidates : gmap string installedCandidate) order c : order ≡ₚ (map_to_list candidates).*2 ->
  c ∈ order <-> exists id, candidates !! id = Some c.
Proof.
  intros ->. rewrite list_elem_of_fmap. split.
  - intros ([id c'] & -> & Hin%elem_of_map_to_list). by exists id.
  - intros [id Hc%elem_of_map_to_list]. by exists (id, c).
Qed.

(** The keys of an iteration are distinct assignments. *)
Definition candidate_id (c : installedCandidate) : string := ai_AssignmentID (if_Assignment (au_Fence (ic_authorization c))).
Lemma order_ids connection address history r order : rinv connection address history r -> order ≡ₚ (map_to_list (rc_candidates r)).*2 ->
  NoDup (candidate_id <$> order).
Proof.
  intros Hr ->. replace (candidate_id <$> (map_to_list (rc_candidates r)).*2) with (map_to_list (rc_candidates r)).*1; [apply NoDup_fst_map_to_list|].
  rewrite <-list_fmap_compose. apply list_fmap_ext. intros i [id c] Hi. cbn.
  apply list_elem_of_lookup_2, elem_of_map_to_list, (ri_candidates _ _ _ _ Hr) in Hi as (record & _ & _ & -> & -> & _). done.
Qed.

Lemma Candidates_order connection address history r order order' state epoch worker : rinv connection address history r ->
  order ≡ₚ (map_to_list (rc_candidates r)).*2 -> order' ≡ₚ order -> Candidates None order' state epoch worker r = Candidates None order state epoch worker r.
Proof.
  intros Hr Ho Hp. unfold Candidates, sbind, sget, slift, sret. destruct (negb _); [done|]. destruct (wrap_err _ worker) as [w|]; [|done].
  destruct (validateWorkerControl _ _) as [[]|]; [|done]. destruct (inventory_run r) as (a & x & -> & _). do 2 f_equal.
  apply (discovery.SortFunc_keyed compare_candidates candidate_order (fun c => ai_AssignmentID (discovery.ec_Assignment c)));
    [exact compare_candidates_spec|exact candidate_order_id| |by apply fmap_Permutation, filter_Permutation_bool, filter_Permutation_bool].
  rewrite <-list_fmap_compose. apply (discovery.NoDup_filter_map candidate_id), discovery.NoDup_filter_map. eapply (order_ids _ _ _ r); [done|by rewrite Hp].
Qed.

(** What [Candidates] returns on [r], in terms of the candidate map. *)
Lemma Candidates_mem connection address history r order state w r' cs : rinv connection address history r -> order ≡ₚ (map_to_list (rc_candidates r)).*2 ->
  Candidates None order state (cc_DiscoveryEpoch connection) (Ok w) r = (r', Ok cs) ->
  exists current, op_Inventory (rc_agent r) = (rc_agent r', current) /\ validateWorkerControl w connection = Ok tt /\
    forall c, (c ∈ cs <-> exists id candidate, rc_candidates r !! id = Some candidate /\ ic_functionID candidate = md_ID (fn_Metadata (ss_Function state)) /\
      offered w (indexObservations current) candidate = true /\ c = candidate_of r w candidate).
Proof.
  intros Hr Ho. unfold Candidates, sbind, sget, slift, sret. rewrite (ri_connection _ _ _ _ Hr), Z.eqb_refl. cbn [negb wrap_err].
  destruct (validateWorkerControl _ _) as [[]|] eqn:Hv; [|done]. destruct (inventory_run r) as (a & x & -> & Hx). intros [= <- <-]. exists x. split_and!; try done.
  intros c. rewrite elem_of_SortFunc, list_elem_of_fmap. split.
  - intros (candidate & -> & Hin). apply list_elem_of_In, List.filter_In in Hin as [Hin Hoff]. apply List.filter_In in Hin as [Hin Hf].
    apply list_elem_of_In, (elem_of_order _ _ _ Ho) in Hin as [id Hid]. go_cases. by exists id, candidate.
  - intros (id & candidate & Hid & Hf & Hoff & ->). exists candidate. split; [done|]. apply list_elem_of_In, List.filter_In. split; [|done].
    apply List.filter_In. rewrite Hf, bool_decide_eq_true_2 by done. split; [|done]. apply list_elem_of_In, (elem_of_order _ _ _ Ho). by exists id.
Qed.

(** A record whose replica an inventory reports Ready under the committed
    identity. *)
Definition reported_ready (current : Inventory) (record : AssignmentRecord) : Prop :=
  exists o, o ∈ iv_Replicas current /\ ob_State o = ReplicaReady /\ ob_Identity o = assignment.Identity record.

(** The endpoint that a record is published as. *)
Definition endpoint_for (connection : ControlConnection) (address : string) (w : WorkerSnapshot) (record : AssignmentRecord) : EndpointCandidate :=
  {| discovery.ec_Assignment := assignment.Identity record; discovery.ec_DesiredState := discovery.AssignmentAssigned; discovery.ec_Worker := w;
     discovery.ec_ReplicaReady := true; discovery.ec_Authorization := Some (authorization_of record connection); discovery.ec_Address := address |}.

(** C7: What the reconciler offers to the serving snapshots is committed,
    authorized and Ready.  Take any history of Reconcile and Candidates calls,
    failing or cancelled at any iteration, with the agent changing in between.
    Every candidate that Candidates then returns is the endpoint of an Assigned
    record that one of the Reconcile calls listed, for the Function asked about,
    placed on the session of the Worker snapshot just read; the agent accepted
    the live-only authorization it carries, for this connection's discovery
    epoch; and the inventory just read reports a Ready replica with exactly the
    committed identity.  The result does not depend on the order in which the
    candidate map is iterated. *)
Theorem candidates_sound (agent : A) connection address r0 ops order state epoch worker r' cs :
  NewReconciler agent connection address = Ok r0 ->
  let r := run ops r0 in
  order ≡ₚ (map_to_list (rc_candidates r)).*2 ->
  Candidates None order state epoch worker r = (r', Ok cs) ->
  (forall order', order' ≡ₚ order -> Candidates None order' state epoch worker r = (r', Ok cs)) /\
  forall c, c ∈ cs -> epoch = cc_DiscoveryEpoch connection /\
    exists w current record, worker = Ok w /\ ws_SessionEpoch (w_Session w) = cc_SessionEpoch connection /\ op_Inventory (rc_agent r) = (rc_agent r', current) /\
      record ∈ listings ops /\ publishable (w_Session w) record = true /\ ar_FunctionID record = md_ID (fn_Metadata (ss_Function state)) /\
      reported_ready current record /\ authorization_of record connection ∈ rc_accepted r /\ c = endpoint_for connection address w record.
Proof.
  intros Hnew r Ho Hc. pose proof (run_rinv connection address [] ops r0 (NewReconciler_inv _ _ _ _ Hnew)) as Hr. fold r in Hr. split.
  { intros order' Hp. by rewrite (Candidates_order connection address _ r order order' state epoch worker Hr Ho Hp). }
  intros c Hin. assert (cs <> []) as Hne by (intros ->; by apply not_elem_of_nil in Hin).
  destruct (Candidates_Ok _ _ _ _ _ _ _ Hc Hne) as (w & _ & -> & He & _). rewrite (ri_connection _ _ _ _ Hr) in He. subst epoch. split; [done|].
  destruct (Candidates_mem _ _ _ _ _ _ _ _ _ Hr Ho Hc) as (current & Hi & Hv & Hmem). apply Hmem in Hin as (id & candidate & Hid & Hf & Hoff & ->).
  destruct (ri_candidates _ _ _ _ Hr _ _ Hid) as (record & Hrec & Ha & -> & -> & Hacc). apply offered_spec in Hoff as (Hw & o & Ho' & Hs & Hident).
  exists w, current, record. split_and!; try done.
  - unfold validateWorkerControl in Hv. ok_inv. go_cases. done.
  - unfold publishable. cbn in Hw. by rewrite Ha, Hw, !bool_decide_eq_true_2.
  - by exists o.
  - unfold candidate_of, endpoint_for. by rewrite (ri_address _ _ _ _ Hr).
Qed.

Lemma indexed_last l (acc : gmap string Observation) o : NoDup ((fun o => ai_AssignmentID (ob_Identity o)) <$> l) -> o ∈ l ->
  foldl (fun indexed observation => <[ai_AssignmentID (ob_Identity observation) := observation]> indexed) acc l !! ai_AssignmentID (ob_Identity o) = Some o.
Proof.
  revert acc. induction l as [|x l IH]; intros acc Hnd Hin; [by apply not_elem_of_nil in Hin|]. cbn. apply NoDup_cons in Hnd as [Hx Hnd].
  apply elem_of_cons in Hin as [->|Hin]; [|by apply IH].
  assert (forall acc : gmap string Observation, ai_AssignmentID (ob_Identity x) ∉ (fun o => ai_AssignmentID (ob_Identity o)) <$> l ->
    foldl (fun indexed observation => <[ai_AssignmentID (ob_Identity observation) := observation]> indexed) acc l !! ai_AssignmentID (ob_Identity x) = acc !! ai_AssignmentID (ob_Identity x)) as Hkeep.
  { clear. induction l as [|y l IH]; intros acc Hn; cbn; [done|]. rewrite fmap_cons, not_elem_of_cons in Hn. destruct Hn as [Hy Hn]. rewrite IH by done. by rewrite lookup_insert_ne. }
  rewrite Hkeep by done. apply lookup_insert_eq.
Qed.

(** C8: A Reconcile that returns nil has converged.  Take any history of calls
    and then a Reconcile without an error over Assignments with distinct
    identifiers, whatever the agent does afterwards.  When Candidates next reads
    the same Worker snapshot without an error, and the inventory lists each
    replica once, the endpoints it returns for a Function are exactly the
    Assigned records of that list on the Worker's session, of that Function,
    whose replica the inventory reports Ready with the committed identity. *)
Theorem reconcile_converges (agent : A) connection address r0 ops ctx assignments states w r1 a order state r2 cs :
  NewReconciler agent connection address = Ok r0 ->
  Reconcile None ctx (Ok assignments) (Ok states) (Ok w) (run ops r0) = (r1, Ok None) ->
  NoDup (ai_of <$> assignments) ->
  order ≡ₚ (map_to_list (rc_candidates r1)).*2 ->
  Candidates None order state (cc_DiscoveryEpoch connection) (Ok w) (set_agent a r1) = (r2, Ok cs) ->
  exists current, op_Inventory a = (rc_agent r2, current) /\
    (NoDup ((fun o => ai_AssignmentID (ob_Identity o)) <$> iv_Replicas current) ->
     forall c, (c ∈ cs <-> exists record, record ∈ assignments /\ publishable (w_Session w) record = true /\
       ar_FunctionID record = md_ID (fn_Metadata (ss_Function state)) /\ reported_ready current record /\ c = endpoint_for connection address w record)).
Proof.
  intros Hnew Hrec Hnd Ho Hc. pose proof (run_rinv connection address [] ops r0 (NewReconciler_inv _ _ _ _ Hnew)) as Hr.
  destruct (Reconcile_run _ _ _ None ctx (Ok assignments) (Ok states) (Ok w) _ Hr) as (r1' & failed & E & Hr1 & _ & Hall).
  rewrite Hrec in E. injection E as <- <-. destruct (Hall eq_refl) as (l & w' & [= <-] & [= <-] & Hmap). clear Hall.
  destruct (Candidates_mem connection address _ (set_agent a r1) _ _ _ _ _ (rinv_agent _ _ _ _ a Hr1) Ho Hc) as (current & Hi & _ & Hmem).
  exists current. split; [exact Hi|]. intros Hdist c. rewrite Hmem. cbn [rc_candidates set_agent]. split.
  - intros (id & candidate & Hid & Hf & Hoff & ->). apply (Hmap Hnd) in Hid as (record & Hin & -> & Hp & ->).
    apply offered_spec in Hoff as (_ & o & Ho' & Hs & Hident). exists record. split_and!; try done; [by exists o|].
    unfold candidate_of, endpoint_for. cbn. by rewrite (ri_address _ _ _ _ Hr1).
  - intros (record & Hin & Hp & Hf & (o & Ho' & Hs & Hident) & ->). exists (ai_of record), (candidate_for record connection). split_and!; try done.
    + apply (Hmap Hnd). by exists record.
    + unfold offered. cbn. pose proof (indexed_last _ ∅ o Hdist Ho') as El. rewrite Hident in El. cbn in El. unfold indexObservations. rewrite El. cbn.
      unfold publishable in Hp. go_cases. rewrite Hs, Hident, !bool_decide_eq_true_2; done.
    + unfold candidate_of, endpoint_for. cbn. by rewrite (ri_address _ _ _ _ Hr1).
Qed.

(** What an agent must support for a policy. *)
Definition unsupported (ag : agent.Agent) (policy : EffectivePolicy) : bool :=
  negb (len (ep_GrantedCapabilities policy) =? 0) || (ep_MaxConcurrency policy >? u32 (ag_maxConcurrent ag))
  || negb (wasmprofile.p_MemoryLimitMiB (ag_profile ag) =? rl_MemoryMiB (ep_ResourceLimits policy)) || negb (executionLimitsSatisfy policy (ag_executionLimits ag)).
(** The control connection is not the agent's current one, or the Assignment is
    for another session of the Worker. *)
Definition foreign (ag : agent.Agent) (request : PrepareRequest) : bool :=
  negb (currentControlLocked (ag_gate ag) (pq_Connection request)) || (ai_Worker (pq_Assignment request) != currentWorkerLocked (ag_gate ag)).

(** The reasons for which an agent may refuse a preparation. *)
Inductive refusal (ag : agent.Agent) (request : PrepareRequest) : error -> Prop :=
| refused_unsupported message : unsupported ag (pq_Policy request) = true -> refusal ag request (classified CodeCapabilityDenied message)
| refused_closing : ag_closing ag = true -> refusal ag request closing_error
| refused_malformed err : ControlConnection_validate (pq_Connection request) = Err err -> refusal ag request err
| refused_foreign message : foreign ag request = true -> refusal ag request (classified CodeStaleAssignment message)
| refused_reused p (r : replica) : ag_replicas ag !! pq_ID request = Some p -> ag_heap ag !! p = Some r -> samePreparation (r_request r) request = false ->
    refusal ag request (incompatibleAssignment (pq_Assignment (r_request r)) (pq_Assignment request))
| refused_full message : ag_replicas ag !! pq_ID request = None -> ag_maxAssignments ag <= Z.of_nat (size (ag_replicas ag)) ->
    refusal ag request (classified CodeOverloaded message).

(** The agent supports the request and serves its control connection. *)
Definition accepting (ag : agent.Agent) (request : PrepareRequest) : Prop :=
  unsupported ag (pq_Policy request) = false /\ ag_closing ag = false /\ foreign ag request = false.

(** What a call of [Prepare] has done to the agent. *)
Definition prepared (ag ag' : agent.Agent) (request : PrepareRequest) (outcome : prepare_outcome) : Prop :=
  match outcome with
  | PrepareRefused err => ag' = ag /\ refusal ag request err
  | PrepareDone observation err => accepting ag request /\ ag' = ag /\ exists p (r : replica), ag_replicas ag !! pq_ID request = Some p /\ ag_heap ag !! p = Some r /\
      samePreparation (r_request r) request = true /\ r_preparedDone r = true /\ observation = observeLocked r /\ err = r_prepareErr r
  | PrepareJoins p => accepting ag request /\ ag' = ag /\ exists r : replica, ag_replicas ag !! pq_ID request = Some p /\ ag_heap ag !! p = Some r /\
      samePreparation (r_request r) request = true /\ r_preparedDone r = false
  | PrepareStarts p => accepting ag request /\ ag_replicas ag !! pq_ID request = None /\ ag_replicas ag' = <[pq_ID request := p]> (ag_replicas ag) /\
      exists r : replica, ag_heap ag' = ag_heap ag ++ [r] /\ p = length (ag_heap ag) /\ r_request r = request /\ r_state r = ReplicaFetching /\ r_preparing r = true
  end.

(** A request that [prepareRequest] builds passes the agent's identity checks;
    what is left is what the agent supports. *)
Lemma prepareRequest_valid (ag : agent.Agent) record state connection request : prepareRequest record state connection = Ok request ->
  validatePrepare ag request = Ok tt /\ unsupported ag (pq_Policy request) = false \/
  unsupported ag (pq_Policy request) = true /\ exists message, validatePrepare ag request = Err (classified CodeCapabilityDenied message).
Proof.
  unfold prepareRequest. destruct (ss_Version state) as [v|], (ss_Deployment state) as [d|]; try done. intros Hp. ok_inv. subst request.
  assert (EffectivePolicy_Validate (policy_of v d) = Ok tt) as Hv.
  { match goal with E : EffectivePolicy_Digest _ = Ok _ |- _ => unfold EffectivePolicy_Digest in E; revert E end.
    destruct (EffectivePolicy_Validate (policy_of v d)) as [[]|]; done. }
  unfold validatePrepare, pq_Assignment. cbn [pq_Policy pq_Fence pq_Module fence_of if_Assignment]. rewrite Hv.
  match goal with E : EffectivePolicy_Digest _ = Ok _ |- _ => rewrite E end. cbn [rbind wrap_err].
  cbn [policy_of ep_VersionID ep_AdmissionEpoch ep_DeploymentGeneration ep_ArtifactDigest ep_ArtifactSize ep_ABI ep_HostAPIProfile ep_RuntimeFeatureProfile
    workercache.ms_ArtifactDigest workercache.ms_ArtifactSize workercache.ms_ABI workercache.ms_HostAPIProfile workercache.ms_RuntimeFeatureProfile].
  repeat match goal with E : ai_VersionID _ = _ |- _ => rewrite E; clear E | E : ai_AdmissionEpoch _ = _ |- _ => rewrite E; clear E
    | E : ai_DeploymentGeneration _ = _ |- _ => rewrite E; clear E | E : _ = ai_PolicyDigest _ |- _ => rewrite <-E; clear E end.
  rewrite !Z.eqb_refl, !bool_decide_eq_true_2 by done. cbn [negb andb fail_if rbind]. fold (policy_of v d). unfold unsupported.
  repeat (match goal with |- context [fail_if ?b _] => destruct b; cbn [fail_if rbind orb]; [right; split; [by rewrite ?orb_true_r|by eexists]|] end). by left.
Qed.

(** An installed record's fence is well formed. *)
Lemma installed_fence stores command s s' record connection : assignment.Install stores command s = (s', Ok record) -> ControlConnection_validate connection = Ok tt ->
  InvocationFence_validate (fence_of record connection) = Ok tt.
Proof.
  intros (Hval & -> & _)%Install_Ok Hc. unfold validateInstallAssignment, Assignment_Validate in Hval. unfold ControlConnection_validate in Hc. ok_inv.
  unfold InvocationFence_validate, fence_of. cbn [if_Assignment if_DiscoveryEpoch]. unfold assignment.Identity. cbn [assigned ar_Placement].
  match goal with E : AssignmentIdentity_validate _ = Ok _ |- _ => rewrite E end. cbn [rbind]. unfold fail_if. case_match; [|done]. go_cases. done.
Qed.

(** The gate's answer to a well-formed fence of the same discovery epoch. *)
Lemma CheckAssignment_run request (ag : agent.Agent) : if_DiscoveryEpoch (pq_Fence request) = cc_DiscoveryEpoch (pq_Connection request) ->
  (ControlConnection_validate (pq_Connection request) = Ok tt -> InvocationFence_validate (pq_Fence request) = Ok tt) ->
  match CheckAssignment (pq_Connection request) (pq_Fence request) (ag_gate ag) with
  | Ok _ => foreign ag request = false
  | Err err => refusal ag request err
  end.
Proof.
  intros He Hf. unfold CheckAssignment. destruct (ControlConnection_validate (pq_Connection request)) as [[]|err] eqn:Hc; [|by apply refused_malformed].
  rewrite (Hf eq_refl). cbn [rbind]. rewrite He, Z.eqb_refl, orb_false_r. unfold fail_if.
  destruct (currentControlLocked _ _) eqn:H1; cbn [negb rbind]; [|apply refused_foreign; unfold foreign; by rewrite H1].
  fold (pq_Assignment request). destruct (ai_Worker (pq_Assignment request) != currentWorkerLocked (ag_gate ag)) eqn:H2.
  - apply refused_foreign. unfold foreign. by rewrite H2, orb_true_r.
  - unfold foreign. by rewrite H1, H2.
Qed.

Lemma Prepare_run request (ag : agent.Agent) : (forall p, ag_replicas ag !! pq_ID request = Some p -> is_Some (ag_heap ag !! p)) ->
  (validatePrepare ag request = Ok tt /\ unsupported ag (pq_Policy request) = false \/ unsupported ag (pq_Policy request) = true /\ exists message, validatePrepare ag request = Err (classified CodeCapabilityDenied message)) ->
  if_DiscoveryEpoch (pq_Fence request) = cc_DiscoveryEpoch (pq_Connection request) ->
  (ControlConnection_validate (pq_Connection request) = Ok tt -> InvocationFence_validate (pq_Fence request) = Ok tt) ->
  exists ag' outcome, Prepare request ag = (ag', Ok outcome) /\ prepared ag ag' request outcome.
Proof.
  intros Hheap Hval He Hf. pose proof (CheckAssignment_run request ag He Hf) as Hgate. unfold Prepare, sbind, sget, sret.
  destruct Hval as [[-> Hu]|(Hu & message & ->)]; [|by eexists _, _; split; [done|]; split; [done|apply refused_unsupported]].
  destruct (ag_closing ag) eqn:Hcl; [by eexists _, _; split; [done|]; split; [done|apply refused_closing]|].
  destruct (CheckAssignment _ _ _) as [u|err]; [|by eexists _, _; split]. assert (accepting ag request) as Hok by (by split_and!).
  destruct (ag_replicas ag !! pq_ID request) as [p|] eqn:Hp.
  - destruct (Hheap p eq_refl) as [r Hr]. unfold deref. rewrite Hr. destruct (samePreparation (r_request r) request) eqn:Hs; cbn [negb].
    + destruct (r_preparedDone r) eqn:Hd; (eexists _, _; split; [done|]); cbn; (split; [done|]; split; [done|]); [by exists p, r|by exists r].
    + eexists _, _. split; [done|]. split; [done|]. by eapply refused_reused.
  - destruct (_ >=? _) eqn:Hsz; [eexists _, _; split; [done|]; split; [done|apply refused_full; [done|lia]]|].
    cbn. unfold bumpLocked, transitionLocked, modify, sbind, sget, sput, deref, sret. cbn. rewrite list_lookup_middle by done. cbn.
    assert ((ReplicaAssigned == ReplicaFetching) = false /\ validReplicaTransition ReplicaAssigned ReplicaFetching = true) as [-> ->] by (vm_compute; done).
    cbn. rewrite list_lookup_middle by done. eexists _, _. split; [done|]. cbn. split_and!; try done. eexists. split_and!; [by rewrite insert_app_r_alt, Nat.sub_diag by done|done..].
Qed.

End guarantees.

(** ** Witnesses: one committed Assignment on an agent that prepares at once *)
#[local] Existing Instance release.ex_jcs.

Definition ex_ready (identity : AssignmentIdentity) : Observation :=
  {| ob_Identity := identity; ob_Module := ob_Module zero_observation; ob_State := ReplicaReady; ob_Failure := None; ob_Load := zero_Result;
     ob_ActiveInvocations := 0; ob_QueuedInvocations := 0 |}.
Definition ex_gate : GateSnapshot := {| gs_HighestDiscoveryEpoch := 1; gs_CurrentSessionEpoch := 1; gs_ControlConnected := true;
     gs_TrackedAssignments := 0; gs_StoredAuthorizations := 0; gs_ClockHealthy := true |}.
#[local] Instance ex_agent_ops : AgentOps (list Observation) := {
  op_AcceptControl _ a := (a, Ok tt);
  op_Prepare request a := (a ++ [ex_ready (if_Assignment (pq_Fence request))], Ok (ex_ready (if_Assignment (pq_Fence request))));
  op_InstallAuthorization _ _ a := (a, Ok tt);
  op_Cancel _ a := (a, Ok tt);
  op_AcknowledgeTerminal _ _ a := (a, Ok tt);
  op_Inventory a := (a, {| iv_Revision := 1; iv_Replicas := a; iv_Authorization := ex_gate; iv_Closing := false; iv_Closed := false |});
}.
Definition ex_connection : ControlConnection := {| cc_ConnectionID := "conn_1"; cc_SessionEpoch := 1; cc_DiscoveryEpoch := 1 |}.
Definition ex_address : string := "127.0.0.1:8443".
Definition ex_record : AssignmentRecord := assigned (ex_install "asg-1").
Definition ex_states : list ServingState := Eval vm_compute in catalog.ok_or [] (ServingStates ex_published).
Definition ex_w : WorkerSnapshot := scheduler.ex_worker "worker-1" 2.
Definition ex_r0 : Reconciler (A := list Observation) :=
  {| rc_connection := ex_connection; rc_address := ex_address; rc_candidates := ∅; rc_agent := []; rc_accepted := [] |}.
Definition ex_reconcile : op (A := list Observation) := OpReconcile None (fun _ => None) (Ok [ex_record]) (Ok ex_states) (Ok ex_w).
Definition ex_state : ServingState := Eval vm_compute in
  List.hd {| ss_Function := routestore.ex_active; ss_Trigger := catalog.zero_HTTPTrigger; ss_Route := None; ss_Version := None; ss_Deployment := None |} ex_states.
Definition iteration (r : Reconciler (A := list Observation)) : list installedCandidate := (map_to_list (rc_candidates r)).*2.

Lemma ex_new : NewReconciler ([] : list Observation) ex_connection ex_address = Ok ex_r0.
Proof. vm_compute. exact eq_refl. Qed.
Lemma ex_states_run : ServingStates ex_published = Ok ex_states.
Proof. vm_compute. exact eq_refl. Qed.
Lemma ex_state_in : ex_state ∈ ex_states.
Proof. vm_compute. apply list_elem_of_here. Qed.

Lemma candidates_sound_witness :
  snd (Candidates None (iteration (run [ex_reconcile] ex_r0)) ex_state 1 (Ok ex_w) (run [ex_reconcile] ex_r0)) = Ok [endpoint_for ex_connection ex_address ex_w ex_record] /\
  authorization_of ex_record ex_connection ∈ rc_accepted (run [ex_reconcile] ex_r0).
Proof.
  split; [vm_compute; exact eq_refl|].
  destruct (Candidates None (iteration (run [ex_reconcile] ex_r0)) ex_state 1 (Ok ex_w) (run [ex_reconcile] ex_r0)) as [r' cs] eqn:E.
  assert (cs = Ok [endpoint_for ex_connection ex_address ex_w ex_record]) as -> by (change cs with (snd (r', cs)); rewrite <-E; vm_compute; exact eq_refl).
  destruct (candidates_sound ([] : list Observation) ex_connection ex_address ex_r0 [ex_reconcile] (iteration (run [ex_reconcile] ex_r0)) ex_state 1 (Ok ex_w) r'
    [endpoint_for ex_connection ex_address ex_w ex_record] ex_new (Permutation_refl _) E) as [_ Hall].
  destruct (Hall _ (list_elem_of_here _ _)) as (_ & w & current & record & _ & _ & _ & Hin & _ & _ & _ & Hacc & _).
  vm_compute in Hin. apply list_elem_of_singleton in Hin as ->. exact Hacc.
Defined.

(** A converged pass publishes the record; the agent then loses the replica and
    nothing is published. *)
Lemma reconcile_converges_witness :
  exists r1 r2, Reconcile None (fun _ => None) (Ok [ex_record]) (Ok ex_states) (Ok ex_w) ex_r0 = (r1, Ok None) /\
    Candidates None (iteration r1) ex_state 1 (Ok ex_w) r1 = (r2, Ok [endpoint_for ex_connection ex_address ex_w ex_record]) /\
    exists current, op_Inventory (rc_agent r1) = (rc_agent r2, current) /\ reported_ready current ex_record.
Proof.
  destruct (Reconcile None (fun _ => None) (Ok [ex_record]) (Ok ex_states) (Ok ex_w) ex_r0) as [r1 x] eqn:E1.
  assert (x = Ok None) as -> by (change x with (snd (r1, x)); rewrite <-E1; vm_compute; exact eq_refl).
  destruct (Candidates None (iteration r1) ex_state 1 (Ok ex_w) r1) as [r2 cs] eqn:E2.
  assert (cs = Ok [endpoint_for ex_connection ex_address ex_w ex_record]) as ->.
  { change cs with (snd (r2, cs)). rewrite <-E2. change r1 with (fst (r1, Ok (A := option error) None)). rewrite <-E1. vm_compute. exact eq_refl. }
  exists r1, r2. split; [exact eq_refl|]. split; [exact E2|].
  destruct (reconcile_converges ([] : list Observation) ex_connection ex_address ex_r0 [] (fun _ => None) [ex_record] ex_states ex_w r1 (rc_agent r1) (iteration r1)
    ex_state r2 [endpoint_for ex_connection ex_address ex_w ex_record] ex_new E1 (NoDup_singleton _) (Permutation_refl _)) as (current & Hi & Hall).
  { destruct r1. exact E2. }
  exists current. split; [exact Hi|]. assert (NoDup ((fun o => ai_AssignmentID (ob_Identity o)) <$> iv_Replicas current)) as Hnd.
  { injection Hi as _ <-. cbn [iv_Replicas]. assert (rc_agent r1 = [ex_ready (assignment.Identity ex_record)]) as ->
      by (change r1 with (fst (r1, Ok (A := option error) None)); rewrite <-E1; vm_compute; exact eq_refl). apply NoDup_singleton. }
  destruct (proj1 (Hall Hnd _) (list_elem_of_here _ _)) as (record & Hin & _ & _ & Hready & _). apply list_elem_of_singleton in Hin as ->. exact Hready.
Defined.

(** A new agent of the Worker, with the control connection accepted. *)
Definition ex_agent : agent.Agent := ltac:(
  let x := eval vm_compute in
    (match newAgent {| cg_Authorization := {| cfg_Worker := {| wp_WorkerID := "worker-1"; wp_BootID := "boot-1" |}; cfg_MaxTTL := 0; cfg_MaxAuthorizations := 0 |};
         cg_MaxAssignments := 0; cg_MaxConcurrent := 0; cg_MaxQueued := 0; cg_MaxQueuedPerReplica := 0; cg_PrepareTimeout := 0 |}
       {| wasmprofile.p_Engine := wasmprofile.EngineCompiler; wasmprofile.p_MemoryLimitMiB := 64 |}
       {| el_MaxTimeout := minute; el_MaxConcurrent := 8; el_MaxConcurrentPerProgram := 8; el_ABILimits := abi.defaults; el_MaxLogBytes := 1048576;
          el_MaxLogLineBytes := DefaultMaxLogLineBytes |} 0 with
     | Ok a => Ok (fst (agent.AcceptControl [] [] ex_connection a))
     | Err err => Err err
     end) in
  match x with Ok ?a => exact a end).


End localworker.
