(* ===== verification/LocalServing.v ===== *)
(** * Package [internal/localserving]: from control-plane state to the Gateway

    A Full Sync projects every Function's serving state, asks the candidate
    source for its Endpoints, builds one batch of snapshots and applies it to
    the Gateway's store.  The candidate source is the interface
    [CandidateSource]; the reconciler of the local Worker implements it.  The
    aggregate read, the wall clock, the Gateway's clock and the answers of
    contexts are arguments. *)
From stdpp Require Import base gmap strings list.
From S2P Require Import Prelude Problem Digest Json Model Catalog Release RouteStore ServingAuth Scheduler Net Discovery GatewayDiscovery AssignmentStore WorkerAgent LocalWorker.
Import problem digest model servingauth.

#[local] Open Scope Z_scope.

Module localserving.
#[local] Abbreviation ServingState := routestore.ServingState.
#[local] Abbreviation EndpointCandidate := discovery.EndpointCandidate.
Import routestore discovery gatewaydiscovery.

(** [Candidates] of [CandidateSource]; it may change the source's own state. *)
Class CandidateSource (C : Type) := op_Candidates : ServingState -> Z -> C -> C * result (list EndpointCandidate).

(** ** Projections *)
Definition projectRoute (state : ServingState) : discovery.Route :=
  match ss_Route state with
  | None => {| discovery.sr_Present := false; discovery.sr_FunctionID := md_ID (fn_Metadata (ss_Function state)); discovery.sr_ResourceRevision := 0;
               discovery.sr_RouteRevision := 0; discovery.sr_Enabled := false; discovery.sr_Targets := []; discovery.sr_Affinity := "";
               discovery.sr_AffinityHeader := ""; discovery.sr_HashVersion := ""; discovery.sr_SaltID := ""; discovery.sr_Salt := "" |}
  | Some route =>
    {| discovery.sr_Present := true; discovery.sr_FunctionID := r_FunctionID route; discovery.sr_ResourceRevision := md_ResourceRevision (r_Metadata route);
       discovery.sr_RouteRevision := r_RouteRevision route; discovery.sr_Enabled := r_Enabled route; discovery.sr_Targets := r_Targets route;
       discovery.sr_Affinity := r_Affinity route; discovery.sr_AffinityHeader := r_AffinityHeader route; discovery.sr_HashVersion := r_HashVersion route;
       discovery.sr_SaltID := r_SaltID route; discovery.sr_Salt := r_Salt route |}
  end.

(** The position is set by the publisher. *)
Definition projectInput (state : ServingState) (generatedAt : Time) : Input :=
  {| ip_DiscoveryEpoch := 0; ip_ServingSequence := 0; ip_GeneratedAt := generatedAt;
     ip_Function := {| sf_ID := md_ID (fn_Metadata (ss_Function state)); sf_Name := fn_Name (ss_Function state);
                       sf_ResourceRevision := md_ResourceRevision (fn_Metadata (ss_Function state)); sf_Lifecycle := fn_Lifecycle (ss_Function state) |};
     ip_Trigger := {| sg_ID := md_ID (catalog.tr_Metadata (ss_Trigger state)); sg_FunctionID := catalog.tr_FunctionID (ss_Trigger state);
                      sg_ResourceRevision := md_ResourceRevision (catalog.tr_Metadata (ss_Trigger state)); sg_Enabled := catalog.tr_Enabled (ss_Trigger state);
                      sg_AuthPolicy := catalog.tr_AuthPolicy (ss_Trigger state); sg_TokenVerifierDigest := catalog.tr_TokenVerifierDigest (ss_Trigger state) |};
     ip_Route := projectRoute state; ip_Candidates := [] |}.

Definition with_candidates (input : Input) (candidates : list EndpointCandidate) : Input :=
  {| ip_DiscoveryEpoch := ip_DiscoveryEpoch input; ip_ServingSequence := ip_ServingSequence input; ip_GeneratedAt := ip_GeneratedAt input;
     ip_Function := ip_Function input; ip_Trigger := ip_Trigger input; ip_Route := ip_Route input; ip_Candidates := candidates |}.

(** [%q] of an identifier, which has nothing to escape. *)
Definition quoted (id : string) : string := let mark := String (Ascii.ascii_of_nat 34) "" in mark +:+ id +:+ mark.

Section synchronizer.
Context `{JCS} {C : Type} `{CandidateSource C}.

Record Synchronizer := { sy_candidates : option C; sy_publisher : Publisher; sy_store : Store }.

(** [haveStates] says that the state source is there. *)
Definition New (haveStates : bool) (candidates : option C) (publisher : option Publisher) (store : option Store) : result Synchronizer :=
  fail_if (negb haveStates) (PlainError "local serving state source is required") ;;;
  match publisher with
  | None => Err (PlainError "local serving publisher is required")
  | Some publisher =>
    match store with
    | None => Err (PlainError "local serving gateway store is required")
    | Some store => Ok {| sy_candidates := candidates; sy_publisher := publisher; sy_store := store |}
    end
  end.

Definition endpointCandidates (state : ServingState) (epoch : Z) : M (option C) (list EndpointCandidate) :=
  fun source => match source with
  | None => (None, Ok [])
  | Some c => let '(c', answer) := op_Candidates state epoch c in (Some c', answer)
  end.

(** The loop of [FullSync] over the states. *)
Fixpoint collect (ctx : nat -> option error) (generatedAt : Time) (epoch : Z) (states : list ServingState) : M (option C) (list Input) :=
  match states with
  | [] => sret []
  | state :: states =>
    match ctx (length states) with
    | Some err => sthrow err
    | None =>
      let! candidates := (fun source => let '(source', answer) := endpointCandidates state epoch source in
                                        (source', wrap_err ("listing candidates for function " +:+ quoted (md_ID (fn_Metadata (ss_Function state)))) answer)) in
      let! inputs := collect ctx generatedAt epoch states in
      sret (with_candidates (projectInput state generatedAt) candidates :: inputs)
    end
  end.

(** Calls of the three components. *)
Definition on_candidates {X} (m : M (option C) X) : M Synchronizer X :=
  fun s => let '(c, x) := m (sy_candidates s) in ({| sy_candidates := c; sy_publisher := sy_publisher s; sy_store := sy_store s |}, x).
Definition on_publisher {X} (m : M Publisher X) : M Synchronizer X :=
  fun s => let '(p, x) := m (sy_publisher s) in
           ({| sy_candidates := sy_candidates s; sy_publisher := p; sy_store := sy_store s |}, wrap_err "building local serving Full Sync" x).
Definition on_store {X} (m : M Store X) : M Synchronizer X :=
  fun s => let '(st, x) := m (sy_store s) in
           ({| sy_candidates := sy_candidates s; sy_publisher := sy_publisher s; sy_store := st |}, wrap_err "applying local serving Full Sync" x).

(** [FullSync], under the mutex; [now] is the wall clock, [clock] the Gateway's. *)
Definition FullSync (ctxErr : option error) (ctx : nat -> option error) (states : result (list ServingState)) (now : Time) (clock : Z) : M Synchronizer unit :=
  match ctxErr with
  | Some err => sthrow err
  | None =>
    let! states := slift (wrap_err "listing local serving states" states) in
    let! s := sget in
    let epoch := fst (Position (sy_publisher s)) in
    let generatedAt := time_Round0 now in
    let! inputs := on_candidates (collect ctx generatedAt epoch states) in
    let! built := on_publisher (BuildFull inputs) in
    let '(results, sequence) := built in
    on_store (Apply clock {| ev_Full := true; ev_DiscoveryEpoch := epoch; ev_ServingSequence := sequence; ev_Snapshots := re_Snapshot <$> results |})
  end.
End synchronizer.

(** ** One Full Sync *)
Section sync.
Context `{JCS} {C : Type} `{CandidateSource C}.
Implicit Types (s : Synchronizer (C := C)).

#[local] Existing Instance gatewaydiscovery.kept_refl.

(** What a candidate source promises: an invariant of its state and a property
    of every candidate that it answers with. *)
Class CandidateLaws (I : C -> Prop) (Q : ServingState -> Z -> EndpointCandidate -> Prop) : Prop := {
  cl_inv : forall state epoch c, I c -> I (fst (op_Candidates state epoch c));
  cl_sound : forall state epoch c c' cs, I c -> op_Candidates state epoch c = (c', Ok cs) -> Forall (Q state epoch) cs;
}.
Definition source_ok (I : C -> Prop) (source : option C) : Prop := match source with Some c => I c | None => True end.

(** The answers of the source to one question per state, in order, each call
    from the state that the call before it left; without a source there are no
    candidates. *)
Inductive answers (epoch : Z) : list ServingState -> list (list EndpointCandidate) -> option C -> option C -> Prop :=
| answers_nil source : answers epoch [] [] source source
| answers_none state states lists :
    answers epoch states lists None None -> answers epoch (state :: states) ([] :: lists) None None
| answers_some state states cs lists c c1 source' :
    op_Candidates state epoch c = (c1, Ok cs) -> answers epoch states lists (Some c1) source' ->
    answers epoch (state :: states) (cs :: lists) (Some c) source'.

(** The inputs of a batch: every state projected, with its answer. *)
Definition projected (generatedAt : Time) : list ServingState -> list (list EndpointCandidate) -> list Input :=
  zip_with (fun state cs => with_candidates (projectInput state generatedAt) cs).
Definition sound (Q : ServingState -> Z -> EndpointCandidate -> Prop) (epoch : Z) : list ServingState -> list (list EndpointCandidate) -> Prop :=
  Forall2 (fun state cs => Forall (Q state epoch) cs).

Lemma collect_laws I Q `{!CandidateLaws I Q} ctx generatedAt epoch states : forall source, source_ok I source ->
  source_ok I (fst (collect ctx generatedAt epoch states source)) /\
  forall inputs, snd (collect ctx generatedAt epoch states source) = Ok inputs ->
    exists lists, answers epoch states lists source (fst (collect ctx generatedAt epoch states source)) /\
      inputs = projected generatedAt states lists /\ sound Q epoch states lists.
Proof.
  induction states as [|state states IH]; intros source Hs; cbn [collect]; [split; [done|]; intros inputs [= <-]; exists []; split_and!; constructor|].
  destruct (ctx (length states)); [by split|]. unfold sbind, sret. destruct source as [c|]; cbn [endpointCandidates].
  - pose proof (cl_inv state epoch c Hs) as Hi. destruct (op_Candidates state epoch c) as [c1 [cs|err]] eqn:E; cbn [wrap_err]; [|by split].
    destruct (IH (Some c1) Hi) as [H3 H4]. destruct (collect ctx generatedAt epoch states (Some c1)) as [source' [inputs|err]]; cbn in *; [|by split].
    split; [done|]. intros l [= <-]. destruct (H4 inputs eq_refl) as (lists & Ha & -> & Hq). exists (cs :: lists).
    split_and!; [by econstructor|done|]. constructor; [exact (cl_sound state epoch c c1 cs Hs E)|done].
  - cbn [wrap_err]. destruct (IH None Logic.I) as [H3 H4].
    destruct (collect ctx generatedAt epoch states None) as [source' [inputs|err]] eqn:Ec; cbn in *; [|by split].
    split; [done|]. intros l [= <-]. destruct (H4 inputs eq_refl) as (lists & Ha & -> & Hq). exists ([] :: lists).
    assert (source' = None) as -> by (remember None as start eqn:Hn in Ha; clear -Ha Hn; induction Ha; [done|done|discriminate Hn]).
    split_and!; [by constructor|done|]. constructor; [constructor|done].
Qed.

Lemma answers_length epoch states lists source source' : answers epoch states lists source source' -> length lists = length states.
Proof. induction 1; cbn; congruence. Qed.
Lemma projected_ids generatedAt states : forall lists, length lists = length states ->
  (fun input => sf_ID (ip_Function input)) <$> projected generatedAt states lists = (fun state => md_ID (fn_Metadata (ss_Function state))) <$> states.
Proof. induction states as [|state states IH]; intros [|cs lists] Hl; try done. unfold projected. cbn. f_equal. apply IH. by injection Hl. Qed.
Lemma projected_lookup generatedAt states lists i input : projected generatedAt states lists !! i = Some input ->
  exists state cs, states !! i = Some state /\ lists !! i = Some cs /\ input = with_candidates (projectInput state generatedAt) cs.
Proof. unfold projected. intros (state & cs & -> & H1 & H2)%lookup_zip_with_Some. by exists state, cs. Qed.

Lemma build_all_Forall2 p next inputs : forall seen rs, build_all p next seen inputs = Ok rs ->
  Forall2 (fun input r => Build (pu_builder p) (at_position input (pu_epoch p) next) = Ok r) inputs rs.
Proof.
  induction inputs as [|input inputs IH]; intros seen rs Hb; cbn in Hb; ok_inv; subst rs; constructor; [done|by eapply IH].
Qed.

(** The positions of publisher and store over a history of Full Syncs. *)
Record sync_ok s : Prop := {
  so_range : is_u64 (pu_sequence (sy_publisher s));
  so_store : 0 <= ep_sequence (st_position (sy_store s));
  so_behind : ep_epoch (st_position (sy_store s)) <= pu_epoch (sy_publisher s) /\
    (ep_epoch (st_position (sy_store s)) = pu_epoch (sy_publisher s) -> ep_sequence (st_position (sy_store s)) <= pu_sequence (sy_publisher s));
}.

(** The batch that a Full Sync installs. *)
Record batch (builder : Builder) (epoch sequence : Z) (inputs : list Input) (view : gmap string Snapshot) : Prop := {
  ba_NoDup : NoDup ((fun input => sf_ID (ip_Function input)) <$> inputs);
  ba_built : forall input, input ∈ inputs -> exists r, Build builder (at_position input epoch sequence) = Ok r;
  ba_view : forall id snapshot, view !! id = Some snapshot <->
    exists input r, input ∈ inputs /\ sf_ID (ip_Function input) = id /\ Build builder (at_position input epoch sequence) = Ok r /\ snapshot = re_Snapshot r;
}.

Lemma install_batch builder epoch sequence inputs results view :
  NoDup ((fun input => sf_ID (ip_Function input)) <$> inputs) ->
  Forall2 (fun input r => Build builder (at_position input epoch sequence) = Ok r) inputs results ->
  batch builder epoch sequence inputs (gatewaydiscovery.install view
    {| ev_Full := true; ev_DiscoveryEpoch := epoch; ev_ServingSequence := sequence; ev_Snapshots := re_Snapshot <$> results |}).
Proof.
  intros Hnd Hall. assert (sn_FunctionID <$> (re_Snapshot <$> results) = (fun input => sf_ID (ip_Function input)) <$> inputs) as Hids.
  { clear Hnd. induction Hall as [|input r inputs results Hb _ IH]; [done|]. rewrite !fmap_cons, IH. f_equal. by apply Build_position in Hb as (_ & _ & -> & _). }
  split; [done| |].
  { intros input [i Hi]%list_elem_of_lookup. destruct (Forall2_lookup_l _ _ _ _ _ Hall Hi) as (r & _ & Hb). by exists r. }
  intros id snapshot. unfold gatewaydiscovery.install. cbn [ev_Full ev_Snapshots]. rewrite put_snapshot_lookup by (by rewrite Hids).
  rewrite lookup_empty. split.
  - intros [[Hin Hid]|[_ ?]]; [|done]. apply list_elem_of_fmap in Hin as (r & -> & Hr). apply list_elem_of_lookup in Hr as [i Hi].
    destruct (Forall2_lookup_r _ _ _ _ _ Hall Hi) as (input & Hin & Hb). exists input, r. split_and!; [by apply list_elem_of_lookup_2 in Hin| |done|done].
    apply Build_position in Hb as (_ & _ & Hf & _). cbn in Hf. congruence.
  - intros (input & r & Hin & Hid & Hb & ->). left. apply list_elem_of_lookup in Hin as [i Hi]. destruct (Forall2_lookup_l _ _ _ _ _ Hall Hi) as (r' & Hr & Hb').
    rewrite Hb in Hb'. injection Hb' as <-. split; [apply list_elem_of_fmap_2; by apply list_elem_of_lookup_2 in Hr|]. by apply Build_position in Hb as (_ & _ & -> & _).
Qed.

(** Every outcome of a Full Sync. *)
Lemma FullSync_run I Q `{!CandidateLaws I Q} ctxErr ctx states now clock s : sync_ok s -> source_ok I (sy_candidates s) ->
  let epoch := pu_epoch (sy_publisher s) in
  let next := pu_sequence (sy_publisher s) + 1 in
  let '(s', x) := FullSync ctxErr ctx states now clock s in
  sync_ok s' /\ source_ok I (sy_candidates s') /\ pu_builder (sy_publisher s') = pu_builder (sy_publisher s) /\ pu_epoch (sy_publisher s') = epoch /\
  match x with
  | Err _ => kept (sy_store s) (sy_store s') /\ (pu_sequence (sy_publisher s') = pu_sequence (sy_publisher s) \/ pu_sequence (sy_publisher s') = next)
  | Ok _ => exists l lists, states = Ok l /\ answers epoch l lists (sy_candidates s) (sy_candidates s') /\ sound Q epoch l lists /\
      batch (pu_builder (sy_publisher s)) epoch next (projected (time_Round0 now) l lists) (snapshots_of (sy_store s')) /\
      pu_sequence (sy_publisher s') = next /\ ep_epoch (st_position (sy_store s')) = epoch /\ ep_sequence (st_position (sy_store s')) = next /\
      st_fullSynced (sy_store s') = true /\ st_needsFullSync (sy_store s') = false
  end.
Proof.
  intros [Hu Hst [Hep Hseq]] Hsrc epoch next. unfold FullSync. assert (sync_ok s) as Hok by (by split).
  destruct ctxErr as [err|]; [split_and!; auto; reflexivity|]. unfold sbind, slift, sget.
  destruct states as [l|err]; cbn [wrap_err]; [|split_and!; auto; reflexivity].
  unfold on_candidates at 1. destruct (collect_laws I Q ctx (time_Round0 now) (fst (Position (sy_publisher s))) l (sy_candidates s) Hsrc) as [Hsrc' Hans].
  destruct (collect _ _ _ _ _) as [source [inputs|err]]; cbn [fst snd] in *; [|split_and!; cbn; auto; try done; reflexivity].
  unfold on_publisher, BuildFull, sbind, sget, slift, sput, sret. cbn [sy_publisher sy_candidates sy_store].
  destruct (pu_sequence (sy_publisher s) =? maxUint64) eqn:Hmax; cbn [fail_if wrap_err]; [split_and!; cbn; auto; try done; reflexivity|].
  assert (u64 (pu_sequence (sy_publisher s) + 1) = next /\ is_u64 next) as [-> Hnext].
  { go_cases. unfold is_u64, maxUint64 in *. subst next. split; [apply u64_small; unfold is_u64; lia|lia]. }
  destruct (build_all _ _ _ _) as [results|err] eqn:Hb; cbn [wrap_err]; [|split_and!; cbn; auto; try done; reflexivity].
  unfold on_store. cbn [sy_store sy_candidates sy_publisher set_sequence Position fst].
  set (event := {| ev_Full := true |}). pose proof (Apply_run clock event (sy_store s) Hst) as Hrun.
  pose proof (build_all_Ok _ _ _ _ _ Hb) as (_ & Hnd & _). apply build_all_Forall2 in Hb.
  destruct (Apply clock event (sy_store s)) as [st [[]|err]]; cbn [wrap_err].
  - destruct Hrun as (Hw & _ & fp & _ & [(Hsame & _)|(_ & _ & _ & ->)]).
    { exfalso. unfold samePosition in Hsame. go_cases. cbn in *. subst next epoch. specialize (Hseq ltac:(done)). lia. }
    cbn [sy_store sy_publisher sy_candidates]. split_and!; try done; [split; cbn; [done|unfold is_u64 in Hnext; lia|done]|].
    destruct (Hans inputs eq_refl) as (lists & Ha & -> & Hq). exists l, lists. split_and!; try done. rewrite accepted_snapshots by apply Hw. by apply install_batch.
  - destruct Hrun as [Hk _]. split_and!; cbn; try done; [|by right]. destruct Hk. split; cbn; [done|congruence|]. rewrite kp_position0. split; [done|].
    intros He. specialize (Hseq He). subst next. lia.
Qed.

(** A candidate source stays. *)
Lemma collect_some ctx generatedAt epoch states : forall c, exists c', fst (collect ctx generatedAt epoch states (Some c)) = Some c'.
Proof.
  induction states as [|state states IH]; intros c; cbn [collect]; [by exists c|]. destruct (ctx (length states)); [by exists c|]. unfold sbind, sret. cbn [endpointCandidates].
  destruct (op_Candidates state epoch c) as [c' [cs|err]]; cbn [wrap_err]; [|by exists c']. destruct (IH c') as [c'' Hc''].
  destruct (collect ctx generatedAt epoch states (Some c')) as [source [inputs|err]]; cbn in *; by exists c''.
Qed.
Lemma FullSync_some ctxErr ctx states now clock s c : sy_candidates s = Some c -> exists c', sy_candidates (fst (FullSync ctxErr ctx states now clock s)) = Some c'.
Proof.
  intros Hc. unfold FullSync. destruct ctxErr; [by exists c|]. unfold sbind, slift, sget. destruct (wrap_err _ states) as [l|]; [|by exists c].
  unfold on_candidates at 1. rewrite Hc. destruct (collect_some ctx (time_Round0 now) (fst (Position (sy_publisher s))) l c) as [c' Hc'].
  destruct (collect _ _ _ _ _) as [source [inputs|err]]; cbn [fst] in *; [|by exists c']. subst source.
  unfold on_publisher. destruct (BuildFull inputs _) as [p' [[results sequence]|err]]; cbn [wrap_err]; [|by exists c'].
  unfold on_store. destruct (Apply _ _ _) as [st' x]. by exists c'.
Qed.

(** ** Histories *)
(** What happens to a synchronizer: Full Syncs, the Gateway's own calls of its
    store, and whatever else happens to the candidate source. *)
Inductive sync_op :=
| SyncFull (ctxErr : option error) (ctx : nat -> option error) (states : result (list ServingState)) (now : Time) (clock : Z)
| SyncGateway (o : gateway_op)
| SyncSource (c : C).
(** Nobody else applies Watch events. *)
Definition sync_typed (o : sync_op) : Prop := match o with SyncGateway (OpApply _ _) => False | _ => True end.
Definition sync_step s (o : sync_op) : Synchronizer :=
  match o with
  | SyncFull ctxErr ctx states now clock => fst (FullSync ctxErr ctx states now clock s)
  | SyncGateway o => {| sy_candidates := sy_candidates s; sy_publisher := sy_publisher s; sy_store := gateway_step (sy_store s) o |}
  | SyncSource c => {| sy_candidates := Some c; sy_publisher := sy_publisher s; sy_store := sy_store s |}
  end.
Definition sync_run s (ops : list sync_op) : Synchronizer := foldl sync_step s ops.

(** The Gateway's own calls keep the view. *)
Lemma gateway_step_view st o : match o with OpApply _ _ => False | _ => True end ->
  snapshots_of (gateway_step st o) = snapshots_of st /\ st_position (gateway_step st o) = st_position st.
Proof.
  destruct o as [| | |functionID a|connected]; try done; intros _; cbn [gateway_step].
  - destruct (Lookup_kept clock functionID st). unfold snapshots_of. by rewrite kp_functions0.
  - destruct (LookupAll_kept map_to_list clock st). fold LookupAll in *. unfold snapshots_of. by rewrite kp_functions0.
  - destruct (SuppressEndpoint_run functionID a st) as [[err ->]|(record & Hl & _ & ->)]; [done|]. cbn [fst]. split; [by apply set_functions_snapshots|done].
Qed.

Lemma kept_positions s s' : kept (sy_store s) (sy_store s') -> snapshots_of (sy_store s') = snapshots_of (sy_store s).
Proof. intros []. unfold snapshots_of. by rewrite kp_functions0. Qed.

#[local] Instance any_laws : CandidateLaws (fun _ => True) (fun _ _ _ => True).
Proof. split; [done|]. intros state epoch c c' cs _ _. by apply Forall_true. Qed.

Lemma sync_step_ok s o : sync_typed o -> sync_ok s ->
  sync_ok (sync_step s o) /\ pu_builder (sy_publisher (sync_step s o)) = pu_builder (sy_publisher s) /\ pu_epoch (sy_publisher (sync_step s o)) = pu_epoch (sy_publisher s).
Proof.
  intros Hty Hok. destruct o as [ctxErr ctx states now clock|o|c]; cbn [sync_step].
  - pose proof (FullSync_run _ _ ctxErr ctx states now clock s Hok ltac:(by destruct (sy_candidates s))) as Hrun. cbv zeta in Hrun.
    destruct (FullSync ctxErr ctx states now clock s) as [s' x]. destruct Hrun as (? & _ & ? & ? & _). done.
  - destruct (gateway_step_view (sy_store s) o Hty) as [_ Hp]. destruct Hok. split; [|done]. by split; cbn; rewrite ?Hp.
  - destruct Hok. split; [|done]. by split.
Qed.
Lemma sync_run_ok ops : forall s, Forall sync_typed ops -> sync_ok s ->
  sync_ok (sync_run s ops) /\ pu_builder (sy_publisher (sync_run s ops)) = pu_builder (sy_publisher s) /\ pu_epoch (sy_publisher (sync_run s ops)) = pu_epoch (sy_publisher s).
Proof.
  induction ops as [|o ops IH]; intros s; [done|]. intros [Ho Hops]%Forall_cons Hok. change (sync_run s (o :: ops)) with (sync_run (sync_step s o) ops). destruct (sync_step_ok s o Ho Hok) as (Hok' & Hb & He).
  destruct (IH (sync_step s o) Hops Hok') as (? & -> & ->). done.
Qed.

Lemma sync_New_ok epoch builder p config elapsed st candidates s0 : 0 < epoch -> NewPublisher epoch builder = Ok p -> gatewaydiscovery.New config elapsed = Ok st ->
  New true candidates (Some p) (Some st) = Ok s0 -> sync_ok s0 /\ pu_builder (sy_publisher s0) = builder /\ pu_epoch (sy_publisher s0) = epoch /\
    sy_candidates s0 = candidates /\ snapshots_of (sy_store s0) = ∅.
Proof.
  intros He Hp Hst. unfold NewPublisher in Hp. unfold gatewaydiscovery.New in Hst. ok_inv. subst p st. unfold New. cbn. intros [= <-].
  split_and!; try done. split; cbn; [done|done|]. split; [lia|]. intros <-. lia.
Qed.

(** The snapshot of a state at a position: the projections, and as Endpoints
    exactly the publishable ones of the given candidates. *)
Definition serves (generatedAt : Time) (epoch sequence : Z) (state : ServingState) (cs : list EndpointCandidate) (snapshot : Snapshot) : Prop :=
  let input := projectInput state generatedAt in
  sn_DiscoveryEpoch snapshot = epoch /\ sn_ServingSequence snapshot = sequence /\ sn_GeneratedAt snapshot = generatedAt /\
  sn_Function snapshot = ip_Function input /\ sn_Trigger snapshot = ip_Trigger input /\
  sn_Route snapshot = with_targets (projectRoute state) (SortFunc compareRouteTargets (discovery.sr_Targets (projectRoute state))) /\
  forall e, (e ∈ endpoints snapshot <-> exists c, c ∈ cs /\ publishable snapshot c /\ e = endpoint_of c).

Lemma batch_serves builder now epoch sequence l lists view i state cs : batch builder epoch sequence (projected (time_Round0 now) l lists) view ->
  l !! i = Some state -> lists !! i = Some cs ->
  exists snapshot, view !! md_ID (fn_Metadata (ss_Function state)) = Some snapshot /\ serves (time_Round0 now) epoch sequence state cs snapshot.
Proof.
  intros Hb Hl Hc. assert (with_candidates (projectInput state (time_Round0 now)) cs ∈ projected (time_Round0 now) l lists) as Hin.
  { apply (list_elem_of_lookup_2 _ i). unfold projected. by rewrite lookup_zip_with, Hl, Hc. }
  destruct (ba_built _ _ _ _ _ Hb _ Hin) as [r Hr]. exists (re_Snapshot r). split; [apply (ba_view _ _ _ _ _ Hb); by eexists _, r|].
  pose proof (Build_endpoints _ _ _ Hr) as [He _]. apply Build_Ok in Hr as (_ & _ & _ & checksum & _ & _ & _ & ->). unfold serves. split_and!; done.
Qed.

(** C6: A Full Sync publishes the whole state or nothing.  Start with a new
    publisher and a new Gateway store, after any Full Syncs, failed or not, any
    lookups and suppressions of the Gateway and any changes of the candidate
    source.  A Full Sync that succeeds leaves the Gateway in service at the next
    position of the publisher with exactly one snapshot for every listed
    Function.  The candidate source that the synchronizer holds was asked once
    for every listed state, in order, each time from the state that the call
    before it left, and all its answers were successes.  The snapshot of a
    Function carries the Function, Trigger and Route of the aggregate read, all
    with the same time, and its Endpoints are exactly the publishable ones among
    the candidates of that Function's answer.  A Full Sync that fails keeps the
    Gateway's view and position and skips at most one sequence number. *)
Theorem full_sync_outcome epoch builder p config elapsed st candidates s0 ops ctxErr ctx states now clock :
  0 < epoch -> NewPublisher epoch builder = Ok p -> gatewaydiscovery.New config elapsed = Ok st ->
  New true candidates (Some p) (Some st) = Ok s0 -> Forall sync_typed ops ->
  let s := sync_run s0 ops in
  let next := pu_sequence (sy_publisher s) + 1 in
  let '(s', x) := FullSync ctxErr ctx states now clock s in
  match x with
  | Err _ => kept (sy_store s) (sy_store s') /\ (pu_sequence (sy_publisher s') = pu_sequence (sy_publisher s) \/ pu_sequence (sy_publisher s') = next)
  | Ok _ => exists l lists, states = Ok l /\ answers epoch l lists (sy_candidates s) (sy_candidates s') /\
      ep_epoch (st_position (sy_store s')) = epoch /\ ep_sequence (st_position (sy_store s')) = next /\ 0 < next < 2 ^ 64 /\
      st_fullSynced (sy_store s') = true /\ st_needsFullSync (sy_store s') = false /\
      NoDup ((fun state => md_ID (fn_Metadata (ss_Function state))) <$> l) /\
      (forall id, is_Some (snapshots_of (sy_store s') !! id) <-> id ∈ (fun state => md_ID (fn_Metadata (ss_Function state))) <$> l) /\
      Forall2 (fun state cs => exists snapshot, snapshots_of (sy_store s') !! md_ID (fn_Metadata (ss_Function state)) = Some snapshot /\
        serves (time_Round0 now) epoch next state cs snapshot) l lists
  end.
Proof.
  intros He Hp Hst Hnew Hty s next. destruct (sync_New_ok _ _ _ _ _ _ _ _ He Hp Hst Hnew) as (Hok0 & Hb0 & He0 & _ & _).
  destruct (sync_run_ok ops s0 Hty Hok0) as (Hok & Hb & Hep). fold s in Hok, Hb, Hep.
  pose proof (FullSync_run _ _ ctxErr ctx states now clock s Hok ltac:(by destruct (sy_candidates s))) as Hrun. cbv zeta in Hrun.
  destruct (FullSync ctxErr ctx states now clock s) as [s' [[]|err]]; destruct Hrun as (Hok' & _ & _ & _ & Hrun); [|exact Hrun].
  destruct Hrun as (l & lists & -> & Hans & _ & Hbatch & Hseq & Hpe & Hps & Hf & Hn). rewrite Hep, He0 in *. exists l, lists. pose proof (answers_length _ _ _ _ _ Hans) as Hlen.
  pose proof (projected_ids (time_Round0 now) l lists Hlen) as Hids.
  pose proof (so_range _ Hok') as Hr. pose proof (so_range _ Hok) as Hr0. rewrite Hseq in Hr. unfold is_u64 in Hr, Hr0.
  split_and!; try done; try (fold next in Hr; subst next; lia).
  - rewrite <-Hids. apply Hbatch.
  - intros id. rewrite <-Hids, list_elem_of_fmap. split.
    + intros [snapshot (input & r & Hin & <- & _)%(ba_view _ _ _ _ _ Hbatch)]. by exists input.
    + intros (input & -> & Hin). destruct (ba_built _ _ _ _ _ Hbatch _ Hin) as [r Hbr]. exists (re_Snapshot r). apply (ba_view _ _ _ _ _ Hbatch). by exists input, r.
  - apply Forall2_same_length_lookup_2; [done|]. intros i state cs Hl Hc. by eapply batch_serves.
Qed.
End sync.

(** ** The reconciler as candidate source *)
Section composed.
Context `{JCS} {A : Type} `{localworker.AgentOps A}.
#[local] Abbreviation Reconciler := (localworker.Reconciler (A := A)).
#[local] Abbreviation AssignmentRecord := assignment.AssignmentRecord.

(** The reconciler with the answers of its context and Worker source, in order. *)
Record local_source := { ls_reconciler : Reconciler; ls_answers : nat -> option error * result scheduler.WorkerSnapshot }.
#[local] Instance local_candidates : CandidateSource local_source := fun state epoch c =>
  let r := ls_reconciler c in
  let '(ctxErr, worker) := ls_answers c 0%nat in
  let '(r', x) := localworker.Candidates ctxErr (map_to_list (localworker.rc_candidates r)).*2 state epoch worker r in
  ({| ls_reconciler := r'; ls_answers := fun n => ls_answers c (S n) |}, x).

(** A candidate that stands for a committed record. *)
Definition committed (connection : ControlConnection) (address : string) (history : list AssignmentRecord) (accepted : list Authorization)
    (functionID : string) (assigned : AssignmentIdentity) (epoch : Z) (at_address : string) : Prop :=
  exists record, record ∈ history /\ assignment.ar_DesiredState record = assignment.AssignmentAssigned /\ assignment.ar_FunctionID record = functionID /\
    assigned = assignment.Identity record /\ localworker.authorization_of record connection ∈ accepted /\
    epoch = cc_DiscoveryEpoch connection /\ at_address = address.

Definition source_inv (connection : ControlConnection) (address : string) (history : list AssignmentRecord) (accepted : list Authorization) (c : local_source) : Prop :=
  localworker.rinv connection address history (ls_reconciler c) /\ localworker.rc_accepted (ls_reconciler c) = accepted.

#[local] Instance local_laws connection address history accepted : CandidateLaws (source_inv connection address history accepted)
  (fun state epoch c => committed connection address history accepted (md_ID (fn_Metadata (ss_Function state))) (ec_Assignment c) epoch (ec_Address c)).
Proof.
  split.
  - intros state epoch c [Hr Ha]. unfold op_Candidates, local_candidates. destruct (ls_answers c 0%nat) as [ctxErr worker].
    destruct (localworker.Candidates_agent ctxErr (map_to_list (localworker.rc_candidates (ls_reconciler c))).*2 state epoch worker (ls_reconciler c)) as (a & x & ->).
    split; [by apply localworker.rinv_agent|exact Ha].
  - intros state epoch c c' cs [Hr Ha]. unfold op_Candidates, local_candidates. destruct (ls_answers c 0%nat) as [[err|] worker]; [done|].
    destruct (localworker.Candidates None _ state epoch worker (ls_reconciler c)) as [r' x] eqn:E. intros [= _ ->]. apply Forall_forall. intros cand Hin.
    assert (cs <> []) as Hne by (intros ->; by apply not_elem_of_nil in Hin).
    destruct (localworker.Candidates_Ok _ _ _ _ _ _ _ E Hne) as (w & _ & -> & He & _). rewrite (localworker.ri_connection _ _ _ _ Hr) in He. subst epoch.
    destruct (localworker.Candidates_mem _ _ _ _ _ _ _ _ _ Hr (Permutation_refl _) E) as (current & _ & _ & Hmem).
    apply Hmem in Hin as (id & candidate & Hid & Hf & _ & ->). destruct (localworker.ri_candidates _ _ _ _ Hr _ _ Hid) as (record & ? & ? & _ & -> & Hacc).
    exists record. rewrite <-Ha. split_and!; try done. apply (localworker.ri_address _ _ _ _ Hr).
Qed.

(** The system: calls of the reconciler, Full Syncs, calls of the Gateway. *)
Inductive sys_op :=
| SysWorker (o : localworker.op (A := A))
| SysAnswers (answers : nat -> option error * result scheduler.WorkerSnapshot)
| SysFull (ctxErr : option error) (ctx : nat -> option error) (states : result (list ServingState)) (now : Time) (clock : Z)
| SysGateway (o : gateway_op).
Definition sys_typed (o : sys_op) : Prop := match o with SysGateway (OpApply _ _) => False | _ => True end.
Definition System : Type := Synchronizer (C := local_source).
Definition sys_step (s : System) (o : sys_op) : System :=
  match o with
  | SysWorker o =>
    {| sy_candidates := (fun c => {| ls_reconciler := localworker.apply_op o (ls_reconciler c); ls_answers := ls_answers c |}) <$> sy_candidates s;
       sy_publisher := sy_publisher s; sy_store := sy_store s |}
  | SysAnswers answers =>
    {| sy_candidates := (fun c => {| ls_reconciler := ls_reconciler c; ls_answers := answers |}) <$> sy_candidates s;
       sy_publisher := sy_publisher s; sy_store := sy_store s |}
  | SysFull ctxErr ctx states now clock => fst (FullSync ctxErr ctx states now clock s)
  | SysGateway o => {| sy_candidates := sy_candidates s; sy_publisher := sy_publisher s; sy_store := gateway_step (sy_store s) o |}
  end.
Definition sys_run (s : System) (ops : list sys_op) : System := foldl sys_step s ops.
(** The Assignments that the reconciler has listed. *)
Definition sys_listed (ops : list sys_op) : list AssignmentRecord :=
  ops ≫= fun o => match o with SysWorker o => localworker.listings [o] | _ => [] end.

Definition view_ok (connection : ControlConnection) (address : string) (history : list AssignmentRecord) (accepted : list Authorization) (view : gmap string Snapshot) : Prop :=
  forall id snapshot e, view !! id = Some snapshot -> e ∈ endpoints snapshot ->
    committed connection address history accepted id (en_Assignment e) (sn_DiscoveryEpoch snapshot) (en_Address e).
Record sys_inv connection address history (s : System) : Prop := {
  sy_ok : sync_ok s;
  sy_source : exists c, sy_candidates s = Some c /\ localworker.rinv connection address history (ls_reconciler c) /\
    view_ok connection address history (localworker.rc_accepted (ls_reconciler c)) (snapshots_of (sy_store s));
}.

Lemma committed_mono connection address history history' accepted accepted' id a epoch at_address : history ⊆ history' -> accepted ⊆ accepted' ->
  committed connection address history accepted id a epoch at_address -> committed connection address history' accepted' id a epoch at_address.
Proof. intros H1 H2 (record & ? & ? & ? & ? & ? & ? & ?). exists record. split_and!; try done; [by apply H1|by apply H2]. Qed.

Lemma apply_op_accepted connection address history o (r : Reconciler) : localworker.rinv connection address history r ->
  localworker.rc_accepted r ⊆ localworker.rc_accepted (localworker.apply_op o r).
Proof.
  intros Hr. destruct o; cbn.
  - destruct (localworker.Reconcile_run connection address history ctxErr ctx assignments states worker r Hr) as (r' & failed & -> & _ & Hacc & _). exact Hacc.
  - destruct (localworker.Candidates_agent ctxErr order state epoch worker r) as (a & x & ->). done.
  - done.
Qed.

Lemma batch_committed connection address history accepted now epoch builder sequence l lists view :
  sound (fun state epoch c => committed connection address history accepted (md_ID (fn_Metadata (ss_Function state))) (ec_Assignment c) epoch (ec_Address c))
    epoch l lists -> batch builder epoch sequence (projected (time_Round0 now) l lists) view -> view_ok connection address history accepted view.
Proof.
  intros Hans Hb id snapshot e Hv He. apply (ba_view _ _ _ _ _ Hb) in Hv as (input & r & [i Hi]%list_elem_of_lookup & <- & Hbuild & ->).
  apply projected_lookup in Hi as (state & cs & Hl & Hcs & ->). pose proof (Forall2_lookup_lr _ _ _ _ _ _ Hans Hl Hcs) as Hq. cbv beta in Hq. rewrite Forall_forall in Hq.
  pose proof (Build_endpoints _ _ _ Hbuild) as [Hends _]. apply Hends in He as (c & Hc & _ & ->). apply Build_position in Hbuild as (-> & _).
  exact (Hq c Hc).
Qed.

Lemma sys_listed_one o : sys_listed [o] = match o with SysWorker o => localworker.listings [o] | _ => [] end.
Proof. unfold sys_listed. cbn. apply app_nil_r. Qed.
Lemma sys_step_inv connection address history s o : sys_typed o -> sys_inv connection address history s ->
  sys_inv connection address (history ++ sys_listed [o]) (sys_step s o).
Proof.
  intros Hty [Hok (c & Hc & Hr & Hview)]. rewrite sys_listed_one. destruct o as [o|answers|ctxErr ctx states now clock|o]; cbn [sys_step]; rewrite ?app_nil_r.
  - split; [destruct Hok; by split|]. rewrite Hc. eexists. split; [done|]. cbn. split; [by apply (localworker.run_rinv connection address history [o])|].
    intros id snapshot e Hv He. eapply committed_mono; [| |by eapply Hview]; [set_solver|by eapply apply_op_accepted].
  - split; [destruct Hok; by split|]. rewrite Hc. eexists. split; [done|]. done.
  - pose proof (FullSync_run (source_inv connection address history (localworker.rc_accepted (ls_reconciler c))) _ ctxErr ctx states now clock s Hok) as Hrun.
    rewrite Hc in Hrun. specialize (Hrun (conj Hr eq_refl)). cbv zeta in Hrun. pose proof (FullSync_some ctxErr ctx states now clock s) as Hsome.
    destruct (FullSync ctxErr ctx states now clock s) as [s' x]. destruct Hrun as (Hok' & Hsrc & _ & _ & Hrun). split; [done|]. cbn [fst] in *.
    destruct (Hsome c Hc) as [c' Hc']. rewrite Hc' in Hsrc. destruct Hsrc as [Hr' Ha']. exists c'. split_and!; try done. rewrite Ha'.
    destruct x as [[]|err]; [|destruct Hrun as [Hk _]; by rewrite (kept_positions _ _ Hk)].
    destruct Hrun as (l & lists & _ & _ & Hq & Hb & _). by eapply batch_committed.
  - destruct (gateway_step_view (sy_store s) o Hty) as [Hsn Hp]. split; [destruct Hok; by split; cbn; rewrite ?Hp|]. exists c. cbn. by rewrite Hsn.
Qed.

Lemma sys_run_inv connection address ops : forall history s, Forall sys_typed ops -> sys_inv connection address history s ->
  sys_inv connection address (history ++ sys_listed ops) (sys_run s ops).
Proof.
  induction ops as [|o ops IH]; intros history s; [cbn; by rewrite app_nil_r|]. intros [Ho Hops]%Forall_cons Hs.
  change (sys_run s (o :: ops)) with (sys_run (sys_step s o) ops). replace (history ++ sys_listed (o :: ops)) with ((history ++ sys_listed [o]) ++ sys_listed ops).
  - by apply IH, sys_step_inv.
  - rewrite sys_listed_one, <-app_assoc. done.
Qed.

(** Traffic goes to committed, authorized Assignments only.  Compose the
    reconciler of the local Worker, the synchronizer and the Gateway's store, and
    let Reconcile calls, Full Syncs, lookups and local health failures happen in
    any order, each failing or being cancelled anywhere, while the agent and the
    Worker snapshots change arbitrarily.  Every Endpoint that a Gateway lookup
    returns for a Function is then an Assigned record that a Reconcile call
    listed for exactly this Function: the same Worker session, Version,
    generation and policy digest.  The agent accepted the live-only
    authorization for it in the discovery epoch that the snapshot carries, and
    the address is the configured one. *)
Theorem served_endpoints_committed (agent : A) connection address r0 answers epoch builder p config elapsed st s0 ops clock functionID st' view e :
  localworker.NewReconciler agent connection address = Ok r0 ->
  0 < epoch -> NewPublisher epoch builder = Ok p -> gatewaydiscovery.New config elapsed = Ok st ->
  New true (Some {| ls_reconciler := r0; ls_answers := answers |}) (Some p) (Some st) = Ok s0 -> Forall sys_typed ops ->
  let s := sys_run s0 ops in
  Lookup clock functionID (sy_store s) = (st', Ok view) -> e ∈ vw_Endpoints view ->
  exists c record, sy_candidates s = Some c /\ record ∈ sys_listed ops /\ assignment.ar_DesiredState record = assignment.AssignmentAssigned /\
    assignment.ar_FunctionID record = functionID /\ en_Assignment e = assignment.Identity record /\ en_Address e = address /\
    sn_DiscoveryEpoch (vw_Snapshot view) = cc_DiscoveryEpoch connection /\
    localworker.authorization_of record connection ∈ localworker.rc_accepted (ls_reconciler c).
Proof.
  intros Hrec He Hp Hst Hnew Hty s Hl Hin. destruct (sync_New_ok _ _ _ _ _ _ _ _ He Hp Hst Hnew) as (Hok & _ & _ & Hc0 & Hv0).
  assert (sys_inv connection address [] s0) as H1.
  { split; [done|]. eexists. split; [exact Hc0|]. split; [by eapply localworker.NewReconciler_inv|]. rewrite Hv0. intros id snapshot e' E. by rewrite lookup_empty in E. }
  apply (sys_run_inv connection address ops) in H1 as [_ (c & Hc & _ & Hview)]; [|done]. fold s in Hc, Hview.
  apply Lookup_Ok in Hl as (_ & _ & _ & _ & record & Hl & _ & ->). apply (visible_spec _ _ _ _ Hl) in Hin as [Hin _].
  destruct (Hview functionID (fr_snapshot record) e) as (r & Hr & Ha & Hf & Hi & Hacc & Hepoch & Haddr); [unfold snapshots_of; by rewrite lookup_fmap, Hl|done|].
  exists c, r. by split_and!.
Qed.
End composed.

(** ** Witnesses: one reconciled Assignment, published and looked up *)
#[local] Existing Instances release.ex_jcs localworker.ex_agent_ops local_candidates.

Definition ex_publisher : Publisher := {| pu_builder := discovery.ex_builder; pu_epoch := 1; pu_sequence := 0 |}.
Definition ex_store : Store := gatewaydiscovery.ex_empty.
Definition ex_answers (n : nat) : option error * result scheduler.WorkerSnapshot := (None, Ok localworker.ex_w).
Definition ex_source : local_source := {| ls_reconciler := localworker.ex_r0; ls_answers := ex_answers |}.
Definition ex_sync : Synchronizer (C := local_source) := {| sy_candidates := Some ex_source; sy_publisher := ex_publisher; sy_store := ex_store |}.
Definition ex_now : Time := {| t_wall := 719163 * 86400 * second; t_offset := 0; t_mono := Some 7 |}.
Definition ex_ops : list sys_op := [SysWorker localworker.ex_reconcile; SysFull None (fun _ => None) (Ok localworker.ex_states) ex_now 5].
Definition ex_run : System := sys_run ex_sync ex_ops.
Definition ex_view : View := Eval vm_compute in
  match snd (Lookup 6 "fn_1" (sy_store ex_run)) with Ok v => v | Err _ => gatewaydiscovery.ex_view end.
Definition ex_endpoint : Endpoint := {| en_Assignment := assignment.Identity localworker.ex_record; en_Address := localworker.ex_address; en_State := EndpointReady |}.

Lemma ex_publisher_new : NewPublisher 1 discovery.ex_builder = Ok ex_publisher.
Proof. vm_compute. exact eq_refl. Qed.

Lemma served_endpoints_committed_witness :
  vw_Endpoints ex_view = [ex_endpoint] /\
  exists c, sy_candidates ex_run = Some c /\ localworker.authorization_of localworker.ex_record localworker.ex_connection ∈ localworker.rc_accepted (ls_reconciler c).
Proof.
  split; [vm_compute; exact eq_refl|]. destruct (Lookup 6 "fn_1" (sy_store ex_run)) as [st' x] eqn:E.
  assert (x = Ok ex_view) as -> by (change x with (snd (st', x)); rewrite <-E; vm_compute; exact eq_refl).
  destruct (served_endpoints_committed ([] : list agent.Observation) localworker.ex_connection localworker.ex_address localworker.ex_r0 ex_answers 1 discovery.ex_builder
    ex_publisher gatewaydiscovery.ex_config 0 ex_store ex_sync ex_ops 6 "fn_1" st' ex_view ex_endpoint localworker.ex_new ltac:(lia) ex_publisher_new
    gatewaydiscovery.ex_store_new eq_refl) as (c & record & Hc & Hin & _ & _ & _ & _ & _ & Hacc); [repeat constructor|exact E|vm_compute; apply list_elem_of_here|].
  exists c. split; [exact Hc|]. vm_compute in Hin. apply list_elem_of_singleton in Hin as ->. exact Hacc.
Defined.

(** A Full Sync of the reconciled source, after one that was cancelled. *)
Definition ex_reconciled : local_source := Eval vm_compute in default ex_source (sy_candidates (sys_run ex_sync [SysWorker localworker.ex_reconcile])).
Definition ex_before : Synchronizer :=
  sync_run ex_sync [SyncFull None (fun _ => Some (PlainError "context canceled")) (Ok localworker.ex_states) ex_now 4; SyncSource ex_reconciled].
Definition ex_candidates : list EndpointCandidate := Eval vm_compute in
  match snd (op_Candidates localworker.ex_state 1 ex_reconciled) with Ok cs => cs | Err _ => [] end.

Lemma full_sync_outcome_witness :
  map endpoint_of ex_candidates = [ex_endpoint] /\
  exists s' snapshot, FullSync None (fun _ => None) (Ok localworker.ex_states) ex_now 5 ex_before = (s', Ok tt) /\
    snapshots_of (sy_store s') !! "fn_1"%string = Some snapshot /\ sn_ServingSequence snapshot = 1 /\
    forall e, (e ∈ endpoints snapshot <-> exists c, c ∈ ex_candidates /\ publishable snapshot c /\ e = endpoint_of c).
Proof.
  split; [vm_compute; exact eq_refl|].
  pose proof (full_sync_outcome 1 discovery.ex_builder ex_publisher gatewaydiscovery.ex_config 0 ex_store (Some ex_source) ex_sync
    [SyncFull None (fun _ => Some (PlainError "context canceled")) (Ok localworker.ex_states) ex_now 4; SyncSource ex_reconciled] None (fun _ => None) (Ok localworker.ex_states) ex_now 5
    ltac:(lia) ex_publisher_new gatewaydiscovery.ex_store_new eq_refl ltac:(repeat constructor)) as Hout. cbv zeta in Hout. fold ex_before in Hout.
  assert (is_ok (snd (FullSync None (fun _ => None) (Ok localworker.ex_states) ex_now 5 ex_before)) = true) as Hrun by (vm_compute; exact eq_refl).
  destruct (FullSync _ _ _ _ _ _) as [s' [[]|err]] eqn:E in Hout, Hrun |- *; [|discriminate Hrun].
  destruct Hout as (l & lists & Hl & Ha & _ & _ & _ & _ & _ & _ & _ & Hall). injection Hl as <-.
  assert (sy_candidates ex_before = Some ex_reconciled) as Hsrc by (vm_compute; exact eq_refl). rewrite Hsrc in Ha.
  inversion Ha as [|?|state states cs rest c c1 source' Hcs Hrest]; subst.
  assert (Ok cs = Ok ex_candidates) as Hc by (change (Ok cs) with (snd (c1, Ok cs)); rewrite <-Hcs; vm_compute; exact eq_refl). injection Hc as ->.
  apply Forall2_cons in Hall as [(snapshot & Hs & _ & Hseq & _ & _ & _ & _ & He) _]. exists s', snapshot. split; [exact eq_refl|]. split; [exact Hs|].
  split; [rewrite Hseq; vm_compute; exact eq_refl|exact He].
Defined.

End localserving.
