(* ===== verification/LocalCore.v ===== *)
(** * Package [internal/localcore]: the convergence of one process

    The runtime composes the controller, the placement planner, the Worker
    registry, the reconciler of the local Worker and the synchronizer of the
    Gateway's store.  A convergence pass renews the Worker's lease, commits
    missing placements, reconciles the agent and publishes a full serving view.
    What other callers do to the controller meanwhile, the clocks, the
    randomness and the answers of contexts are arguments. *)
From stdpp Require Import base gmap strings list sorting.
From S2P Require Import Prelude Problem Digest Json Model Catalog ValidatorProtocol Release RouteStore ServingAuth Scheduler WorkerRegistry Net Discovery GatewayDiscovery AssignmentStore Ledger ControlPlane LocalController LocalOperations LocalHistory LocalSources WorkerAgent LocalWorker LocalServing.
Import problem digest model servingauth.

#[local] Open Scope Z_scope.

Module localcore.
#[local] Abbreviation ServingState := routestore.ServingState.
#[local] Abbreviation AssignmentRecord := assignment.AssignmentRecord.
#[local] Abbreviation WorkerSnapshot := scheduler.WorkerSnapshot.
Import routestore assignment scheduler localserving.

(** ** placement.go *)
Definition localCoreBarrier : LeaderBarrier := {| lb_Term := 1; lb_AppliedIndex := 1; lb_Ready := true |}.

(** [servableTarget]; [None] for the false result. *)
Definition servableTarget (state : ServingState) : option RouteTarget :=
  match ss_Route state, ss_Version state, ss_Deployment state with
  | Some route, Some version, Some deployment =>
    match r_Targets route with
    | [target] =>
      if negb (r_Enabled route) || (fn_Lifecycle (ss_Function state) != FunctionActive) then None
      else if (v_VersionID version != rt_VersionID target) || (v_State version != VersionReady)
              || (d_DesiredPhase deployment != DeploymentActive) || negb (d_Generation deployment =? rt_DeploymentGeneration target) then None
      else Some target
    | _ => None
    end
  | _, _, _ => None
  end.

Definition placementMatchesTarget (placement : Assignment) (target : RouteTarget) (session : WorkerSession) : bool :=
  (a_Worker placement == session) && (a_VersionID placement == rt_VersionID target)
  && (a_AdmissionEpoch placement =? rt_AdmissionEpoch target) && (a_DeploymentGeneration placement =? rt_DeploymentGeneration target)
  && (a_PolicyDigest placement == rt_EffectivePolicyDigest target).

(** The request of [placeTarget]. *)
Definition placementRequest (commandID assignmentID : string) (version : Version) (deployment : Deployment) (target : RouteTarget) (worker : WorkerSnapshot)
    : PlacementRequest :=
  {| pl_CommandID := commandID; pl_AssignmentID := assignmentID; pl_VersionID := v_VersionID version; pl_ArtifactDigest := v_ArtifactDigest version;
     pl_ArtifactSize := v_ArtifactSize version; pl_ABI := v_ABI version; pl_HostAPI := v_HostAPIProfile version; pl_FeatureProfile := v_RuntimeFeatureProfile version;
     pl_RuntimeName := wasmprofile.RuntimeName; pl_RuntimeVersion := wasmprofile.RuntimeVersion; pl_RuntimeEngine := rp_Engine (w_Runtime worker);
     pl_GOOS := rp_GOOS (w_Runtime worker); pl_GOARCH := rp_GOARCH (w_Runtime worker); pl_MemoryMiB := rl_MemoryMiB (d_ResourceLimits deployment);
     pl_RequiredSlots := 1; pl_AdmissionEpoch := rt_AdmissionEpoch target; pl_DeploymentGeneration := rt_DeploymentGeneration target;
     pl_PolicyDigest := rt_EffectivePolicyDigest target; pl_CompiledCacheKey := agent.zero_Key; pl_RequiredLabels := None; pl_ExistingWorkerIDs := None |}.

(** The live map: the last Assigned record of each Function. *)
Definition liveRecords (assignments : list AssignmentRecord) : gmap string AssignmentRecord :=
  foldl (fun live record => if ar_DesiredState record == AssignmentAssigned then <[ar_FunctionID record := record]> live else live) ∅ assignments.

(** ** runtime.go: the Worker *)
Definition localWorkerSnapshot (session : WorkerSession) (profile : wasmprofile.Profile) (goos goarch : string) (memoryMiB slots : Z) : result WorkerSnapshot :=
  let snapshot :=
    {| w_Session := session;
       w_Runtime := {| rp_Name := wasmprofile.RuntimeName; rp_Version := wasmprofile.RuntimeVersion; rp_Engine := wasmprofile.p_Engine profile;
                       rp_GOOS := goos; rp_GOARCH := goarch; rp_ABI := ABIWASICommandV1; rp_HostAPI := HostAPIProfileNone;
                       rp_FeatureProfile := wasmprofile.FeatureProfile; rp_MemoryMiB := wasmprofile.p_MemoryLimitMiB profile |};
       w_Intent := IntentSchedulable; w_State := SessionReady; w_Drain := DrainNotDraining;
       w_Capacity := {| ca_MemoryMiB := memoryMiB; ca_AllocatedMemoryMiB := 0; ca_Slots := slots; ca_AllocatedSlots := 0 |};
       w_Labels := {["profile"%string := "local"%string]}; w_Cache := {| ch_Artifacts := ∅; ch_Compiled := ∅ |} |} in
  wrap_err "validating local worker snapshot" (WorkerSnapshot_validate snapshot) ;;;
  Ok snapshot.

(** [bootstrapRegistry]; the clock is read by [New] and by two of the calls. *)
Definition bootstrapRegistry (config : workerregistry.Config) (worker : WorkerSnapshot) (created registered reported : Z) : result workerregistry.Registry :=
  registry <- wrap_err "creating local worker registry" (workerregistry.New config created) ;;
  let run {X} (context : string) (m : M workerregistry.Registry X) (r : workerregistry.Registry) : result workerregistry.Registry :=
    let '(r', x) := m r in wrap_err context x ;;; Ok r' in
  registry <- run "committing local worker session" (workerregistry.CommitSession (w_Session worker)) registry ;;
  registry <- run "registering local worker session" (workerregistry.Register (w_Session worker) registered) registry ;;
  run "reporting local worker inventory" (workerregistry.ReportInventory
    {| workerregistry.in_Revision := 1; workerregistry.in_Session := w_Session worker; workerregistry.in_Runtime := w_Runtime worker;
       workerregistry.in_Capacity := w_Capacity worker; workerregistry.in_Labels := w_Labels worker; workerregistry.in_Cache := w_Cache worker |} reported) registry.

(** [registryWorkerSource.WorkerSnapshot] *)
Definition registryWorkerSnapshot (registry : workerregistry.Registry) (session : WorkerSession) (ctxErr : option error) : result WorkerSnapshot :=
  match ctxErr with
  | Some err => Err err
  | None =>
    match List.find (fun view => workerregistry.wv_Registered view && (w_Session (workerregistry.wv_Snapshot view) == session))
            (workerregistry.rs_Workers (workerregistry.Snapshot registry)) with
    | Some view => Ok (workerregistry.wv_Snapshot view)
    | None => Err (PlainError "local worker session is not registered")
    end
  end.

(** ** runtime.go: configuration and lifetime *)
Definition DefaultSyncInterval : Z := second.
Definition MinSyncInterval : Z := 10 * millisecond.
Definition MaxSyncInterval : Z := workerregistry.DefaultHeartbeatInterval.
Definition DefaultManagementAddress : string := "127.0.0.1:8081".
Definition defaultWorkerID : string := "local-worker".
(** [wasmexec.DefaultMaxConcurrent] and [gatewayhttp.DefaultShutdownTimeout] *)
Definition defaultWorkerSlots : Z := 4.
Definition DefaultShutdownTimeout : Z := 10 * second.

(** The fields that [normalizeConfig] reads. *)
Record Config := {
  cf_DataRoot : string; cf_ValidatorCommand : string; cf_Validator_Command : string; cf_Validator_TempRoot : string; cf_Validator_MaxArtifactBytes : Z;
  cf_SyncInterval : Z; cf_WorkerID : string; cf_WorkerMemoryMiB : Z; cf_WorkerSlots : Z; cf_HTTP_ShutdownTimeout : Z;
  cf_Management_Address : string; cf_Management_Token : string; cf_Management_Subject : string }.

(** [ManagementConfig.Enabled] *)
Definition Enabled (c : Config) : bool := cf_Management_Token c != "".

(** [join] is [filepath.Join]. *)
Definition normalizeConfig (join : string -> string -> string) (c : Config) : result Config :=
  fail_if (cf_DataRoot c == "") (PlainError "local core data root is required") ;;;
  let command := if cf_Validator_Command c == "" then cf_ValidatorCommand c else cf_Validator_Command c in
  fail_if (command == "") (PlainError "local core validator command is required") ;;;
  let tempRoot := if cf_Validator_TempRoot c == "" then join (cf_DataRoot c) "validator" else cf_Validator_TempRoot c in
  let maxArtifactBytes := if cf_Validator_MaxArtifactBytes c =? 0 then MaxArtifactBytes else cf_Validator_MaxArtifactBytes c in
  let syncInterval := if cf_SyncInterval c =? 0 then DefaultSyncInterval else cf_SyncInterval c in
  fail_if ((syncInterval <? MinSyncInterval) || (syncInterval >? MaxSyncInterval)) (PlainError "local core sync interval is outside bounds") ;;;
  let workerID := if cf_WorkerID c == "" then defaultWorkerID else cf_WorkerID c in
  let memoryMiB := if cf_WorkerMemoryMiB c =? 0 then 512 else cf_WorkerMemoryMiB c in
  let slots := if cf_WorkerSlots c =? 0 then defaultWorkerSlots else cf_WorkerSlots c in
  let shutdownTimeout := if cf_HTTP_ShutdownTimeout c =? 0 then DefaultShutdownTimeout else cf_HTTP_ShutdownTimeout c in
  let address := if Enabled c && (cf_Management_Address c == "") then DefaultManagementAddress else cf_Management_Address c in
  fail_if (negb (Enabled c) && ((address != "") || (cf_Management_Subject c != "")))
    (PlainError "local core management configuration requires a management token") ;;;
  Ok {| cf_DataRoot := cf_DataRoot c; cf_ValidatorCommand := cf_ValidatorCommand c; cf_Validator_Command := command; cf_Validator_TempRoot := tempRoot;
        cf_Validator_MaxArtifactBytes := maxArtifactBytes; cf_SyncInterval := syncInterval; cf_WorkerID := workerID; cf_WorkerMemoryMiB := memoryMiB;
        cf_WorkerSlots := slots; cf_HTTP_ShutdownTimeout := shutdownTimeout; cf_Management_Address := address;
        cf_Management_Token := cf_Management_Token c; cf_Management_Subject := cf_Management_Subject c |}.

(** The closable resources, each owned until its close succeeds; [lf_closed] is
    the order in which they were released. *)
Inductive resource := Agent | WasmEngine | Artifacts.
Record lifetime := { lf_running : bool; lf_agent : bool; lf_engine : bool; lf_artifacts : bool; lf_closed : list resource }.
Definition opened : lifetime := {| lf_running := false; lf_agent := true; lf_engine := true; lf_artifacts := true; lf_closed := [] |}.

Definition beginRun : M lifetime unit :=
  let! l := sget in
  do! slift (fail_if (lf_running l) (PlainError "local core runtime is already serving")) in
  do! slift (fail_if (negb (lf_agent l && lf_engine l && lf_artifacts l)) (PlainError "local core runtime is closed")) in
  sput {| lf_running := true; lf_agent := lf_agent l; lf_engine := lf_engine l; lf_artifacts := lf_artifacts l; lf_closed := lf_closed l |}.
Definition endRun (l : lifetime) : lifetime :=
  {| lf_running := false; lf_agent := lf_agent l; lf_engine := lf_engine l; lf_artifacts := lf_artifacts l; lf_closed := lf_closed l |}.

Definition owned (r : resource) (l : lifetime) : bool := match r with Agent => lf_agent l | WasmEngine => lf_engine l | Artifacts => lf_artifacts l end.
Definition release (r : resource) (l : lifetime) : lifetime :=
  {| lf_running := lf_running l; lf_agent := match r with Agent => false | _ => lf_agent l end; lf_engine := match r with WasmEngine => false | _ => lf_engine l end;
     lf_artifacts := match r with Artifacts => false | _ => lf_artifacts l end; lf_closed := lf_closed l ++ [r] |}.
(** One stage of [Close]; [outcome] is the result of the resource's close. *)
Definition close_stage (r : resource) (context : string) (outcome : option error) : M lifetime unit :=
  let! l := sget in
  if owned r l then match outcome with Some err => sthrow (WrapError context err) | None => sput (release r l) end else sret tt.
Definition Close (agent engine artifacts : option error) : M lifetime unit :=
  let! l := sget in
  do! slift (fail_if (lf_running l) (PlainError "local core runtime cannot close while serving")) in
  do! close_stage Agent "closing local worker agent" agent in
  do! close_stage WasmEngine "closing local wasm engine" engine in
  close_stage Artifacts "closing local artifact store" artifacts.

Inductive life_op := LifeBegin | LifeEnd | LifeClose (agent engine artifacts : option error).
Definition life_step (l : lifetime) (o : life_op) : lifetime :=
  match o with LifeBegin => fst (beginRun l) | LifeEnd => endRun l | LifeClose agent engine artifacts => fst (Close agent engine artifacts l) end.

(** The owned resources and the released ones. *)
Definition life_ok (l : lifetime) : Prop :=
  exists n, lf_closed l = take n [Agent; WasmEngine; Artifacts] /\ lf_agent l = (n <=? 0)%nat /\ lf_engine l = (n <=? 1)%nat /\ lf_artifacts l = (n <=? 2)%nat /\
    (lf_running l = true -> n = 0%nat).

Lemma life_step_ok l o : life_ok l -> life_ok (life_step l o).
Proof.
  assert (forall running n, (running = true -> n = 0%nat) -> (n <= 3)%nat ->
    life_ok {| lf_running := running; lf_agent := (n <=? 0)%nat; lf_engine := (n <=? 1)%nat; lf_artifacts := (n <=? 2)%nat; lf_closed := take n [Agent; WasmEngine; Artifacts] |}) as Hok
    by (intros running n Hr Hn; by exists n).
  intros (n & Hc & H1 & H2 & H3 & Hr). destruct l as [running a e f closed]; cbn in *; subst.
  destruct o as [| |agent engine artifacts]; cbn [life_step].
  - unfold beginRun, sbind, sget, slift, sput. cbn. destruct running; cbn; [by exists n|]. destruct n as [|n]; cbn; [by exists 0%nat|by exists (S n)].
  - exists n. by cbn.
  - unfold Close, sbind, sget, slift. cbn. destruct running; cbn; [by exists n|].
    destruct n as [|[|[|[|n]]]]; unfold close_stage, sbind, sget, sput, sthrow, sret; cbn; destruct agent, engine, artifacts; cbn;
      first [by exists 0%nat|by exists 1%nat|by exists 2%nat|by exists 3%nat|by exists (S (S (S (S n))))].
Qed.

(** Whatever the closes return and however often they are retried, the Worker
    agent, the engine and the artifact store are released in this order, each
    once, and none while the runtime serves; it does not serve again after. *)
Lemma lifetime_order ops : let l := foldl life_step opened ops in
  lf_closed l `prefix_of` [Agent; WasmEngine; Artifacts] /\ (lf_running l = true -> lf_closed l = []) /\
  (lf_closed l <> [] -> forall l' x, beginRun l = (l', x) -> l' = l /\ is_ok x = false).
Proof.
  assert (life_ok opened) as H0 by (by exists 0%nat). revert H0. generalize opened. induction ops as [|o ops IH]; intros l Hl; [|by apply IH, life_step_ok].
  cbn. destruct Hl as (n & Hc & H1 & H2 & H3 & Hr). rewrite Hc. split_and!.
  - apply prefix_take.
  - intros Hrun. by rewrite (Hr Hrun).
  - intros Hne l' x. unfold beginRun, sbind, sget, slift, sput. destruct (lf_running l); [by intros [= <- <-]|]. destruct n as [|n]; [by destruct Hne|].
    rewrite H1. cbn. by intros [= <- <-].
Qed.

(** ** The runtime *)
Section runtime.
Context `{HJ : JCS} {E File Reader : Type} `{HE : !localcontroller.Sources E File Reader}.
Context {A : Type} `{HA : localworker.AgentOps A}.
(** The randomness of [RandomIDSource]. *)
Context {R : Type} (read : Z -> M R (list Z)).
#[local] Abbreviation World := (localcontroller.World (E := E)).
#[local] Existing Instance local_candidates.

Record Runtime := {
  rt_world : World;
  rt_planner : Planner;
  rt_ids : R;
  rt_registry : workerregistry.Registry;
  rt_session : WorkerSession;
  rt_sync : System (A := A);
}.
Definition on_world {X} (m : M World X) : M Runtime X := fun r => let '(w, x) := m (rt_world r) in
  ({| rt_world := w; rt_planner := rt_planner r; rt_ids := rt_ids r; rt_registry := rt_registry r; rt_session := rt_session r; rt_sync := rt_sync r |}, x).
Definition on_planner {X} (m : M Planner X) : M Runtime X := fun r => let '(p, x) := m (rt_planner r) in
  ({| rt_world := rt_world r; rt_planner := p; rt_ids := rt_ids r; rt_registry := rt_registry r; rt_session := rt_session r; rt_sync := rt_sync r |}, x).
Definition on_ids {X} (m : M R X) : M Runtime X := fun r => let '(i, x) := m (rt_ids r) in
  ({| rt_world := rt_world r; rt_planner := rt_planner r; rt_ids := i; rt_registry := rt_registry r; rt_session := rt_session r; rt_sync := rt_sync r |}, x).
Definition on_registry {X} (m : M workerregistry.Registry X) : M Runtime X := fun r => let '(g, x) := m (rt_registry r) in
  ({| rt_world := rt_world r; rt_planner := rt_planner r; rt_ids := rt_ids r; rt_registry := g; rt_session := rt_session r; rt_sync := rt_sync r |}, x).
Definition on_sync {X} (m : M (System (A := A)) X) : M Runtime X := fun r => let '(s, x) := m (rt_sync r) in
  ({| rt_world := rt_world r; rt_planner := rt_planner r; rt_ids := rt_ids r; rt_registry := rt_registry r; rt_session := rt_session r; rt_sync := s |}, x).

(** A read of the controller, after what others did. *)
Definition reads {X} (meanwhile : World -> World) (f : localcontroller.Controller -> result X) : M Runtime X :=
  do! on_world (fun w => (meanwhile w, Ok tt)) in
  let! r := sget in slift (f (fst (rt_world r))).
(** The error of a call as a value. *)
Definition attempt {X} (m : M Runtime X) : M Runtime (option error) :=
  fun r => let '(r', x) := m r in (r', Ok (match x with Ok _ => None | Err err => Some err end)).

Definition placeTarget (ctx : option error) (meanwhile : World -> World) (state : ServingState) (target : RouteTarget) (worker : WorkerSnapshot) : M Runtime unit :=
  let! commandID := on_ids (localcontroller.swrap "generating placement command id" (sources.NewID read "placement")) in
  let! assignmentID := on_ids (localcontroller.swrap "generating placement assignment id" (sources.NewID read "assignment")) in
  match ss_Version state, ss_Deployment state with
  | Some version, Some deployment =>
    let! planned := on_planner (localcontroller.swrap "planning local placement" (Plan (placementRequest commandID assignmentID version deployment target worker) [worker])) in
    let '(decision, failed) := planned in
    match failed with
    | Some err => sthrow (WrapError "planning local placement" err)
    | None =>
      let! commitErr := attempt (on_world (localcontroller.CommitAssignment ctx meanwhile
        {| localcontroller.ai_FunctionID := md_ID (fn_Metadata (ss_Function state)); localcontroller.ai_Placement := dc_Assignment decision;
           localcontroller.ai_ExpectedScalingRevision := d_ScalingRevision deployment |})) in
      let! ackErr := attempt (on_planner (Acknowledge (a_CommandID (dc_Assignment decision)))) in
      match localworker.join_all (option_list commitErr ++ option_list ackErr) with
      | Some err => sthrow (WrapError "committing local placement" err)
      | None => sret tt
      end
    end
  | _, _ => sthrow (PlainError "invalid memory address or nil pointer dereference")
  end.

(** One iteration of the loop of [placeLocalAssignments]: the error it adds. *)
Definition place_one (ctx : option error) (meanwhile : World -> World) (live : gmap string AssignmentRecord) (worker : WorkerSnapshot) (state : ServingState)
    : M Runtime (option error) :=
  match servableTarget state with
  | None => sret None
  | Some target =>
    match live !! md_ID (fn_Metadata (ss_Function state)) with
    | Some record =>
      if placementMatchesTarget (ar_Placement record) target (w_Session worker) then sret None
      else
        let! failed := attempt (on_world (localcontroller.CancelAssignment ctx meanwhile
          {| localcontroller.xi_AssignmentID := a_AssignmentID (ar_Placement record); localcontroller.xi_ExpectedResourceRevision := ar_ResourceRevision record |})) in
        sret (WrapError "cancelling superseded assignment" <$> failed)
    | None => attempt (placeTarget ctx meanwhile state target worker)
    end
  end.

Fixpoint place_loop (ctx : nat -> option error) (meanwhile : nat -> World -> World) (live : gmap string AssignmentRecord) (worker : WorkerSnapshot)
    (errs : list error) (states : list ServingState) : M Runtime (list error) :=
  match states with
  | [] => sret errs
  | state :: states =>
    let! failed := place_one (ctx (length states)) (meanwhile (length states)) live worker state in
    place_loop ctx meanwhile live worker (errs ++ option_list failed) states
  end.

(** The answers of the context, and what others do to the controller, at each of
    the calls of one pass. *)
Record turn := { tn_ctx : nat -> option error; tn_loop : nat -> option error; tn_others : nat -> World -> World; tn_between : nat -> World -> World;
                 tn_reconcile : nat -> option error; tn_sync : nat -> option error;
                 tn_candidates : nat -> option error; tn_heartbeat : Z; tn_evaluate : Z; tn_now : Time; tn_clock : Z }.

Definition placeLocalAssignments (t : turn) : M Runtime unit :=
  let! states := localcontroller.swrap "listing serving states for placement" (reads (tn_others t 0) (localcontroller.ListServingStates (tn_ctx t 0))) in
  let! assignments := localcontroller.swrap "listing assignments for placement" (reads (tn_others t 1) (localcontroller.ListAssignments (tn_ctx t 1))) in
  let! r := sget in
  let! worker := slift (wrap_err "loading worker snapshot for placement" (registryWorkerSnapshot (rt_registry r) (rt_session r) (tn_ctx t 2))) in
  let! failures := place_loop (tn_loop t) (tn_between t) (liveRecords assignments) worker [] states in
  match localworker.join_all failures with Some err => sthrow err | None => sret tt end.

(** [r.reconciler.Reconcile(ctx)], with the reads of its sources. *)
Definition on_reconciler {X} (default_result : result X) (m : M (localworker.Reconciler (A := A)) X) : M Runtime X :=
  on_sync (fun s => match sy_candidates s with
  | None => (s, default_result)
  | Some c => let '(rc, x) := m (ls_reconciler c) in
              ({| sy_candidates := Some {| ls_reconciler := rc; ls_answers := ls_answers c |}; sy_publisher := sy_publisher s; sy_store := sy_store s |}, x)
  end).
Definition value {X} (m : M Runtime X) : M Runtime (result X) := fun r => let '(r', x) := m r in (r', Ok x).

Definition reconcileStep (t : turn) : M Runtime (option error) :=
  let! assignments := value (reads (tn_others t 2) (localcontroller.ListAssignments (tn_ctx t 3))) in
  let! states := value (reads (tn_others t 3) (localcontroller.ListServingStates (tn_ctx t 4))) in
  let! r := sget in
  let worker := registryWorkerSnapshot (rt_registry r) (rt_session r) (tn_ctx t 5) in
  on_reconciler (Ok None) (localworker.Reconcile (tn_ctx t 6) (tn_reconcile t) assignments states worker).

(** [r.synchronizer.FullSync(ctx)]; each candidate read asks the registry. *)
Definition syncStep (t : turn) : M Runtime (option error) :=
  let! states := value (reads (tn_others t 4) (localcontroller.ListServingStates (tn_ctx t 7))) in
  let! r := sget in
  do! on_sync (fun s => (sys_step s (SysAnswers (fun n => (tn_candidates t n, registryWorkerSnapshot (rt_registry r) (rt_session r) (tn_candidates t n)))), Ok tt)) in
  attempt (on_sync (FullSync (tn_ctx t 8) (tn_sync t) states (tn_now t) (tn_clock t))).

(** [Converge], under [convergeMu]: every step runs, whatever the others return. *)
Definition Converge (ctxErr : option error) (t : turn) : M Runtime unit :=
  match ctxErr with
  | Some err => sthrow err
  | None =>
    let! r := sget in
    let! heartbeatErr := attempt (on_registry (workerregistry.Heartbeat (rt_session r) (tn_heartbeat t))) in
    let! evaluateErr := attempt (on_registry (workerregistry.Evaluate (tn_evaluate t))) in
    let! placeErr := attempt (placeLocalAssignments t) in
    let! reconcileErr := reconcileStep t in
    let! syncErr := syncStep t in
    match localworker.join_all (option_list heartbeatErr ++ option_list evaluateErr ++ option_list placeErr ++ option_list reconcileErr ++ option_list syncErr) with
    | Some err => sthrow err
    | None => sret tt
    end
  end.

(** ** Construction *)
Definition defaultEndpoint : string := "local-worker.internal:7443".

(** What [New] is given: the configuration, the engine's profile and platform,
    the state of the controller's sources, an agent for the Worker process, and
    the readings of the clocks. *)
Record boot := {
  bo_workerID : string; bo_memoryMiB : Z; bo_slots : Z; bo_registry : workerregistry.Config; bo_profile : wasmprofile.Profile;
  bo_goos : string; bo_goarch : string; bo_env : E; bo_agent : WorkerProcess -> A; bo_answers : nat -> option error * result WorkerSnapshot;
  bo_created : Z; bo_registered : Z; bo_reported : Z; bo_elapsed : Z }.

(** [New] from the creation of the ID source on; the artifact store, the
    validator client, the engine and the HTTP servers are opened around it. *)
Definition New (b : boot) (ids : R) : result Runtime :=
  let '(ids, bootID) := sources.NewID read "boot" ids in
  bootID <- wrap_err "creating local worker boot id" bootID ;;
  let '(ids, connectionID) := sources.NewID read "connection" ids in
  connectionID <- wrap_err "creating local control connection id" connectionID ;;
  let session := {| ws_WorkerID := bo_workerID b; ws_BootID := bootID; ws_SessionEpoch := 1 |} in
  let agent := bo_agent b {| wp_WorkerID := ws_WorkerID session; wp_BootID := ws_BootID session |} in
  worker <- localWorkerSnapshot session (bo_profile b) (bo_goos b) (bo_goarch b) (bo_memoryMiB b) (bo_slots b) ;;
  registry <- bootstrapRegistry (bo_registry b) worker (bo_created b) (bo_registered b) (bo_reported b) ;;
  planner <- wrap_err "creating local placement planner" (scheduler.New 0) ;;
  let '(planner, installed) := InstallBarrier localCoreBarrier planner in
  wrap_err "installing local placement barrier" installed ;;;
  let connection := {| cc_ConnectionID := connectionID; cc_SessionEpoch := ws_SessionEpoch session; cc_DiscoveryEpoch := 1 |} in
  reconciler <- wrap_err "creating local worker reconciler" (localworker.NewReconciler agent connection defaultEndpoint) ;;
  builder <- wrap_err "creating local discovery builder" (discovery.New 0) ;;
  publisher <- wrap_err "creating local discovery publisher" (discovery.NewPublisher (cc_DiscoveryEpoch connection) builder) ;;
  store <- wrap_err "creating local gateway discovery store"
             (gatewaydiscovery.New {| gatewaydiscovery.cfg_MaxStale := None; gatewaydiscovery.cfg_MaxFunctions := 0 |} (bo_elapsed b)) ;;
  synchronizer <- wrap_err "creating local serving synchronizer"
                    (localserving.New true (Some {| ls_reconciler := reconciler; ls_answers := bo_answers b |}) (Some publisher) (Some store)) ;;
  Ok {| rt_world := (localcontroller.New, bo_env b); rt_planner := planner; rt_ids := ids; rt_registry := registry; rt_session := session; rt_sync := synchronizer |}.
End runtime.

(** ** Placement *)
Section placement.
Context `{HJ : JCS} {E File Reader : Type} `{HE : !localcontroller.Sources E File Reader}.
Context {A : Type} `{HA : localworker.AgentOps A} {R : Type} (read : Z -> M R (list Z)).
#[local] Abbreviation World := (localcontroller.World (E := E)).
#[local] Abbreviation Runtime := (Runtime (E := E) (A := A) (R := R)).
Import localcontroller.

(** No decision is outstanding. *)
Definition settled (p : Planner) : Prop := p_decisions p = ∅ /\ p_assignments p = ∅.

Lemma Plan_settled request workers p p' d : settled p -> Plan request workers p = (p', Ok (d, None)) ->
  exists fingerprint chosen, plans request workers p fingerprint chosen /\ d = decision_of request workers p chosen /\ p' = planned p request fingerprint d.
Proof.
  intros [Hd Ha] Hp. destruct (Plan_cases _ _ _ _ _ Hp) as [[-> Hno]|(fp & chosen & Hpl & [= ->] & ->)]; [|by exists fp, chosen].
  exfalso. apply (Hno d None eq_refl). revert Hp. unfold Plan, sbind, slift, sget, sput, sret. rewrite Hd, Ha, !lookup_empty.
  destruct (PlacementRequest_Validate request); [|done]. destruct (requestFingerprint request); [|done]. repeat (destruct (fail_if _ _); [|done]).
  destruct (validateWorkerSet workers); [|done]. destruct (SortFunc compareEligible _); [done|]. by intros [= _ <-].
Qed.

Lemma PlacementRequest_command request : PlacementRequest_Validate request = Ok tt -> idPattern (pl_CommandID request) = true.
Proof. intros ([] & Hf & _)%rbind_Ok. cbn [for_each] in Hf. by destruct (idPattern (pl_CommandID request)). Qed.

Lemma Acknowledge_planned request p fingerprint d : settled p -> idPattern (pl_CommandID request) = true ->
  a_AssignmentID (dc_Assignment d) = pl_AssignmentID request -> Acknowledge (pl_CommandID request) (planned p request fingerprint d) = (p, Ok tt).
Proof.
  intros [Hd Ha] Hid Hass. unfold Acknowledge, sbind, slift, sget, sput. rewrite Hid. cbn [negb fail_if planned p_decisions p_assignments p_maxDecisions p_barrier].
  rewrite lookup_insert_eq. cbn [dr_decision]. rewrite Hass, lookup_insert_eq, Hd, Ha. cbn [default]. rewrite bool_decide_eq_true_2 by done.
  rewrite !delete_insert_eq, !delete_empty. destruct p; cbn in *. by rewrite Hd, Ha.
Qed.

(** A commit: the others' step, then one Install. *)
Lemma CommitAssignment_Ok ctx meanwhile input w w' record : CommitAssignment ctx meanwhile input w = (w', Ok record) ->
  exists stores command s, Install stores command s = (controlplane.cp_assignments (ctl_stores (fst w')), Ok record) /\
    ia_FunctionID command = localcontroller.ai_FunctionID input /\ ia_Placement command = ai_Placement input.
Proof.
  unfold CommitAssignment. unfold sbind at 1. unfold slift. destruct (checkContext ctx); [|done]. unfold sbind at 1.
  destruct (nextCommand w) as [w1 [command|err]]; [|done]. unfold sbind, interfere, with_stores, swrap, on_assignments.
  match goal with |- context [Install ?st ?c ?s] => destruct (Install st c s) as [s' [r|err]] eqn:Ei; cbn [wrap_err]; [|done]; intros [= <- <-]; exists st, c, s end.
  split_and!; [exact Ei|done|done].
Qed.

Lemma single_entry request worker chosen rest : SortFunc compareEligible (entries request [worker]) = chosen :: rest -> e_worker chosen = worker.
Proof.
  intros Hs. assert (chosen ∈ entries request [worker]) as Hin by (rewrite <-(SortFunc_Permutation compareEligible), Hs; by left).
  unfold entries in Hin. apply list_elem_of_fmap in Hin as (w & -> & Hw). apply list_elem_of_In, List.filter_In in Hw as [Hw _].
  apply list_elem_of_In, list_elem_of_singleton in Hw as ->. done.
Qed.

Definition same_but_world (r r' : Runtime) : Prop :=
  rt_planner r' = rt_planner r /\ rt_registry r' = rt_registry r /\ rt_session r' = rt_session r /\ rt_sync r' = rt_sync r /\
  moves (fst (rt_world r)) (fst (rt_world r')).
#[local] Instance same_but_world_preorder : PreOrder same_but_world.
Proof.
  split.
  - intros r. unfold same_but_world. by split_and!.
  - intros r1 r2 r3 (? & ? & ? & ? & ?) (? & ? & ? & ? & ?). unfold same_but_world. split_and!; try congruence. by etransitivity.
Qed.

Lemma on_world_same {X} (m : M World X) (r : Runtime) : Guarantees m -> same_but_world r (fst (on_world m r)).
Proof. intros Hm. specialize (Hm (rt_world r)). unfold on_world. destruct (m (rt_world r)). unfold same_but_world. cbn in *. by split_and!. Qed.
Lemma on_ids_same {X} (m : M R X) (r : Runtime) : same_but_world r (fst (on_ids m r)).
Proof. unfold on_ids. destruct (m (rt_ids r)). unfold same_but_world. cbn. by split_and!. Qed.

(** The record that a placement commits. *)
Definition placed_for (target : RouteTarget) (session : WorkerSession) (functionID : string) (c : Controller) : Prop :=
  exists record, records (controlplane.cp_assignments (ctl_stores c)) !! a_AssignmentID (ar_Placement record) = Some record /\
    ar_DesiredState record = AssignmentAssigned /\ ar_FunctionID record = functionID /\ placementMatchesTarget (ar_Placement record) target session = true.

Lemma placeTarget_run ctx meanwhile state target worker (r r' : Runtime) x : Rely meanwhile -> settled (rt_planner r) ->
  (forall version, ss_Version state = Some version -> v_VersionID version = rt_VersionID target) ->
  placeTarget read ctx meanwhile state target worker r = (r', x) ->
  same_but_world r r' /\ (x = Ok tt -> placed_for target (w_Session worker) (md_ID (fn_Metadata (ss_Function state))) (fst (rt_world r'))).
Proof.
  intros Hrely Hset Hver. unfold placeTarget, sbind.
  match goal with |- context [on_ids ?m r] => pose proof (on_ids_same m r) as H1; destruct (on_ids m r) as [r1 [commandID|err]]; cbn [fst] in H1 end;
    [|by intros [= <- <-]].
  match goal with |- context [on_ids ?m r1] => pose proof (on_ids_same m r1) as H2; destruct (on_ids m r1) as [r2 [assignmentID|err]]; cbn [fst] in H2 end;
    [|intros [= <- <-]; split; [by etransitivity|done]].
  assert (same_but_world r r2) as H3 by (by etransitivity). clear H1 H2 r1.
  destruct (ss_Version state) as [version|]; [|by intros [= <- <-]]. destruct (ss_Deployment state) as [deployment|]; [|by intros [= <- <-]].
  set (request := placementRequest commandID assignmentID version deployment target worker). unfold on_planner at 1, swrap at 1.
  rewrite <-(proj1 H3) in Hset. destruct (Plan request [worker] (rt_planner r2)) as [p' [[d [err|]]|err]] eqn:Hplan; cbn [wrap_err].
  - destruct (Plan_cases _ _ _ _ _ Hplan) as [[-> _]|(? & ? & _ & [=] & _)]. intros [= <- <-]. split; [|done]. by destruct r2.
  - destruct (Plan_settled _ _ _ _ _ Hset Hplan) as (fp & chosen & Hpl & -> & ->). set (d := decision_of request [worker] (rt_planner r2) chosen).
    unfold attempt at 1. match goal with |- context [on_world ?m ?r3] => pose proof (on_world_same m r3 (CommitAssignment_Guarantees _ _ _ Hrely)) as H4; destruct (on_world m r3) as [r4 y] eqn:Hw; cbn [fst] in H4 end.
    unfold attempt, on_planner. destruct H4 as (Hp4 & Hr4 & Hs4 & Hy4 & Hm4). rewrite Hp4. cbn [rt_planner].
    change (a_CommandID (dc_Assignment d)) with (pl_CommandID request). rewrite Acknowledge_planned; [|done|apply PlacementRequest_command, Hpl|done].
    cbn [option_list]. rewrite app_nil_r. destruct H3 as (Hp3 & Hr3 & Hs3 & Hy3 & Hm3).
    assert (forall p, p = rt_planner r2 -> same_but_world r {| rt_world := rt_world r4; rt_planner := p; rt_ids := rt_ids r4; rt_registry := rt_registry r4; rt_session := rt_session r4; rt_sync := rt_sync r4 |}) as Hsame.
    { intros p ->. unfold same_but_world. cbn in *. split_and!; try congruence. by etransitivity. }
    destruct y as [record|err]; cbn; intros [= <- <-]; (split; [by apply Hsame|]); [|done]. intros _. cbn [rt_world].
    unfold on_world in Hw. cbn [rt_world] in Hw. destruct (CommitAssignment _ _ _ _) as [w' y] eqn:Hc. injection Hw as <- ->. cbn [rt_world].
    apply CommitAssignment_Ok in Hc as (stores & command & s0 & Hi & Hf & Hpm). cbn in Hf, Hpm.
    apply Install_Ok in Hi as (_ & -> & _ & _ & _ & _ & _ & _ & _ & _ & _ & _ & Hs'). exists (assigned command). rewrite Hs'.
    cbn [records assigned ar_Placement ar_DesiredState ar_FunctionID]. rewrite Hpm. split_and!; [apply lookup_insert_eq|done|done|].
    unfold placementMatchesTarget. cbn. destruct (pn_chosen _ _ _ _ _ Hpl) as [rest Hch]. rewrite (single_entry _ _ _ _ Hch), (Hver version eq_refl), !Z.eqb_refl, !bool_decide_eq_true_2; done.
  - destruct (Plan_cases _ _ _ _ _ Hplan) as [[-> _]|(? & ? & _ & [=] & _)]. intros [= <- <-]. split; [|done]. by destruct r2.
Qed.

Lemma servableTarget_version state target : servableTarget state = Some target -> forall version, ss_Version state = Some version -> v_VersionID version = rt_VersionID target.
Proof.
  unfold servableTarget. intros Hs version Hv. rewrite Hv in Hs. destruct (ss_Route state) as [route|]; [|done]. destruct (ss_Deployment state) as [deployment|]; [|done].
  destruct (r_Targets route) as [|t [|? ?]]; [done| |done]. destruct (_ || _); [done|]. destruct (_ || _) eqn:Hc in Hs; [done|]. injection Hs as <-. by go_cases.
Qed.

Lemma place_one_run ctx meanwhile live worker state (r : Runtime) : Rely meanwhile -> settled (rt_planner r) ->
  exists r' failed, place_one read ctx meanwhile live worker state r = (r', Ok failed) /\ same_but_world r r' /\
    (failed = None -> forall target, servableTarget state = Some target -> live !! md_ID (fn_Metadata (ss_Function state)) = None ->
       placed_for target (w_Session worker) (md_ID (fn_Metadata (ss_Function state))) (fst (rt_world r'))).
Proof.
  intros Hrely Hset. unfold place_one. destruct (servableTarget state) as [target|] eqn:Ht; [|by exists r, None].
  destruct (live !! _) as [record|] eqn:Hl.
  - destruct (placementMatchesTarget _ _ _); [by exists r, None|]. unfold sbind, attempt, sret.
    match goal with |- context [on_world ?m r] => pose proof (on_world_same m r (CancelAssignment_Guarantees _ _ _ Hrely)) as H1; destruct (on_world m r) as [r' x] end.
    eexists r', _. split; [done|]. split; [exact H1|done].
  - unfold attempt. destruct (placeTarget read ctx meanwhile state target worker r) as [r' x] eqn:Hp.
    destruct (placeTarget_run _ _ _ _ _ _ _ _ Hrely Hset (servableTarget_version _ _ Ht) Hp) as [H1 H2]. eexists r', _. split; [done|]. split; [done|].
    destruct x as [[]|]; [|done]. intros _ ? [= <-] _. by apply H2.
Qed.

Lemma place_loop_run ctx meanwhile live worker states : forall errs (r : Runtime), (forall n, Rely (meanwhile n)) -> settled (rt_planner r) ->
  exists r' failures, place_loop read ctx meanwhile live worker errs states r = (r', Ok failures) /\ same_but_world r r'.
Proof.
  induction states as [|state states IH]; intros errs r Hrely Hset; cbn [place_loop]; [by exists r, errs|]. unfold sbind.
  destruct (place_one_run (ctx (length states)) (meanwhile (length states)) live worker state r (Hrely _) Hset) as (r1 & failed & -> & H1 & _).
  destruct (IH (errs ++ option_list failed) r1 Hrely) as (r2 & failures & -> & H2); [by rewrite (proj1 H1)|]. exists r2, failures. split; [done|by etransitivity].
Qed.

Lemma reads_run {X} meanwhile (f : Controller -> result X) (r : Runtime) : Rely meanwhile ->
  exists r', reads meanwhile f r = (r', f (fst (rt_world r'))) /\ same_but_world r r'.
Proof.
  intros Hrely. unfold reads, on_world, sbind, sget, slift. eexists. split; [done|]. unfold same_but_world. cbn. split_and!; first [done|apply Hrely].
Qed.

Lemma placeLocalAssignments_run t (r : Runtime) : (forall n, Rely (tn_others t n)) -> (forall n, Rely (tn_between t n)) -> settled (rt_planner r) ->
  same_but_world r (fst (placeLocalAssignments read t r)).
Proof.
  intros Ho Hb Hset. unfold placeLocalAssignments, sbind, swrap, sget, slift.
  destruct (reads_run (tn_others t 0) (ListServingStates (tn_ctx t 0)) r (Ho _)) as (r1 & -> & H1). destruct (ListServingStates _ _) as [states|]; [|done].
  destruct (reads_run (tn_others t 1) (ListAssignments (tn_ctx t 1)) r1 (Ho _)) as (r2 & -> & H2). cbn [wrap_err]. assert (same_but_world r r2) as H3 by (by etransitivity).
  destruct (ListAssignments _ _) as [assignments|]; [|done]. cbn [wrap_err]. destruct (registryWorkerSnapshot _ _ _) as [worker|]; [|done]. cbn [wrap_err].
  destruct (place_loop_run (tn_loop t) (tn_between t) (liveRecords assignments) worker states [] r2 Hb) as (r3 & failures & -> & H4); [by rewrite (proj1 H3)|].
  destruct (localworker.join_all failures); (etransitivity; [exact H3|exact H4]).
Qed.
End placement.

(** ** The records of one Function *)

(** Newer records are later in a snapshot: by the commit index, then the ID. *)
Definition record_order : AssignmentRecord -> AssignmentRecord -> comparison :=
  lex_by (comparing ar_CreatedRaftIndex Z.compare) (comparing localworker.ai_of String.compare).
#[global] Instance record_order_total : TotalCompare record_order.
Proof. unfold record_order. apply _. Qed.
Lemma compareAssignmentRecord_spec l r : compareAssignmentRecord l r = int_of record_order l r.
Proof.
  unfold compareAssignmentRecord, int_of, record_order, lex_by, comparing, strings_Compare, localworker.ai_of. rewrite Z_three_way, to_int_lex. by case_match.
Qed.
Lemma record_order_eq x y : record_order x y = Eq -> localworker.ai_of x = localworker.ai_of y.
Proof. unfold record_order, lex_by, lex, comparing. case_match; try done. apply String.compare_eq_iff. Qed.

Definition live_of (functionID : string) (record : AssignmentRecord) : Prop :=
  ar_DesiredState record = AssignmentAssigned /\ ar_FunctionID record = functionID.
#[global] Instance live_of_dec functionID record : base.Decision (live_of functionID record).
Proof. unfold live_of. apply _. Defined.

Lemma liveRecords_lookup l functionID : liveRecords l !! functionID = last (filter (live_of functionID) l).
Proof.
  unfold liveRecords. induction l as [|record l IH] using rev_ind; [done|]. rewrite foldl_snoc, filter_app, filter_cons, filter_nil.
  destruct (decide (live_of functionID record)) as [[Hs Hf]|Hn].
  - rewrite bool_decide_eq_true_2 by done. by rewrite Hf, lookup_insert_eq, last_snoc.
  - rewrite app_nil_r, <-IH. case_match eqn:Hs; [|done]. go_cases. rewrite lookup_insert_ne; [done|]. intros Hf. by apply Hn.
Qed.

Lemma sorted_last {X} (R : X -> X -> Prop) l x y : StronglySorted R l -> last l = Some y -> x ∈ l -> x = y \/ R x y.
Proof.
  induction l as [|a l IH]; intros Hs Hl Hin; [by apply not_elem_of_nil in Hin|]. apply StronglySorted_cons in Hs as [Ha Hs].
  destruct l as [|b l]; [injection Hl as <-; apply list_elem_of_singleton in Hin; by left|]. apply elem_of_cons in Hin as [->|Hin]; [right|by apply IH].
  rewrite Forall_forall in Ha. apply Ha. by apply last_Some_elem_of.
Qed.
Lemma sorted_filter {X} (R : X -> X -> Prop) (P : X -> Prop) `{!forall x, base.Decision (P x)} l : StronglySorted R l -> StronglySorted R (filter P l).
Proof.
  induction l as [|a l IH]; intros Hs; [done|]. apply StronglySorted_cons in Hs as [Ha Hs]. rewrite filter_cons. case_decide; [|by apply IH].
  apply StronglySorted_cons. split; [|by apply IH]. apply Forall_forall. intros x [_ Hx]%list_elem_of_filter. rewrite Forall_forall in Ha. by apply Ha.
Qed.

(** The records that the Assignment store holds for a Function. *)
Definition records_of (functionID : string) (c : localcontroller.Controller) : gmap string AssignmentRecord :=
  filter (fun kv => ar_FunctionID (snd kv) = functionID) (records (controlplane.cp_assignments (localcontroller.ctl_stores c))).
(** The newest Assigned one of them. *)
Definition newest (m : gmap string AssignmentRecord) (record : AssignmentRecord) : Prop :=
  m !! localworker.ai_of record = Some record /\ ar_DesiredState record = AssignmentAssigned /\
  forall id other, m !! id = Some other -> ar_DesiredState other = AssignmentAssigned -> other = record \/ record_order other record = Lt.

Section records.
Context `{HJ : JCS}.
Import localcontroller.
Implicit Types (c : Controller).

Lemma records_of_lookup functionID c id record : records_of functionID c !! id = Some record <->
  records (controlplane.cp_assignments (ctl_stores c)) !! id = Some record /\ ar_FunctionID record = functionID.
Proof. unfold records_of. by rewrite map_lookup_filter_Some. Qed.

Lemma records_of_key functionID c id record : ctl_inv c -> records_of functionID c !! id = Some record -> localworker.ai_of record = id.
Proof. intros Hc [Hr _]%records_of_lookup. apply (rok_id _ _ (as_record _ (controlplane.cp_assignments_inv _ (cn_stores _ Hc)) _ _ Hr)). Qed.

Lemma listed_of functionID c record : ctl_inv c ->
  record ∈ filter (live_of functionID) (assignment.Snapshot (controlplane.cp_assignments (ctl_stores c))) <->
  records_of functionID c !! localworker.ai_of record = Some record /\ ar_DesiredState record = AssignmentAssigned.
Proof.
  intros Hc. rewrite list_elem_of_filter, records_of_lookup. unfold live_of, assignment.Snapshot, assignment.snapshot_in. rewrite elem_of_SortFunc, list_elem_of_fmap. split.
  - intros [[Hs Hf] ([id r] & -> & Hr%elem_of_map_to_list)]. cbn in *. assert (localworker.ai_of r = id) as ->; [|done].
    by eapply records_of_key, records_of_lookup.
  - intros [[Hr Hf] Hs]. split; [done|]. exists (localworker.ai_of record, record). split; [done|by apply elem_of_map_to_list].
Qed.

(** The live map holds the newest Assigned record of each Function. *)
Lemma liveRecords_newest functionID c record : ctl_inv c ->
  liveRecords (assignment.Snapshot (controlplane.cp_assignments (ctl_stores c))) !! functionID = Some record <-> newest (records_of functionID c) record.
Proof.
  intros Hc. rewrite liveRecords_lookup. set (l := filter _ _). assert (StronglySorted (fun x y => record_order x y <> Gt) l) as Hsort.
  { apply sorted_filter. unfold assignment.Snapshot, assignment.snapshot_in.
    rewrite (SortFunc_ext _ (int_of record_order)) by (intros; apply compareAssignmentRecord_spec). apply SortFunc_sorted. apply _. }
  assert (forall x y, x ∈ l -> y ∈ l -> record_order x y = Eq -> x = y) as Hinj.
  { intros x y [Hx _]%listed_of [Hy _]%listed_of E%record_order_eq; [|done..]. rewrite E in Hx. congruence. }
  split.
  - intros Hl. pose proof (last_Some_elem_of _ _ Hl) as Hin. pose proof Hin as [Hr Hs]%listed_of; [|done]. split_and!; [done|done|].
    intros id other Ho Ha. assert (other ∈ l) as Hol by (apply listed_of; [done|]; by rewrite (records_of_key _ _ _ _ Hc Ho)).
    destruct (sorted_last _ _ _ _ Hsort Hl Hol) as [->|Hle]; [by left|]. destruct (record_order other record) eqn:E; [left; by apply Hinj|by right|done].
  - intros (Hr & Hs & Hmax). assert (record ∈ l) as Hin by (by apply listed_of). destruct (last l) as [y|] eqn:Hl; [|apply last_None in Hl; rewrite Hl in Hin; by apply not_elem_of_nil in Hin].
    pose proof (last_Some_elem_of _ _ Hl) as [Hy Hys]%listed_of; [|done]. destruct (Hmax _ _ Hy Hys) as [->|Hlt]; [done|].
    destruct (sorted_last _ _ _ _ Hsort Hl Hin) as [->|Hle]; [done|]. destruct Hle. by apply (tc_flip record_order).
Qed.
Lemma liveRecords_none functionID c id record : ctl_inv c -> liveRecords (assignment.Snapshot (controlplane.cp_assignments (ctl_stores c))) !! functionID = None ->
  records_of functionID c !! id = Some record -> ar_DesiredState record <> AssignmentAssigned.
Proof.
  intros Hc Hn Hr Hs. rewrite liveRecords_lookup in Hn. apply last_None in Hn. assert (record ∈ filter (live_of functionID) (assignment.Snapshot (controlplane.cp_assignments (ctl_stores c)))) as Hin.
  { apply listed_of; [done|]. by rewrite (records_of_key _ _ _ _ Hc Hr). } rewrite Hn in Hin. by apply not_elem_of_nil in Hin.
Qed.

(** The serving state of the Function has the target. *)
Definition servable (functionID : string) (target : RouteTarget) (c : Controller) : Prop :=
  exists states state, ServingStates (controlplane.cp_stores (ctl_stores c)) = Ok states /\ state ∈ states /\
    md_ID (fn_Metadata (ss_Function state)) = functionID /\ servableTarget state = Some target.

Lemma serving_ids_NoDup c states : ctl_inv c -> ServingStates (controlplane.cp_stores (ctl_stores c)) = Ok states ->
  NoDup ((fun state => md_ID (fn_Metadata (ss_Function state))) <$> states).
Proof.
  intros Hc Hs. pose proof (controlplane.cp_stores_inv _ (cn_stores _ Hc)) as Hst.
  destruct (ServingStates_total _ _ Hst (Permutation_refl _)) as (states' & _ & Hs' & Hp & _). rewrite Hs in Hs'. injection Hs' as <-.
  change (fun state => md_ID (fn_Metadata (ss_Function state))) with (catalog.fn_ID ∘ ss_Function). rewrite list_fmap_compose.
  change (map ss_Function states) with (ss_Function <$> states) in Hp. rewrite Hp. change (map snd ?l) with (snd <$> l). rewrite <-list_fmap_compose.
  erewrite list_fmap_ext; [apply NoDup_fst_map_to_list|]. intros i [id f] Hf%list_elem_of_lookup_2%elem_of_map_to_list. cbn.
  apply (catalog.fo_id _ _ (catalog.ci_function _ (si_catalog _ Hst) _ _ Hf)).
Qed.
Lemma servable_unique functionID target c states state : ctl_inv c -> servable functionID target c -> ServingStates (controlplane.cp_stores (ctl_stores c)) = Ok states ->
  state ∈ states -> md_ID (fn_Metadata (ss_Function state)) = functionID -> servableTarget state = Some target.
Proof.
  intros Hc (states' & state' & Hs' & Hin' & Hf' & Ht) Hs Hin Hf. rewrite Hs in Hs'. injection Hs' as <-. pose proof (serving_ids_NoDup c states Hc Hs) as Hnd.
  apply list_elem_of_lookup in Hin as [i Hi], Hin' as [j Hj]. assert (i = j) as <-; [|congruence].
  eapply NoDup_lookup; [exact Hnd| |]; rewrite list_lookup_fmap, ?Hi, ?Hj; cbn; [done|congruence].
Qed.
End records.

(** ** What a pass does to the records of one Function *)
Section frame.
Context `{HJ : JCS} {E File Reader : Type} `{HE : !localcontroller.Sources E File Reader}.
Context {A : Type} `{HA : localworker.AgentOps A} {R : Type} (read : Z -> M R (list Z)).
#[local] Abbreviation World := (localcontroller.World (E := E)).
#[local] Abbreviation Runtime := (Runtime (E := E) (A := A) (R := R)).
Import localcontroller.
Context (functionID : string) (target : RouteTarget).
Implicit Types (w : localcontroller.World (E := E)).

(** The Function keeps its target and exactly these records. *)
Record holds (m : gmap string AssignmentRecord) (c : Controller) : Prop := {
  hd_inv : ctl_inv c;
  hd_records : records_of functionID c = m;
  hd_servable : servable functionID target c;
}.
(** Others leave the Function's records and target alone. *)
Definition leaves (f : localcontroller.World (E := E) -> localcontroller.World (E := E)) : Prop :=
  forall w, servable functionID target (fst w) -> records_of functionID (fst (f w)) = records_of functionID (fst w) /\ servable functionID target (fst (f w)).

Lemma leaves_holds m f w : Rely f -> leaves f -> holds m (fst w) -> holds m (fst (f w)).
Proof. intros Hrely Hl [Hc Hm Hs]. destruct (Hl w Hs) as [Hr Hs']. split; [by apply Hrely|congruence|done]. Qed.

Lemma nextCommand_holds m w : holds m (fst w) -> holds m (fst (fst (nextCommand w))).
Proof.
  intros [Hc Hm Hs]. pose proof (proj1 (nextCommand_Guarantees w Hc)) as Hc'. destruct (nextCommand_state w) as [Ew|(command & _ & Ew)]; rewrite Ew in *; by split.
Qed.

(** One record of another Function is written. *)
Lemma records_of_insert (m : gmap string AssignmentRecord) id record : ar_FunctionID record <> functionID ->
  (forall old, m !! id = Some old -> ar_FunctionID old <> functionID) ->
  filter (fun kv => ar_FunctionID (snd kv) = functionID) (<[id := record]> m) = filter (fun kv => ar_FunctionID (snd kv) = functionID) m.
Proof.
  intros Hn Hold. apply map_eq. intros j. apply option_eq. intros x. rewrite !map_lookup_filter_Some, lookup_insert. case_decide as Ej; [subst j|done]. naive_solver.
Qed.

Lemma on_assignments_holds {X} m context (f : Stores -> M AssignmentStore X) w : holds m (fst w) ->
  ctl_inv (fst (fst (with_stores (swrap context (on_assignments f)) w))) ->
  filter (fun kv => ar_FunctionID (snd kv) = functionID) (records (fst (f (controlplane.cp_stores (ctl_stores (fst w))) (controlplane.cp_assignments (ctl_stores (fst w)))))) = m ->
  holds m (fst (fst (with_stores (swrap context (on_assignments f)) w))).
Proof.
  intros [Hc Hm Hs] Hc' Hf. split; [exact Hc'| |]; unfold with_stores, swrap, on_assignments in *;
    destruct (f _ _) as [x y]; cbn in *; [exact Hf|]. exact Hs.
Qed.

Lemma CommitAssignment_holds m ctx meanwhile input w : Rely meanwhile -> leaves meanwhile -> ai_FunctionID input <> functionID -> holds m (fst w) ->
  holds m (fst (fst (CommitAssignment ctx meanwhile input w))).
Proof.
  intros Hrely Hl Hne Hh. unfold CommitAssignment. unfold sbind at 1, slift. destruct (checkContext ctx); [|done]. unfold sbind at 1.
  pose proof (nextCommand_holds m w Hh) as H1. destruct (nextCommand w) as [w1 [command|err]]; cbn [fst] in H1; [|done]. unfold sbind, interfere.
  pose proof (leaves_holds m meanwhile w1 Hrely Hl H1) as H2. cbv beta. set (w2 := meanwhile w1) in *. clearbody w2. clear H1 w1 Hh.
  apply on_assignments_holds; [done| |].
  - refine (proj1 (with_stores_Guarantees _ _ w2 (hd_inv _ _ H2))).
  - match goal with |- context [Install ?st ?c ?s] => destruct (Install st c s) as [s' [r|err]] eqn:Ei end; cbn [fst].
    + apply Install_Ok in Ei as (_ & -> & Hnew & _ & f & rt & t & v & d & _ & _ & _ & ->). cbn [records].
      rewrite <-(hd_records _ _ H2). apply records_of_insert; [done|]. intros old. by rewrite Hnew.
    + rewrite (Install_Atomic _ _ _ _ _ Ei). apply H2.
Qed.

Lemma CancelAssignment_holds m ctx meanwhile input w : Rely meanwhile -> leaves meanwhile -> m !! xi_AssignmentID input = None -> holds m (fst w) ->
  holds m (fst (fst (CancelAssignment ctx meanwhile input w))).
Proof.
  intros Hrely Hl Hne Hh. pose proof (proj1 (CancelAssignment_Guarantees ctx meanwhile input Hrely w (hd_inv _ _ Hh))) as Hc'. revert Hc'.
  unfold CancelAssignment. unfold sbind at 1 4, slift. destruct (checkContext ctx); [|done]. unfold sbind at 1 3.
  pose proof (nextCommand_holds m w Hh) as H1. destruct (nextCommand w) as [w1 [command|err]]; cbn [fst] in H1; [|done]. unfold sbind, interfere.
  pose proof (leaves_holds m meanwhile w1 Hrely Hl H1) as H2. cbv beta. set (w2 := meanwhile w1) in *. clearbody w2. clear H1 w1 Hh. intros Hc'.
  apply on_assignments_holds; [done|done|].
  match goal with |- context [Cancel ?c ?s] => destruct (Cancel c s) as [s' [r|err]] eqn:Ei end; cbn [fst].
  - apply Cancel_Ok in Ei as (record & Hr & _ & _ & -> & _ & _ & ->). cbn [records cn_AssignmentID] in *. rewrite <-(hd_records _ _ H2).
    assert (ar_FunctionID record <> functionID) as Hf.
    { intros Hf. assert (records_of functionID (fst w2) !! xi_AssignmentID input = Some record) as Hin by (by apply records_of_lookup).
      rewrite (hd_records _ _ H2) in Hin. congruence. }
    apply records_of_insert; [done|]. intros old Ho. rewrite Hr in Ho. by injection Ho as <-.
  - rewrite (Cancel_Atomic _ _ _ _ Ei). apply H2.
Qed.

(** [placeTarget] commits at most one Assignment, of the state's Function. *)
Lemma placeTarget_world ctx meanwhile state t worker (r r' : Runtime) x : placeTarget read ctx meanwhile state t worker r = (r', x) ->
  rt_session r' = rt_session r /\
  (rt_world r' = rt_world r /\ x <> Ok tt \/
   exists input y, ai_FunctionID input = md_ID (fn_Metadata (ss_Function state)) /\ CommitAssignment ctx meanwhile input (rt_world r) = (rt_world r', y) /\
     (x = Ok tt -> is_ok y = true)).
Proof.
  unfold placeTarget, sbind, on_ids, on_planner, attempt. destruct (swrap _ _ (rt_ids r)) as [ids1 [commandID|err]]; [|by intros [= <- <-]; auto]. cbn [rt_ids].
  destruct (swrap _ _ ids1) as [ids2 [assignmentID|err]]; [|by intros [= <- <-]; auto].
  destruct (ss_Version state) as [version|]; [|by intros [= <- <-]; auto]. destruct (ss_Deployment state) as [deployment|]; [|by intros [= <- <-]; auto]. cbn [rt_planner].
  destruct (swrap _ _ (rt_planner r)) as [p' [[d [err|]]|err]]; [by intros [= <- <-]; auto| |by intros [= <- <-]; auto]. unfold on_world. cbn [rt_world].
  match goal with |- context [CommitAssignment ctx meanwhile ?i _] => set (input := i) end.
  destruct (CommitAssignment ctx meanwhile input (rt_world r)) as [w' y] eqn:Hc. cbn [rt_planner rt_world]. destruct (Acknowledge _ p') as [p2 z]. cbn.
  destruct (localworker.join_all _) as [err|] eqn:Hj; intros [= <- <-]; (split; [done|]); right; exists input, y; (split; [done|]); (split; [done|]); [done|].
  intros _. apply localworker.join_all_None, app_eq_nil in Hj as [Hy _]. by destruct y.
Qed.

(** An iteration for another Function. *)
Lemma place_one_holds m ctx meanwhile live worker state (r r' : Runtime) failed : Rely meanwhile -> leaves meanwhile ->
  md_ID (fn_Metadata (ss_Function state)) <> functionID ->
  (forall other record, live !! other = Some record -> other <> functionID -> m !! localworker.ai_of record = None) ->
  place_one read ctx meanwhile live worker state r = (r', Ok failed) -> holds m (fst (rt_world r)) -> rt_session r' = rt_session r /\ holds m (fst (rt_world r')).
Proof.
  intros Hrely Hl Hne Hlive. unfold place_one. destruct (servableTarget state) as [t|]; [|by intros [= <- <-]].
  destruct (live !! _) as [record|] eqn:Hr.
  - destruct (placementMatchesTarget _ _ _); [by intros [= <- <-]|]. unfold sbind, attempt, sret, on_world. intros Hrun Hh.
    match type of Hrun with context [CancelAssignment ctx meanwhile ?i _] => pose proof (CancelAssignment_holds m ctx meanwhile i (rt_world r) Hrely Hl (Hlive _ _ Hr Hne) Hh) as H1 end.
    destruct (CancelAssignment _ _ _ _) as [w' x]. injection Hrun as <- _. by split.
  - unfold attempt. destruct (placeTarget read ctx meanwhile state t worker r) as [r1 x] eqn:Hp. intros [= <- _] Hh.
    destruct (placeTarget_world _ _ _ _ _ _ _ _ Hp) as [Hs [[-> _]|(input & y & Hf & Hc & _)]]; [done|]. split; [done|].
    pose proof (CommitAssignment_holds m ctx meanwhile input (rt_world r) Hrely Hl ltac:(congruence) Hh) as H1. by rewrite Hc in H1.
Qed.

(** The rest of a pass, when it has no state of the Function or a placement
    that it keeps. *)
Lemma place_loop_holds m ctx meanwhile live worker states : (forall n, Rely (meanwhile n)) -> (forall n, leaves (meanwhile n)) ->
  (forall other record, live !! other = Some record -> other <> functionID -> m !! localworker.ai_of record = None) ->
  (forall state, state ∈ states -> md_ID (fn_Metadata (ss_Function state)) = functionID -> servableTarget state = Some target /\
     exists record, live !! functionID = Some record /\ placementMatchesTarget (ar_Placement record) target (w_Session worker) = true) ->
  forall errs (r r' : Runtime) failures, settled (rt_planner r) -> place_loop read ctx meanwhile live worker errs states r = (r', Ok failures) ->
  holds m (fst (rt_world r)) -> rt_session r' = rt_session r /\ holds m (fst (rt_world r')) /\ (failures = [] -> errs = []).
Proof.
  intros Hrely Hl Hlive. induction states as [|state states IH]; intros Hstates errs r r' failures Hset; cbn [place_loop]; [by intros [= <- <-]|]. unfold sbind.
  destruct (place_one_run read (ctx (length states)) (meanwhile (length states)) live worker state r (Hrely _) Hset) as (r1 & failed & Hrun & Hsame & _). rewrite Hrun.
  intros Hloop Hh. assert (rt_session r1 = rt_session r /\ holds m (fst (rt_world r1))) as [Hs1 Hh1].
  { destruct (decide (md_ID (fn_Metadata (ss_Function state)) = functionID)) as [Hf|Hf]; [|by eapply place_one_holds].
    destruct (Hstates state ltac:(by left) Hf) as (Ht & record & Hrec & Hm). unfold place_one in Hrun. rewrite Ht, Hf, Hrec, Hm in Hrun. by injection Hrun as <- _. }
  assert (settled (rt_planner r1)) as Hset1 by (by rewrite (proj1 Hsame)).
  destruct (IH ltac:(intros st Hst; apply Hstates; by right) _ r1 r' failures Hset1 Hloop Hh1) as (Hs2 & Hh2 & He). split_and!; [congruence|done|].
  intros ->. by destruct (app_eq_nil _ _ (He eq_refl)).
Qed.

Lemma live_other m c other record : holds m c ->
  liveRecords (assignment.Snapshot (controlplane.cp_assignments (ctl_stores c))) !! other = Some record -> other <> functionID -> m !! localworker.ai_of record = None.
Proof.
  intros [Hc Hm _] (Hr & _)%liveRecords_newest Hne; [|done]. apply records_of_lookup in Hr as [Hr Hf]. destruct (m !! _) as [r2|] eqn:H2; [|done].
  rewrite <-Hm in H2. apply records_of_lookup in H2 as [H2 Hf2]. congruence.
Qed.

Lemma registryWorkerSnapshot_session registry session ctxErr worker : registryWorkerSnapshot registry session ctxErr = Ok worker -> w_Session worker = session.
Proof.
  unfold registryWorkerSnapshot. destruct ctxErr; [done|]. destruct (List.find _ _) as [view|] eqn:Hf; [|done]. intros [= <-].
  apply List.find_some in Hf as [_ Hf]. by go_cases.
Qed.

Lemma reads_holds {X} m meanwhile (f : Controller -> result X) (r : Runtime) : Rely meanwhile -> leaves meanwhile -> holds m (fst (rt_world r)) ->
  exists r', reads meanwhile f r = (r', f (fst (rt_world r'))) /\ same_but_world r r' /\ holds m (fst (rt_world r')).
Proof.
  intros Hrely Hl Hh. destruct (reads_run meanwhile f r Hrely) as (r' & Hr & Hs). exists r'. split_and!; [done|done|].
  unfold reads, on_world, sbind, sget, slift in Hr. injection Hr as <- _. by apply leaves_holds.
Qed.

(** A placement that matches is kept by the whole pass. *)
Lemma placeLocalAssignments_keeps m record t (r : Runtime) : (forall n, Rely (tn_others t n)) -> (forall n, Rely (tn_between t n)) ->
  (forall n, leaves (tn_others t n)) -> (forall n, leaves (tn_between t n)) -> settled (rt_planner r) ->
  newest m record -> placementMatchesTarget (ar_Placement record) target (rt_session r) = true -> holds m (fst (rt_world r)) ->
  holds m (fst (rt_world (fst (placeLocalAssignments read t r)))).
Proof.
  intros Ho Hb Hlo Hlb Hset Hnew Hmatch Hh. unfold placeLocalAssignments, sbind, swrap, sget, slift.
  destruct (reads_holds m (tn_others t 0) (ListServingStates (tn_ctx t 0)) r (Ho _) (Hlo _) Hh) as (r1 & -> & S1 & H1).
  unfold ListServingStates at 1. destruct (checkContext (tn_ctx t 0)); [|done]. cbn [rbind].
  destruct (ServingStates (controlplane.cp_stores (ctl_stores (fst (rt_world r1))))) as [states|] eqn:Hstates; [|done]. cbn [wrap_err].
  destruct (reads_holds m (tn_others t 1) (ListAssignments (tn_ctx t 1)) r1 (Ho _) (Hlo _) H1) as (r2 & -> & S2 & H2).
  unfold ListAssignments. destruct (checkContext (tn_ctx t 1)); [|done]. cbn [rbind wrap_err].
  destruct (registryWorkerSnapshot _ _ _) as [worker|] eqn:Hw; [|done]. cbn [wrap_err]. apply registryWorkerSnapshot_session in Hw.
  set (live := liveRecords _).
  assert (rt_session r2 = rt_session r /\ settled (rt_planner r2)) as [Hs2 Hset2].
  { destruct S1 as (P1 & _ & E1 & _), S2 as (P2 & _ & E2 & _). split; [congruence|by rewrite P2, P1]. }
  destruct (place_loop_run read (tn_loop t) (tn_between t) live worker states [] r2 Hb Hset2) as (r3 & failures & Hloop & _). rewrite Hloop.
  destruct (place_loop_holds m (tn_loop t) (tn_between t) live worker states Hb Hlb (fun other rec => live_other m _ other rec H2)) with (errs := @nil error) (r := r2) (r' := r3) (failures := failures)
    as (_ & H3 & _); [|done|done|done|by destruct (localworker.join_all failures)].
  intros state Hin Hf. split; [by eapply servable_unique; [apply H1|apply H1|..]|]. exists record. split; [|by rewrite Hw, Hs2].
  apply liveRecords_newest; [apply H2|]. by rewrite (hd_records _ _ H2).
Qed.

(** A pass that nobody interferes with. *)
Definition idle (f : localcontroller.World (E := E) -> localcontroller.World (E := E)) : Prop := forall w, f w = w.
Lemma idle_Rely f : idle f -> Rely f.
Proof. intros Hf w. by rewrite Hf. Qed.
Lemma idle_leaves f : idle f -> leaves f.
Proof. intros Hf w Hs. by rewrite Hf. Qed.

Lemma nextCommand_stores w w' x : nextCommand w = (w', x) -> ctl_stores (fst w') = ctl_stores (fst w).
Proof. intros Hn. destruct (nextCommand_state w) as [Ew|(command & _ & Ew)]; rewrite Hn in Ew; cbn [fst] in Ew; by rewrite Ew. Qed.

Lemma CommitAssignment_inserts ctx f input w w' record : idle f -> CommitAssignment ctx f input w = (w', Ok record) ->
  records (controlplane.cp_assignments (ctl_stores (fst w'))) = <[localworker.ai_of record := record]> (records (controlplane.cp_assignments (ctl_stores (fst w)))).
Proof.
  intros Hf. unfold CommitAssignment. unfold sbind at 1. unfold slift. destruct (checkContext ctx); [|done]. unfold sbind at 1.
  destruct (nextCommand w) as [w1 [command|err]] eqn:Hn; [|done]. apply nextCommand_stores in Hn. unfold sbind, interfere. rewrite Hf. unfold with_stores, swrap, on_assignments. rewrite Hn.
  match goal with |- context [Install ?st ?c ?s] => destruct (Install st c s) as [s' [r|err]] eqn:Ei; cbn [wrap_err]; [|done]; intros [= <- <-] end.
  by apply Install_Ok in Ei as (_ & -> & _ & _ & f' & rt & t & v & d & _ & _ & _ & ->).
Qed.
Lemma CancelAssignment_cancels ctx f input w w' record : idle f -> CancelAssignment ctx f input w = (w', Ok record) ->
  exists old command, records (controlplane.cp_assignments (ctl_stores (fst w))) !! xi_AssignmentID input = Some old /\ record = cancelled old command /\
    records (controlplane.cp_assignments (ctl_stores (fst w'))) = <[xi_AssignmentID input := record]> (records (controlplane.cp_assignments (ctl_stores (fst w)))).
Proof.
  intros Hf. unfold CancelAssignment. unfold sbind at 1. unfold slift. destruct (checkContext ctx); [|done]. unfold sbind at 1.
  destruct (nextCommand w) as [w1 [command|err]] eqn:Hn; [|done]. apply nextCommand_stores in Hn. unfold sbind, interfere. rewrite Hf. unfold with_stores, swrap, on_assignments. rewrite Hn.
  match goal with |- context [Cancel ?c ?s] => destruct (Cancel c s) as [s' [r|err]] eqn:Ei; cbn [wrap_err]; [|done]; intros [= <- <-]; eapply Cancel_Ok in Ei end.
  destruct Ei as (old & Hold & _ & _ & -> & _ & _ & ->). eexists old, _. by split_and!.
Qed.

(** Neither changes a serving state. *)
Lemma on_assignments_stores {X} context (g : Stores -> M AssignmentStore X) w :
  controlplane.cp_stores (ctl_stores (fst (fst (with_stores (swrap context (on_assignments g)) w)))) = controlplane.cp_stores (ctl_stores (fst w)).
Proof. unfold with_stores, swrap, on_assignments. by destruct (g _ _). Qed.
Lemma CommitAssignment_servable ctx f input w w' x : idle f -> CommitAssignment ctx f input w = (w', x) -> servable functionID target (fst w) -> servable functionID target (fst w').
Proof.
  intros Hf Hc. unfold servable. enough (controlplane.cp_stores (ctl_stores (fst w')) = controlplane.cp_stores (ctl_stores (fst w))) as -> by done. revert Hc.
  unfold CommitAssignment. unfold sbind at 1, slift. destruct (checkContext ctx); [|by intros [= <- _]]. unfold sbind at 1.
  destruct (nextCommand w) as [w1 [command|err]] eqn:Hn; apply nextCommand_stores in Hn; [|intros [= <- _]; by rewrite Hn]. unfold sbind, interfere. rewrite Hf, <-Hn.
  intros Hc. apply (f_equal (fun z => controlplane.cp_stores (ctl_stores (fst (fst z))))) in Hc. by rewrite on_assignments_stores in Hc.
Qed.
Lemma CancelAssignment_servable ctx f input w w' x : idle f -> CancelAssignment ctx f input w = (w', x) -> servable functionID target (fst w) -> servable functionID target (fst w').
Proof.
  intros Hf Hc. unfold servable. enough (controlplane.cp_stores (ctl_stores (fst w')) = controlplane.cp_stores (ctl_stores (fst w))) as -> by done. revert Hc.
  unfold CancelAssignment. unfold sbind at 1, slift. destruct (checkContext ctx); [|by intros [= <- _]]. unfold sbind at 1.
  destruct (nextCommand w) as [w1 [command|err]] eqn:Hn; apply nextCommand_stores in Hn; [|intros [= <- _]; by rewrite Hn]. unfold sbind, interfere. rewrite Hf, <-Hn.
  intros Hc. apply (f_equal (fun z => controlplane.cp_stores (ctl_stores (fst (fst z))))) in Hc. by rewrite on_assignments_stores in Hc.
Qed.

(** The Function's newest live record is a placement that matches, or is the
    superseded one, cancelled. *)
Definition settled_on (session : WorkerSession) (record : AssignmentRecord) (c : Controller) : Prop :=
  servable functionID target c /\ newest (records_of functionID c) record /\ placementMatchesTarget (ar_Placement record) target session = true.
Definition withdrawn (session : WorkerSession) (m : gmap string AssignmentRecord) (c : Controller) : Prop :=
  servable functionID target c /\ exists record record', newest m record /\ placementMatchesTarget (ar_Placement record) target session = false /\
    records_of functionID c !! localworker.ai_of record = Some record' /\ ar_DesiredState record' = AssignmentCancelled.

(** The iteration for the Function. *)
Lemma place_one_settles m ctx f live worker state (r r' : Runtime) : idle f -> settled (rt_planner r) -> holds m (fst (rt_world r)) ->
  md_ID (fn_Metadata (ss_Function state)) = functionID -> servableTarget state = Some target ->
  (forall record, live !! functionID = Some record <-> newest m record) ->
  (live !! functionID = None -> forall id record, m !! id = Some record -> ar_DesiredState record <> AssignmentAssigned) ->
  place_one read ctx f live worker state r = (r', Ok None) ->
  ctl_inv (fst (rt_world r')) /\ servable functionID target (fst (rt_world r')) /\
  ((exists record, settled_on (w_Session worker) record (fst (rt_world r'))) \/ withdrawn (w_Session worker) m (fst (rt_world r'))).
Proof.
  intros Hidle Hset [Hc Hm Hserv] Hid Ht Hlive Hnone Hrun.
  destruct (place_one_run read ctx f live worker state r (idle_Rely _ Hidle) Hset) as (r1 & failed & Hrun' & Hsame & Hplaced). rewrite Hrun in Hrun'. injection Hrun' as <- <-.
  destruct Hsame as (_ & _ & _ & _ & Hmoves). pose proof (proj1 (Hmoves Hc)) as Hc'. split; [done|]. revert Hrun. unfold place_one. rewrite Ht, Hid. rewrite Hid in Hplaced.
  destruct (live !! functionID) as [record|] eqn:Hl.
  - pose proof (proj1 (Hlive record) eq_refl) as Hnew. destruct (placementMatchesTarget _ _ _) eqn:Hmt.
    + intros [= <-]. split; [done|]. left. exists record. by rewrite <-Hm in Hnew.
    + unfold sbind, attempt, sret, on_world. match goal with |- context [CancelAssignment ctx f ?i _] => set (input := i) end.
      destruct (CancelAssignment ctx f input (rt_world r)) as [w' [cr|err]] eqn:Hca; [|done]. intros [= <-]. cbn [rt_world] in *.
      destruct (CancelAssignment_cancels _ _ _ _ _ _ Hidle Hca) as (old & command & Hold & -> & Hrec).
      split; [by eapply CancelAssignment_servable|]. right. split; [by eapply CancelAssignment_servable|].
      exists record, (cancelled old command). split_and!; [done|done| |done]. apply records_of_lookup. rewrite Hrec. cbn. split; [apply lookup_insert_eq|].
      destruct Hnew as (Hr & _). rewrite <-Hm in Hr. apply records_of_lookup in Hr as [Hr Hf]. unfold input in Hold. cbn in Hold. unfold localworker.ai_of in Hr. congruence.
  - unfold attempt. destruct (placeTarget read ctx f state target worker r) as [r1 [[]|err]] eqn:Hp; [|done]. intros [= ->].
    destruct (placeTarget_world _ _ _ _ _ _ _ _ Hp) as [_ [[_ []]|(input & y & Hf & Hco & Hok)]]; [done|]. specialize (Hok eq_refl).
    destruct y as [committed|]; [|done]. pose proof (CommitAssignment_inserts _ _ _ _ _ _ Hidle Hco) as Hins.
    split; [by eapply CommitAssignment_servable|]. left.
    destruct (Hplaced eq_refl target Ht eq_refl) as (record & Hr & Hs & Hfn & Hmt). exists record. split_and!; [by eapply CommitAssignment_servable| |done].
    split_and!; [by apply records_of_lookup|done|]. intros id other [Ho Hfo]%records_of_lookup Ha. left. rewrite Hins in Hr, Ho.
    assert (forall i x, <[localworker.ai_of committed := committed]> (records (controlplane.cp_assignments (ctl_stores (fst (rt_world r))))) !! i = Some x ->
      ar_FunctionID x = functionID -> ar_DesiredState x = AssignmentAssigned -> x = committed) as Hone.
    { intros i x Hx Hfx Hax. apply lookup_insert_Some in Hx as [[_ ->]|[_ Hx]]; [done|]. exfalso. eapply (Hnone eq_refl i x); [|done]. rewrite <-Hm. by apply records_of_lookup. }
    rewrite (Hone _ _ Ho Hfo Ha). symmetry. by eapply Hone.
Qed.

(** The store holds the record's ID for another Function. *)
Definition held_elsewhere (c : Controller) (id : string) : Prop :=
  exists record, records (controlplane.cp_assignments (ctl_stores c)) !! id = Some record /\ ar_FunctionID record <> functionID.
Lemma held_elsewhere_none c id : held_elsewhere c id -> records_of functionID c !! id = None.
Proof.
  intros (record & Hr & Hf). destruct (records_of functionID c !! id) as [other|] eqn:Ho; [|done]. apply records_of_lookup in Ho as [Ho Hfo]. congruence.
Qed.
Lemma held_elsewhere_moves c c' id : ctl_inv c -> moves c c' -> held_elsewhere c id -> held_elsewhere c' id.
Proof.
  intros Hc Hm (record & Hr & Hf). destruct (Hm Hc) as [_ Hev]. destruct (history.sk_assignments _ _ (history.rtc_keeps _ _ (ev_stores _ _ Hev) (cn_stores _ Hc)) _ _ Hr) as (record' & Hr' & He).
  exists record'. split; [done|]. by destruct He.
Qed.

Lemma place_loop_errs ctx meanwhile live worker states : forall errs (r r' : Runtime) failures,
  place_loop read ctx meanwhile live worker errs states r = (r', Ok failures) -> errs `prefix_of` failures.
Proof.
  induction states as [|state states IH]; intros errs r r' failures; cbn [place_loop]; [by intros [= _ <-]|]. unfold sbind.
  destruct (place_one _ _ _ _ _ _ _) as [r1 [failed|err]]; [|done]. intros Hp%IH. etrans; [by apply prefix_app_r|exact Hp].
Qed.

Lemma place_loop_settles m ctx f live worker states : (forall n, idle (f n)) ->
  (forall record, live !! functionID = Some record <-> newest m record) ->
  (live !! functionID = None -> forall id record, m !! id = Some record -> ar_DesiredState record <> AssignmentAssigned) ->
  NoDup ((fun state => md_ID (fn_Metadata (ss_Function state))) <$> states) ->
  (forall state, state ∈ states -> md_ID (fn_Metadata (ss_Function state)) = functionID -> servableTarget state = Some target) ->
  functionID ∈ (fun state => md_ID (fn_Metadata (ss_Function state))) <$> states ->
  forall (r r' : Runtime), settled (rt_planner r) -> holds m (fst (rt_world r)) ->
  (forall other record, live !! other = Some record -> other <> functionID -> held_elsewhere (fst (rt_world r)) (localworker.ai_of record)) ->
  place_loop read ctx f live worker [] states r = (r', Ok []) ->
  (exists record, settled_on (w_Session worker) record (fst (rt_world r'))) \/ withdrawn (w_Session worker) m (fst (rt_world r')).
Proof.
  intros Hidle Hlive Hnone. induction states as [|state states IH]; intros Hnd Hst Hin r r' Hset Hh Hother; [by apply not_elem_of_nil in Hin|].
  rewrite fmap_cons in Hnd, Hin. apply NoDup_cons in Hnd as [Hfresh Hnd]. cbn [place_loop]. unfold sbind.
  destruct (place_one_run read (ctx (length states)) (f (length states)) live worker state r (idle_Rely _ (Hidle _)) Hset) as (r1 & failed & Hrun & Hsame & _). rewrite Hrun.
  intros Hloop. assert (failed = None) as ->.
  { apply place_loop_errs in Hloop. destruct failed; [|done]. by apply prefix_nil_inv in Hloop. } cbn [option_list app] in Hloop.
  assert (settled (rt_planner r1)) as Hset1 by (by rewrite (proj1 Hsame)). destruct Hsame as (_ & _ & _ & _ & Hmoves).
  assert (forall other record, live !! other = Some record -> other <> functionID -> held_elsewhere (fst (rt_world r1)) (localworker.ai_of record)) as Hother1.
  { intros other record Hl Hne. eapply held_elsewhere_moves; [apply Hh|done|by eapply Hother]. }
  destruct (decide (md_ID (fn_Metadata (ss_Function state)) = functionID)) as [Hid|Hid].
  - destruct (place_one_settles m _ _ _ _ _ _ _ (Hidle _) Hset Hh Hid (Hst state ltac:(by left) Hid) Hlive Hnone Hrun) as (Hc1 & Hs1 & Hout).
    set (m1 := records_of functionID (fst (rt_world r1))). assert (holds m1 (fst (rt_world r1))) as Hh1 by (by split).
    destruct (place_loop_holds m1 ctx f live worker states (fun n => idle_Rely _ (Hidle n)) (fun n => idle_leaves _ (Hidle n))) with (errs := @nil error) (r := r1) (r' := r') (failures := @nil error)
      as (_ & [_ Hrec Hs2] & _); [| |done|done|done|].
    { intros other record Hl Hne. apply held_elsewhere_none. by eapply Hother1. }
    { intros st Hst' Hf. destruct Hfresh. rewrite Hid, <-Hf. by apply (list_elem_of_fmap_2 (fun state => md_ID (fn_Metadata (ss_Function state)))). }
    unfold settled_on, withdrawn in *. rewrite Hrec. destruct Hout as [(record & _ & Hout)|[_ Hout]]; [left; by exists record|by right].
  - apply elem_of_cons in Hin as [Hin|Hin]; [congruence|].
    destruct (place_one_holds m (ctx (length states)) (f (length states)) live worker state r r1 None (idle_Rely _ (Hidle _)) (idle_leaves _ (Hidle _)) Hid) as [_ Hh1]; [|exact Hrun|done|].
    + intros other record Hl Hne. rewrite <-(hd_records _ _ Hh). apply held_elsewhere_none. by eapply Hother.
    + apply (IH Hnd ltac:(intros st Hin'; apply Hst; by right) Hin r1 r' Hset1 Hh1 Hother1 Hloop).
Qed.

(** Both conditions on what others do during a pass. *)
Definition turn_leaves (t : turn (E := E)) : Prop := (forall n, leaves (tn_others t n)) /\ (forall n, leaves (tn_between t n)).
Definition turn_idle (t : turn (E := E)) : Prop := (forall n, idle (tn_others t n)) /\ (forall n, idle (tn_between t n)).

(** A pass without an error settles the Function or withdraws what is superseded. *)
Lemma placeLocalAssignments_settles m t (r r' : Runtime) : turn_idle t -> settled (rt_planner r) -> holds m (fst (rt_world r)) ->
  placeLocalAssignments read t r = (r', Ok tt) ->
  (exists record, settled_on (rt_session r) record (fst (rt_world r'))) \/ withdrawn (rt_session r) m (fst (rt_world r')).
Proof.
  intros [Hidle Hbetween] Hset Hh. unfold placeLocalAssignments, sbind, swrap, sget, slift.
  destruct (reads_holds m (tn_others t 0) (ListServingStates (tn_ctx t 0)) r (idle_Rely _ (Hidle _)) (idle_leaves _ (Hidle _)) Hh) as (r1 & -> & S1 & H1).
  unfold ListServingStates at 1. destruct (checkContext (tn_ctx t 0)); [|done]. cbn [rbind].
  destruct (ServingStates (controlplane.cp_stores (ctl_stores (fst (rt_world r1))))) as [states|] eqn:Hstates; [|done]. cbn [wrap_err].
  destruct (reads_holds m (tn_others t 1) (ListAssignments (tn_ctx t 1)) r1 (idle_Rely _ (Hidle _)) (idle_leaves _ (Hidle _)) H1) as (r2 & -> & S2 & H2).
  unfold ListAssignments. destruct (checkContext (tn_ctx t 1)); [|done]. cbn [rbind wrap_err].
  destruct (registryWorkerSnapshot _ _ _) as [worker|] eqn:Hw; [|done]. cbn [wrap_err]. apply registryWorkerSnapshot_session in Hw.
  assert (rt_session r2 = rt_session r /\ settled (rt_planner r2)) as [Hs2 Hset2].
  { destruct S1 as (P1 & _ & E1 & _), S2 as (P2 & _ & E2 & _). split; [congruence|by rewrite P2, P1]. }
  set (live := liveRecords _).
  destruct (place_loop_run read (tn_loop t) (tn_between t) live worker states [] r2 (fun n => idle_Rely _ (Hbetween n)) Hset2) as (r3 & failures & Hloop & _). rewrite Hloop.
  destruct (localworker.join_all failures) eqn:Hj; intros [= <-]. apply localworker.join_all_None in Hj as ->. rewrite <-Hs2, <-Hw.
  eapply (place_loop_settles m (tn_loop t) (tn_between t) live worker states Hbetween) with (r := r2); [| |by eapply serving_ids_NoDup; [apply H1|]| | |done|done| |done].
  - intros record. rewrite <-(hd_records _ _ H2). apply liveRecords_newest, H2.
  - intros Hn id record Hr. rewrite <-(hd_records _ _ H2) in Hr. eapply liveRecords_none; [apply H2|exact Hn|exact Hr].
  - intros state Hin Hf. by eapply servable_unique; [apply H1|apply H1|..].
  - destruct (hd_servable _ _ H1) as (states' & state & Hs' & Hin & <- & _). rewrite Hstates in Hs'. injection Hs' as <-.
    by apply (list_elem_of_fmap_2 (fun state => md_ID (fn_Metadata (ss_Function state)))).
  - intros other record (Hr & _)%liveRecords_newest Hne; [|apply H2]. apply records_of_lookup in Hr as [Hr Hf]. exists record. split; [done|congruence].
Qed.

(** The other steps of a convergence only let others act. *)
Lemma reconcileStep_holds m t (r : Runtime) : (forall n, Rely (tn_others t n)) -> (forall n, leaves (tn_others t n)) -> holds m (fst (rt_world r)) ->
  rt_session (fst (reconcileStep t r)) = rt_session r /\ holds m (fst (rt_world (fst (reconcileStep t r)))).
Proof.
  intros Ho Hl Hh. unfold reconcileStep, sbind, value, sget.
  destruct (reads_holds m (tn_others t 2) (ListAssignments (tn_ctx t 3)) r (Ho _) (Hl _) Hh) as (r1 & -> & (_ & _ & E1 & _) & H1).
  destruct (reads_holds m (tn_others t 3) (ListServingStates (tn_ctx t 4)) r1 (Ho _) (Hl _) H1) as (r2 & -> & (_ & _ & E2 & _) & H2).
  unfold on_reconciler, on_sync. rewrite <-E1, <-E2. by destruct (match sy_candidates _ with Some _ => _ | None => _ end).
Qed.
Lemma syncStep_holds m t (r : Runtime) : (forall n, Rely (tn_others t n)) -> (forall n, leaves (tn_others t n)) -> holds m (fst (rt_world r)) ->
  rt_session (fst (syncStep t r)) = rt_session r /\ holds m (fst (rt_world (fst (syncStep t r)))).
Proof.
  intros Ho Hl Hh. unfold syncStep, sbind, value, sget.
  destruct (reads_holds m (tn_others t 4) (ListServingStates (tn_ctx t 7)) r (Ho _) (Hl _) Hh) as (r1 & -> & (_ & _ & E1 & _) & H1).
  unfold attempt, on_sync. cbn [rt_sync]. rewrite <-E1. by destruct (FullSync _ _ _ _ _ _).
Qed.
End frame.

(** ** The whole system *)
Section system.
Context `{HJ : JCS} {E File Reader : Type} `{HE : !localcontroller.Sources E File Reader}.
Context {A : Type} `{HA : localworker.AgentOps A} {R : Type} (read : Z -> M R (list Z)).
#[local] Abbreviation World := (localcontroller.World (E := E)).
#[local] Abbreviation Runtime := (Runtime (E := E) (A := A) (R := R)).
#[local] Existing Instance local_candidates.
#[local] Existing Instance same_but_world_preorder.
Import localcontroller.

Definition store_records (c : Controller) : gmap string AssignmentRecord := records (controlplane.cp_assignments (ctl_stores c)).

(** The control plane holds the record, or a later state of it. *)
Definition backed (c : Controller) (record : AssignmentRecord) : Prop :=
  exists r, store_records c !! localworker.ai_of record = Some r /\ assignment.Identity r = assignment.Identity record /\ ar_FunctionID r = ar_FunctionID record.

Lemma atomic_backed s s' id r : controlplane.atomic_step s s' -> records (controlplane.cp_assignments s) !! id = Some r ->
  exists r', records (controlplane.cp_assignments s') !! id = Some r' /\ assignment.Identity r' = assignment.Identity r /\ ar_FunctionID r' = ar_FunctionID r.
Proof.
  assert (forall r', record_evolves r r' -> assignment.Identity r' = assignment.Identity r /\ ar_FunctionID r' = ar_FunctionID r) as Hev by (by destruct 1).
  intros [o s0|command s0] Hr; [|by exists r]. destruct o; try (by exists r).
  - destruct (assignment_step_record (controlplane.cp_assignments s0) (OpInstall (controlplane.cp_stores s0) command) id r Hr) as (r' & Hr' & He). exists r'. by auto.
  - destruct (assignment_step_record (controlplane.cp_assignments s0) (OpCancel command) id r Hr) as (r' & Hr' & He). exists r'. by auto.
Qed.
Lemma evolves_backed c c' record : evolves c c' -> backed c record -> backed c' record.
Proof.
  intros Hev (r & Hr & Hi & Hf). pose proof (ev_stores _ _ Hev) as Hs. unfold backed, store_records in *. revert r Hr Hi Hf.
  induction Hs as [s|s1 s2 s3 Hstep _ IH]; intros r Hr Hi Hf; [by exists r|].
  destruct (atomic_backed _ _ _ _ Hstep Hr) as (r' & Hr' & Hi' & Hf'). apply (IH r'); congruence.
Qed.

Lemma listed_backed ctx c l : ctl_inv c -> ListAssignments ctx c = Ok l -> Forall (backed c) l.
Proof.
  unfold ListAssignments. intros Hc Hl. destruct (checkContext ctx); [|done]. injection Hl as <-. apply Forall_forall. intros record Hin.
  unfold assignment.Snapshot, assignment.snapshot_in in Hin. apply elem_of_SortFunc, list_elem_of_fmap in Hin as ([id r] & -> & Hr%elem_of_map_to_list).
  exists r. split_and!; try done. cbn. unfold localworker.ai_of. by rewrite (rok_id _ _ (as_record _ (controlplane.cp_assignments_inv _ (cn_stores _ Hc)) _ _ Hr)).
Qed.

Record rt_inv (connection : ControlConnection) (r : Runtime) : Prop := {
  ri_controller : ctl_inv (fst (rt_world r));
  ri_planner : settled (rt_planner r);
  ri_system : exists history, sys_inv connection defaultEndpoint history (rt_sync r) /\ Forall (backed (fst (rt_world r))) history;
}.

Lemma same_inv connection r r' : same_but_world r r' -> rt_inv connection r -> rt_inv connection r'.
Proof.
  intros (Hp & _ & _ & Hs & Hm) [Hc Hset (history & Hsys & Hb)]. destruct (Hm Hc) as [Hc' Hev]. split; [done|by rewrite Hp|]. exists history. rewrite Hs.
  split; [done|]. eapply Forall_impl; [exact Hb|]. intros record. by apply evolves_backed.
Qed.

(** A step of the composed serving path that lists backed records. *)
Lemma sys_step_rt_inv connection r o : rt_inv connection r -> sys_typed o -> Forall (backed (fst (rt_world r))) (sys_listed [o]) ->
  rt_inv connection {| rt_world := rt_world r; rt_planner := rt_planner r; rt_ids := rt_ids r; rt_registry := rt_registry r; rt_session := rt_session r;
    rt_sync := sys_step (rt_sync r) o |}.
Proof.
  intros [Hc Hset (history & Hsys & Hb)] Hty Hl. split; cbn; [done|done|]. exists (history ++ sys_listed [o]). split; [by apply sys_step_inv|by apply Forall_app].
Qed.

Lemma on_reconciler_step {X} dflt (m : M (localworker.Reconciler (A := A)) X) o (r : Runtime) c : sy_candidates (rt_sync r) = Some c ->
  (forall rc, fst (m rc) = localworker.apply_op o rc) ->
  fst (on_reconciler dflt m r) = {| rt_world := rt_world r; rt_planner := rt_planner r; rt_ids := rt_ids r; rt_registry := rt_registry r; rt_session := rt_session r;
    rt_sync := sys_step (rt_sync r) (SysWorker o) |}.
Proof.
  intros Hc Hm. unfold on_reconciler, on_sync. cbn [sys_step]. rewrite Hc. specialize (Hm (ls_reconciler c)). destruct (m (ls_reconciler c)) as [rc x]. cbn in *. by rewrite Hm.
Qed.

Definition others_ok (t : turn (E := E)) : Prop := (forall n, Rely (tn_others t n)) /\ (forall n, Rely (tn_between t n)).

Lemma registry_inv {X} connection (m : M workerregistry.Registry X) r : rt_inv connection r -> rt_inv connection (fst (on_registry m r)).
Proof. intros [Hc Hset Hs]. unfold on_registry. destruct (m (rt_registry r)). by split. Qed.

Lemma reconcileStep_inv connection t r : others_ok t -> rt_inv connection r -> exists r' failed, reconcileStep t r = (r', Ok failed) /\ rt_inv connection r'.
Proof.
  intros [Ho _] Hr. unfold reconcileStep, sbind, value, sget.
  destruct (reads_run (tn_others t 2) (ListAssignments (tn_ctx t 3)) r (Ho _)) as (r1 & -> & H1). pose proof (same_inv _ _ _ H1 Hr) as Hr1. clear Hr H1.
  set (assignments := ListAssignments (tn_ctx t 3) (fst (rt_world r1))). assert (Forall (backed (fst (rt_world r1))) (localworker.listed assignments)) as Hl.
  { subst assignments. destruct (ListAssignments _ _) as [l|] eqn:El; [|done]. by eapply listed_backed; [apply Hr1|]. }
  destruct (reads_run (tn_others t 3) (ListServingStates (tn_ctx t 4)) r1 (Ho _)) as (r2 & -> & H2). pose proof (same_inv _ _ _ H2 Hr1) as Hr2.
  assert (Forall (backed (fst (rt_world r2))) (localworker.listed assignments)) as Hl2.
  { eapply Forall_impl; [exact Hl|]. intros record. apply evolves_backed. by apply H2, Hr1. }
  set (states := ListServingStates _ _). set (worker := registryWorkerSnapshot _ _ _). destruct Hr2 as [Hc2 Hp2 (history & Hsys & Hb)].
  destruct (sy_source _ _ _ _ Hsys) as (c & Hsc & Hrc & _).
  set (o := localworker.OpReconcile (A := A) (tn_ctx t 6) (tn_reconcile t) assignments states worker).
  pose proof (on_reconciler_step (Ok None) (localworker.Reconcile (tn_ctx t 6) (tn_reconcile t) assignments states worker) o r2 c Hsc (fun _ => eq_refl)) as Hstep.
  destruct (localworker.Reconcile_run _ _ _ (tn_ctx t 6) (tn_reconcile t) assignments states worker _ Hrc) as (rc & failed & Hrun & _).
  assert (exists r', on_reconciler (Ok None) (localworker.Reconcile (tn_ctx t 6) (tn_reconcile t) assignments states worker) r2 = (r', Ok failed)) as [r' Hr'].
  { unfold on_reconciler, on_sync. rewrite Hsc, Hrun. by eexists. }
  exists r', failed. split; [done|]. rewrite Hr' in Hstep. cbn [fst] in Hstep. rewrite Hstep. apply sys_step_rt_inv; [by split; [..|exists history]|done|].
  rewrite sys_listed_one. unfold localworker.listings. cbn. by rewrite app_nil_r.
Qed.

Lemma syncStep_inv connection t r : others_ok t -> rt_inv connection r -> exists r' failed, syncStep t r = (r', Ok failed) /\ rt_inv connection r'.
Proof.
  intros [Ho _] Hr. unfold syncStep, sbind, value, sget.
  destruct (reads_run (tn_others t 4) (ListServingStates (tn_ctx t 7)) r (Ho _)) as (r1 & -> & H1). pose proof (same_inv _ _ _ H1 Hr) as Hr1.
  set (states := ListServingStates _ _). unfold on_sync at 1. cbn [rt_sync rt_registry rt_session]. set (answers := fun n : nat => _).
  pose proof (sys_step_rt_inv _ _ (SysAnswers answers) Hr1 I ltac:(apply Forall_nil; exact I)) as Hr2.
  pose proof (sys_step_rt_inv _ _ (SysFull (tn_ctx t 8) (tn_sync t) states (tn_now t) (tn_clock t)) Hr2 I ltac:(apply Forall_nil; exact I)) as Hr3.
  cbn [rt_world rt_planner rt_ids rt_registry rt_session rt_sync] in *. unfold attempt, on_sync. cbn [rt_world rt_planner rt_ids rt_registry rt_session rt_sync].
  cbn [sys_step] in Hr3. destruct (FullSync _ _ _ _ _ _) as [s' x]. cbn [fst] in Hr3. eexists _, _. split; [done|exact Hr3].
Qed.

Lemma Converge_inv connection ctxErr t r : others_ok t -> rt_inv connection r -> rt_inv connection (fst (Converge read ctxErr t r)).
Proof.
  intros Ht Hr. unfold Converge. destruct ctxErr; [done|]. unfold sbind, sget, attempt at 1 2 3.
  match goal with |- context [on_registry ?m r] => pose proof (registry_inv connection m r Hr) as H1; destruct (on_registry m r) as [r1 x1]; cbn [fst] in H1 end.
  match goal with |- context [on_registry ?m r1] => pose proof (registry_inv connection m r1 H1) as H2; destruct (on_registry m r1) as [r2 x2]; cbn [fst] in H2 end.
  pose proof (placeLocalAssignments_run read t r2 (proj1 Ht) (proj2 Ht) (ri_planner _ _ H2)) as H3. destruct (placeLocalAssignments read t r2) as [r3 x3]. cbn [fst] in H3.
  apply (same_inv _ _ _ H3) in H2. destruct (reconcileStep_inv connection t r3 Ht H2) as (r4 & x4 & -> & H4).
  destruct (syncStep_inv connection t r4 Ht H4) as (r5 & x5 & -> & H5). by destruct (localworker.join_all _).
Qed.

Lemma New_rt_inv b ids r0 : localcore.New read b ids = Ok r0 -> exists connection, rt_inv connection r0 /\ cc_DiscoveryEpoch connection = 1.
Proof.
  unfold localcore.New. destruct (sources.NewID read "boot" ids) as [ids1 [bootID|]]; [|done]. cbn [wrap_err rbind].
  destruct (sources.NewID read "connection" ids1) as [ids2 [connectionID|]]; [|done]. cbn [wrap_err rbind].
  set (connection := {| cc_ConnectionID := connectionID |}). intros (worker & _ & Hn)%rbind_Ok. apply rbind_Ok in Hn as (registry & _ & Hn).
  apply rbind_Ok in Hn as (planner & Hp & Hn). destruct (InstallBarrier localCoreBarrier planner) as [planner' installed] eqn:Hi.
  apply rbind_Ok in Hn as (u & Hu & Hn). apply rbind_Ok in Hn as (reconciler & Hrec & Hn). apply rbind_Ok in Hn as (builder & _ & Hn).
  apply rbind_Ok in Hn as (publisher & Hpub & Hn). apply rbind_Ok in Hn as (store & Hst & Hn). apply rbind_Ok in Hn as (synchronizer & Hsync & Hn).
  apply wrap_err_Ok in Hp, Hu, Hrec, Hpub, Hst, Hsync. apply Ok_inj in Hn. subst r0. exists connection. split; [|done].
  destruct (sync_New_ok 1 _ _ _ _ _ _ _ ltac:(lia) Hpub Hst Hsync) as (Hok & _ & _ & Hc & Hv). split; cbn [rt_world rt_planner rt_sync fst]; [apply New_inv| |].
  - apply Ok_inj in Hp. subst planner. injection Hi as <- _. done.
  - exists []. split; [|by apply Forall_nil]. split; [done|]. eexists. split; [exact Hc|]. split; [by eapply localworker.NewReconciler_inv|].
    rewrite Hv. intros id snapshot e El. by rewrite lookup_empty in El.
Qed.

(** What happens in the process: convergence passes, other callers of the
    controller, the Gateway's calls, the agent's own goroutines. *)
Inductive rt_op :=
| RtConverge (ctxErr : option error) (t : turn (E := E))
| RtOthers (f : localcontroller.World (E := E) -> localcontroller.World (E := E))
| RtGateway (o : gatewaydiscovery.gateway_op)
| RtAgent (a : A).
Definition rt_typed (o : rt_op) : Prop :=
  match o with
  | RtConverge _ t => others_ok t
  | RtOthers f => Rely f
  | RtGateway (gatewaydiscovery.OpApply _ _) => False
  | _ => True
  end.
Definition with_sync (s : System (A := A)) (r : Runtime) : Runtime :=
  {| rt_world := rt_world r; rt_planner := rt_planner r; rt_ids := rt_ids r; rt_registry := rt_registry r; rt_session := rt_session r; rt_sync := s |}.
Definition rt_step (r : Runtime) (o : rt_op) : Runtime :=
  match o with
  | RtConverge ctxErr t => fst (Converge read ctxErr t r)
  | RtOthers f => fst (on_world (fun w => (f w, Ok tt)) r)
  | RtGateway o => with_sync (sys_step (rt_sync r) (SysGateway o)) r
  | RtAgent a => with_sync (sys_step (rt_sync r) (SysWorker (localworker.OpAgent a))) r
  end.
Definition rt_run (r : Runtime) (ops : list rt_op) : Runtime := foldl rt_step r ops.

Lemma rt_step_inv connection r o : rt_typed o -> rt_inv connection r -> rt_inv connection (rt_step r o).
Proof.
  intros Hty Hr. destruct o as [ctxErr t|f|o|a]; cbn [rt_step].
  - by apply Converge_inv.
  - eapply same_inv; [|exact Hr]. apply (interfere_Guarantees f Hty) || (apply on_world_same; intros w; apply Hty).
  - apply sys_step_rt_inv; [done|done|]. rewrite sys_listed_one. by apply Forall_nil.
  - apply sys_step_rt_inv; [done|done|]. rewrite sys_listed_one. by apply Forall_nil.
Qed.
Lemma rt_run_inv connection ops : forall r, Forall rt_typed ops -> rt_inv connection r -> rt_inv connection (rt_run r ops).
Proof. induction ops as [|o ops IH]; intros r; [done|]. intros [Ho Hops]%Forall_cons Hr. by apply IH, rt_step_inv. Qed.

(** C4: End to end, the Gateway routes only to placements that the control plane
    committed for an admitted Version.  Start a runtime and let convergence
    passes run, cancelled or failing at any of their steps, while other callers
    use the controller, also between any two steps of a pass, the Gateway looks
    up and suppresses Endpoints, and the agent's goroutines run.  Every Endpoint
    that a lookup for a Function then returns is a record of the Assignment
    store: the store holds it under the Endpoint's Assignment ID, with exactly
    the Endpoint's identity and for exactly this Function, and the record agrees
    with a Ready Version of the Function and its Deployment in artifact, epoch,
    generation, memory and in the digest of the effective policy. *)
Theorem traffic_reaches_admitted_versions b ids r0 ops clock functionID st' view e :
  localcore.New read b ids = Ok r0 -> Forall rt_typed ops ->
  let r := rt_run r0 ops in
  gatewaydiscovery.Lookup clock functionID (sy_store (rt_sync r)) = (st', Ok view) -> e ∈ gatewaydiscovery.vw_Endpoints view ->
  exists record v d, store_records (fst (rt_world r)) !! ai_AssignmentID (discovery.en_Assignment e) = Some record /\
    assignment.Identity record = discovery.en_Assignment e /\ ar_FunctionID record = functionID /\
    placement_ok (st_releases (controlplane.cp_stores (ctl_stores (fst (rt_world r))))) record v d /\
    discovery.en_Address e = defaultEndpoint /\ discovery.sn_DiscoveryEpoch (gatewaydiscovery.vw_Snapshot view) = 1.
Proof.
  intros Hnew Hty r Hl Hin. destruct (New_rt_inv _ _ _ Hnew) as (connection & Hinv & Hepoch). apply (rt_run_inv connection ops r0 Hty) in Hinv. fold r in Hinv.
  destruct Hinv as [Hc _ (history & Hsys & Hb)]. destruct (sy_source _ _ _ _ Hsys) as (c & _ & _ & Hview).
  apply gatewaydiscovery.Lookup_Ok in Hl as (_ & _ & _ & _ & fr & Hl & _ & ->). apply (gatewaydiscovery.visible_spec _ _ _ _ Hl) in Hin as [Hin _].
  destruct (Hview functionID (gatewaydiscovery.fr_snapshot fr) e) as (record & Hr & _ & Hf & Hi & _ & He & Ha);
    [unfold gatewaydiscovery.snapshots_of; by rewrite lookup_fmap, Hl|done|].
  rewrite Forall_forall in Hb. destruct (Hb record Hr) as (stored & Hs & Hsi & Hsf). unfold store_records in Hs.
  destruct (controlplane.cp_placement _ (cn_stores _ Hc) _ _ Hs) as (v & d & Hpk). exists stored, v, d. split_and!; try congruence; [by rewrite Hi|].
  exact (eq_trans He Hepoch).
Qed.

(** A convergence keeps a placement that matches. *)
Lemma Converge_keeps functionID target m record ctxErr t (r : Runtime) : others_ok t -> turn_leaves functionID target t -> settled (rt_planner r) ->
  newest m record -> placementMatchesTarget (ar_Placement record) target (rt_session r) = true -> holds functionID target m (fst (rt_world r)) ->
  rt_session (fst (Converge read ctxErr t r)) = rt_session r /\ holds functionID target m (fst (rt_world (fst (Converge read ctxErr t r)))).
Proof.
  intros [Ho Hb] [Hlo Hlb] Hset Hnew Hm Hh. destruct (Converge read ctxErr t r) as [r' x] eqn:Hrun. cbn [fst]. revert Hrun. unfold Converge.
  destruct ctxErr; [by intros [= <- _]|]. unfold sbind, sget, attempt at 1 2 3, on_registry.
  destruct (workerregistry.Heartbeat _ _ _) as [g1 x1]. cbn [rt_registry rt_world rt_planner rt_ids rt_session rt_sync]. destruct (workerregistry.Evaluate _ _) as [g2 x2].
  cbn [rt_registry rt_world rt_planner rt_ids rt_session rt_sync]. set (r2 := {| rt_world := rt_world r |}).
  pose proof (placeLocalAssignments_keeps read functionID target m record t r2 Ho Hb Hlo Hlb Hset Hnew Hm Hh) as H3.
  pose proof (placeLocalAssignments_run read t r2 Ho Hb Hset) as (_ & _ & S3 & _). change (rt_session r2) with (rt_session r) in S3.
  destruct (placeLocalAssignments read t r2) as [r3 x3]. cbn [fst] in *.
  pose proof (reconcileStep_holds functionID target m t r3 Ho Hlo H3) as [S4 H4]. destruct (reconcileStep t r3) as [r4 [x4|e4]]; cbn [fst] in *; [|intros [= <- _]; split; [congruence|done]].
  pose proof (syncStep_holds functionID target m t r4 Ho Hlo H4) as [S5 H5]. destruct (syncStep t r4) as [r5 [x5|e5]]; cbn [fst] in *; [|intros [= <- _]; split; [congruence|done]].
  destruct (localworker.join_all _); intros [= <- _]; (split; [congruence|done]).
Qed.

(** A convergence that returns nil settles or withdraws. *)
Lemma Converge_settles functionID target m t (r r' : Runtime) : turn_idle t -> settled (rt_planner r) -> holds functionID target m (fst (rt_world r)) ->
  Converge read None t r = (r', Ok tt) -> rt_session r' = rt_session r /\
  ((exists record, settled_on functionID target (rt_session r) record (fst (rt_world r'))) \/ withdrawn functionID target (rt_session r) m (fst (rt_world r'))).
Proof.
  intros Hidle Hset Hh. unfold Converge. unfold sbind, sget, attempt at 1 2 3, on_registry.
  destruct (workerregistry.Heartbeat _ _ _) as [g1 x1]. cbn [rt_registry rt_world rt_planner rt_ids rt_session rt_sync]. destruct (workerregistry.Evaluate _ _) as [g2 x2].
  cbn [rt_registry rt_world rt_planner rt_ids rt_session rt_sync]. set (r2 := {| rt_world := rt_world r |}).
  assert (forall n, Rely (tn_others t n)) as Ho by (intros n; apply idle_Rely, Hidle). assert (forall n, Rely (tn_between t n)) as Hb by (intros n; apply idle_Rely, Hidle).
  pose proof (placeLocalAssignments_settles read functionID target m t r2) as Hp.
  pose proof (placeLocalAssignments_run read t r2 Ho Hb Hset) as (_ & _ & S3 & _ & M3). change (rt_session r2) with (rt_session r) in *.
  destruct (placeLocalAssignments read t r2) as [r3 x3]. cbn [fst] in *.
  destruct (M3 (hd_inv _ _ _ _ Hh)) as [Hc3 _]. destruct x3 as [[]|e3].
  2:{ destruct (reconcileStep t r3) as [r4 [x4|e4]]; [|done]. destruct (syncStep t r4) as [r5 [x5|e5]]; [|done]. destruct (localworker.join_all _) eqn:Hj; [done|].
      apply localworker.join_all_None in Hj. destruct x1, x2; done. }
  specialize (Hp r3 Hidle Hset Hh eq_refl). set (m3 := records_of functionID (fst (rt_world r3))).
  assert (servable functionID target (fst (rt_world r3))) as Hs3 by (by destruct Hp as [(? & ? & _)|(? & _)]).
  assert (holds functionID target m3 (fst (rt_world r3))) as H3 by (by split).
  assert (forall n, leaves functionID target (tn_others t n)) as Hl by (intros n; apply idle_leaves, Hidle).
  pose proof (reconcileStep_holds functionID target m3 t r3 Ho Hl H3) as [S4 H4]. destruct (reconcileStep t r3) as [r4 [x4|e4]]; cbn [fst] in *; [|done].
  pose proof (syncStep_holds functionID target m3 t r4 Ho Hl H4) as [S5 [_ Hrec Hs5]]. destruct (syncStep t r4) as [r5 [x5|e5]]; cbn [fst] in *; [|done].
  destruct (localworker.join_all _); [done|]. intros [= <-]. split; [congruence|]. unfold settled_on, withdrawn in *. rewrite Hrec.
  destruct Hp as [(record & _ & Hp)|[_ Hp]]; [left; by exists record|by right].
Qed.

(** C5: Placement neither leaks nor flaps.  Over any history of the process no
    decision of the planner stays behind, whether its commit succeeded or
    failed, so that the planner's capacity and the identifiers are free again for
    every pass.  When a convergence pass that nobody interferes with returns nil,
    every Function with a servable Route target is settled (the newest of its
    Assigned records is a placement on the Worker's session that matches the
    target), or the newest Assigned record it had did not match and is now
    cancelled, so that a later pass can replace it.  And a settled Function stays
    settled: the next whole pass, cancelled or failing anywhere, leaves all its
    Assignment records exactly as they are, whatever other callers do meanwhile
    that leaves this Function's records and Route target alone. *)
Theorem placement_settles b ids r0 ops :
  localcore.New read b ids = Ok r0 -> Forall rt_typed ops ->
  let r := rt_run r0 ops in
  p_decisions (rt_planner r) = ∅ /\ p_assignments (rt_planner r) = ∅ /\
  (forall t r' functionID target, turn_idle t -> Converge read None t r = (r', Ok tt) -> servable functionID target (fst (rt_world r)) ->
     (exists record, settled_on functionID target (rt_session r') record (fst (rt_world r'))) \/
     withdrawn functionID target (rt_session r') (records_of functionID (fst (rt_world r))) (fst (rt_world r'))) /\
  (forall ctxErr t functionID target record, others_ok t -> turn_leaves functionID target t ->
     settled_on functionID target (rt_session r) record (fst (rt_world r)) ->
     let r' := fst (Converge read ctxErr t r) in
     records_of functionID (fst (rt_world r')) = records_of functionID (fst (rt_world r)) /\
     settled_on functionID target (rt_session r') record (fst (rt_world r'))).
Proof.
  intros Hnew Hty r. destruct (New_rt_inv _ _ _ Hnew) as (connection & Hinv & _). apply (rt_run_inv connection ops r0 Hty) in Hinv. fold r in Hinv.
  destruct Hinv as [Hc [Hd Ha] _]. split_and!; [done|done| |].
  - intros t r' functionID target Hidle Hrun Hserv.
    destruct (Converge_settles functionID target _ t r r' Hidle (conj Hd Ha) (Build_holds _ _ _ _ Hc eq_refl Hserv) Hrun) as [-> Hout]. exact Hout.
  - intros ctxErr t functionID target record Hok Hl (Hserv & Hn & Hm).
    destruct (Converge_keeps functionID target _ record ctxErr t r Hok Hl (conj Hd Ha) Hn Hm (Build_holds _ _ _ _ Hc eq_refl Hserv)) as [Hs [_ Hrec Hserv']].
    cbv zeta. unfold settled_on. rewrite Hrec, Hs. by split_and!.
Qed.
End system.

(** ** Witnesses: a Function published by another caller, converged and looked up *)
#[local] Existing Instances release.ex_jcs operations.ex_sources localworker.ex_agent_ops local_candidates.
Import localcontroller.

Definition ex_read (n : Z) : M Z (list Z) := fun k => (k + 1, Ok (replicate (Z.to_nat n) k)).
Definition ex_boot : boot (E := Z) (A := list agent.Observation) :=
  {| bo_workerID := "local-worker"; bo_memoryMiB := 512; bo_slots := 4;
     bo_registry := {| workerregistry.cf_HeartbeatInterval := 0; workerregistry.cf_SuspectAfter := 0; workerregistry.cf_UnavailableAfter := 0; workerregistry.cf_MaxWorkers := 0 |};
     bo_profile := {| wasmprofile.p_Engine := wasmprofile.EngineCompiler; wasmprofile.p_MemoryLimitMiB := 64 |}; bo_goos := "linux"; bo_goarch := "amd64"; bo_env := 200;
     bo_agent := fun _ => []; bo_answers := fun _ => (None, Err (PlainError "")); bo_created := 0; bo_registered := 0; bo_reported := 0; bo_elapsed := 0 |}.

(** The control-plane commands that create, admit and publish a Function. *)
Definition ex_commands (s : controlplane.State) : controlplane.State :=
  controlplane.run (controlplane.DoPublish (ex_publish "route_1" 0))
    (controlplane.run (controlplane.DoCompleteValidation (release.ex_complete "val_1"))
      (controlplane.run (controlplane.DoStartValidation release.ex_start)
        (controlplane.create_version release.ex_create_version (controlplane.run (controlplane.DoCreateFunction catalog.ex_create) s)))).
Definition ex_publishing (w : World (E := Z)) : World := fst (with_stores (fun s => (ex_commands s, Ok tt)) w).
Lemma ex_publishing_rely : Rely ex_publishing.
Proof.
  intros w. refine (with_stores_Guarantees (fun s => (ex_commands s, Ok tt)) _ w). intros s. cbn [fst]. unfold ex_commands.
  eapply rtc_l; [apply controlplane.atomic_run|]. eapply rtc_l; [apply controlplane.atomic_create_version|].
  eapply rtc_l; [apply controlplane.atomic_run|]. eapply rtc_l; [apply controlplane.atomic_run|]. apply rtc_once, controlplane.atomic_run.
Qed.

Definition ex_turn : turn (E := Z) :=
  {| tn_ctx := fun _ => None; tn_loop := fun _ => None; tn_others := fun _ w => w; tn_between := fun _ w => w; tn_reconcile := fun _ => None; tn_sync := fun _ => None;
     tn_candidates := fun _ => None; tn_heartbeat := 1; tn_evaluate := 2; tn_now := catalog.ex_at 300; tn_clock := 5 |}.
Definition ex_ops : list (rt_op (E := Z) (A := list agent.Observation)) := [RtOthers ex_publishing; RtConverge None ex_turn].
Lemma core_ops_typed : Forall rt_typed ex_ops.
Proof. apply Forall_cons. split; [exact ex_publishing_rely|]. apply Forall_singleton. split; intros n w; exact (fun H => conj H (reflexivity _)). Qed.
Definition ex_r0 : Runtime (E := Z) (A := list agent.Observation) (R := Z) := Eval vm_compute in
  match localcore.New ex_read ex_boot 7 with
  | Ok r => r
  | Err _ => {| rt_world := (New, 0); rt_planner := scheduler.ex_empty; rt_ids := 0; rt_registry := workerregistry.ex_registry; rt_session := w_Session localworker.ex_w;
                rt_sync := localserving.ex_sync |}
  end.
Lemma core_new : localcore.New ex_read ex_boot 7 = Ok ex_r0.
Proof. vm_compute. exact eq_refl. Qed.
Definition ex_view : gatewaydiscovery.View := Eval vm_compute in
  match snd (gatewaydiscovery.Lookup 6 "fn_1" (sy_store (rt_sync (rt_run ex_read ex_r0 ex_ops)))) with Ok v => v | Err _ => gatewaydiscovery.ex_view end.
Definition ex_endpoint : discovery.Endpoint := Eval vm_compute in List.hd localserving.ex_endpoint (gatewaydiscovery.vw_Endpoints ex_view).

Lemma traffic_reaches_admitted_versions_witness :
  gatewaydiscovery.vw_Endpoints ex_view = [ex_endpoint] /\
  exists record, store_records (fst (rt_world (rt_run ex_read ex_r0 ex_ops))) !! ai_AssignmentID (discovery.en_Assignment ex_endpoint) = Some record /\
    assignment.Identity record = discovery.en_Assignment ex_endpoint /\ ar_FunctionID record = "fn_1"%string.
Proof.
  split; [vm_compute; exact eq_refl|].
  destruct (gatewaydiscovery.Lookup 6 "fn_1" (sy_store (rt_sync (rt_run ex_read ex_r0 ex_ops)))) as [st' x] eqn:E.
  assert (x = Ok ex_view) as -> by (change x with (snd (st', x)); rewrite <-E; vm_compute; exact eq_refl).
  destruct (traffic_reaches_admitted_versions ex_read ex_boot 7 ex_r0 ex_ops 6 "fn_1" st' ex_view ex_endpoint core_new core_ops_typed E)
    as (record & v & d & Hr & Hi & Hf & _); [vm_compute; apply list_elem_of_here|].
  exists record. split; [exact Hr|]. split; [exact Hi|exact Hf].
Defined.

(** The Function is published and the first pass has not run yet; then one pass
    places it, and the next one keeps it. *)
#[local] Abbreviation ex_placing := (rt_run ex_read ex_r0 [RtOthers ex_publishing]).
#[local] Abbreviation ex_converged := (rt_run ex_read ex_r0 ex_ops).
Definition ex_target : RouteTarget := Eval vm_compute in default discovery.ex_target (servableTarget localworker.ex_state).
Lemma ex_turn_idle : turn_idle ex_turn.
Proof. split; intros n w; exact eq_refl. Qed.
Lemma ex_servable : servable "fn_1" ex_target (fst (rt_world ex_placing)).
Proof.
  exists localworker.ex_states, localworker.ex_state. split; [vm_compute; exact eq_refl|]. split; [exact localworker.ex_state_in|]. split; vm_compute; exact eq_refl.
Qed.
Lemma ex_unplaced : records_of "fn_1" (fst (rt_world ex_placing)) = ∅.
Proof. vm_compute. exact eq_refl. Qed.

Lemma placement_settles_witness :
  exists record, settled_on "fn_1" ex_target (rt_session ex_converged) record (fst (rt_world ex_converged)) /\
    records_of "fn_1" (fst (rt_world (fst (Converge ex_read None ex_turn ex_converged)))) = records_of "fn_1" (fst (rt_world ex_converged)).
Proof.
  destruct (placement_settles ex_read ex_boot 7 ex_r0 [RtOthers ex_publishing] core_new) as (_ & _ & Hsettles & _); [apply Forall_singleton; exact ex_publishing_rely|].
  assert (Converge ex_read None ex_turn ex_placing = (ex_converged, Ok tt)) as Hrun.
  { assert (is_ok (snd (Converge ex_read None ex_turn ex_placing)) = true) as Hok by (vm_compute; exact eq_refl).
    change ex_converged with (fst (Converge ex_read None ex_turn ex_placing)). destruct (Converge ex_read None ex_turn ex_placing) as [r1 [[]|err]]; [exact eq_refl|discriminate Hok]. }
  destruct (Hsettles ex_turn ex_converged "fn_1"%string ex_target ex_turn_idle Hrun ex_servable) as [[record Hrecord]|(_ & record & record' & (Hr & _) & _)].
  - exists record. split; [exact Hrecord|]. destruct (placement_settles ex_read ex_boot 7 ex_r0 ex_ops core_new core_ops_typed) as (_ & _ & _ & Hkeeps).
    cbv zeta in Hkeeps.
    assert (others_ok ex_turn) as Hok by (split; intros n; apply idle_Rely; intros w; exact eq_refl).
    assert (turn_leaves "fn_1" ex_target ex_turn) as Hleaves by (split; intros n; apply idle_leaves; intros w; exact eq_refl).
    destruct (Hkeeps None ex_turn "fn_1"%string ex_target record Hok Hleaves Hrecord) as [Hkept _]. exact Hkept.
  - rewrite ex_unplaced, lookup_empty in Hr. discriminate Hr.
Defined.

End localcore.
