(* ===== verification/Http.v ===== *)
(** * The parts of [net/http], [net/url], [net/textproto], [net] and [strings]
    behind the HTTP boundaries

    Header maps with canonical keys, the response a handler writes, bounded
    body reads, query strings and host names.  As in [Net], strings are worked
    on as bytes. *)
From stdpp Require Import base gmap strings list.
From S2P Require Import Prelude Json Model Net Abi Rpc.
Import model.

#[local] Open Scope Z_scope.

Module http.

(** ** [strings] *)

(** [strings.ToLower]: the dotted capital I (U+0130) and the Kelvin sign
    (U+212A) become ASCII letters; the image of any other rune outside ASCII
    is outside ASCII, which is all that comparisons with header names ask. *)
Fixpoint lower_codes (l : list Z) : list Z :=
  match l with
  | [] => []
  | b :: l' =>
    match l' with
    | c :: l2 =>
      if (b =? 0xC4) && (c =? 0xB0) then 105 :: lower_codes l2
      else match l2 with
      | d :: l3 => if (b =? 0xE2) && (c =? 0x84) && (d =? 0xAA) then 107 :: lower_codes l3 else abi.lower_byte b :: lower_codes l'
      | [] => abi.lower_byte b :: lower_codes l'
      end
    | [] => [abi.lower_byte b]
    end
  end.
Definition ToLower (s : string) : string := json.str_of (lower_codes (codes s)).

(** [strings.TrimSpace]: white space runes go from both ends.  Every iteration
    drops a byte, so the length is enough fuel. *)
Definition drop_rune (runes : list (list Z)) (l : list Z) : option (list Z) :=
  match List.find (fun r => net.starts_with r l) runes with
  | Some r => Some (drop (length r) l)
  | None => None
  end.
Fixpoint drop_spaces (fuel : nat) (runes : list (list Z)) (l : list Z) : list Z :=
  match fuel with
  | O => l
  | S fuel' => match drop_rune runes l with Some l' => drop_spaces fuel' runes l' | None => l end
  end.
Definition trim_codes (l : list Z) : list Z :=
  let l := drop_spaces (length l) net.space_runes l in
  rev (drop_spaces (length l) (map (@rev Z) net.space_runes) (rev l)).
Definition TrimSpace (s : string) : string := json.str_of (trim_codes (codes s)).

(** [strings.Cut] at a one-byte separator: before, after, found. *)
Definition Cut (sep : Z) (s : string) : string * string * bool :=
  match net.cut sep (codes s) with
  | Some (before, after) => (json.str_of before, json.str_of after, true)
  | None => (s, "", false)
  end.

(** [strings.CutPrefix] *)
Definition CutPrefix (p s : string) : string * bool :=
  if String.prefix p s then (String.substring (String.length p) (String.length s - String.length p) s, true)
  else (s, false).

(** [strings.Split] at a one-byte separator. *)
Definition Split (sep : Z) (s : string) : list string := map json.str_of (net.split sep (codes s)).

(** ** Headers *)

(** [textproto.CanonicalMIMEHeaderKey]: unchanged unless every byte is a token
    byte; else capitals at the start and after a hyphen, small letters
    elsewhere. *)
Fixpoint canonical_codes (upper : bool) (l : list Z) : list Z :=
  match l with
  | [] => []
  | b :: l' => (if upper then abi.upper_byte b else abi.lower_byte b) :: canonical_codes (b =? net.hyphen) l'
  end.
Definition CanonicalHeaderKey (s : string) : string :=
  if forallb token_class (codes s) then json.str_of (canonical_codes true (codes s)) else s.

(** [http.Header]; a nil slice of values reads as an empty one. *)
Abbreviation Header := (gmap string (list string)).

Definition Values (h : Header) (key : string) : list string := default [] (h !! CanonicalHeaderKey key).
Definition Get (h : Header) (key : string) : string := hd ""%string (Values h key).
Definition Set_ (key value : string) (h : Header) : Header := <[CanonicalHeaderKey key := [value]]> h.
Definition Add (key value : string) (h : Header) : Header := <[CanonicalHeaderKey key := Values h key ++ [value]]> h.

(** ** Requests and responses

    The context of a request is its deadline, if it has one. *)
Record Request := {
  hr_Method : string;
  hr_EscapedPath : string;
  hr_RawQuery : string;
  hr_Header : Header;
  hr_Body : rpc.Reader;
  hr_Deadline : option Time;
  hr_HTTP2 : bool;
}.

(** What a handler wrote: headers, the status once it is sent, the body. *)
Record ResponseWriter := { rw_Header : Header; rw_Status : option Z; rw_Body : string }.
Definition fresh : ResponseWriter := {| rw_Header := ∅; rw_Status := None; rw_Body := "" |}.
Definition header_set (key value : string) (w : ResponseWriter) : ResponseWriter :=
  {| rw_Header := Set_ key value (rw_Header w); rw_Status := rw_Status w; rw_Body := rw_Body w |}.
Definition header_add (key value : string) (w : ResponseWriter) : ResponseWriter :=
  {| rw_Header := Add key value (rw_Header w); rw_Status := rw_Status w; rw_Body := rw_Body w |}.
(** Only the first [WriteHeader] counts. *)
Definition WriteHeader (status : Z) (w : ResponseWriter) : ResponseWriter :=
  {| rw_Header := rw_Header w; rw_Status := match rw_Status w with Some s => Some s | None => Some status end; rw_Body := rw_Body w |}.
Definition Write (data : string) (w : ResponseWriter) : ResponseWriter :=
  {| rw_Header := rw_Header w; rw_Status := match rw_Status w with Some s => Some s | None => Some 200 end; rw_Body := rw_Body w +:+ data |}.

(** [io.ReadAll(http.MaxBytesReader(w, body, limit))]: a longer body is an
    error, after which an HTTP/1 server asks for the connection to be closed. *)
Definition MaxBytesError : error := PlainError "http: request body too large".
Definition ReadAll_MaxBytes (http2 : bool) (body : rpc.Reader) (limit : Z) (w : ResponseWriter) : ResponseWriter * result string :=
  if strlen (rpc.rd_bytes body) >? limit then
    ((if http2 then w else header_set "Connection" "close" w), Err MaxBytesError)
  else (w, match rpc.rd_err body with Some err => Err err | None => Ok (rpc.rd_bytes body) end).

(** ** [url.ParseQuery]

    [withinMax] is the runtime's limit on the number of parameters
    ([urlmaxqueryparams]). *)
Fixpoint query_unescape (l : list Z) : option (list Z) :=
  match l with
  | [] => Some []
  | b :: l' =>
    if b =? 37 then
      match l' with
      | h :: l0 :: l'' =>
        match abi.hex_value h, abi.hex_value l0, query_unescape l'' with
        | Some x, Some y, Some rest => Some (16 * x + y :: rest)
        | _, _, _ => None
        end
      | _ => None
      end
    else match query_unescape l' with Some rest => Some ((if b =? 43 then 32 else b) :: rest) | None => None end
  end.
Definition QueryUnescape (s : string) : option string := json.str_of <$> query_unescape (codes s).

(** The loop over the parts between ampersands; an error does not stop it, but
    the first one is returned. *)
Fixpoint parse_pairs (values : Header) (failed : bool) (parts : list string) : Header * bool :=
  match parts with
  | [] => (values, failed)
  | part :: parts' =>
    if abi.contains_any [59] part then parse_pairs values true parts'
    else if part == "" then parse_pairs values failed parts'
    else
      let '(key, value, _) := Cut 61 part in
      match QueryUnescape key with
      | None => parse_pairs values true parts'
      | Some key =>
        match QueryUnescape value with
        | None => parse_pairs values true parts'
        | Some value => parse_pairs (<[key := default [] (values !! key) ++ [value]]> values) failed parts'
        end
      end
  end.
Definition ParseQuery (withinMax : Z -> bool) (query : string) : result Header :=
  fail_if (negb (withinMax (len (Split 38 query)))) (PlainError "number of URL query parameters exceeded limit") ;;;
  let '(values, failed) := parse_pairs ∅ false (Split 38 query) in
  fail_if failed (PlainError "invalid query") ;;;
  Ok values.

Example ParseQuery_ex :
  ParseQuery (fun _ => true) "a=1&b=x%20y&a=2+3&&c" =
    Ok (<["c" := [""]]> (<["b" := ["x y"]]> {["a" := ["1"; "2 3"]]}))%string /\
  is_ok (ParseQuery (fun _ => true) "a=%zz") = false /\ is_ok (ParseQuery (fun _ => true) "a=1;b=2") = false.
Proof. split_and!; by vm_compute. Qed.

Example strings_ex :
  CanonicalHeaderKey "x-request-ID" = "X-Request-Id"%string /\ CanonicalHeaderKey "a b" = "a b"%string /\
  TrimSpace " 	x y  " = "x y"%string /\ Cut 47 "a/b/c" = ("a", "b/c", true)%string /\ CutPrefix "/invoke/" "/invoke/f" = ("f", true)%string.
Proof. split_and!; by vm_compute. Qed.

(** ** [net.ParseIP] and [IP.IsLoopback] *)
Definition octet_value (l : list Z) : option Z := if net.octet l then net.parse_digits 0 l else None.
Definition ipv4_bytes (l : list Z) : option (list Z) :=
  let parts := net.split net.dot l in
  if len parts =? 4 then mapM octet_value parts else None.

Definition hex_group (l : list Z) : Z := foldl (fun acc b => 16 * acc + default 0 (abi.hex_value b)) 0 l.

(** The sixteen bytes: [done_] are those filled, [ellipsis] where the zeros go. *)
Definition fill (done_ : list Z) (ellipsis : option nat) : option (list Z) :=
  match ellipsis with
  | None => if len done_ =? 16 then Some done_ else None
  | Some at_ =>
    if len done_ <? 16 then Some (take at_ done_ ++ repeat 0 (16 - length done_) ++ drop at_ done_) else None
  end.
Fixpoint ipv6_bytes (fuel : nat) (done_ : list Z) (ellipsis : option nat) (l : list Z) : option (list Z) :=
  match fuel with
  | O => if len l =? 0 then fill done_ ellipsis else None
  | S fuel' =>
    if len done_ >=? 16 then (if len l =? 0 then fill done_ ellipsis else None)
    else
      let '(group, rest) := net.span_hex l in
      if (len group =? 0) || (len group >? 4) then None
      else
        let filled := done_ ++ [hex_group group / 256; hex_group group mod 256] in
        match rest with
        | [] => fill filled ellipsis
        | c :: rest' =>
          if c =? net.dot then
            if bool_decide (ellipsis = None) && negb (len done_ =? 12) then None
            else if len done_ + 4 >? 16 then None
            else match ipv4_bytes l with Some quad => fill (done_ ++ quad) ellipsis | None => None end
          else if negb (c =? net.colon) then None
          else match rest' with
          | [] => None
          | c' :: rest'' =>
            if c' =? net.colon then
              if bool_decide (is_Some ellipsis) then None
              else match rest'' with
                   | [] => fill filled (Some (length filled))
                   | _ => ipv6_bytes fuel' filled (Some (length filled)) rest''
                   end
            else ipv6_bytes fuel' filled ellipsis rest'
          end
        end
  end.

(** An address with a zone is no IP; an IPv4 address is kept in sixteen bytes. *)
Definition ParseIP (l : list Z) : option (list Z) :=
  match net.first_separator l with
  | Some b =>
    if b =? net.dot then (fun quad => repeat 0 10 ++ [255; 255] ++ quad) <$> ipv4_bytes l
    else if (b =? net.colon) && negb (net.contains net.percent l) then
      match l with
      | 58 :: 58 :: [] => Some (repeat 0 16)
      | 58 :: 58 :: rest => ipv6_bytes 8 [] (Some O) rest
      | _ => ipv6_bytes 8 [] None l
      end
    else None
  | None => None
  end.

Definition IsLoopback (ip : list Z) : bool :=
  if bool_decide (take 12 ip = repeat 0 10 ++ [255; 255]) then nth 12 ip 0 =? 127
  else bool_decide (ip = repeat 0 15 ++ [1]).

Example ParseIP_ex :
  map (fun s => IsLoopback <$> ParseIP (codes s))
    ["127.0.0.1"; "127.9.8.7"; "::1"; "0:0:0:0:0:0:0:1"; "::ffff:127.0.0.1"; "10.0.0.1"; "::"; "2001:db8::1"; "::1%lo"; "localhost"; "127.1"]%string
  = [Some true; Some true; Some true; Some true; Some true; Some false; Some false; Some false; None; None; None].
Proof. by vm_compute. Qed.


(** ** Header names *)
Lemma token_class_ascii b : token_class b = true -> 0 <= b < 128.
Proof.
  unfold token_class, one_of. intros [H|H]%orb_true_iff.
  - apply existsb_exists in H as (x & Hx & ->%Z.eqb_eq).
    assert (Forall (fun x => 0 <= x < 128) (codes "!#$%&'*+.^_`|~-")) as Hall by (vm_compute; repeat constructor; done).
    rewrite Forall_forall in Hall. by apply Hall, list_elem_of_In.
  - unfold is_alnum, is_upper, is_lower, is_digit, in_range in H.
    repeat (apply orb_true_iff in H as [H|H]); apply andb_true_iff in H as [?%Z.leb_le ?%Z.leb_le]; lia.
Qed.

Lemma lower_codes_ascii l : Forall (fun b => 0 <= b < 128) l -> lower_codes l = map abi.lower_byte l.
Proof.
  induction l as [|b [|c l] IH]; intros Hl; [done..|]. cbn [lower_codes].
  pose proof (Forall_cons_1 _ _ _ Hl) as [Hb Hl']. pose proof (Forall_cons_1 _ _ _ Hl') as [Hc _].
  rewrite (proj2 (Z.eqb_neq b 0xC4)), (proj2 (Z.eqb_neq b 0xE2)) by lia. cbn [andb].
  change (map abi.lower_byte (b :: c :: l)) with (abi.lower_byte b :: map abi.lower_byte (c :: l)). rewrite <-(IH Hl'). by destruct l.
Qed.

Lemma lower_byte_range b : 0 <= b < 256 -> 0 <= abi.lower_byte b < 256.
Proof. unfold abi.lower_byte, is_upper, in_range. destruct (_ && _) eqn:E; go_cases; lia. Qed.
Lemma upper_byte_ascii b : 0 <= b < 128 -> 0 <= abi.upper_byte b < 128.
Proof. unfold abi.upper_byte, is_lower, in_range. destruct (_ && _) eqn:E; go_cases; lia. Qed.
Lemma lower_byte_ascii b : 0 <= b < 128 -> 0 <= abi.lower_byte b < 128.
Proof. unfold abi.lower_byte, is_upper, in_range. destruct (_ && _) eqn:E; go_cases; lia. Qed.
Lemma lower_lower b : abi.lower_byte (abi.lower_byte b) = abi.lower_byte b.
Proof.
  unfold abi.lower_byte, is_upper, in_range. destruct ((65 <=? b) && (b <=? 90)) eqn:E; [|by rewrite E].
  rewrite (proj2 (andb_false_iff _ _)); [done|]. go_cases. right. apply Z.leb_gt. lia.
Qed.
Lemma lower_upper b : abi.lower_byte (abi.upper_byte b) = abi.lower_byte b.
Proof.
  unfold abi.lower_byte, abi.upper_byte, is_upper, is_lower, in_range.
  destruct ((97 <=? b) && (b <=? 122)) eqn:E; [|done]. go_cases.
  rewrite (proj2 (andb_true_iff (65 <=? b - 32) (b - 32 <=? 90))) by (split; apply Z.leb_le; lia).
  rewrite (proj2 (andb_false_iff (65 <=? b) (b <=? 90))) by (right; apply Z.leb_gt; lia). lia.
Qed.

Lemma canonical_codes_ascii upper l : Forall (fun b => 0 <= b < 128) l -> Forall (fun b => 0 <= b < 128) (canonical_codes upper l).
Proof.
  intros H. revert upper. induction H as [|b l Hb Hl IH]; intros upper; cbn [canonical_codes]; constructor; [|apply IH].
  destruct upper; [by apply upper_byte_ascii|by apply lower_byte_ascii].
Qed.
Lemma canonical_codes_lower upper l : map abi.lower_byte (canonical_codes upper l) = map abi.lower_byte l.
Proof.
  revert upper. induction l as [|b l IH]; intros upper; [done|]. cbn [canonical_codes map]. rewrite IH. f_equal.
  destruct upper; [apply lower_upper|apply lower_lower].
Qed.

Lemma ascii_bytes l : Forall (fun b => 0 <= b < 128) l -> Forall (fun b => 0 <= b < 256) l.
Proof. intros H. eapply Forall_impl; [exact H|]. simpl. intros b Hb. lia. Qed.

(** Canonical form only changes the case of a name. *)
Lemma ToLower_canonical s : ToLower (CanonicalHeaderKey s) = ToLower s.
Proof.
  unfold CanonicalHeaderKey. destruct (forallb token_class (codes s)) eqn:E; [|done].
  assert (Forall (fun b => 0 <= b < 128) (codes s)) as Ha.
  { apply Forall_forall. intros b Hb. rewrite forallb_forall in E. by apply token_class_ascii, E, list_elem_of_In. }
  unfold ToLower. rewrite json.codes_str_of by (apply ascii_bytes; by apply canonical_codes_ascii).
  rewrite !lower_codes_ascii by (done || by apply canonical_codes_ascii). by rewrite canonical_codes_lower.
Qed.

Lemma lookup_Set key value h key' : Set_ key value h !! key' = if decide (CanonicalHeaderKey key = key') then Some [value] else h !! key'.
Proof. unfold Set_. case_decide as E; [rewrite E; apply lookup_insert_eq|by apply lookup_insert_ne]. Qed.
Lemma lookup_Add key value h key' :
  Add key value h !! key' = if decide (CanonicalHeaderKey key = key') then Some (Values h key ++ [value]) else h !! key'.
Proof. unfold Add. case_decide as E; [rewrite E; apply lookup_insert_eq|by apply lookup_insert_ne]. Qed.

(** ** Cutting *)
Lemma cut_spec b l u v : net.cut b l = Some (u, v) <-> l = u ++ b :: v /\ b ∉ u.
Proof.
  revert u v. induction l as [|x l IH]; intros u v; cbn [net.cut].
  { split; [done|]. intros [H _]. by destruct u. }
  destruct (x =? b) eqn:E; go_cases.
  - subst x. split; [intros [= <- <-]; split; [done|apply not_elem_of_nil]|].
    intros [H Hu]. destruct u as [|y u]; [by inversion H|]. injection H as -> _. by destruct Hu; left.
  - destruct (net.cut b l) as [[u' v']|] eqn:Ec; split.
    + intros [= <- <-]. destruct (proj1 (IH u' v') eq_refl) as [-> Hu]. split; [done|]. apply not_elem_of_cons. done.
    + intros [H Hu]. destruct u as [|y u]; injection H as -> H; [done|]. apply not_elem_of_cons in Hu as [_ Hu].
      assert (Some (u', v') = Some (u, v)) as [= -> ->] by (by apply IH). done.
    + done.
    + intros [H Hu]. destruct u as [|y u]; injection H as -> H; [done|]. apply not_elem_of_cons in Hu as [_ Hu].
      assert (None = Some (u, v)) by (by apply IH). done.
Qed.

Lemma codes_bytes s : Forall (fun b => 0 <= b < 256) (codes s).
Proof. apply Forall_forall. intros b. apply codes_range. Qed.
Lemma str_of_codes s : json.str_of (codes s) = s.
Proof. apply codes_inj. apply json.codes_str_of, codes_bytes. Qed.

(** What [strings.Cut] finds. *)
Lemma Cut_found sep s before after :
  0 <= sep < 256 -> Cut sep s = (before, after, true) <-> s = before +:+ json.str_of [sep] +:+ after /\ sep ∉ codes before.
Proof.
  intros Hsep. unfold Cut.
  assert (codes (json.str_of [sep]) = [sep]) as Hs by (apply json.codes_str_of, Forall_singleton; done).
  split.
  - destruct (net.cut sep (codes s)) as [[u v]|] eqn:E; [|done]. apply cut_spec in E as [E Hu]. intros [= <- <-].
    pose proof (codes_bytes s) as Hb. rewrite E in Hb. apply Forall_app in Hb as [Hb1 [_ Hb2]%Forall_cons].
    split; [|by rewrite json.codes_str_of]. apply codes_inj. by rewrite !codes_app, Hs, !json.codes_str_of, E.
  - intros [-> Hn]. assert (net.cut sep (codes (before +:+ json.str_of [sep] +:+ after)) = Some (codes before, codes after)) as ->.
    { apply cut_spec. rewrite !codes_app, Hs. done. }
    by rewrite !str_of_codes.
Qed.

End http.
