(* ===== verification/GatewayHTTP.v ===== *)
(** * Package [internal/gatewayhttp]: the public HTTP boundary

    One request is authenticated against the Function's default HTTP Trigger,
    bounded, turned into an invocation of the guest protocol and handed to the
    Gateway.  The ID source, the discovery store, the Gateway and the token
    bucket ([golang.org/x/time/rate]) are the handler's interfaces: functions
    on a world that they may change at will, so that whatever other goroutines
    do meanwhile is part of a call.  The slots that bound concurrency are a
    channel and kept apart. *)
From stdpp Require Import base gmap strings list.
From S2P Require Import Prelude Problem Digest Json Model Routing ServingAuth Scheduler Net Discovery GatewayRoute GatewayDiscovery Abi GatewayInvoke Rpc Http.
Import problem digest model discovery http.

#[local] Open Scope Z_scope.

Module gatewayhttp.

Definition DefaultTimeout : Z := 10 * second.
Definition HardMaxTimeout : Z := 10 * second.
Definition DefaultMaxConcurrent : Z := 256.
Definition HardMaxConcurrent : Z := 4096.
Definition DefaultRatePerSecond : Z := 100.
Definition DefaultRateBurst : Z := 200.
Definition HardMaxRatePerSecond : Z := 10000.
Definition HardMaxRateBurst : Z := 20000.
Definition maxTokenBytes : Z := 4096.

(** [^[A-Za-z0-9._:-]{1,128}$] *)
Definition requestIDPattern (s : string) : bool := match_class (fun b => is_alnum b || one_of "._:-" b) 1 128 s.

(** ** Paths, credentials and headers *)
Definition invocationPath (escapedPath : string) : result (string * string) :=
  let '(remainder, found) := CutPrefix "/invoke/" escapedPath in
  if negb found || (remainder == "") then Err (Invalid "path" "must match /invoke/{name}/{path...}")
  else
    let '(name, suffix, hasSuffix) := Cut 47 remainder in
    if negb (functionNamePattern name) then Err (Invalid "function_name" "must be a valid function name")
    else Ok (name, if hasSuffix then "/" +:+ suffix else "/")%string.

(** [strings.EqualFold(scheme, "Bearer")]: no rune outside ASCII folds to one
    of these letters.  [subtle.ConstantTimeCompare] is 1 on equal slices. *)
Definition authenticate (values : list string) (trigger : HTTPTrigger) : result unit :=
  if sg_AuthPolicy trigger == AuthPublic then Ok tt
  else if sg_AuthPolicy trigger != AuthToken then Err (classified CodeUnauthenticated "invocation token is required")
  else match sg_TokenVerifierDigest trigger, values with
  | Some verifier, [value] =>
    let '(scheme, token, found) := Cut 32 value in
    fail_if (negb found || (abi.ToLower scheme != "bearer") || (token == "") || (strlen token >? maxTokenBytes)
             || abi.contains_any [32; 9; 13; 10] token) (classified CodeUnauthenticated "invocation token is invalid") ;;;
    fail_if (Sum token != verifier) (classified CodeUnauthenticated "invocation token is invalid")
  | _, _ => Err (classified CodeUnauthenticated "invocation token is required")
  end.

Definition reservedRequestHeader (name : string) : bool :=
  bool_decide (name ∈ ["authorization"; "connection"; "content-length"; "forwarded"; "keep-alive"; "proxy-authenticate";
    "proxy-authorization"; "te"; "trailer"; "transfer-encoding"; "upgrade"; "x-request-id"]%string)
  || String.prefix "x-forwarded-" name || String.prefix "x-minicloud-" name.

Definition reservedResponseHeader (name : string) : bool :=
  let lower := ToLower name in
  bool_decide (lower ∈ ["connection"; "content-length"; "keep-alive"; "proxy-authenticate"; "proxy-authorization"; "te";
    "trailer"; "transfer-encoding"; "upgrade"; "x-request-id"]%string)
  || String.prefix "x-minicloud-" lower.

(** The names that [Connection] lists. *)
Definition connection_names (source : Header) : list string :=
  concat (map (fun value => map (fun name => ToLower (TrimSpace name)) (Split 44 value)) (Values source "Connection")).

(** The loop over the source headers in the order of the map iteration. *)
Definition guestHeaders_in (order : Header -> list (string * list string)) (source : Header) : gmap string (option (list string)) :=
  foldl (fun result '(name, values) =>
    let lower := ToLower name in
    if reservedRequestHeader lower then result
    else if bool_decide (lower ∈ connection_names source) then result
    else <[lower := Some values]> result) ∅ (order source).
Definition guestHeaders : Header -> gmap string (option (list string)) := guestHeaders_in map_to_list.

Definition affinityKey (request : Request) (requestID : string) : string :=
  let value := Get (hr_Header request) "Idempotency-Key" in
  if value != "" then value else requestID.

(** ** Responses *)
Definition setPlatformHeaders (requestID : string) (w : ResponseWriter) : ResponseWriter :=
  header_set "X-Request-ID" requestID (header_set "X-Content-Type-Options" "nosniff" (header_set "Cache-Control" "no-store" w)).

(** [details] is omitted when it is empty. *)
Definition json_envelope (e : ResponseError json) : json :=
  JObject [("error"%string, JObject ([("code", JString (re_Code e)); ("message", JString (re_Message e));
    ("request_id", JString (re_RequestID e))]%string
    ++ (if bool_decide (re_Details e = ∅) then [] else [("details"%string, json.of_map id (Some (re_Details e)))])))].
(** [json.NewEncoder(w).Encode(v)] *)
Definition Encode (v : json) (w : ResponseWriter) : ResponseWriter := Write (json.Marshal v +:+ json.str_of [10]) w.

(** The public form of an error: its first classification, where that is in
    the catalog. *)
Definition public_error (err : error) : string * string * string :=
  match as_problem err with
  | Some (code, message, field) => if Known code then (code, message, field) else (CodeWorkerLost, "invocation failed", "")%string
  | None => (CodeWorkerLost, "invocation failed", "")%string
  end.

Definition writeError (requestID : string) (err : error) (w : ResponseWriter) : ResponseWriter :=
  let w := setPlatformHeaders requestID w in
  let classifiedError := public_error err in
  let w := header_set "Content-Type" "application/json" w in
  let w := WriteHeader (HTTPStatus (fst (fst classifiedError))) w in
  Encode (json_envelope (NewEnvelope JString classifiedError requestID ∅)) w.

(** The loop over the guest's response headers, in map order. *)
Definition add_guest_headers (headers : list (string * option (list string))) (w : ResponseWriter) : ResponseWriter :=
  foldl (fun w '(name, values) =>
    if reservedResponseHeader name then w
    else foldl (fun w value => header_add name value w) w (default [] values)) w headers.

(** ** The handler *)
Section handler.
Context {W Execution : Type} (Response : Execution -> abi.Response).

(** The interfaces; [NewID] and [Invoke] return a value with their error.  The
    context passed to the Gateway is its deadline. *)
Definition IDSource : Type := string -> W -> W * (string * option error).
Definition DiscoverySource : Type := M W (list gatewaydiscovery.View).
Definition InvocationGateway : Type :=
  Time -> gatewayinvoke.Request -> W -> W * (gatewayinvoke.Result (Execution := Execution) * option error).
Definition RateLimiter : Type := W -> W * bool.

(** A [rate.Limit] is a [float64]. *)
Inductive Limit := NaN | Infinite (negative : bool) | Rate (num : Z) (den : positive).
Definition limit_is_zero (l : Limit) : bool := match l with Rate num _ => num =? 0 | _ => false end.
Definition limit_at_most_zero (l : Limit) : bool :=
  match l with NaN => false | Infinite negative => negative | Rate num _ => num <=? 0 end.
Definition limit_exceeds (bound : Z) (l : Limit) : bool :=
  match l with NaN => false | Infinite negative => negb negative | Rate num den => num >? bound * Zpos den end.

Record Config := {
  cf_Discovery : option DiscoverySource;
  cf_Gateway : option InvocationGateway;
  cf_IDs : option IDSource;
  cf_Limits : abi.Limits;
  cf_Timeout : Z;
  cf_MaxConcurrent : Z;
  cf_RatePerSecond : Limit;
  cf_RateBurst : Z;
}.

Record Handler := {
  h_discovery : option DiscoverySource;
  h_gateway : option InvocationGateway;
  h_ids : option IDSource;
  h_limits : abi.Limits;
  h_timeout : Z;
  h_slots : Z;
  h_rate : option RateLimiter;
}.

(** [NewLimiter] is [rate.NewLimiter], [random] the default ID source. *)
Definition New (NewLimiter : Limit -> Z -> RateLimiter) (random : IDSource) (config : Config) : result Handler :=
  fail_if (bool_decide (cf_Discovery config = None) || bool_decide (cf_Gateway config = None))
    (PlainError "gateway HTTP discovery and invocation dependencies are required") ;;;
  limits <- wrap_err "normalizing gateway HTTP ABI limits" (abi.Effective (cf_Limits config)) ;;
  let timeout := if cf_Timeout config =? 0 then DefaultTimeout else cf_Timeout config in
  let maxConcurrent := if cf_MaxConcurrent config =? 0 then DefaultMaxConcurrent else cf_MaxConcurrent config in
  let ratePerSecond := if limit_is_zero (cf_RatePerSecond config) then Rate DefaultRatePerSecond 1 else cf_RatePerSecond config in
  let rateBurst := if cf_RateBurst config =? 0 then DefaultRateBurst else cf_RateBurst config in
  fail_if ((timeout <? millisecond) || (timeout >? HardMaxTimeout)) (PlainError "gateway HTTP timeout is outside v1 bounds") ;;;
  fail_if ((maxConcurrent <? 1) || (maxConcurrent >? HardMaxConcurrent)) (PlainError "gateway HTTP concurrency is outside v1 bounds") ;;;
  fail_if (limit_at_most_zero ratePerSecond || limit_exceeds HardMaxRatePerSecond ratePerSecond || (rateBurst <? 1) || (rateBurst >? HardMaxRateBurst))
    (PlainError "gateway HTTP rate limit is outside v1 bounds") ;;;
  Ok {| h_discovery := cf_Discovery config; h_gateway := cf_Gateway config; h_ids := Some (default random (cf_IDs config));
        h_limits := limits; h_timeout := timeout; h_slots := maxConcurrent; h_rate := Some (NewLimiter ratePerSecond rateBurst) |}.

Definition requestID (h : option Handler) (request : Request) (w : W) : W * (string * option error) :=
  match h with
  | Some {| h_ids := Some NewID |} =>
    let value := Get (hr_Header request) "X-Request-ID" in
    if value != "" then
      if negb (requestIDPattern value) then
        let '(w, (fallback, _)) := NewID "req"%string w in (w, (fallback, Some (PlainError "invalid request id")))
      else (w, (value, None))
    else
      let '(w, (value, err)) := NewID "req"%string w in
      match err with
      | Some err => (w, ("unknown"%string, Some (WrapError "generating request id" err)))
      | None =>
        if negb (requestIDPattern value) then (w, ("unknown"%string, Some (PlainError "id source returned an invalid request id")))
        else (w, (value, None))
      end
  | _ => (w, ("unknown"%string, Some (PlainError "gateway HTTP id source is required")))
  end.

(** The loop of [lookupFunction]. *)
Fixpoint find_function (name : string) (match_ : option gatewaydiscovery.View) (views : list gatewaydiscovery.View) : result gatewaydiscovery.View :=
  match views with
  | [] => match match_ with Some view => Ok view | None => Err (classified CodeNotFound "function was not found") end
  | view :: views' =>
    if sf_Name (sn_Function (gatewaydiscovery.vw_Snapshot view)) != name then find_function name match_ views'
    else match match_ with
    | Some _ => Err (classified CodeControlPlaneStale "serving view contains a duplicate function name")
    | None => find_function name (Some view) views'
    end
  end.
Definition lookupFunction (LookupAll : DiscoverySource) (name : string) : M W gatewaydiscovery.View :=
  let! views := (fun w => let '(w, r) := LookupAll w in (w, wrap_err "looking up HTTP serving views" r)) in
  slift (find_function name None views).

(** [context.WithTimeout] at [now]: the earlier deadline. *)
Definition with_timeout (parent : option Time) (now : Time) (timeout : Z) : Time :=
  let deadline := time_Add now timeout in
  match parent with Some p => if time_Before p deadline then p else deadline | None => deadline end.

(** [io.Discard] *)
Definition Discard (data : string) : M unit Z := sret (strlen data).

Definition http_trigger (trigger : HTTPTrigger) : abi.Trigger :=
  {| abi.tg_Type := "http"; abi.tg_ID := sg_ID trigger; abi.tg_ResourceRevision := sg_ResourceRevision trigger;
     abi.tg_FireID := ""; abi.tg_ScheduledTimeUTC := ""; abi.tg_ReceiptID := ""; abi.tg_EventID := ""; abi.tg_SourceID := "";
     abi.tg_EventType := ""; abi.tg_OccurredAt := ""; abi.tg_ContentType := "" |}.

(** [withinMax] is the runtime's bound on query parameters, [now] the clock. *)
Definition buildInvocation (withinMax : Z -> bool) (now : Time) (h : Handler) (request : Request) (snapshot : Snapshot)
    (invocationID guestPath : string) (w : ResponseWriter) : ResponseWriter * result abi.Request :=
  let '(w, read) := ReadAll_MaxBytes (hr_HTTP2 request) (hr_Body request) (abi.lm_BodyBytes (h_limits h)) w in
  (w, body <- replace_err (Invalid "body" "exceeds the gateway request limit") read ;;
      query <- replace_err (Invalid "query" "must use valid URL encoding") (ParseQuery withinMax (hr_RawQuery request)) ;;
      let deadline := with_timeout (hr_Deadline request) now (h_timeout h) in
      let invocation :=
        {| abi.rq_SpecVersion := abi.Version; abi.rq_InvocationID := invocationID; abi.rq_Method := hr_Method request;
           abi.rq_Path := guestPath; abi.rq_Query := Some (Some <$> query); abi.rq_Headers := Some (guestHeaders (hr_Header request));
           abi.rq_Body := body; abi.rq_DeadlineUnixMS := time_UnixMilli deadline; abi.rq_Trigger := http_trigger (sn_Trigger snapshot) |} in
      replace_err (Invalid "request" "exceeds the invocation ABI limits") (snd (abi.EncodeRequest Discard invocation (h_limits h) tt)) ;;;
      Ok invocation).

Definition writeResult (method requestID : string) (res : gatewayinvoke.Result) (w : ResponseWriter) : ResponseWriter :=
  let response := Response (gatewayinvoke.ir_Execution res) in
  let w := setPlatformHeaders requestID w in
  let w := add_guest_headers (default [] (map_to_list <$> abi.rp_Headers response)) w in
  let w := header_set "X-Minicloud-Invocation-ID" (gatewayinvoke.ir_InvocationID res) w in
  let w := header_set "X-Minicloud-Version-ID" (gatewayinvoke.ir_VersionID res) w in
  let w := header_set "X-Minicloud-Route-Revision" (json.Marshal (JInt (gatewayinvoke.ir_RouteRevision res))) w in
  let w := WriteHeader (abi.rp_Status response) w in
  if method != "HEAD" then Write (abi.rp_Body response) w else w.

(** ** One request

    [sv_used] slots are taken.  A request enters: it is answered at once, or
    takes a slot and waits with its identifier; then it is served, and its
    slot returned.  What it handed to the Gateway is recorded. *)
Record Server := { sv_used : Z; sv_world : W }.
Record Outcome := { oc_World : W; oc_Response : ResponseWriter; oc_Invoked : list gatewayinvoke.Request }.
Definition answers (w : W) (r : ResponseWriter) : Outcome := {| oc_World := w; oc_Response := r; oc_Invoked := [] |}.

Definition enter (h : option Handler) (request : Request) (s : Server) : Server * (ResponseWriter + string * ResponseWriter) :=
  let '(w, (id, err)) := requestID h request (sv_world s) in
  let s := {| sv_used := sv_used s; sv_world := w |} in
  match err with
  | Some _ => (s, inl (writeError id (Invalid "x-request-id" "must be a valid request identifier") fresh))
  | None =>
    let response := setPlatformHeaders id fresh in
    match h with
    | Some {| h_discovery := Some _; h_gateway := Some _; h_ids := Some _; h_slots := slots; h_rate := Some Allow |} =>
      let '(w, allowed) := Allow w in
      let s := {| sv_used := sv_used s; sv_world := w |} in
      if negb allowed then (s, inl (writeError id (classified CodeOverloaded "gateway request rate limit exceeded") response))
      else if sv_used s <? slots then ({| sv_used := sv_used s + 1; sv_world := w |}, inr (id, response))
      else (s, inl (writeError id (classified CodeOverloaded "gateway concurrency limit exceeded") response))
    | _ => (s, inl (writeError id (PlainError "gateway HTTP dependencies are required") response))
    end
  end.

(** The rest of [ServeHTTP], with the slot held. *)
Definition serve (withinMax : Z -> bool) (now later : Time) (h : Handler) (LookupAll : DiscoverySource) (Invoke : InvocationGateway)
    (NewID : IDSource) (request : Request) (id : string) (response : ResponseWriter) (w : W) : Outcome :=
  match invocationPath (hr_EscapedPath request) with
  | Err err => answers w (writeError id err response)
  | Ok (functionName, guestPath) =>
    let '(w, found) := lookupFunction LookupAll functionName w in
    match found with
    | Err err => answers w (writeError id err response)
    | Ok view =>
      let snapshot := gatewaydiscovery.vw_Snapshot view in
      match authenticate (Values (hr_Header request) "Authorization") (sn_Trigger snapshot) with
      | Err err => answers w (writeError id err (header_set "WWW-Authenticate" "Bearer" response))
      | Ok _ =>
        let '(w, (invocationID, err)) := NewID "inv"%string w in
        match err with
        | Some err => answers w (writeError id (WrapError "generating invocation id" err) response)
        | None =>
          let '(response, built) := buildInvocation withinMax now h request snapshot invocationID guestPath response in
          match built with
          | Err err => answers w (writeError id err response)
          | Ok invocation =>
            let call := {| gatewayinvoke.iq_FunctionID := sn_FunctionID snapshot; gatewayinvoke.iq_AffinityKey := affinityKey request id;
                           gatewayinvoke.iq_Invocation := invocation; gatewayinvoke.iq_Timeout := h_timeout h |} in
            let '(w, (res, err)) := Invoke (with_timeout (hr_Deadline request) later (h_timeout h)) call w in
            {| oc_World := w;
               oc_Response := match err with
                              | Some err => writeError id err response
                              | None => writeResult (hr_Method request) id res response
                              end;
               oc_Invoked := [call] |}
          end
        end
      end
    end
  end.

(** [enter] lets in only requests of a complete handler. *)
Definition serve_admitted (withinMax : Z -> bool) (now later : Time) (h : option Handler) (request : Request) (id : string)
    (response : ResponseWriter) (w : W) : Outcome :=
  match h with
  | Some ({| h_discovery := Some LookupAll; h_gateway := Some Invoke; h_ids := Some NewID |} as h) =>
    serve withinMax now later h LookupAll Invoke NewID request id response w
  | _ => answers w response
  end.

Definition leave (s : Server) (w : W) : Server := {| sv_used := sv_used s - 1; sv_world := w |}.

Definition ServeHTTP (withinMax : Z -> bool) (now later : Time) (h : option Handler) (request : Request) (s : Server) : Server * Outcome :=
  let '(s, entered) := enter h request s in
  match entered with
  | inl response => (s, answers (sv_world s) response)
  | inr (id, response) =>
    let out := serve_admitted withinMax now later h request id response (sv_world s) in
    (leave s (oc_World out), out)
  end.

End handler.


(** [randomIDSource.NewID]; [read] is [crypto/rand.Read] of sixteen bytes. *)
Definition random_NewID {W} (read : W -> W * (list Z + error)) : IDSource (W := W) := fun prefix w =>
  let '(w, r) := read w in
  match r with
  | inl bytes => (w, (prefix +:+ "-" +:+ hex_EncodeToString bytes, None))
  | inr err => (w, (""%string, Some (WrapError "reading secure randomness" err)))
  end.

(** ** What the checks accept *)

(** The credential that a Trigger asks for. *)
Definition authorized (values : list string) (trigger : HTTPTrigger) : Prop :=
  sg_AuthPolicy trigger = AuthPublic \/
  (sg_AuthPolicy trigger = AuthToken /\ exists scheme token,
     values = [scheme +:+ " " +:+ token] /\ (32 ∉ codes scheme) /\ abi.ToLower scheme = "bearer"%string /\
     token <> ""%string /\ strlen token <= maxTokenBytes /\ abi.contains_any [32; 9; 13; 10] token = false /\
     sg_TokenVerifierDigest trigger = Some (Sum token)).

Lemma authenticate_Ok values trigger u : authenticate values trigger = Ok u <-> authorized values trigger.
Proof.
  destruct u. unfold authenticate, authorized. case_bool_decide as Hp; [by split; [left|]|].
  destruct (decide (sg_AuthPolicy trigger = AuthToken)) as [Ht|Ht].
  2:{ rewrite bool_decide_false by done. cbn [negb]. split; [done|]. by intros [?|[? _]]. }
  rewrite bool_decide_true by done. cbn [negb].
  destruct (sg_TokenVerifierDigest trigger) as [verifier|].
  2:{ split; [done|]. intros [?|(_ & ? & ? & _ & _ & _ & _ & _ & _ & ?)]; done. }
  destruct values as [|value [|value' values]].
  1,3: split; [done|]; by intros [?|(_ & ? & ? & ? & _)].
  assert (" "%string = json.str_of [32]) as Hsp by done.
  destruct (Cut 32 value) as [[scheme token] found] eqn:Ec. rewrite rbind_Ok. setoid_rewrite fail_if_Ok. split.
  - intros ([] & Hc & Hd). go_cases. subst found. right. split; [done|]. exists scheme, token.
    apply Cut_found in Ec as [-> Hn]; [|done]. rewrite Hsp. split_and!; try done. by f_equal.
  - intros [?|(_ & scheme' & token' & [= ->] & Hn & Hl & Hne & Hlen & Hc & [= ->])]; [done|].
    rewrite Hsp in Ec. rewrite (proj2 (Cut_found 32 _ scheme' token' ltac:(done)) (conj eq_refl Hn)) in Ec.
    injection Ec as <- <- <-. exists tt. split; [|by rewrite bool_decide_true].
    rewrite Hl, Hc, (bool_decide_false (token' = "")) by done. rewrite Z.gtb_ltb, (proj2 (Z.ltb_ge _ _)) by done. done.
Qed.

Definition named (name : string) (view : gatewaydiscovery.View) : bool :=
  sf_Name (sn_Function (gatewaydiscovery.vw_Snapshot view)) == name.

(** A Function is found iff exactly one view has its name. *)
Lemma find_function_Ok name m views view :
  find_function name m views = Ok view <-> option_list m ++ List.filter (named name) views = [view].
Proof.
  revert m. induction views as [|v views IH]; intros m; cbn [find_function List.filter].
  { rewrite app_nil_r. destruct m; simpl; naive_solver. }
  fold (named name v). destruct (named name v); cbn [negb]; [|apply IH].
  destruct m as [v'|]; [|rewrite IH; done]. split; [done|]. cbn [option_list app]. intros [= -> ?].
Qed.

Lemma lookupFunction_Ok {W} (LookupAll : DiscoverySource (W := W)) name w w' view :
  lookupFunction LookupAll name w = (w', Ok view) <->
  exists views, LookupAll w = (w', Ok views) /\ List.filter (named name) views = [view].
Proof.
  unfold lookupFunction, sbind, slift. destruct (LookupAll w) as [w1 [views|err]]; simpl; [|naive_solver].
  split.
  - intros [= -> H]. apply find_function_Ok in H. eauto.
  - intros (views' & [= -> ->] & H). by rewrite (proj2 (find_function_Ok name None views' view)).
Qed.

(** What the guest sees of the headers. *)
Lemma guestHeaders_spec order source key values :
  guestHeaders_in order source !! key = Some values ->
  reservedRequestHeader key = false /\ (key ∉ connection_names source) /\
  exists name vs, (name, vs) ∈ order source /\ ToLower name = key /\ values = Some vs.
Proof.
  unfold guestHeaders_in. set (f := fun result '(name, values) => _).
  assert (forall l acc, (acc : gmap string (option (list string))) !! key = None \/
    (reservedRequestHeader key = false /\ (key ∉ connection_names source) /\
     exists name vs, (name, vs) ∈ order source /\ ToLower name = key /\ acc !! key = Some (Some vs)) ->
    (forall e, e ∈ l -> e ∈ order source) ->
    foldl f acc l !! key = Some values -> reservedRequestHeader key = false /\ (key ∉ connection_names source) /\
    exists name vs, (name, vs) ∈ order source /\ ToLower name = key /\ values = Some vs) as Hgen.
  2:{ apply Hgen; [by left|done]. }
  induction l as [|[name vs] l IH]; intros acc Hacc Hl; cbn [foldl].
  - intros E. rewrite E in Hacc. destruct Hacc as [?|(? & ? & n & v & ? & ? & [= ->])]; [done|]. eauto 8.
  - apply IH; [|intros e He; apply Hl; by right]. unfold f.
    destruct (reservedRequestHeader (ToLower name)) eqn:Er; [done|]. case_bool_decide as Hb; [done|].
    destruct (decide (ToLower name = key)) as [<-|Hne]; [|by rewrite lookup_insert_ne].
    right. split_and!; [done..|]. exists name, vs. rewrite lookup_insert_eq. split_and!; [apply Hl; by left|done..].
Qed.


(** ** What reaches the Gateway *)
Section safety.
Context {W Execution : Type} (Response : Execution -> abi.Response).
#[local] Abbreviation Handler := (Handler (W := W) (Execution := Execution)).

Lemma buildInvocation_Ok withinMax now (h : Handler) request snapshot invocationID guestPath w w' invocation :
  buildInvocation withinMax now h request snapshot invocationID guestPath w = (w', Ok invocation) ->
  w' = w /\ (exists limits normal, abi.normalizeLimits (h_limits h) = Ok limits /\ abi.normalizeRequest invocation limits = Ok normal) /\
  abi.rq_Body invocation = rpc.rd_bytes (hr_Body request) /\ strlen (abi.rq_Body invocation) <= abi.lm_BodyBytes (h_limits h) /\
  abi.rq_InvocationID invocation = invocationID /\ abi.rq_Path invocation = guestPath /\ abi.rq_Method invocation = hr_Method request /\
  abi.rq_Headers invocation = Some (guestHeaders (hr_Header request)) /\
  abi.rq_DeadlineUnixMS invocation = time_UnixMilli (with_timeout (hr_Deadline request) now (h_timeout h)) /\
  abi.rq_Trigger invocation = http_trigger (sn_Trigger snapshot).
Proof.
  unfold buildInvocation, ReadAll_MaxBytes. destruct (_ >? _) eqn:Hlen; [by destruct (hr_HTTP2 request)|].
  rewrite Z.gtb_ltb in Hlen. apply Z.ltb_ge in Hlen. destruct (rpc.rd_err _); [done|]. intros [= <- H].
  apply rbind_Ok in H as (query & _ & H). apply rbind_Ok in H as ([] & He & [= <-]). apply replace_err_Ok in He.
  unfold abi.EncodeRequest, sbind, slift in He. destruct (abi.normalizeLimits (h_limits h)) as [limits|] eqn:El; [|done].
  destruct (abi.normalizeRequest _ limits) as [normal|] eqn:En; [|done].
  split_and!; try done. by exists limits, normal.
Qed.

(** An invocation that the boundary let through.  [views] is the serving view
    that one call of the discovery store returned. *)
Record admitted (withinMax : Z -> bool) (now : Time) (h : Handler) (request : Request) (views : list gatewaydiscovery.View)
    (view : gatewaydiscovery.View) (call : gatewayinvoke.Request) : Prop := {
  ad_path : exists name, invocationPath (hr_EscapedPath request) = Ok (name, abi.rq_Path (gatewayinvoke.iq_Invocation call)) /\
    List.filter (named name) views = [view];
  ad_authorized : authorized (Values (hr_Header request) "Authorization") (sn_Trigger (gatewaydiscovery.vw_Snapshot view));
  ad_function : gatewayinvoke.iq_FunctionID call = sn_FunctionID (gatewaydiscovery.vw_Snapshot view);
  ad_trigger : abi.rq_Trigger (gatewayinvoke.iq_Invocation call) = http_trigger (sn_Trigger (gatewaydiscovery.vw_Snapshot view));
  ad_headers : forall key values, default ∅ (abi.rq_Headers (gatewayinvoke.iq_Invocation call)) !! key = Some values ->
    reservedRequestHeader key = false /\ key <> "authorization"%string /\ ~ (key ∈ connection_names (hr_Header request)) /\
    exists name vs, hr_Header request !! name = Some vs /\ ToLower name = key /\ values = Some vs;
  ad_valid : exists limits normal, abi.normalizeLimits (h_limits h) = Ok limits /\
    abi.normalizeRequest (gatewayinvoke.iq_Invocation call) limits = Ok normal;
  ad_body : abi.rq_Body (gatewayinvoke.iq_Invocation call) = rpc.rd_bytes (hr_Body request);
  ad_timeout : gatewayinvoke.iq_Timeout call = h_timeout h;
  ad_deadline : abi.rq_DeadlineUnixMS (gatewayinvoke.iq_Invocation call) =
    time_UnixMilli (with_timeout (hr_Deadline request) now (h_timeout h));
}.

Lemma serve_invoked withinMax now later (h : Handler) LookupAll Invoke NewID request id response w call :
  call ∈ oc_Invoked (serve Response withinMax now later h LookupAll Invoke NewID request id response w) ->
  oc_Invoked (serve Response withinMax now later h LookupAll Invoke NewID request id response w) = [call] /\
  exists w' views view, LookupAll w = (w', Ok views) /\ admitted withinMax now h request views view call.
Proof.
  unfold serve. destruct (invocationPath _) as [[name guestPath]|err] eqn:Hp; [|by intros ?%not_elem_of_nil].
  destruct (lookupFunction _ _ _) as [w1 [view|err]] eqn:Hl; [|by intros ?%not_elem_of_nil].
  apply lookupFunction_Ok in Hl as (views & Hl & Hf).
  destruct (authenticate _ _) as [[]|err] eqn:Ha; [|by intros ?%not_elem_of_nil]. apply authenticate_Ok in Ha.
  destruct (NewID _ _) as [w2 [invocationID [err|]]]; [by intros ?%not_elem_of_nil|].
  destruct (buildInvocation _ _ _ _ _ _ _ _) as [response' [invocation|err]] eqn:Hb; [|by intros ?%not_elem_of_nil].
  apply buildInvocation_Ok in Hb as (_ & Hv & Hbody & _ & _ & Hpath & _ & Hh & Hd & Ht).
  destruct (Invoke _ _ _) as [w3 [res err]]. cbn [oc_Invoked]. intros ->%list_elem_of_singleton. split; [done|].
  exists w1, views, view. split; [done|]. split; try done; cbn [gatewayinvoke.iq_Invocation].
  - exists name. by rewrite Hpath.
  - rewrite Hh. intros key values (Hr & Hc & n & vs & Hin & Hn & Hvs)%guestHeaders_spec. split_and!; [done|by intros ->|done|].
    exists n, vs. split; [|done]. by apply elem_of_map_to_list in Hin.
Qed.

(** C18: Only authenticated, bounded requests reach the Gateway, and no
    platform credential reaches a guest.  A request leads to at most one
    invocation; if it does, a slot was free, the path names a Function that
    exactly one serving view carries, and the request presented the credential
    that the Trigger of this view asks for (none for a public one, else one
    Authorization value with a Bearer token whose SHA-256 is the verifier).
    The invocation names this Function and this Trigger, passes the limits of
    the guest protocol, carries the body whole and a deadline no later than the
    handler's timeout and the client's; its headers are request headers with
    their values, and none is reserved (Authorization, Connection, forwarding
    and platform headers) or listed in Connection. *)
Theorem ServeHTTP_authorized withinMax now later (h : option Handler) request s call :
  call ∈ oc_Invoked (snd (ServeHTTP Response withinMax now later h request s)) ->
  oc_Invoked (snd (ServeHTTP Response withinMax now later h request s)) = [call] /\
  exists handler LookupAll w w' views view, h = Some handler /\ h_discovery handler = Some LookupAll /\
    sv_used s < h_slots handler /\ LookupAll w = (w', Ok views) /\ admitted withinMax now handler request views view call.
Proof.
  unfold ServeHTTP. destruct (enter h request s) as [s' [response|[id response]]] eqn:He; [by intros ?%not_elem_of_nil|].
  cbn [snd]. unfold serve_admitted. unfold enter in He.
  destruct (requestID h request (sv_world s)) as [w [id' [err|]]]; [done|].
  destruct h as [[[LookupAll|] [Invoke|] [NewID|] limits timeout slots [Allow|]]|]; try done.
  destruct (Allow w) as [w1 []]; [|done]. cbn [negb sv_used] in He. destruct (sv_used s <? slots) eqn:Hslots; [|done].
  apply Z.ltb_lt in Hslots. intros (Hone & w' & views & view & Hl & Ha)%serve_invoked. split; [done|].
  by exists {| h_discovery := Some LookupAll; h_gateway := Some Invoke; h_ids := Some NewID; h_limits := limits; h_timeout := timeout;
       h_slots := slots; h_rate := Some Allow |}, LookupAll, (sv_world s'), w', views, view.
Qed.

(** ** What the client sees *)
#[local] Abbreviation reserved key := (reservedResponseHeader key = true).

Lemma reserved_canonical key : reservedResponseHeader (CanonicalHeaderKey key) = reservedResponseHeader key.
Proof. unfold reservedResponseHeader. by rewrite ToLower_canonical. Qed.

Lemma reserved_differs key k : reservedResponseHeader key = false -> reserved k -> CanonicalHeaderKey key <> k.
Proof. intros Hk Hr <-. rewrite reserved_canonical in Hr. congruence. Qed.

Lemma header_set_unreserved key value w k :
  reservedResponseHeader key = false -> reserved k -> rw_Header (header_set key value w) !! k = rw_Header w !! k.
Proof. intros. cbn [header_set rw_Header]. rewrite lookup_Set, decide_False; [done|]. by apply reserved_differs. Qed.

Lemma add_values_unreserved name values w k :
  reservedResponseHeader name = false -> reserved k ->
  rw_Header (foldl (fun w value => header_add name value w) w values) !! k = rw_Header w !! k.
Proof.
  intros Hn Hk. revert w. induction values as [|v values IH]; intros w; [done|]. cbn [foldl]. rewrite IH. cbn [header_add rw_Header].
  rewrite lookup_Add, decide_False; [done|]. by apply reserved_differs.
Qed.

(** The guest cannot set a reserved header. *)
Lemma add_guest_headers_reserved headers w k : reserved k -> rw_Header (add_guest_headers headers w) !! k = rw_Header w !! k.
Proof.
  intros Hk. unfold add_guest_headers. revert w. induction headers as [|[name values] headers IH]; intros w; [done|]. cbn [foldl].
  rewrite IH. destruct (reservedResponseHeader name) eqn:E; [done|]. by apply add_values_unreserved.
Qed.

(** Nor does it remove or precede a value that the platform set. *)
Lemma header_add_first key value name v w :
  hd_error (Values (rw_Header w) key) = Some v -> hd_error (Values (rw_Header (header_add name value w)) key) = Some v.
Proof.
  unfold Values. cbn [header_add rw_Header]. rewrite lookup_Add. intros H. case_decide as E; [|done].
  unfold Values. rewrite E. cbn [default]. by destruct (default [] (rw_Header w !! CanonicalHeaderKey key)).
Qed.
Lemma add_guest_headers_first key v headers w :
  hd_error (Values (rw_Header w) key) = Some v -> hd_error (Values (rw_Header (add_guest_headers headers w)) key) = Some v.
Proof.
  unfold add_guest_headers. revert w. induction headers as [|[name values] headers IH]; intros w H; [done|]. cbn [foldl].
  apply IH. destruct (reservedResponseHeader name); [done|]. revert w H. induction (default [] values) as [|x l IHl]; intros w H; [done|].
  cbn [foldl]. apply IHl. by apply header_add_first.
Qed.

Definition platform_id (id : string) (h : Header) : Header := <["X-Request-Id"%string := [id]]> h.
Definition platform_result (res : gatewayinvoke.Result (Execution := Execution)) (h : Header) : Header :=
  <["X-Minicloud-Route-Revision" := [json.Marshal (JInt (gatewayinvoke.ir_RouteRevision res))]]>
  (<["X-Minicloud-Version-Id" := [gatewayinvoke.ir_VersionID res]]> (<["X-Minicloud-Invocation-Id" := [gatewayinvoke.ir_InvocationID res]]> h))%string.
Definition closing : Header := {["Connection"%string := ["close"%string]]}.

(** The reserved headers of a response are those of [h]. *)
Definition confined (h : Header) (w : ResponseWriter) : Prop := forall key, reserved key -> rw_Header w !! key = h !! key.
(** The platform's security headers come first. *)
Definition hardened (w : ResponseWriter) : Prop :=
  hd_error (Values (rw_Header w) "Cache-Control") = Some "no-store"%string /\
  hd_error (Values (rw_Header w) "X-Content-Type-Options") = Some "nosniff"%string.

Lemma setPlatformHeaders_confined id h w : confined h w -> confined (platform_id id h) (setPlatformHeaders id w).
Proof.
  intros Hc key Hk. unfold setPlatformHeaders. cbn [header_set rw_Header]. rewrite lookup_Set. case_decide as E.
  - subst key. unfold platform_id. change (CanonicalHeaderKey "X-Request-ID") with "X-Request-Id"%string. by rewrite lookup_insert_eq.
  - unfold platform_id. rewrite lookup_insert_ne by exact E. rewrite <-(Hc key Hk).
    rewrite !lookup_Set, !decide_False; [done| |]; by apply reserved_differs.
Qed.
Lemma setPlatformHeaders_hardened id w : hardened (setPlatformHeaders id w).
Proof.
  unfold hardened, Values, setPlatformHeaders. cbn [header_set rw_Header]. rewrite !lookup_Set.
  split.
  - rewrite decide_False, decide_False, decide_True; done.
  - rewrite decide_False, decide_True; done.
Qed.
Lemma header_set_hardened key value w :
  CanonicalHeaderKey key <> "Cache-Control"%string -> CanonicalHeaderKey key <> "X-Content-Type-Options"%string ->
  hardened w -> hardened (header_set key value w).
Proof.
  intros H1 H2 [Hc Ho]. unfold hardened, Values in *. cbn [header_set rw_Header]. by rewrite !lookup_Set, !decide_False by done.
Qed.
Lemma hardened_ext w w' : rw_Header w = rw_Header w' -> hardened w' -> hardened w.
Proof. unfold hardened. by intros ->. Qed.
Lemma confined_ext h w w' : rw_Header w = rw_Header w' -> confined h w' -> confined h w.
Proof. unfold confined. by intros ->. Qed.

(** An error response: a code of the catalog with its status, as JSON. *)
Definition error_response (id : string) (w : ResponseWriter) : Prop :=
  exists code message field, Known code = true /\ rw_Status w = Some (HTTPStatus code) /\ 400 <= HTTPStatus code < 600 /\
    HTTPStatus code <> 500 /\ Values (rw_Header w) "Content-Type" = ["application/json"%string] /\
    rw_Body w = json.Marshal (json_envelope (NewEnvelope JString (code, message, field) id ∅)) +:+ json.str_of [10].
(** A guest's answer, without its body for a HEAD request. *)
Definition result_response (method : string) (res : gatewayinvoke.Result (Execution := Execution)) (w : ResponseWriter) : Prop :=
  rw_Status w = Some (abi.rp_Status (Response (gatewayinvoke.ir_Execution res))) /\
  rw_Body w = if method == "HEAD" then ""%string else abi.rp_Body (Response (gatewayinvoke.ir_Execution res)).

(** A response that nothing was sent of yet. *)
Definition unsent (w : ResponseWriter) : Prop := rw_Status w = None /\ rw_Body w = ""%string.

Lemma public_error_known err : Known (fst (fst (public_error err))) = true.
Proof. unfold public_error. destruct (as_problem err) as [[[code message] field]|]; [|done]. by destruct (Known code) eqn:E. Qed.

Lemma writeError_response id err h w :
  unsent w -> confined h w ->
  error_response id (writeError id err w) /\ confined (platform_id id h) (writeError id err w) /\ hardened (writeError id err w).
Proof.
  intros [Hs Hb] Hc. pose proof (public_error_known err) as Hk. unfold writeError. cbv zeta.
  destruct (public_error err) as [[code message] field]. cbn [fst] in *. split_and!.
  - exists code, message, field. pose proof (HTTPStatus_known code Hk) as [? ?].
    split_and!; try done; try lia; unfold Encode, Write, WriteHeader, setPlatformHeaders, header_set; cbn [rw_Status rw_Body rw_Header].
    + by rewrite Hs.
    + unfold Values. by rewrite lookup_Set, decide_True.
    + by rewrite Hb.
  - apply (confined_ext _ _ (header_set "Content-Type" "application/json" (setPlatformHeaders id w))); [done|]. intros key Hkey.
    rewrite header_set_unreserved by done. by apply setPlatformHeaders_confined.
  - apply (hardened_ext _ (header_set "Content-Type" "application/json" (setPlatformHeaders id w))); [done|].
    by apply header_set_hardened, setPlatformHeaders_hardened.
Qed.

Lemma writeResult_response method id res h w :
  unsent w -> confined h w ->
  result_response method res (writeResult Response method id res w) /\ hardened (writeResult Response method id res w) /\
  confined (platform_result res (platform_id id h)) (writeResult Response method id res w).
Proof.
  intros [Hs Hb] Hc. unfold writeResult. cbv zeta. set (response := Response _). set (w1 := add_guest_headers _ _).
  assert (rw_Status w1 = None /\ rw_Body w1 = ""%string) as [Hs1 Hb1].
  { subst w1. unfold add_guest_headers. assert (unsent (setPlatformHeaders id w)) as Hu by done. revert Hu. generalize (setPlatformHeaders id w).
    induction (default [] _) as [|[name values] l IH]; intros w' Hu; [done|]. cbn [foldl]. apply IH.
    destruct (reservedResponseHeader name); [done|]. revert w' Hu. induction (default [] values) as [|x vs IHv]; intros w' Hu; [done|]. by apply IHv. }
  assert (confined (platform_id id h) w1) as Hc1.
  { intros key Hk. subst w1. rewrite add_guest_headers_reserved by done. by apply setPlatformHeaders_confined. }
  assert (hardened w1) as Hh1 by (split; subst w1; apply add_guest_headers_first, setPlatformHeaders_hardened).
  clearbody w1. split_and!.
  - unfold result_response. fold response. case_bool_decide; cbn [negb]; unfold Write, WriteHeader, header_set; cbn [rw_Status rw_Body];
      rewrite Hs1, Hb1; done.
  - eapply hardened_ext; [by case_bool_decide|]. by repeat apply header_set_hardened.
  - intros key Hk. specialize (Hc1 key Hk).
    transitivity (rw_Header (header_set "X-Minicloud-Route-Revision" (json.Marshal (JInt (gatewayinvoke.ir_RouteRevision res)))
      (header_set "X-Minicloud-Version-ID" (gatewayinvoke.ir_VersionID res)
        (header_set "X-Minicloud-Invocation-ID" (gatewayinvoke.ir_InvocationID res) w1))) !! key); [by case_bool_decide|].
    cbn [header_set rw_Header]. unfold Set_.
    change (CanonicalHeaderKey "X-Minicloud-Route-Revision") with "X-Minicloud-Route-Revision"%string.
    change (CanonicalHeaderKey "X-Minicloud-Version-ID") with "X-Minicloud-Version-Id"%string.
    change (CanonicalHeaderKey "X-Minicloud-Invocation-ID") with "X-Minicloud-Invocation-Id"%string.
    unfold platform_result. rewrite !lookup_insert. repeat case_decide; done.
Qed.

Lemma fresh_confined : confined ∅ fresh.
Proof. done. Qed.
Lemma platform_id_twice id h : platform_id id (platform_id id h) = platform_id id h.
Proof. apply insert_insert_eq. Qed.

(** Every response that [ServeHTTP] can give to a request with identifier [id]. *)
Record answered (request : Request) (id : string) (invoked : list gatewayinvoke.Request) (w : ResponseWriter) : Prop := {
  an_hardened : hardened w;
  an_response :
    (error_response id w /\ (confined (platform_id id ∅) w \/ confined (platform_id id closing) w)) \/
    (exists res, invoked <> [] /\ result_response (hr_Method request) res w /\ confined (platform_result res (platform_id id ∅)) w);
}.

Lemma answered_error request id invoked err w h :
  h = ∅ \/ h = platform_id id ∅ \/ h = closing \/ h = platform_id id closing ->
  unsent w -> confined h w -> answered request id invoked (writeError id err w).
Proof.
  intros Hh Hu Hc. destruct (writeError_response id err h w Hu Hc) as (He & Hcf & Hha). split; [done|]. left. split; [done|].
  destruct Hh as [-> | [-> | [-> | -> ] ] ]; rewrite ?platform_id_twice in Hcf; eauto.
Qed.

Lemma ReadAll_MaxBytes_confined http2 body limit id w :
  unsent w -> confined (platform_id id ∅) w ->
  let w' := fst (ReadAll_MaxBytes http2 body limit w) in
  unsent w' /\ (w' = w \/ confined (platform_id id closing) w').
Proof.
  intros Hu Hc. unfold ReadAll_MaxBytes. destruct (_ >? _); [|by split; [|left]]. destruct http2; [by split; [|left]|]. split; [done|]. right.
  intros key Hk. cbn [fst header_set rw_Header]. rewrite lookup_Set. change (CanonicalHeaderKey "Connection") with "Connection"%string.
  unfold platform_id, closing. rewrite lookup_insert, lookup_singleton. specialize (Hc key Hk). unfold platform_id in Hc. rewrite lookup_insert, lookup_empty in Hc.
  rewrite Hc. repeat case_decide; congruence.
Qed.

Lemma serve_answered withinMax now later (h : Handler) LookupAll Invoke NewID request id w0 w :
  unsent w0 -> confined (platform_id id ∅) w0 ->
  let out := serve Response withinMax now later h LookupAll Invoke NewID request id w0 w in
  answered request id (oc_Invoked out) (oc_Response out).
Proof.
  intros Hu Hc. cbv zeta. unfold serve.
  assert (forall inv err, answered request id inv (writeError id err w0)) as Herr by (intros; apply (answered_error _ _ _ _ _ (platform_id id ∅)); [tauto|done|done]).
  destruct (invocationPath _) as [[name guestPath]|err]; [|apply Herr].
  destruct (lookupFunction _ _ _) as [w1 [view|err]]; [|apply Herr].
  destruct (authenticate _ _) as [[]|err].
  2:{ apply (answered_error _ _ _ _ _ (platform_id id ∅)); [tauto|done|]. intros key Hk. rewrite header_set_unreserved by done. by apply Hc. }
  destruct (NewID _ _) as [w2 [invocationID [err|]]]; [apply Herr|].
  destruct (buildInvocation _ _ _ _ _ _ _ _) as [w' built] eqn:Hb.
  pose proof (ReadAll_MaxBytes_confined (hr_HTTP2 request) (hr_Body request) (abi.lm_BodyBytes (h_limits h)) id w0 Hu Hc) as [Hu' Hc'].
  assert (w' = fst (ReadAll_MaxBytes (hr_HTTP2 request) (hr_Body request) (abi.lm_BodyBytes (h_limits h)) w0)) as Hw'.
  { unfold buildInvocation in Hb. destruct (ReadAll_MaxBytes _ _ _ _). injection Hb as <- _. done. }
  rewrite <-Hw' in Hu', Hc'. destruct built as [invocation|err].
  - apply buildInvocation_Ok in Hb as [-> _]. destruct (Invoke _ _ _) as [w3 [res [err|]]]; cbn [oc_Invoked oc_Response]; [apply Herr|].
    destruct (writeResult_response (hr_Method request) id res _ _ Hu Hc) as (Hr & Hh & Hcf). rewrite platform_id_twice in Hcf.
    split; [done|]. right. by exists res.
  - destruct Hc' as [-> | Hc']; [apply Herr|]. eapply answered_error; [|done|exact Hc']. tauto.
Qed.

(** A request returns the slot that it took. *)
Lemma ServeHTTP_slots withinMax now later (h : option Handler) request s :
  sv_used (fst (ServeHTTP Response withinMax now later h request s)) = sv_used s.
Proof.
  unfold ServeHTTP, enter. destruct (requestID h request (sv_world s)) as [w [id [err|]]]; [done|].
  destruct h as [[[LookupAll|] [Invoke|] [NewID|] limits timeout slots [Allow|]]|]; try done.
  destruct (Allow w) as [w1 []]; cbn [negb sv_used]; [|done]. destruct (sv_used s <? slots); [|done]. cbn [leave fst sv_used]. lia.
Qed.


(** ** Concurrency

    Requests arrive and finish in any order; [hs_open] holds those that have
    taken a slot and wait to be served. *)
Record Serving := { hs_server : Server (W := W); hs_open : list (Request * (string * ResponseWriter)) }.
Inductive event := Arrive (request : Request) | Finish (i : nat) (withinMax : Z -> bool) (now later : Time).
Definition step (h : Handler) (s : Serving) (e : event) : Serving :=
  match e with
  | Arrive request =>
    let '(server, entered) := enter (Some h) request (hs_server s) in
    {| hs_server := server; hs_open := match entered with inl _ => hs_open s | inr held => hs_open s ++ [(request, held)] end |}
  | Finish i withinMax now later =>
    match hs_open s !! i with
    | Some (request, (id, response)) =>
      let out := serve_admitted Response withinMax now later (Some h) request id response (sv_world (hs_server s)) in
      {| hs_server := leave (hs_server s) (oc_World out); hs_open := delete i (hs_open s) |}
    | None => s
    end
  end.

(** At any time the slots in use are those of the requests being served, at
    most the configured number; when all are done every slot is free. *)
Theorem slots_bounded (h : Handler) w events :
  0 <= h_slots h ->
  let s := foldl (step h) {| hs_server := {| sv_used := 0; sv_world := w |}; hs_open := [] |} events in
  sv_used (hs_server s) = len (hs_open s) /\ len (hs_open s) <= h_slots h.
Proof.
  intros Hslots. cbv zeta. set (ok := fun s => sv_used (hs_server s) = len (hs_open s) /\ len (hs_open s) <= h_slots h).
  assert (forall s e, ok s -> ok (step h s e)) as Hstep.
  { intros s e [Hu Hl]. unfold ok in *. destruct e as [request|i withinMax now later]; cbn [step].
    - unfold enter. destruct (requestID _ _ _) as [w1 [id [err|]]]; [done|].
      destruct h as [[LookupAll|] [Invoke|] [NewID|] limits timeout slots [Allow|]]; try done.
      destruct (Allow w1) as [w2 []]; cbn [negb sv_used]; [|done]. destruct (sv_used (hs_server s) <? slots) eqn:E; [|done].
      apply Z.ltb_lt in E. cbn [hs_server hs_open sv_used h_slots] in *. unfold len in *. rewrite length_app. simpl. lia.
    - destruct (hs_open s !! i) as [[request [id response]]|] eqn:E; [|done]. cbn [hs_server hs_open leave sv_used].
      pose proof (lookup_lt_Some _ _ _ E). unfold len in *. rewrite length_delete by eauto. lia. }
  assert (ok {| hs_server := {| sv_used := 0; sv_world := w |}; hs_open := [] |}) as H0 by (split; [done|exact Hslots]).
  revert H0. generalize {| hs_server := {| sv_used := 0; sv_world := w |}; hs_open := [] |}.
  induction events as [|e events IH]; intros s Hs; [done|]. cbn [foldl]. by apply IH, Hstep.
Qed.

(** A constructed handler is complete and within its bounds. *)
Lemma New_Ok NewLimiter random (config : Config) (h : Handler) :
  New NewLimiter random config = Ok h ->
  is_Some (h_discovery h) /\ is_Some (h_gateway h) /\ is_Some (h_ids h) /\ is_Some (h_rate h) /\
  abi.in_bounds (h_limits h) /\ millisecond <= h_timeout h <= HardMaxTimeout /\ 1 <= h_slots h <= HardMaxConcurrent.
Proof.
  unfold New. cbv zeta. intros H. apply rbind_Ok in H as ([] & H1%fail_if_Ok & H). apply rbind_Ok in H as (limits & H2 & H).
  apply rbind_Ok in H as ([] & H3%fail_if_Ok & H). apply rbind_Ok in H as ([] & H4%fail_if_Ok & H). apply rbind_Ok in H as ([] & _ & H).
  apply Ok_inj in H. subst h. cbn [h_discovery h_gateway h_ids h_rate h_limits h_timeout h_slots].
  apply orb_false_iff in H1 as [Hd%bool_decide_eq_false Hg%bool_decide_eq_false]. apply wrap_err_Ok, abi.normalizeLimits_Ok in H2 as [H2 _]. go_cases.
  split_and!; try (by apply not_eq_None_Some); try done; eauto; lia.
Qed.

End safety.

(** ** server.go: the listener *)
Definition DefaultAddress : string := "127.0.0.1:8080".
Definition DefaultReadHeaderTimeout : Z := 5 * second.
Definition DefaultReadTimeout : Z := 15 * second.
Definition DefaultWriteTimeout : Z := 15 * second.
Definition DefaultIdleTimeout : Z := 60 * second.
Definition DefaultShutdownTimeout : Z := 10 * second.
Definition DefaultMaxHeaderBytes : Z := Z.shiftl 64 10.
Definition HardMaxServerTimeout : Z := 2 * minute.
Definition HardMaxHeaderBytes : Z := Z.shiftl 1 20.

Record TLSFiles := { tf_Certificate : string; tf_PrivateKey : string }.
(** [sc_Handler] says whether a handler is given. *)
Record ServerConfig := {
  sc_Handler : bool;
  sc_Address : string;
  sc_TLS : option TLSFiles;
  sc_ReadHeaderTimeout : Z;
  sc_ReadTimeout : Z;
  sc_WriteTimeout : Z;
  sc_IdleTimeout : Z;
  sc_ShutdownTimeout : Z;
  sc_MaxHeaderBytes : Z;
}.
(** The [http.Server] of a [Server] has these bounds; with [TLS] its minimal
    version is TLS 1.2. *)
Record HTTPServer := {
  sr_Addr : string;
  sr_ReadHeaderTimeout : Z;
  sr_ReadTimeout : Z;
  sr_WriteTimeout : Z;
  sr_IdleTimeout : Z;
  sr_MaxHeaderBytes : Z;
  sr_TLSConfig : bool;
}.
Record Listener_ := { li_Network : string; li_Address : string }.
Record HTTPListener := { hl_http : HTTPServer; hl_tls : option TLSFiles; hl_shutdownTimeout : Z }.

(** [strings.EqualFold(host, "localhost")]: of its letters only the s has a
    fold outside ASCII, the long s (U+017F). *)
Fixpoint fold_s (l : list Z) : list Z :=
  match l with
  | [] => []
  | b :: l' =>
    match l' with
    | c :: l2 => if (b =? 0xC5) && (c =? 0xBF) then 115 :: fold_s l2 else abi.lower_byte b :: fold_s l'
    | [] => [abi.lower_byte b]
    end
  end.
Definition loopbackHost (host : list Z) : bool :=
  bool_decide (fold_s host = codes "localhost")
  || match ParseIP host with Some address => IsLoopback address | None => false end.

Definition validateServerConfig (config : ServerConfig) : result unit :=
  match net.SplitHostPort (codes (sc_Address config)) with
  | None => Err (PlainError "gateway HTTP server address must contain a host and port")
  | Some (host, port) =>
    fail_if (len port =? 0) (PlainError "gateway HTTP server address must contain a host and port") ;;;
    fail_if (negb (loopbackHost host) && bool_decide (sc_TLS config = None)) (PlainError "gateway HTTP server requires TLS outside loopback") ;;;
    fail_if (match sc_TLS config with Some files => (tf_Certificate files == "") || (tf_PrivateKey files == "") | None => false end)
      (PlainError "gateway HTTP server TLS certificate and private key are required together") ;;;
    for_each (fun timeout => fail_if ((timeout <=? 0) || (timeout >? HardMaxServerTimeout)) (PlainError "gateway HTTP server timeout is outside v1 bounds"))
      [sc_ReadHeaderTimeout config; sc_ReadTimeout config; sc_WriteTimeout config; sc_IdleTimeout config; sc_ShutdownTimeout config] ;;;
    fail_if ((sc_MaxHeaderBytes config <? 1) || (sc_MaxHeaderBytes config >? HardMaxHeaderBytes))
      (PlainError "gateway HTTP server header limit is outside v1 bounds")
  end.

Definition or_default (value default_value : Z) : Z := if value =? 0 then default_value else value.
Definition NewServer (config : ServerConfig) : result HTTPListener :=
  fail_if (negb (sc_Handler config)) (PlainError "gateway HTTP server handler is required") ;;;
  let config :=
    {| sc_Handler := sc_Handler config; sc_Address := if sc_Address config == "" then DefaultAddress else sc_Address config; sc_TLS := sc_TLS config;
       sc_ReadHeaderTimeout := or_default (sc_ReadHeaderTimeout config) DefaultReadHeaderTimeout;
       sc_ReadTimeout := or_default (sc_ReadTimeout config) DefaultReadTimeout;
       sc_WriteTimeout := or_default (sc_WriteTimeout config) DefaultWriteTimeout;
       sc_IdleTimeout := or_default (sc_IdleTimeout config) DefaultIdleTimeout;
       sc_ShutdownTimeout := or_default (sc_ShutdownTimeout config) DefaultShutdownTimeout;
       sc_MaxHeaderBytes := or_default (sc_MaxHeaderBytes config) DefaultMaxHeaderBytes |} in
  validateServerConfig config ;;;
  Ok {| hl_http := {| sr_Addr := sc_Address config; sr_ReadHeaderTimeout := sc_ReadHeaderTimeout config; sr_ReadTimeout := sc_ReadTimeout config;
                      sr_WriteTimeout := sc_WriteTimeout config; sr_IdleTimeout := sc_IdleTimeout config; sr_MaxHeaderBytes := sc_MaxHeaderBytes config;
                      sr_TLSConfig := bool_decide (is_Some (sc_TLS config)) |};
        hl_tls := sc_TLS config; hl_shutdownTimeout := sc_ShutdownTimeout config |}.

(** A listener's address; a nil one is [None]. *)
Definition loopbackListener (address : option Listener_) : bool :=
  match address with
  | Some a =>
    if li_Network a != "tcp" then false
    else match net.SplitHostPort (codes (li_Address a)) with Some (host, _) => loopbackHost host | None => false end
  | None => false
  end.

(** [http.ErrServerClosed] *)
Definition ErrServerClosed : string := "http: Server closed".

(** How connections are accepted. *)
Inductive transport := Plain | Secured (files : TLSFiles).
(** [run] is [http.Server.Serve] or [ServeTLS] until it returns its error; the
    transport that was used is recorded. *)
Definition Serve (run : transport -> Listener_ -> error) (s : option HTTPListener) (listener : option Listener_) : option error * list transport :=
  match s with
  | None => (Some (PlainError "gateway HTTP server dependencies are required"), [])
  | Some s =>
    match listener with
    | None => (Some (PlainError "gateway HTTP listener is required"), [])
    | Some l =>
      if bool_decide (hl_tls s = None) && negb (loopbackListener (Some l)) then
        (Some (PlainError "gateway HTTP server requires a loopback listener without TLS"), [])
      else
        let used := match hl_tls s with None => Plain | Some files => Secured files end in
        let err := run used l in
        (if errors_Is ErrServerClosed err then None else Some err, [used])
    end
  end.

(** [ctx] is nil, or what [ctx.Err()] says on entry; [listen] is [net.Listen];
    [cancelled] tells whether the context was cancelled first, and what
    [http.Server.Shutdown] returned then.  [errors.Join] drops nil errors. *)
Definition errors_Join (first second : option error) : option error :=
  match first, second with
  | Some a, Some b => Some (JoinError a b)
  | Some a, None | None, Some a => Some a
  | None, None => None
  end.
Definition ListenAndServe (ctx : option (option error)) (listen : string -> result Listener_) (run : transport -> Listener_ -> error)
    (cancelled : option (option error)) (s : option HTTPListener) : option error * list transport :=
  match ctx with
  | None => (Some (PlainError "gateway HTTP server context is required"), [])
  | Some (Some err) => (Some err, [])
  | Some None =>
    match s with
    | None => (Some (PlainError "gateway HTTP server dependencies are required"), [])
    | Some server =>
      match listen (sr_Addr (hl_http server)) with
      | Err err => (Some (WrapError "listening for gateway HTTP requests" err), [])
      | Ok listener =>
        let '(serveErr, used) := Serve run s (Some listener) in
        (match cancelled with None => serveErr | Some shutdownErr => errors_Join shutdownErr serveErr end, used)
      end
    end
  end.

Definition Shutdown (ctx : bool) (s : option HTTPListener) (shutdown : HTTPServer -> option error) : option error :=
  if negb ctx then Some (PlainError "gateway HTTP shutdown context is required")
  else match s with
  | None => Some (PlainError "gateway HTTP server dependencies are required")
  | Some s => shutdown (hl_http s)
  end.

Definition Address (s : option HTTPListener) : string := match s with Some s => sr_Addr (hl_http s) | None => "" end.

(** Plain HTTP is only ever spoken on a TCP loopback listener, and every
    resource bound of a running server is positive and at most its hard
    maximum. *)
Theorem Serve_exposure config server :
  NewServer config = Ok server ->
  (forall run listener, Plain ∈ snd (Serve run (Some server) listener) -> loopbackListener listener = true /\ hl_tls server = None) /\
  (forall run listener files, Secured files ∈ snd (Serve run (Some server) listener) ->
     hl_tls server = Some files /\ tf_Certificate files <> ""%string /\ tf_PrivateKey files <> ""%string /\ sr_TLSConfig (hl_http server) = true) /\
  (hl_tls server = None -> exists host port, net.SplitHostPort (codes (sr_Addr (hl_http server))) = Some (host, port) /\ loopbackHost host = true) /\
  Forall (fun t => 0 < t <= HardMaxServerTimeout)
    [sr_ReadHeaderTimeout (hl_http server); sr_ReadTimeout (hl_http server); sr_WriteTimeout (hl_http server); sr_IdleTimeout (hl_http server);
     hl_shutdownTimeout server] /\
  1 <= sr_MaxHeaderBytes (hl_http server) <= HardMaxHeaderBytes.
Proof.
  unfold NewServer. intros H. apply rbind_Ok in H as ([] & _ & H). cbv zeta in H. apply rbind_Ok in H as ([] & Hv & H).
  apply Ok_inj in H. subst server. unfold validateServerConfig in Hv. cbn [sc_Address sc_TLS sc_ReadHeaderTimeout sc_ReadTimeout sc_WriteTimeout
    sc_IdleTimeout sc_ShutdownTimeout sc_MaxHeaderBytes] in Hv.
  cbn [hl_tls hl_http hl_shutdownTimeout sr_Addr sr_ReadHeaderTimeout sr_ReadTimeout sr_WriteTimeout sr_IdleTimeout sr_MaxHeaderBytes sr_TLSConfig
    sc_TLS sc_MaxHeaderBytes sc_ReadHeaderTimeout sc_ReadTimeout sc_WriteTimeout sc_IdleTimeout sc_ShutdownTimeout].
  destruct (net.SplitHostPort _) as [[host port]|]; [|done]. apply rbind_Ok in Hv as ([] & _ & Hv). apply rbind_Ok in Hv as ([] & Htls%fail_if_Ok & Hv).
  apply rbind_Ok in Hv as ([] & Hfiles%fail_if_Ok & Hv). apply rbind_Ok in Hv as ([] & Ht & Hh%fail_if_Ok).
  split_and!; try (go_cases; lia).
  - intros run listener. unfold Serve. cbn [hl_tls]. destruct listener as [l|]; [|by intros ?%not_elem_of_nil]. destruct (sc_TLS config) as [files|].
    + rewrite bool_decide_false by done. cbn [andb snd]. by intros ?%list_elem_of_singleton.
    + rewrite bool_decide_true by done. cbn [andb]. destruct (loopbackListener (Some l)); [done|]. by intros ?%not_elem_of_nil.
  - intros run listener files. unfold Serve. cbn [hl_tls]. destruct listener as [l|]; [|by intros ?%not_elem_of_nil]. destruct (sc_TLS config) as [files'|].
    + rewrite bool_decide_false by done. cbn [andb snd]. intros [= ->]%list_elem_of_singleton. go_cases. by split_and!.
    + destruct (bool_decide _ && _); [by intros ?%not_elem_of_nil|]. by intros ?%list_elem_of_singleton.
  - intros Hn. exists host, port. split; [done|]. rewrite Hn, bool_decide_true, andb_true_r in Htls by done. by go_cases.
  - apply for_each_Ok in Ht. eapply Forall_impl; [exact Ht|]. intros t Hok%fail_if_Ok. go_cases. lia.
Qed.

(** ** Witness: a token-protected Function behind the fenced Gateway

    The world is the Gateway of [gatewayinvoke]; its store answers
    [LookupAll], and the view's Trigger is given a token. *)
#[local] Existing Instance ex_jcs.
Definition ex_secure (view : gatewaydiscovery.View) : gatewaydiscovery.View :=
  let s := gatewaydiscovery.vw_Snapshot view in
  let t := sn_Trigger s in
  {| gatewaydiscovery.vw_Snapshot :=
       {| sn_SchemaVersion := sn_SchemaVersion s; sn_FunctionID := sn_FunctionID s; sn_DiscoveryEpoch := sn_DiscoveryEpoch s;
          sn_ServingSequence := sn_ServingSequence s; sn_GeneratedAt := sn_GeneratedAt s; sn_Function := sn_Function s;
          sn_Trigger := {| sg_ID := sg_ID t; sg_FunctionID := sg_FunctionID t; sg_ResourceRevision := sg_ResourceRevision t; sg_Enabled := sg_Enabled t;
                           sg_AuthPolicy := AuthToken; sg_TokenVerifierDigest := Some (Sum "s3cret") |};
          sn_Route := sn_Route s; sn_Endpoints := sn_Endpoints s; sn_Checksum := sn_Checksum s |};
     gatewaydiscovery.vw_Endpoints := gatewaydiscovery.vw_Endpoints view |}.
Definition ex_lookup : DiscoverySource := fun g =>
  let '(store, r) := gatewaydiscovery.LookupAll 9 (gatewayinvoke.gw_discovery g) in
  ({| gatewayinvoke.gw_discovery := store; gatewayinvoke.gw_balancer := gatewayinvoke.gw_balancer g |}, views <- r ;; Ok (map ex_secure views)).
Definition ex_answer : abi.Response :=
  {| abi.rp_SpecVersion := "1.0"; abi.rp_Status := 200; abi.rp_Headers := Some {["x-minicloud-version-id"%string := Some ["forged"%string]]}; abi.rp_Body := "hi" |}.
Definition ex_resolver : gatewayinvoke.EndpointResolver (Execution := abi.Response) := fun _ => Ok (Some (fun _ _ _ => (ex_answer, None))).
Definition ex_invoke : InvocationGateway := fun _ call g =>
  let out := gatewayinvoke.Invoke ex_answer ex_resolver None 9 id id call g in
  (gatewayinvoke.oc_Gateway out, (gatewayinvoke.oc_Result out, gatewayinvoke.oc_Error out)).
Definition ex_handler : Handler (W := gatewayinvoke.Gateway) (Execution := abi.Response) :=
  {| h_discovery := Some ex_lookup; h_gateway := Some ex_invoke; h_ids := Some (fun prefix g => (g, (prefix +:+ "-1", None)))%string;
     h_limits := abi.defaults; h_timeout := DefaultTimeout; h_slots := 2; h_rate := Some (fun g => (g, true)) |}.
Definition ex_http (authorization : string) : Request :=
  {| hr_Method := "POST"; hr_EscapedPath := "/invoke/hello/a/b"; hr_RawQuery := "q=1";
     hr_Header := <["Authorization" := [authorization]]> (<["Connection" := ["X-Hop"]]> (<["X-Hop" := ["1"]]> {["Accept" := ["text/plain"]]}))%string;
     hr_Body := {| rpc.rd_bytes := "data"; rpc.rd_err := None; rpc.rd_together := false |}; hr_Deadline := None; hr_HTTP2 := false |}.
Definition ex_now : Time := {| t_wall := 719163 * 86400 * second; t_offset := 0; t_mono := None |}.
Definition ex_serve (authorization : string) : Server * Outcome :=
  ServeHTTP id (fun _ => true) ex_now ex_now (Some ex_handler) (ex_http authorization)
    {| sv_used := 1; sv_world := {| gatewayinvoke.gw_discovery := gatewaydiscovery.ex_synced; gatewayinvoke.gw_balancer := gatewayroute.start |} |}.

Lemma ServeHTTP_authorized_witness :
  (rw_Status (oc_Response (snd (ex_serve "Bearer wrong"))), oc_Invoked (snd (ex_serve "Bearer wrong"))) = (Some 401, []) /\
  Values (rw_Header (oc_Response (snd (ex_serve "bearer s3cret")))) "X-Minicloud-Version-ID" = ["ver_1"%string] /\
  exists call, oc_Invoked (snd (ex_serve "bearer s3cret")) = [call] /\
    map fst (map_to_list (default ∅ (abi.rq_Headers (gatewayinvoke.iq_Invocation call)))) = ["accept"%string] /\
    exists views view, admitted (fun _ => true) ex_now ex_handler (ex_http "bearer s3cret") views view call.
Proof.
  split; [vm_compute; exact eq_refl|]. split; [vm_compute; exact eq_refl|].
  destruct (oc_Invoked (snd (ex_serve "bearer s3cret"))) as [|call rest] eqn:E; [exfalso; revert E; vm_compute; discriminate|].
  assert (call ∈ oc_Invoked (snd (ex_serve "bearer s3cret"))) as Hin by (rewrite E; left).
  destruct (ServeHTTP_authorized id (fun _ => true) ex_now ex_now (Some ex_handler) (ex_http "bearer s3cret") _ call Hin)
    as (Hone & handler & LookupAll & w & w' & views & view & Hh & _ & _ & _ & Ha).
  injection Hh as <-. exists call. split; [rewrite <-E; exact Hone|]. split; [|exists views, view; exact Ha].
  revert E. vm_compute. injection 1 as <- _. exact eq_refl.
Defined.

End gatewayhttp.
