(* ===== verification/JsonDecode.v ===== *)
(** * [encoding/json]: decoding

    The token stream of a [json.Decoder], reading one raw value, and storing
    it in strings, integers and slices, on the bytes of the document. *)
From stdpp Require Import base gmap strings list.
From S2P Require Import Prelude Json Net Abi.

#[local] Open Scope Z_scope.

Module jsondec.

Definition EOF : string := "EOF".
Definition SyntaxError : error := PlainError "invalid JSON syntax".

Definition is_space (b : Z) : bool := (b =? 32) || (b =? 9) || (b =? 13) || (b =? 10).
Fixpoint skip_space (l : list Z) : list Z :=
  match l with
  | b :: l' => if is_space b then skip_space l' else l
  | [] => []
  end.

(** ** Literals *)

(** The scanner's states inside a number. *)
Inductive num_state := NNeg | NZero | NDigits | NDot | NFraction | NExp | NExpSign | NExpDigits.
Definition num_start (b : Z) : option num_state :=
  if b =? 45 then Some NNeg else if b =? 48 then Some NZero else if in_range 49 57 b then Some NDigits else None.
Definition num_step (s : num_state) (b : Z) : option num_state :=
  let fraction_or_exp := if b =? 46 then Some NDot else if (b =? 101) || (b =? 69) then Some NExp else None in
  match s with
  | NNeg => if b =? 48 then Some NZero else if in_range 49 57 b then Some NDigits else None
  | NZero => fraction_or_exp
  | NDigits => if is_digit b then Some NDigits else fraction_or_exp
  | NDot => if is_digit b then Some NFraction else None
  | NFraction => if is_digit b then Some NFraction else if (b =? 101) || (b =? 69) then Some NExp else None
  | NExp => if (b =? 43) || (b =? 45) then Some NExpSign else if is_digit b then Some NExpDigits else None
  | NExpSign => if is_digit b then Some NExpDigits else None
  | NExpDigits => if is_digit b then Some NExpDigits else None
  end.
Definition num_final (s : num_state) : bool :=
  match s with NZero | NDigits | NFraction | NExpDigits => true | _ => false end.

(** The longest number, and the rest. *)
Fixpoint scan_number (s : num_state) (l : list Z) : option (list Z * list Z) :=
  match l with
  | [] => if num_final s then Some ([], []) else None
  | b :: l' =>
    match num_step s b with
    | Some s' => match scan_number s' l' with Some (u, v) => Some (b :: u, v) | None => None end
    | None => if num_final s then Some ([], l) else None
    end
  end.

Definition simple_escape (e : Z) : option Z :=
  if (e =? 34) || (e =? 92) || (e =? 47) then Some e
  else if e =? 98 then Some 8 else if e =? 102 then Some 12 else if e =? 110 then Some 10
  else if e =? 114 then Some 13 else if e =? 116 then Some 9 else None.

(** The contents of a string up to its closing quote, and the rest. *)
Fixpoint scan_string (l : list Z) : option (list Z * list Z) :=
  match l with
  | [] => None
  | b :: l' =>
    if b =? 34 then Some ([], l')
    else if b =? 92 then
      match l' with
      | e :: l2 =>
        if bool_decide (is_Some (simple_escape e)) then
          match scan_string l2 with Some (u, v) => Some (b :: e :: u, v) | None => None end
        else if e =? 117 then
          match l2 with
          | h1 :: h2 :: h3 :: h4 :: l6 =>
            if net.is_hex h1 && net.is_hex h2 && net.is_hex h3 && net.is_hex h4 then
              match scan_string l6 with Some (u, v) => Some (b :: e :: h1 :: h2 :: h3 :: h4 :: u, v) | None => None end
            else None
          | _ => None
          end
        else None
      | [] => None
      end
    else if b <? 32 then None
    else match scan_string l' with Some (u, v) => Some (b :: u, v) | None => None end
  end.

(** [utf8.AppendRune] of a code point that is not a surrogate. *)
Definition encode_rune (c : Z) : list Z :=
  if c <? 0x80 then [c]
  else if c <? 0x800 then [0xC0 + c / 64; 0x80 + c mod 64]
  else if c <? 0x10000 then [0xE0 + c / 4096; 0x80 + c / 64 mod 64; 0x80 + c mod 64]
  else [0xF0 + c / 262144; 0x80 + c / 4096 mod 64; 0x80 + c / 64 mod 64; 0x80 + c mod 64].
Definition RuneError : list Z := [0xEF; 0xBF; 0xBD].

(** [getu4] *)
Definition hex4_value (h1 h2 h3 h4 : Z) : Z :=
  let v b := default 0 (abi.hex_value b) in 4096 * v h1 + 256 * v h2 + 16 * v h3 + v h4.
Definition is_surrogate (c : Z) : bool := in_range 0xD800 0xDFFF c.
(** [utf16.DecodeRune] of a pair, if it is one. *)
Definition decode_pair (hi lo : Z) : option Z :=
  if in_range 0xD800 0xDBFF hi && in_range 0xDC00 0xDFFF lo then Some (0x10000 + (hi - 0xD800) * 1024 + (lo - 0xDC00)) else None.

(** [unquote] of scanned contents: escapes are resolved, a lone surrogate and
    an invalid byte become U+FFFD. *)
Fixpoint unquote (l : list Z) : list Z :=
  match l with
  | [] => []
  | b :: l' =>
    if b =? 92 then
      match l' with
      | e :: l2 =>
        if e =? 117 then
          match l2 with
          | h1 :: h2 :: h3 :: h4 :: l6 =>
            let c := hex4_value h1 h2 h3 h4 in
            if is_surrogate c then
              match l6 with
              | s1 :: s2 :: g1 :: g2 :: g3 :: g4 :: l12 =>
                if (s1 =? 92) && (s2 =? 117) then
                  match decode_pair c (hex4_value g1 g2 g3 g4) with
                  | Some r => encode_rune r ++ unquote l12
                  | None => RuneError ++ unquote l6
                  end
                else RuneError ++ unquote l6
              | _ => RuneError ++ unquote l6
              end
            else encode_rune c ++ unquote l6
          | _ => []
          end
        else default e (simple_escape e) :: unquote l2
      | [] => []
      end
    else if in_range 0 0x7F b then b :: unquote l'
    else match l' with
    | b1 :: l1 =>
      if utf8_valid [b; b1] then b :: b1 :: unquote l1
      else match l1 with
      | b2 :: l2 =>
        if utf8_valid [b; b1; b2] then b :: b1 :: b2 :: unquote l2
        else match l2 with
        | b3 :: l3 => if utf8_valid [b; b1; b2; b3] then b :: b1 :: b2 :: b3 :: unquote l3 else RuneError ++ unquote l'
        | [] => RuneError ++ unquote l'
        end
      | [] => RuneError ++ unquote l'
      end
    | [] => RuneError
    end
  end.

(** ** Tokens *)
Inductive token :=
| Delim (c : Z)
| StringToken (s : string)
| NumberToken (literal : list Z)
| BoolToken (b : bool)
| NullToken.

Definition word (w : string) (t : token) (l : list Z) : option (token * list Z) :=
  if net.starts_with (codes w) l then Some (t, drop (String.length w) l) else None.

(** A string, number or word at the start of the input, as [Decode] reads it
    into an [any] with [UseNumber]. *)
Definition scan_scalar (l : list Z) : option (token * list Z) :=
  match l with
  | [] => None
  | b :: l' =>
    if b =? 34 then match scan_string l' with Some (u, v) => Some (StringToken (json.str_of (unquote u)), v) | None => None end
    else match num_start b with
    | Some s => match scan_number s l' with Some (u, v) => Some (NumberToken (b :: u), v) | None => None end
    | None =>
      if b =? 116 then word "true" (BoolToken true) l
      else if b =? 102 then word "false" (BoolToken false) l
      else if b =? 110 then word "null" NullToken l
      else None
    end
  end.

Inductive token_state := TopValue | ArrayStart | ArrayValue | ArrayComma | ObjectStart | ObjectKey | ObjectColon | ObjectValue | ObjectComma.
#[global] Instance token_state_eq_dec : EqDecision token_state.
Proof. solve_decision. Defined.

Record Decoder := { d_rest : list Z; d_state : token_state; d_stack : list token_state }.
Definition NewDecoder (data : list Z) : Decoder := {| d_rest := data; d_state := TopValue; d_stack := [] |}.

Definition tokenValueAllowed (s : token_state) : bool := match s with TopValue | ArrayStart | ArrayValue | ObjectValue => true | _ => false end.
Definition tokenValueEnd (s : token_state) : token_state :=
  match s with ArrayStart | ArrayValue => ArrayComma | ObjectValue => ObjectComma | _ => s end.

Definition at_ (l : list Z) (s : token_state) (stack : list token_state) : Decoder := {| d_rest := l; d_state := s; d_stack := stack |}.

(** One delimiter, string or other value at the next byte that is not white
    space; a separator is consumed first. *)
Definition token_here : M Decoder token := fun d =>
  let s := d_state d in
  match d_rest d with
  | [] => (d, Err (SentinelError EOF))
  | b :: l' =>
    if (b =? 91) || (b =? 123) then
      if tokenValueAllowed s then (at_ l' (if b =? 91 then ArrayStart else ObjectStart) (s :: d_stack d), Ok (Delim b))
      else (d, Err SyntaxError)
    else if (b =? 93) || (b =? 125) then
      if bool_decide (s = if b =? 93 then ArrayStart else ObjectStart) || bool_decide (s = if b =? 93 then ArrayComma else ObjectComma) then
        match d_stack d with
        | outer :: stack => (at_ l' (tokenValueEnd outer) stack, Ok (Delim b))
        | [] => (d, Err SyntaxError)
        end
      else (d, Err SyntaxError)
    else if (b =? 34) && (bool_decide (s = ObjectStart) || bool_decide (s = ObjectKey)) then
      match scan_string l' with
      | Some (u, v) => (at_ v ObjectColon (d_stack d), Ok (StringToken (json.str_of (unquote u))))
      | None => (d, Err SyntaxError)
      end
    else if tokenValueAllowed s then
      match scan_scalar (d_rest d) with
      | Some (t, v) => (at_ v (tokenValueEnd s) (d_stack d), Ok t)
      | None => (d, Err SyntaxError)
      end
    else (d, Err SyntaxError)
  end.

(** The separators: a comma or colon in its place is skipped, once, since the
    state after it expects a key or a value. *)
Definition separator (b : Z) (s : token_state) : option token_state :=
  if b =? 44 then match s with ArrayComma => Some ArrayValue | ObjectComma => Some ObjectKey | _ => None end
  else if b =? 58 then match s with ObjectColon => Some ObjectValue | _ => None end
  else None.

(** Where the next token starts, and in which state. *)
Definition position (s : token_state) (l : list Z) : token_state * list Z :=
  match skip_space l with
  | b :: l' => match separator b s with Some s' => (s', skip_space l') | None => (s, b :: l') end
  | [] => (s, [])
  end.
Definition Token : M Decoder token := fun d =>
  let '(s, l) := position (d_state d) (d_rest d) in token_here (at_ l s (d_stack d)).

(** [More]: another element, as far as the next byte tells. *)
Definition More (d : Decoder) : bool :=
  match skip_space (d_rest d) with
  | b :: _ => negb ((b =? 93) || (b =? 125))
  | [] => false
  end.

(** ** Raw values

    [readValue]: the bytes of one value and the rest.  The scanner refuses
    more than 10000 nested values.  Every call consumes a byte, so the length
    of the input is enough fuel. *)
Definition maxNestingDepth : Z := 10000.

Fixpoint skip_value (fuel : nat) (depth : Z) (l : list Z) : option (list Z) :=
  match fuel with
  | O => None
  | S fuel' =>
    match l with
    | [] => None
    | b :: l' =>
      if b =? 91 then
        if depth >=? maxNestingDepth then None
        else match skip_space l' with
             | c :: l2 => if c =? 93 then Some l2 else skip_elements fuel' (depth + 1) (c :: l2)
             | [] => None
             end
      else if b =? 123 then
        if depth >=? maxNestingDepth then None
        else match skip_space l' with
             | c :: l2 => if c =? 125 then Some l2 else skip_members fuel' (depth + 1) (c :: l2)
             | [] => None
             end
      else match scan_scalar l with Some (_, v) => Some v | None => None end
    end
  end
(** After an opening bracket or a comma and white space. *)
with skip_elements (fuel : nat) (depth : Z) (l : list Z) : option (list Z) :=
  match fuel with
  | O => None
  | S fuel' =>
    match skip_value fuel' depth l with
    | None => None
    | Some v =>
      match skip_space v with
      | c :: l2 => if c =? 93 then Some l2 else if c =? 44 then skip_elements fuel' depth (skip_space l2) else None
      | [] => None
      end
    end
  end
with skip_members (fuel : nat) (depth : Z) (l : list Z) : option (list Z) :=
  match fuel with
  | O => None
  | S fuel' =>
    match l with
    | b :: l' =>
      if b =? 34 then
        match scan_string l' with
        | None => None
        | Some (_, v) =>
          match skip_space v with
          | c :: l2 =>
            if c =? 58 then
              match skip_value fuel' depth (skip_space l2) with
              | None => None
              | Some w =>
                match skip_space w with
                | c :: l3 => if c =? 125 then Some l3 else if c =? 44 then skip_members fuel' depth (skip_space l3) else None
                | [] => None
                end
              end
            else None
          | [] => None
          end
        end
      else None
    | [] => None
    end
  end.

(** The bytes of the value at the start of [l], and the rest. *)
Definition readValue (l : list Z) : option (list Z * list Z) :=
  match skip_value (S (length l)) 0 l with
  | Some rest => Some (take (length l - length rest) l, rest)
  | None => None
  end.

(** [Decode] of the next value: its raw bytes. *)
Definition Decode : M Decoder (list Z) := fun d =>
  let '(s, l) := position (d_state d) (d_rest d) in
  if tokenValueAllowed s then
    match readValue l with
    | Some (raw, rest) => (at_ rest (tokenValueEnd s) (d_stack d), Ok raw)
    | None => (d, Err (match l with [] => SentinelError EOF | _ => SyntaxError end))
    end
  else (d, Err SyntaxError).

(** ** Storing a raw value *)

(** The first byte. *)
Definition starts (b : Z) (l : list Z) : bool := match l with c :: _ => c =? b | [] => false end.

(** The raw elements of an array, [None] for [null]: a [[]json.RawMessage]. *)
Fixpoint elements (fuel : nat) (l : list Z) : option (list (list Z)) :=
  match fuel with
  | O => None
  | S fuel' =>
    match readValue l with
    | None => None
    | Some (raw, v) =>
      match skip_space v with
      | c :: l2 => if c =? 93 then Some [raw]
                   else if c =? 44 then match elements fuel' (skip_space l2) with Some raws => Some (raw :: raws) | None => None end
                   else None
      | [] => None
      end
    end
  end.
Definition store_raws (raw : list Z) : result (option (list (list Z))) :=
  if starts 91 raw then
    let l := skip_space (tl raw) in
    if starts 93 l then Ok (Some [])
    else match elements (length raw) l with Some raws => Ok (Some raws) | None => Err SyntaxError end
  else if starts 110 raw then Ok None
  else Err (PlainError "json: cannot unmarshal value into Go value of type []json.RawMessage").

(** The members of an object: keys and raw values. *)
Fixpoint members (fuel : nat) (l : list Z) : option (list (string * list Z)) :=
  match fuel with
  | O => None
  | S fuel' =>
    match l with
    | b :: l' =>
      if b =? 34 then
        match scan_string l' with
        | None => None
        | Some (u, v) =>
          match skip_space v with
          | c :: l2 =>
            if c =? 58 then
              match readValue (skip_space l2) with
              | None => None
              | Some (raw, w) =>
                let member := (json.str_of (unquote u), raw) in
                match skip_space w with
                | c :: l3 => if c =? 125 then Some [member]
                             else if c =? 44 then match members fuel' (skip_space l3) with Some rest => Some (member :: rest) | None => None end
                             else None
                | [] => None
                end
              end
            else None
          | [] => None
          end
        end
      else None
    | [] => None
    end
  end.
Definition object_members (raw : list Z) : option (list (string * list Z)) :=
  if starts 123 raw then
    let l := skip_space (tl raw) in
    if starts 125 l then Some [] else members (length raw) l
  else None.

(** A string field keeps its value for [null]. *)
Definition store_string (raw : list Z) (old : string) : result string :=
  if starts 34 raw then match scan_string (tl raw) with Some (u, _) => Ok (json.str_of (unquote u)) | None => Err SyntaxError end
  else if starts 110 raw then Ok old
  else Err (PlainError "json: cannot unmarshal value into Go value of type string").
(** A pointer to a string becomes nil for [null]. *)
Definition store_string_pointer (raw : list Z) : result (option string) :=
  if starts 110 raw then Ok None else s <- store_string raw "" ;; Ok (Some s).

(** [strconv.ParseInt(s, 10, 64)] and [ParseUint(s, 10, 64)] of a number
    literal. *)
Definition ParseInt64 (l : list Z) : option Z :=
  if starts 45 l then match net.ParseUint 64 (tl l) with Some v => if v <=? 2 ^ 63 then Some (- v) else None | None => None end
  else match net.ParseUint 64 l with Some v => if v <? 2 ^ 63 then Some v else None | None => None end.
Definition store_number (parse : list Z -> option Z) (raw : list Z) (old : Z) : result Z :=
  if starts 110 raw then Ok old
  else match parse raw with Some v => Ok v | None => Err (PlainError "json: cannot unmarshal value into Go value of type int") end.
Definition store_int : list Z -> Z -> result Z := store_number ParseInt64.
Definition store_uint64 : list Z -> Z -> result Z := store_number (net.ParseUint 64).

(** The field of a struct that a key selects: the one of exactly this name,
    else one that differs only in case.  Folding takes the long s (U+017F) for
    an s and the Kelvin sign (U+212A) for a k; no other rune outside ASCII
    folds to an ASCII letter. *)
Fixpoint fold_name (l : list Z) : list Z :=
  match l with
  | [] => []
  | b :: l' =>
    match l' with
    | c :: l2 =>
      if (b =? 0xC5) && (c =? 0xBF) then 115 :: fold_name l2
      else match l2 with
      | d :: l3 => if (b =? 0xE2) && (c =? 0x84) && (d =? 0xAA) then 107 :: fold_name l3 else abi.lower_byte b :: fold_name l'
      | [] => abi.lower_byte b :: fold_name l'
      end
    | [] => [abi.lower_byte b]
    end
  end.
Definition select_field (names : list string) (key : string) : option string :=
  if bool_decide (key ∈ names) then Some key
  else List.find (fun name => bool_decide (fold_name (codes name) = fold_name (codes key))) names.

(** A struct, with [DisallowUnknownFields]: members are stored in the order
    of the document; [null] changes nothing. *)
Definition store_struct {A} (names : list string) (store : string -> list Z -> A -> result A) (raw : list Z) (old : A) : result A :=
  if starts 110 raw then Ok old
  else match object_members raw with
  | None => Err (PlainError "json: cannot unmarshal value into Go struct")
  | Some ms =>
    foldl (fun acc '(key, value) =>
      a <- acc ;;
      match select_field names key with
      | None => Err (PlainError "json: unknown field")
      | Some name => store name value a
      end) (Ok old) ms
  end.

Example Token_ex :
  let run := fix run fuel d := match fuel with O => [] | S fuel' => match Token d with (d', Ok t) => t :: run fuel' d' | (_, Err _) => [] end end in
  run 20%nat (NewDecoder (codes "{ 'a' : [1, -2.5e3 ,true], 'b':null }")) = [Delim 123] /\
  run 20%nat (NewDecoder (codes "[1, [2 , 0], -2.5e3 ,true]")) =
    [Delim 91; NumberToken [49]; Delim 91; NumberToken [50]; NumberToken [48]; Delim 93; NumberToken (codes "-2.5e3"); BoolToken true; Delim 93] /\
  run 20%nat (NewDecoder (codes "[1,]")) = [Delim 91; NumberToken [49]] /\ run 20%nat (NewDecoder (codes "[01]")) = [Delim 91; NumberToken [48]].
Proof. split_and!; by vm_compute. Qed.


(** ** Lexemes *)
Definition spaces (l : list Z) : Prop := Forall (fun b => is_space b = true) l.
(** The first byte, if there is one, is not white space. *)
Definition trimmed_left (l : list Z) : Prop := match l with b :: _ => is_space b = false | [] => True end.

Lemma skip_space_split l : exists w, spaces w /\ l = w ++ skip_space l /\ trimmed_left (skip_space l).
Proof.
  induction l as [|b l (w & Hw & Hl & Ht)]; cbn [skip_space]; [exists []; split_and!; [constructor|done|done]|].
  destruct (is_space b) eqn:E.
  - exists (b :: w). split_and!; [by constructor| |done]. simpl. by f_equal.
  - exists []. split_and!; [constructor|done|done].
Qed.
Lemma skip_space_app w l : spaces w -> trimmed_left l -> skip_space (w ++ l) = l.
Proof.
  intros Hw Ht. induction Hw as [|b w Hb Hw IH]; simpl.
  - destruct l as [|b l]; [done|]. simpl in *. by rewrite Ht.
  - by rewrite Hb.
Qed.
Lemma skip_space_trimmed l : trimmed_left l -> skip_space l = l.
Proof. destruct l as [|b l]; [done|]. cbn [skip_space trimmed_left]. by intros ->. Qed.
Lemma skip_space_length l : (length (skip_space l) <= length l)%nat.
Proof. destruct (skip_space_split l) as (w & _ & H & _). rewrite H at 2. rewrite length_app. lia. Qed.

(** A byte that can follow a value. *)
Definition stop_byte (b : Z) : bool := is_space b || (b =? 44) || (b =? 93) || (b =? 125).
Definition stops (l : list Z) : Prop := match l with b :: _ => stop_byte b = true | [] => True end.

Lemma stop_byte_cases b : stop_byte b = true -> b = 32 \/ b = 9 \/ b = 13 \/ b = 10 \/ b = 44 \/ b = 93 \/ b = 125.
Proof. unfold stop_byte, is_space. rewrite !orb_true_iff, !Z.eqb_eq. tauto. Qed.

Lemma num_step_stop s b : stop_byte b = true -> num_step s b = None.
Proof. intros H%stop_byte_cases. destruct s; decompose [or] H; subst b; done. Qed.

Lemma scan_number_split s l u v :
  scan_number s l = Some (u, v) -> l = u ++ v /\ forall v', stops v' -> scan_number s (u ++ v') = Some (u, v').
Proof.
  revert s u v. induction l as [|b l IH]; intros s u v; cbn [scan_number].
  - destruct (num_final s) eqn:Ef; [|done]. intros [= <- <-]. split; [done|]. intros [|c v'] Hv; cbn [app scan_number]; [by rewrite Ef|].
    by rewrite (num_step_stop s c Hv), Ef.
  - destruct (num_step s b) as [s'|] eqn:Es.
    + destruct (scan_number s' l) as [[u' v'']|] eqn:E; [|done]. intros [= <- <-]. apply IH in E as [-> E]. split; [done|].
      intros v' Hv. cbn [app scan_number]. by rewrite Es, E.
    + destruct (num_final s) eqn:Ef; [|done]. intros [= <- <-]. split; [done|]. intros [|c v'] Hv; cbn [app scan_number]; [by rewrite Ef|].
      by rewrite (num_step_stop s c Hv), Ef.
Qed.

Lemma scan_string_split l u v :
  scan_string l = Some (u, v) -> l = u ++ 34 :: v /\ forall v', scan_string (u ++ 34 :: v') = Some (u, v').
Proof.
  remember (length l) as n eqn:Hn. revert l u v Hn. induction (lt_wf n) as [n _ IH]. intros l u v ->.
  destruct l as [|b l]; [done|]. cbn [scan_string]. destruct (b =? 34) eqn:Eq; [apply Z.eqb_eq in Eq as ->; by intros [= <- <-]|].
  destruct (b =? 92) eqn:Eb.
  - destruct l as [|e l2]; [done|]. case_bool_decide as He.
    + destruct (scan_string l2) as [[u' v'']|] eqn:E; [|done]. intros [= <- <-].
      apply (IH (length l2)) in E as [-> E]; [|simpl; lia|done]. split; [done|]. intros v'. cbn [app scan_string].
      rewrite Eq, Eb, bool_decide_true by done. by rewrite E.
    + destruct (e =? 117) eqn:Eu; [|done]. destruct l2 as [|h1 [|h2 [|h3 [|h4 l6]]]]; try done.
      destruct (_ && _) eqn:Eh; [|done]. destruct (scan_string l6) as [[u' v'']|] eqn:E; [|done]. intros [= <- <-].
      apply (IH (length l6)) in E as [-> E]; [|simpl; lia|done]. split; [done|]. intros v'. cbn [app scan_string].
      rewrite Eq, Eb, bool_decide_false by done. by rewrite Eu, Eh, E.
  - destruct (b <? 32) eqn:El; [done|]. destruct (scan_string l) as [[u' v'']|] eqn:E; [|done]. intros [= <- <-].
    apply (IH (length l)) in E as [-> E]; [|simpl; lia|done]. split; [done|]. intros v'. cbn [app scan_string]. by rewrite Eq, Eb, El, E.
Qed.

Lemma starts_with_split p l : net.starts_with p l = true <-> exists v, l = p ++ v.
Proof.
  revert l. induction p as [|x p IH]; intros l; cbn [net.starts_with].
  - split; [by exists l|done].
  - destruct l as [|y l]; [split; [done|by intros [v ?]]|]. rewrite andb_true_iff, Z.eqb_eq, IH. split.
    + intros [-> [v ->]]. by exists v.
    + intros [v [= -> ->]]. eauto.
Qed.

Lemma word_split w t l t' v : word w t l = Some (t', v) -> t' = t /\ l = codes w ++ v.
Proof.
  unfold word. destruct (net.starts_with _ _) eqn:E; [|done]. apply starts_with_split in E as [x ->]. intros [= <- <-].
  split; [done|]. by rewrite <-(length_codes w), drop_app_length.
Qed.
Lemma word_app w t v : word w t (codes w ++ v) = Some (t, v).
Proof.
  unfold word. rewrite (proj2 (starts_with_split _ _)) by eauto. by rewrite <-(length_codes w), drop_app_length.
Qed.

(** A scalar ends where its lexeme does, whatever follows it. *)
Lemma scan_scalar_split l t v :
  scan_scalar l = Some (t, v) ->
  exists b x, l = (b :: x) ++ v /\ is_space b = false /\ b <> 91 /\ b <> 123 /\ b <> 93 /\ b <> 125 /\ b <> 44 /\ b <> 58 /\
    forall v', stops v' -> scan_scalar ((b :: x) ++ v') = Some (t, v').
Proof.
  destruct l as [|b l]; [done|]. cbn [scan_scalar]. destruct (b =? 34) eqn:Eq.
  - apply Z.eqb_eq in Eq as ->. destruct (scan_string l) as [[u v'']|] eqn:E; [|done]. intros [= <- <-].
    apply scan_string_split in E as [-> E]. exists 34, (u ++ [34]). rewrite <-app_comm_cons, <-app_assoc. split_and!; try done.
    intros v' _. rewrite <-app_comm_cons, <-app_assoc. cbn [scan_scalar app]. by rewrite E.
  - destruct (num_start b) as [s|] eqn:En.
    + destruct (scan_number s l) as [[u v'']|] eqn:E; [|done]. intros [= <- <-]. apply scan_number_split in E as [-> E].
      exists b, u. assert (b = 45 \/ b = 48 \/ 49 <= b <= 57) as Hb.
      { unfold num_start, in_range in En. destruct (b =? 45) eqn:?; [go_cases; lia|]. destruct (b =? 48) eqn:?; [go_cases; lia|].
        destruct (_ && _) eqn:?; [go_cases; lia|done]. }
      split_and!; try done; try lia.
      * unfold is_space. rewrite !orb_false_iff, !Z.eqb_neq. lia.
      * intros v' Hv. cbn [scan_scalar app]. by rewrite Eq, En, E.
    + assert (forall w t0, codes w = b :: tl (codes w) -> word w t0 (b :: l) = Some (t, v) ->
        (forall v', scan_scalar (codes w ++ v') = word w t0 (codes w ++ v')) -> b = 116 \/ b = 102 \/ b = 110 ->
        exists c x, b :: l = (c :: x) ++ v /\ is_space c = false /\ c <> 91 /\ c <> 123 /\ c <> 93 /\ c <> 125 /\ c <> 44 /\ c <> 58 /\
        forall v', stops v' -> scan_scalar ((c :: x) ++ v') = Some (t, v')) as Hw.
      { intros w t0 Hc [-> Hl]%word_split Hs Hb. exists b, (tl (codes w)). rewrite <-Hc. split_and!; try done; try lia.
        - unfold is_space. rewrite !orb_false_iff, !Z.eqb_neq. lia.
        - intros v' _. rewrite Hs. apply word_app. }
      destruct (b =? 116) eqn:E1; [apply Z.eqb_eq in E1 as ->; intros H; apply (Hw "true"%string _ eq_refl H); [done|tauto]|].
      destruct (b =? 102) eqn:E2; [apply Z.eqb_eq in E2 as ->; intros H; apply (Hw "false"%string _ eq_refl H); [done|tauto]|].
      destruct (b =? 110) eqn:E3; [apply Z.eqb_eq in E3 as ->; intros H; apply (Hw "null"%string _ eq_refl H); [done|tauto]|]. done.
Qed.

Lemma scan_scalar_app x t v : scan_scalar x = Some (t, []) -> stops v -> scan_scalar (x ++ v) = Some (t, v).
Proof.
  intros H Hv. apply scan_scalar_split in H as (b & x' & Hx & _ & _ & _ & _ & _ & _ & _ & H). rewrite app_nil_r in Hx. subst x. by apply H.
Qed.

Lemma scan_scalar_no_delim l t v : scan_scalar l = Some (t, v) -> forall c, t <> Delim c.
Proof.
  destruct l as [|b l]; [done|]. cbn [scan_scalar]. destruct (b =? 34); [destruct (scan_string l) as [[? ?]|]; naive_solver|].
  destruct (num_start b) as [s|]; [destruct (scan_number s l) as [[? ?]|]; naive_solver|].
  intros H c. revert H. unfold word. repeat case_match; naive_solver.
Qed.

End jsondec.
