(* ===== verification/StrictJson.v ===== *)
(** * Package [internal/strictjson]: bounded, unambiguous JSON

    [Validate] walks the token stream of a [json.Decoder].  It is compared
    with a grammar that does not mention tokens: the documents it accepts are
    those of the grammar that nest at most [maxDepth] deep and repeat no key
    in an object. *)
From stdpp Require Import base gmap strings list.
From S2P Require Import Prelude Json Net Abi Rpc JsonDecode.
Import jsondec.

#[local] Open Scope Z_scope.
#[local] Set Warnings "-register-all".

Module strictjson.

Definition ErrTooLarge : string := "json input exceeds size limit".
Definition ErrTooDeep : string := "json input exceeds depth limit".
Definition ErrDuplicateKey : string := "json object contains duplicate key".

Definition Read (source : option rpc.Reader) (maxBytes : Z) : result string :=
  match source with
  | None => Err (PlainError "json source is required")
  | Some source =>
    fail_if (maxBytes <? 1) (PlainError "json size limit must be positive") ;;;
    data <- wrap_err "reading json" (rpc.ReadAll_Limit source (i64 (maxBytes + 1))) ;;
    fail_if (strlen data >? maxBytes) (SentinelError ErrTooLarge) ;;;
    Ok data
  end.

(** Every call of [Token] that succeeds consumes a byte, so fuel never runs
    out, see [Validate_spec]. *)
Definition out_of_fuel : error := PlainError "fuel".

Definition read_token (context : string) : M Decoder token := fun d =>
  let '(d, r) := Token d in (d, wrap_err context r).

Definition consumeClosing (expected : Z) : M Decoder unit :=
  let! token := read_token "reading json closing delimiter" in
  match token with
  | Delim c => if c =? expected then sret tt else sthrow (PlainError "json input contains mismatched delimiter")
  | _ => sthrow (PlainError "json input contains mismatched delimiter")
  end.

Fixpoint validateValue (fuel : nat) (depth maxDepth : Z) : M Decoder unit :=
  match fuel with
  | O => sthrow out_of_fuel
  | S fuel' =>
    let! token := read_token "reading json token" in
    match token with
    | Delim c =>
      if depth + 1 >? maxDepth then sthrow (SentinelError ErrTooDeep)
      else if c =? 123 then validateObject fuel' ∅ (depth + 1) maxDepth
      else if c =? 91 then validateArray fuel' (depth + 1) maxDepth
      else sthrow (PlainError "json input contains unexpected closing delimiter")
    | _ => sret tt
    end
  end
(** The loops; [keys] are those seen. *)
with validateObject (fuel : nat) (keys : gset string) (depth maxDepth : Z) : M Decoder unit :=
  match fuel with
  | O => sthrow out_of_fuel
  | S fuel' =>
    let! d := sget in
    if More d then
      let! token := read_token "reading json object key" in
      match token with
      | StringToken key =>
        if bool_decide (key ∈ keys) then sthrow (WrapError key (SentinelError ErrDuplicateKey))
        else
          do! validateValue fuel' depth maxDepth in
          validateObject fuel' ({[ key ]} ∪ keys) depth maxDepth
      | _ => sthrow (PlainError "json object key is not a string")
      end
    else consumeClosing 125
  end
with validateArray (fuel : nat) (depth maxDepth : Z) : M Decoder unit :=
  match fuel with
  | O => sthrow out_of_fuel
  | S fuel' =>
    let! d := sget in
    if More d then
      do! validateValue fuel' depth maxDepth in
      validateArray fuel' depth maxDepth
    else consumeClosing 93
  end.

Definition Validate (data : string) (maxDepth : Z) : result unit :=
  fail_if (maxDepth <? 1) (PlainError "json depth limit must be positive") ;;;
  fail_if (negb (utf8_ValidString data)) (PlainError "json input is not valid utf-8") ;;;
  snd ((do! validateValue (2 * length (codes data) + 2) 0 maxDepth in
        (fun d => match Token d with
                  | (d, Ok _) => (d, Err (PlainError "json input contains multiple values"))
                  | (d, Err err) => (d, if errors_Is EOF err then Ok tt else Err (WrapError "reading json trailing data" err))
                  end)) (NewDecoder (codes data))).

Definition q : string := json.quote.
Example Validate_ex :
  map (fun s => is_ok (Validate s 3))
    ["{" +:+ q +:+ "a" +:+ q +:+ ": [1, {}], " +:+ q +:+ "b" +:+ q +:+ ":null }"; " [ ] "; "1"; "[[[]]]"; "[[[[]]]]"; "[1,]"; "{" +:+ q +:+ "a" +:+ q +:+ ":1,"
       +:+ q +:+ "\u0061" +:+ q +:+ ":2}"; "1 2"; "tru"; ""; "[01]"; "[1}"]%string
  = [true; true; true; true; false; false; false; false; false; false; false; false].
Proof. by vm_compute. Qed.

(** ** The grammar *)
Inductive doc :=
| DScalar (t : token)
| DArray (l : list doc)
| DObject (l : list (string * doc)).

(** A scalar is one lexeme; a key is a string lexeme and its decoded value. *)
Inductive text : doc -> list Z -> Prop :=
| text_scalar t l : scan_scalar l = Some (t, []) -> text (DScalar t) l
| text_array_empty w : spaces w -> text (DArray []) (91 :: w ++ [93])
| text_array d ds w x more : spaces w -> text d x -> elements_more ds more -> text (DArray (d :: ds)) (91 :: w ++ x ++ more ++ [93])
| text_object_empty w : spaces w -> text (DObject []) (123 :: w ++ [125])
| text_object k d ds w x more : spaces w -> member k d x -> members_more ds more -> text (DObject ((k, d) :: ds)) (123 :: w ++ x ++ more ++ [125])
(** What follows an element of an array, up to the closing bracket. *)
with elements_more : list doc -> list Z -> Prop :=
| elements_end w : spaces w -> elements_more [] w
| elements_next d ds w w' x more : spaces w -> spaces w' -> text d x -> elements_more ds more -> elements_more (d :: ds) (w ++ 44 :: w' ++ x ++ more)
with member : string -> doc -> list Z -> Prop :=
| member_text u d w w' x : scan_string (u ++ [34]) = Some (u, []) -> spaces w -> spaces w' -> text d x ->
    member (json.str_of (unquote u)) d (34 :: u ++ 34 :: w ++ 58 :: w' ++ x)
with members_more : list (string * doc) -> list Z -> Prop :=
| members_end w : spaces w -> members_more [] w
| members_next k d ds w w' x more : spaces w -> spaces w' -> member k d x -> members_more ds more -> members_more ((k, d) :: ds) (w ++ 44 :: w' ++ x ++ more).

Fixpoint doc_depth (d : doc) : Z :=
  match d with
  | DScalar _ => 0
  | DArray l => 1 + foldr (fun d n => Z.max (doc_depth d) n) 0 l
  | DObject l => 1 + foldr (fun kd n => Z.max (doc_depth (snd kd)) n) 0 l
  end.
Fixpoint unique_keys (d : doc) : Prop :=
  match d with
  | DScalar _ => True
  | DArray l => foldr (fun d P => unique_keys d /\ P) True l
  | DObject l => NoDup (map fst l) /\ foldr (fun kd P => unique_keys (snd kd) /\ P) True l
  end.

(** A document: one value between white space. *)
Definition document (d : doc) (data : list Z) : Prop :=
  exists w x w', data = w ++ x ++ w' /\ spaces w /\ spaces w' /\ text d x.


(** ** Reading a token *)
Inductive reads : token_state -> list token_state -> list Z -> token -> Decoder -> Prop :=
| reads_array s st l : tokenValueAllowed s = true -> reads s st (91 :: l) (Delim 91) (at_ l ArrayStart (s :: st))
| reads_object s st l : tokenValueAllowed s = true -> reads s st (123 :: l) (Delim 123) (at_ l ObjectStart (s :: st))
| reads_array_end s outer st l : s = ArrayStart \/ s = ArrayComma -> reads s (outer :: st) (93 :: l) (Delim 93) (at_ l (tokenValueEnd outer) st)
| reads_object_end s outer st l : s = ObjectStart \/ s = ObjectComma -> reads s (outer :: st) (125 :: l) (Delim 125) (at_ l (tokenValueEnd outer) st)
| reads_key s st l u v : s = ObjectStart \/ s = ObjectKey -> scan_string l = Some (u, v) ->
    reads s st (34 :: l) (StringToken (json.str_of (unquote u))) (at_ v ObjectColon st)
| reads_scalar s st l t v : tokenValueAllowed s = true -> scan_scalar l = Some (t, v) -> reads s st l t (at_ v (tokenValueEnd s) st).

Lemma token_here_reads s st l t d' : token_here (at_ l s st) = (d', Ok t) <-> reads s st l t d'.
Proof.
  split.
  - unfold token_here. cbn [at_ d_rest d_state d_stack]. destruct l as [|b l]; [done|].
    destruct (b =? 91) eqn:E1; [apply Z.eqb_eq in E1 as ->; simpl; destruct (tokenValueAllowed s) eqn:Ea; [|done]; intros [= <- <-]; by constructor|].
    destruct (b =? 123) eqn:E2; [apply Z.eqb_eq in E2 as ->; simpl; destruct (tokenValueAllowed s) eqn:Ea; [|done]; intros [= <- <-]; by constructor|].
    cbn [orb]. destruct (b =? 93) eqn:E3.
    { apply Z.eqb_eq in E3 as ->. cbn [orb]. destruct (_ || _) eqn:Eo; [|done]. destruct st as [|outer st]; [done|]. intros [= <- <-]. constructor.
      apply orb_true_iff in Eo as [?%bool_decide_eq_true|?%bool_decide_eq_true]; tauto. }
    destruct (b =? 125) eqn:E4.
    { apply Z.eqb_eq in E4 as ->. cbn [orb]. destruct (_ || _) eqn:Eo; [|done]. destruct st as [|outer st]; [done|]. intros [= <- <-]. constructor.
      apply orb_true_iff in Eo as [?%bool_decide_eq_true|?%bool_decide_eq_true]; tauto. }
    cbn [orb]. destruct ((b =? 34) && _) eqn:E5.
    { apply andb_true_iff in E5 as [->%Z.eqb_eq Eo]. destruct (scan_string l) as [[u v]|] eqn:Es; [|done]. intros [= <- <-]. constructor; [|done].
      apply orb_true_iff in Eo as [?%bool_decide_eq_true|?%bool_decide_eq_true]; tauto. }
    destruct (tokenValueAllowed s) eqn:Ea; [|done]. destruct (scan_scalar (b :: l)) as [[t' v]|] eqn:Es; [|done]. intros [= <- <-]. by constructor.
  - unfold token_here. intros H. destruct H as [s st l H|s st l H|s outer st l H|s outer st l H|s st l u v H Hs|s st l t v H Hs]; cbn [at_ d_rest d_state d_stack].
    + cbn [Z.eqb Pos.eqb orb]. by rewrite H.
    + cbn [Z.eqb Pos.eqb orb]. by rewrite H.
    + by destruct H as [-> | -> ].
    + by destruct H as [-> | -> ].
    + destruct H as [-> | -> ]; simpl; by rewrite Hs.
    + pose proof Hs as Hs'. apply scan_scalar_split in Hs' as (b & x & -> & _ & H1 & H2 & H3 & H4 & _). cbn [app].
      rewrite (proj2 (Z.eqb_neq b 91) H1), (proj2 (Z.eqb_neq b 123) H2), (proj2 (Z.eqb_neq b 93) H3), (proj2 (Z.eqb_neq b 125) H4). cbn [orb].
      replace ((b =? 34) && _) with false by (destruct s; try done; by rewrite andb_false_r). rewrite H. cbn [app] in Hs. by rewrite Hs.
Qed.

Lemma Token_reads s l st t d' : Token (at_ l s st) = (d', Ok t) <-> let '(s', l') := position s l in reads s' st l' t d'.
Proof. unfold Token. cbn [at_ d_rest d_state d_stack]. destruct (position s l) as [s' l']. apply token_here_reads. Qed.

Lemma read_token_reads context s l st t d' :
  read_token context (at_ l s st) = (d', Ok t) <-> let '(s', l') := position s l in reads s' st l' t d'.
Proof.
  unfold read_token. rewrite <-Token_reads. destruct (Token _) as [d [t'|err]]; simpl; naive_solver.
Qed.

(** A position is reached over white space and at most one separator. *)
Lemma position_spec s l s' l' :
  position s l = (s', l') -> trimmed_left l' /\ exists w, spaces w /\
  ((s' = s /\ l = w ++ l' /\ match l' with b :: _ => separator b s = None | [] => True end) \/
   exists b w', separator b s = Some s' /\ spaces w' /\ l = w ++ b :: w' ++ l').
Proof.
  unfold position. destruct (skip_space_split l) as (w & Hw & Hl & Ht). destruct (skip_space l) as [|b l1].
  - intros [= <- <-]. split; [done|]. exists w. split; [done|]. by left.
  - destruct (separator b s) as [s1|] eqn:Es.
    + intros [= <- <-]. destruct (skip_space_split l1) as (w' & Hw' & Hl' & Ht'). split; [done|]. exists w. split; [done|]. right.
      exists b, w'. split_and!; [done..|]. by rewrite Hl, <-Hl'.
    + intros [= <- <-]. split; [done|]. exists w. split; [done|]. by left.
Qed.

Lemma separator_spec b s s' : separator b s = Some s' ->
  (b = 44 /\ s = ArrayComma /\ s' = ArrayValue) \/ (b = 44 /\ s = ObjectComma /\ s' = ObjectKey) \/ (b = 58 /\ s = ObjectColon /\ s' = ObjectValue).
Proof.
  unfold separator. destruct (b =? 44) eqn:E1; [apply Z.eqb_eq in E1; destruct s; try done; intros [= <-]; tauto|].
  destruct (b =? 58) eqn:E2; [apply Z.eqb_eq in E2; destruct s; try done; intros [= <-]; tauto|]. done.
Qed.

(** ** Soundness *)
Section sound.
Context (maxDepth : Z).

(** Where a value is expected. *)
Definition before_value (s : token_state) : Prop := s = TopValue \/ s = ArrayStart \/ s = ArrayComma \/ s = ObjectColon.
Definition fits (depth : Z) (d : doc) : Prop := depth + doc_depth d <= maxDepth /\ unique_keys d.

(** What a body between brackets holds, when its first element follows the
    opening one, or another element. *)
Definition elements_body (s : token_state) (ds : list doc) (body : list Z) : Prop :=
  if decide (s = ArrayStart) then text (DArray ds) (91 :: body ++ [93]) else elements_more ds body.
Definition members_body (s : token_state) (ds : list (string * doc)) (body : list Z) : Prop :=
  if decide (s = ObjectStart) then text (DObject ds) (123 :: body ++ [125]) else members_more ds body.

Definition value_sound (fuel : nat) : Prop := forall depth l s st d', before_value s -> depth <= maxDepth ->
  validateValue fuel depth maxDepth (at_ l s st) = (d', Ok tt) ->
  let '(s', l') := position s l in
  tokenValueAllowed s' = true /\ exists d x rest, l' = x ++ rest /\ text d x /\ d' = at_ rest (tokenValueEnd s') st /\ fits depth d.
Definition array_sound (fuel : nat) : Prop := forall depth l s outer st d', s = ArrayStart \/ s = ArrayComma -> depth <= maxDepth ->
  validateArray fuel depth maxDepth (at_ l s (outer :: st)) = (d', Ok tt) ->
  exists ds body rest, l = body ++ 93 :: rest /\ elements_body s ds body /\ d' = at_ rest (tokenValueEnd outer) st /\ Forall (fits depth) ds.
Definition object_sound (fuel : nat) : Prop := forall keys depth l s outer st d', s = ObjectStart \/ s = ObjectComma -> depth <= maxDepth ->
  validateObject fuel keys depth maxDepth (at_ l s (outer :: st)) = (d', Ok tt) ->
  exists ds body rest, l = body ++ 125 :: rest /\ members_body s ds body /\ d' = at_ rest (tokenValueEnd outer) st /\
    Forall (fun kd => fits depth (snd kd)) ds /\ NoDup (map fst ds) /\ (forall k, k ∈ map fst ds -> k ∉ keys).

Lemma sbind_Ok {S A B} (m : M S A) (k : A -> M S B) s s' b :
  sbind m k s = (s', Ok b) <-> exists s1 a, m s = (s1, Ok a) /\ k a s1 = (s', Ok b).
Proof. unfold sbind. destruct (m s) as [s1 [a|err]]; naive_solver. Qed.

Lemma depth_fits_list depth ds : depth <= maxDepth -> Forall (fits depth) ds ->
  depth + foldr (fun d n => Z.max (doc_depth d) n) 0 ds <= maxDepth /\ foldr (fun d P => unique_keys d /\ P) True ds.
Proof. intros Hd. induction 1 as [|d ds [H1 H2] Hds [IH1 IH2]]; simpl; [by split; [lia|]|]. split; [lia|done]. Qed.
Lemma depth_fits_members depth (ds : list (string * doc)) : depth <= maxDepth -> Forall (fun kd => fits depth (snd kd)) ds ->
  depth + foldr (fun kd n => Z.max (doc_depth (snd kd)) n) 0 ds <= maxDepth /\ foldr (fun kd P => unique_keys (snd kd) /\ P) True ds.
Proof. intros Hd. induction 1 as [|d ds [H1 H2] Hds [IH1 IH2]]; simpl; [by split; [lia|]|]. split; [lia|done]. Qed.

Lemma value_sound_step fuel : array_sound fuel -> object_sound fuel -> value_sound (S fuel).
Proof.
  intros HA HO depth l s st d' Hs Hd H. cbn [validateValue] in H. apply sbind_Ok in H as (d1 & t & Ht & H). apply read_token_reads in Ht.
  destruct (position s l) as [s' l'] eqn:Hp. assert (s' <> ObjectStart /\ s' <> ObjectKey) as [Hn1 Hn2].
  { apply position_spec in Hp as (_ & w & _ & [(-> & _)|(b & w' & Hb%separator_spec & _)]); [by destruct Hs as [-> | [-> | [-> | -> ] ] ]|].
    by destruct Hb as [(_ & -> & ->)|[(_ & -> & _)|(_ & -> & ->)]]; destruct Hs as [? | [? | [? | ? ] ] ]. }
  destruct Ht as [s' st l' Ha|s' st l' Ha|s' outer st l' Hc|s' outer st l' Hc|s' st l' u v Hc _|s' st l' t v Ha Hsc].
  - cbn [Z.eqb Pos.eqb] in H. destruct (_ >? _) eqn:Eg; [done|]. go_cases. split; [done|].
    apply HA in H as (ds & body & rest & -> & Hb & -> & Hf); [|by left|lia]. exists (DArray ds), (91 :: body ++ [93]), rest.
    split_and!; [by rewrite <-app_comm_cons, <-app_assoc|exact Hb|done|]. destruct (depth_fits_list (depth + 1) ds) as [H1 H2]; [lia|done|]. split; [simpl; lia|done].
  - cbn [Z.eqb Pos.eqb] in H. destruct (_ >? _) eqn:Eg; [done|]. go_cases. split; [done|].
    apply HO in H as (ds & body & rest & -> & Hb & -> & Hf & Hn & _); [|by left|lia]. exists (DObject ds), (123 :: body ++ [125]), rest.
    split_and!; [by rewrite <-app_comm_cons, <-app_assoc|exact Hb|done|]. destruct (depth_fits_members (depth + 1) ds) as [H1 H2]; [lia|done|]. split; [simpl; lia|done].
  - cbn [Z.eqb Pos.eqb] in H. by destruct (_ >? _).
  - cbn [Z.eqb Pos.eqb] in H. by destruct (_ >? _).
  - by destruct Hc.
  - split; [done|]. pose proof Hsc as Hx. apply scan_scalar_split in Hx as (b & x & -> & _ & H1 & H2 & H3 & H4 & _ & _ & Hx).
    pose proof (scan_scalar_no_delim _ _ _ Hsc) as Hnd. assert (d' = at_ v (tokenValueEnd s') st) as -> by (destruct t as [c| | | |]; [by destruct (Hnd c)|by injection H..]).
    exists (DScalar t), (b :: x), v. split_and!; [done| |done|split; [simpl; lia|done]]. constructor. rewrite <-(app_nil_r (b :: x)). by apply Hx.
Qed.

(** No more elements: the closing bracket comes next. *)
Lemma closing_sound expected s l outer st d' :
  (expected = 93 /\ (s = ArrayStart \/ s = ArrayComma)) \/ (expected = 125 /\ (s = ObjectStart \/ s = ObjectComma)) ->
  More (at_ l s (outer :: st)) = false -> consumeClosing expected (at_ l s (outer :: st)) = (d', Ok tt) ->
  exists w rest, spaces w /\ l = w ++ expected :: rest /\ d' = at_ rest (tokenValueEnd outer) st.
Proof.
  intros Hs Hm H. unfold consumeClosing in H. apply sbind_Ok in H as (d1 & t & Ht & H). apply read_token_reads in Ht.
  destruct (position s l) as [s' l'] eqn:Hp. apply position_spec in Hp as (_ & w & Hw & [(-> & -> & Hsep)|(b & w' & Hb%separator_spec & _ & ->)]).
  - destruct t as [c| | | |]; try done. destruct (c =? expected) eqn:Ec; [|done]. apply Z.eqb_eq in Ec as ->. injection H as <-.
    inversion Ht; subst; try (decompose [or and] Hs; subst; done).
    + exists w, l. done.
    + exists w, l. done.
    + exfalso. by eapply scan_scalar_no_delim.
  - exfalso. unfold More in Hm. cbn [at_ d_rest] in Hm. rewrite skip_space_app in Hm; [|done|by decompose [or and] Hb; subst].
    decompose [or and] Hb; subst; done.
Qed.

Lemma array_sound_step fuel : value_sound fuel -> array_sound fuel -> array_sound (S fuel).
Proof.
  intros HV HA depth l s outer st d' Hs Hd H. cbn [validateArray] in H. apply sbind_Ok in H as (d1 & d2 & [= <- <-] & H).
  destruct (More _) eqn:Hm.
  - apply sbind_Ok in H as (d1 & [] & H1 & H2). apply HV in H1; [|destruct Hs as [-> | -> ]; unfold before_value; tauto|done].
    destruct (position s l) as [s' l'] eqn:Hp. destruct H1 as (Ha & d & x & rest & -> & Hx & -> & Hf).
    apply position_spec in Hp as (_ & w & Hw & [(-> & -> & _)|(b & w' & Hb%separator_spec & Hw' & ->)]).
    + destruct Hs as [-> | -> ]; [|done]. cbn [tokenValueEnd] in H2. apply HA in H2 as (ds & body & rest' & -> & Hb & -> & Hfs); [|by right|done].
      exists (d :: ds), (w ++ x ++ body), rest'. split_and!; [by rewrite <-!app_assoc| |done|by constructor]. unfold elements_body in *. simpl in Hb |- *.
      rewrite <-!app_assoc. by constructor.
    + destruct Hb as [(-> & -> & ->)|[(-> & -> & ->)|(-> & -> & ->)]]; [|by destruct Hs..]. cbn [tokenValueEnd] in H2.
      apply HA in H2 as (ds & body & rest' & -> & Hb & -> & Hfs); [|by right|done].
      exists (d :: ds), (w ++ 44 :: w' ++ x ++ body), rest'. split_and!; [|unfold elements_body in *; simpl in *; by constructor|done|by constructor].
      rewrite <-!app_assoc. cbn [app]. by rewrite <-!app_assoc.
  - apply closing_sound in H as (w & rest & Hw & -> & ->); [|tauto|done]. exists [], w, rest. split_and!; [done| |done|constructor].
    unfold elements_body. destruct (decide _); by constructor.
Qed.

Lemma object_sound_step fuel : value_sound fuel -> object_sound fuel -> object_sound (S fuel).
Proof.
  intros HV HO keys depth l s outer st d' Hs Hd H. cbn [validateObject] in H. apply sbind_Ok in H as (d1 & d2 & [= <- <-] & H).
  destruct (More _) eqn:Hm.
  - apply sbind_Ok in H as (d1 & t & Ht & H). apply read_token_reads in Ht. destruct (position s l) as [s' l'] eqn:Hp.
    destruct t as [c|key| | |]; try done. case_bool_decide as Hk; [done|]. apply sbind_Ok in H as (d2 & [] & H1 & H2).
    assert (s' = ObjectStart \/ s' = ObjectKey) as Hs'.
    { inversion Ht; subst; [done|]. exfalso. clear - Hp Hs H. apply position_spec in Hp as (_ & w & _ & [(-> & _)|(b & w' & Hb%separator_spec & _)]).
      - by destruct Hs as [-> | -> ].
      - by destruct Hb as [(_ & -> & ->)|[(_ & _ & ->)|(_ & -> & ->)]]; destruct Hs. }
    inversion Ht as [| | | |s0 st0 lk u v _ Hu| s0 st0 l0 t0 v0 Hal]; subst; [|by destruct Hs' as [-> | -> ]].
    apply scan_string_split in Hu as [-> Hu]. apply HV in H1; [|unfold before_value; tauto|done].
    destruct (position ObjectColon v) as [s1 l1] eqn:Hp1. destruct H1 as (Ha & d & x & rest & -> & Hx & -> & Hf).
    apply position_spec in Hp1 as (_ & w1 & Hw1 & [(-> & _)|(b & w1' & Hb%separator_spec & Hw1' & ->)]); [done|].
    destruct Hb as [(_ & ? & _)|[(_ & ? & _)|(-> & _ & ->)]]; [done..|]. cbn [tokenValueEnd] in H2.
    apply HO in H2 as (ds & body & rest' & -> & Hb & -> & Hfs & Hnd & Hnk); [|by right|done].
    set (key := json.str_of (unquote u)) in *. set (m := 34 :: u ++ 34 :: w1 ++ 58 :: w1' ++ x).
    assert (member key d m) as Hmem by (subst m key; by constructor).
    assert (Forall (fun kd => fits depth (snd kd)) ((key, d) :: ds)) as Hfs' by (by constructor).
    assert (NoDup (map fst ((key, d) :: ds))) as Hnd'.
    { cbn [map fst]. apply NoDup_cons. split; [|done]. intros Hin. apply (Hnk _ Hin). set_solver. }
    assert (forall k, k ∈ map fst ((key, d) :: ds) -> k ∉ keys) as Hnk'.
    { cbn [map fst]. intros k [->|Hin]%elem_of_cons; [done|]. specialize (Hnk _ Hin). set_solver. }
    unfold members_body in Hb. simpl in Hb.
    assert (m ++ body ++ 125 :: rest' = 34 :: u ++ 34 :: w1 ++ 58 :: w1' ++ x ++ body ++ 125 :: rest') as Hm'.
    { subst m. rewrite <-!app_comm_cons, <-!app_assoc, <-!app_comm_cons, <-!app_assoc, <-!app_comm_cons, <-!app_assoc. done. }
    clearbody m. apply position_spec in Hp as (_ & w & Hw & [(-> & -> & _)|(b & w' & Hsep%separator_spec & Hw' & ->)]).
    + destruct Hs as [-> | -> ]; [|by destruct Hs']. exists ((key, d) :: ds), (w ++ m ++ body), rest'. split_and!; try done.
      * by rewrite <-!app_assoc, Hm'.
      * unfold members_body. simpl. rewrite <-!app_assoc. by constructor.
    + destruct Hsep as [(-> & -> & ->)|[(-> & -> & ->)|(-> & -> & ->)]]; [by destruct Hs| |by destruct Hs].
      exists ((key, d) :: ds), (w ++ 44 :: w' ++ m ++ body), rest'. split_and!; try done.
      * rewrite <-!app_assoc. cbn [app]. by rewrite <-!app_assoc, Hm'.
      * unfold members_body. simpl. by constructor.
  - apply closing_sound in H as (w & rest & Hw & -> & ->); [|tauto|done]. exists [], w, rest. split_and!; try done; try constructor; try set_solver.
    unfold members_body. destruct (decide _); by constructor.
Qed.

Lemma walk_sound fuel : value_sound fuel /\ array_sound fuel /\ object_sound fuel.
Proof.
  induction fuel as [|fuel (HV & HA & HO)]; [by split_and!; repeat intro|].
  split_and!; [by apply value_sound_step|by apply array_sound_step|by apply object_sound_step].
Qed.
End sound.



(** ** Completeness *)
Scheme text_mut := Minimality for text Sort Prop
  with elements_mut := Minimality for elements_more Sort Prop
  with member_mut := Minimality for member Sort Prop
  with members_mut := Minimality for members_more Sort Prop.
Combined Scheme grammar_ind from text_mut, elements_mut, member_mut, members_mut.

Lemma text_start d x : text d x -> exists b x', x = b :: x' /\ is_space b = false /\ b <> 93 /\ b <> 125 /\ forall s, separator b s = None.
Proof.
  destruct 1 as [t l H|w _|d ds w x more _ _ _|w _|k d ds w x more _ _ _]; try (eexists _, _; split_and!; [done..|by intros []]).
  apply scan_scalar_split in H as (b & x & -> & Hb & _ & _ & H3 & H4 & H5 & H6 & _). rewrite app_nil_r. exists b, x. split_and!; try done.
  intros s. unfold separator. by rewrite (proj2 (Z.eqb_neq b 44)), (proj2 (Z.eqb_neq b 58)).
Qed.

Lemma position_value s w d x r : spaces w -> text d x -> position s (w ++ x ++ r) = (s, x ++ r).
Proof.
  intros Hw Hx. apply text_start in Hx as (b & x' & -> & Hb & _ & _ & Hs). unfold position. rewrite skip_space_app by done. cbn [app]. by rewrite Hs.
Qed.
Lemma position_separated s s' c w w' l : spaces w -> spaces w' -> trimmed_left l -> separator c s = Some s' -> position s (w ++ c :: w' ++ l) = (s', l).
Proof.
  intros Hw Hw' Hl Hc. assert (is_space c = false) as Hsp by (apply separator_spec in Hc as [[-> _]|[[-> _]|[-> _]]]; done).
  unfold position. rewrite skip_space_app by done. by rewrite Hc, skip_space_app.
Qed.
Lemma text_trimmed d x r : text d x -> trimmed_left (x ++ r).
Proof. intros (b & x' & -> & Hb & _)%text_start. done. Qed.
Lemma member_trimmed k d x r : member k d x -> trimmed_left (x ++ r).
Proof. by destruct 1. Qed.

Lemma More_spaces w b l s st : spaces w -> is_space b = false -> More (at_ (w ++ b :: l) s st) = negb ((b =? 93) || (b =? 125)).
Proof. intros Hw Hb. unfold More. cbn [at_ d_rest]. by rewrite skip_space_app. Qed.
Lemma More_value w d x r s st : spaces w -> text d x -> More (at_ (w ++ x ++ r) s st) = true.
Proof.
  intros Hw (b & x' & -> & Hb & H1 & H2 & _)%text_start. cbn [app]. rewrite More_spaces by done.
  by rewrite (proj2 (Z.eqb_neq b 93)), (proj2 (Z.eqb_neq b 125)).
Qed.

Lemma spaces_stops w b r : spaces w -> stop_byte b = true -> stops (w ++ b :: r).
Proof. intros Hw Hb. destruct Hw as [|c w Hc Hw]; [done|]. cbn [app stops]. unfold stop_byte. by rewrite Hc. Qed.
Lemma elements_stops ds more r : elements_more ds more -> stops (more ++ 93 :: r).
Proof. destruct 1; rewrite <-?app_assoc; by apply spaces_stops. Qed.
Lemma members_stops ds more r : members_more ds more -> stops (more ++ 125 :: r).
Proof. destruct 1; rewrite <-?app_assoc; by apply spaces_stops. Qed.

Lemma closing_complete expected s l w rest outer st :
  (expected = 93 /\ (s = ArrayStart \/ s = ArrayComma)) \/ (expected = 125 /\ (s = ObjectStart \/ s = ObjectComma)) ->
  spaces w -> l = w ++ expected :: rest ->
  More (at_ l s (outer :: st)) = false /\ consumeClosing expected (at_ l s (outer :: st)) = (at_ rest (tokenValueEnd outer) st, Ok tt).
Proof.
  intros Hs Hw ->. assert (is_space expected = false /\ separator expected s = None) as [He Hsep] by (decompose [or and] Hs; by subst).
  split; [rewrite More_spaces by done; decompose [or and] Hs; by subst|].
  assert (position s (w ++ expected :: rest) = (s, expected :: rest)) as Hp by (unfold position; rewrite skip_space_app by done; by rewrite Hsep).
  unfold consumeClosing. apply sbind_Ok. exists (at_ rest (tokenValueEnd outer) st), (Delim expected). split; [|by rewrite Z.eqb_refl].
  apply read_token_reads. rewrite Hp. decompose [or and] Hs; subst; constructor; tauto.
Qed.

Section complete.
Context (maxDepth : Z).
#[local] Abbreviation fits := (fits maxDepth).

Lemma fits_array depth ds : fits depth (DArray ds) -> depth + 1 <= maxDepth /\ Forall (fits (depth + 1)) ds.
Proof.
  intros [Hd Hu]. simpl in Hd, Hu. induction ds as [|d ds IH]; simpl in *; [split; [lia|constructor]|].
  destruct IH as [IH1 IH2]; [lia|tauto|]. split; [lia|]. constructor; [split; [lia|tauto]|done].
Qed.
Lemma fits_object depth ds :
  fits depth (DObject ds) -> depth + 1 <= maxDepth /\ Forall (fun kd => fits (depth + 1) (snd kd)) ds /\ NoDup (map fst ds).
Proof.
  intros [Hd [Hn Hu]]. simpl in Hd, Hu. split_and!; [| |done]; clear Hn; induction ds as [|d ds IH]; simpl in *; try constructor; try lia.
  - assert (depth + (1 + foldr (fun kd n => Z.max (doc_depth (snd kd)) n) 0 ds) <= maxDepth) by lia. apply IH; [done|tauto].
  - split; [lia|tauto].
  - apply IH; [lia|tauto].
Qed.

Definition complete_value (d : doc) (x : list Z) : Prop := forall fuel depth s st rest l s', (length x <= fuel)%nat ->
  position s l = (s', x ++ rest) -> tokenValueAllowed s' = true -> stops rest -> fits depth d ->
  validateValue fuel depth maxDepth (at_ l s st) = (at_ rest (tokenValueEnd s') st, Ok tt).
Definition complete_elements (ds : list doc) (more : list Z) : Prop := forall fuel depth outer st rest, (length more + 1 <= fuel)%nat ->
  Forall (fits depth) ds ->
  validateArray fuel depth maxDepth (at_ (more ++ 93 :: rest) ArrayComma (outer :: st)) = (at_ rest (tokenValueEnd outer) st, Ok tt).
Definition complete_member (k : string) (d : doc) (m : list Z) : Prop := forall s l s' st rest,
  position s l = (s', m ++ rest) -> s' = ObjectStart \/ s' = ObjectKey -> exists r,
    (forall context, read_token context (at_ l s st) = (at_ r ObjectColon st, Ok (StringToken k))) /\
    forall fuel depth, (length m <= fuel)%nat -> stops rest -> fits depth d ->
      validateValue fuel depth maxDepth (at_ r ObjectColon st) = (at_ rest ObjectComma st, Ok tt).
Definition complete_members (ds : list (string * doc)) (more : list Z) : Prop := forall fuel keys depth outer st rest, (length more + 1 <= fuel)%nat ->
  Forall (fun kd => fits depth (snd kd)) ds -> NoDup (map fst ds) -> (forall k, k ∈ map fst ds -> k ∉ keys) ->
  validateObject fuel keys depth maxDepth (at_ (more ++ 125 :: rest) ObjectComma (outer :: st)) = (at_ rest (tokenValueEnd outer) st, Ok tt).

(** One element, then the rest. *)
Lemma array_step d ds x more fuel depth s s' l outer st rest :
  complete_value d x -> complete_elements ds more -> text d x -> elements_more ds more ->
  (length x + length more + 1 <= fuel)%nat -> s' = ArrayStart \/ s' = ArrayValue ->
  position s l = (s', x ++ more ++ 93 :: rest) -> More (at_ l s (outer :: st)) = true -> Forall (fits depth) (d :: ds) ->
  validateArray fuel depth maxDepth (at_ l s (outer :: st)) = (at_ rest (tokenValueEnd outer) st, Ok tt).
Proof.
  intros HV HE Hx Hmore Hf Hs Hp Hm [Hd Hds]%Forall_cons. destruct fuel as [|fuel]; [lia|]. cbn [validateArray]. apply sbind_Ok.
  eexists _, _. split; [done|]. rewrite Hm. apply sbind_Ok. exists (at_ (more ++ 93 :: rest) ArrayComma (outer :: st)), tt.
  assert (1 <= length x)%nat by (apply text_start in Hx as (? & ? & -> & _); simpl; lia). split; [|apply HE; [lia|done]].
  rewrite (HV fuel depth s (outer :: st) (more ++ 93 :: rest) l s'); [by destruct Hs as [-> | -> ]|lia|done|by destruct Hs as [-> | -> ]|by eapply elements_stops|done].
Qed.

Lemma object_step k d ds x more fuel keys depth s s' l outer st rest :
  complete_member k d x -> complete_members ds more -> member k d x -> members_more ds more ->
  (length x + length more + 1 <= fuel)%nat -> s' = ObjectStart \/ s' = ObjectKey ->
  position s l = (s', x ++ more ++ 125 :: rest) -> More (at_ l s (outer :: st)) = true ->
  Forall (fun kd => fits depth (snd kd)) ((k, d) :: ds) -> NoDup (map fst ((k, d) :: ds)) -> (forall k', k' ∈ map fst ((k, d) :: ds) -> k' ∉ keys) ->
  validateObject fuel keys depth maxDepth (at_ l s (outer :: st)) = (at_ rest (tokenValueEnd outer) st, Ok tt).
Proof.
  intros HM HE Hx Hmore Hf Hs Hp Hm [Hd Hds]%Forall_cons [Hk Hn]%NoDup_cons Hnk. destruct fuel as [|fuel]; [lia|]. cbn [validateObject]. apply sbind_Ok.
  eexists _, _. split; [done|]. rewrite Hm. destruct (HM s l s' (outer :: st) (more ++ 125 :: rest) Hp Hs) as (r & Hkey & Hv). apply sbind_Ok.
  eexists _, _. split; [apply Hkey|]. cbn beta iota. rewrite bool_decide_false by (apply Hnk; left). apply sbind_Ok.
  assert (1 <= length x)%nat by (destruct Hx; simpl; lia).
  eexists _, tt. split; [apply Hv; [lia|by eapply members_stops|done]|]. apply HE; [lia|done|done|]. cbn [map fst] in *. intros k' Hk'.
  apply not_elem_of_union. split; [|apply Hnk; by right]. apply not_elem_of_singleton. by intros ->.
Qed.

Lemma open_step fuel depth c s st l s' r :
  c = 91 \/ c = 123 -> position s l = (s', c :: r) -> tokenValueAllowed s' = true -> depth + 1 <= maxDepth ->
  validateValue (S fuel) depth maxDepth (at_ l s st) =
  (if c =? 91 then validateArray fuel (depth + 1) maxDepth (at_ r ArrayStart (s' :: st))
   else validateObject fuel ∅ (depth + 1) maxDepth (at_ r ObjectStart (s' :: st))).
Proof.
  intros Hc Hp Ha Hd. cbn [validateValue]. unfold sbind.
  assert (read_token "reading json token" (at_ l s st) = (at_ r (if c =? 91 then ArrayStart else ObjectStart) (s' :: st), Ok (Delim c))) as ->.
  { apply read_token_reads. rewrite Hp. destruct Hc as [-> | -> ]; by constructor. }
  cbn beta iota. rewrite Z.gtb_ltb, (proj2 (Z.ltb_ge _ _)) by lia. by destruct Hc as [-> | -> ].
Qed.

Lemma grammar_complete :
  (forall d x, text d x -> complete_value d x) /\ (forall ds more, elements_more ds more -> complete_elements ds more) /\
  (forall k d m, member k d m -> complete_member k d m) /\ (forall ds more, members_more ds more -> complete_members ds more).
Proof.
  apply grammar_ind.
  - intros t l Hl fuel depth s st rest l0 s' Hf Hp Ha Hst _. pose proof Hl as Hl'. apply scan_scalar_split in Hl' as (b & x & -> & _).
    rewrite app_nil_r in *. destruct fuel as [|fuel]; [simpl in Hf; lia|]. cbn [validateValue]. apply sbind_Ok. exists (at_ rest (tokenValueEnd s') st), t. split.
    + apply read_token_reads. rewrite Hp. constructor; [done|]. by apply scan_scalar_app.
    + pose proof (scan_scalar_no_delim _ _ _ Hl) as Hnd. by destruct t as [c| | | |]; [destruct (Hnd c)|..].
  - intros w Hw fuel depth s st rest l s' Hf Hp Ha _ Hfit. apply fits_array in Hfit as [Hd _]. cbn [length] in Hf. rewrite length_app in Hf. simpl in Hf. destruct fuel as [|fuel]; [lia|].
    rewrite (open_step _ _ 91 _ _ _ s' ((w ++ [93]) ++ rest)); [|tauto|done..]. simpl (91 =? 91). cbn iota. destruct fuel as [|fuel]; [lia|].
    destruct (closing_complete 93 ArrayStart ((w ++ [93]) ++ rest) w rest s' st) as [Hm Hc]; [tauto|done|by rewrite <-app_assoc|].
    cbn [validateArray]. unfold sbind, sget. by rewrite Hm.
  - intros d ds w x more Hw Hx IHx Hmore IHmore fuel depth s st rest l s' Hf Hp Ha _ Hfit. apply fits_array in Hfit as [Hd Hfs].
    cbn [length] in Hf. rewrite !length_app in Hf. simpl in Hf. destruct fuel as [|fuel]; [lia|].
    rewrite (open_step _ _ 91 _ _ _ s' (w ++ x ++ more ++ 93 :: rest)); [|tauto| |done..]; [|rewrite Hp; cbn [app]; by rewrite <-!app_assoc].
    simpl (91 =? 91). cbn iota. eapply array_step; [exact IHx|exact IHmore|done|done|lia|by left|by eapply position_value|by eapply More_value|done].
  - intros w Hw fuel depth s st rest l s' Hf Hp Ha _ Hfit. apply fits_object in Hfit as [Hd _]. cbn [length] in Hf. rewrite length_app in Hf. simpl in Hf. destruct fuel as [|fuel]; [lia|].
    rewrite (open_step _ _ 123 _ _ _ s' ((w ++ [125]) ++ rest)); [|tauto|done..]. simpl (123 =? 91). cbn iota. destruct fuel as [|fuel]; [lia|].
    destruct (closing_complete 125 ObjectStart ((w ++ [125]) ++ rest) w rest s' st) as [Hm Hc]; [tauto|done|by rewrite <-app_assoc|].
    cbn [validateObject]. unfold sbind, sget. by rewrite Hm.
  - intros k d ds w x more Hw Hx IHx Hmore IHmore fuel depth s st rest l s' Hf Hp Ha _ Hfit. apply fits_object in Hfit as (Hd & Hfs & Hn).
    cbn [length] in Hf. rewrite !length_app in Hf. simpl in Hf. destruct fuel as [|fuel]; [lia|].
    rewrite (open_step _ _ 123 _ _ _ s' (w ++ x ++ more ++ 125 :: rest)); [|tauto| |done..]; [|rewrite Hp; cbn [app]; by rewrite <-!app_assoc].
    simpl (123 =? 91). cbn iota. assert (exists x', x = 34 :: x') as [x' Hx'] by (destruct Hx; by eexists).
    eapply object_step; [exact IHx|exact IHmore|done|done|lia|by left| | |done|done|set_solver].
    + unfold position. rewrite skip_space_app by (done || by subst x). by subst x.
    + subst x. cbn [app]. by rewrite More_spaces.
  - intros w Hw fuel depth outer st rest Hf _. destruct fuel as [|fuel]; [lia|].
    destruct (closing_complete 93 ArrayComma (w ++ 93 :: rest) w rest outer st) as [Hm Hc]; [tauto|done..|]. cbn [validateArray]. unfold sbind, sget. by rewrite Hm.
  - intros d ds w w' x more Hw Hw' Hx IHx Hmore IHmore fuel depth outer st rest Hf Hfs. rewrite length_app in Hf. cbn [length] in Hf. rewrite !length_app in Hf.
    assert ((w ++ 44 :: w' ++ x ++ more) ++ 93 :: rest = w ++ 44 :: w' ++ (x ++ more ++ 93 :: rest)) as ->
      by (rewrite <-!app_assoc; cbn [app]; by rewrite <-!app_assoc).
    eapply array_step; [exact IHx|exact IHmore|done|done|lia|by right| |by rewrite More_spaces|done].
    apply position_separated; [done|done|by eapply text_trimmed|done].
  - intros u d w w' x Hu Hw Hw' Hx IHx s l s' st rest Hp Hs. apply scan_string_split in Hu as [_ Hu].
    exists (w ++ 58 :: w' ++ x ++ rest). split.
    + intros context. apply read_token_reads. rewrite Hp. cbn [app]. rewrite <-!app_assoc. cbn [app]. rewrite <-!app_assoc. cbn [app]. rewrite <-!app_assoc. by constructor.
    + intros fuel depth Hf Hst Hfit. rewrite (IHx fuel depth ObjectColon st rest _ ObjectValue); [done| | |done|done|done].
      * cbn [length] in Hf. rewrite !length_app in Hf. cbn [length] in Hf. rewrite !length_app in Hf. cbn [length] in Hf. rewrite !length_app in Hf. lia.
      * apply position_separated; [done|done|by eapply text_trimmed|done].
  - intros w Hw fuel keys depth outer st rest Hf _ _ _. destruct fuel as [|fuel]; [lia|].
    destruct (closing_complete 125 ObjectComma (w ++ 125 :: rest) w rest outer st) as [Hm Hc]; [tauto|done..|]. cbn [validateObject]. unfold sbind, sget. by rewrite Hm.
  - intros k d ds w w' x more Hw Hw' Hx IHx Hmore IHmore fuel keys depth outer st rest Hf Hfs Hn Hnk. rewrite length_app in Hf. cbn [length] in Hf. rewrite !length_app in Hf.
    assert ((w ++ 44 :: w' ++ x ++ more) ++ 125 :: rest = w ++ 44 :: w' ++ (x ++ more ++ 125 :: rest)) as ->
      by (rewrite <-!app_assoc; cbn [app]; by rewrite <-!app_assoc).
    eapply object_step; [exact IHx|exact IHmore|done|done|lia|by right| |by rewrite More_spaces|done|done|done].
    apply position_separated; [done|done|by eapply member_trimmed|done].
Qed.
End complete.


(** ** Fuel *)
Lemma position_length s l s' l' : position s l = (s', l') -> (length l' <= length l)%nat.
Proof.
  intros (_ & w & _ & [(_ & -> & _)|(b & w' & _ & _ & ->)])%position_spec; rewrite !length_app; [lia|]. cbn [length]. rewrite length_app. lia.
Qed.
Lemma Token_consumes context d d' t : read_token context d = (d', Ok t) -> (length (d_rest d') < length (d_rest d))%nat.
Proof.
  destruct d as [l s st]. intros H%read_token_reads. cbn [d_rest]. destruct (position s l) as [s' l'] eqn:Hp. apply position_length in Hp.
  destruct H as [s' st l' _|s' st l' _|s' outer st l' _|s' outer st l' _|s' st l' u v _ Hu|s' st l' t v _ Hs]; cbn [at_ d_rest length] in *; try lia.
  - apply scan_string_split in Hu as [-> _]. rewrite length_app in Hp. simpl in Hp. lia.
  - apply scan_scalar_split in Hs as (b & x & -> & _). rewrite length_app in Hp. simpl in Hp. lia.
Qed.

(** A computation on the decoder that does not run out of fuel and never
    gives bytes back. *)
Definition fueled (m : M Decoder unit) (d : Decoder) : Prop :=
  forall d' r, m d = (d', r) -> r <> Err out_of_fuel /\ (r = Ok tt -> (length (d_rest d') < length (d_rest d))%nat).

Lemma read_token_fueled {B} context (k : token -> M Decoder B) d d' (r : result B) :
  sbind (read_token context) k d = (d', r) ->
  (exists err, r = Err (WrapError context err)) \/
  exists d1 t, (length (d_rest d1) < length (d_rest d))%nat /\ k t d1 = (d', r).
Proof.
  unfold sbind. destruct (read_token context d) as [d1 [t|err]] eqn:E.
  - intros H. right. exists d1, t. split; [by eapply Token_consumes|done].
  - intros [= <- <-]. left. unfold read_token in E. destruct (Token d) as [d2 [t|err']]; simpl in E; [done|]. injection E as _ <-. by exists err'.
Qed.

Lemma walk_fueled maxDepth fuel :
  (forall depth d, (2 * length (d_rest d) + 1 <= fuel)%nat -> fueled (validateValue fuel depth maxDepth) d) /\
  (forall depth d, (2 * length (d_rest d) + 2 <= fuel)%nat -> fueled (validateArray fuel depth maxDepth) d) /\
  (forall keys depth d, (2 * length (d_rest d) + 2 <= fuel)%nat -> fueled (validateObject fuel keys depth maxDepth) d).
Proof.
  assert (forall expected d, fueled (consumeClosing expected) d) as Hclose.
  { intros expected d d' r H. apply read_token_fueled in H as [[err ->]|(d1 & t & Hl & H)]; [done|].
    destruct t; try (injection H as <- <-; done). destruct (_ =? _); injection H as <- <-; done. }
  induction fuel as [|fuel (HV & HA & HO)]; [split_and!; intros; lia|]. split_and!.
  - intros depth d Hf d' r H. cbn [validateValue] in H. apply read_token_fueled in H as [[err ->]|(d1 & t & Hl & H)]; [done|].
    destruct t as [c| | | |]; try (injection H as <- <-; done). destruct (_ >? _); [injection H as <- <-; done|].
    destruct (c =? 123); [|destruct (c =? 91); [|injection H as <- <-; done]].
    + apply HO in H as [? H]; [|lia]. split; [done|]. intros E. specialize (H E). lia.
    + apply HA in H as [? H]; [|lia]. split; [done|]. intros E. specialize (H E). lia.
  - intros depth d Hf d' r H. cbn [validateArray] in H. unfold sbind at 1, sget in H. destruct (More d); [|by apply Hclose in H].
    unfold sbind in H. destruct (validateValue fuel depth maxDepth d) as [d1 [[]|err]] eqn:E; apply HV in E as [He El]; try lia.
    + specialize (El eq_refl). apply HA in H as [? H]; [|lia]. split; [done|]. intros E. specialize (H E). lia.
    + injection H as <- <-. by split.
  - intros keys depth d Hf d' r H. cbn [validateObject] in H. unfold sbind at 1, sget in H. destruct (More d); [|by apply Hclose in H].
    apply read_token_fueled in H as [[err ->]|(d1 & t & Hl & H)]; [done|]. destruct t as [|key| | |]; try (injection H as <- <-; done).
    case_bool_decide; [injection H as <- <-; done|].
    unfold sbind in H. destruct (validateValue fuel depth maxDepth d1) as [d2 [[]|err]] eqn:E; apply HV in E as [He El]; try lia.
    + specialize (El eq_refl). apply HO in H as [? H]; [|lia]. split; [done|]. intros E. specialize (H E). lia.
    + injection H as <- <-. by split.
Qed.

(** ** Validate *)
Lemma Token_EOF l : (exists d err, Token (at_ l TopValue []) = (d, Err err) /\ errors_Is EOF err = true) <-> spaces l.
Proof.
  unfold Token. cbn [at_ d_rest d_state d_stack]. destruct (position TopValue l) as [s' l'] eqn:Hp.
  apply position_spec in Hp as (Ht & w & Hw & [(-> & -> & _)|(b & w' & Hb%separator_spec & _)]); [|by destruct Hb as [(_ & ? & _)|[(_ & ? & _)|(_ & ? & _)]]].
  split.
  - intros (d & err & H & He). destruct l' as [|b l']; [by rewrite app_nil_r|]. exfalso.
    unfold token_here in H. cbn [d_rest d_state d_stack tokenValueAllowed] in H. repeat case_match; try discriminate; simplify_eq; done.
  - intros Hs. destruct l' as [|b l']; [eexists _, _; split; [done|done]|]. exfalso.
    apply Forall_app in Hs as [_ [Hb _]%Forall_cons]. simpl in Ht. congruence.
Qed.

Lemma position_top l : position TopValue l = (TopValue, skip_space l).
Proof. unfold position. destruct (skip_space l) as [|b l']; [done|]. unfold separator. by destruct (b =? 44), (b =? 58). Qed.

Lemma Validate_spec data maxDepth :
  (Validate data maxDepth = Ok tt <->
   1 <= maxDepth /\ utf8_ValidString data = true /\ exists d, document d (codes data) /\ doc_depth d <= maxDepth /\ unique_keys d) /\
  Validate data maxDepth <> Err out_of_fuel.
Proof.
  unfold Validate. set (l := codes data). set (fuel := (2 * length l + 2)%nat). change (NewDecoder l) with (at_ l TopValue []). split; [split|].
  - intros H. apply rbind_Ok in H as ([] & H1%fail_if_Ok & H). apply rbind_Ok in H as ([] & H2%fail_if_Ok & H). go_cases.
    split; [done|]. split; [done|]. match type of H with snd ?p = _ => destruct p as [d' r] eqn:E end. cbn [snd] in H. subst r.
    apply sbind_Ok in E as (d1 & [] & Hv & Ht). apply (proj1 (walk_sound maxDepth fuel)) in Hv; [|by left|lia]. rewrite position_top in Hv.
    destruct Hv as (_ & d & x & rest & Hl & Hx & -> & Hd & Hu). exists d. split; [|split; [lia|done]].
    destruct (skip_space_split l) as (w & Hw & Hwl & _). exists w, x, rest. split_and!; [by rewrite Hwl, Hl|done| |done].
    apply Token_EOF. cbn [tokenValueEnd] in Ht. destruct (Token (at_ rest TopValue [])) as [d2 [t|err]] eqn:Et; [done|]. exists d2, err. split; [done|].
    by destruct (errors_Is EOF err).
  - intros (H1 & H2 & d & (w & x & w' & Hl & Hw & Hw' & Hx) & Hd & Hu). rewrite H2. cbn [negb fail_if rbind].
    rewrite (proj2 (Z.ltb_ge _ _)) by lia. cbn [fail_if rbind].
    assert (validateValue fuel 0 maxDepth (at_ l TopValue []) = (at_ w' TopValue [], Ok tt)) as Hv.
    { apply (proj1 (grammar_complete maxDepth) d x Hx fuel 0 TopValue [] w' l TopValue).
      - subst fuel. rewrite Hl, !length_app. lia.
      - rewrite position_top, Hl. by rewrite skip_space_app by (done || by eapply text_trimmed).
      - done.
      - destruct Hw' as [|b w' Hb _]; [done|]. simpl. unfold stop_byte. by rewrite Hb.
      - split; [lia|done]. }
    unfold sbind. rewrite Hv. destruct (proj2 (Token_EOF w') Hw') as (d2 & err & -> & He). cbn [snd]. by rewrite He.
  - destruct (maxDepth <? 1); [done|]. destruct (utf8_ValidString data); [|done]. cbn [negb fail_if rbind]. unfold sbind.
    destruct (validateValue fuel 0 maxDepth _) as [d1 [[]|err]] eqn:E.
    + destruct (Token d1) as [d2 [t|err]]; [done|]. cbn [snd]. destruct (errors_Is EOF err); done.
    + cbn [snd]. eapply (proj1 (walk_fueled maxDepth fuel)) in E as [? _]; [done|]. subst fuel. cbn [at_ d_rest]. lia.
Qed.

(** C21: [Validate] accepts exactly the unambiguous JSON documents.  The walk
    over the token stream of [encoding/json] succeeds iff the input is valid
    UTF-8 and, between white space, one value of the JSON grammar that nests at
    most [maxDepth] deep and in which no object repeats a (decoded) key.  It
    always ends: the fuel of the model never runs out. *)
Theorem Validate_equivalence data maxDepth :
  (Validate data maxDepth = Ok tt <->
   1 <= maxDepth /\ utf8_ValidString data = true /\ exists d, document d (codes data) /\ doc_depth d <= maxDepth /\ unique_keys d) /\
  Validate data maxDepth <> Err out_of_fuel.
Proof. apply Validate_spec. Qed.

End strictjson.
