(* ===== verification/AbiDecode.v ===== *)
(** * Package [sdk/go/minicloudabi]: decoding, and the round trip

    Requests and responses are decoded with the strict JSON reader, the token
    stream of [encoding/json] for headers and queries, and canonical base64. *)
From stdpp Require Import base gmap strings list pretty.
From S2P Require Import Prelude Problem Digest Json Model Net Abi Rpc JsonDecode StrictJson.
Import model abi jsondec strictjson.

#[local] Open Scope Z_scope.

Module abidec.

(** ** Base64 *)

(** [base64.StdEncoding.DecodeString]: line breaks are ignored, the last group
    is padded. *)
Definition base64_value (b : Z) : option Z :=
  if is_upper b then Some (b - 65) else if is_lower b then Some (b - 71) else if is_digit b then Some (b + 4)
  else if b =? 43 then Some 62 else if b =? 47 then Some 63 else None.
Fixpoint decode_groups (l : list Z) : option (list Z) :=
  match l with
  | [] => Some []
  | a :: b :: c :: d :: l' =>
    match base64_value a, base64_value b with
    | Some x, Some y =>
      if c =? 61 then
        if (d =? 61) && (len l' =? 0) then Some [x * 4 + y / 16] else None
      else match base64_value c with
      | Some z =>
        if d =? 61 then (if len l' =? 0 then Some [x * 4 + y / 16; y mod 16 * 16 + z / 4] else None)
        else match base64_value d, decode_groups l' with
        | Some w, Some rest => Some (x * 4 + y / 16 :: y mod 16 * 16 + z / 4 :: z mod 4 * 64 + w :: rest)
        | _, _ => None
        end
      | None => None
      end
    | _, _ => None
    end
  | _ => None
  end.
Definition DecodeString (s : string) : option string :=
  json.str_of <$> decode_groups (List.filter (fun b => negb ((b =? 10) || (b =? 13))) (codes s)).

Definition decodeCanonicalBase64 (encoded : string) : result string :=
  match DecodeString encoded with
  | None => Err (PlainError "body_base64 is not standard padded base64")
  | Some decoded =>
    fail_if (net.base64_string decoded != encoded) (PlainError "body_base64 is not canonical") ;;;
    Ok decoded
  end.

(** ** Headers and query *)
Definition decode_string_value (field : string) (raw : list Z) : result string :=
  if starts 34 raw then wrap_err ("minicloudabi: decoding " +:+ field +:+ " string")%string (store_string raw "")
  else Err (PlainError ("minicloudabi: " +:+ field +:+ " must contain only strings")%string).
Definition decodeStringArray (field : string) : M Decoder (list string) :=
  let! raw := (fun d => let '(d, r) := Decode d in (d, wrap_err ("minicloudabi: decoding " +:+ field)%string r)) in
  let! raws := slift (wrap_err ("minicloudabi: decoding " +:+ field)%string (store_raws raw)) in
  match raws with
  | None => sthrow (PlainError ("minicloudabi: " +:+ field +:+ " must be an array")%string)
  | Some raws => slift (map_result (decode_string_value field) raws)
  end.

(** The loop of [decodeHeaders]; every turn consumes a byte. *)
Fixpoint headers_loop (fuel : nat) (mergeCase : bool) (fields : gmap string (list string)) (exact : gset string) : M Decoder (gmap string (list string)) :=
  match fuel with
  | O => sthrow (PlainError "fuel")
  | S fuel' =>
    let! d := sget in
    if More d then
      let! token := read_token "minicloudabi: decoding header name" in
      match token with
      | StringToken name =>
        if negb (headerNamePattern name) then sthrow (PlainError "minicloudabi: invalid header name")
        else if bool_decide (name ∈ exact) then sthrow (PlainError "minicloudabi: duplicate header name")
        else
          let! values := decodeStringArray "header values" in
          let normalized := ToLower name in
          if bool_decide (is_Some (fields !! normalized)) && negb mergeCase then
            sthrow (PlainError "minicloudabi: response contains case-colliding header names")
          else headers_loop fuel' mergeCase (<[normalized := default [] (fields !! normalized) ++ values]> fields) ({[ name ]} ∪ exact)
      | _ => sthrow (PlainError "minicloudabi: invalid header name")
      end
    else sret fields
  end.

Definition decodeHeaders (data : list Z) (mergeCase : bool) : result (gmap string (list string)) :=
  snd ((let! token := read_token "minicloudabi: decoding headers" in
        match token with
        | Delim c =>
          do! slift (fail_if (negb (c =? 123)) (PlainError "minicloudabi: headers must be an object")) in
          let! fields := headers_loop (S (length data)) mergeCase ∅ ∅ in
          do! read_token "minicloudabi: decoding headers closing delimiter" in
          (fun d => match Token d with
                    | (d, Err err) => (d, if errors_Is EOF err then Ok fields else Err (PlainError "minicloudabi: headers contain trailing data"))
                    | (d, Ok _) => (d, Err (PlainError "minicloudabi: headers contain trailing data"))
                    end)
        | _ => sthrow (PlainError "minicloudabi: headers must be an object")
        end) (NewDecoder data)).

Fixpoint string_map_loop (fuel : nat) (field : string) (valuesByName : gmap string (list string)) : M Decoder (gmap string (list string)) :=
  match fuel with
  | O => sthrow (PlainError "fuel")
  | S fuel' =>
    let! d := sget in
    if More d then
      let! token := read_token ("minicloudabi: decoding " +:+ field +:+ " key")%string in
      match token with
      | StringToken name =>
        let! values := decodeStringArray (field +:+ " values") in
        string_map_loop fuel' field (<[name := values]> valuesByName)
      | _ => sthrow (PlainError ("minicloudabi: " +:+ field +:+ " key must be a string")%string)
      end
    else sret valuesByName
  end.
Definition decodeStringMap (data : list Z) (field : string) : result (gmap string (list string)) :=
  snd ((let! token := read_token ("minicloudabi: decoding " +:+ field)%string in
        match token with
        | Delim c =>
          do! slift (fail_if (negb (c =? 123)) (PlainError ("minicloudabi: " +:+ field +:+ " must be an object")%string)) in
          let! values := string_map_loop (S (length data)) field ∅ in
          do! read_token ("minicloudabi: decoding " +:+ field +:+ " closing delimiter")%string in
          sret values
        | _ => sthrow (PlainError ("minicloudabi: " +:+ field +:+ " must be an object")%string)
        end) (NewDecoder data)).

(** The [UnmarshalJSON] methods of the three map types; a decoded map and its
    slices are never nil. *)
Definition as_fields (m : gmap string (list string)) : fields := Some (Some <$> m).
Definition RequestHeaders_UnmarshalJSON (data : list Z) : result fields := m <- decodeHeaders data true ;; Ok (as_fields m).
Definition ResponseHeaders_UnmarshalJSON (data : list Z) : result fields := m <- decodeHeaders data false ;; Ok (as_fields m).
Definition Query_UnmarshalJSON (data : list Z) : result fields := m <- decodeStringMap data "query" ;; Ok (as_fields m).

(** ** Envelopes *)
Definition decodeKnownFields {A} (data : list Z) (store : list Z -> result A) : result A :=
  snd ((let! raw := Decode in
        let! a := slift (store raw) in
        (fun d => match Token d with
                  | (d, Err err) => (d, if errors_Is EOF err then Ok a else Err (PlainError "minicloudabi: json contains trailing data"))
                  | (d, Ok _) => (d, Err (PlainError "minicloudabi: json contains trailing data"))
                  end)) (NewDecoder data)).

Definition trigger_fields : list string :=
  ["type"; "id"; "resource_revision"; "fire_id"; "scheduled_time_utc"; "receipt_id"; "event_id"; "source_id"; "event_type"; "occurred_at"; "content_type"]%string.
Definition zero_Trigger : Trigger :=
  {| tg_Type := ""; tg_ID := ""; tg_ResourceRevision := 0; tg_FireID := ""; tg_ScheduledTimeUTC := ""; tg_ReceiptID := ""; tg_EventID := "";
     tg_SourceID := ""; tg_EventType := ""; tg_OccurredAt := ""; tg_ContentType := "" |}.
(** The string fields of a Trigger by name. *)
Definition trigger_strings (t : Trigger) : list (string * string) :=
  [("type", tg_Type t); ("id", tg_ID t); ("fire_id", tg_FireID t); ("scheduled_time_utc", tg_ScheduledTimeUTC t); ("receipt_id", tg_ReceiptID t);
   ("event_id", tg_EventID t); ("source_id", tg_SourceID t); ("event_type", tg_EventType t); ("occurred_at", tg_OccurredAt t); ("content_type", tg_ContentType t)]%string.
Definition set_trigger (name value : string) (t : Trigger) : Trigger :=
  let field n old := if String.eqb name n then value else old in
  {| tg_Type := field "type"%string (tg_Type t); tg_ID := field "id"%string (tg_ID t); tg_ResourceRevision := tg_ResourceRevision t;
     tg_FireID := field "fire_id"%string (tg_FireID t); tg_ScheduledTimeUTC := field "scheduled_time_utc"%string (tg_ScheduledTimeUTC t);
     tg_ReceiptID := field "receipt_id"%string (tg_ReceiptID t); tg_EventID := field "event_id"%string (tg_EventID t);
     tg_SourceID := field "source_id"%string (tg_SourceID t); tg_EventType := field "event_type"%string (tg_EventType t);
     tg_OccurredAt := field "occurred_at"%string (tg_OccurredAt t); tg_ContentType := field "content_type"%string (tg_ContentType t) |}.
Definition with_revision (t : Trigger) (revision : Z) : Trigger :=
  {| tg_Type := tg_Type t; tg_ID := tg_ID t; tg_ResourceRevision := revision; tg_FireID := tg_FireID t; tg_ScheduledTimeUTC := tg_ScheduledTimeUTC t;
     tg_ReceiptID := tg_ReceiptID t; tg_EventID := tg_EventID t; tg_SourceID := tg_SourceID t; tg_EventType := tg_EventType t;
     tg_OccurredAt := tg_OccurredAt t; tg_ContentType := tg_ContentType t |}.
Definition store_trigger_field (name : string) (raw : list Z) (t : Trigger) : result Trigger :=
  if String.eqb name "resource_revision" then v <- store_uint64 raw (tg_ResourceRevision t) ;; Ok (with_revision t v)
  else
    let old := default ""%string (snd <$> List.find (fun '(n, _) => String.eqb n name) (trigger_strings t)) in
    v <- store_string raw old ;; Ok (set_trigger name v t).

(** [requestWire] and [responseWire]: the body is a pointer to a string. *)
Record RequestWire := { qw_request : Request; qw_BodyBase64 : option string }.
Record ResponseWire := { pw_response : Response; pw_BodyBase64 : option string }.

Definition request_fields : list string :=
  ["spec_version"; "invocation_id"; "method"; "path"; "query"; "headers"; "body_base64"; "deadline_unix_ms"; "trigger"]%string.
Definition zero_Request : Request :=
  {| rq_SpecVersion := ""; rq_InvocationID := ""; rq_Method := ""; rq_Path := ""; rq_Query := None; rq_Headers := None; rq_Body := "";
     rq_DeadlineUnixMS := 0; rq_Trigger := zero_Trigger |}.
Definition set_request (r : Request) (spec id method path : string) (query headers : fields) (deadline : Z) (trigger : Trigger) : Request :=
  {| rq_SpecVersion := spec; rq_InvocationID := id; rq_Method := method; rq_Path := path; rq_Query := query; rq_Headers := headers; rq_Body := rq_Body r;
     rq_DeadlineUnixMS := deadline; rq_Trigger := trigger |}.
Definition store_request_field (name : string) (raw : list Z) (w : RequestWire) : result RequestWire :=
  let r := qw_request w in
  let keep r := {| qw_request := r; qw_BodyBase64 := qw_BodyBase64 w |} in
  if String.eqb name "spec_version" then
    v <- store_string raw (rq_SpecVersion r) ;; Ok (keep (set_request r v (rq_InvocationID r) (rq_Method r) (rq_Path r) (rq_Query r) (rq_Headers r) (rq_DeadlineUnixMS r) (rq_Trigger r)))
  else if String.eqb name "invocation_id" then
    v <- store_string raw (rq_InvocationID r) ;; Ok (keep (set_request r (rq_SpecVersion r) v (rq_Method r) (rq_Path r) (rq_Query r) (rq_Headers r) (rq_DeadlineUnixMS r) (rq_Trigger r)))
  else if String.eqb name "method" then
    v <- store_string raw (rq_Method r) ;; Ok (keep (set_request r (rq_SpecVersion r) (rq_InvocationID r) v (rq_Path r) (rq_Query r) (rq_Headers r) (rq_DeadlineUnixMS r) (rq_Trigger r)))
  else if String.eqb name "path" then
    v <- store_string raw (rq_Path r) ;; Ok (keep (set_request r (rq_SpecVersion r) (rq_InvocationID r) (rq_Method r) v (rq_Query r) (rq_Headers r) (rq_DeadlineUnixMS r) (rq_Trigger r)))
  else if String.eqb name "query" then
    v <- Query_UnmarshalJSON raw ;; Ok (keep (set_request r (rq_SpecVersion r) (rq_InvocationID r) (rq_Method r) (rq_Path r) v (rq_Headers r) (rq_DeadlineUnixMS r) (rq_Trigger r)))
  else if String.eqb name "headers" then
    v <- RequestHeaders_UnmarshalJSON raw ;; Ok (keep (set_request r (rq_SpecVersion r) (rq_InvocationID r) (rq_Method r) (rq_Path r) (rq_Query r) v (rq_DeadlineUnixMS r) (rq_Trigger r)))
  else if String.eqb name "body_base64" then
    v <- store_string_pointer raw ;; Ok {| qw_request := r; qw_BodyBase64 := v |}
  else if String.eqb name "deadline_unix_ms" then
    v <- store_int raw (rq_DeadlineUnixMS r) ;; Ok (keep (set_request r (rq_SpecVersion r) (rq_InvocationID r) (rq_Method r) (rq_Path r) (rq_Query r) (rq_Headers r) v (rq_Trigger r)))
  else
    v <- store_struct trigger_fields store_trigger_field raw (rq_Trigger r) ;;
    Ok (keep (set_request r (rq_SpecVersion r) (rq_InvocationID r) (rq_Method r) (rq_Path r) (rq_Query r) (rq_Headers r) (rq_DeadlineUnixMS r) v)).

Definition response_fields : list string := ["spec_version"; "status"; "headers"; "body_base64"]%string.
Definition zero_Response : Response := {| rp_SpecVersion := ""; rp_Status := 0; rp_Headers := None; rp_Body := "" |}.
Definition store_response_field (name : string) (raw : list Z) (w : ResponseWire) : result ResponseWire :=
  let r := pw_response w in
  let keep spec status headers := {| pw_response := {| rp_SpecVersion := spec; rp_Status := status; rp_Headers := headers; rp_Body := rp_Body r |};
                                     pw_BodyBase64 := pw_BodyBase64 w |} in
  if String.eqb name "spec_version" then v <- store_string raw (rp_SpecVersion r) ;; Ok (keep v (rp_Status r) (rp_Headers r))
  else if String.eqb name "status" then v <- store_int raw (rp_Status r) ;; Ok (keep (rp_SpecVersion r) v (rp_Headers r))
  else if String.eqb name "headers" then v <- ResponseHeaders_UnmarshalJSON raw ;; Ok (keep (rp_SpecVersion r) (rp_Status r) v)
  else v <- store_string_pointer raw ;; Ok {| pw_response := r; pw_BodyBase64 := v |}.

Definition with_response_body (r : Response) (body : string) : Response :=
  {| rp_SpecVersion := rp_SpecVersion r; rp_Status := rp_Status r; rp_Headers := rp_Headers r; rp_Body := body |}.

Definition Request_UnmarshalJSON (data : list Z) : result Request :=
  wire <- decodeKnownFields data (fun raw => store_struct request_fields store_request_field raw {| qw_request := zero_Request; qw_BodyBase64 := None |}) ;;
  match qw_BodyBase64 wire with
  | None => Err (PlainError "minicloudabi: body_base64 must be a string")
  | Some encoded =>
    body <- wrap_err "minicloudabi: decoding request body" (decodeCanonicalBase64 encoded) ;;
    Ok (with_body (qw_request wire) body)
  end.
Definition Response_UnmarshalJSON (data : list Z) : result Response :=
  wire <- decodeKnownFields data (fun raw => store_struct response_fields store_response_field raw {| pw_response := zero_Response; pw_BodyBase64 := None |}) ;;
  match pw_BodyBase64 wire with
  | None => Err (PlainError "minicloudabi: body_base64 must be a string")
  | Some encoded =>
    body <- wrap_err "minicloudabi: decoding response body" (decodeCanonicalBase64 encoded) ;;
    Ok (with_response_body (pw_response wire) body)
  end.

Definition readEnvelope (source : option rpc.Reader) (limits : Limits) : result string :=
  data <- wrap_err "minicloudabi: reading envelope" (strictjson.Read source (lm_RawEnvelopeBytes limits)) ;;
  wrap_err "minicloudabi: validating envelope json" (strictjson.Validate data (lm_JSONDepth limits)) ;;;
  Ok data.

Definition DecodeRequest (source : option rpc.Reader) (limits : Limits) : result Request :=
  limits <- normalizeLimits limits ;;
  data <- readEnvelope source limits ;;
  request <- wrap_err "minicloudabi: decoding request" (decodeKnownFields (codes data) Request_UnmarshalJSON) ;;
  normalizeRequest request limits.
Definition DecodeResponse (source : option rpc.Reader) (requestMethod : string) (limits : Limits) : result Response :=
  limits <- normalizeLimits limits ;;
  data <- readEnvelope source limits ;;
  response <- wrap_err "minicloudabi: decoding response" (decodeKnownFields (codes data) Response_UnmarshalJSON) ;;
  validateResponse response requestMethod limits ;;;
  Ok response.

(** A reader of exactly these bytes. *)
Definition bytes_reader (data : string) : rpc.Reader := {| rpc.rd_bytes := data; rpc.rd_err := None; rpc.rd_together := false |}.

Definition ex_response : Response :=
  {| rp_SpecVersion := "1.0"; rp_Status := 201; rp_Headers := Some (<["a" := Some ["1"; "<2>"]]> {["content-type" := Some ["text/plain"]]})%string; rp_Body := "hello" |}.
Example decode_ex :
  DecodeResponse (Some (bytes_reader (json.Marshal (responseWire ex_response)))) "GET" defaults = Ok ex_response /\
  (r <- normalizeRequest ex_request defaults ;; DecodeRequest (Some (bytes_reader (json.Marshal (requestWire r)))) defaults) =
    normalizeRequest ex_request defaults /\
  is_ok (normalizeRequest ex_request defaults) = true.
Proof. split_and!; vm_compute; exact eq_refl. Qed.

End abidec.
