(* ===== verification/JsonRoundtrip.v ===== *)
(** * [encoding/json]: what [Marshal] prints, decoding reads back

    Printed strings, numbers, arrays and objects are documents of the grammar
    in [StrictJson], valid UTF-8, and their parts are found again. *)
From stdpp Require Import base gmap strings list pretty.
From S2P Require Import Prelude Json Net Abi Rpc Http JsonDecode StrictJson.
Import jsondec strictjson.

#[local] Open Scope Z_scope.
#[local] Set Warnings "-register-all".

Module jsonrt.

(** ** Bytes *)
Definition bytes (l : list Z) : Prop := Forall (fun b => 0 <= b < 256) l.
Definition ascii (l : list Z) : Prop := Forall (fun b => 0 <= b < 128) l.

Lemma utf8_valid_ascii l r : ascii l -> utf8_valid (l ++ r) = utf8_valid r.
Proof.
  induction 1 as [|b l Hb Hl IH]; [done|]. cbn [app utf8_valid]. unfold in_range at 1.
  rewrite (proj2 (Z.leb_le 0 b)), (proj2 (Z.leb_le b 127)) by lia. done.
Qed.

(** The first rune of a valid string, and the rest. *)
Lemma utf8_valid_inv b l : utf8_valid (b :: l) = true ->
  (0 <= b < 128 /\ utf8_valid l = true) \/
  (128 <= b /\ exists b1 l1, l = b1 :: l1 /\ utf8_valid [b; b1] = true /\ utf8_valid l1 = true) \/
  (128 <= b /\ exists b1 b2 l2, l = b1 :: b2 :: l2 /\ utf8_valid [b; b1] = false /\ utf8_valid [b; b1; b2] = true /\ utf8_valid l2 = true) \/
  (128 <= b /\ exists b1 b2 b3 l3, l = b1 :: b2 :: b3 :: l3 /\ utf8_valid [b; b1] = false /\ utf8_valid [b; b1; b2] = false /\
     utf8_valid [b; b1; b2; b3] = true /\ utf8_valid l3 = true).
Proof.
  intros H. cbn [utf8_valid] in H. destruct (in_range 0 0x7F b) eqn:E0.
  { left. unfold in_range in E0. go_cases. split; [lia|done]. }
  assert (forall lo hi, in_range lo hi b = true -> 0 < lo -> 128 <= b) as Hge.
  { unfold in_range in *. intros lo hi Hr Hlo. go_cases. destruct E0; lia. }
  right. destruct l as [|b1 l1]; [done|]. destruct (in_range 0xC2 0xDF b) eqn:E1.
  { left. apply andb_true_iff in H as [H1 H]. split; [by eapply Hge|]. exists b1, l1. split_and!; [done| |done].
    cbn [utf8_valid]. by rewrite E0, E1, H1. }
  right. destruct l1 as [|b2 l2]; [done|]. destruct (in_range 0xE0 0xEF b) eqn:E2.
  { left. apply andb_true_iff in H as [H H']. apply andb_true_iff in H as [H1 H2]. split; [by eapply Hge|]. exists b1, b2, l2.
    split_and!; [done|cbn [utf8_valid]; by rewrite E0, E1| |done]. cbn [utf8_valid]. by rewrite E0, E1, E2, H1, H2. }
  right. destruct l2 as [|b3 l3]; [done|]. rewrite !andb_true_iff in H. destruct H as [[[[H1 H2] H3] H4] H5]. split; [by eapply Hge|].
  exists b1, b2, b3, l3. split_and!; [done|cbn [utf8_valid]; by rewrite E0, E1|cbn [utf8_valid]; by rewrite E0, E1, E2| |done].
  cbn [utf8_valid]. by rewrite E0, E1, E2, H1, H2, H3, H4.
Qed.

Lemma utf8_valid_app a c : utf8_valid a = true -> utf8_valid (a ++ c) = utf8_valid c.
Proof.
  remember (length a) as n eqn:Hn. revert a Hn. induction (lt_wf n) as [n _ IH]. intros a ->. destruct a as [|b a]; [done|]. intros H.
  pose proof H as H'. cbn [utf8_valid] in H'. cbn [app utf8_valid].
  destruct (in_range 0 0x7F b); [apply (IH (length a)); [simpl; lia|done|done]|].
  destruct a as [|b1 a]; [done|]. cbn [app]. destruct (in_range 0xC2 0xDF b).
  { apply andb_true_iff in H' as [-> H']. apply (IH (length a)); [simpl; lia|done|done]. }
  destruct a as [|b2 a]; [done|]. cbn [app]. destruct (in_range 0xE0 0xEF b).
  { apply andb_true_iff in H' as [-> H']. apply (IH (length a)); [simpl; lia|done|done]. }
  destruct a as [|b3 a]; [done|]. cbn [app]. apply andb_true_iff in H' as [-> H']. apply (IH (length a)); [simpl; lia|done|done].
Qed.

(** ** Strings *)
Lemma high_not_ascii b : 128 <= b -> in_range 0 0x7F b = false.
Proof. intros. unfold in_range. apply andb_false_iff. right. apply Z.leb_gt. lia. Qed.

(** The bytes that continue a rune. *)
Lemma utf8_valid_high b l : 128 <= b -> utf8_valid (b :: l) = true ->
  match l with
  | [b1] => 128 <= b1
  | [b1; b2] => utf8_valid [b; b1] = false -> 128 <= b1 /\ 128 <= b2
  | [b1; b2; b3] => utf8_valid [b; b1] = false -> utf8_valid [b; b1; b2] = false -> 128 <= b1 /\ 128 <= b2 /\ 128 <= b3
  | _ => True
  end.
Proof.
  intros Hb H. cbn [utf8_valid] in H |- *. rewrite high_not_ascii in * by done. unfold in_range in *.
  destruct l as [|b1 [|b2 [|b3 [|b4 l]]]]; try done.
  - destruct (_ && _); [|done]. rewrite andb_true_r in H. go_cases. lia.
  - destruct ((194 <=? b) && _) eqn:E1; [intros; go_cases; lia|]. intros _. destruct ((224 <=? b) && _) eqn:E2; [|done].
    rewrite andb_true_r in H. go_cases. destruct (b =? 224), (b =? 237); go_cases; lia.
  - intros H1 H2. destruct ((194 <=? b) && _) eqn:E1.
    { apply andb_true_iff in H as [H _]. by rewrite H in H1. }
    destruct ((224 <=? b) && _) eqn:E2.
    { apply andb_true_iff in H as [H _]. by rewrite H in H2. }
    rewrite andb_true_r in H. go_cases. destruct (b =? 240), (b =? 244); go_cases; lia.
Qed.

(** A rune outside ASCII: the shortest valid group of bytes. *)
Inductive high_rune : list Z -> Prop :=
| rune2 b b1 : 128 <= b -> utf8_valid [b; b1] = true -> high_rune [b; b1]
| rune3 b b1 b2 : 128 <= b -> utf8_valid [b; b1] = false -> utf8_valid [b; b1; b2] = true -> high_rune [b; b1; b2]
| rune4 b b1 b2 b3 : 128 <= b -> utf8_valid [b; b1] = false -> utf8_valid [b; b1; b2] = false -> utf8_valid [b; b1; b2; b3] = true ->
    high_rune [b; b1; b2; b3].

Lemma high_rune_bytes rune : high_rune rune -> Forall (fun b => 128 <= b) rune /\ utf8_valid rune = true.
Proof.
  destruct 1 as [b b1 Hb H|b b1 b2 Hb H1 H|b b1 b2 b3 Hb H1 H2 H]; split; try done; pose proof (utf8_valid_high _ _ Hb H) as Hh; simpl in Hh.
  - rewrite !Forall_cons, Forall_nil. tauto.
  - specialize (Hh H1). rewrite !Forall_cons, Forall_nil. tauto.
  - specialize (Hh H1 H2). rewrite !Forall_cons, Forall_nil. tauto.
Qed.

(** Induction over the runes of a valid string. *)
Lemma utf8_ind (P : list Z -> Prop) :
  P [] -> (forall b l, 0 <= b < 128 -> P l -> P (b :: l)) -> (forall rune l, high_rune rune -> P l -> P (rune ++ l)) ->
  forall l, utf8_valid l = true -> P l.
Proof.
  intros H0 H1 H2 l. remember (length l) as n eqn:Hn. revert l Hn. induction (lt_wf n) as [n _ IH]. intros l ->. destruct l as [|b l]; [done|].
  intros [[Hb Hl]|[(Hb & b1 & l1 & -> & Hr & Hl)|[(Hb & b1 & b2 & l2 & -> & Hn1 & Hr & Hl)|(Hb & b1 & b2 & b3 & l3 & -> & Hn1 & Hn2 & Hr & Hl)]]]%utf8_valid_inv.
  - apply H1; [done|]. apply (IH (length l)); [simpl; lia|done|done].
  - apply (H2 [b; b1] l1); [by constructor|]. apply (IH (length l1)); [simpl; lia|done|done].
  - apply (H2 [b; b1; b2] l2); [by constructor|]. apply (IH (length l2)); [simpl; lia|done|done].
  - apply (H2 [b; b1; b2; b3] l3); [by constructor|]. apply (IH (length l3)); [simpl; lia|done|done].
Qed.

Definition escape_rune (rune : list Z) : list Z :=
  if bool_decide (rune = [0xE2; 0x80; 0xA8]) then codes "\u2028"
  else if bool_decide (rune = [0xE2; 0x80; 0xA9]) then codes "\u2029" else rune.

Lemma escape_ascii_cons b l : 0 <= b < 128 -> json.escape (b :: l) = json.escape_ascii b ++ json.escape l.
Proof. intros Hb. cbn [json.escape]. unfold in_range. by rewrite (proj2 (Z.leb_le 0 b)), (proj2 (Z.leb_le b 0x7F)) by lia. Qed.

Lemma escape_high rune l : high_rune rune -> json.escape (rune ++ l) = escape_rune rune ++ json.escape l.
Proof.
  destruct 1 as [b b1 Hb H|b b1 b2 Hb H1 H|b b1 b2 b3 Hb H1 H2 H]; cbn [app json.escape]; rewrite high_not_ascii by done.
  - rewrite H. unfold escape_rune. by rewrite !bool_decide_false.
  - rewrite H1, H. unfold escape_rune. destruct (b =? 0xE2) eqn:E1; cbn [andb].
    2:{ go_cases. by rewrite !bool_decide_false by congruence. }
    destruct (b1 =? 0x80) eqn:E2; cbn [andb].
    2:{ go_cases. by rewrite !bool_decide_false by congruence. }
    apply Z.eqb_eq in E1 as ->, E2 as ->. destruct (b2 =? 0xA8) eqn:E3; [apply Z.eqb_eq in E3 as ->; done|]. apply Z.eqb_neq in E3.
    rewrite bool_decide_false by congruence. destruct (b2 =? 0xA9) eqn:E4; [apply Z.eqb_eq in E4 as ->; done|]. apply Z.eqb_neq in E4.
    by rewrite bool_decide_false by congruence.
  - rewrite H1, H2, H. unfold escape_rune. by rewrite !bool_decide_false.
Qed.

(** A statement about every ASCII byte, checked one by one. *)
Lemma ascii_cases (P : Z -> Prop) : Forall P (map Z.of_nat (seq 0 128)) -> forall b, 0 <= b < 128 -> P b.
Proof.
  intros H b Hb. rewrite Forall_forall in H. apply H. apply list_elem_of_In, in_map_iff. exists (Z.to_nat b). split; [lia|]. apply in_seq. lia.
Qed.
Ltac each_ascii := refine (ascii_cases _ _); let l := eval vm_compute in (map Z.of_nat (seq 0 128)) in change (map Z.of_nat (seq 0 128)) with l; repeat (apply Forall_cons; split; [intros; reflexivity|]); apply Forall_nil; exact I.

Lemma scan_escape_ascii : forall b, 0 <= b < 128 -> forall r,
  scan_string (json.escape_ascii b ++ r) = match scan_string r with Some (u, v) => Some (json.escape_ascii b ++ u, v) | None => None end.
Proof. each_ascii. Qed.
Lemma unquote_escape_ascii : forall b, 0 <= b < 128 -> forall r, unquote (json.escape_ascii b ++ r) = b :: unquote r.
Proof. each_ascii. Qed.
Lemma utf8_escape_ascii : forall b, 0 <= b < 128 -> utf8_valid (json.escape_ascii b) = true.
Proof. each_ascii. Qed.

Lemma scan_plain x r : Forall (fun b => 128 <= b) x -> scan_string (x ++ r) = match scan_string r with Some (u, v) => Some (x ++ u, v) | None => None end.
Proof.
  induction 1 as [|b x Hb Hx IH]; [cbn [app]; by destruct (scan_string r) as [[? ?]|]|]. cbn [app scan_string].
  rewrite (proj2 (Z.eqb_neq b 34)), (proj2 (Z.eqb_neq b 92)), (proj2 (Z.ltb_ge b 32)), IH by lia. by destruct (scan_string r) as [[? ?]|].
Qed.

Lemma scan_escape_rune rune r : high_rune rune ->
  scan_string (escape_rune rune ++ r) = match scan_string r with Some (u, v) => Some (escape_rune rune ++ u, v) | None => None end.
Proof.
  intros H. unfold escape_rune. case_bool_decide; [done|]. case_bool_decide; [done|]. apply scan_plain. by apply high_rune_bytes.
Qed.
Lemma unquote_escape_rune rune r : high_rune rune -> unquote (escape_rune rune ++ r) = rune ++ unquote r.
Proof.
  intros H. unfold escape_rune. case_bool_decide as E; [by rewrite E|]. case_bool_decide as E'; [by rewrite E'|]. clear E E'.
  destruct H as [b b1 Hb H|b b1 b2 Hb H1 H|b b1 b2 b3 Hb H1 H2 H]; cbn [app unquote];
    rewrite (proj2 (Z.eqb_neq b 92)), high_not_ascii by lia.
  - by rewrite H.
  - by rewrite H1, H.
  - by rewrite H1, H2, H.
Qed.
Lemma utf8_escape_rune rune : high_rune rune -> utf8_valid (escape_rune rune) = true.
Proof. intros H. unfold escape_rune. case_bool_decide; [done|]. case_bool_decide; [done|]. by apply high_rune_bytes. Qed.

Lemma scan_escape l r : utf8_valid l = true -> scan_string (json.escape l ++ 34 :: r) = Some (json.escape l, r).
Proof.
  revert l. apply (utf8_ind (fun l => scan_string (json.escape l ++ 34 :: r) = Some (json.escape l, r))); [done| |].
  - intros b l Hb IH. rewrite escape_ascii_cons by done. rewrite <-app_assoc, scan_escape_ascii by done. by rewrite IH.
  - intros rune l Hr IH. rewrite escape_high by done. rewrite <-app_assoc, scan_escape_rune by done. by rewrite IH.
Qed.
Lemma unquote_escape l : utf8_valid l = true -> unquote (json.escape l) = l.
Proof.
  revert l. apply (utf8_ind (fun l => unquote (json.escape l) = l)); [done| |].
  - intros b l Hb IH. rewrite escape_ascii_cons, unquote_escape_ascii by done. by rewrite IH.
  - intros rune l Hr IH. rewrite escape_high, unquote_escape_rune by done. by rewrite IH.
Qed.
Lemma utf8_escape l : utf8_valid l = true -> utf8_valid (json.escape l) = true.
Proof.
  revert l. apply (utf8_ind (fun l => utf8_valid (json.escape l) = true)); [done| |].
  - intros b l Hb IH. rewrite escape_ascii_cons, utf8_valid_app by (done || by apply utf8_escape_ascii). done.
  - intros rune l Hr IH. rewrite escape_high, utf8_valid_app by (done || by apply utf8_escape_rune). done.
Qed.

(** ** Numbers *)
Lemma digit_code n : (n < 10)%N -> Z.of_N (Ascii.N_of_ascii (pretty_N_char n)) = 48 + Z.of_N n.
Proof.
  intros Hn. assert (Forall (fun n => Z.of_N (Ascii.N_of_ascii (pretty_N_char n)) = 48 + Z.of_N n) (map N.of_nat (seq 0 10))) as H by (repeat constructor).
  rewrite Forall_forall in H. apply H, list_elem_of_In, in_map_iff. exists (N.to_nat n). split; [lia|]. apply in_seq. lia.
Qed.

(** The digits of a positive number: no leading zero, and they add up. *)
Lemma pretty_digits n s : (0 < n)%N -> exists b ds, codes (pretty_N_go n s) = (b :: ds) ++ codes s /\ 49 <= b <= 57 /\
  Forall (fun c => 48 <= c <= 57) ds /\ forall acc l, net.parse_digits acc ((b :: ds) ++ l) = net.parse_digits (acc * 10 ^ len (b :: ds) + Z.of_N n) l.
Proof.
  revert s. induction (N.lt_wf_0 n) as [n _ IH]. intros s Hn. rewrite pretty_N_go_step by done.
  assert (n mod 10 < 10)%N as Hm by (apply N.mod_upper_bound; done). pose proof (digit_code _ Hm) as Hc.
  pose proof (N.div_mod n 10%N ltac:(done)) as Hdm. pose proof (N.div_lt n 10%N Hn eq_refl) as Hlt.
  generalize dependent (n `mod` 10)%N. generalize dependent (n `div` 10)%N. intros q Hlt m Hm Hc Hdm.
  assert (forall m acc l, (m < 10)%N -> net.parse_digits acc ((48 + Z.of_N m) :: l) = net.parse_digits (10 * acc + Z.of_N m) l) as Hone.
  { intros m0 acc l Hm'. cbn [net.parse_digits]. unfold is_digit, in_range. rewrite (proj2 (Z.leb_le 48 (48 + Z.of_N m0))), (proj2 (Z.leb_le (48 + Z.of_N m0) 57)) by lia.
    cbn [andb]. f_equal. lia. }
  destruct (N.eq_dec q 0%N) as [E|E].
  - rewrite E, pretty_N_go_0. assert (m = n) as -> by lia. exists (48 + Z.of_N n), [].
    unfold codes at 1. cbn [String.list_ascii_of_string map]. rewrite Hc. split_and!; [done|lia|lia|constructor|].
    intros acc l. cbn [app]. rewrite Hone by done. f_equal. unfold len. simpl. lia.
  - destruct (IH q Hlt (String (pretty_N_char m) s)) as (b & ds & Hcodes & Hb & Hds & Hp); [by apply N.neq_0_lt_0|].
    exists b, (ds ++ [48 + Z.of_N m]). split_and!; try lia.
    + rewrite Hcodes. unfold codes. cbn [String.list_ascii_of_string map]. rewrite Hc, <-!app_comm_cons, <-app_assoc. done.
    + apply Forall_app. split; [done|]. apply Forall_singleton. lia.
    + intros acc l. rewrite <-!app_comm_cons, <-app_assoc. cbn [app]. rewrite app_comm_cons, Hp, Hone by done. f_equal.
      unfold len. cbn [length]. rewrite length_app. cbn [length]. rewrite Nat.add_1_r, (Nat2Z.inj_succ (S (length ds))), Z.pow_succ_r by lia.
      lia.
Qed.

Lemma digits_scan ds r : Forall (fun c => 48 <= c <= 57) ds -> stops r -> scan_number NDigits (ds ++ r) = Some (ds, r).
Proof.
  intros Hd Hr. induction Hd as [|c ds Hc Hd IH]; cbn [app].
  - destruct r as [|b r]; [done|]. cbn [scan_number]. by rewrite num_step_stop.
  - cbn [scan_number num_step]. unfold is_digit, in_range. rewrite (proj2 (Z.leb_le 48 c)), (proj2 (Z.leb_le c 57)) by lia. cbn [andb]. by rewrite IH.
Qed.

(** A printed number that is not negative is a lexeme and reads back. *)
Lemma pretty_scalar z : 0 <= z ->
  scan_scalar (codes (pretty z)) = Some (NumberToken (codes (pretty z)), []) /\ net.parse_digits 0 (codes (pretty z)) = Some z /\
  exists b l, codes (pretty z) = b :: l /\ 48 <= b <= 57.
Proof.
  intros Hz. destruct z as [|p|p]; [| |lia].
  { split_and!; [done..|]. by eexists _, _. }
  assert (pretty (Zpos p) = pretty_N_go (Npos p) "") as -> by done.
  destruct (pretty_digits (Npos p) "") as (b & ds & -> & Hb & Hds & Hp); [done|]. rewrite app_nil_r. split_and!.
  - cbn [scan_scalar]. rewrite (proj2 (Z.eqb_neq b 34)) by lia. unfold num_start, in_range.
    rewrite (proj2 (Z.eqb_neq b 45)), (proj2 (Z.eqb_neq b 48)), (proj2 (Z.leb_le 49 b)), (proj2 (Z.leb_le b 57)) by lia. cbn [andb].
    rewrite <-(app_nil_r ds) at 1. by rewrite digits_scan.
  - specialize (Hp 0 []). rewrite app_nil_r in Hp. rewrite Hp. done.
  - exists b, ds. split; [done|lia].
Qed.

(** ** Documents *)
Lemma json_nested_ind (P : json -> Prop) :
  P JNull -> (forall b, P (JBool b)) -> (forall z, P (JInt z)) -> (forall s, P (JString s)) -> (forall l, Forall P l -> P (JArray l)) ->
  (forall l, Forall (fun kv => P (snd kv)) l -> P (JObject l)) -> (forall s, P (JRaw s)) -> forall v, P v.
Proof.
  intros Hn Hb Hi Hs Ha Ho Hr. fix IH 1. intros [| | | |l|l|]; [done..| | |done].
  - apply Ha. induction l as [|v l IHl]; constructor; [apply IH|exact IHl].
  - apply Ho. induction l as [|[k v] l IHl]; constructor; [apply IH|exact IHl].
Qed.

(** Values without raw messages, negative numbers or invalid UTF-8. *)
Fixpoint printable (v : json) : Prop :=
  match v with
  | JNull | JBool _ => True
  | JInt z => 0 <= z
  | JString s => utf8_ValidString s = true
  | JArray l => foldr (fun v P => printable v /\ P) True l
  | JObject l => foldr (fun kv P => utf8_ValidString (fst kv) = true /\ printable (snd kv) /\ P) True l
  | JRaw _ => False
  end.
Fixpoint doc_of (v : json) : doc :=
  match v with
  | JNull | JRaw _ => DScalar NullToken
  | JBool b => DScalar (BoolToken b)
  | JInt z => DScalar (NumberToken (codes (pretty z)))
  | JString s => DScalar (StringToken s)
  | JArray l => DArray (map doc_of l)
  | JObject l => DObject (map (fun kv => (fst kv, doc_of (snd kv))) l)
  end.

Lemma codes_join x l : codes (json.join "," (x :: l)) = codes x ++ concat (map (fun y => 44 :: codes y) l).
Proof.
  revert x. induction l as [|y l IH]; intros x; [cbn; by rewrite app_nil_r|].
  change (json.join "," (x :: y :: l)) with (x +:+ "," +:+ json.join "," (y :: l)). rewrite !codes_app, IH. done.
Qed.

Definition quoted (s : string) : list Z := 34 :: json.escape (codes s) ++ [34].
Definition member_codes (kv : string * json) : list Z := quoted (fst kv) ++ 58 :: codes (json.Marshal (snd kv)).

Lemma escape_bytes l : utf8_valid l = true -> bytes l -> bytes (json.escape l).
Proof.
  revert l. refine (utf8_ind (fun l => bytes l -> bytes (json.escape l)) _ _ _); [done| |].
  - intros b l Hb IH [_ Hl]%Forall_cons. rewrite escape_ascii_cons by done. apply Forall_app. split; [|by apply IH].
    revert b Hb. refine (ascii_cases _ _). apply Forall_forall. intros b Hb%list_elem_of_In.
    assert (forallb (fun b => forallb (in_range 0 255) (json.escape_ascii b)) (map Z.of_nat (seq 0 128)) = true) as H by (vm_compute; exact eq_refl).
    rewrite forallb_forall in H. specialize (H b Hb). rewrite forallb_forall in H. apply Forall_forall. intros c Hc%list_elem_of_In%H.
    unfold in_range in Hc. go_cases. lia.
  - intros rune l Hr IH [Hb Hl]%Forall_app. rewrite escape_high by done. apply Forall_app. split; [|by apply IH]. unfold escape_rune.
    case_bool_decide; [vm_compute; repeat constructor; done|]. case_bool_decide; [vm_compute; repeat constructor; done|done].
Qed.

Lemma codes_marshal_string s : utf8_ValidString s = true -> codes (json.marshal_string s) = quoted s.
Proof.
  intros H. unfold json.marshal_string, quoted. rewrite !codes_app. change (codes json.quote) with [34].
  rewrite json.codes_str_of; [done|]. apply escape_bytes; [exact H|]. apply Forall_forall. intros b. apply codes_range.
Qed.

Lemma codes_array v l : codes (json.Marshal (JArray (v :: l))) = 91 :: codes (json.Marshal v) ++ concat (map (fun y => 44 :: codes (json.Marshal y)) l) ++ [93].
Proof.
  change (json.Marshal (JArray (v :: l))) with ("[" +:+ json.join "," (json.Marshal v :: map json.Marshal l) +:+ "]").
  rewrite !codes_app, codes_join, map_map, <-app_assoc. done.
Qed.

Lemma codes_object kv l : utf8_ValidString (fst kv) = true -> Forall (fun kv => utf8_ValidString (fst kv) = true) l ->
  codes (json.Marshal (JObject (kv :: l))) = 123 :: member_codes kv ++ concat (map (fun y => 44 :: member_codes y) l) ++ [125].
Proof.
  intros Hk Hl. set (print := fun '(k, x) => json.marshal_string k +:+ ":" +:+ json.Marshal x).
  change (json.Marshal (JObject (kv :: l))) with ("{" +:+ json.join "," (print kv :: map print l) +:+ "}").
  assert (forall kv, utf8_ValidString (fst kv) = true -> codes (print kv) = member_codes kv) as Hp.
  { intros [k v] H. subst print. cbn beta iota. rewrite !codes_app, codes_marshal_string by done. done. }
  rewrite !codes_app, codes_join, Hp by done. cbn [codes String.list_ascii_of_string map app]. f_equal. rewrite <-app_assoc. do 2 f_equal.
  rewrite map_map. clear Hk. induction Hl as [|kv' l Hkv Hl IH]; [done|]. cbn [map concat]. by rewrite Hp, IH.
Qed.

Lemma quoted_text s : utf8_ValidString s = true -> scan_scalar (quoted s) = Some (StringToken s, []).
Proof.
  intros H. unfold quoted. cbn [scan_scalar]. cbn [Z.eqb Pos.eqb]. rewrite scan_escape by exact H. by rewrite unquote_escape, http.str_of_codes.
Qed.

(** What is printed is a document. *)
Lemma elements_printed l : Forall (fun v => text (doc_of v) (codes (json.Marshal v))) l ->
  elements_more (map doc_of l) (concat (map (fun y => 44 :: codes (json.Marshal y)) l)).
Proof.
  induction 1 as [|v l Hv Hl IH]; [apply (elements_end []), Forall_nil; done|]. cbn [map concat].
  apply (elements_next _ _ [] []); [by apply Forall_nil..|done|done].
Qed.
Lemma member_printed k v : utf8_ValidString k = true -> text (doc_of v) (codes (json.Marshal v)) -> member k (doc_of v) (member_codes (k, v)).
Proof.
  intros Hk Hv. unfold member_codes, quoted. cbn [fst snd].
  replace ((34 :: json.escape (codes k) ++ [34]) ++ 58 :: codes (json.Marshal v)) with (34 :: json.escape (codes k) ++ 34 :: [] ++ 58 :: [] ++ codes (json.Marshal v))
    by (cbn [app]; by rewrite <-app_assoc).
  rewrite <-(http.str_of_codes k) at 1. rewrite <-(unquote_escape (codes k) Hk) at 1. constructor; [|constructor|constructor|done]. by apply scan_escape.
Qed.
Lemma members_printed l : Forall (fun kv => utf8_ValidString (fst kv) = true /\ text (doc_of (snd kv)) (codes (json.Marshal (snd kv)))) l ->
  members_more (map (fun kv => (fst kv, doc_of (snd kv))) l) (concat (map (fun y => 44 :: member_codes y) l)).
Proof.
  induction 1 as [|[k v] l [Hk Hv] Hl IH]; [apply (members_end []), Forall_nil; done|]. cbn [map concat].
  apply (members_next _ _ _ [] []); [by apply Forall_nil..|by apply member_printed|done].
Qed.

Lemma printable_list l : printable (JArray l) <-> Forall printable l.
Proof. induction l as [|v l IH]; simpl; [by rewrite Forall_nil|]. rewrite Forall_cons. simpl in IH. tauto. Qed.
Lemma printable_fields l : printable (JObject l) <-> Forall (fun kv => utf8_ValidString (fst kv) = true /\ printable (snd kv)) l.
Proof. induction l as [|v l IH]; simpl; [by rewrite Forall_nil|]. rewrite Forall_cons. simpl in IH. tauto. Qed.

Lemma Forall_and_impl {A} (P Q R : A -> Prop) l : Forall P l -> Forall Q l -> (forall x, P x -> Q x -> R x) -> Forall R l.
Proof. intros HP HQ H. induction HP as [|x l Hx Hl IH]; [done|]. apply Forall_cons in HQ as [? ?]. constructor; auto. Qed.

Lemma text_Marshal v : printable v -> text (doc_of v) (codes (json.Marshal v)).
Proof.
  revert v. apply (json_nested_ind (fun v => printable v -> text (doc_of v) (codes (json.Marshal v)))).
  - intros _. by constructor.
  - intros [] _; by constructor.
  - intros z Hz. constructor. by apply pretty_scalar.
  - intros s Hs. cbn [json.Marshal doc_of]. rewrite codes_marshal_string by done. constructor. by apply quoted_text.
  - intros l IH Hp%printable_list. assert (Forall (fun v => text (doc_of v) (codes (json.Marshal v))) l) as Ht
      by (eapply Forall_and_impl; [exact IH|exact Hp|auto]).
    destruct Ht as [|v l Hv Hl]; [apply (text_array_empty []), Forall_nil; done|]. rewrite codes_array. cbn [doc_of map].
    apply (text_array _ _ []); [constructor|done|by apply elements_printed].
  - intros l IH Hp%printable_fields. assert (Forall (fun kv => utf8_ValidString (fst kv) = true /\ text (doc_of (snd kv)) (codes (json.Marshal (snd kv)))) l) as Ht
      by (eapply Forall_and_impl; [exact IH|exact Hp|]; intros kv H1 [? ?]; auto).
    destruct Ht as [|[k v] l [Hk Hv] Hl]; [apply (text_object_empty []), Forall_nil; done|]. rewrite codes_object; [|done|eapply Forall_impl; [exact Hl|]; by intros ? [? _]].
    cbn [doc_of map fst snd]. apply (text_object _ _ _ []); [constructor|by apply member_printed|by apply members_printed].
  - done.
Qed.

Lemma utf8_concat l : Forall (fun x => utf8_valid x = true) l -> utf8_valid (concat l) = true.
Proof. induction 1; [done|]. cbn [concat]. by rewrite utf8_valid_app. Qed.
Lemma utf8_quoted s : utf8_ValidString s = true -> utf8_valid (quoted s) = true.
Proof. intros H. unfold quoted. change (34 :: ?r) with ([34] ++ r). rewrite !utf8_valid_app by (done || by apply utf8_escape). done. Qed.

Lemma utf8_Marshal v : printable v -> utf8_valid (codes (json.Marshal v)) = true.
Proof.
  revert v. apply (json_nested_ind (fun v => printable v -> utf8_valid (codes (json.Marshal v)) = true)).
  - done.
  - by intros [].
  - intros z Hz. cbn [json.Marshal]. destruct z as [|p|p]; [done| |by destruct Hz]. assert (pretty (Zpos p) = pretty_N_go (Npos p) "") as -> by done.
    destruct (pretty_digits (Npos p) "") as (b & ds & -> & Hb & Hds & _); [done|]. rewrite utf8_valid_ascii; [done|]. constructor; [lia|].
    eapply Forall_impl; [exact Hds|]. simpl. lia.
  - intros s Hs. cbn [json.Marshal]. rewrite codes_marshal_string by done. by apply utf8_quoted.
  - intros l IH Hp%printable_list. assert (Forall (fun v => utf8_valid (codes (json.Marshal v)) = true) l) as Hu by (eapply Forall_and_impl; [exact IH|exact Hp|auto]).
    destruct Hu as [|v l Hv Hl]; [done|]. rewrite codes_array. change (91 :: ?r) with ([91] ++ r).
    rewrite !utf8_valid_app; [done| |done|done]. apply utf8_concat. apply Forall_map. eapply Forall_impl; [exact Hl|]. done.
  - intros l IH Hp%printable_fields.
    assert (Forall (fun kv => utf8_valid (member_codes kv) = true) l) as Hu.
    { eapply Forall_and_impl; [exact IH|exact Hp|]. intros [k v] H [Hk Hv]. unfold member_codes. cbn [fst snd] in *. rewrite utf8_valid_app by (by apply utf8_quoted). by apply H. }
    destruct l as [|kv l]; [done|]. apply Forall_cons in Hp as [[Hk _] Hp]. rewrite codes_object; [|done|eapply Forall_impl; [exact Hp|]; by intros ? [? _]].
    apply Forall_cons in Hu as [Hkv Hu]. change (123 :: ?r) with ([123] ++ r). rewrite !utf8_valid_app; [done| |done|done].
    apply utf8_concat. apply Forall_map. eapply Forall_impl; [exact Hu|]. done.
  - done.
Qed.

(** ** Raw values of a document *)
Definition skip_complete_more (ds : list doc) (more : list Z) : Prop := forall fuel depth rest, (length more <= fuel)%nat ->
  Forall (fun d => depth + doc_depth d <= maxNestingDepth) ds ->
  match skip_space (more ++ 93 :: rest) with
  | c :: l2 => if c =? 93 then Some l2 else if c =? 44 then skip_elements fuel depth (skip_space l2) else None
  | [] => None
  end = Some rest.
Definition skip_complete_member (k : string) (d : doc) (m : list Z) : Prop := forall fuel depth rest, (length m <= fuel)%nat ->
  depth + doc_depth d <= maxNestingDepth -> stops rest ->
  skip_members (S fuel) depth (m ++ rest) =
  match skip_space rest with
  | c :: l3 => if c =? 125 then Some l3 else if c =? 44 then skip_members fuel depth (skip_space l3) else None
  | [] => None
  end.
Definition skip_complete_members (ds : list (string * doc)) (more : list Z) : Prop := forall fuel depth rest, (length more <= fuel)%nat ->
  Forall (fun kd => depth + doc_depth (snd kd) <= maxNestingDepth) ds ->
  match skip_space (more ++ 125 :: rest) with
  | c :: l3 => if c =? 125 then Some l3 else if c =? 44 then skip_members fuel depth (skip_space l3) else None
  | [] => None
  end = Some rest.

Lemma array_depths depth ds : depth + doc_depth (DArray ds) <= maxNestingDepth -> depth + 1 <= maxNestingDepth /\ Forall (fun d => depth + 1 + doc_depth d <= maxNestingDepth) ds.
Proof.
  simpl. induction ds as [|d ds IH]; simpl; intros H; [split; [lia|constructor]|]. destruct IH as [IH1 IH2]; [lia|]. split; [lia|]. constructor; [lia|done].
Qed.
Lemma object_depths depth (ds : list (string * doc)) : depth + doc_depth (DObject ds) <= maxNestingDepth ->
  depth + 1 <= maxNestingDepth /\ Forall (fun kd => depth + 1 + doc_depth (snd kd) <= maxNestingDepth) ds.
Proof.
  simpl. induction ds as [|d ds IH]; simpl; intros H; [split; [lia|constructor]|]. destruct IH as [IH1 IH2]; [lia|]. split; [lia|]. constructor; [lia|done].
Qed.

Definition skip_complete (d : doc) (x : list Z) : Prop := forall fuel depth rest, (length x <= fuel)%nat ->
  depth + doc_depth d <= maxNestingDepth -> stops rest -> skip_value fuel depth (x ++ rest) = Some rest.

(** One element, then the rest of an array. *)
Lemma skip_elements_step d ds x more fuel depth rest :
  skip_complete d x -> skip_complete_more ds more -> elements_more ds more -> (length x + length more + 1 <= fuel)%nat ->
  Forall (fun d => depth + doc_depth d <= maxNestingDepth) (d :: ds) -> skip_elements fuel depth (x ++ more ++ 93 :: rest) = Some rest.
Proof.
  intros Hx Hmore Ht Hf [Hd Hds]%Forall_cons. destruct fuel as [|fuel]; [lia|]. cbn [skip_elements].
  rewrite Hx; [|lia|done|by eapply elements_stops]. apply Hmore; [lia|done].
Qed.

Lemma opening fuel depth c l : depth + 1 <= maxNestingDepth -> c = 91 \/ c = 123 ->
  skip_value (S fuel) depth (c :: l) =
  match skip_space l with
  | b :: l2 => if c =? 91 then (if b =? 93 then Some l2 else skip_elements fuel (depth + 1) (b :: l2))
               else if b =? 125 then Some l2 else skip_members fuel (depth + 1) (b :: l2)
  | [] => None
  end.
Proof.
  intros Hd Hc. cbn [skip_value]. rewrite Z.geb_leb, (proj2 (Z.leb_gt _ _)) by lia. destruct Hc as [-> | -> ]; by destruct (skip_space l).
Qed.

Lemma skip_grammar :
  (forall d x, text d x -> skip_complete d x) /\ (forall ds more, elements_more ds more -> skip_complete_more ds more) /\
  (forall k d m, member k d m -> skip_complete_member k d m) /\ (forall ds more, members_more ds more -> skip_complete_members ds more).
Proof.
  apply grammar_ind.
  - intros t l Hl fuel depth rest Hf _ Hr. pose proof Hl as Hl'. apply scan_scalar_split in Hl' as (b & x & -> & _ & H1 & H2 & _). rewrite app_nil_r in *.
    destruct fuel as [|fuel]; [simpl in Hf; lia|]. apply (scan_scalar_app _ _ rest) in Hl; [|done]. cbn [app] in *. cbn [skip_value].
    rewrite (proj2 (Z.eqb_neq b 91)), (proj2 (Z.eqb_neq b 123)) by done. by rewrite Hl.
  - intros w Hw fuel depth rest Hf [Hd _]%array_depths _. cbn [length] in Hf. rewrite length_app in Hf. simpl in Hf. destruct fuel as [|fuel]; [lia|].
    cbn [app]. rewrite opening by tauto. rewrite <-app_assoc, skip_space_app by done. done.
  - intros d ds w x more Hw Hx IHx Hmore IHmore fuel depth rest Hf [Hd Hds]%array_depths _. cbn [length] in Hf. rewrite !length_app in Hf. simpl in Hf.
    destruct fuel as [|fuel]; [lia|]. cbn [app]. rewrite opening by tauto. rewrite <-!app_assoc. cbn [app]. rewrite skip_space_app by (done || by eapply text_trimmed).
    pose proof Hx as Hx'. apply text_start in Hx' as (b & x' & -> & _ & Hb & _). cbn [app]. cbn [Z.eqb Pos.eqb]. rewrite (proj2 (Z.eqb_neq b 93)) by done.
    rewrite app_comm_cons. eapply skip_elements_step; [exact IHx|exact IHmore|done|lia|done].
  - intros w Hw fuel depth rest Hf [Hd _]%object_depths _. cbn [length] in Hf. rewrite length_app in Hf. simpl in Hf. destruct fuel as [|fuel]; [lia|].
    cbn [app]. rewrite opening by tauto. rewrite <-app_assoc, skip_space_app by done. done.
  - intros k d ds w x more Hw Hx IHx Hmore IHmore fuel depth rest Hf [Hd [Hkd Hds]%Forall_cons]%object_depths _. cbn [length] in Hf. rewrite !length_app in Hf. simpl in Hf.
    destruct fuel as [|fuel]; [lia|]. cbn [app]. rewrite opening by tauto. rewrite <-!app_assoc. cbn [app]. rewrite skip_space_app by (done || by eapply member_trimmed).
    assert (exists x', x = 34 :: x') as [x' ->] by (destruct Hx; by eexists). cbn [app]. cbn [Z.eqb Pos.eqb]. rewrite app_comm_cons.
    destruct fuel as [|fuel]; [simpl in Hf; lia|]. rewrite IHx; [|simpl in Hf |- *; lia|done|by eapply members_stops]. apply IHmore; [lia|done].
  - intros w Hw fuel depth rest _ _. by rewrite skip_space_app by done.
  - intros d ds w w' x more Hw Hw' Hx IHx Hmore IHmore fuel depth rest Hf Hds. rewrite length_app in Hf. cbn [length] in Hf. rewrite !length_app in Hf.
    rewrite <-app_assoc. cbn [app]. rewrite skip_space_app by done. cbn [Z.eqb Pos.eqb]. rewrite <-!app_assoc, skip_space_app by (done || by eapply text_trimmed).
    eapply skip_elements_step; [exact IHx|exact IHmore|done|lia|done].
  - intros u d w w' x Hu Hw Hw' Hx IHx fuel depth rest Hf Hd Hr. apply scan_string_split in Hu as [_ Hu].
    cbn [length] in Hf. rewrite !length_app in Hf. cbn [length] in Hf. rewrite !length_app in Hf. cbn [length] in Hf. rewrite !length_app in Hf.
    cbn [app skip_members]. cbn [Z.eqb Pos.eqb]. rewrite <-app_assoc. cbn [app]. rewrite Hu. rewrite <-app_assoc. cbn [app]. rewrite skip_space_app by done. cbn [Z.eqb Pos.eqb].
    rewrite <-app_assoc, skip_space_app by (done || by eapply text_trimmed). rewrite IHx; [done|lia|done|done].
  - intros w Hw fuel depth rest _ _. by rewrite skip_space_app by done.
  - intros k d ds w w' x more Hw Hw' Hx IHx Hmore IHmore fuel depth rest Hf [Hkd Hds]%Forall_cons. rewrite length_app in Hf. cbn [length] in Hf. rewrite !length_app in Hf.
    rewrite <-app_assoc. cbn [app]. rewrite skip_space_app by done. cbn [Z.eqb Pos.eqb]. rewrite <-!app_assoc, skip_space_app by (done || by eapply member_trimmed).
    destruct fuel as [|fuel]; [lia|]. rewrite IHx; [|lia|done|by eapply members_stops]. apply IHmore; [lia|done].
Qed.

(** One value is read whole. *)
Lemma readValue_text d x rest : text d x -> doc_depth d <= maxNestingDepth -> stops rest -> readValue (x ++ rest) = Some (x, rest).
Proof.
  intros Hx Hd Hr. unfold readValue. rewrite (proj1 skip_grammar d x Hx); [|rewrite length_app; lia|lia|done].
  rewrite length_app, Nat.add_sub, take_app_length. done.
Qed.
Lemma readValue_Marshal v rest : printable v -> doc_depth (doc_of v) <= maxNestingDepth -> stops rest ->
  readValue (codes (json.Marshal v) ++ rest) = Some (codes (json.Marshal v), rest).
Proof. intros Hp. apply readValue_text. by apply text_Marshal. Qed.

Lemma length_separated {A} (f : A -> list Z) (l : list A) : (length l <= length (concat (map (fun y => 44%Z :: f y) l)))%nat.
Proof. induction l as [|x l IH]; cbn [map concat length]; [lia|]. rewrite length_app. cbn [length]. lia. Qed.

(** The parts of a printed array or object. *)
Lemma elements_Marshal v l fuel rest : Forall (fun v => printable v /\ doc_depth (doc_of v) <= maxNestingDepth) (v :: l) -> (length l < fuel)%nat ->
  elements fuel (codes (json.Marshal v) ++ concat (map (fun y => 44 :: codes (json.Marshal y)) l) ++ 93 :: rest) =
  Some (map (fun v => codes (json.Marshal v)) (v :: l)).
Proof.
  revert v fuel. induction l as [|v' l IH]; intros v fuel Hall Hf; (destruct fuel as [|fuel]; [lia|]); apply Forall_cons in Hall as [[Hp Hd] Hall]; cbn [elements map concat app].
  - rewrite readValue_Marshal by done. done.
  - rewrite readValue_Marshal by done. cbn [skip_space]. cbn [Z.eqb Pos.eqb is_space orb]. simpl (is_space 44). cbn iota.
    pose proof (proj1 (proj1 (Forall_cons _ _ _) Hall)) as [Hp' _]. rewrite <-app_assoc.
    rewrite skip_space_trimmed by (by eapply text_trimmed, text_Marshal).
    rewrite IH; [done|done|simpl in Hf; lia].
Qed.
Lemma store_raws_Marshal l : Forall (fun v => printable v /\ doc_depth (doc_of v) <= maxNestingDepth) l ->
  store_raws (codes (json.Marshal (JArray l))) = Ok (Some (map (fun v => codes (json.Marshal v)) l)).
Proof.
  intros Hl. destruct l as [|v l]; [done|]. rewrite codes_array. unfold store_raws. cbn [starts tl]. rewrite Z.eqb_refl.
  pose proof (proj1 (proj1 (Forall_cons _ _ _) Hl)) as [Hp _]. pose proof (text_Marshal v Hp) as Ht. rewrite skip_space_trimmed by (by eapply text_trimmed).
  pose proof Ht as Ht'. apply text_start in Ht' as (b & x & Hx & _ & Hb & _).
  rewrite elements_Marshal; [|done|].
  - rewrite Hx. cbn [app starts]. by rewrite (proj2 (Z.eqb_neq b 93)).
  - cbn [length]. rewrite !length_app. pose proof (length_separated (fun y => codes (json.Marshal y)) l). lia.
Qed.

Definition shallow (v : json) : Prop := printable v /\ doc_depth (doc_of v) <= maxNestingDepth.
Definition shallow_field (kv : string * json) : Prop := utf8_ValidString (fst kv) = true /\ shallow (snd kv).
Definition raw_member (kv : string * json) : string * list Z := (fst kv, codes (json.Marshal (snd kv))).

Lemma members_Marshal kv l fuel rest : Forall shallow_field (kv :: l) -> (length l < fuel)%nat ->
  members fuel (member_codes kv ++ concat (map (fun y => 44 :: member_codes y) l) ++ 125 :: rest) = Some (map raw_member (kv :: l)).
Proof.
  assert (forall k v fuel r, shallow_field (k, v) -> stops r -> members (S fuel) (member_codes (k, v) ++ r) =
    match skip_space r with
    | c :: l3 => if c =? 125 then Some [raw_member (k, v)]
                 else if c =? 44 then match members fuel (skip_space l3) with Some rest => Some (raw_member (k, v) :: rest) | None => None end
                 else None
    | [] => None
    end) as Hone.
  { intros k v fuel0 r [Hk [Hp Hd]] Hr. cbn [fst snd] in *. unfold member_codes, quoted. cbn [fst snd app members]. rewrite <-!app_assoc. cbn [app]. rewrite Z.eqb_refl.
    rewrite scan_escape by exact Hk. rewrite skip_space_trimmed by done. cbn beta iota. rewrite Z.eqb_refl.
    rewrite skip_space_trimmed by (by eapply text_trimmed, text_Marshal). rewrite readValue_Marshal by done.
    rewrite unquote_escape, http.str_of_codes by exact Hk. done. }
  revert kv fuel. induction l as [|kv' l IH]; intros [k v] fuel Hall Hf; (destruct fuel as [|fuel]; [lia|]); apply Forall_cons in Hall as [Hkv Hall]; cbn [map concat app].
  - by rewrite Hone.
  - rewrite Hone by done. rewrite skip_space_trimmed by done. cbn beta iota. cbn [Z.eqb Pos.eqb]. rewrite <-app_assoc.
    rewrite skip_space_trimmed by (destruct kv'; done). rewrite IH; [done|done|simpl in Hf; lia].
Qed.

Lemma object_members_Marshal l : Forall shallow_field l -> object_members (codes (json.Marshal (JObject l))) = Some (map raw_member l).
Proof.
  intros Hl. destruct l as [|kv l]; [done|]. pose proof (proj1 (Forall_cons _ _ _) Hl) as [[Hk _] Hl'].
  rewrite codes_object; [|done|eapply Forall_impl; [exact Hl'|]; by intros ? [? _]]. unfold object_members. cbn [starts tl]. rewrite Z.eqb_refl.
  rewrite skip_space_trimmed by done. rewrite members_Marshal; [done|done|]. cbn [length]. rewrite !length_app. pose proof (length_separated member_codes l). lia.
Qed.

(** A struct is stored member by member. *)
Definition store_all {A} (store : string -> list Z -> A -> result A) (l : list (string * json)) (acc : result A) : result A :=
  foldl (fun acc kv => a <- acc ;; store (fst kv) (codes (json.Marshal (snd kv))) a) acc l.

Lemma store_struct_Marshal {A} names (store : string -> list Z -> A -> result A) l old :
  Forall shallow_field l -> Forall (fun kv => fst kv ∈ names) l ->
  store_struct names store (codes (json.Marshal (JObject l))) old = store_all store l (Ok old).
Proof.
  intros Hs Hn. unfold store_struct. rewrite object_members_Marshal by done.
  assert (starts 110 (codes (json.Marshal (JObject l))) = false) as ->.
  { destruct l as [|kv l]; [done|]. pose proof (proj1 (Forall_cons _ _ _) Hs) as [[Hk _] Hl'].
    rewrite codes_object; [done|done|eapply Forall_impl; [exact Hl'|]; by intros ? [? _]]. }
  unfold store_all. clear Hs. revert old. generalize (@Ok A). intros ok old. generalize (ok old) as acc.
  induction Hn as [|[k v] l Hk Hn IH]; intros acc; [done|]. cbn [map foldl raw_member fst snd]. unfold select_field. rewrite bool_decide_true by done. apply IH.
Qed.

Lemma store_string_Marshal s old : utf8_ValidString s = true -> store_string (codes (json.Marshal (JString s))) old = Ok s.
Proof.
  intros H. cbn [json.Marshal]. rewrite codes_marshal_string by done. unfold quoted, store_string. cbn [starts tl]. rewrite Z.eqb_refl.
  rewrite scan_escape by exact H. by rewrite unquote_escape, http.str_of_codes by exact H.
Qed.
Lemma store_string_pointer_Marshal s : utf8_ValidString s = true -> store_string_pointer (codes (json.Marshal (JString s))) = Ok (Some s).
Proof.
  intros H. unfold store_string_pointer. rewrite store_string_Marshal by done. cbn [json.Marshal]. by rewrite codes_marshal_string.
Qed.
Lemma ParseUint_pretty z : 0 <= z < 2 ^ 64 -> net.ParseUint 64 (codes (pretty z)) = Some z.
Proof.
  intros Hz. destruct (pretty_scalar z) as (_ & Hp & b & l & Hb & _); [lia|]. unfold net.ParseUint. rewrite Hp, Hb, (proj2 (Z.ltb_lt _ _)) by lia. done.
Qed.
Lemma store_uint64_Marshal z old : 0 <= z < 2 ^ 64 -> store_uint64 (codes (json.Marshal (JInt z))) old = Ok z.
Proof.
  intros Hz. unfold store_uint64, store_number. cbn [json.Marshal]. rewrite ParseUint_pretty by done.
  destruct (pretty_scalar z) as (_ & _ & b & l & -> & Hb); [lia|]. cbn [starts]. by rewrite (proj2 (Z.eqb_neq b 110)) by lia.
Qed.
Lemma store_int_Marshal z old : 0 <= z < 2 ^ 63 -> store_int (codes (json.Marshal (JInt z))) old = Ok z.
Proof.
  intros Hz. unfold store_int, store_number, ParseInt64. cbn [json.Marshal]. rewrite ParseUint_pretty by lia.
  destruct (pretty_scalar z) as (_ & _ & b & l & -> & Hb); [lia|]. cbn [starts].
  rewrite (proj2 (Z.eqb_neq b 110)), (proj2 (Z.eqb_neq b 45)), (proj2 (Z.ltb_lt _ _)) by lia. done.
Qed.

End jsonrt.
