(* ===== verification/AbiRoundtrip.v ===== *)
(** * Package [sdk/go/minicloudabi]: what is encoded is decoded

    The guest protocol has two ends that share nothing but bytes: a Worker
    writes a request that a guest reads, and reads the response that the guest
    writes. *)
From stdpp Require Import base gmap strings list sorting pretty.
From S2P Require Import Prelude Problem Digest Json Model Net Abi Rpc Http JsonDecode StrictJson JsonRoundtrip AbiDecode.
Import model abi jsondec strictjson jsonrt abidec.

#[local] Open Scope Z_scope.

Module abirt.

(** ** Base64 *)
Lemma base64_value_digit n : 0 <= n < 64 -> base64_value (net.base64_digit n) = Some n.
Proof.
  intros Hn. assert (forallb (fun n => bool_decide (base64_value (net.base64_digit n) = Some n)) (map Z.of_nat (seq 0 64)) = true) as H by (vm_compute; exact eq_refl).
  rewrite forallb_forall in H. apply (bool_decide_eq_true _), H, in_map_iff. exists (Z.to_nat n). split; [lia|]. apply in_seq. lia.
Qed.
Lemma base64_digit_ascii n : 0 <= n < 64 -> 43 <= net.base64_digit n < 128 /\ net.base64_digit n <> 61.
Proof.
  intros Hn. unfold net.base64_digit. destruct (n <? 26) eqn:?; [go_cases; lia|]. destruct (n <? 52) eqn:?; [go_cases; lia|].
  destruct (n <? 62) eqn:?; [go_cases; lia|]. destruct (n =? 62); lia.
Qed.

Ltac div_lia := Z.to_euclidean_division_equations; lia.

(** Induction three bytes at a time. *)
Lemma triple_ind (P : list Z -> Prop) :
  P [] -> (forall a, P [a]) -> (forall a b, P [a; b]) -> (forall a b c l, P l -> P (a :: b :: c :: l)) -> forall l, P l.
Proof.
  intros H0 H1 H2 H3. fix IH 1. intros [|a [|b [|c l]]]; [exact H0|apply H1|apply H2|apply H3, IH].
Qed.

Lemma decode_base64 l : bytes l -> decode_groups (net.base64 l) = Some l.
Proof.
  assert (forall v, 0 <= v < 64 -> (net.base64_digit v =? 61) = false) as Hpad by (intros v Hv; apply Z.eqb_neq, base64_digit_ascii, Hv).
  revert l. apply (triple_ind (fun l => bytes l -> decode_groups (net.base64 l) = Some l)); [done| | |].
  - intros a [Ha _]%Forall_cons. cbn [net.base64 decode_groups]. rewrite !base64_value_digit by div_lia. cbn [Z.eqb Pos.eqb andb len length Z.of_nat].
    do 2 f_equal. div_lia.
  - intros a b [Ha [Hb _]%Forall_cons]%Forall_cons. cbn [net.base64 decode_groups]. rewrite !base64_value_digit, Hpad by div_lia.
    cbn [Z.eqb Pos.eqb andb len length Z.of_nat]. f_equal. f_equal; [div_lia|]. f_equal. div_lia.
  - intros a b c l IH [Ha [Hb [Hc Hl]%Forall_cons]%Forall_cons]%Forall_cons. cbn [net.base64 decode_groups].
    rewrite !base64_value_digit, !Hpad by div_lia. rewrite IH by done. f_equal. f_equal; [div_lia|]. f_equal; [div_lia|]. f_equal. div_lia.
Qed.

Lemma base64_chars l : bytes l -> Forall (fun b => 43 <= b < 128) (net.base64 l).
Proof.
  revert l. apply (triple_ind (fun l => bytes l -> Forall (fun b => 43 <= b < 128) (net.base64 l))); [done| | |].
  - intros a [Ha _]%Forall_cons. cbn [net.base64]. repeat (apply Forall_cons; split; [try lia; apply base64_digit_ascii; div_lia|]). done.
  - intros a b [Ha [Hb _]%Forall_cons]%Forall_cons. cbn [net.base64]. repeat (apply Forall_cons; split; [try lia; apply base64_digit_ascii; div_lia|]). done.
  - intros a b c l IH [Ha [Hb [Hc Hl]%Forall_cons]%Forall_cons]%Forall_cons. cbn [net.base64].
    repeat (apply Forall_cons; split; [apply base64_digit_ascii; div_lia|]). by apply IH.
Qed.

Lemma codes_base64 s : codes (net.base64_string s) = net.base64 (codes s).
Proof. apply json.codes_str_of. eapply Forall_impl; [apply base64_chars, http.codes_bytes|]. simpl. lia. Qed.

Lemma decodeCanonicalBase64_encoded body : decodeCanonicalBase64 (net.base64_string body) = Ok body.
Proof.
  unfold decodeCanonicalBase64, DecodeString. rewrite codes_base64. pose proof (base64_chars (codes body) (http.codes_bytes body)) as Hc.
  assert (List.filter (fun b => negb ((b =? 10) || (b =? 13))) (net.base64 (codes body)) = net.base64 (codes body)) as ->.
  { induction Hc as [|b l Hb Hl IH]; [done|]. cbn [List.filter]. rewrite (proj2 (Z.eqb_neq b 10)), (proj2 (Z.eqb_neq b 13)) by lia. cbn [orb negb]. by rewrite IH. }
  rewrite decode_base64 by apply http.codes_bytes. cbn [fmap option_fmap option_map]. rewrite http.str_of_codes, bool_decide_true by done. done.
Qed.
Lemma utf8_base64 body : utf8_ValidString (net.base64_string body) = true.
Proof.
  unfold utf8_ValidString. rewrite codes_base64, <-(app_nil_r (net.base64 _)). rewrite utf8_valid_ascii; [done|].
  eapply Forall_impl; [apply base64_chars, http.codes_bytes|]. simpl. lia.
Qed.

(** ** Headers and queries *)
Definition json_strings (vs : list string) : json := JArray (map JString vs).
Definition valid_strings (vs : list string) : Prop := Forall (fun v => utf8_ValidString v = true) vs.
Definition entry_codes (e : string * list string) : list Z := member_codes (fst e, json_strings (snd e)).

Lemma json_strings_shallow vs : valid_strings vs -> shallow (json_strings vs).
Proof.
  intros Hv. split; [apply printable_list, Forall_map, Hv|]. unfold json_strings. cbn [doc_of doc_depth]. rewrite map_map.
  assert (foldr (fun d n => Z.max (doc_depth d) n) 0 (map (fun s => doc_of (JString s)) vs) = 0) as ->; [|unfold maxNestingDepth; lia].
  clear Hv. induction vs as [|v vs IH]; [done|]. cbn [map foldr]. by rewrite IH.
Qed.

Lemma position_next s s' c l : separator c s = Some s' -> trimmed_left l -> position s (c :: l) = (s', l).
Proof. intros Hc Hl. exact (position_separated s s' c [] [] l (Forall_nil_2 _) (Forall_nil_2 _) Hl Hc). Qed.

Lemma decode_string_value_Marshal field v : utf8_ValidString v = true -> decode_string_value field (codes (json.Marshal (JString v))) = Ok v.
Proof.
  intros Hv. unfold decode_string_value. rewrite store_string_Marshal by done. cbn [json.Marshal]. by rewrite codes_marshal_string.
Qed.

Lemma decodeStringArray_Marshal field vs st rest : valid_strings vs -> stops rest ->
  decodeStringArray field (at_ (58 :: codes (json.Marshal (json_strings vs)) ++ rest) ObjectColon st) = (at_ rest ObjectComma st, Ok vs).
Proof.
  intros Hv Hr. destruct (json_strings_shallow vs Hv) as [Hp Hd]. unfold decodeStringArray, Decode, sbind. cbn [at_ d_state d_rest d_stack].
  rewrite (position_next ObjectColon ObjectValue); [|done|by eapply text_trimmed, text_Marshal].
  cbn [tokenValueAllowed]. rewrite readValue_Marshal by done. cbn [wrap_err tokenValueEnd]. unfold slift, json_strings at 1.
  rewrite store_raws_Marshal.
  2:{ apply Forall_map. eapply Forall_impl; [exact Hv|]. intros v Hv'. split; [exact Hv'|]. simpl. unfold maxNestingDepth. lia. }
  cbn [wrap_err]. f_equal. apply map_result_Ok. rewrite map_map. clear - Hv. induction Hv as [|v vs Hv' Hv IH]; [constructor|]. cbn [map].
  constructor; [by apply decode_string_value_Marshal|apply IH].
Qed.

(** One key and its values. *)
Lemma read_key k r s st l s' : utf8_ValidString k = true -> position s l = (s', quoted k ++ r) -> s' = ObjectStart \/ s' = ObjectKey ->
  forall context, read_token context (at_ l s st) = (at_ r ObjectColon st, Ok (StringToken k)).
Proof.
  intros Hk Hp Hs context. apply read_token_reads. rewrite Hp. unfold quoted. rewrite <-app_comm_cons, <-app_assoc. cbn [app].
  rewrite <-(http.str_of_codes k) at 2. rewrite <-(unquote_escape (codes k) Hk) at 2. constructor; [done|]. by apply scan_escape.
Qed.

(** The members of a printed map, from the position of the first or of a
    comma. *)
Definition entries_tail (l : list (string * list string)) : list Z := concat (map (fun e => 44 :: entry_codes e) l).
Definition valid_entry (e : string * list string) : Prop := utf8_ValidString (fst e) = true /\ valid_strings (snd e).

Lemma entries_stops l r : stops (entries_tail l ++ 125 :: r).
Proof. by destruct l. Qed.
Lemma entry_split k vs r : entry_codes (k, vs) ++ r = quoted k ++ 58 :: codes (json.Marshal (json_strings vs)) ++ r.
Proof. unfold entry_codes, member_codes. cbn [fst snd]. by rewrite <-app_assoc. Qed.

(** Where a member starts. *)
Definition at_member (l : list Z) (s : token_state) (e : string * list string) (r : list Z) : Prop :=
  exists s', position s l = (s', entry_codes e ++ r) /\ (s' = ObjectStart \/ s' = ObjectKey) /\ forall st, More (at_ l s st) = true.

Lemma at_member_first e r : at_member (entry_codes e ++ r) ObjectStart e r.
Proof. exists ObjectStart. split_and!; [|by left|done]. destruct e. done. Qed.
Lemma at_member_next e r : at_member (44 :: entry_codes e ++ r) ObjectComma e r.
Proof. exists ObjectKey. split_and!; [|by right|done]. apply position_next; [done|]. destruct e. done. Qed.

Lemma headers_loop_member fuel mergeCase fields exact l s k vs r st :
  at_member l s (k, vs) r -> valid_entry (k, vs) -> stops r -> headerNamePattern k = true -> ToLower k = k -> (k ∉ exact) -> fields !! k = None ->
  headers_loop (S fuel) mergeCase fields exact (at_ l s st) =
  headers_loop fuel mergeCase (<[k := vs]> fields) ({[ k ]} ∪ exact) (at_ r ObjectComma st).
Proof.
  intros (s' & Hp & Hs & Hm) [Hk Hv] Hr Hn Hl He Hf. cbn [fst snd] in *. cbn [headers_loop]. unfold sbind at 1, sget. rewrite Hm.
  rewrite entry_split in Hp. unfold sbind at 1. rewrite (read_key _ _ _ _ _ _ Hk Hp Hs). cbn beta iota. rewrite Hn. cbn [negb].
  rewrite bool_decide_false by done. unfold sbind at 1. rewrite decodeStringArray_Marshal by done. cbn beta iota. rewrite Hl, Hf. done.
Qed.

Lemma headers_loop_Marshal mergeCase es fields exact fuel l s r st :
  match es with
  | [] => l = 125 :: r /\ (s = ObjectStart \/ s = ObjectComma)
  | e :: es' => at_member l s e (entries_tail es' ++ 125 :: r)
  end ->
  Forall valid_entry es -> Forall (fun e => headerNamePattern (fst e) = true /\ ToLower (fst e) = fst e) es ->
  NoDup (map fst es) -> (forall k, k ∈ map fst es -> (k ∉ exact) /\ fields !! k = None) -> (length es < fuel)%nat ->
  exists s', headers_loop fuel mergeCase fields exact (at_ l s st) =
    (at_ (125 :: r) s' st, Ok (foldl (fun acc e => <[fst e := snd e]> acc) fields es)) /\ (s' = ObjectStart \/ s' = ObjectComma).
Proof.
  revert fields exact fuel l s. induction es as [|[k vs] es IH]; intros fields exact fuel l s Hl Hv Hn Hd Hx Hf; (destruct fuel as [|fuel]; [simpl in Hf; lia|]).
  - destruct Hl as [-> Hs]. exists s. split; [|done]. done.
  - apply Forall_cons in Hv as [Hv Hvs]. apply Forall_cons in Hn as [[Hn1 Hn2] Hns]. cbn [map fst] in Hd. apply NoDup_cons in Hd as [Hk Hd].
    destruct (Hx k) as [He Hfk]; [by left|]. cbn [fst] in *.
    rewrite (headers_loop_member _ _ _ _ _ _ _ _ _ _ Hl Hv (entries_stops _ _) Hn1 Hn2 He Hfk).
    apply IH; [|done|done|done| |simpl in Hf; lia].
    + destruct es as [|e es]; [by split; [|right]|]. unfold entries_tail. cbn [map concat]. rewrite <-app_assoc, <-app_comm_cons. apply at_member_next.
    + intros k' Hk'. destruct (Hx k') as [He' Hf']; [by right|]. assert (k <> k') by (by intros ->).
      split; [|by rewrite lookup_insert_ne]. apply not_elem_of_union. split; [by apply not_elem_of_singleton|done].
Qed.

Lemma string_map_loop_Marshal field es values fuel l s r st :
  match es with
  | [] => l = 125 :: r /\ (s = ObjectStart \/ s = ObjectComma)
  | e :: es' => at_member l s e (entries_tail es' ++ 125 :: r)
  end ->
  Forall valid_entry es -> (length es < fuel)%nat ->
  exists s', string_map_loop fuel field values (at_ l s st) =
    (at_ (125 :: r) s' st, Ok (foldl (fun acc e => <[fst e := snd e]> acc) values es)) /\ (s' = ObjectStart \/ s' = ObjectComma).
Proof.
  revert values fuel l s. induction es as [|[k vs] es IH]; intros values fuel l s Hl Hv Hf; (destruct fuel as [|fuel]; [simpl in Hf; lia|]).
  - destruct Hl as [-> Hs]. exists s. split; [|done]. done.
  - apply Forall_cons in Hv as [[Hk Hv] Hvs]. cbn [fst snd] in *. destruct Hl as (s' & Hp & Hs & Hm). rewrite entry_split in Hp.
    cbn [string_map_loop]. unfold sbind at 1, sget. rewrite Hm. unfold sbind at 1. rewrite (read_key _ _ _ _ _ _ Hk Hp Hs). cbn beta iota.
    unfold sbind at 1. rewrite decodeStringArray_Marshal by (done || apply entries_stops). cbn beta iota. apply IH; [|done|simpl in Hf; lia].
    destruct es as [|e es]; [by split; [|right]|]. unfold entries_tail. cbn [map concat]. rewrite <-app_assoc, <-app_comm_cons. apply at_member_next.
Qed.


(** A map with no nil slice, as its printed entries. *)
Definition entries (m : gmap string (option (list string))) : list (string * list string) :=
  map (fun e => (fst e, default [] (snd e))) (SortFunc (fun x y => strings_Compare (fst x) (fst y)) (map_to_list m)).
Definition full (m : gmap string (option (list string))) : Prop := Forall query_entry (map_to_list m).

Lemma entries_permuted m : SortFunc (fun x y => strings_Compare (fst x) (fst y)) (map_to_list m) ≡ₚ map_to_list (m : gmap string (option (list string))).
Proof. apply SortFunc_Permutation. Qed.

Lemma json_fields_entries m : full m -> json_fields (Some m) = JObject (map (fun e => (fst e, json_strings (snd e))) (entries m)).
Proof.
  unfold full. rewrite <-entries_permuted. intros Hm. unfold json_fields, json.of_map, entries. f_equal. rewrite map_map. apply map_ext_in.
  intros [k v] Hin%list_elem_of_In. rewrite Forall_forall in Hm. destruct (Hm _ Hin) as (_ & vs & Hv & _). cbn [snd] in Hv. by subst v.
Qed.
Lemma entries_valid m : full m -> Forall valid_entry (entries m).
Proof.
  unfold full. rewrite <-entries_permuted. intros Hm. apply Forall_map. eapply Forall_impl; [exact Hm|]. intros [k v] (Hk & vs & Hv & Hvs).
  cbn [fst snd] in *. by subst v.
Qed.
Lemma entries_keys m : NoDup (map fst (entries m)).
Proof.
  unfold entries. rewrite map_map. assert (map (fun x => fst x) (map_to_list m) ≡ₚ map (fun e => fst (fst e, default [] (snd e))) (SortFunc (fun x y => strings_Compare (fst x) (fst y)) (map_to_list m))) as <-.
  { symmetry. rewrite <-entries_permuted at 2. reflexivity. }
  apply NoDup_fst_map_to_list.
Qed.
Lemma entries_insert m : full m -> as_fields (foldl (fun acc e => <[fst e := snd e]> acc) ∅ (entries m)) = Some m.
Proof.
  intros Hm. unfold as_fields. f_equal. rewrite (foldl_insert_map ((default []) <$> m)).
  - rewrite <-map_fmap_compose. apply map_eq. intros k. rewrite lookup_fmap. destruct (m !! k) as [v|] eqn:Hk; [|done]. simpl. f_equal.
    apply elem_of_map_to_list in Hk. unfold full in Hm. rewrite Forall_forall in Hm. destruct (Hm _ Hk) as (_ & vs & Hv & _). simpl in Hv. by subst v.
  - rewrite map_to_list_fmap. unfold entries. rewrite entries_permuted. reflexivity.
Qed.

(** The text of a printed map. *)
Definition entries_body (es : list (string * list string)) : list Z :=
  match es with [] => [] | e :: es' => entry_codes e ++ entries_tail es' end.
Lemma codes_entries es : Forall valid_entry es ->
  codes (json.Marshal (JObject (map (fun e => (fst e, json_strings (snd e))) es))) = 123 :: entries_body es ++ [125].
Proof.
  intros Hes. destruct es as [|e es]; [done|]. apply Forall_cons in Hes as [[Hk _] Hes]. cbn [map]. rewrite codes_object; [|done|].
  - unfold entries_body, entries_tail. rewrite map_map, <-app_assoc. done.
  - apply Forall_map. eapply Forall_impl; [exact Hes|]. by intros [? ?] [? _].
Qed.
Lemma entries_body_length es : (length es <= length (entries_body es))%nat.
Proof.
  destruct es as [|e es]; [done|]. cbn [entries_body length]. rewrite length_app. pose proof (length_separated entry_codes es) as H. unfold entries_tail.
  assert (1 <= length (entry_codes e))%nat by (unfold entry_codes, member_codes, quoted; simpl; lia). lia.
Qed.
Lemma entries_start es r :
  match es with
  | [] => entries_body es ++ 125 :: r = 125 :: r /\ (ObjectStart = ObjectStart \/ ObjectStart = ObjectComma)
  | e :: es' => at_member (entries_body es ++ 125 :: r) ObjectStart e (entries_tail es' ++ 125 :: r)
  end.
Proof. destruct es as [|e es]; [by split; [|left]|]. cbn [entries_body]. rewrite <-app_assoc. apply at_member_first. Qed.

Lemma read_opening context l : read_token context (NewDecoder (123 :: l)) = (at_ l ObjectStart [TopValue], Ok (Delim 123)).
Proof. done. Qed.
Lemma read_closing context s : s = ObjectStart \/ s = ObjectComma -> read_token context (at_ [125] s [TopValue]) = (at_ [] TopValue [], Ok (Delim 125)).
Proof. by intros [-> | -> ]. Qed.

Lemma decodeHeaders_Marshal m mergeCase : full m -> Forall (fun e => headerNamePattern (fst e) = true /\ ToLower (fst e) = fst e) (map_to_list m) ->
  exists fields, decodeHeaders (codes (json.Marshal (json_fields (Some m)))) mergeCase = Ok fields /\ as_fields fields = Some m.
Proof.
  intros Hm Hn. pose proof (entries_valid m Hm) as Hv. rewrite json_fields_entries, codes_entries by done. unfold decodeHeaders.
  unfold sbind at 1. rewrite read_opening. cbn beta iota. unfold sbind at 1, slift at 1. cbn [Z.eqb Pos.eqb negb fail_if].
  destruct (headers_loop_Marshal mergeCase (entries m) ∅ ∅ (S (length (123 :: entries_body (entries m) ++ [125]))) _ ObjectStart [] [TopValue]
    (entries_start (entries m) []) Hv) as (s' & Hl & Hs).
  - rewrite <-entries_permuted in Hn. apply Forall_map. eapply Forall_impl; [exact Hn|]. done.
  - apply entries_keys.
  - intros k _. split; [apply not_elem_of_empty|apply lookup_empty].
  - pose proof (entries_body_length (entries m)). cbn [length]. rewrite length_app. lia.
  - eexists. split; [|by apply entries_insert]. unfold sbind at 1. rewrite Hl. unfold sbind at 1. rewrite read_closing by done. done.
Qed.
Lemma decodeStringMap_Marshal m field : full m ->
  exists fields, decodeStringMap (codes (json.Marshal (json_fields (Some m)))) field = Ok fields /\ as_fields fields = Some m.
Proof.
  intros Hm. pose proof (entries_valid m Hm) as Hv. rewrite json_fields_entries, codes_entries by done. unfold decodeStringMap.
  unfold sbind at 1. rewrite read_opening. cbn beta iota. unfold sbind at 1, slift at 1. cbn [Z.eqb Pos.eqb negb fail_if].
  destruct (string_map_loop_Marshal field (entries m) ∅ (S (length (123 :: entries_body (entries m) ++ [125]))) _ ObjectStart [] [TopValue]
    (entries_start (entries m) []) Hv) as (s' & Hl & Hs).
  - pose proof (entries_body_length (entries m)). cbn [length]. rewrite length_app. lia.
  - eexists. split; [|by apply entries_insert]. unfold sbind at 1. rewrite Hl. unfold sbind at 1. rewrite read_closing by done. done.
Qed.


(** ** Documents that both readers take *)

(** A value that prints, nests at most [k] deep, and repeats no key. *)
Definition fine (k : Z) (v : json) : Prop := printable v /\ 0 <= k /\ doc_depth (doc_of v) <= k /\ unique_keys (doc_of v).
Definition fine_field (k : Z) (kv : string * json) : Prop := utf8_ValidString (fst kv) = true /\ fine k (snd kv).

Lemma fine_le k k' v : fine k v -> k <= k' -> fine k' v.
Proof. intros (? & ? & ? & ?) ?. unfold fine. split_and!; (done || lia). Qed.
Lemma fine_string s : utf8_ValidString s = true -> fine 0 (JString s).
Proof. done. Qed.
Lemma fine_int z : 0 <= z -> fine 0 (JInt z).
Proof. done. Qed.
Lemma fine_strings vs : valid_strings vs -> fine 1 (json_strings vs).
Proof.
  intros Hv. unfold fine, json_strings. split_and!; [apply printable_list, Forall_map, Hv|lia| |]; cbn [doc_of doc_depth unique_keys]; rewrite map_map; clear Hv;
    induction vs as [|v vs IH]; cbn [map foldr doc_of doc_depth unique_keys] in *; (lia || done).
Qed.
Lemma fine_object k l : Forall (fine_field k) l -> NoDup (map fst l) -> 0 <= k -> fine (k + 1) (JObject l).
Proof.
  intros Hl Hd Hk. unfold fine. split_and!; [|lia| |].
  - apply printable_fields. eapply Forall_impl; [exact Hl|]. by intros kv (? & ? & _).
  - cbn [doc_of doc_depth]. assert (foldr (fun kd n => Z.max (doc_depth (snd kd)) n) 0 (map (fun kv => (fst kv, doc_of (snd kv))) l) <= k); [|lia]. clear Hd.
    induction Hl as [|kv l (_ & _ & _ & Hd & _) Hl IH]; cbn [map foldr snd]; lia.
  - cbn [doc_of unique_keys]. rewrite map_map. cbn [fst]. split; [done|]. clear Hd.
    induction Hl as [|kv l (_ & _ & _ & _ & Hu) Hl IH]; cbn [map foldr snd]; done.
Qed.
Lemma fine_fields m : full m -> fine 2 (json_fields (Some m)).
Proof.
  intros Hm. rewrite json_fields_entries by done. apply (fine_object 1); [| |lia].
  - apply Forall_map. eapply Forall_impl; [apply entries_valid, Hm|]. intros [k vs] [Hk Hvs]. by split; [|apply fine_strings].
  - rewrite map_map. apply entries_keys.
Qed.

Lemma fine_shallow k v : fine k v -> k <= 100 -> shallow v.
Proof. intros (Hp & _ & Hd & _) Hk. split; [done|]. unfold maxNestingDepth. lia. Qed.
Lemma fine_field_shallow k l : Forall (fine_field k) l -> k <= 100 -> Forall shallow_field l.
Proof. intros Hl Hk. eapply Forall_impl; [exact Hl|]. intros kv [? ?]. split; [done|by eapply fine_shallow]. Qed.

Lemma Validate_Marshal k v maxDepth : fine k v -> 1 <= maxDepth -> k <= maxDepth -> Validate (json.Marshal v) maxDepth = Ok tt.
Proof.
  intros (Hp & _ & Hd & Hu) H1 Hk. apply Validate_spec. split_and!; [done|by apply utf8_Marshal|]. exists (doc_of v). split_and!; [|lia|done].
  exists [], (codes (json.Marshal v)), []. split_and!; [by rewrite app_nil_r|constructor|constructor|by apply text_Marshal].
Qed.

Lemma decodeKnownFields_Marshal {A} k v (store : list Z -> result A) a : fine k v -> k <= 100 ->
  store (codes (json.Marshal v)) = Ok a -> decodeKnownFields (codes (json.Marshal v)) store = Ok a.
Proof.
  intros Hf Hk Hs. destruct (fine_shallow _ _ Hf Hk) as [Hp Hd]. unfold decodeKnownFields, Decode, sbind, slift. cbn [NewDecoder d_rest d_state d_stack].
  rewrite position_top, skip_space_trimmed; [|rewrite <-(app_nil_r (codes _)); by eapply text_trimmed, text_Marshal]. cbn [tokenValueAllowed].
  rewrite <-(app_nil_r (codes (json.Marshal v))) at 1. rewrite readValue_Marshal by done. cbn beta iota. rewrite Hs. done.
Qed.

Lemma readEnvelope_Marshal k v limits : fine k v -> strlen (json.Marshal v) <= lm_RawEnvelopeBytes limits -> in_bounds limits -> k <= lm_JSONDepth limits ->
  readEnvelope (Some (bytes_reader (json.Marshal v))) limits = Ok (json.Marshal v).
Proof.
  intros Hf Hlen [Hpos Hle] Hk. unfold positive_limits, limits_le, limits_list in *. rewrite !Forall_cons in Hpos. rewrite !Forall2_cons in Hle.
  assert (1 <= lm_RawEnvelopeBytes limits <= 1572864) as Hraw by (split; [tauto|destruct Hle as [Hle _]; exact Hle]).
  assert (1 <= lm_JSONDepth limits) as Hdep by tauto. clear Hpos Hle.
  unfold readEnvelope, Read. rewrite (proj2 (Z.ltb_ge _ _)) by lia. cbn [fail_if rbind]. unfold rpc.ReadAll_Limit. cbn [bytes_reader rpc.rd_err rpc.rd_bytes].
  assert (i64 (lm_RawEnvelopeBytes limits + 1) = lm_RawEnvelopeBytes limits + 1) as -> by (unfold i64; rewrite Z.mod_small; lia). rewrite rpc.substring_all by (unfold strlen in Hlen; lia). cbn [wrap_err rbind]. rewrite Z.gtb_ltb, (proj2 (Z.ltb_ge _ _)) by lia.
  cbn [fail_if rbind wrap_err]. erewrite Validate_Marshal by (done || lia). done.
Qed.


(** ** Text of the fields *)
Lemma ascii_utf8 (class : Z -> bool) s : (forall b, class b = true -> b < 128) -> forallb class (codes s) = true -> utf8_ValidString s = true.
Proof.
  intros Hc Hs. unfold utf8_ValidString. rewrite <-(app_nil_r (codes s)), utf8_valid_ascii; [done|]. rewrite forallb_forall in Hs.
  apply Forall_forall. intros b Hb. split; [apply (proj1 (Forall_forall _ _) (http.codes_bytes s) b Hb)|].
  by apply Hc, Hs, list_elem_of_In.
Qed.
Lemma one_of_ascii l b : forallb (fun x => x <? 128) (codes l) = true -> one_of l b = true -> b < 128.
Proof. intros Hl Hb. unfold one_of in Hb. apply existsb_exists in Hb as (x & Hx & ->%Z.eqb_eq). rewrite forallb_forall in Hl. by apply Z.ltb_lt, Hl. Qed.
Lemma alnum_ascii b : is_alnum b = true -> b < 128.
Proof. unfold is_alnum, is_upper, is_lower, is_digit, in_range. intros H. go_cases; lia. Qed.

Lemma idPattern_utf8 s : idPattern s = true -> utf8_ValidString s = true.
Proof.
  unfold idPattern, match_class. intros H. go_cases. eapply (ascii_utf8 id_class); [|done]. intros b [Hb|Hb]%orb_true_iff; [by apply alnum_ascii|].
  eapply one_of_ascii; [|exact Hb]. done.
Qed.
Lemma headerNamePattern_utf8 s : headerNamePattern s = true -> utf8_ValidString s = true.
Proof.
  unfold headerNamePattern, httpTokenPattern. intros [_ H]%andb_true_iff. eapply (ascii_utf8 token_class); [|done]. intros b [Hb|Hb]%orb_true_iff; [|by apply alnum_ascii].
  eapply one_of_ascii; [|exact Hb]. done.
Qed.
Lemma header_entries_full limits m : Forall (header_entry limits) (map_to_list m) -> full m.
Proof.
  intros Hm. eapply Forall_impl; [exact Hm|]. intros [k v] (Hk & _ & _ & vs & Hv & Hvs). split; [by apply headerNamePattern_utf8|].
  exists vs. split; [done|]. eapply Forall_impl; [exact Hvs|]. intros s Hs. unfold check_header_value in Hs.
  apply rbind_Ok in Hs as ([] & Hs%fail_if_Ok & _). by apply orb_false_iff in Hs as [Hs%negb_false_iff _].
Qed.
Lemma header_entries_names limits m : Forall (header_entry limits) (map_to_list m) ->
  Forall (fun e => headerNamePattern (fst e) = true /\ ToLower (fst e) = fst e) (map_to_list m).
Proof. intros Hm. eapply Forall_impl; [exact Hm|]. by intros e (? & ? & _). Qed.

(** ** The trigger *)
Definition valid_trigger (t : Trigger) : Prop :=
  0 <= tg_ResourceRevision t < 2 ^ 64 /\ valid_strings (map snd (trigger_strings t)).

Lemma store_all_cons {A} (store : string -> list Z -> A -> result A) k v l a a' :
  store k (codes (json.Marshal v)) a = Ok a' -> store_all store ((k, v) :: l) (Ok a) = store_all store l (Ok a').
Proof. intros H. unfold store_all. cbn [foldl rbind fst snd]. by rewrite H. Qed.

Lemma store_trigger_string name value t : utf8_ValidString value = true -> (name <> "resource_revision")%string ->
  store_trigger_field name (codes (json.Marshal (JString value))) t = Ok (set_trigger name value t).
Proof. intros Hv Hn. unfold store_trigger_field. rewrite (proj2 (String.eqb_neq _ _) Hn). by rewrite store_string_Marshal. Qed.
Lemma store_omitempty name value l t : utf8_ValidString value = true -> (name <> "resource_revision")%string -> set_trigger name "" t = t ->
  store_all store_trigger_field (omitempty name value ++ l) (Ok t) = store_all store_trigger_field l (Ok (set_trigger name value t)).
Proof.
  intros Hv Hn He. unfold omitempty. case_bool_decide as H; [by subst value; rewrite He|]. cbn [app].
  by apply store_all_cons, store_trigger_string.
Qed.
Lemma store_revision v l t : 0 <= v < 2 ^ 64 -> with_revision t 0 = t ->
  store_all store_trigger_field ((if v =? 0 then [] else [("resource_revision"%string, JInt v)]) ++ l) (Ok t) = store_all store_trigger_field l (Ok (with_revision t v)).
Proof.
  intros Hv He. destruct (Z.eqb_spec v 0) as [->|H]; [by rewrite He|]. cbn [app]. apply store_all_cons. unfold store_trigger_field. cbn [String.eqb Ascii.eqb Bool.eqb].
  by rewrite store_uint64_Marshal.
Qed.

Definition trigger_members (t : Trigger) : list (string * json) := match json_trigger t with JObject l => l | _ => [] end.
Lemma omitempty_fine name value : utf8_ValidString name = true -> utf8_ValidString value = true -> Forall (fine_field 0) (omitempty name value).
Proof. intros Hn Hv. unfold omitempty. case_bool_decide; [by apply Forall_nil|]. apply Forall_cons. by split; [split|apply Forall_nil]. Qed.
Lemma omitempty_names name value : map fst (omitempty name value) `sublist_of` [name].
Proof. unfold omitempty. case_bool_decide; simpl; [apply sublist_nil_l|done]. Qed.

Lemma trigger_members_fine t : valid_trigger t -> Forall (fine_field 0) (trigger_members t).
Proof.
  intros [Hr Hs]. unfold valid_strings, trigger_strings in Hs. cbn [map snd] in Hs. rewrite !Forall_cons in Hs.
  destruct Hs as (? & ? & ? & ? & ? & ? & ? & ? & ? & ? & _). cbn [trigger_members json_trigger app].
  do 2 (apply Forall_cons; split; [by split|]). rewrite !Forall_app. split_and!; try (by apply omitempty_fine).
  destruct (_ =? 0); [by apply Forall_nil|]. apply Forall_cons. split; [|by apply Forall_nil]. split; [done|]. apply fine_int. lia.
Qed.
Lemma trigger_members_names t : map fst (trigger_members t) `sublist_of` trigger_fields.
Proof.
  cbn [trigger_members json_trigger app map fst]. unfold trigger_fields. do 2 apply sublist_skip. rewrite !map_app.
  repeat (apply (sublist_app _ [_]); [try apply omitempty_names|]); [|apply omitempty_names].
  destruct (_ =? 0); simpl; [apply sublist_nil_l|done].
Qed.
Lemma store_trigger t : valid_trigger t -> store_all store_trigger_field (trigger_members t) (Ok zero_Trigger) = Ok t.
Proof.
  intros [Hr Hs]. unfold valid_strings, trigger_strings in Hs. cbn [map snd] in Hs. rewrite !Forall_cons in Hs.
  destruct Hs as (? & ? & ? & ? & ? & ? & ? & ? & ? & ? & _). cbn [trigger_members json_trigger app].
  do 2 (erewrite store_all_cons by (by apply store_trigger_string)). rewrite store_revision by done.
  do 7 (rewrite store_omitempty by done). rewrite <-(app_nil_r (omitempty _ _)), store_omitempty by done. by destruct t.
Qed.


(** ** Requests *)
Definition request_members (r : Request) : list (string * json) := match requestWire r with JObject l => l | _ => [] end.
Definition response_members (r : Response) : list (string * json) := match responseWire r with JObject l => l | _ => [] end.

(** What encoding asks of a request. *)
Record encodable_request (r : Request) (query headers : gmap string (option (list string))) : Prop := {
  er_strings : valid_strings [rq_SpecVersion r; rq_InvocationID r; rq_Method r; rq_Path r];
  er_query : rq_Query r = Some query /\ full query;
  er_headers : rq_Headers r = Some headers /\ full headers /\
    Forall (fun e => headerNamePattern (fst e) = true /\ ToLower (fst e) = fst e) (map_to_list headers);
  er_deadline : 0 <= rq_DeadlineUnixMS r < 2 ^ 63;
  er_trigger : valid_trigger (rq_Trigger r);
}.

Lemma json_trigger_members t : json_trigger t = JObject (trigger_members t).
Proof. done. Qed.
Lemma fine_trigger t : valid_trigger t -> fine 1 (json_trigger t).
Proof.
  intros Ht. rewrite json_trigger_members. apply (fine_object 0); [by apply trigger_members_fine| |lia].
  eapply sublist_NoDup; [|apply trigger_members_names]. apply (bool_decide_unpack _). vm_compute. exact I.
Qed.
Lemma store_struct_trigger t : valid_trigger t ->
  store_struct trigger_fields store_trigger_field (codes (json.Marshal (json_trigger t))) zero_Trigger = Ok t.
Proof.
  intros Ht. rewrite json_trigger_members, store_struct_Marshal; [by apply store_trigger| |].
  - eapply fine_field_shallow; [by apply trigger_members_fine|lia].
  - apply Forall_forall. intros kv Hkv. eapply elem_of_sublist; [|apply (trigger_members_names t)]. apply list_elem_of_fmap. by exists kv.
Qed.

Lemma fine_scalar_field k s : utf8_ValidString k = true -> utf8_ValidString s = true -> fine_field 2 (k, JString s).
Proof. intros Hk Hs. split; [done|]. eapply fine_le; [by apply fine_string|lia]. Qed.
Lemma fine_fields_field k m : utf8_ValidString k = true -> full m -> fine_field 2 (k, json_fields (Some m)).
Proof. intros Hk Hm. split; [done|by apply fine_fields]. Qed.
Lemma fine_int_field k z : utf8_ValidString k = true -> 0 <= z -> fine_field 2 (k, JInt z).
Proof. intros Hk Hz. split; [done|]. eapply fine_le; [by apply fine_int|lia]. Qed.

Lemma request_members_fine r query headers : encodable_request r query headers -> Forall (fine_field 2) (request_members r).
Proof.
  intros [Hs [Hq Hq'] [Hh [Hh' _]] Hd Ht]. unfold valid_strings in Hs. rewrite !Forall_cons in Hs. destruct Hs as (? & ? & ? & ? & _).
  unfold request_members, requestWire. rewrite Hq, Hh.
  repeat (apply Forall_cons; split; [first [by apply fine_scalar_field | by apply fine_fields_field | apply fine_int_field; [done|lia] | idtac]|]); [| |by apply Forall_nil].
  - apply fine_scalar_field; [done|apply utf8_base64].
  - split; [done|]. eapply fine_le; [by apply fine_trigger|lia].
Qed.
Lemma fine_request r query headers : encodable_request r query headers -> fine 3 (requestWire r).
Proof.
  intros Hr. apply (fine_object 2); [by eapply request_members_fine| |lia]. change (NoDup request_fields).
  apply (bool_decide_unpack _). vm_compute. exact I.
Qed.

Ltac store_field H := erewrite store_all_cons; [|cbv [store_request_field store_response_field]; cbn [String.eqb Ascii.eqb Bool.eqb]; rewrite H;
    [cbn [rbind set_request zero_Request zero_Response qw_request qw_BodyBase64 pw_response pw_BodyBase64 rq_SpecVersion rq_InvocationID rq_Method rq_Path rq_Query rq_Headers rq_Body
       rq_DeadlineUnixMS rq_Trigger rp_SpecVersion rp_Status rp_Headers rp_Body]; reflexivity|try done..]].

Lemma store_request r query headers : encodable_request r query headers ->
  store_all store_request_field (request_members r) (Ok {| qw_request := zero_Request; qw_BodyBase64 := None |}) =
  Ok {| qw_request := with_body r ""; qw_BodyBase64 := Some (net.base64_string (rq_Body r)) |}.
Proof.
  intros [Hs [Hq Hq'] [Hh [Hh' Hn]] Hd Ht]. unfold valid_strings in Hs. rewrite !Forall_cons in Hs. destruct Hs as (? & ? & ? & ? & _).
  unfold request_members, requestWire. rewrite Hq, Hh.
  assert (Query_UnmarshalJSON (codes (json.Marshal (json_fields (Some query)))) = Ok (Some query)) as Hquery.
  { unfold Query_UnmarshalJSON. destruct (decodeStringMap_Marshal query "query" Hq') as (f & -> & Hf). cbn [rbind]. by rewrite Hf. }
  assert (RequestHeaders_UnmarshalJSON (codes (json.Marshal (json_fields (Some headers)))) = Ok (Some headers)) as Hheaders.
  { unfold RequestHeaders_UnmarshalJSON. destruct (decodeHeaders_Marshal headers true Hh' Hn) as (f & -> & Hf). cbn [rbind]. by rewrite Hf. }
  do 4 store_field store_string_Marshal. store_field Hquery. store_field Hheaders. store_field store_string_pointer_Marshal; [|apply utf8_base64].
  store_field store_int_Marshal. store_field store_struct_trigger.
  unfold store_all, set_request, with_body. cbn. by rewrite Hq, Hh.
Qed.

Lemma Request_UnmarshalJSON_Marshal r query headers : encodable_request r query headers ->
  Request_UnmarshalJSON (codes (json.Marshal (requestWire r))) = Ok r.
Proof.
  intros Hr. unfold Request_UnmarshalJSON. erewrite decodeKnownFields_Marshal; [|by eapply fine_request|lia|].
  2:{ change (requestWire r) with (JObject (request_members r)). rewrite store_struct_Marshal; [by eapply store_request| |].
      - eapply fine_field_shallow; [by eapply request_members_fine|lia].
      - apply Forall_forall. intros kv Hkv. change (fst kv ∈ map fst (request_members r)). apply list_elem_of_fmap. by exists kv. }
  cbn [rbind qw_BodyBase64 qw_request]. rewrite decodeCanonicalBase64_encoded. cbn [wrap_err rbind]. by destruct r.
Qed.

(** ** Responses *)
Record encodable_response (r : Response) (headers : gmap string (option (list string))) : Prop := {
  ep_version : utf8_ValidString (rp_SpecVersion r) = true;
  ep_headers : rp_Headers r = Some headers /\ full headers /\
    Forall (fun e => headerNamePattern (fst e) = true /\ ToLower (fst e) = fst e) (map_to_list headers);
  ep_status : 0 <= rp_Status r < 2 ^ 63;
}.
Lemma response_members_fine r headers : encodable_response r headers -> Forall (fine_field 2) (response_members r).
Proof.
  intros [Hs [Hh [Hh' _]] Hd]. unfold response_members, responseWire. rewrite Hh.
  repeat (apply Forall_cons; split; [first [by apply fine_scalar_field | by apply fine_fields_field | apply fine_int_field; [done|lia] | idtac]|]); [|by apply Forall_nil].
  apply fine_scalar_field; [done|apply utf8_base64].
Qed.
Lemma fine_response r headers : encodable_response r headers -> fine 3 (responseWire r).
Proof.
  intros Hr. apply (fine_object 2); [by eapply response_members_fine| |lia]. change (NoDup response_fields).
  apply (bool_decide_unpack _). vm_compute. exact I.
Qed.
Lemma store_response r headers : encodable_response r headers ->
  store_all store_response_field (response_members r) (Ok {| pw_response := zero_Response; pw_BodyBase64 := None |}) =
  Ok {| pw_response := with_response_body r ""; pw_BodyBase64 := Some (net.base64_string (rp_Body r)) |}.
Proof.
  intros [Hs [Hh [Hh' Hn]] Hd]. unfold response_members, responseWire. rewrite Hh.
  assert (ResponseHeaders_UnmarshalJSON (codes (json.Marshal (json_fields (Some headers)))) = Ok (Some headers)) as Hheaders.
  { unfold ResponseHeaders_UnmarshalJSON. destruct (decodeHeaders_Marshal headers false Hh' Hn) as (f & -> & Hf). cbn [rbind]. by rewrite Hf. }
  store_field store_string_Marshal. store_field store_int_Marshal. store_field Hheaders. store_field store_string_pointer_Marshal; [|apply utf8_base64].
  unfold store_all, with_response_body. cbn. by rewrite Hh.
Qed.
Lemma Response_UnmarshalJSON_Marshal r headers : encodable_response r headers ->
  Response_UnmarshalJSON (codes (json.Marshal (responseWire r))) = Ok r.
Proof.
  intros Hr. unfold Response_UnmarshalJSON. erewrite decodeKnownFields_Marshal; [|by eapply fine_response|lia|].
  2:{ change (responseWire r) with (JObject (response_members r)). rewrite store_struct_Marshal; [by eapply store_response| |].
      - eapply fine_field_shallow; [by eapply response_members_fine|lia].
      - apply Forall_forall. intros kv Hkv. change (fst kv ∈ map fst (response_members r)). apply list_elem_of_fmap. by exists kv. }
  cbn [rbind pw_BodyBase64 pw_response]. rewrite decodeCanonicalBase64_encoded. cbn [wrap_err rbind]. by destruct r.
Qed.


(** ** The round trip *)
Lemma normalized_encodable limits r : normalized_request limits r -> valid_trigger (rq_Trigger r) -> rq_DeadlineUnixMS r < 2 ^ 63 ->
  exists query headers, encodable_request r query headers.
Proof.
  intros [Hv Hi (_ & Hm & _) Hp Hd _ _ (q & Hq & Hqe & _) (h & Hh & Hhe & _) _] Ht Hd'. exists q, h. split; [|done| |lia|done].
  - rewrite Hv. apply Forall_cons; split; [done|]. apply Forall_cons; split; [by apply idPattern_utf8|].
    apply Forall_cons; split; [by apply headerNamePattern_utf8|]. apply Forall_cons; split; [|by apply Forall_nil].
    unfold validatePath in Hp. apply rbind_Ok in Hp as ([] & Hp%fail_if_Ok & _). by apply orb_false_iff in Hp as [_ Hp%negb_false_iff].
  - split_and!; [done|by eapply header_entries_full|by eapply header_entries_names].
Qed.
Lemma valid_encodable limits method r : validateResponse r method limits = Ok tt -> exists headers, encodable_response r headers.
Proof.
  unfold validateResponse. intros H. apply rbind_Ok in H as ([] & H1%fail_if_Ok & H). apply rbind_Ok in H as ([] & H2%fail_if_Ok & H).
  apply rbind_Ok in H as ([] & _ & H). apply rbind_Ok in H as ([] & _ & H). apply rbind_Ok in H as (h & Hh & _).
  destruct (rp_Headers r) as [m|] eqn:Hm; [|done]. apply (normalizeHeaders_Ok map_to_list) in Hh as (Hh & _); [|done]. go_cases.
  exists m. split; [by replace (rp_SpecVersion r) with Version|split_and!; [done|by eapply header_entries_full|by eapply header_entries_names]|lia].
Qed.

(** What an encoder leaves in a buffer. *)
Lemma encodeEnvelope_Ok v limits data : encodeEnvelope buffer_Write v limits [] = ([data], Ok tt) ->
  data = json.Marshal v /\ strlen (json.Marshal v) <= lm_RawEnvelopeBytes limits.
Proof.
  unfold encodeEnvelope, sbind, slift, buffer_Write. destruct (fail_if _ _) as [[]|] eqn:Hs; [|done]. apply fail_if_Ok in Hs. go_cases.
  cbn [wrap_err app]. rewrite Z.eqb_refl. intros [= <-]. split; [done|lia].
Qed.

(** C20: The two ends of the guest protocol agree.  Under any limits that leave
    room for the three levels of an envelope, the bytes that [EncodeRequest]
    writes are read back by [DecodeRequest] as the normalized request, and the
    bytes that [EncodeResponse] writes by [DecodeResponse] as the very
    response: every header, every query pair, the body byte for byte, the
    trigger with its omitted fields.  The assumptions on the request are those
    of its Go types and of JSON: a deadline below 2^63, a revision below
    2^64, trigger texts in UTF-8.  Whatever bytes a peer sends instead, a
    request that is accepted is within the limits and in canonical form. *)
Theorem envelope_roundtrip limits effective :
  normalizeLimits limits = Ok effective -> 3 <= lm_JSONDepth effective ->
  (forall r data, EncodeRequest buffer_Write r limits [] = ([data], Ok tt) -> valid_trigger (rq_Trigger r) -> rq_DeadlineUnixMS r < 2 ^ 63 ->
     exists r', normalizeRequest r effective = Ok r' /\ DecodeRequest (Some (bytes_reader data)) limits = Ok r') /\
  (forall r method data, EncodeResponse buffer_Write r method limits [] = ([data], Ok tt) ->
     DecodeResponse (Some (bytes_reader data)) method limits = Ok r) /\
  (forall source r, DecodeRequest source limits = Ok r -> normalized_request effective r /\ normalizeRequest r effective = Ok r).
Proof.
  intros Hl Hdep. pose proof (normalizeLimits_Ok _ _ Hl) as [Hb _]. split_and!.
  - intros r data He Ht Hd. unfold EncodeRequest, sbind at 1, slift at 1 in He. rewrite Hl in He. unfold sbind at 1, slift at 1 in He.
    destruct (normalizeRequest r effective) as [r'|] eqn:Hn; [|done]. exists r'. split; [done|]. apply encodeEnvelope_Ok in He as [-> Hlen].
    pose proof Hn as Hn'. apply normalizeRequest_Ok in Hn' as [Hr Heq]. destruct (normalized_encodable effective r') as (q & h & Henc); [done|by rewrite Heq|by rewrite Heq|].
    unfold DecodeRequest. rewrite Hl. cbn [rbind]. erewrite readEnvelope_Marshal by (done || by eapply fine_request). cbn [rbind].
    erewrite decodeKnownFields_Marshal; [|by eapply fine_request|lia|by eapply Request_UnmarshalJSON_Marshal]. cbn [wrap_err rbind].
    apply normalizeRequest_Ok. split; [done|]. rewrite (proj1 (nr_method _ _ Hr)). by destruct r'.
  - intros r method data He. unfold EncodeResponse, sbind at 1, slift at 1 in He. rewrite Hl in He. unfold sbind at 1, slift at 1 in He.
    destruct (validateResponse r method effective) as [[]|] eqn:Hv; [|done]. apply encodeEnvelope_Ok in He as [-> Hlen].
    destruct (valid_encodable _ _ _ Hv) as [h Henc]. unfold DecodeResponse. rewrite Hl. cbn [rbind].
    erewrite readEnvelope_Marshal by (done || by eapply fine_response). cbn [rbind].
    erewrite decodeKnownFields_Marshal; [|by eapply fine_response|lia|by eapply Response_UnmarshalJSON_Marshal]. cbn [wrap_err rbind]. by rewrite Hv.
  - intros source r. unfold DecodeRequest. rewrite Hl. cbn [rbind]. intros Hd. apply rbind_Ok in Hd as (data & _ & Hd). apply rbind_Ok in Hd as (r0 & _ & Hd).
    apply normalizeRequest_Ok in Hd as [Hn Heq]. split; [done|]. apply normalizeRequest_Ok. split; [done|]. rewrite (proj1 (nr_method _ _ Hn)). by destruct r.
Qed.

Definition ex_event : Request :=
  {| rq_SpecVersion := "1.0"; rq_InvocationID := "inv_1"; rq_Method := "post"; rq_Path := "/a%20b";
     rq_Query := Some (<["q" := Some ["1"; "<2>"]]> {[ "" := Some [] ]})%string;
     rq_Headers := Some {[ "accept"%string := Some ["text/plain"]%string ]}; rq_Body := "hello";
     rq_DeadlineUnixMS := 1; rq_Trigger := {| tg_Type := "event"; tg_ID := "tr_1"; tg_ResourceRevision := 7; tg_FireID := "";
       tg_ScheduledTimeUTC := ""; tg_ReceiptID := "rc"; tg_EventID := ""; tg_SourceID := "s"; tg_EventType := "";
       tg_OccurredAt := ""; tg_ContentType := "" |} |}.
Lemma envelope_roundtrip_witness :
  (exists r', normalizeRequest ex_event defaults = Ok r' /\ rq_Method r' = "POST"%string /\
     DecodeRequest (Some (bytes_reader (json.Marshal (requestWire r')))) ex_limits = Ok r') /\
  DecodeResponse (Some (bytes_reader (json.Marshal (responseWire ex_response)))) "GET" ex_limits = Ok ex_response.
Proof.
  assert (normalizeLimits ex_limits = Ok defaults) as Hl by (vm_compute; exact eq_refl).
  assert (3 <= lm_JSONDepth defaults) as Hd by (vm_compute; discriminate).
  destruct (envelope_roundtrip ex_limits defaults Hl Hd) as (Hq & Hp & _). split.
  - destruct (Hq ex_event (json.Marshal (requestWire (with_method_headers ex_event "POST" (rq_Headers ex_event))))) as (r' & Hn & Hdec).
    + vm_compute. exact eq_refl.
    + split; [vm_compute; split; [discriminate|exact eq_refl]|]. repeat (apply Forall_cons; split; [vm_compute; exact eq_refl|]). apply Forall_nil. exact I.
    + vm_compute. exact eq_refl.
    + exists r'. assert (r' = with_method_headers ex_event "POST" (rq_Headers ex_event)) as ->.
      { assert (normalizeRequest ex_event defaults = Ok (with_method_headers ex_event "POST" (rq_Headers ex_event))) as H by (vm_compute; exact eq_refl).
        rewrite H in Hn. apply Ok_inj in Hn. exact (eq_sym Hn). }
      split; [exact Hn|]. split; [exact eq_refl|exact Hdec].
  - apply Hp. vm_compute. exact eq_refl.
Defined.

(** Field names are matched without regard to case, so a name may come twice
    when its spelling differs, although a repeated key is refused; the last one
    counts. *)
Definition folded_response : string :=
  let field k v := (q +:+ k +:+ q +:+ ":" +:+ v)%string in
  ("{" +:+ field "spec_version" (q +:+ "1.0" +:+ q) +:+ "," +:+ field "status" "200" +:+ "," +:+ field "headers" "{}" +:+ ","
   +:+ field "body_base64" (q +:+ q) +:+ "," +:+ field "Status" "500" +:+ "}")%string.
Theorem folded_fields_accepted :
  DecodeResponse (Some (bytes_reader folded_response)) "GET" defaults =
  Ok {| rp_SpecVersion := "1.0"; rp_Status := 500; rp_Headers := Some ∅; rp_Body := "" |}.
Proof. vm_compute. exact eq_refl. Qed.

End abirt.
