(* ===== verification/WasmProfile.v ===== *)
(** * Packages [internal/wasmprofile] and [internal/validator/engine]: which
    modules are admitted

    The validator process and the Worker check a module with the same two
    functions: [InspectBinary], which reads the framing of the binary, and
    [ValidateCommand], which compares its imports and its entry point with the
    host profile.  The runtime, wazero, is a third-party package: what it
    reports of a compiled module is data, and compiling is a parameter. *)
From stdpp Require Import base gmap strings list.
From S2P Require Import Prelude Problem Digest Json Model ValidatorProtocol.
Import problem model.

#[local] Open Scope Z_scope.

Module wasmcommand.

(** ** The framing of a binary (binary.go) *)
Record BinaryMetadata := { bm_DeclaredImports : Z; bm_HasStartSection : bool }.

(** The loop of [readU32]; the result is the value and the bytes read. *)
Fixpoint readU32_loop (index value : Z) (data : list Z) : result (Z * Z) :=
  match data with
  | [] => Err (PlainError "unterminated u32 value")
  | current :: data' =>
    if index >=? 5 then Err (PlainError "unterminated u32 value")
    else if (index =? 4) && (current >? 0x0f) then Err (PlainError "u32 value overflows")
    else
      let value := Z.lor value (u32 (Z.shiftl (Z.land current 0x7f) (7 * index))) in
      if Z.land current 0x80 =? 0 then Ok (value, index + 1) else readU32_loop (index + 1) value data'
  end.
Definition readU32 (data : list Z) : result (Z * Z) := readU32_loop 0 0 data.

(** The loop of [InspectBinary] on the bytes from its offset on; every turn
    consumes a byte. *)
Fixpoint inspect_sections (fuel : nat) (metadata : BinaryMetadata) (rest : list Z) : result BinaryMetadata :=
  match rest, fuel with
  | [], _ => Ok metadata
  | _, O => Err (PlainError "fuel")
  | sectionID :: rest, S fuel' =>
    size <- wrap_err "reading section size" (readU32 rest) ;;
    let '(sectionSize, bytesRead) := size in
    let rest := drop (Z.to_nat bytesRead) rest in
    fail_if (sectionSize >? len rest) (PlainError "section exceeds module size") ;;;
    let section := take (Z.to_nat sectionSize) rest in
    metadata <- (if sectionID =? 2 then
                   count <- wrap_err "reading import count" (readU32 section) ;;
                   Ok {| bm_DeclaredImports := fst count; bm_HasStartSection := bm_HasStartSection metadata |}
                 else if sectionID =? 8 then Ok {| bm_DeclaredImports := bm_DeclaredImports metadata; bm_HasStartSection := true |}
                 else Ok metadata) ;;
    inspect_sections fuel' metadata (drop (Z.to_nat sectionSize) rest)
  end.

Definition wasmHeaderBytes : Z := 8.
Definition InspectBinary (wasm : list Z) : result BinaryMetadata :=
  fail_if (len wasm <? wasmHeaderBytes) (PlainError "module is shorter than its header") ;;;
  inspect_sections (length wasm) {| bm_DeclaredImports := 0; bm_HasStartSection := false |} (drop (Z.to_nat wasmHeaderBytes) wasm).

(** ** The command profile (command.go) *)
Definition ReasonUnknownImport : string := "unknown_or_incompatible_import".
Definition ReasonUnsupportedStartSection : string := "unsupported_start_section".
Definition ReasonMissingStart : string := "missing_start".
Definition ReasonInvalidStart : string := "invalid_start".

Record Import := { im_Module : string; im_Name : string; im_Kind : string }.

(** What the runtime reports of a module: [Import()] of a definition gives the
    module, the name, and whether it is an import. *)
Record FunctionDefinition := { fd_Import : string * string * bool; fd_ParamTypes : list Z; fd_ResultTypes : list Z }.
Record MemoryDefinition := { md_Import : string * string * bool; md_Min : Z; md_Max : option Z }.
Record CompiledModule := {
  cm_ImportedFunctions : list FunctionDefinition;
  cm_ImportedMemories : list MemoryDefinition;
  cm_ExportedFunctions : gmap string FunctionDefinition;
  cm_ExportedMemories : gmap string MemoryDefinition;
}.

(** A [CompatibilityError], or another error. *)
Inductive command_error := CompatibilityError (reason : string) | OtherError (err : error).

Definition compareImports (left right : Import) : Z :=
  let byModule := strings_Compare (im_Module left) (im_Module right) in
  if negb (byModule =? 0) then byModule
  else
    let byName := strings_Compare (im_Name left) (im_Name right) in
    if negb (byName =? 0) then byName else strings_Compare (im_Kind left) (im_Kind right).
Definition sortedImports (imports : list Import) : list Import := SortFunc compareImports imports.

(** [wasi_snapshot_preview1.ModuleName] *)
Definition wasi_ModuleName : string := "wasi_snapshot_preview1".

(** The loop over the imported functions; [imports] are those seen. *)
Fixpoint check_functions (wasiFunctions : gmap string FunctionDefinition) (imports : list Import) (l : list FunctionDefinition)
    : list Import * option command_error :=
  match l with
  | [] => (imports, None)
  | definition :: l' =>
    let '(moduleName, name, isImport) := fd_Import definition in
    if negb isImport then (imports, Some (OtherError (PlainError "compiled function is not an import")))
    else
      let imports := imports ++ [{| im_Module := moduleName; im_Name := name; im_Kind := "function" |}] in
      let isWASI := moduleName == wasi_ModuleName in
      let '(paramsMatch, resultsMatch) :=
        match wasiFunctions !! name with
        | Some hostDefinition => (bool_decide (fd_ParamTypes definition = fd_ParamTypes hostDefinition),
                                  bool_decide (fd_ResultTypes definition = fd_ResultTypes hostDefinition))
        | None => (false, false)
        end in
      if negb isWASI || negb paramsMatch || negb resultsMatch then (imports, Some (CompatibilityError ReasonUnknownImport))
      else check_functions wasiFunctions imports l'
  end.

Definition ValidateCommand (guest wasi : CompiledModule) (metadata : BinaryMetadata) : option (list Import) * option command_error :=
  if bm_HasStartSection metadata then (None, Some (CompatibilityError ReasonUnsupportedStartSection))
  else
    let visibleImportCount := len (cm_ImportedFunctions guest) + len (cm_ImportedMemories guest) in
    if negb (bm_DeclaredImports metadata =? visibleImportCount) then (None, Some (CompatibilityError ReasonUnknownImport))
    else
      match check_functions (cm_ExportedFunctions wasi) [] (cm_ImportedFunctions guest) with
      | (imports, Some err) => (Some (sortedImports imports), Some err)
      | (imports, None) =>
        match cm_ImportedMemories guest with
        | definition :: _ =>
          let '(moduleName, name, _) := md_Import definition in
          (Some (sortedImports (imports ++ [{| im_Module := moduleName; im_Name := name; im_Kind := "memory" |}])),
           Some (CompatibilityError ReasonUnknownImport))
        | [] =>
          (Some (sortedImports imports),
           match cm_ExportedFunctions guest !! "_start"%string with
           | None => Some (CompatibilityError ReasonMissingStart)
           | Some start =>
             let '(_, _, importedStart) := fd_Import start in
             if importedStart || negb (len (fd_ParamTypes start) =? 0) || negb (len (fd_ResultTypes start) =? 0)
             then Some (CompatibilityError ReasonInvalidStart) else None
           end)
        end
      end.

(** ** The validator (engine.go) *)

(** The runtime of one validation: its results, and what closing returns. *)
Record Runtime := {
  rt_wasi : result CompiledModule;
  rt_CompileModule : list Z -> result CompiledModule;
  rt_elapsed : Z;
  rt_Close : option error;
  rt_wasiClose : option error;
  rt_moduleClose : option error;
}.

Definition baseReport (request : protocol.Request) : protocol.Report :=
  {| protocol.rp_SchemaVersion := protocol.SchemaVersion; protocol.rp_ValidationID := protocol.rq_ValidationID request; protocol.rp_Valid := false;
     protocol.rp_Code := CodeInvalidModule; protocol.rp_Reason := "validation_not_completed"; protocol.rp_Message := "module validation did not complete";
     protocol.rp_ArtifactDigest := protocol.rq_ArtifactDigest request; protocol.rp_ArtifactSize := protocol.rq_ArtifactSize request;
     protocol.rp_RuntimeName := wasmprofile.RuntimeName; protocol.rp_RuntimeVersion := wasmprofile.RuntimeVersion;
     protocol.rp_RuntimeFeatureProfile := wasmprofile.FeatureProfile; protocol.rp_RuntimeEngine := protocol.rq_RuntimeEngine request;
     protocol.rp_Imports := Some []; protocol.rp_Exports := Some [];
     protocol.rp_Memory := {| protocol.me_Exported := false; protocol.me_MinPages := 0; protocol.me_MaxPages := 0 |}; protocol.rp_CompileNanoseconds := 0;
     protocol.rp_Isolation := {| protocol.is_ProcessBoundary := false; protocol.is_Deadline := false; protocol.is_CPULimit := false;
       protocol.is_FileSizeLimit := false; protocol.is_MemoryLimit := false; protocol.is_TempDiskLimit := false |} |}.

Definition set_verdict (report : protocol.Report) (valid : bool) (code reason message : string) : protocol.Report :=
  {| protocol.rp_SchemaVersion := protocol.rp_SchemaVersion report; protocol.rp_ValidationID := protocol.rp_ValidationID report;
     protocol.rp_Valid := valid; protocol.rp_Code := code; protocol.rp_Reason := reason; protocol.rp_Message := message;
     protocol.rp_ArtifactDigest := protocol.rp_ArtifactDigest report; protocol.rp_ArtifactSize := protocol.rp_ArtifactSize report;
     protocol.rp_RuntimeName := protocol.rp_RuntimeName report; protocol.rp_RuntimeVersion := protocol.rp_RuntimeVersion report;
     protocol.rp_RuntimeFeatureProfile := protocol.rp_RuntimeFeatureProfile report; protocol.rp_RuntimeEngine := protocol.rp_RuntimeEngine report;
     protocol.rp_Imports := protocol.rp_Imports report; protocol.rp_Exports := protocol.rp_Exports report; protocol.rp_Memory := protocol.rp_Memory report;
     protocol.rp_CompileNanoseconds := protocol.rp_CompileNanoseconds report; protocol.rp_Isolation := protocol.rp_Isolation report |}.
Definition set_observed (report : protocol.Report) (elapsed : Z) (imports : option (list protocol.Import)) (exports : option (list string))
    (memory : protocol.Memory) : protocol.Report :=
  {| protocol.rp_SchemaVersion := protocol.rp_SchemaVersion report; protocol.rp_ValidationID := protocol.rp_ValidationID report;
     protocol.rp_Valid := protocol.rp_Valid report; protocol.rp_Code := protocol.rp_Code report; protocol.rp_Reason := protocol.rp_Reason report;
     protocol.rp_Message := protocol.rp_Message report; protocol.rp_ArtifactDigest := protocol.rp_ArtifactDigest report;
     protocol.rp_ArtifactSize := protocol.rp_ArtifactSize report; protocol.rp_RuntimeName := protocol.rp_RuntimeName report;
     protocol.rp_RuntimeVersion := protocol.rp_RuntimeVersion report; protocol.rp_RuntimeFeatureProfile := protocol.rp_RuntimeFeatureProfile report;
     protocol.rp_RuntimeEngine := protocol.rp_RuntimeEngine report; protocol.rp_Imports := imports; protocol.rp_Exports := exports;
     protocol.rp_Memory := memory; protocol.rp_CompileNanoseconds := elapsed; protocol.rp_Isolation := protocol.rp_Isolation report |}.
Definition reject (report : protocol.Report) (code reason message : string) : protocol.Report := set_verdict report false code reason message.

Definition compatibilityMessage (reason : string) : string :=
  if reason == ReasonUnsupportedStartSection then "module must use only the wasi command _start entrypoint"
  else if reason == ReasonMissingStart then "module does not export _start"
  else if reason == ReasonInvalidStart then "module _start export must be a defined function with no parameters or results"
  else "module imports are outside the locked WASI profile".

Definition no_memory : protocol.Memory := {| protocol.me_Exported := false; protocol.me_MinPages := 0; protocol.me_MaxPages := 0 |}.
Definition memoryReport (compiled : CompiledModule) (tierPages : Z) : protocol.Memory :=
  match cm_ExportedMemories compiled !! "memory"%string with
  | None => no_memory
  | Some definition =>
    let maxPages := default tierPages (md_Max definition) in
    {| protocol.me_Exported := true; protocol.me_MinPages := md_Min definition; protocol.me_MaxPages := Z.min maxPages tierPages |}
  end.

(** The error that is returned when a deferred close fails; [errors.Join] drops
    nil errors. *)
Definition join (first second : option error) : option error :=
  match first, second with
  | Some a, Some b => Some (JoinError a b)
  | Some a, None | None, Some a => Some a
  | None, None => None
  end.

(** The zero value of a Report. *)
Definition zero_Report : protocol.Report :=
  {| protocol.rp_SchemaVersion := ""; protocol.rp_ValidationID := ""; protocol.rp_Valid := false; protocol.rp_Code := ""; protocol.rp_Reason := "";
     protocol.rp_Message := ""; protocol.rp_ArtifactDigest := ""; protocol.rp_ArtifactSize := 0; protocol.rp_RuntimeName := "";
     protocol.rp_RuntimeVersion := ""; protocol.rp_RuntimeFeatureProfile := ""; protocol.rp_RuntimeEngine := ""; protocol.rp_Imports := None;
     protocol.rp_Exports := None; protocol.rp_Memory := no_memory; protocol.rp_CompileNanoseconds := 0;
     protocol.rp_Isolation := protocol.rp_Isolation (baseReport {| protocol.rq_SchemaVersion := ""; protocol.rq_ValidationID := ""; protocol.rq_ArtifactDigest := "";
       protocol.rq_ArtifactSize := 0; protocol.rq_ABI := ""; protocol.rq_HostAPIProfile := ""; protocol.rq_RuntimeFeatureProfile := "";
       protocol.rq_RuntimeEngine := ""; protocol.rq_MemoryLimitMiB := 0; protocol.rq_RequestedCapabilities := None |}) |}.

(** What is found once the module is compiled; [order] is the iteration order
    of its exports. *)
Definition examine (order : list string) (report : protocol.Report) (wasi compiled : CompiledModule) (memoryLimitPages : Z) (wasm : list Z)
    : protocol.Report * option error :=
  match InspectBinary wasm with
  | Err inspectErr => (zero_Report, Some (WrapError "inspecting compiled module" inspectErr))
  | Ok binaryMetadata =>
    let '(profileImports, compatibilityErr) := ValidateCommand compiled wasi binaryMetadata in
    let imports := map (fun item => {| protocol.im_Module := im_Module item; protocol.im_Name := im_Name item; protocol.im_Kind := im_Kind item |})
                     (default [] profileImports) in
    let report := set_observed report (protocol.rp_CompileNanoseconds report) (Some imports) (protocol.rp_Exports report) (protocol.rp_Memory report) in
    match compatibilityErr with
    | Some (CompatibilityError reason) => (reject report CodeInvalidModule reason (compatibilityMessage reason), None)
    | Some (OtherError err) => (zero_Report, Some (WrapError "validating compiled module profile" err))
    | None =>
      let exports := SortFunc strings_Compare order in
      let report := set_observed report (protocol.rp_CompileNanoseconds report) (Some imports) (Some exports) (memoryReport compiled memoryLimitPages) in
      (set_verdict report true protocol.CodeOK "accepted" "module is compatible with the locked v1 runtime profile", None)
    end
  end.

Definition Validate (rt : Runtime) (order : CompiledModule -> list string) (request : protocol.Request) (wasm : list Z) : protocol.Report * option error :=
  let report := baseReport request in
  if negb (len (default [] (protocol.rq_RequestedCapabilities request)) =? 0) then
    (reject report CodeCapabilityDenied "requested_capability_not_supported" "requested capability is not available in the v1 host profile", None)
  else
    match wasmprofile.New (protocol.rq_RuntimeEngine request) (protocol.rq_MemoryLimitMiB request) with
    | Err configErr => (zero_Report, Some (WrapError "configuring locked runtime profile" configErr))
    | Ok _ =>
      let memoryLimitPages := wasmprofile.MemoryLimitPages (protocol.rq_MemoryLimitMiB request) in
      match rt_wasi rt with
      | Err err => (zero_Report, join (Some (WrapError "compiling locked wasi host profile" err)) (rt_Close rt))
      | Ok wasi =>
        let timed := set_observed report (rt_elapsed rt) (protocol.rp_Imports report) (protocol.rp_Exports report) (protocol.rp_Memory report) in
        match rt_CompileModule rt wasm with
        | Err _ =>
          (reject timed CodeInvalidModule "compile_failed" "module failed WebAssembly validation or compilation",
           join (rt_wasiClose rt) (rt_Close rt))
        | Ok compiled =>
          let '(report, err) := examine (order compiled) timed wasi compiled memoryLimitPages wasm in
          (report, join (join (join err (rt_moduleClose rt)) (rt_wasiClose rt)) (rt_Close rt))
        end
      end
    end.


(** ** What is accepted *)

(** An import of a function of the host profile, with its type. *)
Definition host_import (wasi : CompiledModule) (d : FunctionDefinition) : Prop :=
  exists name host, fd_Import d = (wasi_ModuleName, name, true) /\ cm_ExportedFunctions wasi !! name = Some host /\
    fd_ParamTypes d = fd_ParamTypes host /\ fd_ResultTypes d = fd_ResultTypes host.
Record command_module (guest wasi : CompiledModule) (metadata : BinaryMetadata) : Prop := {
  cd_start_section : bm_HasStartSection metadata = false;
  cd_declared : bm_DeclaredImports metadata = len (cm_ImportedFunctions guest);
  cd_memories : cm_ImportedMemories guest = [];
  cd_imports : Forall (host_import wasi) (cm_ImportedFunctions guest);
  cd_start : exists start, cm_ExportedFunctions guest !! "_start"%string = Some start /\ snd (fd_Import start) = false /\
    fd_ParamTypes start = [] /\ fd_ResultTypes start = [];
}.

Lemma check_functions_None wasi imports l : snd (check_functions (cm_ExportedFunctions wasi) imports l) = None <-> Forall (host_import wasi) l.
Proof.
  revert imports. induction l as [|d l IH]; intros imports; [split; [by intros _|done]|]. cbn [check_functions]. rewrite Forall_cons. unfold host_import at 1.
  destruct (fd_Import d) as [[moduleName name] []]; cbn [negb]; [|split; [done|]; by intros [(? & ? & ? & _) _]].
  destruct (decide (moduleName = wasi_ModuleName)) as [->|Hm].
  2:{ rewrite bool_decide_false by done. case_match; cbn [negb orb]. split; [done|]. intros [(? & ? & [=] & _) _]. done. }
  rewrite bool_decide_true by done. destruct (cm_ExportedFunctions wasi !! name) as [host|] eqn:Hh; cbn [negb orb].
  2:{ split; [done|]. intros [(n & h & [= <-] & Hl & _) _]. congruence. }
  destruct (decide (fd_ParamTypes d = fd_ParamTypes host)) as [Hp|Hp]; [rewrite bool_decide_true by done|rewrite bool_decide_false by done]; cbn [negb orb].
  2:{ split; [done|]. intros [(n & h & [= <-] & Hl & ? & _) _]. congruence. }
  destruct (decide (fd_ResultTypes d = fd_ResultTypes host)) as [Hr|Hr]; [rewrite bool_decide_true by done|rewrite bool_decide_false by done]; cbn [negb].
  2:{ split; [done|]. intros [(n & h & [= <-] & Hl & _ & ?) _]. congruence. }
  rewrite IH. split; [|by intros [_ ?]]. intros Hf. split; [|done]. by exists name, host.
Qed.

Lemma len_zero {A} (l : list A) : (len l =? 0) = true <-> l = [].
Proof. unfold len. rewrite Z.eqb_eq. destruct l; simpl; [done|]. split; [lia|done]. Qed.

Lemma ValidateCommand_None guest wasi metadata : snd (ValidateCommand guest wasi metadata) = None <-> command_module guest wasi metadata.
Proof.
  unfold ValidateCommand. split.
  - destruct (bm_HasStartSection metadata) eqn:Hs; [done|]. destruct (_ =? _) eqn:Hd; [|done]. cbn [negb]. apply Z.eqb_eq in Hd.
    destruct (check_functions _ _ _) as [imports [err|]] eqn:Hc; [done|].
    destruct (cm_ImportedMemories guest) as [|d l] eqn:Hm; [|by destruct (md_Import d) as [[? ?] ?]].
    destruct (cm_ExportedFunctions guest !! "_start"%string) as [start|] eqn:Hst; [|done].
    destruct (fd_Import start) as [[? ?] imported] eqn:Hi. destruct imported; [done|]. cbn [orb].
    destruct (len (fd_ParamTypes start) =? 0) eqn:Hp; [|done]. destruct (len (fd_ResultTypes start) =? 0) eqn:Hr; [|done]. intros _.
    apply len_zero in Hp, Hr. split; [done|unfold len in *; simpl in Hd; lia|done| |].
    + eapply check_functions_None. by rewrite Hc.
    + exists start. by rewrite Hi.
  - intros [-> Hd Hm Hi (start & Hst & His & Hp & Hr)]. rewrite Hm, Hd. replace (len (cm_ImportedFunctions guest) + len []) with (len (cm_ImportedFunctions guest)) by (unfold len; simpl; lia).
    rewrite Z.eqb_refl. cbn [negb]. apply (check_functions_None wasi []) in Hi. destruct (check_functions _ _ _) as [imports err]. cbn [snd] in Hi. subst err.
    rewrite Hst. destruct (fd_Import start) as [[? ?] imported]. cbn [snd] in *. subst imported. by rewrite Hp, Hr.
Qed.

(** A module that the locked profile takes. *)
Definition compatible (wasi compiled : CompiledModule) (wasm : list Z) : Prop :=
  exists metadata, InspectBinary wasm = Ok metadata /\ command_module compiled wasi metadata.

(** The validator accepts a module exactly when it compiles and is compatible;
    a verdict never depends on the order of the exports. *)
Lemma examine_accepts order report wasi compiled pages wasm report' err : protocol.rp_Valid report = false ->
  examine order report wasi compiled pages wasm = (report', err) -> (protocol.rp_Valid report' = true <-> compatible wasi compiled wasm) /\
  (protocol.rp_Valid report' = true -> err = None).
Proof.
  intros Hv. unfold examine, compatible. destruct (InspectBinary wasm) as [metadata|e].
  2:{ intros [= <- <-]. split; [|done]. split; [done|]. by intros (? & ? & _). }
  destruct (ValidateCommand compiled wasi metadata) as [imports compat] eqn:Hc.
  pose proof (ValidateCommand_None compiled wasi metadata) as Hn. rewrite Hc in Hn. cbn [snd] in Hn.
  destruct compat as [[reason|e]|]; intros [= <- <-]; (split; [|done]); (split; [|intros (m & [= <-] & Hm); by apply Hn in Hm]); try done.
  intros _. exists metadata. split; [done|by apply Hn].
Qed.


(** ** The framing read back *)
Fixpoint leb (fuel : nat) (n : Z) : list Z :=
  match fuel with
  | O => []
  | S fuel' => if n <? 128 then [n] else (n mod 128 + 128) :: leb fuel' (n / 128)
  end.
(** An unsigned LEB128 number of 32 bits. *)
Definition encodeU32 (n : Z) : list Z := leb 5 n.

Inductive section := Imports (count : Z) (body : list Z) | Start (body : list Z) | Other (id : Z) (body : list Z).
Definition payload (s : section) : list Z := match s with Imports count body => encodeU32 count ++ body | Start body | Other _ body => body end.
Definition section_id (s : section) : Z := match s with Imports _ _ => 2 | Start _ => 8 | Other id _ => id end.
Definition encode_section (s : section) : list Z := section_id s :: encodeU32 (len (payload s)) ++ payload s.
Definition valid_section (s : section) : Prop :=
  len (payload s) < 2 ^ 32 /\ match s with Imports count _ => 0 <= count < 2 ^ 32 | Start _ => True | Other id _ => id <> 2 /\ id <> 8 end.
Definition observe (m : BinaryMetadata) (s : section) : BinaryMetadata :=
  match s with
  | Imports count _ => {| bm_DeclaredImports := count; bm_HasStartSection := bm_HasStartSection m |}
  | Start _ => {| bm_DeclaredImports := bm_DeclaredImports m; bm_HasStartSection := true |}
  | Other _ _ => m
  end.

Lemma lor_add v x k : 0 <= k -> 0 <= v < 2 ^ k -> Z.lor v (x * 2 ^ k) = v + x * 2 ^ k.
Proof.
  intros Hk Hv. rewrite <-Z.add_lor_land. assert (Z.land v (x * 2 ^ k) = 0) as ->; [|lia].
  apply Z.bits_inj'. intros i Hi. rewrite Z.land_spec, Z.bits_0. destruct (Z.lt_ge_cases i k) as [Hlt|Hge].
  - rewrite Z.mul_pow2_bits_low by done. apply andb_false_r.
  - rewrite <-(Z.mod_small v (2 ^ k)) by done. by rewrite Z.mod_pow2_bits_high.
Qed.
Lemma land_7f n : 0 <= n -> Z.land n 0x7f = n mod 128.
Proof. intros Hn. exact (Z.land_ones n 7 ltac:(lia)). Qed.
Lemma land_80 n : 0 <= n < 256 -> (Z.land n 0x80 =? 0) = (n <? 128).
Proof.
  intros Hn. assert (forallb (fun n => Bool.eqb (Z.land n 0x80 =? 0) (n <? 128)) (map Z.of_nat (seq 0 256)) = true) as H by (vm_compute; exact eq_refl).
  rewrite forallb_forall in H. apply eqb_prop, H, in_map_iff. exists (Z.to_nat n). split; [lia|]. apply in_seq. lia.
Qed.

Lemma readU32_loop_step index value current data : 0 <= index < 5 -> 0 <= current < 256 -> (index = 4 -> current <= 15) -> 0 <= value < 2 ^ (7 * index) ->
  readU32_loop index value (current :: data) =
  let value := value + current mod 128 * 2 ^ (7 * index) in
  if current <? 128 then Ok (value, index + 1) else readU32_loop (index + 1) value data.
Proof.
  intros Hi Hc H4 Hv. cbn [readU32_loop]. rewrite Z.geb_leb, (proj2 (Z.leb_gt _ _)) by lia.
  assert ((index =? 4) && (current >? 15) = false) as ->.
  { destruct (Z.eqb_spec index 4) as [->|]; [|done]. cbn [andb]. rewrite Z.gtb_ltb. apply Z.ltb_ge. lia. }
  rewrite land_7f, land_80 by lia. rewrite Z.shiftl_mul_pow2 by lia.
  assert (0 <= current mod 128 * 2 ^ (7 * index) < 2 ^ 32) as Hs.
  { pose proof (Z.mod_pos_bound current 128 ltac:(lia)) as Hm. assert (index = 4 -> current mod 128 <= 15) as Hm4 by (intros; rewrite Z.mod_small; lia).
    assert (index = 0 \/ index = 1 \/ index = 2 \/ index = 3 \/ index = 4) as Hcase by lia.
    clear Hv Hc H4. revert Hm Hm4. generalize (current mod 128). intros x Hm Hm4. destruct Hcase as [-> | [-> | [-> | [-> | -> ]]]]; simpl; lia. }
  rewrite u32_small by exact Hs. rewrite lor_add by (done || lia). done.
Qed.

Lemma readU32_loop_leb fuel index value n rest : Z.of_nat fuel = 5 - index -> 0 <= index -> 0 <= value < 2 ^ (7 * index) -> 0 <= n < 2 ^ (32 - 7 * index) ->
  readU32_loop index value (leb fuel n ++ rest) = Ok (value + n * 2 ^ (7 * index), index + len (leb fuel n)).
Proof.
  revert index value n. induction fuel as [|fuel IH]; intros index value n Hf Hi Hv Hn.
  { assert (index = 5) as -> by lia. simpl in Hn. lia. }
  assert (index = 4 -> n <= 15) as H4 by (intros ->; simpl in Hn; lia). cbn [leb]. destruct (n <? 128) eqn:Hs.
  - apply Z.ltb_lt in Hs. cbn [app]. rewrite readU32_loop_step by lia. cbv zeta. rewrite Z.mod_small, (proj2 (Z.ltb_lt _ _)) by lia. done.
  - apply Z.ltb_ge in Hs. cbn [app]. assert (index < 4) as Hi4 by (destruct (Z.eq_dec index 4); [lia|]; lia).
    pose proof (Z.mod_pos_bound n 128 ltac:(lia)) as Hm.
    rewrite readU32_loop_step by lia. cbv zeta. rewrite (proj2 (Z.ltb_ge _ _)) by lia.
    assert ((n mod 128 + 128) mod 128 = n mod 128) as -> by (rewrite Z.add_mod, Z.mod_same, Z.add_0_r, !Z.mod_mod by lia; done).
    assert (2 ^ (7 * (index + 1)) = 128 * 2 ^ (7 * index)) as Hp by (replace (7 * (index + 1)) with (7 + 7 * index) by lia; rewrite Z.pow_add_r by lia; done).
    rewrite IH.
    + rewrite Hp. f_equal. f_equal; [|unfold len; cbn [length]; lia].
      rewrite (Z.div_mod n 128) at 3 by lia. generalize (n mod 128), (n / 128), (2 ^ (7 * index)). intros. lia.
    + lia.
    + lia.
    + rewrite Hp. pose proof (Z.pow_pos_nonneg 2 (7 * index) ltac:(lia) ltac:(lia)). nia.
    + split; [apply Z.div_pos; lia|]. apply Z.div_lt_upper_bound; [lia|].
      replace (32 - 7 * index) with (7 + (32 - 7 * (index + 1))) in Hn by lia. rewrite Z.pow_add_r in Hn by lia. simpl (2 ^ 7) in Hn. lia.
Qed.
Lemma to_nat_len {A} (l : list A) : Z.to_nat (len l) = length l.
Proof. unfold len. lia. Qed.
Lemma readU32_encodeU32 n rest : 0 <= n < 2 ^ 32 -> readU32 (encodeU32 n ++ rest) = Ok (n, len (encodeU32 n)).
Proof. intros Hn. unfold readU32, encodeU32. rewrite readU32_loop_leb by (done || lia). by rewrite Z.mul_1_r. Qed.

(** What is framed is found: on the bytes of any list of sections behind a
    header, [InspectBinary] reports the count of the last import section, and
    whether there is a start section. *)
Theorem InspectBinary_sections header sections : len header = wasmHeaderBytes -> Forall valid_section sections ->
  InspectBinary (header ++ concat (map encode_section sections)) = Ok (foldl observe {| bm_DeclaredImports := 0; bm_HasStartSection := false |} sections).
Proof.
  intros Hh Hs. unfold InspectBinary. unfold wasmHeaderBytes in *. assert (length header = 8%nat) as Hl by (unfold len in Hh; lia).
  assert ((len (header ++ concat (map encode_section sections)) <? 8) = false) as -> by (apply Z.ltb_ge; unfold len in *; rewrite length_app; lia).
  cbn [fail_if rbind]. rewrite drop_app_length' by (rewrite Hl; done).
  assert (length (concat (map encode_section sections)) <= length (header ++ concat (map encode_section sections)))%nat as Hfuel by (rewrite length_app; lia).
  revert Hfuel. generalize (length (header ++ concat (map encode_section sections))) as fuel. clear Hh Hl header.
  generalize {| bm_DeclaredImports := 0; bm_HasStartSection := false |} as m.
  induction Hs as [|s sections [Hlen Hv] Hs IH]; intros m fuel Hf; [by destruct fuel|]. cbn [map concat] in *. unfold encode_section in Hf at 1. unfold encode_section at 1.
  cbn [app length] in *. destruct fuel as [|fuel]; [lia|]. cbn [inspect_sections foldl]. rewrite <-app_assoc, readU32_encodeU32 by (unfold len in *; lia).
  cbn [wrap_err rbind]. rewrite to_nat_len, drop_app_length.
  assert ((len (payload s) >? len (payload s ++ concat (map encode_section sections))) = false) as ->.
  { rewrite Z.gtb_ltb. apply Z.ltb_ge. unfold len. rewrite length_app. lia. }
  cbn [fail_if rbind]. rewrite to_nat_len, take_app_length, drop_app_length.
  rewrite !length_app in Hf.
  destruct s as [count body|body|id body]; cbn [section_id payload observe] in *.
  - cbn [Z.eqb Pos.eqb]. rewrite readU32_encodeU32 by done. cbn [wrap_err rbind fst]. apply IH. lia.
  - cbn [Z.eqb Pos.eqb rbind]. apply IH. lia.
  - destruct Hv as [H2 H8]. rewrite (proj2 (Z.eqb_neq _ _) H2), (proj2 (Z.eqb_neq _ _) H8). cbn [rbind]. apply IH. lia.
Qed.

End wasmcommand.
