(* ===== verification/WasmExec.v ===== *)
(** * Package [internal/wasmexec]: running guests

    An Engine owns the runtime and the limits of a Worker; a Program is one
    compiled module.  Every invocation runs a fresh instance between two
    bounded streams.  This file has the data, the limits, the streams, the
    limiter, the lifecycle and what one instance leads to; [WasmRuntime] runs
    invocations, compilations and closes concurrently.  The runtime, wazero, is
    a third-party package: what a guest writes and how it ends is a
    parameter. *)
From stdpp Require Import base gmap strings list.
From S2P Require Import Prelude Problem Digest Json Model Net Abi Rpc Http JsonDecode StrictJson AbiDecode ValidatorProtocol WorkerAgent WorkerServing WasmProfile.
Import problem model.

#[local] Open Scope Z_scope.

Module wasmexec.
#[local] Abbreviation InvocationPolicy := agent.InvocationPolicy.
#[local] Abbreviation ExecutionLimits := agent.ExecutionLimits.

(** ** Configuration (engine.go, config.go) *)
Definition DefaultTimeout : Z := 5 * second.
Definition DefaultMaxTimeout : Z := 30 * second.
Definition DefaultMemoryLimitMiB : Z := 128.
Definition DefaultMaxConcurrent : Z := 4.
Definition DefaultMaxQueue : Z := 64.
Definition DefaultMaxConcurrentPerProgram : Z := 2.
Definition DefaultMaxQueuePerProgram : Z := 16.
Definition DefaultMaxLogBytes : Z := Z.shiftl 256 10.
Definition errOutputLimit : string := "wasm stdout exceeds limit".

(** The source of randomness of the guests is left out. *)
Record Config := {
  cf_Engine : string;
  cf_MemoryLimitMiB : Z;
  cf_DefaultTimeout : Z;
  cf_MaxTimeout : Z;
  cf_MaxConcurrent : Z;
  cf_MaxQueue : Z;
  cf_MaxConcurrentPerProgram : Z;
  cf_MaxQueuePerProgram : Z;
  cf_MaxLogBytes : Z;
  cf_MaxLogLineBytes : Z;
  cf_ABILimits : abi.Limits;
}.
Record Metrics := { mt_Queue : Z; mt_Compile : Z; mt_Instantiate : Z; mt_Execute : Z }.
Definition no_metrics : Metrics := {| mt_Queue := 0; mt_Compile := 0; mt_Instantiate := 0; mt_Execute := 0 |}.
Record Result := { rs_Response : abi.Response; rs_GuestLog : list Z; rs_DroppedLogBytes : Z; rs_Metrics : Metrics }.
Definition zero_Result : Result := {| rs_Response := abidec.zero_Response; rs_GuestLog := []; rs_DroppedLogBytes := 0; rs_Metrics := no_metrics |}.

Definition or_default (value default_value : Z) : Z := if value =? 0 then default_value else value.

Definition normalizeConfig (config : Config) : result Config :=
  let engine := if cf_Engine config == "" then wasmprofile.EngineCompiler else cf_Engine config in
  let memory := or_default (cf_MemoryLimitMiB config) DefaultMemoryLimitMiB in
  let defaultTimeout := or_default (cf_DefaultTimeout config) DefaultTimeout in
  let maxTimeout := or_default (cf_MaxTimeout config) DefaultMaxTimeout in
  let maxConcurrent := or_default (cf_MaxConcurrent config) DefaultMaxConcurrent in
  let maxQueue := or_default (cf_MaxQueue config) DefaultMaxQueue in
  let perProgram := or_default (cf_MaxConcurrentPerProgram config) (Z.min DefaultMaxConcurrentPerProgram maxConcurrent) in
  let queuePerProgram := or_default (cf_MaxQueuePerProgram config) (Z.min DefaultMaxQueuePerProgram maxQueue) in
  let maxLogBytes := or_default (cf_MaxLogBytes config) DefaultMaxLogBytes in
  let maxLogLineBytes := or_default (cf_MaxLogLineBytes config) agent.DefaultMaxLogLineBytes in
  wasmprofile.New engine memory ;;;
  fail_if ((defaultTimeout <? millisecond) || (maxTimeout >? DefaultMaxTimeout) || (defaultTimeout >? maxTimeout))
    (PlainError "wasmexec timeout configuration is outside v1 bounds") ;;;
  fail_if ((maxConcurrent <? 1) || (maxConcurrent >? 64) || (perProgram <? 1) || (perProgram >? maxConcurrent))
    (PlainError "wasmexec concurrency is outside v1 bounds") ;;;
  fail_if ((maxQueue <? 1) || (maxQueue >? 4096) || (queuePerProgram <? 1) || (queuePerProgram >? maxQueue))
    (PlainError "wasmexec queue limit is outside v1 bounds") ;;;
  fail_if ((maxLogBytes <? 1) || (maxLogBytes >? DefaultMaxLogBytes) || (maxLogLineBytes <? 1) || (maxLogLineBytes >? agent.DefaultMaxLogLineBytes))
    (PlainError "wasmexec log limit is outside v1 bounds") ;;;
  limits <- replace_err (PlainError "wasmexec abi limits are outside v1 bounds") (abi.Effective (cf_ABILimits config)) ;;
  Ok {| cf_Engine := engine; cf_MemoryLimitMiB := memory; cf_DefaultTimeout := defaultTimeout; cf_MaxTimeout := maxTimeout;
        cf_MaxConcurrent := maxConcurrent; cf_MaxQueue := maxQueue; cf_MaxConcurrentPerProgram := perProgram;
        cf_MaxQueuePerProgram := queuePerProgram; cf_MaxLogBytes := maxLogBytes; cf_MaxLogLineBytes := maxLogLineBytes; cf_ABILimits := limits |}.

Definition rawEnvelopeLimit (limits : abi.Limits) : Z :=
  if abi.lm_RawEnvelopeBytes limits =? 0 then abi.DefaultRawEnvelopeBytes else abi.lm_RawEnvelopeBytes limits.

(** ** The Engine's constants

    What an Engine never changes; its limiter and its lifecycle are shared
    state, see [WasmRuntime]. *)
Record Engine := {
  en_profile : wasmprofile.Profile;
  en_wasi : wasmcommand.CompiledModule;
  en_defaultTimeout : Z;
  en_maxTimeout : Z;
  en_abiLimits : abi.Limits;
  en_maxLogBytes : Z;
  en_maxLogLineBytes : Z;
  en_maxConcurrent : Z;
  en_maxQueue : Z;
  en_programConcurrency : Z;
  en_programQueue : Z;
}.

Definition invocationError (code message : string) : error := problem.classified code message.

(** [wasi] and [instantiate] are the two steps of the runtime that may fail,
    and what closing returns then. *)
Definition New (ctx : bool) (config : Config) (wasi : result wasmcommand.CompiledModule) (instantiate : option error)
    (runtimeClose wasiClose : option error) : result Engine :=
  fail_if (negb ctx) (PlainError "wasmexec context is required") ;;;
  config <- normalizeConfig config ;;
  let with_ (err : error) (closed : option error) := match closed with Some e => JoinError err e | None => err end in
  match wasi with
  | Err err => Err (with_ (WrapError "compiling locked wasi profile" err) runtimeClose)
  | Ok wasi =>
    match instantiate with
    | Some err => Err (with_ (with_ (WrapError "instantiating locked wasi profile" err) wasiClose) runtimeClose)
    | None =>
      Ok {| en_profile := {| wasmprofile.p_Engine := cf_Engine config; wasmprofile.p_MemoryLimitMiB := cf_MemoryLimitMiB config |}; en_wasi := wasi;
            en_defaultTimeout := cf_DefaultTimeout config; en_maxTimeout := cf_MaxTimeout config; en_abiLimits := cf_ABILimits config;
            en_maxLogBytes := cf_MaxLogBytes config; en_maxLogLineBytes := cf_MaxLogLineBytes config; en_maxConcurrent := cf_MaxConcurrent config;
            en_maxQueue := cf_MaxQueue config; en_programConcurrency := cf_MaxConcurrentPerProgram config; en_programQueue := cf_MaxQueuePerProgram config |}
    end
  end.

Definition Profile (e : Engine) : wasmprofile.Profile := en_profile e.
Definition execution_limits (e : Engine) : ExecutionLimits :=
  {| agent.el_MaxTimeout := en_maxTimeout e; agent.el_MaxConcurrent := en_maxConcurrent e; agent.el_MaxConcurrentPerProgram := en_programConcurrency e;
     agent.el_ABILimits := en_abiLimits e; agent.el_MaxLogBytes := en_maxLogBytes e; agent.el_MaxLogLineBytes := en_maxLogLineBytes e |}.

(** The checks of [Compile] on a module; [compiled] is what the runtime made of
    it, [closed] what closing it returns. *)
Definition check_module (e : Engine) (wasm : list Z) (compiled : result wasmcommand.CompiledModule) (closed : option error)
    : result wasmcommand.CompiledModule :=
  let with_ (err : error) := match closed with Some e => JoinError err e | None => err end in
  match compiled with
  | Err _ => Err (invocationError CodeInvalidModule "module failed runtime compilation")
  | Ok compiled =>
    match wasmcommand.InspectBinary wasm with
    | Err _ => Err (with_ (invocationError CodeInvalidModule "module failed profile inspection"))
    | Ok binaryMetadata =>
      match snd (wasmcommand.ValidateCommand compiled (en_wasi e) binaryMetadata) with
      | Some _ => Err (with_ (invocationError CodeInvalidModule "module is incompatible with the runtime profile"))
      | None => Ok compiled
      end
    end
  end.

Definition normalizeTimeout (e : Engine) (timeout : Z) : result Z :=
  if timeout =? 0 then Ok (en_defaultTimeout e)
  else
    fail_if ((timeout <? millisecond) || (timeout >? en_maxTimeout e)) (PlainError "wasmexec timeout is outside configured bounds") ;;;
    Ok timeout.

Definition normalizeInvocationPolicy (e : Engine) (policy : InvocationPolicy) : result InvocationPolicy :=
  timeout <- normalizeTimeout e (agent.ip_Timeout policy) ;;
  requestLimits <- replace_err (PlainError "wasmexec request limits are outside configured bounds")
                     (abi.Tighten (en_abiLimits e) (agent.ip_RequestLimits policy)) ;;
  responseLimits <- replace_err (PlainError "wasmexec response limits are outside configured bounds")
                      (abi.Tighten (en_abiLimits e) (agent.ip_ResponseLimits policy)) ;;
  let maxLogBytes := or_default (agent.ip_MaxLogBytes policy) (en_maxLogBytes e) in
  let maxLogLineBytes := or_default (agent.ip_MaxLogLineBytes policy) (en_maxLogLineBytes e) in
  fail_if ((maxLogBytes <? 1) || (maxLogBytes >? en_maxLogBytes e) || (maxLogLineBytes <? 1) || (maxLogLineBytes >? en_maxLogLineBytes e))
    (PlainError "wasmexec invocation log limits are outside configured bounds") ;;;
  Ok {| agent.ip_Timeout := timeout; agent.ip_RequestLimits := requestLimits; agent.ip_ResponseLimits := responseLimits;
        agent.ip_MaxLogBytes := maxLogBytes; agent.ip_MaxLogLineBytes := maxLogLineBytes |}.

(** The deadline of the context that is derived at [now]. *)
Definition isolatedContext (parent : option Time) (now : Time) (timeout : Z) : Time :=
  let deadline := time_Add now timeout in
  match parent with Some p => if time_Before p deadline then p else deadline | None => deadline end.

(** ** Streams (output.go) *)

(** [bo_cancelled] counts the calls of [cancel]. *)
Record boundedOutput := { bo_buffer : string; bo_limit : Z; bo_exceeded : bool; bo_cancelled : nat }.
Definition newBoundedOutput (limit : Z) : boundedOutput := {| bo_buffer := ""; bo_limit := limit; bo_exceeded := false; bo_cancelled := 0 |}.
Definition output_Write (data : string) (w : boundedOutput) : boundedOutput * (Z * option error) :=
  if bo_exceeded w then (w, (0, Some (SentinelError errOutputLimit)))
  else
    let remaining := bo_limit w - strlen (bo_buffer w) in
    if strlen data >? remaining then
      let kept := String.substring 0 (Z.to_nat (Z.max remaining 0)) data in
      ({| bo_buffer := bo_buffer w +:+ kept; bo_limit := bo_limit w; bo_exceeded := true; bo_cancelled := S (bo_cancelled w) |},
       (strlen kept, Some (SentinelError errOutputLimit)))
    else ({| bo_buffer := bo_buffer w +:+ data; bo_limit := bo_limit w; bo_exceeded := false; bo_cancelled := bo_cancelled w |}, (strlen data, None)).
Definition output_Bytes (w : boundedOutput) : string := bo_buffer w.
Definition Exceeded (w : boundedOutput) : bool := bo_exceeded w.

Record guestLog := { gl_buffer : list Z; gl_maxBytes : Z; gl_maxLineBytes : Z; gl_lineBytes : Z; gl_dropped : Z }.
Definition newGuestLog (maxBytes maxLineBytes : Z) : guestLog :=
  {| gl_buffer := []; gl_maxBytes := maxBytes; gl_maxLineBytes := maxLineBytes; gl_lineBytes := 0; gl_dropped := 0 |}.
(** One turn of the loop over the bytes. *)
Definition log_byte (w : guestLog) (current : Z) : guestLog :=
  let lineAllowed := (current =? 10) || (gl_lineBytes w <? gl_maxLineBytes w) in
  let totalAllowed := len (gl_buffer w) <? gl_maxBytes w in
  {| gl_buffer := if lineAllowed && totalAllowed then gl_buffer w ++ [current] else gl_buffer w; gl_maxBytes := gl_maxBytes w;
     gl_maxLineBytes := gl_maxLineBytes w; gl_lineBytes := if current =? 10 then 0 else gl_lineBytes w + 1;
     gl_dropped := if lineAllowed && totalAllowed then gl_dropped w else gl_dropped w + 1 |}.
Definition log_Write (data : string) (w : guestLog) : guestLog * Z := (foldl log_byte w (codes data), strlen data).
Definition log_Bytes (w : guestLog) : list Z := gl_buffer w.
Definition Dropped (w : guestLog) : Z := gl_dropped w.

(** ** Limiter (limiter.go)

    Two buffered channels, as their capacities and the tokens in them. *)
Record limiter := { lm_concurrent : Z; lm_queued : Z; lm_slots : Z; lm_queue : Z }.
Definition newLimiter (concurrent queued : Z) : limiter := {| lm_concurrent := concurrent; lm_queued := queued; lm_slots := 0; lm_queue := 0 |}.
Definition move_tokens (l : limiter) (slots queue : Z) : limiter :=
  {| lm_concurrent := lm_concurrent l; lm_queued := lm_queued l; lm_slots := lm_slots l + slots; lm_queue := lm_queue l + queue |}.

Definition queueTimeout : error := invocationError CodeFunctionTimeout "function execution deadline was exceeded while queued".
Definition queueStopped : error := SentinelError serving.ErrAcceptanceStopped.
Definition queueFull : error := invocationError CodeOverloaded "function execution queue is full".

(** Where a call of [acquire] stands: before its first checks, at its three
    [select] statements, and at the deferred receive from the queue. *)
Inductive acquiring := Arriving | Trying | Enqueuing | Waiting | Dequeuing (r : option error).
(** The case that is taken: a send or [default]; a stop channel; the end of the
    context. *)
Inductive choice := Proceed | TakeStop | TakeDone.
Inductive acquired := Continue (at_ : acquiring) | Acquired | Refused (err : error).

(** One step of [acquire]; [None] if the choice is not ready.  [stopped] says
    whether a stop channel is closed; the context may end at any time.  The
    second [select] looks at the context only in its [default] case. *)
Definition acquire (l : limiter) (stopped : bool) (at_ : acquiring) (c : choice) : option (limiter * acquired) :=
  match at_, c with
  | (Arriving | Trying), TakeDone => Some (l, Refused queueTimeout)
  | (Arriving | Trying | Enqueuing), TakeStop => if stopped then Some (l, Refused queueStopped) else None
  | Arriving, Proceed => if stopped then None else Some (l, Continue Trying)
  | Trying, Proceed =>
    if lm_slots l <? lm_concurrent l then Some (move_tokens l 1 0, Acquired)
    else if stopped then None else Some (l, Continue Enqueuing)
  | Enqueuing, TakeDone => if lm_queue l <? lm_queued l then None else Some (l, Refused queueTimeout)
  | Enqueuing, Proceed =>
    if lm_queue l <? lm_queued l then Some (move_tokens l 0 1, Continue Waiting)
    else if stopped then None else Some (l, Refused queueFull)
  | Waiting, TakeDone => Some (l, Continue (Dequeuing (Some queueTimeout)))
  | Waiting, TakeStop => if stopped then Some (l, Continue (Dequeuing (Some queueStopped))) else None
  | Waiting, Proceed => if lm_slots l <? lm_concurrent l then Some (move_tokens l 1 0, Continue (Dequeuing None)) else None
  | Dequeuing None, Proceed => Some (move_tokens l 0 (-1), Acquired)
  | Dequeuing (Some err), Proceed => Some (move_tokens l 0 (-1), Refused err)
  | Dequeuing _, _ => None
  end.
(** [<-l.slots], which would block on an empty channel. *)
Definition limiter_release (l : limiter) : option limiter := if 0 <? lm_slots l then Some (move_tokens l (-1) 0) else None.
(** [acceptanceStopped]: whether one of the two channels is closed; a nil
    channel never is. *)
Definition acceptanceStopped (stop alsoStop : option bool) : bool := default false stop || default false alsoStop.

(** ** Lifecycle (lifecycle.go)

    [lc_channels] are the channels that a lifecycle ever made, and whether each
    is closed; [lc_drained] and [lc_releaseDone] point into it. *)
Record lifecycle := {
  lc_active : Z;
  lc_closing : bool;
  lc_closed : bool;
  lc_releasing : bool;
  lc_drained : nat;
  lc_releaseDone : option nat;
  lc_closeErr : option error;
  lc_channels : list bool;
}.
Definition newLifecycle : lifecycle :=
  {| lc_active := 0; lc_closing := false; lc_closed := false; lc_releasing := false; lc_drained := 0; lc_releaseDone := None; lc_closeErr := None;
     lc_channels := [true] |}.
Definition set_active (l : lifecycle) (active : Z) (drained : nat) (channels : list bool) : lifecycle :=
  {| lc_active := active; lc_closing := lc_closing l; lc_closed := lc_closed l; lc_releasing := lc_releasing l; lc_drained := drained;
     lc_releaseDone := lc_releaseDone l; lc_closeErr := lc_closeErr l; lc_channels := channels |}.
Definition set_release (l : lifecycle) (closed releasing : bool) (releaseDone : option nat) (closeErr : option error) (channels : list bool) : lifecycle :=
  {| lc_active := lc_active l; lc_closing := true; lc_closed := closed; lc_releasing := releasing; lc_drained := lc_drained l;
     lc_releaseDone := releaseDone; lc_closeErr := closeErr; lc_channels := channels |}.

(** [close(ch)], which panics on a closed channel. *)
Definition close_channel (ch : nat) (channels : list bool) : option (list bool) :=
  match channels !! ch with Some false => Some (<[ch := true]> channels) | _ => None end.

Definition begin (l : lifecycle) : lifecycle * bool :=
  if lc_closing l || lc_closed l then (l, false)
  else if lc_active l =? 0 then (set_active l (lc_active l + 1) (length (lc_channels l)) (lc_channels l ++ [false]), true)
  else (set_active l (lc_active l + 1) (lc_drained l) (lc_channels l), true).
(** [end]; [None] is a panic. *)
Definition finish (l : lifecycle) : option lifecycle :=
  let active := lc_active l - 1 in
  if active =? 0 then
    match close_channel (lc_drained l) (lc_channels l) with
    | Some channels => Some (set_active l active (lc_drained l) channels)
    | None => None
    end
  else Some (set_active l active (lc_drained l) (lc_channels l)).

(** The three lock regions of [close]: what the loop finds; the claim of the
    release, [None] if another one runs; the end of the release. *)
Inductive entered := AlreadyClosed (err : option error) | ReleaseRuns (releaseDone : option nat) | Drains (drained : nat).
Definition close_enter (l : lifecycle) : lifecycle * entered :=
  if lc_closed l then (l, AlreadyClosed (lc_closeErr l))
  else
    let l := set_release l (lc_closed l) (lc_releasing l) (lc_releaseDone l) (lc_closeErr l) (lc_channels l) in
    (l, if lc_releasing l then ReleaseRuns (lc_releaseDone l) else Drains (lc_drained l)).
Definition close_claim (l : lifecycle) : lifecycle * option nat :=
  if lc_releasing l then (l, None)
  else
    let releaseDone := length (lc_channels l) in
    ({| lc_active := lc_active l; lc_closing := lc_closing l; lc_closed := lc_closed l; lc_releasing := true; lc_drained := lc_drained l;
        lc_releaseDone := Some releaseDone; lc_closeErr := lc_closeErr l; lc_channels := lc_channels l ++ [false] |}, Some releaseDone).
Definition close_settle (releaseDone : nat) (err : option error) (l : lifecycle) : option lifecycle :=
  match close_channel releaseDone (lc_channels l) with
  | Some channels =>
    Some {| lc_active := lc_active l; lc_closing := lc_closing l; lc_closed := match err with None => true | Some _ => lc_closed l end;
            lc_releasing := false; lc_drained := lc_drained l; lc_releaseDone := lc_releaseDone l; lc_closeErr := err; lc_channels := channels |}
  | None => None
  end.

(** ** One instance

    How the start function ended: it returned, it called [proc_exit], or it
    failed.  What the guest did is the list of its writes in order, whatever
    it made of their results. *)
Inductive ending := Returned | Exited (code : Z) | Failed (err : error).
Inductive stream := Stdout | Stderr.
Record behaviour := {
  gb_instantiateWrites : list (stream * string);
  gb_instantiateErr : option ending;
  gb_instantiateTime : Z;
  gb_hasStart : bool;
  gb_writes : list (stream * string);
  gb_ending : ending;
  gb_executeTime : Z;
  gb_closeErr : option error;
  gb_expired : bool;
}.

Definition guest_write (streams : boundedOutput * guestLog) (w : stream * string) : boundedOutput * guestLog :=
  match fst w with
  | Stdout => (fst (output_Write (snd w) (fst streams)), snd streams)
  | Stderr => (fst streams, fst (log_Write (snd w) (snd streams)))
  end.

(** [errors.Is(err, errOutputLimit)]; [sys.ExitError] is none. *)
Definition is_output_limit (e : ending) : bool := match e with Failed err => errors_Is errOutputLimit err | _ => false end.
(** [expired]: the context has ended.  [cancel] ends it too. *)
Definition classifyExecutionError (expired : bool) (output : boundedOutput) (executionErr : ending) : error :=
  if Exceeded output || is_output_limit executionErr then invocationError CodeOutputLimit "function output exceeded its limit"
  else if expired then invocationError CodeFunctionTimeout "function execution deadline was exceeded"
  else invocationError CodeFunctionTrap "function trapped or exited unsuccessfully".
Definition successfulExit (e : ending) : bool := match e with Exited code => code =? 0 | _ => false end.

(** [executionErr != nil && !successfulExit(executionErr)] *)
Definition unsuccessful (e : ending) : bool := match e with Returned => false | _ => negb (successfulExit e) end.

Definition finishResult (res : Result) (logs : guestLog) : Result :=
  {| rs_Response := rs_Response res; rs_GuestLog := log_Bytes logs; rs_DroppedLogBytes := Dropped logs; rs_Metrics := rs_Metrics res |}.
Definition set_metrics (res : Result) (instantiate execute : Z) : Result :=
  {| rs_Response := rs_Response res; rs_GuestLog := rs_GuestLog res; rs_DroppedLogBytes := rs_DroppedLogBytes res;
     rs_Metrics := {| mt_Queue := mt_Queue (rs_Metrics res); mt_Compile := mt_Compile (rs_Metrics res); mt_Instantiate := instantiate; mt_Execute := execute |} |}.
Definition set_response (res : Result) (response : abi.Response) : Result :=
  {| rs_Response := response; rs_GuestLog := rs_GuestLog res; rs_DroppedLogBytes := rs_DroppedLogBytes res; rs_Metrics := rs_Metrics res |}.

(** The rest of [invoke], from [InstantiateModule] on; [res] has the queueing
    time. *)
Definition run_instance (policy : InvocationPolicy) (method : string) (res : Result) (b : behaviour) : Result * option error :=
  let streams := (newBoundedOutput (rawEnvelopeLimit (agent.ip_ResponseLimits policy)),
                  newGuestLog (agent.ip_MaxLogBytes policy) (agent.ip_MaxLogLineBytes policy)) in
  let '(stdout, guestLog) := foldl guest_write streams (gb_instantiateWrites b) in
  let res := set_metrics res (gb_instantiateTime b) 0 in
  match gb_instantiateErr b with
  | Some instantiateErr =>
    (finishResult res guestLog, Some (classifyExecutionError (gb_expired b || Exceeded stdout) stdout instantiateErr))
  | None =>
    let '(res, err) :=
      if negb (gb_hasStart b) then
        (finishResult res guestLog, Some (invocationError CodeInvalidModule "module command entrypoint is unavailable"))
      else
        let '(stdout, guestLog) := foldl guest_write (stdout, guestLog) (gb_writes b) in
        let res := finishResult (set_metrics res (gb_instantiateTime b) (gb_executeTime b)) guestLog in
        if unsuccessful (gb_ending b) then (res, Some (classifyExecutionError (gb_expired b || Exceeded stdout) stdout (gb_ending b)))
        else if Exceeded stdout then (res, Some (invocationError CodeOutputLimit "function output exceeded its limit"))
        else match abidec.DecodeResponse (Some (abidec.bytes_reader (output_Bytes stdout))) method (agent.ip_ResponseLimits policy) with
        | Err _ => (res, Some (invocationError CodeInvalidFunctionResponse "function returned an invalid response"))
        | Ok response => (set_response res response, None)
        end in
    (res, match gb_closeErr b, err with
          | Some _, None => Some (invocationError CodeWorkerLost "runtime failed to release the function instance")
          | _, _ => err
          end)
  end.


(** ** What the streams keep *)
Lemma codes_substring n s : codes (String.substring 0 n s) = take n (codes s).
Proof. revert n. induction s as [|c s IH]; intros [|n]; try done. cbn [String.substring]. change (codes (String c ?t)) with (Z.of_N (Ascii.N_of_ascii c) :: codes t). simpl. f_equal. apply IH. Qed.
Lemma codes_injective a b : codes a = codes b -> a = b.
Proof. intros H. rewrite <-(http.str_of_codes a), <-(http.str_of_codes b). by rewrite H. Qed.
Lemma strlen_length s : strlen s = len (codes s).
Proof. unfold strlen, len. by rewrite length_codes. Qed.

(** The text that was written to a stream. *)
Definition on_stdout (w : stream * string) : string := match fst w with Stdout => snd w | Stderr => "" end.
Definition on_stderr (w : stream * string) : list Z := match fst w with Stdout => [] | Stderr => codes (snd w) end.
Definition stdout_text (ws : list (stream * string)) : string := foldr (fun w t => on_stdout w +:+ t) ""%string ws.
Definition stderr_bytes (ws : list (stream * string)) : list Z := concat (map on_stderr ws).

(** A bounded output after [text] was written to it. *)
Definition output_of (limit : Z) (text : string) : boundedOutput :=
  {| bo_buffer := String.substring 0 (Z.to_nat limit) text; bo_limit := limit; bo_exceeded := limit <? strlen text;
     bo_cancelled := if limit <? strlen text then 1 else 0 |}.

Lemma output_Write_of limit text data : 0 <= limit -> fst (output_Write data (output_of limit text)) = output_of limit (text +:+ data).
Proof.
  intros Hl. unfold output_Write, output_of. cbn [bo_exceeded bo_limit bo_buffer bo_cancelled].
  assert (strlen (text +:+ data) = strlen text + strlen data) as Happ by (rewrite !strlen_length, codes_app; unfold len; rewrite length_app; lia).
  pose proof (Nat2Z.is_nonneg (String.length data)) as Hd. fold (strlen data) in Hd. rewrite Happ.
  destruct (Z.ltb_spec limit (strlen text)) as [Hex|Hin].
  - rewrite (proj2 (Z.ltb_lt limit (strlen text + strlen data))) by lia. cbn [fst]. f_equal. apply codes_injective. rewrite !codes_substring, codes_app.
    rewrite strlen_length in Hex. unfold len in Hex. rewrite take_app_le by lia. done.
  - rewrite (rpc.substring_all text) by (unfold strlen in Hin; lia). rewrite Z.gtb_ltb.
    destruct (Z.ltb_spec (limit - strlen text) (strlen data)) as [Hex'|Hin'].
    + rewrite (proj2 (Z.ltb_lt limit (strlen text + strlen data))) by lia. cbn [fst]. f_equal. apply codes_injective. rewrite codes_app, !codes_substring, codes_app.
      rewrite strlen_length in *. unfold len in *. rewrite take_app_ge by lia. do 2 f_equal. lia.
    + rewrite (proj2 (Z.ltb_ge limit (strlen text + strlen data))) by lia. cbn [fst]. f_equal.
      symmetry. apply rpc.substring_all. unfold strlen in *. lia.
Qed.

Lemma guest_writes limit text g ws : 0 <= limit ->
  foldl guest_write (output_of limit text, g) ws = (output_of limit (text +:+ stdout_text ws), foldl log_byte g (stderr_bytes ws)).
Proof.
  intros Hl. revert text g. induction ws as [|[[] data] ws IH]; intros text g; cbn [foldl].
  - unfold stderr_bytes. cbn [map concat foldl]. f_equal. f_equal. apply codes_injective. rewrite codes_app. simpl. by rewrite app_nil_r.
  - unfold guest_write at 2. cbn [fst snd]. rewrite output_Write_of by done. rewrite IH. f_equal. f_equal. apply codes_injective. cbn [stdout_text foldr on_stdout fst snd].
    by rewrite !codes_app, app_assoc.
  - unfold guest_write at 2. cbn [fst snd]. rewrite IH. f_equal. unfold stderr_bytes. cbn [map concat on_stderr fst snd]. by rewrite foldl_app.
Qed.

(** The current and the longest line of a text, in bytes. *)
Definition line_step (lengths : Z * Z) (b : Z) : Z * Z :=
  if b =? 10 then (0, snd lengths) else (fst lengths + 1, Z.max (snd lengths) (fst lengths + 1)).
Definition line_lengths (l : list Z) : Z * Z := foldl line_step (0, 0) l.
Definition longest_line (l : list Z) : Z := snd (line_lengths l).

(** A log after [written]: nothing is invented or reordered, every byte is kept
    or counted, and neither the whole nor a line exceeds its bound. *)
Record log_ok (maxBytes maxLineBytes : Z) (written : list Z) (g : guestLog) : Prop := {
  lg_limits : gl_maxBytes g = maxBytes /\ gl_maxLineBytes g = maxLineBytes;
  lg_sublist : gl_buffer g `sublist_of` written;
  lg_count : len (gl_buffer g) + gl_dropped g = len written;
  lg_bound : len (gl_buffer g) <= maxBytes;
  lg_lines : longest_line (gl_buffer g) <= maxLineBytes;
  lg_current : 0 <= gl_lineBytes g /\ (fst (line_lengths (gl_buffer g)) <= gl_lineBytes g \/ len (gl_buffer g) = maxBytes);
}.

Lemma line_lengths_snoc l b : line_lengths (l ++ [b]) = line_step (line_lengths l) b.
Proof. unfold line_lengths. by rewrite foldl_app. Qed.
Lemma len_snoc {A} (l : list A) x : len (l ++ [x]) = len l + 1.
Proof. unfold len. rewrite length_app. simpl. lia. Qed.

Lemma log_byte_ok maxBytes maxLineBytes written g b : 0 <= maxBytes -> 0 <= maxLineBytes ->
  log_ok maxBytes maxLineBytes written g -> log_ok maxBytes maxLineBytes (written ++ [b]) (log_byte g b).
Proof.
  intros H1 H2 [[L1 L2] Hs Hc Hb Hl [Hz Hcur]]. unfold log_byte. rewrite L1, L2. unfold longest_line in *.
  destruct (_ && _) eqn:E.
  - apply andb_true_iff in E as [El Et]. apply Z.ltb_lt in Et.
    split; cbn [gl_maxBytes gl_maxLineBytes gl_buffer gl_dropped gl_lineBytes]; rewrite ?len_snoc, ?line_lengths_snoc; unfold longest_line; rewrite ?line_lengths_snoc; try lia.
    + by apply sublist_app.
    + unfold line_step. destruct (b =? 10) eqn:Eb; [done|]. cbn [orb] in El. apply Z.ltb_lt in El. cbn [fst snd]. lia.
    + unfold line_step. destruct (b =? 10) eqn:Eb; cbn [fst snd]; lia.
  - split; cbn [gl_maxBytes gl_maxLineBytes gl_buffer gl_dropped gl_lineBytes]; rewrite ?len_snoc; try lia; try done.
    + by apply sublist_inserts_r.
    + destruct (b =? 10) eqn:Eb; [|lia]. cbn [orb andb] in E. apply Z.ltb_ge in E. lia.
Qed.
Lemma newGuestLog_ok maxBytes maxLineBytes : 0 <= maxBytes -> 0 <= maxLineBytes -> log_ok maxBytes maxLineBytes [] (newGuestLog maxBytes maxLineBytes).
Proof. intros. split; try done. simpl. lia. Qed.
Lemma log_bytes_ok maxBytes maxLineBytes written g l : 0 <= maxBytes -> 0 <= maxLineBytes ->
  log_ok maxBytes maxLineBytes written g -> log_ok maxBytes maxLineBytes (written ++ l) (foldl log_byte g l).
Proof.
  intros H1 H2. revert written g. induction l as [|b l IH]; intros written g Hg; [by rewrite app_nil_r|]. cbn [foldl].
  rewrite cons_middle, app_assoc. by apply IH, log_byte_ok.
Qed.

(** ** Policies only narrow *)
Definition engine_ok (e : Engine) : Prop :=
  millisecond <= en_defaultTimeout e <= en_maxTimeout e /\ en_maxTimeout e <= DefaultMaxTimeout /\ abi.in_bounds (en_abiLimits e) /\
  1 <= en_maxLogBytes e <= DefaultMaxLogBytes /\ 1 <= en_maxLogLineBytes e <= agent.DefaultMaxLogLineBytes /\
  1 <= en_programConcurrency e <= en_maxConcurrent e /\ en_maxConcurrent e <= 64 /\ 1 <= en_programQueue e <= en_maxQueue e /\ en_maxQueue e <= 4096.

Lemma New_engine_ok ctx config wasi instantiate c1 c2 e : New ctx config wasi instantiate c1 c2 = Ok e -> engine_ok e.
Proof.
  unfold New. intros H. apply rbind_Ok in H as ([] & _ & H). apply rbind_Ok in H as (c & Hc & H). destruct wasi as [w|]; [|done]. destruct instantiate; [done|].
  apply Ok_inj in H. subst e. unfold normalizeConfig in Hc. cbv zeta in Hc. apply rbind_Ok in Hc as (? & _ & Hc).
  apply rbind_Ok in Hc as ([] & H1%fail_if_Ok & Hc). apply rbind_Ok in Hc as ([] & H2%fail_if_Ok & Hc). apply rbind_Ok in Hc as ([] & H3%fail_if_Ok & Hc).
  apply rbind_Ok in Hc as ([] & H4%fail_if_Ok & Hc). apply rbind_Ok in Hc as (limits & H5 & Hc). apply Ok_inj in Hc. subst c. apply replace_err_Ok in H5.
  apply abi.normalizeLimits_Ok in H5 as [H5 _].
  unfold engine_ok. cbn [en_defaultTimeout en_maxTimeout en_abiLimits en_maxLogBytes en_maxLogLineBytes en_maxConcurrent en_maxQueue en_programConcurrency en_programQueue
    cf_DefaultTimeout cf_MaxTimeout cf_ABILimits cf_MaxLogBytes cf_MaxLogLineBytes cf_MaxConcurrent cf_MaxQueue cf_MaxConcurrentPerProgram cf_MaxQueuePerProgram].
  go_cases. split_and!; (done || lia).
Qed.

(** A policy in force: within the Engine's bounds and the requested ones. *)
Record policy_ok (e : Engine) (requested policy : InvocationPolicy) : Prop := {
  po_timeout : millisecond <= agent.ip_Timeout policy <= en_maxTimeout e /\ (agent.ip_Timeout requested <> 0 -> agent.ip_Timeout policy = agent.ip_Timeout requested);
  po_request : abi.in_bounds (agent.ip_RequestLimits policy) /\ abi.limits_le (agent.ip_RequestLimits policy) (en_abiLimits e);
  po_response : abi.in_bounds (agent.ip_ResponseLimits policy) /\ abi.limits_le (agent.ip_ResponseLimits policy) (en_abiLimits e);
  po_log : 1 <= agent.ip_MaxLogBytes policy <= en_maxLogBytes e;
  po_line : 1 <= agent.ip_MaxLogLineBytes policy <= en_maxLogLineBytes e;
}.

Lemma Tighten_bounds base requested limits : abi.in_bounds base -> abi.Tighten base requested = Ok limits ->
  abi.in_bounds limits /\ abi.limits_le limits base.
Proof.
  intros Hb Ht. unfold abi.Tighten in Ht. apply rbind_Ok in Ht as (b & Hn & Ht). apply rbind_Ok in Ht as (r & Hr & Ht). apply Ok_inj in Ht. subst limits.
  rewrite abi.normalizeLimits_in_bounds in Hn by done. apply Ok_inj in Hn. subst b. apply abi.normalizeLimits_Ok in Hr as [[Hr1 Hr2] _].
  assert (abi.limits_le (abi.zip_limits Z.min base r) base /\ abi.limits_le (abi.zip_limits Z.min base r) r) as [Hle1 Hle2] by (apply abi.min_limits_le; reflexivity).
  split; [|done]. split; [|by etransitivity; [|apply Hb]]. destruct Hb as [Hp1 _]. clear - Hp1 Hr1. unfold abi.positive_limits, abi.limits_list in *. rewrite !Forall_cons in Hp1, Hr1.
  repeat (apply Forall_cons; split; [apply Z.min_glb; tauto|]). by apply Forall_nil.
Qed.

Lemma normalizeInvocationPolicy_Ok e requested policy : engine_ok e -> normalizeInvocationPolicy e requested = Ok policy -> policy_ok e requested policy.
Proof.
  intros (He1 & He2 & He3 & He4 & He5 & _) H. unfold normalizeInvocationPolicy in H. cbv zeta in H. apply rbind_Ok in H as (timeout & Ht & H).
  apply rbind_Ok in H as (rq & Hq & H). apply rbind_Ok in H as (rp & Hp & H). apply rbind_Ok in H as ([] & Hl%fail_if_Ok & H). apply Ok_inj in H. subst policy.
  apply replace_err_Ok in Hq, Hp. apply (Tighten_bounds _ _ _ He3) in Hq, Hp.
  split; cbn [agent.ip_Timeout agent.ip_RequestLimits agent.ip_ResponseLimits agent.ip_MaxLogBytes agent.ip_MaxLogLineBytes]; try done; [|go_cases; lia..].
  unfold normalizeTimeout in Ht. destruct (Z.eqb_spec (agent.ip_Timeout requested) 0) as [Hz|Hz]; [apply Ok_inj in Ht; subst timeout; lia|].
  apply rbind_Ok in Ht as ([] & Hb%fail_if_Ok & Ht). apply Ok_inj in Ht. subst timeout. go_cases. lia.
Qed.


(** ** What an invocation can return *)

(** The writes that happened, and the errors an instance can lead to. *)
Definition performed (b : behaviour) : list (stream * string) :=
  gb_instantiateWrites b ++ match gb_instantiateErr b with Some _ => [] | None => if gb_hasStart b then gb_writes b else [] end.
Definition instance_codes : list string :=
  [CodeOutputLimit; CodeFunctionTimeout; CodeFunctionTrap; CodeInvalidModule; CodeInvalidFunctionResponse; CodeWorkerLost].
Definition has_code (codes : list string) (err : error) : Prop := exists code message, err = invocationError code message /\ code ∈ codes.

Lemma classify_code expired output e : has_code instance_codes (classifyExecutionError expired output e) /\
  (Exceeded output = true -> has_code [CodeOutputLimit] (classifyExecutionError expired output e)).
Proof.
  unfold classifyExecutionError. split.
  - destruct (_ || _); [|destruct expired]; (eexists _, _; split; [done|]); (apply (bool_decide_unpack _); vm_compute; exact I).
  - intros ->. eexists _, _. split; [done|]. by apply list_elem_of_singleton.
Qed.

Lemma DecodeResponse_valid data method limits response : abi.in_bounds limits ->
  abidec.DecodeResponse (Some (abidec.bytes_reader data)) method limits = Ok response -> abi.validateResponse response method limits = Ok tt.
Proof.
  intros Hl. unfold abidec.DecodeResponse. rewrite abi.normalizeLimits_in_bounds by done. cbn [rbind]. intros H. apply rbind_Ok in H as (? & _ & H).
  apply rbind_Ok in H as (? & _ & H). apply rbind_Ok in H as ([] & Hv & H). apply Ok_inj in H. by subst.
Qed.

Lemma finish_log res logs : rs_GuestLog (finishResult res logs) = gl_buffer logs /\ rs_DroppedLogBytes (finishResult res logs) = gl_dropped logs.
Proof. done. Qed.

(** The streams of an instance that did what [b] says. *)
Definition final_output (policy : InvocationPolicy) (b : behaviour) : boundedOutput :=
  output_of (rawEnvelopeLimit (agent.ip_ResponseLimits policy)) (stdout_text (performed b)).
Definition final_log (policy : InvocationPolicy) (b : behaviour) : guestLog :=
  foldl log_byte (newGuestLog (agent.ip_MaxLogBytes policy) (agent.ip_MaxLogLineBytes policy)) (stderr_bytes (performed b)).

Lemma output_of_new limit : 0 <= limit -> newBoundedOutput limit = output_of limit "".
Proof. intros Hl. unfold newBoundedOutput, output_of. rewrite (proj2 (Z.ltb_ge limit (strlen ""))) by (change (strlen "") with 0; lia). f_equal. by destruct (Z.to_nat limit). Qed.
Lemma stdout_text_app a b : stdout_text (a ++ b) = stdout_text a +:+ stdout_text b.
Proof.
  apply codes_injective. rewrite codes_app. induction a as [|w a IH]; [done|]. cbn [app stdout_text foldr]. fold (stdout_text (a ++ b)) (stdout_text a).
  by rewrite !codes_app, IH, app_assoc.
Qed.

(** [run_instance] without its bookkeeping. *)
Lemma run_instance_spec policy method res b res' err : 0 <= rawEnvelopeLimit (agent.ip_ResponseLimits policy) ->
  run_instance policy method res b = (res', err) ->
  rs_GuestLog res' = gl_buffer (final_log policy b) /\ rs_DroppedLogBytes res' = gl_dropped (final_log policy b) /\
  match err with
  | None => gb_instantiateErr b = None /\ gb_hasStart b = true /\ unsuccessful (gb_ending b) = false /\ Exceeded (final_output policy b) = false /\
      abidec.DecodeResponse (Some (abidec.bytes_reader (output_Bytes (final_output policy b)))) method (agent.ip_ResponseLimits policy) = Ok (rs_Response res')
  | Some err => has_code instance_codes err /\
      (Exceeded (final_output policy b) = true -> gb_instantiateErr b <> None \/ gb_hasStart b = true -> has_code [CodeOutputLimit] err)
  end.
Proof.
  intros Hl. unfold run_instance, final_log, final_output, performed. rewrite output_of_new by done. rewrite guest_writes by done. cbn zeta.
  set (limit := rawEnvelopeLimit _) in *. set (g := newGuestLog _ _).
  assert (forall code message, code ∈ instance_codes -> has_code instance_codes (invocationError code message)) as Hcode by (intros; by eexists _, _).
  destruct (gb_instantiateErr b) as [e|] eqn:Ei.
  { rewrite app_nil_r. intros [= <- <-]. destruct (finish_log (set_metrics res (gb_instantiateTime b) 0) (foldl log_byte g (stderr_bytes (gb_instantiateWrites b)))) as [-> ->].
    split_and!; [done|done|apply classify_code|]. intros Hex _. by apply classify_code. }
  destruct (gb_hasStart b) eqn:Eh; cbn [negb].
  2:{ rewrite app_nil_r. intros [= <- <-]. destruct (finish_log (set_metrics res (gb_instantiateTime b) 0) (foldl log_byte g (stderr_bytes (gb_instantiateWrites b)))) as [-> ->].
      split_and!; [done|done|]. destruct (gb_closeErr b); (split; [apply Hcode; apply (bool_decide_unpack _); vm_compute; exact I|intros _ [?|?]; done]). }
  rewrite guest_writes by done. rewrite stdout_text_app. unfold stderr_bytes. rewrite map_app, concat_app, foldl_app. fold (stderr_bytes (gb_instantiateWrites b)) (stderr_bytes (gb_writes b)).
  set (out := output_of limit _). set (logs := foldl log_byte _ (stderr_bytes (gb_writes b))).
  set (done_ := finishResult _ logs). assert (rs_GuestLog done_ = gl_buffer logs /\ rs_DroppedLogBytes done_ = gl_dropped logs) as [Hg Hd] by done.
  destruct (unsuccessful (gb_ending b)) eqn:Eu.
  { intros [= <- <-]. rewrite Hg, Hd. destruct (gb_closeErr b); (split_and!; [done|done|apply classify_code|]); intros Hex _; by apply classify_code. }
  destruct (Exceeded out) eqn:Ee.
  { intros [= <- <-]. rewrite Hg, Hd. destruct (gb_closeErr b); (split_and!; [done|done|apply Hcode; apply (bool_decide_unpack _); vm_compute; exact I|]);
      intros _ _; eexists _, _; (split; [done|by apply list_elem_of_singleton]). }
  destruct (abidec.DecodeResponse _ _ _) as [response|e] eqn:Er.
  2:{ intros [= <- <-]. rewrite Hg, Hd. destruct (gb_closeErr b); (split_and!; [done|done|apply Hcode; apply (bool_decide_unpack _); vm_compute; exact I|done]). }
  intros [= <- <-]. cbn [set_response rs_GuestLog rs_DroppedLogBytes rs_Response]. rewrite Hg, Hd. destruct (gb_closeErr b).
  - split_and!; [done|done|apply Hcode; apply (bool_decide_unpack _); vm_compute; exact I|done].
  - done.
Qed.

(** C23: A guest can only answer within its bounds.  Whatever an instance writes
    and however it ends, under any policy an Engine accepts: its log is a part
    of what it wrote to stderr, in order, at most [MaxLogBytes] long, with no
    line over [MaxLogLineBytes], and the bytes that are missing are counted.
    A call succeeds only if the start function returned or exited with zero,
    all of stdout fits the response limit, and the response is what
    [DecodeResponse] reads from the whole of stdout, valid under limits no
    larger than the Engine's.  Output over the limit is always an error, and
    [CodeOutputLimit] once the guest ran, even if it then exits with success;
    every other failure has one of six stable codes. *)
Theorem instance_contained e requested policy method res b res' err :
  engine_ok e -> normalizeInvocationPolicy e requested = Ok policy -> run_instance policy method res b = (res', err) ->
  let limit := abi.lm_RawEnvelopeBytes (agent.ip_ResponseLimits policy) in
  let text := stdout_text (performed b) in
  policy_ok e requested policy /\
  (rs_GuestLog res' `sublist_of` stderr_bytes (performed b) /\ len (rs_GuestLog res') <= agent.ip_MaxLogBytes policy /\
   longest_line (rs_GuestLog res') <= agent.ip_MaxLogLineBytes policy /\
   len (rs_GuestLog res') + rs_DroppedLogBytes res' = len (stderr_bytes (performed b))) /\
  (err = None -> strlen text <= limit /\ unsuccessful (gb_ending b) = false /\
     abidec.DecodeResponse (Some (abidec.bytes_reader text)) method (agent.ip_ResponseLimits policy) = Ok (rs_Response res') /\
     abi.validateResponse (rs_Response res') method (agent.ip_ResponseLimits policy) = Ok tt) /\
  (limit < strlen text -> exists problem, err = Some problem /\
     (gb_instantiateErr b <> None \/ gb_hasStart b = true -> has_code [CodeOutputLimit] problem)) /\
  (forall problem, err = Some problem -> has_code instance_codes problem).
Proof.
  intros He Hp Hr limit text. pose proof (normalizeInvocationPolicy_Ok _ _ _ He Hp) as Hok. destruct Hok as [_ _ [Hb _] Hlog Hline].
  assert (1 <= limit) as Hlim by (destruct Hb as [Hb _]; unfold abi.positive_limits, abi.limits_list in Hb; rewrite !Forall_cons in Hb; tauto).
  assert (rawEnvelopeLimit (agent.ip_ResponseLimits policy) = limit) as Hraw by (unfold rawEnvelopeLimit; fold limit; by rewrite (proj2 (Z.eqb_neq limit 0)) by lia).
  apply run_instance_spec in Hr; [|lia]. destruct Hr as (Hg & Hd & Hout). unfold final_output in Hout. rewrite Hraw in Hout. fold text in Hout.
  pose proof (log_bytes_ok (agent.ip_MaxLogBytes policy) (agent.ip_MaxLogLineBytes policy) [] _ (stderr_bytes (performed b)) ltac:(lia) ltac:(lia)
    (newGuestLog_ok (agent.ip_MaxLogBytes policy) (agent.ip_MaxLogLineBytes policy) ltac:(lia) ltac:(lia))) as [_ L1 L2 L3 L4 _]. fold (final_log policy b) in *. rewrite Hg, Hd. cbn [app] in *.
  split; [by apply normalizeInvocationPolicy_Ok|]. split; [by split_and!|].
  unfold output_of, Exceeded, output_Bytes in Hout. cbn [bo_exceeded bo_buffer] in Hout. split_and!.
  - intros ->. destruct Hout as (_ & _ & Hu & Hex & Hdec). apply Z.ltb_ge in Hex. rewrite rpc.substring_all in Hdec by (unfold strlen in Hex; lia).
    split_and!; try done. by eapply DecodeResponse_valid.
  - intros Hex. apply Z.ltb_lt in Hex. destruct err as [problem|]; [|destruct Hout as (_ & _ & _ & ? & _); congruence]. exists problem. split; [done|]. by apply Hout.
  - intros problem ->. apply Hout.
Qed.


(** ** Admission *)
Lemma check_module_Ok e wasm compiled closed c : check_module e wasm compiled closed = Ok c <-> compiled = Ok c /\ wasmcommand.compatible (en_wasi e) c wasm.
Proof.
  unfold check_module, wasmcommand.compatible. destruct compiled as [m|err]; [|split; [done|]; by intros [? _]].
  destruct (wasmcommand.InspectBinary wasm) as [metadata|err]; [|split; [done|]; by intros [_ (? & ? & _)]].
  pose proof (wasmcommand.ValidateCommand_None m (en_wasi e) metadata) as Hn. destruct (snd _) as [err|].
  - split; [done|]. intros [[= ->] (? & [= <-] & Hm)]. by apply Hn in Hm.
  - split; [|by intros [[= ->] _]]. intros [= <-]. split; [done|]. exists metadata. split; [done|]. by apply Hn.
Qed.

(** A report about this request. *)
Record about (request : protocol.Request) (report : protocol.Report) : Prop := {
  ab_schema : protocol.rp_SchemaVersion report = protocol.SchemaVersion;
  ab_id : protocol.rp_ValidationID report = protocol.rq_ValidationID request;
  ab_digest : protocol.rp_ArtifactDigest report = protocol.rq_ArtifactDigest request;
  ab_size : protocol.rp_ArtifactSize report = protocol.rq_ArtifactSize request;
  ab_runtime : protocol.rp_RuntimeName report = wasmprofile.RuntimeName /\ protocol.rp_RuntimeVersion report = wasmprofile.RuntimeVersion /\
    protocol.rp_RuntimeFeatureProfile report = wasmprofile.FeatureProfile /\ protocol.rp_RuntimeEngine report = protocol.rq_RuntimeEngine request;
  ab_lists : is_Some (protocol.rp_Imports report) /\ is_Some (protocol.rp_Exports report);
  ab_elapsed : 0 <= protocol.rp_CompileNanoseconds report;
  ab_text : protocol.rp_Message report <> ""%string /\ protocol.rp_Reason report <> ""%string;
  ab_verdict : if protocol.rp_Valid report then protocol.rp_Code report = protocol.CodeOK else problem.Known (protocol.rp_Code report) = true;
}.

Lemma about_Validate request report : protocol.Request_Validate request = Ok tt -> about request report -> protocol.Report_Validate report = Ok tt.
Proof.
  intros Hq [A1 A2 A3 A4 (A5 & A6 & A7 & A8) [[i Hi] [x Hx]] A9 [A10 A11] A12]. unfold protocol.Request_Validate in Hq. ok_inv.
  unfold protocol.Report_Validate. rewrite A1, A2, A3, A4, A5, A6, A7, A8, Hi, Hx.
  repeat match goal with H : negb _ = false |- _ => apply negb_false_iff in H end.
  rewrite (bool_decide_false (protocol.rp_Message report = "")), (bool_decide_false (protocol.rp_Reason report = "")) by done.
  rewrite !bool_decide_true by done.
  match goal with H : protocol.validationIDPattern _ = true |- _ => rewrite H end.
  match goal with H : digest.ParseSHA256 _ = Ok _ |- _ => rewrite H end.
  rewrite (proj2 (Z.ltb_ge (protocol.rq_ArtifactSize request) 1)), (proj2 (Z.ltb_ge (protocol.rp_CompileNanoseconds report) 0)) by lia.
  cbn [negb orb andb protocol.is_nil fail_if rbind replace_err].
  assert ((protocol.rq_RuntimeEngine request != wasmprofile.EngineCompiler) && (protocol.rq_RuntimeEngine request != wasmprofile.EngineInterpreter) = false) as ->
    by (destruct Hq7 as [-> | -> ]; done).
  destruct (protocol.rp_Valid report); by rewrite A12.
Qed.

Lemma about_observed request report elapsed imports exports memory : about request report -> 0 <= elapsed ->
  about request (wasmcommand.set_observed report elapsed (Some imports) (Some exports) memory).
Proof. intros [] He. by split. Qed.
Lemma about_base request : about request (wasmcommand.baseReport request).
Proof. by split. Qed.
Lemma about_reject request report code reason message : about request report -> problem.Known code = true -> reason <> ""%string -> message <> ""%string ->
  about request (wasmcommand.reject report code reason message).
Proof. intros [] ???. by split. Qed.
Lemma about_accept request report reason message : about request report -> reason <> ""%string -> message <> ""%string ->
  about request (wasmcommand.set_verdict report true protocol.CodeOK reason message).
Proof. intros [] ??. by split. Qed.

(** The reasons that [ValidateCommand] gives. *)
Definition known_reason (reason : string) : Prop :=
  reason ∈ [wasmcommand.ReasonUnknownImport; wasmcommand.ReasonUnsupportedStartSection; wasmcommand.ReasonMissingStart; wasmcommand.ReasonInvalidStart].
Lemma known_reason_text reason : known_reason reason -> reason <> ""%string /\ wasmcommand.compatibilityMessage reason <> ""%string.
Proof.
  intros H. split; [intros ->; by apply (bool_decide_pack _) in H|]. unfold wasmcommand.compatibilityMessage. by repeat case_bool_decide.
Qed.
Lemma check_functions_reason wasi imports l reason : snd (wasmcommand.check_functions wasi imports l) = Some (wasmcommand.CompatibilityError reason) ->
  reason = wasmcommand.ReasonUnknownImport.
Proof.
  revert imports. induction l as [|d l IH]; intros imports; cbn [wasmcommand.check_functions]; [done|]. destruct (wasmcommand.fd_Import d) as [[m n] []]; cbn [negb]; [|done].
  destruct (wasi !! n) as [h|]; cbn beta iota; (destruct (negb _ || _ || _); [by intros [= <-]|apply IH]).
Qed.
Lemma ValidateCommand_reason guest wasi metadata reason : snd (wasmcommand.ValidateCommand guest wasi metadata) = Some (wasmcommand.CompatibilityError reason) -> known_reason reason.
Proof.
  assert (forall r, bool_decide (known_reason r) = true -> known_reason r) as Hk by (intros r; apply bool_decide_eq_true_1).
  unfold wasmcommand.ValidateCommand. destruct (wasmcommand.bm_HasStartSection metadata); [intros [= <-]; apply Hk; done|].
  destruct (negb _); [intros [= <-]; apply Hk; done|].
  destruct (wasmcommand.check_functions _ _ _) as [imports [err|]] eqn:Hc.
  { cbn [snd]. intros [= ->]. rewrite (check_functions_reason (wasmcommand.cm_ExportedFunctions wasi) [] (wasmcommand.cm_ImportedFunctions guest) reason); [apply Hk; done|by rewrite Hc]. }
  destruct (wasmcommand.cm_ImportedMemories guest) as [|d l]; [|destruct (wasmcommand.md_Import d) as [[? ?] ?]; intros [= <-]; apply Hk; done].
  destruct (wasmcommand.cm_ExportedFunctions guest !! "_start"%string) as [start|]; [|intros [= <-]; apply Hk; done].
  destruct (wasmcommand.fd_Import start) as [[? ?] imported]. cbn [snd]. destruct (_ || _ || _); [|done]. intros [= <-]. apply Hk; done.
Qed.

Lemma examine_about order request report wasi compiled pages wasm report' err : about request report ->
  wasmcommand.examine order report wasi compiled pages wasm = (report', err) -> err = None -> about request report'.
Proof.
  intros Ha. pose proof Ha as [_ _ _ _ _ [[i Hi] [x Hx]] He _ _]. unfold wasmcommand.examine. destruct (wasmcommand.InspectBinary wasm) as [metadata|e]; [|by intros [= <- <-]].
  pose proof (ValidateCommand_reason compiled wasi metadata) as Hr. destruct (wasmcommand.ValidateCommand compiled wasi metadata) as [imports compat]. cbn [snd] in Hr.
  destruct compat as [[reason|e]|]; intros [= <- <-] Hn; try done.
  - destruct (known_reason_text reason (Hr _ eq_refl)) as [H1 H2]. rewrite Hx. apply about_reject; [by apply about_observed|done|done|done].
  - apply about_accept; [|done|done]. rewrite Hx. cbn [wasmcommand.set_observed protocol.rp_CompileNanoseconds]. apply about_observed; [by apply about_observed|done].
Qed.

(** C24: The validator and the Workers admit the same modules.  For a request
    that asks for no capability and names a supported profile, on the same
    runtime and the same WASI host build: the validator reports a module as
    valid exactly when [Engine.Compile] accepts its bytes, and that is when the
    runtime compiles it, it has no start section, its declared imports are
    exactly functions of the host profile with their types, it imports no
    memory, and it exports a [_start] of its own with no parameters and no
    results.  A report that is returned without an error is about the request
    and passes the checks that the caller applies. *)
Theorem validator_and_worker_agree (e : Engine) (rt : wasmcommand.Runtime) order request wasm closed report err :
  wasmcommand.rt_wasi rt = Ok (en_wasi e) -> 0 <= wasmcommand.rt_elapsed rt -> protocol.Request_Validate request = Ok tt ->
  protocol.rq_RequestedCapabilities request = Some [] -> wasmcommand.Validate rt order request wasm = (report, err) ->
  (protocol.rp_Valid report = true <-> is_ok (check_module e wasm (wasmcommand.rt_CompileModule rt wasm) closed) = true) /\
  (protocol.rp_Valid report = true <->
     exists compiled, wasmcommand.rt_CompileModule rt wasm = Ok compiled /\ wasmcommand.compatible (en_wasi e) compiled wasm) /\
  (err = None -> about request report /\ protocol.Report_Validate report = Ok tt).
Proof.
  intros Hw He Hq Hc Hv.
  assert ((protocol.rp_Valid report = true <->
     exists compiled, wasmcommand.rt_CompileModule rt wasm = Ok compiled /\ wasmcommand.compatible (en_wasi e) compiled wasm) /\
    (err = None -> about request report)) as [Hval Hab].
  2:{ split_and!; [|done|intros Hn; split; [by apply Hab|]; by eapply about_Validate; [|apply Hab]]. rewrite Hval, is_ok_true. by setoid_rewrite check_module_Ok. }
  assert (exists p, wasmprofile.New (protocol.rq_RuntimeEngine request) (protocol.rq_MemoryLimitMiB request) = Ok p) as [p Hp].
  { unfold protocol.Request_Validate in Hq. ok_inv. unfold wasmprofile.New.
    match goal with H : wasmprofile.ValidMemoryTier _ = true |- _ => rewrite H end.
    match goal with H : _ = wasmprofile.EngineCompiler \/ _ |- _ => destruct H as [-> | -> ] end; by eexists. }
  unfold wasmcommand.Validate in Hv. rewrite Hc, Hp, Hw in Hv. cbn [default] in Hv. change (negb (len [] =? 0)) with false in Hv. cbn iota in Hv.
  assert (about request (wasmcommand.set_observed (wasmcommand.baseReport request) (wasmcommand.rt_elapsed rt) (Some []) (Some [])
    (protocol.rp_Memory (wasmcommand.baseReport request)))) as Ha by (apply about_observed; [apply about_base|done]).
  destruct (wasmcommand.rt_CompileModule rt wasm) as [compiled|cerr].
  2:{ injection Hv as <- <-. split; [|intros _; by apply about_reject]. split; [done|]. by intros (? & ? & _). }
  destruct (wasmcommand.examine _ _ _ _ _ _) as [report1 err1] eqn:Hx in Hv. injection Hv as <- <-. split.
  - apply wasmcommand.examine_accepts in Hx as [Hx _]; [|done]. rewrite Hx. naive_solver.
  - intros Hn. eapply examine_about; [exact Ha|exact Hx|]. destruct err1; [|done].
    by destruct (wasmcommand.rt_moduleClose rt), (wasmcommand.rt_wasiClose rt), (wasmcommand.rt_Close rt).
Qed.


(** ** Witnesses *)
Definition ex_config : Config :=
  {| cf_Engine := ""; cf_MemoryLimitMiB := 0; cf_DefaultTimeout := 0; cf_MaxTimeout := 0; cf_MaxConcurrent := 0; cf_MaxQueue := 0; cf_MaxConcurrentPerProgram := 0;
     cf_MaxQueuePerProgram := 0; cf_MaxLogBytes := 8; cf_MaxLogLineBytes := 4; cf_ABILimits := abi.ex_limits |}.
Definition ex_function (module name : string) (imported : bool) (params : list Z) : wasmcommand.FunctionDefinition :=
  {| wasmcommand.fd_Import := (module, name, imported); wasmcommand.fd_ParamTypes := params; wasmcommand.fd_ResultTypes := [] |}.
Definition ex_wasi : wasmcommand.CompiledModule :=
  {| wasmcommand.cm_ImportedFunctions := []; wasmcommand.cm_ImportedMemories := [];
     wasmcommand.cm_ExportedFunctions := {["proc_exit"%string := ex_function "" "" false [127]]}; wasmcommand.cm_ExportedMemories := ∅ |}.
Definition ex_guest : wasmcommand.CompiledModule :=
  {| wasmcommand.cm_ImportedFunctions := [ex_function wasmcommand.wasi_ModuleName "proc_exit" true [127]]; wasmcommand.cm_ImportedMemories := [];
     wasmcommand.cm_ExportedFunctions := {["_start"%string := ex_function "" "" false []]}; wasmcommand.cm_ExportedMemories := ∅ |}.
Definition ex_engine : Engine :=
  {| en_profile := {| wasmprofile.p_Engine := "compiler"; wasmprofile.p_MemoryLimitMiB := 128 |}; en_wasi := ex_wasi; en_defaultTimeout := DefaultTimeout;
     en_maxTimeout := DefaultMaxTimeout; en_abiLimits := abi.defaults; en_maxLogBytes := 8; en_maxLogLineBytes := 4; en_maxConcurrent := 4; en_maxQueue := 64;
     en_programConcurrency := 2; en_programQueue := 16 |}.
Definition ex_policy : InvocationPolicy :=
  {| agent.ip_Timeout := 0; agent.ip_RequestLimits := abi.ex_limits; agent.ip_ResponseLimits := abi.ex_limits; agent.ip_MaxLogBytes := 0; agent.ip_MaxLogLineBytes := 0 |}.
Definition ex_in_force : InvocationPolicy :=
  {| agent.ip_Timeout := DefaultTimeout; agent.ip_RequestLimits := abi.defaults; agent.ip_ResponseLimits := abi.defaults; agent.ip_MaxLogBytes := 8; agent.ip_MaxLogLineBytes := 4 |}.
Definition ex_behaviour (answer : string) : behaviour :=
  {| gb_instantiateWrites := []; gb_instantiateErr := None; gb_instantiateTime := 1; gb_hasStart := true;
     gb_writes := [(Stderr, "tracing"); (Stdout, answer); (Stderr, json.str_of [10; 111; 107])]; gb_ending := Exited 0; gb_executeTime := 2; gb_closeErr := None;
     gb_expired := false |}.

Lemma instance_contained_witness :
  New true ex_config (Ok ex_wasi) None None None = Ok ex_engine /\ normalizeInvocationPolicy ex_engine ex_policy = Ok ex_in_force /\
  let out := run_instance ex_in_force "GET" zero_Result (ex_behaviour (json.Marshal (abi.responseWire abidec.ex_response))) in
  snd out = None /\ rs_Response (fst out) = abidec.ex_response /\ rs_GuestLog (fst out) = codes "trac" ++ [10; 111; 107] /\ rs_DroppedLogBytes (fst out) = 3 /\
  len (rs_GuestLog (fst out)) <= 8.
Proof.
  assert (New true ex_config (Ok ex_wasi) None None None = Ok ex_engine) as Hn by (vm_compute; exact eq_refl).
  assert (normalizeInvocationPolicy ex_engine ex_policy = Ok ex_in_force) as Hp by (vm_compute; exact eq_refl).
  split; [exact Hn|]. split; [exact Hp|]. split; [vm_compute; exact eq_refl|]. split; [vm_compute; exact eq_refl|]. split; [vm_compute; exact eq_refl|].
  split; [vm_compute; exact eq_refl|].
  destruct (run_instance ex_in_force "GET" zero_Result (ex_behaviour (json.Marshal (abi.responseWire abidec.ex_response)))) as [res' err] eqn:Hr.
  apply (instance_contained ex_engine ex_policy ex_in_force "GET" zero_Result _ res' err (New_engine_ok _ _ _ _ _ _ _ Hn) Hp Hr).
Defined.

Definition ex_wasm : list Z := [0; 97; 115; 109; 1; 0; 0; 0] ++ concat (map wasmcommand.encode_section [wasmcommand.Other 1 [1; 96; 0; 0]; wasmcommand.Imports 1 [0]]).
Definition ex_request : protocol.Request :=
  {| protocol.rq_SchemaVersion := protocol.SchemaVersion; protocol.rq_ValidationID := "val_1"; protocol.rq_ArtifactDigest := digest.Sum "";
     protocol.rq_ArtifactSize := 18; protocol.rq_ABI := ABIWASICommandV1; protocol.rq_HostAPIProfile := HostAPIProfileNone;
     protocol.rq_RuntimeFeatureProfile := wasmprofile.FeatureProfile; protocol.rq_RuntimeEngine := wasmprofile.EngineCompiler; protocol.rq_MemoryLimitMiB := 64;
     protocol.rq_RequestedCapabilities := Some [] |}.
Definition ex_runtime : wasmcommand.Runtime :=
  {| wasmcommand.rt_wasi := Ok ex_wasi; wasmcommand.rt_CompileModule := fun _ => Ok ex_guest; wasmcommand.rt_elapsed := 5; wasmcommand.rt_Close := None;
     wasmcommand.rt_wasiClose := None; wasmcommand.rt_moduleClose := None |}.
Lemma validator_and_worker_agree_witness :
  protocol.rp_Valid (fst (wasmcommand.Validate ex_runtime (fun _ => ["_start"%string]) ex_request ex_wasm)) = true /\
  is_ok (check_module ex_engine ex_wasm (Ok ex_guest) None) = true /\
  is_ok (check_module ex_engine (ex_wasm ++ wasmcommand.encode_section (wasmcommand.Start [0])) (Ok ex_guest) None) = false.
Proof.
  destruct (wasmcommand.Validate ex_runtime (fun _ => ["_start"%string]) ex_request ex_wasm) as [report err] eqn:Hv. cbn [fst].
  assert (protocol.rp_Valid report = true) as Hr.
  { change report with (fst (report, err)). rewrite <-Hv. vm_compute. exact eq_refl. }
  split; [exact Hr|]. split; [|vm_compute; exact eq_refl].
  apply (validator_and_worker_agree ex_engine ex_runtime (fun _ => ["_start"%string]) ex_request ex_wasm None report err); [exact eq_refl|discriminate| |exact eq_refl|exact Hv|exact Hr].
  vm_compute. exact eq_refl.
Defined.

End wasmexec.
