(* ===== verification/WasmRuntime.v ===== *)
(** * Package [internal/wasmexec]: an Engine and its Programs at work

    Invocations, compilations and closes run concurrently.  An Engine and each
    of its Programs own a limiter and a lifecycle; they are shared objects in a
    heap, the Engine at address zero.  A goroutine stands between two lock
    regions or channel operations and has a list of deferred calls.  What the
    environment decides (clocks, contexts, stop channels, the callbacks of an
    acceptance, the runtime) is an input of the step. *)
From stdpp Require Import base gmap strings list.
From S2P Require Import Prelude Problem Digest Json Model Net Abi Rpc JsonDecode StrictJson AbiDecode ValidatorProtocol WorkerAgent WorkerServing WasmProfile WasmExec.
Import problem model wasmexec.

#[local] Open Scope Z_scope.

Module wasmruntime.

Record owner := { ow_limiter : limiter; ow_lifecycle : lifecycle }.
Definition set_limiter (ow : owner) (l : limiter) : owner := {| ow_limiter := l; ow_lifecycle := ow_lifecycle ow |}.
Definition set_lifecycle (ow : owner) (l : lifecycle) : owner := {| ow_limiter := ow_limiter ow; ow_lifecycle := l |}.
Definition new_owner (concurrent queued : Z) : owner := {| ow_limiter := newLimiter concurrent queued; ow_lifecycle := newLifecycle |}.

(** What is deferred: [lifecycle.end], [limiter.release], the release function
    of the admission. *)
Inductive deferred := DEnd (o : nat) | DRelease (o : nat) | DAdmission.

(** [InvocationAcceptance]: which callbacks are given. *)
Record Acceptance := { ac_Acquire : bool; ac_Check : bool }.
(** The arguments of an invocation; the context is its deadline. *)
Record call := {
  ca_program : nat;
  ca_deadline : option Time;
  ca_request : abi.Request;
  ca_policy : agent.InvocationPolicy;
  ca_acceptance : option Acceptance;
}.
(** An invocation that is prepared: the policy in force, its deadline, and the
    bytes of stdin. *)
Record prepared := { pd_call : call; pd_policy : agent.InvocationPolicy; pd_deadline : Time; pd_stdin : string }.

Inductive outcome :=
| Invoked (res : Result) (err : option error)
| Compiled (program : result nat) (metrics : Metrics)
| Closed (err : option error).

Inductive pc :=
| InvokeEngine (c : call)
| InvokeProgram (c : call)
| Preparing (c : call)
| ProgramSlot (p : prepared) (a : acquiring)
| Admission (p : prepared)
| EngineSlot (p : prepared) (a : acquiring)
| Accepting (p : prepared)
| Running (p : prepared) (res : Result)
| CompileEngine (wasm : list Z)
| Compiling (wasm : list Z)
| CloseProgram (o : nat)
| CloseEnter (o : nat)
| AwaitRelease (o : nat) (releaseDone : option nat)
| AwaitDrained (o : nat) (drained : nat)
| CloseClaim (o : nat)
| Releasing (o : nat) (releaseDone : nat)
| Leaving (out : outcome).

Record thread := { th_at : pc; th_defers : list deferred }.
Record World := { w_engine : Engine; w_owners : list owner; w_threads : list thread }.

(** [Stuck]: the step is not enabled. *)
Inductive stepped := Next (w : World) | Stuck | Panic.

Definition put (w : World) (tid : nat) (t : thread) (owners : list owner) : stepped :=
  Next {| w_engine := w_engine w; w_owners := owners; w_threads := <[tid := t]> (w_threads w) |}.
Definition spawn (w : World) (at_ : pc) : stepped :=
  Next {| w_engine := w_engine w; w_owners := w_owners w; w_threads := w_threads w ++ [{| th_at := at_; th_defers := [] |}] |}.
Definition goto (at_ : pc) (t : thread) : thread := {| th_at := at_; th_defers := th_defers t |}.
Definition defer (d : deferred) (at_ : pc) (t : thread) : thread := {| th_at := at_; th_defers := d :: th_defers t |}.

(** [return Result{}, err] *)
Definition refuse (err : error) : pc := Leaving (Invoked zero_Result (Some err)).

Definition with_owner (w : World) (o : nat) (k : owner -> stepped) : stepped :=
  match w_owners w !! o with Some ow => k ow | None => Stuck end.

(** [lifecycle.begin], with [end] deferred. *)
Definition step_begin (w : World) (tid : nat) (t : thread) (o : nat) (next refused : pc) : stepped :=
  with_owner w o (fun ow =>
    let '(l, ok) := begin (ow_lifecycle ow) in
    put w tid (if ok then defer (DEnd o) next t else goto refused t) (<[o := set_lifecycle ow l]> (w_owners w))).

(** A step of [limiter.acquire], with [release] deferred. *)
Definition step_acquire (w : World) (tid : nat) (t : thread) (o : nat) (here : acquiring -> pc) (next : pc) (a : acquiring) (c : choice) (stopped : bool) : stepped :=
  with_owner w o (fun ow =>
    match acquire (ow_limiter ow) stopped a c with
    | None => Stuck
    | Some (l, r) =>
      let owners := <[o := set_limiter ow l]> (w_owners w) in
      match r with
      | Continue a' => put w tid (goto (here a') t) owners
      | Acquired => put w tid (defer (DRelease o) next t) owners
      | Refused err => put w tid (goto (refuse err) t) owners
      end
    end).

(** The deferred calls, the last one first. *)
Definition step_deferred (w : World) (tid : nat) (t : thread) : stepped :=
  match th_defers t with
  | [] => Stuck
  | d :: defers =>
    let t := {| th_at := th_at t; th_defers := defers |} in
    match d with
    | DAdmission => put w tid t (w_owners w)
    | DEnd o => with_owner w o (fun ow =>
        match finish (ow_lifecycle ow) with Some l => put w tid t (<[o := set_lifecycle ow l]> (w_owners w)) | None => Panic end)
    | DRelease o => with_owner w o (fun ow =>
        match limiter_release (ow_limiter ow) with Some l => put w tid t (<[o := set_limiter ow l]> (w_owners w)) | None => Stuck end)
    end
  end.

(** [request.DeadlineUnixMS = deadline.UnixMilli()] *)
Definition with_deadline (r : abi.Request) (deadline : Time) : abi.Request :=
  {| abi.rq_SpecVersion := abi.rq_SpecVersion r; abi.rq_InvocationID := abi.rq_InvocationID r; abi.rq_Method := abi.rq_Method r; abi.rq_Path := abi.rq_Path r;
     abi.rq_Query := abi.rq_Query r; abi.rq_Headers := abi.rq_Headers r; abi.rq_Body := abi.rq_Body r; abi.rq_DeadlineUnixMS := time_UnixMilli deadline;
     abi.rq_Trigger := abi.rq_Trigger r |}.
Definition prepare (e : Engine) (c : call) (now : Time) : result prepared :=
  policy <- normalizeInvocationPolicy e (ca_policy c) ;;
  let deadline := isolatedContext (ca_deadline c) now (agent.ip_Timeout policy) in
  let '(stdin, encoded) := abi.EncodeRequest abi.buffer_Write (with_deadline (ca_request c) deadline) (agent.ip_RequestLimits policy) [] in
  replace_err (invocationError CodeInvalidArgument "invalid invocation request") encoded ;;;
  Ok {| pd_call := c; pd_policy := policy; pd_deadline := deadline; pd_stdin := foldr String.append ""%string stdin |}.

(** The end of the Engine permit: the queueing time, the deadline, the stop
    channels and [acceptance.Check]. *)
Definition accept (p : prepared) (queued : Z) (expired stopped : bool) (check : option error) : pc :=
  let res := {| rs_Response := rs_Response zero_Result; rs_GuestLog := []; rs_DroppedLogBytes := 0;
                rs_Metrics := {| mt_Queue := queued; mt_Compile := 0; mt_Instantiate := 0; mt_Execute := 0 |} |} in
  if expired then refuse queueTimeout
  else match ca_acceptance (pd_call p) with
  | None => Running p res
  | Some _ =>
    if stopped then refuse queueStopped
    else match check with Some err => Leaving (Invoked res (Some err)) | None => Running p res end
  end.

(** The error of [Program.Close] and [Engine.Close]. *)
Definition close_error (o : nat) (err : option error) : option error :=
  match err with
  | Some err => Some (WrapError (if Nat.eqb o 0 then "closing wasm runtime" else "closing compiled wasm program")%string err)
  | None => None
  end.
Definition closed (o : nat) (err : option error) : pc := Leaving (Closed (close_error o err)).

(** What the environment decides of a step. *)
Inductive input :=
| Go
| Now (now : Time)
| Choose (c : choice) (stopped : bool)
| Granted (release : result bool)
| Checked (queued : Z) (expired stopped : bool) (check : option error)
| Behaves (b : behaviour)
| Compiles (compiled : result wasmcommand.CompiledModule) (closed : option error) (elapsed : Z)
| Cancelled (err : error)
| Released (err : option error).

Definition step_thread (w : World) (tid : nat) (i : input) : stepped :=
  match w_threads w !! tid with
  | None => Stuck
  | Some t =>
    let to at_ := put w tid (goto at_ t) (w_owners w) in
    match th_at t, i with
    | InvokeEngine c, Go => step_begin w tid t 0 (InvokeProgram c) (refuse (PlainError "wasmexec engine is closed"))
    | InvokeProgram c, Go => step_begin w tid t (ca_program c) (Preparing c) (refuse (PlainError "wasmexec program is closed"))
    | Preparing c, Now now =>
      match prepare (w_engine w) c now with Ok p => to (ProgramSlot p Arriving) | Err err => to (refuse err) end
    | ProgramSlot p a, Choose c stopped => step_acquire w tid t (ca_program (pd_call p)) (ProgramSlot p) (Admission p) a c stopped
    | Admission p, Granted release =>
      match ca_acceptance (pd_call p) with
      | Some {| ac_Acquire := true |} =>
        match release with
        | Err err => to (refuse err)
        | Ok false => to (refuse (PlainError "wasmexec invocation admission release is required"))
        | Ok true => put w tid (defer DAdmission (EngineSlot p Arriving) t) (w_owners w)
        end
      | _ => to (EngineSlot p Arriving)
      end
    | EngineSlot p a, Choose c stopped => step_acquire w tid t 0 (EngineSlot p) (Accepting p) a c stopped
    | Accepting p, Checked queued expired stopped check => to (accept p queued expired stopped check)
    | Running p res, Behaves b =>
      let '(res, err) := run_instance (pd_policy p) (abi.rq_Method (ca_request (pd_call p))) res b in to (Leaving (Invoked res err))
    | CompileEngine wasm, Go =>
      step_begin w tid t 0 (Compiling wasm) (Leaving (Compiled (Err (PlainError "wasmexec engine is closed")) no_metrics))
    | Compiling wasm, Compiles compiled closed elapsed =>
      let metrics := {| mt_Queue := 0; mt_Compile := elapsed; mt_Instantiate := 0; mt_Execute := 0 |} in
      match check_module (w_engine w) wasm compiled closed with
      | Err err => to (Leaving (Compiled (Err err) metrics))
      | Ok _ => put w tid (goto (Leaving (Compiled (Ok (length (w_owners w))) metrics)) t)
                  (w_owners w ++ [new_owner (en_programConcurrency (w_engine w)) (en_programQueue (w_engine w))])
      end
    | CloseProgram o, Go => step_begin w tid t 0 (CloseEnter o) (Leaving (Closed (Some (PlainError "wasmexec engine is closed"))))
    | CloseEnter o, Go => with_owner w o (fun ow =>
        let '(l, found) := close_enter (ow_lifecycle ow) in
        put w tid (goto match found with AlreadyClosed err => closed o err | ReleaseRuns ch => AwaitRelease o ch | Drains ch => AwaitDrained o ch end t)
          (<[o := set_lifecycle ow l]> (w_owners w)))
    | AwaitRelease o ch, Go => with_owner w o (fun ow =>
        match ch with
        | Some ch => if bool_decide (lc_channels (ow_lifecycle ow) !! ch = Some true) then to (CloseEnter o) else Stuck
        | None => Stuck
        end)
    | AwaitDrained o ch, Go => with_owner w o (fun ow =>
        if bool_decide (lc_channels (ow_lifecycle ow) !! ch = Some true) then to (CloseClaim o) else Stuck)
    | (AwaitRelease o _ | AwaitDrained o _), Cancelled err => to (closed o (Some err))
    | CloseClaim o, Go => with_owner w o (fun ow =>
        let '(l, claimed) := close_claim (ow_lifecycle ow) in
        put w tid (goto match claimed with Some ch => Releasing o ch | None => CloseEnter o end t) (<[o := set_lifecycle ow l]> (w_owners w)))
    | Releasing o ch, Released err => with_owner w o (fun ow =>
        match close_settle ch err (ow_lifecycle ow) with
        | Some l => put w tid (goto (closed o err) t) (<[o := set_lifecycle ow l]> (w_owners w))
        | None => Panic
        end)
    | Leaving _, Go => step_deferred w tid t
    | _, _ => Stuck
    end
  end.

(** A call from outside, with its checks before the first lock, or a step. *)
Inductive event :=
| Invoke (c : call)
| Compile (wasm : list Z)
| ProgramClose (o : nat)
| EngineClose
| Step (tid : nat) (i : input).

(** [Invoke], [InvokeWithPolicy] and [InvokeWithAcceptance]. *)
Definition start_invoke (c : call) : pc :=
  match ca_acceptance c with
  | Some {| ac_Check := false |} => refuse (PlainError "wasmexec invocation acceptance is required")
  | _ => InvokeEngine c
  end.
Definition start_compile (wasm : list Z) : pc :=
  if len wasm =? 0 then Leaving (Compiled (Err (PlainError "wasmexec module is required")) no_metrics) else CompileEngine wasm.

(** Callers only have the Programs that [Compile] gave them. *)
Definition is_program (w : World) (o : nat) : bool := negb (Nat.eqb o 0) && Nat.ltb o (length (w_owners w)).

Definition step (w : World) (ev : event) : stepped :=
  match ev with
  | Invoke c => if is_program w (ca_program c) then spawn w (start_invoke c) else Stuck
  | Compile wasm => spawn w (start_compile wasm)
  | ProgramClose o => if is_program w o then spawn w (CloseProgram o) else Stuck
  | EngineClose => spawn w (CloseEnter 0)
  | Step tid i => step_thread w tid i
  end.

Definition init (e : Engine) : World :=
  {| w_engine := e; w_owners := [new_owner (en_maxConcurrent e) (en_maxQueue e)]; w_threads := [] |}.

Inductive reachable (e : Engine) : World -> Prop :=
| reach_init : reachable e (init e)
| reach_step w ev w' : reachable e w -> step w ev = Next w' -> reachable e w'.


(** ** The invariant

    Every count in a limiter or lifecycle is what the goroutines account
    for. *)
Definition d_ends (o : nat) (d : deferred) : Z := match d with DEnd o' => hits o o' | _ => 0 end.
Definition d_slots (o : nat) (d : deferred) : Z := match d with DRelease o' => hits o o' | _ => 0 end.
Definition acquires (at_ : pc) : option (nat * acquiring) :=
  match at_ with
  | ProgramSlot p a => Some (ca_program (pd_call p), a)
  | EngineSlot _ a => Some (0%nat, a)
  | _ => None
  end.
Definition at_slots (o : nat) (at_ : pc) : Z := match acquires at_ with Some (o', Dequeuing None) => hits o o' | _ => 0 end.
Definition at_queue (o : nat) (at_ : pc) : Z := match acquires at_ with Some (o', (Waiting | Dequeuing _)) => hits o o' | _ => 0 end.
Definition at_release (o : nat) (at_ : pc) : Z := match at_ with Releasing o' _ => hits o o' | _ => 0 end.

Definition ends (o : nat) (t : thread) : Z := tally (d_ends o) (th_defers t).
Definition slots (o : nat) (t : thread) : Z := tally (d_slots o) (th_defers t) + at_slots o (th_at t).
Definition queued (o : nat) (t : thread) : Z := at_queue o (th_at t).
Definition releases (o : nat) (t : thread) : Z := at_release o (th_at t).

(** What a closer of [o] relies on between its lock regions. *)
Definition closer (o : nat) (l : lifecycle) (at_ : pc) : Prop :=
  match at_ with
  | AwaitDrained o' ch => o' = o -> lc_closing l = true /\ ch = lc_drained l
  | CloseClaim o' => o' = o -> lc_closing l = true /\ lc_active l = 0
  | Releasing o' ch => o' = o -> lc_releasing l = true /\ lc_releaseDone l = Some ch
  | _ => True
  end.

Record lifecycle_ok (ts : list thread) (o : nat) (l : lifecycle) : Prop := {
  lo_active : lc_active l = tally (ends o) ts;
  lo_releasing : b2z (lc_releasing l) = tally (releases o) ts;
  lo_drained : lc_channels l !! lc_drained l = Some (lc_active l =? 0);
  lo_quiet : lc_closed l || lc_releasing l = true -> lc_closing l = true /\ lc_active l = 0;
  lo_done : lc_releasing l = true -> exists ch, lc_releaseDone l = Some ch /\ lc_channels l !! ch = Some false /\ ch <> lc_drained l;
  lo_closers : forall t, t ∈ ts -> closer o l (th_at t);
}.
Record limiter_ok (concurrent capacity : Z) (ts : list thread) (o : nat) (l : limiter) : Prop := {
  li_capacity : lm_concurrent l = concurrent /\ lm_queued l = capacity;
  li_slots : lm_slots l = tally (slots o) ts /\ lm_slots l <= concurrent;
  li_queue : lm_queue l = tally (queued o) ts /\ lm_queue l <= capacity;
}.
Definition capacity_of (e : Engine) (o : nat) : Z * Z :=
  if Nat.eqb o 0 then (en_maxConcurrent e, en_maxQueue e) else (en_programConcurrency e, en_programQueue e).
Definition owner_ok (e : Engine) (ts : list thread) (o : nat) (ow : owner) : Prop :=
  limiter_ok (fst (capacity_of e o)) (snd (capacity_of e o)) ts o (ow_limiter ow) /\ lifecycle_ok ts o (ow_lifecycle ow).

(** The deferred calls that belong to a place, and its addresses. *)
Definition program_ok (n o : nat) : Prop := o <> 0%nat /\ (o < n)%nat.
Definition admission (ds : list deferred) : Prop := ds = [] \/ ds = [DAdmission].
Definition address (n : nat) (d : deferred) : Prop := match d with DEnd o | DRelease o => (o < n)%nat | DAdmission => True end.
Definition call_ok (n : nat) (c : call) : Prop := program_ok n (ca_program c).
Definition begun (c : call) : list deferred := [DEnd (ca_program c); DEnd 0].
Definition closing_ok (n o : nat) (ds : list deferred) : Prop := (o < n)%nat /\ ds = if Nat.eqb o 0 then [] else [DEnd 0].
Definition thread_ok (n : nat) (t : thread) : Prop :=
  let ds := th_defers t in
  match th_at t with
  | InvokeEngine c => call_ok n c /\ ds = []
  | InvokeProgram c => call_ok n c /\ ds = [DEnd 0]
  | Preparing c => call_ok n c /\ ds = begun c
  | ProgramSlot p _ => call_ok n (pd_call p) /\ ds = begun (pd_call p)
  | Admission p => call_ok n (pd_call p) /\ ds = DRelease (ca_program (pd_call p)) :: begun (pd_call p)
  | EngineSlot p _ => call_ok n (pd_call p) /\ exists a, admission a /\ ds = a ++ DRelease (ca_program (pd_call p)) :: begun (pd_call p)
  | Accepting p | Running p _ => call_ok n (pd_call p) /\ exists a, admission a /\ ds = DRelease 0 :: a ++ DRelease (ca_program (pd_call p)) :: begun (pd_call p)
  | CompileEngine _ => ds = []
  | Compiling _ => ds = [DEnd 0]
  | CloseProgram o => program_ok n o /\ ds = []
  | CloseEnter o | AwaitRelease o _ | AwaitDrained o _ | CloseClaim o | Releasing o _ => closing_ok n o ds
  | Leaving _ => Forall (address n) ds
  end.

Record inv (w : World) : Prop := {
  iv_engine : (0 < length (w_owners w))%nat;
  iv_owners : forall o ow, w_owners w !! o = Some ow -> owner_ok (w_engine w) (w_threads w) o ow;
  iv_threads : Forall (thread_ok (length (w_owners w))) (w_threads w);
}.

Lemma d_ends_nonneg o d : 0 <= d_ends o d.
Proof. destruct d; simpl; try lia. apply hits_nonneg. Qed.
Lemma d_slots_nonneg o d : 0 <= d_slots o d.
Proof. destruct d; simpl; try lia. apply hits_nonneg. Qed.
Lemma ends_nonneg o t : 0 <= ends o t.
Proof. apply tally_nonneg, d_ends_nonneg. Qed.
Lemma at_slots_nonneg o a : 0 <= at_slots o a.
Proof. unfold at_slots. destruct (acquires a) as [[o' [| | | |[|]]]|]; try lia. apply hits_nonneg. Qed.
Lemma slots_nonneg o t : 0 <= slots o t.
Proof. unfold slots. pose proof (tally_nonneg (d_slots o) (d_slots_nonneg o) (th_defers t)). pose proof (at_slots_nonneg o (th_at t)). lia. Qed.
Lemma queued_nonneg o t : 0 <= queued o t.
Proof. unfold queued, at_queue. destruct (acquires (th_at t)) as [[o' []]|]; try lia; apply hits_nonneg. Qed.
Lemma releasing_nonneg o t : 0 <= releases o t.
Proof. unfold releases, at_release. destruct (th_at t); try lia. apply hits_nonneg. Qed.

Lemma inv_init e : engine_ok e -> inv (init e).
Proof.
  intros He. unfold engine_ok in He. split; [simpl; lia| |by apply Forall_nil].
  intros [|o] ow; [|done]. intros [= <-]. split; split; try done; simpl; try lia. by intros t ?%not_elem_of_nil.
Qed.

(** ** Goroutines that count the same *)
Section transport.
Context (ts : list thread) (tid : nat) (t t' : thread).
Hypothesis Ht : ts !! tid = Some t.

Lemma in_insert x : x ∈ <[tid := t']> ts -> x = t' \/ x ∈ ts.
Proof.
  intros (i & Hi)%list_elem_of_lookup. apply list_lookup_insert_Some in Hi as [(_ & -> & _)|[_ Hi]]; [by left|right]. by eapply list_elem_of_lookup_2.
Qed.
Lemma limiter_ok_same c q o l : slots o t' = slots o t -> queued o t' = queued o t -> limiter_ok c q ts o l -> limiter_ok c q (<[tid := t']> ts) o l.
Proof. intros Hs Hq [H1 H2 H3]. split; [done| |]; erewrite tally_insert by done; lia. Qed.
Lemma limiter_ok_moved c q o l ds dq : limiter_ok c q ts o l -> slots o t' = slots o t + ds -> queued o t' = queued o t + dq ->
  lm_slots l + ds <= c -> lm_queue l + dq <= q -> limiter_ok c q (<[tid := t']> ts) o (move_tokens l ds dq).
Proof. intros [H1 H2 H3] Hs Hq Hls Hlq. split; cbn [move_tokens lm_concurrent lm_queued lm_slots lm_queue]; [done| |]; erewrite tally_insert by done; lia. Qed.
Lemma lifecycle_ok_same o l : ends o t' = ends o t -> releases o t' = releases o t -> closer o l (th_at t') -> lifecycle_ok ts o l ->
  lifecycle_ok (<[tid := t']> ts) o l.
Proof.
  intros He Hr Hc [H1 H2 H3 H4 H5 H6]. split; try done; [erewrite tally_insert by done; lia|erewrite tally_insert by done; lia|].
  intros x [->|Hx]%in_insert; [done|]. by apply H6.
Qed.
End transport.


(** ** The lock regions *)
Section regions.
Context (ts : list thread) (tid : nat) (t t' : thread).
Hypothesis Ht : ts !! tid = Some t.
#[local] Abbreviation ts' := (<[tid := t']> ts).

Lemma operations_nonneg o l : lifecycle_ok ts o l -> 0 <= lc_active l.
Proof. intros H. rewrite (lo_active _ _ _ H). apply tally_nonneg, ends_nonneg. Qed.
Lemma member_ends o l : lifecycle_ok ts o l -> ends o t <= lc_active l.
Proof. intros H. rewrite (lo_active _ _ _ H). apply tally_member; [apply ends_nonneg|]. by eapply list_elem_of_lookup_2. Qed.
Lemma own_closer o l : lifecycle_ok ts o l -> closer o l (th_at t).
Proof. intros H. apply (lo_closers _ _ _ H). by eapply list_elem_of_lookup_2. Qed.

Lemma begin_refused o l l' : lifecycle_ok ts o l -> begin l = (l', false) -> l' = l.
Proof. intros _. unfold begin. destruct (_ || _); [by intros [= <-]|]. by destruct (_ =? _). Qed.
Lemma begin_ok o l l' : lifecycle_ok ts o l -> begin l = (l', true) ->
  ends o t' = ends o t + 1 -> releases o t' = releases o t -> (forall l, closer o l (th_at t')) -> lifecycle_ok ts' o l'.
Proof.
  intros H Hb He Hr Hc. pose proof (operations_nonneg o l H) as Hn. destruct H as [H1 H2 H3 H4 H5 H6]. unfold begin in Hb.
  destruct (lc_closing l) eqn:Ecl; [done|]. destruct (lc_closed l) eqn:Ec; [done|]. cbn [orb] in *.
  destruct (lc_releasing l) eqn:Er; [destruct H4; done|].
  assert (forall x, x ∈ ts' -> closer o l' (th_at x)) as Hcl.
  { intros x [->|Hx]%(in_insert ts tid t'); [apply Hc|]. specialize (H6 x Hx). unfold closer in *. destruct (th_at x); try done; intros Ho; destruct (H6 Ho); congruence. }
  destruct (Z.eqb_spec (lc_active l) 0) as [Ez|Ez]; injection Hb as <-; split; cbn [set_active lc_active lc_closing lc_closed lc_releasing lc_drained lc_releaseDone lc_channels];
    rewrite ?Ec, ?Er, ?Ecl; try done; try (erewrite tally_insert by done; rewrite ?Er in *; lia).
  - rewrite lookup_app_r, Nat.sub_diag by lia. simpl. f_equal. symmetry. apply Z.eqb_neq. lia.
  - rewrite H3. f_equal. rewrite (proj2 (Z.eqb_neq (lc_active l + 1) 0)) by lia. done.
Qed.

Lemma finish_ok o l : lifecycle_ok ts o l -> ends o t' = ends o t - 1 -> 1 <= ends o t -> releases o t' = releases o t -> (forall l, closer o l (th_at t')) ->
  exists l', finish l = Some l' /\ lifecycle_ok ts' o l'.
Proof.
  intros H He H1e Hr Hc. pose proof (member_ends o l H) as Hm. destruct H as [H1 H2 H3 H4 H5 H6].
  destruct (lc_closed l || lc_releasing l) eqn:Eq; [destruct H4; [done|lia]|]. apply orb_false_iff in Eq as [Ec Er].
  assert (forall active drained channels x, x ∈ ts' -> drained = lc_drained l -> closer o (set_active l active drained channels) (th_at x)) as Hcl.
  { intros active drained channels x [->|Hx]%(in_insert ts tid t') ->; [apply Hc|]. specialize (H6 x Hx). unfold closer in *. destruct (th_at x); try done; intros Ho; destruct (H6 Ho); (lia || congruence). }
  rewrite (proj2 (Z.eqb_neq (lc_active l) 0)) in H3 by lia. unfold finish. destruct (Z.eqb_spec (lc_active l - 1) 0) as [Ez|Ez].
  - unfold close_channel. rewrite H3. eexists. split; [done|]. split; cbn [set_active lc_active lc_closing lc_closed lc_releasing lc_drained lc_releaseDone lc_channels];
      rewrite ?Ec, ?Er; try done; try (erewrite tally_insert by done; rewrite ?Er in *; lia); [|by intros x Hx; apply Hcl].
    rewrite list_lookup_insert_eq by (by eapply lookup_lt_Some). by rewrite Ez.
  - eexists. split; [done|]. split; cbn [set_active lc_active lc_closing lc_closed lc_releasing lc_drained lc_releaseDone lc_channels];
      rewrite ?Ec, ?Er; try done; try (erewrite tally_insert by done; rewrite ?Er in *; lia); [|by intros x Hx; apply Hcl].
    rewrite H3. f_equal. symmetry. apply Z.eqb_neq. lia.
Qed.

Lemma close_enter_ok o l l' found : lifecycle_ok ts o l -> close_enter l = (l', found) -> ends o t' = ends o t -> releases o t' = releases o t ->
  match found with Drains ch => th_at t' = AwaitDrained o ch | _ => forall l, closer o l (th_at t') end -> lifecycle_ok ts' o l'.
Proof.
  intros H Hb He Hr Hc. unfold close_enter in Hb. destruct (lc_closed l) eqn:Ec.
  { injection Hb as <- <-. apply (lifecycle_ok_same ts tid t t'); [done|done|done|apply Hc|done]. }
  destruct H as [H1 H2 H3 H4 H5 H6]. injection Hb as <- Hf. split; cbn [set_release lc_active lc_closing lc_closed lc_releasing lc_drained lc_releaseDone lc_channels] in *;
    try done; try (erewrite tally_insert by done; lia).
  - intros Hq. split; [done|]. apply H4. by rewrite <-Hq, Ec.
  - intros x [->|Hx]%(in_insert ts tid t').
    + subst found. destruct (lc_releasing l); [apply Hc|]. rewrite Hc. by intros _.
    + specialize (H6 x Hx). unfold closer in *. destruct (th_at x); try done; intros Ho; destruct (H6 Ho); done.
Qed.

Lemma close_claim_ok o l l' claimed : lifecycle_ok ts o l -> th_at t = CloseClaim o -> close_claim l = (l', claimed) -> ends o t' = ends o t ->
  match claimed with Some ch => th_at t' = Releasing o ch | None => releases o t' = 0 /\ forall l, closer o l (th_at t') end -> lifecycle_ok ts' o l'.
Proof.
  intros H Hat Hb He Hc. pose proof (own_closer o l H) as Hown. rewrite Hat in Hown. destruct (Hown eq_refl) as [Hclosing Hactive].
  assert (releases o t = 0) as Hrel by (unfold releases; by rewrite Hat). unfold close_claim in Hb. destruct (lc_releasing l) eqn:Er.
  { injection Hb as <- <-. destruct Hc as [Hc1 Hc2]. apply (lifecycle_ok_same ts tid t t'); [done|done|lia|apply Hc2|done]. }
  destruct H as [H1 H2 H3 H4 H5 H6]. rewrite Er in *. injection Hb as <- <-. pose proof (lookup_lt_Some _ _ _ H3) as Hlt.
  assert (releases o t' = 1) as Hrel' by (unfold releases; rewrite Hc; apply hits_same).
  split; cbn [lc_active lc_closing lc_closed lc_releasing lc_drained lc_releaseDone lc_channels]; try done; try (erewrite tally_insert by done; simpl in *; lia).
  - by rewrite lookup_app_l.
  - intros _. exists (length (lc_channels l)). split_and!; [done| |lia]. by rewrite lookup_app_r, Nat.sub_diag by lia.
  - intros x [->|Hx]%(in_insert ts tid t'); [by rewrite Hc|]. specialize (H6 x Hx). unfold closer in *. destruct (th_at x) eqn:Hx'; try done.
    intros ->. assert (releases o x = 0) as Hz by (eapply tally_zero; [apply releasing_nonneg|by rewrite <-H2|done]).
    unfold releases in Hz. rewrite Hx' in Hz. cbn [at_release] in Hz. rewrite hits_same in Hz. done.
Qed.

Lemma close_settle_ok o l ch err : lifecycle_ok ts o l -> th_at t = Releasing o ch -> ends o t' = ends o t -> releases o t' = 0 -> (forall l, closer o l (th_at t')) ->
  exists l', close_settle ch err l = Some l' /\ lifecycle_ok ts' o l'.
Proof.
  intros H Hat He Hr Hc. pose proof (own_closer o l H) as Hown. rewrite Hat in Hown. destruct (Hown eq_refl) as [Hrel Hdone]. destruct H as [H1 H2 H3 H4 H5 H6].
  destruct (H5 Hrel) as (ch' & Hch & Hopen & Hne). rewrite Hdone in Hch. injection Hch as <-. destruct H4 as [Hclosing Hactive]; [by rewrite Hrel, orb_true_r|].
  assert (releases o t = 1) as Hrt by (unfold releases; rewrite Hat; apply hits_same). rewrite Hrel in H2. cbn [b2z] in H2.
  assert (tally (releases o) ts' = 0) as Hz by (erewrite tally_insert by done; lia).
  unfold close_settle, close_channel. rewrite Hopen. eexists. split; [done|].
  split; cbn [lc_active lc_closing lc_closed lc_releasing lc_drained lc_releaseDone lc_channels]; try done; try (erewrite tally_insert by done; lia).
  - by rewrite list_lookup_insert_ne.
  - intros x Hx. assert (releases o x = 0) as Hxz by (eapply tally_zero; [apply releasing_nonneg|exact Hz|done]).
    apply (in_insert ts tid t') in Hx as [->|Hx]; [apply Hc|]. specialize (H6 x Hx). unfold closer in *. destruct (th_at x) eqn:Hx'; try done.
    intros ->. unfold releases in Hxz. rewrite Hx' in Hxz. cbn [at_release] in Hxz. rewrite hits_same in Hxz. done.
Qed.
End regions.


(** ** Steps keep the invariant *)

(** A step of a goroutine that means nothing to [o]. *)
Record same (o : nat) (t t' : thread) : Prop := {
  sm_ends : ends o t' = ends o t;
  sm_slots : slots o t' = slots o t;
  sm_queued : queued o t' = queued o t;
  sm_releases : releases o t' = releases o t;
  sm_closer : forall l, closer o l (th_at t) -> closer o l (th_at t');
}.

Lemma owner_ok_same e ts tid t t' o ow : ts !! tid = Some t -> same o t t' -> owner_ok e ts o ow -> owner_ok e (<[tid := t']> ts) o ow.
Proof.
  intros Ht [S1 S2 S3 S4 S5] [H1 H2]. split; [by eapply limiter_ok_same|]. eapply lifecycle_ok_same; [done|done|done| |done].
  apply S5, (lo_closers _ _ _ H2). by eapply list_elem_of_lookup_2.
Qed.

Section put.
Context (w : World) (tid : nat) (t t' : thread).
Hypothesis Hinv : inv w.
Hypothesis Ht : w_threads w !! tid = Some t.
Hypothesis Hok : thread_ok (length (w_owners w)) t'.

Lemma inv_put o ow ow' : w_owners w !! o = Some ow -> (forall o', o' <> o -> same o' t t') ->
  owner_ok (w_engine w) (<[tid := t']> (w_threads w)) o ow' ->
  inv {| w_engine := w_engine w; w_owners := <[o := ow']> (w_owners w); w_threads := <[tid := t']> (w_threads w) |}.
Proof.
  intros Ho Hs Hnew. destruct Hinv as [H1 H2 H3]. split; cbn [w_engine w_owners w_threads]; rewrite ?length_insert; [done| |by apply Forall_insert].
  intros o' x Hx. apply list_lookup_insert_Some in Hx as [(-> & -> & _)|[Hne Hx]]; [done|].
  eapply owner_ok_same; [done|apply Hs; congruence|by apply H2].
Qed.
Lemma inv_to : (forall o, same o t t') -> inv {| w_engine := w_engine w; w_owners := w_owners w; w_threads := <[tid := t']> (w_threads w) |}.
Proof.
  intros Hs. destruct Hinv as [H1 H2 H3]. split; cbn [w_engine w_owners w_threads]; [done| |by apply Forall_insert].
  intros o ow How. eapply owner_ok_same; [done|apply Hs|by apply H2].
Qed.
End put.

(** Places that hold no token and are no closer's. *)
Definition idle (at_ : pc) : Prop :=
  acquires at_ = None /\ match at_ with AwaitDrained _ _ | CloseClaim _ | Releasing _ _ => False | _ => True end.
Lemma idle_counts at_ : idle at_ -> forall o, at_slots o at_ = 0 /\ at_queue o at_ = 0 /\ at_release o at_ = 0 /\ forall l, closer o l at_.
Proof. intros [Ha Hc] o. unfold at_slots, at_queue. rewrite Ha. by destruct at_. Qed.
(** The same deferred calls, between places that count nothing. *)
Definition weightless (at_ : pc) : Prop := forall o, at_slots o at_ = 0 /\ at_queue o at_ = 0 /\ at_release o at_ = 0.
Lemma same_goto o t at_ : weightless (th_at t) -> idle at_ -> same o t (goto at_ t).
Proof.
  intros Hw Hi. destruct (Hw o) as (W1 & W2 & W3), (idle_counts at_ Hi o) as (I1 & I2 & I3 & I4).
  split; unfold ends, slots, queued, releases; cbn [goto th_at th_defers]; (lia || intros l _; apply I4).
Qed.
Lemma idle_weightless at_ : idle at_ -> weightless at_.
Proof. intros H o. destruct (idle_counts at_ H o) as (? & ? & ? & _). done. Qed.

Lemma step_begin_inv w tid t o next refused w' : inv w -> w_threads w !! tid = Some t -> weightless (th_at t) -> idle next -> idle refused ->
  thread_ok (length (w_owners w)) (defer (DEnd o) next t) -> thread_ok (length (w_owners w)) (goto refused t) ->
  step_begin w tid t o next refused = Next w' -> inv w'.
Proof.
  intros Hinv Ht Hw Hn Hr Hok1 Hok2. unfold step_begin, with_owner. destruct (w_owners w !! o) as [ow|] eqn:Ho; [|done].
  destruct (begin (ow_lifecycle ow)) as [l ok] eqn:Hb. pose proof (iv_owners _ Hinv o ow Ho) as [Hlim Hlc].
  destruct (Hw o) as (W1 & W2 & W3). destruct ok; intros [= <-].
  - destruct (idle_counts next Hn o) as (I1 & I2 & I3 & I4).
    assert (ends o (defer (DEnd o) next t) = ends o t + 1) as He by (unfold ends; cbn [defer th_defers tally foldr d_ends]; rewrite hits_same; unfold tally; lia).
    apply (inv_put w tid t _ Hinv Ht Hok1 o ow); [done| |].
    + intros o' Hne. destruct (Hw o') as (V1 & V2 & V3), (idle_counts next Hn o') as (J1 & J2 & J3 & J4).
      split; unfold ends, slots, queued, releases; cbn [defer th_at th_defers]; rewrite ?tally_cons; cbn [d_ends d_slots]; rewrite ?hits_other by done; (lia || intros ll _; apply J4).
    + split; [eapply limiter_ok_same; [done| | |exact Hlim]|].
      * unfold slots. cbn [defer th_at th_defers]. rewrite tally_cons. cbn [d_slots]. lia.
      * unfold queued. cbn [defer th_at]. lia.
      * cbn [set_lifecycle ow_lifecycle]. eapply begin_ok; [done|exact Hlc|exact Hb|exact He| |exact I4]. unfold releases. cbn [defer th_at]. lia.
  - rewrite (begin_refused _ _ _ _ Hlc Hb). apply (inv_put w tid t _ Hinv Ht Hok2 o ow); [done|intros o' _; by apply same_goto|].
    eapply owner_ok_same; [done|by apply same_goto|]. by destruct ow.
Qed.

(** What a call of [acquire] holds, and how a step changes it. *)
Definition holds (a : acquiring) : Z := match a with Dequeuing None => 1 | _ => 0 end.
Definition waits (a : acquiring) : Z := match a with Waiting | Dequeuing _ => 1 | _ => 0 end.
Lemma move_tokens_0 l : l = move_tokens l 0 0.
Proof. destruct l. unfold move_tokens. simpl. f_equal; lia. Qed.
Lemma acquire_spec l stopped a c l' r : acquire l stopped a c = Some (l', r) -> lm_slots l <= lm_concurrent l -> lm_queue l <= lm_queued l ->
  exists ds dq, l' = move_tokens l ds dq /\ lm_slots l + ds <= lm_concurrent l /\ lm_queue l + dq <= lm_queued l /\
  match r with
  | Continue a' => ds = holds a' - holds a /\ dq = waits a' - waits a
  | Acquired => ds = 1 - holds a /\ dq = - waits a
  | Refused _ => ds = - holds a /\ dq = - waits a
  end.
Proof.
  intros Ha Hs Hq. destruct a as [| | | |[err|]], c; cbn [acquire] in Ha; repeat case_match; simplify_eq;
    repeat match goal with H : (_ <? _) = true |- _ => apply Z.ltb_lt in H end;
    first [exists 0, 0; split; [apply move_tokens_0|]; simpl; lia | eexists _, _; split; [reflexivity|]; simpl; lia].
Qed.

Section acquiring.
Context (w : World) (tid : nat) (t : thread) (o : nat) (here : acquiring -> pc) (a : acquiring).
Hypothesis Hinv : inv w.
Hypothesis Ht : w_threads w !! tid = Some t.
Hypothesis Hhere : forall a, acquires (here a) = Some (o, a).
Hypothesis Hat : th_at t = here a.

(** Where a step of [acquire] leads. *)
Definition leads (t' : thread) (ds dq : Z) : Prop :=
  (exists a', t' = goto (here a') t /\ ds = holds a' - holds a /\ dq = waits a' - waits a) \/
  (exists at_, idle at_ /\ t' = goto at_ t /\ ds = - holds a /\ dq = - waits a) \/
  (exists at_, idle at_ /\ t' = defer (DRelease o) at_ t /\ ds = 1 - holds a /\ dq = - waits a).

Lemma here_counts o' a' : at_slots o' (here a') = holds a' * hits o' o /\ at_queue o' (here a') = waits a' * hits o' o /\ at_release o' (here a') = 0 /\
  forall l, closer o' l (here a').
Proof.
  unfold at_slots, at_queue. specialize (Hhere a'). rewrite Hhere. split_and!.
  - destruct a' as [| | | |[|]]; simpl; lia.
  - destruct a'; simpl; lia.
  - by destruct (here a').
  - by destruct (here a').
Qed.
Lemma leads_counts t' ds dq o' : leads t' ds dq -> ends o' t' = ends o' t /\ slots o' t' = slots o' t + ds * hits o' o /\
  queued o' t' = queued o' t + dq * hits o' o /\ releases o' t' = releases o' t /\ forall l, closer o' l (th_at t').
Proof.
  destruct (here_counts o' a) as (A1 & A2 & A3 & _). unfold ends, slots, queued, releases. rewrite Hat, A1, A2, A3.
  intros [(a' & -> & -> & ->)|[(at_ & Hi & -> & -> & ->)|(at_ & Hi & -> & -> & ->)]]; cbn [goto defer th_at th_defers].
  - destruct (here_counts o' a') as (B1 & B2 & B3 & B4). rewrite B1, B2, B3. split_and!; try done; lia.
  - destruct (idle_counts at_ Hi o') as (-> & -> & -> & ?). split_and!; try done; lia.
  - destruct (idle_counts at_ Hi o') as (-> & -> & -> & ?). rewrite !tally_cons. cbn [d_ends d_slots]. split_and!; try done; lia.
Qed.

Lemma acquire_put t' ds dq ow : thread_ok (length (w_owners w)) t' -> leads t' ds dq -> w_owners w !! o = Some ow ->
  lm_slots (ow_limiter ow) + ds <= lm_concurrent (ow_limiter ow) -> lm_queue (ow_limiter ow) + dq <= lm_queued (ow_limiter ow) ->
  inv {| w_engine := w_engine w; w_owners := <[o := set_limiter ow (move_tokens (ow_limiter ow) ds dq)]> (w_owners w); w_threads := <[tid := t']> (w_threads w) |}.
Proof.
  intros Hok Hl Ho Hs Hq. pose proof (iv_owners _ Hinv o ow Ho) as [Hlim Hlc]. pose proof (li_capacity _ _ _ _ _ Hlim) as [C1 C2].
  apply (inv_put w tid t t' Hinv Ht Hok o ow); [done| |].
  - intros o' Hne. destruct (leads_counts t' ds dq o' Hl) as (E1 & E2 & E3 & E4 & E5). rewrite hits_other in E2, E3 by done.
    split; [done|lia|lia|done|intros ll _; apply E5].
  - destruct (leads_counts t' ds dq o Hl) as (E1 & E2 & E3 & E4 & E5). rewrite hits_same in E2, E3.
    split; [eapply limiter_ok_moved; [done|done|lia|lia|lia|lia]|]. cbn [set_limiter ow_lifecycle]. eapply lifecycle_ok_same; [done|done|done|apply E5|done].
Qed.
End acquiring.

Lemma step_acquire_inv w tid t o here next a c stopped w' : inv w -> w_threads w !! tid = Some t ->
  (forall a, acquires (here a) = Some (o, a)) -> th_at t = here a -> idle next ->
  (forall a', thread_ok (length (w_owners w)) (goto (here a') t)) -> (forall err, thread_ok (length (w_owners w)) (goto (refuse err) t)) ->
  thread_ok (length (w_owners w)) (defer (DRelease o) next t) ->
  step_acquire w tid t o here next a c stopped = Next w' -> inv w'.
Proof.
  intros Hinv Ht Hhere Hat Hn Hok1 Hok2 Hok3. unfold step_acquire, with_owner. destruct (w_owners w !! o) as [ow|] eqn:Ho; [|done].
  destruct (acquire (ow_limiter ow) stopped a c) as [[l r]|] eqn:Ha; [|done].
  pose proof (iv_owners _ Hinv o ow Ho) as [[[C1 C2] [_ L2] [_ L4]] _].
  apply acquire_spec in Ha as (ds & dq & -> & Hs & Hq & Hr); [|lia|lia].
  destruct r as [a'| |err]; intros [= <-]; eapply acquire_put; try done; unfold leads.
  - left. by exists a'.
  - right. right. by exists next.
  - right. left. by exists (refuse err).
Qed.


(** A deferred call always runs: it neither blocks nor panics. *)
Lemma step_deferred_ok w tid t out : inv w -> w_threads w !! tid = Some t -> th_at t = Leaving out -> th_defers t <> [] ->
  exists w', step_deferred w tid t = Next w' /\ inv w'.
Proof.
  intros Hinv Ht Hat Hd. pose proof (proj1 (Forall_forall _ _) (iv_threads _ Hinv) t ltac:(by eapply list_elem_of_lookup_2)) as Hok. unfold thread_ok in Hok. rewrite Hat in Hok.
  unfold step_deferred. destruct (th_defers t) as [|d ds] eqn:Hds; [done|]. apply Forall_cons in Hok as [Hd1 Hds'].
  set (t' := {| th_at := th_at t; th_defers := ds |}).
  assert (thread_ok (length (w_owners w)) t') as Hok' by (unfold thread_ok; cbn [t' th_at th_defers]; by rewrite Hat).
  assert (forall o, ends o t = d_ends o d + ends o t' /\ slots o t = d_slots o d + slots o t' /\ queued o t' = queued o t /\ releases o t' = releases o t /\
    releases o t = 0 /\ forall l, closer o l (th_at t')) as Hc.
  { intros o. unfold ends, slots, queued, releases. cbn [t' th_at th_defers]. rewrite Hds, !tally_cons, Hat. split_and!; try done; lia. }
  assert (forall o', d_ends o' d = 0 -> d_slots o' d = 0 -> same o' t t') as Hsame.
  { intros o' E1 E2. destruct (Hc o') as (C1 & C2 & C3 & C4 & _ & C6). split; [lia|lia|done|done|intros ll _; apply C6]. }
  destruct d as [o|o|]; cbn [address] in Hd1.
  - unfold with_owner. destruct (lookup_lt_is_Some_2 _ _ Hd1) as [ow Ho]. rewrite Ho. pose proof (iv_owners _ Hinv o ow Ho) as [Hlim Hlc].
    destruct (Hc o) as (C1 & C2 & C3 & C4 & _ & C6). cbn [d_ends d_slots] in C1, C2. rewrite hits_same in C1.
    assert (1 <= ends o t) as H1 by (pose proof (ends_nonneg o t'); lia).
    destruct (finish_ok _ tid t t' Ht o _ Hlc) as (l' & -> & Hl'); [lia|done|done|exact C6|]. eexists. split; [done|].
    apply (inv_put w tid t t' Hinv Ht Hok' o ow); [done| |split; [|done]].
    + intros o' Hne. apply Hsame; [by apply hits_other|done].
    + eapply limiter_ok_same; [done|lia|done|done].
  - unfold with_owner. destruct (lookup_lt_is_Some_2 _ _ Hd1) as [ow Ho]. rewrite Ho. pose proof (iv_owners _ Hinv o ow Ho) as [Hlim Hlc].
    destruct (Hc o) as (C1 & C2 & C3 & C4 & _ & C6). cbn [d_ends d_slots] in C1, C2. rewrite hits_same in C2. pose proof Hlim as [[K1 K2] [L1 L2] [L3 L4]].
    assert (1 <= lm_slots (ow_limiter ow)) as H1.
    { pose proof (slots_nonneg o t'). rewrite L1. pose proof (tally_member (slots o) (slots_nonneg o) (w_threads w) t ltac:(by eapply list_elem_of_lookup_2)). lia. }
    unfold limiter_release. rewrite (proj2 (Z.ltb_lt _ _)) by lia. eexists. split; [done|].
    apply (inv_put w tid t t' Hinv Ht Hok' o ow); [done| |split].
    + intros o' Hne. apply Hsame; [done|by apply hits_other].
    + eapply limiter_ok_moved; [done|done|lia|lia|lia|lia].
    + cbn [set_limiter ow_lifecycle]. eapply lifecycle_ok_same; [done|lia|done|apply C6|done].
  - eexists. split; [done|]. apply (inv_to w tid t t' Hinv Ht Hok'). intros o'. by apply Hsame.
Qed.

(** A new goroutine, and a new Program. *)
Lemma inv_spawn w at_ : inv w -> idle at_ -> thread_ok (length (w_owners w)) {| th_at := at_; th_defers := [] |} ->
  inv {| w_engine := w_engine w; w_owners := w_owners w; w_threads := w_threads w ++ [{| th_at := at_; th_defers := [] |}] |}.
Proof.
  intros [H1 H2 H3] Hi Hok. split; cbn [w_engine w_owners w_threads]; [done| |by apply Forall_app; split; [|apply Forall_cons; split; [|apply Forall_nil]]].
  intros o ow Ho. destruct (H2 o ow Ho) as [[L1 [L2 L3] [L4 L5]] [K1 K2 K3 K4 K5 K6]]. destruct (idle_counts at_ Hi o) as (I1 & I2 & I3 & I4).
  set (t := {| th_at := at_; th_defers := [] |}).
  assert (ends o t = 0 /\ slots o t = 0 /\ queued o t = 0 /\ releases o t = 0) as (T1 & T2 & T3 & T4) by (unfold ends, slots, queued, releases; simpl; lia).
  split; split; try done; rewrite ?tally_snoc; try lia.
  intros x [Hx| ->%list_elem_of_singleton]%elem_of_app; [by apply K6|apply I4].
Qed.

Lemma thread_ok_le n m t : (n <= m)%nat -> thread_ok n t -> thread_ok m t.
Proof.
  intros Hle. unfold thread_ok, call_ok, program_ok, closing_ok. destruct (th_at t); try tauto; try (intros [[? ?] ?]; split_and!; (done || lia)); try (intros [? ?]; split; (done || lia)).
  intros H. eapply Forall_impl; [exact H|]. intros [] ?; simpl in *; lia.
Qed.
Lemma begun_address n c : call_ok n c -> Forall (address n) (begun c).
Proof. intros [? ?]. repeat (apply Forall_cons; split; [simpl; lia|]). by apply Forall_nil. Qed.
Lemma admission_address n a ds : admission a -> Forall (address n) ds -> Forall (address n) (a ++ ds).
Proof. intros [-> | -> ] H; [done|]. by apply Forall_cons. Qed.
#[local] Hint Resolve begun_address admission_address : core.
Lemma closing_address n o ds : closing_ok n o ds -> (0 < n)%nat -> Forall (address n) ds.
Proof. intros [_ ->] Hn. destruct (Nat.eqb o 0); [by apply Forall_nil|]. apply Forall_cons. split; [done|by apply Forall_nil]. Qed.
Lemma slot_address n c a : call_ok n c -> admission a -> Forall (address n) (a ++ DRelease (ca_program c) :: begun c).
Proof. intros Hc Ha. apply admission_address; [done|]. apply Forall_cons. split; [apply Hc|by apply begun_address]. Qed.
#[local] Hint Resolve closing_address slot_address : core.
Lemma thread_ok_address n t : thread_ok n t -> (0 < n)%nat -> Forall (address n) (th_defers t).
Proof.
  intros Hok Hn. assert (Forall (address n) []) as H1 by (by apply Forall_nil).
  assert (Forall (address n) [DEnd 0]) as H0 by (by apply Forall_cons).
  unfold thread_ok in Hok. destruct (th_at t); try exact Hok; try (rewrite Hok; done); try (by eapply closing_address);
    destruct Hok as [Hc Hds]; try (rewrite Hds; eauto; fail).
  - rewrite Hds. by apply (slot_address n _ []); [|left].
  - destruct Hds as (? & ? & ->). auto.
  - destruct Hds as (? & ? & ->). apply Forall_cons. auto.
  - destruct Hds as (? & ? & ->). apply Forall_cons. auto.
Qed.
Lemma address_zero n ds : Forall (address n) ds -> tally (d_ends n) ds = 0 /\ tally (d_slots n) ds = 0.
Proof.
  induction 1 as [|d ds Hd _ [IH1 IH2]]; [done|]. rewrite !tally_cons, IH1, IH2. destruct d; simpl in *; rewrite ?hits_other by lia; done.
Qed.
(** A Program that is not there yet is nobody's. *)
Lemma thread_ok_zero n t : thread_ok n t -> (0 < n)%nat -> ends n t = 0 /\ slots n t = 0 /\ queued n t = 0 /\ releases n t = 0 /\ forall l, closer n l (th_at t).
Proof.
  intros Hok Hn. destruct (address_zero n _ (thread_ok_address n t Hok Hn)) as [E1 E2]. unfold ends, slots, queued, releases. rewrite E1, E2.
  assert (forall o : nat, (o < n)%nat -> hits n o = 0) as Hh by (intros o Ho; apply hits_other; lia).
  unfold thread_ok, call_ok, program_ok, closing_ok in Hok. unfold at_slots, at_queue.
  destruct (th_at t) as [c|c|c|p a|p|p a|p|p res| | |o|o|o ch|o ch|o|o ch|out]; cbn [acquires at_release closer]; split_and!; try done;
    try (intros ? ->; lia); try (apply Hh; lia); repeat case_match; try done; apply Hh; lia.
Qed.

Lemma inv_program w tid t t' : inv w -> engine_ok (w_engine w) -> w_threads w !! tid = Some t -> thread_ok (length (w_owners w)) t' -> (forall o, same o t t') ->
  inv {| w_engine := w_engine w; w_owners := w_owners w ++ [new_owner (en_programConcurrency (w_engine w)) (en_programQueue (w_engine w))];
         w_threads := <[tid := t']> (w_threads w) |}.
Proof.
  intros Hinv He Ht Hok Hs. pose proof (inv_to w tid t t' Hinv Ht Hok Hs) as [H1 H2 H3]. cbn [w_engine w_owners w_threads] in *.
  split; cbn [w_engine w_owners w_threads]; rewrite ?length_app; [simpl; lia| |].
  - intros o ow Ho. apply lookup_snoc in Ho as [Ho|[-> ->]]; [by apply H2|].
    assert (forall x, x ∈ <[tid := t']> (w_threads w) -> ends (length (w_owners w)) x = 0 /\ slots (length (w_owners w)) x = 0 /\ queued (length (w_owners w)) x = 0 /\
      releases (length (w_owners w)) x = 0 /\ forall l, closer (length (w_owners w)) l (th_at x)) as Hz.
    { intros x Hx. apply thread_ok_zero; [|done]. rewrite Forall_forall in H3. by apply H3. }
    unfold owner_ok, capacity_of. rewrite (proj2 (Nat.eqb_neq _ _)) by lia. unfold engine_ok in He.
    split; split; cbn [new_owner ow_limiter ow_lifecycle newLimiter newLifecycle lm_concurrent lm_queued lm_slots lm_queue lc_active lc_releasing lc_channels lc_drained lc_closed fst snd b2z];
      try done; rewrite ?tally_fresh; try lia; try (intros x Hx; by apply Hz).
  - eapply Forall_impl; [exact H3|]. intros x. apply thread_ok_le. lia.
Qed.

(** ** Every step *)
Definition safe (r : stepped) : Prop := match r with Next w => inv w | Stuck => True | Panic => False end.

(** Places of the closers of [o]. *)
Definition place (o : nat) (at_ : pc) : Prop :=
  acquires at_ = None /\ match at_ with AwaitDrained o' _ | CloseClaim o' | Releasing o' _ => o' = o | _ => True end.
Lemma idle_place o at_ : idle at_ -> place o at_.
Proof. intros [Ha Hc]. split; [done|]. by destruct at_. Qed.
Lemma place_counts o at_ : place o at_ -> (forall o', at_slots o' at_ = 0 /\ at_queue o' at_ = 0) /\
  forall o', o' <> o -> at_release o' at_ = 0 /\ forall l, closer o' l at_.
Proof.
  intros [Ha Hc]. unfold at_slots, at_queue. rewrite Ha. split; [done|]. intros o' Hne.
  destruct at_; cbn [at_release closer]; try done; subst; rewrite ?hits_other by done; split; try done; by intros ? ->.
Qed.

(** A lock region of the lifecycle of [o]. *)
Lemma inv_lifecycle w tid t at_ o ow l' : inv w -> w_threads w !! tid = Some t -> thread_ok (length (w_owners w)) (goto at_ t) ->
  w_owners w !! o = Some ow -> place o (th_at t) -> place o at_ -> lifecycle_ok (<[tid := goto at_ t]> (w_threads w)) o l' ->
  inv {| w_engine := w_engine w; w_owners := <[o := set_lifecycle ow l']> (w_owners w); w_threads := <[tid := goto at_ t]> (w_threads w) |}.
Proof.
  intros Hinv Ht Hok Ho Hp Hp' Hl. destruct (place_counts o _ Hp) as [P1 P2], (place_counts o _ Hp') as [Q1 Q2].
  apply (inv_put w tid t _ Hinv Ht Hok o ow); [done| |split; [|done]].
  - intros o' Hne. destruct (P1 o'), (Q1 o'), (P2 o' Hne), (Q2 o' Hne). split; unfold ends, slots, queued, releases; cbn [goto th_at th_defers]; (lia || auto).
  - destruct (P1 o), (Q1 o). eapply limiter_ok_same; [done| | |apply (iv_owners _ Hinv o ow Ho)]; unfold slots, queued; cbn [goto th_at th_defers]; lia.
Qed.

Section step.
Context (w : World) (tid : nat) (t : thread).
Hypothesis Hinv : inv w.
Hypothesis Ht : w_threads w !! tid = Some t.
#[local] Abbreviation n := (length (w_owners w)).

Lemma own_ok : thread_ok n t.
Proof. pose proof (iv_threads _ Hinv) as H. rewrite Forall_forall in H. apply H. by eapply list_elem_of_lookup_2. Qed.
Lemma own_address : Forall (address n) (th_defers t).
Proof. apply thread_ok_address; [apply own_ok|apply Hinv]. Qed.
Lemma leaving_ok out : thread_ok n (goto (Leaving out) t).
Proof. exact own_address. Qed.
Lemma to_safe at_ : weightless (th_at t) -> idle at_ -> thread_ok n (goto at_ t) -> safe (put w tid (goto at_ t) (w_owners w)).
Proof. intros Hw Hi Hok. apply (inv_to w tid t _ Hinv Ht Hok). intros o. by apply same_goto. Qed.
Lemma begin_safe o next refused : idle (th_at t) -> idle next -> idle refused ->
  thread_ok n (defer (DEnd o) next t) -> thread_ok n (goto refused t) -> safe (step_begin w tid t o next refused).
Proof.
  intros Hi H1 H2 Hok1 Hok2. destruct (step_begin w tid t o next refused) as [w'| |] eqn:E; [|done|].
  - by eapply step_begin_inv, E; try apply idle_weightless.
  - unfold step_begin, with_owner in E. destruct (w_owners w !! o); [|done]. by destruct (begin _).
Qed.
Lemma acquire_safe o here next a c stopped : (forall a, acquires (here a) = Some (o, a)) -> th_at t = here a -> idle next ->
  (forall a', thread_ok n (goto (here a') t)) -> thread_ok n (defer (DRelease o) next t) -> safe (step_acquire w tid t o here next a c stopped).
Proof.
  intros Hhere Hat Hn Hok1 Hok2. destruct (step_acquire w tid t o here next a c stopped) as [w'| |] eqn:E; [|done|].
  - eapply step_acquire_inv, E; try done. intros err. apply leaving_ok.
  - unfold step_acquire, with_owner in E. destruct (w_owners w !! o); [|done]. destruct (acquire _ _ _ _) as [[? []]|]; done.
Qed.
Lemma deferred_safe out : th_at t = Leaving out -> safe (step_deferred w tid t).
Proof.
  intros Hat. destruct (th_defers t) eqn:Hd; [unfold step_deferred; by rewrite Hd|].
  destruct (step_deferred_ok w tid t out Hinv Ht Hat) as (w' & -> & H); [by rewrite Hd|done].
Qed.

(** The regions of a close. *)
Lemma enter_safe o : th_at t = CloseEnter o -> safe (with_owner w o (fun ow =>
  let '(l, found) := close_enter (ow_lifecycle ow) in
  put w tid (goto match found with AlreadyClosed err => closed o err | ReleaseRuns ch => AwaitRelease o ch | Drains ch => AwaitDrained o ch end t)
    (<[o := set_lifecycle ow l]> (w_owners w)))).
Proof.
  intros Hat. pose proof own_ok as Hok. unfold thread_ok in Hok. rewrite Hat in Hok. unfold with_owner. destruct (w_owners w !! o) as [ow|] eqn:Ho; [|done].
  destruct (close_enter (ow_lifecycle ow)) as [l found] eqn:Hc. apply (inv_lifecycle w tid t _ o ow l Hinv Ht); [| done | by rewrite Hat | by destruct found |].
  - destruct found; [apply leaving_ok|exact Hok|exact Hok].
  - eapply close_enter_ok; [done|apply (iv_owners _ Hinv o ow Ho)|exact Hc|done| |by destruct found]. unfold releases. rewrite Hat. by destruct found.
Qed.
Lemma claim_safe o : th_at t = CloseClaim o -> safe (with_owner w o (fun ow =>
  let '(l, claimed) := close_claim (ow_lifecycle ow) in
  put w tid (goto match claimed with Some ch => Releasing o ch | None => CloseEnter o end t) (<[o := set_lifecycle ow l]> (w_owners w)))).
Proof.
  intros Hat. pose proof own_ok as Hok. unfold thread_ok in Hok. rewrite Hat in Hok. unfold with_owner. destruct (w_owners w !! o) as [ow|] eqn:Ho; [|done].
  destruct (close_claim (ow_lifecycle ow)) as [l claimed] eqn:Hc. apply (inv_lifecycle w tid t _ o ow l Hinv Ht); [| done | by rewrite Hat | by destruct claimed |].
  - destruct claimed; exact Hok.
  - eapply close_claim_ok; [done|apply (iv_owners _ Hinv o ow Ho)|exact Hat|exact Hc|done|by destruct claimed].
Qed.
Lemma settle_safe o ch err : th_at t = Releasing o ch -> safe (with_owner w o (fun ow =>
  match close_settle ch err (ow_lifecycle ow) with
  | Some l => put w tid (goto (closed o err) t) (<[o := set_lifecycle ow l]> (w_owners w))
  | None => Panic
  end)).
Proof.
  intros Hat. unfold with_owner. destruct (w_owners w !! o) as [ow|] eqn:Ho; [|done].
  destruct (close_settle_ok (w_threads w) tid t (goto (closed o err) t) Ht o (ow_lifecycle ow) ch err) as (l & -> & Hl); [apply (iv_owners _ Hinv o ow Ho)|exact Hat|done|done|done|].
  apply (inv_lifecycle w tid t _ o ow l Hinv Ht); [apply leaving_ok|done|by rewrite Hat|done|done].
Qed.
(** The end of a closer's wait. *)
Lemma drained_safe o : weightless (th_at t) -> thread_ok n (goto (CloseClaim o) t) ->
  (forall ow, w_owners w !! o = Some ow -> lc_closing (ow_lifecycle ow) = true /\ lc_active (ow_lifecycle ow) = 0) ->
  safe (put w tid (goto (CloseClaim o) t) (w_owners w)).
Proof.
  intros Hw Hok Hc. destruct Hinv as [H1 H2 H3]. split; cbn [w_engine w_owners w_threads]; [done| |by apply Forall_insert].
  intros o' ow Ho. destruct (H2 o' ow Ho) as [L1 L2]. destruct (Hw o') as (W1 & W2 & W3).
  split; [eapply limiter_ok_same; [done| | |done]|eapply lifecycle_ok_same; [done|done| | |done]];
    unfold slots, queued, releases; cbn [goto th_at th_defers]; try (rewrite ?W1, ?W2, ?W3; done).
  intros <-. by apply Hc.
Qed.
End step.

Lemma idle_intro at_ : acquires at_ = None -> match at_ with AwaitDrained _ _ | CloseClaim _ | Releasing _ _ => False | _ => True end -> idle at_.
Proof. by split. Qed.
Lemma accept_cases p q x s c : (exists out, accept p q x s c = Leaving out) \/ exists res, accept p q x s c = Running p res.
Proof. unfold accept, refuse. repeat case_match; eauto. Qed.
Lemma with_owner_safe w o k : (forall ow, w_owners w !! o = Some ow -> safe (k ow)) -> safe (with_owner w o k).
Proof. intros H. unfold with_owner. destruct (w_owners w !! o) as [ow|]; [by apply H|done]. Qed.

Lemma prepare_call e c now p : prepare e c now = Ok p -> pd_call p = c.
Proof.
  unfold prepare. intros Hp. apply rbind_Ok in Hp as (policy & _ & Hp). cbv zeta in Hp. destruct (abi.EncodeRequest _ _ _ _) as [stdin encoded].
  apply rbind_Ok in Hp as ([] & _ & Hp). apply Ok_inj in Hp. by subst p.
Qed.
(** Arriving at a limiter counts nothing yet. *)
Lemma same_arriving o t at_ : weightless (th_at t) -> (exists o', acquires at_ = Some (o', Arriving)) -> same o t (goto at_ t).
Proof.
  intros Hw [o' Ha]. destruct (Hw o) as (W1 & W2 & W3). assert (at_release o at_ = 0 /\ forall l, closer o l at_) as [A1 A2] by (by destruct at_).
  assert (at_slots o at_ = 0 /\ at_queue o at_ = 0) as [A3 A4] by (unfold at_slots, at_queue; by rewrite Ha).
  split; unfold ends, slots, queued, releases; cbn [goto th_at th_defers]; (lia || auto).
Qed.
Lemma same_admitted o t p a : a = [] \/ a = [DAdmission] -> weightless (th_at t) -> same o t {| th_at := EngineSlot p Arriving; th_defers := a ++ th_defers t |}.
Proof.
  intros Ha Hw. destruct (same_arriving o t (EngineSlot p Arriving) Hw) as [S1 S2 S3 S4 S5]; [by eexists|].
  destruct Ha as [-> | -> ]; [by split|]. split; try done; unfold ends, slots in *; cbn [goto th_at th_defers app] in *; rewrite tally_cons; cbn [d_ends d_slots]; lia.
Qed.
Lemma is_program_ok w o : is_program w o = true -> program_ok (length (w_owners w)) o.
Proof. unfold is_program. intros [H1%negb_true_iff%Nat.eqb_neq H2%Nat.ltb_lt]%andb_prop. done. Qed.

Ltac place Hds := unfold thread_ok; cbn [goto defer th_at th_defers]; rewrite Hds; done.

Lemma step_thread_safe w tid i : inv w -> engine_ok (w_engine w) -> safe (step_thread w tid i).
Proof.
  intros Hinv He. unfold step_thread. destruct (w_threads w !! tid) as [t|] eqn:Ht; [|done].
  pose proof (own_ok w tid t Hinv Ht) as Hok. pose proof (fun out => leaving_ok w tid t Hinv Ht out) as Hlv. unfold thread_ok in Hok.
  pose proof (fun Hw out => to_safe w tid t Hinv Ht (Leaving out) Hw ltac:(done) (Hlv out)) as Hleave.
  destruct (th_at t) as [c|c|c|p a|p|p a|p|p res|wasm|wasm|o|o|o ch|o ch|o|o ch|out] eqn:Hat; destruct i as [|now|ch0 stopped|release|q x s chk|b|compiled cl elapsed|err|err]; try done.
  - destruct Hok as [Hc Hds]. apply begin_safe; try done; [by rewrite Hat|place Hds|apply Hlv].
  - destruct Hok as [Hc Hds]. apply begin_safe; try done; [by rewrite Hat|place Hds|apply Hlv].
  - destruct (prepare _ c now) as [p|err] eqn:Hp; [|by apply Hleave]. apply prepare_call in Hp. destruct Hok as [Hc Hds].
    assert (thread_ok (length (w_owners w)) (goto (ProgramSlot p Arriving) t)) as Hok' by (unfold thread_ok; cbn [goto th_at th_defers]; by rewrite Hp).
    apply (inv_to w tid t _ Hinv Ht Hok'). intros o. apply same_arriving; [by rewrite Hat|by eexists].
  - destruct Hok as [Hc Hds]. eapply acquire_safe; try done. place Hds.
  - destruct Hok as [Hc Hds]. assert (forall a, a = [] \/ a = [DAdmission] -> safe (put w tid {| th_at := EngineSlot p Arriving; th_defers := a ++ th_defers t |} (w_owners w))) as Hslot.
    { intros a Ha. apply (inv_to w tid t _ Hinv Ht); [unfold thread_ok; cbn [th_at th_defers]; split; [done|]; exists a; by rewrite Hds|].
      intros o. apply (same_admitted o t p a Ha). by rewrite Hat. }
    repeat case_match; try (by apply Hleave); [apply (Hslot [DAdmission])|apply (Hslot [])|apply (Hslot [])]; auto.
  - destruct Hok as [Hc (al & Hal & Hds)]. eapply acquire_safe; try done.
    + intros a'. unfold thread_ok. cbn [goto th_at th_defers]. eauto.
    + unfold thread_ok. cbn [defer th_at th_defers]. rewrite Hds. eauto.
  - destruct (accept_cases p q x s chk) as [(out & ->)|(res & ->)]; [by apply Hleave|]. apply to_safe; try done. by rewrite Hat.
  - destruct (run_instance _ _ _ _) as [res' err']. by apply Hleave.
  - apply (begin_safe w tid t Hinv Ht); [by rewrite Hat|done|done|place Hok|apply Hlv].
  - destruct (check_module _ _ _ _); [|by apply Hleave]. apply (inv_program w tid t _ Hinv He Ht (Hlv _)).
    intros o. apply same_goto; [by rewrite Hat|done].
  - destruct Hok as [[Hc1 Hc2] Hds]. apply (begin_safe w tid t Hinv Ht); [by rewrite Hat|done|done| |apply Hlv]. unfold thread_ok, closing_ok. cbn [defer th_at th_defers].
    by rewrite Hds, (proj2 (Nat.eqb_neq o 0)).
  - by apply enter_safe.
  - apply with_owner_safe. intros ow Ho. destruct ch as [ch|]; [|done]. destruct (bool_decide _); [|done]. apply to_safe; try done. by rewrite Hat.
  - by apply Hleave.
  - apply with_owner_safe. intros ow Ho. destruct (bool_decide_reflect (lc_channels (ow_lifecycle ow) !! ch = Some true)) as [Hch|]; [|done].
    apply drained_safe; try done; [by rewrite Hat|]. intros ow' Ho'. rewrite Ho in Ho'. injection Ho' as <-.
    pose proof (iv_owners _ Hinv o ow Ho) as [_ Hl]. pose proof (own_closer _ _ _ Ht o _ Hl) as Hcl. rewrite Hat in Hcl. destruct (Hcl eq_refl) as [H1 ->].
    split; [done|]. rewrite (lo_drained _ _ _ Hl) in Hch. injection Hch as Hch. by apply Z.eqb_eq.
  - by apply Hleave.
  - by apply claim_safe.
  - by apply settle_safe.
  - by eapply deferred_safe.
Qed.

Lemma step_safe w ev : inv w -> engine_ok (w_engine w) -> safe (step w ev).
Proof.
  intros Hinv He. destruct ev as [c|wasm|o| |tid i]; cbn [step]; [| | | |by apply step_thread_safe].
  - destruct (is_program w (ca_program c)) eqn:Hp; [|done]. apply is_program_ok in Hp.
    apply inv_spawn; [done| |]; unfold start_invoke; repeat case_match; try done; by apply Forall_nil.
  - apply inv_spawn; [done| |]; unfold start_compile; case_match; try done; by apply Forall_nil.
  - destruct (is_program w o) eqn:Hp; [|done]. apply is_program_ok in Hp. by apply inv_spawn.
  - apply inv_spawn; try done. split; [apply Hinv|done].
Qed.
Lemma step_engine w ev w' : step w ev = Next w' -> w_engine w' = w_engine w.
Proof.
  unfold step, spawn, step_thread, step_begin, step_acquire, step_deferred, with_owner, put. intros H. repeat case_match; simplify_eq; done.
Qed.
Lemma reachable_inv e w : engine_ok e -> reachable e w -> inv w /\ w_engine w = e.
Proof.
  intros He. induction 1 as [|w ev w' _ [IH1 IH2] Hs]; [split; [by apply inv_init|done]|]. subst e.
  pose proof (step_safe w ev IH1 He) as H. rewrite Hs in H. split; [done|]. by apply step_engine in Hs.
Qed.

(** ** What holds at every moment *)

(** The guests that run: all of them for the Engine, its own for a Program. *)
Definition runs (o : nat) (t : thread) : Z :=
  match th_at t with Running p _ => if Nat.eqb o 0 then 1 else hits o (ca_program (pd_call p)) | _ => 0 end.

Lemma running_defers n t p res : thread_ok n t -> th_at t = Running p res -> forall o, o = 0%nat \/ o = ca_program (pd_call p) ->
  (o < n)%nat /\ 1 <= ends o t /\ 1 <= slots o t.
Proof.
  intros Hok Hat o Ho. pose proof Hok as Hok'. unfold thread_ok in Hok. rewrite Hat in Hok. destruct Hok as [[Hp1 Hp2] (a & Ha & Hds)].
  assert (1 <= tally (d_ends o) (th_defers t) /\ 1 <= tally (d_slots o) (th_defers t)) as [E1 E2].
  { assert (forall d, d ∈ th_defers t -> d_ends o d <= tally (d_ends o) (th_defers t) /\ d_slots o d <= tally (d_slots o) (th_defers t)) as Hm.
    { intros d Hd. split; apply tally_member; (done || intros; apply d_ends_nonneg || apply d_slots_nonneg). }
    destruct (Hm (DEnd o)) as [M1 _]; [|destruct (Hm (DRelease o)) as [_ M2]].
    - rewrite Hds. unfold begun. destruct Ho as [-> | -> ], Ha as [-> | -> ]; set_solver.
    - rewrite Hds. unfold begun. destruct Ho as [-> | -> ], Ha as [-> | -> ]; set_solver.
    - cbn [d_ends d_slots] in *. rewrite hits_same in *. done. }
  split; [destruct Ho; lia|]. unfold ends, slots. pose proof (at_slots_nonneg o (th_at t)). lia.
Qed.
Lemma runs_slots n o t : thread_ok n t -> runs o t <= slots o t.
Proof.
  intros Hok. unfold runs. pose proof (slots_nonneg o t). destruct (th_at t) eqn:Hat; try done. pose proof (running_defers n t _ _ Hok Hat o) as Hr.
  destruct (Nat.eqb_spec o 0) as [->|Hne]; [apply Hr; by left|]. unfold hits. case_decide; [|lia]. apply Hr. by right.
Qed.
Lemma runs_tally n o ts : Forall (thread_ok n) ts -> tally (runs o) ts <= tally (slots o) ts.
Proof. induction 1 as [|t ts Ht _ IH]; [done|]. rewrite !tally_cons. pose proof (runs_slots n o t Ht). lia. Qed.


(** ** Schedules *)
Fixpoint run (w : World) (evs : list event) : option World :=
  match evs with
  | [] => Some w
  | ev :: evs => match step w ev with Next w => run w evs | _ => None end
  end.
Lemma run_reachable e w evs w' : reachable e w -> run w evs = Some w' -> reachable e w'.
Proof.
  revert w. induction evs as [|ev evs IH]; intros w Hr; [by intros [= <-]|]. simpl. destruct (step w ev) eqn:Hs; try done. apply IH. by eapply reach_step.
Qed.

Definition ex_now : Time := {| t_wall := 719163 * 86400 * second; t_offset := 0; t_mono := Some 7 |}.
Definition ex_call (acceptance : option Acceptance) : call :=
  {| ca_program := 1; ca_deadline := None; ca_request := abi.ex_request; ca_policy := ex_policy; ca_acceptance := acceptance |}.
(** The steps of goroutine [tid]: a compilation, an invocation up to the guest,
    and a close up to its release. *)
Definition ex_compile (tid : nat) : list event :=
  [Compile ex_wasm; Step tid Go; Step tid (Compiles (Ok ex_guest) None 7); Step tid Go].
Definition ex_invoke (tid : nat) (acceptance : option Acceptance) : list event :=
  [Invoke (ex_call acceptance); Step tid Go; Step tid Go; Step tid (Now ex_now); Step tid (Choose Proceed false); Step tid (Choose Proceed false);
   Step tid (Granted (Ok true)); Step tid (Choose Proceed false); Step tid (Choose Proceed false); Step tid (Checked 3 false false None)].
(** The guest ends and the five deferred calls run. *)
Definition ex_leave (tid : nat) (defers : nat) : list event := Step tid (Behaves (ex_behaviour (json.Marshal (abi.responseWire abidec.ex_response)))) :: replicate defers (Step tid Go).

Definition is_next (r : stepped) : bool := match r with Next _ => true | _ => false end.

(** A guest runs, an Engine is being closed, and a second invocation is refused. *)
Definition ex_schedule : list event :=
  ex_compile 0 ++ ex_invoke 1 (Some {| ac_Acquire := true; ac_Check := true |}) ++ [EngineClose; Step 2 Go; Invoke (ex_call None); Step 3 Go].
Definition ex_world : World := default (init ex_engine) (run (init ex_engine) ex_schedule).

Definition ex_after : World := default ex_world (run ex_world (ex_leave 1 5)).


(** The releases that ran to their end, in order. *)
Fixpoint released (w : World) (evs : list event) : list nat :=
  match evs with
  | [] => []
  | ev :: evs =>
    match step w ev with
    | Next w' =>
      match ev with
      | Step tid (Released _) => match w_threads w !! tid with Some {| th_at := Releasing o _ |} => [o] | _ => [] end
      | _ => []
      end ++ released w' evs
    | _ => []
    end
  end.
(** Two closers that both waited for the operations: the second one claims the
    release again, because only [releasing] is read after the wait, not
    [closed]; the runtime is released twice and the second error is the one
    that stays. *)
Example release_runs_twice :
  released (init ex_engine)
    [EngineClose; EngineClose; Step 0 Go; Step 1 Go; Step 0 Go; Step 1 Go; Step 0 Go; Step 0 (Released None);
     Step 1 Go; Step 1 (Released (Some (PlainError "closed")))] = [0%nat; 0%nat].
Proof. vm_compute. exact eq_refl. Qed.

End wasmruntime.
