(* ===== verification/ManagementTypes.v ===== *)
(** * Package [internal/managementhttp], types.go: what the API reads and shows

    The bodies of requests as [encoding/json] stores them, and the projections
    of resources that responses show, as they marshal. *)
From stdpp Require Import base gmap strings list.
From S2P Require Import Prelude Problem Digest Json Model Catalog ValidatorProtocol Release RouteStore ServingAuth Scheduler Net Discovery AssignmentStore Ledger ControlPlane LocalController LocalOperations Abi JsonDecode.
Import problem digest model catalog ledger localcontroller jsondec.

#[local] Open Scope Z_scope.

Module managementtypes.

(** ** Times

    [Time.MarshalJSON]: RFC 3339 with the zone; years outside [0, 9999] and
    zones of a day or more are errors. *)
Definition zone_minutes (t : Time) : Z := Z.abs (t_offset t) / 60.
Definition without_zone (s : string) : string := String.substring 0 (String.length s - 1) s.
Definition time_MarshalJSON (t : Time) : result json :=
  let local := {| t_wall := t_wall t + t_offset t * second; t_offset := 0; t_mono := None |} in
  let year := fst (fst (net.civil (t_wall local / second / 86400))) in
  fail_if ((year <? 0) || (year >? 9999)) (PlainError "Time.MarshalJSON: year outside of range [0,9999]") ;;;
  fail_if (zone_minutes t / 60 >=? 24) (PlainError "Time.MarshalJSON: timezone hour outside of range [0,23]") ;;;
  let sign := if t_offset t <? 0 then "-"%string else "+"%string in
  Ok (JString
    (if t_offset t =? 0 then net.FormatRFC3339Nano local
     else without_zone (net.FormatRFC3339Nano local) +:+ sign +:+ net.digits 2 (zone_minutes t / 60) +:+ ":" +:+ net.digits 2 (zone_minutes t mod 60))).

(** ** Views *)
Record metadataBody := {
  mb_ID : string; mb_Namespace : string; mb_CreatedAt : Time; mb_UpdatedAt : Time; mb_CreatedRaftIndex : Z; mb_ResourceRevision : Z;
}.
Record functionBody := {
  fb_metadata : metadataBody; fb_Name : string; fb_Description : string; fb_ActiveRouteRevision : Z; fb_Labels : gmap string string; fb_Lifecycle : string;
}.
Record triggerBody := { tb_metadata : metadataBody; tb_FunctionID : string; tb_Enabled : bool; tb_AuthPolicy : string }.
Record resourceRequestBody := {
  rb_TimeoutMS : Z; rb_MemoryMiB : Z; rb_MaxConcurrency : Z; rb_MaxInputBytes : Z; rb_MaxOutputBytes : Z;
}.
Record versionBody := {
  vb_metadata : metadataBody; vb_FunctionID : string; vb_VersionID : string; vb_ArtifactDigest : string; vb_ManifestDigest : string; vb_ArtifactSize : Z;
  vb_ABI : string; vb_HostAPIProfile : string; vb_RuntimeFeatureProfile : string; vb_Toolchain : ToolchainMetadata; vb_AdmissionEpoch : Z;
  vb_ResourceRequest : resourceRequestBody; vb_RequestedCapabilities : list CapabilityRequest; vb_State : string; vb_ValidationError : option SafeError;
}.
Record deploymentBody := {
  db_metadata : metadataBody; db_VersionID : string; db_Generation : Z; db_ScalingRevision : Z; db_EffectivePolicyDigest : string;
  db_GrantedCapabilities : list CapabilityRequest; db_MinReplicas : Z; db_MaxReplicas : Z; db_DesiredReplicas : Z; db_ReadyReplicas : Z;
  db_TargetConcurrency : Z; db_ScalingMode : string; db_DesiredPhase : string;
}.
Record routeBody := {
  ub_metadata : metadataBody; ub_FunctionID : string; ub_RouteRevision : Z; ub_Targets : list RouteTarget; ub_Affinity : string; ub_HashVersion : string;
  ub_SaltID : string; ub_Enabled : bool;
}.
Record operationBody := { ob_ID : string; ob_Disposition : string; ob_RaftAppliedIndex : Z; ob_CompletedAt : Time }.
Record operationRecordBody := {
  cb_OperationID : string; cb_Principal : string; cb_Namespace : string; cb_RequestDigest : string; cb_Status : string; cb_Failure : option Failure;
  cb_AffectedResources : list AffectedResource; cb_CredentialIssued : bool; cb_CompletedAt : Time; cb_RaftAppliedIndex : Z;
}.

Record functionResponse := {
  fr_Function : functionBody; fr_HTTPTrigger : option triggerBody; fr_InvocationToken : string; fr_Operation : option operationBody;
}.
Record functionListResponse := { fl_Functions : list functionResponse }.
Record versionResponse := { vr_Version : versionBody; vr_Deployment : option deploymentBody; vr_Operation : option operationBody }.
Record routeResponse := { rr_Route : routeBody; rr_Function : option functionBody; rr_Operation : option operationBody }.
Record artifactBody := { ab_Digest : string; ab_Size : Z }.
Record artifactResponse := { ar_Artifact : artifactBody }.
Record profileResponse := { pf_Profile : string; pf_Replicated : bool; pf_Durable : bool; pf_Message : string }.

Definition metadataView (m : Metadata) : metadataBody :=
  {| mb_ID := md_ID m; mb_Namespace := md_Namespace m; mb_CreatedAt := md_CreatedAt m; mb_UpdatedAt := md_UpdatedAt m;
     mb_CreatedRaftIndex := md_CreatedRaftIndex m; mb_ResourceRevision := md_ResourceRevision m |}.
Definition functionView (f : Function) : functionBody :=
  {| fb_metadata := metadataView (fn_Metadata f); fb_Name := fn_Name f; fb_Description := fn_Description f;
     fb_ActiveRouteRevision := fn_ActiveRouteRevision f; fb_Labels := fn_Labels f; fb_Lifecycle := fn_Lifecycle f |}.
Definition triggerView (t : HTTPTrigger) : option triggerBody :=
  if tr_ID t == "" then None
  else Some {| tb_metadata := metadataView (tr_Metadata t); tb_FunctionID := tr_FunctionID t; tb_Enabled := tr_Enabled t; tb_AuthPolicy := tr_AuthPolicy t |}.
(** [Duration.Milliseconds] rounds towards zero. *)
Definition versionView (v : Version) : versionBody :=
  let r := v_ResourceRequest v in
  {| vb_metadata := metadataView (v_Metadata v); vb_FunctionID := v_FunctionID v; vb_VersionID := v_VersionID v; vb_ArtifactDigest := v_ArtifactDigest v;
     vb_ManifestDigest := v_ManifestDigest v; vb_ArtifactSize := v_ArtifactSize v; vb_ABI := v_ABI v; vb_HostAPIProfile := v_HostAPIProfile v;
     vb_RuntimeFeatureProfile := v_RuntimeFeatureProfile v; vb_Toolchain := v_Toolchain v; vb_AdmissionEpoch := v_AdmissionEpoch v;
     vb_ResourceRequest := {| rb_TimeoutMS := Z.quot (rr_Timeout r) millisecond; rb_MemoryMiB := rr_MemoryMiB r; rb_MaxConcurrency := rr_MaxConcurrency r;
                              rb_MaxInputBytes := rr_MaxInputBytes r; rb_MaxOutputBytes := rr_MaxOutputBytes r |};
     vb_RequestedCapabilities := v_RequestedCapabilities v; vb_State := v_State v; vb_ValidationError := v_ValidationError v |}.
Definition deploymentView (d : option Deployment) : option deploymentBody :=
  match d with
  | None => None
  | Some d =>
    Some {| db_metadata := metadataView (d_Metadata d); db_VersionID := d_VersionID d; db_Generation := d_Generation d;
            db_ScalingRevision := d_ScalingRevision d; db_EffectivePolicyDigest := d_EffectivePolicyDigest d;
            db_GrantedCapabilities := d_GrantedCapabilities d; db_MinReplicas := d_MinReplicas d; db_MaxReplicas := d_MaxReplicas d;
            db_DesiredReplicas := d_DesiredReplicas d; db_ReadyReplicas := d_ReadyReplicas d; db_TargetConcurrency := d_TargetConcurrency d;
            db_ScalingMode := d_ScalingMode d; db_DesiredPhase := d_DesiredPhase d |}
  end.
Definition routeView (r : Route) : routeBody :=
  {| ub_metadata := metadataView (r_Metadata r); ub_FunctionID := r_FunctionID r; ub_RouteRevision := r_RouteRevision r; ub_Targets := r_Targets r;
     ub_Affinity := r_Affinity r; ub_HashVersion := r_HashVersion r; ub_SaltID := r_SaltID r; ub_Enabled := r_Enabled r |}.

(** The zero [Record]. *)
Definition zero_Rec : Rec :=
  {| rc_Key := {| ok_Principal := ""; ok_Namespace := ""; ok_OperationID := "" |}; rc_Digest := "";
     rc_Outcome := {| oc_Status := ""; oc_Failure := None; oc_AffectedResources := []; oc_CredentialIssued := false |};
     rc_CompletedAt := zero_Time; rc_AppliedIndex := 0 |}.
Definition zero_completion : CompletionResult := {| cr_Disposition := ""; cr_Record := zero_Rec |}.
Definition operationView (key : OperationKey) (completion : option CompletionResult) : option operationBody :=
  let completion := default zero_completion completion in
  Some {| ob_ID := ok_OperationID key; ob_Disposition := cr_Disposition completion; ob_RaftAppliedIndex := rc_AppliedIndex (cr_Record completion);
          ob_CompletedAt := rc_CompletedAt (cr_Record completion) |}.
Definition operationRecordView (record : Rec) : operationRecordBody :=
  let o := rc_Outcome record in
  {| cb_OperationID := ok_OperationID (rc_Key record); cb_Principal := ok_Principal (rc_Key record); cb_Namespace := ok_Namespace (rc_Key record);
     cb_RequestDigest := rc_Digest record; cb_Status := oc_Status o; cb_Failure := oc_Failure o; cb_AffectedResources := oc_AffectedResources o;
     cb_CredentialIssued := oc_CredentialIssued o; cb_CompletedAt := rc_CompletedAt record; cb_RaftAppliedIndex := rc_AppliedIndex record |}.
Definition functionOperationResponse (key : OperationKey) (result : operations.FunctionOperationResult) : functionResponse :=
  let view := operations.fr_View result in
  {| fr_Function := functionView (vw_Function view); fr_HTTPTrigger := triggerView (vw_Trigger view); fr_InvocationToken := vw_InvocationToken view;
     fr_Operation := operationView key (operations.fr_Completion result) |}.
Definition artifactView (info : Info) : artifactResponse := {| ar_Artifact := {| ab_Digest := in_Digest info; ab_Size := in_Size info |} |}.

(** ** Marshalling

    Slices and label maps of stored resources are never nil. *)
Definition field_if (present : bool) (name : string) (v : json) : list (string * json) := if present then [(name, v)] else [].
Definition json_opt {A} (name : string) (marshal : A -> result json) (o : option A) : result (list (string * json)) :=
  match o with Some a => v <- marshal a ;; Ok [(name, v)] | None => Ok [] end.

Definition json_metadata (m : metadataBody) : result (list (string * json)) :=
  created <- time_MarshalJSON (mb_CreatedAt m) ;;
  updated <- time_MarshalJSON (mb_UpdatedAt m) ;;
  Ok [("id", JString (mb_ID m)); ("namespace", JString (mb_Namespace m)); ("created_at", created); ("updated_at", updated);
      ("created_raft_index", JInt (mb_CreatedRaftIndex m)); ("resource_revision", JInt (mb_ResourceRevision m))]%string.
Definition json_function (f : functionBody) : result json :=
  metadata <- json_metadata (fb_metadata f) ;;
  Ok (JObject (metadata ++ [("name"%string, JString (fb_Name f))] ++ field_if (fb_Description f != "") "description" (JString (fb_Description f)) ++
    [("active_route_revision", JInt (fb_ActiveRouteRevision f)); ("labels", json.of_map JString (Some (fb_Labels f)));
     ("lifecycle", JString (fb_Lifecycle f))]%string)).
Definition json_trigger (t : triggerBody) : result json :=
  metadata <- json_metadata (tb_metadata t) ;;
  Ok (JObject (metadata ++ [("function_id", JString (tb_FunctionID t)); ("enabled", JBool (tb_Enabled t)); ("auth_policy", JString (tb_AuthPolicy t))]%string)).
Definition json_toolchain (t : ToolchainMetadata) : json :=
  JObject [("name", JString (tc_Name t)); ("version", JString (tc_Version t)); ("provenance", JString (tc_Provenance t))]%string.
Definition json_resources (r : resourceRequestBody) : json :=
  JObject [("timeout_ms", JInt (rb_TimeoutMS r)); ("memory_mib", JInt (rb_MemoryMiB r)); ("max_concurrency", JInt (rb_MaxConcurrency r));
           ("max_input_bytes", JInt (rb_MaxInputBytes r)); ("max_output_bytes", JInt (rb_MaxOutputBytes r))]%string.
Definition json_safe_error (e : SafeError) : json := JObject [("code", JString (se_Code e)); ("message", JString (se_Message e))]%string.
Definition json_version (v : versionBody) : result json :=
  metadata <- json_metadata (vb_metadata v) ;;
  Ok (JObject (metadata ++
    [("function_id", JString (vb_FunctionID v)); ("version_id", JString (vb_VersionID v)); ("artifact_digest", JString (vb_ArtifactDigest v));
     ("manifest_digest", JString (vb_ManifestDigest v)); ("artifact_size", JInt (vb_ArtifactSize v)); ("abi", JString (vb_ABI v));
     ("host_api_profile", JString (vb_HostAPIProfile v)); ("runtime_feature_profile", JString (vb_RuntimeFeatureProfile v));
     ("toolchain_metadata", json_toolchain (vb_Toolchain v)); ("admission_epoch", JInt (vb_AdmissionEpoch v));
     ("resource_request", json_resources (vb_ResourceRequest v));
     ("requested_capabilities", JArray (map json_capability (vb_RequestedCapabilities v))); ("state", JString (vb_State v))]%string ++
    match vb_ValidationError v with Some e => [("validation_error"%string, json_safe_error e)] | None => [] end)).
Definition json_deployment (d : deploymentBody) : result json :=
  metadata <- json_metadata (db_metadata d) ;;
  Ok (JObject (metadata ++
    [("version_id", JString (db_VersionID d)); ("generation", JInt (db_Generation d)); ("scaling_revision", JInt (db_ScalingRevision d));
     ("effective_policy_digest", JString (db_EffectivePolicyDigest d)); ("granted_capabilities", JArray (map json_capability (db_GrantedCapabilities d)));
     ("min_replicas", JInt (db_MinReplicas d)); ("max_replicas", JInt (db_MaxReplicas d)); ("desired_replicas", JInt (db_DesiredReplicas d));
     ("ready_replicas", JInt (db_ReadyReplicas d)); ("target_concurrency", JInt (db_TargetConcurrency d)); ("scaling_mode", JString (db_ScalingMode d));
     ("desired_phase", JString (db_DesiredPhase d))]%string)).
Definition json_route (r : routeBody) : result json :=
  metadata <- json_metadata (ub_metadata r) ;;
  Ok (JObject (metadata ++
    [("function_id", JString (ub_FunctionID r)); ("route_revision", JInt (ub_RouteRevision r)); ("targets", JArray (map discovery.json_target (ub_Targets r)));
     ("affinity_source", JString (ub_Affinity r)); ("hash_version", JString (ub_HashVersion r)); ("salt_id", JString (ub_SaltID r));
     ("enabled", JBool (ub_Enabled r))]%string)).
Definition json_operation (o : operationBody) : result json :=
  completed <- time_MarshalJSON (ob_CompletedAt o) ;;
  Ok (JObject [("id", JString (ob_ID o)); ("disposition", JString (ob_Disposition o)); ("raft_applied_index", JInt (ob_RaftAppliedIndex o));
               ("completed_at", completed)]%string).
Definition json_affected (r : AffectedResource) : json :=
  JObject [("kind", JString (af_Kind r)); ("id", JString (af_ID r)); ("resource_revision", json.of_option JInt (af_ResourceRevision r));
           ("route_revision", json.of_option JInt (af_RouteRevision r))]%string.
Definition json_record (r : operationRecordBody) : result json :=
  completed <- time_MarshalJSON (cb_CompletedAt r) ;;
  Ok (JObject ([("operation_id", JString (cb_OperationID r)); ("principal", JString (cb_Principal r)); ("namespace", JString (cb_Namespace r));
                ("request_digest", JString (cb_RequestDigest r)); ("status", JString (cb_Status r))]%string ++
    match cb_Failure r with
    | Some f => [("failure"%string, JObject [("code", JString (ledger.fl_Code f)); ("message", JString (ledger.fl_Message f))]%string)]
    | None => []
    end ++
    [("affected_resources", JArray (map json_affected (cb_AffectedResources r))); ("credential_issued", JBool (cb_CredentialIssued r));
     ("completed_at", completed); ("raft_applied_index", JInt (cb_RaftAppliedIndex r))]%string)).

Definition json_function_response (r : functionResponse) : result json :=
  function <- json_function (fr_Function r) ;;
  trigger <- json_opt "http_trigger" json_trigger (fr_HTTPTrigger r) ;;
  operation <- json_opt "operation" json_operation (fr_Operation r) ;;
  Ok (JObject ([("function"%string, function)] ++ trigger ++ field_if (fr_InvocationToken r != "") "invocation_token" (JString (fr_InvocationToken r)) ++ operation)).
Definition json_function_list (r : functionListResponse) : result json :=
  functions <- map_result json_function_response (fl_Functions r) ;; Ok (JObject [("functions"%string, JArray functions)]).
Definition json_version_response (r : versionResponse) : result json :=
  version <- json_version (vr_Version r) ;;
  deployment <- json_opt "deployment" json_deployment (vr_Deployment r) ;;
  operation <- json_opt "operation" json_operation (vr_Operation r) ;;
  Ok (JObject ([("version"%string, version)] ++ deployment ++ operation)).
Definition json_route_response (r : routeResponse) : result json :=
  route <- json_route (rr_Route r) ;;
  function <- json_opt "function" json_function (rr_Function r) ;;
  operation <- json_opt "operation" json_operation (rr_Operation r) ;;
  Ok (JObject ([("route"%string, route)] ++ function ++ operation)).
Definition json_artifact_response (r : artifactResponse) : result json :=
  Ok (JObject [("artifact"%string, JObject [("digest", JString (ab_Digest (ar_Artifact r))); ("size", JInt (ab_Size (ar_Artifact r)))]%string)]).
Definition json_profile (p : profileResponse) : result json :=
  Ok (JObject [("profile", JString (pf_Profile p)); ("replicated", JBool (pf_Replicated p)); ("durable", JBool (pf_Durable p));
               ("message", JString (pf_Message p))]%string).

(** ** Request bodies

    A field keeps what an earlier member of the document that selects it left:
    maps and structs are merged, and an array is stored over the elements of
    the slice's backing array. *)
Record createFunctionRequest := { cq_Name : string; cq_Labels : option (gmap string string); cq_AuthPolicy : string }.
Record setLifecycleRequest := { lq_Lifecycle : string }.
(** A slice: its elements, and what its backing array holds after them. *)
Record slice (A : Type) := { sl_elements : option (list A); sl_stale : list A }.
Arguments sl_elements {A}. Arguments sl_stale {A}. Arguments Build_slice {A}.
Record createVersionRequest := {
  nq_ArtifactDigest : string; nq_ManifestDigest : string; nq_Toolchain : ToolchainMetadata; nq_ResourceRequest : resourceRequestBody;
  nq_RequestedCapabilities : slice CapabilityRequest;
}.
Record putRouteRequest := { uq_VersionID : string }.

Definition store_uint32 : list Z -> Z -> result Z := store_number (net.ParseUint 32).
Definition store_string_map (raw : list Z) (old : option (gmap string string)) : result (option (gmap string string)) :=
  if starts 110 raw then Ok None
  else match object_members raw with
  | None => Err (PlainError "json: cannot unmarshal value into Go value of type map[string]string")
  | Some ms => m <- foldl (fun acc '(key, value) => m <- acc ;; v <- store_string value "" ;; Ok (<[key := v]> m)) (Ok (default ∅ old)) ms ;; Ok (Some m)
  end.
Fixpoint store_over {A} (store : list Z -> A -> result A) (zero : A) (raws : list (list Z)) (backing : list A) : result (list A * list A) :=
  match raws with
  | [] => Ok ([], backing)
  | raw :: raws =>
    a <- store raw (hd zero backing) ;;
    rest <- store_over store zero raws (tl backing) ;;
    Ok (a :: fst rest, snd rest)
  end.
Definition store_slice {A} (store : list Z -> A -> result A) (zero : A) (raw : list Z) (old : slice A) : result (slice A) :=
  raws <- store_raws raw ;;
  match raws with
  | None => Ok {| sl_elements := None; sl_stale := [] |}
  | Some [] => Ok {| sl_elements := Some []; sl_stale := [] |}
  | Some raws =>
    stored <- store_over store zero raws (default [] (sl_elements old) ++ sl_stale old) ;;
    Ok {| sl_elements := Some (fst stored); sl_stale := snd stored |}
  end.

Definition store_create_function : list Z -> createFunctionRequest -> result createFunctionRequest :=
  store_struct ["name"; "labels"; "auth_policy"]%string (fun name raw q =>
    if String.eqb name "name" then
      v <- store_string raw (cq_Name q) ;; Ok {| cq_Name := v; cq_Labels := cq_Labels q; cq_AuthPolicy := cq_AuthPolicy q |}
    else if String.eqb name "labels" then
      v <- store_string_map raw (cq_Labels q) ;; Ok {| cq_Name := cq_Name q; cq_Labels := v; cq_AuthPolicy := cq_AuthPolicy q |}
    else v <- store_string raw (cq_AuthPolicy q) ;; Ok {| cq_Name := cq_Name q; cq_Labels := cq_Labels q; cq_AuthPolicy := v |}).
Definition zero_create_function : createFunctionRequest := {| cq_Name := ""; cq_Labels := None; cq_AuthPolicy := "" |}.

Definition store_set_lifecycle : list Z -> setLifecycleRequest -> result setLifecycleRequest :=
  store_struct ["lifecycle"]%string (fun _ raw q => v <- store_string raw (lq_Lifecycle q) ;; Ok {| lq_Lifecycle := v |}).
Definition zero_set_lifecycle : setLifecycleRequest := {| lq_Lifecycle := "" |}.

Definition store_put_route : list Z -> putRouteRequest -> result putRouteRequest :=
  store_struct ["version_id"]%string (fun _ raw q => v <- store_string raw (uq_VersionID q) ;; Ok {| uq_VersionID := v |}).
Definition zero_put_route : putRouteRequest := {| uq_VersionID := "" |}.

Definition store_toolchain : list Z -> ToolchainMetadata -> result ToolchainMetadata :=
  store_struct ["name"; "version"; "provenance"]%string (fun name raw t =>
    if String.eqb name "name" then
      v <- store_string raw (tc_Name t) ;; Ok {| tc_Name := v; tc_Version := tc_Version t; tc_Provenance := tc_Provenance t |}
    else if String.eqb name "version" then
      v <- store_string raw (tc_Version t) ;; Ok {| tc_Name := tc_Name t; tc_Version := v; tc_Provenance := tc_Provenance t |}
    else v <- store_string raw (tc_Provenance t) ;; Ok {| tc_Name := tc_Name t; tc_Version := tc_Version t; tc_Provenance := v |}).
Definition store_capability : list Z -> CapabilityRequest -> result CapabilityRequest :=
  store_struct ["name"; "version"]%string (fun name raw c =>
    if String.eqb name "name" then v <- store_string raw (cap_Name c) ;; Ok {| cap_Name := v; cap_Version := cap_Version c |}
    else v <- store_string raw (cap_Version c) ;; Ok {| cap_Name := cap_Name c; cap_Version := v |}).
Definition store_resources : list Z -> resourceRequestBody -> result resourceRequestBody :=
  store_struct ["timeout_ms"; "memory_mib"; "max_concurrency"; "max_input_bytes"; "max_output_bytes"]%string (fun name raw r =>
    let set timeout memory concurrency input output :=
      {| rb_TimeoutMS := timeout; rb_MemoryMiB := memory; rb_MaxConcurrency := concurrency; rb_MaxInputBytes := input; rb_MaxOutputBytes := output |} in
    if String.eqb name "timeout_ms" then
      v <- store_int raw (rb_TimeoutMS r) ;; Ok (set v (rb_MemoryMiB r) (rb_MaxConcurrency r) (rb_MaxInputBytes r) (rb_MaxOutputBytes r))
    else if String.eqb name "memory_mib" then
      v <- store_uint32 raw (rb_MemoryMiB r) ;; Ok (set (rb_TimeoutMS r) v (rb_MaxConcurrency r) (rb_MaxInputBytes r) (rb_MaxOutputBytes r))
    else if String.eqb name "max_concurrency" then
      v <- store_uint32 raw (rb_MaxConcurrency r) ;; Ok (set (rb_TimeoutMS r) (rb_MemoryMiB r) v (rb_MaxInputBytes r) (rb_MaxOutputBytes r))
    else if String.eqb name "max_input_bytes" then
      v <- store_int raw (rb_MaxInputBytes r) ;; Ok (set (rb_TimeoutMS r) (rb_MemoryMiB r) (rb_MaxConcurrency r) v (rb_MaxOutputBytes r))
    else v <- store_int raw (rb_MaxOutputBytes r) ;; Ok (set (rb_TimeoutMS r) (rb_MemoryMiB r) (rb_MaxConcurrency r) (rb_MaxInputBytes r) v)).
Definition store_create_version : list Z -> createVersionRequest -> result createVersionRequest :=
  store_struct ["artifact_digest"; "manifest_digest"; "toolchain_metadata"; "resource_request"; "requested_capabilities"]%string (fun name raw q =>
    let set artifact manifest toolchain resources capabilities :=
      {| nq_ArtifactDigest := artifact; nq_ManifestDigest := manifest; nq_Toolchain := toolchain; nq_ResourceRequest := resources;
         nq_RequestedCapabilities := capabilities |} in
    if String.eqb name "artifact_digest" then
      v <- store_string raw (nq_ArtifactDigest q) ;; Ok (set v (nq_ManifestDigest q) (nq_Toolchain q) (nq_ResourceRequest q) (nq_RequestedCapabilities q))
    else if String.eqb name "manifest_digest" then
      v <- store_string raw (nq_ManifestDigest q) ;; Ok (set (nq_ArtifactDigest q) v (nq_Toolchain q) (nq_ResourceRequest q) (nq_RequestedCapabilities q))
    else if String.eqb name "toolchain_metadata" then
      v <- store_toolchain raw (nq_Toolchain q) ;; Ok (set (nq_ArtifactDigest q) (nq_ManifestDigest q) v (nq_ResourceRequest q) (nq_RequestedCapabilities q))
    else if String.eqb name "resource_request" then
      v <- store_resources raw (nq_ResourceRequest q) ;; Ok (set (nq_ArtifactDigest q) (nq_ManifestDigest q) (nq_Toolchain q) v (nq_RequestedCapabilities q))
    else
      v <- store_slice store_capability {| cap_Name := ""; cap_Version := "" |} raw (nq_RequestedCapabilities q) ;;
      Ok (set (nq_ArtifactDigest q) (nq_ManifestDigest q) (nq_Toolchain q) (nq_ResourceRequest q) v)).
Definition zero_create_version : createVersionRequest :=
  {| nq_ArtifactDigest := ""; nq_ManifestDigest := ""; nq_Toolchain := {| tc_Name := ""; tc_Version := ""; tc_Provenance := "" |};
     nq_ResourceRequest := {| rb_TimeoutMS := 0; rb_MemoryMiB := 0; rb_MaxConcurrency := 0; rb_MaxInputBytes := 0; rb_MaxOutputBytes := 0 |};
     nq_RequestedCapabilities := {| sl_elements := None; sl_stale := [] |} |}.

End managementtypes.
