(* ===== verification/ManagementHTTP.v ===== *)
(** * Package [internal/managementhttp]: the authenticated management API

    A request is bounded, authenticated against the static token, routed by
    [http.ServeMux] and turned into a call of the local controller.  The world
    is the controller with its sources; what other goroutines do meanwhile,
    contexts and the token bytes of identifiers are inputs. *)
From stdpp Require Import base gmap strings list pretty.
From S2P Require Import Prelude Problem Digest Json Model Catalog ValidatorProtocol Release RouteStore ServingAuth Scheduler Net Discovery AssignmentStore Ledger ControlPlane LocalController LocalOperations Abi Rpc Http GatewayHTTP JsonDecode StrictJson AbiDecode ManagementTypes.
Import problem digest model catalog release ledger localcontroller jsondec http managementtypes.

#[local] Open Scope Z_scope.

Module managementhttp.

Definition OperationIDHeader : string := "X-Minicloud-Operation-Id".
Definition DefaultTimeout : Z := 10 * second.
Definition DefaultMaxBodyBytes : Z := 2 ^ 20.
Definition DefaultMaxConcurrent : Z := 64.
Definition HardMaxConcurrent : Z := 1024.
Definition minTokenBytes : Z := 32.
Definition maxTokenBytes : Z := 4096.
Definition maxJSONDepth : Z := 32.
(** [^[A-Za-z0-9._:-]{1,128}$] *)
Definition requestIDPattern : string -> bool := gatewayhttp.requestIDPattern.
Definition subjectPattern : string -> bool := gatewayhttp.requestIDPattern.

(** [artifact.ErrTooLarge], [artifact.ErrDigestMismatch] *)
Definition ErrTooLarge : string := "artifact exceeds size limit".
Definition ErrDigestMismatch : string := "artifact digest mismatch".

(** ** [http.ServeMux]

    A pattern is a method and segments; no two patterns of the table overlap. *)
Inductive segment := Lit (s : string) | Wild.
Inductive endpoint :=
| Profile | CreateFunction | ListFunctions | GetFunction | SetLifecycle | RotateToken | CreateVersion | GetVersion | PutRoute | GetRoute | PutArtifact | GetOperation.

Definition patterns : list (string * list segment * endpoint) :=
  [("GET", [Lit "v1"; Lit "profile"], Profile);
   ("POST", [Lit "v1"; Lit "functions"], CreateFunction);
   ("GET", [Lit "v1"; Lit "functions"], ListFunctions);
   ("GET", [Lit "v1"; Lit "functions"; Wild], GetFunction);
   ("PATCH", [Lit "v1"; Lit "functions"; Wild], SetLifecycle);
   ("POST", [Lit "v1"; Lit "functions"; Wild; Lit "invocation-token:rotate"], RotateToken);
   ("POST", [Lit "v1"; Lit "functions"; Wild; Lit "versions"], CreateVersion);
   ("GET", [Lit "v1"; Lit "functions"; Wild; Lit "versions"; Wild], GetVersion);
   ("PUT", [Lit "v1"; Lit "functions"; Wild; Lit "route"], PutRoute);
   ("GET", [Lit "v1"; Lit "functions"; Wild; Lit "route"], GetRoute);
   ("PUT", [Lit "v1"; Lit "artifacts"; Wild], PutArtifact);
   ("GET", [Lit "v1"; Lit "operations"; Wild], GetOperation)]%string.

(** [cleanPath]: rooted, without empty, [.] and [..] segments; a trailing
    slash stays. *)
Fixpoint clean_segments (done_ : list (list Z)) (l : list (list Z)) : list (list Z) :=
  match l with
  | [] => rev done_
  | s :: l =>
    if bool_decide (s = []) || bool_decide (s = [46]) then clean_segments done_ l
    else if bool_decide (s = [46; 46]) then clean_segments (tl done_) l
    else clean_segments (s :: done_) l
  end.
Definition join_path (segments : list (list Z)) : list Z := concat (map (fun s => 47 :: s) segments).
Definition cleanPath (p : list Z) : list Z :=
  let p := if starts 47 p then p else 47 :: p in
  match clean_segments [] (net.split 47 p) with
  | [] => [47]
  | segments => join_path segments ++ (if bool_decide (last p = Some 47) then [47] else [])
  end.

(** [url.PathUnescape], the input if it is not valid. *)
Fixpoint path_unescape (l : list Z) : option (list Z) :=
  match l with
  | [] => Some []
  | b :: l' =>
    if b =? 37 then
      match l' with
      | h :: l0 :: l'' =>
        match abi.hex_value h, abi.hex_value l0, path_unescape l'' with
        | Some x, Some y, Some rest => Some (16 * x + y :: rest)
        | _, _, _ => None
        end
      | _ => None
      end
    else match path_unescape l' with Some rest => Some (b :: rest) | None => None end
  end.
Definition pathUnescape (l : list Z) : string := json.str_of (default l (path_unescape l)).

(** The segments of a rooted path; a trailing slash is the segment [/]. *)
Fixpoint slash_last (l : list (list Z)) : list string :=
  match l with
  | [] => []
  | [s] => [if bool_decide (s = []) then "/"%string else pathUnescape s]
  | s :: l => pathUnescape s :: slash_last l
  end.
Definition path_segments (p : list Z) : option (list string) :=
  match p with b :: p' => if b =? 47 then Some (slash_last (net.split 47 p')) else None | [] => None end.

Fixpoint match_segments (pattern : list segment) (segments : list string) : option (list string) :=
  match pattern, segments with
  | [], [] => Some []
  | Lit s :: pattern, s' :: segments => if s' == s then match_segments pattern segments else None
  | Wild :: pattern, s :: segments =>
    if s == "/" then None else match match_segments pattern segments with Some values => Some (s :: values) | None => None end
  | _, _ => None
  end.
Definition match_method (pattern method : string) : bool := (pattern == method) || ((pattern == "GET") && (method == "HEAD")).
Fixpoint find_pattern (method : string) (segments : list string) (l : list (string * list segment * endpoint)) : option (endpoint * list string) :=
  match l with
  | [] => None
  | (m, pattern, e) :: l =>
    match (if match_method m method then match_segments pattern segments else None) with
    | Some values => Some (e, values)
    | None => find_pattern method segments l
    end
  end.
(** [matchingMethods], sorted; [GET] brings [HEAD]. *)
Definition allowed_methods (segments : list string) : list string :=
  let matches method := existsb (fun '(m, pattern, _) => match_method m method && bool_decide (is_Some (match_segments pattern segments))) patterns in
  List.filter matches ["GET"; "HEAD"; "PATCH"; "POST"; "PUT"]%string.

Inductive routed := Matched (e : endpoint) (values : list string) | Redirected (path : list Z) | NotAllowed (methods : list string) | NoPattern | BadTarget.
Definition find_handler (request : Request) : routed :=
  let escaped := codes (hr_EscapedPath request) in
  if bool_decide (escaped = [42]) then BadTarget
  else
    let path := if hr_Method request == "CONNECT" then escaped else cleanPath escaped in
    if bool_decide (path <> escaped) then Redirected path
    else match path_segments path with
    | None => NoPattern
    | Some segments =>
      match find_pattern (hr_Method request) segments patterns with
      | Some (e, values) => Matched e values
      | None => match allowed_methods segments with [] => NoPattern | methods => NotAllowed methods end
      end
    end.

(** [http.Error] *)
Definition http_Error (message : string) (status : Z) (w : ResponseWriter) : ResponseWriter :=
  let w := header_set "Content-Type" "text/plain; charset=utf-8" w in
  let w := header_set "X-Content-Type-Options" "nosniff" w in
  Write (message +:+ json.str_of [10]) (WriteHeader status w).

(** ** Answers *)
Definition setPlatformHeaders (requestID : string) (w : ResponseWriter) : ResponseWriter :=
  header_set "X-Request-ID" requestID (header_set "X-Content-Type-Options" "nosniff" (header_set "Cache-Control" "no-store" w)).
Definition setRevisionHeader (revision : Z) (w : ResponseWriter) : ResponseWriter :=
  header_set "ETag" (json.quote +:+ pretty revision +:+ json.quote) w.
(** A value that does not marshal leaves the body empty. *)
Definition writeJSON (status : Z) (body : result json) (w : ResponseWriter) : ResponseWriter :=
  let w := WriteHeader status (header_set "Content-Type" "application/json" w) in
  match body with Ok v => gatewayhttp.Encode v w | Err _ => w end.
Definition public_error (err : error) : string * string * string :=
  match as_problem err with
  | Some (code, message, field) => if Known code then (code, message, field) else (CodeOperationUnknown, "management request could not be completed", "")%string
  | None => (CodeOperationUnknown, "management request could not be completed", "")%string
  end.
Definition writeError (requestID : string) (err : error) (details : gmap string json) (w : ResponseWriter) : ResponseWriter :=
  let classifiedError := public_error err in
  let w := header_set "Content-Type" "application/json" w in
  let w := WriteHeader (HTTPStatus (fst (fst classifiedError))) w in
  gatewayhttp.Encode (gatewayhttp.json_envelope (NewEnvelope JString classifiedError requestID details)) w.

Definition problemCodeOf (err : error) : string :=
  match as_problem err with Some (code, _, _) => if Known code then code else "" | None => "" end.
Definition writeErrorForOperation (err : error) : error :=
  match as_problem err with
  | Some (code, _, _) => if Known code then err else classified CodeOperationUnknown "management write result is unknown; query the operation id"
  | None => classified CodeOperationUnknown "management write result is unknown; query the operation id"
  end.
Definition credentialDetails (err : error) (view : FunctionView) : gmap string json :=
  if problemCodeOf err != CodeCredentialNotReplayable then ∅
  else
    let f := vw_Function view in
    let t := vw_Trigger view in
    (if tr_ID t != "" then fun m => <["http_trigger_id" := JString (tr_ID t)]> (<["resource_revision" := JInt (tr_Revision t)]> m) else id)
      ((if fn_ID f != "" then fun m => <["function_id" := JString (fn_ID f)]> (<["function_resource_revision" := JInt (fn_Revision f)]> m) else id) ∅)%string.
Definition artifactError (err : error) : error :=
  if errors_Is ErrTooLarge err then Invalid "artifact" "exceeds the artifact size limit"
  else if errors_Is ErrDigestMismatch err then Invalid "artifact" "does not match the requested digest"
  else err.

(** ** Reading a request *)
Definition requireCreatePrecondition (request : Request) : result unit :=
  fail_if (Get (hr_Header request) "If-None-Match" != "*") (Invalid "if-none-match" "must be * for a create request") ;;;
  fail_if (Get (hr_Header request) "If-Match" != "") (Invalid "if-match" "is not allowed for a create request").
Definition parseQuotedRevision (value : string) : option Z :=
  let l := codes value in
  if (strlen value <? 3) || negb (starts 34 l) || negb (bool_decide (last l = Some 34)) then None
  else net.ParseUint 64 (removelast (tl l)).
Definition parseIfMatch (request : Request) (message : string) : result Z :=
  let value := Get (hr_Header request) "If-Match" in
  if value == "" then Err (Invalid "if-match" message)
  else match parseQuotedRevision value with
  | None => Err (Invalid "if-match" message)
  | Some revision => fail_if (revision =? 0) (Invalid "if-match" message) ;;; Ok revision
  end.
Definition expectedRevision (request : Request) : result Z := parseIfMatch request "must be the expected resource revision as a quoted number".
Definition expectedRouteRevision (request : Request) : result Z :=
  let value := Get (hr_Header request) "If-Match" in
  let err := Invalid "if-match" "must be the expected active route revision as a quoted number" in
  if value == "" then Err err
  else match parseQuotedRevision value with None => Err err | Some revision => Ok revision end.

Definition versionInput (functionID : string) (body : createVersionRequest) : result CreateVersionInput :=
  artifactDigest <- replace_err (Invalid "artifact_digest" "must be a lowercase sha-256 digest") (ParseSHA256 (nq_ArtifactDigest body)) ;;
  manifestDigest <- replace_err (Invalid "manifest_digest" "must be a lowercase sha-256 digest") (ParseSHA256 (nq_ManifestDigest body)) ;;
  let r := nq_ResourceRequest body in
  fail_if (rb_TimeoutMS r <? 1) (Invalid "resource_request.timeout_ms" "must be greater than zero") ;;;
  Ok {| vi_FunctionID := functionID; vi_ArtifactDigest := artifactDigest; vi_ManifestDigest := manifestDigest; vi_Toolchain := nq_Toolchain body;
        vi_ResourceRequest := {| rr_Timeout := i64 (rb_TimeoutMS r * millisecond); rr_MemoryMiB := rb_MemoryMiB r; rr_MaxConcurrency := rb_MaxConcurrency r;
                                 rr_MaxInputBytes := rb_MaxInputBytes r; rr_MaxOutputBytes := rb_MaxOutputBytes r |};
        vi_RequestedCapabilities := Some (default [] (sl_elements (nq_RequestedCapabilities body))) |}.

Definition requestIDFrom (value : option string) : string :=
  match value with Some value => if value != "" then value else "unknown" | None => "unknown" end.

(** ** The handler

    [E] is the state of the controller's sources and of the ID source. *)
#[global] Instance strict_json : StrictJSON := strictjson.Validate.

Section handler.
Context `{HJ : JCS} {E File : Type} `{HE : !Sources E File rpc.Reader}.
Abbreviation World := (localcontroller.World (E := E)).

Definition IDSource : Type := string -> E -> E * (string * option error).
Record Config := {
  cf_Controller : bool; cf_Token : string; cf_Subject : string; cf_IDs : option IDSource; cf_Timeout : Z; cf_MaxBodyBytes : Z; cf_MaxArtifactBytes : Z;
  cf_MaxConcurrent : Z;
}.
(** [h_ready]: the controller and the mux are set. *)
Record Handler := {
  h_ready : bool; h_tokenDigest : string; h_subject : string; h_ids : option IDSource; h_timeout : Z; h_maxBody : Z; h_maxArtifact : Z; h_slots : Z;
}.

Definition New (random : IDSource) (config : Config) : result Handler :=
  fail_if (negb (cf_Controller config)) (PlainError "management HTTP controller is required") ;;;
  fail_if ((strlen (cf_Token config) <? minTokenBytes) || (strlen (cf_Token config) >? maxTokenBytes))
    (PlainError "management HTTP token must contain 32 to 4096 bytes") ;;;
  let subject := if cf_Subject config == "" then "admin"%string else cf_Subject config in
  fail_if (negb (subjectPattern subject)) (PlainError "management HTTP subject must be a valid identifier") ;;;
  let timeout := if cf_Timeout config =? 0 then DefaultTimeout else cf_Timeout config in
  fail_if ((timeout <? millisecond) || (timeout >? minute)) (PlainError "management HTTP timeout is outside v1 bounds") ;;;
  let maxBody := if cf_MaxBodyBytes config =? 0 then DefaultMaxBodyBytes else cf_MaxBodyBytes config in
  fail_if ((maxBody <? 1) || (maxBody >? DefaultMaxBodyBytes)) (PlainError "management HTTP body limit is outside v1 bounds") ;;;
  let maxArtifact := if cf_MaxArtifactBytes config =? 0 then MaxArtifactBytes else cf_MaxArtifactBytes config in
  fail_if ((maxArtifact <? 1) || (maxArtifact >? MaxArtifactBytes)) (PlainError "management HTTP artifact limit is outside v1 bounds") ;;;
  let maxConcurrent := if cf_MaxConcurrent config =? 0 then DefaultMaxConcurrent else cf_MaxConcurrent config in
  fail_if ((maxConcurrent <? 1) || (maxConcurrent >? HardMaxConcurrent)) (PlainError "management HTTP concurrency is outside v1 bounds") ;;;
  Ok {| h_ready := true; h_tokenDigest := Sum (cf_Token config); h_subject := subject; h_ids := Some (default random (cf_IDs config));
        h_timeout := timeout; h_maxBody := maxBody; h_maxArtifact := maxArtifact; h_slots := maxConcurrent |}.

(** [subtle.ConstantTimeCompare] is 1 on equal slices. *)
Definition authenticate (h : Handler) (values : list string) : result unit :=
  match values with
  | [value] =>
    let '(scheme, token, found) := Cut 32 value in
    fail_if (negb found || (abi.ToLower scheme != "bearer") || (token == "") || (strlen token >? maxTokenBytes)
             || abi.contains_any [32; 9; 13; 10] token) (classified CodeUnauthenticated "management token is invalid") ;;;
    fail_if (Sum token != h_tokenDigest h) (classified CodeUnauthenticated "management token is invalid")
  | _ => Err (classified CodeUnauthenticated "management token is required")
  end.

Definition requestID (h : option Handler) (request : Request) (e : E) : E * (string * option error) :=
  match h with
  | Some {| h_ids := Some NewID |} =>
    let value := Get (hr_Header request) "X-Request-ID" in
    if value != "" then
      if negb (requestIDPattern value) then
        let '(e, (fallback, _)) := NewID "req"%string e in (e, (fallback, Some (PlainError "invalid request id")))
      else (e, (value, None))
    else
      let '(e, (value, err)) := NewID "req"%string e in
      match err with
      | Some err => (e, ("unknown"%string, Some (WrapError "generating request id" err)))
      | None =>
        if negb (requestIDPattern value) then (e, ("unknown"%string, Some (PlainError "id source returned an invalid request id")))
        else (e, (value, None))
      end
  | _ => (e, ("unknown"%string, Some (PlainError "management HTTP id source is required")))
  end.

Definition operation_key (h : Handler) (id : string) : OperationKey :=
  {| ok_Principal := h_subject h; ok_Namespace := DefaultNamespace; ok_OperationID := id |}.
Definition operationKey (h : Handler) (request : Request) : result OperationKey :=
  let value := Get (hr_Header request) OperationIDHeader in
  fail_if (value == "") (Invalid (ToLower OperationIDHeader) "is required for every management write") ;;;
  OperationKey_Validate (operation_key h value) ;;;
  Ok (operation_key h value).

(** The body behind [MaxBytesReader], read, validated and stored. *)
Definition decodeBody {A} (store : list Z -> A -> result A) (zero : A) (h : Handler) (request : Request) (w : ResponseWriter) : ResponseWriter * result A :=
  let '(w, read) := ReadAll_MaxBytes (hr_HTTP2 request) (hr_Body request) (h_maxBody h) w in
  (w, data <- replace_err (Invalid "body" "must be JSON within the management body limit")
                (data <- read ;; strictjson.Read (Some (abidec.bytes_reader data)) (h_maxBody h)) ;;
      replace_err (Invalid "body" "must be bounded strict JSON") (strictjson.Validate data maxJSONDepth) ;;;
      replace_err (Invalid "body" "does not match the request schema") (snd ((let! raw := Decode in slift (store raw zero)) (NewDecoder (codes data))))).

(** What the environment decides while a request is served: [ctx.Err()] when
    the controller looks, what others do during a version's admission, and
    whether the artifact store read past the limit of the body. *)
Record Env := { ev_cancelled : option error; ev_meanwhile : World -> World; ev_validating : World -> World; ev_overran : bool }.

(** A handler that answers with an error returns. *)
Definition serving : Type := World -> World * ResponseWriter.
Definition or_error {A} (id : string) (w : ResponseWriter) (r : result A) (k : A -> serving) : serving := fun world =>
  match r with Ok a => k a world | Err err => (world, writeError id err ∅ w) end.
Definition decoding {A} (id : string) (decoded : ResponseWriter * result A) (k : ResponseWriter -> A -> serving) : serving :=
  or_error id (fst decoded) (snd decoded) (k (fst decoded)).

Definition handleProfile (w : ResponseWriter) : ResponseWriter :=
  writeJSON 200 (json_profile {| pf_Profile := "local-core"; pf_Replicated := false; pf_Durable := false;
    pf_Message := "single-process development profile: control state does not survive process restart and no quorum or failover guarantee applies" |}) w.

Definition applied (completion : option CompletionResult) : bool := cr_Disposition (default zero_completion completion) == CompletionApplied.

Definition handleCreateFunction (h : Handler) (env : Env) (request : Request) (id : string) (w : ResponseWriter) : serving :=
  or_error id w (operationKey h request) (fun key =>
  or_error id w (requireCreatePrecondition request) (fun _ =>
  decoding id (decodeBody store_create_function zero_create_function h request w) (fun w body world =>
    let '(world, (result, err)) := operations.CreateFunctionOperation (ev_cancelled env)
      {| operations.of_Operation := key;
         operations.of_Function := {| ci_Name := cq_Name body; ci_Labels := cq_Labels body; ci_AuthPolicy := cq_AuthPolicy body |} |} world in
    let view := operations.fr_View result in
    (world, match err with
            | Some err => writeError id (writeErrorForOperation err) (credentialDetails err view) w
            | None =>
              let created := applied (operations.fr_Completion result) in
              let w := if created then header_set "Location" ("/v1/functions/" +:+ fn_ID (vw_Function view)) w else w in
              let w := setRevisionHeader (fn_Revision (vw_Function view)) w in
              writeJSON (if created then 201 else 200) (json_function_response (functionOperationResponse key result)) w
            end)))).

Definition function_response (view : FunctionView) : functionResponse :=
  {| fr_Function := functionView (vw_Function view); fr_HTTPTrigger := triggerView (vw_Trigger view); fr_InvocationToken := ""; fr_Operation := None |}.
Definition handleListFunctions (env : Env) (id : string) (w : ResponseWriter) : serving := fun world =>
  or_error id w (localcontroller.ListFunctions (ev_cancelled env) (fst world)) (fun views world =>
    (world, writeJSON 200 (json_function_list {| fl_Functions := map function_response views |}) w)) world.
Definition handleGetFunction (env : Env) (functionID : string) (id : string) (w : ResponseWriter) : serving := fun world =>
  or_error id w (localcontroller.GetFunction (ev_cancelled env) functionID (fst world)) (fun view world =>
    (world, writeJSON 200 (json_function_response (function_response view)) (setRevisionHeader (fn_Revision (vw_Function view)) w))) world.

Definition handleSetLifecycle (h : Handler) (env : Env) (request : Request) (functionID : string) (id : string) (w : ResponseWriter) : serving :=
  or_error id w (operationKey h request) (fun key =>
  or_error id w (expectedRevision request) (fun expected =>
  decoding id (decodeBody store_set_lifecycle zero_set_lifecycle h request w) (fun w body =>
  or_error id w (fail_if ((lq_Lifecycle body != FunctionActive) && (lq_Lifecycle body != FunctionDisabled)) (Invalid "lifecycle" "must be Active or Disabled"))
    (fun _ world =>
    let '(world, (result, err)) := operations.SetFunctionLifecycleOperation (ev_cancelled env)
      {| operations.ol_Operation := key;
         operations.ol_Lifecycle := {| sf_FunctionID := functionID; sf_ExpectedResourceRevision := expected; sf_Lifecycle := lq_Lifecycle body |} |} world in
    (world, match err with
            | Some err => writeError id (writeErrorForOperation err) ∅ w
            | None =>
              let w := setRevisionHeader (fn_Revision (vw_Function (operations.fr_View result))) w in
              writeJSON 200 (json_function_response (functionOperationResponse key result)) w
            end))))).

Definition handleRotateToken (h : Handler) (env : Env) (request : Request) (functionID : string) (id : string) (w : ResponseWriter) : serving :=
  or_error id w (operationKey h request) (fun key =>
  or_error id w (expectedRevision request) (fun expected world =>
    let '(world, (result, err)) := operations.RotateInvocationTokenOperation (ev_cancelled env)
      {| operations.ot_Operation := key; operations.ot_Rotation := {| rt_FunctionID := functionID; rt_ExpectedResourceRevision := expected |} |} world in
    (world, match err with
            | Some err => writeError id (writeErrorForOperation err) (credentialDetails err (operations.fr_View result)) w
            | None =>
              let w := setRevisionHeader (tr_Revision (vw_Trigger (operations.fr_View result))) w in
              writeJSON 200 (json_function_response (functionOperationResponse key result)) w
            end))).

(** The body as the store sees it. *)
Definition MaxBytesReader (body : rpc.Reader) (limit : Z) : rpc.Reader :=
  if strlen (rpc.rd_bytes body) >? limit
  then {| rpc.rd_bytes := String.substring 0 (Z.to_nat limit) (rpc.rd_bytes body); rpc.rd_err := Some MaxBytesError; rpc.rd_together := rpc.rd_together body |}
  else body.
Definition handlePutArtifact (h : Handler) (env : Env) (request : Request) (digest : string) (id : string) (w : ResponseWriter) : serving :=
  or_error id w (replace_err (Invalid "digest" "must be a lowercase sha-256 digest") (ParseSHA256 digest)) (fun expected world =>
    let body := hr_Body request in
    let '(world, put) := localcontroller.PutArtifact (ev_cancelled env) expected (MaxBytesReader body (h_maxArtifact h)) world in
    let w := if ev_overran env && (strlen (rpc.rd_bytes body) >? h_maxArtifact h) && negb (hr_HTTP2 request) then header_set "Connection" "close" w else w in
    (world, match put with
            | Err err => writeError id (artifactError err) ∅ w
            | Ok info => writeJSON (if in_Created info then 201 else 200) (json_artifact_response (artifactView info)) w
            end)).

Definition handleCreateVersion (h : Handler) (env : Env) (request : Request) (functionID : string) (id : string) (w : ResponseWriter) : serving :=
  or_error id w (operationKey h request) (fun key =>
  or_error id w (requireCreatePrecondition request) (fun _ =>
  decoding id (decodeBody store_create_version zero_create_version h request w) (fun w body =>
  or_error id w (versionInput functionID body) (fun input world =>
    let '(world, (result, err)) := operations.CreateVersionOperation (ev_cancelled env) (ev_meanwhile env) (ev_validating env)
      {| operations.ov_Operation := key; operations.ov_Version := input |} world in
    let version := operations.vr_Version result in
    let answer :=
      let created := applied (operations.vr_Completion result) in
      let w := if created then header_set "Location" ("/v1/functions/" +:+ vi_FunctionID input +:+ "/versions/" +:+ v_VersionID version) w else w in
      let w := setRevisionHeader (v_Revision version) w in
      writeJSON (if created then 201 else 200)
        (json_version_response {| vr_Version := versionView version; vr_Deployment := deploymentView (operations.vr_Deployment result);
                                  vr_Operation := operationView key (operations.vr_Completion result) |}) w in
    (world, match err with
            | Some err => if v_VersionID version == "" then writeError id (writeErrorForOperation err) ∅ w else answer
            | None => answer
            end))))).

Definition handleGetVersion (env : Env) (functionID versionID : string) (id : string) (w : ResponseWriter) : serving := fun world =>
  or_error id w (localcontroller.GetVersion (ev_cancelled env) versionID (fst world)) (fun found world =>
    let '(version, deployment) := found in
    (world, if v_FunctionID version != functionID then writeError id (classified CodeNotFound "version was not found") ∅ w
            else writeJSON 200 (json_version_response {| vr_Version := versionView version; vr_Deployment := deploymentView deployment; vr_Operation := None |})
                   (setRevisionHeader (v_Revision version) w))) world.

Definition handlePutRoute (h : Handler) (env : Env) (request : Request) (functionID : string) (id : string) (w : ResponseWriter) : serving :=
  or_error id w (operationKey h request) (fun key =>
  or_error id w (expectedRouteRevision request) (fun expected =>
  decoding id (decodeBody store_put_route zero_put_route h request w) (fun w body world =>
    let '(world, (result, err)) := operations.PublishRouteOperation (ev_cancelled env)
      {| operations.op_Operation := key;
         operations.op_Route := {| pi_FunctionID := functionID; pi_VersionID := uq_VersionID body; pi_ExpectedActiveRouteRevision := expected |} |} world in
    (world, match err with
            | Some err => writeError id (writeErrorForOperation err) ∅ w
            | None =>
              let w := setRevisionHeader (r_RouteRevision (operations.rr_Route result)) w in
              writeJSON 200 (json_route_response {| rr_Route := routeView (operations.rr_Route result); rr_Function := Some (functionView (operations.rr_Function result));
                                                    rr_Operation := operationView key (operations.rr_Completion result) |}) w
            end)))).

Definition handleGetRoute (env : Env) (functionID : string) (id : string) (w : ResponseWriter) : serving := fun world =>
  or_error id w (localcontroller.GetRoute (ev_cancelled env) functionID (fst world)) (fun route world =>
    (world, writeJSON 200 (json_route_response {| rr_Route := routeView route; rr_Function := None; rr_Operation := None |})
              (setRevisionHeader (r_RouteRevision route) w))) world.
Definition handleGetOperation (h : Handler) (env : Env) (operationID : string) (id : string) (w : ResponseWriter) : serving := fun world =>
  or_error id w (operations.GetOperation (ev_cancelled env) (operation_key h operationID) (fst world)) (fun record world =>
    (world, writeJSON 200 (json_record (operationRecordView record)) w)) world.

(** [PathValue] of the wildcards in order. *)
Definition handle (h : Handler) (env : Env) (request : Request) (e : endpoint) (values : list string) (id : string) (w : ResponseWriter) : serving :=
  let value n := nth n values ""%string in
  match e with
  | Profile => fun world => (world, handleProfile w)
  | CreateFunction => handleCreateFunction h env request id w
  | ListFunctions => handleListFunctions env id w
  | GetFunction => handleGetFunction env (value 0%nat) id w
  | SetLifecycle => handleSetLifecycle h env request (value 0%nat) id w
  | RotateToken => handleRotateToken h env request (value 0%nat) id w
  | CreateVersion => handleCreateVersion h env request (value 0%nat) id w
  | GetVersion => handleGetVersion env (value 0%nat) (value 1%nat) id w
  | PutRoute => handlePutRoute h env request (value 0%nat) id w
  | GetRoute => handleGetRoute env (value 0%nat) id w
  | PutArtifact => handlePutArtifact h env request (value 0%nat) id w
  | GetOperation => handleGetOperation h env (value 0%nat) id w
  end.

(** [redirect] is [http.RedirectHandler] to the cleaned path. *)
Definition mux_ServeHTTP (redirect : list Z -> Request -> ResponseWriter -> ResponseWriter) (h : Handler) (env : Env) (request : Request) (id : string) (w : ResponseWriter)
    : serving :=
  match find_handler request with
  | Matched e values => handle h env request e values (requestIDFrom (Some id)) w
  | Redirected path => fun world => (world, redirect path request w)
  | NotAllowed methods => fun world => (world, http_Error "Method Not Allowed" 405 (header_set "Allow" (json.join ", " methods) w))
  | NoPattern => fun world => (world, http_Error "404 page not found" 404 w)
  | BadTarget => fun world => (world, WriteHeader 400 (header_set "Connection" "close" w))
  end.

(** [sv_used] slots are taken.  A request is answered at once or takes a slot;
    it is served later, and returns its slot. *)
Record Server := { sv_used : Z; sv_world : World }.

Definition enter (h : option Handler) (request : Request) (s : Server) : Server * (ResponseWriter + Handler * string * ResponseWriter) :=
  let '(e, (id, err)) := requestID h request (snd (sv_world s)) in
  let s := {| sv_used := sv_used s; sv_world := (fst (sv_world s), e) |} in
  match err with
  | Some _ => (s, inl (writeError id (Invalid "x-request-id" "must be a valid request identifier") ∅ fresh))
  | None =>
    let response := setPlatformHeaders id fresh in
    match h with
    | Some h =>
      if negb (h_ready h) then (s, inl (writeError id (PlainError "management HTTP dependencies are required") ∅ response))
      else if sv_used s <? h_slots h then ({| sv_used := sv_used s + 1; sv_world := sv_world s |}, inr (h, id, response))
      else (s, inl (writeError id (classified CodeOverloaded "management concurrency limit exceeded") ∅ response))
    | None => (s, inl (writeError id (PlainError "management HTTP dependencies are required") ∅ response))
    end
  end.
Definition serve (redirect : list Z -> Request -> ResponseWriter -> ResponseWriter) (h : Handler) (env : Env) (request : Request) (id : string) (response : ResponseWriter)
    : serving := fun world =>
  match authenticate h (Values (hr_Header request) "Authorization") with
  | Err err => (world, writeError id err ∅ (header_set "WWW-Authenticate" "Bearer" response))
  | Ok _ => mux_ServeHTTP redirect h env request id response world
  end.
Definition leave (s : Server) (world : World) : Server := {| sv_used := sv_used s - 1; sv_world := world |}.

Definition ServeHTTP (redirect : list Z -> Request -> ResponseWriter -> ResponseWriter) (h : option Handler) (env : Env) (request : Request) (s : Server)
    : Server * ResponseWriter :=
  let '(s, entered) := enter h request s in
  match entered with
  | inl response => (s, response)
  | inr (h, id, response) => let '(world, response) := serve redirect h env request id response (sv_world s) in (leave s world, response)
  end.

End handler.

(** ** What a write request asks for *)
Section writes.
Context `{HJ : JCS} {E File : Type} `{HE : !Sources E File rpc.Reader}.
#[local] Abbreviation World := (localcontroller.World (E := E)).
#[local] Abbreviation Handler := (Handler (E := E)).
#[local] Abbreviation operation := (operations.operation (E := E)).
#[local] Abbreviation Env := (Env (E := E)).

Definition body_of {A} (store : list Z -> A -> result A) (zero : A) (h : Handler) (request : Request) : result A := snd (decodeBody store zero h request fresh).
Definition write_of (h : Handler) (env : Env) (request : Request) (e : endpoint) (values : list string) : option (result operation) :=
  let functionID := nth 0 values ""%string in
  match e with
  | CreateFunction => Some (
      key <- operationKey h request ;;
      requireCreatePrecondition request ;;;
      body <- body_of store_create_function zero_create_function h request ;;
      Ok (operations.WriteFunction {| operations.of_Operation := key;
        operations.of_Function := {| ci_Name := cq_Name body; ci_Labels := cq_Labels body; ci_AuthPolicy := cq_AuthPolicy body |} |}))
  | SetLifecycle => Some (
      key <- operationKey h request ;;
      expected <- expectedRevision request ;;
      body <- body_of store_set_lifecycle zero_set_lifecycle h request ;;
      fail_if ((lq_Lifecycle body != FunctionActive) && (lq_Lifecycle body != FunctionDisabled)) (Invalid "lifecycle" "must be Active or Disabled") ;;;
      Ok (operations.WriteLifecycle {| operations.ol_Operation := key;
        operations.ol_Lifecycle := {| sf_FunctionID := functionID; sf_ExpectedResourceRevision := expected; sf_Lifecycle := lq_Lifecycle body |} |}))
  | RotateToken => Some (
      key <- operationKey h request ;;
      expected <- expectedRevision request ;;
      Ok (operations.WriteRotation {| operations.ot_Operation := key;
        operations.ot_Rotation := {| rt_FunctionID := functionID; rt_ExpectedResourceRevision := expected |} |}))
  | CreateVersion => Some (
      key <- operationKey h request ;;
      requireCreatePrecondition request ;;;
      body <- body_of store_create_version zero_create_version h request ;;
      input <- versionInput functionID body ;;
      Ok (operations.WriteVersion (ev_meanwhile env) (ev_validating env) {| operations.ov_Operation := key; operations.ov_Version := input |}))
  | PutRoute => Some (
      key <- operationKey h request ;;
      expected <- expectedRouteRevision request ;;
      body <- body_of store_put_route zero_put_route h request ;;
      Ok (operations.WriteRoute {| operations.op_Operation := key;
        operations.op_Route := {| pi_FunctionID := functionID; pi_VersionID := uq_VersionID body; pi_ExpectedActiveRouteRevision := expected |} |}))
  | _ => None
  end.
(** The precondition that each write has to carry. *)
Definition conditional (request : Request) (e : endpoint) : Prop :=
  match e with
  | CreateFunction | CreateVersion => Get (hr_Header request) "If-None-Match" = "*"%string /\ Get (hr_Header request) "If-Match" = ""%string
  | SetLifecycle | RotateToken => exists revision, parseQuotedRevision (Get (hr_Header request) "If-Match") = Some revision /\ revision <> 0
  | PutRoute => exists revision, parseQuotedRevision (Get (hr_Header request) "If-Match") = Some revision
  | _ => False
  end.
Definition request_key (h : Handler) (request : Request) : OperationKey := operation_key h (Get (hr_Header request) OperationIDHeader).

Lemma decodeBody_writer {A} (store : list Z -> A -> result A) zero (h : Handler) request w : snd (decodeBody store zero h request w) = body_of store zero h request.
Proof. unfold body_of, decodeBody, ReadAll_MaxBytes. by destruct (_ >? _). Qed.
Lemma operationKey_Ok (h : Handler) request key : operationKey h request = Ok key -> key = request_key h request /\ OperationKey_Validate key = Ok tt.
Proof. unfold operationKey. intros H. apply rbind_Ok in H as ([] & _ & H). apply rbind_Ok in H as ([] & Hv & H). apply Ok_inj in H. by subst key. Qed.
Lemma expectedRevision_Ok request n : expectedRevision request = Ok n -> parseQuotedRevision (Get (hr_Header request) "If-Match") = Some n /\ n <> 0.
Proof.
  unfold expectedRevision, parseIfMatch. destruct (Get _ _ == ""); [done|]. destruct (parseQuotedRevision _) as [m|]; [|done].
  intros H. apply rbind_Ok in H as ([] & H1%fail_if_Ok & H). apply Ok_inj in H. subst m. apply Z.eqb_neq in H1. done.
Qed.
Lemma expectedRouteRevision_Ok request n : expectedRouteRevision request = Ok n -> parseQuotedRevision (Get (hr_Header request) "If-Match") = Some n.
Proof. unfold expectedRouteRevision. destruct (Get _ _ == ""); [done|]. destruct (parseQuotedRevision _) as [m|]; [|done]. by intros [= ->]. Qed.

Lemma requireCreatePrecondition_Ok request u : requireCreatePrecondition request = Ok u -> conditional request CreateFunction.
Proof. unfold requireCreatePrecondition. intros H. apply rbind_Ok in H as ([] & H1%fail_if_Ok & H2%fail_if_Ok). by go_cases. Qed.

Lemma write_of_Ok (h : Handler) env request e values op : write_of h env request e values = Some (Ok op) ->
  operations.op_key op = request_key h request /\ OperationKey_Validate (request_key h request) = Ok tt /\ conditional request e /\
  (Rely (ev_meanwhile env) -> Rely (ev_validating env) -> operations.op_relies op).
Proof.
  destruct e; try done; cbn [write_of]; intros [= H]; apply rbind_Ok in H as (key & [-> Hk]%operationKey_Ok & H).
  - apply rbind_Ok in H as ([] & Hc%requireCreatePrecondition_Ok & H). apply rbind_Ok in H as (body & _ & H). apply Ok_inj in H. by subst op.
  - apply rbind_Ok in H as (n & Hn%expectedRevision_Ok & H). apply rbind_Ok in H as (body & _ & H). apply rbind_Ok in H as ([] & _ & H). apply Ok_inj in H.
    subst op. split_and!; try done. by exists n.
  - apply rbind_Ok in H as (n & Hn%expectedRevision_Ok & H). apply Ok_inj in H. subst op. split_and!; try done. by exists n.
  - apply rbind_Ok in H as ([] & Hc%requireCreatePrecondition_Ok & H). apply rbind_Ok in H as (body & _ & H). apply rbind_Ok in H as (input & _ & H).
    apply Ok_inj in H. by subst op.
  - apply rbind_Ok in H as (n & Hn%expectedRouteRevision_Ok & H). apply rbind_Ok in H as (body & _ & H). apply Ok_inj in H. subst op. split_and!; try done. by exists n.
Qed.

(** ** The effect of an endpoint on the world *)
Lemma or_error_world {A} id w (r : result A) (k : A -> serving (E := E)) world :
  fst (or_error id w r k world) = match r with Ok a => fst (k a world) | Err _ => world end.
Proof. unfold or_error. by destruct r. Qed.
Lemma admitted_cancelled {A} err request (zero : A) k (w : World) : operations.admitted (Some err) request zero k w = (w, (zero, Some (WrapError "local controller context is unavailable" err))).
Proof. done. Qed.

Definition effect (env : Env) (op : operation) (world : World) : World :=
  match ev_cancelled env with Some _ => world | None => fst (operations.perform op world) end.
Lemma handle_effect (h : Handler) env request e values id w world r : write_of h env request e values = Some r ->
  fst (handle h env request e values id w world) = match r with Ok op => effect env op world | Err _ => world end.
Proof.
  unfold effect. destruct e; try done; cbn [write_of handle]; intros [= <-];
    unfold handleCreateFunction, handleSetLifecycle, handleRotateToken, handleCreateVersion, handlePutRoute, decoding;
    rewrite or_error_world; (destruct (operationKey h request) as [key|]; [|done]); cbn [rbind].
  - rewrite or_error_world. destruct (requireCreatePrecondition request); [|done]. cbn [rbind]. rewrite or_error_world, decodeBody_writer.
    destruct (body_of _ _ h request) as [body|]; [|done]. cbn [rbind]. destruct (ev_cancelled env); [done|]. unfold operations.perform.
    by destruct (operations.CreateFunctionOperation _ _ _) as [? []].
  - rewrite or_error_world. destruct (expectedRevision request); [|done]. cbn [rbind]. rewrite or_error_world, decodeBody_writer.
    destruct (body_of _ _ h request) as [body|]; [|done]. cbn [rbind]. rewrite or_error_world. destruct (fail_if _ _); [|done]. cbn [rbind].
    destruct (ev_cancelled env); [done|]. unfold operations.perform. by destruct (operations.SetFunctionLifecycleOperation _ _ _) as [? []].
  - rewrite or_error_world. destruct (expectedRevision request); [|done]. cbn [rbind]. destruct (ev_cancelled env); [done|]. unfold operations.perform.
    by destruct (operations.RotateInvocationTokenOperation _ _ _) as [? []].
  - rewrite or_error_world. destruct (requireCreatePrecondition request); [|done]. cbn [rbind]. rewrite or_error_world, decodeBody_writer.
    destruct (body_of _ _ h request) as [body|]; [|done]. cbn [rbind]. rewrite or_error_world. destruct (versionInput _ _); [|done]. cbn [rbind].
    destruct (ev_cancelled env); [done|]. unfold operations.perform. by destruct (operations.CreateVersionOperation _ _ _ _ _) as [? []].
  - rewrite or_error_world. destruct (expectedRouteRevision request); [|done]. cbn [rbind]. rewrite or_error_world, decodeBody_writer.
    destruct (body_of _ _ h request) as [body|]; [|done]. cbn [rbind]. destruct (ev_cancelled env); [done|]. unfold operations.perform.
    by destruct (operations.PublishRouteOperation _ _ _) as [? []].
Qed.
(** The other endpoints leave the controller alone. *)
Lemma handle_reads (h : Handler) env request e values id w world : write_of h env request e values = None ->
  fst (fst (handle h env request e values id w world)) = fst world.
Proof.
  destruct e; try done; intros _; cbn [handle];
    unfold handleListFunctions, handleGetFunction, handleGetVersion, handleGetRoute, handleGetOperation, handlePutArtifact; try done;
    rewrite or_error_world; case_match; try done; try (case_match; done).
  - unfold localcontroller.PutArtifact, sbind, slift, with_env. destruct (checkContext _) as [u|e]; [|done].
    destruct (swrap _ _ _) as [e [info|err]]; [|done]. by destruct (fail_if _ _).
Qed.
(** ** What an operation leaves behind *)

Ltac settles Hstage Hf :=
  match goal with Hp : _ = (?w1, _) |- _ =>
    let w2 := fresh "w2" in let Ha := fresh "Ha" in
    destruct (operations.applyOperation _ _ _ _ _) as [w2 [[? ?] ?]] eqn:Ha; pose proof (Hstage _ _ _ _ _ _ _ Hf Ha);
    unfold operations.function_result in Hp; assert (w1 = w2) as -> by (by repeat case_match; simplify_eq); naive_solver
  end.
(** Nothing, or a record of its key that was not there before. *)
Lemma perform_recorded op (w w1 : World) out : ctl_inv (fst w) -> operations.op_relies op -> operations.perform op w = (w1, out) ->
  (ctl_stores (fst w1) = ctl_stores (fst w) /\ ctl_ledger (fst w1) = ctl_ledger (fst w)) \/
  (l_records (ctl_ledger (fst w)) !! makeOperationKey (operations.op_key op) = None /\
   exists res err rec request, operations.fresh op w w1 res err rec request).
Proof.
  intros Hinv Hrel Hp. destruct (operations.op_request op) as [request|e] eqn:Hreq.
  2:{ left. destruct op; cbn [operations.perform operations.op_request] in Hreq, Hp;
        unfold operations.CreateFunctionOperation, operations.SetFunctionLifecycleOperation, operations.RotateInvocationTokenOperation,
          operations.CreateVersionOperation, operations.PublishRouteOperation, operations.admitted in Hp; cbn [checkContext rbind] in Hp; rewrite Hreq in Hp;
        by injection Hp as <- _. }
  assert (forall V (zero : V) prepare w2 result v err, operations.faithful prepare (operations.op_identifies op) ->
    operations.applyOperation zero (operations.op_key op) request prepare w = (w2, (result, v, err)) ->
    (ctl_stores (fst w2) = ctl_stores (fst w) /\ ctl_ledger (fst w2) = ctl_ledger (fst w) /\
       (err <> None \/ exists res, result = Some res /\ (cr_Disposition res != CompletionApplied) = true)) \/
    (l_records (ctl_ledger (fst w)) !! makeOperationKey (operations.op_key op) = None /\
     exists res rec, operations.fresh op w w2 res err rec request)) as Hstage.
  { intros V zero prepare w2 result v err Hf Ha.
    pose proof (operations.applyOperation_ends _ _ _ _ _ _ _ _ _ _ Hf Hinv Ha) as He.
    inversion He as [e1 H1|r1 Hr1 Hd1|w3 v3 e3 H3 H4|w4 v4 e4 r4 H5 H6 H7 H8 H9 H10|w5 v5 r5 o5 H11 H12 H13 H14 H15 H16]; subst.
    - left. split_and!; try done. by left.
    - left. split_and!; try done. right. eexists. split; [done|]. apply operations.replayDisposition_not_applied.
    - left. split_and!; try done. by left.
    - right. split; [apply H6|]. destruct (operations.stage_fresh _ op _ _ _ _ _ _ _ Hf Hinv Hreq Ha eq_refl) as [rec Hrec]. eauto.
    - right. split; [apply H11|]. destruct (operations.stage_fresh _ op _ _ _ _ _ _ _ Hf Hinv Hreq Ha eq_refl) as [rec Hrec]. eauto. }
  destruct op as [i|i|i|f g i|i]; cbn [operations.perform operations.op_request] in Hreq, Hp;
    unfold operations.CreateFunctionOperation, operations.SetFunctionLifecycleOperation, operations.RotateInvocationTokenOperation,
      operations.CreateVersionOperation, operations.PublishRouteOperation, operations.admitted in Hp; cbn [checkContext rbind] in Hp; rewrite Hreq in Hp.
  - settles Hstage (operations.prepare_create_function_faithful (operations.of_Function i)).
  - settles Hstage (operations.prepare_lifecycle_faithful (operations.ol_Lifecycle i)).
  - settles Hstage (operations.prepare_rotation_faithful (operations.ot_Rotation i)).
  - destruct Hrel as [Hrf Hrg]. destruct (operations.applyOperation _ _ _ _ w) as [w2 [[result [prepared created]] err]] eqn:Ha.
    pose proof (Hstage _ _ _ _ _ _ _ (operations.prepare_create_version_faithful (operations.ov_Version i)) Ha) as Hst.
    assert (w1 = w2 \/ (err = None /\ moves (fst w2) (fst w1) /\ exists res, result = Some res /\ (cr_Disposition res != CompletionApplied) = false)) as Hw.
    { destruct err as [err|]; [left; by injection Hp|]. destruct result as [res|]; [|left; by injection Hp]. destruct (_ != _) eqn:Hd; [left; repeat case_match; by simplify_eq|].
      destruct prepared as [prepared|]; [|left; by injection Hp]. right. split; [done|].
      pose proof (driveAdmission_Delivers g created prepared Hrg (f w2)) as Hm.
      destruct (driveAdmission g created prepared (f w2)) as [w3 [admission err]]. injection Hp as <- _. split; [|by exists res].
      etrans; [apply Hrf|exact Hm]. }
    destruct Hw as [->|(-> & Hm & res & -> & Hd)]; [naive_solver|]. destruct Hst as [(_ & _ & [?|(? & [= <-] & Hd')])|(Hn & r & rec & Hfr)]; [done|congruence|].
    right. split; [done|]. exists r, None, rec, request. by eapply operations.fresh_later.
  - settles Hstage (operations.prepare_publish_faithful (operations.op_Route i)).
Qed.
(** ** Answers *)
Lemma status_header_set key value w : rw_Status (header_set key value w) = rw_Status w.
Proof. done. Qed.
Lemma status_writeError id err details w : rw_Status w = None -> rw_Status (writeError id err details w) = Some (HTTPStatus (fst (fst (public_error err)))).
Proof. intros Hw. unfold writeError, gatewayhttp.Encode, Write, WriteHeader. cbn [rw_Status]. by rewrite status_header_set, Hw. Qed.
Lemma status_writeJSON status body w : rw_Status w = None -> rw_Status (writeJSON status body w) = Some status.
Proof. intros Hw. unfold writeJSON, gatewayhttp.Encode, Write, WriteHeader. cbn [rw_Status]. rewrite status_header_set, Hw. by destruct body. Qed.
Lemma decodeBody_status {A} (store : list Z -> A -> result A) zero (h : Handler) request w : rw_Status (fst (decodeBody store zero h request w)) = rw_Status w.
Proof. unfold decodeBody, ReadAll_MaxBytes. destruct (_ >? _); [|done]. by destruct (hr_HTTP2 request). Qed.

(** A version operation that is not applied by this call has no version to
    show when it fails. *)
Lemma version_unapplied cancelled f g i (w w' : World) r err : operations.CreateVersionOperation cancelled f g i w = (w', (r, Some err)) ->
  applied (operations.vr_Completion r) = false -> v_VersionID (operations.vr_Version r) = ""%string.
Proof.
  unfold operations.CreateVersionOperation, operations.admitted. destruct (rbind _ _) as [request|]; [|by intros [= <- <- _]].
  destruct (operations.applyOperation _ _ _ _ w) as [w2 [[result [prepared created]] e]]. destruct e as [e|]; [by intros [= <- <- _]|].
  destruct result as [res|]; [|by intros [= <- <-]]. destruct (_ != _) eqn:Hd.
  { destruct (operations.replayedVersionResult _ _); [by intros [= <- <-]|by intros [= <- <- _]]. }
  destruct prepared as [prepared|]; [|by intros [= <- <-]]. destruct (driveAdmission _ _ _ _) as [w3 [admission e]]. intros [= <- <- _].
  unfold applied. cbn [operations.vr_Completion default]. intros Hn. cbn in Hn. by rewrite Hn in Hd.
Qed.

(** What the caller of a write that others already completed sees. *)
Definition answer_status (err : option error) : Z :=
  match err with None => 200 | Some err => HTTPStatus (fst (fst (public_error (writeErrorForOperation err)))) end.
Lemma handle_replay (h : Handler) env request e values id w (world w' : World) op completion err :
  write_of h env request e values = Some (Ok op) -> ev_cancelled env = None -> rw_Status w = None ->
  operations.perform op world = (w', (completion, err)) -> applied completion = false ->
  rw_Status (snd (handle h env request e values id w world)) = Some (answer_status err).
Proof.
  intros Hop Hcancel Hw Hp Ha. unfold answer_status.
  destruct e; try done; cbn [write_of] in Hop; injection Hop as Hop; apply rbind_Ok in Hop as (key & Hk & Hop); cbn [handle];
    unfold handleCreateFunction, handleSetLifecycle, handleRotateToken, handleCreateVersion, handlePutRoute, decoding, or_error; rewrite Hk.
  - apply rbind_Ok in Hop as ([] & Hc & Hop). apply rbind_Ok in Hop as (body & Hb & Hop). apply Ok_inj in Hop. subst op.
    rewrite Hc, decodeBody_writer, Hb, Hcancel. cbn [operations.perform] in Hp. destruct (operations.CreateFunctionOperation _ _ _) as [? [r err']].
    injection Hp as -> Hcr ->. cbn [fst snd]. destruct err; [by rewrite status_writeError by (by rewrite decodeBody_status)|].
    rewrite Hcr, Ha. apply status_writeJSON. unfold setRevisionHeader. by rewrite status_header_set, decodeBody_status.
  - apply rbind_Ok in Hop as (n & Hc & Hop). apply rbind_Ok in Hop as (body & Hb & Hop). apply rbind_Ok in Hop as ([] & Hf & Hop). apply Ok_inj in Hop. subst op.
    rewrite Hc, decodeBody_writer, Hb, Hf, Hcancel. cbn [operations.perform] in Hp. destruct (operations.SetFunctionLifecycleOperation _ _ _) as [? [r err']].
    injection Hp as -> Hcr ->. cbn [fst snd]. destruct err; [by rewrite status_writeError by (by rewrite decodeBody_status)|].
    apply status_writeJSON. unfold setRevisionHeader. by rewrite status_header_set, decodeBody_status.
  - apply rbind_Ok in Hop as (n & Hc & Hop). apply Ok_inj in Hop. subst op. rewrite Hc, Hcancel. cbn [operations.perform] in Hp.
    destruct (operations.RotateInvocationTokenOperation _ _ _) as [? [r err']]. injection Hp as -> Hcr ->. cbn [fst snd]. destruct err; [by rewrite status_writeError|].
    by apply status_writeJSON.
  - apply rbind_Ok in Hop as ([] & Hc & Hop). apply rbind_Ok in Hop as (body & Hb & Hop). apply rbind_Ok in Hop as (input & Hi & Hop). apply Ok_inj in Hop. subst op.
    rewrite Hc, decodeBody_writer, Hb, Hi, Hcancel. cbn [operations.perform] in Hp. destruct (operations.CreateVersionOperation _ _ _ _ _) as [? [r err']] eqn:Hv.
    injection Hp as -> Hcr ->. cbn [fst snd]. rewrite Hcr, Ha. destruct err as [err|].
    + rewrite (version_unapplied _ _ _ _ _ _ _ _ Hv) by (by rewrite Hcr). cbn beta iota. rewrite bool_decide_true by done.
      by rewrite status_writeError by (by rewrite decodeBody_status).
    + apply status_writeJSON. unfold setRevisionHeader. by rewrite status_header_set, decodeBody_status.
  - apply rbind_Ok in Hop as (n & Hc & Hop). apply rbind_Ok in Hop as (body & Hb & Hop). apply Ok_inj in Hop. subst op.
    rewrite Hc, decodeBody_writer, Hb, Hcancel. cbn [operations.perform] in Hp. destruct (operations.PublishRouteOperation _ _ _) as [? [r err']].
    injection Hp as -> Hcr ->. cbn [fst snd]. destruct err; [by rewrite status_writeError by (by rewrite decodeBody_status)|].
    apply status_writeJSON. unfold setRevisionHeader. by rewrite status_header_set, decodeBody_status.
Qed.

(** The credential of the management API. *)
Definition authorized (h : Handler) (values : list string) : Prop :=
  exists scheme token, values = [scheme +:+ " " +:+ token] /\ (32 ∉ codes scheme) /\ abi.ToLower scheme = "bearer"%string /\
    strlen token <= maxTokenBytes /\ abi.contains_any [32; 9; 13; 10] token = false /\ Sum token = h_tokenDigest h.
Lemma authenticate_sound (h : Handler) values u : authenticate h values = Ok u -> authorized h values.
Proof.
  unfold authenticate, authorized. destruct values as [|value [|]]; try done. destruct (Cut 32 value) as [[scheme token] found] eqn:Ec.
  intros H. apply rbind_Ok in H as ([] & H1%fail_if_Ok & H2%fail_if_Ok). go_cases. subst found.
  apply Cut_found in Ec as [-> Hn]; [|done]. exists scheme, token. by split_and!.
Qed.
(** ** Serving a request *)
Definition same_state (w w' : World) : Prop := ctl_stores (fst w') = ctl_stores (fst w) /\ ctl_ledger (fst w') = ctl_ledger (fst w).
(** A new record for the operation of the request. *)
Definition recorded (h : Handler) (env : Env) (request : Request) (w w' : World) (rec : Rec) : Prop :=
  exists e values op sent, find_handler request = Matched e values /\ write_of h env request e values = Some (Ok op) /\
    operations.op_request op = Ok sent /\ Request_Digest sent = Ok (rc_Digest rec) /\
    l_records (ctl_ledger (fst w)) !! makeOperationKey (request_key h request) = None /\
    l_records (ctl_ledger (fst w')) !! makeOperationKey (request_key h request) = Some rec /\
    operations.answers op (ctl_stores (fst w')) rec /\
    (oc_Status (rc_Outcome rec) = OutcomeFailed -> ctl_stores (fst w') = ctl_stores (fst w)).

Lemma effect_recorded env op (w : World) : ctl_inv (fst w) -> operations.op_relies op ->
  moves (fst w) (fst (effect env op w)) /\
  (same_state w (effect env op w) \/
   (l_records (ctl_ledger (fst w)) !! makeOperationKey (operations.op_key op) = None /\
    exists res err rec request, operations.fresh op w (effect env op w) res err rec request)).
Proof.
  intros Hinv Hrel. unfold effect. destruct (ev_cancelled env); [split; [done|by left]|]. split; [by apply operations.perform_moves|].
  destruct (operations.perform op w) as [w1 out] eqn:Hp. by eapply perform_recorded.
Qed.

Lemma mux_recorded redirect (h : Handler) env request id response (w : World) :
  ctl_inv (fst w) -> Rely (ev_meanwhile env) -> Rely (ev_validating env) ->
  let w' := fst (mux_ServeHTTP redirect h env request id response w) in
  moves (fst w) (fst w') /\ (same_state w w' \/ exists e values rec, find_handler request = Matched e values /\ conditional request e /\ recorded h env request w w' rec).
Proof.
  intros Hinv Hm Hv. unfold mux_ServeHTTP. destruct (find_handler request) as [e values|path|methods| |] eqn:Hf; cbn [fst]; try (split; [done|by left]).
  destruct (write_of h env request e values) as [[op|err]|] eqn:Hop.
  - rewrite (handle_effect _ _ _ _ _ _ _ _ _ Hop). destruct (write_of_Ok _ _ _ _ _ _ Hop) as (Hk & _ & Hc & Hrel).
    destruct (effect_recorded env op w Hinv (Hrel Hm Hv)) as [Hmv [Hs|(Hn & res & err & rec & sent & Hfr)]]; (split; [done|]); [by left|]. right.
    exists e, values, rec. split_and!; try done. exists e, values, op, sent. rewrite <-Hk. split_and!; try done; try apply Hfr.
  - rewrite (handle_effect _ _ _ _ _ _ _ _ _ Hop). split; [done|by left].
  - pose proof (handle_reads h env request e values (requestIDFrom (Some id)) response w Hop) as Hr. unfold same_state. rewrite Hr. split; [done|by left].
Qed.

Lemma public_error_classified err : Known (fst (fst (public_error err))) = true.
Proof. unfold public_error. destruct (as_problem err) as [[[code message] field]|]; [|done]. by destruct (Known code) eqn:Hk. Qed.
Definition successful (response : ResponseWriter) : Prop := rw_Status response = Some 200 \/ rw_Status response = Some 201.
Lemma writeError_unsuccessful id err details w : rw_Status w = None -> ~ successful (writeError id err details w).
Proof.
  intros Hw. unfold successful. rewrite status_writeError by done.
  pose proof (HTTPStatus_known _ (public_error_classified err)) as [H _]. intros [[= Hs]|[= Hs]]; lia.
Qed.

(** C25: The management API changes nothing without a credential, a
    precondition and a record.  Whatever a request contains and whatever other
    goroutines do meanwhile: the controller keeps its invariants and the slot is returned;
    a success is answered only to the static token; and if the stores or the
    ledger change, then the request carried the token, was routed to one of
    the five writes with the precondition of that write, named an Operation ID
    that was free, and that ID is now recorded for the configured subject with
    the digest of exactly this write; a failure that is recorded changed no
    store. *)
Theorem management_writes_recorded redirect (h : Handler) env request s s' response :
  ctl_inv (fst (sv_world s)) -> Rely (ev_meanwhile env) -> Rely (ev_validating env) ->
  ServeHTTP redirect (Some h) env request s = (s', response) ->
  ctl_inv (fst (sv_world s')) /\ sv_used s' = sv_used s /\
  (successful response -> authorized h (Values (hr_Header request) "Authorization")) /\
  (same_state (sv_world s) (sv_world s') \/
   (authorized h (Values (hr_Header request) "Authorization") /\
    exists e values rec, find_handler request = Matched e values /\ conditional request e /\ recorded h env request (sv_world s) (sv_world s') rec)).
Proof.
  intros Hinv Hm Hv. unfold ServeHTTP, enter. destruct (requestID (Some h) request (snd (sv_world s))) as [e [id err]].
  destruct err as [err|].
  { intros [= <- <-]. split_and!; try done; [|by left]. by intros ?%writeError_unsuccessful. }
  destruct (negb (h_ready h)).
  { intros [= <- <-]. split_and!; try done; [|by left]. by intros ?%writeError_unsuccessful. }
  cbn [sv_used sv_world]. destruct (sv_used s <? h_slots h).
  2:{ intros [= <- <-]. split_and!; try done; [|by left]. by intros ?%writeError_unsuccessful. }
  unfold serve. destruct (authenticate h _) as [u|err] eqn:Ha.
  2:{ intros [= <- <-]. cbn [leave sv_used sv_world]. split_and!; [done|lia| |by left]. by intros ?%writeError_unsuccessful. }
  apply authenticate_sound in Ha. set (w := (fst (sv_world s), e)). pose proof (mux_recorded redirect h env request id (setPlatformHeaders id fresh) w Hinv Hm Hv) as Hr.
  cbv zeta in Hr. destruct Hr as [Hmv Hrec].
  cbn [sv_world]. destruct (mux_ServeHTTP redirect h env request id (setPlatformHeaders id fresh) w) as [w' response'] eqn:Hmux. cbn [fst] in Hmv, Hrec. intros [= <- <-]. cbn [leave sv_used sv_world].
  split_and!; [by apply Hmv|lia|done|]. destruct Hrec as [?|?]; [by left|by right].
Qed.
(** ** Retries *)
Definition public_code (code : string) : string := if Known code then code else CodeOperationUnknown.
(** The status that a record is answered with. *)
Definition replay_status (rec : Rec) : Z :=
  let o := rc_Outcome rec in
  if oc_Status o == OutcomeFailed then HTTPStatus match oc_Failure o with Some f => public_code (ledger.fl_Code f) | None => CodeOperationUnknown end
  else if oc_CredentialIssued o then HTTPStatus CodeCredentialNotReplayable
  else 200.
Lemma answer_replay rec : answer_status (operations.replay_error (cloneRecord rec)) = replay_status rec.
Proof.
  unfold answer_status, operations.replay_error, replay_status. change (oc_Status (rc_Outcome (cloneRecord rec))) with (oc_Status (rc_Outcome rec)).
  change (oc_Failure (rc_Outcome (cloneRecord rec))) with (oc_Failure (rc_Outcome rec)). change (oc_CredentialIssued (rc_Outcome (cloneRecord rec))) with (oc_CredentialIssued (rc_Outcome rec)).
  destruct (oc_Status (rc_Outcome rec) == OutcomeFailed).
  - destruct (oc_Failure (rc_Outcome rec)) as [f|]; [|done]. unfold operations.failureError, writeErrorForOperation, public_code. cbn [as_problem].
    destruct (Known (ledger.fl_Code f)) eqn:Hk; [|done]. unfold public_error. cbn [as_problem]. by rewrite Hk.
  - by destruct (oc_CredentialIssued (rc_Outcome rec)).
Qed.

Lemma write_of_retry (h : Handler) env env' request e values op : write_of h env request e values = Some (Ok op) ->
  exists op', write_of h env' request e values = Some (Ok op') /\ operations.retry_of op op'.
Proof.
  destruct e; try done; cbn [write_of]; intros [= H].
  1,2,3,5: exists op; rewrite H; split; [done|]; (repeat (let a := fresh in let Ha := fresh in apply rbind_Ok in H as (a & Ha & H))); apply Ok_inj in H; by subst op.
  apply rbind_Ok in H as (key & Hk & H). apply rbind_Ok in H as ([] & Hc & H). apply rbind_Ok in H as (body & Hb & H). apply rbind_Ok in H as (input & Hi & H).
  apply Ok_inj in H. subst op. rewrite Hk. cbn [rbind]. rewrite Hc. cbn [rbind]. rewrite Hb. cbn [rbind]. rewrite Hi. cbn [rbind]. by eexists.
Qed.

(** C26: A management write can be retried.  If serving a request recorded its
    operation, then serving the same request again, at any later time and
    whatever was done in between, changes nothing at all, neither the
    controller nor its sources, and answers from the record: with 200 for a
    success, with the status of the recorded failure, and with the refusal to
    show a credential again for a write that issued one. *)
Theorem management_retry redirect (h : Handler) env env' request id id' response response' (w w1 w2 : World) answer rec :
  ctl_inv (fst w) -> Rely (ev_meanwhile env) -> Rely (ev_validating env) ->
  serve redirect h env request id response w = (w1, answer) -> recorded h env request w w1 rec -> moves (fst w1) (fst w2) ->
  ev_cancelled env' = None -> rw_Status response' = None ->
  exists answer', serve redirect h env' request id' response' w2 = (w2, answer') /\ rw_Status answer' = Some (replay_status rec).
Proof.
  intros Hinv Hm Hv Hs (e & values & op & sent & Hf & Hop & Hreq & Hd & Hn & Hr & Hans & _) Hmv Hcancel Hst. unfold serve in *.
  destruct (authenticate h _) as [u|err] eqn:Ha; [|injection Hs as <- <-; congruence].
  pose proof (mux_recorded redirect h env request id response w Hinv Hm Hv) as [Hmv1 _]. rewrite Hs in Hmv1. cbn [fst] in Hmv1.
  destruct (Hmv1 Hinv) as [Hinv1 _], (Hmv Hinv1) as [Hinv2 Hev].
  destruct (write_of_Ok _ _ _ _ _ _ Hop) as (Hk & Hval & _ & _). destruct (write_of_retry h env env' request e values op Hop) as (op' & Hop' & Hretry).
  destruct (operations.retry_of_same op op' Hretry) as (Hk' & Hreq' & Hid').
  assert (operations.perform op' w2 = (w2, (Some (operations.answered (cloneRecord rec)), operations.replay_error (cloneRecord rec)))) as Hp.
  { apply operations.perform_retained with sent; rewrite ?Hk', ?Hk, ?Hreq'; try done; [by eapply lookup_weaken; [exact Hr|apply (ev_records _ _ Hev)]|].
    destruct Hans as [?|(o & Ho & Hsu & Hi)]; [by left|]. right. exists o. rewrite Hid'. split_and!; [done|done|].
    eapply operations.op_identifies_kept; [apply (ev_stores _ _ Hev)|apply (cn_stores _ Hinv1)|done]. }
  unfold mux_ServeHTTP. rewrite Hf. pose proof (handle_effect h env' request e values (requestIDFrom (Some id')) response' w2 _ Hop') as He.
  unfold effect in He. rewrite Hcancel, Hp in He. cbn [fst] in He.
  pose proof (handle_replay h env' request e values (requestIDFrom (Some id')) response' w2 w2 op' _ _ Hop' Hcancel Hst Hp) as Hstat.
  destruct (handle h env' request e values (requestIDFrom (Some id')) response' w2) as [w3 answer']. cbn [fst snd] in He, Hstat. subst w3. exists answer'. split; [done|].
  rewrite Hstat, answer_replay; [done|]. unfold applied. cbn [default]. pose proof (operations.replayDisposition_not_applied (cloneRecord rec)) as Hx. by apply negb_true_iff in Hx.
Qed.
End writes.

(** ** Secrets *)
Definition redact_trigger (t : HTTPTrigger) : HTTPTrigger :=
  {| tr_Metadata := tr_Metadata t; tr_FunctionID := tr_FunctionID t; tr_Enabled := tr_Enabled t; tr_AuthPolicy := tr_AuthPolicy t; tr_TokenVerifierDigest := None |}.
Definition redact_route (r : Route) : Route :=
  {| r_Metadata := r_Metadata r; r_FunctionID := r_FunctionID r; r_RouteRevision := r_RouteRevision r; r_Targets := r_Targets r; r_Affinity := r_Affinity r;
     r_AffinityHeader := r_AffinityHeader r; r_HashVersion := r_HashVersion r; r_SaltID := r_SaltID r; r_Salt := ""; r_Enabled := r_Enabled r |}.
Definition redact_stores (s : routestore.Stores) : routestore.Stores :=
  {| routestore.st_catalog := {| functionsByID := functionsByID (routestore.st_catalog s); functionIDByName := functionIDByName (routestore.st_catalog s);
                                 triggersByID := redact_trigger <$> triggersByID (routestore.st_catalog s); triggerIDByFunc := triggerIDByFunc (routestore.st_catalog s) |};
     routestore.st_releases := routestore.st_releases s;
     routestore.st_routes := {| routestore.routes := redact_route <$> routestore.routes (routestore.st_routes s); routestore.routeIDs := routestore.routeIDs (routestore.st_routes s) |} |}.
(** The controller without verifier digests and route salts. *)
Definition redact (c : Controller) : Controller :=
  set_stores c {| controlplane.cp_stores := redact_stores (controlplane.cp_stores (ctl_stores c)); controlplane.cp_assignments := controlplane.cp_assignments (ctl_stores c) |}.

Section secrets.
Context `{HJ : JCS} {E File : Type} `{HE : !Sources E File rpc.Reader}.

Lemma redact_GetFunction c id : catalog.GetFunction (ctl_catalog (redact c)) id =
  match catalog.GetFunction (ctl_catalog c) id with Ok (f, t) => Ok (f, redact_trigger t) | Err e => Err e end.
Proof.
  unfold catalog.GetFunction. destruct (fail_if _ _); [|done]. cbn [rbind ctl_catalog redact]. unfold ctl_catalog. cbn.
  destruct (functionsByID _ !! id); [|done]. rewrite lookup_fmap. by destruct (triggersByID _ !! _).
Qed.
Lemma redact_route_Get c id : routestore.Get (ctl_routes (redact c)) id =
  match routestore.Get (ctl_routes c) id with Ok r => Ok (redact_route r) | Err e => Err e end.
Proof.
  unfold routestore.Get. destruct (fail_if _ _); [|done]. cbn [rbind]. unfold ctl_routes. cbn. rewrite lookup_fmap. by destruct (routestore.routes _ !! id).
Qed.
Definition redact_view (v : FunctionView) : FunctionView :=
  {| vw_Function := vw_Function v; vw_Trigger := redact_trigger (vw_Trigger v); vw_InvocationToken := vw_InvocationToken v |}.
Definition redacted {A} (f : A -> A) (r : result A) : result A := match r with Ok a => Ok (f a) | Err e => Err e end.
Lemma redact_triggers l : triggers_by_function (map redact_trigger l) = redact_trigger <$> triggers_by_function l.
Proof.
  assert (forall m, foldl (fun m t => <[tr_FunctionID t := t]> m) (redact_trigger <$> m) (map redact_trigger l) =
    redact_trigger <$> foldl (fun m t => <[tr_FunctionID t := t]> m) (m : gmap string HTTPTrigger) l) as H.
  { induction l as [|t l IH]; intros m; [done|]. cbn [map foldl]. rewrite <-IH. f_equal. by rewrite fmap_insert. }
  specialize (H ∅). by rewrite fmap_empty in H.
Qed.
Lemma redact_Snapshot c : catalog.Snapshot (ctl_catalog (redact c)) =
  {| snap_Functions := snap_Functions (catalog.Snapshot (ctl_catalog c)); snap_Triggers := map redact_trigger (snap_Triggers (catalog.Snapshot (ctl_catalog c))) |}.
Proof.
  unfold catalog.Snapshot, catalog.snapshot_in, ctl_catalog. cbn. f_equal.
  induction (SortFunc _ _) as [|f l IH]; [done|]. cbn [map]. rewrite IH, lookup_fmap. f_equal. by destruct (triggersByID _ !! _).
Qed.
Lemma redact_ListFunctions cancelled c : localcontroller.ListFunctions cancelled (redact c) = redacted (map redact_view) (localcontroller.ListFunctions cancelled c).
Proof.
  unfold localcontroller.ListFunctions. destruct (checkContext cancelled); [|done]. cbn [rbind]. rewrite redact_Snapshot. cbn [snap_Functions snap_Triggers].
  rewrite redact_triggers. generalize (snap_Functions (catalog.Snapshot (ctl_catalog c))). generalize (triggers_by_function (snap_Triggers (catalog.Snapshot (ctl_catalog c)))).
  intros triggers l. induction l as [|f l IH]; [done|]. cbn [map_result]. rewrite IH, lookup_fmap. destruct (triggers !! fn_ID f); [|done]. cbn [fmap option_fmap option_map rbind].
  match goal with |- context [redacted _ ?r] => destruct r as [views|err] end; reflexivity.
Qed.

(** C27: Reads show no secret.  Every endpoint that reads answers the same,
    header by header and byte by byte, when all verifier digests of Triggers
    and all salts of Routes are erased from the controller: nothing about them
    can be learned from an answer.  The projections of a write's result are
    as blind. *)
Theorem reads_confidential (h : Handler (E := E)) env request e values id w c s :
  write_of h env request e values = None -> e <> PutArtifact ->
  snd (handle h env request e values id w (redact c, s)) = snd (handle h env request e values id w (c, s)) /\
  (forall key result completion, functionOperationResponse key {| operations.fr_Completion := completion; operations.fr_View := redact_view result |} =
     functionOperationResponse key {| operations.fr_Completion := completion; operations.fr_View := result |}) /\
  (forall route, routeView (redact_route route) = routeView route).
Proof.
  intros Hr Hp. split; [|done]. destruct e; try done; cbn [handle];
    unfold handleListFunctions, handleGetFunction, handleGetVersion, handleGetRoute, handleGetOperation, or_error; cbn [fst].
  - rewrite redact_ListFunctions. destruct (localcontroller.ListFunctions _ c) as [views|]; [|done]. cbn [redacted snd].
    assert (map function_response (map redact_view views) = map function_response views) as -> by (rewrite map_map; by apply map_ext). done.
  - unfold localcontroller.GetFunction. destruct (checkContext _); [|done]. cbn [rbind]. rewrite redact_GetFunction.
    by destruct (catalog.GetFunction (ctl_catalog c) _) as [[f t]|].
  - unfold localcontroller.GetVersion. destruct (checkContext _); [|done]. cbn [rbind]. change (ctl_releases (redact c)) with (ctl_releases c). by destruct (wrap_err _ _) as [[v d]|].
  - unfold localcontroller.GetRoute. destruct (checkContext _); [|done]. cbn [rbind]. rewrite redact_route_Get. by destruct (routestore.Get (ctl_routes c) _).
  - unfold operations.GetOperation. destruct (checkContext _); [|done]. cbn [rbind]. change (ctl_ledger (redact c)) with (ctl_ledger c). by destruct (wrap_err _ _).
Qed.
End secrets.

(** ** Witnesses *)
#[local] Instance ex_jcs : JCS := fun document => Ok document.
Definition ex_counted {A} (f : Z -> result A) : M Z A := fun n => (n + 1, f (n + 1)).
#[local] Instance ex_sources : Sources Z unit rpc.Reader := {|
  Commands_Next := ex_counted (fun n => Ok {| mt_AppliedIndex := n; mt_At := ex_at n |});
  IDs_NewID := fun prefix => ex_counted (fun n => Ok (prefix +:+ "-" +:+ hex_EncodeToString [n]));
  Salts_NewSalt := ex_counted (fun n => Ok (json.str_of (replicate 16 n)));
  Tokens_NewToken := ex_counted (fun n => Ok ("token-" +:+ hex_EncodeToString [n]));
  Artifacts_Put := fun digest body => match rpc.rd_err body with
                                      | Some err => sthrow (WrapError "writing temporary artifact" err)
                                      | None => sret {| in_Digest := digest; in_Size := strlen (rpc.rd_bytes body); in_Created := true |}
                                      end;
  Artifacts_OpenVerified := fun digest => sthrow (PlainError "no artifact");
  File_Close := fun _ => sret tt;
  Validator_Validate := fun _ _ => sthrow (PlainError "validator is not available");
|}.
Definition ex_token : string := "0123456789abcdef0123456789abcdef".
Definition ex_config : Config (E := Z) :=
  {| cf_Controller := true; cf_Token := ex_token; cf_Subject := ""; cf_IDs := None; cf_Timeout := 0; cf_MaxBodyBytes := 0; cf_MaxArtifactBytes := 8; cf_MaxConcurrent := 0 |}.
Definition ex_random : IDSource (E := Z) := fun prefix n => (n + 1, ((prefix +:+ "-1")%string, None)).
Definition ex_handler : Handler (E := Z) :=
  match New ex_random ex_config with Ok h => h | Err _ => {| h_ready := false; h_tokenDigest := ""; h_subject := ""; h_ids := None; h_timeout := 0; h_maxBody := 0; h_maxArtifact := 0; h_slots := 0 |} end.
Definition ex_env : Env (E := Z) := {| ev_cancelled := None; ev_meanwhile := fun w => w; ev_validating := fun w => w; ev_overran := true |}.
Definition ex_redirect (_ : list Z) (_ : Request) (w : ResponseWriter) : ResponseWriter := WriteHeader 301 w.
Definition ex_headers : Header :=
  Set_ "If-None-Match" "*" (Set_ OperationIDHeader "op-1" (Set_ "Authorization" ("Bearer " +:+ ex_token) ∅)).
Definition ex_request (method path : string) (headers : Header) (body : string) : Request :=
  {| hr_Method := method; hr_EscapedPath := path; hr_RawQuery := ""; hr_Header := headers; hr_Body := abidec.bytes_reader body; hr_Deadline := None; hr_HTTP2 := false |}.
Definition ex_create : Request :=
  ex_request "POST" "/v1/functions" ex_headers (json.Marshal (JObject [("name", JString "hello"); ("auth_policy", JString "token")]%string)).
Definition ex_server : Server (E := Z) := {| sv_used := 3; sv_world := (localcontroller.New, 0) |}.
Definition ex_served : Server * ResponseWriter := ServeHTTP ex_redirect (Some ex_handler) ex_env ex_create ex_server.
#[local] Instance ex_rely : Rely (E := Z) (fun w => w).
Proof. intros w. done. Qed.

Lemma management_writes_recorded_witness :
  rw_Status (snd ex_served) = Some 201 /\ authorized ex_handler (Values ex_headers "Authorization") /\
  ~ same_state (sv_world ex_server) (sv_world (fst ex_served)) /\ ctl_inv (fst (sv_world (fst ex_served))).
Proof.
  assert (rw_Status (snd ex_served) = Some 201) as Hst by (vm_compute; exact eq_refl).
  assert (~ same_state (sv_world ex_server) (sv_world (fst ex_served))) as Hne.
  { intros [_ H]. apply (f_equal (fun l => size (l_records l))) in H. vm_compute in H. discriminate H. }
  destruct (management_writes_recorded ex_redirect ex_handler ex_env ex_create ex_server (fst ex_served) (snd ex_served)) as (H1 & _ & _ & [H2|[H2 _]]).
  - exact New_inv.
  - exact ex_rely.
  - exact ex_rely.
  - unfold ex_served. destruct (ServeHTTP _ _ _ _ _). exact eq_refl.
  - contradiction.
  - exact (conj Hst (conj H2 (conj Hne H1))).
Defined.

Definition ex_world : localcontroller.World (E := Z) := (localcontroller.New, 0).
Definition ex_first := serve ex_redirect ex_handler ex_env ex_create "req-1" fresh ex_world.
(** Another caller creates another function. *)
Definition ex_later : localcontroller.World (E := Z) :=
  fst (localcontroller.CreateFunction None {| ci_Name := "world"; ci_Labels := None; ci_AuthPolicy := AuthPolicyToken |} (fst ex_first)).
Lemma management_retry_witness :
  rw_Status (snd ex_first) = Some 201 /\
  exists answer', serve ex_redirect ex_handler ex_env ex_create "req-2" fresh ex_later = (ex_later, answer') /\ rw_Status answer' = Some 409.
Proof.
  split; [vm_compute; exact eq_refl|].
  assert (fst ex_first = fst (mux_ServeHTTP ex_redirect ex_handler ex_env ex_create "req-1" fresh ex_world)) as Hmux by (vm_compute; exact eq_refl).
  destruct (mux_recorded ex_redirect ex_handler ex_env ex_create "req-1" fresh ex_world New_inv ex_rely ex_rely) as [_ [[_ H]|(e & values & rec & _ & _ & Hrec)]].
  { exfalso. apply (f_equal (fun l => size (l_records l))) in H. vm_compute in H. discriminate H. }
  rewrite <-Hmux in Hrec. assert (replay_status rec = 409) as <-.
  { assert (replay_status <$> l_records (ctl_ledger (fst (fst ex_first))) !! makeOperationKey (request_key ex_handler ex_create) = Some 409) as Hx
      by (vm_compute; exact eq_refl).
    destruct Hrec as (? & ? & ? & ? & _ & _ & _ & _ & _ & Hr & _). rewrite Hr in Hx. injection Hx as Hx. exact Hx. }
  apply (management_retry ex_redirect ex_handler ex_env ex_env ex_create "req-1" "req-2" fresh fresh ex_world (fst ex_first) ex_later (snd ex_first) rec).
  - exact New_inv.
  - exact ex_rely.
  - exact ex_rely.
  - unfold ex_first. destruct (serve _ _ _ _ _ _ _). exact eq_refl.
  - exact Hrec.
  - apply (guarantees (m := localcontroller.CreateFunction None _)).
  - exact eq_refl.
  - exact eq_refl.
Defined.

(** Paths and methods. *)
Example find_handler_ex :
  map (fun '(method, path) => find_handler (ex_request method path ∅ ""))
    [("GET", "/v1/functions/fn-1/versions/v%201"); ("HEAD", "/v1/profile"); ("DELETE", "/v1/functions/fn-1"); ("GET", "/v1/functions/"); ("GET", "/v1//profile");
     ("GET", "/v1/functions/%2F"); ("PUT", "/v1/x/../artifacts/a")]%string =
  [Matched GetVersion ["fn-1"; "v 1"]; Matched Profile []; NotAllowed ["GET"; "HEAD"; "PATCH"]; NoPattern; Redirected (codes "/v1/profile");
   NoPattern; Redirected (codes "/v1/artifacts/a")]%string.
Proof. vm_compute. exact eq_refl. Qed.

(** A body over the artifact limit ends with the error of [MaxBytesReader],
    which is not [artifact.ErrTooLarge] and has no class: the caller is told
    that the result is unknown. *)
Example oversized_artifact :
  let request := ex_request "PUT" ("/v1/artifacts/" +:+ Sum "123456789") (Set_ "Authorization" ("Bearer " +:+ ex_token) ∅) "123456789" in
  let '(_, answer) := serve ex_redirect ex_handler ex_env request "req-1" fresh ex_world in
  rw_Status answer = Some (HTTPStatus CodeOperationUnknown) /\ Get (rw_Header answer) "Connection" = "close"%string.
Proof. vm_compute. split; exact eq_refl. Qed.

(** The function that was created; its Trigger has a verifier digest. *)
Definition ex_read (c : Controller) : ResponseWriter := snd (handle ex_handler ex_env (ex_request "GET" "/v1/functions" ∅ "") ListFunctions [] "req-2" fresh (c, 0)).
Lemma reads_confidential_witness :
  redact (fst (fst ex_first)) <> fst (fst ex_first) /\ rw_Status (ex_read (fst (fst ex_first))) = Some 200 /\
  ex_read (redact (fst (fst ex_first))) = ex_read (fst (fst ex_first)).
Proof.
  split; [|split; [vm_compute; exact eq_refl|]].
  - intros H. apply (f_equal (fun c => map (fun t => tr_TokenVerifierDigest (snd t)) (map_to_list (triggersByID (ctl_catalog c))))) in H. vm_compute in H. discriminate H.
  - unfold ex_read. apply (reads_confidential ex_handler ex_env); [exact eq_refl|discriminate].
Defined.

End managementhttp.
